(* ===== verification/_CoqProject ===== *)
-Q . S2P
Prelude.v
GoStrings.v
QueryAst.v
QueryTokens.v
QueryParser.v
QueryPrint.v
QueryCompiler.v
RbacPolicy.v
RbacStorage.v
RbacEngine.v
CircuitBreaker.v
Retry.v
MemoryCache.v
Saga.v
DslAst.v
DslSymbols.v
DslValidator.v
DslScoping.v
DslAccepted.v
EventBus.v
MongoQuery.v
Pagination.v
Shutdown.v
GoText.v
GoDuration.v
IntegrationClient.v
GoValue.v
EventRegistry.v
AuthJwt.v
AuthMiddleware.v
RbacMiddleware.v
AuthLoader.v
Endpoints.v
Generator.v
GoCrypto.v
WebhookClient.v
WebhookRepository.v
WebhookService.v
WebhookQueue.v
JobRepository.v
JobScheduler.v
EndpointValidator.v
WorkflowValidator.v
Workflow.v
EndpointRoutes.v
EndpointParser.v
WorkflowParser.v
DslParser.v
DslPositions.v
OpenApi.v
OpenApiMapper.v
OpenApiDocument.v
Migrator.v
Health.v
QueryExecutor.v
Regexp.v
Redactor.v
GraphQl.v
GraphQlBuilder.v
ParamValidation.v
MongoWhere.v
Models.v
MongoRepository.v
MongoAdapters.v
SqlRepositories.v
ApiBase.v
ApiHandlers.v
WebhookHandlers.v
JobHandlers.v
EventStore.v
EmailService.v
EmailHandlers.v
WorkflowActivities.v
WorkflowDefinitions.v
SagaWorkflow.v
WorkflowEngine.v
IntegrationConfig.v
RestClient.v
GraphQlClient.v
