(* ===== verification/Prelude.v ===== *)
(** * CodeAI: a verification of its core

    CodeAI (Go) reads a specification in a small language, validates it and
    serves the application it describes.  This library models the parts that
    carry its own logic as executable Rocq definitions, translated from the
    source, and proves what makes them correct.  Go's [(T, error)] results are
    values of [result], methods with a pointer receiver pass the receiver's
    state, integers that can overflow wrap at their width, times are
    nanoseconds, and every reading of the clock, of randomness or of a callback
    is an argument.  Run-time panics and divergence are [None].

    ** The parts and their files

    - [Prelude], [GoStrings], [GoText], [GoDuration], [Regexp], [GoValue],
      [GoCrypto]: results, the state-and-error monad, 64-bit
      integers; the byte strings, integer, float and duration conversions,
      UTF-8, letter case, text functions and regular expressions of Go's
      standard library that the program uses; values of type [interface{}] with
      a heap of maps; what a keyed hash and its encoding promise.
    - The query language, [internal/query]: [QueryAst] ([ast.go]),
      [QueryTokens] (the lexer, [tokens.go], and the errors, [errors.go]),
      [QueryParser] ([parser.go]), [QueryPrint] (a printer that is the
      specification of the parser), [QueryCompiler] (to parameterized SQL,
      [compiler.go]) and [QueryExecutor] (the executor and the query builder,
      [executor.go]).  The parser calls the lexer and builds the tree the
      compiler reads; the executor parses, compiles and sends.
    - GraphQL, [pkg/integration/graphql/query.go]: [GraphQl] (the query builder)
      and [GraphQlBuilder] (a reader of documents, its specification: what is built
      reads back).
    - MongoDB, [internal/database/mongodb]: [MongoQuery] (filters and
      pipelines, [query.go]), [MongoWhere] (the where clauses of the query
      language, and which of them a filter can express) and [MongoRepository]
      (documents, cursors and pages, [repository.go]).
    - Stored models: [Models] (the records of [internal/database/models], what a
      store of them offers as the class [StoreSpec], and its laws as
      [StoreLaws]), and two stores that keep the laws: [MongoAdapters]
      ([mongodb/adapters.go]) over [MongoRepository], and [SqlRepositories]
      ([internal/database/repository]) over the documented behaviour of an SQL
      engine.
    - [Pagination]: requests, filters, cursors and the paginator of
      [internal/pagination].
    - Access control, [internal/rbac]: [RbacPolicy] (permissions, roles and the
      acyclic policy, [policy.go]), [RbacStorage] (the class [Storage] with its
      laws, the memory and the caching storages, [storage.go]), [RbacEngine]
      (checks with inheritance and a permission cache, [rbac.go]), which is
      proved against the class, and [RbacMiddleware] ([middleware.go]), which
      puts the engine in front of handlers of [AuthMiddleware].
    - Resilience, [pkg/integration]: [CircuitBreaker] ([circuitbreaker.go]) and
      [Retry] ([retry.go]); [IntegrationClient], the clients of external
      services with their own breaker ([internal/integration]);
      [IntegrationConfig] (configurations, time-outs and a call under breaker and
      retries), and the clients made of them,
      [RestClient] ([rest], with its chain of middleware) and [GraphQlClient].
    - [ParamValidation]: the validation of requests against declared
      parameters, [internal/validation].
    - [MemoryCache]: the LRU cache of [internal/cache/memory.go].
    - [Saga]: sagas and the workflow compensation manager of
      [internal/workflow/compensation].
    - [EventBus]: the bus and the dispatcher of [internal/event/bus] and
      [internal/event/dispatcher]; [EventStore]: the events, their handlers, the
      SQL repository that keeps them and its interface ([internal/event]);
      [Shutdown]: hooks, drainer and manager of
      [internal/shutdown]; [Health]: the registry and the checks of
      [internal/health]; [Migrator]: [internal/database/migrate.go];
      [Redactor]: [pkg/logging/redactor.go].
    - The specification language: [DslAst] (the tree of [internal/ast] with
      [Walk], [Equal] and [Clone]), [DslSymbols] (scopes, type inference and
      errors), [DslValidator] (the validator of [internal/validator]),
      [DslScoping] (the declarative scoping discipline) and [DslAccepted] (what
      acceptance guarantees).  The validators of single declarations are
      [EndpointValidator], with those of middleware and roles, and
      [WorkflowValidator].
    - From text to the tree, [internal/parser]: [EndpointParser]
      ([endpoint.go]), [WorkflowParser] ([workflow.go]) and [DslParser]
      ([parser.go], and the application view of [ast.go]).  The tree of grammar
      structures that the parser library makes is a parameter; the conversions,
      and the extraction of endpoints line by line, are definitions.
      [DslPositions] joins [DslParser] with [DslValidator].
    - Documents of the interface, [internal/openapi]: [OpenApi] ([types.go],
      [config.go], [validator.go]), [OpenApiMapper] (from programs,
      [mapper.go]) and [OpenApiDocument] ([generator.go]), which joins the
      parser, the endpoint validator, the mapper and the document validator.
    - Workflows, [internal/workflow]: [Workflow] (the loader, the execution of
      steps and the registry, [dsl_loader.go]); [WorkflowActivities]
      ([definitions/types.go], [activities]: the class [Temporal] is what runs an
      activity, [TemporalLaws] what it promises), [WorkflowDefinitions] (the
      pipelines of agents and the test suite, [definitions]) and [SagaWorkflow]
      ([patterns]), both of which undo with the manager of [Saga];
      [WorkflowEngine] ([engine]).
    - Webhooks, [internal/webhook]: [WebhookClient] (signatures and sending),
      [WebhookRepository], [WebhookService] (delivery to subscriptions and
      retries) and [WebhookQueue].
    - Jobs, [internal/scheduler]: [JobRepository] (the memory repository) and
      [JobScheduler] (the service, the delays between retries and the registry
      of declared jobs).
    - The application a specification describes: [EventRegistry] (its events
      and handlers, [internal/event/dsl_loader.go]); [AuthJwt],
      [AuthMiddleware] and [AuthLoader] (tokens, the middleware and the
      providers of [internal/auth]); [Endpoints] (the handlers of
      [internal/codegen/endpoint_generator.go] over the execution context of
      [runtime.go]) and [Generator] (the router and its chains of middleware,
      [generator.go]).  [Generator] wraps the handlers of [Endpoints] in the
      middleware of [AuthMiddleware] that [AuthLoader] declares; [Endpoints]
      emits through [EventRegistry].  [EndpointRoutes] joins [EndpointValidator]
      with [Generator].

    - The HTTP API, [internal/api]: [ApiBase] (decoding, pages and answers),
      [ApiHandlers] (deployments, configurations and executions) against any
      store of [Models], [WebhookHandlers] over [WebhookService] and
      [JobHandlers] over [JobScheduler] and the queue's manager.
    - Email notifications: [EmailService] (the client of the mail service, the
      templates with their caches, the log and the service, [pkg/integration/brevo]
      and [internal/notification/email]; the class [Mail] is what the outside
      offers) and [EmailHandlers] (the subscriber of the bus and the HTTP handlers).

    ** What is proved

    - Query language: lexing loses no input and reads back printed tokens;
      parsing is total within its fuel and depth limit and reads back every
      printed query; compilation succeeds exactly on admissible queries, binds
      their operands in order, cannot be escaped by names or values, and keeps
      the soft-delete guard; quoted identifiers read back.
    - MongoDB: a filter built from conditions matches the documents that
      satisfy them, with the cases where a later condition on the same field
      overwrites; the two ways to build a pipeline agree.
    - MongoDB: the filter of a where clause without negation matches what
      satisfies the clause, and one with a negation is refused by the server, with
      the operands that are dropped set apart; the pages of a walk are the matching documents,
      each once, in order.
    - Stored events: saving, deleting and reading through the statements of the
      repository are those operations on a list of events.  Email: an event with
      recipients makes one email, one request and one entry of the log.
    - Workflow definitions: a pipeline that fails rolls back the agents that had
      completed and no other, newest first; a test suite reports each case once and
      its counts add up.  Saga workflows: every step is run, or those that had
      succeeded are compensated and logged; without signals both sagas are one.  The
      engine is one session with its server at a time.
    - Stores: a record that was stored reads back until it is changed or
      deleted, for each of the two implementations; through the API of
      deployments a client sees exactly what it stored, with either.
    - Executing queries: a text is refused without a call, or sent as one
      statement that fits its operands.  GraphQL: what the builder builds is read
      as what it was asked for.
    - Pagination: following cursors visits every row once, in order; limits and
      pages are clamped; only allowed fields and operators reach a query.
    - Access control: the policy stays acyclic; checks grant exactly what a
      direct claim or a reachable role grants, from an empty cache; effective
      sets are complete and without repetition; the caching storage refines its
      backend on sequences of operations; behind the middleware only users who
      may run a handler; and what the code does where these fail: a warm cache
      that denies, a cyclic storage, a race.
    - Circuit breaker: the invariant of reachable breakers, when it trips,
      blocks and recovers.  A call of the REST client sends at most as many requests
      as its retries allow, none behind an open breaker, and its breaker counts
      one outcome.  Retry: number of calls and result, agreement of the
      two loops, bounds on the waits.  Clients: interleaved calls stay within
      the concurrency limit.
    - Cache: map, list and memory count stay consistent; an insertion evicts
      only least recently used entries that do not fit.
    - Sagas: a saga of compensable steps is atomic; compensations run once
      each, newest first; partial compensation is the restriction of full.
    - Events: no send on a closed channel and nothing delivered twice in any
      interleaving of publishers, workers and [Close], which lets the queue run
      empty.  Shutdown: hooks run in order of priority within the deadline; the
      drainer is done exactly when no request is in flight.
    - Operation: the health that is reported is the worst of the answers, in
      whatever order they come; migrating commits a prefix of the pending
      migrations whatever fails, and resetting ends; what stands under a
      sensitive key cannot be seen in a log.
    - Specification language: the validator decides the scoping discipline;
      accepted declarations are unique and their references resolve; cloning,
      comparing and walking the tree.
    - Applications: when an emission terminates; when a token is accepted; a
      guarded handler runs only for requests its middleware lets through;
      the validation of a request reports an error exactly when a parameter
      breaks its declaration; accepted declarations load; a handler answers what its steps give and
      stops at the first failure; which endpoints are guarded; and where the
      generated code does not do what the specification says.
    - Declarations: endpoints are accepted exactly when they are well formed and
      differ in method and path, and are then routed one to one; a text of lines
      and endpoint blocks parses to their statements in order; no error about a
      parsed program has a position; a parsed and accepted workflow loads, runs
      the calls of its plan up to the first group with a failure, and records
      what its activities answered.
    - Documents: the validator of documents accepts exactly the well-formed; the
      document of a parsed and accepted program is valid and lists its endpoints
      under the paths of the router.
    - Webhooks: a subscription made through the API receives the
      events it names and lists their deliveries; the outcome of sending and the requests it makes; what is signed
      verifies; one delivery record per active subscription; failures are
      counted and disable a webhook, a refused one for ever; the queue drains
      and loses nothing.  Jobs: pages cover a filter; a waiting job has been
      asked of the queue.

    ** Fuel

    [parse_fuel] and the lexer's fuel are the length of the input plus a
    constant: every turn of a loop consumes a token or a byte, and
    [QueryParser.parse_total], [QueryTokens.tokenize_lossless] prove them
    enough.  The engine's recursion takes a bound on the depth of inheritance;
    [RbacEngine.CheckPermission_correct] gives one that suffices for any
    storage, and [CheckRole] has none on cyclic roles.  The eviction loops take
    the length of the list.  The retry loops take the number of attempts.
    Emission takes one unit for every level of events that emit events;
    [EventRegistry.emission_terminates] proves the number of event names plus
    one enough exactly when the emissions have no cycle.  Sending a webhook runs
    on its number of attempts.  Reading a duration takes the length of the text
    ([GoDuration.duration_parts_fuel]) and the extraction of endpoints the
    number of lines ([DslParser.extract_items]): each turn consumes one.  The loop
    of a reset takes the number of applied migrations plus one
    ([Migrator.reset_terminates]); replacing a pattern and reading a GraphQL
    document take the length of the text and the number of tokens.

    ** What is not modelled

    Goroutine scheduling (races are stated as interleavings of the code's
    critical sections), logging and metrics apart from the redaction, and the
    start-up code of the commands.  The bodies of other libraries are parameters:
    net/http and chi, the SQL driver (with the behaviour of its statements as the
    hypotheses of [SqlRepositories]), MongoDB's driver and server (a list of
    documents for each collection) and Redis, the JWT library and the participle
    parser.  Temporal's client is a record of operations, and how it runs
    activities a class with its laws; Asynq is a list of the tasks asked for.  [fmt]'s rendering of floats and lists, [filepath.Match], JSON of
    arbitrary values, [url.Parse], the cron parser, SQL scripts and what
    Temporal does with a retry policy are parameters of the definitions that use them.  Schemas of Go
    types are made by reflection and left out, and so is the parser of comment
    annotations, which nothing calls.  The SQL repositories of jobs and of workflow
    executions and the cache in Redis build statements and commands as those of
    [SqlRepositories] and [EventStore] do, and are left out. *)

From Stdlib Require Import ZArith Lia.
From stdpp Require Import base gmap strings list.

#[export] Set Default Goal Selector "!".
#[export] Set Warnings "-register-all,-clear-no-such-hyp".
Declare Scope go_scope.
Delimit Scope go_scope with go.

(** * Fallible Go functions

    A Go function returning [(T, error)] is a value of [result E T]; the
    error type [E] is the component's own enumeration of errors. *)
Inductive result (E A : Type) : Type :=
| Ok (a : A)
| Err (e : E).
Arguments Ok {E A} _.
Arguments Err {E A} _.

Definition rbind {E A B} (m : result E A) (k : A -> result E B) : result E B :=
  match m with
  | Ok a => k a
  | Err e => Err e
  end.

Notation "'let?' x ':=' m 'in' k" := (rbind m (fun x => k))
  (at level 10, x pattern, m at level 100, k at level 200) : go_scope.

Definition is_ok {E A} (r : result E A) : bool :=
  match r with Ok _ => true | Err _ => false end.

(** * Stateful fallible functions: a method with a pointer receiver that
    returns [(T, error)] takes the receiver's state and returns the new
    state together with the result, also on the error path. *)
Definition SE (S E A : Type) : Type := S -> S * result E A.

Definition se_ret {S E A} (a : A) : SE S E A := fun s => (s, Ok a).
Definition se_err {S E A} (e : E) : SE S E A := fun s => (s, Err e).
Definition se_bind {S E A B} (m : SE S E A) (k : A -> SE S E B) : SE S E B :=
  fun s => match m s with
           | (s', Ok a) => k a s'
           | (s', Err e) => (s', Err e)
           end.

Notation "x '<-!' m ';;' k" := (se_bind m (fun x => k))
  (at level 100, m at next level, k at level 200, right associativity) : go_scope.

(** * Machine integers: Go's [int] and [int64] are 64 bits wide. *)
Definition int64_min : Z := (- 2 ^ 63)%Z.
Definition int64_max : Z := (2 ^ 63 - 1)%Z.
Definition in_int64 (z : Z) : bool := ((int64_min <=? z) && (z <=? int64_max))%Z.
Definition wrap64 (z : Z) : Z := ((z + 2 ^ 63) mod 2 ^ 64 - 2 ^ 63)%Z.
Definition wrap32 (z : Z) : Z := ((z + 2 ^ 31) mod 2 ^ 32 - 2 ^ 31)%Z.

(** [time.Duration] is an [int64] of nanoseconds. *)
Definition Nanosecond : Z := 1%Z.
Definition Millisecond : Z := 1000000%Z.
Definition Second : Z := 1000000000%Z.
Definition Minute : Z := (60 * Second)%Z.

(** * Tactics *)
(** Split on the scrutinee of a [match] of the goal or of a hypothesis. *)
Ltac case_match_eqn :=
  match goal with
  | |- context [match ?x with _ => _ end] => let E := fresh "E" in destruct x eqn:E
  | H : context [match ?x with _ => _ end] |- _ => let E := fresh "E" in destruct x eqn:E
  end.

Ltac split_and_all := repeat match goal with H : _ /\ _ |- _ => destruct H end.

Create HintDb go discriminated.

#[global] Arguments String.append !_ _ / : simpl nomatch.

(** * Lemmas the components share *)
Lemma wrap64_small z : in_int64 z = true -> wrap64 z = z.
Proof.
  unfold in_int64, wrap64, int64_min, int64_max. rewrite andb_true_iff, !Z.leb_le.
  intros [H1 H2]. rewrite Z.mod_small; lia.
Qed.

Lemma wrap64_in_int64 z : in_int64 (wrap64 z) = true.
Proof.
  unfold in_int64, wrap64, int64_min, int64_max.
  pose proof (Z.mod_pos_bound (z + 2 ^ 63) (2 ^ 64) eq_refl).
  rewrite andb_true_iff, !Z.leb_le. lia.
Qed.

Lemma wrap32_small z : (- 2 ^ 31 <= z < 2 ^ 31)%Z -> wrap32 z = z.
Proof. intros H. unfold wrap32. rewrite Z.mod_small; lia. Qed.

Lemma se_bind_ok {S E A B} (m : SE S E A) (k : A -> SE S E B) s s' b :
  se_bind m k s = (s', Ok b) ->
  exists s1 a, m s = (s1, Ok a) /\ k a s1 = (s', Ok b).
Proof.
  unfold se_bind. destruct (m s) as [s1 [a|e]]; intros H; [eauto | discriminate].
Qed.

Lemma rbind_ok {E A B} (m : result E A) (k : A -> result E B) b :
  rbind m k = Ok b -> exists a, m = Ok a /\ k a = Ok b.
Proof. destruct m; cbn; intros H; [eauto | discriminate]. Qed.
