(* ===== verification/GoStrings.v ===== *)
(** Go's strings as byte strings, and the functions of the Go standard
    library the modelled code calls on them: [strings.ToLower] (on ASCII),
    [strings.Join], [strings.Split] on one byte, [strings.Contains] of one
    byte, [strings.ReplaceAll] of one byte, [strconv.Itoa],
    [strconv.ParseInt]/[Atoi] in base 10, [strconv.ParseFloat] on decimal
    literals and the UTF-8 decoding of [for i, r := range s].

    A Go string is a Rocq [string]: an [ascii] is a byte. *)

From Stdlib Require Import ZArith Lia Ascii SpecFloat Decimal DecimalString DecimalN DecimalZ.
From stdpp Require Import base strings list.
From S2P Require Import Prelude.

#[local] Open Scope string_scope.
#[local] Open Scope Z_scope.

(** ** Bytes *)
Definition dquote : ascii := "034"%char.
Definition squote : ascii := "039"%char.
Definition backslash : ascii := "092"%char.
Definition newline : ascii := "010"%char.
Definition tab : ascii := "009"%char.
Definition creturn : ascii := "013"%char.

Definition byte (c : ascii) : Z := Z.of_N (Ascii.N_of_ascii c).
Definition in_range (lo hi : Z) (c : ascii) : bool := (lo <=? byte c) && (byte c <=? hi).

Definition is_digit (c : ascii) : bool := in_range 48 57 c.
Definition is_upper (c : ascii) : bool := in_range 65 90 c.
Definition is_lower (c : ascii) : bool := in_range 97 122 c.

Definition of_byte (z : Z) : ascii := Ascii.ascii_of_N (Z.to_N z).
Definition lower (c : ascii) : ascii := if is_upper c then of_byte (byte c + 32) else c.

(** ** Strings *)
Fixpoint str_forall (p : ascii -> bool) (s : string) : bool :=
  match s with
  | EmptyString => true
  | String c s' => p c && str_forall p s'
  end.

Fixpoint str_map (f : ascii -> ascii) (s : string) : string :=
  match s with
  | EmptyString => EmptyString
  | String c s' => String (f c) (str_map f s')
  end.

Definition ToLower : string -> string := str_map lower.

Fixpoint Join (l : list string) (sep : string) : string :=
  match l with
  | [] => ""
  | [s] => s
  | s :: l' => s +:+ sep +:+ Join l' sep
  end.

Fixpoint str_contains (c : ascii) (s : string) : bool :=
  match s with
  | EmptyString => false
  | String c' s' => Ascii.eqb c' c || str_contains c s'
  end.

(** [strings.Split s sep] for a one-byte separator. *)
Fixpoint Split (sep : ascii) (s : string) : list string :=
  match s with
  | EmptyString => [EmptyString]
  | String c s' =>
      if Ascii.eqb c sep then EmptyString :: Split sep s'
      else match Split sep s' with
           | [] => [String c EmptyString]
           | p :: ps => String c p :: ps
           end
  end.

(** [strings.ReplaceAll s old new] for a one-byte [old]. *)
Fixpoint ReplaceAll (s : string) (old : ascii) (new : string) : string :=
  match s with
  | EmptyString => EmptyString
  | String c s' =>
      if Ascii.eqb c old then new +:+ ReplaceAll s' old new
      else String c (ReplaceAll s' old new)
  end.

(** ** Integers *)
Definition Itoa (z : Z) : string := NilZero.string_of_int (Z.to_int z).

Inductive NumErr := ErrSyntax | ErrRange.

(** [strconv.ParseInt s 10 64]: an optional sign, at least one digit, the
    value in the range of [int64]. [strconv.Atoi] agrees with it on a 64-bit
    platform. *)
Definition ParseInt (s : string) : result NumErr Z :=
  let '(neg, body) :=
    match s with
    | String c s' => if Ascii.eqb c "-" then (true, s')
                     else if Ascii.eqb c "+" then (false, s') else (false, s)
    | EmptyString => (false, s)
    end in
  match body with
  | EmptyString => Err ErrSyntax
  | _ => match NilEmpty.uint_of_string body with
         | None => Err ErrSyntax
         | Some d =>
             let n := Z.of_N (N.of_uint d) in
             let v := if neg : bool then - n else n in
             if in_int64 v then Ok v else Err ErrRange
         end
  end.

(** ** Floating point literals

    [float64] is the executable IEEE-754 binary64 of [SpecFloat]. *)
Definition float64 : Type := spec_float.

Fixpoint span_digits (s : string) : string * string :=
  match s with
  | String c s' => if is_digit c then let '(d, r) := span_digits s' in (String c d, r)
                   else (EmptyString, s)
  | EmptyString => (EmptyString, EmptyString)
  end.

Definition digits_val (s : string) : N :=
  match NilEmpty.uint_of_string s with Some d => N.of_uint d | None => 0%N end.

(** The binary64 nearest to [m * 10 ^ e], ties to even. *)
Definition decimal_round (neg : bool) (m : N) (e : Z) : float64 :=
  match m with
  | N0 => S754_zero neg
  | Npos p =>
      if (0 <=? e)%Z
      then binary_normalize 53 1024
             ((if neg then Z.opp else fun z => z) (Z.pos p * 10 ^ e)) 0 neg
      else SFdiv 53 1024 (S754_finite neg p 0)
             (S754_finite false (Z.to_pos (10 ^ (- e))) 0)
  end.

Definition is_exp_char (c : ascii) : bool := Ascii.eqb c "e" || Ascii.eqb c "E".

(** The exponent of a literal is accumulated only below 10000, as Go's
    [readFloat] does. *)
Fixpoint exp_digits (s : string) (acc : Z) : option Z :=
  match s with
  | EmptyString => Some acc
  | String c s' =>
      if is_digit c
      then exp_digits s' (if acc <? 10000 then acc * 10 + (byte c - 48) else acc)
      else None
  end.

Definition read_exp (s : string) : option Z :=
  match s with
  | EmptyString => Some 0
  | String c s1 =>
      if is_exp_char c then
        let '(neg, ds) :=
          match s1 with
          | String c1 s2 => if Ascii.eqb c1 "-" then (true, s2)
                            else if Ascii.eqb c1 "+" then (false, s2) else (false, s1)
          | EmptyString => (false, s1)
          end in
        match ds with
        | EmptyString => None
        | _ => match exp_digits ds 0 with
               | Some e => Some (if neg : bool then - e else e)
               | None => None
               end
        end
      else None
  end.

(** [strconv.ParseFloat s 64] on decimal literals. *)
Definition ParseFloat (s : string) : result NumErr float64 :=
  let '(neg, s1) :=
    match s with
    | String c s' => if Ascii.eqb c "-" then (true, s')
                     else if Ascii.eqb c "+" then (false, s') else (false, s)
    | EmptyString => (false, s)
    end in
  let '(ip, s2) := span_digits s1 in
  let '(fp, s3) :=
    match s2 with
    | String c s' => if Ascii.eqb c "." then span_digits s' else (EmptyString, s2)
    | EmptyString => (EmptyString, s2)
    end in
  if (String.length (ip +:+ fp) =? 0)%nat then Err ErrSyntax
  else match read_exp s3 with
       | None => Err ErrSyntax
       | Some e =>
           match decimal_round neg (digits_val (ip +:+ fp))
                   (e - Z.of_nat (String.length fp)) with
           | S754_infinity _ => Err ErrRange
           | f => Ok f
           end
       end.

(** ** UTF-8: the runes of [for i, r := range s]

    [decode_rune] returns the rune and the number of bytes it took; an
    invalid sequence is [RuneError] of width 1. *)
Definition RuneError : Z := 65533.

Definition is_cont (c : ascii) : bool := in_range 128 191 c.
Definition cont (c : ascii) : Z := byte c - 128.

Definition decode_rune (s : string) : Z * nat :=
  match s with
  | EmptyString => (RuneError, 0%nat)
  | String c0 s0 =>
      let b0 := byte c0 in
      if b0 <? 128 then (b0, 1%nat)
      else if (194 <=? b0) && (b0 <=? 223) then
        match s0 with
        | String c1 _ => if is_cont c1 then ((b0 - 192) * 64 + cont c1, 2%nat) else (RuneError, 1%nat)
        | _ => (RuneError, 1%nat)
        end
      else if (224 <=? b0) && (b0 <=? 239) then
        match s0 with
        | String c1 (String c2 _) =>
            let lo := if b0 =? 224 then 160 else 128 in
            let hi := if b0 =? 237 then 159 else 191 in
            if in_range lo hi c1 && is_cont c2
            then ((b0 - 224) * 4096 + cont c1 * 64 + cont c2, 3%nat)
            else (RuneError, 1%nat)
        | _ => (RuneError, 1%nat)
        end
      else if (240 <=? b0) && (b0 <=? 244) then
        match s0 with
        | String c1 (String c2 (String c3 _)) =>
            let lo := if b0 =? 240 then 144 else 128 in
            let hi := if b0 =? 244 then 143 else 191 in
            if in_range lo hi c1 && is_cont c2 && is_cont c3
            then ((b0 - 240) * 262144 + cont c1 * 4096 + cont c2 * 64 + cont c3, 4%nat)
            else (RuneError, 1%nat)
        | _ => (RuneError, 1%nat)
        end
      else (RuneError, 1%nat)
  end.

(** [strings.Builder.WriteRune] of a rune that [decode_rune] can return. *)
Definition encode_rune (r : Z) : string :=
  if r <? 128 then String (of_byte r) ""
  else if r <? 2048 then String (of_byte (192 + r / 64)) (String (of_byte (128 + r mod 64)) "")
  else if r <? 65536 then
    String (of_byte (224 + r / 4096))
      (String (of_byte (128 + (r / 64) mod 64)) (String (of_byte (128 + r mod 64)) ""))
  else
    String (of_byte (240 + r / 262144))
      (String (of_byte (128 + (r / 4096) mod 64))
         (String (of_byte (128 + (r / 64) mod 64)) (String (of_byte (128 + r mod 64)) ""))).

Fixpoint drop_str (n : nat) (s : string) : string :=
  match n, s with
  | O, _ => s
  | _, EmptyString => EmptyString
  | S n', String _ s' => drop_str n' s'
  end.

(** The list of (byte index, rune) pairs of [range s]; [String.length s] is
    enough fuel since every rune takes at least one byte. *)
Fixpoint range_runes_from (fuel : nat) (i : nat) (s : string) : list (nat * Z) :=
  match fuel, s with
  | O, _ => []
  | _, EmptyString => []
  | S fuel', _ =>
      let '(r, w) := decode_rune s in
      (i, r) :: range_runes_from fuel' (i + w) (drop_str w s)
  end.

Definition range_runes (s : string) : list (nat * Z) := range_runes_from (String.length s) 0 s.

(** ** Lemmas on strings *)
Lemma sapp_assoc (a b c : string) : (a +:+ b) +:+ c = a +:+ (b +:+ c).
Proof. induction a as [|x a IH]; cbn; [done | by rewrite IH]. Qed.

Lemma sapp_nil_r (a : string) : a +:+ "" = a.
Proof. induction a as [|x a IH]; cbn; [done | by rewrite IH]. Qed.

Lemma slen_app (a b : string) : String.length (a +:+ b) = (String.length a + String.length b)%nat.
Proof. induction a as [|x a IH]; cbn; [done | by rewrite IH]. Qed.

Lemma str_forall_app p (a b : string) : str_forall p (a +:+ b) = str_forall p a && str_forall p b.
Proof. induction a as [|x a IH]; cbn; [done | by rewrite IH, andb_assoc]. Qed.

Lemma str_forall_impl (p q : ascii -> bool) (s : string) :
  (forall c, p c = true -> q c = true) -> str_forall p s = true -> str_forall q s = true.
Proof.
  intros Hpq. induction s as [|c s IH]; cbn; [done|].
  rewrite !andb_true_iff. intros [? ?]; auto.
Qed.

Lemma ascii_eqb_spec (a b : ascii) : reflect (a = b) (Ascii.eqb a b).
Proof. apply Ascii.eqb_spec. Qed.

Lemma byte_range (c : ascii) : 0 <= byte c < 256.
Proof.
  unfold byte. pose proof (N_ascii_bounded c). lia.
Qed.

Lemma byte_inj (a b : ascii) : byte a = byte b -> a = b.
Proof.
  unfold byte. intros H. rewrite <- (ascii_N_embedding a), <- (ascii_N_embedding b).
  f_equal. lia.
Qed.

Lemma byte_of_byte z : 0 <= z < 256 -> byte (of_byte z) = z.
Proof. intros H. unfold byte, of_byte. rewrite N_ascii_embedding; lia. Qed.

Lemma of_byte_byte c : of_byte (byte c) = c.
Proof. unfold byte, of_byte. rewrite N2Z.id. apply ascii_N_embedding. Qed.

Lemma in_range_spec lo hi c : in_range lo hi c = true <-> lo <= byte c <= hi.
Proof. unfold in_range. rewrite andb_true_iff, !Z.leb_le. done. Qed.

(** The digits of a printed integer and the value they parse to. *)
Lemma string_of_uint_digits d : str_forall is_digit (NilEmpty.string_of_uint d) = true.
Proof. induction d; cbn; try rewrite IHd; reflexivity. Qed.

Lemma string_of_uint_nonempty (n : N) : NilZero.string_of_uint (N.to_uint n) <> "".
Proof. destruct (N.to_uint n); discriminate. Qed.

Lemma digit_value_string d :
  NilEmpty.uint_of_string (NilEmpty.string_of_uint d) = Some d.
Proof. apply NilEmpty.usu. Qed.

Lemma string_of_pos p : exists c s,
  NilZero.string_of_uint (Pos.to_uint p) = String c s /\
  str_forall is_digit (String c s) = true /\
  NilEmpty.uint_of_string (String c s) = Some (Pos.to_uint p).
Proof.
  pose proof (string_of_uint_digits (Pos.to_uint p)) as Hd.
  pose proof (NilEmpty.usu (Pos.to_uint p)) as Hu.
  assert (Hn : Pos.to_uint p <> Nil) by apply DecimalPos.Unsigned.to_uint_nonnil.
  destruct (Pos.to_uint p) eqn:E; [done|..]; cbn in *; do 2 eexists; (split; [reflexivity|]); done.
Qed.

Lemma of_uint_pos p : Z.of_N (N.of_uint (Pos.to_uint p)) = Z.pos p.
Proof. unfold N.of_uint. by rewrite DecimalPos.Unsigned.of_to. Qed.

(** A printed integer: an optional minus sign, then digits. *)
Lemma Itoa_split z : exists sg ds,
  Itoa z = sg +:+ ds /\ (sg = "" \/ sg = "-") /\ ds <> "" /\ str_forall is_digit ds = true.
Proof.
  destruct z as [|p|p]; unfold Itoa; cbn [Z.to_int NilZero.string_of_int].
  - exists "", "0". auto.
  - destruct (string_of_pos p) as (c & s & -> & ? & _). exists "", (String c s). auto.
  - destruct (string_of_pos p) as (c & s & -> & ? & _). exists "-", (String c s). auto.
Qed.

Lemma digit_not_sign c : is_digit c = true -> Ascii.eqb c "-" = false /\ Ascii.eqb c "+" = false.
Proof.
  intros H. split.
  - by destruct (ascii_eqb_spec c "-") as [->|].
  - by destruct (ascii_eqb_spec c "+") as [->|].
Qed.

Lemma ParseInt_Itoa z : in_int64 z = true -> ParseInt (Itoa z) = Ok z.
Proof.
  intros Hz. destruct z as [|p|p]; unfold Itoa, ParseInt; cbn [Z.to_int NilZero.string_of_int].
  - reflexivity.
  - destruct (string_of_pos p) as (c & s & -> & Hd & Hu). cbn in Hd.
    apply andb_true_iff in Hd as [Hc _]. destruct (digit_not_sign c Hc) as [-> ->].
    rewrite Hu, of_uint_pos, Hz. done.
  - destruct (string_of_pos p) as (c & s & -> & Hd & Hu). cbn [String.append Ascii.eqb].
    cbn [Bool.eqb]. rewrite Hu, of_uint_pos. change (- Z.pos p) with (Z.neg p). cbv zeta. by rewrite Hz.
Qed.

Lemma str_contains_digits c s :
  is_digit c = false -> str_forall is_digit s = true -> str_contains c s = false.
Proof.
  intros Hc. induction s as [|d s IH]; cbn; [done|]. rewrite andb_true_iff. intros [Hd Hs].
  destruct (ascii_eqb_spec d c) as [->|]; [congruence|]. by apply IH.
Qed.

Lemma Itoa_contains c z :
  is_digit c = false -> c <> "-"%char -> str_contains c (Itoa z) = false.
Proof.
  intros Hc Hm. destruct (Itoa_split z) as (sg & ds & -> & Hsg & _ & Hd).
  destruct Hsg as [->| ->]; cbn [String.append str_contains]; [by apply str_contains_digits|].
  destruct (ascii_eqb_spec "-" c) as [<-|]; [done|]. by apply str_contains_digits.
Qed.
