(* ===== verification/QueryAst.v ===== *)
(** The query AST of [internal/query/ast.go]: query types, operators, the
    mutually recursive [Query], [WhereClause] and [Condition], the entity
    metadata of the SQL compiler, and the printable names of the enums.

    A Go [int] enum is an inductive type with the source's constructors, so
    the [default] branches of the [String] methods (values no constructor
    names) have no counterpart.  A nil-able pointer is an [option], an
    [interface{}] value is a [Value]. *)

From Stdlib Require Import ZArith.
From stdpp Require Import base strings list.
From S2P Require Import Prelude GoStrings.

#[local] Open Scope string_scope.

Inductive QueryType :=
| QuerySelect | QueryCount | QuerySum | QueryAvg | QueryMin | QueryMax | QueryUpdate | QueryDelete.

#[export] Instance QueryType_eq_dec : EqDecision QueryType.
Proof. solve_decision. Defined.

Definition QueryType_String (qt : QueryType) : string :=
  match qt with
  | QuerySelect => "SELECT" | QueryCount => "COUNT" | QuerySum => "SUM" | QueryAvg => "AVG"
  | QueryMin => "MIN" | QueryMax => "MAX" | QueryUpdate => "UPDATE" | QueryDelete => "DELETE"
  end.

Inductive CompareOp :=
| OpEquals | OpNotEquals | OpGreaterThan | OpGreaterThanOrEqual | OpLessThan | OpLessThanOrEqual
| OpContains | OpStartsWith | OpEndsWith | OpIn | OpNotIn | OpIsNull | OpIsNotNull | OpIncludes
| OpLike | OpILike | OpBetween | OpFuzzy | OpExact | OpArrayContains.

#[export] Instance CompareOp_eq_dec : EqDecision CompareOp.
Proof. solve_decision. Defined.

Definition CompareOp_String (op : CompareOp) : string :=
  match op with
  | OpEquals => "=" | OpNotEquals => "!=" | OpGreaterThan => ">" | OpGreaterThanOrEqual => ">="
  | OpLessThan => "<" | OpLessThanOrEqual => "<=" | OpContains => "CONTAINS"
  | OpStartsWith => "STARTSWITH" | OpEndsWith => "ENDSWITH" | OpIn => "IN" | OpNotIn => "NOT IN"
  | OpIsNull => "IS NULL" | OpIsNotNull => "IS NOT NULL" | OpIncludes => "INCLUDES"
  | OpLike => "LIKE" | OpILike => "ILIKE" | OpBetween => "BETWEEN" | OpFuzzy => "~"
  | OpExact => "EXACT" | OpArrayContains => "@>"
  end.

Inductive LogicalOp := LogicalAnd | LogicalOr.

#[export] Instance LogicalOp_eq_dec : EqDecision LogicalOp.
Proof. solve_decision. Defined.

Definition LogicalOp_String (op : LogicalOp) : string :=
  match op with LogicalAnd => "AND" | LogicalOr => "OR" end.

Inductive OrderDirection := OrderAsc | OrderDesc.

Definition OrderDirection_String (od : OrderDirection) : string :=
  match od with OrderAsc => "ASC" | OrderDesc => "DESC" end.

Record OrderClause := mkOrder { o_Field : string; o_Direction : OrderDirection }.

(** The dynamic types an [interface{}] of a query holds: the values
    [parseValue] builds. *)
Inductive Value :=
| VNil
| VStr (s : string)
| VBool (b : bool)
| VInt (z : Z)
| VFloat (f : float64)
| VParam (Name : string)
| VList (l : list Value)
| VBetween (Low High : Value).

Inductive UpdateOp :=
| UpdateSetValue | UpdateIncrement | UpdateDecrement | UpdateAppend | UpdateRemove.

Definition UpdateOp_String (op : UpdateOp) : string :=
  match op with
  | UpdateSetValue => "SET" | UpdateIncrement => "INCREMENT" | UpdateDecrement => "DECREMENT"
  | UpdateAppend => "APPEND" | UpdateRemove => "REMOVE"
  end.

Record UpdateSet := mkUpdate { u_Field : string; u_Value : Value; u_Op : UpdateOp }.

Inductive WhereClause := mkWhere {
  w_Conditions : list Condition;
  w_Operator : LogicalOp;
  w_Groups : list WhereClause
}
with Condition := mkCond {
  c_Field : string;
  c_Operator : CompareOp;
  c_Value : Value;
  c_Not : bool;
  c_SubQuery : option Query;
  c_Nested : option WhereClause
}
with Query := mkQuery {
  q_Type : QueryType;
  q_Entity : string;
  q_Fields : list string;
  q_Where : option WhereClause;
  q_OrderBy : list OrderClause;
  q_Limit : option Z;
  q_Offset : option Z;
  q_Include : list string;
  q_GroupBy : list string;
  q_Having : option WhereClause;
  q_Updates : list UpdateSet;
  q_AggField : string
}.

Inductive RelationType :=
| RelationHasOne | RelationHasMany | RelationBelongsTo | RelationManyToMany.

Definition RelationType_String (rt : RelationType) : string :=
  match rt with
  | RelationHasOne => "HAS_ONE" | RelationHasMany => "HAS_MANY"
  | RelationBelongsTo => "BELONGS_TO" | RelationManyToMany => "MANY_TO_MANY"
  end.

Record RelationMeta := mkRelation {
  r_Entity : string;
  r_Type : RelationType;
  r_ForeignKey : string;
  r_JoinTable : string;
  r_JoinColumn : string;
  r_InverseColumn : string
}.

(** A Go map read by key only is an association list with distinct keys; the
    list order is the order [range] visits the map in, which the runtime
    chooses. *)
Record EntityMeta := mkEntity {
  TableName : string;
  PrimaryKey : string;
  SoftDelete : string;
  Columns : list (string * string);
  JSONColumns : list (string * bool);
  TSVColumns : list (string * string);
  Relations : list (string * RelationMeta)
}.

Fixpoint assoc {A} (k : string) (m : list (string * A)) : option A :=
  match m with
  | [] => None
  | (k', v) :: m' => if String.eqb k k' then Some v else assoc k m'
  end.

(** ** Functional record updates the parser uses *)
Definition empty_query (t : QueryType) : Query :=
  mkQuery t "" [] None [] None None [] [] None [] "".
Definition set_Entity (e : string) (q : Query) : Query :=
  mkQuery (q_Type q) e (q_Fields q) (q_Where q) (q_OrderBy q) (q_Limit q) (q_Offset q)
    (q_Include q) (q_GroupBy q) (q_Having q) (q_Updates q) (q_AggField q).
Definition set_Fields (f : list string) (q : Query) : Query :=
  mkQuery (q_Type q) (q_Entity q) f (q_Where q) (q_OrderBy q) (q_Limit q) (q_Offset q)
    (q_Include q) (q_GroupBy q) (q_Having q) (q_Updates q) (q_AggField q).
Definition set_Where (w : option WhereClause) (q : Query) : Query :=
  mkQuery (q_Type q) (q_Entity q) (q_Fields q) w (q_OrderBy q) (q_Limit q) (q_Offset q)
    (q_Include q) (q_GroupBy q) (q_Having q) (q_Updates q) (q_AggField q).
Definition set_OrderBy (o : list OrderClause) (q : Query) : Query :=
  mkQuery (q_Type q) (q_Entity q) (q_Fields q) (q_Where q) o (q_Limit q) (q_Offset q)
    (q_Include q) (q_GroupBy q) (q_Having q) (q_Updates q) (q_AggField q).
Definition set_Limit (n : Z) (q : Query) : Query :=
  mkQuery (q_Type q) (q_Entity q) (q_Fields q) (q_Where q) (q_OrderBy q) (Some n) (q_Offset q)
    (q_Include q) (q_GroupBy q) (q_Having q) (q_Updates q) (q_AggField q).
Definition set_Offset (n : Z) (q : Query) : Query :=
  mkQuery (q_Type q) (q_Entity q) (q_Fields q) (q_Where q) (q_OrderBy q) (q_Limit q) (Some n)
    (q_Include q) (q_GroupBy q) (q_Having q) (q_Updates q) (q_AggField q).
Definition set_Include (i : list string) (q : Query) : Query :=
  mkQuery (q_Type q) (q_Entity q) (q_Fields q) (q_Where q) (q_OrderBy q) (q_Limit q) (q_Offset q)
    i (q_GroupBy q) (q_Having q) (q_Updates q) (q_AggField q).
Definition set_GroupBy (g : list string) (q : Query) : Query :=
  mkQuery (q_Type q) (q_Entity q) (q_Fields q) (q_Where q) (q_OrderBy q) (q_Limit q) (q_Offset q)
    (q_Include q) g (q_Having q) (q_Updates q) (q_AggField q).
Definition set_Having (h : option WhereClause) (q : Query) : Query :=
  mkQuery (q_Type q) (q_Entity q) (q_Fields q) (q_Where q) (q_OrderBy q) (q_Limit q) (q_Offset q)
    (q_Include q) (q_GroupBy q) h (q_Updates q) (q_AggField q).
Definition set_Updates (u : list UpdateSet) (q : Query) : Query :=
  mkQuery (q_Type q) (q_Entity q) (q_Fields q) (q_Where q) (q_OrderBy q) (q_Limit q) (q_Offset q)
    (q_Include q) (q_GroupBy q) (q_Having q) u (q_AggField q).
Definition set_AggField (a : string) (q : Query) : Query :=
  mkQuery (q_Type q) (q_Entity q) (q_Fields q) (q_Where q) (q_OrderBy q) (q_Limit q) (q_Offset q)
    (q_Include q) (q_GroupBy q) (q_Having q) (q_Updates q) a.

(** ** Induction on where clauses

    The induction principle for the part of the mutual type that the parser
    builds and the compiler reads: conditions and their nested clauses. *)
Section WhereInd.
Variable P : WhereClause -> Prop.
Variable Q : Condition -> Prop.
Hypothesis HW : forall cs op gs, Forall Q cs -> P (mkWhere cs op gs).
Hypothesis HC : forall f op v n sq, Q (mkCond f op v n sq None).
Hypothesis HN : forall f op v n sq w, P w -> Q (mkCond f op v n sq (Some w)).

Fixpoint where_ind' (w : WhereClause) : P w :=
  match w with
  | mkWhere cs op gs =>
      HW cs op gs
        ((fix go (cs : list Condition) : Forall Q cs :=
            match cs with
            | [] => List.Forall_nil Q
            | c :: cs' => List.Forall_cons Q c cs' (cond_ind' c) (go cs')
            end) cs)
  end
with cond_ind' (c : Condition) : Q c :=
  match c with
  | mkCond f op v n sq None => HC f op v n sq
  | mkCond f op v n sq (Some w) => HN f op v n sq w (where_ind' w)
  end.

Lemma where_cond_ind : (forall w, P w) /\ (forall c, Q c).
Proof using HW HC HN. split; [exact where_ind' | exact cond_ind']. Qed.
End WhereInd.
