(* ===== verification/QueryTokens.v ===== *)
(** The query lexer of [internal/query/tokens.go], and the errors of the package.

    The receiver [*Lexer] is a [Lexer] record passed along; its [input] and
    [pos] fields appear as the unread suffix [rest] of the input and the
    offset [pos] of that suffix, so [l.pos >= len(l.input)] is [rest = ""]
    and [l.input[l.pos]] is the first byte of [rest]. *)

From Stdlib Require Import ZArith Lia Ascii.
From stdpp Require Import base strings list.
From S2P Require Import Prelude GoStrings QueryAst.

#[local] Open Scope string_scope.
#[local] Open Scope Z_scope.

Inductive TokenType :=
| TokenEOF | TokenError
| TokenSelect | TokenCount | TokenSum | TokenAvg | TokenMin | TokenMax | TokenUpdate | TokenDelete
| TokenFrom | TokenWhere | TokenAnd | TokenOr | TokenNot | TokenIn | TokenIs | TokenNull
| TokenOrder | TokenBy | TokenAsc | TokenDesc | TokenLimit | TokenOffset | TokenWith | TokenInclude
| TokenSet | TokenTrue | TokenFalse | TokenLike | TokenILike | TokenBetween | TokenHaving
| TokenGroup | TokenGroupBy
| TokenEquals | TokenNotEquals | TokenGreater | TokenGreaterEq | TokenLess | TokenLessEq
| TokenContains | TokenStartsWith | TokenEndsWith
| TokenIdent | TokenString | TokenNumber | TokenParam
| TokenLParen | TokenRParen | TokenLBracket | TokenRBracket | TokenComma | TokenDot | TokenColon
| TokenTilde.

#[export] Instance TokenType_eq_dec : EqDecision TokenType.
Proof. solve_decision. Defined.

Record Token := mkToken {
  t_Type : TokenType;
  t_Value : string;
  t_Pos : Z;
  t_Line : Z;
  t_Column : Z
}.

Definition tokenTypeNames (t : TokenType) : string :=
  match t with
  | TokenEOF => "EOF" | TokenError => "Error" | TokenSelect => "SELECT" | TokenCount => "COUNT"
  | TokenSum => "SUM" | TokenAvg => "AVG" | TokenMin => "MIN" | TokenMax => "MAX"
  | TokenUpdate => "UPDATE" | TokenDelete => "DELETE" | TokenFrom => "FROM" | TokenWhere => "WHERE"
  | TokenAnd => "AND" | TokenOr => "OR" | TokenNot => "NOT" | TokenIn => "IN" | TokenIs => "IS"
  | TokenNull => "NULL" | TokenOrder => "ORDER" | TokenBy => "BY" | TokenAsc => "ASC"
  | TokenDesc => "DESC" | TokenLimit => "LIMIT" | TokenOffset => "OFFSET" | TokenWith => "WITH"
  | TokenInclude => "INCLUDE" | TokenSet => "SET" | TokenTrue => "TRUE" | TokenFalse => "FALSE"
  | TokenLike => "LIKE" | TokenILike => "ILIKE" | TokenBetween => "BETWEEN"
  | TokenHaving => "HAVING" | TokenGroup => "GROUP" | TokenGroupBy => "GROUP BY"
  | TokenEquals => "=" | TokenNotEquals => "!=" | TokenGreater => ">" | TokenGreaterEq => ">="
  | TokenLess => "<" | TokenLessEq => "<=" | TokenContains => "CONTAINS"
  | TokenStartsWith => "STARTSWITH" | TokenEndsWith => "ENDSWITH" | TokenIdent => "IDENT"
  | TokenString => "STRING" | TokenNumber => "NUMBER" | TokenParam => "PARAM"
  | TokenLParen => "(" | TokenRParen => ")" | TokenLBracket => "[" | TokenRBracket => "]"
  | TokenComma => "," | TokenDot => "." | TokenColon => ":" | TokenTilde => "~"
  end.

(** The [keywords] map. *)
Definition keyword_table : list (string * TokenType) :=
  [ ("select", TokenSelect); ("count", TokenCount); ("sum", TokenSum); ("avg", TokenAvg);
    ("min", TokenMin); ("max", TokenMax); ("update", TokenUpdate); ("delete", TokenDelete);
    ("from", TokenFrom); ("where", TokenWhere); ("and", TokenAnd); ("or", TokenOr);
    ("not", TokenNot); ("in", TokenIn); ("is", TokenIs); ("null", TokenNull);
    ("order", TokenOrder); ("by", TokenBy); ("asc", TokenAsc); ("desc", TokenDesc);
    ("limit", TokenLimit); ("offset", TokenOffset); ("with", TokenWith);
    ("include", TokenInclude); ("set", TokenSet); ("true", TokenTrue); ("false", TokenFalse);
    ("like", TokenLike); ("ilike", TokenILike); ("between", TokenBetween);
    ("having", TokenHaving); ("group", TokenGroup); ("contains", TokenContains);
    ("startswith", TokenStartsWith); ("endswith", TokenEndsWith) ].

Fixpoint find_keyword (k : string) (tbl : list (string * TokenType)) : option TokenType :=
  match tbl with
  | [] => None
  | (k', t) :: tbl' => if String.eqb k k' then Some t else find_keyword k tbl'
  end.

Definition keywords (k : string) : option TokenType := find_keyword k keyword_table.

Record Lexer := mkLexer { rest : string; pos : Z; line : Z; column : Z }.

Definition NewLexer (input : string) : Lexer := mkLexer input 0 1 1.

(** [unicode.IsLetter(rune(ch))] of a byte: the letters of Latin-1. *)
Definition is_latin1_letter (ch : ascii) : bool :=
  is_upper ch || is_lower ch || (byte ch =? 170) || (byte ch =? 181) || (byte ch =? 186)
  || in_range 192 214 ch || in_range 216 246 ch || in_range 248 255 ch.

Definition isDigit (ch : ascii) : bool := is_digit ch.
Definition isIdentStart (ch : ascii) : bool := is_latin1_letter ch || Ascii.eqb ch "_".
Definition isIdentChar (ch : ascii) : bool :=
  is_latin1_letter ch || is_digit ch || Ascii.eqb ch "_".

Definition advance (l : Lexer) : Lexer :=
  match rest l with
  | EmptyString => l
  | String _ s' => mkLexer s' (pos l + 1) (line l) (column l + 1)
  end.

(** [pos < len(input) && p(input[pos])] *)
Definition cur_is (p : ascii -> bool) (l : Lexer) : bool :=
  match rest l with EmptyString => false | String c _ => p c end.

(** [pos+1 < len(input) && p(input[pos+1])] *)
Definition next_is (p : ascii -> bool) (l : Lexer) : bool := cur_is p (mkLexer
  (match rest l with EmptyString => "" | String _ s' => s' end) 0 0 0).

Fixpoint skipWhitespace_at (s : string) (p ln col : Z) : Lexer :=
  match s with
  | EmptyString => mkLexer s p ln col
  | String ch s' =>
      if Ascii.eqb ch " " || Ascii.eqb ch tab || Ascii.eqb ch creturn
      then skipWhitespace_at s' (p + 1) ln (col + 1)
      else if Ascii.eqb ch newline then skipWhitespace_at s' (p + 1) (ln + 1) 1
      else mkLexer s p ln col
  end.

Definition skipWhitespace (l : Lexer) : Lexer :=
  skipWhitespace_at (rest l) (pos l) (line l) (column l).

(** The loop [for l.pos < len(l.input) && p(l.input[l.pos])] that copies the
    bytes it advances over to the string builder. *)
Fixpoint read_while_at (p : ascii -> bool) (s : string) (ps ln col : Z) : string * Lexer :=
  match s with
  | EmptyString => (EmptyString, mkLexer s ps ln col)
  | String ch s' =>
      if p ch
      then let '(v, l) := read_while_at p s' (ps + 1) ln (col + 1) in (String ch v, l)
      else (EmptyString, mkLexer s ps ln col)
  end.

Definition read_while (p : ascii -> bool) (l : Lexer) : string * Lexer :=
  read_while_at p (rest l) (pos l) (line l) (column l).

(** [if p(cur) { sb.WriteByte(cur); advance() }] *)
Definition read_if (p : ascii -> bool) (l : Lexer) : string * Lexer :=
  match rest l with
  | String ch _ => if p ch then (String ch "", advance l) else ("", l)
  | EmptyString => ("", l)
  end.

Definition unescape (ch : ascii) : ascii :=
  if Ascii.eqb ch "n" then newline
  else if Ascii.eqb ch "t" then tab
  else if Ascii.eqb ch "r" then creturn
  else ch.

(** The body of a string literal up to its closing quote; [None] when the
    input ends first. *)
Fixpoint readString_at (quote : ascii) (s : string) (ps ln col : Z) : option string * Lexer :=
  match s with
  | EmptyString => (None, mkLexer s ps ln col)
  | String ch s' =>
      if Ascii.eqb ch quote then (Some EmptyString, mkLexer s' (ps + 1) ln (col + 1))
      else
        let plain :=
          let '(ln', col') := if Ascii.eqb ch newline then (ln + 1, 0) else (ln, col) in
          let '(v, l) := readString_at quote s' (ps + 1) ln' (col' + 1) in
          (String ch <$> v, l) in
        if Ascii.eqb ch backslash then
          match s' with
          | String nextCh s'' =>
              let '(v, l) := readString_at quote s'' (ps + 2) ln (col + 2) in
              (String (unescape nextCh) <$> v, l)
          | EmptyString => plain
          end
        else plain
  end.

Definition readString (quote : ascii) (l : Lexer) : Token * Lexer :=
  let l1 := advance l in
  match readString_at quote (rest l1) (pos l1) (line l1) (column l1) with
  | (Some v, l2) => (mkToken TokenString v (pos l) (line l) (column l), l2)
  | (None, l2) => (mkToken TokenError "unterminated string" (pos l) (line l) (column l), l2)
  end.

Definition readNumber (l : Lexer) : Token * Lexer :=
  let '(sg, l1) := read_if (fun c => Ascii.eqb c "-") l in
  let '(ip, l2) := read_while isDigit l1 in
  let '(fp, l3) :=
    if cur_is (fun c => Ascii.eqb c ".") l2 && next_is isDigit l2
    then let '(ds, l') := read_while isDigit (advance l2) in (String "." ds, l')
    else ("", l2) in
  let '(ep, l4) :=
    if cur_is (fun c => Ascii.eqb c "e" || Ascii.eqb c "E") l3
    then let '(e, l') := read_if (fun _ => true) l3 in
         let '(es, l'') := read_if (fun c => Ascii.eqb c "+" || Ascii.eqb c "-") l' in
         let '(ds, l''') := read_while isDigit l'' in
         (e +:+ es +:+ ds, l''')
    else ("", l3) in
  (mkToken TokenNumber (sg +:+ ip +:+ fp +:+ ep) (pos l) (line l) (column l), l4).

Definition readIdentifier (l : Lexer) : Token * Lexer :=
  let '(value, l') := read_while isIdentChar l in
  match keywords (ToLower value) with
  | Some tokType => (mkToken tokType value (pos l) (line l) (column l), l')
  | None => (mkToken TokenIdent value (pos l) (line l) (column l), l')
  end.

Definition readParam (l : Lexer) : Token * Lexer :=
  let l1 := advance l in
  if cur_is isIdentStart l1
  then let '(v, l2) := read_while isIdentChar l1 in
       (mkToken TokenParam v (pos l) (line l) (column l), l2)
  else (mkToken TokenError "expected parameter name" (pos l) (line l) (column l), l1).

(** The one-byte tokens of the [switch] of [nextToken]. *)
Definition single_token (ch : ascii) : option TokenType :=
  if Ascii.eqb ch "(" then Some TokenLParen
  else if Ascii.eqb ch ")" then Some TokenRParen
  else if Ascii.eqb ch "[" then Some TokenLBracket
  else if Ascii.eqb ch "]" then Some TokenRBracket
  else if Ascii.eqb ch "," then Some TokenComma
  else if Ascii.eqb ch "." then Some TokenDot
  else if Ascii.eqb ch ":" then Some TokenColon
  else if Ascii.eqb ch "~" then Some TokenTilde
  else if Ascii.eqb ch "=" then Some TokenEquals
  else None.

Definition nextToken (l0 : Lexer) : Token * Lexer :=
  let l := skipWhitespace l0 in
  let mk t v := mkToken t v (pos l) (line l) (column l) in
  match rest l with
  | EmptyString => (mk TokenEOF "", l)
  | String ch s' =>
      match single_token ch with
      | Some t => (mk t (String ch ""), advance l)
      | None =>
          if Ascii.eqb ch "!" then
            let l1 := advance l in
            if cur_is (fun c => Ascii.eqb c "=") l1 then (mk TokenNotEquals "!=", advance l1)
            else (mk TokenError "unexpected character '!'", l1)
          else if Ascii.eqb ch ">" then
            let l1 := advance l in
            if cur_is (fun c => Ascii.eqb c "=") l1 then (mk TokenGreaterEq ">=", advance l1)
            else (mk TokenGreater ">", l1)
          else if Ascii.eqb ch "<" then
            let l1 := advance l in
            if cur_is (fun c => Ascii.eqb c "=") l1 then (mk TokenLessEq "<=", advance l1)
            else if cur_is (fun c => Ascii.eqb c ">") l1 then (mk TokenNotEquals "<>", advance l1)
            else (mk TokenLess "<", l1)
          else if Ascii.eqb ch dquote then readString dquote l
          else if Ascii.eqb ch squote then readString squote l
          else if Ascii.eqb ch "@" then readParam l
          else if Ascii.eqb ch "$" then readParam l
          else if isDigit ch || (Ascii.eqb ch "-" && next_is isDigit l) then readNumber l
          else if isIdentStart ch then readIdentifier l
          else (mk TokenError ("unexpected character '" +:+ encode_rune (byte ch) +:+ "'"), advance l)
      end
  end.

(** The error of [Tokenize]: the line, column and text of its message. *)
Inductive LexError := LexerError (ln col : Z) (msg : string).

(** [Tokenize]'s loop; [None] only when the fuel runs out. *)
Fixpoint Tokenize_loop (fuel : nat) (l : Lexer) : option (list Token * option LexError) :=
  match fuel with
  | O => None
  | S fuel' =>
      let '(tok, l') := nextToken l in
      match t_Type tok with
      | TokenEOF => Some ([tok], None)
      | TokenError => Some ([tok], Some (LexerError (t_Line tok) (t_Column tok) (t_Value tok)))
      | _ => match Tokenize_loop fuel' l' with
             | Some (toks, e) => Some (tok :: toks, e)
             | None => None
             end
      end
  end.

Definition Tokenize (l : Lexer) : option (list Token * option LexError) :=
  Tokenize_loop (S (String.length (rest l))) l.

(** ** Specification: what the lexer reads

    [eats l w l'] says that the lexer moved from [l] to [l'] over exactly the
    bytes [w]. *)
Definition eats (l : Lexer) (w : string) (l' : Lexer) : Prop :=
  rest l = w +:+ rest l' /\ pos l' = pos l + Z.of_nat (String.length w).

Definition is_space (c : ascii) : bool :=
  Ascii.eqb c " " || Ascii.eqb c tab || Ascii.eqb c creturn || Ascii.eqb c newline.

(** The source text of a token: its value, except that a string literal
    stands between two quotes and a parameter after its sigil. *)
Definition lexeme (tok : Token) (w : string) : Prop :=
  match t_Type tok with
  | TokenEOF => w = ""
  | TokenString =>
      exists q body, (q = dquote \/ q = squote) /\ w = String q (body +:+ String q "")
  | TokenParam => exists sigil, (sigil = "@"%char \/ sigil = "$"%char) /\ w = String sigil (t_Value tok)
  | _ => w = t_Value tok
  end.

Lemma eats_refl l : eats l "" l.
Proof. split; [done | cbn; lia]. Qed.

Lemma eats_trans l1 l2 l3 w1 w2 : eats l1 w1 l2 -> eats l2 w2 l3 -> eats l1 (w1 +:+ w2) l3.
Proof.
  intros [H1 H2] [H3 H4]. split.
  - by rewrite H1, H3, sapp_assoc.
  - rewrite slen_app. lia.
Qed.

Lemma eats_length l w l' :
  eats l w l' -> String.length (rest l) = (String.length w + String.length (rest l'))%nat.
Proof. intros [H _]. by rewrite H, slen_app. Qed.

Lemma eats_advance l c s : rest l = String c s -> eats l (String c "") (advance l).
Proof. intros H. unfold advance. rewrite H. split; [done | cbn; lia]. Qed.

Lemma eats_cons c s p ln col k ln' col' w l' :
  eats (mkLexer s (p + k) ln' col') w l' -> k = 1 ->
  eats (mkLexer (String c s) p ln col) (String c w) l'.
Proof. intros [H1 H2] ->. split; cbn in *; [by f_equal | lia]. Qed.

#[export] Hint Resolve eats_refl eats_advance : go.

Lemma skipWhitespace_eats l :
  exists w, eats l w (skipWhitespace l) /\ str_forall is_space w = true.
Proof.
  destruct l as [s p ln col]. unfold skipWhitespace; cbn.
  revert p ln col. induction s as [|c s IH]; intros p ln col; cbn.
  - exists "". split; [apply eats_refl | done].
  - destruct (Ascii.eqb c " " || Ascii.eqb c tab || Ascii.eqb c creturn) eqn:E1;
      [|destruct (Ascii.eqb c newline) eqn:E2].
    + destruct (IH (p + 1) ln (col + 1)) as (w & H1 & Hw). exists (String c w).
      split; [by eapply eats_cons|]. cbn. unfold is_space. by rewrite E1.
    + destruct (IH (p + 1) (ln + 1) 1) as (w & H1 & Hw). exists (String c w).
      split; [by eapply eats_cons|]. cbn. unfold is_space. by rewrite E1, E2.
    + exists "". split; [apply eats_refl | done].
Qed.

Lemma read_while_eats p l v l' :
  read_while p l = (v, l') -> eats l v l' /\ str_forall p v = true.
Proof.
  destruct l as [s ps ln col]. unfold read_while; cbn.
  revert ps ln col v l'. induction s as [|c s IH]; intros ps ln col v l'; cbn.
  - intros [= <- <-]. split; [apply eats_refl | done].
  - destruct (p c) eqn:E.
    + destruct (read_while_at p s (ps + 1) ln (col + 1)) as [v1 l1] eqn:E1.
      intros [= <- <-]. destruct (IH _ _ _ _ _ E1) as [H1 H3].
      split; [by eapply eats_cons | cbn; by rewrite E].
    + intros [= <- <-]. split; [apply eats_refl | done].
Qed.

Lemma read_if_eats p l v l' : read_if p l = (v, l') -> eats l v l'.
Proof.
  unfold read_if. destruct (rest l) as [|c s] eqn:E.
  - intros [= <- <-]. apply eats_refl.
  - destruct (p c); intros [= <- <-]; [by eapply eats_advance | apply eats_refl].
Qed.

Lemma readString_at_eats q s : forall ps ln col v l',
  readString_at q s ps ln col = (Some v, l') ->
  exists body, eats (mkLexer s ps ln col) (body +:+ String q "") l'.
Proof.
  induction s as [s IH] using (induction_ltof1 _ String.length); unfold ltof in IH.
  intros ps ln col v l'. destruct s as [|c s]; cbn; [discriminate|].
  destruct (ascii_eqb_spec c q) as [->|_].
  { intros [= <- <-]. exists "". split; cbn; [done | lia]. }
  assert (Hplain : forall ln' col',
    readString_at q s (ps + 1) ln' col' = (Some v, l') \/
    (exists v', readString_at q s (ps + 1) ln' col' = (Some v', l')) ->
    exists body, eats (mkLexer (String c s) ps ln col) (body +:+ String q "") l').
  { intros ln' col' H. assert (exists v', readString_at q s (ps + 1) ln' col' = (Some v', l'))
      as [v' Hv] by (destruct H; eauto).
    apply IH in Hv as (body & H1); [|cbn; lia]. exists (String c body).
    by eapply eats_cons. }
  assert (Hp : forall (r : option string * Lexer),
    (let '(v0, l) := r in (String c <$> v0, l)) = (Some v, l') -> exists v', r = (Some v', l')).
  { intros [[v0|] l0]; cbn; intros [= ? ?]; subst; eauto. }
  destruct (Ascii.eqb c backslash) eqn:Eb; [destruct s as [|c2 s2]|].
  - destruct (Ascii.eqb c newline); intros H; apply Hp in H; eauto.
  - destruct (readString_at q s2 (ps + 2) ln (col + 2)) as [[v0|] l0] eqn:E; cbn;
      intros [= <- <-].
    apply IH in E as (body & H1); [|cbn; lia]. exists (String c (String c2 body)).
    replace (ps + 2) with (ps + 1 + 1) in H1 by lia.
    eapply eats_cons with (k := 1) (ln' := ln) (col' := col); [|done]. by eapply eats_cons.
  - destruct (Ascii.eqb c newline); intros H; apply Hp in H; eauto.
Qed.

Lemma readString_at_none_eats q s : forall ps ln col l',
  readString_at q s ps ln col = (None, l') -> rest l' = "".
Proof.
  induction s as [s IH] using (induction_ltof1 _ String.length); unfold ltof in IH.
  intros ps ln col l'. destruct s as [|c s]; cbn; [by intros [= <-]|].
  destruct (Ascii.eqb c q); [discriminate|].
  assert (Hp : forall (r : option string * Lexer) f,
    (let '(v0, l) := r in (String f <$> v0, l)) = (None, l') -> r = (None, l')).
  { intros [[v0|] l0]; cbn; intros ? [= ?]; subst; eauto. }
  destruct (Ascii.eqb c backslash); [destruct s as [|c2 s2]|];
    try destruct (Ascii.eqb c newline); intros H; apply Hp in H; eapply IH; eauto; cbn; lia.
Qed.

(** A keyword token is none of the four types [lexeme] treats apart. *)
Definition plain_type (t : TokenType) : bool :=
  match t with TokenEOF | TokenError | TokenString | TokenParam => false | _ => true end.

Lemma find_keyword_in k tbl t : find_keyword k tbl = Some t -> In (k, t) tbl.
Proof.
  induction tbl as [|[k' t'] tbl IH]; cbn; [discriminate|].
  destruct (String.eqb_spec k k') as [->|]; [intros [= ->]|]; auto.
Qed.

Lemma keywords_plain k t : keywords k = Some t -> plain_type t = true.
Proof.
  intros H%find_keyword_in. cbn in H.
  repeat (destruct H as [[= <- <-]|H]; [reflexivity|]). destruct H.
Qed.

Lemma single_token_plain c t : single_token c = Some t -> plain_type t = true.
Proof. unfold single_token. intros H. repeat case_match_eqn; by simplify_eq. Qed.

Lemma lexeme_plain tok : plain_type (t_Type tok) = true -> lexeme tok (t_Value tok).
Proof. unfold lexeme. by destruct (t_Type tok). Qed.

(** What every reader guarantees of the token it returns. *)
Definition reads (l : Lexer) (r : Token * Lexer) : Prop :=
  t_Pos (fst r) = pos l /\ t_Type (fst r) <> TokenEOF /\
  (t_Type (fst r) <> TokenError ->
   exists w, eats l w (snd r) /\ lexeme (fst r) w /\ w <> "").

Lemma reads_plain l t v ln col l' :
  plain_type t = true -> eats l v l' -> v <> "" -> reads l (mkToken t v (pos l) ln col, l').
Proof.
  intros Ht He Hv. split; [done|]. split; [by destruct t|]. intros _.
  exists v. split; [done|]. split; [|done].
  by apply (lexeme_plain (mkToken t v (pos l) ln col)).
Qed.

Lemma reads_error l v ln col l' : reads l (mkToken TokenError v (pos l) ln col, l').
Proof. by repeat split. Qed.

#[export] Hint Resolve reads_error reads_plain : go.

Lemma reads_two l c c2 t v ln col s :
  rest l = String c s -> plain_type t = true -> v = String c (String c2 "") ->
  cur_is (fun x => Ascii.eqb x c2) (advance l) = true ->
  reads l (mkToken t v (pos l) ln col, advance (advance l)).
Proof.
  intros Hl Ht -> Hc. apply reads_plain; [done| |done].
  unfold cur_is in Hc. destruct (rest (advance l)) as [|x s'] eqn:E; [discriminate|].
  destruct (ascii_eqb_spec x c2) as [->|]; [|discriminate].
  change (String c (String c2 "")) with (String c "" +:+ String c2 "").
  eapply eats_trans; eauto with go.
Qed.

Lemma readString_reads q l s :
  q = dquote \/ q = squote -> rest l = String q s -> reads l (readString q l).
Proof.
  intros Hq Hl. unfold readString.
  destruct (readString_at _ _ _ _ _) as [[v|] l2] eqn:E; [|apply reads_error].
  split; [done|]. split; [done|]. intros _.
  apply readString_at_eats in E as [body He]. exists (String q (body +:+ String q "")).
  split; [|split; [|done]].
  - change (String q ?b) with (String q "" +:+ b). eapply eats_trans; [by eapply eats_advance|].
    by destruct (advance l).
  - exists q, body. done.
Qed.

Lemma readParam_reads l sg s :
  sg = "@"%char \/ sg = "$"%char -> rest l = String sg s -> reads l (readParam l).
Proof.
  intros Hs Hl. unfold readParam.
  destruct (cur_is isIdentStart (advance l)) eqn:E; [|apply reads_error].
  destruct (read_while isIdentChar (advance l)) as [v l2] eqn:E2.
  apply read_while_eats in E2 as [He _]. split; [done|]. split; [done|]. intros _.
  exists (String sg v). split; [|split; [by exists sg | done]].
  change (String sg v) with (String sg "" +:+ v). eapply eats_trans; eauto with go.
Qed.

Lemma cur_is_read_while p q l v l' :
  cur_is p l = true -> (forall c, p c = true -> q c = true) ->
  read_while q l = (v, l') -> v <> "".
Proof.
  unfold cur_is, read_while. intros Hp Hpq. destruct (rest l) as [|c s]; [discriminate|]. cbn.
  rewrite (Hpq c Hp). destruct (read_while_at _ _ _ _ _). by intros [= <- _].
Qed.

Lemma ident_start_char c : isIdentStart c = true -> isIdentChar c = true.
Proof.
  unfold isIdentStart, isIdentChar. rewrite !orb_true_iff. tauto.
Qed.

Lemma readIdentifier_reads l : cur_is isIdentStart l = true -> reads l (readIdentifier l).
Proof.
  intros Hl. unfold readIdentifier.
  destruct (read_while isIdentChar l) as [v l'] eqn:E.
  assert (Hv := cur_is_read_while _ _ _ _ _ Hl ident_start_char E).
  apply read_while_eats in E as [He _].
  destruct (keywords (ToLower v)) eqn:Ek; [apply keywords_plain in Ek|]; auto with go.
Qed.

Lemma readNumber_reads l :
  cur_is isDigit l = true \/ (cur_is (fun c => Ascii.eqb c "-") l = true) ->
  reads l (readNumber l).
Proof.
  intros Hl. unfold readNumber.
  destruct (read_if _ l) as [sg l1] eqn:E1. destruct (read_while isDigit l1) as [ip l2] eqn:E2.
  assert (Hne : sg +:+ ip <> "").
  { unfold read_if in E1. unfold cur_is in Hl. destruct (rest l) as [|c s] eqn:El;
      [by destruct Hl|].
    destruct (Ascii.eqb c "-"); [by simplify_eq|]. simplify_eq.
    destruct Hl as [Hl|Hl]; [|done].
    apply (cur_is_read_while isDigit isDigit) in E2; [done | | done].
    unfold cur_is. by rewrite El. }
  apply read_if_eats in E1. apply read_while_eats in E2 as [E2 _].
  assert (H3 : exists fp l3, eats l2 fp l3 /\
    (if cur_is (fun c => Ascii.eqb c ".") l2 && next_is isDigit l2
     then let '(ds, l') := read_while isDigit (advance l2) in (String "." ds, l')
     else ("", l2)) = (fp, l3)).
  { destruct (cur_is _ l2) eqn:Ec; cbn [andb]; [|by exists "", l2; auto with go].
    destruct (next_is _ l2); [|by exists "", l2; auto with go].
    destruct (read_while isDigit (advance l2)) as [ds l'] eqn:Ed.
    exists (String "." ds), l'. split; [|done].
    unfold cur_is in Ec. destruct (rest l2) as [|c s] eqn:El2; [discriminate|].
    destruct (ascii_eqb_spec c ".") as [->|]; [|discriminate].
    change (String "." ds) with ("." +:+ ds).
    apply read_while_eats in Ed as [Ed _]. eapply eats_trans; eauto with go. }
  destruct H3 as (fp & l3 & H3 & ->).
  assert (H4 : exists ep l4, eats l3 ep l4 /\
    (if cur_is (fun c => Ascii.eqb c "e" || Ascii.eqb c "E") l3
     then let '(e, l') := read_if (fun _ => true) l3 in
          let '(es, l'') := read_if (fun c => Ascii.eqb c "+" || Ascii.eqb c "-") l' in
          let '(ds, l''') := read_while isDigit l'' in
          (e +:+ es +:+ ds, l''')
     else ("", l3)) = (ep, l4)).
  { destruct (cur_is _ l3); [|by exists "", l3; auto with go].
    destruct (read_if _ l3) as [e l5] eqn:E5. destruct (read_if _ l5) as [es l6] eqn:E6.
    destruct (read_while _ l6) as [ds l7] eqn:E7. exists (e +:+ es +:+ ds), l7.
    split; [|done]. apply read_if_eats in E5, E6. apply read_while_eats in E7 as [E7 _].
    eauto using eats_trans. }
  destruct H4 as (ep & l4 & H4 & ->).
  apply reads_plain; [done | eauto using eats_trans |].
  rewrite <- sapp_assoc. by destruct (sg +:+ ip).
Qed.

Lemma nextToken_spec l :
  exists ws, let l1 := skipWhitespace l in
  eats l ws l1 /\ str_forall is_space ws = true /\
  ((rest l1 = "" /\ nextToken l = (mkToken TokenEOF "" (pos l1) (line l1) (column l1), l1)) \/
   reads l1 (nextToken l)).
Proof.
  destruct (skipWhitespace_eats l) as (ws & He & Hw). exists ws. cbn zeta.
  split; [done|]. split; [done|]. unfold nextToken.
  remember (skipWhitespace l) as l1. clear Heql1 He Hw l ws.
  destruct (rest l1) as [|c s] eqn:El; [by left | right].
  destruct (single_token c) as [t|] eqn:Es.
  { apply reads_plain; [by eapply single_token_plain | by eapply eats_advance | done]. }
  assert (Hone : forall t, plain_type t = true ->
    reads l1 (mkToken t (String c "") (pos l1) (line l1) (column l1), advance l1)).
  { intros t Ht. apply reads_plain; [done | by eapply eats_advance | done]. }
  repeat match goal with
  | |- context [if Ascii.eqb c ?x then _ else _] => destruct (ascii_eqb_spec c x) as [->|]
  end;
  try (by eapply readString_reads; [|eassumption]; auto);
  try (by eapply readParam_reads; [|eassumption]; auto);
  try (destruct (cur_is _ (advance l1)) eqn:E1; [by eapply reads_two; eauto|];
       first [by apply Hone | by apply reads_error |
              destruct (cur_is (fun x => Ascii.eqb x ">") (advance l1)) eqn:E2;
                [by eapply reads_two with (c2 := ">"%char); eauto | by apply Hone]]).
  destruct (isDigit c) eqn:Ed; cbn [orb].
  { apply readNumber_reads. left. unfold cur_is. by rewrite El. }
  destruct (Ascii.eqb c "-") eqn:Em; cbn [andb].
  { destruct (next_is isDigit l1).
    - apply readNumber_reads. right. unfold cur_is. by rewrite El.
    - destruct (isIdentStart c) eqn:Ei; [|apply reads_error].
      apply readIdentifier_reads. unfold cur_is. by rewrite El. }
  destruct (isIdentStart c) eqn:Ei; [|apply reads_error].
  apply readIdentifier_reads. unfold cur_is. by rewrite El.
Qed.

(** ** Printing tokens back to source text *)
Fixpoint escape (v : string) : string :=
  match v with
  | EmptyString => EmptyString
  | String c v' =>
      if Ascii.eqb c dquote || Ascii.eqb c backslash
      then String backslash (String c (escape v')) else String c (escape v')
  end.

Definition show_token (tok : Token) : string :=
  match t_Type tok with
  | TokenEOF => ""
  | TokenString => String dquote (escape (t_Value tok) +:+ String dquote "")
  | TokenParam => String "@" (t_Value tok)
  | _ => t_Value tok
  end.

Fixpoint show_tokens (toks : list Token) : string :=
  match toks with
  | [] => ""
  | tok :: toks' => show_token tok +:+ String " " (show_tokens toks')
  end.

Definition ident_shape (v : string) : bool :=
  match v with
  | EmptyString => false
  | String c v' => isIdentStart c && str_forall isIdentChar v'
  end.

(** [-?d+] or [-?d+.d+] *)
Definition number_shape (v : string) : bool :=
  let s1 := match v with
            | String c s' => if Ascii.eqb c "-" then s' else v
            | EmptyString => v
            end in
  let '(ip, s2) := span_digits s1 in
  negb (String.eqb ip "") &&
  match s2 with
  | EmptyString => true
  | String c s3 => Ascii.eqb c "." && negb (String.eqb s3 "") && str_forall is_digit s3
  end.

(** The (type, value) pairs the lexer can produce and [show_token] prints
    unambiguously. *)
Definition wf_token (tok : Token) : bool :=
  let v := t_Value tok in
  match t_Type tok with
  | TokenEOF | TokenError | TokenGroupBy => false
  | TokenIdent => ident_shape v && bool_decide (keywords (ToLower v) = None)
  | TokenString => true
  | TokenParam => ident_shape v
  | TokenNumber => number_shape v
  | TokenNotEquals => String.eqb v "!=" || String.eqb v "<>"
  | TokenGreater => String.eqb v ">"
  | TokenGreaterEq => String.eqb v ">="
  | TokenLess => String.eqb v "<"
  | TokenLessEq => String.eqb v "<="
  | TokenEquals | TokenLParen | TokenRParen | TokenLBracket | TokenRBracket | TokenComma
  | TokenDot | TokenColon | TokenTilde =>
      match v with
      | String c EmptyString => bool_decide (single_token c = Some (t_Type tok))
      | _ => false
      end
  | t => ident_shape v && bool_decide (keywords (ToLower v) = Some t)
  end.

(** A token without its position. *)
Definition kind (tok : Token) : TokenType * string := (t_Type tok, t_Value tok).

(** [covers p toks s]: the tokens read from offset [p] spell out the whole
    text [s]: each is preceded by white space only, sits at its [Pos] and
    stands for its lexeme, and [TokenEOF] is the last one and no other. *)
Fixpoint covers (p : Z) (toks : list Token) (s : string) : Prop :=
  match toks with
  | [] => s = ""
  | tok :: toks' =>
      exists ws w s', s = ws +:+ w +:+ s' /\ str_forall is_space ws = true /\ lexeme tok w /\
        t_Pos tok = p + Z.of_nat (String.length ws) /\
        (t_Type tok = TokenEOF <-> toks' = []) /\
        covers (p + Z.of_nat (String.length ws) + Z.of_nat (String.length w)) toks' s'
  end.

(** ** Lemmas on [Tokenize] *)
Lemma Tokenize_loop_total fuel : forall l,
  (String.length (rest l) < fuel)%nat -> exists r, Tokenize_loop fuel l = Some r.
Proof.
  induction fuel as [|fuel IH]; intros l Hl; [lia|]. cbn.
  destruct (nextToken_spec l) as (ws & He & _ & [[_ ->]|(_ & Hne & Hr)]); cbn; [eauto|].
  destruct (nextToken l) as [tok l']. cbn [fst snd] in *.
  destruct (decide (t_Type tok = TokenError)) as [->|Hn]; [eauto|].
  destruct (Hr Hn) as (w & He2 & _ & Hw).
  apply eats_length in He, He2. destruct w as [|c w]; [done|]. cbn in He2.
  destruct (IH l') as [[toks e] E]; [lia|].
  destruct (t_Type tok); try rewrite E; eauto; done.
Qed.

Lemma Tokenize_loop_covers fuel : forall l toks,
  Tokenize_loop fuel l = Some (toks, None) -> toks <> [] /\ covers (pos l) toks (rest l).
Proof.
  induction fuel as [|fuel IH]; intros l toks; cbn; [discriminate|].
  destruct (nextToken_spec l) as (ws & He & Hw & [[Hr ->]|(Hp & Hne & Hr)]).
  - cbn. intros [= <-]. split; [done|]. destruct He as [H1 H2]. exists ws, "", "".
    rewrite H1, Hr. do 4 (split; [done|]). split; [by split|done].
  - destruct (nextToken l) as [tok l']. cbn [fst snd] in *. intros H.
    assert (Htok : t_Type tok <> TokenError).
    { intros E. rewrite E in H. discriminate. }
    destruct (Hr Htok) as (w & He2 & Hlex & _).
    assert (exists toks', Tokenize_loop fuel l' = Some (toks', None) /\ toks = tok :: toks')
      as (toks' & E & ->).
    { destruct (t_Type tok); try done;
        (destruct (Tokenize_loop fuel l') as [[toks' [|]]|]; simplify_eq; eauto). }
    destruct (IH _ _ E) as [Hne' Hc]. split; [done|]. exists ws, w, (rest l').
    destruct He as [H1 H2], He2 as [H3 H4].
    split; [by rewrite H1, H3|]. split; [done|]. split; [done|]. split; [lia|].
    split; [by split|]. by rewrite <- H2, <- H4.
Qed.

(** ** Lemmas for the round trip: lexing a printed token *)
Lemma read_while_stop p v c r : forall l,
  rest l = v +:+ String c r -> str_forall p v = true -> p c = false ->
  exists l', read_while p l = (v, l') /\ rest l' = String c r.
Proof.
  intros [s ps ln col] Hl Hv Hc. unfold read_while. cbn in Hl |- *. subst s.
  revert ps ln col. induction v as [|d v IH]; intros ps ln col; cbn in *.
  - rewrite Hc. eauto.
  - apply andb_true_iff in Hv as [-> Hv]. destruct (IH Hv (ps + 1) ln (col + 1)) as (l' & -> & Hr).
    eauto.
Qed.

Lemma readString_at_escape v r : forall ps ln col,
  exists l', readString_at dquote (escape v +:+ String dquote r) ps ln col = (Some v, l') /\ rest l' = r.
Proof.
  induction v as [|c v IH]; intros ps ln col; [cbn; eauto|]. cbn [escape].
  destruct (ascii_eqb_spec c dquote) as [->|Hq]; cbn [orb].
  { destruct (IH (ps + 2) ln (col + 2)) as (l' & H1 & H2). exists l'. split; [|done].
    cbn in *. by rewrite H1. }
  destruct (ascii_eqb_spec c backslash) as [->|Hb].
  { destruct (IH (ps + 2) ln (col + 2)) as (l' & H1 & H2). exists l'. split; [|done].
    cbn in *. by rewrite H1. }
  cbn [readString_at String.append].
  rewrite (proj2 (Ascii.eqb_neq c dquote) Hq), (proj2 (Ascii.eqb_neq c backslash) Hb).
  set (e := escape v +:+ String dquote r) in *.
  destruct (Ascii.eqb c newline);
    (match goal with |- context [readString_at _ e ?a ?b ?d] =>
       destruct (IH a b d) as (l' & -> & Hr) end; eauto).
Qed.

(** How the first byte of an identifier, a number and a string steers
    [nextToken]; the 256 bytes are checked one by one. *)
Ltac all_bytes c := destruct c as [[] [] [] [] [] [] [] []]; vm_compute; try done; by intuition.

Lemma ident_start_steers c : isIdentStart c = true ->
  single_token c = None /\ Ascii.eqb c "!" = false /\ Ascii.eqb c ">" = false /\
  Ascii.eqb c "<" = false /\ Ascii.eqb c dquote = false /\ Ascii.eqb c squote = false /\
  Ascii.eqb c "@" = false /\ Ascii.eqb c "$" = false /\ isDigit c = false /\
  Ascii.eqb c "-" = false /\ is_space c = false.
Proof. all_bytes c. Qed.

Lemma digit_steers c : isDigit c = true \/ Ascii.eqb c "-" = true ->
  single_token c = None /\ Ascii.eqb c "!" = false /\ Ascii.eqb c ">" = false /\
  Ascii.eqb c "<" = false /\ Ascii.eqb c dquote = false /\ Ascii.eqb c squote = false /\
  Ascii.eqb c "@" = false /\ Ascii.eqb c "$" = false /\ is_space c = false.
Proof. all_bytes c. Qed.

Lemma single_token_space c t : single_token c = Some t -> is_space c = false.
Proof. all_bytes c. Qed.

Lemma skipWhitespace_id l c s : rest l = String c s -> is_space c = false -> skipWhitespace l = l.
Proof.
  destruct l as [s0 p ln col]; cbn. intros ->. unfold is_space, skipWhitespace; cbn.
  intros H. apply orb_false_iff in H as [-> ->]. done.
Qed.

Lemma span_digits_spec s : forall a b,
  span_digits s = (a, b) -> s = a +:+ b /\ str_forall is_digit a = true /\
  match b with String c _ => is_digit c = false | EmptyString => True end.
Proof.
  induction s as [|c s IH]; intros a b; cbn; [by intros [= <- <-]|].
  destruct (is_digit c) eqn:E.
  - destruct (span_digits s) as [a1 b1]. intros [= <- <-].
    destruct (IH _ _ eq_refl) as (-> & ? & ?). cbn. rewrite E. done.
  - intros [= <- <-]. cbn. done.
Qed.

(** Reading back a printed token: the lexer returns its type and value and
    stops at the separator. *)
Definition reads_back (tok : Token) (r : string) (l : Lexer) : Prop :=
  exists tok' l', nextToken l = (tok', l') /\ kind tok' = kind tok /\ rest l' = String " " r.

Lemma reads_back_ident tok r l :
  rest l = t_Value tok +:+ String " " r -> ident_shape (t_Value tok) = true ->
  match keywords (ToLower (t_Value tok)) with Some t => t | None => TokenIdent end = t_Type tok ->
  reads_back tok r l.
Proof.
  intros Hl Hs Ht. unfold reads_back. destruct (t_Value tok) as [|c v] eqn:Ev; [discriminate|].
  cbn in Hs. apply andb_true_iff in Hs as [Hc Hv].
  destruct (read_while_stop isIdentChar (String c v) " " r l) as (l' & Hr & Hl'); [done| |done|].
  { cbn. by rewrite (ident_start_char _ Hc), Hv. }
  destruct (ident_start_steers c Hc) as (H1 & H2 & H3 & H4 & H5 & H6 & H7 & H8 & H9 & H10 & H11).
  unfold nextToken. rewrite (skipWhitespace_id l c (v +:+ String " " r)) by done.
  rewrite Hl. cbn [String.append]. rewrite H1, H2, H3, H4, H5, H6, H7, H8, H9, H10, Hc. cbn [orb andb].
  unfold readIdentifier. rewrite Hr. unfold kind. rewrite <- Ht, Ev.
  destruct (keywords (ToLower (String c v))); eauto.
Qed.

Lemma reads_back_param tok r l :
  t_Type tok = TokenParam -> rest l = String "@" (t_Value tok) +:+ String " " r ->
  ident_shape (t_Value tok) = true -> reads_back tok r l.
Proof.
  intros Ht Hl Hs. unfold reads_back, nextToken.
  destruct (t_Value tok) as [|c v] eqn:Ev; [discriminate|].
  cbn in Hs. apply andb_true_iff in Hs as [Hc Hv]. cbn [String.append] in Hl.
  rewrite (skipWhitespace_id l _ _ Hl) by done. rewrite Hl. cbn -[kind].
  unfold readParam, advance. rewrite Hl.
  unfold cur_is at 1. cbn [rest String.append]. rewrite Hc.
  destruct (read_while_stop isIdentChar (String c v) " " r
    (mkLexer (String c (v +:+ String " " r)) (pos l + 1) (line l) (column l + 1)))
    as (l' & Hr & Hl'); [done | cbn; by rewrite (ident_start_char _ Hc), Hv | done |].
  rewrite Hr. unfold kind. rewrite Ht, Ev. eauto.
Qed.

Lemma reads_back_string tok r l :
  t_Type tok = TokenString -> rest l = show_token tok +:+ String " " r -> reads_back tok r l.
Proof.
  intros Ht Hl. unfold show_token in Hl. rewrite Ht in Hl.
  cbn [String.append] in Hl. rewrite sapp_assoc in Hl. cbn [String.append] in Hl.
  unfold reads_back, nextToken. rewrite (skipWhitespace_id l _ _ Hl) by done. rewrite Hl.
  cbn -[kind readString]. unfold readString, advance. rewrite Hl. cbn [rest pos line column].
  destruct (readString_at_escape (t_Value tok) (String " " r) (pos l + 1) (line l) (column l + 1))
    as (l' & -> & Hl'). unfold kind. rewrite Ht. eauto.
Qed.

Lemma reads_back_single tok c r l :
  t_Value tok = String c "" -> single_token c = Some (t_Type tok) ->
  rest l = t_Value tok +:+ String " " r -> reads_back tok r l.
Proof.
  intros Hv Ht Hl. rewrite Hv in Hl. cbn in Hl. unfold reads_back, nextToken.
  rewrite (skipWhitespace_id l _ _ Hl) by (by eapply single_token_space).
  rewrite Hl, Ht. unfold advance. rewrite Hl. unfold kind. rewrite Hv. eauto.
Qed.

Lemma reads_back_op tok r l :
  (t_Type tok, t_Value tok) ∈ [(TokenNotEquals, "!="); (TokenNotEquals, "<>"); (TokenGreater, ">");
    (TokenGreaterEq, ">="); (TokenLess, "<"); (TokenLessEq, "<=")] ->
  rest l = t_Value tok +:+ String " " r -> reads_back tok r l.
Proof.
  rewrite !elem_of_cons, elem_of_nil. intros H Hl. unfold reads_back, nextToken, kind.
  destruct H as [H|[H|[H|[H|[H|[H|[]]]]]]]; injection H as Ht Hv; rewrite Hv in Hl; cbn in Hl;
    rewrite (skipWhitespace_id l _ _ Hl) by done; rewrite Hl; cbn; unfold cur_is, advance;
    rewrite Hl; cbn; rewrite Ht, Hv; eauto.
Qed.

Lemma number_shape_split v : number_shape v = true ->
  exists sg ip fp, v = sg +:+ ip +:+ fp /\ (sg = "" \/ sg = "-") /\
    ip <> "" /\ str_forall is_digit ip = true /\
    (fp = "" \/ exists ds, fp = String "." ds /\ ds <> "" /\ str_forall is_digit ds = true).
Proof.
  unfold number_shape. intros H.
  assert (Hs : exists sg s1, v = sg +:+ s1 /\ (sg = "" \/ sg = "-") /\
    match v with String c s' => if Ascii.eqb c "-" then s' else v | EmptyString => v end = s1).
  { destruct v as [|c v]; [exists "", ""; auto|].
    destruct (ascii_eqb_spec c "-") as [->|]; [exists "-", v | exists "", (String c v)]; auto. }
  destruct Hs as (sg & s1 & -> & Hsg & E). rewrite E in H. clear E.
  destruct (span_digits s1) as [ip s2] eqn:Es. apply span_digits_spec in Es as (-> & Hd & _).
  apply andb_true_iff in H as [Hne H]. exists sg, ip, s2.
  split; [done|]. split; [done|]. split; [by destruct ip|]. split; [done|].
  destruct s2 as [|c s3]; [by left|right].
  rewrite !andb_true_iff in H. destruct H as [[H1 H2] H3].
  destruct (ascii_eqb_spec c "."); [subst|done]. exists s3. split; [done|]. by destruct s3.
Qed.

Lemma read_if_skip p l c s : rest l = String c s -> p c = false -> read_if p l = ("", l).
Proof. unfold read_if. by intros -> ->. Qed.

Lemma read_if_take p l c s : rest l = String c s -> p c = true ->
  exists l', read_if p l = (String c "", l') /\ rest l' = s.
Proof. unfold read_if, advance. intros -> ->. eauto. Qed.

(** [readNumber] on the digits of a number that a blank follows. *)
Lemma readNumber_back sg ip fp r l :
  rest l = sg +:+ ip +:+ fp +:+ String " " r -> sg = "" \/ sg = "-" ->
  ip <> "" -> str_forall is_digit ip = true ->
  (fp = "" \/ exists ds, fp = String "." ds /\ ds <> "" /\ str_forall is_digit ds = true) ->
  exists l', readNumber l = (mkToken TokenNumber (sg +:+ ip +:+ fp) (pos l) (line l) (column l), l')
             /\ rest l' = String " " r.
Proof.
  intros Hl Hsg Hip Hd Hfp. unfold readNumber.
  assert (H1 : exists l1, read_if (fun c => Ascii.eqb c "-") l = (sg, l1) /\
    rest l1 = ip +:+ fp +:+ String " " r).
  { destruct ip as [|d ip]; [done|]. destruct Hsg as [->| ->]; cbn in Hl.
    - exists l. split; [|done]. apply (read_if_skip _ _ _ _ Hl).
      cbn in Hd. apply andb_true_iff in Hd as [Hd _].
      destruct (ascii_eqb_spec d "-") as [->|]; [discriminate Hd | done].
    - destruct (read_if_take (fun c => Ascii.eqb c "-") _ _ _ Hl eq_refl) as (l1 & H & Hr).
      exists l1. done. }
  destruct H1 as (l1 & -> & Hl1).
  destruct Hfp as [->|(ds & -> & Hds & Hdd)]; cbn [String.append] in Hl1.
  - destruct (read_while_stop isDigit ip _ _ l1 Hl1 Hd eq_refl) as (l2 & -> & Hl2).
    unfold cur_is at 1. rewrite Hl2. cbn [andb Ascii.eqb Bool.eqb]. unfold cur_is. rewrite Hl2. cbn.
    rewrite !sapp_nil_r. eauto.
  - destruct (read_while_stop isDigit ip _ _ l1 Hl1 Hd eq_refl) as (l2 & -> & Hl2).
    destruct ds as [|d ds]; [done|].
    assert (Hn : next_is isDigit l2 = true).
    { unfold next_is, cur_is. rewrite Hl2. by apply andb_true_iff in Hdd as [? _]. }
    assert (Hdot : cur_is (fun c => Ascii.eqb c ".") l2 = true) by (unfold cur_is; by rewrite Hl2).
    rewrite Hdot, Hn. cbn [andb].
    destruct (read_while_stop isDigit (String d ds) " " r (advance l2)) as (l3 & -> & Hl3);
      [unfold advance; by rewrite Hl2 | done | done |].
    unfold cur_is. rewrite Hl3. cbn.
    rewrite sapp_nil_r. eauto.
Qed.

Lemma reads_back_number tok r l :
  t_Type tok = TokenNumber -> number_shape (t_Value tok) = true ->
  rest l = t_Value tok +:+ String " " r -> reads_back tok r l.
Proof.
  intros Ht Hs Hl. apply number_shape_split in Hs as (sg & ip & fp & Hv & Hsg & Hip & Hd & Hfp).
  unfold reads_back, nextToken, kind. rewrite Ht, Hv. rewrite Hv, !sapp_assoc in Hl.
  destruct (readNumber_back sg ip fp r l) as (l' & Hr & Hl'); [done..|].
  destruct ip as [|d ip]; [done|]. cbn [str_forall] in Hd. apply andb_true_iff in Hd as [Hd _].
  assert (exists c s, rest l = String c s /\
    (isDigit c = true \/ (Ascii.eqb c "-" = true /\ next_is isDigit l = true)))
    as (c & s & Hc & Hcd).
  { rewrite Hl. destruct Hsg as [->| ->]; cbn; do 2 eexists; (split; [reflexivity|]); [by left|].
    right. split; [done|]. unfold next_is, cur_is. rewrite Hl. done. }
  destruct (digit_steers c) as (H1 & H2 & H3 & H4 & H5 & H6 & H7 & H8 & H9); [tauto|].
  rewrite (skipWhitespace_id _ _ _ Hc H9), Hc, H1, H2, H3, H4, H5, H6, H7, H8.
  assert (isDigit c || Ascii.eqb c "-" && next_is isDigit l = true) as ->.
  { destruct Hcd as [->|[-> ->]]; [done | by rewrite orb_true_r]. }
  rewrite Hr. eauto.
Qed.

Lemma reads_back_wf tok r l :
  wf_token tok = true -> rest l = show_token tok +:+ String " " r -> reads_back tok r l.
Proof.
  unfold wf_token, show_token. intros Hwf Hl.
  destruct (t_Type tok) eqn:Ht; try discriminate Hwf;
    try (apply andb_true_iff in Hwf as [Hs Hk%bool_decide_eq_true];
         apply reads_back_ident; [done | done | by rewrite Hk, Ht]);
    try (destruct (t_Value tok) as [|c [|]] eqn:Hv; try discriminate Hwf;
         apply bool_decide_eq_true in Hwf;
         eapply reads_back_single; [done | by rewrite Ht | by rewrite Hv]);
    try (apply reads_back_op; [|done]; rewrite Ht;
         repeat (apply orb_true_iff in Hwf; destruct Hwf as [Hwf|Hwf]);
         apply String.eqb_eq in Hwf; rewrite Hwf, !elem_of_cons; tauto).
  - apply reads_back_string; [done|]. unfold show_token. by rewrite Ht.
  - by apply reads_back_number.
  - by apply reads_back_param.
Qed.

Lemma nextToken_space l r : rest l = String " " r ->
  exists l', rest l' = r /\ nextToken l = nextToken l'.
Proof.
  destruct l as [s p ln col]. cbn. intros ->. exists (mkLexer r (p + 1) ln (col + 1)). done.
Qed.

Lemma Tokenize_loop_show toks : forall fuel l,
  forallb wf_token toks = true -> rest l = show_tokens toks -> (length toks < fuel)%nat ->
  exists toks', Tokenize_loop fuel l = Some (toks', None) /\
    map kind toks' = (map kind toks ++ [(TokenEOF, "")])%list.
Proof.
  induction toks as [|tok toks IH]; intros fuel l Hwf Hl Hf; destruct fuel as [|fuel]; try (cbn in Hf; lia).
  - destruct l as [s p ln col]. cbn in Hl. subst s. cbn. eauto.
  - cbn in Hwf, Hl, Hf |- *. apply andb_true_iff in Hwf as [Hw Hws].
    destruct (reads_back_wf tok _ l Hw Hl) as (tok' & l' & -> & Hk & Hr).
    assert (Htok : t_Type tok' = t_Type tok) by (by injection Hk).
    destruct fuel as [|fuel]; [lia|].
    destruct (nextToken_space _ _ Hr) as (l2 & Hl2 & E).
    destruct (IH (S fuel) l2) as (toks' & Ht & Hm); [done|done|lia|].
    assert (Tokenize_loop (S fuel) l' = Tokenize_loop (S fuel) l2) as E2 by (cbn; by rewrite E).
    rewrite E2, Ht, Htok. exists (tok' :: toks'). cbn. rewrite Hk, Hm.
    split; [|done]. unfold wf_token in Hw. by destruct (t_Type tok).
Qed.

Lemma show_tokens_length toks :
  (length toks <= String.length (show_tokens toks))%nat.
Proof. induction toks as [|t toks IH]; cbn; [lia|]. rewrite slen_app. cbn. lia. Qed.

(** * Properties of the lexer *)

(** on every input the lexer returns after finitely many tokens, and when
    it reports no error the tokens account for the whole input: white space
    apart, each token stands at its recorded offset and spells out its piece
    of the text, and the single [TokenEOF] comes last. *)
Theorem tokenize_lossless (s : string) :
  exists toks e, Tokenize (NewLexer s) = Some (toks, e) /\ (e = None -> covers 0 toks s).
Proof.
  destruct (Tokenize_loop_total (S (String.length s)) (NewLexer s)) as [[toks e] H]; [cbn; lia|].
  exists toks, e. split; [done|]. intros ->. by apply Tokenize_loop_covers in H as [_ H].
Qed.

(** printing well-formed tokens, a blank after each, and lexing the text
    gives back the same token types and values, then [TokenEOF]: keywords,
    identifiers, numbers, parameters, operators and strings with any bytes
    in them (quotes, backslashes and newlines included). *)
Theorem tokenize_show (toks : list Token) (Hwf : forallb wf_token toks = true) :
  exists toks', Tokenize (NewLexer (show_tokens toks)) = Some (toks', None) /\
    map kind toks' = (map kind toks ++ [(TokenEOF, "")])%list.
Proof.
  apply Tokenize_loop_show; [done | done |].
  pose proof (show_tokens_length toks). cbn [rest NewLexer]. lia.
Qed.

Lemma tokenize_show_witness :
  let toks := map (fun '(t, v) => mkToken t v 0 0 0)
    [(TokenSelect, "Select"); (TokenIdent, "users"); (TokenWhere, "WHERE"); (TokenIdent, "a_1");
     (TokenNotEquals, "<>"); (TokenString, String dquote (String backslash "n")); (TokenAnd, "and");
     (TokenNumber, "-12.50"); (TokenLParen, "("); (TokenParam, "p")] in
  exists toks', Tokenize (NewLexer (show_tokens toks)) = Some (toks', None) /\
    map kind toks' = (map kind toks ++ [(TokenEOF, "")])%list.
Proof. apply tokenize_show. vm_compute. reflexivity. Defined.

(** * Errors

    [internal/query/errors.go].  A message built by [fmt.Sprintf] is kept as its format
    and arguments (a constructor of [Message]): the functions that build the errors are
    modelled, the rendering of [%q] is not. *)

Inductive ErrorType := ErrorLexer | ErrorParser | ErrorSemantic | ErrorCompiler | ErrorExecution.

Definition errorTypeNames (et : ErrorType) : string :=
  match et with
  | ErrorLexer => "LexerError" | ErrorParser => "ParserError" | ErrorSemantic => "SemanticError"
  | ErrorCompiler => "CompilerError" | ErrorExecution => "ExecutionError"
  end.

Record Position := mkPosition { p_Offset : Z; p_Line : Z; p_Column : Z }.

Definition no_position : Position := mkPosition 0 0 0.
Definition Position_IsValid (p : Position) : bool := 0 <? p_Line p.

Inductive Message :=
| MsgExpectedGot (expected got : string)   (** expected %s, got %q *)
| MsgUnexpectedToken (got : string)        (** unexpected token %q *)
| MsgExpectedGotEOF (expected : string)    (** expected %s, got end of input *)
| MsgUnexpectedEOF                         (** unexpected end of input *)
| MsgInvalidValue (got : string)           (** invalid value %q *)
| MsgMaxDepth (maxDepth : Z)               (** maximum nesting depth of %d exceeded *)
| MsgUnknownEntity (name : string)         (** unknown entity %q *)
| MsgUnsupportedOperator (op : CompareOp)  (** unsupported operator: %s *)
| MsgNeedsArray (op : string) (v : Value)  (** %s operator requires array value, got %T *)
| MsgText (s : string).

Record QueryError := mkQueryError {
  e_Position : Position;
  e_Message : Message;
  e_Type : ErrorType;
  e_Token : option Token
}.

Definition NewParserErrorWithToken (tok : Token) (m : Message) : QueryError :=
  mkQueryError (mkPosition (t_Pos tok) (t_Line tok) (t_Column tok)) m ErrorParser (Some tok).

Definition NewParserError (pos : Position) (m : Message) : QueryError :=
  mkQueryError pos m ErrorParser None.

Definition NewCompilerError (m : Message) : QueryError :=
  mkQueryError no_position m ErrorCompiler None.

Definition ErrUnexpectedToken (tok : Token) (expected : string) : QueryError :=
  NewParserErrorWithToken tok
    (if String.eqb expected "" then MsgUnexpectedToken (t_Value tok)
     else MsgExpectedGot expected (t_Value tok)).

Definition ErrUnexpectedEOF (expected : string) : QueryError :=
  mkQueryError no_position
    (if String.eqb expected "" then MsgUnexpectedEOF else MsgExpectedGotEOF expected)
    ErrorParser None.

Definition ErrInvalidValue (tok : Token) (expected : string) : QueryError :=
  NewParserErrorWithToken tok
    (if String.eqb expected "" then MsgInvalidValue (t_Value tok)
     else MsgExpectedGot expected (t_Value tok)).

Definition ErrNestedGroupDepth (maxDepth : Z) : QueryError :=
  NewParserError no_position (MsgMaxDepth maxDepth).

Definition ErrUnknownEntity (name : string) : QueryError :=
  NewCompilerError (MsgUnknownEntity name).
