(* ===== verification/QueryParser.v ===== *)
(** The query parser of [internal/query/parser.go]: a recursive descent over
    the tokens with a nesting-depth counter.

    The receiver [*Parser] is a [Parser] record: [toks] is the suffix of
    [tokens] from [pos] on, so [current] is its head (and the zero
    [TokenEOF] past the end, as [advance] sets it).  The functions of the
    recursive descent and their loops take fuel; [PFuel] marks its
    exhaustion, and [parse_total] shows that [parse_fuel] suffices. *)

From Stdlib Require Import ZArith Lia Ascii.
From stdpp Require Import base strings list.
From S2P Require Import Prelude GoStrings QueryAst QueryTokens.

#[local] Open Scope string_scope.
#[local] Open Scope Z_scope.

Record Parser := mkParser { toks : list Token; depth : Z }.

Definition maxDepth : Z := 10.

Definition NewParser (tokens : list Token) : Parser := mkParser tokens 0.

(** The errors of [Parse]: a [*QueryError], a [*strconv.NumError], or the
    error of [Tokenize]. *)
Inductive ParseError :=
| PQueryError (e : QueryError)
| PNumError (num : string) (e : NumErr)
| PLexError (e : LexError).

Inductive pres (A : Type) :=
| PRet (a : A) (p : Parser)
| PErr (e : ParseError)
| PFuel.
Arguments PRet {A} _ _.
Arguments PErr {A} _.
Arguments PFuel {A}.

Definition P (A : Type) : Type := Parser -> pres A.
Definition pret {A} (a : A) : P A := fun p => PRet a p.
Definition perr {A} (e : ParseError) : P A := fun _ => PErr e.
Definition pfuel {A} : P A := fun _ => PFuel.
Definition pbind {A B} (m : P A) (k : A -> P B) : P B :=
  fun p => match m p with
           | PRet a p' => k a p'
           | PErr e => PErr e
           | PFuel => PFuel
           end.

Notation "x '<-p' m ';;' k" := (pbind m (fun x => k))
  (at level 100, m at next level, k at level 200, right associativity).
Notation "m ';;p' k" := (pbind m (fun _ => k)) (at level 100, k at level 200, right associativity).

Definition eof : Token := mkToken TokenEOF "" 0 0 0.
Definition cur (p : Parser) : Token := hd eof (toks p).
Definition current : P Token := fun p => PRet (cur p) p.
Definition peek : P Token := fun p => PRet (hd eof (tl (toks p))) p.
Definition advance : P unit := fun p => PRet tt (mkParser (tl (toks p)) (depth p)).
Definition set_depth (d : Z) : P unit := fun p => PRet tt (mkParser (toks p) d).
Definition get_depth : P Z := fun p => PRet (depth p) p.
Definition unexpected {A} (tok : Token) (expected : string) : P A :=
  perr (PQueryError (ErrUnexpectedToken tok expected)).

Definition isIdentifierOrKeyword_type (t : TokenType) : bool :=
  match t with
  | TokenIdent
  | TokenCount | TokenSum | TokenAvg | TokenMin | TokenMax
  | TokenFrom | TokenWhere | TokenAnd | TokenOr | TokenNot
  | TokenIn | TokenIs | TokenNull | TokenOrder | TokenBy
  | TokenAsc | TokenDesc | TokenLimit | TokenOffset
  | TokenWith | TokenInclude | TokenSet | TokenTrue | TokenFalse
  | TokenLike | TokenILike | TokenBetween | TokenHaving | TokenGroup
  | TokenContains | TokenStartsWith | TokenEndsWith
  | TokenSelect | TokenUpdate | TokenDelete => true
  | _ => false
  end.

Definition isIdentifierOrKeyword (tok : Token) : bool := isIdentifierOrKeyword_type (t_Type tok).

Definition is_type (t : TokenType) (tok : Token) : bool := bool_decide (t_Type tok = t).

(** The numeric branch of [parseValue]. *)
Definition number_value (val : string) : result NumErr Value :=
  if str_contains "."%char val || str_contains "e"%char val || str_contains "E"%char val
  then match ParseFloat val with Ok f => Ok (VFloat f) | Err e => Err e end
  else match ParseInt val with Ok z => Ok (VInt z) | Err e => Err e end.

(** The loop over [, ident] of the identifier branch of [parseValue]. *)
Fixpoint comma_values (n : nat) (values : list Value) : P (list Value) :=
  match n with
  | O => pfuel
  | S n' =>
      tok <-p current ;;
      if is_type TokenComma tok then
        advance ;;p
        tok' <-p current ;;
        if negb (is_type TokenIdent tok' || is_type TokenString tok' || is_type TokenNumber tok')
        then pret values
        else advance ;;p comma_values n' (values ++ [VStr (t_Value tok')])%list
      else pret values
  end.

Fixpoint parseValue (n : nat) : P Value :=
  match n with
  | O => pfuel
  | S n' =>
      tok <-p current ;;
      match t_Type tok with
      | TokenString => advance ;;p pret (VStr (t_Value tok))
      | TokenNumber =>
          advance ;;p
          match number_value (t_Value tok) with
          | Ok v => pret v
          | Err e => perr (PNumError (t_Value tok) e)
          end
      | TokenTrue => advance ;;p pret (VBool true)
      | TokenFalse => advance ;;p pret (VBool false)
      | TokenNull => advance ;;p pret VNil
      | TokenParam => advance ;;p pret (VParam (t_Value tok))
      | TokenLBracket => l <-p parseList n' ;; pret (VList l)
      | TokenIdent =>
          advance ;;p
          tok' <-p current ;;
          if is_type TokenComma tok'
          then l <-p comma_values n' [VStr (t_Value tok)] ;; pret (VList l)
          else pret (VStr (t_Value tok))
      | _ => unexpected tok "value"
      end
  end
with parseList (n : nat) : P (list Value) :=
  match n with
  | O => pfuel
  | S n' =>
      tok <-p current ;;
      if negb (is_type TokenLBracket tok) then unexpected tok "[" else
      advance ;;p
      values <-p list_loop n' [] ;;
      tok' <-p current ;;
      if negb (is_type TokenRBracket tok') then unexpected tok' "]" else
      advance ;;p pret values
  end
with list_loop (n : nat) (values : list Value) : P (list Value) :=
  match n with
  | O => pfuel
  | S n' =>
      tok <-p current ;;
      if is_type TokenRBracket tok || is_type TokenEOF tok then pret values else
      val <-p parseValue n' ;;
      tok' <-p current ;;
      if is_type TokenComma tok' then advance ;;p list_loop n' (values ++ [val])%list
      else if negb (is_type TokenRBracket tok') then unexpected tok' ", or ]"
      else list_loop n' (values ++ [val])%list
  end.

(** The operators [parseCondition] accepts that a plain value follows. *)
Definition condition_op (t : TokenType) : option CompareOp :=
  match t with
  | TokenEquals => Some OpEquals
  | TokenNotEquals => Some OpNotEquals
  | TokenGreater => Some OpGreaterThan
  | TokenGreaterEq => Some OpGreaterThanOrEqual
  | TokenLess => Some OpLessThan
  | TokenLessEq => Some OpLessThanOrEqual
  | TokenContains => Some OpContains
  | TokenStartsWith => Some OpStartsWith
  | TokenEndsWith => Some OpEndsWith
  | TokenLike => Some OpLike
  | TokenILike => Some OpILike
  | TokenIn => Some OpIn
  | _ => None
  end.

(** The part of [parseCondition] after the field name. *)
Definition condition_tail (n : nat) (field : string) (not : bool) : P Condition :=
  tok <-p current ;;
  match t_Type tok with
  | TokenIs =>
      advance ;;p
      tok' <-p current ;;
      if is_type TokenNull tok'
      then advance ;;p pret (mkCond field OpIsNull VNil not None None)
      else if is_type TokenNot tok' then
        advance ;;p
        tok'' <-p current ;;
        if negb (is_type TokenNull tok'') then unexpected tok'' "NULL" else
        advance ;;p pret (mkCond field OpIsNotNull VNil not None None)
      else unexpected tok' "NULL or NOT NULL"
  | TokenBetween =>
      advance ;;p
      low <-p parseValue n ;;
      tok' <-p current ;;
      if negb (is_type TokenAnd tok') then unexpected tok' "AND" else
      advance ;;p
      high <-p parseValue n ;;
      pret (mkCond field OpBetween (VBetween low high) not None None)
  | t =>
      match condition_op t with
      | Some op =>
          advance ;;p
          value <-p parseValue n ;;
          pret (mkCond field op value not None None)
      | None => unexpected tok "comparison operator"
      end
  end.

(** [parseWhereExpr] and its loop, [parseCondition] and the parenthesized
    group that [parseCondition] and [parseSimpleFilter] share. *)
Fixpoint parseWhereExpr (n : nat) : P WhereClause :=
  match n with
  | O => pfuel
  | S n' =>
      cond <-p parseCondition n' ;;
      where_loop n' [cond] LogicalAnd
  end
with where_loop (n : nat) (conds : list Condition) (op : LogicalOp) : P WhereClause :=
  match n with
  | O => pfuel
  | S n' =>
      tok <-p current ;;
      if is_type TokenAnd tok then
        advance ;;p
        cond <-p parseCondition n' ;;
        where_loop n' (conds ++ [cond])%list op
      else if is_type TokenOr tok then
        advance ;;p
        let op' := if bool_decide (op = LogicalAnd) && (0 <? Z.of_nat (length conds))
                   then LogicalOr else op in
        cond <-p parseCondition n' ;;
        where_loop n' (conds ++ [cond])%list op'
      else pret (mkWhere conds op [])
  end
with parseCondition (n : nat) : P Condition :=
  match n with
  | O => pfuel
  | S n' =>
      tok <-p current ;;
      not <-p (if is_type TokenNot tok then advance ;;p pret true else pret false) ;;
      tok1 <-p current ;;
      if is_type TokenLParen tok1 then
        nested <-p group_expr n' ;;
        pret (mkCond "" OpEquals VNil not None (Some nested))
      else if negb (isIdentifierOrKeyword tok1) then unexpected tok1 "field name"
      else
        advance ;;p condition_tail n' (t_Value tok1) not
  end
with group_expr (n : nat) : P WhereClause :=
  match n with
  | O => pfuel
  | S n' =>
      d <-p get_depth ;;
      set_depth (d + 1) ;;p
      if maxDepth <? d + 1 then perr (PQueryError (ErrNestedGroupDepth maxDepth)) else
      advance ;;p
      nested <-p parseWhereExpr n' ;;
      tok <-p current ;;
      if negb (is_type TokenRParen tok) then unexpected tok ")" else
      advance ;;p
      d' <-p get_depth ;;
      set_depth (d' - 1) ;;p
      pret nested
  end.

Definition simple_op (t : TokenType) : option CompareOp :=
  match t with
  | TokenColon | TokenEquals => Some OpEquals
  | TokenNotEquals => Some OpNotEquals
  | TokenGreater => Some OpGreaterThan
  | TokenGreaterEq => Some OpGreaterThanOrEqual
  | TokenLess => Some OpLessThan
  | TokenLessEq => Some OpLessThanOrEqual
  | _ => None
  end.

Definition parseSimpleFilter (n : nat) : P (option Condition) :=
  tok <-p current ;;
  if is_type TokenString tok then
    advance ;;p pret (Some (mkCond "" OpExact (VStr (t_Value tok)) false None None))
  else if is_type TokenTilde tok then
    advance ;;p
    tok1 <-p current ;;
    if negb (isIdentifierOrKeyword tok1) && negb (is_type TokenString tok1)
    then unexpected tok1 "search term"
    else advance ;;p pret (Some (mkCond "" OpFuzzy (VStr (t_Value tok1)) false None None))
  else
    not <-p (if is_type TokenNot tok then advance ;;p pret true else pret false) ;;
    tok1 <-p current ;;
    if is_type TokenLParen tok1 then
      w <-p group_expr n ;;
      pret (Some (mkCond "" OpEquals VNil not None (Some w)))
    else if isIdentifierOrKeyword tok1 then
      let field := t_Value tok1 in
      advance ;;p
      tok2 <-p current ;;
      match simple_op (t_Type tok2) with
      | None => pret (Some (mkCond field OpEquals (VBool true) false None None))
      | Some op =>
          advance ;;p
          value <-p parseValue n ;;
          pret (Some (mkCond field op value not None None))
      end
    else if is_type TokenAnd tok1 || is_type TokenOr tok1 then
      advance ;;p pret None
    else unexpected tok1 "filter expression".

Fixpoint simple_loop (n : nat) (conditions : list Condition) : P (list Condition) :=
  match n with
  | O => pfuel
  | S n' =>
      tok <-p current ;;
      if is_type TokenEOF tok then pret conditions else
      cond <-p parseSimpleFilter n' ;;
      match cond with
      | Some c => simple_loop n' (conditions ++ [c])%list
      | None => simple_loop n' conditions
      end
  end.

Definition parseSimpleFilters (n : nat) : P Query :=
  conditions <-p simple_loop n [] ;;
  let q := empty_query QuerySelect in
  pret (if 0 <? Z.of_nat (length conditions)
        then set_Where (Some (mkWhere conditions LogicalAnd [])) q else q).

Fixpoint ident_list_loop (n : nat) (idents : list string) : P (list string) :=
  match n with
  | O => pfuel
  | S n' =>
      tok <-p current ;;
      if negb (isIdentifierOrKeyword tok) then
        if (length idents =? 0)%nat then unexpected tok "identifier" else pret idents
      else
        advance ;;p
        let idents' := (idents ++ [t_Value tok])%list in
        tok' <-p current ;;
        if is_type TokenComma tok' then advance ;;p ident_list_loop n' idents'
        else pret idents'
  end.

Definition parseIdentList (n : nat) : P (list string) := ident_list_loop n [].

Fixpoint order_loop (n : nat) (orders : list OrderClause) : P (list OrderClause) :=
  match n with
  | O => pfuel
  | S n' =>
      tok <-p current ;;
      if negb (isIdentifierOrKeyword tok) then
        if (length orders =? 0)%nat then unexpected tok "field name" else pret orders
      else
        advance ;;p
        tok1 <-p current ;;
        dir <-p (if is_type TokenAsc tok1 then advance ;;p pret OrderAsc
                 else if is_type TokenDesc tok1 then advance ;;p pret OrderDesc
                 else pret OrderAsc) ;;
        let orders' := (orders ++ [mkOrder (t_Value tok) dir])%list in
        tok2 <-p current ;;
        if is_type TokenComma tok2 then advance ;;p order_loop n' orders'
        else pret orders'
  end.

Definition parseOrderBy (n : nat) : P (list OrderClause) := order_loop n [].

Fixpoint update_loop (n : nat) (updates : list UpdateSet) : P (list UpdateSet) :=
  match n with
  | O => pfuel
  | S n' =>
      tok <-p current ;;
      if negb (isIdentifierOrKeyword tok) then
        if (length updates =? 0)%nat then unexpected tok "field name" else pret updates
      else
        advance ;;p
        tok1 <-p current ;;
        if negb (is_type TokenEquals tok1) then unexpected tok1 "=" else
        advance ;;p
        val <-p parseValue n' ;;
        let updates' := (updates ++ [mkUpdate (t_Value tok) val UpdateSetValue])%list in
        tok2 <-p current ;;
        if is_type TokenComma tok2 then advance ;;p update_loop n' updates'
        else pret updates'
  end.

Definition parseUpdateSets (n : nat) : P (list UpdateSet) := update_loop n [].

Definition parseInt : P Z :=
  tok <-p current ;;
  if negb (is_type TokenNumber tok) then unexpected tok "integer" else
  match ParseInt (t_Value tok) with
  | Err _ => perr (PQueryError (ErrInvalidValue tok "integer"))
  | Ok val => advance ;;p pret val
  end.

(** [if p.current.Type == t { p.advance() }] *)
Definition skip_type (t : TokenType) : P unit :=
  tok <-p current ;;
  if is_type t tok then advance else pret tt.

Fixpoint parseClauses (n : nat) (q : Query) : P Query :=
  match n with
  | O => pfuel
  | S n' =>
      tok <-p current ;;
      match t_Type tok with
      | TokenEOF => pret q
      | TokenWith | TokenInclude =>
          advance ;;p
          includes <-p parseIdentList n' ;; parseClauses n' (set_Include includes q)
      | TokenWhere =>
          advance ;;p
          w <-p parseWhereExpr n' ;; parseClauses n' (set_Where (Some w) q)
      | TokenOrder =>
          advance ;;p
          skip_type TokenBy ;;p
          orderBy <-p parseOrderBy n' ;; parseClauses n' (set_OrderBy orderBy q)
      | TokenGroup =>
          advance ;;p
          skip_type TokenBy ;;p
          groupBy <-p parseIdentList n' ;; parseClauses n' (set_GroupBy groupBy q)
      | TokenGroupBy =>
          advance ;;p
          groupBy <-p parseIdentList n' ;; parseClauses n' (set_GroupBy groupBy q)
      | TokenHaving =>
          advance ;;p
          having <-p parseWhereExpr n' ;; parseClauses n' (set_Having (Some having) q)
      | TokenLimit =>
          advance ;;p
          limit <-p parseInt ;; parseClauses n' (set_Limit limit q)
      | TokenOffset =>
          advance ;;p
          offset <-p parseInt ;; parseClauses n' (set_Offset offset q)
      | _ => unexpected tok "clause keyword"
      end
  end.

(** The entity name that every query type reads, then the clauses. *)
Definition parse_entity (q : Query) : P Query :=
  tok <-p current ;;
  if negb (is_type TokenIdent tok) then unexpected tok "entity name" else
  advance ;;p pret (set_Entity (t_Value tok) q).

Definition parseSelect (n : nat) : P Query :=
  advance ;;p
  tok <-p current ;;
  nxt <-p peek ;;
  q <-p (if is_type TokenIdent tok && negb (String.eqb (t_Value tok) "*")
            && (is_type TokenComma nxt || is_type TokenFrom nxt)
         then fields <-p parseIdentList n ;; pret (set_Fields fields (empty_query QuerySelect))
         else pret (empty_query QuerySelect)) ;;
  skip_type TokenFrom ;;p
  q <-p parse_entity q ;;
  parseClauses n q.

Definition parseAggregate (n : nat) (qType : QueryType) : P Query :=
  advance ;;p
  let q := empty_query qType in
  tok <-p current ;;
  q <-p (if negb (bool_decide (qType = QueryCount)) && is_type TokenLParen tok then
           advance ;;p
           tok1 <-p current ;;
           if negb (is_type TokenIdent tok1) then unexpected tok1 "field name" else
           advance ;;p
           tok2 <-p current ;;
           if negb (is_type TokenRParen tok2) then unexpected tok2 ")" else
           advance ;;p pret (set_AggField (t_Value tok1) q)
         else pret q) ;;
  skip_type TokenFrom ;;p
  q <-p parse_entity q ;;
  parseClauses n q.

Definition parseUpdate (n : nat) : P Query :=
  advance ;;p
  q <-p parse_entity (empty_query QueryUpdate) ;;
  tok <-p current ;;
  if negb (is_type TokenSet tok) then unexpected tok "SET" else
  advance ;;p
  updates <-p parseUpdateSets n ;;
  parseClauses n (set_Updates updates q).

Definition parseDelete (n : nat) : P Query :=
  advance ;;p
  skip_type TokenFrom ;;p
  q <-p parse_entity (empty_query QueryDelete) ;;
  parseClauses n q.

Definition Parser_Parse (n : nat) : P Query :=
  tok <-p current ;;
  match t_Type tok with
  | TokenEOF => perr (PQueryError (ErrUnexpectedEOF "query"))
  | TokenSelect => parseSelect n
  | TokenCount => parseAggregate n QueryCount
  | TokenSum => parseAggregate n QuerySum
  | TokenAvg => parseAggregate n QueryAvg
  | TokenMin => parseAggregate n QueryMin
  | TokenMax => parseAggregate n QueryMax
  | TokenUpdate => parseUpdate n
  | TokenDelete => parseDelete n
  | _ => parseSimpleFilters n
  end.

Definition parse_fuel (tokens : list Token) : nat := (5 * length tokens + 10)%nat.

(** The two entry points: tokenize, then run the parser.  The outer [option]
    is [None] only if a fuel runs out. *)
Definition run_parser {A} (m : nat -> P A) (input : string) : option (result ParseError A) :=
  match Tokenize (NewLexer input) with
  | None => None
  | Some (_, Some e) => Some (Err (PLexError e))
  | Some (tokens, None) =>
      match m (parse_fuel tokens) (NewParser tokens) with
      | PRet a _ => Some (Ok a)
      | PErr e => Some (Err e)
      | PFuel => None
      end
  end.

Definition Parse (input : string) : option (result ParseError Query) :=
  run_parser Parser_Parse input.

Definition ParseSimple (input : string) : option (result ParseError Query) :=
  run_parser parseSimpleFilters input.

(** ** Specification: nesting depth and weakest preconditions *)
Fixpoint where_depth (w : WhereClause) : nat :=
  match w with
  | mkWhere cs _ _ =>
      (fix go cs := match cs with
                    | [] => 0%nat
                    | c :: cs' => Nat.max (cond_depth c) (go cs')
                    end) cs
  end
with cond_depth (c : Condition) : nat :=
  match c with
  | mkCond _ _ _ _ _ (Some w) => S (where_depth w)
  | mkCond _ _ _ _ _ None => 0%nat
  end.

Definition conds_depth (cs : list Condition) : nat := foldr (fun c d => Nat.max (cond_depth c) d) 0%nat cs.

Definition opt_depth (w : option WhereClause) : nat :=
  match w with Some w => where_depth w | None => 0%nat end.

Definition query_depth (q : Query) : nat := Nat.max (opt_depth (q_Where q)) (opt_depth (q_Having q)).

(** [wp m p Q]: [m] run from [p] does not run out of fuel, and [Q] holds of
    its result if it returns one. *)
Definition wp {A} (m : P A) (p : Parser) (Q : A -> Parser -> Prop) : Prop :=
  match m p with
  | PRet a p' => Q a p'
  | PErr _ => True
  | PFuel => False
  end.

Definition len (p : Parser) : nat := length (toks p).
Definition nexttok (p : Parser) : Parser := mkParser (tl (toks p)) (depth p).

(** [p'] is [p] after at least [k] more tokens, at the same nesting depth. *)
Definition after (k : nat) (p p' : Parser) : Prop := (len p' + k <= len p)%nat /\ depth p' = depth p.

Lemma where_depth_eq cs op gs : where_depth (mkWhere cs op gs) = conds_depth cs.
Proof. cbn. induction cs as [|c cs IH]; cbn; [done | by rewrite IH]. Qed.

Lemma conds_depth_app a b : conds_depth (a ++ b)%list = Nat.max (conds_depth a) (conds_depth b).
Proof. unfold conds_depth. induction a as [|c a IH]; cbn; [done|]. rewrite IH. lia. Qed.

Lemma wp_bind {A B} (m : P A) (k : A -> P B) p Q :
  wp m p (fun a p' => wp (k a) p' Q) -> wp (pbind m k) p Q.
Proof. unfold wp, pbind. destruct (m p); done. Qed.

Lemma wp_mono {A} (m : P A) p (Q Q' : A -> Parser -> Prop) :
  wp m p Q -> (forall a p', Q a p' -> Q' a p') -> wp m p Q'.
Proof. unfold wp. destruct (m p); auto. Qed.

Lemma wp_current p Q : Q (cur p) p -> wp current p Q.
Proof. done. Qed.

Lemma wp_peek p Q : (forall t, Q t p) -> wp peek p Q.
Proof. intros H. apply H. Qed.

Lemma wp_advance p Q : Q tt (nexttok p) -> wp advance p Q.
Proof. done. Qed.

Lemma wp_pret {A} (a : A) p (Q : A -> Parser -> Prop) : Q a p -> wp (pret a) p Q.
Proof. done. Qed.

Lemma wp_perr {A} e p (Q : A -> Parser -> Prop) : wp (perr e) p Q.
Proof. done. Qed.

Lemma wp_unexpected {A} tok s p (Q : A -> Parser -> Prop) : wp (unexpected tok s) p Q.
Proof. done. Qed.

Lemma wp_get_depth p Q : Q (depth p) p -> wp get_depth p Q.
Proof. done. Qed.

Lemma wp_set_depth d p Q : Q tt (mkParser (toks p) d) -> wp (set_depth d) p Q.
Proof. done. Qed.

Lemma cur_nonempty p : t_Type (cur p) <> TokenEOF -> len p = S (len (nexttok p)).
Proof. unfold cur, len, nexttok. destruct (toks p); cbn; done. Qed.

Lemma len_nexttok p : (len (nexttok p) <= len p)%nat.
Proof. unfold len, nexttok. destruct (toks p); cbn; lia. Qed.

Lemma is_type_true t tok : is_type t tok = true -> t_Type tok = t.
Proof. unfold is_type. by intros H%bool_decide_eq_true. Qed.

Lemma ident_not_eof tok : isIdentifierOrKeyword tok = true -> t_Type tok <> TokenEOF.
Proof. unfold isIdentifierOrKeyword. by destruct (t_Type tok). Qed.

(** One step of a [wp] goal: the leading command, or a case split. *)
Ltac wp_step :=
  lazymatch goal with
  | |- wp (pbind _ _) _ _ => apply wp_bind
  | |- wp current _ _ => apply wp_current
  | |- wp peek _ _ => apply wp_peek; intros ?
  | |- wp advance _ _ => apply wp_advance
  | |- wp (pret _) _ _ => apply wp_pret
  | |- wp (perr _) _ _ => exact I
  | |- wp (unexpected _ _) _ _ => exact I
  | |- wp get_depth _ _ => apply wp_get_depth
  | |- wp (set_depth _) _ _ => apply wp_set_depth
  | |- wp (if negb ?b then _ else _) _ _ => let E := fresh "E" in destruct b eqn:E; cbn [negb]
  | |- wp (if ?b then _ else _) _ _ => let E := fresh "E" in destruct b eqn:E
  end.

(** Facts on the lengths that the case splits tell. *)
Ltac len_facts :=
  repeat match goal with
  | H : is_type ?t (cur ?p) = true |- _ =>
      apply is_type_true in H;
      try (assert (len p = S (len (nexttok p))) by (apply cur_nonempty; rewrite H; discriminate))
  | H : isIdentifierOrKeyword (cur ?p) = true |- _ =>
      apply ident_not_eof, cur_nonempty in H
  | H : (?a || ?b)%bool = true |- _ => apply orb_true_iff in H as [H|H]
  end.

Ltac after_tac :=
  unfold after in *; len_facts;
  repeat match goal with
  | |- context [len (nexttok ?p)] =>
      lazymatch goal with
      | _ : (len (nexttok p) <= len p)%nat |- _ => fail
      | _ => pose proof (len_nexttok p)
      end
  | _ : context [len (nexttok ?p)] |- _ =>
      lazymatch goal with
      | _ : (len (nexttok p) <= len p)%nat |- _ => fail
      | _ => pose proof (len_nexttok p)
      end
  end;
  split_and_all; cbn [depth nexttok] in *; repeat split; solve [congruence | lia].

Lemma after_nexttok p : t_Type (cur p) <> TokenEOF -> after 1 p (nexttok p).
Proof. intros H%cur_nonempty. split; [lia | done]. Qed.

Lemma comma_values_wp n : forall vs p, (len p < n)%nat ->
  wp (comma_values n vs) p (fun _ p' => after 0 p p').
Proof.
  induction n as [|n IH]; intros vs p Hn; [lia|]. cbn [comma_values].
  repeat wp_step; try after_tac.
  apply is_type_true in E. assert (H1 : len p = S (len (nexttok p))).
  { apply cur_nonempty. by rewrite E. }
  eapply wp_mono; [apply IH | intros; after_tac].
  pose proof (len_nexttok (nexttok p)). lia.
Qed.

Lemma parseValue_wp n :
  (forall p, (3 * len p + 3 <= n)%nat -> wp (parseValue n) p (fun _ p' => after 1 p p')) /\
  (forall p, (3 * len p + 2 <= n)%nat -> wp (parseList n) p (fun _ p' => after 1 p p')) /\
  (forall vs p, (3 * len p + 4 <= n)%nat -> wp (list_loop n vs) p (fun _ p' => after 0 p p')).
Proof.
  induction n as [|n (IHv & IHl & IHo)]; [split; [|split]; intros; lia|].
  split; [|split].
  - intros p Hn. cbn [parseValue]. wp_step. wp_step.
    destruct (t_Type (cur p)) eqn:Et; try exact I;
      pose proof (cur_nonempty p ltac:(rewrite Et; discriminate)) as Hl;
      repeat first [wp_step | after_tac].
    + eapply wp_mono; [apply comma_values_wp; lia | intros l p' Hp; wp_step; after_tac].
    + destruct (number_value _); [wp_step; after_tac | exact I].
    + eapply wp_mono; [apply IHl; lia | intros l p' Hp; wp_step; after_tac].
  - intros p Hn. cbn [parseList]. wp_step. wp_step. wp_step; [|exact I].
    apply is_type_true in E. pose proof (cur_nonempty p ltac:(rewrite E; discriminate)) as Hl.
    repeat wp_step. eapply wp_mono; [apply IHo; lia|]. intros vs p' Hp.
    repeat wp_step; after_tac.
  - intros vs p Hn. cbn [list_loop]. wp_step. wp_step. wp_step; [wp_step; after_tac|].
    apply wp_bind. eapply wp_mono; [apply IHv; lia|]. intros v p' Hp.
    repeat wp_step;
      (eapply wp_mono; [apply IHo | intros; after_tac]; after_tac).
Qed.

Lemma condition_tail_wp n f nt p : (3 * len p + 3 <= n)%nat ->
  wp (condition_tail n f nt) p (fun c p' => after 1 p p' /\ cond_depth c = 0%nat).
Proof.
  intros Hn. unfold condition_tail. wp_step. wp_step.
  destruct (t_Type (cur p)) eqn:Et; cbn [condition_op]; try exact I;
    pose proof (cur_nonempty p ltac:(rewrite Et; discriminate)) as Hl; wp_step; wp_step;
    try (wp_step; eapply wp_mono; [apply parseValue_wp; lia|]; intros v p' Hp;
         wp_step; split; [after_tac | done]).
  - repeat first [wp_step | solve [split; [after_tac | done]]].
  - apply wp_bind. eapply wp_mono; [apply parseValue_wp; lia|]. intros v p' Hp. cbv beta.
    repeat wp_step. apply is_type_true in E.
    pose proof (cur_nonempty p' ltac:(rewrite E; discriminate)) as Hl'.
    eapply wp_mono; [apply parseValue_wp; after_tac|]. intros v2 p2 Hp2.
    wp_step. split; [after_tac | done].
Qed.

Definition within (w : nat) (p : Parser) : Prop := Z.of_nat w + depth p <= maxDepth.

Lemma where_wp n :
  (forall p, (4 * len p + 6 <= n)%nat -> depth p <= maxDepth ->
     wp (parseWhereExpr n) p (fun w p' => after 1 p p' /\ within (where_depth w) p)) /\
  (forall cs op p, (4 * len p + 4 <= n)%nat -> within (conds_depth cs) p ->
     wp (where_loop n cs op) p (fun w p' => after 0 p p' /\ within (where_depth w) p)) /\
  (forall p, (4 * len p + 5 <= n)%nat -> depth p <= maxDepth ->
     wp (parseCondition n) p (fun c p' => after 1 p p' /\ within (cond_depth c) p)) /\
  (forall p, (4 * len p + 4 <= n)%nat -> is_type TokenLParen (cur p) = true ->
     wp (group_expr n) p (fun w p' => after 1 p p' /\ within (S (where_depth w)) p)).
Proof.
  induction n as [|n (IHw & IHl & IHc & IHg)]; [repeat split; intros; lia|].
  split; [|split; [|split]].
  - intros p Hn Hd. cbn [parseWhereExpr]. wp_step.
    eapply wp_mono; [apply IHc; [lia | done]|]. intros c p' [Hp Hc].
    eapply wp_mono; [apply IHl|].
    + after_tac.
    + unfold within, conds_depth in *. cbn. destruct Hp as [_ ->]. lia.
    + intros w p2 [Hp2 Hw]. split; [after_tac|]. unfold within in *.
      destruct Hp as [_ Hp]. lia.
  - intros cs op p Hn Hd. cbn [where_loop]. wp_step. wp_step.
    assert (Hstep : forall op', len p = S (len (nexttok p)) ->
      wp (pbind (parseCondition n) (fun cond => where_loop n (cs ++ [cond])%list op')) (nexttok p)
        (fun w p' => after 0 p p' /\ within (where_depth w) p)).
    { intros op' Hl. wp_step. eapply wp_mono; [apply IHc; [lia | unfold within in Hd; cbn; lia]|].
      intros c p' [Hp Hc]. eapply wp_mono; [apply IHl|].
      - after_tac.
      - rewrite conds_depth_app. unfold within, conds_depth in *. cbn in *.
        destruct Hp as [_ ->]. cbn. lia.
      - intros w p2 [Hp2 Hw]. split; [after_tac|]. unfold within in *.
        destruct Hp as [_ Hp]. cbn in Hp. lia. }
    wp_step; [|wp_step].
    + wp_step. wp_step. apply Hstep. after_tac.
    + wp_step. wp_step. apply Hstep. after_tac.
    + wp_step. split; [after_tac|]. by rewrite where_depth_eq.
  - intros p Hn Hd. cbn [parseCondition]. wp_step. wp_step. wp_step.
    assert (Htail : forall nt p1, after 0 p p1 ->
      wp (pbind current (fun tok1 =>
            if is_type TokenLParen tok1
            then pbind (group_expr n) (fun w => pret (mkCond "" OpEquals VNil nt None (Some w)))
            else if negb (isIdentifierOrKeyword tok1) then unexpected tok1 "field name"
            else pbind advance (fun _ => condition_tail n (t_Value tok1) nt))) p1
        (fun c p' => after 1 p p' /\ within (cond_depth c) p)).
    { intros nt p1 H1. wp_step. wp_step. wp_step.
      - wp_step. eapply wp_mono; [apply IHg; [after_tac | done]|]. intros w p' [Hp Hw].
        wp_step. split; [after_tac|]. unfold within in *. cbn. destruct H1 as [_ H1]. lia.
      - wp_step; [|exact I]. wp_step. wp_step.
        eapply wp_mono; [apply condition_tail_wp; after_tac|]. intros c p' [Hp Hc].
        split; [after_tac|]. unfold within. rewrite Hc. lia. }
    wp_step.
    + wp_step. wp_step. wp_step. apply Htail. after_tac.
    + wp_step. apply Htail. after_tac.
  - intros p Hn Ht. cbn [group_expr].
    pose proof (cur_nonempty p) as Hl. apply is_type_true in Ht. rewrite Ht in Hl.
    specialize (Hl ltac:(discriminate)).
    do 4 wp_step. wp_step; [exact I|]. apply Z.ltb_ge in E. wp_step. wp_step. wp_step.
    set (p1 := nexttok (mkParser (toks p) (depth p + 1))).
    assert (Hl1 : len p = S (len p1)) by (unfold p1; apply Hl).
    eapply wp_mono; [apply IHw; [lia | done]|]. intros w p2 [Hp2 Hw]. unfold within in *.
    repeat wp_step. assert (Hd1 : depth p1 = depth p + 1) by done.
    split; [|lia]. unfold after, len in *. cbn. destruct Hp2. split; [|lia].
    destruct (toks p2); cbn in *; lia.
Qed.

(** An optional leading [not]. *)
Definition opt_not (tok : Token) : P bool :=
  if is_type TokenNot tok then advance ;;p pret true else pret false.

Lemma opt_not_wp p (Q : bool -> Parser -> Prop) :
  (forall b p1, after 0 p p1 -> Q b p1) -> wp (opt_not (cur p)) p Q.
Proof. intros H. unfold opt_not. repeat wp_step; apply H; after_tac. Qed.

Lemma parseSimpleFilter_wp n p : (4 * len p + 4 <= n)%nat -> depth p <= maxDepth ->
  wp (parseSimpleFilter n) p (fun c p' => after 1 p p' /\
    match c with Some c => within (cond_depth c) p | None => True end).
Proof.
  intros Hn Hd. unfold parseSimpleFilter. wp_step. wp_step.
  assert (Hw : within 0 p) by (unfold within; lia).
  wp_step; [repeat wp_step; split; [after_tac | done]|].
  wp_step.
  { apply is_type_true in E0. pose proof (cur_nonempty p ltac:(rewrite E0; discriminate)) as Hl.
    repeat wp_step. split; [|done].
    pose proof (len_nexttok (nexttok p)). after_tac. }
  fold (opt_not (cur p)). wp_step. apply opt_not_wp. intros nt p1 H1.
  wp_step. wp_step. wp_step.
  - wp_step. eapply wp_mono; [apply where_wp; [after_tac | done]|]. intros w p' [Hp Hwp].
    wp_step. split; [after_tac|]. unfold within in *. cbn. destruct H1 as [_ H1]. lia.
  - wp_step; [|wp_step; [repeat wp_step; split; [|done]; after_tac | exact I]].
    wp_step. wp_step. wp_step. wp_step.
    destruct (simple_op _) eqn:Eo; [|wp_step; split; [after_tac | done]].
    wp_step. wp_step. wp_step. pose proof (len_nexttok (nexttok p1)).
    eapply wp_mono; [apply parseValue_wp; after_tac|]. intros v p' Hp. wp_step.
    split; [after_tac | done].
Qed.

Lemma simple_loop_wp n : forall cs p, (4 * len p + 5 <= n)%nat -> depth p = 0 ->
  (conds_depth cs <= 10)%nat ->
  wp (simple_loop n cs) p (fun cs' p' => (conds_depth cs' <= 10)%nat).
Proof.
  induction n as [|n IH]; intros cs p Hn Hd Hc; [lia|]. cbn [simple_loop].
  wp_step. wp_step. wp_step; [by wp_step|]. wp_step.
  eapply wp_mono; [apply parseSimpleFilter_wp; [lia | unfold maxDepth; lia]|].
  intros [c|] p' [Hp Hcd].
  - apply IH; [after_tac | destruct Hp; lia|]. rewrite conds_depth_app.
    unfold within, maxDepth in Hcd. unfold conds_depth at 2. cbn. lia.
  - apply IH; [after_tac | destruct Hp; lia | done].
Qed.

Lemma ident_list_wp n : forall l p, (len p < n)%nat ->
  wp (ident_list_loop n l) p (fun _ p' => after 0 p p').
Proof.
  induction n as [|n IH]; intros l p Hn; [lia|]. cbn [ident_list_loop].
  repeat wp_step; try exact I; try solve [after_tac].
  pose proof (len_nexttok (nexttok p)). eapply wp_mono; [apply IH; after_tac|]. intros; after_tac.
Qed.

Lemma order_loop_wp n : forall l p, (len p < n)%nat ->
  wp (order_loop n l) p (fun _ p' => after 0 p p').
Proof.
  induction n as [|n IH]; intros l p Hn; [lia|]. cbn [order_loop].
  wp_step. wp_step. wp_step; [|repeat wp_step; after_tac]. wp_step. wp_step. wp_step. wp_step. wp_step.
  assert (Hk : forall d p1, after 1 p p1 ->
    wp (pbind current (fun tok2 =>
      if is_type TokenComma tok2
      then pbind advance (fun _ => order_loop n (l ++ [mkOrder (t_Value (cur p)) d])%list)
      else pret (l ++ [mkOrder (t_Value (cur p)) d])%list)) p1 (fun _ p' => after 0 p p')).
  { intros d p1 H1. repeat wp_step; [|after_tac].
    pose proof (len_nexttok p1). eapply wp_mono; [apply IH; after_tac | intros; after_tac]. }
  wp_step; [do 3 wp_step; apply Hk; after_tac|].
  wp_step; [do 3 wp_step | wp_step]; apply Hk; after_tac.
Qed.

Lemma update_loop_wp n : forall l p, (3 * len p + 4 <= n)%nat ->
  wp (update_loop n l) p (fun _ p' => after 0 p p').
Proof.
  induction n as [|n IH]; intros l p Hn; [lia|]. cbn [update_loop].
  wp_step. wp_step. wp_step; [|repeat wp_step; after_tac]. wp_step. wp_step. wp_step. wp_step.
  wp_step; [|exact I]. wp_step. wp_step. wp_step.
  eapply wp_mono; [apply parseValue_wp; after_tac|]. intros v p' Hp. cbv beta.
  repeat wp_step; [|after_tac].
  pose proof (len_nexttok p'). eapply wp_mono; [apply IH; after_tac | intros; after_tac].
Qed.

Lemma parseInt_wp p : wp parseInt p (fun _ p' => after 1 p p').
Proof.
  unfold parseInt. wp_step. wp_step. wp_step; [|exact I].
  destruct (ParseInt _); [repeat wp_step; after_tac | exact I].
Qed.

Lemma skip_type_wp t p : wp (skip_type t) p (fun _ p' => after 0 p p').
Proof. unfold skip_type. repeat wp_step; after_tac. Qed.

Definition shallow (q : Query) : Prop := (query_depth q <= 10)%nat.

Lemma parseClauses_wp n : forall q p, (4 * len p + 5 <= n)%nat -> depth p = 0 -> shallow q ->
  wp (parseClauses n q) p (fun q' _ => shallow q').
Proof.
  induction n as [|n IH]; intros q p Hn Hd Hq; [lia|]. cbn [parseClauses].
  wp_step. wp_step.
  assert (Hwhere : len p = S (len (nexttok p)) -> forall set : WhereClause -> Query,
    (forall w, (where_depth w <= 10)%nat -> shallow (set w)) ->
    wp (pbind (parseWhereExpr n) (fun w => parseClauses n (set w))) (nexttok p)
      (fun q' _ => shallow q')).
  { intros Hl set Hset. wp_step.
    eapply wp_mono; [apply where_wp; [lia | cbn; unfold maxDepth; lia]|].
    intros w p' [Hp Hw]. unfold within, maxDepth in Hw. cbn in Hw.
    apply IH; [after_tac | destruct Hp as [_ Hp]; cbn in Hp; lia | apply Hset; lia]. }
  assert (Hidents : forall p1, after 1 p p1 -> forall set : list string -> Query,
    (forall l, shallow (set l)) ->
    wp (pbind (parseIdentList n) (fun l => parseClauses n (set l))) p1 (fun q' _ => shallow q')).
  { intros p1 H1 set Hset. wp_step. eapply wp_mono; [apply ident_list_wp; after_tac|].
    intros l p' Hp. apply IH; [after_tac | destruct H1, Hp; lia | apply Hset]. }
  assert (Hint : len p = S (len (nexttok p)) -> forall set : Z -> Query,
    (forall z, shallow (set z)) ->
    wp (pbind parseInt (fun z => parseClauses n (set z))) (nexttok p) (fun q' _ => shallow q')).
  { intros Hl set Hset. wp_step. eapply wp_mono; [apply parseInt_wp|].
    intros z p' Hp. apply IH; [after_tac | destruct Hp as [_ Hp]; cbn in Hp; lia | apply Hset]. }
  destruct (t_Type (cur p)) eqn:Et; try exact I; [by wp_step|..];
    pose proof (cur_nonempty p ltac:(rewrite Et; discriminate)) as Hl; wp_step; wp_step;
    try (apply Hwhere; [done|]); try (apply Hidents; [after_tac|]); try (apply Hint; [done|]);
    unfold shallow, query_depth in *; cbn; try done; try (intros; cbn; lia).
  all: wp_step; (eapply wp_mono; [apply skip_type_wp|]); intros [] p1 Hp1; cbv beta.
  - wp_step. eapply wp_mono; [apply order_loop_wp; after_tac|]. intros l p' Hp.
    apply IH; [after_tac | destruct Hp1 as [_ Hp1], Hp as [_ Hp]; cbn in Hp1; lia | done].
  - apply Hidents; [after_tac | done].
Qed.

Lemma finish_wp n q p : (4 * len p + 5 <= n)%nat -> depth p = 0 -> shallow q ->
  wp (pbind (parse_entity q) (fun q => parseClauses n q)) p (fun q' _ => shallow q').
Proof.
  intros Hn Hd Hq. unfold parse_entity. wp_step. wp_step. wp_step. wp_step; [|exact I].
  wp_step. wp_step. wp_step. apply parseClauses_wp; [|done|done].
  pose proof (len_nexttok p). lia.
Qed.

Lemma Parser_Parse_wp n p : (4 * len p + 5 <= n)%nat -> depth p = 0 ->
  wp (Parser_Parse n) p (fun q _ => shallow q).
Proof.
  intros Hn Hd. assert (Hnt := len_nexttok p).
  assert (Hfin : forall q p1, after 0 p p1 -> shallow q ->
    wp (pbind (skip_type TokenFrom) (fun _ => pbind (parse_entity q) (fun q => parseClauses n q))) p1
      (fun q' _ => shallow q')).
  { intros q p1 Hp1 Hq. wp_step. eapply wp_mono; [apply skip_type_wp|]. intros [] p2 Hp2. cbv beta in Hp2.
    apply finish_wp; [after_tac | destruct Hp1, Hp2; lia | done]. }
  assert (Hs : forall t, shallow (empty_query t)) by (intros t; unfold shallow; cbn; lia).
  assert (Hagg : forall t, wp (parseAggregate n t) p (fun q _ => shallow q)).
  { intros t. unfold parseAggregate. do 4 wp_step.
    assert (Hag : forall a, shallow (set_AggField a (empty_query t)))
      by (intros; unfold shallow; cbn; lia).
    pose proof (len_nexttok (nexttok p)). pose proof (len_nexttok (nexttok (nexttok p))).
    wp_step. wp_step; [|wp_step; apply Hfin; [after_tac | done]].
    do 4 wp_step. wp_step; [|exact I]. do 4 wp_step. wp_step; [|exact I]. do 3 wp_step.
    apply Hfin; [after_tac | done]. }
  assert (Hsimple : wp (parseSimpleFilters n) p (fun q _ => shallow q)).
  { unfold parseSimpleFilters. wp_step.
    eapply wp_mono; [apply simple_loop_wp; [done | done | cbn; lia]|].
    intros cs p' Hc. cbv beta in Hc. wp_step. unfold shallow, query_depth. destruct (0 <? _); cbn -[where_depth conds_depth];
      [rewrite where_depth_eq|]; lia. }
  unfold Parser_Parse. wp_step. wp_step.
  destruct (t_Type (cur p)) eqn:Et; try exact I; try done.
  - unfold parseSelect. do 6 wp_step.
    wp_step. wp_step.
    + unfold parseIdentList. wp_step. eapply wp_mono; [apply ident_list_wp; lia|].
      intros l p' Hp. wp_step. apply Hfin; [after_tac | unfold shallow; cbn; lia].
    + wp_step. apply Hfin; [after_tac | done].
  - unfold parseUpdate. wp_step. wp_step. wp_step. unfold parse_entity.
    repeat (wp_step; try exact I).
    pose proof (len_nexttok (nexttok p)). pose proof (len_nexttok (nexttok (nexttok p))).
    eapply wp_mono; [apply update_loop_wp; lia|]. intros u p' Hp. cbv beta.
    apply parseClauses_wp; [after_tac | | unfold shallow; cbn; lia].
    destruct Hp as [_ Hp]. cbn in Hp. lia.
  - unfold parseDelete. wp_step. wp_step. apply Hfin; [after_tac | done].
Qed.

(** * Properties of the parser *)

Lemma Parse_returns (s : string) :
  exists r, Parse s = Some r /\ (forall q, r = Ok q -> (query_depth q <= 10)%nat).
Proof.
  unfold Parse, run_parser.
  destruct (Tokenize_loop_total (S (String.length s)) (NewLexer s)) as [[ts [e|]] H];
    [cbn; lia|..]; unfold Tokenize; cbn [rest NewLexer]; rewrite H.
  { eexists. split; [done|]. discriminate. }
  pose proof (Parser_Parse_wp (parse_fuel ts) (NewParser ts)) as Hwp. unfold wp in Hwp.
  destruct (Parser_Parse _ _) as [q p|e|] eqn:E.
  - eexists. split; [done|]. intros q' [= <-]. apply Hwp; [|done]. unfold parse_fuel, len; cbn; lia.
  - eexists. split; [done|]. discriminate.
  - destruct Hwp; [|done]. unfold parse_fuel, len; cbn; lia.
Qed.

(** C25: [Parse] returns on every input - the recursive descent and its loops
    terminate within [parse_fuel] steps - and the conditions of a query it
    accepts nest parentheses at most [maxDepth] = 10 deep, in WHERE and in
    HAVING. *)
Theorem parse_total (s : string) :
  exists r, Parse s = Some r /\ (forall q, r = Ok q -> (query_depth q <= 10)%nat).
Proof. apply Parse_returns. Qed.
