(* ===== verification/QueryPrint.v ===== *)
(** Printing queries, and the round trip through the lexer and the parser.

    [pr_query] prints a query of any of the eight types as (type, value)
    pairs of tokens, [print_query] as source text; [wf_query] says which
    queries are in the image of the parser.  The parser proofs run on the
    token kinds only ([yields]): positions do not influence a successful
    parse. *)

From Stdlib Require Import ZArith Lia Ascii.
From stdpp Require Import base strings list.
From S2P Require Import Prelude GoStrings QueryAst QueryTokens QueryParser.

#[local] Open Scope string_scope.
#[local] Open Scope Z_scope.
#[local] Open Scope list_scope.

Abbreviation tk := (TokenType * string)%type.

(** ** The printer *)
Definition word (f : string) : tk :=
  (match keywords (ToLower f) with Some t => t | None => TokenIdent end, f).

Fixpoint commas (l : list (list tk)) : list tk :=
  match l with
  | [] => []
  | [x] => x
  | x :: l' => x ++ (TokenComma, ",") :: commas l'
  end.

Fixpoint pr_value (v : Value) : list tk :=
  match v with
  | VNil => [(TokenNull, "null")]
  | VStr s => [(TokenString, s)]
  | VBool true => [(TokenTrue, "true")]
  | VBool false => [(TokenFalse, "false")]
  | VInt z => [(TokenNumber, Itoa z)]
  | VParam n => [(TokenParam, n)]
  | VList l => (TokenLBracket, "[") :: commas (map pr_value l) ++ [(TokenRBracket, "]")]
  | VFloat _ | VBetween _ _ => []
  end.

Definition op_tok (op : CompareOp) : tk :=
  match op with
  | OpNotEquals => (TokenNotEquals, "!=")
  | OpGreaterThan => (TokenGreater, ">")
  | OpGreaterThanOrEqual => (TokenGreaterEq, ">=")
  | OpLessThan => (TokenLess, "<")
  | OpLessThanOrEqual => (TokenLessEq, "<=")
  | OpContains => (TokenContains, "contains")
  | OpStartsWith => (TokenStartsWith, "startswith")
  | OpEndsWith => (TokenEndsWith, "endswith")
  | OpLike => (TokenLike, "like")
  | OpILike => (TokenILike, "ilike")
  | OpIn => (TokenIn, "in")
  | _ => (TokenEquals, "=")
  end.

Definition pr_tail (op : CompareOp) (v : Value) : list tk :=
  match op, v with
  | OpIsNull, _ => [(TokenIs, "is"); (TokenNull, "null")]
  | OpIsNotNull, _ => [(TokenIs, "is"); (TokenNot, "not"); (TokenNull, "null")]
  | OpBetween, VBetween lo hi => (TokenBetween, "between") :: pr_value lo ++ (TokenAnd, "and") :: pr_value hi
  | _, _ => op_tok op :: pr_value v
  end.

Definition conn_tok (op : LogicalOp) : tk :=
  match op with LogicalAnd => (TokenAnd, "and") | LogicalOr => (TokenOr, "or") end.

Fixpoint separate (sep : tk) (l : list (list tk)) : list tk :=
  match l with
  | [] => []
  | x :: l' => sep :: x ++ separate sep l'
  end.

Fixpoint pr_cond (c : Condition) : list tk :=
  match c with
  | mkCond f op v nt _ nested =>
      (if nt then [(TokenNot, "not")] else []) ++
      match nested with
      | Some w => (TokenLParen, "(") :: pr_where w ++ [(TokenRParen, ")")]
      | None => word f :: pr_tail op v
      end
  end
with pr_where (w : WhereClause) : list tk :=
  match w with
  | mkWhere cs op _ =>
      tl (separate (conn_tok op)
            ((fix go cs := match cs with [] => [] | c :: cs' => pr_cond c :: go cs' end) cs))
  end.

Definition pr_words (l : list string) : list tk := commas (map (fun f => [word f]) l).

Definition pr_order (o : OrderClause) : list tk :=
  [word (o_Field o); match o_Direction o with
                     | OrderAsc => (TokenAsc, "asc") | OrderDesc => (TokenDesc, "desc") end].

Definition pr_list_clause {A} (kw : list tk) (pr : list A -> list tk) (l : list A) : list tk :=
  match l with [] => [] | _ => kw ++ pr l end.

Definition pr_opt_clause {A} (kw : tk) (pr : A -> list tk) (o : option A) : list tk :=
  match o with None => [] | Some a => kw :: pr a end.

Definition pr_int (z : Z) : list tk := [(TokenNumber, Itoa z)].

Definition pr_clauses (q : Query) : list tk :=
  pr_list_clause [(TokenWith, "with")] pr_words (q_Include q) ++
  pr_opt_clause (TokenWhere, "where") pr_where (q_Where q) ++
  pr_list_clause [(TokenOrder, "order"); (TokenBy, "by")] (fun l => commas (map pr_order l)) (q_OrderBy q) ++
  pr_list_clause [(TokenGroup, "group"); (TokenBy, "by")] pr_words (q_GroupBy q) ++
  pr_opt_clause (TokenHaving, "having") pr_where (q_Having q) ++
  pr_opt_clause (TokenLimit, "limit") pr_int (q_Limit q) ++
  pr_opt_clause (TokenOffset, "offset") pr_int (q_Offset q).

Definition pr_update (u : UpdateSet) : list tk :=
  word (u_Field u) :: (TokenEquals, "=") :: pr_value (u_Value u).

Definition from_entity (q : Query) : list tk :=
  [(TokenFrom, "from"); (TokenIdent, q_Entity q)].

Definition agg_tok (t : QueryType) : tk :=
  match t with
  | QueryCount => (TokenCount, "count") | QuerySum => (TokenSum, "sum")
  | QueryAvg => (TokenAvg, "avg") | QueryMin => (TokenMin, "min") | _ => (TokenMax, "max")
  end.

Definition pr_query (q : Query) : list tk :=
  match q_Type q with
  | QuerySelect => (TokenSelect, "select") :: pr_words (q_Fields q) ++ from_entity q
  | QueryUpdate => [(TokenUpdate, "update"); (TokenIdent, q_Entity q); (TokenSet, "set")]
                     ++ commas (map pr_update (q_Updates q))
  | QueryDelete => (TokenDelete, "delete") :: from_entity q
  | t => agg_tok t ::
         (if String.eqb (q_AggField q) "" then []
          else [(TokenLParen, "("); (TokenIdent, q_AggField q); (TokenRParen, ")")])
         ++ from_entity q
  end ++ pr_clauses q.

Definition to_token (k : tk) : Token := mkToken (fst k) (snd k) 0 0 0.

Definition print_query (q : Query) : string := show_tokens (map to_token (pr_query q)).

(** ** The queries the parser builds *)
Fixpoint wf_value (v : Value) : bool :=
  match v with
  | VNil | VStr _ | VBool _ => true
  | VInt z => in_int64 z
  | VParam n => ident_shape n
  | VList l => forallb wf_value l
  | VFloat _ | VBetween _ _ => false
  end.

(** A name that can be a field: it lexes as one token, and not as [not]. *)
Definition wf_word (f : string) : bool := ident_shape f.
Definition wf_field (f : string) : bool :=
  ident_shape f && negb (bool_decide (fst (word f) = TokenNot)).
Definition wf_ident (f : string) : bool :=
  ident_shape f && bool_decide (keywords (ToLower f) = None).

Definition wf_tail (op : CompareOp) (v : Value) : bool :=
  match op, v with
  | (OpIsNull | OpIsNotNull), VNil => true
  | OpBetween, VBetween lo hi => wf_value lo && wf_value hi
  | (OpEquals | OpNotEquals | OpGreaterThan | OpGreaterThanOrEqual | OpLessThan
     | OpLessThanOrEqual | OpContains | OpStartsWith | OpEndsWith | OpLike | OpILike | OpIn), _ =>
      wf_value v
  | _, _ => false
  end.

Fixpoint wf_cond (c : Condition) : bool :=
  match c with
  | mkCond f op v _ None None => wf_field f && wf_tail op v
  | mkCond f op v _ None (Some w) =>
      String.eqb f "" && bool_decide (op = OpEquals) && match v with VNil => true | _ => false end
      && wf_where w
  | mkCond _ _ _ _ (Some _) _ => false
  end
with wf_where (w : WhereClause) : bool :=
  match w with
  | mkWhere cs op gs =>
      match gs with [] => true | _ => false end &&
      match cs with
      | [] => false
      | [_] => bool_decide (op = LogicalAnd)
      | _ => true
      end &&
      (fix go cs := match cs with [] => true | c :: cs' => wf_cond c && go cs' end) cs
  end.

Definition wf_opt {A} (p : A -> bool) (o : option A) : bool :=
  match o with None => true | Some a => p a end.

Definition wf_clause (w : WhereClause) : bool := wf_where w && (where_depth w <=? 10)%nat.

Definition is_nil {A} (l : list A) : bool := match l with [] => true | _ => false end.

Definition wf_update (u : UpdateSet) : bool :=
  wf_word (u_Field u) && wf_value (u_Value u)
  && match u_Op u with UpdateSetValue => true | _ => false end.

Definition wf_query (q : Query) : bool :=
  wf_ident (q_Entity q) &&
  forallb wf_word (q_Include q) && wf_opt wf_clause (q_Where q) &&
  forallb (fun o => wf_word (o_Field o)) (q_OrderBy q) && forallb wf_word (q_GroupBy q) &&
  wf_opt wf_clause (q_Having q) && wf_opt in_int64 (q_Limit q) && wf_opt in_int64 (q_Offset q) &&
  match q_Type q with
  | QuerySelect =>
      match q_Fields q with [] => true | f :: fs => wf_ident f && forallb wf_word fs end
      && is_nil (q_Updates q) && String.eqb (q_AggField q) ""
  | QueryUpdate => is_nil (q_Fields q) && negb (is_nil (q_Updates q))
                   && forallb wf_update (q_Updates q) && String.eqb (q_AggField q) ""
  | QueryDelete | QueryCount =>
      is_nil (q_Fields q) && is_nil (q_Updates q) && String.eqb (q_AggField q) ""
  | _ => is_nil (q_Fields q) && is_nil (q_Updates q)
         && (String.eqb (q_AggField q) "" || wf_ident (q_AggField q))
  end.

(** ** Running the parser on token kinds *)
Definition eof_kind : tk := (TokenEOF, "").

Definition yields {A} (m : P A) (ks : list tk) (d : Z) (a : A) (ks' : list tk) : Prop :=
  forall p, map kind (toks p) = ks -> depth p = d ->
  exists p', m p = PRet a p' /\ map kind (toks p') = ks' /\ depth p' = d.

Lemma yields_bind {A B} (m : P A) (k : A -> P B) ks d a ks1 b ks2 :
  yields m ks d a ks1 -> yields (k a) ks1 d b ks2 -> yields (pbind m k) ks d b ks2.
Proof.
  intros H1 H2 p Hp Hd. destruct (H1 p Hp Hd) as (p1 & E & Hp1 & Hd1). unfold pbind.
  rewrite E. by apply H2.
Qed.

Lemma yields_pret {A} (a : A) ks d : yields (pret a) ks d a ks.
Proof. intros p Hp Hd. by exists p. Qed.

Lemma yields_current {B} (k : Token -> P B) ks d b ks' :
  (forall tok, t_Type tok = fst (hd eof_kind ks) -> t_Value tok = snd (hd eof_kind ks) ->
     yields (k tok) ks d b ks') ->
  yields (pbind current k) ks d b ks'.
Proof.
  intros H p Hp Hd. unfold pbind, current. apply H; [..|done|done].
  all: subst ks; unfold cur; by destruct (toks p).
Qed.

Lemma yields_peek {B} (k : Token -> P B) ks d b ks' :
  (forall tok, t_Type tok = fst (hd eof_kind (tl ks)) -> yields (k tok) ks d b ks') ->
  yields (pbind peek k) ks d b ks'.
Proof.
  intros H p Hp Hd. unfold pbind, peek. apply H; [|done|done].
  subst ks. by destruct (toks p) as [|? [|]].
Qed.

Lemma yields_advance {B} (k : unit -> P B) ks d b ks' :
  yields (k tt) (tl ks) d b ks' -> yields (pbind advance k) ks d b ks'.
Proof.
  intros H p Hp Hd. unfold pbind, advance. apply H; [|done]. cbn. subst ks. by destruct (toks p).
Qed.

Lemma yields_assoc {A B C} (m : P A) (k : A -> P B) (k' : B -> P C) ks d c ks' :
  yields (pbind m (fun x => pbind (k x) k')) ks d c ks' -> yields (pbind (pbind m k) k') ks d c ks'.
Proof.
  intros H p Hp Hd. destruct (H p Hp Hd) as (p' & E & H'). exists p'. split; [|done].
  rewrite <- E. unfold pbind. by destruct (m p).
Qed.

(** Run the next command of a [yields] goal; the token it reads is known
    from the head of the kinds. *)
Ltac y_step :=
  lazymatch goal with
  | |- yields (pbind (pbind ?m ?k) ?k') ?ks ?d ?b ?ks' =>
      apply yields_assoc
  | |- yields (pbind (pret ?a) ?k) ?ks ?d ?b ?ks' => change (yields (k a) ks d b ks'); cbv beta
  | |- yields (pbind current _) _ _ _ _ =>
      apply yields_current; let tok := fresh "tok" in let Ht := fresh "Ht" in
      let Hv := fresh "Hv" in intros tok Ht Hv; cbn [hd fst snd app] in Ht, Hv
  | |- yields (pbind advance _) _ _ _ _ => apply yields_advance; cbn [tl app]
  | |- yields (pret _) _ _ _ _ => apply yields_pret
  end.

Ltac y_run := repeat y_step.

Lemma is_type_yes t tok : t_Type tok = t -> is_type t tok = true.
Proof. unfold is_type. apply bool_decide_eq_true_2. Qed.

Lemma is_type_no t t' tok : t_Type tok = t' -> t' <> t -> is_type t tok = false.
Proof. intros Ht H. unfold is_type. apply bool_decide_eq_false_2. congruence. Qed.

(** Decide the token tests of the goal from what is known of the tokens. *)
Ltac y_type :=
  repeat match goal with
  | H : t_Type ?tok = ?t' |- context [is_type ?t ?tok] =>
      first [ rewrite (is_type_yes t tok H)
            | rewrite (is_type_no t t' tok H) by (first [discriminate | assumption]) ]
  end; cbn [orb andb negb].

Lemma number_value_Itoa z : in_int64 z = true -> number_value (Itoa z) = Ok (VInt z).
Proof.
  intros Hz. unfold number_value.
  rewrite !Itoa_contains by done. cbn [orb]. by rewrite (ParseInt_Itoa _ Hz).
Qed.

Section ValueInd.
Variable Q : Value -> Prop.
Hypothesis HS : forall v, (forall l, v <> VList l) -> Q v.
Hypothesis HL : forall l, Forall Q l -> Q (VList l).

Fixpoint Value_ind' (v : Value) : Q v :=
  match v with
  | VList l => HL l ((fix go l : Forall Q l :=
      match l with
      | [] => List.Forall_nil Q
      | x :: l' => List.Forall_cons Q x l' (Value_ind' x) (go l')
      end) l)
  | VNil => HS VNil ltac:(discriminate)
  | VStr s => HS (VStr s) ltac:(discriminate)
  | VBool b => HS (VBool b) ltac:(discriminate)
  | VInt z => HS (VInt z) ltac:(discriminate)
  | VFloat f => HS (VFloat f) ltac:(discriminate)
  | VParam s => HS (VParam s) ltac:(discriminate)
  | VBetween a b => HS (VBetween a b) ltac:(discriminate)
  end.
End ValueInd.

Lemma pr_value_head v : wf_value v = true ->
  exists t s r, pr_value v = (t, s) :: r /\ t <> TokenRBracket /\ t <> TokenEOF.
Proof. destruct v as [|s|[]|z|f|n|l|a b]; cbn; try discriminate; intros _; eauto 10. Qed.

Definition value_yields (v : Value) : Prop :=
  wf_value v = true -> forall n ks d, (3 * length (pr_value v ++ ks) + 3 <= n)%nat ->
  yields (parseValue n) (pr_value v ++ ks) d v ks.

Lemma list_loop_yields l : Forall value_yields l -> forallb wf_value l = true ->
  forall n acc s ks d,
  (3 * length (commas (map pr_value l) ++ (TokenRBracket, s) :: ks) + 4 <= n)%nat ->
  yields (list_loop n acc) (commas (map pr_value l) ++ (TokenRBracket, s) :: ks) d
    (acc ++ l) ((TokenRBracket, s) :: ks).
Proof.
  induction 1 as [|v l Hv _ IH]; intros Hwf n acc s ks d Hn; (destruct n as [|n]; [lia|]).
  - cbn [map commas app list_loop]. y_step. y_type. rewrite app_nil_r. y_step.
  - cbn in Hwf. apply andb_true_iff in Hwf as [Hwv Hwl].
    destruct (pr_value_head v Hwv) as (t & sv & r & Hpr & Ht1 & Ht2).
    specialize (IH Hwl). cbn [list_loop].
    destruct l as [|v2 l].
    + cbn [map commas] in *. y_step. rewrite Hpr in Ht. cbn in Ht. y_type.
      eapply yields_bind; [apply Hv; [done|rewrite length_app in *; cbn in *; lia]|]. y_step.
      y_type.
      specialize (IH n (acc ++ [v]) s ks d). rewrite app_nil_r in IH. apply IH.
      rewrite Hpr in Hn. cbn [app length] in *. rewrite length_app in Hn. cbn [length] in Hn. lia.
    + change (commas (map pr_value (v :: v2 :: l)))
        with (pr_value v ++ (TokenComma, ",") :: commas (map pr_value (v2 :: l))) in *.
      rewrite <- app_assoc in *. cbn [app] in *. y_step.
      rewrite Hpr in Ht. cbn in Ht. y_type.
      eapply yields_bind; [apply Hv; [done|rewrite !length_app in *; cbn [length] in *; rewrite ?length_app in *; cbn [length] in *; lia]|]. y_step.
      y_type. y_step.
      replace (acc ++ v :: v2 :: l) with ((acc ++ [v]) ++ v2 :: l) by (by rewrite <- app_assoc).
      apply (IH n (acc ++ [v]) s ks d).
      rewrite length_app in Hn. cbn [length] in Hn. lia.
Qed.

Lemma parseValue_yields v : value_yields v.
Proof.
  induction v as [v Hs|l Hl] using Value_ind'; intros Hwf n ks d Hn;
    (destruct n as [|n]; [lia|]).
  - destruct v as [|s|[]|z|f|nm|l|a b]; try discriminate Hwf; try (by destruct (Hs l));
      cbn [pr_value app parseValue]; y_step; rewrite Ht; y_step; try rewrite Hv; try y_step.
    cbn in Hwf. rewrite (number_value_Itoa _ Hwf). y_step.
  - cbn in Hwf. cbn [pr_value app]. cbn [parseValue]. y_step. rewrite Ht.
    cbn [pr_value app length] in Hn. rewrite <- app_assoc in *. cbn [app] in *.
    destruct n as [|[|n]]; try lia. cbn [parseList]. y_step. y_step.
    y_type. y_run.
    eapply yields_bind; [apply list_loop_yields; [done|done|lia]|].
    cbn [app]. y_run. y_type. y_run.
Qed.

(** ** Conditions and where clauses *)
Lemma condition_tail_yields f nt op v : wf_tail op v = true -> forall n ks d,
  (3 * length (pr_tail op v ++ ks) + 3 <= n)%nat ->
  yields (condition_tail n f nt) (pr_tail op v ++ ks) d (mkCond f op v nt None None) ks.
Proof.
  intros Hwf n ks d Hn. unfold condition_tail.
  assert (Hplain : forall t s, condition_op t = Some op -> wf_value v = true ->
    (3 * length ((t, s) :: pr_value v ++ ks) + 3 <= n)%nat -> t <> TokenIs -> t <> TokenBetween ->
    yields (condition_tail n f nt) ((t, s) :: pr_value v ++ ks) d (mkCond f op v nt None None) ks).
  { intros t s Hop Hv Hl H1 H2. unfold condition_tail. y_step.
    rewrite Ht. destruct t; try done; cbn in Hop; try discriminate Hop; injection Hop as <-;
      cbn [condition_op]; y_step;
      (eapply yields_bind; [apply parseValue_yields; [done | cbn in Hl |- *; lia]|]); y_step. }
  fold (condition_tail n f nt).
  destruct op; cbn in Hwf; try discriminate Hwf;
    try (cbn [pr_tail op_tok app] in *; apply Hplain; done).
  - destruct v; try discriminate Hwf. cbn [pr_tail app]. unfold condition_tail.
    y_step. rewrite Ht. y_run. y_type. y_run.
  - destruct v; try discriminate Hwf. cbn [pr_tail app]. unfold condition_tail.
    y_step. rewrite Ht. y_run. y_type. y_run. y_type. y_run.
  - destruct v as [| | | | | | |lo hi]; try discriminate Hwf. apply andb_true_iff in Hwf as [Hlo Hhi].
    cbn [pr_tail app] in *. rewrite <- app_assoc in *. cbn [app] in *. unfold condition_tail.
    y_step. rewrite Ht. y_run.
    eapply yields_bind; [apply parseValue_yields; [done | cbn in Hn |- *; lia]|].
    y_step. y_type. y_step.
    eapply yields_bind; [apply parseValue_yields; [done|]|].
    + cbn [length] in Hn. rewrite length_app in Hn. cbn [length] in Hn. lia.
    + y_step.
Qed.

(** The printed tail of a where clause: each condition after its own
    connective. *)
Definition pr_conns (l : list (LogicalOp * Condition)) : list tk :=
  concat (map (fun '(op, c) => conn_tok op :: pr_cond c) l).

Lemma pr_conns_cons op c l : pr_conns ((op, c) :: l) = conn_tok op :: pr_cond c ++ pr_conns l.
Proof. done. Qed.

(** The operator [parseWhereExpr] ends with: OR as soon as one connective is OR. *)
Fixpoint final_op (op : LogicalOp) (l : list (LogicalOp * Condition)) : LogicalOp :=
  match l with
  | [] => op
  | (LogicalOr, _) :: l' => final_op LogicalOr l'
  | (LogicalAnd, _) :: l' => final_op op l'
  end.

Definition stops (ks : list tk) : Prop :=
  fst (hd eof_kind ks) <> TokenAnd /\ fst (hd eof_kind ks) <> TokenOr.

Definition where_yields (w : WhereClause) : Prop :=
  wf_where w = true -> forall n ks d, (4 * length (pr_where w ++ ks) + 6 <= n)%nat ->
  Z.of_nat (where_depth w) + d <= maxDepth -> stops ks ->
  yields (parseWhereExpr n) (pr_where w ++ ks) d w ks.

Definition cond_yields (c : Condition) : Prop :=
  wf_cond c = true -> forall n ks d, (4 * length (pr_cond c ++ ks) + 5 <= n)%nat ->
  Z.of_nat (cond_depth c) + d <= maxDepth ->
  yields (parseCondition n) (pr_cond c ++ ks) d c ks.

Lemma pr_where_eq c cs op gs :
  pr_where (mkWhere (c :: cs) op gs) = pr_cond c ++ pr_conns (map (fun c => (op, c)) cs).
Proof.
  cbn. f_equal. induction cs as [|c' cs IH]; cbn; [done|]. by rewrite IH.
Qed.

Lemma wf_where_eq c cs op gs : wf_where (mkWhere (c :: cs) op gs) = true ->
  gs = [] /\ (cs = [] -> op = LogicalAnd) /\ forallb wf_cond (c :: cs) = true.
Proof.
  cbn. rewrite !andb_true_iff. intros [[Hg Ho] [Hc Hcs]].
  split; [by destruct gs|]. split; [intros ->; by apply bool_decide_eq_true in Ho|].
  split; [done|]. clear Ho. induction cs as [|c' cs IH]; cbn in *; [done|].
  apply andb_true_iff in Hcs as [-> Hcs]. by apply IH.
Qed.

Lemma final_op_const op cs : (cs = [] -> op = LogicalAnd) ->
  final_op LogicalAnd (map (fun c => (op, c)) cs) = op.
Proof.
  intros H. destruct cs as [|c cs]; cbn; [by rewrite H|]. clear H.
  destruct op; induction cs; cbn; auto.
Qed.

Lemma where_loop_yields l : forall n cs op ks d,
  Forall (fun oc => cond_yields (snd oc) /\ wf_cond (snd oc) = true /\
                    Z.of_nat (cond_depth (snd oc)) + d <= maxDepth) l ->
  cs <> [] -> (4 * length (pr_conns l ++ ks) + 4 <= n)%nat -> stops ks ->
  yields (where_loop n cs op) (pr_conns l ++ ks) d
    (mkWhere (cs ++ map snd l) (final_op op l) []) ks.
Proof.
  induction l as [|[op1 c] l IH]; intros n cs op ks d Hl Hcs Hn [Ha Ho];
    (destruct n as [|n]; [lia|]); cbn [where_loop].
  - cbn [pr_conns map concat app] in *. y_step. rewrite <- Ht in Ha, Ho.
    rewrite !(is_type_no _ _ _ eq_refl) by done. rewrite app_nil_r. y_step.
  - inversion Hl as [|? ? (Hc & Hw & Hd) Hl']; subst. cbn [snd] in *.
    rewrite pr_conns_cons in Hn |- *. cbn [app map] in Hn |- *.
    rewrite <- app_assoc in Hn |- *. cbn [length] in Hn.
    pose proof Hn as Hn2. rewrite length_app in Hn2.
    assert (Hrest : forall op', yields (pbind (parseCondition n) (fun cond => where_loop n (cs ++ [cond]) op'))
      (pr_cond c ++ pr_conns l ++ ks) d (mkWhere (cs ++ c :: map snd l) (final_op op' l) []) ks).
    { intros op'. eapply yields_bind; [apply Hc; [done | lia | done]|].
      replace (cs ++ c :: map snd l) with ((cs ++ [c]) ++ map snd l) by (by rewrite <- app_assoc).
      apply IH; [done | by destruct cs | lia | done]. }
    destruct op1; cbn [conn_tok final_op]; y_step; cbn [conn_tok fst] in Ht; y_type; y_step.
    + apply Hrest.
    + specialize (Hrest LogicalOr). destruct op; [|apply Hrest].
      assert ((0 <? Z.of_nat (length cs)) = true) as ->; [|apply Hrest].
      apply Z.ltb_lt. destruct cs; [done|]. cbn [length]. lia.
Qed.

Lemma isIdent_word f tok : t_Type tok = fst (word f) -> isIdentifierOrKeyword tok = true.
Proof.
  unfold isIdentifierOrKeyword, word. intros ->.
  destruct (keywords (ToLower f)) as [t|] eqn:E; [|done]. apply find_keyword_in in E. cbn in E.
  repeat (destruct E as [[= _ <-]|E]; [reflexivity|]). destruct E.
Qed.

Lemma word_not_paren f : fst (word f) <> TokenLParen.
Proof.
  unfold word. destruct (keywords (ToLower f)) as [t|] eqn:E; [cbn|done].
  apply find_keyword_in in E. cbn in E. intros ->.
  repeat (destruct E as [E|E]; [discriminate E|]). destruct E.
Qed.

(** The optional [not] of a condition. *)
Lemma opt_not_yields {B} nt (k : bool -> P B) ks d b ks' :
  fst (hd eof_kind ks) <> TokenNot -> yields (k nt) ks d b ks' ->
  yields (pbind current (fun tok => pbind (if is_type TokenNot tok
            then pbind advance (fun _ => pret true) else pret false) k))
    ((if nt : bool then [(TokenNot, "not")] else []) ++ ks) d b ks'.
Proof.
  intros Hk H. destruct nt; cbn [app].
  - y_step. y_type. y_run. exact H.
  - y_step. rewrite (is_type_no _ _ _ Ht Hk). y_run. exact H.
Qed.

Lemma group_yields w : where_yields w -> wf_where w = true -> forall n ks d s s',
  (4 * length (pr_where w ++ (TokenRParen, s') :: ks) + 7 <= n)%nat ->
  Z.of_nat (S (where_depth w)) + d <= maxDepth ->
  yields (group_expr n) ((TokenLParen, s) :: pr_where w ++ (TokenRParen, s') :: ks) d w ks.
Proof.
  intros Hw Hwf n ks d s s' Hn Hd. destruct n as [|n]; [lia|]. cbn [group_expr].
  intros p Hp Hdp. unfold pbind at 1, get_depth at 1. unfold pbind at 1, set_depth at 1.
  rewrite Hdp. assert ((maxDepth <? d + 1) = false) as -> by (unfold maxDepth in *; lia).
  pose proof (Hw Hwf n ((TokenRParen, s') :: ks) (d + 1) ltac:(lia) ltac:(lia) ltac:(done)) as Hy.
  destruct (Hy (mkParser (tl (toks p)) (d + 1))) as (p1 & E1 & Hp1 & Hd1); [|done|].
  { cbn. destruct (toks p); [done|]. by injection Hp. }
  unfold pbind at 1, advance at 1. cbn [toks depth]. unfold pbind at 1. rewrite E1.
  unfold pbind at 1, current at 1. unfold cur. destruct (toks p1) as [|t1 ts] eqn:Et; [done|].
  injection Hp1 as Ht1 Hv1 Hts. cbn [hd]. rewrite (is_type_yes _ _ Ht1). cbn.
  unfold pbind, advance, get_depth, set_depth, pret. cbn. rewrite Et. cbn.
  eexists. split; [reflexivity|]. cbn. split; [done|lia].
Qed.

Lemma word_head f r : hd eof_kind (word f :: r) = word f.
Proof. done. Qed.

Lemma cond_leaf_yields f op v nt : cond_yields (mkCond f op v nt None None).
Proof.
  intros Hwf n ks d Hn Hd. cbn [wf_cond] in Hwf. apply andb_true_iff in Hwf as [Hf Ht].
  apply andb_true_iff in Hf as [_ Hf%negb_true_iff]. apply bool_decide_eq_false in Hf.
  destruct n as [|n]; [lia|]. cbn [pr_cond] in *. rewrite <- app_assoc in *. cbn [app] in *.
  cbn [parseCondition]. apply opt_not_yields; [done|]. rewrite length_app in Hn. cbn [length] in Hn.
  y_step. rewrite (is_type_no _ _ _ Ht0 (word_not_paren f)), (isIdent_word f) by done.
  cbn [negb]. y_step. cbn [word snd] in Hv. rewrite Hv. apply condition_tail_yields; [done|lia].
Qed.

Lemma conds_depth_in c cs : In c cs -> (cond_depth c <= conds_depth cs)%nat.
Proof.
  unfold conds_depth. induction cs as [|c' cs IH]; cbn; [done|]. intros [->|H]; [lia|].
  specialize (IH H). lia.
Qed.

Lemma conns_premise op cs d : Forall cond_yields cs -> forallb wf_cond cs = true ->
  Z.of_nat (conds_depth cs) + d <= maxDepth ->
  Forall (fun oc => cond_yields (snd oc) /\ wf_cond (snd oc) = true /\
            Z.of_nat (cond_depth (snd oc)) + d <= maxDepth) (map (fun c => (op : LogicalOp, c)) cs).
Proof.
  intros Hy Hw Hd. apply Forall_map, List.Forall_forall. intros c Hc. cbn.
  rewrite forallb_forall in Hw. rewrite List.Forall_forall in Hy.
  pose proof (conds_depth_in c cs Hc). split; [auto|]. split; [auto|lia].
Qed.

Lemma where_cond_yields : (forall w, where_yields w) /\ (forall c, cond_yields c).
Proof.
  apply where_cond_ind.
  - intros cs op gs Hcs Hwf n ks d Hn Hd Hs. destruct cs as [|c cs]; [by destruct gs|].
    destruct (wf_where_eq _ _ _ _ Hwf) as (-> & Hop & Hwc). rewrite where_depth_eq in Hd.
    rewrite pr_where_eq in Hn |- *. rewrite <- app_assoc in Hn |- *.
    inversion Hcs as [|? ? Hc Hcs']; subst. cbn [forallb] in Hwc.
    apply andb_true_iff in Hwc as [Hw1 Hw2].
    assert (Hd2 : Z.of_nat (cond_depth c) + d <= maxDepth /\
                  Z.of_nat (conds_depth cs) + d <= maxDepth).
    { unfold conds_depth in *. cbn [foldr] in Hd. lia. }
    pose proof Hn as Hn2. rewrite length_app in Hn2.
    destruct n as [|n]; [lia|]. cbn [parseWhereExpr].
    eapply yields_bind; [apply Hc; [done | lia | tauto]|].
    replace (mkWhere (c :: cs) op []) with
      (mkWhere ([c] ++ map snd (map (fun c => (op, c)) cs))
               (final_op LogicalAnd (map (fun c => (op, c)) cs)) []).
    + apply where_loop_yields; [apply conns_premise; tauto | done | lia | done].
    + rewrite (final_op_const op cs Hop), map_map. cbn. by rewrite map_id.
  - intros f op v nt [q|]; [discriminate|]. apply cond_leaf_yields.
  - intros f op v nt [q|] w Hw Hwf n ks d Hn Hd; [discriminate|].
    cbn [wf_cond] in Hwf. rewrite !andb_true_iff in Hwf.
    destruct Hwf as [[[Hf Hop] Hv] Hww]. apply String.eqb_eq in Hf. apply bool_decide_eq_true in Hop.
    destruct v; try discriminate Hv. subst f op.
    destruct n as [|n]; [lia|]. cbn [pr_cond] in *. rewrite <- app_assoc in *. cbn [app] in *.
    rewrite <- app_assoc in *. cbn [app] in *.
    cbn [parseCondition]. apply opt_not_yields; [done|]. rewrite length_app in Hn. cbn [length] in Hn.
    y_step. y_type. eapply yields_bind; [apply group_yields; [done | done | lia | done]|]. y_step.
Qed.

Lemma parseWhereExpr_yields w : where_yields w.
Proof. apply where_cond_yields. Qed.

(** ** Lists of names, ORDER BY and SET *)
Definition no_comma (ks : list tk) : Prop := fst (hd eof_kind ks) <> TokenComma.

Lemma commas_cons x y l : commas (x :: y :: l) = x ++ (TokenComma, ",") :: commas (y :: l).
Proof. done. Qed.

Lemma ident_list_yields l : forall n acc ks d, l <> [] -> no_comma ks ->
  (length (pr_words l ++ ks) < n)%nat ->
  yields (ident_list_loop n acc) (pr_words l ++ ks) d (acc ++ l) ks.
Proof.
  unfold pr_words. induction l as [|f l IH]; intros n acc ks d Hl Hks Hn; [done|].
  destruct n as [|n]; [lia|]. cbn [ident_list_loop].
  destruct l as [|f2 l].
  - cbn [map commas app] in *. y_step. rewrite (isIdent_word f) by done. cbn [negb]. y_run.
    rewrite (is_type_no _ _ _ Ht0 Hks). cbn [word snd] in Hv. rewrite Hv. y_step.
  - cbn [map] in *. rewrite commas_cons in *. cbn [app] in *. y_step.
    rewrite (isIdent_word f) by done. cbn [negb]. y_run. y_type. y_step.
    cbn [word snd] in Hv. rewrite Hv.
    replace (acc ++ f :: f2 :: l) with ((acc ++ [f]) ++ f2 :: l) by (by rewrite <- app_assoc).
    apply IH; [done | done | cbn [length] in Hn |- *; lia].
Qed.

Lemma order_list_yields l : forall n acc ks d, l <> [] -> no_comma ks ->
  (length (commas (map pr_order l) ++ ks) < n)%nat ->
  yields (order_loop n acc) (commas (map pr_order l) ++ ks) d (acc ++ l) ks.
Proof.
  induction l as [|[f dir] l IH]; intros n acc ks d Hl Hks Hn; [done|].
  destruct n as [|n]; [lia|]. cbn [order_loop].
  destruct l as [|o2 l].
  - cbn [map commas app pr_order o_Field o_Direction] in *. y_step.
    rewrite (isIdent_word f) by done. cbn [negb]. cbn [word snd] in Hv. rewrite Hv.
    destruct dir; y_run; y_type; y_run; rewrite (is_type_no _ _ _ Ht1 Hks); y_step.
  - cbn [map] in *. rewrite commas_cons in *. cbn [app pr_order o_Field o_Direction] in *. y_step.
    rewrite (isIdent_word f) by done. cbn [negb]. cbn [word snd] in Hv. rewrite Hv.
    replace (acc ++ mkOrder f dir :: o2 :: l) with ((acc ++ [mkOrder f dir]) ++ o2 :: l)
      by (by rewrite <- app_assoc).
    destruct dir; y_run; y_type; y_run; y_type; y_run;
      (apply IH; [done | done | cbn [length] in Hn |- *; lia]).
Qed.

Lemma update_list_yields l : forall n acc ks d, l <> [] -> forallb wf_update l = true -> no_comma ks ->
  (3 * length (commas (map pr_update l) ++ ks) + 4 <= n)%nat ->
  yields (update_loop n acc) (commas (map pr_update l) ++ ks) d (acc ++ l) ks.
Proof.
  induction l as [|[f v uop] l IH]; intros n acc ks d Hl Hwf Hks Hn; [done|].
  destruct n as [|n]; [lia|]. cbn [update_loop]. cbn [forallb] in Hwf.
  apply andb_true_iff in Hwf as [Hw Hws]. unfold wf_update in Hw. cbn [u_Field u_Value u_Op] in Hw.
  rewrite !andb_true_iff in Hw. destruct Hw as [[_ Hv] Ho]. destruct uop; try discriminate Ho.
  destruct l as [|o2 l].
  - cbn [map commas app pr_update u_Field u_Value] in *. y_step.
    rewrite (isIdent_word f) by done. cbn [negb]. cbn [word snd] in Hv0. rewrite Hv0. y_run. y_type.
    y_run. eapply yields_bind; [apply parseValue_yields; [done | cbn [length] in Hn; lia]|].
    y_run. rewrite (is_type_no _ _ _ Ht1 Hks). y_step.
  - cbn [map] in *. rewrite commas_cons in *. cbn [app pr_update u_Field u_Value] in *.
    rewrite <- app_assoc in *. cbn [app] in *. y_step.
    rewrite (isIdent_word f) by done. cbn [negb]. cbn [word snd] in Hv0. rewrite Hv0. y_run. y_type.
    y_run. cbn [length] in Hn. pose proof Hn as Hn2. rewrite length_app in Hn2. cbn [length] in Hn2.
    eapply yields_bind; [apply parseValue_yields; [done | lia]|]. y_run. y_type. y_run.
    replace (acc ++ mkUpdate f v UpdateSetValue :: o2 :: l)
      with ((acc ++ [mkUpdate f v UpdateSetValue]) ++ o2 :: l) by (by rewrite <- app_assoc).
    apply IH; [done | done | done | lia].
Qed.

Lemma parseInt_yields z s ks d : in_int64 z = true ->
  yields parseInt (pr_int z ++ (s : list tk) ++ ks) d z (s ++ ks).
Proof.
  intros Hz. unfold parseInt, pr_int. cbn [app]. y_step. y_type. rewrite Hv, (ParseInt_Itoa _ Hz). y_run.
Qed.

(** ** Clauses *)
Definition clause_head (ks : list tk) : bool :=
  match fst (hd eof_kind ks) with
  | TokenEOF | TokenWith | TokenWhere | TokenOrder | TokenGroup | TokenHaving | TokenLimit
  | TokenOffset => true
  | _ => false
  end.

Lemma clause_head_facts ks : clause_head ks = true -> stops ks /\ no_comma ks.
Proof. unfold clause_head, stops, no_comma. by destruct (fst (hd eof_kind ks)). Qed.

(** Parsing the clauses [ks] from [q] ends with [r] at the end of the input. *)
Definition clauses_to (ks : list tk) (q r : Query) : Prop :=
  forall n, (4 * length ks + 5 <= n)%nat -> yields (parseClauses n q) ks 0 r [eof_kind].

Lemma clauses_eof q : clauses_to [eof_kind] q q.
Proof.
  intros n Hn. destruct n as [|n]; [cbn in Hn; lia|]. cbn [parseClauses]. y_step. cbn in Ht. rewrite Ht. y_step.
Qed.

(** A clause made of its keywords and a body that [m] parses. *)
Ltac clause_start n Hn :=
  intros n Hn; destruct n as [|n]; [lia|]; cbn [app] in *; cbn [parseClauses];
  y_step; match goal with H : t_Type ?t = _ |- _ => rewrite H end; y_step; cbn [length] in Hn.

Lemma clause_include l q r ks : (l = [] -> set_Include l q = q) -> clause_head ks = true ->
  clauses_to ks (set_Include l q) r ->
  clauses_to (pr_list_clause [(TokenWith, "with")] pr_words l ++ ks) q r.
Proof.
  intros Hl Hks H. destruct l as [|f l]; [cbn; by rewrite <- Hl|]. unfold pr_list_clause.
  destruct (clause_head_facts ks Hks) as [_ Hc]. clause_start n Hn.
  pose proof Hn as Hn2. rewrite length_app in Hn2.
  eapply yields_bind; [apply ident_list_yields; [done | done | lia]|]. apply H. lia.
Qed.

Lemma clause_group l q r ks : (l = [] -> set_GroupBy l q = q) -> clause_head ks = true ->
  clauses_to ks (set_GroupBy l q) r ->
  clauses_to (pr_list_clause [(TokenGroup, "group"); (TokenBy, "by")] pr_words l ++ ks) q r.
Proof.
  intros Hl Hks H. destruct l as [|f l]; [cbn; by rewrite <- Hl|]. unfold pr_list_clause.
  destruct (clause_head_facts ks Hks) as [_ Hc]. clause_start n Hn.
  pose proof Hn as Hn2. rewrite length_app in Hn2. unfold skip_type. y_step. y_step. y_type. 
  eapply yields_bind; [intros p Hp Hd; eexists; split; [reflexivity|]; cbn; split; [|exact Hd];
    instantiate (1 := tl ((TokenBy, "by") :: pr_words (f :: l) ++ ks)); rewrite <- Hp; by destruct (toks p)|].
  cbn [tl]. eapply yields_bind; [apply ident_list_yields; [done | done | lia]|]. apply H. lia.
Qed.

Lemma clause_order l q r ks : (l = [] -> set_OrderBy l q = q) -> clause_head ks = true ->
  clauses_to ks (set_OrderBy l q) r ->
  clauses_to (pr_list_clause [(TokenOrder, "order"); (TokenBy, "by")]
                (fun l => commas (map pr_order l)) l ++ ks) q r.
Proof.
  intros Hl Hks H. destruct l as [|f l]; [cbn; by rewrite <- Hl|]. unfold pr_list_clause.
  destruct (clause_head_facts ks Hks) as [_ Hc]. clause_start n Hn.
  pose proof Hn as Hn2. rewrite length_app in Hn2. unfold skip_type. y_step. y_step. y_type.
  eapply yields_bind; [intros p Hp Hd; eexists; split; [reflexivity|]; cbn; split; [|exact Hd];
    instantiate (1 := tl ((TokenBy, "by") :: commas (map pr_order (f :: l)) ++ ks));
    rewrite <- Hp; by destruct (toks p)|].
  cbn [tl]. eapply yields_bind; [apply order_list_yields; [done | done | lia]|]. apply H. lia.
Qed.

Lemma clause_where o q r ks : (o = None -> set_Where o q = q) -> wf_opt wf_clause o = true ->
  clause_head ks = true -> clauses_to ks (set_Where o q) r ->
  clauses_to (pr_opt_clause (TokenWhere, "where") pr_where o ++ ks) q r.
Proof.
  intros Ho Hw Hks H. destruct o as [w|]; [|cbn; by rewrite <- Ho]. unfold pr_opt_clause.
  cbn in Hw. apply andb_true_iff in Hw as [Hw Hd%Nat.leb_le].
  destruct (clause_head_facts ks Hks) as [Hs _]. clause_start n Hn.
  pose proof Hn as Hn2. rewrite length_app in Hn2.
  eapply yields_bind; [apply parseWhereExpr_yields; [done | lia | unfold maxDepth; lia | done]|].
  apply H. lia.
Qed.

Lemma clause_having o q r ks : (o = None -> set_Having o q = q) -> wf_opt wf_clause o = true ->
  clause_head ks = true -> clauses_to ks (set_Having o q) r ->
  clauses_to (pr_opt_clause (TokenHaving, "having") pr_where o ++ ks) q r.
Proof.
  intros Ho Hw Hks H. destruct o as [w|]; [|cbn; by rewrite <- Ho]. unfold pr_opt_clause.
  cbn in Hw. apply andb_true_iff in Hw as [Hw Hd%Nat.leb_le].
  destruct (clause_head_facts ks Hks) as [Hs _]. clause_start n Hn.
  pose proof Hn as Hn2. rewrite length_app in Hn2.
  eapply yields_bind; [apply parseWhereExpr_yields; [done | lia | unfold maxDepth; lia | done]|].
  apply H. lia.
Qed.

(** [set_Limit] and [set_Offset] on an optional value. *)
Definition opt_set (set : Z -> Query -> Query) (o : option Z) (q : Query) : Query :=
  match o with Some z => set z q | None => q end.

Lemma clause_limit o q r ks : wf_opt in_int64 o = true -> clauses_to ks (opt_set set_Limit o q) r ->
  clauses_to (pr_opt_clause (TokenLimit, "limit") pr_int o ++ ks) q r.
Proof.
  intros Hw H. destruct o as [z|]; [|exact H]. unfold pr_opt_clause.
  clause_start n Hn.
  eapply yields_bind; [apply (parseInt_yields z []); done|]. apply H. cbn in *. lia.
Qed.

Lemma clause_offset o q r ks : wf_opt in_int64 o = true -> clauses_to ks (opt_set set_Offset o q) r ->
  clauses_to (pr_opt_clause (TokenOffset, "offset") pr_int o ++ ks) q r.
Proof.
  intros Hw H. destruct o as [z|]; [|exact H]. unfold pr_opt_clause.
  clause_start n Hn.
  eapply yields_bind; [apply (parseInt_yields z []); done|]. apply H. cbn in *. lia.
Qed.

Lemma clause_head_list {A} kw t s (pr : list A -> list tk) l ks :
  kw = (t, s) :: tl kw -> clause_head ((t, s) :: ks) = true -> clause_head ks = true ->
  clause_head (pr_list_clause kw pr l ++ ks) = true.
Proof. intros Hkw H1 H2. destruct l; [done|]. unfold pr_list_clause. by rewrite Hkw. Qed.

Lemma clause_head_opt {A} k (pr : A -> list tk) o ks :
  clause_head (k :: ks) = true -> clause_head ks = true ->
  clause_head (pr_opt_clause k pr o ++ ks) = true.
Proof. by destruct o. Qed.

Lemma clauses_query q q0 :
  wf_opt wf_clause (q_Where q) = true -> wf_opt wf_clause (q_Having q) = true ->
  wf_opt in_int64 (q_Limit q) = true -> wf_opt in_int64 (q_Offset q) = true ->
  q0 = mkQuery (q_Type q) (q_Entity q) (q_Fields q) None [] None None [] [] None (q_Updates q) (q_AggField q) ->
  clauses_to (pr_clauses q ++ [eof_kind]) q0 q.
Proof.
  intros Hw Hh Hl Ho ->. unfold pr_clauses. rewrite <- !app_assoc.
  assert (H7 : clause_head (pr_opt_clause (TokenOffset, "offset") pr_int (q_Offset q) ++ [eof_kind]) = true)
    by by apply clause_head_opt.
  assert (H6 : clause_head (pr_opt_clause (TokenLimit, "limit") pr_int (q_Limit q) ++
    pr_opt_clause (TokenOffset, "offset") pr_int (q_Offset q) ++ [eof_kind]) = true)
    by by apply clause_head_opt.
  repeat first
    [ apply clause_include; [by intros -> | repeat first [by apply H6 | by apply H7
        | eapply clause_head_list; [done|done|] | apply clause_head_opt; [done|]] |]
    | apply clause_where; [by intros -> | done | repeat first [by apply H6
        | eapply clause_head_list; [done|done|] | apply clause_head_opt; [done|]] |]
    | apply clause_order; [by intros -> | repeat first [by apply H6
        | eapply clause_head_list; [done|done|] | apply clause_head_opt; [done|]] |]
    | apply clause_group; [by intros -> | repeat first [by apply H6
        | eapply clause_head_list; [done|done|] | apply clause_head_opt; [done|]] |]
    | apply clause_having; [by intros -> | done | done |]
    | apply clause_limit; [done|] | apply clause_offset; [done|] ].
  destruct q as [t e f w o [l|] [ofs|] i g h u a]; cbn; apply clauses_eof.
Qed.

(** ** Whole queries *)
Lemma skip_from_yields q ks d : 
  yields (skip_type TokenFrom) (from_entity q ++ ks) d tt ((TokenIdent, q_Entity q) :: ks).
Proof.
  unfold skip_type, from_entity. cbn [app]. y_step. y_type.
  intros p Hp Hd. eexists. split; [reflexivity|]. cbn. split; [|done]. destruct (toks p); [done|].
  by injection Hp.
Qed.

Lemma entity_yields q e ks d :
  yields (parse_entity q) ((TokenIdent, e) :: ks) d (set_Entity e q) ks.
Proof. unfold parse_entity. y_step. y_type. y_step. rewrite Hv. y_step. Qed.

Lemma finish_yields q q0 n : wf_query q = true ->
  (4 * length (from_entity q ++ pr_clauses q ++ [eof_kind]) + 5 <= n)%nat ->
  set_Entity (q_Entity q) q0
    = mkQuery (q_Type q) (q_Entity q) (q_Fields q) None [] None None [] [] None (q_Updates q) (q_AggField q) ->
  yields (pbind (skip_type TokenFrom) (fun _ => pbind (parse_entity q0) (fun q => parseClauses n q)))
    (from_entity q ++ pr_clauses q ++ [eof_kind]) 0 q [eof_kind].
Proof.
  intros Hwf Hn Hq. unfold wf_query in Hwf. rewrite !andb_true_iff in Hwf.
  eapply yields_bind; [apply skip_from_yields|]. eapply yields_bind; [apply entity_yields|].
  apply clauses_query; [tauto..|exact Hq|]. cbn in Hn. lia.
Qed.

Lemma wf_ident_type f : wf_ident f = true -> word f = (TokenIdent, f) /\ f <> "*" /\ f <> "".
Proof.
  unfold wf_ident, word. rewrite andb_true_iff. intros [Hs Hk%bool_decide_eq_true]. rewrite Hk.
  split; [done|]. by split; intros ->.
Qed.

Lemma select_yields q n : wf_query q = true -> q_Type q = QuerySelect ->
  (4 * length (pr_query q ++ [eof_kind]) + 5 <= n)%nat ->
  yields (parseSelect n) (pr_query q ++ [eof_kind]) 0 q [eof_kind].
Proof.
  intros Hwf Ht Hn. unfold pr_query in *. rewrite Ht in *. cbn [app] in *.
  rewrite <- !app_assoc in *. unfold parseSelect. y_step.
  pose proof Hwf as Hw. unfold wf_query in Hw. rewrite Ht, !andb_true_iff in Hw.
  destruct Hw as [_ [[Hf Hu] Ha]]. cbn [length] in Hn.
  destruct (q_Fields q) as [|f fs] eqn:Ef.
  - cbn [pr_words map commas app] in *. y_step. apply yields_peek. intros nxt Hnxt.
    cbn [from_entity app hd fst] in Ht0. y_type. y_step. apply finish_yields; [done|lia|].
    rewrite Ef, Ht. destruct (q_Updates q); [|done]. apply String.eqb_eq in Ha. by rewrite Ha.
  - apply andb_true_iff in Hf as [Hf _]. destruct (wf_ident_type f Hf) as (Hwd & Hstar & _).
    assert (Hhd : exists r, pr_words (f :: fs) ++ from_entity q ++ pr_clauses q ++ [eof_kind]
        = (TokenIdent, f) :: r /\ (fst (hd eof_kind r) = TokenComma \/ fst (hd eof_kind r) = TokenFrom)).
    { unfold pr_words. destruct fs as [|f2 fs]; cbn [map commas app]; rewrite Hwd;
        eexists; (split; [reflexivity|]); [by right | by left]. }
    destruct Hhd as (r & Hr & Hnext). y_step. apply yields_peek. intros nxt Hnxt.
    rewrite Hr in Ht0, Hv, Hnxt. cbn [hd fst snd tl] in *.
    rewrite (is_type_yes _ _ Ht0). rewrite Hv.
    assert (String.eqb f "*" = false) as -> by (by apply String.eqb_neq).
    assert (is_type TokenComma nxt || is_type TokenFrom nxt = true)%bool as ->.
    { apply orb_true_iff. destruct Hnext as [E|E]; rewrite E in Hnxt; [left|right];
        by apply is_type_yes. }
    cbn [negb andb]. unfold parseIdentList. y_step. pose proof Hn as Hn2. rewrite length_app in Hn2.
    eapply yields_bind; [apply ident_list_yields; [done | done | lia]|].
    cbn [app]. y_step. apply finish_yields; [done | lia |].
    rewrite Ht, Ef. destruct (q_Updates q); [|done]. apply String.eqb_eq in Ha. by rewrite Ha.
Qed.

Lemma aggregate_yields q n : wf_query q = true ->
  q_Type q ∈ [QueryCount; QuerySum; QueryAvg; QueryMin; QueryMax] ->
  (4 * length (pr_query q ++ [eof_kind]) + 5 <= n)%nat ->
  yields (parseAggregate n (q_Type q)) (pr_query q ++ [eof_kind]) 0 q [eof_kind].
Proof.
  intros Hwf Ht Hn.
  assert (Hpr : pr_query q = agg_tok (q_Type q) ::
    (if String.eqb (q_AggField q) "" then []
     else [(TokenLParen, "("); (TokenIdent, q_AggField q); (TokenRParen, ")")])
     ++ from_entity q ++ pr_clauses q).
  { unfold pr_query. rewrite app_assoc. rewrite !elem_of_cons, elem_of_nil in Ht.
    destruct (q_Type q); try done; intuition discriminate. }
  assert (Hf : q_Fields q = [] /\ q_Updates q = [] /\
    (q_Type q = QueryCount -> q_AggField q = "")).
  { unfold wf_query in Hwf. rewrite !andb_true_iff in Hwf. destruct Hwf as [_ Hw].
    rewrite !elem_of_cons, elem_of_nil in Ht.
    destruct (q_Type q), (q_Fields q), (q_Updates q); try discriminate Hw; try (intuition discriminate);
      split_and!; try done; intros _; apply andb_true_iff in Hw as [_ Hw]; by apply String.eqb_eq. }
  destruct Hf as (Hf & Hu & Hc). rewrite Hpr in Hn |- *. cbn [app length] in Hn |- *.
  rewrite <- !app_assoc in Hn |- *. unfold parseAggregate. y_step.
  assert (Hq0 : forall a, a = q_AggField q ->
    set_Entity (q_Entity q) (set_AggField a (empty_query (q_Type q)))
    = mkQuery (q_Type q) (q_Entity q) (q_Fields q) None [] None None [] [] None (q_Updates q) (q_AggField q)).
  { intros a ->. by rewrite Hf, Hu. }
  destruct (String.eqb (q_AggField q) "") eqn:Ea.
  - cbn [app] in *. y_step. cbn [from_entity app hd fst] in Ht0. y_type.
    rewrite andb_false_r. y_step. apply finish_yields; [done | lia |].
    apply String.eqb_eq in Ea. by rewrite <- (Hq0 "").
  - assert (negb (bool_decide (q_Type q = QueryCount)) = true) as ->.
    { apply negb_true_iff, bool_decide_eq_false. intros E. by rewrite (Hc E) in Ea. }
    cbn [app length] in *. y_step. y_type. y_run. y_type. y_run. y_type. y_run.
    apply finish_yields; [done | lia |]. rewrite Hv0. by apply Hq0.
Qed.

Lemma update_yields q n : wf_query q = true -> q_Type q = QueryUpdate ->
  (4 * length (pr_query q ++ [eof_kind]) + 5 <= n)%nat ->
  yields (parseUpdate n) (pr_query q ++ [eof_kind]) 0 q [eof_kind].
Proof.
  intros Hwf Ht Hn. unfold pr_query in *. rewrite Ht in *. cbn [app length] in *.
  rewrite <- !app_assoc in *. unfold parseUpdate. y_step.
  pose proof Hwf as Hw. unfold wf_query in Hw. rewrite Ht, !andb_true_iff in Hw.
  destruct Hw as [Hwc [[[Hf Hu] Huw] Ha]]. apply String.eqb_eq in Ha.
  destruct (q_Fields q) eqn:Ef; [|done]. destruct (q_Updates q) as [|u us] eqn:Eu; [done|].
  eapply yields_bind; [apply entity_yields|]. y_step. y_type. y_step. unfold parseUpdateSets.
  pose proof Hn as Hn2. rewrite length_app in Hn2.
  assert (Hnc : no_comma (pr_clauses q ++ [eof_kind])).
  { unfold pr_clauses, pr_list_clause, pr_opt_clause, no_comma.
    destruct (q_Include q), (q_Where q), (q_OrderBy q), (q_GroupBy q), (q_Having q), (q_Limit q),
      (q_Offset q); done. }
  eapply yields_bind; [apply update_list_yields; [done | done | done | lia]|]. cbn [app].
  apply clauses_query; [tauto.. | by rewrite Ht, Ef, Eu, Ha | lia].
Qed.

Lemma Parser_Parse_yields q n : wf_query q = true ->
  (4 * length (pr_query q ++ [eof_kind]) + 5 <= n)%nat ->
  yields (Parser_Parse n) (pr_query q ++ [eof_kind]) 0 q [eof_kind].
Proof.
  intros Hwf Hn. unfold Parser_Parse.
  assert (Hagg : q_Type q ∈ [QueryCount; QuerySum; QueryAvg; QueryMin; QueryMax] ->
    yields (parseAggregate n (q_Type q)) (pr_query q ++ [eof_kind]) 0 q [eof_kind])
    by (by intros; apply aggregate_yields).
  rewrite !elem_of_cons in Hagg.
  destruct (q_Type q) eqn:Ht;
    (y_step; unfold pr_query in Ht0; rewrite Ht in Ht0; cbn in Ht0; rewrite Ht0);
    try (apply Hagg; tauto); [by apply select_yields | by apply update_yields|].
  unfold pr_query, parseDelete in *. rewrite Ht in *. cbn [app length] in *.
  rewrite <- !app_assoc in *. y_step. apply finish_yields; [done | cbn in *; lia |].
  unfold wf_query in Hwf. rewrite Ht, !andb_true_iff in Hwf.
  destruct Hwf as [_ [[Hf Hu] Ha]]. apply String.eqb_eq in Ha. rewrite Ht, Ha.
  by destruct (q_Fields q), (q_Updates q).
Qed.

(** ** Printed tokens are well formed *)
Definition wfk (ks : list tk) : bool := forallb (fun k => wf_token (to_token k)) ks.

Lemma wfk_app a b : wfk (a ++ b) = wfk a && wfk b.
Proof. apply forallb_app. Qed.

Lemma wfk_cons k ks : wfk (k :: ks) = wf_token (to_token k) && wfk ks.
Proof. done. Qed.

Lemma wfk_commas {A} (pr : A -> list tk) (p : A -> bool) l :
  (forall x, p x = true -> wfk (pr x) = true) -> forallb p l = true ->
  wfk (commas (map pr l)) = true.
Proof.
  intros Hp. induction l as [|x l IH]; [done|]. cbn [forallb]. rewrite andb_true_iff. intros [Hx Hl].
  destruct l as [|y l]; [by apply Hp|].
  change (commas (map pr (x :: y :: l))) with (pr x ++ (TokenComma, ",") :: commas (map pr (y :: l))).
  rewrite wfk_app, wfk_cons, Hp, (IH Hl); done.
Qed.

Lemma span_digits_all ds : str_forall is_digit ds = true -> span_digits ds = (ds, "").
Proof.
  induction ds as [|c ds IH]; [done|]. cbn. rewrite andb_true_iff. intros [-> H]. by rewrite (IH H).
Qed.

Lemma Itoa_shape z : number_shape (Itoa z) = true.
Proof.
  destruct (Itoa_split z) as (sg & ds & -> & Hsg & Hne & Hd). unfold number_shape.
  assert (Hs : (let '(ip, s2) := span_digits ds in negb (String.eqb ip "") &&
    match s2 with
    | EmptyString => true
    | String c s3 => Ascii.eqb c "." && negb (String.eqb s3 "") && str_forall is_digit s3
    end) = true).
  { rewrite (span_digits_all _ Hd). destruct (String.eqb_spec ds ""); done. }
  destruct Hsg as [->| ->]; [|done]. destruct ds as [|c ds]; [done|].
  cbn [str_forall] in Hd. apply andb_true_iff in Hd as [Hc _].
  destruct (digit_not_sign c Hc) as [E _]. cbn [String.append]. by rewrite E.
Qed.

Lemma wf_token_word f : ident_shape f = true -> wf_token (to_token (word f)) = true.
Proof.
  intros Hf. unfold word, wf_token. cbn [to_token t_Value t_Type fst snd].
  destruct (keywords (ToLower f)) as [t|] eqn:E; [|by rewrite Hf, bool_decide_eq_true_2].
  pose proof (find_keyword_in _ _ _ E) as Hin. rewrite Hf. cbn in Hin.
  repeat (destruct Hin as [[= _ <-]|Hin]; [by rewrite bool_decide_eq_true_2|]). destruct Hin.
Qed.

Lemma wfk_words l : forallb wf_word l = true -> wfk (pr_words l) = true.
Proof.
  apply wfk_commas. intros x Hx. rewrite wfk_cons. by rewrite wf_token_word.
Qed.

Lemma wfk_ident f : wf_ident f = true -> wf_token (to_token (TokenIdent, f)) = true.
Proof. done. Qed.

Lemma wfk_value v : wf_value v = true -> wfk (pr_value v) = true.
Proof.
  induction v as [v Hs|l Hl] using Value_ind'.
  - destruct v as [|s|[]|z|f|nm|l|a b]; cbn; try done; try (by destruct (Hs l)).
    + intros _. unfold wf_token; cbn. by rewrite Itoa_shape.
    + unfold wf_token; cbn. by intros ->.
  - cbn [wf_value pr_value]. intros Hw. rewrite wfk_cons, wfk_app.
    change (wfk (commas (map pr_value l)) && true = true). rewrite andb_true_r.
    induction Hl as [|v l Hv Hl IH]; [done|]. cbn in Hw. apply andb_true_iff in Hw as [Hw1 Hw2].
    destruct l as [|v2 l]; [by apply Hv|].
    change (commas (map pr_value (v :: v2 :: l)))
      with (pr_value v ++ (TokenComma, ",") :: commas (map pr_value (v2 :: l))).
    rewrite wfk_app, wfk_cons, (Hv Hw1), (IH Hw2). done.
Qed.

Lemma wfk_tail op v : wf_tail op v = true -> wfk (pr_tail op v) = true.
Proof.
  destruct op; cbn [wf_tail]; try discriminate;
    try (intros Hv; cbn [pr_tail op_tok]; rewrite wfk_cons, (wfk_value _ Hv); done);
    destruct v as [| | | | | | |lo hi]; try discriminate; try done.
  rewrite andb_true_iff. intros [H1 H2]. cbn [pr_tail].
  by rewrite wfk_cons, wfk_app, wfk_cons, (wfk_value _ H1), (wfk_value _ H2).
Qed.

Lemma wfk_conns op cs : Forall (fun c => wf_cond c = true -> wfk (pr_cond c) = true) cs ->
  forallb wf_cond cs = true -> wfk (pr_conns (map (fun c => (op, c)) cs)) = true.
Proof.
  induction 1 as [|c cs Hc _ IH]; [done|]. cbn [forallb map]. rewrite andb_true_iff. intros [H1 H2].
  rewrite pr_conns_cons, wfk_cons, wfk_app, (Hc H1), (IH H2). by destruct op.
Qed.

Lemma wfk_where_cond :
  (forall w, wf_where w = true -> wfk (pr_where w) = true) /\
  (forall c, wf_cond c = true -> wfk (pr_cond c) = true).
Proof.
  apply where_cond_ind.
  - intros [|c cs] op gs Hcs Hwf; [by destruct gs|].
    destruct (wf_where_eq _ _ _ _ Hwf) as (-> & _ & Hw). cbn [forallb] in Hw.
    apply andb_true_iff in Hw as [Hc Hw]. inversion Hcs; subst.
    rewrite pr_where_eq, wfk_app, wfk_conns, andb_true_r by done. auto.
  - intros f op v nt [q|]; [done|]. cbn [wf_cond pr_cond]. unfold wf_field.
    rewrite !andb_true_iff. intros [[Hf _] Ht].
    rewrite wfk_app, wfk_cons, (wf_token_word _ Hf), (wfk_tail _ _ Ht). by destruct nt.
  - intros f op v nt [q|] w Hw; [done|]. cbn [wf_cond pr_cond]. rewrite !andb_true_iff.
    intros [_ Hww]. rewrite wfk_app, wfk_cons, wfk_app, (Hw Hww). by destruct nt.
Qed.

Lemma wfk_opt_clause {A} k (pr : A -> list tk) (p : A -> bool) o :
  wf_token (to_token k) = true -> (forall a, p a = true -> wfk (pr a) = true) ->
  wf_opt p o = true -> wfk (pr_opt_clause k pr o) = true.
Proof. intros Hk Hp. destruct o; [|done]. cbn [wf_opt pr_opt_clause]. intros H. by rewrite wfk_cons, Hk, (Hp _ H). Qed.

Lemma wfk_list_clause {A} kw (pr : list A -> list tk) l :
  wfk kw = true -> wfk (pr l) = true -> wfk (pr_list_clause kw pr l) = true.
Proof. intros Hk Hp. destruct l; [done|]. cbn [pr_list_clause]. by rewrite wfk_app, Hk. Qed.

Lemma wfk_query q : wf_query q = true -> wfk (pr_query q) = true.
Proof.
  intros Hwf. unfold wf_query in Hwf. rewrite !andb_true_iff in Hwf.
  destruct Hwf as [[[[[[[[He Hi] Hw] Ho] Hg] Hh] Hl] Hof] Ht]. unfold pr_query. rewrite wfk_app.
  assert (Hpc : forall w, wf_clause w = true -> wfk (pr_where w) = true).
  { unfold wf_clause. intros w. rewrite andb_true_iff. intros [? _]. by apply wfk_where_cond. }
  assert (Hpi : forall z, in_int64 z = true -> wfk (pr_int z) = true).
  { intros z _. unfold pr_int. rewrite wfk_cons. unfold wf_token; cbn. by rewrite Itoa_shape. }
  assert (wfk (pr_clauses q) = true) as ->.
  { unfold pr_clauses. rewrite !wfk_app.
    rewrite (wfk_list_clause _ pr_words) by (done || by apply wfk_words).
    rewrite (wfk_opt_clause (TokenWhere, "where") _ wf_clause) by done.
    rewrite (wfk_list_clause _ (fun l => commas (map pr_order l)));
      [|done|eapply wfk_commas, Ho; intros [f d] Hx; unfold pr_order;
        rewrite wfk_cons, (wf_token_word _ Hx); by destruct d].
    rewrite (wfk_list_clause _ pr_words) by (done || by apply wfk_words).
    rewrite (wfk_opt_clause (TokenHaving, "having") _ wf_clause) by done.
    rewrite !(wfk_opt_clause _ pr_int in_int64) by done. done. }
  rewrite andb_true_r.
  assert (Hfrom : wfk (from_entity q) = true).
  { unfold from_entity. rewrite !wfk_cons, (wfk_ident _ He). reflexivity. }
  assert (Hagg : (String.eqb (q_AggField q) "" || wf_ident (q_AggField q)) = true ->
    wfk (agg_tok (q_Type q) ::
      (if String.eqb (q_AggField q) "" then []
       else [(TokenLParen, "("); (TokenIdent, q_AggField q); (TokenRParen, ")")]) ++ from_entity q)
    = true).
  { intros Ha. rewrite wfk_cons, wfk_app, Hfrom, andb_true_r. apply andb_true_iff. split.
    - by destruct (q_Type q); vm_compute.
    - destruct (String.eqb (q_AggField q) ""); [reflexivity|]. rewrite !wfk_cons, (wfk_ident _ Ha).
      reflexivity. }
  destruct (q_Type q) eqn:Hty; rewrite !andb_true_iff in Ht; destruct Ht as [[Hf Hu] Ha];
    try (apply Hagg; first [exact Ha | by rewrite Ha]).
  - rewrite wfk_cons, wfk_app, Hfrom, andb_true_r. destruct (q_Fields q) as [|f fs]; [reflexivity|].
    apply andb_true_iff in Hf as [Hf Hfs]. rewrite wfk_words; [reflexivity|]. cbn [forallb].
    rewrite Hfs. unfold wf_ident in Hf. apply andb_true_iff in Hf as [Hf _]. unfold wf_word.
    by rewrite Hf.
  - rewrite wfk_app, !wfk_cons, (wfk_ident _ He). eapply wfk_commas, Hu.
    intros [f v op]. unfold wf_update, pr_update.
    rewrite !andb_true_iff. intros [[H1 H2] _]. cbn [u_Field u_Value] in *.
    rewrite !wfk_cons, (wf_token_word _ H1), (wfk_value _ H2). reflexivity.
  - rewrite wfk_cons, Hfrom. reflexivity.
Qed.

(** Lexing printed kinds and running a parser that [yields] on them. *)
Lemma run_parser_yields {A} (m : nat -> P A) ks (a : A) :
  wfk ks = true ->
  (forall n, (4 * length (ks ++ [eof_kind]) + 5 <= n)%nat ->
     yields (m n) (ks ++ [eof_kind]) 0 a [eof_kind]) ->
  run_parser m (show_tokens (map to_token ks)) = Some (Ok a).
Proof.
  intros Hwf Hm. unfold run_parser, Tokenize.
  destruct (Tokenize_loop_show (map to_token ks) (S (String.length (show_tokens (map to_token ks))))
    (NewLexer (show_tokens (map to_token ks)))) as (ts & E & Hk); [|done|..].
  { unfold wfk in Hwf. rewrite <- Hwf. clear. induction ks as [|k ks IH]; [done|].
    cbn [map forallb]. by rewrite IH. }
  { pose proof (show_tokens_length (map to_token ks)). lia. }
  cbn [rest NewLexer]. rewrite E.
  assert (Hks : map kind ts = ks ++ [eof_kind]).
  { rewrite Hk, map_map. f_equal. clear. induction ks as [|[t v] ks IH]; [done|]. cbn. by rewrite IH. }
  assert (Hlen : length ts = length (ks ++ [eof_kind])) by (by rewrite <- Hks, length_map).
  destruct (Hm (parse_fuel ts)) with (p := NewParser ts) as (p' & -> & _); [|done..].
  unfold parse_fuel. lia.
Qed.

(** ** Properties *)

(** C1: parsing a printed query gives the query back: every query the
    language can write (all eight types, field lists, nested conditions up
    to the depth limit, negation, IS NULL, BETWEEN and list operands, order,
    group, having, limit, offset and update clauses) survives
    [Parse (print_query q)] unchanged. *)
Theorem parse_print (q : Query) (Hwf : wf_query q = true) :
  Parse (print_query q) = Some (Ok q).
Proof.
  unfold Parse, print_query. apply run_parser_yields; [by apply wfk_query|].
  intros n. by apply Parser_Parse_yields.
Qed.

Definition sample_where : WhereClause :=
  mkWhere [mkCond "age" OpGreaterThanOrEqual (VInt 18) false None None;
           mkCond "" OpEquals VNil true None
             (Some (mkWhere [mkCond "name" OpLike (VStr "a%") false None None;
                             mkCond "role" OpIn (VList [VStr "admin"; VParam "r"]) false None None]
                            LogicalOr []));
           mkCond "score" OpBetween (VBetween (VInt (-5)) (VInt 5)) true None None;
           mkCond "deleted" OpIsNotNull VNil false None None] LogicalAnd [].

Definition sample_query : Query :=
  mkQuery QuerySelect "users" ["id"; "name"] (Some sample_where)
    [mkOrder "name" OrderDesc] (Some 10) (Some 20) ["posts"] ["role"]
    (Some (mkWhere [mkCond "total" OpGreaterThan (VInt 3) false None None] LogicalAnd [])) [] "".

Lemma parse_print_witness : Parse (print_query sample_query) = Some (Ok sample_query).
Proof. apply parse_print. vm_compute. reflexivity. Defined.

(** a where clause mixing AND and OR without parentheses is read flat:
    whatever the connectives, its conditions come back in order under the one
    operator [final_op], which is OR as soon as one connective is OR, so
    [a and b or c] means [a or b or c]. *)
Theorem mixed_connectives_flatten (e : string) (c : Condition) (l : list (LogicalOp * Condition))
    (He : wf_ident e = true)
    (Hl : forallb (fun c => wf_cond c && (cond_depth c <=? 10)%nat) (c :: map snd l) = true) :
  Parse (show_tokens (map to_token
    ([(TokenSelect, "select"); (TokenFrom, "from"); (TokenIdent, e); (TokenWhere, "where")]
     ++ pr_cond c ++ pr_conns l)))
  = Some (Ok (set_Where (Some (mkWhere (c :: map snd l) (final_op LogicalAnd l) []))
               (set_Entity e (empty_query QuerySelect)))).
Proof.
  assert (Hc : forall c' : Condition, In c' (c :: map snd l) ->
    cond_yields c' /\ wf_cond c' = true /\ (Z.of_nat (cond_depth c') + 0 <= maxDepth)
    /\ wfk (pr_cond c') = true).
  { intros c' Hin. rewrite forallb_forall in Hl. specialize (Hl _ Hin).
    apply andb_true_iff in Hl as [Hw Hd%Nat.leb_le]. split_and!; [apply where_cond_yields | done | |].
    - unfold maxDepth. lia.
    - by apply wfk_where_cond. }
  destruct (Hc c) as (Hy & Hw & Hd & Hk); [by left|].
  unfold Parse. apply run_parser_yields.
  - rewrite !wfk_app, !wfk_cons, (wfk_ident _ He), Hk.
    assert (wfk (pr_conns l) = true) as ->; [|reflexivity].
    assert (Hl' : forall x, In x l -> wfk (pr_cond (snd x)) = true)
      by (intros x Hx; apply Hc; right; by apply in_map).
    clear -Hl'. induction l as [|[op c'] l IH]; [done|].
    rewrite pr_conns_cons, wfk_cons, wfk_app, IH by (intros x Hx; apply Hl'; by right).
    pose proof (Hl' (op, c') (or_introl eq_refl)) as E. cbn [snd] in E. rewrite E. by destruct op.
  - intros n Hn. cbn [app] in Hn |- *. rewrite <- !app_assoc in *. cbn [length] in Hn.
    pose proof Hn as Hn2. rewrite !length_app in Hn2. cbn [length] in Hn2.
    unfold Parser_Parse. y_step. rewrite Ht. unfold parseSelect. y_step. y_step.
    apply yields_peek. intros nxt _. y_type. y_step. unfold skip_type. y_step. y_step. y_type. y_step.
    eapply yields_bind; [apply entity_yields|].
    destruct n as [|n]; [lia|]. cbn [parseClauses]. y_step. rewrite Ht2. y_step.
    eapply yields_bind.
    + destruct n as [|n]; [lia|]. cbn [parseWhereExpr]. eapply yields_bind; [apply Hy; [done | rewrite !length_app; cbn [length]; lia | done]|].
      apply where_loop_yields; [|done | rewrite !length_app; cbn [length]; lia | done].
      apply List.Forall_forall. intros x Hx. destruct (Hc (snd x)) as (?&?&?&_); [|done].
      right. by apply in_map.
    + apply clauses_eof. cbn [length]. lia.
Qed.

Lemma mixed_connectives_flatten_witness :
  let cond f := mkCond f OpEquals (VInt 1) false None None in
  Parse "select from t where a = 1 and b = 1 or c = 1 " =
  Some (Ok (set_Where (Some (mkWhere [cond "a"; cond "b"; cond "c"] LogicalOr []))
             (set_Entity "t" (empty_query QuerySelect)))).
Proof.
  apply (mixed_connectives_flatten "t" (mkCond "a" OpEquals (VInt 1) false None None)
    [(LogicalAnd, mkCond "b" OpEquals (VInt 1) false None None);
     (LogicalOr, mkCond "c" OpEquals (VInt 1) false None None)]); vm_compute; reflexivity.
Defined.

(** ** Simple filters *)
Definition pr_simple (l : list (bool * string)) : list tk :=
  concat (map (fun '(nt, f) => (if nt : bool then [(TokenNot, "not")] else []) ++ [word f]) l).

(** The condition a bare word stands for. *)
Definition flag_cond (f : string) : Condition := mkCond f OpEquals (VBool true) false None None.

Lemma word_type_cases f : fst (word f) <> TokenString /\ fst (word f) <> TokenTilde /\
  fst (word f) <> TokenEOF /\ simple_op (fst (word f)) = None.
Proof.
  unfold word. destruct (keywords (ToLower f)) as [t|] eqn:E; [cbn [fst]|done].
  apply find_keyword_in in E. cbn in E.
  repeat (destruct E as [[= _ <-]|E]; [done|]). destruct E.
Qed.

Lemma pr_simple_head l : simple_op (fst (hd eof_kind (pr_simple l ++ [eof_kind]))) = None.
Proof.
  destruct l as [|[[|] f] l]; [done..|]. cbn. by destruct (word_type_cases f) as (_ & _ & _ & ?).
Qed.

Lemma parseSimpleFilter_word n nt f ks : wf_field f = true ->
  simple_op (fst (hd eof_kind ks)) = None ->
  yields (parseSimpleFilter n) ((if nt : bool then [(TokenNot, "not")] else []) ++ [word f] ++ ks) 0
    (Some (flag_cond f)) ks.
Proof.
  intros Hf Hks. apply andb_true_iff in Hf as [_ Hf%negb_true_iff].
  apply bool_decide_eq_false in Hf. destruct (word_type_cases f) as (H1 & H2 & _ & _).
  unfold parseSimpleFilter.
  assert (Hrest : forall nt, yields (pbind current (fun tok1 =>
    if is_type TokenLParen tok1 then
      pbind (group_expr n) (fun w => pret (Some (mkCond "" OpEquals VNil nt None (Some w))))
    else if isIdentifierOrKeyword tok1 then
      pbind advance (fun _ => pbind current (fun tok2 =>
        match simple_op (t_Type tok2) with
        | None => pret (Some (mkCond (t_Value tok1) OpEquals (VBool true) false None None))
        | Some op => pbind advance (fun _ => pbind (parseValue n) (fun value =>
            pret (Some (mkCond (t_Value tok1) op value nt None None))))
        end))
    else if is_type TokenAnd tok1 || is_type TokenOr tok1 then pbind advance (fun _ => pret None)
    else unexpected tok1 "filter expression")) (word f :: ks) 0 (Some (flag_cond f)) ks).
  { intros nt'. y_step. rewrite (is_type_no _ _ _ Ht (word_not_paren f)), (isIdent_word f) by done.
    y_step. y_step. rewrite Ht0, Hks. cbn [word snd] in Hv. rewrite Hv. y_step. }
  destruct nt; cbn [app].
  - y_step. y_type. y_step. y_step. y_step. apply Hrest.
  - y_step. rewrite (is_type_no _ _ _ Ht H1), (is_type_no _ _ _ Ht H2), (is_type_no _ _ _ Ht Hf).
    y_step. apply Hrest.
Qed.

Lemma simple_loop_words l : forall n cs, forallb (fun p => wf_field (snd p)) l = true ->
  (length l < n)%nat ->
  yields (simple_loop n cs) (pr_simple l ++ [eof_kind]) 0 (cs ++ map (fun p => flag_cond (snd p)) l)
    [eof_kind].
Proof.
  induction l as [|[nt f] l IH]; intros n cs Hl Hn; (destruct n as [|n]; [lia|]); cbn [simple_loop].
  - cbn [pr_simple map concat app]. y_step. y_type. rewrite app_nil_r. y_step.
  - cbn [forallb snd] in Hl. apply andb_true_iff in Hl as [Hf Hl]. cbn [length] in Hn.
    change (pr_simple ((nt, f) :: l))
      with (((if nt : bool then [(TokenNot, "not")] else []) ++ [word f]) ++ pr_simple l).
    rewrite <- !app_assoc. y_step.
    assert (is_type TokenEOF tok = false) as ->.
    { apply (is_type_no _ _ _ Ht). destruct nt; [done|]. cbn. apply word_type_cases. }
    eapply yields_bind; [apply parseSimpleFilter_word; [done | apply pr_simple_head]|].
    replace (cs ++ map (fun p => flag_cond (snd p)) ((nt, f) :: l))
      with ((cs ++ [flag_cond f]) ++ map (fun p => flag_cond (snd p)) l)
      by (by rewrite <- app_assoc).
    apply IH; [done|lia].
Qed.

(** a simple filter made of bare words is the conjunction of one
    [word = TRUE] condition per word, in order.  A [not] in front of a word
    leaves no trace in the result, and the words [and] and [or] are
    conditions on columns of that name. *)
Theorem simple_filter_words (l : list (bool * string)) (Hne : l <> [])
    (Hl : forallb (fun p => wf_field (snd p)) l = true) :
  ParseSimple (show_tokens (map to_token (pr_simple l))) =
  Some (Ok (set_Where (Some (mkWhere (map (fun p => flag_cond (snd p)) l) LogicalAnd []))
              (empty_query QuerySelect))).
Proof.
  unfold ParseSimple. apply run_parser_yields.
  - clear Hne. induction l as [|[nt f] l IH]; [done|]. cbn [forallb snd] in Hl.
    apply andb_true_iff in Hl as [Hf Hl]. apply andb_true_iff in Hf as [Hf _].
    change (pr_simple ((nt, f) :: l))
      with (((if nt : bool then [(TokenNot, "not")] else []) ++ [word f]) ++ pr_simple l).
    rewrite !wfk_app, (IH Hl), wfk_cons, (wf_token_word _ Hf). by destruct nt.
  - intros n Hn. unfold parseSimpleFilters.
    eapply yields_bind; [apply simple_loop_words; [done|]|].
    + assert (length l <= length (pr_simple l))%nat; [|rewrite length_app in Hn; lia].
      clear. induction l as [|[nt f] l IH]; [done|].
      change (pr_simple ((nt, f) :: l))
        with (((if nt : bool then [(TokenNot, "not")] else []) ++ [word f]) ++ pr_simple l).
      rewrite !length_app. cbn [length]. lia.
    + cbn [app]. destruct l as [|x l]; [done|]. cbn [map length]. y_step.
Qed.

Lemma simple_filter_words_witness :
  ParseSimple "active not archived or urgent " =
  Some (Ok (set_Where (Some (mkWhere [flag_cond "active"; flag_cond "archived"; flag_cond "or";
                                      flag_cond "urgent"] LogicalAnd []))
              (empty_query QuerySelect))).
Proof.
  apply (simple_filter_words [(false, "active"); (true, "archived"); (false, "or"); (false, "urgent")]);
    [discriminate | vm_compute; reflexivity].
Defined.
