(* ===== verification/QueryCompiler.v ===== *)
(** The SQL compiler of [internal/query/compiler.go].

    The receiver [*SQLCompiler] is threaded as a [SQLCompiler] state; the
    placeholder counter is unbounded (it counts the elements of a slice in
    memory).  [fmt.Sprint] prints a pointer inside a slice as its address
    and a [float64] by the shortest-digits algorithm: on such values it is
    the parameter [sprint_rest]. *)

From Stdlib Require Import ZArith Lia Ascii.
From stdpp Require Import base strings list numbers list_numbers.
From S2P Require Import Prelude GoStrings QueryAst QueryTokens.

#[local] Open Scope string_scope.
#[local] Open Scope Z_scope.
#[local] Open Scope go_scope.

(** [strings.Builder.WriteString] and the [%s] of [fmt.Sprintf] append. *)
Record SQLCompiler := mkCompiler {
  entities : list (string * EntityMeta);
  params : list Value;
  paramIdx : Z
}.

Record CompiledQuery := mkCompiled { SQL : string; Params : list Value }.

Definition NewSQLCompiler (es : list (string * EntityMeta)) : SQLCompiler := mkCompiler es [] 0.

Abbreviation C := (SE SQLCompiler QueryError).

Definition quote_part (p : string) : string :=
  String dquote (ReplaceAll p dquote (String dquote (String dquote "")) +:+ String dquote "").

Definition quoteIdent (ident : string) : string :=
  if str_contains "."%char ident
  then Join (map quote_part (Split "."%char ident)) "."
  else quote_part ident.

Definition snake_rune (ir : nat * Z) : string :=
  let '(i, r) := ir in
  if (65 <=? r) && (r <=? 90)
  then (if (0 <? i)%nat then "_" else "") +:+ encode_rune (r + 32)
  else encode_rune r.

Definition toSnakeCase (s : string) : string :=
  foldr (fun ir acc => snake_rune ir +:+ acc) "" (range_runes s).

Definition mapColumn (entity : EntityMeta) (field : string) : string :=
  match assoc field (Columns entity) with
  | Some col => col
  | None => toSnakeCase field
  end.

Definition qcol (entity : EntityMeta) (field : string) : string := quoteIdent (mapColumn entity field).

Fixpoint find_ci (lower : string) (es : list (string * EntityMeta)) : option EntityMeta :=
  match es with
  | [] => None
  | (k, v) :: es' => if String.eqb (ToLower k) lower then Some v else find_ci lower es'
  end.

Definition getEntity (es : list (string * EntityMeta)) (name : string) : option EntityMeta :=
  match assoc name es with
  | Some e => Some e
  | None => find_ci (ToLower name) es
  end.

(** [c.paramIdx++; c.params = append(c.params, v)]; returns [$%d]. *)
Definition bind_param (v : Value) : C string := fun c =>
  let idx := paramIdx c + 1 in
  (mkCompiler (entities c) (params c ++ [v])%list idx, Ok ("$" +:+ Itoa idx)).

(** The placeholder loop of IN and NOT IN. *)
Fixpoint bind_params (vs : list Value) : C (list string) :=
  match vs with
  | [] => se_ret []
  | v :: vs' =>
      p <-! bind_param v ;;
      ps <-! bind_params vs' ;;
      se_ret (p :: ps)
  end.

Section Compiler.
(** [fmt.Sprint] of a float, a list or a range. *)
Variable sprint_rest : Value -> string.

Definition Sprint (v : Value) : string :=
  match v with
  | VNil => "<nil>"
  | VStr s => s
  | VBool b => if b then "true" else "false"
  | VInt z => Itoa z
  | VParam n => "&{" +:+ n +:+ "}"
  | VFloat _ | VList _ | VBetween _ _ => sprint_rest v
  end.

Definition compileTextSearch (cond : Condition) (entity : EntityMeta) : C string :=
  let val := Sprint (c_Value cond) in
  match TSVColumns entity with
  | [] => se_err (NewCompilerError (MsgText "no text search column configured for entity"))
  | (_, tsvCol) :: _ =>
      p <-! bind_param (VStr val) ;;
      se_ret (quoteIdent tsvCol +:+
        match c_Operator cond with
        | OpFuzzy => " @@ to_tsquery('simple', "
        | OpExact => " @@ phraseto_tsquery('simple', "
        | _ => " @@ plainto_tsquery('simple', "
        end +:+ p +:+ ")")
  end.

(** The comparison branches of [compileCondition]: prefix, operator text, bound value, suffix. *)
Definition compare (pre col op : string) (v : Value) (post : string) : C string :=
  p <-! bind_param v ;;
  se_ret (pre +:+ col +:+ " " +:+ op +:+ " " +:+ p +:+ post).

(** [compileCondition] on a condition with a field and no nested group. *)
Definition compileLeaf (cond : Condition) (entity : EntityMeta) : C string :=
  let col := qcol entity (c_Field cond) in
  let isJSON := match assoc (c_Field cond) (JSONColumns entity) with Some b => b | None => false end in
  let notPrefix := if c_Not cond then "NOT " else "" in
  let v := c_Value cond in
  match c_Operator cond with
  | OpEquals => if isJSON then compare notPrefix col "@>" v "::jsonb"
                else compare notPrefix col "=" v ""
  | OpNotEquals => compare notPrefix col "!=" v ""
  | OpGreaterThan => compare notPrefix col ">" v ""
  | OpGreaterThanOrEqual => compare notPrefix col ">=" v ""
  | OpLessThan => compare notPrefix col "<" v ""
  | OpLessThanOrEqual => compare notPrefix col "<=" v ""
  | OpContains | OpILike => compare notPrefix col "ILIKE" (VStr ("%" +:+ Sprint v +:+ "%")) ""
  | OpLike => compare notPrefix col "LIKE" v ""
  | OpStartsWith => compare notPrefix col "ILIKE" (VStr (Sprint v +:+ "%")) ""
  | OpEndsWith => compare notPrefix col "ILIKE" (VStr ("%" +:+ Sprint v)) ""
  | OpIn =>
      match v with
      | VList [] => se_ret (if c_Not cond then "TRUE" else "FALSE")
      | VList values =>
          placeholders <-! bind_params values ;;
          se_ret (notPrefix +:+ col +:+ " IN (" +:+ Join placeholders ", " +:+ ")")
      | _ => se_err (NewCompilerError (MsgNeedsArray "IN" v))
      end
  | OpNotIn =>
      match v with
      | VList [] => se_ret "TRUE"
      | VList values =>
          placeholders <-! bind_params values ;;
          se_ret (notPrefix +:+ col +:+ " NOT IN (" +:+ Join placeholders ", " +:+ ")")
      | _ => se_err (NewCompilerError (MsgNeedsArray "NOT IN" v))
      end
  | OpIsNull => se_ret (col +:+ (if c_Not cond then " IS NOT NULL" else " IS NULL"))
  | OpIsNotNull => se_ret (col +:+ (if c_Not cond then " IS NULL" else " IS NOT NULL"))
  | OpIncludes | OpArrayContains => compare notPrefix col "@>" v ""
  | OpBetween =>
      match v with
      | VBetween lo hi =>
          l <-! bind_param lo ;;
          h <-! bind_param hi ;;
          se_ret (notPrefix +:+ col +:+ " BETWEEN " +:+ l +:+ " AND " +:+ h)
      | _ => se_err (NewCompilerError (MsgText "BETWEEN operator requires BetweenValue"))
      end
  | OpFuzzy | OpExact => se_err (NewCompilerError (MsgUnsupportedOperator (c_Operator cond)))
  end.

Definition join_op (op : LogicalOp) : string :=
  match op with LogicalOr => " OR " | LogicalAnd => " AND " end.

(** The end of [compileWhere]: nothing, the only condition, or a parenthesized list. *)
Definition close_conditions (conditions : list string) (op : LogicalOp) : string :=
  match conditions with
  | [] => ""
  | [s] => s
  | _ => "(" +:+ Join conditions (join_op op) +:+ ")"
  end.

Definition keep (sql : string) (acc : list string) : list string :=
  if String.eqb sql "" then acc else (acc ++ [sql])%list.

Fixpoint compileWhere (entity : EntityMeta) (w : WhereClause) {struct w} : C string :=
  match w with
  | mkWhere conds op _ =>
      conditions <-! (fix go (cs : list Condition) (acc : list string) : C (list string) :=
         match cs with
         | [] => se_ret acc
         | cond :: cs' =>
             sql <-! compileCondition entity cond ;;
             go cs' (keep sql acc)
         end) conds [] ;;
      se_ret (close_conditions conditions op)
  end
with compileCondition (entity : EntityMeta) (cond : Condition) {struct cond} : C string :=
  match cond with
  | mkCond field op v not sq (Some nested) =>
      sql <-! compileWhere entity nested ;;
      se_ret (if not then "NOT (" +:+ sql +:+ ")" else sql)
  | mkCond field op v not sq None =>
      if String.eqb field "" then compileTextSearch (mkCond field op v not sq None) entity
      else compileLeaf (mkCond field op v not sq None) entity
  end.

Definition opt_compileWhere (entity : EntityMeta) (w : option WhereClause) : C string :=
  match w with
  | None => se_ret ""
  | Some w => compileWhere entity w
  end.

Definition compileWhereWithSoftDelete (w : option WhereClause) (entity : EntityMeta) : C string :=
  whereSQL <-! opt_compileWhere entity w ;;
  let conditions := keep whereSQL [] in
  let conditions :=
    if String.eqb (SoftDelete entity) "" then conditions
    else (conditions ++ [quoteIdent (SoftDelete entity) +:+ " IS NULL"])%list in
  match conditions with
  | [] => se_ret ""
  | [s] => se_ret s
  | _ => se_ret ("(" +:+ Join conditions ") AND (" +:+ ")")
  end.

(** [" WHERE " + whereSQL], or nothing. *)
Definition where_part (whereSQL : string) : string :=
  if String.eqb whereSQL "" then "" else " WHERE " +:+ whereSQL.

Definition with_entity {A} (q : Query) (k : EntityMeta -> C A) : C A := fun c =>
  match getEntity (entities c) (q_Entity q) with
  | None => (c, Err (ErrUnknownEntity (q_Entity q)))
  | Some entity => k entity c
  end.

Definition order_sql (entity : EntityMeta) (o : OrderClause) : string :=
  qcol entity (o_Field o) +:+ " " +:+
  match o_Direction o with OrderDesc => "DESC" | OrderAsc => "ASC" end.

Definition list_part (kw : string) (l : list string) : string :=
  match l with [] => "" | _ => kw +:+ Join l ", " end.

Definition int_part (kw : string) (o : option Z) : string :=
  match o with None => "" | Some z => kw +:+ Itoa z end.

Definition compileSelect (q : Query) : C string :=
  with_entity q (fun entity =>
    whereSQL <-! compileWhereWithSoftDelete (q_Where q) entity ;;
    havingSQL <-! match q_Having q with
                  | None => se_ret ""
                  | Some h => s <-! compileWhere entity h ;; se_ret (" HAVING " +:+ s)
                  end ;;
    se_ret ("SELECT " +:+
      match q_Fields q with [] => "*" | fs => Join (map (qcol entity) fs) ", " end +:+
      " FROM " +:+ quoteIdent (TableName entity) +:+
      where_part whereSQL +:+
      list_part " GROUP BY " (map (qcol entity) (q_GroupBy q)) +:+
      havingSQL +:+
      list_part " ORDER BY " (map (order_sql entity) (q_OrderBy q)) +:+
      int_part " LIMIT " (q_Limit q) +:+
      int_part " OFFSET " (q_Offset q))).

Definition compileCount (q : Query) : C string :=
  with_entity q (fun entity =>
    whereSQL <-! compileWhereWithSoftDelete (q_Where q) entity ;;
    se_ret ("SELECT COUNT(*) FROM " +:+ quoteIdent (TableName entity) +:+ where_part whereSQL)).

Definition funcName (t : QueryType) : string :=
  match t with
  | QuerySum => "SUM" | QueryAvg => "AVG" | QueryMin => "MIN" | QueryMax => "MAX" | _ => ""
  end.

Definition compileAggregateFunc (q : Query) : C string :=
  with_entity q (fun entity =>
    whereSQL <-! compileWhereWithSoftDelete (q_Where q) entity ;;
    se_ret ("SELECT " +:+ funcName (q_Type q) +:+ "(" +:+ qcol entity (q_AggField q) +:+ ") FROM " +:+
      quoteIdent (TableName entity) +:+ where_part whereSQL)).

Definition set_sql (col p : string) (op : UpdateOp) : string :=
  match op with
  | UpdateSetValue => col +:+ " = " +:+ p
  | UpdateIncrement => col +:+ " = " +:+ col +:+ " + " +:+ p
  | UpdateDecrement => col +:+ " = " +:+ col +:+ " - " +:+ p
  | UpdateAppend => col +:+ " = array_append(" +:+ col +:+ ", " +:+ p +:+ ")"
  | UpdateRemove => col +:+ " = array_remove(" +:+ col +:+ ", " +:+ p +:+ ")"
  end.

Fixpoint compile_sets (entity : EntityMeta) (us : list UpdateSet) (sets : list string) : C (list string) :=
  match us with
  | [] => se_ret sets
  | u :: us' =>
      p <-! bind_param (u_Value u) ;;
      compile_sets entity us' (sets ++ [set_sql (qcol entity (u_Field u)) p (u_Op u)])%list
  end.

Definition compileUpdate (q : Query) : C string :=
  with_entity q (fun entity =>
    sets <-! compile_sets entity (q_Updates q) [] ;;
    whereSQL <-! compileWhereWithSoftDelete (q_Where q) entity ;;
    se_ret ("UPDATE " +:+ quoteIdent (TableName entity) +:+ " SET " +:+ Join sets ", " +:+
      where_part whereSQL)).

Definition compileDelete (q : Query) : C string :=
  with_entity q (fun entity =>
    whereSQL <-! compileWhereWithSoftDelete (q_Where q) entity ;;
    se_ret ((if String.eqb (SoftDelete entity) ""
             then "DELETE FROM " +:+ quoteIdent (TableName entity)
             else "UPDATE " +:+ quoteIdent (TableName entity) +:+ " SET " +:+
                  quoteIdent (SoftDelete entity) +:+ " = NOW()") +:+
            where_part whereSQL)).

Definition compile_sql (q : Query) : C string :=
  match q_Type q with
  | QuerySelect => compileSelect q
  | QueryCount => compileCount q
  | QuerySum | QueryAvg | QueryMin | QueryMax => compileAggregateFunc q
  | QueryUpdate => compileUpdate q
  | QueryDelete => compileDelete q
  end.

Definition Compile (q : Query) : C CompiledQuery := fun c =>
  match compile_sql q (mkCompiler (entities c) [] 0) with
  | (c', Ok sql) => (c', Ok (mkCompiled sql (params c')))
  | (c', Err e) => (c', Err e)
  end.
End Compiler.

(** ** Specification: what stands outside quotes

    [scan] reads a statement the way the database's lexer separates quoted
    text from the rest: it returns the numbers of the [$n] placeholders
    outside quotes in order, or [None] when a quote stays open or when a
    statement separator or a comment stands outside quotes. *)
Inductive mode := Plain | Dash | Quoted (q : ascii) | Placeholder (digits : string).

Definition plain_mode (c : ascii) : option mode :=
  if Ascii.eqb c dquote || Ascii.eqb c squote then Some (Quoted c)
  else if Ascii.eqb c "$" then Some (Placeholder "")
  else if Ascii.eqb c ";" || Ascii.eqb c "/" || Ascii.eqb c backslash then None
  else if Ascii.eqb c "-" then Some Dash
  else Some Plain.

Fixpoint scan (m : mode) (s : string) : option (list string) :=
  match s with
  | EmptyString =>
      match m with
      | Plain | Dash => Some []
      | Placeholder d => Some [d]
      | Quoted _ => None
      end
  | String c s' =>
      let next := match plain_mode c with Some m' => scan m' s' | None => None end in
      match m with
      | Plain => next
      | Dash => if Ascii.eqb c "-" then None else next
      | Quoted q => if Ascii.eqb c q then scan Plain s' else scan m s'
      | Placeholder d => if is_digit c then scan (Placeholder (d +:+ String c "")) s'
                         else cons d <$> next
      end
  end.

(** The placeholders outside the quotes of a whole statement. *)
Definition placeholders (sql : string) : option (list string) := scan Plain sql.

(** The placeholder numbers [$k+1 .. $k+n]. *)
Definition numbers_from (k n : Z) : list string := map Itoa (seqZ (k + 1) n).

Definition no_digit (s : string) : Prop :=
  match s with EmptyString => True | String c _ => is_digit c = false end.

(** [frag k n s]: in front of text that does not begin with a digit, [s]
    contributes exactly the placeholders [$k+1 .. $k+n], and it is closed. *)
Definition frag (k n : Z) (s : string) : Prop :=
  no_digit s /\ 0 <= n /\
  forall r, no_digit r -> scan Plain (s +:+ r) = app (numbers_from k n) <$> scan Plain r.

Lemma numbers_from_add k n m : 0 <= n -> 0 <= m ->
  numbers_from k (n + m) = (numbers_from k n ++ numbers_from (k + n) m)%list.
Proof.
  intros Hn Hm. unfold numbers_from. rewrite seqZ_app, map_app by done.
  by replace (k + 1 + n) with (k + n + 1) by lia.
Qed.

Lemma no_digit_app a b : no_digit a -> no_digit b -> no_digit (a +:+ b).
Proof. by destruct a. Qed.

Lemma frag_app k n m a b : frag k n a -> frag (k + n) m b -> frag k (n + m) (a +:+ b).
Proof.
  intros (Ha & Hn & Ea) (Hb & Hm & Eb). split_and!; [by apply no_digit_app | lia |].
  intros r Hr. rewrite sapp_assoc, Ea, Eb by (try apply no_digit_app; done).
  rewrite numbers_from_add by done. destruct (scan Plain r); cbn; [by rewrite app_assoc | done].
Qed.

(** A closed text without placeholders. *)
Lemma frag_const k s : no_digit s -> (forall r, scan Plain (s +:+ r) = scan Plain r) -> frag k 0 s.
Proof.
  intros Hs H. split_and!; [done|done|]. intros r _. rewrite H. unfold numbers_from. cbn.
  by destruct (scan Plain r).
Qed.

Lemma frag_nil k : frag k 0 "".
Proof. by apply frag_const. Qed.

Lemma frag_app_l k n a b : frag k 0 a -> frag k n b -> frag k n (a +:+ b).
Proof. intros Ha Hb. apply (frag_app k 0 n); [done|]. by rewrite Z.add_0_r. Qed.

Lemma frag_app_r k n a b : frag k n a -> frag (k + n) 0 b -> frag k n (a +:+ b).
Proof. intros Ha Hb. rewrite <- (Z.add_0_r n). by apply frag_app. Qed.

Lemma scan_digits d : forall acc r, str_forall is_digit d = true -> no_digit r ->
  scan (Placeholder acc) (d +:+ r) = cons (acc +:+ d) <$> scan Plain r.
Proof.
  induction d as [|c d IH]; intros acc r Hd Hr.
  - rewrite sapp_nil_r. destruct r as [|c r]; cbn; [done|]. cbn in Hr. by rewrite Hr.
  - cbn in Hd |- *. apply andb_true_iff in Hd as [-> Hd]. by rewrite IH, sapp_assoc.
Qed.

Lemma Itoa_nonneg_digits z : 0 <= z -> str_forall is_digit (Itoa z) = true.
Proof.
  intros Hz. destruct (Itoa_split z) as (sg & ds & E & [->| ->] & _ & Hd); rewrite E; [done|].
  destruct z as [|p|p]; try lia; unfold Itoa in E; cbn in E; [discriminate|].
  destruct (string_of_pos p) as (c & s & Hs & Hc & _). rewrite Hs in E. injection E as -> _.
  cbn in Hc. discriminate.
Qed.

Lemma frag_param k : 0 <= k -> frag k 1 ("$" +:+ Itoa (k + 1)).
Proof.
  intros Hk. split_and!; [done|lia|]. intros r Hr. cbn.
  rewrite scan_digits by (try apply Itoa_nonneg_digits; done || lia). unfold numbers_from. cbn.
  by destruct (scan Plain r).
Qed.

Lemma scan_quoted q s r : scan (Quoted q) (ReplaceAll s q (String q (String q "")) +:+ String q r)
  = if Ascii.eqb q dquote || Ascii.eqb q squote then scan Plain r
    else scan (Quoted q) (ReplaceAll s q (String q (String q "")) +:+ String q r).
Proof.
  destruct (Ascii.eqb q dquote || Ascii.eqb q squote) eqn:Hq; [|done].
  induction s as [|c s IH]; cbn.
  - by rewrite Ascii.eqb_refl.
  - destruct (ascii_eqb_spec c q) as [->|Hc]; cbn.
    + rewrite Ascii.eqb_refl. unfold plain_mode. rewrite Hq. exact IH.
    + by rewrite (proj2 (Ascii.eqb_neq c q) Hc).
Qed.

Lemma frag_quote_part k p : frag k 0 (quote_part p).
Proof.
  apply frag_const; [done|]. intros r. unfold quote_part. cbn. rewrite sapp_assoc. cbn.
  by rewrite (scan_quoted dquote).
Qed.

(** Lists of fragments, joined by a constant separator. *)
Inductive frags : Z -> Z -> list string -> Prop :=
| frags_nil k : frags k 0 []
| frags_cons k n m s l : frag k n s -> frags (k + n) m l -> frags k (n + m) (s :: l).

Lemma frags_nonneg k n l : frags k n l -> 0 <= n.
Proof. induction 1 as [|? ? ? ? ? (_ & ? & _)]; lia. Qed.

Lemma frags_app k n m a b : frags k n a -> frags (k + n) m b -> frags k (n + m) (a ++ b)%list.
Proof.
  induction 1 as [k|k n n' s l Hs Hl IH]; intros Hb.
  - by rewrite Z.add_0_r in Hb.
  - cbn. rewrite <- Z.add_assoc. constructor; [done|]. apply IH. by rewrite <- Z.add_assoc.
Qed.

Lemma frags_one k n s : frag k n s -> frags k n [s].
Proof. intros H. rewrite <- (Z.add_0_r n). by repeat constructor; destruct H as (?&?&?). Qed.

Lemma frags_join k n l sep : frags k n l -> (forall k, frag k 0 sep) -> frag k n (Join l sep).
Proof.
  intros Hl Hsep. induction Hl as [k|k n m s l Hs Hl IH]; [apply frag_nil|].
  destruct l as [|s' l]; [inversion Hl; subst; by rewrite Z.add_0_r|].
  change (Join (s :: s' :: l) sep) with (s +:+ sep +:+ Join (s' :: l) sep).
  apply frag_app; [done|]. by apply frag_app_l.
Qed.

Lemma frags_consts k l : Forall (fun s => forall k, frag k 0 s) l -> frags k 0 l.
Proof.
  intros H. revert k. induction H as [|s l Hs _ IH]; intros k; [constructor|].
  change 0 with (0 + 0). constructor; auto.
Qed.

Lemma frag_Itoa kw k z : no_digit kw -> kw <> "" ->
  (forall r, scan Plain (kw +:+ r) = scan Plain r) -> frag k 0 (kw +:+ Itoa z).
Proof.
  intros Hkw Hne Hs. apply frag_const; [by destruct kw|]. intros r. rewrite sapp_assoc, Hs.
  assert (Hd : forall d m, str_forall is_digit d = true -> (m = Plain \/ m = Dash) ->
    d <> "" \/ m = Plain -> scan m (d +:+ r) = scan Plain r).
  { induction d as [|c d IH]; intros m Hd Hm Hne'; [by destruct Hne' as [| ->]|].
    cbn [str_forall] in Hd. apply andb_true_iff in Hd as [Hc Hd].
    assert (plain_mode c = Some Plain /\ Ascii.eqb c "-" = false) as [Hp Hm'].
    { clear -Hc. destruct c as [[] [] [] [] [] [] [] []]; vm_compute in *; auto; discriminate. }
    cbn. rewrite Hp, Hm'. destruct Hm as [-> | ->]; apply IH; auto. }
  destruct (Itoa_split z) as (sg & ds & -> & [-> | ->] & Hds & Hdig); cbn [String.append].
  - apply Hd; auto.
  - cbn. apply Hd; auto.
Qed.

(** Fragments with nothing bound: closed constants, quoted identifiers. *)
Create HintDb sql discriminated.
#[export] Hint Resolve frag_nil frag_quote_part : sql.

Lemma frag_quoteIdent k ident : frag k 0 (quoteIdent ident).
Proof.
  unfold quoteIdent. destruct (str_contains "." ident); [|apply frag_quote_part].
  apply frags_join; [|intros k'; by apply frag_const].
  apply frags_consts, Forall_map, List.Forall_forall. intros p _ k'. apply frag_quote_part.
Qed.
#[export] Hint Resolve frag_quoteIdent : sql.

Ltac frag_atom :=
  first [ assumption | solve [eauto with sql]
        | apply frag_const; [done | intros; reflexivity] ].

(** Assemble a fragment from its pieces, at most one of which binds parameters. *)
Ltac frag_go :=
  lazymatch goal with
  | |- frag _ _ (String.append _ _) =>
      first [ apply frag_app_l; [solve [frag_atom] | frag_go]
            | apply frag_app_r; [solve [frag_atom] | frag_go] ]
  | _ => frag_atom
  end.

(** [emits k m Q]: a successful run of [m] from counter [k] appends some
    values to the parameters, advances the counter by their number, and [Q]
    relates that number and the result. *)
Definition emits {A} (k : Z) (m : C A) (Q : Z -> A -> Prop) : Prop :=
  forall c c' a, paramIdx c = k -> m c = (c', Ok a) ->
  exists vs, c' = mkCompiler (entities c) (params c ++ vs)%list (k + Z.of_nat (length vs)) /\
    Q (Z.of_nat (length vs)) a.

Lemma emits_ret {A} k (a : A) (Q : Z -> A -> Prop) : Q 0 a -> emits k (se_ret a) Q.
Proof.
  intros H c c' b Hc [= <- <-]. exists []. rewrite app_nil_r, Z.add_0_r. destruct c; cbn in *.
  by subst.
Qed.

Lemma emits_err {A} k e (Q : Z -> A -> Prop) : emits k (se_err e) Q.
Proof. by intros c c' b Hc [= ]. Qed.

Lemma emits_bind {A B} k (m : C A) (f : A -> C B) Q1 (Q : Z -> B -> Prop) :
  emits k m Q1 ->
  (forall n a, 0 <= n -> Q1 n a -> emits (k + n) (f a) (fun n' b => Q (n + n') b)) ->
  emits k (se_bind m f) Q.
Proof.
  intros Hm Hf c c' b Hc H. apply se_bind_ok in H as (c1 & a & H1 & H2).
  destruct (Hm _ _ _ Hc H1) as (vs1 & -> & Q1').
  apply (Hf (Z.of_nat (length vs1)) a) in H2 as (vs2 & -> & Q2); [|lia|done|done].
  exists (vs1 ++ vs2)%list. cbn in *. rewrite app_assoc, length_app.
  split; [f_equal; lia|]. by rewrite Nat2Z.inj_add.
Qed.

Lemma emits_ret0 {A} k n (a : A) (Q : Z -> A -> Prop) :
  Q n a -> emits k (se_ret a) (fun n' b => Q (n + n') b).
Proof. intros H. apply emits_ret. by rewrite Z.add_0_r. Qed.

Lemma emits_weaken {A} k (m : C A) (Q1 Q : Z -> A -> Prop) :
  emits k m Q1 -> (forall n a, 0 <= n -> Q1 n a -> Q n a) -> emits k m Q.
Proof.
  intros Hm H c c' a Hc E. destruct (Hm _ _ _ Hc E) as (vs & ? & ?). exists vs. split; [done|].
  apply H; [lia|done].
Qed.

Lemma emits_bind_param k v : 0 <= k -> emits k (bind_param v) (frag k).
Proof. intros Hk c c' a <- [= <- <-]. exists [v]. split; [done|]. by apply frag_param. Qed.

Lemma emits_bind_params vs : forall k, 0 <= k -> emits k (bind_params vs) (frags k).
Proof.
  induction vs as [|v vs IH]; intros k Hk; cbn; [apply emits_ret; constructor|].
  eapply emits_bind; [by apply emits_bind_param|]. intros n p Hn Hp.
  eapply emits_bind; [apply IH; lia|]. intros m ps Hm Hps.
  apply (emits_ret0 _ m _ (fun n' b => frags k (n + n') b)). by constructor.
Qed.

Ltac emit_param := eapply emits_bind; [by apply emits_bind_param|]; intros ?n ?p ?Hn ?Hp.

Lemma emits_compare k pre col op v post : 0 <= k -> (forall k, frag k 0 pre) -> (forall k, frag k 0 col) ->
  (forall k, frag k 0 (" " +:+ op +:+ " ")) -> (forall k, frag k 0 post) ->
  emits k (compare pre col op v post) (frag k).
Proof.
  intros Hk H1 H2 H3 H4. unfold compare. emit_param.
  apply emits_ret0. apply frag_app_l; [done|]. apply frag_app_l; [done|].
  replace (" " +:+ op +:+ " " +:+ p +:+ post) with ((" " +:+ op +:+ " ") +:+ p +:+ post)
    by (by rewrite !sapp_assoc).
  apply frag_app_l; [done|]. by apply frag_app_r.
Qed.

Lemma frag_empty_inv k n : frag k n "" -> n = 0.
Proof.
  intros (_ & Hn & H). specialize (H "" I). cbn in H. injection H as H.
  assert (length (numbers_from k n) = 0%nat) as E by (by rewrite app_nil_r in H; rewrite <- H).
  unfold numbers_from in E. rewrite length_map, length_seqZ in E. lia.
Qed.

Lemma frags_keep k0 n0 n sql acc :
  frags k0 n0 acc -> frag (k0 + n0) n sql -> frags k0 (n0 + n) (keep sql acc).
Proof.
  intros Ha Hs. unfold keep. destruct (String.eqb_spec sql "") as [->|].
  - apply frag_empty_inv in Hs as ->. by rewrite Z.add_0_r.
  - apply frags_app; [done|]. by apply frags_one.
Qed.

Lemma frag_close k n l op : frags k n l -> frag k n (close_conditions l op).
Proof.
  intros Hl. assert (frag k n (Join l (join_op op))).
  { apply frags_join; [done|]. intros k'. destruct op; frag_atom. }
  unfold close_conditions. destruct l as [|s [|s2 l]]; try done. frag_go.
Qed.

Section Placeholders.
Variable sprint_rest : Value -> string.

Lemma emits_textSearch k cond entity : 0 <= k ->
  emits k (compileTextSearch sprint_rest cond entity) (frag k).
Proof.
  intros Hk. unfold compileTextSearch. destruct (TSVColumns entity) as [|[key tsv] tl]; [apply emits_err|].
  emit_param. apply emits_ret0. destruct (c_Operator cond); frag_go.
Qed.

Lemma emits_in k pre col s vs : 0 <= k -> frag k 0 pre -> frag k 0 col ->
  frag k 0 s -> emits k (se_bind (bind_params vs) (fun placeholders =>
    se_ret (pre +:+ col +:+ s +:+ Join placeholders ", " +:+ ")"))) (frag k).
Proof.
  intros Hk H1 H2 H3. eapply emits_bind; [by apply emits_bind_params|]. intros n ps Hn Hps.
  apply emits_ret0. assert (frag k n (Join ps ", ")) by (apply frags_join; [done|intros k'; frag_atom]).
  frag_go.
Qed.

Lemma emits_leaf k cond entity : 0 <= k -> emits k (compileLeaf sprint_rest cond entity) (frag k).
Proof.
  intros Hk.
  assert (Hcol : forall k, frag k 0 (qcol entity (c_Field cond))) by (intros; apply frag_quoteIdent).
  assert (Hnot : forall k, frag k 0 (if c_Not cond then "NOT " else ""))
    by (intros k'; destruct (c_Not cond); frag_atom).
  assert (Hc : forall s, (forall r, scan Plain (s +:+ r) = scan Plain r) -> no_digit s ->
    emits k (se_ret s) (frag k)) by (intros s Hs Hd; apply emits_ret; by apply frag_const).
  unfold compileLeaf. cbv zeta. generalize dependent (if c_Not cond then "NOT " else "").
  intros pre Hpre. destruct (c_Operator cond);
    try (destruct (match assoc _ _ with Some b => b | None => false end));
    try (apply emits_compare; try done; intros k'; frag_atom); try apply emits_err;
    try (destruct (c_Value cond) as [|s|b|z|f|nm|[|v vs]|lo hi]; try apply emits_err;
         [destruct (c_Not cond); by apply Hc
         | apply emits_in; try done; frag_atom]);
    try (apply emits_ret; destruct (c_Not cond); frag_go).
  destruct (c_Value cond) as [| | | | | | |lo hi]; try apply emits_err.
  emit_param. eapply emits_bind; [apply emits_bind_param; lia|]. intros n1 h Hn1 Hh.
  apply (emits_ret0 _ n1 _ (fun n' b => frag k (n + n') b)).
  apply frag_app_l; [done|]. apply frag_app_l; [done|]. apply frag_app_l; [frag_atom|].
  apply frag_app; [done|]. by apply frag_app_l; [frag_atom|].
Qed.

Lemma emits_where_condition :
  (forall w entity k, 0 <= k -> emits k (compileWhere sprint_rest entity w) (frag k)) /\
  (forall c entity k, 0 <= k -> emits k (compileCondition sprint_rest entity c) (frag k)).
Proof.
  apply where_cond_ind.
  - intros cs op gs Hcs entity k Hk. cbn [compileWhere].
    eapply (emits_bind _ _ _ (frags k)).
    + assert (Hgo : forall acc n0, frags k n0 acc ->
        emits (k + n0) ((fix go cs acc := match cs with
                | [] => se_ret acc
                | cond :: cs' => se_bind (compileCondition sprint_rest entity cond)
                                   (fun sql => go cs' (keep sql acc))
                end) cs acc) (fun n l => frags k (n0 + n) l)).
      { induction Hcs as [|c cs Hc _ IH]; intros acc n0 Ha; [by apply (emits_ret0 _ _ _ (frags k))|].
        pose proof (frags_nonneg _ _ _ Ha).
        eapply emits_bind; [apply Hc; lia|]. intros n sql Hn Hs.
        replace (k + n0 + n) with (k + (n0 + n)) by lia.
        eapply emits_weaken; [apply (IH (keep sql acc) (n0 + n)); by apply frags_keep|].
        intros n' l _ Hl. by rewrite Z.add_assoc. }
      specialize (Hgo [] 0 (frags_nil _)). by rewrite Z.add_0_r in Hgo.
    + intros n l Hn Hl. apply emits_ret0. by apply frag_close.
  - intros f op v nt sq entity k Hk. cbn [compileCondition].
    destruct (String.eqb f ""); [by apply emits_textSearch | by apply emits_leaf].
  - intros f op v nt sq w Hw entity k Hk. cbn [compileCondition].
    eapply emits_bind; [by apply Hw|]. intros n sql Hn Hs. apply emits_ret0.
    destruct nt; [|done]. frag_go.
Qed.

Lemma emits_opt_where k entity w : 0 <= k -> emits k (opt_compileWhere sprint_rest entity w) (frag k).
Proof.
  intros Hk. destruct w; [by apply emits_where_condition | apply emits_ret, frag_nil].
Qed.

Lemma emits_soft_where k w entity : 0 <= k ->
  emits k (compileWhereWithSoftDelete sprint_rest w entity) (frag k).
Proof.
  intros Hk. eapply emits_bind; [by apply emits_opt_where|]. intros n sql Hn Hs. cbv zeta.
  assert (Hl : frags k n (if String.eqb (SoftDelete entity) "" then keep sql []
    else (keep sql [] ++ [quoteIdent (SoftDelete entity) +:+ " IS NULL"])%list)).
  { assert (frags k n (keep sql [])).
    { apply (frags_keep k 0); [constructor|]. by rewrite Z.add_0_r. }
    destruct (String.eqb (SoftDelete entity) ""); [done|]. rewrite <- (Z.add_0_r n).
    apply frags_app; [done|]. apply frags_one. frag_go. }
  revert Hl. generalize (if String.eqb (SoftDelete entity) "" then keep sql []
    else (keep sql [] ++ [quoteIdent (SoftDelete entity) +:+ " IS NULL"])%list).
  intros l Hl. assert (frag k n (Join l ") AND (")) by (apply frags_join; [done|intros; frag_atom]).
  destruct l as [|s [|s2 l]]; apply emits_ret0; [done..|]. frag_go.
Qed.

Lemma frag_where_part k n s : frag k n s -> frag k n (where_part s).
Proof.
  intros Hs. unfold where_part. destruct (String.eqb s "") eqn:E; [|frag_go].
  by apply String.eqb_eq in E as ->.
Qed.

Lemma frag_list_part k kw l : frag k 0 kw -> Forall (fun s => forall k, frag k 0 s) l ->
  frag k 0 (list_part kw l).
Proof.
  intros Hkw Hl. unfold list_part. destruct l; [apply frag_nil|].
  apply frag_app_l; [done|]. apply frags_join; [by apply frags_consts|]. intros; frag_atom.
Qed.

Lemma frag_int_part k kw o : no_digit kw -> kw <> "" ->
  (forall r, scan Plain (kw +:+ r) = scan Plain r) -> frag k 0 (int_part kw o).
Proof. intros H1 H2 H3. destruct o; [by apply frag_Itoa | apply frag_nil]. Qed.

Lemma qcols_consts entity fs : Forall (fun s => forall k, frag k 0 s) (map (qcol entity) fs).
Proof. apply Forall_map, List.Forall_forall. intros f _ k. apply frag_quoteIdent. Qed.

#[local] Hint Extern 1 (frag _ 0 (qcol _ _)) => apply frag_quoteIdent : sql.

Lemma emits_sets us : forall entity k n0 acc, 0 <= k -> frags k n0 acc ->
  emits (k + n0) (compile_sets entity us acc) (fun n l => frags k (n0 + n) l).
Proof.
  induction us as [|u us IH]; intros entity k n0 acc Hk Ha; cbn [compile_sets].
  - by apply (emits_ret0 _ _ _ (frags k)).
  - pose proof (frags_nonneg _ _ _ Ha).
    eapply emits_bind; [apply emits_bind_param; lia|]. intros n p Hn Hp.
    replace (k + n0 + n) with (k + (n0 + n)) by lia.
    eapply emits_weaken; [apply IH; [done|]; apply frags_app; [done|]; apply frags_one|].
    + destruct (u_Op u); cbn [set_sql]; frag_go.
    + intros n' l _ Hl. by rewrite Z.add_assoc.
Qed.

Lemma emits_with_entity q (f : EntityMeta -> C string) k :
  (forall e, emits k (f e) (frag k)) -> emits k (with_entity q f) (frag k).
Proof.
  intros Hf c c' a Hc. unfold with_entity. destruct (getEntity (entities c) (q_Entity q)); [|by intros [=]].
  by apply Hf.
Qed.

Ltac emit_where := eapply emits_bind; [by apply emits_soft_where|]; intros ?n ?w ?Hn ?Hw;
  match goal with H : frag _ _ ?w |- _ => apply frag_where_part in H end.

#[local] Hint Extern 1 (frag _ 0 (Join (map (qcol _) _) _)) =>
  apply frags_join; [apply frags_consts, qcols_consts | intros; frag_atom] : sql.
#[local] Hint Extern 1 (frag _ 0 (int_part _ _)) =>
  apply frag_int_part; [done | done | intros; reflexivity] : sql.
#[local] Hint Extern 1 (frag _ 0 (list_part _ (map (qcol _) _))) =>
  apply frag_list_part; [frag_atom | apply qcols_consts] : sql.

Lemma frag_orders k entity os : frag k 0 (list_part " ORDER BY " (map (order_sql entity) os)).
Proof.
  apply frag_list_part; [frag_atom|]. apply Forall_map, List.Forall_forall.
  intros o _ k'. unfold order_sql. destruct (o_Direction o); frag_go.
Qed.
#[local] Hint Resolve frag_orders : sql.

Lemma emits_compile_sql q : emits 0 (compile_sql sprint_rest q) (frag 0).
Proof.
  unfold compile_sql, compileSelect, compileCount, compileAggregateFunc, compileUpdate, compileDelete.
  destruct (q_Type q) eqn:Ht; apply emits_with_entity; intros e;
    try (emit_where; apply emits_ret0; cbn [funcName]; frag_go).
  - eapply emits_bind; [by apply emits_soft_where|]. intros n w Hn Hw.
    apply frag_where_part in Hw.
    eapply (emits_bind _ _ _ (frag (0 + n))).
    + destruct (q_Having q) as [h|]; [|apply emits_ret, frag_nil].
      eapply emits_bind; [apply emits_where_condition; lia|]. intros n' s Hn' Hs.
      apply emits_ret0. frag_go.
    + intros n' hs Hn' Hhs. apply (emits_ret0 _ n' _ (fun n' b => frag 0 (n + n') b)).
      apply frag_app_l; [frag_atom|]. apply frag_app_l; [destruct (q_Fields q); frag_atom|].
      apply frag_app_l; [frag_atom|]. apply frag_app_l; [frag_atom|].
      apply frag_app; [done|]. frag_go.
  - eapply (emits_bind _ _ _ (frags 0)).
    + pose proof (emits_sets (q_Updates q) e 0 0 [] ltac:(done) (frags_nil 0)) as H. exact H.
    + intros n sets Hn Hsets.
      assert (frag 0 n (Join sets ", ")) by (apply frags_join; [done|intros; frag_atom]).
      eapply emits_bind; [apply emits_soft_where; lia|]. intros n' w Hn' Hw.
      apply frag_where_part in Hw. apply (emits_ret0 _ n' _ (fun n' b => frag 0 (n + n') b)).
      apply frag_app_l; [frag_atom|]. apply frag_app_l; [frag_atom|]. apply frag_app_l; [frag_atom|].
      by apply frag_app.
  - emit_where. apply emits_ret0. destruct (String.eqb (SoftDelete e) ""); rewrite ?sapp_assoc; frag_go.
Qed.
End Placeholders.

(** ** Specification: which values a query binds

    [None] is a query the compiler must reject. *)
Definition ocat {A} (a b : option (list A)) : option (list A) :=
  match a, b with
  | Some x, Some y => Some (x ++ y)%list
  | _, _ => None
  end.

Section Values.
Variable sprint_rest : Value -> string.

Definition leaf_values (c : Condition) : option (list Value) :=
  let v := c_Value c in
  let s := Sprint sprint_rest v in
  match c_Operator c with
  | OpContains | OpILike => Some [VStr ("%" +:+ s +:+ "%")]
  | OpStartsWith => Some [VStr (s +:+ "%")]
  | OpEndsWith => Some [VStr ("%" +:+ s)]
  | OpIn | OpNotIn => match v with VList l => Some l | _ => None end
  | OpIsNull | OpIsNotNull => Some []
  | OpBetween => match v with VBetween lo hi => Some [lo; hi] | _ => None end
  | OpFuzzy | OpExact => None
  | _ => Some [v]
  end.

Fixpoint where_values (entity : EntityMeta) (w : WhereClause) : option (list Value) :=
  match w with
  | mkWhere conds _ _ =>
      (fix go cs := match cs with
                    | [] => Some []
                    | c :: cs' => ocat (cond_values entity c) (go cs')
                    end) conds
  end
with cond_values (entity : EntityMeta) (c : Condition) : option (list Value) :=
  match c with
  | mkCond _ _ _ _ _ (Some nested) => where_values entity nested
  | mkCond f op v nt sq None =>
      if String.eqb f "" then
        match TSVColumns entity with [] => None | _ => Some [VStr (Sprint sprint_rest v)] end
      else leaf_values (mkCond f op v nt sq None)
  end.

Definition opt_where_values (entity : EntityMeta) (w : option WhereClause) : option (list Value) :=
  match w with None => Some [] | Some w => where_values entity w end.

Definition query_values (es : list (string * EntityMeta)) (q : Query) : option (list Value) :=
  match getEntity es (q_Entity q) with
  | None => None
  | Some entity =>
      let whr := opt_where_values entity (q_Where q) in
      match q_Type q with
      | QuerySelect => ocat whr (opt_where_values entity (q_Having q))
      | QueryUpdate => ocat (Some (map u_Value (q_Updates q))) whr
      | _ => whr
      end
  end.

(** [runs m o]: [m] fails if [o] is [None], and otherwise returns and
    appends the values of [o] to the parameters. *)
Definition runs {A} (m : C A) (o : option (list Value)) : Prop :=
  forall c, match o with
            | Some vs => exists a k, m c = (mkCompiler (entities c) (params c ++ vs)%list k, Ok a)
            | None => exists c' e, m c = (c', Err e) /\ entities c' = entities c
            end.

Lemma runs_ret {A} (a : A) : runs (se_ret a) (Some []).
Proof. intros c. exists a, (paramIdx c). rewrite app_nil_r. by destruct c. Qed.

Lemma runs_err {A} e : runs (se_err e : C A) None.
Proof. intros c. by exists c, e. Qed.

Lemma runs_bind {A B} (m : C A) (f : A -> C B) o1 o2 :
  runs m o1 -> (forall a, runs (f a) o2) -> runs (se_bind m f) (ocat o1 o2).
Proof.
  intros Hm Hf c. specialize (Hm c). unfold se_bind. destruct o1 as [vs1|]; cbn.
  - destruct Hm as (a & k & ->). specialize (Hf a (mkCompiler (entities c) (params c ++ vs1)%list k)).
    destruct o2 as [vs2|]; [|done]. cbn in Hf. destruct Hf as (b & k' & ->). exists b, k'.
    by rewrite app_assoc.
  - destruct Hm as (c' & e & -> & He). by exists c', e.
Qed.

Lemma ocat_nil_r {A} (o : option (list A)) : ocat o (Some []) = o.
Proof. destruct o; cbn; [by rewrite app_nil_r | done]. Qed.

(** A computation followed by a pure step. *)
Lemma runs_then {A B} (m : C A) (g : A -> B) o :
  runs m o -> runs (se_bind m (fun a => se_ret (g a))) o.
Proof. intros H. rewrite <- (ocat_nil_r o). apply runs_bind; [done|]. intros a. apply runs_ret. Qed.

Lemma runs_bind_param v : runs (bind_param v) (Some [v]).
Proof. intros c. by do 2 eexists. Qed.

Lemma runs_bind_params vs : runs (bind_params vs) (Some vs).
Proof.
  induction vs as [|v vs IH]; [apply runs_ret|]. cbn [bind_params].
  apply (runs_bind _ _ (Some [v]) (Some vs)); [apply runs_bind_param|]. intros p. by apply runs_then.
Qed.

Lemma runs_leaf c entity : runs (compileLeaf sprint_rest c entity) (leaf_values c).
Proof.
  unfold compileLeaf, leaf_values. cbv zeta.
  destruct (c_Operator c); try destruct (match assoc _ _ with Some b => b | None => false end);
    try apply runs_err; try apply runs_ret; try (apply runs_then, runs_bind_param);
    destruct (c_Value c) as [|s|b|z|f|nm|[|v l]|lo hi]; try apply runs_err; try apply runs_ret;
    try (apply runs_then, runs_bind_params).
  apply (runs_bind _ _ (Some [lo]) (Some [hi])); [apply runs_bind_param|]. intros p.
  apply runs_then, runs_bind_param.
Qed.

Lemma runs_where_condition :
  (forall w entity, runs (compileWhere sprint_rest entity w) (where_values entity w)) /\
  (forall c entity, runs (compileCondition sprint_rest entity c) (cond_values entity c)).
Proof.
  apply where_cond_ind.
  - intros cs op gs Hcs entity. cbn [compileWhere where_values]. apply runs_then.
    generalize (@nil string). induction Hcs as [|c cs Hc _ IH]; intros acc; [apply runs_ret|].
    apply runs_bind; [apply Hc|]. intros sql. apply IH.
  - intros f op v nt sq entity. cbn [compileCondition cond_values].
    destruct (String.eqb f ""); [|apply runs_leaf]. unfold compileTextSearch.
    destruct (TSVColumns entity) as [|[k tsv] l]; [apply runs_err | apply runs_then, runs_bind_param].
  - intros f op v nt sq w Hw entity. cbn [compileCondition cond_values]. apply runs_then, Hw.
Qed.

Lemma runs_opt_where w entity : runs (opt_compileWhere sprint_rest entity w) (opt_where_values entity w).
Proof. destruct w; [apply runs_where_condition | apply runs_ret]. Qed.

Lemma runs_soft_where w entity :
  runs (compileWhereWithSoftDelete sprint_rest w entity) (opt_where_values entity w).
Proof.
  unfold compileWhereWithSoftDelete. rewrite <- (ocat_nil_r (opt_where_values entity w)).
  apply runs_bind; [apply runs_opt_where|]. intros sql. cbv zeta.
  destruct (if String.eqb (SoftDelete entity) "" then _ else _) as [|s [|s2 l]]; apply runs_ret.
Qed.

Lemma runs_sets us : forall entity acc, runs (compile_sets entity us acc) (Some (map u_Value us)).
Proof.
  induction us as [|u us IH]; intros entity acc; [apply runs_ret|]. cbn [compile_sets map].
  apply (runs_bind _ _ (Some [u_Value u]) (Some (map u_Value us))); [apply runs_bind_param|].
  intros p. apply IH.
Qed.

Lemma runs_compile_sql q c : 
  match query_values (entities c) q with
  | Some vs => exists a k,
      compile_sql sprint_rest q c = (mkCompiler (entities c) (params c ++ vs)%list k, Ok a)
  | None => exists c' e, compile_sql sprint_rest q c = (c', Err e) /\ entities c' = entities c
  end.
Proof.
  unfold query_values, compile_sql.
  destruct (getEntity (entities c) (q_Entity q)) as [e|] eqn:E.
  - destruct (q_Type q); unfold compileSelect, compileCount, compileAggregateFunc, compileUpdate,
      compileDelete, with_entity; rewrite E;
      try (match goal with |- context [se_bind ?m ?f c] =>
             apply (runs_then m _ _ (runs_soft_where _ _) c) end).
    + match goal with |- context [se_bind ?m ?f c] =>
        refine (runs_bind m f _ _ (runs_soft_where _ _) _ c) end.
      intros whereSQL. apply runs_then. destruct (q_Having q) as [h|]; [|apply runs_ret].
      apply runs_then, runs_where_condition.
    + match goal with |- context [se_bind ?m ?f c] =>
        refine (runs_bind m f _ _ (runs_sets _ _ _) _ c) end.
      intros sets. apply runs_then, runs_soft_where.
  - destruct (q_Type q); unfold compileSelect, compileCount, compileAggregateFunc, compileUpdate,
      compileDelete, with_entity; rewrite E; eauto.
Qed.
End Values.

(** ** Specification: reading a quoted identifier back

    The database's reading of a quoted, possibly qualified name: the parts
    between quotes, with a doubled quote for a quote. *)
Fixpoint read_parts (part : string) (s : string) : option (list string) :=
  match s with
  | EmptyString => None
  | String c s' =>
      if Ascii.eqb c dquote then
        match s' with
        | EmptyString => Some [part]
        | String c1 s1 =>
            if Ascii.eqb c1 dquote then read_parts (part +:+ String dquote "") s1
            else match s1 with
                 | String c2 s2 => if Ascii.eqb c1 "." && Ascii.eqb c2 dquote
                                   then cons part <$> read_parts "" s2 else None
                 | EmptyString => None
                 end
        end
      else read_parts (part +:+ String c "") s'
  end.

Definition read_ident (s : string) : option (list string) :=
  match s with
  | String c s' => if Ascii.eqb c dquote then read_parts "" s' else None
  | EmptyString => None
  end.

Lemma read_parts_quote p : forall acc r,
  match r with String c _ => Ascii.eqb c dquote = false | EmptyString => True end ->
  read_parts acc (ReplaceAll p dquote (String dquote (String dquote "")) +:+ String dquote r)
  = match r with
    | EmptyString => Some [acc +:+ p]
    | String c1 (String c2 s2) =>
        if Ascii.eqb c1 "." && Ascii.eqb c2 dquote then cons (acc +:+ p) <$> read_parts "" s2 else None
    | _ => None
    end.
Proof.
  induction p as [|c p IH]; intros acc r Hr.
  - cbn. rewrite sapp_nil_r. destruct r as [|c1 s1]; [done|]. rewrite Hr. by destruct s1.
  - cbn [ReplaceAll]. destruct (ascii_eqb_spec c dquote) as [->|Hc].
    + change (read_parts (acc +:+ String dquote "")
        (ReplaceAll p dquote (String dquote (String dquote "")) +:+ String dquote r)
        = match r with
          | EmptyString => Some [acc +:+ String dquote p]
          | String c1 (String c2 s2) => if Ascii.eqb c1 "." && Ascii.eqb c2 dquote
              then cons (acc +:+ String dquote p) <$> read_parts "" s2 else None
          | _ => None
          end).
      by rewrite IH, sapp_assoc.
    + cbn [String.append read_parts]. rewrite (proj2 (Ascii.eqb_neq c dquote) Hc).
      by rewrite IH, sapp_assoc.
Qed.

Lemma read_ident_join p ps :
  read_ident (Join (map quote_part (p :: ps)) ".") = Some (p :: ps).
Proof.
  assert (H : forall ps p, Join (map quote_part (p :: ps)) "." =
    String dquote (ReplaceAll p dquote (String dquote (String dquote "")) +:+ String dquote
      (match ps with [] => "" | p' :: ps' => String "." (Join (map quote_part (p' :: ps')) ".") end))).
  { clear. intros [|p' ps] p; [done|]. cbn [map]. 
    change (Join (quote_part p :: quote_part p' :: map quote_part ps) ".")
      with (quote_part p +:+ "." +:+ Join (map quote_part (p' :: ps)) ".").
    unfold quote_part at 1. cbn. by rewrite sapp_assoc. }
  rewrite H. cbn [read_ident]. rewrite Ascii.eqb_refl. revert p.
  induction ps as [|p' ps IH]; intros p; rewrite read_parts_quote by done; [done|].
  rewrite H. cbn [String.append]. rewrite !Ascii.eqb_refl. cbn [andb]. by rewrite IH.
Qed.

Lemma Split_no_sep sep s : str_contains sep s = false -> Split sep s = [s].
Proof.
  induction s as [|c s IH]; [done|]. cbn. intros [H1 H2]%orb_false_iff. by rewrite H1, IH.
Qed.

Lemma Split_cons sep s : exists p ps, Split sep s = p :: ps.
Proof.
  induction s as [|c s (p & ps & E)]; cbn; [eauto|]. rewrite E. destruct (Ascii.eqb c sep); eauto.
Qed.

(** The guard of a soft-deleted entity. *)
Definition soft_guard (whereSQL guard : string) : string :=
  if String.eqb whereSQL "" then guard
  else "(" +:+ whereSQL +:+ ") AND (" +:+ guard +:+ ")".

(** The text of a statement up to its WHERE; [sets] is the text of an UPDATE's
    assignments. *)
Definition statement_head (entity : EntityMeta) (q : Query) (sets : string) : string :=
  match q_Type q with
  | QuerySelect => "SELECT " +:+ match q_Fields q with [] => "*" | fs => Join (map (qcol entity) fs) ", " end
                   +:+ " FROM " +:+ quoteIdent (TableName entity)
  | QueryCount => "SELECT COUNT(*) FROM " +:+ quoteIdent (TableName entity)
  | QueryUpdate => "UPDATE " +:+ quoteIdent (TableName entity) +:+ " SET " +:+ sets
  | QueryDelete => "UPDATE " +:+ quoteIdent (TableName entity) +:+ " SET "
                   +:+ quoteIdent (SoftDelete entity) +:+ " = NOW()"
  | t => "SELECT " +:+ funcName t +:+ "(" +:+ qcol entity (q_AggField q) +:+ ") FROM "
         +:+ quoteIdent (TableName entity)
  end.

Lemma soft_where_ok sr w entity c c' sql : SoftDelete entity <> "" ->
  compileWhereWithSoftDelete sr w entity c = (c', Ok sql) ->
  exists whr, opt_compileWhere sr entity w c = (c', Ok whr) /\
    sql = soft_guard whr (quoteIdent (SoftDelete entity) +:+ " IS NULL") /\
    where_part sql = " WHERE " +:+ sql.
Proof.
  intros Hsd H. apply se_bind_ok in H as (c1 & whr & H1 & H2). cbv zeta in H2.
  destruct (String.eqb_spec (SoftDelete entity) ""); [done|].
  assert (Hne : forall g, String.eqb (quoteIdent g +:+ " IS NULL") "" = false).
  { intros g. unfold quoteIdent, quote_part. destruct (str_contains "." g); [|done].
    destruct (Split_cons "."%char g) as (p & [|p' ps] & ->); done. }
  exists whr. unfold soft_guard, keep in *. destruct (String.eqb whr "") eqn:E; cbn [app] in H2.
  - injection H2 as -> <-. unfold where_part. by rewrite Hne.
  - injection H2 as -> <-. cbn. rewrite !sapp_assoc. cbn. by rewrite !sapp_assoc.
Qed.

(** ** Properties *)

Lemma compiled_placeholders (sprint_rest : Value -> string) (c c' : SQLCompiler) (q : Query)
    (r : CompiledQuery) (H : Compile sprint_rest q c = (c', Ok r)) :
  placeholders (SQL r) = Some (map Itoa (seqZ 1 (Z.of_nat (length (Params r))))).
Proof.
  unfold Compile in H.
  destruct (compile_sql sprint_rest q (mkCompiler (entities c) [] 0)) as [c1 [sql|]] eqn:E; [|done].
  injection H as <- <-. apply emits_compile_sql in E as (vs & -> & _ & _ & Hs); [|done].
  cbn [SQL Params params app]. specialize (Hs "" I). rewrite sapp_nil_r in Hs.
  unfold placeholders. rewrite Hs. cbn. by rewrite app_nil_r.
Qed.

(** C2: whatever names and values a query carries, the compiled statement
    has balanced quotes, no statement separator and no comment outside them,
    and its placeholders outside quotes are [$1], [$2], ... in order, one per
    value of [Params]: names cannot escape their quotes and values never
    enter the text. *)
Theorem compile_placeholders (sprint_rest : Value -> string) (c c' : SQLCompiler) (q : Query)
    (r : CompiledQuery) (H : Compile sprint_rest q c = (c', Ok r)) :
  placeholders (SQL r) = Some (map Itoa (seqZ 1 (Z.of_nat (length (Params r))))).
Proof. by apply (compiled_placeholders sprint_rest c c' q). Qed.

Lemma compiled_values (sprint_rest : Value -> string) (c : SQLCompiler) (q : Query) :
  match query_values sprint_rest (entities c) q with
  | Some vs => exists c' r, Compile sprint_rest q c = (c', Ok r) /\ Params r = vs
  | None => exists c' e, Compile sprint_rest q c = (c', Err e)
  end.
Proof.
  unfold Compile. pose proof (runs_compile_sql sprint_rest q (mkCompiler (entities c) [] 0)) as H.
  cbn [entities params app] in H. destruct (query_values sprint_rest (entities c) q) as [vs|].
  - destruct H as (a & k & ->). by do 2 eexists.
  - destruct H as (c' & e & -> & _). eauto.
Qed.

(** Compiling keeps the entities, also when it fails. *)
Lemma Compile_entities (sprint_rest : Value -> string) (c : SQLCompiler) (q : Query) : entities (Compile sprint_rest q c).1 = entities c.
Proof.
  unfold Compile. pose proof (runs_compile_sql sprint_rest q (mkCompiler (entities c) [] 0)) as H. cbn [entities params] in H.
  destruct (query_values sprint_rest (entities c) q) as [vs|].
  - destruct H as (a & k & ->). done.
  - by destruct H as (c' & e & -> & He).
Qed.

(** [Compile] succeeds exactly on the queries the specification admits
    (known entity; list operands for IN, ranges for BETWEEN, a text-search
    column for text search), and then its parameters are the query's operands
    in reading order, whatever an earlier [Compile] left in the compiler. *)
Theorem compile_outcome (sprint_rest : Value -> string) (c : SQLCompiler) (q : Query) :
  match query_values sprint_rest (entities c) q with
  | Some vs => exists c' r, Compile sprint_rest q c = (c', Ok r) /\ Params r = vs
  | None => exists c' e, Compile sprint_rest q c = (c', Err e)
  end.
Proof. apply compiled_values. Qed.

Lemma compile_placeholders_witness :
  let es := [("User", mkEntity "app.users" "id" "deleted_at" [("name", String dquote "; drop--")]
                        [("meta", true)] [] [])] in
  let cond f op v := mkCond f op v true None None in
  let q := set_Where (Some (mkWhere [cond "name" OpEquals (VStr "x'; $9"); cond "meta" OpEquals VNil;
                                     cond "$7" OpIn (VList [VInt 1; VInt 2])] LogicalOr []))
             (set_Limit (-3) (set_Entity "user" (empty_query QuerySelect))) in
  match Compile (fun _ => "") q (mkCompiler es [VNil] 41) with
  | (_, Ok r) => placeholders (SQL r) = Some ["1"; "2"; "3"; "4"]
  | _ => False
  end.
Proof.
  intros es cond q. destruct (Compile _ q _) as [c' [r|e]] eqn:E; [|vm_compute in E; discriminate].
  rewrite (compile_placeholders _ _ _ _ _ E).
  assert (length (Params r) = 4%nat) as ->; [|reflexivity].
  vm_compute in E. injection E as _ <-. reflexivity.
Defined.

(** on an entity with a soft-delete column, every kind of query is
    guarded by that column being NULL, conjoined to the parenthesized where
    condition, and a DELETE only marks rows: it is an UPDATE setting the
    column to NOW(). *)
Theorem soft_delete_guard (sprint_rest : Value -> string) (c c' : SQLCompiler) (q : Query)
    (r : CompiledQuery) (entity : EntityMeta)
    (H : Compile sprint_rest q c = (c', Ok r))
    (He : getEntity (entities c) (q_Entity q) = Some entity) (Hsd : SoftDelete entity <> "") :
  exists sets whr tail c1 c2,
    SQL r = statement_head entity q sets +:+ " WHERE " +:+
            soft_guard whr (quoteIdent (SoftDelete entity) +:+ " IS NULL") +:+ tail /\
    opt_compileWhere sprint_rest entity (q_Where q) c1 = (c2, Ok whr) /\
    (q_Type q <> QuerySelect -> tail = "").
Proof.
  unfold Compile in H.
  destruct (compile_sql sprint_rest q (mkCompiler (entities c) [] 0)) as [c1 [sql|]] eqn:E; [|done].
  injection H as <- <-. cbn [SQL]. unfold compile_sql in E.
  unfold statement_head, compileSelect, compileCount, compileAggregateFunc, compileUpdate,
    compileDelete, with_entity in *.
  destruct (q_Type q); cbn [entities] in E; rewrite He in E;
    try (destruct (String.eqb_spec (SoftDelete entity) ""); [done|]);
    apply se_bind_ok in E as (s1 & w & Hw & E);
    try (apply soft_where_ok in Hw as (whr & Hw & -> & Hp); [|done];
         injection E as _ <-; rewrite Hp;
         exists "", whr, "", (mkCompiler (entities c) [] 0), s1; rewrite !sapp_nil_r;
         split; [by (rewrite ?sapp_assoc; cbn; rewrite ?sapp_assoc) | done]).
  - apply soft_where_ok in Hw as (whr & Hw & -> & Hp); [|done].
    apply se_bind_ok in E as (s2 & hav & _ & E). injection E as _ <-. rewrite Hp.
    exists "", whr, (list_part " GROUP BY " (map (qcol entity) (q_GroupBy q)) +:+ hav +:+
      list_part " ORDER BY " (map (order_sql entity) (q_OrderBy q)) +:+
      int_part " LIMIT " (q_Limit q) +:+ int_part " OFFSET " (q_Offset q)),
      (mkCompiler (entities c) [] 0), s1.
    split; [cbn; by rewrite !sapp_assoc|]. split; [exact Hw | done].
  - apply se_bind_ok in E as (s2 & w2 & Hw2 & E).
    apply soft_where_ok in Hw2 as (whr & Hw2 & -> & Hp); [|done]. injection E as _ <-. rewrite Hp.
    exists (Join w ", "), whr, "", s1, s2. rewrite !sapp_nil_r.
    split; [by rewrite ?sapp_assoc|]. split; [exact Hw2 | done].
Qed.

Lemma soft_delete_guard_witness :
  let entity := mkEntity "users" "id" "deleted_at" [] [] [] [] in
  let q := set_Where (Some (mkWhere [mkCond "a" OpEquals (VInt 1) false None None;
                                     mkCond "b" OpEquals (VInt 1) false None None] LogicalOr []))
             (set_Entity "User" (empty_query QueryDelete)) in
  let c := mkCompiler [("User", entity)] [] 0 in
  match Compile (fun _ => "") q c with
  | (_, Ok r) => exists sets whr tail c1 c2,
      SQL r = statement_head entity q sets +:+ " WHERE " +:+
              soft_guard whr (quoteIdent "deleted_at" +:+ " IS NULL") +:+ tail /\
      opt_compileWhere (fun _ => "") entity (q_Where q) c1 = (c2, Ok whr) /\
      (q_Type q <> QuerySelect -> tail = "")
  | _ => False
  end.
Proof.
  intros entity q c. destruct (Compile _ q c) as [c' [r|e]] eqn:E; [|vm_compute in E; discriminate].
  apply (soft_delete_guard (fun _ => "") c c' q r entity E); [reflexivity | discriminate].
Defined.

(** a quoted identifier reads back as the dotted parts of the name it was
    made from, whatever bytes (quotes included) the name contains. *)
Theorem quoteIdent_roundtrip (ident : string) :
  read_ident (quoteIdent ident) = Some (Split "."%char ident).
Proof.
  unfold quoteIdent. destruct (str_contains "." ident) eqn:E.
  - destruct (Split_cons "."%char ident) as (p & ps & ->). apply read_ident_join.
  - rewrite (Split_no_sep _ _ E). apply (read_ident_join ident []).
Qed.
