(* ===== verification/RbacPolicy.v ===== *)
(** Permissions, roles and policies: [internal/rbac/rbac.go] (types and
    [Matches]) and [internal/rbac/policy.go].

    A [map[string]*Role] is a [gmap string Role].  [detectCycle] shares its
    [visited] map over all its calls, so it is threaded; its recursion takes
    fuel, and [detect_total] shows that the number of roles suffices. *)

From Stdlib Require Import ZArith Lia Ascii.
From stdpp Require Import base strings list gmap relations.
From S2P Require Import Prelude GoStrings.

#[local] Open Scope string_scope.
#[local] Open Scope list_scope.

Abbreviation Permission := string (only parsing).

(** [strings.SplitN s ":" 2]: the part before the first separator, and the rest if there is one. *)
Fixpoint SplitN2 (sep : ascii) (s : string) : string * option string :=
  match s with
  | EmptyString => (EmptyString, None)
  | String c s' =>
      if Ascii.eqb c sep then (EmptyString, Some s')
      else let '(a, b) := SplitN2 sep s' in (String c a, b)
  end.

Definition Resource (p : Permission) : string := fst (SplitN2 ":"%char p).
Definition Action (p : Permission) : string :=
  match snd (SplitN2 ":"%char p) with Some a => a | None => "" end.

Definition Matches (p target : Permission) : bool :=
  let resourceMatch := String.eqb (Resource p) "*" || String.eqb (Resource p) (Resource target) in
  let actionMatch := String.eqb (Action p) "*" || String.eqb (Action p) (Action target) in
  resourceMatch && actionMatch.

Record Role := mkRole {
  Name : string;
  Description : string;
  Permissions : list Permission;
  Parents : list string
}.

Inductive RbacError :=
| ErrRoleNotFound | ErrRoleAlreadyExists | ErrInvalidPermission | ErrCyclicInheritance
| ErrInvalidRoleName.

#[export] Instance RbacError_eq_dec : EqDecision RbacError.
Proof. solve_decision. Defined.

Definition DefaultRoles : list Role :=
  [ mkRole "admin" "Full system access" ["*:*"] [];
    mkRole "editor" "Can read and modify resources"
      ["configs:read"; "configs:create"; "configs:update"; "configs:delete"; "executions:read";
       "executions:create"; "deployments:read"; "deployments:create"] ["viewer"];
    mkRole "viewer" "Read-only access"
      ["configs:read"; "executions:read"; "deployments:read"; "health:read"] [] ].

Record Policy := mkPolicy {
  Roles : gmap string Role;
  p_Description : string;
  Version : string
}.

Definition set_Roles (m : gmap string Role) (p : Policy) : Policy :=
  mkPolicy m (p_Description p) (Version p).

Definition NewPolicy : Policy := mkPolicy ∅ "" "1.0".

Definition load_roles (rs : list Role) (m : gmap string Role) : gmap string Role :=
  fold_left (fun m r => <[Name r := r]> m) rs m.

Definition NewDefaultPolicy : Policy := set_Roles (load_roles DefaultRoles ∅) NewPolicy.

(** [strings.ContainsAny(name, " \t\n\r")] *)
Definition is_blank (c : ascii) : bool :=
  Ascii.eqb c " " || Ascii.eqb c tab || Ascii.eqb c newline || Ascii.eqb c creturn.

Definition validateRoleName (name : string) : result RbacError unit :=
  if String.eqb name "" then Err ErrInvalidRoleName
  else if str_forall (fun c => negb (is_blank c)) name then Ok tt
  else Err ErrInvalidRoleName.

Definition validatePermission (perm : Permission) : result RbacError unit :=
  if String.eqb perm "" then Err ErrInvalidPermission
  else match Split ":"%char perm with
       | [r; a] => if String.eqb r "" || String.eqb a "" then Err ErrInvalidPermission else Ok tt
       | _ => Err ErrInvalidPermission
       end.

Fixpoint validatePermissions (perms : list Permission) : result RbacError unit :=
  match perms with
  | [] => Ok tt
  | perm :: perms' =>
      match validatePermission perm with
      | Err e => Err e
      | Ok _ => validatePermissions perms'
      end
  end.

(** [detectCycle]: [Some (true, v)] is [ErrCyclicInheritance], [Some (false, v)] is [nil], with
    the [visited] map [v] left behind; [None] only when the fuel runs out. *)
Fixpoint detectCycle (n : nat) (roles : gmap string Role) (roleName : string)
    (parents : list string) (visited : gset string) : option (bool * gset string) :=
  match n with
  | O => None
  | S n' =>
      (fix loop (parents : list string) (visited : gset string) : option (bool * gset string) :=
         match parents with
         | [] => Some (false, visited)
         | parent :: ps =>
             if decide (parent = roleName) then Some (true, visited)
             else if decide (parent ∈ visited) then loop ps visited
             else
               let visited := {[parent]} ∪ visited in
               match roles !! parent with
               | Some parentRole =>
                   match detectCycle n' roles roleName (Parents parentRole) visited with
                   | Some (false, v) => loop ps v
                   | r => r
                   end
               | None => loop ps visited
               end
         end) parents visited
  end.

Definition cycle_fuel (roles : gmap string Role) : nat := S (size roles).

Definition checkCyclicInheritance (p : Policy) (roleName : string) (parents : list string) :
    option (result RbacError unit) :=
  match detectCycle (cycle_fuel (Roles p)) (Roles p) roleName parents ∅ with
  | Some (true, _) => Some (Err ErrCyclicInheritance)
  | Some (false, _) => Some (Ok tt)
  | None => None
  end.

(** The common end of [AddRole] and [UpdateRole]. *)
Definition store_role (role : Role) (p : Policy) : option (Policy * result RbacError unit) :=
  match validatePermissions (Permissions role) with
  | Err e => Some (p, Err e)
  | Ok _ =>
      match checkCyclicInheritance p (Name role) (Parents role) with
      | Some (Ok _) => Some (set_Roles (<[Name role := role]> (Roles p)) p, Ok tt)
      | Some (Err e) => Some (p, Err e)
      | None => None
      end
  end.

Definition AddRole (role : Role) (p : Policy) : option (Policy * result RbacError unit) :=
  match validateRoleName (Name role) with
  | Err e => Some (p, Err e)
  | Ok _ => match Roles p !! Name role with
            | Some _ => Some (p, Err ErrRoleAlreadyExists)
            | None => store_role role p
            end
  end.

Definition UpdateRole (role : Role) (p : Policy) : option (Policy * result RbacError unit) :=
  match validateRoleName (Name role) with
  | Err e => Some (p, Err e)
  | Ok _ => match Roles p !! Name role with
            | None => Some (p, Err ErrRoleNotFound)
            | Some _ => store_role role p
            end
  end.

Definition RemoveRole (name : string) (p : Policy) : Policy * result RbacError unit :=
  match Roles p !! name with
  | None => (p, Err ErrRoleNotFound)
  | Some _ => (set_Roles (delete name (Roles p)) p, Ok tt)
  end.

Definition Policy_GetRole (name : string) (p : Policy) : result RbacError Role :=
  match Roles p !! name with
  | None => Err ErrRoleNotFound
  | Some role => Ok role
  end.

(** The order of [ListRoles] is the iteration order of the map. *)
Definition Policy_ListRoles (p : Policy) : list Role := map snd (map_to_list (Roles p)).

(** ** The role builder *)
Record RoleBuilder := mkRoleBuilder { role : Role }.

Definition NewRoleBuilder (name : string) : RoleBuilder := mkRoleBuilder (mkRole name "" [] []).
Definition RoleBuilder_Description (desc : string) (b : RoleBuilder) : RoleBuilder :=
  mkRoleBuilder (mkRole (Name (role b)) desc (Permissions (role b)) (Parents (role b))).
Definition RoleBuilder_Permissions (perms : list string) (b : RoleBuilder) : RoleBuilder :=
  mkRoleBuilder (mkRole (Name (role b)) (Description (role b)) (Permissions (role b) ++ perms)
                   (Parents (role b))).
Definition RoleBuilder_Permission (perm : string) (b : RoleBuilder) : RoleBuilder :=
  RoleBuilder_Permissions [perm] b.
Definition RoleBuilder_Inherits (parents : list string) (b : RoleBuilder) : RoleBuilder :=
  mkRoleBuilder (mkRole (Name (role b)) (Description (role b)) (Permissions (role b))
                   (Parents (role b) ++ parents)).
Definition Build (b : RoleBuilder) : Role := role b.

(** ** Specification: the inheritance graph

    An edge leads from a stored role to each of its parents. *)
Definition inherits (roles : gmap string Role) (r parent : string) : Prop :=
  exists role, roles !! r = Some role /\ In parent (Parents role).

Definition acyclic (roles : gmap string Role) : Prop := forall r, ~ tc (inherits roles) r r.

(** Some parent of [ps] is, or inherits from, [target]. *)
Definition reaches (roles : gmap string Role) (ps : list string) (target : string) : Prop :=
  exists p, In p ps /\ rtc (inherits roles) p target.

(** ** Lemmas on the graph *)

(** A set closed under the edges contains what its members reach. *)
Lemma closed_rtc (R : relation string) (v : gset string) x y :
  (forall a b, a ∈ v -> R a b -> b ∈ v) -> rtc R x y -> x ∈ v -> y ∈ v.
Proof. intros Hc. induction 1 as [|x z y Hxz _ IH]; [done|]. intros Hx. eauto. Qed.

(** The number of stored roles that are not visited yet bounds the depth of
    the traversals. *)
Definition unvisited (roles : gmap string Role) (v : gset string) : nat := size (dom roles ∖ v).

Lemma unvisited_mono roles (v v' : gset string) :
  v ⊆ v' -> (unvisited roles v' <= unvisited roles v)%nat.
Proof. intros H. apply subseteq_size. set_solver. Qed.

Lemma unvisited_add roles v r role : roles !! r = Some role -> r ∉ v ->
  (unvisited roles ({[r]} ∪ v) < unvisited roles v)%nat.
Proof.
  intros Hr Hv. apply subset_size. apply elem_of_dom_2 in Hr. split; [set_solver|].
  intros H. assert (Hin : r ∈ dom roles ∖ v) by set_solver. apply H in Hin. set_solver.
Qed.

Lemma unvisited_empty roles : unvisited roles ∅ = size roles.
Proof. unfold unvisited. rewrite difference_empty_L. apply size_dom. Qed.

(** What a run of [detectCycle] from [v] that ends with [v'] has done:
    every new name was looked at, is not the target, and has all its parents
    visited. *)
Definition covered (roles : gmap string Role) (t : string) (v v' : gset string) : Prop :=
  v ⊆ v' /\ (t ∉ v -> t ∉ v') /\
  forall a b, a ∈ v' -> a ∉ v -> inherits roles a b -> b ∈ v'.

Lemma covered_refl roles t v : covered roles t v v.
Proof. split_and!; [done | done | set_solver]. Qed.

Lemma covered_trans roles t v1 v2 v3 :
  covered roles t v1 v2 -> covered roles t v2 v3 -> covered roles t v1 v3.
Proof.
  intros (H1 & H2 & H3) (H4 & H5 & H6). split_and!; [set_solver | auto |].
  intros a b Ha Hv Hab. destruct (decide (a ∈ v2)); [|by eapply H6].
  apply H4. by eapply H3.
Qed.

Lemma covered_add roles t v x v' :
  x <> t -> (forall b, inherits roles x b -> b ∈ v') ->
  covered roles t ({[x]} ∪ v) v' -> covered roles t v v'.
Proof.
  intros Hx Hb (H1 & H2 & H3). split_and!; [set_solver | intros Ht; apply H2; set_solver |].
  intros a b Ha Hv Hab. destruct (decide (a = x)) as [->|]; [by apply Hb|].
  eapply H3; [exact Ha | set_solver | done].
Qed.

Lemma detectCycle_spec roles t n : forall ps v, (unvisited roles v < n)%nat ->
  match detectCycle n roles t ps v with
  | Some (true, _) => reaches roles ps t
  | Some (false, v') => covered roles t v v' /\ forall p, In p ps -> p ∈ v' /\ p <> t
  | None => False
  end.
Proof.
  induction n as [|n IH]; intros ps v Hn; [lia|]. cbn [detectCycle].
  revert v Hn. induction ps as [|p ps IHps]; intros v Hn.
  - split; [apply covered_refl | done].
  - destruct (decide (p = t)) as [->|Hpt]; [exists t; split; [by left | apply rtc_refl]|].
    assert (Hlift : reaches roles ps t -> reaches roles (p :: ps) t).
    { intros (x & Hx & Hr). exists x. split; [by right | done]. }
    destruct (decide (p ∈ v)) as [Hv|Hv].
    { specialize (IHps v Hn). destruct (_ ps v) as [[[|] v']|]; [by apply Hlift | | done].
      destruct IHps as [Hc Hps]. split; [done|]. intros x [<-|Hx]; [|auto].
      split; [by apply Hc | done]. }
    destruct (roles !! p) as [role|] eqn:Ep; cbv zeta.
    + pose proof (unvisited_add roles v p role Ep Hv) as Hlt.
      specialize (IH (Parents role) ({[p]} ∪ v) ltac:(lia)).
      destruct (detectCycle n roles t (Parents role) ({[p]} ∪ v)) as [[[|] v1]|]; [| | done].
      { destruct IH as (x & Hx & Hr). exists p. split; [by left|]. eapply rtc_l; [|exact Hr].
        by exists role. }
      destruct IH as [Hc1 Hp1].
      assert (Hcp : covered roles t v v1).
      { eapply covered_add; [done | | done]. intros b (role' & E & Hb).
        rewrite Ep in E. injection E as <-. by apply Hp1. }
      assert (Hmono : (unvisited roles v1 < S n)%nat).
      { pose proof (unvisited_mono roles v v1 (proj1 Hcp)). lia. }
      specialize (IHps v1 Hmono). destruct (_ ps v1) as [[[|] v2]|]; [by apply Hlift | | done].
      destruct IHps as [Hc2 Hps]. split; [by eapply covered_trans|].
      intros x [<-|Hx]; [|auto]. split; [|done]. apply Hc2, Hc1. set_solver.
    + assert (Hcp : covered roles t v ({[p]} ∪ v)).
      { eapply covered_add; [done | | apply covered_refl]. intros b (role & E & _). congruence. }
      assert (Hmono : (unvisited roles ({[p]} ∪ v) < S n)%nat).
      { pose proof (unvisited_mono roles v ({[p]} ∪ v) (proj1 Hcp)). lia. }
      specialize (IHps _ Hmono). destruct (_ ps ({[p]} ∪ v)) as [[[|] v2]|]; [by apply Hlift | | done].
      destruct IHps as [Hc2 Hps]. split; [by eapply covered_trans|].
      intros x [<-|Hx]; [|auto]. split; [|done]. apply Hc2. set_solver.
Qed.

(** [checkCyclicInheritance] returns, and errs exactly when a parent reaches the role. *)
Lemma checkCyclicInheritance_spec p t ps :
  (exists r, checkCyclicInheritance p t ps = Some r) /\
  (checkCyclicInheritance p t ps = Some (Ok tt) <-> ~ reaches (Roles p) ps t).
Proof.
  unfold checkCyclicInheritance.
  pose proof (detectCycle_spec (Roles p) t (cycle_fuel (Roles p)) ps ∅) as H.
  rewrite unvisited_empty in H. specialize (H ltac:(unfold cycle_fuel; lia)).
  destruct (detectCycle _ _ _ _ _) as [[[|] v]|]; [| | done].
  - split; [eauto|]. split; [discriminate | done].
  - split; [eauto|]. split; [|done]. intros _ (x & Hx & Hr). destruct H as [(_ & Ht & Hc) Hp].
    apply Ht; [set_solver|]. eapply closed_rtc; [|exact Hr | by apply Hp].
    intros a b Ha Hab. eapply Hc; [exact Ha | set_solver | done].
Qed.

Lemma inherits_insert_ne roles r role a b :
  a <> r -> inherits (<[r := role]> roles) a b <-> inherits roles a b.
Proof. intros H. unfold inherits. by rewrite lookup_insert_ne. Qed.

(** A path of the updated graph that ends at [r] is a path of the old one,
    or already passes through [r]. *)
Lemma rtc_insert roles r role a c : c = r ->
  rtc (inherits (<[r := role]> roles)) a c <-> rtc (inherits roles) a c.
Proof.
  intros Hc. split.
  - induction 1 as [|a b c Hab _ IH]; [done|]. specialize (IH Hc).
    destruct (decide (a = r)) as [->|Hne]; [by subst|]. eapply rtc_l; [|exact IH].
    by apply inherits_insert_ne in Hab.
  - induction 1 as [|a b c Hab _ IH]; [done|]. specialize (IH Hc).
    destruct (decide (a = r)) as [->|Hne]; [by subst|]. eapply rtc_l; [|exact IH].
    by apply inherits_insert_ne.
Qed.

(** A non-empty path of the updated graph is one of the old graph, or passes
    through the updated role. *)
Lemma tc_insert roles r role a b : tc (inherits (<[r := role]> roles)) a b ->
  tc (inherits roles) a b \/
  (rtc (inherits (<[r := role]> roles)) a r /\ tc (inherits (<[r := role]> roles)) r b).
Proof.
  induction 1 as [a b Hab | a b c Hab Hbc IH].
  - destruct (decide (a = r)) as [->|Hne].
    + right. split; [apply rtc_refl | by apply tc_once].
    + left. apply tc_once. by apply inherits_insert_ne in Hab.
  - destruct (decide (a = r)) as [->|Hne].
    + right. split; [apply rtc_refl | by eapply tc_l].
    + destruct IH as [IH|[H1 H2]].
      * left. eapply tc_l; [|exact IH]. by apply inherits_insert_ne in Hab.
      * right. split; [by eapply rtc_l | done].
Qed.

(** Storing a role keeps the graph acyclic exactly when no parent reaches it. *)
Lemma acyclic_insert roles role : acyclic roles ->
  acyclic (<[Name role := role]> roles) <-> ~ reaches roles (Parents role) (Name role).
Proof.
  intros Hac. split.
  - intros H (p & Hp & Hr). apply (H (Name role)). eapply tc_rtc_r.
    + apply tc_once. exists role. split; [by rewrite lookup_insert_eq | exact Hp].
    + by apply rtc_insert.
  - intros Hn.
    assert (Hself : ~ tc (inherits (<[Name role := role]> roles)) (Name role) (Name role)).
    { intros H. apply Hn. inversion H as [x y Hxy | x y z Hxy Hyz]; subst;
        destruct Hxy as (role' & E & Hin); rewrite lookup_insert_eq in E; injection E as <-.
      - exists (Name role). split; [done | apply rtc_refl].
      - exists y. split; [done|]. apply (rtc_insert _ (Name role) role); [done|]. by apply tc_rtc. }
    intros a Ha. destruct (tc_insert _ _ _ _ _ Ha) as [H|[H1 H2]]; [by apply (Hac a)|].
    apply Hself. by eapply tc_rtc_r.
Qed.

(** ** Lemmas on permissions *)
Lemma SplitN2_app sep a b : str_contains sep a = false ->
  SplitN2 sep (a +:+ String sep b) = (a, Some b).
Proof.
  induction a as [|c a IH]; cbn; [by rewrite Ascii.eqb_refl|].
  intros [-> H]%orb_false_iff. by rewrite (IH H).
Qed.

(** ** Properties *)

(** The checks [AddRole] ([add = true]) and [UpdateRole] make before they look
    for cycles. *)
Definition admissible (add : bool) (r : Role) (p : Policy) : Prop :=
  validateRoleName (Name r) = Ok tt /\
  (if add then Roles p !! Name r = None else is_Some (Roles p !! Name r)) /\
  validatePermissions (Permissions r) = Ok tt.

Lemma result_unit_cases {E} (r : result E unit) : r = Ok tt \/ exists e, r = Err e.
Proof. destruct r as [[]|e]; eauto. Qed.

Lemma validate_not_cyclic r p :
  validateRoleName r <> Err ErrCyclicInheritance /\
  validatePermissions p <> Err ErrCyclicInheritance.
Proof.
  split.
  - unfold validateRoleName. by repeat case_match.
  - induction p as [|x p IH]; cbn; [done|].
    destruct (validatePermission x) eqn:E; [done|]. intros [= ->]. revert E.
    unfold validatePermission. by repeat case_match.
Qed.

Lemma store_role_spec r p : acyclic (Roles p) ->
  exists p' res, store_role r p = Some (p', res) /\ acyclic (Roles p') /\
    match res with
    | Ok _ => Roles p' = <[Name r := r]> (Roles p) /\ validatePermissions (Permissions r) = Ok tt
    | Err e => p' = p /\ (e = ErrCyclicInheritance <->
        validatePermissions (Permissions r) = Ok tt /\ ~ acyclic (<[Name r := r]> (Roles p)))
    end.
Proof.
  intros Hac. unfold store_role.
  destruct (result_unit_cases (validatePermissions (Permissions r))) as [E|[e E]]; rewrite E.
  - destruct (checkCyclicInheritance_spec p (Name r) (Parents r)) as [[res Hres] Hok].
    rewrite Hres in Hok |- *. destruct (result_unit_cases res) as [->|[e ->]].
    + do 2 eexists. split; [done|]. cbn. split; [|done].
      apply acyclic_insert; [done|]. by apply Hok.
    + do 2 eexists. split; [done|]. split; [done|]. split; [done|].
      assert (e = ErrCyclicInheritance) as ->.
      { unfold checkCyclicInheritance in Hres. repeat case_match; by simplify_eq. }
      split; [|done]. intros _. split; [done|]. rewrite acyclic_insert by done. intros H.
      apply Hok in H. discriminate.
  - do 2 eexists. split; [done|]. split; [done|]. split; [done|].
    split; [intros ->; by destruct (proj2 (validate_not_cyclic "" _) E) | intros [? _]; congruence].
Qed.

(** C23: [AddRole] and [UpdateRole] return on every policy and keep the
    inheritance graph acyclic.  They refuse a role for cyclic inheritance
    exactly when it passes the other checks and storing it would create a
    cycle; a refused operation leaves the policy as it was. *)
Theorem policy_acyclic (add : bool) (r : Role) (p : Policy) (Hac : acyclic (Roles p)) :
  exists p' res, (if add then AddRole r p else UpdateRole r p) = Some (p', res) /\
    acyclic (Roles p') /\
    match res with
    | Ok _ => admissible add r p /\ Roles p' = <[Name r := r]> (Roles p)
    | Err e => p' = p /\
        (e = ErrCyclicInheritance <->
         admissible add r p /\ ~ acyclic (<[Name r := r]> (Roles p)))
    end.
Proof.
  unfold admissible.
  assert (Hno : forall e, e <> ErrCyclicInheritance ->
    ~ (validateRoleName (Name r) = Ok tt /\
       (if add then Roles p !! Name r = None else is_Some (Roles p !! Name r))) ->
    exists p' res, Some (p, @Err RbacError unit e) = Some (p', res) /\ acyclic (Roles p') /\
      match res with
      | Ok _ => (validateRoleName (Name r) = Ok tt /\
          (if add then Roles p !! Name r = None else is_Some (Roles p !! Name r)) /\
          validatePermissions (Permissions r) = Ok tt) /\ Roles p' = <[Name r := r]> (Roles p)
      | Err e => p' = p /\ (e = ErrCyclicInheritance <->
          (validateRoleName (Name r) = Ok tt /\
          (if add then Roles p !! Name r = None else is_Some (Roles p !! Name r)) /\
          validatePermissions (Permissions r) = Ok tt) /\ ~ acyclic (<[Name r := r]> (Roles p)))
      end).
  { intros e He Hn. do 2 eexists. split; [done|]. split; [done|]. split; [done|].
    split; [done | tauto]. }
  destruct (store_role_spec r p Hac) as (p' & res & Hs & Hac' & Hres).
  destruct (result_unit_cases (validateRoleName (Name r))) as [E|[e E]].
  - destruct add; unfold AddRole, UpdateRole; rewrite E in Hno |- *; destruct (Roles p !! Name r) as [r0|] eqn:Er;
      try (apply Hno; [done|]; intros [_ H]; by first [discriminate H | destruct H]);
      exists p', res; (split; [done|]); (split; [done|]);
      (destruct res; [destruct Hres; split_and!; eauto using mk_is_Some|]); (split; [tauto|]); destruct Hres as [_ ->]; naive_solver.
  - assert (e <> ErrCyclicInheritance) as He.
    { intros ->. by apply (proj1 (validate_not_cyclic (Name r) [])). }
    destruct add; unfold AddRole, UpdateRole; rewrite E in Hno |- *; apply Hno; naive_solver.
Qed.

Lemma acyclic_subgraph m1 m2 : (forall a b, inherits m1 a b -> inherits m2 a b) -> acyclic m2 -> acyclic m1.
Proof.
  intros Hsub H a Ha. apply (H a). exact (tc_congruence id _ _ _ Hsub Ha).
Qed.

Lemma RemoveRole_acyclic name p : acyclic (Roles p) -> acyclic (Roles (fst (RemoveRole name p))).
Proof.
  intros H. unfold RemoveRole. destruct (Roles p !! name); [|done]. cbn.
  eapply acyclic_subgraph; [|exact H]. intros a b (role & E & Hin). 
  apply lookup_delete_Some in E as [_ E]. by exists role.
Qed.

Lemma acyclic_empty : acyclic ∅.
Proof. intros a H. inversion H as [? ? (? & E & _) | ? ? ? (? & E & _)]; by rewrite lookup_empty in E. Qed.

Lemma policy_acyclic_witness :
  let base := set_Roles (load_roles [mkRole "lead" "" ["configs:read"] ["editor"]; mkRole "editor" "" [] ["viewer"]] ∅) NewPolicy in
  acyclic (Roles base) /\
  exists p' res, UpdateRole (mkRole "editor" "" ["a:b"] ["viewer"; "lead"]) base = Some (p', res) /\
    acyclic (Roles p') /\
    match res with
    | Ok _ => admissible false (mkRole "editor" "" ["a:b"] ["viewer"; "lead"]) base /\
              Roles p' = <["editor" := mkRole "editor" "" ["a:b"] ["viewer"; "lead"]]> (Roles base)
    | Err e => p' = base /\ (e = ErrCyclicInheritance <->
        admissible false (mkRole "editor" "" ["a:b"] ["viewer"; "lead"]) base /\
        ~ acyclic (<["editor" := mkRole "editor" "" ["a:b"] ["viewer"; "lead"]]> (Roles base)))
    end.
Proof.
  intros base. assert (Hac : acyclic (Roles base)).
  { apply (acyclic_insert (<["lead" := mkRole "lead" "" ["configs:read"] ["editor"]]> ∅)
      (mkRole "editor" "" [] ["viewer"])).
    - apply (acyclic_insert ∅ (mkRole "lead" "" ["configs:read"] ["editor"])); [apply acyclic_empty|].
      intros (x & [<-|[]] & H). inversion H as [|? ? ? (? & E & _)]; subst.
      by rewrite lookup_empty in E.
    - intros (x & [<-|[]] & H). inversion H as [|? ? ? (? & E & _)]; subst. vm_compute in E. discriminate. }
  split; [exact Hac|]. exact (policy_acyclic false (mkRole "editor" "" ["a:b"] ["viewer"; "lead"]) base Hac).
Defined.

(** permission matching is a preorder: a permission matches itself, and
    what a permission matches matches in turn only what the first one does,
    so a wildcard grant covers every grant it covers step by step. *)
Theorem Matches_preorder : PreOrder (fun p t => Matches p t = true).
Proof.
  split.
  - intros p. unfold Matches. by rewrite !String.eqb_refl, !orb_true_r.
  - intros p q t. unfold Matches. rewrite !andb_true_iff, !orb_true_iff, !String.eqb_eq.
    intros [H1 H2] [H3 H4]. destruct H1 as [H1|H1], H2 as [H2|H2], H3 as [H3|H3], H4 as [H4|H4];
      split; (left; congruence) || (right; congruence).
Qed.
