(* ===== verification/RbacStorage.v ===== *)
(** Role storage: [internal/rbac/storage.go].

    The Go interface [Storage] is the class [Storage]; [StorageLaws] is what
    a storage promises its clients.  [MemoryStorage] implements it, and
    [CachedStorage] implements it over any backend that does, as long as all
    writes go through the wrapper.  [time.Now()] is an argument of the
    operations that read the clock, in nanoseconds. *)

From Stdlib Require Import ZArith Lia.
From stdpp Require Import base strings list gmap.
From S2P Require Import Prelude GoStrings RbacPolicy.

#[local] Open Scope string_scope.
#[local] Open Scope list_scope.

(** [GetRole] gets the two readings of the clock a caching storage makes. *)
Class Storage (S : Type) := {
  GetRole : Z -> Z -> string -> S -> S * result RbacError Role;
  SaveRole : Role -> S -> S * result RbacError unit;
  DeleteRole : string -> S -> S * result RbacError unit;
  ListRoles : S -> list Role
}.

(** ** The contract *)
Definition get_result (m : gmap string Role) (name : string) : result RbacError Role :=
  match m !! name with Some r => Ok r | None => Err ErrRoleNotFound end.

(** The checks [SaveRole] makes: unlike [Policy.AddRole] it does not look for cycles. *)
Definition save_check (r : Role) : result RbacError unit :=
  match validateRoleName (Name r) with
  | Err e => Err e
  | Ok _ => validatePermissions (Permissions r)
  end.

Definition save_result (r : Role) (m : gmap string Role) : gmap string Role * result RbacError unit :=
  match save_check r with Ok _ => (<[Name r := r]> m, Ok tt) | Err e => (m, Err e) end.

Definition delete_result (name : string) (m : gmap string Role) : gmap string Role * result RbacError unit :=
  match m !! name with Some _ => (delete name m, Ok tt) | None => (m, Err ErrRoleNotFound) end.

Class StorageLaws (S : Type) {St : Storage S} := {
  contents : S -> gmap string Role;
  valid : S -> Prop;
  law_get t t' name s s' r : valid s -> GetRole t t' name s = (s', r) ->
    valid s' /\ contents s' = contents s /\ r = get_result (contents s) name;
  law_save role s s' r : valid s -> SaveRole role s = (s', r) ->
    valid s' /\ (contents s', r) = save_result role (contents s);
  law_delete name s s' r : valid s -> DeleteRole name s = (s', r) ->
    valid s' /\ (contents s', r) = delete_result name (contents s);
  law_list s : valid s -> Permutation (ListRoles s) (map snd (map_to_list (contents s)))
}.

(** ** MemoryStorage *)
Record MemoryStorage := mkMemory { roles : gmap string Role }.

Definition NewMemoryStorage : MemoryStorage := mkMemory ∅.
Definition NewMemoryStorageWithDefaults : MemoryStorage := mkMemory (load_roles DefaultRoles ∅).

Definition Memory_GetRole (name : string) (s : MemoryStorage) : MemoryStorage * result RbacError Role :=
  match roles s !! name with
  | None => (s, Err ErrRoleNotFound)
  | Some role => (s, Ok role)
  end.

Definition Memory_SaveRole (role : Role) (s : MemoryStorage) : MemoryStorage * result RbacError unit :=
  match validateRoleName (Name role) with
  | Err e => (s, Err e)
  | Ok _ =>
      match validatePermissions (Permissions role) with
      | Err e => (s, Err e)
      | Ok _ => (mkMemory (<[Name role := role]> (roles s)), Ok tt)
      end
  end.

Definition Memory_DeleteRole (name : string) (s : MemoryStorage) : MemoryStorage * result RbacError unit :=
  match roles s !! name with
  | None => (s, Err ErrRoleNotFound)
  | Some _ => (mkMemory (delete name (roles s)), Ok tt)
  end.

Definition Memory_ListRoles (s : MemoryStorage) : list Role := map snd (map_to_list (roles s)).

#[export] Instance memory_storage : Storage MemoryStorage := {|
  GetRole _ _ := Memory_GetRole;
  SaveRole := Memory_SaveRole;
  DeleteRole := Memory_DeleteRole;
  ListRoles := Memory_ListRoles
|}.

#[export] Instance memory_laws : StorageLaws MemoryStorage.
Proof.
  refine (Build_StorageLaws _ _ roles (fun _ => True) _ _ _ _); cbn.
  - intros _ _ name s s' r _. unfold Memory_GetRole, get_result.
    destruct (roles s !! name); by intros [= <- <-].
  - intros role s s' r _. unfold Memory_SaveRole, save_result, save_check.
    destruct (validateRoleName (Name role)); [|by intros [= <- <-]].
    destruct (validatePermissions (Permissions role)); by intros [= <- <-].
  - intros name s s' r _. unfold Memory_DeleteRole, delete_result.
    destruct (roles s !! name); by intros [= <- <-].
  - done.
Defined.

(** ** CachedStorage over a backend *)
Record cachedRole := mkCached { cr_role : Role; expiresAt : Z }.

Record CachedStorage (B : Type) := mkCachedStorage {
  backend : B;
  cache : gmap string cachedRole;
  listTTL : Z;
  ttl : Z
}.
Arguments mkCachedStorage {B} _ _ _ _.
Arguments backend {B} _.
Arguments cache {B} _.
Arguments listTTL {B} _.
Arguments ttl {B} _.

Definition with_cache {B} (b : B) (c : gmap string cachedRole) (s : CachedStorage B) : CachedStorage B :=
  mkCachedStorage b c (listTTL s) (ttl s).

Definition WithTTL {B} (t : Z) (s : CachedStorage B) : CachedStorage B :=
  mkCachedStorage (backend s) (cache s) (listTTL s) t.
Definition WithListTTL {B} (t : Z) (s : CachedStorage B) : CachedStorage B :=
  mkCachedStorage (backend s) (cache s) t (ttl s).

Definition NewCachedStorage {B} (b : B) (opts : list (CachedStorage B -> CachedStorage B)) : CachedStorage B :=
  fold_left (fun s opt => opt s) opts (mkCachedStorage b ∅ (1 * Minute)%Z (5 * Minute)%Z).

(** The three steps of [GetRole]: the lookup under the read lock, the call of
    the backend without a lock, and the store under the write lock. *)
Definition cache_lookup {B} (now : Z) (name : string) (s : CachedStorage B) : option Role :=
  match cache s !! name with
  | Some cached => if (now <? expiresAt cached)%Z then Some (cr_role cached) else None
  | None => None
  end.

Definition cache_fetch {B} `{Storage B} (t t' : Z) (name : string) (s : CachedStorage B) :
    CachedStorage B * result RbacError Role :=
  let '(b, r) := GetRole t t' name (backend s) in (with_cache b (cache s) s, r).

Definition cache_store {B} (now : Z) (name : string) (role : Role) (s : CachedStorage B) : CachedStorage B :=
  with_cache (backend s) (<[name := mkCached role (now + ttl s)]> (cache s)) s.

Definition Cached_GetRole {B} `{Storage B} (t t' : Z) (name : string) (s : CachedStorage B) :
    CachedStorage B * result RbacError Role :=
  match cache_lookup t name s with
  | Some role => (s, Ok role)
  | None =>
      let '(s1, r) := cache_fetch t t' name s in
      match r with
      | Err e => (s1, Err e)
      | Ok role => (cache_store t' name role s1, Ok role)
      end
  end.

Definition Cached_SaveRole {B} `{Storage B} (role : Role) (s : CachedStorage B) :
    CachedStorage B * result RbacError unit :=
  let '(b, r) := SaveRole role (backend s) in
  match r with
  | Err e => (with_cache b (cache s) s, Err e)
  | Ok _ => (with_cache b (delete (Name role) (cache s)) s, Ok tt)
  end.

Definition Cached_DeleteRole {B} `{Storage B} (name : string) (s : CachedStorage B) :
    CachedStorage B * result RbacError unit :=
  let '(b, r) := DeleteRole name (backend s) in
  match r with
  | Err e => (with_cache b (cache s) s, Err e)
  | Ok _ => (with_cache b (delete name (cache s)) s, Ok tt)
  end.

Definition Cached_InvalidateCache {B} (s : CachedStorage B) : CachedStorage B :=
  with_cache (backend s) ∅ s.

Definition InvalidateRole {B} (name : string) (s : CachedStorage B) : CachedStorage B :=
  with_cache (backend s) (delete name (cache s)) s.

#[export] Instance cached_storage {B} `{Storage B} : Storage (CachedStorage B) := {|
  GetRole := Cached_GetRole;
  SaveRole := Cached_SaveRole;
  DeleteRole := Cached_DeleteRole;
  ListRoles s := ListRoles (backend s)
|}.

(** Every cached role is the backend's. *)
Definition coherent {B} `{StorageLaws B} (s : CachedStorage B) : Prop :=
  forall name c, cache s !! name = Some c -> contents (backend s) !! name = Some (cr_role c).

Definition cached_valid {B} `{StorageLaws B} (s : CachedStorage B) : Prop :=
  valid (backend s) /\ coherent s.

Section Cached.
Context {B : Type} `{StorageLaws B}.
Implicit Types s : CachedStorage B.

Lemma cached_get t t' name s s' r : cached_valid s -> Cached_GetRole t t' name s = (s', r) ->
  cached_valid s' /\ contents (backend s') = contents (backend s) /\
  r = get_result (contents (backend s)) name.
Proof.
  intros [Hv Hc]. unfold Cached_GetRole, cache_lookup, cache_fetch, get_result.
  assert (Hfetch : forall s1 r1, (let '(b, r) := GetRole t t' name (backend s) in (with_cache b (cache s) s, r)) = (s1, r1) ->
    cached_valid s1 /\ contents (backend s1) = contents (backend s) /\
    r1 = get_result (contents (backend s)) name).
  { intros s1 r1 E. destruct (GetRole t t' name (backend s)) as [b r2] eqn:Eg.
    destruct (law_get _ _ _ _ _ _ Hv Eg) as (Hb & Hcb & ->). injection E as <- <-.
    split_and!; [split; [exact Hb|] | exact Hcb | done].
    intros n c Hn. cbn in *. rewrite Hcb. by apply Hc. }
  destruct (match cache s !! name with Some c => _ | None => None end) as [role|] eqn:E.
  - intros [= <- <-]. split_and!; [by split | done|]. destruct (cache s !! name) as [c|] eqn:En; [|done].
    rewrite (Hc _ _ En). destruct (t <? expiresAt c)%Z; [|done]. by injection E as ->.
  - destruct (let '(b, r) := GetRole t t' name (backend s) in (with_cache b (cache s) s, r))
      as [s1 r1] eqn:Ef. destruct (Hfetch _ _ eq_refl) as ([Hv1 Hc1] & Hcs & ->).
    unfold get_result. destruct (contents (backend s) !! name) as [role|] eqn:Er; intros [= <- <-].
    + split_and!; [split; [exact Hv1|] | exact Hcs | done].
      intros n c. cbn. destruct (decide (n = name)) as [->|Hne].
      * rewrite lookup_insert_eq. intros [= <-]. cbn. by rewrite Hcs.
      * rewrite lookup_insert_ne by done. apply Hc1.
    + by split_and!.
Qed.

(** A write through the wrapper drops the cached copy it makes stale. *)
Lemma coherent_write s b name m :
  coherent s -> contents b = m -> (forall n, n <> name -> m !! n = contents (backend s) !! n) ->
  coherent (with_cache b (delete name (cache s)) s).
Proof.
  intros Hc Hb Hm n c. cbn. rewrite lookup_delete_Some. intros [Hne Hn]. rewrite Hb, Hm by done.
  by apply Hc.
Qed.

Lemma coherent_unchanged s b : coherent s -> contents b = contents (backend s) ->
  coherent (with_cache b (cache s) s).
Proof. intros Hc Hb n c. cbn. rewrite Hb. apply Hc. Qed.

Lemma cached_save role s s' r : cached_valid s -> Cached_SaveRole role s = (s', r) ->
  cached_valid s' /\ (contents (backend s'), r) = save_result role (contents (backend s)).
Proof.
  intros [Hv Hc]. unfold Cached_SaveRole. destruct (SaveRole role (backend s)) as [b r1] eqn:E.
  destruct (law_save _ _ _ _ Hv E) as [Hb Hr]. unfold save_result in *.
  destruct (save_check role) as [u|e]; injection Hr as Hcb ->; intros [= <- <-]; cbn;
    (split; [split; [exact Hb|] | by rewrite Hcb]).
  - eapply coherent_write; [done | exact Hcb|]. intros n Hn. by rewrite lookup_insert_ne.
  - by apply coherent_unchanged.
Qed.

Lemma cached_delete name s s' r : cached_valid s -> Cached_DeleteRole name s = (s', r) ->
  cached_valid s' /\ (contents (backend s'), r) = delete_result name (contents (backend s)).
Proof.
  intros [Hv Hc]. unfold Cached_DeleteRole. destruct (DeleteRole name (backend s)) as [b r1] eqn:E.
  destruct (law_delete _ _ _ _ Hv E) as [Hb Hr]. unfold delete_result in *.
  destruct (contents (backend s) !! name) eqn:En; injection Hr as Hcb ->; intros [= <- <-]; cbn;
    (split; [split; [exact Hb|] | by rewrite Hcb]).
  - eapply coherent_write; [done | exact Hcb|]. intros n Hn. by rewrite lookup_delete_ne.
  - by apply coherent_unchanged.
Qed.

#[export] Instance cached_laws : StorageLaws (CachedStorage B).
Proof.
  refine (Build_StorageLaws _ _ (fun s => contents (backend s)) cached_valid
    cached_get cached_save cached_delete _).
  intros s [Hv _]. exact (law_list (backend s) Hv).
Defined.
End Cached.

(** ** Sequences of operations *)
Inductive StorageOp := OpGet (t t' : Z) (name : string) | OpSave (role : Role) | OpDelete (name : string).

Inductive StorageAnswer := GotRole (r : result RbacError Role) | Done (r : result RbacError unit).

Definition run_op {S} `{Storage S} (op : StorageOp) (s : S) : S * StorageAnswer :=
  match op with
  | OpGet t t' name => let '(s', r) := GetRole t t' name s in (s', GotRole r)
  | OpSave role => let '(s', r) := SaveRole role s in (s', Done r)
  | OpDelete name => let '(s', r) := DeleteRole name s in (s', Done r)
  end.

Fixpoint run_ops {S} `{Storage S} (ops : list StorageOp) (s : S) : list StorageAnswer :=
  match ops with
  | [] => []
  | op :: ops' => let '(s', a) := run_op op s in a :: run_ops ops' s'
  end.

Lemma run_op_laws {S} `{StorageLaws S} op (s s' : S) a : valid s -> run_op op s = (s', a) ->
  valid s' /\ (contents s', a) =
    match op with
    | OpGet _ _ name => (contents s, GotRole (get_result (contents s) name))
    | OpSave role => let '(m, r) := save_result role (contents s) in (m, Done r)
    | OpDelete name => let '(m, r) := delete_result name (contents s) in (m, Done r)
    end.
Proof.
  intros Hv. destruct op as [t t' name|role|name]; cbn.
  - destruct (GetRole t t' name s) as [s1 r] eqn:E. intros [= <- <-].
    destruct (law_get _ _ _ _ _ _ Hv E) as (? & -> & ->). done.
  - destruct (SaveRole role s) as [s1 r] eqn:E. intros [= <- <-].
    destruct (law_save _ _ _ _ Hv E) as (? & <-). done.
  - destruct (DeleteRole name s) as [s1 r] eqn:E. intros [= <- <-].
    destruct (law_delete _ _ _ _ Hv E) as (? & <-). done.
Qed.

(** Two lawful storages with the same contents answer alike. *)
Lemma run_ops_same {S1 S2} `{StorageLaws S1} `{StorageLaws S2} ops : forall (s1 : S1) (s2 : S2),
  valid s1 -> valid s2 -> contents s1 = contents s2 -> run_ops ops s1 = run_ops ops s2.
Proof.
  induction ops as [|op ops IH]; intros s1 s2 H1 H2 Hc; [done|]. cbn.
  destruct (run_op op s1) as [s1' a1] eqn:E1, (run_op op s2) as [s2' a2] eqn:E2.
  destruct (run_op_laws _ _ _ _ H1 E1) as [H1' R1], (run_op_laws _ _ _ _ H2 E2) as [H2' R2].
  rewrite Hc, <- R2 in R1. injection R1 as Hc' ->. f_equal. by apply IH.
Qed.

(** ** Properties *)

(** C10: a caching storage answers every sequence of gets, saves and deletes
    exactly as its backend alone would, whatever the clock reads and whatever
    time to live is configured. *)
Theorem cached_storage_refines {B : Type} `{StorageLaws B} (b : B)
    (opts : list (CachedStorage B -> CachedStorage B)) (ops : list StorageOp)
    (Hopts : Forall (fun o => exists t, o = WithTTL t \/ o = WithListTTL t) opts) (Hb : valid b) :
  run_ops ops (NewCachedStorage b opts) = run_ops ops b.
Proof.
  assert (Hnew : backend (NewCachedStorage b opts) = b /\ cache (NewCachedStorage b opts) = ∅).
  { unfold NewCachedStorage. 
    assert (forall s : CachedStorage B, backend s = b /\ cache s = ∅ ->
      backend (fold_left (fun s opt => opt s) opts s) = b /\
      cache (fold_left (fun s opt => opt s) opts s) = ∅) as Hfold; [|by apply Hfold].
    induction Hopts as [|o opts (t & [-> | ->]) _ IH]; intros s Hs; [done | by apply IH..]. }
  destruct Hnew as [Hn1 Hn2]. apply run_ops_same; [|done|cbn; by rewrite Hn1].
  cbn. unfold cached_valid, coherent. rewrite Hn1, Hn2. split; [done|]. intros n c.
  by rewrite lookup_empty.
Qed.

Lemma cached_storage_refines_witness :
  let r := mkRole "ops" "" ["health:read"] [] in
  let ops := [OpSave r; OpGet 0 0 "ops"; OpGet 1 1 "ops"; OpDelete "ops"; OpGet 2 2 "ops"] in
  run_ops ops (NewCachedStorage NewMemoryStorageWithDefaults [WithTTL 1000%Z])
  = [Done (Ok tt); GotRole (Ok r); GotRole (Ok r); Done (Ok tt); GotRole (Err ErrRoleNotFound)].
Proof.
  intros r ops. rewrite (cached_storage_refines NewMemoryStorageWithDefaults [WithTTL 1000%Z] ops).
  - reflexivity.
  - constructor; [|constructor]. exists 1000%Z. by left.
  - exact I.
Defined.

(** a save that runs between a reader's fetch from the backend and its
    store into the cache is lost to later readers: the reader puts the old
    role back, and every lookup before the entry expires returns it although
    the save has returned. *)
Theorem cached_storage_race (s : CachedStorage MemoryStorage) (t now later : Z) (old new : Role)
    (Hold : roles (backend s) !! Name new = Some old) (Hchk : save_check new = Ok tt)
    (Hmiss : cache_lookup t (Name new) s = None) (Hlater : (later < now + ttl s)%Z) :
  let '(s1, fetched) := cache_fetch t now (Name new) s in
  let '(s2, saved) := Cached_SaveRole new s1 in
  saved = Ok tt /\
  match fetched with
  | Ok role => snd (Cached_GetRole later later (Name new) (cache_store now (Name new) role s2)) = Ok old
  | Err _ => False
  end.
Proof.
  unfold cache_fetch. cbn. unfold Memory_GetRole. rewrite Hold. unfold Cached_SaveRole. cbn.
  unfold Memory_SaveRole. unfold save_check in Hchk. destruct (validateRoleName (Name new)); [|done].
  rewrite Hchk. cbn. split; [done|]. unfold Cached_GetRole, cache_lookup. cbn.
  rewrite lookup_insert_eq. cbn. by rewrite (proj2 (Z.ltb_lt _ _) Hlater).
Qed.

Lemma cached_storage_race_witness :
  let old := mkRole "ops" "" ["*:*"] [] in
  let new := mkRole "ops" "" [] [] in
  let s := NewCachedStorage (mkMemory {["ops" := old]}) [] in
  let '(s1, fetched) := cache_fetch 0 7 "ops" s in
  let '(s2, saved) := Cached_SaveRole new s1 in
  saved = Ok tt /\
  match fetched with
  | Ok role => snd (Cached_GetRole 100 100 "ops" (cache_store 7 "ops" role s2)) = Ok old
  | Err _ => False
  end.
Proof.
  intros old new s. apply (cached_storage_race s 0 7 100 old new); reflexivity.
Defined.
