(* ===== verification/RbacEngine.v ===== *)
(** The access-control engine of [internal/rbac/rbac.go], over any storage
    that keeps the contract [StorageLaws].

    The engine's state is its storage and its permission cache; an operation
    returns the new state with its result.  [seen] is one map shared by a
    whole resolution, so it is threaded.  The recursions over the role graph
    take fuel ([None] when it runs out); one call reads the clock once. *)

From Stdlib Require Import ZArith Lia.
From stdpp Require Import base strings list gmap relations.
From S2P Require Import Prelude GoStrings RbacPolicy RbacStorage.

#[local] Open Scope string_scope.
#[local] Open Scope list_scope.

(** The fields of [auth.User] the engine reads. *)
Record User := mkUser { ID : string; u_Roles : list string; u_Permissions : list string }.

Record Engine (S : Type) := mkEngine {
  storage : S;
  rolePermissions : gmap string (list Permission)
}.
Arguments mkEngine {S} _ _.
Arguments storage {S} _.
Arguments rolePermissions {S} _.

Definition NewEngine {S} (s : S) : Engine S := mkEngine s ∅.

Definition cache_get {S} (role : string) (e : Engine S) : option (list Permission) :=
  rolePermissions e !! role.
Definition cache_set {S} (role : string) (perms : list Permission) (e : Engine S) : Engine S :=
  mkEngine (storage e) (<[role := perms]> (rolePermissions e)).
Definition cache_clear {S} (e : Engine S) : Engine S := mkEngine (storage e) ∅.
Definition InvalidateCache {S} (e : Engine S) : Engine S := cache_clear e.

(** [e.storage.GetRole]. *)
Definition engine_GetRole {S} `{Storage S} (t : Z) (name : string) (e : Engine S) :
    Engine S * result RbacError Role :=
  let '(s, r) := GetRole t t name (storage e) in (mkEngine s (rolePermissions e), r).

Definition Resolved (S : Type) : Type := option (Engine S * gset string * list Permission).

(** The loop over the parents in [resolveRolePermissions]; [resolve] is the recursive call. *)
Definition parents_loop {S} (resolve : string -> gset string -> Engine S -> Resolved S) :=
  fix loop (parents : list string) (e : Engine S) (seen : gset string) (perms : list Permission) :
      Resolved S :=
    match parents with
    | [] => Some (e, seen, perms)
    | parent :: ps =>
        match resolve parent seen e with
        | Some (e, seen, parentPerms) => loop ps e seen (perms ++ parentPerms)
        | None => None
        end
    end.

Fixpoint resolveRolePermissions {S} `{Storage S} (n : nat) (t : Z) (roleName : string)
    (seen : gset string) (e : Engine S) : Resolved S :=
  match n with
  | O => None
  | Datatypes.S n' =>
      if decide (roleName ∈ seen) then Some (e, seen, [])
      else
        let seen := {[roleName]} ∪ seen in
        match cache_get roleName e with
        | Some cached => Some (e, seen, cached)
        | None =>
            let '(e, r) := engine_GetRole t roleName e in
            match r with
            | Err _ => Some (e, seen, [])
            | Ok role =>
                match parents_loop (resolveRolePermissions n' t) (Parents role) e seen (Permissions role) with
                | Some (e, seen, perms) => Some (cache_set roleName perms e, seen, perms)
                | None => None
                end
            end
        end
  end.

Fixpoint resolve_roles {S} `{Storage S} (n : nat) (t : Z) (roles : list string) (seen : gset string)
    (allPerms : list Permission) (e : Engine S) : Resolved S :=
  match roles with
  | [] => Some (e, seen, allPerms)
  | roleName :: roles' =>
      match resolveRolePermissions n t roleName seen e with
      | Some (e, seen, perms) => resolve_roles n t roles' seen (allPerms ++ perms) e
      | None => None
      end
  end.

Definition resolveUserPermissions {S} `{Storage S} (n : nat) (t : Z) (roles : list string)
    (e : Engine S) : option (Engine S * list Permission) :=
  match resolve_roles n t roles ∅ [] e with
  | Some (e, _, perms) => Some (e, perms)
  | None => None
  end.

Definition CheckPermission {S} `{Storage S} (n : nat) (t : Z) (user : option User)
    (permission : Permission) (e : Engine S) : option (Engine S * bool) :=
  match user with
  | None => Some (e, false)
  | Some user =>
      if existsb (fun p => Matches p permission) (u_Permissions user) then Some (e, true)
      else match resolveUserPermissions n t (u_Roles user) e with
           | Some (e, allPerms) => Some (e, existsb (fun p => Matches p permission) allPerms)
           | None => None
           end
  end.

Definition inherited_loop {S} (inherited : string -> Engine S -> option (Engine S * bool))
    (targetRole : string) :=
  fix loop (parents : list string) (e : Engine S) : option (Engine S * bool) :=
    match parents with
    | [] => Some (e, false)
    | parent :: ps =>
        if String.eqb parent targetRole then Some (e, true)
        else match inherited parent e with
             | Some (e, true) => Some (e, true)
             | Some (e, false) => loop ps e
             | None => None
             end
    end.

Fixpoint hasInheritedRole {S} `{Storage S} (n : nat) (t : Z) (parentRole targetRole : string)
    (e : Engine S) : option (Engine S * bool) :=
  match n with
  | O => None
  | Datatypes.S n' =>
      let '(e, r) := engine_GetRole t parentRole e in
      match r with
      | Err _ => Some (e, false)
      | Ok role =>
          inherited_loop (fun parent => hasInheritedRole n' t parent targetRole) targetRole
            (Parents role) e
      end
  end.

Fixpoint any_inherited {S} `{Storage S} (n : nat) (t : Z) (roles : list string) (roleName : string)
    (e : Engine S) : option (Engine S * bool) :=
  match roles with
  | [] => Some (e, false)
  | r :: roles' =>
      match hasInheritedRole n t r roleName e with
      | Some (e, true) => Some (e, true)
      | Some (e, false) => any_inherited n t roles' roleName e
      | None => None
      end
  end.

Definition CheckRole {S} `{Storage S} (n : nat) (t : Z) (user : option User) (roleName : string)
    (e : Engine S) : option (Engine S * bool) :=
  match user with
  | None => Some (e, false)
  | Some user =>
      if existsb (fun r => String.eqb r roleName) (u_Roles user) then Some (e, true)
      else any_inherited n t (u_Roles user) roleName e
  end.

(** The deduplication loop of [GetUserPermissions]. *)
Fixpoint dedupe (perms : list Permission) (seen : gset string) : list Permission :=
  match perms with
  | [] => []
  | p :: perms' =>
      if decide (p ∈ seen) then dedupe perms' seen else p :: dedupe perms' ({[p]} ∪ seen)
  end.

Definition GetUserPermissions {S} `{Storage S} (n : nat) (t : Z) (user : option User) (e : Engine S) :
    option (Engine S * list Permission) :=
  match user with
  | None => Some (e, [])
  | Some user =>
      match resolveUserPermissions n t (u_Roles user) e with
      | Some (e, rolePerms) => Some (e, dedupe (u_Permissions user ++ rolePerms) ∅)
      | None => None
      end
  end.

Definition Collected (S : Type) : Type := option (Engine S * gset string * list string).

Definition collect_loop {S} (collect : string -> gset string -> list string -> Engine S -> Collected S) :=
  fix loop (parents : list string) (e : Engine S) (seen : gset string) (roles : list string) :
      Collected S :=
    match parents with
    | [] => Some (e, seen, roles)
    | parent :: ps =>
        match collect parent seen roles e with
        | Some (e, seen, roles) => loop ps e seen roles
        | None => None
        end
    end.

(** [collectRoles] appends to the captured [roles] and [seen]. *)
Fixpoint collectRoles {S} `{Storage S} (n : nat) (t : Z) (roleName : string) (seen : gset string)
    (roles : list string) (e : Engine S) : Collected S :=
  match n with
  | O => None
  | Datatypes.S n' =>
      if decide (roleName ∈ seen) then Some (e, seen, roles)
      else
        let seen := {[roleName]} ∪ seen in
        let roles := roles ++ [roleName] in
        let '(e, r) := engine_GetRole t roleName e in
        match r with
        | Err _ => Some (e, seen, roles)
        | Ok role => collect_loop (collectRoles n' t) (Parents role) e seen roles
        end
  end.

Fixpoint collect_all {S} `{Storage S} (n : nat) (t : Z) (rs : list string) (seen : gset string)
    (roles : list string) (e : Engine S) : option (Engine S * list string) :=
  match rs with
  | [] => Some (e, roles)
  | r :: rs' =>
      match collectRoles n t r seen roles e with
      | Some (e, seen, roles) => collect_all n t rs' seen roles e
      | None => None
      end
  end.

Definition GetUserRoles {S} `{Storage S} (n : nat) (t : Z) (user : option User) (e : Engine S) :
    option (Engine S * list string) :=
  match user with
  | None => Some (e, [])
  | Some user => collect_all n t (u_Roles user) ∅ [] e
  end.

(** ** Specification *)
Definition has_perm (roles : gmap string Role) (r : string) (p : Permission) : Prop :=
  exists role, roles !! r = Some role /\ In p (Permissions role).

(** [r] or a role it inherits from holds [p]. *)
Definition granted (roles : gmap string Role) (r : string) (p : Permission) : Prop :=
  exists r', rtc (inherits roles) r r' /\ has_perm roles r' p.

Definition allowed (roles : gmap string Role) (u : User) (perm : Permission) : Prop :=
  (exists p, In p (u_Permissions u) /\ Matches p perm = true) \/
  (exists r p, In r (u_Roles u) /\ granted roles r p /\ Matches p perm = true).

(** Every cached permission is one the role has. *)
Definition cache_sound (roles : gmap string Role) (c : gmap string (list Permission)) : Prop :=
  forall r ps, c !! r = Some ps -> forall p, In p ps -> granted roles r p.

(** The traversal went from [v] to [v'] and visited all parents of what it added. *)
Definition swept (roles : gmap string Role) (v v' : gset string) : Prop :=
  v ⊆ v' /\ forall a b, a ∈ v' -> a ∉ v -> inherits roles a b -> b ∈ v'.

Lemma swept_refl roles v : swept roles v v.
Proof. split; [done | set_solver]. Qed.

Lemma swept_trans roles v1 v2 v3 : swept roles v1 v2 -> swept roles v2 v3 -> swept roles v1 v3.
Proof.
  intros [H1 H2] [H3 H4]. split; [set_solver|]. intros a b Ha Hn Hab.
  destruct (decide (a ∈ v2)); [apply H3; by eapply H2 | by eapply H4].
Qed.

Lemma swept_add roles v x v' : (forall b, inherits roles x b -> b ∈ v') ->
  swept roles ({[x]} ∪ v) v' -> swept roles v v'.
Proof.
  intros Hb [H1 H2]. split; [set_solver|]. intros a b Ha Hn Hab.
  destruct (decide (a = x)) as [->|]; [by apply Hb|]. eapply H2; [exact Ha | set_solver | done].
Qed.

Lemma swept_closed roles v' x y : swept roles ∅ v' -> x ∈ v' -> rtc (inherits roles) x y -> y ∈ v'.
Proof.
  intros [_ H] Hx Hr. eapply closed_rtc; [|exact Hr | exact Hx]. intros a b Ha Hab.
  eapply H; [exact Ha | set_solver | done].
Qed.

Lemma granted_step roles r parent p : inherits roles r parent -> granted roles parent p -> granted roles r p.
Proof. intros H (r' & Hr & Hp). exists r'. split; [by eapply rtc_l | done]. Qed.

Lemma granted_self roles r p : has_perm roles r p -> granted roles r p.
Proof. intros H. exists r. split; [apply rtc_refl | done]. Qed.

Section Laws.
Context {S : Type} `{StorageLaws S}.
Variable roles : gmap string Role.
Implicit Types e : Engine S.

Definition good e : Prop :=
  valid (storage e) /\ contents (storage e) = roles /\ cache_sound roles (rolePermissions e).

(** Only roles already seen are cached: the resolution cannot hit the cache. *)
Definition fresh e (seen : gset string) : Prop := dom (rolePermissions e) ⊆ seen.

Lemma engine_GetRole_spec t name e e' r : good e -> engine_GetRole t name e = (e', r) ->
  good e' /\ rolePermissions e' = rolePermissions e /\ r = get_result roles name.
Proof.
  intros (Hv & Hc & Hs). unfold engine_GetRole.
  destruct (GetRole t t name (storage e)) as [s r0] eqn:E. intros [= <- <-].
  destruct (law_get _ _ _ _ _ _ Hv E) as (Hv' & Hc' & ->). rewrite Hc in Hc' |- *. done.
Qed.

(** A part of a resolution, from ([e], [seen]) to ([e'], [seen']), that
    collected the permissions [new] of roles that [src] inherits from. *)
Definition resolves e (seen : gset string) e' (seen' : gset string) (new : list Permission)
    (src : string -> Prop) : Prop :=
  good e' /\ seen ⊆ seen' /\ (forall p, In p new -> exists r, src r /\ granted roles r p) /\
  (fresh e seen -> fresh e' seen' /\ swept roles seen seen' /\
     forall x p, x ∈ seen' -> x ∉ seen -> has_perm roles x p -> In p new).

Lemma resolves_refl e seen src : good e -> resolves e seen e seen [] src.
Proof.
  intros Hg. split_and!; [done | done | done |]. intros Hf. split_and!; [done | apply swept_refl |].
  set_solver.
Qed.

Lemma resolves_trans e0 s0 e1 s1 e2 s2 n1 n2 (src1 src2 src : string -> Prop) :
  resolves e0 s0 e1 s1 n1 src1 -> resolves e1 s1 e2 s2 n2 src2 ->
  (forall r, src1 r \/ src2 r -> src r) ->
  resolves e0 s0 e2 s2 (n1 ++ n2) src.
Proof.
  intros (_ & Hs1 & Hn1 & Hf1) (Hg2 & Hs2 & Hn2 & Hf2) Hsrc. split_and!; [done | set_solver | |].
  - intros p [Hp|Hp]%in_app_or; [destruct (Hn1 p Hp) as (r & ? & ?) | destruct (Hn2 p Hp) as (r & ? & ?)];
      exists r; auto.
  - intros Hf. destruct (Hf1 Hf) as (Hfr1 & Hsw1 & Hc1). destruct (Hf2 Hfr1) as (Hfr2 & Hsw2 & Hc2).
    split_and!; [done | by eapply swept_trans |]. intros x p Hx Hnx Hp. apply in_or_app.
    destruct (decide (x ∈ s1)); [left; eauto | right; eauto].
Qed.

Lemma fresh_get e e' seen : rolePermissions e' = rolePermissions e -> fresh e seen -> fresh e' seen.
Proof. unfold fresh. by intros ->. Qed.

Lemma resolves_missing e e' seen name (src : string -> Prop) : good e' ->
  rolePermissions e' = rolePermissions e -> roles !! name = None ->
  resolves e seen e' ({[name]} ∪ seen) [] src.
Proof.
  intros Hg Hc Hn. split_and!; [done | set_solver | done |]. intros Hf. split_and!.
  - unfold fresh in *. rewrite Hc. set_solver.
  - eapply swept_add; [|apply swept_refl]. intros b (role & E & _). congruence.
  - intros x p Hx Hnx (role & E & _). assert (x = name) as -> by set_solver. congruence.
Qed.

Lemma resolves_cached e seen name ps : good e -> name ∉ seen ->
  rolePermissions e !! name = Some ps -> resolves e seen e ({[name]} ∪ seen) ps (eq name).
Proof.
  intros Hg Hn Hc. split_and!; [done | set_solver | |].
  - intros p Hp. exists name. split; [done|]. destruct Hg as (_ & _ & Hs). by eapply Hs.
  - intros Hf. destruct Hn. apply Hf. by apply elem_of_dom_2 in Hc.
Qed.

(** The end of [resolveRolePermissions]: after the parents, the role is cached. *)
Lemma resolves_role e e1 e2 seen seen2 name role new :
  name ∉ seen -> roles !! name = Some role -> rolePermissions e1 = rolePermissions e ->
  resolves e1 ({[name]} ∪ seen) e2 seen2 new (fun r => In r (Parents role)) ->
  (forall q, In q (Parents role) -> q ∈ seen2) ->
  resolves e seen (cache_set name (Permissions role ++ new) e2) seen2 (Permissions role ++ new) (eq name).
Proof.
  intros Hn Hr Hc ((Hv & Hcs & Hsnd) & Hsub & Hnew & Hf) Hps.
  assert (Hgr : forall p, In p (Permissions role ++ new) -> granted roles name p).
  { intros p [Hp|Hp]%in_app_or; [apply granted_self; by exists role|].
    destruct (Hnew p Hp) as (q & Hq & Hg). eapply granted_step; [|exact Hg]. by exists role. }
  split_and!.
  - split_and!; [done | done |]. cbn. intros r ps. destruct (decide (r = name)) as [->|Hne].
    + rewrite lookup_insert_eq. intros [= <-]. done.
    + rewrite lookup_insert_ne by done. apply Hsnd.
  - set_solver.
  - intros p Hp. exists name. auto.
  - intros Hfr. destruct Hf as (Hf1 & Hf2 & Hf3).
    { unfold fresh in *. rewrite Hc. set_solver. }
    split_and!.
    + unfold fresh in *. cbn. rewrite dom_insert. set_solver.
    + eapply swept_add; [|exact Hf2]. intros b (role' & E & Hin). rewrite Hr in E.
      injection E as <-. by apply Hps.
    + intros x p Hx Hnx Hp. apply in_or_app. destruct (decide (x = name)) as [->|Hne].
      * left. destruct Hp as (role' & E & Hin). rewrite Hr in E. by injection E as <-.
      * right. eapply Hf3; [exact Hx | set_solver | done].
Qed.

Lemma resolveRolePermissions_spec n : forall t name seen e,
  good e -> (unvisited roles seen < n)%nat ->
  exists e' seen' perms, resolveRolePermissions n t name seen e = Some (e', seen', perms) /\
    resolves e seen e' seen' perms (eq name) /\ name ∈ seen'.
Proof.
  induction n as [|n IH]; intros t name seen e Hg Hn; [lia|]. cbn [resolveRolePermissions].
  destruct (decide (name ∈ seen)) as [Hin|Hin].
  { do 3 eexists. split; [done|]. split; [by apply resolves_refl | done]. }
  cbv zeta. unfold cache_get. destruct (rolePermissions e !! name) as [ps|] eqn:Ec.
  { do 3 eexists. split; [done|]. split; [by apply resolves_cached | set_solver]. }
  destruct (engine_GetRole t name e) as [e1 r] eqn:E.
  destruct (engine_GetRole_spec _ _ _ _ _ Hg E) as (Hg1 & Hc1 & ->). unfold get_result.
  destruct (roles !! name) as [role|] eqn:Er.
  - pose proof (unvisited_add roles seen name role Er Hin) as Hlt.
    assert (Hloop : forall ps e1 seen1 perms, good e1 -> (unvisited roles seen1 < n)%nat ->
      exists e' seen' new,
        parents_loop (resolveRolePermissions n t) ps e1 seen1 perms = Some (e', seen', perms ++ new) /\
        resolves e1 seen1 e' seen' new (fun r => In r ps) /\ forall q, In q ps -> q ∈ seen').
    { induction ps as [|q ps IHps]; intros e0 seen0 perms Hg0 Hn0.
      - exists e0, seen0, []. rewrite app_nil_r. split; [done|]. split; [by apply resolves_refl | done].
      - cbn [parents_loop].
        destruct (IH t q seen0 e0 Hg0 Hn0) as (e2 & seen2 & pp & -> & Hres & Hq).
        pose proof (unvisited_mono roles seen0 seen2 (proj1 (proj2 Hres))) as Hm.
        destruct (IHps e2 seen2 (perms ++ pp) (proj1 Hres) ltac:(lia)) as (e3 & seen3 & new & -> & Hres3 & Hps).
        exists e3, seen3, (pp ++ new). rewrite app_assoc. split; [done|]. split.
        + eapply resolves_trans; [exact Hres | exact Hres3 |]. intros r [<-|Hr]; [by left | by right].
        + intros x [<-|Hx]; [|auto]. by apply (proj1 (proj2 Hres3)). }
    destruct (Hloop (Parents role) e1 ({[name]} ∪ seen) (Permissions role) Hg1 ltac:(lia))
      as (e2 & seen2 & new & -> & Hres & Hps).
    do 3 eexists. split; [reflexivity|]. split; [by eapply resolves_role|].
    apply (proj1 (proj2 Hres)). set_solver.
  - do 3 eexists. split; [reflexivity|]. split; [by apply resolves_missing | set_solver].
Qed.

Lemma resolve_roles_spec n t rs : forall seen acc e, good e -> (size roles < n)%nat ->
  exists e' seen' new, resolve_roles n t rs seen acc e = Some (e', seen', acc ++ new) /\
    resolves e seen e' seen' new (fun r => In r rs) /\ forall q, In q rs -> q ∈ seen'.
Proof.
  induction rs as [|r rs IH]; intros seen acc e Hg Hn; cbn [resolve_roles].
  - exists e, seen, []. rewrite app_nil_r. split; [done|]. split; [by apply resolves_refl | done].
  - pose proof (unvisited_mono roles ∅ seen ltac:(set_solver)) as Hm. rewrite unvisited_empty in Hm.
    destruct (resolveRolePermissions_spec n t r seen e Hg ltac:(lia)) as (e1 & seen1 & pp & -> & Hres & Hr).
    destruct (IH seen1 (acc ++ pp) e1 (proj1 Hres) Hn) as (e2 & seen2 & new & -> & Hres2 & Hrs).
    exists e2, seen2, (pp ++ new). rewrite app_assoc. split; [done|]. split.
    + eapply resolves_trans; [exact Hres | exact Hres2 |]. intros x [<-|Hx]; [by left | by right].
    + intros x [<-|Hx]; [|auto]. by apply (proj1 (proj2 Hres2)).
Qed.

Lemma resolveUserPermissions_spec n t rs e : good e -> (size roles < n)%nat ->
  exists e' perms, resolveUserPermissions n t rs e = Some (e', perms) /\ good e' /\
    (forall p, In p perms -> exists r, In r rs /\ granted roles r p) /\
    (rolePermissions e = ∅ -> forall r p, In r rs -> granted roles r p -> In p perms).
Proof.
  intros Hg Hn. unfold resolveUserPermissions.
  destruct (resolve_roles_spec n t rs ∅ [] e Hg Hn) as (e' & seen' & new & -> & Hres & Hrs).
  exists e', new. split; [done|]. destruct Hres as (Hg' & _ & Hnew & Hf). split_and!; [done|done|].
  intros Hempty r p Hr (r' & Hrr & Hp). destruct Hf as (_ & Hsw & Hc).
  { unfold fresh. rewrite Hempty. set_solver. }
  apply (Hc r'); [|set_solver|exact Hp]. eapply swept_closed; [exact Hsw | by apply Hrs | exact Hrr].
Qed.

(** *** Roles *)
Lemma hasInheritedRole_spec n : forall t name target (anc : gset string) e,
  good e -> acyclic roles -> (forall a, a ∈ anc -> tc (inherits roles) a name) ->
  (unvisited roles anc < n)%nat ->
  exists e' b, hasInheritedRole n t name target e = Some (e', b) /\ good e' /\
    (b = true <-> tc (inherits roles) name target).
Proof.
  induction n as [|n IH]; intros t name target anc e Hg Hac Hanc Hn; [lia|]. cbn [hasInheritedRole].
  destruct (engine_GetRole t name e) as [e1 r] eqn:E.
  destruct (engine_GetRole_spec _ _ _ _ _ Hg E) as (Hg1 & _ & ->). unfold get_result.
  destruct (roles !! name) as [role|] eqn:Er.
  - assert (Hnot : name ∉ anc) by (intros Hin; by apply (Hac name), Hanc).
    pose proof (unvisited_add roles anc name role Er Hnot) as Hlt.
    assert (Hloop : forall ps e1, good e1 -> (forall q, In q ps -> In q (Parents role)) ->
      exists e' b, inherited_loop (fun parent => hasInheritedRole n t parent target) target ps e1
        = Some (e', b) /\ good e' /\
        (b = true <-> exists q, In q ps /\ rtc (inherits roles) q target)).
    { induction ps as [|q ps IHps]; intros e0 Hg0 Hps; cbn [inherited_loop].
      - exists e0, false. split_and!; [done | done|]. split; [done|]. by intros (q & [] & _).
      - destruct (String.eqb_spec q target) as [->|Hne].
        + exists e0, true. split_and!; [done|done|]. split; [|done]. intros _. exists target.
          split; [by left | apply rtc_refl].
        + destruct (IH t q target ({[name]} ∪ anc) e0 Hg0 Hac) as (e2 & b & -> & Hg2 & Hb); [|lia|].
          { intros a Ha. assert (Hq : inherits roles name q) by (exists role; split; [done | apply Hps; by left]).
            apply elem_of_union in Ha as [->%elem_of_singleton|Ha]; [by apply tc_once|].
            eapply tc_r; [by apply Hanc | done]. }
          destruct b.
          * exists e2, true. split_and!; [done|done|]. split; [|done]. intros _. exists q.
            split; [by left|]. by apply tc_rtc, Hb.
          * destruct (IHps e2 Hg2) as (e3 & b & -> & Hg3 & Hb3); [intros x Hx; apply Hps; by right|].
            exists e3, b. split_and!; [done|done|]. rewrite Hb3. split.
            -- intros (x & Hx & Hr). exists x. split; [by right | done].
            -- intros (x & [<-|Hx] & Hr); [|by exists x].
               apply rtc_tc in Hr as [->|Hr]; [done|]. by apply Hb in Hr. }
    destruct (Hloop (Parents role) e1 Hg1 ltac:(auto)) as (e2 & b & -> & Hg2 & Hb).
    exists e2, b. split_and!; [done|done|]. rewrite Hb. split.
    + intros (q & Hq & Hr). eapply tc_rtc_r; [|exact Hr]. apply tc_once. by exists role.
    + intros Ht. inversion Ht as [x y Hxy | x y z Hxy Hyz]; subst;
        destruct Hxy as (role' & E' & Hin); rewrite Er in E'; injection E' as <-.
      * exists target. split; [done | apply rtc_refl].
      * exists y. split; [done | by apply tc_rtc].
  - exists e1, false. split_and!; [done|done|]. split; [done|]. intros Ht.
    inversion Ht as [x y Hxy | x y z Hxy Hyz]; subst; destruct Hxy as (role' & E' & _); congruence.
Qed.

Lemma any_inherited_spec n t rs target : forall e, good e -> acyclic roles -> (size roles < n)%nat ->
  exists e' b, any_inherited n t rs target e = Some (e', b) /\ good e' /\
    (b = true <-> exists r, In r rs /\ tc (inherits roles) r target).
Proof.
  induction rs as [|r rs IH]; intros e Hg Hac Hn; cbn [any_inherited].
  - exists e, false. split_and!; [done|done|]. split; [done|]. by intros (? & [] & _).
  - destruct (hasInheritedRole_spec n t r target ∅ e Hg Hac) as (e1 & b & -> & Hg1 & Hb);
      [set_solver | by rewrite unvisited_empty |].
    destruct b.
    + exists e1, true. split_and!; [done|done|]. split; [|done]. intros _. exists r.
      split; [by left | by apply Hb].
    + destruct (IH e1 Hg1 Hac Hn) as (e2 & b & -> & Hg2 & Hb2). exists e2, b.
      split_and!; [done|done|]. rewrite Hb2. split.
      * intros (x & Hx & Ht). exists x. split; [by right | done].
      * intros (x & [<-|Hx] & Ht); [by apply Hb in Ht | by exists x].
Qed.

(** A part of the collection of roles: [new] lists the roles added to [seen], once each. *)
Definition collects (seen : gset string) e' (seen' : gset string) (new : list string)
    (src : string -> Prop) : Prop :=
  good e' /\ swept roles seen seen' /\ NoDup new /\
  (forall x, x ∈ new <-> x ∈ seen' /\ x ∉ seen) /\
  (forall x, x ∈ new -> exists r, src r /\ rtc (inherits roles) r x).

Lemma collects_refl seen e src : good e -> collects seen e seen [] src.
Proof.
  intros Hg. split_and!; [done | apply swept_refl | constructor | set_solver |].
  intros x Hx. by apply elem_of_nil in Hx.
Qed.

Lemma collects_trans s0 e1 s1 e2 s2 n1 n2 (src1 src2 src : string -> Prop) :
  collects s0 e1 s1 n1 src1 -> collects s1 e2 s2 n2 src2 -> (forall r, src1 r \/ src2 r -> src r) ->
  collects s0 e2 s2 (n1 ++ n2) src.
Proof.
  intros (_ & Hsw1 & Hnd1 & Hin1 & Hr1) (Hg2 & Hsw2 & Hnd2 & Hin2 & Hr2) Hsrc. split_and!.
  - done.
  - by eapply swept_trans.
  - apply NoDup_app. split_and!; [done | | done]. intros x Hx1 Hx2.
    apply Hin1 in Hx1 as [? _]. by apply Hin2 in Hx2 as [_ ?].
  - intros x. rewrite elem_of_app, Hin1, Hin2. destruct Hsw1 as [Hs1 _], Hsw2 as [Hs2 _].
    split; [intros [[? ?]|[? ?]]; split; set_solver|]. intros [? ?].
    destruct (decide (x ∈ s1)); [by left | by right].
  - intros x [Hx|Hx]%elem_of_app; [destruct (Hr1 x Hx) as (r & ? & ?) | destruct (Hr2 x Hx) as (r & ? & ?)];
      exists r; auto.
Qed.

Lemma collects_role seen e2 seen2 name new (ps : list string) : name ∉ seen ->
  (forall b, inherits roles name b -> b ∈ seen2) -> (forall q, In q ps -> inherits roles name q) ->
  collects ({[name]} ∪ seen) e2 seen2 new (fun r => In r ps) ->
  collects seen e2 seen2 (name :: new) (eq name).
Proof.
  intros Hn Hb Hps (Hg & Hsw & Hnd & Hin & Hr). split_and!.
  - done.
  - by eapply swept_add.
  - constructor; [|done]. rewrite Hin. set_solver.
  - intros x. rewrite elem_of_cons, Hin. destruct Hsw as [Hs _]. split.
    + intros [->|[? ?]]; split; set_solver.
    + intros [? ?]. destruct (decide (x = name)); [by left | right; set_solver].
  - intros x [->|Hx]%elem_of_cons; exists name; (split; [done|]); [apply rtc_refl|].
    destruct (Hr x Hx) as (q & Hq & Hqx). eapply rtc_l; [by apply Hps | done].
Qed.

Lemma collectRoles_spec n : forall t name seen acc e, good e -> (unvisited roles seen < n)%nat ->
  exists e' seen' new, collectRoles n t name seen acc e = Some (e', seen', acc ++ new) /\
    collects seen e' seen' new (eq name) /\ name ∈ seen'.
Proof.
  induction n as [|n IH]; intros t name seen acc e Hg Hn; [lia|]. cbn [collectRoles].
  destruct (decide (name ∈ seen)) as [Hin|Hin].
  { exists e, seen, []. rewrite app_nil_r. split; [done|]. split; [by apply collects_refl | done]. }
  cbv zeta. destruct (engine_GetRole t name e) as [e1 r] eqn:E.
  destruct (engine_GetRole_spec _ _ _ _ _ Hg E) as (Hg1 & _ & ->). unfold get_result.
  destruct (roles !! name) as [role|] eqn:Er.
  - pose proof (unvisited_add roles seen name role Er Hin) as Hlt.
    assert (Hloop : forall ps e1 seen1 acc, good e1 -> (unvisited roles seen1 < n)%nat ->
      exists e' seen' new, collect_loop (collectRoles n t) ps e1 seen1 acc = Some (e', seen', acc ++ new) /\
        collects seen1 e' seen' new (fun r => In r ps) /\ forall q, In q ps -> q ∈ seen').
    { induction ps as [|q ps IHps]; intros e0 seen0 acc0 Hg0 Hn0; cbn [collect_loop].
      - exists e0, seen0, []. rewrite app_nil_r. split; [done|]. split; [by apply collects_refl | done].
      - destruct (IH t q seen0 acc0 e0 Hg0 Hn0) as (e2 & seen2 & n2 & -> & Hc & Hq).
        pose proof (unvisited_mono roles seen0 seen2 (proj1 (proj1 (proj2 Hc)))) as Hm.
        destruct (IHps e2 seen2 (acc0 ++ n2) (proj1 Hc) ltac:(lia)) as (e3 & seen3 & n3 & -> & Hc3 & Hps).
        exists e3, seen3, (n2 ++ n3). rewrite app_assoc. split; [done|]. split.
        + eapply collects_trans; [exact Hc | exact Hc3 |]. intros r [<-|Hr]; [by left | by right].
        + intros x [<-|Hx]; [|auto]. by apply (proj1 (proj1 (proj2 Hc3))). }
    destruct (Hloop (Parents role) e1 ({[name]} ∪ seen) (acc ++ [name]) Hg1 ltac:(lia))
      as (e2 & seen2 & new & -> & Hc & Hps).
    exists e2, seen2, (name :: new). rewrite <- app_assoc. split; [done|]. split.
    + eapply collects_role; [done | | | exact Hc].
      * intros b (role' & E' & Hb). rewrite Er in E'. injection E' as <-. by apply Hps.
      * intros q Hq. by exists role.
    + apply (proj1 (proj1 (proj2 Hc))). set_solver.
  - exists e1, ({[name]} ∪ seen), [name]. split; [done|]. split; [|set_solver].
    eapply (collects_role _ _ _ _ _ []); [done | | done | by apply collects_refl].
    intros b (role' & E' & _). congruence.
Qed.

Lemma collect_all_spec n t rs : forall seen acc e, good e -> (size roles < n)%nat ->
  exists e' seen' new, collect_all n t rs seen acc e = Some (e', acc ++ new) /\
    collects seen e' seen' new (fun r => In r rs) /\ forall q, In q rs -> q ∈ seen'.
Proof.
  induction rs as [|r rs IH]; intros seen acc e Hg Hn; cbn [collect_all].
  - exists e, seen, []. rewrite app_nil_r. split; [done|]. split; [by apply collects_refl | done].
  - pose proof (unvisited_mono roles ∅ seen ltac:(set_solver)) as Hm. rewrite unvisited_empty in Hm.
    destruct (collectRoles_spec n t r seen acc e Hg ltac:(lia)) as (e1 & seen1 & n1 & -> & Hc & Hr).
    destruct (IH seen1 (acc ++ n1) e1 (proj1 Hc) Hn) as (e2 & seen2 & n2 & -> & Hc2 & Hrs).
    exists e2, seen2, (n1 ++ n2). rewrite app_assoc. split; [done|]. split.
    + eapply collects_trans; [exact Hc | exact Hc2 |]. intros x [<-|Hx]; [by left | by right].
    + intros x [<-|Hx]; [|auto]. by apply (proj1 (proj1 (proj2 Hc2))).
Qed.
End Laws.

Lemma dedupe_spec perms : forall seen,
  NoDup (dedupe perms seen) /\ forall p, p ∈ dedupe perms seen <-> p ∈ perms /\ p ∉ seen.
Proof.
  induction perms as [|p perms IH]; intros seen; cbn.
  - split; [constructor|]. intros p. rewrite elem_of_nil. tauto.
  - destruct (decide (p ∈ seen)) as [Hp|Hp].
    + destruct (IH seen) as [Hnd Hin]. split; [done|]. intros x. rewrite Hin, elem_of_cons.
      split; [tauto|]. intros [[->|?] ?]; [done | tauto].
    + destruct (IH ({[p]} ∪ seen)) as [Hnd Hin]. split.
      * constructor; [|done]. rewrite Hin. set_solver.
      * intros x. rewrite !elem_of_cons, Hin. destruct (decide (x = p)) as [->|]; set_solver.
Qed.

Lemma existsb_In {A} (f : A -> bool) l : existsb f l = true <-> exists x, In x l /\ f x = true.
Proof. apply existsb_exists. Qed.

(** The engine states the properties start from: a valid storage, and a cache
    that holds no permission its role lacks (an empty one, in particular). *)
Definition engine_ok {S} `{StorageLaws S} (e : Engine S) : Prop :=
  valid (storage e) /\ cache_sound (contents (storage e)) (rolePermissions e).

(** ** Properties *)

Lemma CheckPermission_spec {S : Type} `{StorageLaws S} roles (n : nat) (t : Z) (u : User) (perm : Permission) (e : Engine S) :
  good roles e -> (size roles < n)%nat ->
  exists e' b, CheckPermission n t (Some u) perm e = Some (e', b) /\ good roles e' /\
    (b = true -> allowed roles u perm) /\ (rolePermissions e = ∅ -> allowed roles u perm -> b = true).
Proof.
  intros Hg Hn. unfold CheckPermission, allowed. destruct (existsb _ (u_Permissions u)) eqn:Ed.
  - exists e, true. apply existsb_In in Ed. split_and!; [done..| by left | done].
  - destruct (resolveUserPermissions_spec roles n t (u_Roles u) e) as
      (e' & perms & -> & Hg' & Hsound & Hcomplete); [|done|]; [done|].
    do 2 eexists. split; [done|]. split; [done|]. split.
    + intros (p & Hp & Hm)%existsb_In. right. destruct (Hsound p Hp) as (r & Hr & Hgr). by exists r, p.
    + intros Hempty [(p & Hp & Hm)|(r & p & Hr & Hgr & Hm)].
      * apply not_true_iff_false in Ed. destruct Ed. apply existsb_In. by exists p.
      * apply existsb_In. exists p. split; [|done]. by eapply Hcomplete.
Qed.
Lemma CheckRole_spec {S : Type} `{StorageLaws S} roles (n : nat) (t : Z) (u : User) (name : string) (e : Engine S) :
  good roles e -> acyclic roles -> (size roles < n)%nat ->
  exists e' b, CheckRole n t (Some u) name e = Some (e', b) /\ good roles e' /\
    (b = true <-> exists r, In r (u_Roles u) /\ rtc (inherits roles) r name).
Proof.
  intros Hg Hac Hn. unfold CheckRole. destruct (existsb _ (u_Roles u)) eqn:Ed.
  - exists e, true. split; [done|]. split; [done|]. split; [|done]. intros _.
    apply existsb_In in Ed as (r & Hr & ->%String.eqb_eq). exists name. split; [done | apply rtc_refl].
  - destruct (any_inherited_spec roles n t (u_Roles u) name e) as (e' & b & -> & Hg' & Hb); [done..|].
    exists e', b. split; [done|]. split; [done|]. rewrite Hb. split; intros (r & Hr & Ht); exists r; (split; [done|]).
    + by apply tc_rtc.
    + apply rtc_tc in Ht as [->|Ht]; [|done]. apply not_true_iff_false in Ed. destruct Ed.
      apply existsb_In. exists name. split; [done | apply String.eqb_refl].
Qed.
Lemma engine_ok_good {S} `{StorageLaws S} (e : Engine S) : engine_ok e <-> good (contents (storage e)) e.
Proof. unfold engine_ok, good. naive_solver. Qed.

(** C3: [CheckPermission] returns and never grants too much: what it grants is
    matched by a direct claim or by a permission of a role the user has or
    inherits.  The cache it leaves is again sound, and when it starts from an
    empty cache the answer is exact. *)
Theorem CheckPermission_correct {S : Type} `{StorageLaws S} (n : nat) (t : Z) (u : User)
    (perm : Permission) (e : Engine S)
    (Hok : engine_ok e) (Hn : (size (contents (storage e)) < n)%nat) :
  exists e' b, CheckPermission n t (Some u) perm e = Some (e', b) /\
    engine_ok e' /\ contents (storage e') = contents (storage e) /\
    (b = true -> allowed (contents (storage e)) u perm) /\
    (rolePermissions e = ∅ -> allowed (contents (storage e)) u perm -> b = true).
Proof.
  destruct (CheckPermission_spec _ n t u perm e (proj1 (engine_ok_good e) Hok) Hn) as (e' & b & -> & (Hv & Hc & Hs) & H1 & H2).
  exists e', b. split; [done|]. split; [by split; [|rewrite Hc]|]. by split.
Qed.

Definition default_engine : Engine MemoryStorage := NewEngine NewMemoryStorageWithDefaults.

Lemma CheckPermission_correct_witness :
  exists e' b, CheckPermission 4 0 (Some (mkUser "u" ["editor"] [])) "health:read" default_engine = Some (e', b) /\
    engine_ok e' /\ contents (storage e') = contents (storage default_engine) /\
    (b = true -> allowed (contents (storage default_engine)) (mkUser "u" ["editor"] []) "health:read") /\
    (rolePermissions default_engine = ∅ ->
     allowed (contents (storage default_engine)) (mkUser "u" ["editor"] []) "health:read" -> b = true).
Proof.
  apply (CheckPermission_correct 4 0 (mkUser "u" ["editor"] []) "health:read" default_engine).
  - split; [exact I|]. intros r ps. cbn. rewrite lookup_empty. discriminate.
  - vm_compute. lia.
Defined.

(** the answer is not exact once the cache is warm: with the default roles,
    a check for a user holding [viewer] and [editor] leaves [editor] cached
    without the permissions it inherits from [viewer] (already seen), and a
    later user who is only an [editor] is denied [health:read], which the
    editor role grants; clearing the cache grants it again. *)
Theorem warm_cache_denies :
  let editor := mkUser "e" ["editor"] [] in
  exists e1 b1 e2 e3,
    CheckPermission 4 0 (Some (mkUser "v" ["viewer"; "editor"] [])) "users:delete" default_engine = Some (e1, b1) /\
    allowed (contents (storage e1)) editor "health:read" /\
    CheckPermission 4 0 (Some editor) "health:read" e1 = Some (e2, false) /\
    CheckPermission 4 0 (Some editor) "health:read" (InvalidateCache e1) = Some (e3, true).
Proof.
  intros editor.
  destruct (CheckPermission 4 0 (Some (mkUser "v" ["viewer"; "editor"] [])) "users:delete" default_engine)
    as [[e1 b1]|] eqn:E; [|vm_compute in E; discriminate].
  exists e1, b1. vm_compute in E. injection E as <- <-. do 2 eexists. split; [reflexivity|]. split.
  - right. exists "editor", "health:read". split; [by left|]. split; [|reflexivity].
    exists "viewer". split.
    + eapply rtc_l; [|apply rtc_refl]. eexists. split; [vm_compute; reflexivity | by left].
    + eexists. split; [vm_compute; reflexivity | cbn; tauto].
  - split; vm_compute; reflexivity.
Qed.

(** on an acyclic storage [CheckRole] returns and is exact: it holds for the
    roles of the user and the ones they inherit from, and for no other. *)
Theorem CheckRole_correct {S : Type} `{StorageLaws S} (n : nat) (t : Z) (u : User) (name : string)
    (e : Engine S)
    (Hok : engine_ok e) (Hac : acyclic (contents (storage e)))
    (Hn : (size (contents (storage e)) < n)%nat) :
  exists e' b, CheckRole n t (Some u) name e = Some (e', b) /\
    (b = true <-> exists r, In r (u_Roles u) /\ rtc (inherits (contents (storage e))) r name).
Proof.
  destruct (CheckRole_spec _ n t u name e (proj1 (engine_ok_good e) Hok) Hac Hn) as (e' & b & -> & _ & Hb). by exists e', b.
Qed.

Lemma CheckRole_correct_witness :
  exists e' b, CheckRole 4 0 (Some (mkUser "u" ["editor"] [])) "viewer" default_engine = Some (e', b) /\
    (b = true <-> exists r, In r ["editor"] /\ rtc (inherits (contents (storage default_engine))) r "viewer").
Proof.
  apply (CheckRole_correct 4 0 (mkUser "u" ["editor"] []) "viewer" default_engine).
  - split; [exact I|]. intros r ps. cbn. rewrite lookup_empty. discriminate.
  - apply (acyclic_insert (load_roles [mkRole "admin" "Full system access" ["*:*"] [];
      mkRole "editor" "Can read and modify resources"
      ["configs:read"; "configs:create"; "configs:update"; "configs:delete"; "executions:read";
       "executions:create"; "deployments:read"; "deployments:create"] ["viewer"]] ∅)
      (mkRole "viewer" "Read-only access"
        ["configs:read"; "executions:read"; "deployments:read"; "health:read"] []));
      [|intros (x & [] & _)].
    apply (acyclic_insert (load_roles [mkRole "admin" "Full system access" ["*:*"] []] ∅)
      (mkRole "editor" "Can read and modify resources"
      ["configs:read"; "configs:create"; "configs:update"; "configs:delete"; "executions:read";
       "executions:create"; "deployments:read"; "deployments:create"] ["viewer"])).
    + apply (acyclic_insert ∅ (mkRole "admin" "Full system access" ["*:*"] []));
        [apply acyclic_empty | intros (x & [] & _)].
    + intros (x & [<-|[]] & H). inversion H as [|? ? ? (? & E & _)]; subst.
      vm_compute in E. discriminate.
  - vm_compute. lia.
Defined.

(** the storage accepts a role that inherits from itself, and [CheckRole] for
    a user of that role and any role outside the cycle then recurses without
    end: no amount of fuel makes it return. *)
Theorem CheckRole_diverges (u : User) (t : Z) (target : string) (perms : list Permission)
    (Hp : validatePermissions perms = Ok tt) (Hr : u_Roles u = ["loop"]) (Ht : target <> "loop") :
  exists s, Memory_SaveRole (mkRole "loop" "" perms ["loop"]) NewMemoryStorage = (s, Ok tt) /\
    forall n, CheckRole n t (Some u) target (NewEngine s) = None.
Proof.
  eexists. unfold Memory_SaveRole. cbn. rewrite Hp. split; [reflexivity|]. intros n.
  apply String.eqb_neq in Ht. rewrite String.eqb_sym in Ht. unfold CheckRole. rewrite Hr. cbn [existsb]. rewrite Ht.
  cbn [orb any_inherited].
  assert (H : forall e : Engine MemoryStorage, roles (storage e) !! "loop" = Some (mkRole "loop" "" perms ["loop"]) ->
    hasInheritedRole n t "loop" target e = None).
  { induction n as [|n IH]; intros e He; [done|]. cbn [hasInheritedRole]. unfold engine_GetRole. cbn.
    unfold Memory_GetRole. rewrite He. cbn [Parents inherited_loop]. rewrite Ht. by rewrite IH. }
  by rewrite H.
Qed.

Lemma CheckRole_diverges_witness :
  exists s, Memory_SaveRole (mkRole "loop" "" ["a:b"] ["loop"]) NewMemoryStorage = (s, Ok tt) /\
    forall n, CheckRole n 0 (Some (mkUser "u" ["loop"] [])) "admin" (NewEngine s) = None.
Proof. apply (CheckRole_diverges (mkUser "u" ["loop"] [])); [reflexivity | reflexivity | discriminate]. Defined.

(** [GetUserRoles] and, from an empty cache, [GetUserPermissions] return each
    effective role and permission exactly once: the roles the user has or
    inherits, also when the inheritance graph is cyclic, and the direct and
    inherited permissions. *)
Theorem effective_sets {S : Type} `{StorageLaws S} (n : nat) (t : Z) (u : User) (e : Engine S)
    (Hok : engine_ok e) (Hempty : rolePermissions e = ∅) (Hn : (size (contents (storage e)) < n)%nat) :
  exists e1 rs e2 ps,
    GetUserRoles n t (Some u) e = Some (e1, rs) /\ NoDup rs /\
    (forall r, r ∈ rs <-> exists r0, In r0 (u_Roles u) /\ rtc (inherits (contents (storage e))) r0 r) /\
    GetUserPermissions n t (Some u) e = Some (e2, ps) /\ NoDup ps /\
    (forall p, p ∈ ps <-> In p (u_Permissions u) \/
       exists r, In r (u_Roles u) /\ granted (contents (storage e)) r p).
Proof.
  assert (Hg : good (contents (storage e)) e) by (destruct Hok; by split_and!).
  destruct (collect_all_spec (contents (storage e)) n t (u_Roles u) ∅ [] e Hg Hn)
    as (e1 & seen1 & rs & E1 & (_ & Hsw & Hnd & Hin & Hr) & Hrs).
  destruct (resolveUserPermissions_spec (contents (storage e)) n t (u_Roles u) e Hg Hn)
    as (e2 & perms & E2 & _ & Hsound & Hcomplete).
  exists e1, rs, e2, (dedupe (u_Permissions u ++ perms) ∅).
  destruct (dedupe_spec (u_Permissions u ++ perms) ∅) as [Hnd2 Hin2].
  split_and!; [exact E1 | exact Hnd | | | exact Hnd2 |].
  - intros r. split; [by apply Hr|]. intros (r0 & H0 & Hreach). apply Hin.
    split; [|set_solver]. eapply swept_closed; [exact Hsw | by apply Hrs | exact Hreach].
  - unfold GetUserPermissions. by rewrite E2.
  - intros p. rewrite Hin2, elem_of_app, !list_elem_of_In. split.
    + intros [[Hp|Hp] _]; [by left | right; by apply Hsound].
    + intros [Hp|(r & Hr0 & Hp)]; (split; [|set_solver]); [by left | right; by eapply Hcomplete].
Qed.

Lemma effective_sets_witness :
  exists e1 rs e2 ps,
    GetUserRoles 4 0 (Some (mkUser "u" ["editor"] ["x:y"])) default_engine = Some (e1, rs) /\ NoDup rs /\
    (forall r, r ∈ rs <-> exists r0, In r0 ["editor"] /\ rtc (inherits (contents (storage default_engine))) r0 r) /\
    GetUserPermissions 4 0 (Some (mkUser "u" ["editor"] ["x:y"])) default_engine = Some (e2, ps) /\ NoDup ps /\
    (forall p, p ∈ ps <-> In p ["x:y"] \/
       exists r, In r ["editor"] /\ granted (contents (storage default_engine)) r p).
Proof.
  apply (effective_sets 4 0 (mkUser "u" ["editor"] ["x:y"]) default_engine).
  - split; [exact I|]. intros r ps. cbn. rewrite lookup_empty. discriminate.
  - reflexivity.
  - vm_compute. lia.
Defined.
