(* ===== verification/CircuitBreaker.v ===== *)
(** The circuit breaker of [pkg/integration/circuitbreaker.go].

    The atomics of [*CircuitBreaker] are the fields of a record; the counters
    are 32-bit and wrap.  An operation takes the reading of the clock it makes
    (nanoseconds since the epoch).  [state_log] records the calls of
    [OnStateChange].  The sequential theorems run whole operations one after
    the other; [record_success_race] splits [RecordSuccess] at its read of the
    state.  Logging and metrics are left out. *)

From Stdlib Require Import ZArith Lia.
From stdpp Require Import base strings list gmap.
From S2P Require Import Prelude GoStrings.

#[local] Open Scope string_scope.
#[local] Open Scope Z_scope.

Inductive CircuitState := StateClosed | StateOpen | StateHalfOpen.

#[export] Instance CircuitState_eq_dec : EqDecision CircuitState.
Proof. solve_decision. Defined.

Definition CircuitState_String (s : CircuitState) : string :=
  match s with StateClosed => "closed" | StateOpen => "open" | StateHalfOpen => "half-open" end.

Inductive CircuitError := ErrCircuitOpen.

Record CircuitBreakerConfig := mkConfig {
  FailureThreshold : Z;
  Timeout : Z;
  HalfOpenRequests : Z
}.

Definition DefaultCircuitBreakerConfig : CircuitBreakerConfig := mkConfig 5 (60 * Second) 3.

Record CircuitBreaker := mkBreaker {
  name : string;
  config : CircuitBreakerConfig;
  state : CircuitState;
  failures : Z;
  halfOpenSuccesses : Z;
  lastFailure : Z;
  lastStateChange : Z;
  state_log : list (CircuitState * CircuitState)
}.

(** The defaults [NewCircuitBreaker] puts in place of non-positive settings. *)
Definition fill_config (c : CircuitBreakerConfig) : CircuitBreakerConfig :=
  mkConfig (if FailureThreshold c <=? 0 then 5 else FailureThreshold c)
    (if Timeout c <=? 0 then 60 * Second else Timeout c)
    (if HalfOpenRequests c <=? 0 then 3 else HalfOpenRequests c).

Definition NewCircuitBreaker (now : Z) (n : string) (c : CircuitBreakerConfig) : CircuitBreaker :=
  mkBreaker n (fill_config c) StateClosed 0 0 0 now [].

Definition set_failures (f : Z) (cb : CircuitBreaker) : CircuitBreaker :=
  mkBreaker (name cb) (config cb) (state cb) f (halfOpenSuccesses cb) (lastFailure cb)
    (lastStateChange cb) (state_log cb).
Definition set_successes (s : Z) (cb : CircuitBreaker) : CircuitBreaker :=
  mkBreaker (name cb) (config cb) (state cb) (failures cb) s (lastFailure cb)
    (lastStateChange cb) (state_log cb).
Definition set_lastFailure (t : Z) (cb : CircuitBreaker) : CircuitBreaker :=
  mkBreaker (name cb) (config cb) (state cb) (failures cb) (halfOpenSuccesses cb) t
    (lastStateChange cb) (state_log cb).

Definition transitionTo (now : Z) (newState : CircuitState) (cb : CircuitBreaker) : CircuitBreaker :=
  let oldState := state cb in
  if bool_decide (oldState = newState) then cb
  else
    mkBreaker (name cb) (config cb) newState
      (match newState with StateClosed => 0 | _ => failures cb end)
      (match newState with StateOpen => halfOpenSuccesses cb | _ => 0 end)
      (lastFailure cb) now (state_log cb ++ [(oldState, newState)])%list.

(** [time.Since]: the difference saturates at the bounds of [int64]. *)
Definition time_since (now t : Z) : Z := Z.max int64_min (Z.min int64_max (now - t)).

(** [Allow]; [None] is the nil error. *)
Definition Allow (now : Z) (cb : CircuitBreaker) : CircuitBreaker * option CircuitError :=
  match state cb with
  | StateClosed => (cb, None)
  | StateOpen =>
      if Timeout (config cb) <=? time_since now (lastFailure cb)
      then (transitionTo now StateHalfOpen cb, None)
      else (cb, Some ErrCircuitOpen)
  | StateHalfOpen => (cb, None)
  end.

(** What [RecordSuccess] does once it has read the state. *)
Definition success_in (now : Z) (s : CircuitState) (cb : CircuitBreaker) : CircuitBreaker :=
  match s with
  | StateClosed => set_failures 0 cb
  | StateHalfOpen =>
      let successes := wrap32 (halfOpenSuccesses cb + 1) in
      let cb := set_successes successes cb in
      if HalfOpenRequests (config cb) <=? successes then transitionTo now StateClosed cb else cb
  | StateOpen => cb
  end.

Definition RecordSuccess (now : Z) (cb : CircuitBreaker) : CircuitBreaker :=
  success_in now (state cb) cb.

Definition RecordFailure (now : Z) (cb : CircuitBreaker) : CircuitBreaker :=
  let cb := set_lastFailure now cb in
  match state cb with
  | StateClosed =>
      let f := wrap32 (failures cb + 1) in
      let cb := set_failures f cb in
      if FailureThreshold (config cb) <=? f then transitionTo now StateOpen cb else cb
  | StateHalfOpen => transitionTo now StateOpen cb
  | StateOpen => cb
  end.

Definition Reset (now : Z) (cb : CircuitBreaker) : CircuitBreaker :=
  mkBreaker (name cb) (config cb) StateClosed 0 0 0 now (state_log cb).

(** The result of [Execute]: the circuit's error, or what [fn] returned. *)
Inductive Outcome (E : Type) := Rejected (e : CircuitError) | Ran (r : option E).
Arguments Rejected {E} e.
Arguments Ran {E} r.

(** [Execute] asks [Allow] at [now] and records the outcome of [fn] at [now']. *)
Definition Execute {E} (now now' : Z) (fn : option E) (cb : CircuitBreaker) : CircuitBreaker * Outcome E :=
  match Allow now cb with
  | (cb, Some e) => (cb, Rejected e)
  | (cb, None) =>
      match fn with
      | Some e => (RecordFailure now' cb, Ran (Some e))
      | None => (RecordSuccess now' cb, Ran None)
      end
  end.

Record CircuitBreakerStats := mkStats {
  s_Name : string;
  s_State : CircuitState;
  s_Failures : Z;
  s_HalfOpenSuccesses : Z;
  s_LastFailure : Z;
  s_LastStateChange : Z
}.

Definition Stats (cb : CircuitBreaker) : CircuitBreakerStats :=
  mkStats (name cb) (state cb) (failures cb) (halfOpenSuccesses cb) (lastFailure cb) (lastStateChange cb).

(** ** The registry

    Breakers are shared through pointers: the map holds locations of a heap. *)
Record CircuitBreakerRegistry := mkRegistry {
  breakers : gmap string nat;
  heap : list CircuitBreaker;
  default_config : CircuitBreakerConfig
}.

Definition NewCircuitBreakerRegistry (h : list CircuitBreaker) (c : CircuitBreakerConfig) : CircuitBreakerRegistry :=
  mkRegistry ∅ h c.

Definition Register (now : Z) (n : string) (c : CircuitBreakerConfig) (r : CircuitBreakerRegistry) :
    CircuitBreakerRegistry * nat :=
  let l := length (heap r) in
  (mkRegistry (<[n := l]> (breakers r)) (heap r ++ [NewCircuitBreaker now n c])%list (default_config r), l).

Definition Get (now : Z) (n : string) (r : CircuitBreakerRegistry) : CircuitBreakerRegistry * nat :=
  match breakers r !! n with
  | Some l => (r, l)
  | None => Register now n (default_config r) r
  end.

Definition All (r : CircuitBreakerRegistry) : gmap string nat := breakers r.

Definition Registry_Stats (r : CircuitBreakerRegistry) : list CircuitBreakerStats :=
  omap (fun kv => Stats <$> (heap r !! (kv.2))) (map_to_list (breakers r)).

(** ** Reachable breakers *)
Inductive op := OpAllow | OpSuccess | OpFailure | OpReset.

Definition run_op (o : op) (now : Z) (cb : CircuitBreaker) : CircuitBreaker :=
  match o with
  | OpAllow => fst (Allow now cb)
  | OpSuccess => RecordSuccess now cb
  | OpFailure => RecordFailure now cb
  | OpReset => Reset now cb
  end.

Inductive reachable (n : string) (c : CircuitBreakerConfig) : CircuitBreaker -> Prop :=
| reach_new now : reachable n c (NewCircuitBreaker now n c)
| reach_op o now cb : reachable n c cb -> reachable n c (run_op o now cb).

(** The edges of the state machine. *)
Definition legal (e : CircuitState * CircuitState) : Prop :=
  e = (StateClosed, StateOpen) \/ e = (StateOpen, StateHalfOpen) \/
  e = (StateHalfOpen, StateClosed) \/ e = (StateHalfOpen, StateOpen).

Definition breaker_inv (cb : CircuitBreaker) : Prop :=
  0 < FailureThreshold (config cb) /\ 0 < Timeout (config cb) /\ 0 < HalfOpenRequests (config cb) /\
  - 2 ^ 31 <= failures cb < 2 ^ 31 /\ - 2 ^ 31 <= halfOpenSuccesses cb < 2 ^ 31 /\
  (state cb = StateClosed -> failures cb < FailureThreshold (config cb)) /\
  (state cb <> StateOpen -> halfOpenSuccesses cb < HalfOpenRequests (config cb)) /\
  Forall legal (state_log cb).

Lemma wrap32_range z : - 2 ^ 31 <= wrap32 z < 2 ^ 31.
Proof. unfold wrap32. pose proof (Z.mod_pos_bound (z + 2 ^ 31) (2 ^ 32) eq_refl). lia. Qed.

Lemma transitionTo_ne now s cb : state cb <> s ->
  transitionTo now s cb =
    mkBreaker (name cb) (config cb) s (match s with StateClosed => 0 | _ => failures cb end)
      (match s with StateOpen => halfOpenSuccesses cb | _ => 0 end)
      (lastFailure cb) now (state_log cb ++ [(state cb, s)])%list.
Proof. intros H. unfold transitionTo. by rewrite bool_decide_eq_false_2. Qed.

Lemma fill_config_pos c : 0 < FailureThreshold (fill_config c) /\ 0 < Timeout (fill_config c) /\
  0 < HalfOpenRequests (fill_config c).
Proof.
  unfold fill_config, Second. cbn [FailureThreshold Timeout HalfOpenRequests].
  split_and!; destruct (Z.leb_spec (FailureThreshold c) 0), (Z.leb_spec (Timeout c) 0),
    (Z.leb_spec (HalfOpenRequests c) 0); lia.
Qed.

Lemma new_inv now n c : breaker_inv (NewCircuitBreaker now n c).
Proof.
  destruct (fill_config_pos c) as (H1 & H2 & H3). unfold breaker_inv. cbn. split_and!; try done; lia.
Qed.

Lemma transition_inv now s cb :
  breaker_inv (set_failures 0 (set_successes 0 cb)) -> - 2 ^ 31 <= failures cb < 2 ^ 31 ->
  - 2 ^ 31 <= halfOpenSuccesses cb < 2 ^ 31 -> legal (state cb, s) ->
  breaker_inv (transitionTo now s cb).
Proof.
  unfold breaker_inv, transitionTo. cbn. intros (H1 & H2 & H3 & _ & _ & _ & _ & Hl) Hf Hs Hleg.
  rewrite bool_decide_eq_false_2.
  - cbn. split_and!; try done; try lia; try (destruct s; lia || congruence).
    apply Forall_app. by split; [|constructor].
  - unfold legal in Hleg. intros E. destruct Hleg as [H|[H|[H|H]]]; congruence.
Qed.

Lemma run_op_inv o now cb : breaker_inv cb -> breaker_inv (run_op o now cb).
Proof.
  intros H. pose proof H as (H1 & H2 & H3 & Hf & Hs & Hfc & Hsc & Hl).
  pose proof (wrap32_range (failures cb + 1)). pose proof (wrap32_range (halfOpenSuccesses cb + 1)).
  assert (Hbase : breaker_inv (set_failures 0 (set_successes 0 cb))).
  { unfold breaker_inv. cbn. split_and!; done || lia. }
  destruct o; cbn [run_op].
  - unfold Allow. destruct (state cb) eqn:E; try done.
    destruct (_ <=? _); [|done]. apply transition_inv; [done..|]. rewrite E. unfold legal. tauto.
  - unfold RecordSuccess, success_in. destruct (state cb) eqn:E; [|done|].
    + unfold breaker_inv. cbn. rewrite E. split_and!; try done; try lia.
    + destruct (_ <=? _) eqn:Ec.
      * apply transition_inv; [|cbn; lia..|cbn; rewrite E; unfold legal; tauto].
        unfold breaker_inv in *. cbn in *. rewrite E in *. split_and!; try done; try lia.
      * apply Z.leb_gt in Ec. unfold breaker_inv. cbn in *. rewrite E. split_and!; try done; try lia.
  - unfold RecordFailure. cbn [state set_lastFailure]. destruct (state cb) eqn:E.
    + destruct (_ <=? _) eqn:Ec.
      * apply transition_inv; [|cbn; lia..|cbn; rewrite E; unfold legal; tauto].
        unfold breaker_inv in *. cbn in *. rewrite E in *. split_and!; try done; try lia.
      * apply Z.leb_gt in Ec. unfold breaker_inv. cbn in *. rewrite E. split_and!; try done; try lia.
    + unfold breaker_inv. cbn. rewrite E. split_and!; done || lia.
    + apply transition_inv; [|cbn; lia..|cbn; rewrite E; unfold legal; tauto].
      unfold breaker_inv in *. cbn in *. rewrite E in *. split_and!; try done; try lia.
  - unfold breaker_inv. cbn. split_and!; try done; lia.
Qed.

(** ** Runs of [Execute] *)
Abbreviation Call E := (Z * Z * option E)%type (only parsing).

Fixpoint execute_all {E} (calls : list (Call E)) (cb : CircuitBreaker) : CircuitBreaker * list (Outcome E) :=
  match calls with
  | [] => (cb, [])
  | (now, now', fn) :: calls' =>
      let '(cb, o) := Execute now now' fn cb in
      let '(cb, os) := execute_all calls' cb in (cb, o :: os)
  end.

(** The failures since the last success. *)
Fixpoint trailing {E} (k : Z) (calls : list (Call E)) : Z :=
  match calls with
  | [] => k
  | (_, _, Some _) :: calls' => trailing (k + 1) calls'
  | (_, _, None) :: calls' => trailing 0 calls'
  end.

(** Some run of consecutive failures, [k] of them before the calls, reaches [th]. *)
Fixpoint trips {E} (th k : Z) (calls : list (Call E)) : bool :=
  match calls with
  | [] => false
  | (_, _, Some _) :: calls' => (th <=? k + 1) || trips th (k + 1) calls'
  | (_, _, None) :: calls' => trips th 0 calls'
  end.

Lemma execute_closed {E} (calls : list (Call E)) : forall cb,
  state cb = StateClosed -> 0 <= failures cb < FailureThreshold (config cb) ->
  FailureThreshold (config cb) < 2 ^ 31 -> trips (FailureThreshold (config cb)) (failures cb) calls = false ->
  let '(cb', os) := execute_all calls cb in
  state cb' = StateClosed /\ failures cb' = trailing (failures cb) calls /\
  os = map (fun c => Ran (snd c)) calls.
Proof.
  induction calls as [|[[now now'] fn] calls IH]; intros cb Hs Hf Ht Htr; [done|].
  cbn [execute_all]. unfold Execute, Allow. rewrite Hs.
  destruct fn as [e|]; cbn [trips] in Htr.
  - apply orb_false_iff in Htr as [Hth Htr]. apply Z.leb_gt in Hth.
    unfold RecordFailure. cbn [state set_lastFailure failures]. rewrite Hs.
    rewrite wrap32_small by lia. cbn [config set_failures set_lastFailure].
    rewrite (proj2 (Z.leb_gt _ _)) by lia.
    specialize (IH (set_failures (failures cb + 1) (set_lastFailure now' cb))). cbn in IH.
    destruct (execute_all calls _) as [cb' os]. destruct IH as (H1 & H2 & ->); try done; lia.
  - unfold RecordSuccess, success_in. rewrite Hs. specialize (IH (set_failures 0 cb)). cbn in IH.
    destruct (execute_all calls _) as [cb' os]. destruct IH as (H1 & H2 & ->); done || lia.
Qed.

Lemma trips_app {E} th (a b : list (Call E)) : forall k, trips th k a = false ->
  trips th k (a ++ b) = trips th (trailing k a) b.
Proof.
  induction a as [|[[n n'] [e|]] a IH]; intros k; cbn; [done | | apply IH].
  intros [-> H]%orb_false_iff. by apply IH.
Qed.

Lemma execute_inv {E} now now' (fn : option E) cb : breaker_inv cb ->
  breaker_inv (fst (Execute now now' fn cb)) /\ config (fst (Execute now now' fn cb)) = config cb.
Proof.
  intros Hinv. assert (Ha : breaker_inv (fst (Allow now cb)) /\ config (fst (Allow now cb)) = config cb).
  { split; [by apply (run_op_inv OpAllow)|]. unfold Allow, transitionTo. by repeat case_match. }
  unfold Execute. destruct (Allow now cb) as [cb1 [err|]]; cbn [fst] in Ha; [done|].
  destruct Ha as [Ha1 <-]. destruct fn; cbn [fst].
  - split; [by apply (run_op_inv OpFailure)|]. unfold RecordFailure, transitionTo. by repeat case_match.
  - split; [by apply (run_op_inv OpSuccess)|]. unfold RecordSuccess, success_in, transitionTo.
    by repeat case_match.
Qed.

Lemma execute_all_inv {E} (calls : list (Call E)) : forall cb, breaker_inv cb ->
  breaker_inv (fst (execute_all calls cb)) /\ config (fst (execute_all calls cb)) = config cb.
Proof.
  induction calls as [|[[a b] f] calls IH]; intros cb Hinv; [done|]. cbn [execute_all].
  destruct (execute_inv a b f cb Hinv) as [Hi Hc].
  destruct (Execute a b f cb) as [cb1 o]. cbn [fst] in *.
  destruct (IH cb1 Hi) as [H1 H2]. destruct (execute_all calls cb1). cbn in *. by rewrite H2.
Qed.

Lemma trailing_nonneg {E} (calls : list (Call E)) : forall k, 0 <= k -> 0 <= trailing k calls.
Proof.
  induction calls as [|[[a b] [f|]] calls IH]; intros k Hk; cbn; [done | apply IH; lia | by apply IH].
Qed.

(** Successive successes of a half-open breaker that has had [k] of them. *)
Lemma execute_half_open {E} (calls : list (Call E)) : forall cb k,
  state cb = StateHalfOpen -> halfOpenSuccesses cb = k -> 0 <= k < HalfOpenRequests (config cb) ->
  HalfOpenRequests (config cb) < 2 ^ 31 ->
  forallb (fun call => match snd call with None => true | Some _ => false end) calls = true ->
  k + Z.of_nat (length calls) <= HalfOpenRequests (config cb) ->
  let '(cb', os) := execute_all calls cb in
  os = map (fun _ => Ran None) calls /\
  (if k + Z.of_nat (length calls) =? HalfOpenRequests (config cb)
   then state cb' = StateClosed /\ failures cb' = 0 else state cb' = StateHalfOpen).
Proof.
  induction calls as [|[[now now'] fn] calls IH]; intros cb k Hs Hk Hk0 Hr Hok Hlen.
  - cbn. rewrite (proj2 (Z.eqb_neq _ _)) by lia. done.
  - cbn [forallb snd] in Hok. destruct fn; [done|]. cbn [andb] in Hok.
    cbn [execute_all]. unfold Execute, Allow. rewrite Hs. unfold RecordSuccess, success_in. rewrite Hs.
    cbn [length] in Hlen. rewrite wrap32_small by lia. cbn [config set_successes]. rewrite Hk.
    destruct (Z.leb_spec (HalfOpenRequests (config cb)) (k + 1)).
    + assert (calls = []) as -> by (destruct calls; [done|]; cbn [length] in Hlen; lia).
      cbn [execute_all length map]. rewrite transitionTo_ne by (cbn; congruence).
      rewrite (proj2 (Z.eqb_eq _ _)) by lia. done.
    + specialize (IH (set_successes (k + 1) cb) (k + 1) Hs eq_refl).
      cbn [config set_successes] in IH. cbn [length].
      destruct (execute_all calls (set_successes (k + 1) cb)) as [cb' os].
      destruct IH as [-> IH]; [lia | done | done | lia |]. split; [done|].
      replace (k + Z.of_nat (S (length calls))) with (k + 1 + Z.of_nat (length calls)) by lia. done.
Qed.

(** ** Properties *)

(** whatever operations run, at whatever times, the settings stay positive,
    the counters stay 32-bit, a closed breaker has fewer failures than its
    threshold, one that is not open fewer trial successes than it needs, and
    every reported state change is an edge of the state machine. *)
Theorem breaker_invariant (n : string) (c : CircuitBreakerConfig) (cb : CircuitBreaker)
    (H : reachable n c cb) : breaker_inv cb.
Proof. induction H; [apply new_inv | by apply run_op_inv]. Qed.

Lemma breaker_invariant_witness : breaker_inv (run_op OpAllow 70 (run_op OpFailure 9 (run_op OpFailure 7
  (NewCircuitBreaker 0 "svc" (mkConfig 2 60 0))))).
Proof. apply (breaker_invariant "svc" (mkConfig 2 60 0)). repeat constructor. Defined.

(** a fresh breaker lets every call through and opens exactly when some
    [FailureThreshold] consecutive calls have failed: until then it is closed
    and counts the failures since the last success, and the call that completes
    the run opens it. *)
Theorem breaker_trips {E} (now : Z) (n : string) (c : CircuitBreakerConfig) (calls : list (Call E))
    (t t' : Z) (e : E)
    (Hth : FailureThreshold (fill_config c) < 2 ^ 31)
    (Hno : trips (FailureThreshold (fill_config c)) 0 calls = false) :
  let '(cb, os) := execute_all calls (NewCircuitBreaker now n c) in
  state cb = StateClosed /\ failures cb = trailing 0 calls /\
  os = map (fun call => Ran (snd call)) calls /\
  (state (fst (Execute t t' (Some e) cb)) = StateOpen <->
   trips (FailureThreshold (fill_config c)) 0 (calls ++ [(t, t', Some e)]) = true).
Proof.
  destruct (fill_config_pos c) as (H1 & _ & _).
  pose proof (execute_closed calls (NewCircuitBreaker now n c)) as H.
  change (config (NewCircuitBreaker now n c)) with (fill_config c) in H.
  change (failures (NewCircuitBreaker now n c)) with 0 in H.
  destruct (execute_all calls _) as [cb os] eqn:Ex. destruct H as (Hs & Hf & Hos); [done|lia|done|done|].
  split_and!; [done..|]. rewrite trips_app by done. cbn [trips]. rewrite orb_false_r.
  destruct (execute_all_inv calls _ (new_inv now n c)) as [(_ & _ & _ & _ & _ & Hlt & _) Hcfg].
  rewrite Ex in Hlt, Hcfg. cbn [fst] in Hlt, Hcfg.
  change (config (NewCircuitBreaker now n c)) with (fill_config c) in Hcfg.
  rewrite Hcfg in Hlt. specialize (Hlt Hs). pose proof (trailing_nonneg calls 0 ltac:(lia)) as Hge.
  unfold Execute, Allow. rewrite Hs. cbn [fst].
  unfold RecordFailure. cbn [state set_lastFailure failures]. rewrite Hs.
  rewrite wrap32_small by lia. cbn [config set_failures set_lastFailure]. rewrite Hcfg, <- Hf.
  destruct (FailureThreshold (fill_config c) <=? failures cb + 1); cbn.
  - unfold transitionTo. cbn. rewrite Hs. done.
  - rewrite Hs. done.
Qed.

Lemma breaker_trips_witness :
  let calls := [(1, 1, Some tt); (2, 2, None); (3, 3, Some tt)] in
  let '(cb, os) := execute_all calls (NewCircuitBreaker 0 "svc" (mkConfig 2 0 0)) in
  state cb = StateClosed /\ failures cb = trailing 0 calls /\
  os = map (fun call => Ran (snd call)) calls /\
  (state (fst (Execute 4 4 (Some tt) cb)) = StateOpen <->
   trips (FailureThreshold (fill_config (mkConfig 2 0 0))) 0 (calls ++ [(4, 4, Some tt)]) = true).
Proof. apply (breaker_trips 0 "svc" (mkConfig 2 0 0)); reflexivity. Defined.

(** while a breaker is open and its timeout since the last recorded failure
    has not elapsed, every call is rejected without running its function, and
    the breaker does not change. *)
Theorem open_breaker_blocks {E} (calls : list (Call E)) (cb : CircuitBreaker)
    (Hs : state cb = StateOpen)
    (Ht : Forall (fun call => time_since (fst (fst call)) (lastFailure cb) < Timeout (config cb)) calls) :
  execute_all calls cb = (cb, map (fun _ => Rejected ErrCircuitOpen) calls).
Proof.
  induction Ht as [|[[now now'] fn] calls Hc _ IH]; [done|]. cbn [execute_all]. unfold Execute, Allow.
  cbn in Hc. rewrite Hs, (proj2 (Z.leb_gt _ _)) by done. by rewrite IH.
Qed.

Lemma open_breaker_blocks_witness :
  let cb := RecordFailure 100 (NewCircuitBreaker 0 "svc" (mkConfig 1 50 1)) in
  execute_all [(120, 121, @None unit); (149, 149, None)] cb
  = (cb, [Rejected ErrCircuitOpen; Rejected ErrCircuitOpen]).
Proof.
  intros cb. apply (open_breaker_blocks [(120, 121, @None unit); (149, 149, None)] cb); [reflexivity|].
  repeat constructor.
Defined.

(** The calls of a recovery: each succeeds. *)
Definition all_succeed {E} (calls : list (Call E)) : bool :=
  forallb (fun call => match snd call with None => true | Some _ => false end) calls.

(** recovery. Once the timeout has elapsed an open breaker turns half-open
    and lets the call through; [HalfOpenRequests] consecutive successes close
    it with its failure count cleared, no fewer do, and a failure among them
    opens it again. *)
Theorem breaker_recovers {E} (calls : list (Call E)) (cb : CircuitBreaker) (t t' : Z) (e : E)
    (Hinv : breaker_inv cb) (Hs : state cb = StateOpen)
    (Hto : match calls with
           | [] => True
           | call :: _ => Timeout (config cb) <= time_since (fst (fst call)) (lastFailure cb)
           end)
    (Hok : all_succeed calls = true) (Hlen : Z.of_nat (length calls) <= HalfOpenRequests (config cb))
    (Hr : HalfOpenRequests (config cb) < 2 ^ 31) (Hne : calls <> []) :
  let '(cb', os) := execute_all calls cb in
  os = map (fun _ => Ran None) calls /\
  (state cb' = StateClosed /\ failures cb' = 0 <-> Z.of_nat (length calls) = HalfOpenRequests (config cb)) /\
  (Z.of_nat (length calls) < HalfOpenRequests (config cb) ->
   state cb' = StateHalfOpen /\ state (fst (Execute t t' (Some e) cb')) = StateOpen).
Proof.
  destruct Hinv as (H1 & H2 & H3 & _).
  destruct calls as [|[[now now'] fn] calls]; [done|]. cbn [fst] in Hto.
  assert (Hfirst : execute_all ((now, now', fn) :: calls) cb
    = execute_all ((now, now', fn) :: calls) (transitionTo now StateHalfOpen cb)).
  { cbn [execute_all]. unfold Execute, Allow. rewrite Hs, (proj2 (Z.leb_le _ _)) by done.
    unfold transitionTo. rewrite Hs. done. }
  rewrite Hfirst.
  assert (Hcfg : config (transitionTo now StateHalfOpen cb) = config cb /\
    state (transitionTo now StateHalfOpen cb) = StateHalfOpen /\
    halfOpenSuccesses (transitionTo now StateHalfOpen cb) = 0)
    by (unfold transitionTo; rewrite Hs; done).
  destruct Hcfg as (Hc1 & Hc2 & Hc3).
  pose proof (execute_half_open ((now, now', fn) :: calls) _ 0 Hc2 Hc3) as Hhalf. rewrite Hc1 in Hhalf.
  destruct (execute_all _ (transitionTo now StateHalfOpen cb)) as [cb' os].
  destruct Hhalf as [-> Hst]; [lia | done..|]. rewrite Z.add_0_l in Hst. split; [done|].
  destruct (Z.eqb_spec (Z.of_nat (length ((now, now', fn) :: calls))) (HalfOpenRequests (config cb)))
    as [Heq|Hneq].
  - split; [done|]. intros. lia.
  - split; [split; [intros [Ecl _]; congruence | done]|]. intros _. split; [done|].
    unfold Execute, Allow. rewrite Hst. cbn [fst]. unfold RecordFailure. cbn [state set_lastFailure].
    rewrite Hst. unfold transitionTo. cbn. by rewrite Hst.
Qed.

Lemma breaker_recovers_witness :
  let cb := RecordFailure 100 (NewCircuitBreaker 0 "svc" (mkConfig 1 50 2)) in
  let calls := [(150, 151, @None unit); (152, 153, None)] in
  let '(cb', os) := execute_all calls cb in
  os = map (fun _ => Ran None) calls /\
  (state cb' = StateClosed /\ failures cb' = 0 <-> Z.of_nat (length calls) = HalfOpenRequests (config cb)) /\
  (Z.of_nat (length calls) < HalfOpenRequests (config cb) ->
   state cb' = StateHalfOpen /\ state (fst (Execute 160 161 (Some tt) cb')) = StateOpen).
Proof.
  intros cb calls. apply (breaker_recovers calls cb 160 161 tt); try reflexivity; try done.
  apply (run_op_inv OpFailure 100), new_inv.
Defined.

(** a half-open breaker does not limit trial requests: any number of calls
    is let through before the first outcome is recorded. *)
Theorem half_open_unlimited (times : list Z) (cb : CircuitBreaker) (Hs : state cb = StateHalfOpen) :
  fold_left (fun '(cb, oks) now => let '(cb, r) := Allow now cb in (cb, oks ++ [r])%list) times (cb, [])
  = (cb, map (fun _ => None) times).
Proof.
  assert (H : forall oks, fold_left (fun '(cb, oks) now => let '(cb, r) := Allow now cb in (cb, oks ++ [r])%list)
    times (cb, oks) = (cb, oks ++ map (fun _ => None) times)%list); [|apply H].
  induction times as [|t times IH]; intros oks; cbn; [by rewrite app_nil_r|].
  unfold Allow at 2. rewrite Hs, IH. by rewrite <- app_assoc.
Qed.

Lemma half_open_unlimited_witness :
  let cb := fst (Allow 60 (RecordFailure 1 (NewCircuitBreaker 0 "svc" (mkConfig 1 50 1)))) in
  fold_left (fun '(cb, oks) now => let '(cb, r) := Allow now cb in (cb, oks ++ [r])%list) [61; 62; 63] (cb, [])
  = (cb, [None; None; None]).
Proof. intros cb. apply (half_open_unlimited [61; 62; 63] cb). reflexivity. Defined.

(** [RecordSuccess] reads the state without the lock. When a failure of
    another call runs between that read and the rest of it, the failure opens
    the half-open breaker and the late success, if it completes the count,
    closes it again at once: the timeout is skipped and the failure forgotten. *)
Theorem record_success_race (cb : CircuitBreaker) (t1 t2 : Z) (Hinv : breaker_inv cb)
    (Hs : state cb = StateHalfOpen)
    (Hlast : halfOpenSuccesses cb + 1 = HalfOpenRequests (config cb))
    (Hr : HalfOpenRequests (config cb) < 2 ^ 31) :
  let seen := state cb in
  let cb1 := RecordFailure t1 cb in
  let cb2 := success_in t2 seen cb1 in
  state cb1 = StateOpen /\ state cb2 = StateClosed /\ failures cb2 = 0 /\
  In (StateOpen, StateClosed) (state_log cb2).
Proof.
  destruct Hinv as (H1 & H2 & H3 & _ & Hb & _). cbv zeta. rewrite Hs. unfold RecordFailure.
  cbn [state set_lastFailure]. rewrite Hs. rewrite transitionTo_ne by (cbn; congruence).
  cbn [state set_lastFailure]. rewrite Hs. cbn [success_in halfOpenSuccesses set_successes set_lastFailure config failures].
  rewrite wrap32_small by lia. rewrite Hlast, Z.leb_refl.
  rewrite transitionTo_ne by (cbn; congruence). cbn. split_and!; [done..|].
  apply in_or_app. right. by left.
Qed.

Lemma record_success_race_witness :
  let cb := fst (Allow 60 (RecordFailure 1 (NewCircuitBreaker 0 "svc" (mkConfig 1 50 1)))) in
  let seen := state cb in
  let cb1 := RecordFailure 61 cb in
  let cb2 := success_in 62 seen cb1 in
  state cb1 = StateOpen /\ state cb2 = StateClosed /\ failures cb2 = 0 /\
  In (StateOpen, StateClosed) (state_log cb2).
Proof.
  intros cb. apply (record_success_race cb 61 62); try reflexivity.
  apply (run_op_inv OpAllow 60), (run_op_inv OpFailure 1), new_inv.
Defined.
