(* ===== verification/Retry.v ===== *)
(** Retries with exponential backoff: [pkg/integration/retry.go].

    A [time.Duration] is its nanoseconds; [float64] is the IEEE-754 binary64
    of [SpecFloat].  Converting a float outside [int64] to an integer is
    implementation-dependent in Go, so that case is the parameter [overflow].

    The function retried, the context and the random source are an [Env]: what
    they answer at each attempt.  The loops run on fuel; [do_stops] shows that
    [MaxAttempts] rounds suffice.  Logging and metrics are left out. *)

From Stdlib Require Import ZArith Lia SpecFloat.
From stdpp Require Import base strings list.
From S2P Require Import Prelude GoStrings.

#[local] Open Scope string_scope.
#[local] Open Scope Z_scope.

(** ** float64 *)
Definition f_of_int (z : Z) : float64 := binary_normalize 53 1024 z 0 false.
Definition f_mul (a b : float64) : float64 := SFmul 53 1024 a b.
Definition f_add (a b : float64) : float64 := SFadd 53 1024 a b.
Definition f_sub (a b : float64) : float64 := SFsub 53 1024 a b.
Definition f_lt (a b : float64) : bool := SFltb a b.
Definition f_le (a b : float64) : bool := SFleb a b.

(** The integer part of a finite float. *)
Definition f_trunc (neg : bool) (m : positive) (e : Z) : Z :=
  let v := if 0 <=? e then Z.pos m * 2 ^ e else Z.pos m / 2 ^ (- e) in
  if neg then - v else v.

(** ** Errors, as [errors.Is] and [errors.As] see them *)
Record GoError := mkError {
  is_deadline_exceeded : bool;
  as_op_error : bool;
  as_net_error : option (bool * bool);   (** [Timeout()], [Temporary()] *)
  as_http_error : option Z;              (** the [StatusCode] *)
  Error : string
}.

Definition Contains (s sub : string) : bool :=
  match String.index 0 sub s with Some _ => true | None => false end.

Definition IsRetryableStatusCode (statusCode : Z) : bool :=
  if (statusCode =? 429) || (statusCode =? 502) || (statusCode =? 503) || (statusCode =? 504)
  then true else 500 <=? statusCode.

Definition retryablePatterns : list string :=
  ["connection refused"; "connection reset"; "broken pipe"; "no such host"; "temporary failure";
   "service unavailable"; "bad gateway"; "gateway timeout"; "too many requests"; "i/o timeout";
   "network is unreachable"].

(** [IsRetryable] of a non-nil error. *)
Definition IsRetryable (err : GoError) : bool :=
  if is_deadline_exceeded err then true
  else if as_op_error err then true
  else if match as_net_error err with Some (timeout, temporary) => timeout || temporary | None => false end
  then true
  else match as_http_error err with
       | Some statusCode => IsRetryableStatusCode statusCode
       | None => existsb (Contains (ToLower (Error err))) retryablePatterns
       end.

(** ** Configuration *)
Record RetryConfig := mkRetryConfig {
  MaxAttempts : Z;
  BaseDelay : Z;
  MaxDelay : Z;
  Multiplier : float64;
  Jitter : float64;
  RetryIf : option (GoError -> bool)
}.

Definition f_zero : float64 := S754_zero false.
Definition f_one : float64 := f_of_int 1.
Definition f_two : float64 := f_of_int 2.
Definition f_quarter : float64 := S754_finite false 4503599627370496 (-54).

Definition DefaultRetryConfig : RetryConfig :=
  mkRetryConfig 3 (100 * Millisecond) (30 * Second) f_two f_quarter None.

(** [NewRetryer]; a [Retryer] is its configuration. *)
Definition NewRetryer (c : RetryConfig) : RetryConfig :=
  mkRetryConfig
    (if MaxAttempts c <=? 0 then 3 else MaxAttempts c)
    (if BaseDelay c <=? 0 then 100 * Millisecond else BaseDelay c)
    (if MaxDelay c <=? 0 then 30 * Second else MaxDelay c)
    (if f_le (Multiplier c) f_zero then f_two else Multiplier c)
    (if f_lt (Jitter c) f_zero || f_lt f_one (Jitter c) then f_quarter else Jitter c)
    (RetryIf c).

Definition isRetryable (c : RetryConfig) (err : GoError) : bool :=
  match RetryIf c with Some f => f err | None => IsRetryable err end.

(** What the outside answers at attempt [k]: the result of [fn], [ctx.Err()]
    after it, the error of the context if its end wins the wait, and the value
    of [rand.Float64()]. *)
Record Env (T : Type) := mkEnv {
  fn : Z -> T * option GoError;
  ctx_err : Z -> option GoError;
  wait_err : Z -> option GoError;
  rand : Z -> float64
}.
Arguments mkEnv {T} _ _ _ _.
Arguments fn {T} _ _.
Arguments ctx_err {T} _ _.
Arguments wait_err {T} _ _.
Arguments rand {T} _ _.

Section Retry.
Variable overflow : float64 -> Z.

(** [time.Duration(f)]. *)
Definition int_of_float (f : float64) : Z :=
  match f with
  | S754_zero _ => 0
  | S754_finite neg m e => if in_int64 (f_trunc neg m e) then f_trunc neg m e else overflow f
  | _ => overflow f
  end.

Definition addJitter (c : RetryConfig) (r : float64) (delay : Z) : Z :=
  if f_le (Jitter c) f_zero then delay
  else
    let jitterRange := f_mul (f_of_int delay) (Jitter c) in
    let jitter := f_mul (f_sub (f_mul r f_two) f_one) jitterRange in
    let result := int_of_float (f_add (f_of_int delay) jitter) in
    if result <? 0 then delay else result.

Definition next_delay (c : RetryConfig) (delay : Z) : Z :=
  let delay := int_of_float (f_mul (f_of_int delay) (Multiplier c)) in
  if MaxDelay c <? delay then MaxDelay c else delay.

(** A run: the error returned, the number of calls of [fn], and the calls of
    [OnRetry] with the attempt, the error and the delay waited. *)
Record Run (T : Type) := mkRun {
  value : T;
  err : option GoError;
  calls : Z;
  retries : list (Z * GoError * Z)
}.

(** [Do]'s loop from attempt [attempt]; [None] only when the fuel runs out. *)
Fixpoint do_loop (fuel : nat) (c : RetryConfig) (env : Env unit) (attempt delay : Z)
    (lastErr : option GoError) (log : list (Z * GoError * Z)) : option (Run unit) :=
  match fuel with
  | O => None
  | S fuel' =>
      if attempt <=? MaxAttempts c then
        match snd (fn env attempt) with
        | None => Some (mkRun _ tt None attempt log)
        | Some e =>
            match ctx_err env attempt with
            | Some ce => Some (mkRun _ tt (Some ce) attempt log)
            | None =>
                if MaxAttempts c <=? attempt then Some (mkRun _ tt (Some e) attempt log)
                else if negb (isRetryable c e) then Some (mkRun _ tt (Some e) attempt log)
                else
                  let actualDelay := addJitter c (rand env attempt) delay in
                  let log := (log ++ [(attempt, e, actualDelay)])%list in
                  match wait_err env attempt with
                  | Some ce => Some (mkRun _ tt (Some ce) attempt log)
                  | None => do_loop fuel' c env (attempt + 1) (next_delay c delay) (Some e) log
                  end
            end
        end
      else Some (mkRun _ tt lastErr (attempt - 1) log)
  end.

Definition retry_fuel (c : RetryConfig) : nat := S (Z.to_nat (MaxAttempts c)).

Definition Do (c : RetryConfig) (env : Env unit) : option (Run unit) :=
  do_loop (retry_fuel c) c env 1 (BaseDelay c) None [].

(** [DoWithResult]'s loop; [zero] is the zero value of [T]. *)
Fixpoint result_loop {T} (zero : T) (fuel : nat) (c : RetryConfig) (env : Env T) (attempt delay : Z)
    (lastErr : option GoError) (log : list (Z * GoError * Z)) : option (Run T) :=
  match fuel with
  | O => None
  | S fuel' =>
      if attempt <=? MaxAttempts c then
        match fn env attempt with
        | (res, None) => Some (mkRun _ res None attempt log)
        | (_, Some e) =>
            match ctx_err env attempt with
            | Some ce => Some (mkRun _ zero (Some ce) attempt log)
            | None =>
                if MaxAttempts c <=? attempt then Some (mkRun _ zero (Some e) attempt log)
                else if negb (isRetryable c e) then Some (mkRun _ zero (Some e) attempt log)
                else
                  let actualDelay := addJitter c (rand env attempt) delay in
                  let log := (log ++ [(attempt, e, actualDelay)])%list in
                  match wait_err env attempt with
                  | Some ce => Some (mkRun _ zero (Some ce) attempt log)
                  | None => result_loop zero fuel' c env (attempt + 1) (next_delay c delay) (Some e) log
                  end
            end
        end
      else Some (mkRun _ zero lastErr (attempt - 1) log)
  end.

Definition DoWithResult {T} (zero : T) (c : RetryConfig) (env : Env T) : option (Run T) :=
  result_loop zero (retry_fuel c) c env 1 (BaseDelay c) None [].

Definition Retry (env : Env unit) : option (Run unit) := Do (NewRetryer DefaultRetryConfig) env.
Definition RetryWithConfig (c : RetryConfig) (env : Env unit) : option (Run unit) := Do (NewRetryer c) env.

(** ** Specification *)

(** Attempt [k] fails in a way that lets the next one run. *)
Definition retried {T} (c : RetryConfig) (env : Env T) (k : Z) : Prop :=
  k < MaxAttempts c /\ ctx_err env k = None /\ wait_err env k = None /\
  exists e, snd (fn env k) = Some e /\ isRetryable c e = true.

(** Attempt [k] is the last one, and the run returns [r] after it. *)
Definition ends {T} (c : RetryConfig) (env : Env T) (k : Z) (r : option GoError) : Prop :=
  match snd (fn env k) with
  | None => r = None
  | Some e =>
      match ctx_err env k with
      | Some ce => r = Some ce
      | None =>
          if (MaxAttempts c <=? k) || negb (isRetryable c e) then r = Some e
          else exists ce, wait_err env k = Some ce /\ r = Some ce
      end
  end.

(** The nominal delay before attempt [k + 1]. *)
Fixpoint nominal (c : RetryConfig) (k : nat) : Z :=
  match k with O => BaseDelay c | S k' => next_delay c (nominal c k') end.

Lemma result_loop_spec {T} (zero : T) c env : forall fuel attempt delay lastErr log,
  1 <= attempt <= MaxAttempts c -> MaxAttempts c - attempt < Z.of_nat fuel ->
  (forall j, 1 <= j < attempt -> retried c env j) ->
  exists r, result_loop zero fuel c env attempt delay lastErr log = Some r /\
    attempt <= calls _ r <= MaxAttempts c /\ ends c env (calls _ r) (err _ r) /\
    (err _ r = None -> value _ r = fst (fn env (calls _ r))) /\
    (forall j, 1 <= j < calls _ r -> retried c env j).
Proof.
  induction fuel as [|fuel IH]; intros attempt delay lastErr log Ha Hf Hret; [lia|].
  cbn [result_loop]. rewrite (proj2 (Z.leb_le _ _)) by lia.
  assert (Hend : forall v e log, ends c env attempt e -> (e = None -> v = fst (fn env attempt)) ->
    exists r, Some (mkRun T v e attempt log) = Some r /\
      attempt <= calls _ r <= MaxAttempts c /\ ends c env (calls _ r) (err _ r) /\
      (err _ r = None -> value _ r = fst (fn env (calls _ r))) /\
      (forall j, 1 <= j < calls _ r -> retried c env j)).
  { intros v e log' He Hv. eexists. split; [reflexivity|]. cbn. split_and!; done || lia. }
  unfold ends in Hend. destruct (fn env attempt) as [res [e|]] eqn:Efn; cbn [snd fst] in *.
  - destruct (ctx_err env attempt) as [ce|] eqn:Ec; [by apply Hend|].
    destruct (Z.leb_spec (MaxAttempts c) attempt) as [Hm|Hm]; [by apply Hend|].
    destruct (isRetryable c e) eqn:Er; cbn [negb]; [|by apply Hend].
    destruct (wait_err env attempt) as [ce|] eqn:Ew; [apply Hend; [by exists ce | done]|].
    destruct (IH (attempt + 1) (next_delay c delay) (Some e)
      (log ++ [(attempt, e, addJitter c (rand env attempt) delay)])%list) as (r & -> & Hc & He & Hv & Hj);
      [lia..| |].
    { intros j Hj. destruct (decide (j = attempt)) as [->|]; [|apply Hret; lia].
      split_and!; [done..|]. exists e. by rewrite Efn. }
    exists r. split_and!; try done; lia.
  - by apply Hend.
Qed.

Lemma result_loop_do c env : forall fuel attempt delay lastErr log,
  result_loop tt fuel c env attempt delay lastErr log = do_loop fuel c env attempt delay lastErr log.
Proof.
  induction fuel as [|fuel IH]; intros attempt delay lastErr log; [done|]. cbn.
  destruct (attempt <=? MaxAttempts c); [|done]. destruct (fn env attempt) as [[] [e|]]; cbn; [|done].
  destruct (ctx_err env attempt); [done|]. destruct (MaxAttempts c <=? attempt); [done|].
  destruct (negb (isRetryable c e)); [done|]. destruct (wait_err env attempt); [done|]. apply IH.
Qed.

(** The log of a run holds one entry per failed round, with the jittered nominal delay. *)
Lemma result_loop_log {T} (zero : T) c env : forall fuel attempt k lastErr log r,
  result_loop zero fuel c env attempt (nominal c k) lastErr log = Some r ->
  exists l, retries _ r = (log ++ l)%list /\
    forall i a e d, l !! i = Some (a, e, d) ->
      a = attempt + Z.of_nat i /\ d = addJitter c (rand env a) (nominal c (k + i)).
Proof.
  induction fuel as [|fuel IH]; intros attempt k lastErr log r; [done|]. cbn [result_loop].
  assert (Hnil : forall v e n, Some (mkRun T v e n log) = Some r -> exists l, retries _ r = (log ++ l)%list /\
    forall i a e d, l !! i = Some (a, e, d) ->
      a = attempt + Z.of_nat i /\ d = addJitter c (rand env a) (nominal c (k + i))).
  { intros v e n [= <-]. exists []. cbn. split; [by rewrite app_nil_r | done]. }
  destruct (attempt <=? MaxAttempts c); [|apply Hnil]. destruct (fn env attempt) as [res [e|]]; [|apply Hnil].
  destruct (ctx_err env attempt); [apply Hnil|]. destruct (MaxAttempts c <=? attempt); [apply Hnil|].
  destruct (negb (isRetryable c e)); [apply Hnil|].
  set (x := (attempt, e, addJitter c (rand env attempt) (nominal c k))).
  assert (Hx : forall l i a e0 d, (forall i a e d, l !! i = Some (a, e, d) ->
      a = attempt + 1 + Z.of_nat i /\ d = addJitter c (rand env a) (nominal c (S k + i))) ->
    (x :: l)%list !! i = Some (a, e0, d) ->
    a = attempt + Z.of_nat i /\ d = addJitter c (rand env a) (nominal c (k + i))).
  { intros l [|i] a e0 d Hl; cbn; [intros [= <- _ <-] | intros H].
    - rewrite Z.add_0_r, Nat.add_0_r. done.
    - destruct (Hl _ _ _ _ H) as [-> ->]. replace (S k + i)%nat with (k + S i)%nat by lia.
      split; [lia | done]. }
  destruct (wait_err env attempt) as [ce|].
  - intros [= <-]. exists [x]. cbn [retries]. split; [done|]. intros i a e0 d. apply Hx. by intros [] ? ? ?.
  - intros H. change (next_delay c (nominal c k)) with (nominal c (S k)) in H.
    destruct (IH _ _ _ _ _ H) as (l & -> & Hl). exists (x :: l). rewrite <- app_assoc. split; [done|].
    intros i a e0 d. by apply Hx.
Qed.

Lemma nominal_le c k : nominal c k <= Z.max (BaseDelay c) (MaxDelay c).
Proof.
  destruct k as [|k]; cbn; [lia|]. unfold next_delay.
  destruct (Z.ltb_spec (MaxDelay c) (int_of_float (f_mul (f_of_int (nominal c k)) (Multiplier c)))); lia.
Qed.

Lemma addJitter_off c r d : f_le (Jitter c) f_zero = true -> addJitter c r d = d.
Proof. unfold addJitter. by intros ->. Qed.

Lemma NewRetryer_attempts c : 1 <= MaxAttempts (NewRetryer c).
Proof. cbn. destruct (Z.leb_spec (MaxAttempts c) 0); lia. Qed.
End Retry.

(** ** Properties *)

(** a retried call returns after at least one and at most [MaxAttempts]
    calls of the function. Every call before the last failed with a retryable
    error under a live context, and the last one decides the result: success,
    the context's error, or its own error when it is not retryable or the
    attempts are used up. The value returned with success is the last call's. *)
Theorem retry_correct {T : Type} (overflow : float64 -> Z) (zero : T) (cfg : RetryConfig) (env : Env T) :
  let c := NewRetryer cfg in
  exists r, DoWithResult overflow zero c env = Some r /\
    1 <= calls _ r <= MaxAttempts c /\ ends c env (calls _ r) (err _ r) /\
    (err _ r = None -> value _ r = fst (fn env (calls _ r))) /\
    (forall j, 1 <= j < calls _ r -> retried c env j).
Proof.
  intros c. pose proof (NewRetryer_attempts cfg) as Hm. fold c in Hm.
  apply result_loop_spec; [lia| |lia]. unfold retry_fuel. lia.
Qed.

(** [Do] and [DoWithResult], two copies of one loop, agree: same calls, same
    retries, same delays and same error on every run. *)
Theorem Do_DoWithResult (overflow : float64 -> Z) (c : RetryConfig) (env : Env unit) :
  Do overflow c env = DoWithResult overflow tt c env.
Proof. symmetry. apply result_loop_do. Qed.

(** the delays: retry number [i] waits the [i]-th nominal delay with jitter
    applied, and no nominal delay exceeds [MaxDelay], or [BaseDelay] where that
    is larger; with jitter switched off no wait does. *)
Theorem retry_delays {T : Type} (overflow : float64 -> Z) (zero : T) (c : RetryConfig) (env : Env T) (r : Run T)
    (H : DoWithResult overflow zero c env = Some r) :
  forall i a e d, retries _ r !! i = Some (a, e, d) ->
    a = 1 + Z.of_nat i /\
    d = addJitter overflow c (rand env a) (nominal overflow c i) /\
    nominal overflow c i <= Z.max (BaseDelay c) (MaxDelay c) /\
    (f_le (Jitter c) f_zero = true -> d <= Z.max (BaseDelay c) (MaxDelay c)).
Proof.
  unfold DoWithResult in H. change (BaseDelay c) with (nominal overflow c 0) in H at 1.
  apply result_loop_log in H as (l & Hr & Hl). cbn [app] in Hr. rewrite Hr. intros i a e d Hi.
  destruct (Hl _ _ _ _ Hi) as [-> ->]. cbn [Nat.add]. split_and!; [done..|apply nominal_le|].
  intros Hj. rewrite addJitter_off by done. apply nominal_le.
Qed.

Lemma retry_delays_witness :
  let bad := mkError true false None None "deadline" in
  let env := mkEnv (fun k => (k, if k <? 4 then Some bad else None)) (fun _ => None) (fun _ => None) (fun _ => f_zero) in
  let c := NewRetryer (mkRetryConfig 5 10 35 f_two f_zero None) in
  match DoWithResult (fun _ => 0) 0 c env with
  | Some r =>
      retries _ r = [(1, bad, 10); (2, bad, 20); (3, bad, 35)] /\
      forall i a e d, retries _ r !! i = Some (a, e, d) ->
        a = 1 + Z.of_nat i /\
        d = addJitter (fun _ => 0) c (rand env a) (nominal (fun _ => 0) c i) /\
        nominal (fun _ => 0) c i <= Z.max (BaseDelay c) (MaxDelay c) /\
        (f_le (Jitter c) f_zero = true -> d <= Z.max (BaseDelay c) (MaxDelay c))
  | None => False
  end.
Proof.
  intros bad env c. destruct (DoWithResult (fun _ => 0) 0 c env) as [r|] eqn:E; [|vm_compute in E; discriminate].
  split; [|exact (retry_delays (fun _ => 0) 0 c env r E)].
  vm_compute in E. injection E as <-. reflexivity.
Defined.

(** the default schedule doubles from 100ms and is capped at 30s; with the
    default jitter of a quarter, though, a wait can exceed [MaxDelay]: at the
    cap, a random value of 0.75 waits 33.75s. *)
Theorem default_backoff (overflow : float64 -> Z) :
  map (nominal overflow DefaultRetryConfig) (seq 0 11)
  = map (Z.mul Millisecond) [100; 200; 400; 800; 1600; 3200; 6400; 12800; 25600; 30000; 30000] /\
  addJitter overflow DefaultRetryConfig (S754_finite false 3 (-2)) (MaxDelay DefaultRetryConfig)
  = MaxDelay DefaultRetryConfig + 3750 * Millisecond.
Proof. split; vm_compute; reflexivity. Qed.
