(* ===== verification/MemoryCache.v ===== *)
(** The in-memory LRU cache of [internal/cache/memory.go].

    [container/list] elements have an identity ([e_id]), by which [Remove] and
    [MoveToFront] find them; [items] maps keys to elements and [lru] holds the
    list from front to back.  Values are byte strings, copied in and out.  Times
    are nanoseconds; each reading of the clock is an argument.  The glob
    matching of [path/filepath] and the JSON codec of arbitrary values are
    parameters; the JSON codec of [int64] that [Incr] and [Decr] use is
    defined. *)

From Stdlib Require Import ZArith Lia Ascii.
From stdpp Require Import base strings list gmap.
From S2P Require Import Prelude GoStrings.

#[local] Open Scope string_scope.
#[local] Open Scope Z_scope.

Record Config := mkConfig { DefaultTTL : Z; MaxMemory : Z; MaxItems : Z }.

(** A list element and the [*memoryEntry] it holds. *)
Record Elem := mkElem {
  e_id : nat;
  key : string;
  value : string;
  expiresAt : Z;
  size : Z
}.

Record MemoryCache := mkCache {
  items : gmap string Elem;
  lru : list Elem;
  config : Config;
  currentMem : Z;
  hits : Z;
  misses : Z;
  stopped : bool;
  next_id : nat   (** the identity of the next list element *)
}.

Inductive CacheError := ErrCacheMiss | ErrNotANumber | ErrBadPattern | ErrJSON | ErrFetch.

Definition NewMemoryCache (cfg : Config) : MemoryCache :=
  mkCache ∅ [] (mkConfig (if DefaultTTL cfg =? 0 then 5 * Minute else DefaultTTL cfg) (MaxMemory cfg)
                  (MaxItems cfg)) 0 0 0 false 0.

Definition slen (s : string) : Z := Z.of_nat (String.length s).

(** [list.Remove] of the element with identity [id]. *)
Fixpoint list_Remove (id : nat) (l : list Elem) : list Elem :=
  match l with
  | [] => []
  | e :: l' => if Nat.eqb (e_id e) id then l' else e :: list_Remove id l'
  end.

Definition with_list (it : gmap string Elem) (l : list Elem) (mem : Z) (c : MemoryCache) : MemoryCache :=
  mkCache it l (config c) mem (hits c) (misses c) (stopped c) (next_id c).

Definition count_hit (c : MemoryCache) : MemoryCache :=
  mkCache (items c) (lru c) (config c) (currentMem c) (hits c + 1) (misses c) (stopped c) (next_id c).
Definition count_miss (c : MemoryCache) : MemoryCache :=
  mkCache (items c) (lru c) (config c) (currentMem c) (hits c) (misses c + 1) (stopped c) (next_id c).

Definition deleteInternal (k : string) (c : MemoryCache) : MemoryCache :=
  match items c !! k with
  | Some elem =>
      with_list (delete k (items c)) (list_Remove (e_id elem) (lru c)) (currentMem c - size elem) c
  | None => c
  end.

Definition delete_keys (ks : list string) (c : MemoryCache) : MemoryCache :=
  fold_left (fun c k => deleteInternal k c) ks c.

Definition cleanup (now : Z) (c : MemoryCache) : MemoryCache :=
  let toDelete := map fst (filter (fun kv => expiresAt kv.2 < now) (map_to_list (items c))) in
  delete_keys toDelete c.

(** The two loops of [evict]: while [over] holds, drop the entry at the back. *)
Fixpoint evict_while (over : MemoryCache -> bool) (fuel : nat) (c : MemoryCache) : MemoryCache :=
  match fuel with
  | O => c
  | S fuel' =>
      if over c then
        match last (lru c) with
        | None => c
        | Some oldest => evict_while over fuel' (deleteInternal (key oldest) c)
        end
      else c
  end.

Definition len (c : MemoryCache) : Z := Z.of_nat (length (lru c)).

Definition over_memory (needed : Z) (c : MemoryCache) : bool :=
  (0 <? len c) && (0 <? MaxMemory (config c)) && (MaxMemory (config c) <? currentMem c + needed).

Definition over_items (c : MemoryCache) : bool :=
  (0 <? len c) && (0 <? MaxItems (config c)) && (MaxItems (config c) <=? len c).

Definition evict (needed : Z) (c : MemoryCache) : MemoryCache :=
  let c := evict_while (over_memory needed) (length (lru c)) c in
  evict_while over_items (length (lru c)) c.

Definition Get (now : Z) (k : string) (c : MemoryCache) : MemoryCache * result CacheError string :=
  match items c !! k with
  | None => (count_miss c, Err ErrCacheMiss)
  | Some elem =>
      if expiresAt elem <? now then (count_miss (deleteInternal k c), Err ErrCacheMiss)
      else (count_hit (with_list (items c) (elem :: list_Remove (e_id elem) (lru c)) (currentMem c) c),
            Ok (value elem))
  end.

(** [lru.PushFront] of a new entry, recorded in [items]. *)
Definition push_entry (k v : string) (exp : Z) (c : MemoryCache) : MemoryCache :=
  let elem := mkElem (next_id c) k v exp (slen v) in
  mkCache (<[k := elem]> (items c)) (elem :: lru c) (config c) (currentMem c + slen v)
    (hits c) (misses c) (stopped c) (S (next_id c)).

Definition Set_ (now : Z) (k v : string) (ttl : Z) (c : MemoryCache) : MemoryCache :=
  let ttl := if ttl =? 0 then DefaultTTL (config c) else ttl in
  let c := deleteInternal k c in
  let c := evict (slen v) c in
  push_entry k v (now + ttl) c.

Definition Delete (k : string) (c : MemoryCache) : MemoryCache := deleteInternal k c.

Definition Exists (now : Z) (k : string) (c : MemoryCache) : bool :=
  match items c !! k with
  | None => false
  | Some elem => now <? expiresAt elem
  end.

(** [json.Unmarshal] into an [int64], and [json.Marshal] of one: white space
    around an integer literal in range, or [null], which leaves the zero. *)
Definition is_json_space (c : ascii) : bool :=
  Ascii.eqb c " " || Ascii.eqb c tab || Ascii.eqb c newline || Ascii.eqb c creturn.

Fixpoint trim_left (s : string) : string :=
  match s with
  | String c s' => if is_json_space c then trim_left s' else s
  | EmptyString => s
  end.

Fixpoint trim_right (s : string) : string :=
  match s with
  | EmptyString => EmptyString
  | String c s' => match trim_right s' with
                   | EmptyString => if is_json_space c then EmptyString else String c EmptyString
                   | t => String c t
                   end
  end.

Definition json_int_literal (s : string) : bool :=
  let digits := match s with String c s' => if Ascii.eqb c "-" then s' else s | _ => s end in
  match digits with
  | EmptyString => false
  | String c s' => str_forall is_digit digits && (negb (Ascii.eqb c "0") || String.eqb s' "")
  end.

Definition unmarshal_int64 (data : string) : option Z :=
  let s := trim_right (trim_left data) in
  if String.eqb s "null" then Some 0
  else if json_int_literal s then match ParseInt s with Ok z => Some z | Err _ => None end
  else None.

(** The value [Incr] and [Decr] start from. *)
Definition current_counter (now : Z) (k : string) (c : MemoryCache) : result CacheError Z :=
  match items c !! k with
  | Some elem =>
      if now <? expiresAt elem then
        match unmarshal_int64 (value elem) with Some z => Ok z | None => Err ErrNotANumber end
      else Ok 0
  | None => Ok 0
  end.

(** The common body of [Incr] and [Decr]: no eviction, and the default TTL. *)
Definition add_counter (delta now now' : Z) (k : string) (c : MemoryCache) : MemoryCache * result CacheError Z :=
  match current_counter now k c with
  | Err e => (c, Err e)
  | Ok z =>
      let v := wrap64 (z + delta) in
      let c := match items c !! k with
               | Some elem => with_list (items c) (list_Remove (e_id elem) (lru c)) (currentMem c - size elem) c
               | None => c
               end in
      (push_entry k (Itoa v) (now' + DefaultTTL (config c)) c, Ok v)
  end.

Definition Incr := add_counter 1.
Definition Decr := add_counter (-1).

Definition Clear (c : MemoryCache) : MemoryCache := with_list ∅ [] 0 c.

Definition Close (c : MemoryCache) : MemoryCache :=
  mkCache ∅ [] (config c) 0 (hits c) (misses c) true (next_id c).

Record Stats := mkStats { Hits : Z; Misses : Z; Keys_ : Z; MemoryUsed : Z }.

Definition Cache_Stats (c : MemoryCache) : Stats :=
  mkStats (hits c) (misses c) (Z.of_nat (base.size (items c))) (currentMem c).

Fixpoint MGet (now : Z) (ks : list string) (c : MemoryCache) : MemoryCache * list (option string) :=
  match ks with
  | [] => (c, [])
  | k :: ks' =>
      let '(c, r) := Get now k c in
      let '(c, rs) := MGet now ks' c in
      (c, match r with Ok v => Some v | Err _ => None end :: rs)
  end.

(** [MSet] visits its map in the order of the list. *)
Definition MSet (now : Z) (kvs : list (string * string)) (ttl : Z) (c : MemoryCache) : MemoryCache :=
  fold_left (fun c kv => Set_ now kv.1 kv.2 ttl c) kvs c.

Section Library.
(** [filepath.Match]: [None] is [ErrBadPattern]. *)
Variable Match : string -> string -> option bool.

Fixpoint matching (pattern : string) (ks : list string) : option (list string) :=
  match ks with
  | [] => Some []
  | k :: ks' =>
      match Match pattern k with
      | None => None
      | Some m =>
          match matching pattern ks' with
          | None => None
          | Some l => Some (if m then k :: l else l)
          end
      end
  end.

Definition DeletePattern (pattern : string) (c : MemoryCache) : MemoryCache * result CacheError unit :=
  match matching pattern (map fst (map_to_list (items c))) with
  | None => (c, Err ErrBadPattern)
  | Some ks => (delete_keys ks c, Ok tt)
  end.

Definition Keys (now : Z) (pattern : string) (c : MemoryCache) : result CacheError (list string) :=
  match matching pattern
          (map fst (filter (fun kv => ~ expiresAt kv.2 < now) (map_to_list (items c)))) with
  | None => Err ErrBadPattern
  | Some ks => Ok ks
  end.

(** JSON values. *)
Variable any : Type.
Variable Marshal : any -> option string.
Variable Unmarshal : string -> option any.

Definition GetJSON (now : Z) (k : string) (c : MemoryCache) : MemoryCache * result CacheError any :=
  match Get now k c with
  | (c, Err e) => (c, Err e)
  | (c, Ok data) => match Unmarshal data with Some v => (c, Ok v) | None => (c, Err ErrJSON) end
  end.

Definition SetJSON (now : Z) (k : string) (v : any) (ttl : Z) (c : MemoryCache) : MemoryCache * result CacheError unit :=
  match Marshal v with
  | None => (c, Err ErrJSON)
  | Some data => (Set_ now k data ttl c, Ok tt)
  end.

(** [fetch] is what the callback returns, [None] its error. *)
Definition GetOrSet (now now' : Z) (k : string) (ttl : Z) (fetch : option any) (c : MemoryCache) :
    MemoryCache * result CacheError any :=
  match GetJSON now k c with
  | (c, Ok cached) => (c, Ok cached)
  | (c, Err _) =>
      match fetch with
      | None => (c, Err ErrFetch)
      | Some v => (fst (SetJSON now' k v ttl c), Ok v)
      end
  end.
End Library.

(** ** The invariant *)
Definition total (l : list Elem) : Z := foldr Z.add 0 (map size l).

Record inv (c : MemoryCache) : Prop := mkInv {
  inv_ids : NoDup (map e_id (lru c));
  inv_keys : NoDup (map key (lru c));
  inv_items : forall k e, items c !! k = Some e <-> e ∈ lru c /\ key e = k;
  inv_mem : currentMem c = total (lru c);
  inv_size : Forall (fun e => size e = slen (value e)) (lru c);
  inv_next : Forall (fun e => (e_id e < next_id c)%nat) (lru c)
}.

(** The list without the entry of key [k]. *)
Definition without (k : string) (l : list Elem) : list Elem := filter (fun e => key e <> k) l.

Lemma total_app a b : total (a ++ b)%list = total a + total b.
Proof. unfold total. induction a as [|e a IH]; cbn in *; lia. Qed.

Lemma without_absent k l : k ∉ map key l -> without k l = l.
Proof.
  intros H. induction l as [|e l IH]; [done|]. cbn [map] in H.
  rewrite not_elem_of_cons in H. destruct H as [H1 H2]. unfold without. rewrite filter_cons_True by done.
  f_equal. by apply IH.
Qed.

Lemma list_Remove_without l e : NoDup (map e_id l) -> NoDup (map key l) -> e ∈ l ->
  list_Remove (e_id e) l = without (key e) l /\ total (without (key e) l) = total l - size e.
Proof.
  induction l as [|x l IH]; intros Hid Hkey He; [by apply elem_of_nil in He|]. cbn in Hid, Hkey.
  apply NoDup_cons in Hid as [Hid1 Hid2]. apply NoDup_cons in Hkey as [Hk1 Hk2]. cbn [list_Remove].
  destruct (Nat.eqb_spec (e_id x) (e_id e)) as [Heq|Hne].
  - assert (x = e) as ->.
    { apply elem_of_cons in He as [->|He]; [done|]. destruct Hid1. rewrite Heq.
      apply list_elem_of_In, in_map. by apply list_elem_of_In. }
    unfold without. rewrite filter_cons_False by tauto. fold (without (key e) l).
    rewrite without_absent by done. split; [done|]. unfold total. cbn. lia.
  - apply elem_of_cons in He as [->|He]; [done|]. destruct (IH Hid2 Hk2 He) as [-> Ht].
    assert (key x <> key e).
    { intros E. apply Hk1. rewrite E. apply list_elem_of_In, in_map. by apply list_elem_of_In. }
    unfold without in *. rewrite filter_cons_True by done. split; [done|].
    unfold total in *. cbn. lia.
Qed.

Lemma NoDup_map_filter {A} (f : Elem -> A) (P : Elem -> Prop) `{forall e, Decision (P e)} l :
  NoDup (map f l) -> NoDup (map f (filter P l)).
Proof.
  induction l as [|x l IH]; intros Hn; [done|]. cbn in Hn. apply NoDup_cons in Hn as [H1 H2].
  destruct (decide (P x)) as [HP|HP]; [rewrite filter_cons_True by done | rewrite filter_cons_False by done; auto].
  cbn. constructor; [|auto]. intros Hin. apply H1. apply list_elem_of_In in Hin.
  apply in_map_iff in Hin as (y & <- & Hy). apply list_elem_of_In, list_elem_of_filter in Hy as [_ Hy].
  apply list_elem_of_In, in_map. by apply list_elem_of_In.
Qed.

Lemma Forall_filter (Q P : Elem -> Prop) `{forall e, Decision (P e)} l : Forall Q l -> Forall Q (filter P l).
Proof. rewrite !Forall_forall. intros HQ x [_ Hx]%list_elem_of_filter. auto. Qed.

Lemma delete_spec k c : inv c -> inv (deleteInternal k c) /\ lru (deleteInternal k c) = without k (lru c) /\
  config (deleteInternal k c) = config c /\ next_id (deleteInternal k c) = next_id c.
Proof.
  intros [Hid Hkey Hit Hmem Hsz Hnx]. unfold deleteInternal.
  destruct (items c !! k) as [e|] eqn:E.
  - apply Hit in E as [He <-]. destruct (list_Remove_without _ _ Hid Hkey He) as [Hrem Htot].
    cbn [lru config next_id with_list]. split; [|done].
    split; cbn [items lru currentMem config next_id with_list]; rewrite ?Hrem.
    + by apply NoDup_map_filter.
    + by apply NoDup_map_filter.
    + intros k' e'. rewrite lookup_delete_Some, Hit. unfold without. rewrite list_elem_of_filter.
      split; [intros (H1 & H2 & <-); auto | intros ((H1 & H2) & <-); auto].
    + lia.
    + by apply Forall_filter.
    + by apply Forall_filter.
  - split; [by split|]. split; [|done]. rewrite without_absent; [done|]. intros Hin.
    apply list_elem_of_In, in_map_iff in Hin as (e & Hk & He%list_elem_of_In).
    assert (items c !! k = Some e) by (by apply Hit). congruence.
Qed.

Lemma delete_keys_spec ks : forall c, inv c -> inv (delete_keys ks c) /\
  lru (delete_keys ks c) = filter (fun e => key e ∉ ks) (lru c) /\
  config (delete_keys ks c) = config c /\ next_id (delete_keys ks c) = next_id c.
Proof.
  induction ks as [|k ks IH]; intros c Hi;
    [|change (delete_keys (k :: ks) c) with (delete_keys ks (deleteInternal k c))].
  - split; [done|]. split; [|done]. cbn. induction (lru c) as [|e l IHl]; [done|].
    rewrite filter_cons_True by (apply not_elem_of_nil). by f_equal.
  - destruct (delete_spec k c Hi) as (H1 & H2 & H3 & H4).
    destruct (IH _ H1) as (H5 & H6 & H7 & H8). split; [done|]. rewrite H6, H7, H8, H2, H3, H4.
    split; [|done]. unfold without. rewrite list_filter_filter. apply list_filter_iff.
    intros e. rewrite not_elem_of_cons. tauto.
Qed.

Lemma last_without l e : NoDup (map key l) -> last l = Some e -> without (key e) l = take (length l - 1) l.
Proof.
  intros Hk Hl. apply last_Some in Hl as [l' ->]. rewrite length_app, map_app in *. cbn [length map] in *.
  replace (length l' + 1 - 1)%nat with (length l') by lia. rewrite take_app_length.
  apply NoDup_app in Hk as (_ & Hd & _). unfold without. rewrite filter_app.
  rewrite filter_cons_False by tauto. rewrite app_nil_r. apply without_absent.
  intros Hin. by apply (Hd _ Hin), list_elem_of_singleton.
Qed.

Lemma take_one_less {A} (l : list A) n : (n <= length l)%nat -> take (n - 1) l = take (length (take n l) - 1) (take n l).
Proof. intros H. rewrite length_take, take_take. f_equal. lia. Qed.

(** A loop of [evict] whose condition depends on the list only (as it does
    under the invariant) keeps the longest prefix of the list on which the
    condition fails. *)
Lemma evict_while_spec (over : MemoryCache -> bool) (f : list Elem -> bool) (cfg : Config) fuel :
  (forall c, inv c -> config c = cfg -> over c = f (lru c)) -> f [] = false ->
  forall c, inv c -> config c = cfg -> (length (lru c) <= fuel)%nat ->
  exists n, (n <= length (lru c))%nat /\
    inv (evict_while over fuel c) /\ lru (evict_while over fuel c) = take n (lru c) /\
    config (evict_while over fuel c) = cfg /\ next_id (evict_while over fuel c) = next_id c /\
    f (take n (lru c)) = false /\ forall m, (n < m <= length (lru c))%nat -> f (take m (lru c)) = true.
Proof.
  intros Hover Hnil. induction fuel as [|fuel IH]; intros c Hi Hc Hl.
  - exists 0%nat. destruct (lru c) eqn:E; [|cbn in Hl; lia]. cbn [evict_while take]. rewrite E.
    split_and!; try done. cbn. lia.
  - cbn [evict_while]. rewrite (Hover c Hi Hc). destruct (f (lru c)) eqn:Ef.
    + destruct (last (lru c)) as [e|] eqn:El.
      * destruct (delete_spec (key e) c Hi) as (Hi' & Hl' & Hc' & Hn').
        rewrite (last_without _ _ (inv_keys _ Hi) El) in Hl'.
        assert (Hlen : (0 < length (lru c))%nat) by (destruct (lru c); [done | cbn; lia]).
        destruct (IH (deleteInternal (key e) c) Hi') as (n & Hn1 & H1 & H2 & H3 & H4 & H5 & H6);
          [congruence | rewrite Hl', length_take; lia|].
        rewrite Hl' in *. rewrite length_take in Hn1, H6. rewrite take_take in H2, H5.
        replace (n `min` (length (lru c) - 1))%nat with n in H2, H5 by lia.
        exists n. rewrite H4, Hn'. split_and!; try done; [lia|].
        intros m Hm. destruct (decide (m = length (lru c))) as [->|]; [by rewrite firstn_all|].
        specialize (H6 m ltac:(lia)). rewrite take_take in H6.
        by replace (m `min` (length (lru c) - 1))%nat with m in H6 by lia.
      * apply last_None in El. rewrite El in Ef. congruence.
    + exists (length (lru c)). rewrite firstn_all. split_and!; try done. intros m Hm. lia.
Qed.

(** The room an entry of [needed] bytes leaves for the rest of the list. *)
Definition fits (cfg : Config) (needed : Z) (l : list Elem) : Prop :=
  l = [] \/
  ((0 < MaxMemory cfg -> total l + needed <= MaxMemory cfg) /\
   (0 < MaxItems cfg -> Z.of_nat (length l) < MaxItems cfg)).

Lemma total_take_le n l : Forall (fun e => size e = slen (value e)) l -> total (take n l) <= total l.
Proof.
  intros H. revert n. unfold total. induction H as [|e l He _ IH]; intros [|n]; cbn; try lia.
  - assert (0 <= foldr Z.add 0 (map size l)).
    { specialize (IH 0%nat). by cbn in IH. }
    unfold slen in He. lia.
  - specialize (IH n). lia.
Qed.

(** [evict] keeps the longest prefix that leaves room. *)
Lemma evict_spec needed c : inv c -> exists n, (n <= length (lru c))%nat /\
  inv (evict needed c) /\ lru (evict needed c) = take n (lru c) /\ config (evict needed c) = config c /\
  next_id (evict needed c) = next_id c /\ fits (config c) needed (take n (lru c)) /\
  (n < length (lru c) -> ~ fits (config c) needed (take (S n) (lru c)))%nat.
Proof.
  intros Hi. set (cfg := config c).
  set (fm := fun l => (0 <? Z.of_nat (length l)) && (0 <? MaxMemory cfg) && (MaxMemory cfg <? total l + needed)).
  set (fi := fun l : list Elem => (0 <? Z.of_nat (length l)) && (0 <? MaxItems cfg) && (MaxItems cfg <=? Z.of_nat (length l))).
  destruct (evict_while_spec (over_memory needed) fm cfg (length (lru c))) with (c := c)
    as (n1 & Hn1 & Hi1 & Hl1 & Hc1 & Hx1 & Hf1 & Hm1); try done.
  { intros c0 Hi0 Hc0. unfold over_memory, fm, len. by rewrite (inv_mem _ Hi0), Hc0. }
  unfold evict. set (c1 := evict_while (over_memory needed) (length (lru c)) c) in *.
  destruct (evict_while_spec over_items fi cfg (length (lru c1))) with (c := c1)
    as (n2 & Hn2 & Hi2 & Hl2 & Hc2 & Hx2 & Hf2 & Hm2); try done.
  { intros c0 Hi0 Hc0. unfold over_items, fi, len. by rewrite Hc0. }
  rewrite Hl1 in Hf2, Hm2, Hn2. rewrite length_take in Hn2, Hm2. rewrite take_take in Hf2.
  replace (n2 `min` n1)%nat with n2 in Hf2 by lia.
  exists n2. split; [lia|]. split; [exact Hi2|]. split; [rewrite Hl2, Hl1, take_take; f_equal; lia|]. split; [exact Hc2|].
  split; [congruence|]. split.
  - unfold fits. destruct (decide (n2 = 0%nat)) as [->|Hne]; [by left|]. right.
    assert (Hlen : length (take n2 (lru c)) = n2) by (rewrite length_take; lia).
    unfold fi in Hf2. rewrite Hlen in *. split; intros Hpos.
    + unfold fm in Hf1. rewrite length_take in Hf1.
      assert (total (take n2 (lru c)) <= total (take n1 (lru c))).
      { replace (take n2 (lru c)) with (take n2 (take n1 (lru c))) by (rewrite take_take; f_equal; lia).
        apply total_take_le. apply Forall_take, (inv_size _ Hi). }
      rewrite !andb_false_iff, !Z.ltb_ge in Hf1. lia.
    + rewrite !andb_false_iff, !Z.ltb_ge, Z.leb_gt in Hf2. lia.
  - intros Hlt [Hnil|[Hmem Hitm]].
    { apply (f_equal length) in Hnil. rewrite length_take in Hnil. cbn [length] in Hnil. lia. }
    assert (Hlen : length (take (S n2) (lru c)) = S n2) by (rewrite length_take; lia).
    rewrite Hlen in Hitm. destruct (decide (n2 < n1)%nat) as [Hlt2|Hge].
    + specialize (Hm2 (S n2) ltac:(lia)). unfold fi in Hm2. rewrite take_take in Hm2.
      replace (S n2 `min` n1)%nat with (S n2) in Hm2 by lia. rewrite Hlen in Hm2.
      rewrite !andb_true_iff, !Z.ltb_lt, Z.leb_le in Hm2. lia.
    + assert (n2 = n1) as -> by lia. specialize (Hm1 (S n1) ltac:(lia)). unfold fm in Hm1.
      rewrite Hlen, !andb_true_iff, !Z.ltb_lt in Hm1. lia.
Qed.

Lemma push_inv k v exp c : inv c -> k ∉ map key (lru c) -> inv (push_entry k v exp c).
Proof.
  intros [Hid Hkey Hit Hmem Hsz Hnx] Hk. split; cbn [lru items push_entry currentMem next_id map e_id key].
  - constructor; [|done]. intros Hin%list_elem_of_In. apply in_map_iff in Hin as (e & He & Hin%list_elem_of_In).
    rewrite Forall_forall in Hnx. specialize (Hnx _ Hin). lia.
  - by constructor.
  - intros k' e. destruct (decide (k' = k)) as [->|Hne].
    + rewrite lookup_insert_eq, elem_of_cons. split.
      * intros [= <-]. split; [by left | done].
      * intros [[->|He] Hke]; [done|]. destruct Hk. rewrite <- Hke.
        apply list_elem_of_In, in_map. by apply list_elem_of_In.
    + rewrite lookup_insert_ne, Hit, elem_of_cons by done.
      split; [tauto|]. intros [[->|He] Hke]; [cbn in Hke; congruence | done].
  - unfold total. cbn. rewrite Hmem. unfold total. lia.
  - by constructor.
  - constructor; [cbn; lia|]. eapply Forall_impl; [exact Hnx|]. cbn. lia.
Qed.

Lemma without_key k l : k ∉ map key (without k l).
Proof.
  intros Hin%list_elem_of_In. apply in_map_iff in Hin as (e & Hk & He%list_elem_of_In).
  unfold without in He. by apply list_elem_of_filter in He as [Hne _].
Qed.

Lemma take_key k n l : k ∉ map key l -> k ∉ map key (take n l).
Proof.
  intros H Hin. apply H. apply list_elem_of_In in Hin. apply in_map_iff in Hin as (e & <- & He%list_elem_of_In).
  apply list_elem_of_In, in_map, list_elem_of_In. by eapply subseteq_take.
Qed.

(** [Set] puts the entry in front of the longest prefix of the other entries,
    most recently used first, that leaves room for it. *)
Lemma Set_spec now k v ttl c : inv c ->
  exists n, let rest := without k (lru c) in (n <= length rest)%nat /\
    inv (Set_ now k v ttl c) /\ config (Set_ now k v ttl c) = config c /\
    (exists e, lru (Set_ now k v ttl c) = e :: take n rest /\ key e = k /\ value e = v /\
       size e = slen v /\ expiresAt e = now + (if ttl =? 0 then DefaultTTL (config c) else ttl)) /\
    fits (config c) (slen v) (take n rest) /\
    (n < length rest -> ~ fits (config c) (slen v) (take (S n) rest))%nat.
Proof.
  intros Hi. unfold Set_. destruct (delete_spec k c Hi) as (Hi1 & Hl1 & Hc1 & Hn1).
  destruct (evict_spec (slen v) _ Hi1) as (n & Hn & Hi2 & Hl2 & Hc2 & Hx2 & Hfit & Hmax).
  rewrite Hl1, Hc1 in *. exists n. cbv zeta. split_and!; try done.
  - apply push_inv; [done|]. rewrite Hl2. apply take_key, without_key.
  - eexists. split; [cbn [lru push_entry]; by rewrite Hl2|]. done.
Qed.

Lemma count_hit_inv c : inv c -> inv (count_hit c).
Proof. intros [? ? ? ? ? ?]. by split. Qed.

Lemma count_miss_inv c : inv c -> inv (count_miss c).
Proof. intros [? ? ? ? ? ?]. by split. Qed.

(** Moving an element to the front keeps the invariant. *)
Lemma front_inv k e c : inv c -> items c !! k = Some e ->
  inv (with_list (items c) (e :: list_Remove (e_id e) (lru c)) (currentMem c) c) /\
  list_Remove (e_id e) (lru c) = without k (lru c).
Proof.
  intros [Hid Hkey Hit Hmem Hsz Hnx] He. apply Hit in He as [He <-].
  destruct (list_Remove_without _ _ Hid Hkey He) as [Hrem Htot]. split; [|done]. rewrite Hrem.
  assert (Hin : forall x, x ∈ e :: without (key e) (lru c) <-> x ∈ lru c).
  { intros x. rewrite elem_of_cons. unfold without. rewrite list_elem_of_filter. split; [by intros [->|[_ ?]]|].
    intros Hx. destruct (decide (key x = key e)) as [Hk|Hk]; [left|by right].
    assert (items c !! key e = Some x) as E1 by (by apply Hit).
    assert (items c !! key e = Some e) as E2 by (by apply Hit). congruence. }
  split; cbn [lru items currentMem next_id with_list map].
  - constructor; [|by apply NoDup_map_filter]. rewrite <- Hrem. intros Hc%list_elem_of_In.
    apply in_map_iff in Hc as (x & Hx & Hxin%list_elem_of_In). rewrite Hrem in Hxin.
    unfold without in Hxin. apply list_elem_of_filter in Hxin as [Hne Hxin].
    apply Hne. f_equal. clear -Hid Hx Hxin He. induction (lru c) as [|y l IH]; [by apply elem_of_nil in He|].
    cbn in Hid. apply NoDup_cons in Hid as [H1 H2].
    apply elem_of_cons in He as [->|He], Hxin as [->|Hxin]; [done | | | by apply IH]; destruct H1.
    + rewrite <- Hx. apply list_elem_of_In, in_map. by apply list_elem_of_In.
    + rewrite Hx. apply list_elem_of_In, in_map. by apply list_elem_of_In.
  - constructor; [apply without_key | by apply NoDup_map_filter].
  - intros k x. rewrite Hit, Hin. done.
  - unfold total in *. cbn. lia.
  - rewrite Forall_forall in *. intros x Hx. apply Hsz. by apply Hin.
  - rewrite Forall_forall in *. intros x Hx. apply Hnx. by apply Hin.
Qed.

Lemma Get_spec now k c : inv c -> inv (fst (Get now k c)) /\
  (forall x, x ∈ lru (fst (Get now k c)) -> x ∈ lru c) /\
  snd (Get now k c) = match items c !! k with
                      | Some e => if expiresAt e <? now then Err ErrCacheMiss else Ok (value e)
                      | None => Err ErrCacheMiss
                      end.
Proof.
  intros Hi. unfold Get. destruct (items c !! k) as [e|] eqn:E; [|split_and!; [by apply count_miss_inv | done..]].
  destruct (expiresAt e <? now); cbn [fst snd].
  - destruct (delete_spec k c Hi) as (H1 & H2 & _). split_and!; [by apply count_miss_inv | | done].
    cbn. rewrite H2. unfold without. by intros x [_ ?]%list_elem_of_filter.
  - destruct (front_inv k e c Hi E) as [H1 H2]. split_and!; [by apply count_hit_inv | | done].
    cbn. rewrite H2. intros x. rewrite elem_of_cons. intros [->|Hx].
    + by apply (inv_items _ Hi) in E as [? _].
    + unfold without in Hx. by apply list_elem_of_filter in Hx as [_ ?].
Qed.

(** [Incr] and [Decr] replace the entry as a delete and a push would. *)
Lemma add_counter_spec delta now now' k c : inv c ->
  match current_counter now k c with
  | Err e => add_counter delta now now' k c = (c, Err e)
  | Ok z => add_counter delta now now' k c =
      (push_entry k (Itoa (wrap64 (z + delta))) (now' + DefaultTTL (config c)) (deleteInternal k c),
       Ok (wrap64 (z + delta)))
  end.
Proof.
  intros Hi. unfold add_counter. destruct (current_counter now k c) as [z|e]; [|done].
  unfold deleteInternal. destruct (items c !! k) as [e|]; [|done].
  unfold push_entry, with_list. cbn. by rewrite insert_delete_eq.
Qed.

(** ** Runs of the cache next to a map of the latest writes *)
Inductive CacheOp :=
| CGet (now : Z) (k : string) | CSet (now : Z) (k v : string) (ttl : Z) | CDelete (k : string)
| CAdd (delta now now' : Z) (k : string) | CCleanup (now : Z) | CDeletePattern (pattern : string)
| CClear | CClose.

Section Runs.
Variable Match : string -> string -> option bool.

Definition run_op (op : CacheOp) (c : MemoryCache) : MemoryCache :=
  match op with
  | CGet now k => fst (Get now k c)
  | CSet now k v ttl => Set_ now k v ttl c
  | CDelete k => Delete k c
  | CAdd delta now now' k => fst (add_counter delta now now' k c)
  | CCleanup now => cleanup now c
  | CDeletePattern p => fst (DeletePattern Match p c)
  | CClear => Clear c
  | CClose => Close c
  end.

Abbreviation Writes := (gmap string (string * Z)).

(** The latest write of each key that no delete followed: value and expiry. *)
Definition write_op (op : CacheOp) (c : MemoryCache) (m : Writes) : Writes :=
  match op with
  | CGet _ _ | CCleanup _ => m
  | CSet now k v ttl => <[k := (v, now + (if ttl =? 0 then DefaultTTL (config c) else ttl))]> m
  | CDelete k => delete k m
  | CAdd delta now now' k =>
      match snd (add_counter delta now now' k c) with
      | Ok v => <[k := (Itoa v, now' + DefaultTTL (config c))]> m
      | Err _ => m
      end
  | CDeletePattern p =>
      match snd (DeletePattern Match p c) with
      | Ok _ => filter (fun kv => Match p kv.1 <> Some true) m
      | Err _ => m
      end
  | CClear | CClose => ∅
  end.

Inductive reachable (cfg : Config) : MemoryCache -> Writes -> Prop :=
| reach_new : reachable cfg (NewMemoryCache cfg) ∅
| reach_op op c m : reachable cfg c m -> reachable cfg (run_op op c) (write_op op c m).

Definition agrees (c : MemoryCache) (m : Writes) : Prop :=
  forall e, e ∈ lru c -> m !! key e = Some (value e, expiresAt e).

Lemma matching_spec p ks : forall l, matching Match p ks = Some l ->
  forall k, k ∈ l <-> k ∈ ks /\ Match p k = Some true.
Proof.
  induction ks as [|k0 ks IH]; cbn; intros l.
  - intros [= <-] k. rewrite elem_of_nil. tauto.
  - destruct (Match p k0) as [b|] eqn:Em; [|done]. destruct (matching Match p ks) as [l'|]; [|done].
    intros [= <-] k. specialize (IH l' eq_refl k). rewrite elem_of_cons.
    destruct b; rewrite ?elem_of_cons, IH; split; try tauto; naive_solver.
Qed.

Lemma agrees_sub c c' m : agrees c m -> (forall x, x ∈ lru c' -> x ∈ lru c) -> agrees c' m.
Proof. intros H Hs e He. by apply H, Hs. Qed.

(** A write of [k] keeps the agreement when the other entries were there before. *)
Lemma agrees_write c c' m k e l : agrees c m -> lru c' = e :: l -> key e = k ->
  (forall x, x ∈ l -> x ∈ lru c /\ key x <> k) ->
  agrees c' (<[k := (value e, expiresAt e)]> m).
Proof.
  intros H Hl Hk Hs x. rewrite Hl, elem_of_cons. intros [->|Hx].
  - by rewrite Hk, lookup_insert_eq.
  - destruct (Hs x Hx) as [Hx' Hne]. rewrite lookup_insert_ne by congruence. by apply H.
Qed.

Lemma cache_op_inv op c m : inv c -> agrees c m -> inv (run_op op c) /\ agrees (run_op op c) (write_op op c m).
Proof.
  intros Hi Ha. destruct op as [now k|now k v ttl|k|delta now now' k|now|p| |]; cbn [run_op write_op].
  - destruct (Get_spec now k c Hi) as (H1 & H2 & _). split; [done | by eapply agrees_sub].
  - destruct (Set_spec now k v ttl c Hi) as (n & Hn & H1 & _ & (e & Hl & Hk & Hv & _ & Hx) & _).
    split; [done|]. assert (Hs : forall x, x ∈ take n (without k (lru c)) -> x ∈ lru c /\ key x <> k);
      [|pose proof (agrees_write _ _ _ _ _ _ Ha Hl Hk Hs) as Hw; by rewrite Hv, Hx in Hw].
    intros x Hin. assert (x ∈ without k (lru c)) as Hw by (by eapply subseteq_take).
    unfold without in Hw. apply list_elem_of_filter in Hw. tauto.
  - destruct (delete_spec k c Hi) as (H1 & H2 & _). split; [done|]. intros e. unfold Delete. rewrite H2.
    unfold without. rewrite list_elem_of_filter. intros [Hne He]. rewrite lookup_delete_ne by congruence.
    by apply Ha.
  - pose proof (add_counter_spec delta now now' k c Hi) as H.
    destruct (current_counter now k c) as [z|e]; rewrite H; [|done]. cbn [fst snd].
    destruct (delete_spec k c Hi) as (H1 & H2 & _). split.
    + apply push_inv; [done|]. rewrite H2. apply without_key.
    + eapply (agrees_write c _ m k (mkElem _ k _ _ _)); [exact Ha | cbn [lru push_entry]; by rewrite H2 | done |].
      intros x Hw. unfold without in Hw. apply list_elem_of_filter in Hw. tauto.
  - unfold cleanup. destruct (delete_keys_spec (map fst (filter (fun kv => expiresAt kv.2 < now)
      (map_to_list (items c)))) c Hi) as (H1 & H2 & _). split; [done|]. eapply agrees_sub; [exact Ha|].
    rewrite H2. by intros x [_ ?]%list_elem_of_filter.
  - unfold DeletePattern. destruct (matching Match p (map fst (map_to_list (items c)))) as [ks|] eqn:Em; [|done].
    cbn [fst snd]. destruct (delete_keys_spec ks c Hi) as (H1 & H2 & _). split; [done|].
    intros e. rewrite H2, list_elem_of_filter. intros [Hne He]. apply map_lookup_filter_Some.
    split; [by apply Ha|]. cbn. intros Hm. apply Hne. apply (matching_spec _ _ _ Em). split; [|done].
    apply list_elem_of_In, in_map_iff. exists (key e, e). split; [done|].
    apply list_elem_of_In, elem_of_map_to_list. by apply (inv_items _ Hi).
  - split; [|intros e He; by apply elem_of_nil in He]. split; cbn; try done; try constructor.
    + by rewrite lookup_empty.
    + intros [He _]. by apply elem_of_nil in He.
  - split; [|intros e He; by apply elem_of_nil in He]. split; cbn; try done; try constructor.
    + by rewrite lookup_empty.
    + intros [He _]. by apply elem_of_nil in He.
Qed.

Lemma new_cache_inv cfg : inv (NewMemoryCache cfg).
Proof.
  split; cbn; try done; try constructor.
  - by rewrite lookup_empty.
  - intros [He _]. by apply elem_of_nil in He.
Qed.

Lemma Set_inv now k v ttl c : inv c -> inv (Set_ now k v ttl c).
Proof. intros Hi. by destruct (Set_spec now k v ttl c Hi) as (n & _ & H & _). Qed.

Lemma reachable_inv cfg c m : reachable cfg c m -> inv c /\ agrees c m.
Proof.
  induction 1 as [|op c m _ [H1 H2]]; [split; [apply new_cache_inv|]; intros e He; by apply elem_of_nil in He|].
  by apply cache_op_inv.
Qed.
End Runs.

(** ** Properties *)

(** C9: after any operations on a new cache, its map and its list hold the same
    entries, no key twice, and [currentMem] is the sum of their sizes; and a
    hit is never stale: [Get] returns the value of the latest write of its key
    that no delete has followed, before its expiry. *)
Theorem cache_consistent (Match : string -> string -> option bool) (cfg : Config) (c : MemoryCache)
    (m : gmap string (string * Z)) (H : reachable Match cfg c m) :
  inv c /\ Z.of_nat (base.size (items c)) = Z.of_nat (length (lru c)) /\
  forall now k v, snd (Get now k c) = Ok v -> exists exp, m !! k = Some (v, exp) /\ now <= exp.
Proof.
  destruct (reachable_inv Match cfg c m H) as [Hi Ha]. split; [done|]. split.
  - f_equal. assert (Hm : items c = list_to_map (map (fun e => (key e, e)) (lru c))).
    { apply map_eq. intros k. destruct (list_to_map (map _ (lru c)) !! k) as [e|] eqn:E.
      - apply elem_of_list_to_map_2, list_elem_of_In, in_map_iff in E as (x & [= <- ->] & Hx%list_elem_of_In).
        by apply (inv_items _ Hi).
      - destruct (items c !! k) as [e|] eqn:Ei; [|done]. apply (inv_items _ Hi) in Ei as [He <-].
        apply not_elem_of_list_to_map in E. destruct E. rewrite map_map. cbn.
        apply list_elem_of_In, in_map. by apply list_elem_of_In. }
    rewrite Hm. rewrite <- (size_dom (D := gset string)), dom_list_to_map_L, map_map. cbn.
    rewrite size_list_to_set by apply (inv_keys _ Hi). by rewrite length_map.
  - intros now k v Hg. destruct (Get_spec now k c Hi) as (_ & _ & E). rewrite E in Hg.
    destruct (items c !! k) as [e|] eqn:Ei; [|done]. destruct (Z.ltb_spec (expiresAt e) now); [done|].
    injection Hg as <-. apply (inv_items _ Hi) in Ei as [He <-]. exists (expiresAt e).
    split; [by apply Ha | done].
Qed.

Lemma cache_consistent_witness :
  let cfg := mkConfig 100 10 2 in
  let c := run_op (fun _ _ => None) (CSet 5 "b" "22" 0) (run_op (fun _ _ => None) (CSet 1 "a" "1" 50) (NewMemoryCache cfg)) in
  inv c /\ Z.of_nat (base.size (items c)) = Z.of_nat (length (lru c)) /\
  forall now k v, snd (Get now k c) = Ok v ->
    exists exp, (<["b" := ("22", 105)]> (<["a" := ("1", 51)]> ∅) : gmap string (string * Z)) !! k = Some (v, exp) /\ now <= exp.
Proof.
  intros cfg c. apply (cache_consistent (fun _ _ => None) cfg c).
  apply (reach_op _ _ (CSet 5 "b" "22" 0)), (reach_op _ _ (CSet 1 "a" "1" 50)), reach_new.
Defined.

(** [Set] evicts exactly what it must: the new entry comes first, followed by
    the longest run of the other entries, most recently used first, that leaves
    room for it, so a next lookup of the key finds the value; both limits hold
    afterwards, [MaxMemory] unless the value alone exceeds it. *)
Theorem Set_evicts_lru (now : Z) (k v : string) (ttl : Z) (c : MemoryCache) (Hinv : inv c) :
  let c' := Set_ now k v ttl c in
  exists n e, lru c' = e :: take n (without k (lru c)) /\ key e = k /\ value e = v /\
    (n <= length (without k (lru c)))%nat /\
    ((n < length (without k (lru c)))%nat -> ~ fits (config c) (slen v) (take (S n) (without k (lru c)))) /\
    (0 < MaxItems (config c) -> len c' <= MaxItems (config c)) /\
    (0 < MaxMemory (config c) -> slen v <= MaxMemory (config c) -> currentMem c' <= MaxMemory (config c)) /\
    (forall now', now' <= now + (if ttl =? 0 then DefaultTTL (config c) else ttl) ->
       snd (Get now' k c') = Ok v).
Proof.
  intros c'. destruct (Set_spec now k v ttl c Hinv) as (n & Hn & Hi & Hc & (e & Hl & Hk & Hv & Hs & Hx) & Hfit & Hmax).
  fold c' in Hi, Hc, Hl. exists n, e. split_and!; try done.
  - intros Hpos. unfold len. rewrite Hl. cbn [length].
    destruct Hfit as [->|[_ Hit]]; [cbn [length]; lia | specialize (Hit Hpos); lia].
  - intros Hpos Hsz. rewrite (inv_mem _ Hi), Hl. unfold total. cbn [map foldr]. rewrite Hs.
    fold (total (take n (without k (lru c)))).
    destruct Hfit as [->|[Hmem _]]; [cbn; lia | specialize (Hmem Hpos); lia].
  - intros now' Hnow. destruct (Get_spec now' k c' Hi) as (_ & _ & ->).
    assert (items c' !! k = Some e) as ->.
    { apply (inv_items _ Hi). split; [rewrite Hl; by left | done]. }
    rewrite (proj2 (Z.ltb_ge _ _)) by lia. by rewrite Hv.
Qed.

Lemma Set_evicts_lru_witness :
  let c := Set_ 2 "b" "22" 0 (Set_ 1 "a" "1" 0 (NewMemoryCache (mkConfig 100 4 5))) in
  let c' := Set_ 3 "c" "333" 0 c in
  exists n e, lru c' = e :: take n (without "c" (lru c)) /\ key e = "c" /\ value e = "333" /\
    (n <= length (without "c" (lru c)))%nat /\
    ((n < length (without "c" (lru c)))%nat -> ~ fits (config c) (slen "333") (take (S n) (without "c" (lru c)))) /\
    (0 < MaxItems (config c) -> len c' <= MaxItems (config c)) /\
    (0 < MaxMemory (config c) -> slen "333" <= MaxMemory (config c) -> currentMem c' <= MaxMemory (config c)) /\
    (forall now', now' <= 3 + (if 0 =? 0 then DefaultTTL (config c) else 0) -> snd (Get now' "c" c') = Ok "333").
Proof.
  intros c. apply (Set_evicts_lru 3 "c" "333" 0 c).
  do 2 apply Set_inv. apply new_cache_inv.
Defined.

(** [Incr] on a new key does not evict: a full cache grows past [MaxItems],
    by one item per new counter. *)
Theorem Incr_ignores_limits (now : Z) (k : string) (c : MemoryCache) (Hinv : inv c)
    (Hnew : items c !! k = None) :
  len (fst (Incr now now k c)) = len c + 1 /\ snd (Incr now now k c) = Ok 1 /\
  config (fst (Incr now now k c)) = config c.
Proof.
  unfold Incr, add_counter, current_counter. rewrite Hnew. unfold len. cbn [fst snd lru push_entry length].
  split; [lia|]. split; reflexivity.
Qed.

Lemma Incr_ignores_limits_witness :
  let c := Set_ 1 "a" "1" 0 (NewMemoryCache (mkConfig 100 0 1)) in
  len (fst (Incr 2 2 "n" c)) = len c + 1 /\ snd (Incr 2 2 "n" c) = Ok 1 /\ config (fst (Incr 2 2 "n" c)) = config c.
Proof.
  intros c. apply (Incr_ignores_limits 2 "n" c); [|reflexivity].
  apply Set_inv, new_cache_inv.
Defined.
