(* ===== verification/Saga.v ===== *)
(** The saga pattern of [internal/workflow/compensation]: [saga.go] (the saga
    manager and [ExecuteSaga]), [manager.go] (the workflow compensation
    manager) and [handlers.go] (the builder and the transactional saga).

    Actions and compensations are functions of the world [W] they act on; a
    [nil] error is [None].  [Now] reads the clock, which is part of the world.
    Errors keep the structure [fmt.Errorf] gives them; [Error] renders them. *)

From Stdlib Require Import ZArith Lia.
From stdpp Require Import base strings list.
From S2P Require Import Prelude GoStrings.

#[local] Open Scope string_scope.
#[local] Open Scope Z_scope.

Section Saga.
Variables (W E : Type).
(** The text of an error of the caller's own. *)
Variable E_Error : E -> string.
(** [time.Now] and [workflow.Now], nanoseconds. *)
Variable Now : W -> W * Z.

Inductive error :=
| UserError (e : E)
| CompensationFailed (name : string) (err : error)
| CompensationError (Errors : list error)
| StepFailed (name : string) (err : error) (compensate : option error)
| AttemptsExhausted (attempts : Z) (last : option error).

Fixpoint Error (err : error) : string :=
  match err with
  | UserError e => E_Error e
  | CompensationFailed n e => "compensation " ++ n ++ " failed: " ++ Error e
  | CompensationError [e] => Error e
  | CompensationError es => Itoa (Z.of_nat (length es)) ++ " compensation failures"
  | StepFailed n e None => "step " ++ n ++ " failed: " ++ Error e ++ " (compensated)"
  | StepFailed n e (Some c) =>
      "step " ++ n ++ " failed: " ++ Error e ++ " (compensation also failed: " ++ Error c ++ ")"
  | AttemptsExhausted n (Some e) => "compensation failed after " ++ Itoa n ++ " attempts: " ++ Error e
  | AttemptsExhausted n None => "compensation failed after " ++ Itoa n ++ " attempts: %!w(<nil>)"
  end.

(** [errors.Unwrap]: [CompensationError] gives its first error, [fmt.Errorf] the
    operand of its [%w]. *)
Definition Unwrap (err : error) : option error :=
  match err with
  | UserError _ => None
  | CompensationFailed _ e => Some e
  | CompensationError es => head es
  | StepFailed _ e _ => Some e
  | AttemptsExhausted _ e => e
  end.

Definition CompensationFunc : Type := W -> W * option error.

(** ** The saga manager *)
Record CompensationRecord := mkRecord {
  r_Name : string;
  r_Executed : bool;
  r_ExecutedAt : Z;
  r_Error : string;
  r_Duration : Z
}.

Record namedCompensation := mkNamed { name : string; fn : CompensationFunc }.

Record SagaManager := mkSaga {
  compensations : list namedCompensation;
  records : list CompensationRecord
}.

Definition NewSagaManager : SagaManager := mkSaga [] [].

Definition AddCompensation (n : string) (f : CompensationFunc) (s : SagaManager) : SagaManager :=
  mkSaga (compensations s ++ [mkNamed n f])%list (records s).

Definition time_sub (t u : Z) : Z := Z.max int64_min (Z.min int64_max (t - u)).

(** One turn of the loop of [Compensate]. *)
Definition run_compensation (comp : namedCompensation) (w : W) : W * CompensationRecord * option error :=
  let '(w, start) := Now w in
  let '(w, err) := fn comp w in
  let '(w, at_) := Now w in
  let '(w, stop) := Now w in
  (w, mkRecord (name comp) true at_ (match err with Some e => Error e | None => "" end) (time_sub stop start),
   option_map (CompensationFailed (name comp)) err).

(** The loop, on the compensations in the order it visits them. *)
Fixpoint compensate_loop (comps : list namedCompensation) (w : W) : W * list CompensationRecord * list error :=
  match comps with
  | [] => (w, [], [])
  | comp :: comps' =>
      let '(w, r, err) := run_compensation comp w in
      let '(w, rs, errs) := compensate_loop comps' w in
      (w, r :: rs, match err with Some e => e :: errs | None => errs end)
  end.

Definition collect (errs : list error) : option error :=
  match errs with [] => None | _ => Some (CompensationError errs) end.

Definition Compensate (s : SagaManager) (w : W) : W * SagaManager * option error :=
  let '(w, rs, errs) := compensate_loop (rev (compensations s)) w in
  (w, mkSaga (compensations s) (records s ++ rs)%list, collect errs).

Definition Clear (s : SagaManager) : SagaManager := mkSaga [] (records s).
Definition Records (s : SagaManager) : list CompensationRecord := records s.
Definition Count (s : SagaManager) : Z := Z.of_nat (length (compensations s)).

Record SagaStep := mkStep {
  Name : string;
  Action : W -> W * option error;
  Compensation : option CompensationFunc
}.

Definition register (step : SagaStep) (s : SagaManager) : SagaManager :=
  match Compensation step with
  | Some f => AddCompensation (Name step) f s
  | None => s
  end.

Fixpoint saga_loop (steps : list SagaStep) (saga : SagaManager) (w : W) :
    W * list CompensationRecord * option error :=
  match steps with
  | [] => (w, [], None)
  | step :: steps' =>
      match Action step w with
      | (w, Some err) =>
          let '(w, saga, compensateErr) := Compensate saga w in
          (w, Records saga, Some (StepFailed (Name step) err compensateErr))
      | (w, None) => saga_loop steps' (register step saga) w
      end
  end.

Definition ExecuteSaga (steps : list SagaStep) (w : W) : W * list CompensationRecord * option error :=
  saga_loop steps NewSagaManager w.

(** ** [handlers.go] *)
Record CompensationBuilder := mkBuilder { b_name : string; b_fn : CompensationFunc }.

Fixpoint retry_loop (n : nat) (maxAttempts : Z) (originalFn : CompensationFunc) (lastErr : option error) (w : W) :
    W * option error :=
  match n with
  | O => (w, Some (AttemptsExhausted maxAttempts lastErr))
  | S n' =>
      match originalFn w with
      | (w, Some err) => retry_loop n' maxAttempts originalFn (Some err) w
      | (w, None) => (w, None)
      end
  end.

Definition WithRetry (maxAttempts : Z) (b : CompensationBuilder) : CompensationBuilder :=
  mkBuilder (b_name b) (fun w => retry_loop (Z.to_nat maxAttempts) maxAttempts (b_fn b) None w).

Record TransactionalSaga := mkTx { manager : SagaManager; committed : bool }.

Definition NewTransactionalSaga : TransactionalSaga := mkTx NewSagaManager false.
Definition Commit (s : TransactionalSaga) : TransactionalSaga := mkTx (manager s) true.

Definition Rollback (s : TransactionalSaga) (w : W) : W * TransactionalSaga * option error :=
  if committed s then (w, s, None)
  else let '(w, m, err) := Compensate (manager s) w in (w, mkTx m (committed s), err).

(** ** The workflow compensation manager *)
Variables (any RetryPolicy : Type).
(** [temporal.RetryPolicy] built from its four fields; the coefficient is
    always [2.0] in this code and is passed as the integer 2. *)
Variable mkRetryPolicy : Z -> Z -> Z -> Z -> RetryPolicy.

Record ActivityOptions := mkOptions { StartToCloseTimeout : Z; o_RetryPolicy : RetryPolicy }.

(** A [WorkflowCompensationFunc] on a context that carries the options. *)
Definition WorkflowCompensationFunc : Type := ActivityOptions -> any -> W -> W * option error.

Record CompensationStep := mkCompStep {
  ActivityName : string;
  CompensateFn : WorkflowCompensationFunc;
  Input : any;
  Timeout : Z;
  s_RetryPolicy : option RetryPolicy;
  Idempotent : bool;
  AllowSkip : bool
}.

Inductive CompensationStatus :=
  CompensationPending | CompensationRunning | CompensationCompleted | CompensationStatusFailed | CompensationSkipped.

Record CompensationExecutionRecord := mkExec {
  x_ActivityName : string;
  Status : CompensationStatus;
  x_ExecutedAt : Z;
  x_Duration : Z;
  x_Error : string;
  Retries : Z
}.

Record CompensationManager := mkManager {
  m_compensations : list CompensationStep;
  executed : list string;
  m_records : list CompensationExecutionRecord
}.

Definition NewCompensationManager : CompensationManager := mkManager [] [] [].

Definition RegisterCompensation (step : CompensationStep) (cm : CompensationManager) : CompensationManager :=
  let step := if Timeout step =? 0
              then mkCompStep (ActivityName step) (CompensateFn step) (Input step) (30 * Second)
                     (s_RetryPolicy step) (Idempotent step) (AllowSkip step)
              else step in
  mkManager (m_compensations cm ++ [step])%list (executed cm) (m_records cm).

Definition RegisterSimple (activityName : string) (f : WorkflowCompensationFunc) (input : any)
    (cm : CompensationManager) : CompensationManager :=
  RegisterCompensation (mkCompStep activityName f input (30 * Second) None true false) cm.

Definition RecordExecution (activityName : string) (cm : CompensationManager) : CompensationManager :=
  mkManager (m_compensations cm) (executed cm ++ [activityName])%list (m_records cm).

Definition IsExecuted (activityName : string) (cm : CompensationManager) : bool :=
  existsb (fun n => String.eqb n activityName) (executed cm).

Definition executeCompensation (step : CompensationStep) (w : W) : W * option error :=
  let options := mkOptions (Timeout step)
    (match s_RetryPolicy step with
     | Some p => p
     | None => mkRetryPolicy Second 2 (30 * Second) 3
     end) in
  CompensateFn step options (Input step) w.

(** One turn of the loop for an executed activity. *)
Definition execute_step (comp : CompensationStep) (w : W) : W * CompensationExecutionRecord * list error :=
  let '(w, start) := Now w in
  let '(w, err) := executeCompensation comp w in
  let '(w, at_) := Now w in
  let record st msg := mkExec (ActivityName comp) st at_ (time_sub at_ start) msg 0 in
  match err with
  | Some e => (w, record CompensationStatusFailed (Error e),
               if AllowSkip comp then [] else [CompensationFailed (ActivityName comp) e])
  | None => (w, record CompensationCompleted "", [])
  end.

Fixpoint manager_loop (comps : list CompensationStep) (cm : CompensationManager) (w : W) :
    W * CompensationManager * list error :=
  match comps with
  | [] => (w, cm, [])
  | comp :: comps' =>
      if negb (IsExecuted (ActivityName comp) cm) then manager_loop comps' cm w
      else
        let '(w, r, errs) := execute_step comp w in
        let '(w, cm, errs') :=
          manager_loop comps' (mkManager (m_compensations cm) (executed cm) (m_records cm ++ [r])%list) w in
        (w, cm, (errs ++ errs')%list)
  end.

Definition Manager_Compensate (cm : CompensationManager) (w : W) : W * CompensationManager * option error :=
  let '(w, cm, errs) := manager_loop (rev (m_compensations cm)) cm w in (w, cm, collect errs).

Definition selected (activityNames : list string) (comps : list CompensationStep) : list CompensationStep :=
  filter (fun comp => ActivityName comp ∈ activityNames) comps.

Definition CompensatePartial (activityNames : list string) (cm : CompensationManager) (w : W) :
    W * CompensationManager * option error :=
  let '(w, cm, errs) := manager_loop (rev (selected activityNames (m_compensations cm))) cm w in
  (w, cm, collect errs).

Definition ExecutedCount (cm : CompensationManager) : Z := Z.of_nat (length (executed cm)).
Definition CompensationCount (cm : CompensationManager) : Z := Z.of_nat (length (m_compensations cm)).
Definition Manager_Clear (cm : CompensationManager) : CompensationManager := mkManager [] [] [].

(** ** Sagas *)
(** The actions of [steps] all succeed, taking [w] to [w']. *)
Inductive actions : list SagaStep -> W -> W -> Prop :=
| actions_nil w : actions [] w w
| actions_cons step steps w w1 w' :
    Action step w = (w1, None) -> actions steps w1 w' -> actions (step :: steps) w w'.

(** The compensations of [steps] are run once each, in this order, whatever
    they return; each run reads the clock once before and twice after. *)
Inductive undone : list SagaStep -> W -> W -> list (string * option error) -> Prop :=
| undone_nil w : undone [] w w []
| undone_none step steps w w' os :
    Compensation step = None -> undone steps w w' os -> undone (step :: steps) w w' os
| undone_some step steps f w w1 w' err os :
    Compensation step = Some f -> f (fst (Now w)) = (w1, err) ->
    undone steps (fst (Now (fst (Now w1)))) w' os ->
    undone (step :: steps) w w' ((Name step, err) :: os).

(** The error [Compensate] makes of the outcomes. *)
Definition failures (os : list (string * option error)) : list error :=
  omap (fun o => option_map (CompensationFailed o.1) o.2) os.

Definition registered (steps : list SagaStep) : list namedCompensation :=
  omap (fun step => option_map (mkNamed (Name step)) (Compensation step)) steps.

Lemma registered_app a b : registered (a ++ b)%list = (registered a ++ registered b)%list.
Proof.
  unfold registered. induction a as [|s a IH]; [done|]. cbn.
  destruct (option_map _ _); cbn; by rewrite IH.
Qed.

Lemma registered_rev a : rev (registered a) = registered (rev a).
Proof.
  induction a as [|s a IH]; [done|]. cbn [rev]. rewrite registered_app, <- IH. cbn.
  destruct (Compensation s); cbn; [done | by rewrite app_nil_r].
Qed.

Lemma register_compensations step s :
  compensations (register step s) = (compensations s ++ registered [step])%list /\
  records (register step s) = records s.
Proof. unfold register, registered. cbn. destruct (Compensation step); cbn; by rewrite ?app_nil_r. Qed.

Lemma compensate_loop_undone steps w : exists w' rs os,
  compensate_loop (registered steps) w = (w', rs, failures os) /\ undone steps w w' os /\
  map (fun r => (r_Name r, r_Error r)) rs =
    map (fun o => (o.1, match o.2 with Some e => Error e | None => "" end)) os.
Proof.
  revert w. induction steps as [|s steps IH]; intros w.
  - exists w, [], []. repeat split. constructor.
  - destruct (Compensation s) as [f|] eqn:Ef.
    + replace (registered (s :: steps)) with (mkNamed (Name s) f :: registered steps)
        by (unfold registered; cbn; by rewrite Ef).
      cbn [compensate_loop]. unfold run_compensation. cbn [fn name].
      destruct (Now w) as [w0 start] eqn:E0. destruct (f w0) as [w1 err] eqn:E1.
      destruct (Now w1) as [w2 at_] eqn:E2. destruct (Now w2) as [w3 stop] eqn:E3.
      destruct (IH w3) as (w' & rs & os & -> & Hu & Hr). exists w', (mkRecord (Name s) true at_
        (match err with Some e => Error e | None => "" end) (time_sub stop start) :: rs), ((Name s, err) :: os).
      split; [|split].
      * unfold failures. cbn. by destruct err.
      * eapply undone_some; [done| | ]; [rewrite E0; exact E1 | rewrite E2; cbn; rewrite E3; exact Hu].
      * cbn. by rewrite Hr.
    + destruct (IH w) as (w' & rs & os & H1 & H2 & H3). exists w', rs, os.
      replace (registered (s :: steps)) with (registered steps) by (unfold registered; cbn; by rewrite Ef).
      split; [done|]. split; [by constructor | done].
Qed.

(** What a saga that has completed [before] does on [steps]. *)
Lemma saga_loop_spec steps : forall before s w0 w,
  compensations s = registered before -> records s = [] -> actions before w0 w ->
  exists w' rs err, saga_loop steps s w = (w', rs, err) /\
  ((err = None /\ rs = [] /\ actions (before ++ steps) w0 w') \/
   (exists l step rest w1 w2 e os, (before ++ steps = l ++ step :: rest)%list /\ actions l w0 w1 /\
     Action step w1 = (w2, Some e) /\ undone (rev l) w2 w' os /\
     err = Some (StepFailed (Name step) e (collect (failures os))) /\
     map (fun r => (r_Name r, r_Error r)) rs =
       map (fun o => (o.1, match o.2 with Some e => Error e | None => "" end)) os)).
Proof.
  assert (Hsnoc : forall l step a b c, actions l a b -> Action step b = (c, None) -> actions (l ++ [step]) a c).
  { intros l step a b c H Ha. induction H; cbn; [eapply actions_cons; [exact Ha | constructor] | eapply actions_cons; eauto]. }
  induction steps as [|step steps IH]; intros before s w0 w Hc Hr Ha.
  - exists w, [], None. split; [done|]. left. rewrite app_nil_r. done.
  - cbn [saga_loop]. destruct (Action step w) as [w1 [e|]] eqn:Hact.
    + unfold Compensate. rewrite Hc, registered_rev.
      destruct (compensate_loop_undone (rev before) w1) as (w' & rs & os & -> & Hu & Hm). cbn.
      rewrite Hr. eexists w', _, _. split; [reflexivity|]. right.
      exists before, step, steps, w, w1, e, os. done.
    + destruct (register_compensations step s) as [H1 H2].
      destruct (IH (before ++ [step])%list (register step s) w0 w1) as (w' & rs & err & H3 & H4).
      * by rewrite H1, Hc, registered_app.
      * by rewrite H2.
      * eauto.
      * exists w', rs, err. split; [done|]. by rewrite <- app_assoc in H4.
Qed.

(** [ExecuteSaga] either runs the actions of all its steps in order and
    returns no error, or runs them up to the first that fails and then the
    compensations of the steps before it, newest first, each exactly once and
    each although earlier ones failed; the failing step itself is not
    compensated.  Its records name these compensations with their errors, and
    its error names the failed step and aggregates their failures. *)
Theorem ExecuteSaga_correct (steps : list SagaStep) (w : W) :
  exists w' rs err, ExecuteSaga steps w = (w', rs, err) /\
  ((err = None /\ rs = [] /\ actions steps w w') \/
   (exists l step rest w1 w2 e os, (steps = l ++ step :: rest)%list /\ actions l w w1 /\
     Action step w1 = (w2, Some e) /\ undone (rev l) w2 w' os /\
     err = Some (StepFailed (Name step) e (collect (failures os))) /\
     map (fun r => (r_Name r, r_Error r)) rs =
       map (fun o => (o.1, match o.2 with Some e => Error e | None => "" end)) os)).
Proof. apply (saga_loop_spec steps [] NewSagaManager w w); [done | done | constructor]. Qed.

Lemma actions_snoc_inv l step : forall w0 w1, actions (l ++ [step]) w0 w1 ->
  exists wm, actions l w0 wm /\ Action step wm = (w1, None).
Proof.
  induction l as [|x l IH]; intros w0 w1 Ha; inversion Ha as [|? ? ? wx ? Hx Hl]; subst.
  - inversion Hl; subst. eauto using actions_nil.
  - destruct (IH _ _ Hl) as (wm & Hm & Hs). exists wm. split; [econstructor; eauto | done].
Qed.

Section Atomic.
(** What other parties see of the world; the clock is not part of it. *)
Variables (S : Type) (obs : W -> S).

(** A step that leaves no trace when it fails, and whose compensation brings
    back what its action changed; a step that changes nothing needs none. *)
Definition compensable (step : SagaStep) : Prop :=
  (forall w w1 e, Action step w = (w1, Some e) -> obs w1 = obs w) /\
  (forall w w1, Action step w = (w1, None) ->
    match Compensation step with
    | None => obs w1 = obs w
    | Some f => forall w2, obs w2 = obs w1 -> exists w3, f w2 = (w3, None) /\ obs w3 = obs w
    end).

Lemma undone_obs l w0 w1 : (forall w, obs (fst (Now w)) = obs w) -> Forall compensable l -> actions l w0 w1 ->
  forall w2 w' os, obs w2 = obs w1 -> undone (rev l) w2 w' os ->
  obs w' = obs w0 /\ Forall (fun o => o.2 = None) os.
Proof.
  intros Hnow. revert w1. induction l as [|step l IH] using rev_ind; intros w1 Hl Ha w2 w' os Hobs Hu.
  - inversion Ha; subst. inversion Hu; subst. done.
  - apply Forall_app in Hl as [Hl [[_ Hok] _]%Forall_cons].
    destruct (actions_snoc_inv _ _ _ _ Ha) as (wm & Hm & Hst).
    specialize (Hok _ _ Hst). rewrite rev_app_distr in Hu. cbn in Hu. inversion Hu as
      [|? ? ? ? ? Hc Hu'|? ? f ? w3 ? err os' Hc Hf Hu']; subst; rewrite Hc in Hok.
    + apply (IH wm Hl Hm w2 w' os); [congruence | exact Hu'].
    + destruct (Hok (fst (Now w2))) as (w4 & H4 & Hobs4); [by rewrite Hnow|].
      rewrite Hf in H4. injection H4 as -> ->.
      assert (obs (fst (Now (fst (Now w4)))) = obs wm) as H5 by (rewrite Hnow, Hnow; exact Hobs4).
      destruct (IH wm Hl Hm _ _ _ H5 Hu') as [H6 H7]. split; [exact H6 | by constructor].
Qed.

(** C6: A saga of compensable steps is atomic: either every action has taken
    effect, or the observable state is the one it started from and the error
    says that the failed step was compensated. *)
Theorem ExecuteSaga_atomic (steps : list SagaStep) (w : W)
    (Hnow : forall w, obs (fst (Now w)) = obs w) (Hsteps : Forall compensable steps) :
  match ExecuteSaga steps w with
  | (w', rs, None) => actions steps w w' /\ rs = []
  | (w', rs, Some err) => obs w' = obs w /\ Forall (fun r => r_Error r = "") rs /\
      exists step e, step ∈ steps /\ err = StepFailed (Name step) e None
  end.
Proof.
  destruct (saga_loop_spec steps [] NewSagaManager w w eq_refl eq_refl (actions_nil w)) as (w' & rs & err & H & Hc).
  unfold ExecuteSaga. rewrite H. cbn in Hc.
  destruct Hc as [(-> & -> & Ha)|(l & step & rest & w1 & w2 & e & os & -> & Ha & Hst & Hu & -> & Hr)]; [done|].
  apply Forall_app in Hsteps as [Hl [[Hfail _] _]%Forall_cons].
  destruct (undone_obs l w w1 Hnow Hl Ha w2 w' os (Hfail _ _ _ Hst) Hu) as [Hobs Hos]. split; [done|].
  assert (failures os = []) as -> by (clear -Hos; induction Hos as [|[n o] os Ho _ IH]; [done|]; cbn in Ho; by subst).
  split.
  - clear -Hr Hos. revert rs Hr. induction Hos as [|[n o] os Ho _ IH]; intros [|r rs] Hr; try done.
    cbn in Hr, Ho. injection Hr as _ Hr1 Hr2. subst o. constructor; [done | by apply IH].
  - exists step, e. split; [|done]. apply elem_of_app. right. by left.
Qed.
End Atomic.

(** ** The workflow compensation manager *)
(** The compensations of [comps] are run once each, in this order, whatever
    they return, each with its own timeout and policy. *)
Inductive compensated : list CompensationStep -> W -> W -> list (option error) -> Prop :=
| compensated_nil w : compensated [] w w []
| compensated_cons comp comps w w1 w' err os :
    executeCompensation comp (fst (Now w)) = (w1, err) -> compensated comps (fst (Now w1)) w' os ->
    compensated (comp :: comps) w w' (err :: os).

(** The failures that count. *)
Fixpoint reported (comps : list CompensationStep) (os : list (option error)) : list error :=
  match comps, os with
  | comp :: comps', Some e :: os' =>
      if AllowSkip comp then reported comps' os' else CompensationFailed (ActivityName comp) e :: reported comps' os'
  | _ :: comps', None :: os' => reported comps' os'
  | _, _ => []
  end.

Definition exec_summary (r : CompensationExecutionRecord) : string * CompensationStatus * string :=
  (x_ActivityName r, Status r, x_Error r).
Definition outcome_summary (o : CompensationStep * option error) : string * CompensationStatus * string :=
  match o.2 with
  | None => (ActivityName o.1, CompensationCompleted, "")
  | Some e => (ActivityName o.1, CompensationStatusFailed, Error e)
  end.

Definition with_records (rs : list CompensationExecutionRecord) (cm : CompensationManager) : CompensationManager :=
  mkManager (m_compensations cm) (executed cm) (m_records cm ++ rs)%list.

Lemma execute_step_spec comp w : exists w1 r err,
  executeCompensation comp (fst (Now w)) = (w1, err) /\
  execute_step comp w = (fst (Now w1), r,
    match err with
    | Some e => if AllowSkip comp then [] else [CompensationFailed (ActivityName comp) e]
    | None => []
    end) /\ exec_summary r = outcome_summary (comp, err).
Proof.
  unfold execute_step. destruct (Now w) as [w0 start]. cbn [fst].
  destruct (executeCompensation comp w0) as [w1 err]. destruct (Now w1) as [w2 at_] eqn:E2.
  destruct err as [e|]; eexists w1, _, _; rewrite E2; repeat split.
Qed.

Lemma manager_loop_spec comps : forall cm w,
  let planned := filter (fun comp => IsExecuted (ActivityName comp) cm) comps in
  exists w' rs os, manager_loop comps cm w = (w', with_records rs cm, reported planned os) /\
    compensated planned w w' os /\ map exec_summary rs = map outcome_summary (combine planned os).
Proof.
  induction comps as [|comp comps IH]; intros cm w planned.
  - exists w, [], []. destruct cm. unfold with_records. cbn. rewrite app_nil_r. repeat split. constructor.
  - cbn [manager_loop]. destruct (IsExecuted (ActivityName comp) cm) eqn:HE; cbn [negb].
    2: { subst planned. rewrite filter_cons_False by (rewrite HE; exact (fun H => H)). apply IH. }
    subst planned. rewrite filter_cons_True by (rewrite HE; exact I).
    destruct (execute_step_spec comp w) as (w1 & r & err & Hrun & -> & Hr).
    fold (with_records [r] cm). destruct (IH (with_records [r] cm) (fst (Now w1))) as (w' & rs & os & -> & H2 & H3).
    exists w', (r :: rs), (err :: os). split; [|split].
    + unfold with_records. cbn [m_compensations executed m_records reported]. rewrite <- app_assoc.
      by destruct err, (AllowSkip comp).
    + by eapply compensated_cons.
    + cbn [map combine]. by rewrite H3, Hr.
Qed.

(** [CompensationManager.Compensate] runs the compensation of every
    registered step whose activity was executed, newest first, each exactly
    once and each whatever the others return, [AllowSkip] or not.  The records
    name them with their status.  It fails exactly when a step without
    [AllowSkip] failed, with these failures in order.  Nothing is unregistered:
    a second call would run them all again, [Idempotent] or not. *)
Theorem Manager_Compensate_correct (cm : CompensationManager) (w : W) :
  let planned := filter (fun comp => IsExecuted (ActivityName comp) cm) (rev (m_compensations cm)) in
  exists w' cm' os, Manager_Compensate cm w = (w', cm', collect (reported planned os)) /\
    compensated planned w w' os /\ length os = length planned /\
    m_compensations cm' = m_compensations cm /\ executed cm' = executed cm /\
    (exists rs, m_records cm' = m_records cm ++ rs /\ map exec_summary rs = map outcome_summary (combine planned os))%list /\
    (collect (reported planned os) = None <->
      Forall (fun o => AllowSkip o.1 = true \/ o.2 = None) (combine planned os)).
Proof.
  intros planned. destruct (manager_loop_spec (rev (m_compensations cm)) cm w) as (w' & rs & os & H1 & H2 & H3).
  exists w', (with_records rs cm), os. unfold Manager_Compensate. rewrite H1. split; [done|].
  fold planned in H1, H2, H3. split; [done|].
  assert (length os = length planned) as Hlen by (clear -H2; induction H2; cbn; congruence).
  split; [done|]. split; [done|]. split; [done|]. split; [by exists rs|].
  assert (forall l : list error, collect l = None <-> l = []) as -> by (intros [|]; split; done).
  clear -H2. induction H2 as [|comp comps w w1 w' err os _ _ IH]; [split; [constructor | done]|].
  cbn [reported combine]. rewrite Forall_cons. cbn [fst snd]. destruct err as [e|]; [|tauto].
  destruct (AllowSkip comp); [tauto|]. split; [done | intros [[?|?] _]; done].
Qed.

(** The loop without the manager: the executed steps are fixed when it starts. *)
Fixpoint run_steps (comps : list CompensationStep) (w : W) : W * list CompensationExecutionRecord * list error :=
  match comps with
  | [] => (w, [], [])
  | comp :: comps' =>
      let '(w, r, errs) := execute_step comp w in
      let '(w, rs, errs') := run_steps comps' w in
      (w, r :: rs, (errs ++ errs')%list)
  end.

Lemma manager_loop_run comps : forall cm w, manager_loop comps cm w =
  let '(w', rs, errs) := run_steps (filter (fun comp => IsExecuted (ActivityName comp) cm) comps) w in
  (w', with_records rs cm, errs).
Proof.
  induction comps as [|comp comps IH]; intros cm w.
  - cbn. unfold with_records. rewrite app_nil_r. by destruct cm.
  - cbn [manager_loop]. destruct (IsExecuted (ActivityName comp) cm) eqn:HE; cbn [negb].
    + rewrite filter_cons_True by (rewrite HE; exact I). cbn [run_steps].
      destruct (execute_step comp w) as [[w1 r] errs]. rewrite IH.
      unfold IsExecuted, with_records. cbn [m_compensations executed m_records].
      destruct (run_steps _ w1) as [[w2 rs] errs']. by rewrite <- app_assoc.
    + rewrite filter_cons_False by (rewrite HE; exact (fun H => H)). apply IH.
Qed.

Lemma list_filter_all {A} (P : A -> Prop) `{forall x, Decision (P x)} (l : list A) : (forall x, x ∈ l -> P x) -> filter P l = l.
Proof.
  induction l as [|x l IH]; intros Hl; [done|]. rewrite filter_cons_True by (apply Hl; by left).
  f_equal. apply IH. intros y Hy. apply Hl. by right.
Qed.

Lemma filter_rev {A} (P : A -> Prop) `{forall x, Decision (P x)} (l : list A) : filter P (rev l) = rev (filter P l).
Proof.
  induction l as [|x l IH]; [done|]. cbn [rev]. rewrite filter_app, IH. destruct (decide (P x)).
  - by rewrite !filter_cons_True.
  - rewrite !filter_cons_False by done. cbn. by rewrite app_nil_r.
Qed.

Lemma selected_executed names cm :
  filter (fun comp => IsExecuted (ActivityName comp) cm) (rev (selected names (m_compensations cm))) =
  filter (fun comp => IsExecuted (ActivityName comp)
      (mkManager (m_compensations cm) (filter (fun n => n ∈ names) (executed cm)) (m_records cm)))
    (rev (m_compensations cm)).
Proof.
  unfold selected. rewrite <- filter_rev, list_filter_filter. apply list_filter_iff. intros comp.
  unfold IsExecuted. cbn [executed]. rewrite !Is_true_true, !existsb_exists. split.
  - intros [(n & H1 & H2) H3]. exists n. split; [|done]. apply list_elem_of_In, list_elem_of_filter.
    apply String.eqb_eq in H2 as ->. split; [done | by apply list_elem_of_In].
  - intros (n & [H1 H3]%list_elem_of_In%list_elem_of_filter & H2). pose proof H2 as ->%String.eqb_eq.
    split; [|done]. exists (ActivityName comp). split; [by apply list_elem_of_In | done].
Qed.

(** Compensating part of a workflow is compensating all of a workflow in
    which only the named activities were executed: same runs, same records,
    same error.  Naming every executed activity compensates everything. *)
Theorem CompensatePartial_restricts (names : list string) (cm : CompensationManager) (w : W) :
  (let '(w', cm', err) := Manager_Compensate
      (mkManager (m_compensations cm) (filter (fun n => n ∈ names) (executed cm)) (m_records cm)) w in
   CompensatePartial names cm w = (w', mkManager (m_compensations cm) (executed cm) (m_records cm'), err)) /\
  ((forall n, n ∈ executed cm -> n ∈ names) -> CompensatePartial names cm w = Manager_Compensate cm w).
Proof.
  assert (let '(w', cm', err) := Manager_Compensate
      (mkManager (m_compensations cm) (filter (fun n => n ∈ names) (executed cm)) (m_records cm)) w in
    CompensatePartial names cm w = (w', mkManager (m_compensations cm) (executed cm) (m_records cm'), err)) as H.
  { unfold Manager_Compensate, CompensatePartial. cbn [m_compensations].
    rewrite !manager_loop_run, selected_executed. cbn [executed m_records with_records].
    destruct (run_steps _ w) as [[w' rs] errs]. done. }
  split; [exact H|]. intros Hall.
  assert (filter (fun n => n ∈ names) (executed cm) = executed cm) as Hex
    by (by apply list_filter_all).
  revert H. rewrite Hex. destruct cm as [cs ex rs]. cbn [m_compensations executed m_records].
  unfold Manager_Compensate. rewrite manager_loop_run. destruct (run_steps _ w) as [[w' rs'] errs]. done.
Qed.

(** Steps that are registered under different names: those whose names were
    recorded are planned. *)
Lemma planned_named {A} (name : A -> string) (step : A -> option CompensationStep) (p : A -> bool) (cm : CompensationManager) (l : list A) :
  (forall a s, step a = Some s -> ActivityName s = name a) -> NoDup (map name l) ->
  m_compensations cm = omap step l -> executed cm = map name (List.filter p l) ->
  filter (fun comp => IsExecuted (ActivityName comp) cm) (rev (m_compensations cm)) = rev (omap step (List.filter p l)).
Proof.
  intros Hname Hnd -> Hex. rewrite filter_rev. f_equal.
  assert (forall a, In a l -> IsExecuted (name a) cm = p a) as H.
  { intros a Ha. unfold IsExecuted. rewrite Hex. apply eq_true_iff_eq. rewrite existsb_exists. split.
    - intros (n & Hn & ->%String.eqb_eq). apply in_map_iff in Hn as (b & Eq & [Hb Hp]%List.filter_In).
      assert (b = a) as ->; [|done]. clear -Hnd Eq Ha Hb. induction l as [|c l IH]; [done|]. cbn [map] in Hnd. apply NoDup_cons in Hnd as [Hc Hnd].
      destruct Ha as [->|Ha], Hb as [->|Hb]; [done| | |by apply IH]; exfalso; apply Hc; [rewrite <- Eq|rewrite Eq]; by apply list_elem_of_In, in_map.
    - intros Hp. exists (name a). split; [apply in_map, List.filter_In; by split|apply String.eqb_refl]. }
  clear Hnd Hex. induction l as [|a l IH]; [done|]. cbn [omap list_omap List.filter].
  specialize (H a (or_introl eq_refl)) as Ha. assert (forall b, In b l -> IsExecuted (name b) cm = p b) as Hl by (intros b Hb; apply H; by right).
  specialize (IH Hl). destruct (step a) as [s|] eqn:Es.
  - destruct (p a) eqn:Hp; [rewrite filter_cons_True by (rewrite (Hname a s Es), Ha; exact I); cbn [omap list_omap]; rewrite Es; by f_equal|].
    rewrite filter_cons_False by (rewrite (Hname a s Es), Ha; by intros []). exact IH.
  - destruct (p a); [cbn [omap list_omap]; rewrite Es|]; exact IH.
Qed.
(** Some of the members of a list, in its order, are those a test picks. *)
Lemma sublist_In {A} (l' l : list A) : l' `sublist_of` l -> forall a, In a l' -> In a l.
Proof. intros Hs a Ha%list_elem_of_In. apply list_elem_of_In. by eapply elem_of_sublist. Qed.
Lemma sublist_filter {A} (name : A -> string) (l' l : list A) : NoDup (map name l) -> l' `sublist_of` l ->
  l' = List.filter (fun a => existsb (fun b => String.eqb (name b) (name a)) l') l.
Proof.
  intros Hnd Hs. induction Hs as [|a l1 l2 Hs IH|a l1 l2 Hs IH]; [done| |]; cbn [map] in Hnd; apply NoDup_cons in Hnd as [Ha Hnd];
    assert (forall b, In b l1 -> name b <> name a) as Hne by
      (intros b Hb Eq; apply Ha; rewrite <- Eq; apply list_elem_of_In, in_map; by eapply sublist_In).
  - cbn [List.filter existsb]. rewrite String.eqb_refl. cbn [orb]. f_equal. rewrite (IH Hnd) at 1. apply List.filter_ext_in. intros b Hb.
    destruct (String.eqb_spec (name a) (name b)) as [Eq|]; [|done]. exfalso. apply Ha. rewrite Eq. by apply list_elem_of_In, in_map.
  - cbn [List.filter]. assert (existsb (fun b => String.eqb (name b) (name a)) l1 = false) as ->; [|by apply IH].
    apply not_true_iff_false. rewrite existsb_exists. intros (b & Hb & Eq%String.eqb_eq). by apply (Hne b).
Qed.
End Saga.

(** A bank account: deposits that are compensated by withdrawing them, and a
    step that always fails.  The world is the balance and the clock. *)
Definition deposit (n : Z) : SagaStep (Z * Z) string :=
  mkStep _ _ "deposit" (fun w => ((w.1 + n, w.2), None)) (Some (fun w => ((w.1 - n, w.2), None))).
Definition declined : SagaStep (Z * Z) string :=
  mkStep _ _ "declined" (fun w => (w, Some (UserError string "no funds"))) None.
Definition tick (w : Z * Z) : (Z * Z) * Z := ((w.1, w.2 + 1), w.2).

Lemma ExecuteSaga_atomic_witness :
  match ExecuteSaga _ string (fun e => e) tick [deposit 10; deposit 5; declined] (100, 0) with
  | (w', rs, None) => actions _ _ [deposit 10; deposit 5; declined] (100, 0) w' /\ rs = []
  | (w', rs, Some err) => w'.1 = 100 /\ Forall (fun r => r_Error r = "") rs /\
      exists step e, step ∈ [deposit 10; deposit 5; declined] /\ err = StepFailed string (Name _ _ step) e None
  end.
Proof.
  apply (ExecuteSaga_atomic _ string (fun e => e) tick Z fst [deposit 10; deposit 5; declined] (100, 0)); [done|].
  repeat constructor; cbn; intros; simplify_eq/=; try done; eexists; (split; [reflexivity|]); cbn in *; lia.
Defined.
