(* ===== verification/DslAst.v ===== *)
(** The syntax tree of the CodeAI language: the nodes of
    [internal/ast/ast.go], positions of [internal/ast/types.go], and the
    traversal, comparison and copying of [internal/ast/helpers.go].

    A [nil] expression or statement interface is [NilExpr], [NilStmt]; a
    pointer to a block is an [option].  Maps from names to expressions are
    finite maps.  A run-time panic (a [nil] block dereferenced, a failed type
    assertion) is [None]. *)

From Stdlib Require Import ZArith Lia SpecFloat.
From Stdlib Require List.
From stdpp Require Import base strings list gmap.
From S2P Require Import Prelude GoStrings.

#[local] Open Scope string_scope.
#[local] Open Scope Z_scope.

Record Position := mkPosition { Filename : string; Line : Z; Column : Z; Offset : Z }.

Definition Position_String (p : Position) : string :=
  Filename p ++ ":" ++ Itoa (Line p) ++ ":" ++ Itoa (Column p).
Definition Position_IsValid (p : Position) : bool := 0 <? Line p.

(** ** Expressions *)
Inductive Expression :=
| NilExpr
| StringLiteral (pos : Position) (Value : string)
| NumberLiteral (pos : Position) (Value : spec_float)
| BoolLiteral (pos : Position) (Value : bool)
| Identifier (pos : Position) (Name : string)
| FunctionCall (pos : Position) (Name : string) (Args : list Expression)
| ArrayLiteral (pos : Position) (Elements : list Expression)
| BinaryExpr (pos : Position) (Left_ : Expression) (Operator : string) (Right_ : Expression)
| UnaryExpr (pos : Position) (Operator : string) (Operand : Expression).

(** ** Declarations *)
Record ConfigDecl := mkConfigDecl {
  cfg_pos : Position; cfg_DatabaseType : string; MongoDBURI : string; MongoDBName : string;
  Properties : gmap string Expression }.

Record Modifier := mkModifier { mod_pos : Position; mod_Name : string; mod_Value : Expression }.

Inductive TypeRef := mkTypeRef (pos : Position) (Name : string) (Params : list TypeRef).

Record FieldDecl := mkFieldDecl {
  fd_pos : Position; fd_Name : string; fd_Type : option TypeRef; fd_Modifiers : list Modifier }.
Record IndexDecl := mkIndexDecl { idx_pos : Position; idx_Fields : list string; idx_Unique : bool }.
Record ModelDecl := mkModelDecl {
  md_pos : Position; md_Name : string; md_Description : string;
  md_Fields : list FieldDecl; md_Indexes : list IndexDecl }.

(** Fields of documents, over the type references they nest. *)
Record MongoFieldOf (T : Type) := mkMongoField {
  mf_pos : Position; mf_Name : string; mf_Type : option T; mf_Modifiers : list Modifier }.
Arguments mkMongoField {T}. Arguments mf_pos {T}. Arguments mf_Name {T}. Arguments mf_Type {T}.
Arguments mf_Modifiers {T}.
Record EmbeddedDocOf (F : Type) := mkEmbeddedDoc { ed_pos : Position; ed_Fields : list F }.
Arguments mkEmbeddedDoc {F}. Arguments ed_pos {F}. Arguments ed_Fields {F}.

Inductive MongoTypeRef :=
  mkMongoTypeRef (pos : Position) (Name : string) (Params : list string)
    (EmbeddedDoc : option (EmbeddedDocOf (MongoFieldOf MongoTypeRef))).
Definition MongoFieldDecl : Type := MongoFieldOf MongoTypeRef.

Record MongoIndexDecl := mkMongoIndex {
  mi_pos : Position; mi_Fields : list string; mi_Unique : bool; IndexKind : string }.
Record CollectionDecl := mkCollectionDecl {
  cd_pos : Position; cd_Name : string; cd_Description : string;
  cd_Fields : list MongoFieldDecl; cd_Indexes : list MongoIndexDecl }.

Record JWKSConfig := mkJWKS { jwks_pos : Position; URL : string; Issuer : string; Audience : string }.
Record AuthDecl := mkAuthDecl {
  auth_pos : Position; auth_Name : string; Method : string; JWKS : option JWKSConfig;
  auth_Config : gmap string Expression }.
Record RoleDecl := mkRoleDecl { role_pos : Position; role_Name : string; role_Permissions : list string }.
Record MiddlewareDecl := mkMiddlewareDecl {
  mw_pos : Position; mw_Name : string; MiddlewareType : string; mw_Config : gmap string Expression }.

Record EventSchemaField := mkSchemaField { sf_pos : Position; sf_Name : string; sf_Type : string }.
Record EventSchema := mkEventSchema { es_pos : Position; es_Fields : list EventSchemaField }.
Record EventHandlerDecl := mkEventHandler {
  eh_pos : Position; EventName : string; ActionType : string; Target : string; Async : bool }.
Record EventDecl := mkEventDecl {
  ev_pos : Position; ev_Name : string; ev_Schema : option EventSchema; ev_Handlers : list EventHandlerDecl }.

Record IntegrationAuthDecl := mkIntegrationAuth {
  ia_pos : Position; AuthType : string; ia_Config : gmap string Expression }.
Record CircuitBreakerConfig := mkCircuitBreakerDecl {
  cb_pos : Position; cb_FailureThreshold : Z; cb_Timeout : string; MaxConcurrent : Z }.
Record IntegrationDecl := mkIntegrationDecl {
  ig_pos : Position; ig_Name : string; IntgType : string; BaseURL : string;
  ig_Auth : option IntegrationAuthDecl; ig_Timeout : string; ig_CircuitBreaker : option CircuitBreakerConfig }.

Record RetryPolicyDecl := mkRetryPolicyDecl {
  rp_pos : Position; rp_MaxAttempts : Z; InitialInterval : string; BackoffMultiplier : spec_float }.
Record WebhookHeader := mkWebhookHeader { wh_pos : Position; wh_Key : string; wh_Value : string }.
Record WebhookDecl := mkWebhookDecl {
  wd_pos : Position; wd_Name : string; wd_Event : string; wd_URL : string; wd_Method : string;
  wd_Headers : list WebhookHeader; wd_Retry : option RetryPolicyDecl }.

Record Trigger := mkTrigger { tr_pos : Position; TrigType : string; tr_Value : string }.
Record InputMapping := mkInputMapping { im_pos : Position; im_Key : string; im_Value : string }.
Inductive WorkflowStep :=
  mkWorkflowStep (pos : Position) (Name Activity : string) (Input : list InputMapping)
    (Condition : string) (Parallel : bool) (Steps : list WorkflowStep).
Record WorkflowDecl := mkWorkflowDecl {
  wf_pos : Position; wf_Name : string; wf_Trigger : option Trigger; wf_Steps : list WorkflowStep;
  wf_Retry : option RetryPolicyDecl; wf_Timeout : string }.
Record JobDecl := mkJobDecl {
  job_pos : Position; job_Name : string; Schedule : string; Task : string; Queue : string;
  job_Retry : option RetryPolicyDecl }.

Record RequestType := mkRequestType { rq_pos : Position; rq_TypeName : string; rq_Source : string }.
Record ResponseType := mkResponseType { rs_pos : Position; rs_TypeName : string; StatusCode : Z }.
Record Option_ := mkOption { opt_pos : Position; opt_Key : string; opt_Value : Expression }.
Record LogicStep := mkLogicStep {
  ls_pos : Position; ls_Action : string; ls_Target : string; ls_Args : list string;
  ls_Condition : string; ls_Options : list Option_ }.
Record HandlerLogic := mkHandlerLogic { hl_pos : Position; hl_Steps : list LogicStep }.
Record Handler := mkHandler {
  h_pos : Position; h_Request : option RequestType; h_Response : option ResponseType;
  h_Logic : option HandlerLogic }.
Record Annotation := mkAnnotation { an_pos : Position; an_Name : string; an_Value : string }.
Record MiddlewareRef := mkMiddlewareRef { mr_pos : Position; mr_Name : string }.
Record EndpointDecl := mkEndpointDecl {
  ep_pos : Position; ep_Method : string; ep_Path : string; ep_Handler : option Handler;
  ep_Middlewares : list MiddlewareRef; RequireRole : string; ep_Annotations : list Annotation }.

(** ** Statements *)
Record Parameter_ := mkParameter { par_Name : string; par_Type : string; Default : Expression }.

Record BlockOf (S : Type) := mkBlock { b_pos : Position; b_Statements : list S }.
Arguments mkBlock {S}. Arguments b_pos {S}. Arguments b_Statements {S}.

Inductive Statement :=
| NilStmt
| VarDecl (pos : Position) (Name : string) (Value : Expression)
| Assignment (pos : Position) (Name : string) (Value : Expression)
| IfStmt (pos : Position) (Condition : Expression) (Then Else : option (BlockOf Statement))
| ForLoop (pos : Position) (Variable_ : string) (Iterable : Expression) (Body : option (BlockOf Statement))
| FunctionDecl (pos : Position) (Name : string) (Params : list Parameter_) (Body : option (BlockOf Statement))
| ExecBlock (pos : Position) (Command : string)
| BlockStmt (b : BlockOf Statement)
| ReturnStmt (pos : Position) (Value : Expression)
| DatabaseBlock (pos : Position) (DBType Name : string) (Statements : list Statement)
| Config (d : ConfigDecl)
| Model (d : ModelDecl)
| Collection (d : CollectionDecl)
| Auth (d : AuthDecl)
| Role (d : RoleDecl)
| Middleware (d : MiddlewareDecl)
| Event (d : EventDecl)
| EventHandler (d : EventHandlerDecl)
| Integration (d : IntegrationDecl)
| Webhook (d : WebhookDecl)
| Workflow (d : WorkflowDecl)
| Job (d : JobDecl)
| Endpoint (d : EndpointDecl).

Definition Block : Type := BlockOf Statement.

Record Program_ := mkProgram { prog_pos : Position; Statements : list Statement }.

Definition stmts_of (b : option Block) : list Statement :=
  match b with Some b => b_Statements b | None => [] end.

(** ** Induction over nested lists *)
Section Expression_ind'.
Variable P : Expression -> Prop.
Hypotheses
  (Hnil : P NilExpr)
  (Hstr : forall p v, P (StringLiteral p v))
  (Hnum : forall p v, P (NumberLiteral p v))
  (Hbool : forall p v, P (BoolLiteral p v))
  (Hid : forall p n, P (Identifier p n))
  (Hcall : forall p n args, Forall P args -> P (FunctionCall p n args))
  (Harr : forall p es, Forall P es -> P (ArrayLiteral p es))
  (Hbin : forall p l op r, P l -> P r -> P (BinaryExpr p l op r))
  (Hun : forall p op e, P e -> P (UnaryExpr p op e)).

Fixpoint Expression_ind' (e : Expression) : P e :=
  let all := fix all (l : list Expression) : Forall P l :=
    match l with [] => List.Forall_nil _ | x :: l' => List.Forall_cons _ _ _ (Expression_ind' x) (all l') end in
  match e with
  | NilExpr => Hnil
  | StringLiteral p v => Hstr p v
  | NumberLiteral p v => Hnum p v
  | BoolLiteral p v => Hbool p v
  | Identifier p n => Hid p n
  | FunctionCall p n args => Hcall p n args (all args)
  | ArrayLiteral p es => Harr p es (all es)
  | BinaryExpr p l op r => Hbin p l op r (Expression_ind' l) (Expression_ind' r)
  | UnaryExpr p op e => Hun p op e (Expression_ind' e)
  end.
End Expression_ind'.

(** A statement whose kind has no nested statements. *)
Definition is_leaf (s : Statement) : bool :=
  match s with
  | IfStmt _ _ _ _ | ForLoop _ _ _ _ | FunctionDecl _ _ _ _ | BlockStmt _ | DatabaseBlock _ _ _ _ => false
  | _ => true
  end.

Section Statement_ind'.
Variable P : Statement -> Prop.
Hypotheses
  (Hleaf : forall s, is_leaf s = true -> P s)
  (Hif : forall p c t e, Forall P (stmts_of t) -> Forall P (stmts_of e) -> P (IfStmt p c t e))
  (Hfor : forall p v it b, Forall P (stmts_of b) -> P (ForLoop p v it b))
  (Hfun : forall p n ps b, Forall P (stmts_of b) -> P (FunctionDecl p n ps b))
  (Hblock : forall b, Forall P (b_Statements b) -> P (BlockStmt b))
  (Hdb : forall p t n l, Forall P l -> P (DatabaseBlock p t n l)).

Fixpoint Statement_ind' (s : Statement) : P s :=
  let all := fix all (l : list Statement) : Forall P l :=
    match l with [] => List.Forall_nil _ | x :: l' => List.Forall_cons _ _ _ (Statement_ind' x) (all l') end in
  let block (b : option Block) : Forall P (stmts_of b) :=
    match b with Some b => all (b_Statements b) | None => List.Forall_nil _ end in
  match s with
  | IfStmt p c t e => Hif p c t e (block t) (block e)
  | ForLoop p v it b => Hfor p v it b (block b)
  | FunctionDecl p n ps b => Hfun p n ps b (block b)
  | BlockStmt b => Hblock b (all (b_Statements b))
  | DatabaseBlock p t n l => Hdb p t n l (all l)
  | s => Hleaf s eq_refl
  end.
End Statement_ind'.

(** ** Traversal combinators *)
(** [for _, x := range l], with a body that changes the state. *)
Definition each {A S} (f : A -> S -> S) : list A -> S -> S :=
  fix loop (l : list A) (s : S) : S := match l with [] => s | x :: l' => loop l' (f x s) end.

(** The loop of a body that may panic. *)
Definition mapO {A B} (f : A -> option B) : list A -> option (list B) :=
  fix loop (l : list A) : option (list B) :=
    match l with
    | [] => Some []
    | x :: l' => match f x with
                 | None => None
                 | Some y => match loop l' with None => None | Some ys => Some (y :: ys) end
                 end
    end.

(** [a && b], where either may panic. *)
Definition andO (a : option bool) (b : option bool) : option bool :=
  match a with Some true => b | a => a end.

(** The loop over two slices of equal length. *)
Definition all2O {A} (f : A -> A -> option bool) : list A -> list A -> option bool :=
  fix loop (l m : list A) : option bool :=
    match l, m with
    | x :: l', y :: m' => andO (f x y) (loop l' m')
    | _, _ => Some true
    end.

Definition same_length {A} (l m : list A) : bool := Nat.eqb (length l) (length m).

(** ** [Equal] *)
Fixpoint Equal_expr (a b : Expression) : option bool :=
  match a, b with
  | NilExpr, NilExpr => Some true
  | StringLiteral _ v, StringLiteral _ w => Some (String.eqb v w)
  | NumberLiteral _ v, NumberLiteral _ w => Some (SFeqb v w)
  | BoolLiteral _ v, BoolLiteral _ w => Some (Bool.eqb v w)
  | Identifier _ n, Identifier _ m => Some (String.eqb n m)
  | FunctionCall _ n l, FunctionCall _ m k =>
      andO (Some (String.eqb n m && same_length l k)) (all2O Equal_expr l k)
  | ArrayLiteral _ l, ArrayLiteral _ k => andO (Some (same_length l k)) (all2O Equal_expr l k)
  | BinaryExpr _ l o r, BinaryExpr _ l' o' r' =>
      andO (Some (String.eqb o o')) (andO (Equal_expr l l') (Equal_expr r r'))
  | UnaryExpr _ o e, UnaryExpr _ o' e' => andO (Some (String.eqb o o')) (Equal_expr e e')
  | _, _ => Some false
  end.

Definition Equal_params (l k : list Parameter_) : bool :=
  same_length l k &&
  forallb (fun pq => String.eqb (par_Name pq.1) (par_Name pq.2) && String.eqb (par_Type pq.1) (par_Type pq.2))
    (combine l k).

(** Two [*Block]s: a nil pointer is dereferenced. *)
Definition Equal_block_with {S} (eq : S -> S -> option bool) (a b : option (BlockOf S)) : option bool :=
  match a, b with
  | Some a, Some b =>
      andO (Some (same_length (b_Statements a) (b_Statements b))) (all2O eq (b_Statements a) (b_Statements b))
  | _, _ => None
  end.

Definition Equal_else_with {S} (eq : S -> S -> option bool) (a b : option (BlockOf S)) : option bool :=
  match a, b with
  | None, None => Some true
  | Some _, Some _ => Equal_block_with eq a b
  | _, _ => Some false
  end.

Fixpoint Equal (a b : Statement) : option bool :=
  match a, b with
  | NilStmt, NilStmt => Some true
  | VarDecl _ n v, VarDecl _ m w => andO (Some (String.eqb n m)) (Equal_expr v w)
  | Assignment _ n v, Assignment _ m w => andO (Some (String.eqb n m)) (Equal_expr v w)
  | IfStmt _ c t e, IfStmt _ c' t' e' =>
      andO (Equal_expr c c') (andO (Equal_block_with Equal t t') (Equal_else_with Equal e e'))
  | ForLoop _ v it b, ForLoop _ v' it' b' =>
      andO (Some (String.eqb v v')) (andO (Equal_expr it it') (Equal_block_with Equal b b'))
  | FunctionDecl _ n ps b, FunctionDecl _ m qs b' =>
      andO (Some (String.eqb n m && Equal_params ps qs)) (Equal_block_with Equal b b')
  | ExecBlock _ c, ExecBlock _ c' => Some (String.eqb c c')
  | BlockStmt b, BlockStmt b' => Equal_block_with Equal (Some b) (Some b')
  | ReturnStmt _ v, ReturnStmt _ w => Equal_expr v w
  | _, _ => Some false
  end.

Definition Equal_program (a b : Program_) : option bool :=
  andO (Some (same_length (Statements a) (Statements b))) (all2O Equal (Statements a) (Statements b)).

(** ** [Clone]: [None] is a panic or a nil result, which the callers' type
    assertions turn into a panic. *)
Fixpoint Clone_expr (e : Expression) : option Expression :=
  match e with
  | NilExpr => None
  | StringLiteral p v => Some (StringLiteral p v)
  | NumberLiteral p v => Some (NumberLiteral p v)
  | BoolLiteral p v => Some (BoolLiteral p v)
  | Identifier p n => Some (Identifier p n)
  | FunctionCall p n args => option_map (FunctionCall p n) (mapO Clone_expr args)
  | ArrayLiteral p es => option_map (ArrayLiteral p) (mapO Clone_expr es)
  | BinaryExpr p l o r =>
      match Clone_expr l with
      | None => None
      | Some l => option_map (BinaryExpr p l o) (Clone_expr r)
      end
  | UnaryExpr p o e => option_map (UnaryExpr p o) (Clone_expr e)
  end.

(** A field that may be nil is copied only when it is not. *)
Definition Clone_optional (e : Expression) : option Expression :=
  match e with NilExpr => Some NilExpr | _ => Clone_expr e end.

Definition Clone_param (p : Parameter_) : option Parameter_ :=
  option_map (mkParameter (par_Name p) (par_Type p)) (Clone_optional (Default p)).

Definition Clone_block_with {S} (clone : S -> option S) (b : option (BlockOf S)) : option (option (BlockOf S)) :=
  match b with
  | None => None
  | Some b => option_map (fun l => Some (mkBlock (b_pos b) l)) (mapO clone (b_Statements b))
  end.

Fixpoint Clone (s : Statement) : option Statement :=
  match s with
  | VarDecl p n v => option_map (VarDecl p n) (Clone_expr v)
  | Assignment p n v => option_map (Assignment p n) (Clone_expr v)
  | IfStmt p c t e =>
      match Clone_expr c with
      | None => None
      | Some c =>
          match Clone_block_with Clone t with
          | None => None
          | Some t =>
              match e with
              | None => Some (IfStmt p c t None)
              | Some _ => option_map (IfStmt p c t) (Clone_block_with Clone e)
              end
          end
      end
  | ForLoop p v it b =>
      match Clone_expr it with
      | None => None
      | Some it => option_map (ForLoop p v it) (Clone_block_with Clone b)
      end
  | FunctionDecl p n ps b =>
      match mapO Clone_param ps with
      | None => None
      | Some ps => option_map (FunctionDecl p n ps) (Clone_block_with Clone b)
      end
  | ExecBlock p c => Some (ExecBlock p c)
  | BlockStmt b => option_map (fun l => BlockStmt (mkBlock (b_pos b) l)) (mapO Clone (b_Statements b))
  | ReturnStmt p v => option_map (ReturnStmt p) (Clone_optional v)
  | _ => None
  end.

Definition Clone_program (p : Program_) : option Program_ :=
  option_map (mkProgram (prog_pos p)) (mapO Clone (Statements p)).

(** ** [Walk] *)
Inductive Node :=
| NProgram (p : Program_)
| NStmt (s : Statement)
| NExpr (e : Expression)
| NNilBlock.   (** a nil [*Block] in a [Node] interface *)

Section Walk.
Variable S : Type.
(** The visitor is a closure: it has a state and may stop the traversal. *)
Variable visitor : Node -> S -> S * bool.

Definition Traversal : Type := S -> option (S * bool).
Definition proceed : Traversal := fun s => Some (s, true).
Definition visit (n : Node) (children : Traversal) : Traversal := fun s =>
  match visitor n s with (s, true) => children s | (s, false) => Some (s, false) end.
Definition andW (a b : Traversal) : Traversal := fun s =>
  match a s with Some (s, true) => b s | r => r end.
Definition eachW {A} (f : A -> Traversal) : list A -> Traversal :=
  fix loop (l : list A) : Traversal := match l with [] => proceed | x :: l' => andW (f x) (loop l') end.

Fixpoint Walk_expr (e : Expression) : Traversal :=
  match e with
  | NilExpr => proceed
  | FunctionCall _ _ args => visit (NExpr e) (eachW Walk_expr args)
  | ArrayLiteral _ es => visit (NExpr e) (eachW Walk_expr es)
  | BinaryExpr _ l _ r => visit (NExpr e) (andW (Walk_expr l) (Walk_expr r))
  | UnaryExpr _ _ e' => visit (NExpr e) (Walk_expr e')
  | _ => visit (NExpr e) proceed
  end.

Definition Walk_block_with (walk : Statement -> Traversal) (b : option Block) : Traversal :=
  match b with
  | Some b => visit (NStmt (BlockStmt b)) (eachW walk (b_Statements b))
  | None => visit NNilBlock (fun _ => None)
  end.

Definition Walk_param (p : Parameter_) : Traversal :=
  match Default p with NilExpr => proceed | e => Walk_expr e end.

Fixpoint Walk (s : Statement) : Traversal :=
  match s with
  | NilStmt => proceed
  | VarDecl _ _ v | Assignment _ _ v => visit (NStmt s) (Walk_expr v)
  | IfStmt _ c t e =>
      visit (NStmt s) (andW (Walk_expr c) (andW (Walk_block_with Walk t)
        match e with None => proceed | Some _ => Walk_block_with Walk e end))
  | ForLoop _ _ it b => visit (NStmt s) (andW (Walk_expr it) (Walk_block_with Walk b))
  | FunctionDecl _ _ ps b => visit (NStmt s) (andW (eachW Walk_param ps) (Walk_block_with Walk b))
  | BlockStmt b => visit (NStmt s) (eachW Walk (b_Statements b))
  | ReturnStmt _ v => visit (NStmt s) match v with NilExpr => proceed | _ => Walk_expr v end
  | _ => visit (NStmt s) proceed
  end.

Definition Walk_program (p : Program_) : Traversal := visit (NProgram p) (eachW Walk (Statements p)).

(** Feed nodes to the visitor until it says stop. *)
Fixpoint visit_all (l : list Node) (s : S) : S * bool :=
  match l with
  | [] => (s, true)
  | n :: l' => match visitor n s with (s, true) => visit_all l' s | (s, false) => (s, false) end
  end.
End Walk.
Arguments Walk {S}. Arguments Walk_expr {S}. Arguments Walk_program {S}. Arguments visit_all {S}.

(** The nodes in depth-first order, a parent before its children. *)
Fixpoint nodes_expr (e : Expression) : list Node :=
  match e with
  | NilExpr => []
  | FunctionCall _ _ args => NExpr e :: concat (map nodes_expr args)
  | ArrayLiteral _ es => NExpr e :: concat (map nodes_expr es)
  | BinaryExpr _ l _ r => NExpr e :: nodes_expr l ++ nodes_expr r
  | UnaryExpr _ _ e' => NExpr e :: nodes_expr e'
  | _ => [NExpr e]
  end%list.

Definition nodes_block (nodes : Statement -> list Node) (b : option Block) : list Node :=
  match b with Some b => NStmt (BlockStmt b) :: concat (map nodes (b_Statements b)) | None => [] end.

Fixpoint nodes (s : Statement) : list Node :=
  match s with
  | NilStmt => []
  | VarDecl _ _ v | Assignment _ _ v | ReturnStmt _ v => NStmt s :: nodes_expr v
  | IfStmt _ c t e => NStmt s :: nodes_expr c ++ nodes_block nodes t ++ nodes_block nodes e
  | ForLoop _ _ it b => NStmt s :: nodes_expr it ++ nodes_block nodes b
  | FunctionDecl _ _ ps b => NStmt s :: concat (map (fun p => nodes_expr (Default p)) ps) ++ nodes_block nodes b
  | BlockStmt b => NStmt s :: concat (map nodes (b_Statements b))
  | _ => [NStmt s]
  end%list.

Definition nodes_program (p : Program_) : list Node := NProgram p :: concat (map nodes (Statements p)).

(** No block that has to be there is nil, at any depth the traversal reaches. *)
Definition blocks_ok_with (ok : Statement -> bool) (b : option Block) : bool :=
  match b with Some b => forallb ok (b_Statements b) | None => false end.

Fixpoint blocks_ok (s : Statement) : bool :=
  match s with
  | IfStmt _ _ t e =>
      blocks_ok_with blocks_ok t && match e with None => true | Some _ => blocks_ok_with blocks_ok e end
  | ForLoop _ _ _ b | FunctionDecl _ _ _ b => blocks_ok_with blocks_ok b
  | BlockStmt b => forallb blocks_ok (b_Statements b)
  | _ => true
  end.

(** *** The traversal is depth-first *)
Section Walk_lemmas.
Context {S : Type} (visitor : Node -> S -> S * bool).

Definition walks (t : Traversal S) (l : list Node) : Prop := forall s, t s = Some (visit_all visitor l s).

Lemma visit_all_app l m s : visit_all visitor (l ++ m) s =
  match visit_all visitor l s with (s, true) => visit_all visitor m s | r => r end.
Proof.
  revert s. induction l as [|n l IH]; intros s; [done|]. cbn. destruct (visitor n s) as [s' []]; [apply IH | done].
Qed.

Lemma walks_proceed : walks (proceed S) [].
Proof. done. Qed.

Lemma walks_visit n t l : walks t l -> walks (visit S visitor n t) (n :: l).
Proof. intros H s. unfold visit. cbn. destruct (visitor n s) as [s' []]; [apply H | done]. Qed.

Lemma walks_andW t u l m : walks t l -> walks u m -> walks (andW S t u) (l ++ m).
Proof.
  intros H1 H2 s. unfold andW. rewrite H1, visit_all_app. destruct (visit_all visitor l s) as [s' []]; [apply H2 | done].
Qed.

Lemma walks_eachW {A} (f : A -> Traversal S) (g : A -> list Node) l :
  Forall (fun x => walks (f x) (g x)) l -> walks (eachW S f l) (concat (map g l)).
Proof.
  induction 1 as [|x l Hx _ IH]; [apply walks_proceed|]. cbn. by apply walks_andW.
Qed.

Lemma walks_expr e : walks (Walk_expr visitor e) (nodes_expr e).
Proof.
  induction e using Expression_ind'; cbn [Walk_expr nodes_expr];
    try (apply walks_visit; first [apply walks_proceed | by apply walks_eachW | by apply walks_andW | done]).
  apply walks_proceed.
Qed.

Lemma walks_block b : Forall (fun s => blocks_ok s = true -> walks (Walk visitor s) (nodes s)) (stmts_of b) ->
  blocks_ok_with blocks_ok b = true -> walks (Walk_block_with S visitor (Walk visitor) b) (nodes_block nodes b).
Proof.
  destruct b as [b|]; cbn; [|done]. intros Hall Hok. apply walks_visit, walks_eachW.
  rewrite forallb_forall in Hok. rewrite Forall_forall in Hall |- *. intros s Hs. apply Hall; [done|].
  apply Hok. by apply list_elem_of_In.
Qed.

Lemma walks_stmt s : blocks_ok s = true -> walks (Walk visitor s) (nodes s).
Proof.
  induction s as [s Hl|p c t e Ht He|p v it b Hb|p n ps b Hb|b Hb|p t n l Hl] using Statement_ind'; intros Hok.
  - destruct s; try done; cbn [Walk nodes]; try (apply walks_visit, walks_expr); try apply walks_proceed;
      try (apply walks_visit, walks_proceed).
    destruct Value; apply walks_visit; try apply walks_proceed; apply walks_expr.
  - cbn [blocks_ok] in Hok. apply andb_true_iff in Hok as [H1 H2]. apply walks_visit, walks_andW; [apply walks_expr|].
    apply walks_andW; [by apply walks_block|]. destruct e; [by apply walks_block | apply walks_proceed].
  - apply walks_visit, walks_andW; [apply walks_expr | by apply walks_block].
  - apply walks_visit, walks_andW; [|by apply walks_block]. apply walks_eachW, Forall_forall. intros q _.
    unfold Walk_param. destruct (Default q); apply walks_proceed || apply walks_expr.
  - apply walks_visit, walks_eachW. cbn in Hok. rewrite forallb_forall in Hok. rewrite Forall_forall in Hb |- *.
    intros s Hs. apply Hb; [done|]. apply Hok. by apply list_elem_of_In.
  - apply walks_visit, walks_proceed.
Qed.
End Walk_lemmas.

(** ** Copying and comparing *)
(** No nil and no declaration: the part of the language [Clone] and [Equal] cover. *)
Fixpoint plain_expr (e : Expression) : bool :=
  match e with
  | NilExpr => false
  | FunctionCall _ _ l | ArrayLiteral _ l => forallb plain_expr l
  | BinaryExpr _ l _ r => plain_expr l && plain_expr r
  | UnaryExpr _ _ e => plain_expr e
  | _ => true
  end.

Definition plain_optional (e : Expression) : bool := match e with NilExpr => true | _ => plain_expr e end.

Definition plain_block_with (plain : Statement -> bool) (b : option Block) : bool :=
  match b with Some b => forallb plain (b_Statements b) | None => false end.

Fixpoint plain (s : Statement) : bool :=
  match s with
  | VarDecl _ _ v | Assignment _ _ v => plain_expr v
  | IfStmt _ c t e =>
      plain_expr c && plain_block_with plain t && match e with None => true | Some _ => plain_block_with plain e end
  | ForLoop _ _ it b => plain_expr it && plain_block_with plain b
  | FunctionDecl _ _ ps b => forallb (fun p => plain_optional (Default p)) ps && plain_block_with plain b
  | ExecBlock _ _ => true
  | BlockStmt b => forallb plain (b_Statements b)
  | ReturnStmt _ v => plain_optional v
  | _ => false
  end.

Definition plain_program (p : Program_) : bool := forallb plain (Statements p).

Lemma mapO_plain {A} (f : A -> option A) (g : A -> bool) l :
  Forall (fun x => f x = if g x then Some x else None) l ->
  mapO f l = if forallb g l then Some l else None.
Proof.
  induction 1 as [|x l Hx _ IH]; [done|]. cbn. rewrite Hx. destruct (g x); [|done]. cbn. fold (mapO f).
  rewrite IH. by destruct (forallb g l).
Qed.

Lemma Clone_expr_plain e : Clone_expr e = if plain_expr e then Some e else None.
Proof.
  induction e using Expression_ind'; cbn [Clone_expr plain_expr]; try done.
  1,2: match goal with H : Forall _ _ |- _ => rewrite (mapO_plain _ _ _ H) end; by destruct forallb.
  - rewrite IHe1, IHe2. destruct (plain_expr e1), (plain_expr e2); done.
  - rewrite IHe. by destruct (plain_expr e).
Qed.

Lemma Clone_optional_plain e : Clone_optional e = if plain_optional e then Some e else None.
Proof. destruct e; try done; apply Clone_expr_plain. Qed.

Lemma Clone_block_plain b : Forall (fun s => Clone s = if plain s then Some s else None) (stmts_of b) ->
  Clone_block_with Clone b = if plain_block_with plain b then Some b else None.
Proof.
  destruct b as [[p l]|]; cbn; [|done]. intros H. rewrite (mapO_plain _ _ _ H). by destruct forallb.
Qed.

Lemma Clone_plain s : Clone s = if plain s then Some s else None.
Proof.
  induction s as [s Hl|p c t e Ht He|p v it b Hb|p n ps b Hb|b Hb|p t n l Hl] using Statement_ind'.
  - destruct s; try done; cbn [Clone plain]; rewrite ?Clone_expr_plain, ?Clone_optional_plain;
      try done; match goal with |- context [if ?b then _ else _] => by destruct b end.
  - cbn [Clone plain]. rewrite Clone_expr_plain, !Clone_block_plain by done.
    destruct (plain_expr c), (plain_block_with plain t); try done. cbn. destruct e; [|done].
    by destruct plain_block_with.
  - cbn [Clone plain]. rewrite Clone_expr_plain, Clone_block_plain by done.
    destruct (plain_expr it), (plain_block_with plain b); done.
  - cbn [Clone plain]. rewrite Clone_block_plain by done.
    rewrite (mapO_plain Clone_param (fun p => plain_optional (Default p))).
    + destruct forallb, plain_block_with; done.
    + apply Forall_forall. intros q _. unfold Clone_param. rewrite Clone_optional_plain. destruct q; cbn.
      by destruct plain_optional.
  - cbn [Clone plain]. rewrite (mapO_plain _ _ _ Hb). destruct b. cbn. by destruct forallb.
  - done.
Qed.

(** What [Equal] looks at: not the positions, not the parameters' defaults,
    and not the sign of zero. *)
Definition nowhere : Position := mkPosition "" 0 0 0.
Definition number_key (v : spec_float) : spec_float := match v with S754_zero _ => S754_zero false | v => v end.

Fixpoint erase_expr (e : Expression) : Expression :=
  match e with
  | NilExpr => NilExpr
  | StringLiteral _ v => StringLiteral nowhere v
  | NumberLiteral _ v => NumberLiteral nowhere (number_key v)
  | BoolLiteral _ v => BoolLiteral nowhere v
  | Identifier _ n => Identifier nowhere n
  | FunctionCall _ n l => FunctionCall nowhere n (map erase_expr l)
  | ArrayLiteral _ l => ArrayLiteral nowhere (map erase_expr l)
  | BinaryExpr _ l o r => BinaryExpr nowhere (erase_expr l) o (erase_expr r)
  | UnaryExpr _ o e => UnaryExpr nowhere o (erase_expr e)
  end.

Definition erase_block (erase : Statement -> Statement) (b : option Block) : option Block :=
  option_map (fun b => mkBlock nowhere (map erase (b_Statements b))) b.

Fixpoint erase (s : Statement) : Statement :=
  match s with
  | VarDecl _ n v => VarDecl nowhere n (erase_expr v)
  | Assignment _ n v => Assignment nowhere n (erase_expr v)
  | IfStmt _ c t e => IfStmt nowhere (erase_expr c) (erase_block erase t) (erase_block erase e)
  | ForLoop _ v it b => ForLoop nowhere v (erase_expr it) (erase_block erase b)
  | FunctionDecl _ n ps b =>
      FunctionDecl nowhere n (map (fun p => mkParameter (par_Name p) (par_Type p) NilExpr) ps) (erase_block erase b)
  | ExecBlock _ c => ExecBlock nowhere c
  | BlockStmt b => BlockStmt (mkBlock nowhere (map erase (b_Statements b)))
  | ReturnStmt _ v => ReturnStmt nowhere (erase_expr v)
  | s => s
  end.

(** No literal is NaN: the parser makes none. *)
Fixpoint no_nan_expr (e : Expression) : bool :=
  match e with
  | NumberLiteral _ v => SFeqb v v
  | FunctionCall _ _ l | ArrayLiteral _ l => forallb no_nan_expr l
  | BinaryExpr _ l _ r => no_nan_expr l && no_nan_expr r
  | UnaryExpr _ _ e => no_nan_expr e
  | _ => true
  end.

Fixpoint no_nan (s : Statement) : bool :=
  match s with
  | VarDecl _ _ v | Assignment _ _ v | ReturnStmt _ v => no_nan_expr v
  | IfStmt _ c t e => no_nan_expr c &&
      match t with Some t => forallb no_nan (b_Statements t) | None => true end &&
      match e with Some e => forallb no_nan (b_Statements e) | None => true end
  | ForLoop _ _ it b => no_nan_expr it && match b with Some b => forallb no_nan (b_Statements b) | None => true end
  | FunctionDecl _ _ _ b => match b with Some b => forallb no_nan (b_Statements b) | None => true end
  | BlockStmt b => forallb no_nan (b_Statements b)
  | _ => true
  end.

(** [f] decides, without panicking, whether [x] and [y] have the same [er]. *)
Definition compares {A B} (er : A -> B) (nn : A -> bool) (r : option bool) (x y : A) : Prop :=
  exists b, r = Some b /\ (b = true <-> er x = er y /\ nn x = true).

Lemma andO_some a b : andO (Some a) (Some b) = Some (a && b).
Proof. by destruct a, b. Qed.

Lemma compares_list {A B} (f : A -> A -> option bool) (er : A -> B) (nn ok : A -> bool) l :
  Forall (fun x => forall y, ok x = true -> ok y = true -> compares er nn (f x y) x y) l -> forall m,
  forallb ok l = true -> forallb ok m = true ->
  compares (map er) (forallb nn) (andO (Some (same_length l m)) (all2O f l m)) l m.
Proof.
  unfold same_length. induction 1 as [|x l Hx _ IH]; intros [|y m] Hl Hm.
  - by exists true.
  - exists false. split; [done|]. split; [done | by intros [[=] _]].
  - exists false. split; [done|]. split; [done | by intros [[=] _]].
  - cbn in Hl, Hm. apply andb_true_iff in Hl as [Hl1 Hl2]. apply andb_true_iff in Hm as [Hm1 Hm2].
    destruct (Hx y Hl1 Hm1) as (r & Hr & Hr'). destruct (IH m Hl2 Hm2) as (s & Hs & Hs'). fold (all2O f) in *.
    exists (r && s). cbn [length Nat.eqb all2O map forallb]. rewrite Hr.
    destruct (Nat.eqb (length l) (length m)) eqn:Hlen.
    + cbn [andO] in Hs |- *. fold (all2O f). rewrite Hs. split; [by destruct r|].
      rewrite andb_true_iff, andb_true_iff, Hr', Hs'. split; [intros ((-> & ?) & -> & ?); done|].
      intros [[= -> ->] []]. done.
    + cbn in Hs |- *. injection Hs as <-. rewrite andb_false_r. split; [done|]. split; [done|].
      intros [[= _ Hmap] _]. apply Nat.eqb_neq in Hlen. destruct Hlen.
      by rewrite <- (length_map er l), <- (length_map er m), Hmap.
Qed.

Lemma SFeqb_spec v w : SFeqb v w = true <-> number_key v = number_key w /\ SFeqb v v = true.
Proof.
  unfold SFeqb, SFcompare.
  destruct v as [[]|[]| |[] m e], w as [[]|[]| |[] m' e']; cbn; try (split; [intros; split | intros []]; congruence);
    rewrite ?Z.compare_refl, ?Pos.compare_refl.
  all: change (PosDef.Pos.compare_cont Eq m m') with (Pos.compare m m').
  all: split; [|intros [[= -> ->] _]; by rewrite Z.compare_refl, Pos.compare_refl].
  all: destruct (Z.compare_spec e e'); try done; subst.
  all: destruct (Pos.compare_spec m m'); cbn; try done; by subst.
Qed.

Lemma compares_false {A B} (er : A -> B) nn x y : er x <> er y -> compares er nn (Some false) x y.
Proof. intros H. exists false. split; [done|]. split; [done | tauto]. Qed.

Lemma Equal_expr_compares a : forall b, plain_expr a = true -> plain_expr b = true ->
  compares erase_expr no_nan_expr (Equal_expr a b) a b.
Proof.
  induction a using Expression_ind'; intros b Ha Hb; destruct b; try done;
    try (apply compares_false; cbn; congruence); cbn [plain_expr] in Ha, Hb; cbn [Equal_expr].
  - eexists. split; [done|]. cbn. rewrite String.eqb_eq. split; [by intros -> | by intros [[= ->] _]].
  - eexists. split; [done|]. cbn. rewrite SFeqb_spec. split; [by intros [-> ?] | by intros [[= ->] ?]].
  - eexists. split; [done|]. cbn. rewrite eqb_true_iff. split; [by intros -> | by intros [[= ->] _]].
  - eexists. split; [done|]. cbn. rewrite String.eqb_eq. split; [by intros -> | by intros [[= ->] _]].
  - destruct (compares_list _ _ _ _ _ H Args Ha Hb) as (r & Hr & Hr'). exists (String.eqb n Name && r).
    cbn. destruct (String.eqb_spec n Name) as [->|Hne]; cbn; cbn in Hr.
    + rewrite Hr. split; [done|]. rewrite Hr'. split; [by intros [-> ?] | by intros [[= ->] ?]].
    + split; [done|]. split; [done | intros [[=] _]; done].
  - destruct (compares_list _ _ _ _ _ H Elements Ha Hb) as (r & Hr & Hr'). exists r. rewrite Hr. split; [done|].
    rewrite Hr'. cbn. split; [by intros [-> ?] | by intros [[= ->] ?]].
  - apply andb_true_iff in Ha as [Ha1 Ha2]. apply andb_true_iff in Hb as [Hb1 Hb2].
    destruct (IHa1 _ Ha1 Hb1) as (r1 & -> & H1), (IHa2 _ Ha2 Hb2) as (r2 & -> & H2).
    exists (String.eqb op Operator && (r1 && r2)). rewrite !andO_some. split; [done|].
    rewrite !andb_true_iff, H1, H2, String.eqb_eq. cbn. rewrite andb_true_iff.
    split; [by intros (-> & [-> ->] & -> & ->) | by intros [[= -> -> ->] [-> ->]]].
  - destruct (IHa _ Ha Hb) as (r & -> & H). exists (String.eqb op Operator && r). rewrite andO_some. split; [done|].
    rewrite andb_true_iff, H, String.eqb_eq. cbn. split; [by intros (-> & -> & ->) | by intros [[= -> ->] ->]].
Qed.

Lemma Equal_optional_compares a b : plain_optional a = true -> plain_optional b = true ->
  compares erase_expr no_nan_expr (Equal_expr a b) a b.
Proof.
  intros Ha Hb. destruct (plain_expr a) eqn:Ea, (plain_expr b) eqn:Eb; [by apply Equal_expr_compares|..].
  - destruct b; try (cbn in *; congruence). destruct a; try done; apply compares_false; done.
  - destruct a; try (cbn in *; congruence). destruct b; try done; apply compares_false; done.
  - destruct a; try (cbn in *; congruence). destruct b; try (cbn in *; congruence). by exists true.
Qed.

Definition no_nan_block (b : option Block) : bool :=
  match b with Some b => forallb no_nan (b_Statements b) | None => true end.

Lemma Equal_block_compares b b' :
  Forall (fun s => forall t, plain s = true -> plain t = true -> compares erase no_nan (Equal s t) s t) (stmts_of b) ->
  plain_block_with plain b = true -> plain_block_with plain b' = true ->
  compares (erase_block erase) no_nan_block (Equal_block_with Equal b b') b b'.
Proof.
  destruct b as [[p l]|], b' as [[q m]|]; cbn [stmts_of b_Statements plain_block_with]; try done. intros H Hb Hb'.
  destruct (compares_list _ _ _ _ _ H m Hb Hb') as (r & Hr & Hr'). exists r.
  cbn [Equal_block_with b_Statements]. rewrite Hr. split; [done|].
  rewrite Hr'. cbn. split; [by intros [-> ?] | by intros [[= ->] ?]].
Qed.

Lemma Equal_params_erase ps : forall qs, Equal_params ps qs = true <->
  map (fun p => mkParameter (par_Name p) (par_Type p) NilExpr) ps =
  map (fun p => mkParameter (par_Name p) (par_Type p) NilExpr) qs.
Proof.
  unfold Equal_params, same_length. induction ps as [|p ps IH]; intros [|q qs]; try (split; done).
  specialize (IH qs). cbn. rewrite !andb_true_iff, !String.eqb_eq in *.
  split; [intros (? & [-> ->] & ?); f_equal; tauto | intros [= -> -> ?]; tauto].
Qed.

Lemma Equal_compares a : forall b, plain a = true -> plain b = true -> compares erase no_nan (Equal a b) a b.
Proof.
  induction a as [s Hl|p c t e Ht He|p v it b Hb|p n ps b Hb|b Hb|p t n l Hl] using Statement_ind'; intros b' Ha Hb'.
  - destruct s; try done; destruct b'; try done; try (apply compares_false; cbn; congruence);
      cbn [plain] in Ha, Hb'; cbn [Equal].
    + destruct (Equal_expr_compares _ _ Ha Hb') as (r & -> & H). exists (String.eqb Name Name0 && r).
      rewrite andO_some, andb_true_iff, H, String.eqb_eq. split; [done|]. cbn.
      split; [by intros (-> & -> & ?) | by intros [[= -> ->] ?]].
    + destruct (Equal_expr_compares _ _ Ha Hb') as (r & -> & H). exists (String.eqb Name Name0 && r).
      rewrite andO_some, andb_true_iff, H, String.eqb_eq. split; [done|]. cbn.
      split; [by intros (-> & -> & ?) | by intros [[= -> ->] ?]].
    + eexists. split; [done|]. rewrite String.eqb_eq. cbn. split; [by intros -> | by intros [[= ->] _]].
    + destruct (Equal_optional_compares _ _ Ha Hb') as (r & -> & H). exists r. split; [done|]. rewrite H. cbn.
      split; [by intros [-> ?] | by intros [[= ->] ?]].
  - destruct b'; try done; try (apply compares_false; cbn; congruence). cbn [plain] in Ha, Hb'.
    rewrite !andb_true_iff in Ha, Hb'. destruct Ha as [[Ha1 Ha2] Ha3], Hb' as [[Hb1 Hb2] Hb3]. cbn [Equal].
    destruct (Equal_expr_compares _ _ Ha1 Hb1) as (r1 & -> & H1).
    destruct (Equal_block_compares _ _ Ht Ha2 Hb2) as (r2 & -> & H2).
    assert (compares (erase_block erase) no_nan_block (Equal_else_with Equal e Else) e Else)
      as (r3 & -> & H3).
    { destruct e, Else; [by apply Equal_block_compares | by apply compares_false.. | by exists true]. }
    exists (r1 && (r2 && r3)). rewrite !andO_some, !andb_true_iff, H1, H2, H3. split; [done|]. cbn [erase no_nan].
    rewrite !andb_true_iff. fold (no_nan_block t) (no_nan_block e). split; [intros ([-> ?] & [-> ?] & [-> ?]); done | intros [[= -> -> ->] [[? ?] ?]]; done].
  - destruct b'; try done; try (apply compares_false; cbn; congruence). cbn [plain] in Ha, Hb'.
    rewrite !andb_true_iff in Ha, Hb'. destruct Ha as [Ha1 Ha2], Hb' as [Hb1 Hb2]. cbn [Equal].
    destruct (Equal_expr_compares _ _ Ha1 Hb1) as (r1 & -> & H1).
    destruct (Equal_block_compares _ _ Hb Ha2 Hb2) as (r2 & -> & H2).
    exists (String.eqb v Variable_ && (r1 && r2)). rewrite !andO_some, !andb_true_iff, H1, H2, String.eqb_eq.
    split; [done|]. cbn [erase no_nan]. fold (no_nan_block b). rewrite andb_true_iff.
    split; [intros (-> & [-> ?] & [-> ?]); done | intros [[= -> -> ->] [? ?]]; done].
  - destruct b'; try done; try (apply compares_false; cbn; congruence). cbn [plain] in Ha, Hb'.
    rewrite !andb_true_iff in Ha, Hb'. destruct Ha as [Ha1 Ha2], Hb' as [Hb1 Hb2]. cbn [Equal].
    destruct (Equal_block_compares _ _ Hb Ha2 Hb2) as (r2 & -> & H2).
    exists (String.eqb n Name && Equal_params ps Params && r2).
    rewrite !andO_some, !andb_true_iff, H2, String.eqb_eq, Equal_params_erase. split; [done|]. cbn [erase no_nan].
    fold (no_nan_block b). split; [intros ([-> ->] & [-> ?]); done | intros [[= -> -> ->] ?]; done].
  - destruct b'; try done; try (apply compares_false; cbn; congruence).
    destruct (Equal_block_compares (Some b) (Some b0) Hb Ha Hb') as (r & Hr & H). exists r. split; [done|].
    rewrite H. cbn. split; [intros [[= ->] ?]; done | intros [[= ->] ?]; done].
  - done.
Qed.

(** ** Properties *)

(** [Walk] shows the visitor the nodes of a program in depth-first order,
    each once, a parent before its children, and stops at the first refusal;
    it does not descend into declarations, so not into the statements of a
    database block. *)
Theorem Walk_preorder {S : Type} (visitor : Node -> S -> S * bool) (p : Program_) (s : S)
    (Hok : forallb blocks_ok (Statements p) = true) :
  Walk_program visitor p s = Some (visit_all visitor (nodes_program p) s).
Proof.
  apply (walks_visit visitor), walks_eachW. rewrite forallb_forall in Hok. apply Forall_forall. intros x Hx.
  apply walks_stmt, Hok. by apply list_elem_of_In.
Qed.

(** [Clone] returns a program equal to the original, and [Equal] says so,
    when the program has no declarations (only variables, assignments, control
    flow, functions and exec blocks); on any other it panics. *)
Theorem Clone_copies (p : Program_) :
  Clone_program p = (if plain_program p then Some p else None) /\
  forall q, Clone_program p = Some q -> forallb no_nan (Statements p) = true -> Equal_program p q = Some true.
Proof.
  assert (Clone_program p = if plain_program p then Some p else None) as H.
  { unfold Clone_program, plain_program. rewrite (mapO_plain Clone plain).
    - destruct p. cbn. by destruct forallb.
    - apply Forall_forall. intros s _. apply Clone_plain. }
  split; [done|]. intros q. rewrite H. destruct (plain_program p) eqn:Hp; [intros [= <-] Hn | done].
  destruct (compares_list Equal erase no_nan plain (Statements p)) with (m := Statements p) as (r & Hr & Hr'); try done.
  - apply Forall_forall. intros s _ t. apply Equal_compares.
  - unfold Equal_program. rewrite Hr. f_equal. by apply Hr'.
Qed.

(** On programs without declarations [Equal] never panics and says that
    two programs are equal exactly when they are the same up to positions, the
    default values of parameters and the sign of zero, and hold no NaN. *)
Theorem Equal_erases (p q : Program_) (Hp : plain_program p = true) (Hq : plain_program q = true) :
  exists r, Equal_program p q = Some r /\
    (r = true <-> map erase (Statements p) = map erase (Statements q) /\ forallb no_nan (Statements p) = true).
Proof.
  apply (compares_list Equal erase no_nan plain); try done.
  apply Forall_forall. intros s _ t. apply Equal_compares.
Qed.

Definition sample_program : Program_ :=
  mkProgram nowhere
    [VarDecl nowhere "x" (ArrayLiteral nowhere [StringLiteral nowhere "a"; BoolLiteral nowhere true]);
     FunctionDecl nowhere "f" [mkParameter "p" "" (StringLiteral nowhere "d")]
       (Some (mkBlock nowhere
         [IfStmt nowhere (Identifier nowhere "p") (Some (mkBlock nowhere [ReturnStmt nowhere NilExpr])) None]))].

Lemma Walk_preorder_witness :
  Walk_program (fun _ n => (S n, true)) sample_program O =
    Some (visit_all (fun _ n => (S n, true)) (nodes_program sample_program) O).
Proof. apply (Walk_preorder (fun _ n => (S n, true)) sample_program O). reflexivity. Defined.

Lemma Equal_erases_witness :
  exists r, Equal_program sample_program sample_program = Some r /\
    (r = true <-> map erase (Statements sample_program) = map erase (Statements sample_program) /\
      forallb no_nan (Statements sample_program) = true).
Proof. apply (Equal_erases sample_program sample_program); reflexivity. Defined.
