(* ===== verification/DslSymbols.v ===== *)
(** Scopes, types and errors of the validator: [internal/validator/symbol_table.go],
    [type_checker.go] and [errors.go].

    A symbol table is its chain of scopes from the current one to the global
    one.  [UpdateType] writes through the pointer that [Lookup] finds, so it
    changes the innermost scope that declares the name. *)

From Stdlib Require Import ZArith Lia.
From stdpp Require Import base strings list gmap.
From S2P Require Import Prelude GoStrings DslAst.

#[local] Open Scope string_scope.
#[local] Open Scope Z_scope.

(** ** Types *)
Inductive Type_ :=
  TypeUnknown | TypeString | TypeNumber | TypeBool | TypeArray | TypeFunction | TypeVoid.
#[export] Instance Type__eq_dec : EqDecision Type_. Proof. solve_decision. Defined.

Definition Type_String (t : Type_) : string :=
  match t with
  | TypeUnknown => "unknown" | TypeString => "string" | TypeNumber => "number" | TypeBool => "bool"
  | TypeArray => "array" | TypeFunction => "function" | TypeVoid => "void"
  end.

(** ** Symbols *)
Inductive SymbolKind := SymbolVariable | SymbolFunction | SymbolParameter.
#[export] Instance SymbolKind_eq_dec : EqDecision SymbolKind. Proof. solve_decision. Defined.

Definition SymbolKind_String (k : SymbolKind) : string :=
  match k with SymbolVariable => "variable" | SymbolFunction => "function" | SymbolParameter => "parameter" end.

Record Symbol := mkSymbol { sym_Name : string; Kind : SymbolKind; sym_Type : Type_; ParamCount : Z }.

Abbreviation scope := (gmap string Symbol).

(** The scopes from [current] outwards; the last one is [global]. *)
Abbreviation SymbolTable := (list scope).

Definition builtins : scope :=
  <["print" := mkSymbol "print" SymbolFunction TypeUnknown 1]>
  (<["len" := mkSymbol "len" SymbolFunction TypeUnknown 1]> ∅).

Definition NewSymbolTable : SymbolTable := [builtins].

Definition EnterScope (st : SymbolTable) : SymbolTable := ∅ :: st.

Definition ExitScope (st : SymbolTable) : SymbolTable :=
  match st with _ :: (_ :: _) as parent => parent | _ => st end.

Definition LookupLocal (name : string) (st : SymbolTable) : option Symbol :=
  match st with s :: _ => s !! name | [] => None end.

Fixpoint Lookup (name : string) (st : SymbolTable) : option Symbol :=
  match st with
  | [] => None
  | s :: st' => match s !! name with Some sym => Some sym | None => Lookup name st' end
  end.

(** [DeclareWithType]; [false] is the duplicate declaration error. *)
Definition DeclareSymbol (sym : Symbol) (st : SymbolTable) : SymbolTable * bool :=
  match st with
  | s :: st' => match s !! sym_Name sym with
                | Some _ => (st, false)
                | None => (<[sym_Name sym := sym]> s :: st', true)
                end
  | [] => (st, false)
  end.

Definition DeclareWithType (name : string) (kind : SymbolKind) (typ : Type_) (st : SymbolTable) : SymbolTable * bool :=
  DeclareSymbol (mkSymbol name kind typ 0) st.

Definition Declare_untyped (name : string) (kind : SymbolKind) (st : SymbolTable) : SymbolTable * bool :=
  DeclareSymbol (mkSymbol name kind TypeUnknown 0) st.

Definition DeclareFunction (name : string) (paramCount : Z) (st : SymbolTable) : SymbolTable * bool :=
  DeclareSymbol (mkSymbol name SymbolFunction TypeFunction paramCount) st.

Definition set_type (typ : Type_) (sym : Symbol) : Symbol :=
  mkSymbol (sym_Name sym) (Kind sym) typ (ParamCount sym).

Fixpoint UpdateType (name : string) (typ : Type_) (st : SymbolTable) : SymbolTable :=
  match st with
  | [] => []
  | s :: st' => match s !! name with
                | Some sym => <[name := set_type typ sym]> s :: st'
                | None => s :: UpdateType name typ st'
                end
  end.

Definition CurrentScopeDepth (st : SymbolTable) : Z := Z.of_nat (length st).

(** ** Type inference *)
Definition is_comparison (op : string) : bool :=
  existsb (String.eqb op) ["=="; "!="; "<"; ">"; "<="; ">="; "and"; "or"].

Fixpoint InferType (st : SymbolTable) (e : Expression) : Type_ :=
  match e with
  | NilExpr => TypeUnknown
  | StringLiteral _ _ => TypeString
  | NumberLiteral _ _ => TypeNumber
  | BoolLiteral _ _ => TypeBool
  | ArrayLiteral _ _ => TypeArray
  | Identifier _ n => match Lookup n st with Some sym => sym_Type sym | None => TypeUnknown end
  | FunctionCall _ _ _ => TypeUnknown
  | BinaryExpr _ l op r =>
      let leftType := InferType st l in
      let rightType := InferType st r in
      if is_comparison op then TypeBool
      else if String.eqb op "+" then
        if bool_decide (leftType = TypeString) || bool_decide (rightType = TypeString) then TypeString else TypeNumber
      else if existsb (String.eqb op) ["-"; "*"; "/"; "%"] then TypeNumber
      else TypeUnknown
  | UnaryExpr _ op _ =>
      if existsb (String.eqb op) ["not"; "!"] then TypeBool
      else if String.eqb op "-" then TypeNumber
      else TypeUnknown
  end.

Definition IsIterable (t : Type_) : bool := bool_decide (t = TypeArray).

Definition CheckCompatible (left right : Type_) : bool :=
  bool_decide (left = right) || bool_decide (left = TypeUnknown) || bool_decide (right = TypeUnknown).

(** ** Errors *)
Inductive ErrorType := ErrorScope | ErrorTypeCheck | ErrorFunction | ErrorSemantic.
#[export] Instance ErrorType_eq_dec : EqDecision ErrorType. Proof. solve_decision. Defined.

Definition ErrorType_String (t : ErrorType) : string :=
  match t with
  | ErrorScope => "ScopeError" | ErrorTypeCheck => "TypeError" | ErrorFunction => "FunctionError"
  | ErrorSemantic => "SemanticError"
  end.

Record ValidationError := mkError { err_Position : Position; Message : string; err_Type : ErrorType }.

Definition ValidationError_Error (e : ValidationError) : string :=
  if Position_IsValid (err_Position e)
  then Position_String (err_Position e) ++ ": " ++ ErrorType_String (err_Type e) ++ ": " ++ Message e
  else ErrorType_String (err_Type e) ++ ": " ++ Message e.

Definition newScopeError (p : Position) (m : string) := mkError p m ErrorScope.
Definition newTypeError (p : Position) (m : string) := mkError p m ErrorTypeCheck.
Definition newFunctionError (p : Position) (m : string) := mkError p m ErrorFunction.
Definition newSemanticError (p : Position) (m : string) := mkError p m ErrorSemantic.

Definition errUndefinedVariable p n := newScopeError p ("undefined variable '" ++ n ++ "'").
Definition errDuplicateDeclaration p n := newScopeError p ("duplicate declaration '" ++ n ++ "'").
Definition errDuplicateParameter p n := newScopeError p ("duplicate parameter '" ++ n ++ "'").
Definition errUndefinedFunction p n := newFunctionError p ("undefined function '" ++ n ++ "'").
Definition errWrongArgCount p n (expected got : Z) :=
  newFunctionError p ("wrong number of arguments for '" ++ n ++ "': expected " ++ Itoa expected ++ ", got " ++ Itoa got).
Definition errNotAFunction p n := newFunctionError p ("'" ++ n ++ "' is not a function").
Definition errCannotIterate p t := newTypeError p ("cannot iterate over non-array type '" ++ t ++ "'").

Fixpoint numbered (i : Z) (errs : list ValidationError) : string :=
  match errs with
  | [] => ""
  | e :: errs' => "  " ++ Itoa i ++ ". " ++ ValidationError_Error e ++ String newline (numbered (i + 1) errs')
  end.

Definition ValidationErrors_Error (errs : list ValidationError) : string :=
  match errs with
  | [] => "no validation errors"
  | [e] => ValidationError_Error e
  | _ => Itoa (Z.of_nat (length errs)) ++ " validation errors:" ++ String newline (numbered 1 errs)
  end.

(** ** Lemmas *)
Lemma UpdateType_length n t st : length (UpdateType n t st) = length st.
Proof. induction st as [|s st IH]; [done|]. cbn. destruct (s !! n); cbn; congruence. Qed.

Lemma DeclareSymbol_length sym st : length (DeclareSymbol sym st).1 = length st.
Proof. destruct st as [|s st]; [done|]. cbn. by destruct (s !! sym_Name sym). Qed.

Lemma ExitScope_cons s st : st <> [] -> ExitScope (s :: st) = st.
Proof. by destruct st. Qed.
