(* ===== verification/DslValidator.v ===== *)
(** The semantic validator of the CodeAI language:
    [internal/validator/validator.go] and [event_validator.go].

    A method of the validator is a function of its state; errors accumulate in
    [errors], oldest first.  [net/url]'s [Parse] is a parameter. *)

From Stdlib Require Import ZArith Lia SpecFloat Ascii.
From stdpp Require Import base strings list gmap.
From S2P Require Import Prelude GoStrings DslAst DslSymbols.

#[local] Open Scope string_scope.
#[local] Open Scope Z_scope.

Record EventValidation := mkEventValidation {
  events : gmap string EventDecl;
  handlers : list EventHandlerDecl;
  integrations : gmap string IntegrationDecl;
  webhooks : gmap string WebhookDecl;
  workflows : gmap string WorkflowDecl
}.

(** What the validator keeps of a [*DatabaseBlock]. *)
Record DatabaseRef := mkDatabaseRef { db_pos : Position; db_DBType : string }.

Record Validator := mkValidator {
  symbols : SymbolTable;
  errors : list ValidationError;
  types : gmap string Type_;
  configDecl : option ConfigDecl;
  databaseBlocks : list DatabaseRef;
  authProviders : gmap string AuthDecl;
  roles : gmap string RoleDecl;
  middlewares : gmap string MiddlewareDecl;
  eventValidation : option EventValidation
}.

Definition New : Validator := mkValidator NewSymbolTable [] ∅ None [] ∅ ∅ ∅ None.

Definition set_symbols (st : SymbolTable) (v : Validator) : Validator :=
  mkValidator st (errors v) (types v) (configDecl v) (databaseBlocks v) (authProviders v) (roles v) (middlewares v)
    (eventValidation v).
Definition Add (e : ValidationError) (v : Validator) : Validator :=
  mkValidator (symbols v) (errors v ++ [e])%list (types v) (configDecl v) (databaseBlocks v) (authProviders v) (roles v)
    (middlewares v) (eventValidation v).
Definition set_types (t : gmap string Type_) (v : Validator) : Validator :=
  mkValidator (symbols v) (errors v) t (configDecl v) (databaseBlocks v) (authProviders v) (roles v) (middlewares v)
    (eventValidation v).
Definition set_configDecl (c : ConfigDecl) (v : Validator) : Validator :=
  mkValidator (symbols v) (errors v) (types v) (Some c) (databaseBlocks v) (authProviders v) (roles v) (middlewares v)
    (eventValidation v).
Definition set_databaseBlocks (d : list DatabaseRef) (v : Validator) : Validator :=
  mkValidator (symbols v) (errors v) (types v) (configDecl v) d (authProviders v) (roles v) (middlewares v)
    (eventValidation v).
Definition set_authProviders (a : gmap string AuthDecl) (v : Validator) : Validator :=
  mkValidator (symbols v) (errors v) (types v) (configDecl v) (databaseBlocks v) a (roles v) (middlewares v)
    (eventValidation v).
Definition set_roles (r : gmap string RoleDecl) (v : Validator) : Validator :=
  mkValidator (symbols v) (errors v) (types v) (configDecl v) (databaseBlocks v) (authProviders v) r (middlewares v)
    (eventValidation v).
Definition set_middlewares (m : gmap string MiddlewareDecl) (v : Validator) : Validator :=
  mkValidator (symbols v) (errors v) (types v) (configDecl v) (databaseBlocks v) (authProviders v) (roles v) m
    (eventValidation v).
Definition set_eventValidation (e : EventValidation) (v : Validator) : Validator :=
  mkValidator (symbols v) (errors v) (types v) (configDecl v) (databaseBlocks v) (authProviders v) (roles v)
    (middlewares v) (Some e).

(** [if cond { v.errors.Add(e) }] *)
Definition AddIf (cond : bool) (e : ValidationError) (v : Validator) : Validator := if cond then Add e v else v.

Definition semantic (p : Position) (m : string) (v : Validator) : Validator := Add (newSemanticError p m) v.
Definition semanticIf (cond : bool) (p : Position) (m : string) (v : Validator) : Validator :=
  AddIf cond (newSemanticError p m) v.

Definition one_of (l : list string) (s : string) : bool := existsb (String.eqb s) l.
Definition seen (s : string) (m : gset string) : bool := bool_decide (s ∈ m).

(** ** Expressions *)
Definition validateIdentifier (p : Position) (n : string) (v : Validator) : Validator :=
  match Lookup n (symbols v) with None => Add (errUndefinedVariable p n) v | Some _ => v end.

(** [validateFunctionCall] once the arguments are validated. *)
Definition check_call (p : Position) (n : string) (nargs : Z) (v : Validator) : Validator :=
  match Lookup n (symbols v) with
  | None => Add (errUndefinedFunction p n) v
  | Some sym =>
      if bool_decide (Kind sym <> SymbolFunction) then Add (errNotAFunction p n) v
      else AddIf (negb (nargs =? ParamCount sym)) (errWrongArgCount p n (ParamCount sym) nargs) v
  end.

Fixpoint validateExpression (e : Expression) (v : Validator) : Validator :=
  match e with
  | Identifier p n => validateIdentifier p n v
  | FunctionCall p n args => check_call p n (Z.of_nat (length args)) (each validateExpression args v)
  | ArrayLiteral _ es => each validateExpression es v
  | BinaryExpr _ l _ r => validateExpression r (validateExpression l v)
  | UnaryExpr _ _ e => validateExpression e v
  | NilExpr | StringLiteral _ _ | NumberLiteral _ _ | BoolLiteral _ _ => v
  end.

(** ** Variables *)
Definition validateVarDecl (p : Position) (n : string) (value : Expression) (v : Validator) : Validator :=
  let v := validateExpression value v in
  match LookupLocal n (symbols v) with
  | Some _ => Add (errDuplicateDeclaration p n) v
  | None =>
      let typ := InferType (symbols v) value in
      match DeclareWithType n SymbolVariable typ (symbols v) with
      | (_, false) => Add (errDuplicateDeclaration p n) v
      | (st, true) => set_types (<[n := typ]> (types v)) (set_symbols st v)
      end
  end.

(** [validateAssignment] once the value is validated. *)
Definition assign (p : Position) (n : string) (value : Expression) (v : Validator) : Validator :=
  match Lookup n (symbols v) with
  | None => Add (errUndefinedVariable p n) v
  | Some sym =>
      if bool_decide (Kind sym = SymbolFunction)
      then Add (newScopeError p ("cannot assign to function '" ++ n ++ "'")) v
      else
        let newType := InferType (symbols v) value in
        if bool_decide (newType = TypeUnknown) then v
        else set_types (<[n := newType]> (types v)) (set_symbols (UpdateType n newType (symbols v)) v)
  end.

Definition validateAssignment (p : Position) (n : string) (value : Expression) (v : Validator) : Validator :=
  assign p n value (validateExpression value v).

Definition enter (v : Validator) : Validator := set_symbols (EnterScope (symbols v)) v.
Definition exit_ (v : Validator) : Validator := set_symbols (ExitScope (symbols v)) v.

(** The loop over the parameters; [paramNames] are those seen. *)
Fixpoint declare_params (p : Position) (ps : list Parameter_) (paramNames : gset string) (v : Validator) : Validator :=
  match ps with
  | [] => v
  | q :: ps' =>
      if seen (par_Name q) paramNames
      then declare_params p ps' paramNames (Add (errDuplicateParameter p (par_Name q)) v)
      else
        let v := match DeclareWithType (par_Name q) SymbolParameter TypeUnknown (symbols v) with
                 | (_, false) => Add (errDuplicateDeclaration p (par_Name q)) v
                 | (st, true) => set_symbols st v
                 end in
        declare_params p ps' ({[par_Name q]} ∪ paramNames) v
  end.

(** ** Models *)
Definition valid_types : list string :=
  ["uuid"; "string"; "text"; "integer"; "int"; "decimal"; "boolean"; "bool"; "timestamp"; "date"; "time"; "json";
   "jsonb"; "list"; "array"; "ref"; "enum"].

Fixpoint validateFieldType (modelName : string) (t : TypeRef) (v : Validator) : Validator :=
  match t with
  | mkTypeRef p n params =>
      let v := semanticIf (negb (one_of valid_types n)) p
        ("unknown type '" ++ n ++ "' in model '" ++ modelName ++ "'; valid types: uuid, string, text, integer, decimal, boolean, timestamp, date, time, json, list, ref, enum") v in
      if String.eqb n "ref" then v else each (validateFieldType modelName) params v
  end.

(** The loop of [validateModifiers] and [validateMongoModifiers]; [check] is
    what the latter does first. *)
Fixpoint modifier_loop (check : Modifier -> Validator -> Validator) (dup : string -> string) (ms : list Modifier)
    (seenModifiers : gset string) (v : Validator) : gset string * Validator :=
  match ms with
  | [] => (seenModifiers, v)
  | m :: ms' =>
      let v := check m v in
      let v := semanticIf (seen (mod_Name m) seenModifiers) (mod_pos m) (dup (mod_Name m)) v in
      let v := validateExpression (mod_Value m) v in
      modifier_loop check dup ms' ({[mod_Name m]} ∪ seenModifiers) v
  end.

Definition conflict (ms : list Modifier) (fieldName : string) (r : gset string * Validator) : Validator :=
  let '(seenModifiers, v) := r in
  match ms with
  | m :: _ => semanticIf (seen "required" seenModifiers && seen "optional" seenModifiers) (mod_pos m)
                ("field '" ++ fieldName ++ "' cannot be both required and optional") v
  | [] => v
  end.

Definition validateModifiers (ms : list Modifier) (modelName fieldName : string) (v : Validator) : Validator :=
  conflict ms fieldName (modifier_loop (fun _ v => v)
    (fun n => "duplicate modifier '" ++ n ++ "' on field '" ++ fieldName ++ "' in model '" ++ modelName ++ "'") ms ∅ v).

Definition validateIndex (unknown : string -> string) (fieldNames : gset string) (p : Position) (fs : list string)
    (v : Validator) : Validator :=
  each (fun f v => semanticIf (negb (seen f fieldNames)) p (unknown f) v) fs v.

Fixpoint model_fields (modelName : string) (fs : list FieldDecl) (fieldNames : gset string) (v : Validator) :
    gset string * Validator :=
  match fs with
  | [] => (fieldNames, v)
  | f :: fs' =>
      let v := semanticIf (seen (fd_Name f) fieldNames) (fd_pos f)
        ("duplicate field '" ++ fd_Name f ++ "' in model '" ++ modelName ++ "'") v in
      let v := match fd_Type f with Some t => validateFieldType modelName t v | None => v end in
      let v := validateModifiers (fd_Modifiers f) modelName (fd_Name f) v in
      model_fields modelName fs' ({[fd_Name f]} ∪ fieldNames) v
  end.

Definition validateModelDecl (d : ModelDecl) (v : Validator) : Validator :=
  let '(fieldNames, v) := model_fields (md_Name d) (md_Fields d) ∅ v in
  each (fun idx => validateIndex (fun f => "index references unknown field '" ++ f ++ "' in model '" ++ md_Name d ++ "'")
    fieldNames (idx_pos idx) (idx_Fields idx)) (md_Indexes d) v.

(** ** Collections *)
Definition invalidMongoModifiers : list string := ["foreign_key"; "references"; "on_delete"; "on_update"; "cascade"].

Definition validateMongoModifiers (ms : list Modifier) (collName fieldName : string) (v : Validator) : Validator :=
  conflict ms fieldName (modifier_loop
    (fun m v => semanticIf (one_of invalidMongoModifiers (mod_Name m)) (mod_pos m)
      ("modifier '" ++ mod_Name m ++ "' is not valid for MongoDB collections; foreign keys and referential constraints are not supported") v)
    (fun n => "duplicate modifier '" ++ n ++ "' on field '" ++ fieldName ++ "' in collection '" ++ collName ++ "'") ms ∅ v).

Definition maxNestingDepth : Z := 10.

Definition valid_mongo_types : list string :=
  ["objectid"; "string"; "int"; "int32"; "int64"; "double"; "decimal"; "bool"; "boolean"; "date"; "timestamp"; "binary";
   "regex"; "array"; "object"; "null"; "mixed"].

Fixpoint validateMongoFieldType (collName : string) (t : MongoTypeRef) (fieldName : string) (depth : Z)
    (v : Validator) : Validator :=
  match t with
  | mkMongoTypeRef p n _ doc =>
      if maxNestingDepth <? depth then
        semantic p ("embedded document nesting exceeds maximum depth of " ++ encode_rune (48 + maxNestingDepth) ++
          " in collection '" ++ collName ++ "', field '" ++ fieldName ++ "'") v
      else
        match doc with
        | Some d =>
            each (fun f v =>
              let v := match mf_Type f with
                       | Some t => validateMongoFieldType collName t (mf_Name f) (depth + 1) v
                       | None => v
                       end in
              validateMongoModifiers (mf_Modifiers f) collName (mf_Name f) v) (ed_Fields d) v
        | None =>
            semanticIf (negb (one_of valid_mongo_types n)) p
              ("unknown MongoDB type '" ++ n ++ "' in collection '" ++ collName ++ "', field '" ++ fieldName ++ "'; valid types: objectid, string, int, int32, int64, double, decimal, bool, date, timestamp, binary, array, object") v
        end
  end.

Fixpoint collection_fields (collName : string) (fs : list MongoFieldDecl) (fieldNames : gset string) (v : Validator) :
    gset string * Validator :=
  match fs with
  | [] => (fieldNames, v)
  | f :: fs' =>
      let v := semanticIf (seen (mf_Name f) fieldNames) (mf_pos f)
        ("duplicate field '" ++ mf_Name f ++ "' in collection '" ++ collName ++ "'") v in
      let v := match mf_Type f with Some t => validateMongoFieldType collName t (mf_Name f) 0 v | None => v end in
      let v := validateMongoModifiers (mf_Modifiers f) collName (mf_Name f) v in
      collection_fields collName fs' ({[mf_Name f]} ∪ fieldNames) v
  end.

Definition validateCollectionDecl (d : CollectionDecl) (v : Validator) : Validator :=
  let '(fieldNames, v) := collection_fields (cd_Name d) (cd_Fields d) ∅ v in
  each (fun idx => validateIndex
    (fun f => "index references unknown field '" ++ f ++ "' in collection '" ++ cd_Name d ++ "'")
    fieldNames (mi_pos idx) (mi_Fields idx)) (cd_Indexes d) v.

(** ** Configuration and databases *)
Definition validateConfigDecl (cfg : ConfigDecl) (v : Validator) : Validator :=
  match configDecl v with
  | Some _ => semantic (cfg_pos cfg) "duplicate config declaration; only one config block allowed" v
  | None =>
      let v := set_configDecl cfg v in
      let v := semanticIf (negb (one_of ["postgres"; "mongodb"] (cfg_DatabaseType cfg))) (cfg_pos cfg)
        "invalid database_type: must be 'postgres' or 'mongodb'" v in
      if String.eqb (cfg_DatabaseType cfg) "mongodb" then
        let v := semanticIf (String.eqb (MongoDBURI cfg) "") (cfg_pos cfg)
          "mongodb_uri is required when database_type is 'mongodb'" v in
        semanticIf (String.eqb (MongoDBName cfg) "") (cfg_pos cfg)
          "mongodb_database is required when database_type is 'mongodb'" v
      else v
  end.

Definition check_database (configDBType : string) (db : DatabaseRef) (v : Validator) : Validator :=
  semanticIf (negb (String.eqb (db_DBType db) configDBType))
    (match configDecl v with Some cfg => cfg_pos cfg | None => db_pos db end)
    ("database block type '" ++ db_DBType db ++ "' does not match config database_type '" ++ configDBType ++
     "'; all database blocks must match the configured database type") v.

Definition validateDatabaseTypeConsistency (v : Validator) : Validator :=
  match configDecl v, databaseBlocks v with
  | None, [] => v
  | _, _ =>
      let configDBType := match configDecl v with Some cfg => cfg_DatabaseType cfg | None => "postgres" end in
      let v := each (check_database configDBType) (databaseBlocks v) v in
      match configDecl v with
      | Some cfg =>
          if String.eqb (cfg_DatabaseType cfg) "mongodb" then
            let hasMongoBlock := existsb (fun db => String.eqb (db_DBType db) "mongodb") (databaseBlocks v) in
            semanticIf (negb hasMongoBlock && negb (Nat.eqb (length (databaseBlocks v)) 0)) (cfg_pos cfg)
              "config specifies database_type 'mongodb' but no mongodb database block found" v
          else v
      | None => v
      end
  end.

(** ** Authentication, roles and middleware *)
Definition validateJWKSConfig (jwks : JWKSConfig) (authName : string) (v : Validator) : Validator :=
  semanticIf (String.eqb (URL jwks) "") (jwks_pos jwks) ("jwks_url is required in auth provider '" ++ authName ++ "'") v.

Definition validateAuthDecl (a : AuthDecl) (v : Validator) : Validator :=
  match authProviders v !! auth_Name a with
  | Some existing =>
      semantic (auth_pos a) ("duplicate auth provider '" ++ auth_Name a ++ "'; first declared at " ++
        Position_String (auth_pos existing)) v
  | None =>
      let v := set_authProviders (<[auth_Name a := a]> (authProviders v)) v in
      let v := semanticIf (negb (one_of ["jwt"; "oauth2"; "apikey"; "basic"] (Method a))) (auth_pos a)
        ("invalid auth method '" ++ Method a ++ "'; valid methods: jwt, oauth2, apikey, basic") v in
      match JWKS a with Some jwks => validateJWKSConfig jwks (auth_Name a) v | None => v end
  end.

Definition validateRoleDecl (r : RoleDecl) (v : Validator) : Validator :=
  match roles v !! role_Name r with
  | Some existing =>
      semantic (role_pos r) ("duplicate role '" ++ role_Name r ++ "'; first declared at " ++
        Position_String (role_pos existing)) v
  | None =>
      each (fun perm => semanticIf (String.eqb perm "") (role_pos r) ("empty permission in role '" ++ role_Name r ++ "'"))
        (role_Permissions r) (set_roles (<[role_Name r := r]> (roles v)) v)
  end.

Definition validateAuthenticationMiddleware (mw : MiddlewareDecl) (v : Validator) : Validator :=
  match mw_Config mw !! "provider" with
  | None => semantic (mw_pos mw) ("authentication middleware '" ++ mw_Name mw ++ "' requires 'provider' in config") v
  | Some (Identifier _ n) =>
      semanticIf (bool_decide (authProviders v !! n = None)) (mw_pos mw)
        ("authentication middleware '" ++ mw_Name mw ++ "' references unknown auth provider '" ++ n ++ "'") v
  | Some _ => v
  end.

Definition validateAuthorizationMiddleware (mw : MiddlewareDecl) (v : Validator) : Validator :=
  match mw_Config mw !! "roles" with
  | Some (ArrayLiteral _ elements) =>
      each (fun elem v =>
        match elem with
        | StringLiteral _ r =>
            semanticIf (bool_decide (roles v !! r = None)) (mw_pos mw)
              ("authorization middleware '" ++ mw_Name mw ++ "' references unknown role '" ++ r ++ "'") v
        | _ => v
        end) elements v
  | _ => v
  end.

Definition validateRateLimitingMiddleware (mw : MiddlewareDecl) (v : Validator) : Validator :=
  let v := semanticIf (bool_decide (mw_Config mw !! "requests" = None)) (mw_pos mw)
    ("rate_limiting middleware '" ++ mw_Name mw ++ "' requires 'requests' in config") v in
  let v := semanticIf (bool_decide (mw_Config mw !! "window" = None)) (mw_pos mw)
    ("rate_limiting middleware '" ++ mw_Name mw ++ "' requires 'window' in config") v in
  match mw_Config mw !! "strategy" with
  | Some (Identifier _ n) =>
      semanticIf (negb (one_of ["fixed_window"; "sliding_window"; "token_bucket"; "leaky_bucket"] n)) (mw_pos mw)
        ("unknown rate limiting strategy '" ++ n ++ "' in middleware '" ++ mw_Name mw ++
         "'; valid strategies: fixed_window, sliding_window, token_bucket, leaky_bucket") v
  | _ => v
  end.

Definition valid_middleware_types : list string :=
  ["authentication"; "authorization"; "rate_limiting"; "logging"; "cors"; "compression"; "cache"; "custom"].

Definition validateMiddlewareDecl (mw : MiddlewareDecl) (v : Validator) : Validator :=
  match middlewares v !! mw_Name mw with
  | Some existing =>
      semantic (mw_pos mw) ("duplicate middleware '" ++ mw_Name mw ++ "'; first declared at " ++
        Position_String (mw_pos existing)) v
  | None =>
      let v := set_middlewares (<[mw_Name mw := mw]> (middlewares v)) v in
      let v := semanticIf (negb (one_of valid_middleware_types (MiddlewareType mw))) (mw_pos mw)
        ("unknown middleware type '" ++ MiddlewareType mw ++ "' in middleware '" ++ mw_Name mw ++
         "'; valid types: authentication, authorization, rate_limiting, logging, cors, compression, cache, custom") v in
      if String.eqb (MiddlewareType mw) "authentication" then validateAuthenticationMiddleware mw v
      else if String.eqb (MiddlewareType mw) "authorization" then validateAuthorizationMiddleware mw v
      else if String.eqb (MiddlewareType mw) "rate_limiting" then validateRateLimitingMiddleware mw v
      else v
  end.

(** ** Events, integrations and webhooks *)
Definition initEventValidation (v : Validator) : EventValidation :=
  match eventValidation v with Some e => e | None => mkEventValidation ∅ [] ∅ ∅ ∅ end.

(** The pattern for event names: one or two words that start with a letter,
    separated by a dot. *)
Definition is_letter (c : Ascii.ascii) : bool := is_lower c || is_upper c.
Definition is_word (c : Ascii.ascii) : bool := is_letter c || is_digit c || Ascii.eqb c "_"%char.
Definition is_name_part (s : string) : bool :=
  match s with EmptyString => false | String c s' => is_letter c && str_forall is_word s' end.

Definition isValidEventNameFormat (n : string) : bool :=
  let parts := Split "."%char n in (length parts <=? 2)%nat && forallb is_name_part parts.

(** [strings.ToLower], as far as a comparison with ASCII words sees it: two
    letters outside ASCII have an ASCII lower case. *)
Definition lower_rune (r : Z) : Z :=
  if (65 <=? r) && (r <=? 90) then r + 32 else if r =? 304 then 105 else if r =? 8490 then 107 else r.
Definition ToLower_word (s : string) : string :=
  Join (map (fun ir => encode_rune (lower_rune ir.2)) (range_runes s)) "".

Definition valid_schema_types : list string :=
  ["string"; "int"; "integer"; "decimal"; "float"; "bool"; "boolean"; "timestamp"; "datetime"; "array"; "object"; "uuid"].

Fixpoint schema_fields (eventName : string) (fs : list EventSchemaField) (fieldNames : gset string) (v : Validator) :
    Validator :=
  match fs with
  | [] => v
  | f :: fs' =>
      let v := semanticIf (seen (sf_Name f) fieldNames) (sf_pos f)
        ("duplicate field '" ++ sf_Name f ++ "' in event '" ++ eventName ++ "' schema") v in
      let v := semanticIf (negb (one_of valid_schema_types (ToLower_word (sf_Type f)))) (sf_pos f)
        ("unknown field type '" ++ sf_Type f ++ "' in event '" ++ eventName ++
         "' schema; valid types: string, int, decimal, bool, timestamp, array, object, uuid") v in
      schema_fields eventName fs' ({[sf_Name f]} ∪ fieldNames) v
  end.

Definition validateEventDecl (e : EventDecl) (v : Validator) : Validator :=
  let v := set_eventValidation (initEventValidation v) v in
  let v := semanticIf (negb (isValidEventNameFormat (ev_Name e))) (ev_pos e)
    ("event name '" ++ ev_Name e ++ "' should follow resource.action or resource_action pattern") v in
  let ev := initEventValidation v in
  match events ev !! ev_Name e with
  | Some existing =>
      semantic (ev_pos e) ("duplicate event '" ++ ev_Name e ++ "'; first declared at " ++
        Position_String (ev_pos existing)) v
  | None =>
      let v := set_eventValidation (mkEventValidation (<[ev_Name e := e]> (events ev)) (handlers ev) (integrations ev)
        (webhooks ev) (workflows ev)) v in
      match ev_Schema e with Some s => schema_fields (ev_Name e) (es_Fields s) ∅ v | None => v end
  end.

Definition validateEventHandler (h : EventHandlerDecl) (v : Validator) : Validator :=
  let ev := initEventValidation v in
  let v := set_eventValidation (mkEventValidation (events ev) (handlers ev ++ [h])%list (integrations ev) (webhooks ev)
    (workflows ev)) v in
  semanticIf (negb (one_of ["workflow"; "integration"; "emit"; "webhook"] (ActionType h))) (eh_pos h)
    ("invalid action type '" ++ ActionType h ++ "'; valid types: workflow, integration, emit, webhook") v.

Section Events.
(** [url.Parse]: the scheme, or the text of the error. *)
Variable urlParse : string -> result string string.

Definition validateURL (url what name_ : string) (p : Position) (v : Validator) : Validator :=
  match urlParse url with
  | Err err => semantic p ("invalid " ++ what ++ " in " ++ name_ ++ "': " ++ err) v
  | Ok scheme => semanticIf (negb (String.eqb scheme "https") && negb (String.eqb scheme "http")) p
      (what ++ " in " ++ name_ ++ "' should use https:// or http:// scheme") v
  end.

Definition validateIntegrationAuth (a : IntegrationAuthDecl) (integrationName : string) (v : Validator) : Validator :=
  let missing k := bool_decide (ia_Config a !! k = None) in
  if String.eqb (AuthType a) "bearer" then
    semanticIf (missing "token") (ia_pos a)
      ("bearer auth in integration '" ++ integrationName ++ "' requires 'token' config") v
  else if String.eqb (AuthType a) "apikey" then
    let v := semanticIf (missing "header") (ia_pos a)
      ("apikey auth in integration '" ++ integrationName ++ "' requires 'header' config") v in
    semanticIf (missing "value") (ia_pos a)
      ("apikey auth in integration '" ++ integrationName ++ "' requires 'value' config") v
  else if one_of ["basic"; "oauth2"] (AuthType a) then v
  else semantic (ia_pos a) ("unknown auth type in integration '" ++ integrationName ++ "'") v.

Definition validateCircuitBreaker (cb : CircuitBreakerConfig) (integrationName : string) (v : Validator) : Validator :=
  let v := semanticIf (cb_FailureThreshold cb <=? 0) (cb_pos cb)
    ("circuit_breaker threshold must be positive in integration '" ++ integrationName ++ "'") v in
  let v := semanticIf (MaxConcurrent cb <=? 0) (cb_pos cb)
    ("circuit_breaker max_concurrent must be positive in integration '" ++ integrationName ++ "'") v in
  semanticIf (String.eqb (cb_Timeout cb) "") (cb_pos cb)
    ("circuit_breaker timeout is required in integration '" ++ integrationName ++ "'") v.

Definition validateIntegrationDecl (g : IntegrationDecl) (v : Validator) : Validator :=
  let ev := initEventValidation v in
  match integrations ev !! ig_Name g with
  | Some existing =>
      semantic (ig_pos g) ("duplicate integration '" ++ ig_Name g ++ "'; first declared at " ++
        Position_String (ig_pos existing)) (set_eventValidation ev v)
  | None =>
      let v := set_eventValidation (mkEventValidation (events ev) (handlers ev) (<[ig_Name g := g]> (integrations ev))
        (webhooks ev) (workflows ev)) v in
      let v := semanticIf (negb (one_of ["rest"; "graphql"; "grpc"; "webhook"] (IntgType g))) (ig_pos g)
        ("unknown integration type '" ++ IntgType g ++ "'; valid types: rest, graphql, grpc, webhook") v in
      let v := if String.eqb (BaseURL g) ""
               then semantic (ig_pos g) ("integration '" ++ ig_Name g ++ "' requires a base_url") v
               else validateURL (BaseURL g) "base_url" ("integration '" ++ ig_Name g) (ig_pos g) v in
      let v := match ig_Auth g with Some a => validateIntegrationAuth a (ig_Name g) v | None => v end in
      match ig_CircuitBreaker g with Some cb => validateCircuitBreaker cb (ig_Name g) v | None => v end
  end.

Definition float_one : spec_float := S754_finite false 4503599627370496 (-52).

Definition validateWebhookDecl (w : WebhookDecl) (v : Validator) : Validator :=
  let ev := initEventValidation v in
  match webhooks ev !! wd_Name w with
  | Some existing =>
      semantic (wd_pos w) ("duplicate webhook '" ++ wd_Name w ++ "'; first declared at " ++
        Position_String (wd_pos existing)) (set_eventValidation ev v)
  | None =>
      let v := set_eventValidation (mkEventValidation (events ev) (handlers ev) (integrations ev)
        (<[wd_Name w := w]> (webhooks ev)) (workflows ev)) v in
      let v := if String.eqb (wd_URL w) "" then semantic (wd_pos w) ("webhook '" ++ wd_Name w ++ "' requires a url") v
               else validateURL (wd_URL w) "url" ("webhook '" ++ wd_Name w) (wd_pos w) v in
      let v := semanticIf (String.eqb (wd_Event w) "") (wd_pos w)
        ("webhook '" ++ wd_Name w ++ "' requires an event name") v in
      match wd_Retry w with
      | Some r =>
          let v := semanticIf (rp_MaxAttempts r <=? 0) (wd_pos w)
            ("retry max_attempts must be positive in webhook '" ++ wd_Name w ++ "'") v in
          semanticIf (SFltb (BackoffMultiplier r) float_one) (wd_pos w)
            ("retry backoff must be >= 1.0 in webhook '" ++ wd_Name w ++ "'") v
      | None => v
      end
  end.

(** Every branch of [validateEventReferences] is empty: it reports nothing. *)
Definition validateEventReferences (v : Validator) : Validator := v.

(** ** Statements *)
Definition validateBlock_with (validate : Statement -> Validator -> Validator) (b : option Block) (v : Validator) :
    Validator :=
  match b with Some b => each validate (b_Statements b) v | None => v end.

Fixpoint validateStatement (s : Statement) (v : Validator) : Validator :=
  match s with
  | NilStmt => v
  | VarDecl p n value => validateVarDecl p n value v
  | Assignment p n value => validateAssignment p n value v
  | IfStmt _ c t e =>
      let v := validateExpression c v in
      let v := exit_ (validateBlock_with validateStatement t (enter v)) in
      match e with
      | Some _ => exit_ (validateBlock_with validateStatement e (enter v))
      | None => v
      end
  | ForLoop p x it b =>
      let v := validateExpression it v in
      let iterableType := InferType (symbols v) it in
      let v := AddIf (negb (bool_decide (iterableType = TypeUnknown)) && negb (IsIterable iterableType))
        (errCannotIterate p (Type_String iterableType)) v in
      let v := enter v in
      let v := match DeclareWithType x SymbolVariable TypeUnknown (symbols v) with
               | (_, false) => Add (errDuplicateDeclaration p x) v
               | (st, true) => set_symbols st v
               end in
      exit_ (validateBlock_with validateStatement b v)
  | FunctionDecl p n ps b =>
      match LookupLocal n (symbols v) with
      | Some _ => Add (errDuplicateDeclaration p n) v
      | None =>
          match DeclareFunction n (Z.of_nat (length ps)) (symbols v) with
          | (_, false) => Add (errDuplicateDeclaration p n) v
          | (st, true) =>
              let v := enter (set_symbols st v) in
              exit_ (validateBlock_with validateStatement b (declare_params p ps ∅ v))
          end
      end
  | ExecBlock _ _ => v
  | BlockStmt b => each validateStatement (b_Statements b) v
  | ReturnStmt _ value => validateExpression value v
  | DatabaseBlock p t _ l =>
      each validateStatement l (set_databaseBlocks (databaseBlocks v ++ [mkDatabaseRef p t])%list v)
  | Config d => validateConfigDecl d v
  | Model d => validateModelDecl d v
  | Collection d => validateCollectionDecl d v
  | Auth d => validateAuthDecl d v
  | Role d => validateRoleDecl d v
  | Middleware d => validateMiddlewareDecl d v
  | Event d => validateEventDecl d v
  | EventHandler d => validateEventHandler d v
  | Integration d => validateIntegrationDecl d v
  | Webhook d => validateWebhookDecl d v
  | Workflow _ | Job _ | Endpoint _ => v
  end.

(** [Validate]: the validator afterwards and its errors. *)
Definition Validate (p : option Program_) (v : Validator) : Validator * list ValidationError :=
  match p with
  | None => (v, [])
  | Some p =>
      let v := each validateStatement (Statements p) v in
      let v := validateEventReferences (validateDatabaseTypeConsistency v) in
      (v, errors v)
  end.
End Events.

Definition TypeOf (n : string) (v : Validator) : option Type_ := types v !! n.

(** [seen] is membership. *)
Lemma seen_true s (m : gset string) : seen s m = true <-> s ∈ m.
Proof. unfold seen. apply bool_decide_eq_true. Qed.
Lemma seen_false s (m : gset string) : seen s m = false <-> s ∉ m.
Proof. unfold seen. apply bool_decide_eq_false. Qed.
