(* ===== verification/DslScoping.v ===== *)
(** The scoping discipline of the CodeAI language as a declarative relation,
    and the validator as its decision procedure.

    [scoped s G G'] says that statement [s] is well scoped in the scopes [G]
    and leaves the scopes [G'].  It is defined without reference to the
    validator's state, its early returns or its errors. *)

From Stdlib Require Import ZArith Lia.
From stdpp Require Import base strings list gmap.
From S2P Require Import Prelude GoStrings DslAst DslSymbols DslValidator.

#[local] Open Scope Z_scope.

(** ** The discipline *)
(** Every name is declared, and what is called is a function of that many
    parameters. *)
Fixpoint scoped_expr (G : SymbolTable) (e : Expression) : Prop :=
  match e with
  | Identifier _ n => exists sym, Lookup n G = Some sym
  | FunctionCall _ n args =>
      fold_right (fun a P => scoped_expr G a /\ P) True args /\
      exists sym, Lookup n G = Some sym /\ Kind sym = SymbolFunction /\ ParamCount sym = Z.of_nat (length args)
  | ArrayLiteral _ es => fold_right (fun a P => scoped_expr G a /\ P) True es
  | BinaryExpr _ l _ r => scoped_expr G l /\ scoped_expr G r
  | UnaryExpr _ _ e => scoped_expr G e
  | NilExpr | StringLiteral _ _ | NumberLiteral _ _ | BoolLiteral _ _ => True
  end.

Definition scoped_exprs (G : SymbolTable) (es : list Expression) : Prop := Forall (scoped_expr G) es.

(** The default values of the fields' modifiers, down to the nesting limit. *)
Definition modifier_values (ms : list Modifier) : list Expression := map mod_Value ms.

Fixpoint document_values (depth : Z) (t : MongoTypeRef) : list Expression :=
  match t with
  | mkMongoTypeRef _ _ _ None => []
  | mkMongoTypeRef _ _ _ (Some d) =>
      if maxNestingDepth <? depth then []
      else concat (map (fun f =>
        (match mf_Type f with Some t => document_values (depth + 1) t | None => [] end ++
         modifier_values (mf_Modifiers f))%list) (ed_Fields d))
  end.

Definition field_values (f : MongoFieldDecl) : list Expression :=
  (match mf_Type f with Some t => document_values 0 t | None => [] end ++ modifier_values (mf_Modifiers f))%list.

Definition variable (n : string) (t : Type_) : Symbol := mkSymbol n SymbolVariable t 0.
Definition parameter (n : string) : Symbol := mkSymbol n SymbolParameter TypeUnknown 0.

(** Assigning a value of a known type changes the variable's type, wherever it
    is declared. *)
Definition retyped (n : string) (t : Type_) (G : SymbolTable) : SymbolTable :=
  if bool_decide (t = TypeUnknown) then G else UpdateType n t G.

(** [G'] adds [sym] to the current scope of [G], where its name is new. *)
Definition declares (sym : Symbol) (G G' : SymbolTable) : Prop :=
  LookupLocal (sym_Name sym) G = None /\ exists s G0, G = s :: G0 /\ G' = <[sym_Name sym := sym]> s :: G0.

(** One statement after the other. *)
Definition scoped_list_with (R : Statement -> SymbolTable -> SymbolTable -> Prop) :=
  fix loop (l : list Statement) (G G' : SymbolTable) : Prop :=
    match l with
    | [] => G' = G
    | s :: l' => exists G1, R s G G1 /\ loop l' G1 G'
    end.

Definition scoped_block_with R (b : option Block) (G G' : SymbolTable) : Prop :=
  match b with Some b => scoped_list_with R (b_Statements b) G G' | None => G' = G end.

Definition params_scope (ps : list Parameter_) : scope :=
  list_to_map (map (fun p => (par_Name p, parameter (par_Name p))) ps).

Fixpoint scoped (s : Statement) (G G' : SymbolTable) : Prop :=
  match s with
  | VarDecl _ n e => scoped_expr G e /\ declares (variable n (InferType G e)) G G'
  | Assignment _ n e =>
      scoped_expr G e /\ (exists sym, Lookup n G = Some sym /\ Kind sym <> SymbolFunction) /\
      G' = retyped n (InferType G e) G
  | IfStmt _ c t e =>
      scoped_expr G c /\ exists s1 G1, scoped_block_with scoped t (∅ :: G) (s1 :: G1) /\
      match e with
      | Some _ => exists s2, scoped_block_with scoped e (∅ :: G1) (s2 :: G')
      | None => G' = G1
      end
  | ForLoop _ x it b =>
      scoped_expr G it /\ (InferType G it = TypeUnknown \/ InferType G it = TypeArray) /\
      exists s1, scoped_block_with scoped b ({[x := variable x TypeUnknown]} :: G) (s1 :: G')
  | FunctionDecl _ n ps b =>
      NoDup (map par_Name ps) /\
      exists G1 s1, declares (mkSymbol n SymbolFunction TypeFunction (Z.of_nat (length ps))) G G1 /\
        scoped_block_with scoped b (params_scope ps :: G1) (s1 :: G')
  | BlockStmt b => scoped_list_with scoped (b_Statements b) G G'
  | ReturnStmt _ e => scoped_expr G e /\ G' = G
  | DatabaseBlock _ _ _ l => scoped_list_with scoped l G G'
  | Model d => Forall (fun f => scoped_exprs G (modifier_values (fd_Modifiers f))) (md_Fields d) /\ G' = G
  | Collection d => Forall (fun f => scoped_exprs G (field_values f)) (cd_Fields d) /\ G' = G
  | _ => G' = G
  end.

(** A statement list run in the scopes of the language. *)
Definition well_scoped (p : Program_) (G : SymbolTable) : Prop :=
  scoped_list_with scoped (Statements p) NewSymbolTable G.

(** The errors about scopes, types and functions. *)
Definition is_scoping (e : ValidationError) : bool := bool_decide (err_Type e <> ErrorSemantic).
Definition scoping (l : list ValidationError) : list ValidationError := filter (fun e => is_scoping e) l.

(** ** The validator decides it *)
(** [f] implements the relation [R] on scopes: if some [G'] is related to the
    current scopes, it is the new scopes and no scoping error is added; if
    none is, some scoping error is added. *)
Definition implements (f : Validator -> Validator) (R : SymbolTable -> SymbolTable -> Prop) : Prop :=
  forall v, symbols v <> [] ->
  length (symbols (f v)) = length (symbols v) /\
  exists l, scoping (errors (f v)) = (scoping (errors v) ++ l)%list /\
    match l with
    | [] => forall G', R (symbols v) G' <-> G' = symbols (f v)
    | _ => forall G', ~ R (symbols v) G'
    end.

Lemma implements_iff f R R' : implements f R -> (forall G G', R G G' <-> R' G G') -> implements f R'.
Proof.
  intros H Hiff v Hv. destruct (H v Hv) as (Hl & l & Hs & Hm). split; [done|]. exists l. split; [done|].
  destruct l; intros G'; rewrite <- Hiff; apply Hm.
Qed.

Lemma implements_ext f g R : implements f R -> (forall v, g v = f v) -> implements g R.
Proof. intros H E v Hv. rewrite E. by apply H. Qed.

Lemma symbols_nonempty (v v' : Validator) : length (symbols v') = length (symbols v) -> symbols v <> [] -> symbols v' <> [].
Proof. destruct (symbols v), (symbols v'); done. Qed.

Lemma implements_comp f g R S : implements f R -> implements g S ->
  implements (fun v => g (f v)) (fun G G'' => exists G', R G G' /\ S G' G'').
Proof.
  intros Hf Hg v Hv. destruct (Hf v Hv) as (Hl & l & Hs & Hm).
  destruct (Hg (f v) (symbols_nonempty _ _ Hl Hv)) as (Hl' & l' & Hs' & Hm'). split; [congruence|].
  exists (l ++ l')%list. rewrite Hs', Hs, <- app_assoc. split; [done|]. destruct l as [|e l]; cbn.
  - destruct l' as [|e l']; intros G''.
    + rewrite <- Hm'. split; [intros (G' & H1%Hm & H2); by subst | intros H; exists (symbols (f v)); by rewrite Hm].
    + intros (G' & H1%Hm & H2). subst. by apply Hm' in H2.
  - intros G'' (G' & H1 & H2). by apply Hm in H1.
Qed.

(** Steps that neither touch the scopes nor report a scoping error. *)
Definition soft (f : Validator -> Validator) : Prop :=
  forall v, symbols (f v) = symbols v /\ scoping (errors (f v)) = scoping (errors v).

Lemma soft_implements f : soft f -> implements f (fun G G' => G' = G).
Proof.
  intros H v _. destruct (H v) as [H1 H2]. rewrite H1. split; [done|]. exists []. rewrite app_nil_r.
  split; [done|]. done.
Qed.

Lemma soft_id : soft (fun v => v).
Proof. by intros v. Qed.

Lemma implements_trivial f (P : SymbolTable -> Prop) : soft f -> (forall G, P G) ->
  implements f (fun G G' => P G /\ G' = G).
Proof.
  intros Hf HP. eapply implements_iff; [apply (soft_implements f Hf)|]. intros G G'.
  split; [intros ->; by split | by intros [_ ->]].
Qed.

Lemma soft_comp f g : soft f -> soft g -> soft (fun v => g (f v)).
Proof. intros Hf Hg v. destruct (Hf v), (Hg (f v)). split; congruence. Qed.

Lemma implements_soft_l f g R : soft f -> implements g R -> implements (fun v => g (f v)) R.
Proof.
  intros Hf Hg. eapply implements_iff; [apply (implements_comp _ _ _ _ (soft_implements f Hf) Hg)|].
  intros G G'. split; [intros (? & -> & ?); done | eauto].
Qed.

Lemma implements_soft_r f g R : implements f R -> soft g -> implements (fun v => g (f v)) R.
Proof.
  intros Hf Hg. eapply implements_iff; [apply (implements_comp _ _ _ _ Hf (soft_implements g Hg))|].
  intros G G'. split; [intros (? & ? & ->); done | eauto].
Qed.

Lemma soft_each {A} (f : A -> Validator -> Validator) l : (forall x, soft (f x)) -> soft (each f l).
Proof.
  intros H. induction l as [|x l IH]; intros v; [done|]. cbn. destruct (H x v), (IH (f x v)). split; congruence.
Qed.

Lemma soft_semanticIf b p m : soft (semanticIf b p m).
Proof.
  intros v. destruct b; [|done]. split; [done|]. unfold scoping. cbn. rewrite filter_app. cbn.
  by rewrite app_nil_r.
Qed.

Lemma soft_semantic p m : soft (semantic p m).
Proof. apply (soft_semanticIf true). Qed.

(** A test that reports a scoping error, and otherwise does nothing. *)
Lemma implements_check f (P : SymbolTable -> Prop) :
  (forall v, (P (symbols v) /\ f v = v) \/ (~ P (symbols v) /\ exists e, is_scoping e = true /\ f v = Add e v)) ->
  implements f (fun G G' => P G /\ G' = G).
Proof.
  intros H v _. destruct (H v) as [[HP ->]|[HP (e & He & ->)]].
  - split; [done|]. exists []. rewrite app_nil_r. split; [done|]. tauto.
  - split; [done|]. exists [e]. split; [|tauto]. unfold scoping. cbn. rewrite filter_app. cbn. by rewrite He.
Qed.

(** Two tests in a row. *)
Lemma implements_tests f g (P Q : SymbolTable -> Prop) :
  implements f (fun G G' => P G /\ G' = G) -> implements g (fun G G' => Q G /\ G' = G) ->
  implements (fun v => g (f v)) (fun G G' => (P G /\ Q G) /\ G' = G).
Proof.
  intros Hf Hg. eapply implements_iff; [apply (implements_comp _ _ _ _ Hf Hg)|].
  intros G G'. split; [intros (? & [? ->] & ? & ->); done | intros [[? ?] ->]; eauto].
Qed.

Lemma implements_id : implements (fun v => v) (fun G G' => G' = G).
Proof. apply soft_implements. by intros v. Qed.

Lemma implements_each {A} (f : A -> Validator -> Validator) (P : A -> SymbolTable -> Prop) l :
  Forall (fun x => implements (f x) (fun G G' => P x G /\ G' = G)) l ->
  implements (each f l) (fun G G' => fold_right (fun x Q => P x G /\ Q) True l /\ G' = G).
Proof.
  induction 1 as [|x l Hx _ IH].
  - eapply implements_iff; [apply implements_id|]. cbn. tauto.
  - eapply implements_ext; [apply (implements_tests _ _ _ _ Hx IH)|]. done.
Qed.

Lemma check_call_implements p n k :
  implements (check_call p n k) (fun G G' =>
    (exists sym, Lookup n G = Some sym /\ Kind sym = SymbolFunction /\ ParamCount sym = k) /\ G' = G).
Proof.
  apply (implements_check _ (fun G => exists sym, Lookup n G = Some sym /\ Kind sym = SymbolFunction /\ ParamCount sym = k)).
  intros v. unfold check_call. destruct (Lookup n (symbols v)) as [sym|].
  - destruct (bool_decide_reflect (Kind sym <> SymbolFunction)) as [Hk|Hk].
    + right. split; [intros (? & [= <-] & ? & _); done | eexists; split; [|reflexivity]; reflexivity].
    + assert (Kind sym = SymbolFunction) by (by destruct (decide (Kind sym = SymbolFunction))).
      destruct (Z.eqb_spec k (ParamCount sym)) as [->|Hne]; cbn; [left; eauto|].
      right. split; [intros (? & [= <-] & _ & ?); congruence | eexists; split; [|reflexivity]; reflexivity].
  - right. split; [by intros (? & ? & _) | eexists; split; [|reflexivity]; reflexivity].
Qed.

Lemma validateExpression_implements e :
  implements (validateExpression e) (fun G G' => scoped_expr G e /\ G' = G).
Proof.
  induction e as [| | | |p n|p n args IH|p es IH|p l op r IHl IHr|p op e IH] using Expression_ind';
    try (eapply implements_iff; [apply implements_id | cbn; tauto]).
  - apply (implements_check _ (fun G => exists sym, Lookup n G = Some sym)). intros v. cbn. unfold validateIdentifier.
    destruct (Lookup n (symbols v)); [left; eauto|]. right. split; [by intros [? ?] | eexists; split; [|reflexivity]; reflexivity].
  - eapply implements_iff; [apply (implements_tests _ _ _ _ (implements_each _ _ _ IH) (check_call_implements p n _))|].
    cbn. tauto.
  - apply (implements_each _ _ _ IH).
  - apply (implements_tests _ _ _ _ IHl IHr).
  - exact IH.
Qed.

(** A new scope, dropped at the end. *)
Lemma implements_scope f R : implements f R ->
  implements (fun v => exit_ (f (enter v))) (fun G G' => exists s, R (∅ :: G) (s :: G')).
Proof.
  intros Hf v Hv. destruct (Hf (enter v) ltac:(done)) as (Hl & l & Hs & Hm). cbn in Hl.
  destruct (symbols (f (enter v))) as [|s G1] eqn:E; [done|]. injection Hl as Hl.
  assert (G1 <> []) by (destruct G1, (symbols v); done).
  cbn [exit_ symbols set_symbols errors]. rewrite E, ExitScope_cons by done. split; [done|].
  exists l. split; [done|]. cbn in Hm. destruct l as [|e l]; intros G'.
  - setoid_rewrite Hm. split; [by intros [? [= -> ->]] | intros ->; eauto].
  - intros [s' H']. by apply Hm in H'.
Qed.

(** A declaration in the current scope; the symbol may depend on the scopes. *)
Lemma implements_declare (sym : SymbolTable -> Symbol) (err : ValidationError)
    (upd : SymbolTable -> Validator -> Validator) : is_scoping err = true -> (forall G, soft (upd G)) ->
  implements (fun v =>
    match DeclareSymbol (sym (symbols v)) (symbols v) with
    | (_, false) => Add err v
    | (st, true) => upd (symbols v) (set_symbols st v)
    end) (fun G G' => declares (sym G) G G').
Proof.
  intros He Hu v Hv. unfold declares. destruct (symbols v) as [|s G] eqn:Es; [done|]. cbn.
  set (y := sym (s :: G)). destruct (s !! sym_Name y) eqn:El.
  - change (symbols (Add err v)) with (symbols v). rewrite Es. split; [done|].
    exists [err]. split; [|by intros G' [? _]].
    unfold scoping. cbn. rewrite filter_app. cbn. by rewrite He.
  - destruct (Hu (s :: G) (set_symbols (<[sym_Name y := y]> s :: G) v)) as [H1 H2]. rewrite H1. cbn. split; [done|].
    exists []. rewrite H2, app_nil_r. split; [done|]. intros G'.
    split; [by intros [_ (? & ? & [= <- <-] & ->)] | intros ->; eauto 6].
Qed.

Lemma soft_set_types t : soft (set_types t).
Proof. by intros v. Qed.

Lemma DeclareSymbol_local sym st : is_Some (LookupLocal (sym_Name sym) st) -> DeclareSymbol sym st = (st, false).
Proof. destruct st as [|s st]; cbn; [by intros [? ?]|]. by intros [? ->]. Qed.

Lemma validateVarDecl_implements p n e : implements (validateVarDecl p n e)
  (fun G G' => scoped_expr G e /\ declares (variable n (InferType G e)) G G').
Proof.
  eapply implements_iff; [eapply implements_ext;
    [apply (implements_comp _ _ _ _ (validateExpression_implements e)
       (implements_declare (fun G => variable n (InferType G e)) (errDuplicateDeclaration p n)
         (fun G v => set_types (<[n := InferType G e]> (types v)) v) eq_refl (fun G => fun v => conj eq_refl eq_refl)))|]|].
  - intros v. unfold validateVarDecl, DeclareWithType. destruct (LookupLocal n _) eqn:El; [|done].
    rewrite DeclareSymbol_local; [done|]. cbn. by rewrite El.
  - intros G G'. cbn. split; [intros (? & [? ->] & ?); done | intros [? ?]; eauto].
Qed.

Lemma validateAssignment_implements p n e : implements (validateAssignment p n e)
  (fun G G' => scoped_expr G e /\ (exists sym, Lookup n G = Some sym /\ Kind sym <> SymbolFunction) /\
     G' = retyped n (InferType G e) G).
Proof.
  eapply implements_iff; [apply (implements_comp _ (assign p n e) _
    (fun G G' => (exists sym, Lookup n G = Some sym /\ Kind sym <> SymbolFunction) /\
       G' = retyped n (InferType G e) G) (validateExpression_implements e))|].
  - intros v _. unfold assign. destruct (Lookup n (symbols v)) as [sym|].
    2: { split; [done|]. exists [errUndefinedVariable p n]. split; [|by intros G' [(? & ? & _) _]].
         unfold scoping. cbn. rewrite filter_app. done. }
    destruct (bool_decide_reflect (Kind sym = SymbolFunction)) as [Hk|Hk].
    { split; [done|]. eexists [_]. split; [|by intros G' [(? & [= <-] & ?) _]].
      unfold scoping. cbn. rewrite filter_app. done. }
    cbn zeta. unfold retyped. case_bool_decide; cbn.
    + split; [done|]. exists []. rewrite app_nil_r. split; [done|]. intros G'. split; [by intros [_ ->] | eauto].
    + rewrite UpdateType_length. split; [done|]. exists []. rewrite app_nil_r. split; [done|]. intros G'.
      split; [by intros [_ ->] | eauto].
  - intros G G'. split; [intros (? & [? ->] & ?); done | intros (? & ? & ?); eauto].
Qed.

Lemma soft_AddIf_semantic b p m : soft (AddIf b (newSemanticError p m)).
Proof. apply soft_semanticIf. Qed.

(** *** Parameters *)
Definition fresh_params (ps : list Parameter_) (s : scope) : Prop :=
  NoDup (map par_Name ps) /\ Forall (fun n => s !! n = None) (map par_Name ps).

Lemma scoping_Add e v : is_scoping e = true -> scoping (errors (Add e v)) = (scoping (errors v) ++ [e])%list.
Proof. intros He. unfold scoping. cbn. rewrite filter_app. cbn. by rewrite He. Qed.

Lemma declare_params_spec p ps : forall names v s G, symbols v = s :: G ->
  (forall x, x ∈ names -> is_Some (s !! x)) ->
  exists l s', scoping (errors (declare_params p ps names v)) = (scoping (errors v) ++ l)%list /\
    symbols (declare_params p ps names v) = s' :: G /\
    match l with
    | [] => fresh_params ps s /\ s' = params_scope ps ∪ s
    | _ => ~ fresh_params ps s
    end.
Proof.
  induction ps as [|q ps IH]; intros names v s G Hs Hn; cbn [declare_params].
  - exists [], s. rewrite app_nil_r. split; [done|]. split; [done|]. split; [split; constructor|].
    unfold params_scope. cbn. by rewrite (left_id_L ∅ (∪)).
  - unfold seen. case_bool_decide as Hin.
    + destruct (IH names (Add (errDuplicateParameter p (par_Name q)) v) s G Hs Hn) as (l & s' & H1 & H2 & _).
      exists (errDuplicateParameter p (par_Name q) :: l), s'. rewrite H1, scoping_Add, <- app_assoc by done.
      split; [done|]. split; [done|]. intros [_ Hf]. apply Forall_cons in Hf as [Hf _].
      destruct (Hn _ Hin) as [? ?]. congruence.
    + unfold DeclareWithType. rewrite Hs. cbn [DeclareSymbol sym_Name]. destruct (s !! par_Name q) as [y|] eqn:Eq.
      * destruct (IH ({[par_Name q]} ∪ names) (Add (errDuplicateDeclaration p (par_Name q)) v) s G Hs) as
          (l & s' & H1 & H2 & _); [set_solver|].
        exists (errDuplicateDeclaration p (par_Name q) :: l), s'. rewrite H1, scoping_Add, <- app_assoc by done.
        split; [done|]. split; [done|]. intros [_ Hf]. apply Forall_cons in Hf as [Hf _]. congruence.
      * set (s1 := <[par_Name q := parameter (par_Name q)]> s).
        destruct (IH ({[par_Name q]} ∪ names) (set_symbols (s1 :: G) v) s1 G eq_refl) as (l & s' & H1 & H2 & H3).
        { intros x Hx. unfold s1. destruct (decide (par_Name q = x)) as [<-|Hne];
            [rewrite lookup_insert_eq; eauto | rewrite lookup_insert_ne by done]. apply Hn. set_solver. }
        exists l, s'. split; [exact H1|]. split; [exact H2|].
        assert (fresh_params (q :: ps) s <-> fresh_params ps s1) as Hiff.
        { unfold fresh_params, s1. cbn [map]. rewrite NoDup_cons, Forall_cons, !Forall_forall.
          split; [intros ((H4 & H5) & _ & H6) | intros (H5 & H6)].
          - split; [done|]. intros x Hx. rewrite lookup_insert_ne by (intros <-; done). auto.
          - split; [split; [|done]|split; [done|]].
            + intros Hx. specialize (H6 _ Hx). by rewrite lookup_insert_eq in H6.
            + intros x Hx. specialize (H6 _ Hx). rewrite lookup_insert_ne in H6; [done|]. intros <-.
              by rewrite lookup_insert_eq in H6. }
        destruct l; [|by rewrite Hiff]. rewrite Hiff. destruct H3 as [Hf ->]. split; [done|].
        apply Hiff in Hf as [Hnd _]. cbn [map] in Hnd. apply NoDup_cons in Hnd as [Hnq _].
        unfold s1, params_scope. cbn. rewrite <- insert_union_l, insert_union_r; [done|].
        apply not_elem_of_list_to_map. rewrite <- list_fmap_compose. cbn. exact Hnq.
Qed.

Lemma declare_params_implements p ps : implements (declare_params p ps ∅) (fun G G' =>
  exists s G0, G = s :: G0 /\ fresh_params ps s /\ G' = (params_scope ps ∪ s) :: G0).
Proof.
  intros v Hv. destruct (symbols v) as [|s G] eqn:Es; [done|].
  destruct (declare_params_spec p ps ∅ v s G Es) as (l & s' & H1 & H2 & H3); [set_solver|].
  rewrite H2. split; [done|]. exists l. split; [done|]. destruct l; intros G'.
  - destruct H3 as [Hf ->]. split; [by intros (? & ? & [= <- <-] & _ & ->) | intros ->; eauto 6].
  - intros (? & ? & [= <- <-] & Hf & _). done.
Qed.

(** *** Declarations with modifiers *)
Lemma modifier_loop_implements check dup ms : (forall m, soft (check m)) -> forall names,
  implements (fun v => (modifier_loop check dup ms names v).2)
    (fun G G' => scoped_exprs G (modifier_values ms) /\ G' = G).
Proof.
  intros Hc. induction ms as [|m ms IH]; intros names; cbn [modifier_loop].
  - apply implements_trivial; [apply soft_id | constructor].
  - pose proof (implements_tests _ _ _ _ (validateExpression_implements (mod_Value m)) (IH ({[mod_Name m]} ∪ names))) as H.
    pose proof (implements_soft_l _ _ _ (soft_comp _ _ (Hc m)
      (soft_semanticIf (seen (mod_Name m) names) (mod_pos m) (dup (mod_Name m)))) H) as H'.
    apply (implements_iff _ _ _ H').
    intros G G'. unfold scoped_exprs, modifier_values. cbn [map]. rewrite Forall_cons. tauto.
Qed.

Lemma conflict_implements ms f (g : Validator -> gset string * Validator) R :
  implements (fun v => (g v).2) R -> implements (fun v => conflict ms f (g v)) R.
Proof.
  intros H v Hv. destruct (H v Hv) as [H1 (l & H2 & H3)]. unfold conflict. destruct (g v) as [names w]. cbn [snd] in *.
  destruct ms as [|m ms]; [eauto|].
  destruct (soft_semanticIf (seen "required" names && seen "optional" names) (mod_pos m)
    ("field '" ++ f ++ "' cannot be both required and optional")%string w) as [E1 E2].
  rewrite E1, E2. eauto.
Qed.

Lemma validateMongoModifiers_implements ms c f : implements (validateMongoModifiers ms c f)
  (fun G G' => scoped_exprs G (modifier_values ms) /\ G' = G).
Proof. apply conflict_implements, modifier_loop_implements. intros m. apply soft_semanticIf. Qed.

Lemma validateModifiers_implements ms c f : implements (validateModifiers ms c f)
  (fun G G' => scoped_exprs G (modifier_values ms) /\ G' = G).
Proof. apply conflict_implements, modifier_loop_implements. intros m. by intros v. Qed.

Lemma soft_validateFieldType m : forall t, soft (validateFieldType m t).
Proof.
  fix IH 1. intros [p n params]. cbn [validateFieldType].
  assert (soft (each (validateFieldType m) params)) as Hp.
  { induction params as [|x l IHl]; [by intros v|]. apply (soft_comp _ _ (IH x) IHl). }
  intros v. destruct (soft_semanticIf (negb (one_of valid_types n)) p
    ("unknown type '" ++ n ++ "' in model '" ++ m ++ "'; valid types: uuid, string, text, integer, decimal, boolean, timestamp, date, time, json, list, ref, enum")%string v) as [H1 H2].
  destruct (String.eqb n "ref"); [done|]. destruct (Hp (semanticIf (negb (one_of valid_types n)) p
    ("unknown type '" ++ n ++ "' in model '" ++ m ++ "'; valid types: uuid, string, text, integer, decimal, boolean, timestamp, date, time, json, list, ref, enum")%string v)) as [H3 H4].
  split; congruence.
Qed.

Lemma exprs_app G l m : scoped_exprs G (l ++ m) <-> scoped_exprs G l /\ scoped_exprs G m.
Proof. apply Forall_app. Qed.

(** The body of the loop over the fields of a document. *)
Definition validate_fields coll depth (fs : list MongoFieldDecl) (v : Validator) : Validator :=
  each (fun f v =>
    let v := match mf_Type f with
             | Some t => validateMongoFieldType coll t (mf_Name f) (depth + 1) v
             | None => v
             end in
    validateMongoModifiers (mf_Modifiers f) coll (mf_Name f) v) fs v.

Lemma validateMongoFieldType_implements coll : forall t f depth,
  implements (validateMongoFieldType coll t f depth) (fun G G' => scoped_exprs G (document_values depth t) /\ G' = G).
Proof.
  fix IH 1. intros [p n ps [[q fs]|]] f depth; cbn [validateMongoFieldType document_values ed_Fields].
  - destruct (maxNestingDepth <? depth) eqn:Hd.
    + apply implements_trivial; [apply soft_semantic | constructor].
    + change (implements (validate_fields coll depth fs) (fun G G' =>
        scoped_exprs G (concat (map (fun f => (match mf_Type f with Some t => document_values (depth + 1) t | None => [] end ++
          modifier_values (mf_Modifiers f))%list) fs)) /\ G' = G)).
      induction fs as [|g fs IHfs].
      { apply implements_trivial; [apply soft_id | constructor]. }
      assert (implements (fun v => match mf_Type g with
          | Some t => validateMongoFieldType coll t (mf_Name g) (depth + 1) v | None => v end)
        (fun G G' => scoped_exprs G (match mf_Type g with Some t => document_values (depth + 1) t | None => [] end) /\
           G' = G)) as Hg.
      { destruct g as [gp gn [t|] gm]; cbn; [apply IH|]. apply implements_trivial; [apply soft_id | constructor]. }
      apply (implements_iff _ _ _ (implements_tests _ _ _ _
        (implements_tests _ _ _ _ Hg (validateMongoModifiers_implements (mf_Modifiers g) coll (mf_Name g))) IHfs)).
      intros G G'. cbn [map concat]. rewrite !exprs_app. tauto.
  - destruct (maxNestingDepth <? depth); apply implements_trivial;
      [apply soft_semantic | constructor | apply soft_semanticIf | constructor].
Qed.

Lemma collection_fields_implements coll fs : forall names,
  implements (fun v => (collection_fields coll fs names v).2)
    (fun G G' => Forall (fun f => scoped_exprs G (field_values f)) fs /\ G' = G).
Proof.
  induction fs as [|f fs IH]; intros names; cbn [collection_fields].
  - apply implements_trivial; [apply soft_id | constructor].
  - assert (implements (fun v => match mf_Type f with
        | Some t => validateMongoFieldType coll t (mf_Name f) 0 v | None => v end)
      (fun G G' => scoped_exprs G (match mf_Type f with Some t => document_values 0 t | None => [] end) /\ G' = G)) as Hf.
    { destruct (mf_Type f); [apply validateMongoFieldType_implements|]. apply implements_trivial; [apply soft_id | constructor]. }
    pose proof (implements_tests _ _ _ _ (implements_tests _ _ _ _ Hf
      (validateMongoModifiers_implements (mf_Modifiers f) coll (mf_Name f))) (IH ({[mf_Name f]} ∪ names))) as H.
    apply (implements_iff _ _ _ (implements_soft_l _ _ _ (soft_semanticIf (seen (mf_Name f) names) (mf_pos f)
      ("duplicate field '" ++ mf_Name f ++ "' in collection '" ++ coll ++ "'")%string) H)).
    intros G G'. unfold field_values. rewrite Forall_cons, exprs_app. tauto.
Qed.

Lemma model_fields_implements m fs : forall names,
  implements (fun v => (model_fields m fs names v).2)
    (fun G G' => Forall (fun f => scoped_exprs G (modifier_values (fd_Modifiers f))) fs /\ G' = G).
Proof.
  induction fs as [|f fs IH]; intros names; cbn [model_fields].
  - apply implements_trivial; [apply soft_id | constructor].
  - assert (soft (fun v => match fd_Type f with Some t => validateFieldType m t v | None => v end)) as Hf
      by (destruct (fd_Type f); [apply soft_validateFieldType | by intros v]).
    pose proof (implements_tests _ _ _ _ (validateModifiers_implements (fd_Modifiers f) m (fd_Name f))
      (IH ({[fd_Name f]} ∪ names))) as H.
    apply (implements_iff _ _ _ (implements_soft_l _ _ _ (soft_comp _ _ (soft_semanticIf (seen (fd_Name f) names) (fd_pos f)
      ("duplicate field '" ++ fd_Name f ++ "' in model '" ++ m ++ "'")%string) Hf) H)).
    intros G G'. rewrite Forall_cons. tauto.
Qed.

(** The index checks after the fields. *)
Lemma implements_then_indexes {A} (g : Validator -> gset string * Validator)
    (check : gset string -> A -> Validator -> Validator) l R :
  implements (fun v => (g v).2) R -> (forall names x, soft (check names x)) ->
  implements (fun v => let '(names, v) := g v in each (check names) l v) R.
Proof.
  intros H Hs v Hv. destruct (H v Hv) as [H1 (k & H2 & H3)]. destruct (g v) as [names w]. cbn [snd] in *.
  destruct (soft_each (check names) l (Hs names) w) as [E1 E2]. rewrite E1, E2. eauto.
Qed.

Lemma soft_validateIndex unknown names p fs : soft (validateIndex unknown names p fs).
Proof. apply soft_each. intros f. apply soft_semanticIf. Qed.

Lemma validateModelDecl_implements d : implements (validateModelDecl d)
  (fun G G' => Forall (fun f => scoped_exprs G (modifier_values (fd_Modifiers f))) (md_Fields d) /\ G' = G).
Proof.
  apply (implements_then_indexes (model_fields (md_Name d) (md_Fields d) ∅)); [apply model_fields_implements|].
  intros names x. apply soft_validateIndex.
Qed.

Lemma validateCollectionDecl_implements d : implements (validateCollectionDecl d)
  (fun G G' => Forall (fun f => scoped_exprs G (field_values f)) (cd_Fields d) /\ G' = G).
Proof.
  apply (implements_then_indexes (collection_fields (cd_Name d) (cd_Fields d) ∅)); [apply collection_fields_implements|].
  intros names x. apply soft_validateIndex.
Qed.

(** *** Declarations without scopes *)
(** [w] differs from [v] in neither the scopes nor the scoping errors. *)
Definition same (v w : Validator) : Prop :=
  symbols w = symbols v /\ scoping (errors w) = scoping (errors v).

Lemma same_refl v : same v v.
Proof. done. Qed.
Lemma same_soft f v w : soft f -> same v w -> same v (f w).
Proof. intros Hf [H1 H2]. destruct (Hf w). split; congruence. Qed.
Lemma same_semanticIf b p m v w : same v w -> same v (semanticIf b p m w).
Proof. apply (same_soft (semanticIf b p m)), soft_semanticIf. Qed.
Lemma same_semantic p m v w : same v w -> same v (semantic p m w).
Proof. apply (same_semanticIf true). Qed.
Lemma same_each {A} (f : A -> Validator -> Validator) l v w : (forall x u, same u (f x u)) -> same v w -> same v (each f l w).
Proof. intros Hf. apply (same_soft (each f l)). apply soft_each. intros x u. apply Hf. Qed.

(** The setters of the other fields do not matter. *)
Ltac solve_same :=
  repeat match goal with
  | |- same _ (let x := _ in _) => intro
  | |- same _ (match ?x with _ => _ end) => destruct x
  | |- same _ (semanticIf _ _ _ _) => apply same_semanticIf
  | |- same _ (semantic _ _ _) => apply same_semantic
  | |- same _ (each _ _ _) => apply same_each; [intros ? ?|]
  | |- same ?v ?v => apply same_refl
  | |- same _ (set_configDecl _ ?w) => change (same w w); apply same_refl
  | H : same ?u ?w |- same ?u (_ ?w) => exact H
  end.

Lemma same_validateConfigDecl d v : same v (validateConfigDecl d v).
Proof. unfold validateConfigDecl. solve_same. Qed.
Lemma same_validateAuthDecl d v : same v (validateAuthDecl d v).
Proof. unfold validateAuthDecl, validateJWKSConfig. solve_same; done. Qed.
Lemma same_validateRoleDecl d v : same v (validateRoleDecl d v).
Proof. unfold validateRoleDecl. solve_same; done. Qed.
Lemma same_validateMiddlewareDecl d v : same v (validateMiddlewareDecl d v).
Proof.
  unfold validateMiddlewareDecl, validateAuthenticationMiddleware, validateAuthorizationMiddleware,
    validateRateLimitingMiddleware.
  solve_same; done.
Qed.

Lemma same_schema_fields n fs : forall names v w, same v w -> same v (schema_fields n fs names w).
Proof. induction fs as [|f fs IH]; intros names v w H; cbn [schema_fields]; [done|]. apply IH. solve_same; done. Qed.

Lemma same_validateEventDecl d v : same v (validateEventDecl d v).
Proof.
  unfold validateEventDecl. cbn zeta. destruct (events _ !! ev_Name d); [solve_same; done|].
  destruct (ev_Schema d); [apply same_schema_fields|];
    (eapply (same_soft (fun w => set_eventValidation _ w)); [by intros w | solve_same; done]).
Qed.
Lemma same_validateEventHandler d v : same v (validateEventHandler d v).
Proof. unfold validateEventHandler. solve_same; done. Qed.
Lemma same_validateURL up u a b p v w : same v w -> same v (validateURL up u a b p w).
Proof. intros H. unfold validateURL. solve_same; done. Qed.
Lemma same_validateIntegrationAuth a n v w : same v w -> same v (validateIntegrationAuth a n w).
Proof. intros H. unfold validateIntegrationAuth. solve_same; done. Qed.
Lemma same_validateCircuitBreaker a n v w : same v w -> same v (validateCircuitBreaker a n w).
Proof. intros H. unfold validateCircuitBreaker. solve_same; done. Qed.
Lemma same_validateIntegrationDecl up d v : same v (validateIntegrationDecl up d v).
Proof.
  unfold validateIntegrationDecl. cbn zeta. destruct (integrations _ !! ig_Name d); [solve_same; done|].
  destruct (ig_CircuitBreaker d), (ig_Auth d), (String.eqb (BaseURL d) "");
    repeat first [apply same_validateCircuitBreaker | apply same_validateIntegrationAuth | apply same_validateURL
      | apply same_semanticIf | apply same_semantic]; done.
Qed.
Lemma same_validateWebhookDecl up d v : same v (validateWebhookDecl up d v).
Proof.
  unfold validateWebhookDecl. cbn zeta. destruct (webhooks _ !! wd_Name d); [solve_same; done|].
  destruct (wd_Retry d), (String.eqb (wd_URL d) "");
    repeat first [apply same_validateURL | apply same_semanticIf | apply same_semantic]; done.
Qed.

(** ** The main lemma *)
Section Main.
Variable urlParse : string -> result string string.
Abbreviation validate := (validateStatement urlParse).

Lemma each_implements l : Forall (fun s => implements (validate s) (scoped s)) l ->
  implements (each validate l) (scoped_list_with scoped l).
Proof.
  induction 1 as [|s l Hs _ IH]; [apply implements_id|]. apply (implements_comp _ _ _ _ Hs IH).
Qed.

Lemma block_implements b : Forall (fun s => implements (validate s) (scoped s)) (stmts_of b) ->
  implements (validateBlock_with validate b) (scoped_block_with scoped b).
Proof. destruct b as [b|]; [apply each_implements | intros _; apply implements_id]. Qed.

Lemma if_implements p c t e : Forall (fun s => implements (validate s) (scoped s)) (stmts_of t) ->
  Forall (fun s => implements (validate s) (scoped s)) (stmts_of e) ->
  implements (validate (IfStmt p c t e)) (scoped (IfStmt p c t e)).
Proof.
  intros Ht%block_implements He%block_implements.
  pose proof (implements_comp _ _ _ _ (validateExpression_implements c) (implements_scope _ _ Ht)) as H.
  cbn [validateStatement scoped]. destruct e as [e|].
  - apply (implements_iff _ _ _ (implements_comp _ _ _ _ H (implements_scope _ _ He))). intros G G'. split.
    + intros (G2 & (? & [? ->] & s1 & H1) & s2 & H2). eauto 8.
    + intros (H0 & s1 & G1 & H1 & s2 & H2). exists G1. split; [exists G; eauto | eauto].
  - apply (implements_iff _ _ _ H). intros G G'. split.
    + intros (? & [? ->] & s1 & H1). eauto 8.
    + intros (H0 & s1 & G1 & H1 & ->). exists G. eauto.
Qed.

Lemma for_implements p x it b : Forall (fun s => implements (validate s) (scoped s)) (stmts_of b) ->
  implements (validate (ForLoop p x it b)) (scoped (ForLoop p x it b)).
Proof.
  intros Hb%block_implements.
  assert (implements (fun v => AddIf (negb (bool_decide (InferType (symbols v) it = TypeUnknown)) &&
      negb (IsIterable (InferType (symbols v) it))) (errCannotIterate p (Type_String (InferType (symbols v) it))) v)
    (fun G G' => (InferType G it = TypeUnknown \/ InferType G it = TypeArray) /\ G' = G)) as Hit.
  { apply (implements_check _ (fun G => InferType G it = TypeUnknown \/ InferType G it = TypeArray)). intros v.
    unfold IsIterable. case_bool_decide as H1; [left; auto|]. case_bool_decide as H2; [left; auto|].
    right. split; [tauto|]. cbn. eexists; split; [|reflexivity]; reflexivity. }
  pose proof (implements_declare (fun _ => variable x TypeUnknown) (errDuplicateDeclaration p x) (fun _ v => v) eq_refl
    (fun _ => soft_id)) as Hd.
  pose proof (implements_comp _ _ _ _ (implements_tests _ _ _ _ (validateExpression_implements it) Hit)
    (implements_scope _ _ (implements_comp _ _ _ _ Hd Hb))) as H.
  apply (implements_iff _ _ _ H). intros G G'. cbn [scoped]. split.
  - intros (? & [[H1 H2] ->] & s1 & ? & [_ (? & ? & [= <- <-] & ->)] & H3). split; [done|]. split; [done|].
    exists s1. exact H3.
  - intros (H1 & H2 & s1 & H3). exists G. split; [done|]. exists s1, ({[x := variable x TypeUnknown]} :: G).
    split; [split; [done|]; exists ∅, G; done | done].
Qed.

Lemma function_implements p n ps b : Forall (fun s => implements (validate s) (scoped s)) (stmts_of b) ->
  implements (validate (FunctionDecl p n ps b)) (scoped (FunctionDecl p n ps b)).
Proof.
  intros Hb%block_implements.
  pose proof (implements_scope _ _ (implements_comp _ _ _ _ (declare_params_implements p ps) Hb)) as Hbody.
  pose proof (implements_declare (fun _ => mkSymbol n SymbolFunction TypeFunction (Z.of_nat (length ps)))
    (errDuplicateDeclaration p n) (fun _ v => v) eq_refl (fun _ => soft_id)) as Hd.
  intros v Hv. cbn [validateStatement]. destruct (symbols v) as [|s G] eqn:Es; [done|].
  cbn [LookupLocal]. destruct (s !! n) as [y|] eqn:El.
  - change (symbols (Add (errDuplicateDeclaration p n) v)) with (symbols v). rewrite Es. split; [done|].
    exists [errDuplicateDeclaration p n]. split; [by apply scoping_Add|].
    intros G' (_ & G1 & s1 & [Hl _] & _). cbn in Hl. congruence.
  - unfold DeclareFunction. cbn [DeclareSymbol sym_Name]. rewrite El.
    set (G1 := <[n := mkSymbol n SymbolFunction TypeFunction (Z.of_nat (length ps))]> s :: G).
    destruct (Hbody (set_symbols G1 v) ltac:(done)) as (Hlen & l & Hs & Hm). split; [exact Hlen|].
    exists l. split; [exact Hs|].
    assert (forall G', scoped (FunctionDecl p n ps b) (s :: G) G' <->
      exists s1 G2, (exists s0 G0, ∅ :: G1 = s0 :: G0 /\ fresh_params ps s0 /\ G2 = params_scope ps ∪ s0 :: G0) /\
        scoped_block_with scoped b G2 (s1 :: G')) as Hiff.
    { intros G'. cbn [scoped]. split.
      - intros (Hnd & G2 & s1 & [_ (? & ? & [= <- <-] & ->)] & H3). exists s1, (params_scope ps :: G1). split; [|done].
        exists ∅, G1. split; [done|]. split; [|by rewrite (right_id_L ∅ (∪))].
        split; [done|]. apply Forall_forall. intros x _. apply lookup_empty.
      - intros (s1 & G2 & (? & ? & [= <- <-] & [Hnd _] & ->) & H3). split; [done|].
        rewrite (right_id_L ∅ (∪)) in H3. exists G1, s1. split; [split; [exact El|]; exists s, G; done | exact H3]. }
    destruct l; intros G'; rewrite Hiff; apply Hm.
Qed.

Lemma validateStatement_implements s : implements (validate s) (scoped s).
Proof.
  assert (forall f, (forall v, same v (f v)) -> implements f (fun G G' => G' = G)) as Hsame
    by (intros f Hf; apply soft_implements; intros v; apply Hf).
  induction s as [s Hl|p c t e Ht He|p v it b Hb|p n ps b Hb|b Hb|p t n l Hl] using Statement_ind'.
  - destruct s; try done; try apply implements_id; cbn [validateStatement].
    + apply validateVarDecl_implements.
    + apply validateAssignment_implements.
    + apply validateExpression_implements.
    + apply Hsame, same_validateConfigDecl.
    + apply validateModelDecl_implements.
    + apply validateCollectionDecl_implements.
    + apply Hsame, same_validateAuthDecl.
    + apply Hsame, same_validateRoleDecl.
    + apply Hsame, same_validateMiddlewareDecl.
    + apply Hsame, same_validateEventDecl.
    + apply Hsame, same_validateEventHandler.
    + apply Hsame, same_validateIntegrationDecl.
    + apply Hsame, same_validateWebhookDecl.
  - by apply if_implements.
  - by apply for_implements.
  - by apply function_implements.
  - by apply each_implements.
  - apply (implements_soft_l (fun v => set_databaseBlocks (databaseBlocks v ++ [mkDatabaseRef p t])%list v));
      [by intros v | by apply each_implements].
Qed.

Lemma same_validateDatabaseTypeConsistency v : same v (validateDatabaseTypeConsistency v).
Proof.
  unfold validateDatabaseTypeConsistency, check_database. destruct (configDecl v), (databaseBlocks v); cbn zeta; solve_same; done.
Qed.

(** C4: The validator decides the scoping discipline: on every program it
    reports a scope, type or function error exactly when the program is not
    well scoped (a name used before its declaration or outside its scope, a
    name declared twice in a scope, a call of a non-function or with the wrong
    number of arguments, an assignment to a function, a loop over a known
    non-array), and on a well-scoped program it ends with the scopes the
    discipline determines. *)
Theorem Validate_decides_scoping (p : Program_) :
  let '(v, errs) := Validate urlParse (Some p) New in
  (scoping errs = [] <-> exists G, well_scoped p G) /\
  (forall G, well_scoped p G -> symbols v = G) /\ length (symbols v) = 1%nat.
Proof.
  assert (implements (each validate (Statements p)) (scoped_list_with scoped (Statements p))) as H.
  { apply each_implements, Forall_forall. intros s _. apply validateStatement_implements. }
  cbn [Validate]. destruct (H New ltac:(done)) as (Hl & l & Hs & Hm).
  destruct (same_validateDatabaseTypeConsistency (each validate (Statements p) New)) as [E1 E2].
  unfold validateEventReferences. rewrite E1, E2, Hs. cbn [app]. unfold well_scoped.
  split; [|split; [|exact Hl]].
  - destruct l; [split; [|done]; intros _; eexists; by apply Hm | split; [done|]; intros [G HG]; by apply Hm in HG].
  - intros G HG. destruct l; [symmetry; by apply Hm | by apply Hm in HG].
Qed.
End Main.
