(* ===== verification/DslAccepted.v ===== *)
(** What acceptance by the validator guarantees about declarations: each one is
    admissible after those before it, in the order in which a reader meets
    them, at any depth. *)

From Stdlib Require Import ZArith Lia.
From stdpp Require Import base strings list gmap.
From S2P Require Import Prelude GoStrings DslAst DslSymbols DslValidator.

#[local] Open Scope Z_scope.

(** ** The specification *)
(** The simple statements and database blocks in reading order. *)
Fixpoint leaves (s : Statement) : list Statement :=
  match s with
  | IfStmt _ _ t e =>
      match t with Some b => concat (map leaves (b_Statements b)) | None => [] end ++
      match e with Some b => concat (map leaves (b_Statements b)) | None => [] end
  | ForLoop _ _ _ b | FunctionDecl _ _ _ b =>
      match b with Some b => concat (map leaves (b_Statements b)) | None => [] end
  | BlockStmt b => concat (map leaves (b_Statements b))
  | DatabaseBlock p t n l => s :: concat (map leaves l)
  | s => [s]
  end%list.

Definition auth_names (L : list Statement) := omap (fun s => match s with Auth d => Some (auth_Name d) | _ => None end) L.
Definition role_names (L : list Statement) := omap (fun s => match s with Role d => Some (role_Name d) | _ => None end) L.
Definition middleware_names (L : list Statement) :=
  omap (fun s => match s with Middleware d => Some (mw_Name d) | _ => None end) L.
Definition event_names (L : list Statement) := omap (fun s => match s with Event d => Some (ev_Name d) | _ => None end) L.
Definition integration_names (L : list Statement) :=
  omap (fun s => match s with Integration d => Some (ig_Name d) | _ => None end) L.
Definition webhook_names (L : list Statement) :=
  omap (fun s => match s with Webhook d => Some (wd_Name d) | _ => None end) L.
Definition configs (L : list Statement) := omap (fun s => match s with Config d => Some d | _ => None end) L.
Definition database_types (L : list Statement) :=
  omap (fun s => match s with DatabaseBlock _ t _ _ => Some t | _ => None end) L.

(** The references of a middleware resolve in what is declared before it. *)
Definition middleware_ok (L : list Statement) (m : MiddlewareDecl) : Prop :=
  (MiddlewareType m = "authentication"%string ->
     exists e, mw_Config m !! "provider" = Some e /\ forall p n, e = Identifier p n -> n ∈ auth_names L) /\
  (MiddlewareType m = "authorization"%string ->
     forall p es q r, mw_Config m !! "roles" = Some (ArrayLiteral p es) -> StringLiteral q r ∈ es -> r ∈ role_names L) /\
  (MiddlewareType m = "rate_limiting"%string ->
     is_Some (mw_Config m !! "requests") /\ is_Some (mw_Config m !! "window")).

(** [s] may follow the statements [L]. *)
Definition admissible (L : list Statement) (s : Statement) : Prop :=
  match s with
  | Config d => configs L = [] /\ cfg_DatabaseType d ∈ ["postgres"; "mongodb"]
  | Auth d => (auth_Name d ∉ auth_names L) /\ Method d ∈ ["jwt"; "oauth2"; "apikey"; "basic"]
  | Role d => (role_Name d ∉ role_names L) /\ "" ∉ role_Permissions d
  | Middleware d =>
      (mw_Name d ∉ middleware_names L) /\ MiddlewareType d ∈ valid_middleware_types /\ middleware_ok L d
  | Event d => (ev_Name d ∉ event_names L) /\ isValidEventNameFormat (ev_Name d) = true /\
      match ev_Schema d with Some s => NoDup (map sf_Name (es_Fields s)) | None => True end
  | EventHandler d => ActionType d ∈ ["workflow"; "integration"; "emit"; "webhook"]
  | Integration d => (ig_Name d ∉ integration_names L) /\ BaseURL d <> ""
  | Webhook d => (wd_Name d ∉ webhook_names L) /\ wd_URL d <> "" /\ wd_Event d <> ""
  | Model d =>
      NoDup (map fd_Name (md_Fields d)) /\
      Forall (fun i => Forall (fun f => f ∈ map fd_Name (md_Fields d)) (idx_Fields i)) (md_Indexes d)
  | Collection d =>
      NoDup (map mf_Name (cd_Fields d)) /\
      Forall (fun i => Forall (fun f => f ∈ map mf_Name (cd_Fields d)) (mi_Fields i)) (cd_Indexes d)
  | _ => True
  end.

(** Every statement is admissible after those before it. *)
Inductive all_admissible : list Statement -> Prop :=
| admissible_nil : all_admissible []
| admissible_snoc L s : all_admissible L -> admissible L s -> all_admissible (L ++ [s]).

Definition database_type (L : list Statement) : string :=
  match configs L with d :: _ => cfg_DatabaseType d | [] => "postgres" end.

(** ** Steps that only add errors *)
Definition declarations (v : Validator) :=
  (configDecl v, databaseBlocks v, authProviders v, roles v, middlewares v, eventValidation v).

Definition quiet (v w : Validator) : Prop :=
  (exists l, errors w = (errors v ++ l)%list) /\ declarations w = declarations v.

Lemma quiet_refl v : quiet v v.
Proof. split; [exists []; by rewrite app_nil_r | done]. Qed.

Lemma quiet_trans u v w : quiet u v -> quiet v w -> quiet u w.
Proof.
  intros [[l Hl] Hd] [[m Hm] He]. split; [|congruence]. exists (l ++ m)%list. by rewrite Hm, Hl, app_assoc.
Qed.

Lemma quiet_Add e v w : quiet v w -> quiet v (Add e w).
Proof. intros H. apply (quiet_trans _ _ _ H). split; [by exists [e] | done]. Qed.
Lemma quiet_AddIf b e v w : quiet v w -> quiet v (AddIf b e w).
Proof. destruct b; [apply quiet_Add | done]. Qed.
Lemma quiet_semanticIf b p m v w : quiet v w -> quiet v (semanticIf b p m w).
Proof. apply quiet_AddIf. Qed.
Lemma quiet_semantic p m v w : quiet v w -> quiet v (semantic p m w).
Proof. apply quiet_Add. Qed.
Lemma quiet_symbols st v w : quiet v w -> quiet v (set_symbols st w).
Proof. by intros [H1 H2]. Qed.
Lemma quiet_types t v w : quiet v w -> quiet v (set_types t w).
Proof. by intros [H1 H2]. Qed.
Lemma quiet_each {A} (f : A -> Validator -> Validator) l v w :
  Forall (fun x => forall u, quiet u (f x u)) l -> quiet v w -> quiet v (each f l w).
Proof.
  intros H. revert w. induction H as [|x l Hx _ IH]; intros w Hw; [done|]. apply IH.
  by apply (quiet_trans _ w).
Qed.
Lemma quiet_enter v w : quiet v w -> quiet v (enter w).
Proof. apply quiet_symbols. Qed.
#[local] Hint Resolve quiet_enter quiet_refl quiet_Add quiet_AddIf quiet_semanticIf quiet_semantic quiet_symbols quiet_types : core.

Lemma quiet_validateExpression e : forall v w, quiet v w -> quiet v (validateExpression e w).
Proof.
  assert (forall l v w, Forall (fun e => forall v w, quiet v w -> quiet v (validateExpression e w)) l ->
    quiet v w -> quiet v (each validateExpression l w)) as Hl.
  { intros l v w H. apply quiet_each. apply (Forall_impl _ _ _ H). intros x Hx u. apply Hx. auto. }
  induction e using Expression_ind'; intros v0 w H'; cbn [validateExpression]; auto.
  - unfold validateIdentifier. case_match; auto.
  - unfold check_call. destruct (Lookup _ _); auto. case_bool_decide; auto.
Qed.

Lemma quiet_modifier_loop check dup ms : (forall m u, quiet u (check m u)) -> forall names v w, quiet v w ->
  quiet v (modifier_loop check dup ms names w).2.
Proof.
  intros Hc. induction ms as [|m ms IH]; intros names v w H; cbn [modifier_loop]; [done|].
  apply IH, quiet_validateExpression, quiet_semanticIf. apply (quiet_trans _ w); auto.
Qed.

Lemma quiet_conflict ms f r v : quiet v r.2 -> quiet v (conflict ms f r).
Proof. destruct r as [names w], ms; cbn; auto. Qed.

Lemma quiet_validateModifiers ms m f v w : quiet v w -> quiet v (validateModifiers ms m f w).
Proof. intros H. apply quiet_conflict, quiet_modifier_loop; auto. Qed.

Lemma quiet_validateMongoModifiers ms m f v w : quiet v w -> quiet v (validateMongoModifiers ms m f w).
Proof. intros H. apply quiet_conflict, quiet_modifier_loop; auto. Qed.

Lemma quiet_validateFieldType m : forall t v w, quiet v w -> quiet v (validateFieldType m t w).
Proof.
  fix IH 1. intros [p n params] v w H. cbn [validateFieldType]. destruct (String.eqb n "ref"); [auto|].
  apply quiet_each; [|auto]. induction params as [|x l IHl]; constructor; [|exact IHl]. intros u. apply IH. auto.
Qed.

Lemma quiet_validateMongoFieldType c : forall t f depth v w, quiet v w -> quiet v (validateMongoFieldType c t f depth w).
Proof.
  fix IH 1. intros [p n ps [[q fs]|]] f depth v w H; cbn [validateMongoFieldType ed_Fields];
    destruct (maxNestingDepth <? depth); auto.
  apply quiet_each; [|auto]. induction fs as [|[gp gn [t|] gm] fs IHfs]; constructor; try exact IHfs;
    intros u; cbn; apply quiet_validateMongoModifiers; [apply IH|]; auto.
Qed.

Lemma quiet_declare_params p ps : forall names v w, quiet v w -> quiet v (declare_params p ps names w).
Proof.
  induction ps as [|q ps IH]; intros names v w H; cbn [declare_params]; [done|].
  destruct (seen _ _); [auto|]. apply IH. destruct (DeclareWithType _ _ _ _) as [st []]; auto.
Qed.

(** ** No errors so far *)
Definition clean (v : Validator) : Prop := errors v = [].

Lemma clean_quiet v w : quiet v w -> clean w -> clean v.
Proof. unfold clean. intros [[l ->] _] [? _]%app_nil. done. Qed.

Lemma clean_AddIf b e w : clean (AddIf b e w) <-> b = false /\ clean w.
Proof.
  unfold clean. destruct b; cbn; [|tauto]. split; [|by intros [? _]]. intros [_ ?]%app_nil. done.
Qed.
Lemma clean_semanticIf b p m w : clean (semanticIf b p m w) <-> b = false /\ clean w.
Proof. apply clean_AddIf. Qed.
Lemma clean_Add e w : ~ clean (Add e w).
Proof. unfold clean. cbn. by intros [_ ?]%app_nil. Qed.
Lemma clean_semantic p m w : ~ clean (semantic p m w).
Proof. apply clean_Add. Qed.

Lemma clean_each {A} (f : A -> Validator -> Validator) l w : Forall (fun x => forall u, quiet u (f x u)) l ->
  clean (each f l w) -> clean w /\ Forall (fun x => exists u, declarations u = declarations w /\ clean (f x u)) l.
Proof.
  intros H. revert w. induction H as [|x l Hx _ IH]; intros w Hc; [done|]. cbn in Hc. fold (each f l (f x w)) in Hc.
  destruct (IH _ Hc) as [H1 H2]. split; [by apply (clean_quiet w (f x w))|]. constructor; [by exists w|].
  destruct (Hx w) as [_ Hd]. rewrite Hd in H2. exact H2.
Qed.

Lemma one_of_elem l s : negb (one_of l s) = false -> s ∈ l.
Proof.
  intros H%negb_false_iff. unfold one_of in H. apply existsb_exists in H as (x & Hx & ->%String.eqb_eq).
  by apply list_elem_of_In.
Qed.

(** Names that are checked one after the other are distinct. *)
Lemma model_fields_clean m fs : forall names v,
  let '(names', w) := model_fields m fs names v in
  names' = names ∪ list_to_set (map fd_Name fs) /\ quiet v w /\
  (clean w -> NoDup (map fd_Name fs) /\ Forall (fun n => n ∉ names) (map fd_Name fs)).
Proof.
  induction fs as [|f fs IH]; intros names v; cbn [model_fields map].
  - split; [set_solver|]. split; [auto|]. intros _. split; constructor.
  - set (v1 := semanticIf _ _ _ v).
    set (v2 := validateModifiers _ _ _ _).
    specialize (IH ({[fd_Name f]} ∪ names) v2). destruct (model_fields m fs ({[fd_Name f]} ∪ names) v2) as [names' w].
    destruct IH as (H1 & H2 & H3).
    assert (quiet v1 v2) as H12 by (apply quiet_validateModifiers; destruct (fd_Type f); [apply quiet_validateFieldType|]; auto).
    split; [set_solver|]. split; [apply (quiet_trans _ v2); [apply (quiet_trans _ v1); [subst v1|]|]; auto|].
    intros Hc. destruct (H3 Hc) as [H4 H5]. apply (clean_quiet v2 w H2), (clean_quiet v1 v2 H12) in Hc.
    apply clean_semanticIf in Hc as [Hs%seen_false _]. rewrite Forall_forall in H5. split.
    + constructor; [|done]. intros Hin. specialize (H5 _ Hin). set_solver.
    + constructor; [done|]. apply Forall_forall. intros x Hx. specialize (H5 _ Hx). set_solver.
Qed.

Lemma collection_fields_clean m fs : forall names v,
  let '(names', w) := collection_fields m fs names v in
  names' = names ∪ list_to_set (map mf_Name fs) /\ quiet v w /\
  (clean w -> NoDup (map mf_Name fs) /\ Forall (fun n => n ∉ names) (map mf_Name fs)).
Proof.
  induction fs as [|f fs IH]; intros names v; cbn [collection_fields map].
  - split; [set_solver|]. split; [auto|]. intros _. split; constructor.
  - set (v1 := semanticIf _ _ _ v).
    set (v2 := validateMongoModifiers _ _ _ _).
    specialize (IH ({[mf_Name f]} ∪ names) v2). destruct (collection_fields m fs ({[mf_Name f]} ∪ names) v2) as [names' w].
    destruct IH as (H1 & H2 & H3).
    assert (quiet v1 v2) as H12
      by (apply quiet_validateMongoModifiers; destruct (mf_Type f); [apply quiet_validateMongoFieldType|]; auto).
    split; [set_solver|]. split; [apply (quiet_trans _ v2); [apply (quiet_trans _ v1); [subst v1|]|]; auto|].
    intros Hc. destruct (H3 Hc) as [H4 H5]. apply (clean_quiet v2 w H2), (clean_quiet v1 v2 H12) in Hc.
    apply clean_semanticIf in Hc as [Hs%seen_false _]. rewrite Forall_forall in H5. split.
    + constructor; [|done]. intros Hin. specialize (H5 _ Hin). set_solver.
    + constructor; [done|]. apply Forall_forall. intros x Hx. specialize (H5 _ Hx). set_solver.
Qed.

Lemma schema_fields_clean n fs : forall names v,
  quiet v (schema_fields n fs names v) /\
  (clean (schema_fields n fs names v) -> NoDup (map sf_Name fs) /\ Forall (fun n => n ∉ names) (map sf_Name fs)).
Proof.
  induction fs as [|f fs IH]; intros names v; cbn [schema_fields map].
  - split; [auto|]. intros _. split; constructor.
  - set (v1 := semanticIf _ _ _ v). set (v2 := semanticIf _ _ _ v1).
    destruct (IH ({[sf_Name f]} ∪ names) v2) as [H1 H2].
    split; [apply (quiet_trans _ v2); [subst v2 v1|]; auto|]. intros Hc. destruct (H2 Hc) as [H4 H5].
    apply (clean_quiet v2 _ H1), clean_semanticIf in Hc as [_ Hc]. apply clean_semanticIf in Hc as [Hs%seen_false _].
    rewrite Forall_forall in H5. split.
    + constructor; [|done]. intros Hin. specialize (H5 _ Hin). set_solver.
    + constructor; [done|]. apply Forall_forall. intros x Hx. specialize (H5 _ Hx). set_solver.
Qed.

Lemma indexes_clean {A} (pos : A -> Position) (fields : A -> list string) unknown (names : gset string) idx v :
  quiet v (each (fun i => validateIndex unknown names (pos i) (fields i)) idx v) /\
  (clean (each (fun i => validateIndex unknown names (pos i) (fields i)) idx v) ->
   clean v /\ Forall (fun i => Forall (fun f => f ∈ names) (fields i)) idx).
Proof.
  assert (forall i u, quiet u (validateIndex unknown names (pos i) (fields i) u)) as Hq.
  { intros i u. apply quiet_each; [|auto]. apply Forall_forall. intros f _ w. auto. }
  split; [apply quiet_each; [apply Forall_forall; intros; apply Hq | auto]|]. intros Hc.
  apply clean_each in Hc as [H1 H2]; [|apply Forall_forall; intros; apply Hq]. split; [done|].
  apply (Forall_impl _ _ _ H2). intros i (u & _ & Hu). apply clean_each in Hu as [_ Hu];
    [|apply Forall_forall; intros f _ w; auto]. apply (Forall_impl _ _ _ Hu). intros f (w & _ & Hw).
  apply clean_semanticIf in Hw as [Hw%negb_false_iff _]. unfold seen in Hw. by apply bool_decide_eq_true in Hw.
Qed.

(** ** The validator's tables are those of the statements read so far *)
Definition tables (D : gmap string AuthDecl * gmap string RoleDecl * gmap string MiddlewareDecl) (ev : EventValidation)
    (L : list Statement) : Prop :=
  (forall n, D.1.1 !! n = None <-> n ∉ auth_names L) /\
  (forall n, D.1.2 !! n = None <-> n ∉ role_names L) /\
  (forall n, D.2 !! n = None <-> n ∉ middleware_names L) /\
  (forall n, events ev !! n = None <-> n ∉ event_names L) /\
  (forall n, integrations ev !! n = None <-> n ∉ integration_names L) /\
  (forall n, webhooks ev !! n = None <-> n ∉ webhook_names L).

Record tracks (L : list Statement) (v : Validator) : Prop := mkTracks {
  tk_ok : all_admissible L;
  tk_config : configDecl v = head (configs L);
  tk_databases : map db_DBType (databaseBlocks v) = database_types L;
  tk_tables : tables (authProviders v, roles v, middlewares v) (initEventValidation v) L
}.

Lemma tracks_declarations L v w : declarations w = declarations v -> tracks L v -> tracks L w.
Proof.
  unfold declarations. intros [= H1 H2 H3 H4 H5 H6] [T1 T2 T3 T4].
  split; [done | congruence | congruence |]. unfold initEventValidation in *. by rewrite H3, H4, H5, H6.
Qed.

Lemma declarations_semanticIf b p m v : declarations (semanticIf b p m v) = declarations v.
Proof. by destruct b. Qed.

(** A statement that declares nothing. *)
Definition declares_nothing (s : Statement) : bool :=
  match s with
  | Config _ | Auth _ | Role _ | Middleware _ | Event _ | Integration _ | Webhook _ | DatabaseBlock _ _ _ _ => false
  | _ => true
  end.

Ltac names_snoc :=
  unfold auth_names, role_names, middleware_names, event_names, integration_names, webhook_names, configs, database_types in *;
  rewrite ?omap_app; cbn; rewrite ?app_nil_r.

Lemma tracks_other L s v w : tracks L v -> quiet v w -> declares_nothing s = true -> admissible L s -> tracks (L ++ [s]) w.
Proof.
  intros T [_ Hd] Hs Ha. apply (tracks_declarations _ v w Hd). destruct T as [T1 T2 T3 T4].
  split; [by constructor | destruct s; try done; names_snoc; exact T2 | destruct s; try done; names_snoc; exact T3 |].
  unfold tables in *. destruct s; try done; names_snoc; exact T4.
Qed.

Lemma insert_names {A} (m : gmap string A) k x (l : list string) :
  (forall n, m !! n = None <-> n ∉ l) -> forall n, <[k := x]> m !! n = None <-> n ∉ (l ++ [k])%list.
Proof.
  intros H n. rewrite not_elem_of_app, list_elem_of_singleton. destruct (decide (k = n)) as [<-|Hne].
  - rewrite lookup_insert_eq. split; [done | intros [_ ?]; done].
  - rewrite lookup_insert_ne by done. rewrite H. naive_solver.
Qed.

Lemma omap_snoc {A B} (f : A -> option B) l x : omap f (l ++ [x])%list = (omap f l ++ match f x with Some y => [y] | None => [] end)%list.
Proof. rewrite omap_app. cbn. by destruct (f x). Qed.

(** Each kind of declaration: the checks that passed, and the new tables. *)
Lemma tracks_Config L d v : tracks L v -> clean (validateConfigDecl d v) ->
  clean v /\ tracks (L ++ [Config d]) (validateConfigDecl d v).
Proof.
  intros [T1 T2 T3 T4]. unfold validateConfigDecl. rewrite T2.
  destruct (configs L) as [|c l] eqn:Ec; cbn [head]; [|intros H; by apply clean_semantic in H].
  set (v1 := semanticIf _ _ _ (set_configDecl d v)). intros Hc.
  set (w := if String.eqb (cfg_DatabaseType d) "mongodb" then _ else v1) in *.
  assert (quiet v1 w) as Hq by (unfold w; case_match; auto).
  assert (declarations w = declarations (set_configDecl d v)) as Hd
    by (destruct Hq as [_ ->]; apply declarations_semanticIf).
  apply (clean_quiet _ _ Hq), clean_semanticIf in Hc as [Ht Hc]. split; [exact Hc|].
  apply (tracks_declarations _ (set_configDecl d v) w Hd). split.
  - constructor; [done|]. split; [done|]. by apply one_of_elem.
  - unfold configs in *. rewrite omap_snoc, Ec. done.
  - unfold database_types in *. rewrite omap_snoc, app_nil_r. exact T3.
  - unfold tables in *. names_snoc. exact T4.
Qed.

Lemma tracks_Auth L d v : tracks L v -> clean (validateAuthDecl d v) ->
  clean v /\ tracks (L ++ [Auth d]) (validateAuthDecl d v).
Proof.
  intros [T1 T2 T3 T4]. unfold validateAuthDecl.
  destruct (authProviders v !! auth_Name d) eqn:Ea; [intros H; by apply clean_semantic in H|].
  set (v0 := set_authProviders _ v). set (v1 := semanticIf _ _ _ v0). intros Hc.
  set (w := match JWKS d with Some j => _ | None => v1 end) in *.
  assert (quiet v1 w) as Hq by (unfold w, validateJWKSConfig; case_match; auto).
  assert (declarations w = declarations v0) as Hd by (destruct Hq as [_ ->]; apply declarations_semanticIf).
  apply (clean_quiet _ _ Hq), clean_semanticIf in Hc as [Ht Hc]. split; [exact Hc|].
  apply (tracks_declarations _ v0 w Hd). destruct T4 as (T5 & T6). split.
  - constructor; [done|]. split; [by apply T5 | by apply one_of_elem].
  - unfold configs in *. by rewrite omap_snoc, app_nil_r.
  - unfold database_types in *. by rewrite omap_snoc, app_nil_r.
  - unfold tables. names_snoc. split; [apply (insert_names _ _ _ _ T5) | exact T6].
Qed.

Lemma tracks_Role L d v : tracks L v -> clean (validateRoleDecl d v) ->
  clean v /\ tracks (L ++ [Role d]) (validateRoleDecl d v).
Proof.
  intros [T1 T2 T3 T4]. unfold validateRoleDecl.
  destruct (roles v !! role_Name d) eqn:Ea; [intros H; by apply clean_semantic in H|].
  set (v0 := set_roles _ v). intros Hc.
  assert (quiet v0 (each (fun perm => semanticIf (String.eqb perm "") (role_pos d)
    ("empty permission in role '" ++ role_Name d ++ "'")%string) (role_Permissions d) v0)) as Hq.
  { apply quiet_each; [|auto]. apply Forall_forall. intros x _ u. auto. }
  pose proof Hc as Hc'. apply clean_each in Hc' as [_ Hp]; [|apply Forall_forall; intros x _ u; auto].
  apply (clean_quiet _ _ Hq) in Hc. split; [exact Hc|].
  apply (tracks_declarations _ v0 _ (proj2 Hq)). destruct T4 as (T5 & T6 & T7). split.
  - constructor; [done|]. split; [by apply T6|]. intros Hin. rewrite Forall_forall in Hp.
    destruct (Hp _ Hin) as (u & _ & Hu). by apply clean_semanticIf in Hu as [? _].
  - unfold configs in *. by rewrite omap_snoc, app_nil_r.
  - unfold database_types in *. by rewrite omap_snoc, app_nil_r.
  - unfold tables. names_snoc. split; [exact T5|]. split; [apply (insert_names _ _ _ _ T6) | exact T7].
Qed.

(** The checks of the three middleware types with a configuration. *)
Lemma authentication_clean d v : quiet v (validateAuthenticationMiddleware d v) /\
  (clean (validateAuthenticationMiddleware d v) ->
   exists e, mw_Config d !! "provider" = Some e /\ forall p n, e = Identifier p n -> authProviders v !! n <> None).
Proof.
  unfold validateAuthenticationMiddleware. destruct (mw_Config d !! "provider") as [e|].
  2: { split; [auto|]. intros H. by apply clean_semantic in H. }
  destruct e; (split; [auto|]; intros Hc; eexists; split; [done|]; intros p' n' [=]; subst).
  apply clean_semanticIf in Hc as [Hc _]. by apply bool_decide_eq_false in Hc.
Qed.

Lemma authorization_clean d v : quiet v (validateAuthorizationMiddleware d v) /\
  (clean (validateAuthorizationMiddleware d v) ->
   forall p es q r, mw_Config d !! "roles" = Some (ArrayLiteral p es) -> StringLiteral q r ∈ es -> roles v !! r <> None).
Proof.
  unfold validateAuthorizationMiddleware. destruct (mw_Config d !! "roles") as [e|].
  2: { split; [auto|]. intros _ p es q r [=]. }
  destruct e; try (split; [auto|]; intros _ p' es q r [=]; done).
  set (f := fun elem v => match elem with StringLiteral _ r => _ | _ => v end).
  assert (forall x u, quiet u (f x u)) as Hq by (intros x u; unfold f; case_match; auto).
  split; [apply quiet_each; [apply Forall_forall; intros; apply Hq | auto]|].
  intros Hc p' es q r [= <- <-] Hin. apply clean_each in Hc as [_ Hc]; [|apply Forall_forall; intros; apply Hq].
  rewrite Forall_forall in Hc. destruct (Hc _ Hin) as (u & Hu & Hcl). cbn in Hcl.
  apply clean_semanticIf in Hcl as [Hcl _]. apply bool_decide_eq_false in Hcl. injection Hu as _ _ _ Hr _ _. by rewrite <- Hr.
Qed.

Lemma rate_limiting_clean d v : quiet v (validateRateLimitingMiddleware d v) /\
  (clean (validateRateLimitingMiddleware d v) ->
   is_Some (mw_Config d !! "requests") /\ is_Some (mw_Config d !! "window")).
Proof.
  unfold validateRateLimitingMiddleware. set (v1 := semanticIf _ _ _ v). set (v2 := semanticIf _ _ _ v1).
  set (w := match mw_Config d !! "strategy" with Some _ => _ | None => v2 end).
  assert (quiet v2 w) as Hq by (unfold w; repeat case_match; auto).
  split; [apply (quiet_trans _ v2); [subst v2 v1; auto | done]|]. intros Hc.
  apply (clean_quiet _ _ Hq), clean_semanticIf in Hc as [H2 Hc]. apply clean_semanticIf in Hc as [H1 _].
  apply bool_decide_eq_false in H1, H2. rewrite <- !not_eq_None_Some. done.
Qed.

Lemma tracks_Middleware L d v : tracks L v -> clean (validateMiddlewareDecl d v) ->
  clean v /\ tracks (L ++ [Middleware d]) (validateMiddlewareDecl d v).
Proof.
  intros [T1 T2 T3 (T5 & T6 & T7 & T8)]. unfold validateMiddlewareDecl.
  destruct (middlewares v !! mw_Name d) eqn:Ea; [intros H; by apply clean_semantic in H|].
  set (v0 := set_middlewares _ v). set (v1 := semanticIf _ _ _ v0). intros Hc.
  destruct (authentication_clean d v1) as [Q1 C1], (authorization_clean d v1) as [Q2 C2], (rate_limiting_clean d v1) as [Q3 C3].
  assert (declarations v1 = declarations v0) as Hd1 by apply declarations_semanticIf.
  set (w := if String.eqb (MiddlewareType d) "authentication" then _ else _) in *.
  assert (quiet v1 w) as Hq by (unfold w; repeat (case_match; [done|]); auto).
  assert (declarations w = declarations v0) as Hd by (by destruct Hq as [_ ->]).
  assert (authProviders v1 = authProviders v /\ roles v1 = roles v) as [E1 E2] by (injection Hd1; done).
  rewrite E1 in C1. rewrite E2 in C2.
  assert (middleware_ok L d) as Hok.
  { split; [|split]; intros Ht; unfold w in Hc; rewrite Ht in Hc; cbn in Hc.
    - destruct (C1 Hc) as (e & He & Hn). exists e. split; [done|]. intros p n ->. specialize (Hn p n eq_refl).
      destruct (decide (n ∈ auth_names L)) as [|Hnot]; [done|]. by apply T5 in Hnot.
    - intros p es q r H1 H2. specialize (C2 Hc p es q r H1 H2).
      destruct (decide (r ∈ role_names L)) as [|Hnot]; [done|]. by apply T6 in Hnot.
    - by apply C3. }
  apply (clean_quiet _ _ Hq), clean_semanticIf in Hc as [Ht Hc]. split; [exact Hc|].
  apply (tracks_declarations _ v0 w Hd). split.
  - constructor; [done|]. split; [by apply T7|]. split; [by apply one_of_elem | done].
  - unfold configs in *. by rewrite omap_snoc, app_nil_r.
  - unfold database_types in *. by rewrite omap_snoc, app_nil_r.
  - unfold tables. names_snoc. split; [exact T5|]. split; [exact T6|]. split; [apply (insert_names _ _ _ _ T7) | exact T8].
Qed.

Lemma tracks_Event L d v : tracks L v -> clean (validateEventDecl d v) ->
  clean v /\ tracks (L ++ [Event d]) (validateEventDecl d v).
Proof.
  intros [T1 T2 T3 (T5 & T6 & T7 & T8 & T9)]. unfold validateEventDecl.
  set (v0 := set_eventValidation (initEventValidation v) v). set (v1 := semanticIf _ _ _ v0).
  assert (initEventValidation v1 = initEventValidation v) as Ev
    by (unfold v1; by destruct (negb (isValidEventNameFormat (ev_Name d)))).
  cbn zeta. rewrite Ev.
  destruct (events (initEventValidation v) !! ev_Name d) eqn:Ea; [intros H; by apply clean_semantic in H|].
  set (v2 := set_eventValidation _ v1). intros Hc. set (w := match ev_Schema d with Some s => _ | None => v2 end) in *.
  assert (quiet v2 w) as Hq by (unfold w; case_match; [apply schema_fields_clean | auto]).
  assert (match ev_Schema d with Some s => NoDup (map sf_Name (es_Fields s)) | None => True end) as Hs.
  { unfold w in Hc. destruct (ev_Schema d); [|done]. by apply schema_fields_clean in Hc as [? _]. }
  apply (clean_quiet _ _ Hq) in Hc. change (clean v1) in Hc. apply clean_semanticIf in Hc as [Hf%negb_false_iff Hc].
  split; [exact Hc|]. apply (tracks_declarations _ v2 w (proj2 Hq)).
  assert (declarations v1 = declarations v0) as Hd1 by apply declarations_semanticIf. injection Hd1 as D1 D2 D3 D4 D5 _.
  split.
  - constructor; [done|]. split; [by apply T8 | done].
  - cbn. rewrite D1. unfold configs in *. by rewrite omap_snoc, app_nil_r.
  - cbn. rewrite D2. unfold database_types in *. by rewrite omap_snoc, app_nil_r.
  - cbn. rewrite D3, D4, D5. unfold tables. names_snoc. split; [exact T5|]. split; [exact T6|]. split; [exact T7|].
    split; [apply (insert_names _ _ _ _ T8) | exact T9].
Qed.

Lemma tracks_EventHandler L d v : tracks L v -> clean (validateEventHandler d v) ->
  clean v /\ tracks (L ++ [EventHandler d]) (validateEventHandler d v).
Proof.
  intros [T1 T2 T3 T4]. unfold validateEventHandler. cbn zeta. set (v0 := set_eventValidation _ v). intros Hc.
  pose proof Hc as [Ht%one_of_elem Hc0]%clean_semanticIf. split; [exact Hc0|].
  apply (tracks_declarations _ v0); [apply declarations_semanticIf|]. split.
  - by constructor.
  - unfold configs in *. by rewrite omap_snoc, app_nil_r.
  - unfold database_types in *. by rewrite omap_snoc, app_nil_r.
  - unfold tables in *. names_snoc. exact T4.
Qed.

Section Accepted.
Variable urlParse : string -> result string string.
Abbreviation validate := (validateStatement urlParse).

Lemma quiet_validateURL u a b p v w : quiet v w -> quiet v (validateURL urlParse u a b p w).
Proof. intros H. unfold validateURL. case_match; auto. Qed.
Lemma quiet_validateIntegrationAuth a n v w : quiet v w -> quiet v (validateIntegrationAuth a n w).
Proof. intros H. unfold validateIntegrationAuth. repeat case_match; auto. Qed.
Lemma quiet_validateCircuitBreaker a n v w : quiet v w -> quiet v (validateCircuitBreaker a n w).
Proof. intros H. unfold validateCircuitBreaker. auto. Qed.

Lemma tracks_Integration L d v : tracks L v -> clean (validateIntegrationDecl urlParse d v) ->
  clean v /\ tracks (L ++ [Integration d]) (validateIntegrationDecl urlParse d v).
Proof.
  intros [T1 T2 T3 (T5 & T6 & T7 & T8 & T9 & T10)]. unfold validateIntegrationDecl. cbn zeta.
  destruct (integrations _ !! ig_Name d) eqn:Ea; [intros H; by apply clean_semantic in H|].
  set (v0 := set_eventValidation _ v). set (v1 := semanticIf _ _ _ v0).
  set (v2 := if String.eqb (BaseURL d) "" then _ else _).
  set (v3 := match ig_Auth d with Some a => _ | None => v2 end).
  set (w := match ig_CircuitBreaker d with Some c => _ | None => v3 end). intros Hc.
  assert (quiet v2 w) as Hq.
  { unfold w, v3. repeat case_match; repeat first [apply quiet_validateCircuitBreaker | apply quiet_validateIntegrationAuth];
      apply quiet_refl. }
  assert (quiet v0 v2) as Hq2 by (unfold v2, v1; case_match; [auto | apply quiet_validateURL; auto]).
  apply (clean_quiet _ _ Hq) in Hc. assert (BaseURL d <> "") as Hu.
  { unfold v2 in Hc. destruct (String.eqb_spec (BaseURL d) ""); [by apply clean_semantic in Hc | done]. }
  apply (clean_quiet _ _ Hq2) in Hc. split; [exact Hc|].
  apply (tracks_declarations _ v0 w (proj2 (quiet_trans _ _ _ Hq2 Hq))). split.
  - constructor; [done|]. split; [by apply T9 | done].
  - unfold configs in *. by rewrite omap_snoc, app_nil_r.
  - unfold database_types in *. by rewrite omap_snoc, app_nil_r.
  - unfold tables. names_snoc. do 4 (split; [assumption|]). split; [apply (insert_names _ _ _ _ T9) | exact T10].
Qed.

Lemma tracks_Webhook L d v : tracks L v -> clean (validateWebhookDecl urlParse d v) ->
  clean v /\ tracks (L ++ [Webhook d]) (validateWebhookDecl urlParse d v).
Proof.
  intros [T1 T2 T3 (T5 & T6 & T7 & T8 & T9 & T10)]. unfold validateWebhookDecl. cbn zeta.
  destruct (webhooks _ !! wd_Name d) eqn:Ea; [intros H; by apply clean_semantic in H|].
  set (v0 := set_eventValidation _ v). set (v1 := if String.eqb (wd_URL d) "" then _ else _).
  set (v2 := semanticIf _ _ _ v1). set (w := match wd_Retry d with Some r => _ | None => v2 end). intros Hc.
  assert (quiet v2 w) as Hq by (unfold w; case_match; auto).
  assert (quiet v0 v1) as Hq1 by (unfold v1; case_match; [auto | apply quiet_validateURL; auto]).
  apply (clean_quiet _ _ Hq) in Hc. pose proof Hc as [He Hc1]%clean_semanticIf.
  assert (wd_URL d <> "") as Hu.
  { unfold v1 in Hc1. destruct (String.eqb_spec (wd_URL d) ""); [by apply clean_semantic in Hc1 | done]. }
  apply (clean_quiet _ _ Hq1) in Hc1. split; [exact Hc1|].
  apply (tracks_declarations _ v0 w);
    [apply (proj2 (quiet_trans _ _ _ Hq1 (quiet_trans _ _ _ (quiet_semanticIf _ _ _ _ _ (quiet_refl v1)) Hq)))|]. split.
  - constructor; [done|]. split; [by apply T10|]. split; [done|]. by apply String.eqb_neq.
  - unfold configs in *. by rewrite omap_snoc, app_nil_r.
  - unfold database_types in *. by rewrite omap_snoc, app_nil_r.
  - unfold tables. names_snoc. do 5 (split; [assumption|]). apply (insert_names _ _ _ _ T10).
Qed.

Lemma tracks_Model L d v : tracks L v -> clean (validateModelDecl d v) ->
  clean v /\ tracks (L ++ [Model d]) (validateModelDecl d v).
Proof.
  intros T. unfold validateModelDecl. pose proof (model_fields_clean (md_Name d) (md_Fields d) ∅ v) as H.
  destruct (model_fields (md_Name d) (md_Fields d) ∅ v) as [names w]. destruct H as (-> & Hq & Hc).
  destruct (indexes_clean idx_pos idx_Fields
    (fun f => "index references unknown field '" ++ f ++ "' in model '" ++ md_Name d ++ "'")%string
    (∅ ∪ list_to_set (map fd_Name (md_Fields d))) (md_Indexes d) w) as [Hqi Hci].
  intros Hcl. destruct (Hci Hcl) as [Hw Hidx]. split; [by apply (clean_quiet _ _ Hq)|].
  apply (tracks_other L _ v); [done | by apply (quiet_trans _ w) | done|]. split; [by apply Hc|].
  apply (Forall_impl _ _ _ Hidx). intros i Hi. apply (Forall_impl _ _ _ Hi). intros f Hf. set_solver.
Qed.

Lemma tracks_Collection L d v : tracks L v -> clean (validateCollectionDecl d v) ->
  clean v /\ tracks (L ++ [Collection d]) (validateCollectionDecl d v).
Proof.
  intros T. unfold validateCollectionDecl. pose proof (collection_fields_clean (cd_Name d) (cd_Fields d) ∅ v) as H.
  destruct (collection_fields (cd_Name d) (cd_Fields d) ∅ v) as [names w]. destruct H as (-> & Hq & Hc).
  destruct (indexes_clean mi_pos mi_Fields
    (fun f => "index references unknown field '" ++ f ++ "' in collection '" ++ cd_Name d ++ "'")%string
    (∅ ∪ list_to_set (map mf_Name (cd_Fields d))) (cd_Indexes d) w) as [Hqi Hci].
  intros Hcl. destruct (Hci Hcl) as [Hw Hidx]. split; [by apply (clean_quiet _ _ Hq)|].
  apply (tracks_other L _ v); [done | by apply (quiet_trans _ w) | done|]. split; [by apply Hc|].
  apply (Forall_impl _ _ _ Hidx). intros i Hi. apply (Forall_impl _ _ _ Hi). intros f Hf. set_solver.
Qed.

(** *** Errors are never taken back *)
Definition grows (v w : Validator) : Prop := exists l, errors w = (errors v ++ l)%list.

Lemma clean_grows v w : grows v w -> clean w -> clean v.
Proof. unfold clean. intros [l ->] [? _]%app_nil. done. Qed.
Lemma grows_quiet v w : quiet v w -> grows v w.
Proof. by intros [H _]. Qed.
Lemma grows_trans u v w : grows u v -> grows v w -> grows u w.
Proof. intros [l Hl] [m Hm]. exists (l ++ m)%list. by rewrite Hm, Hl, app_assoc. Qed.
Lemma grows_refl v : grows v v.
Proof. exists []. by rewrite app_nil_r. Qed.
Lemma grows_same_errors u v w : errors v = errors w -> grows u v -> grows u w.
Proof. unfold grows. by intros <-. Qed.
Lemma grows_then_quiet u v w : grows u v -> quiet v w -> grows u w.
Proof. intros H Hq. apply (grows_trans _ _ _ H), grows_quiet, Hq. Qed.

(** Peel the quiet steps of a declaration's validator; its update of a table
    leaves the errors alone. *)
Ltac solve_grows :=
  repeat match goal with
  | |- grows _ (match ?x with _ => _ end) => destruct x
  | |- grows ?u (semanticIf ?b ?p ?m ?w) => apply (grows_then_quiet u w); [|apply quiet_semanticIf, quiet_refl]
  | |- grows ?u (semantic ?p ?m ?w) => apply (grows_then_quiet u w); [|apply quiet_semantic, quiet_refl]
  end.

(** What sets a table has the errors of its argument. *)
Ltac grows_set := exists []; symmetry; apply app_nil_r.

Lemma grows_Config d v : grows v (validateConfigDecl d v).
Proof. unfold validateConfigDecl. cbn zeta. solve_grows; grows_set. Qed.
Lemma grows_Auth d v : grows v (validateAuthDecl d v).
Proof. unfold validateAuthDecl, validateJWKSConfig. cbn zeta. solve_grows; grows_set. Qed.
Lemma grows_Role d v : grows v (validateRoleDecl d v).
Proof.
  unfold validateRoleDecl. solve_grows; [grows_set|]. eapply grows_then_quiet;
    [|apply quiet_each; [apply Forall_forall; intros x _ u; auto | apply quiet_refl]]. grows_set.
Qed.
Lemma grows_Middleware d v : grows v (validateMiddlewareDecl d v).
Proof.
  unfold validateMiddlewareDecl. cbn zeta. destruct (middlewares v !! mw_Name d); [solve_grows; grows_set|].
  set (v1 := semanticIf _ _ _ _). assert (grows v v1) as H1 by (unfold v1; solve_grows; grows_set).
  repeat case_match; try done; apply (grows_then_quiet _ v1); try done;
    [apply authentication_clean | apply authorization_clean | apply rate_limiting_clean].
Qed.
Lemma grows_Event d v : grows v (validateEventDecl d v).
Proof.
  unfold validateEventDecl. cbn zeta. set (v1 := semanticIf _ _ _ _).
  assert (grows v v1) as H1 by (unfold v1; solve_grows; grows_set).
  destruct (events _ !! ev_Name d); [solve_grows; done|]. destruct (ev_Schema d); [|done].
  eapply grows_then_quiet; [|apply schema_fields_clean]. exact H1.
Qed.
Lemma grows_EventHandler d v : grows v (validateEventHandler d v).
Proof. unfold validateEventHandler. cbn zeta. solve_grows; grows_set. Qed.
Lemma grows_Integration d v : grows v (validateIntegrationDecl urlParse d v).
Proof.
  unfold validateIntegrationDecl. cbn zeta. destruct (integrations _ !! ig_Name d); [solve_grows; grows_set|].
  set (v0 := set_eventValidation _ v). apply (grows_then_quiet v v0); [grows_set|].
  destruct (ig_CircuitBreaker d), (ig_Auth d), (String.eqb (BaseURL d) "");
    repeat first [apply quiet_validateCircuitBreaker | apply quiet_validateIntegrationAuth | apply quiet_validateURL
      | apply quiet_semanticIf | apply quiet_semantic]; apply quiet_refl.
Qed.
Lemma grows_Webhook d v : grows v (validateWebhookDecl urlParse d v).
Proof.
  unfold validateWebhookDecl. cbn zeta. destruct (webhooks _ !! wd_Name d); [solve_grows; grows_set|].
  set (v0 := set_eventValidation _ v). apply (grows_then_quiet v v0); [grows_set|].
  destruct (wd_Retry d), (String.eqb (wd_URL d) "");
    repeat first [apply quiet_validateURL | apply quiet_semanticIf | apply quiet_semantic]; apply quiet_refl.
Qed.
Lemma quiet_validateModelDecl d v : quiet v (validateModelDecl d v).
Proof.
  unfold validateModelDecl. pose proof (model_fields_clean (md_Name d) (md_Fields d) ∅ v) as H.
  destruct (model_fields (md_Name d) (md_Fields d) ∅ v) as [names w]. destruct H as (_ & Hq & _).
  apply (quiet_trans _ w); [done|]. apply (indexes_clean idx_pos idx_Fields).
Qed.
Lemma quiet_validateCollectionDecl d v : quiet v (validateCollectionDecl d v).
Proof.
  unfold validateCollectionDecl. pose proof (collection_fields_clean (cd_Name d) (cd_Fields d) ∅ v) as H.
  destruct (collection_fields (cd_Name d) (cd_Fields d) ∅ v) as [names w]. destruct H as (_ & Hq & _).
  apply (quiet_trans _ w); [done|]. apply (indexes_clean mi_pos mi_Fields).
Qed.
(** A step that keeps track of the statements [K] it reads. *)
Definition follows (f : Validator -> Validator) (K : list Statement) : Prop :=
  forall v, clean (f v) -> clean v /\ forall L, tracks L v -> tracks (L ++ K) (f v).

Lemma follows_quiet f : (forall v, quiet v (f v)) -> follows f [].
Proof.
  intros Hq v Hc. split; [by apply (clean_quiet _ _ (Hq v))|]. intros L T. rewrite app_nil_r.
  apply (tracks_declarations _ v); [apply Hq | done].
Qed.

Lemma follows_comp f g K M : follows f K -> follows g M -> follows (fun v => g (f v)) (K ++ M).
Proof.
  intros Hf Hg v Hc. destruct (Hg _ Hc) as [H1 H2]. destruct (Hf _ H1) as [H3 H4]. split; [done|].
  intros L T. rewrite app_assoc. auto.
Qed.

Lemma follows_each l : Forall (fun s => follows (validate s) (leaves s)) l ->
  follows (each validate l) (concat (map leaves l)).
Proof.
  induction 1 as [|s l Hs _ IH]; [apply follows_quiet; auto|]. apply (follows_comp _ _ _ _ Hs IH).
Qed.

Lemma follows_block b : Forall (fun s => follows (validate s) (leaves s)) (stmts_of b) ->
  follows (validateBlock_with validate b)
    match b with Some b => concat (map leaves (b_Statements b)) | None => [] end.
Proof. destruct b as [b|]; [apply follows_each | intros _; apply follows_quiet; auto]. Qed.

Lemma follows_other s f : (forall v, quiet v (f v)) -> declares_nothing s = true -> (forall L, admissible L s) ->
  follows f [s].
Proof.
  intros Hq Hs Ha v Hc. split; [by apply (clean_quiet _ _ (Hq v))|]. intros L T. by apply (tracks_other L s v).
Qed.

Lemma follows_decl s f : (forall L v, tracks L v -> clean (f v) -> clean v /\ tracks (L ++ [s]) (f v)) ->
  (forall v, grows v (f v)) -> follows f [s].
Proof. intros H Hq v Hc. split; [by apply (clean_grows _ _ (Hq v))|]. intros L T. by apply H. Qed.

Lemma quiet_validateVarDecl p n e v : quiet v (validateVarDecl p n e v).
Proof.
  unfold validateVarDecl. pose proof (quiet_validateExpression e v v (quiet_refl v)) as H.
  destruct (LookupLocal _ _); [auto|]. cbn zeta. destruct (DeclareWithType _ _ _ _) as [st []]; auto.
Qed.

Lemma quiet_validateAssignment p n e v : quiet v (validateAssignment p n e v).
Proof.
  unfold validateAssignment, assign. pose proof (quiet_validateExpression e v v (quiet_refl v)) as H.
  destruct (Lookup _ _); [|auto]. case_bool_decide; [auto|]. cbn zeta. case_bool_decide; auto.
Qed.

Lemma follows_DatabaseBlock p t n l : Forall (fun s => follows (validate s) (leaves s)) l ->
  follows (validate (DatabaseBlock p t n l)) (leaves (DatabaseBlock p t n l)).
Proof.
  intros Hl. change (leaves (DatabaseBlock p t n l)) with ([DatabaseBlock p t n l] ++ concat (map leaves l))%list.
  apply (follows_comp (fun v => set_databaseBlocks (databaseBlocks v ++ [mkDatabaseRef p t])%list v));
    [|by apply follows_each].
  intros v Hc. split; [exact Hc|]. intros L [T1 T2 T3 T4]. split.
  - by constructor.
  - unfold configs in *. by rewrite omap_snoc, app_nil_r.
  - unfold database_types in *. rewrite omap_snoc. cbn. by rewrite map_app, T3.
  - unfold tables in *. names_snoc. exact T4.
Qed.

(** A block that opens a scope. *)
Lemma follows_scope (g : Validator -> Validator) b : (forall v, quiet v (g v)) ->
  Forall (fun s => follows (validate s) (leaves s)) (stmts_of b) ->
  follows (fun v => exit_ (validateBlock_with validate b (g v)))
    match b with Some b => concat (map leaves (b_Statements b)) | None => [] end.
Proof.
  intros Hg Hb%follows_block. pose proof (follows_comp _ _ _ _ (follows_quiet g Hg) Hb) as H1.
  pose proof (follows_comp _ _ _ _ H1 (follows_quiet exit_ (fun v => quiet_symbols _ _ _ (quiet_refl v)))) as H2.
  cbn [app] in H2. by rewrite app_nil_r in H2.
Qed.

Lemma follows_validateStatement s : follows (validate s) (leaves s).
Proof.
  induction s as [s Hl|p c t e Ht He|p x it b Hb|p n ps b Hb|b Hb|p t n l Hl] using Statement_ind'.
  - destruct s; try done; cbn [leaves]; try (apply follows_other; [intros v; apply quiet_refl | done | done]).
    + apply follows_other; [intros v; apply quiet_validateVarDecl | done | done].
    + apply follows_other; [intros v; apply quiet_validateAssignment | done | done].
    + apply follows_other; [intros v; apply quiet_validateExpression, quiet_refl | done | done].
    + apply follows_decl; [intros; by apply tracks_Config | intros; apply grows_Config].
    + apply follows_decl; [intros; by apply tracks_Model | intros; apply grows_quiet, quiet_validateModelDecl].
    + apply follows_decl; [intros; by apply tracks_Collection | intros; apply grows_quiet, quiet_validateCollectionDecl].
    + apply follows_decl; [intros; by apply tracks_Auth | intros; apply grows_Auth].
    + apply follows_decl; [intros; by apply tracks_Role | intros; apply grows_Role].
    + apply follows_decl; [intros; by apply tracks_Middleware | intros; apply grows_Middleware].
    + apply follows_decl; [intros; by apply tracks_Event | intros; apply grows_Event].
    + apply follows_decl; [intros; by apply tracks_EventHandler | intros; apply grows_EventHandler].
    + apply follows_decl; [intros; by apply tracks_Integration | intros; apply grows_Integration].
    + apply follows_decl; [intros; by apply tracks_Webhook | intros; apply grows_Webhook].
  - cbn [validateStatement leaves].
    pose proof (follows_scope (fun v => enter (validateExpression c v)) t
      (fun v => quiet_symbols _ _ _ (quiet_validateExpression c v v (quiet_refl v))) Ht) as H1.
    destruct e as [e|]; [|by rewrite app_nil_r].
    exact (follows_comp _ _ _ _ H1 (follows_scope enter (Some e) (fun v => quiet_symbols _ _ _ (quiet_refl v)) He)).
  - cbn [validateStatement leaves]. apply follows_scope; [|done]. intros v.
    pose proof (quiet_validateExpression it v v (quiet_refl v)) as H.
    destruct (DeclareWithType _ _ _ _) as [st []]; auto.
  - cbn [validateStatement leaves]. intros v. destruct (LookupLocal n (symbols v)); [intros Hc; by apply clean_Add in Hc|].
    destruct (DeclareFunction _ _ _) as [st []]; [|intros Hc; by apply clean_Add in Hc].
    apply (follows_scope (fun v => declare_params p ps ∅ (enter (set_symbols st v))) b); [|done].
    intros w. apply quiet_declare_params. auto.
  - by apply follows_each.
  - by apply follows_DatabaseBlock.
Qed.

(** The comparison of the database blocks with the configuration. *)
Lemma databases_clean L v : tracks L v -> clean (validateDatabaseTypeConsistency v) ->
  clean v /\ Forall (fun t => t = database_type L) (database_types L).
Proof.
  intros [_ T2 T3 _]. unfold validateDatabaseTypeConsistency. cbn zeta.
  set (t0 := match configDecl v with Some c => cfg_DatabaseType c | None => "postgres"%string end).
  set (v1 := each (check_database t0) (databaseBlocks v) v).
  assert (database_type L = t0) as Ht0.
  { unfold database_type, t0. rewrite T2. by destruct (configs L). }
  assert (clean v1 -> clean v /\ Forall (fun t => t = database_type L) (database_types L)) as Hmain.
  { intros Hc. apply clean_each in Hc as [Hc Hall]; [|apply Forall_forall; intros x _ u; unfold check_database; auto].
    split; [done|]. rewrite <- T3, Ht0. clear -Hall. induction Hall as [|db l (u & _ & Hu) _ IH]; [constructor|].
    constructor; [|done]. unfold check_database in Hu. apply clean_semanticIf in Hu as [Hu%negb_false_iff _].
    by apply String.eqb_eq. }
  set (w := match configDecl v1 with Some cfg => _ | None => v1 end).
  assert (quiet v1 w) as Hq by (unfold w; repeat case_match; auto).
  destruct (configDecl v), (databaseBlocks v) eqn:Edb; intros Hc;
    try (apply Hmain, (clean_quiet _ _ Hq Hc)).
  split; [done|]. rewrite <- T3. constructor.
Qed.

Lemma accepted_declarations (p : Program_) (Hok : (Validate urlParse (Some p) New).2 = []) :
  let L := concat (map leaves (Statements p)) in
  all_admissible L /\ Forall (fun t => t = database_type L) (database_types L).
Proof.
  intros L. cbn [Validate snd] in Hok. unfold validateEventReferences in Hok.
  set (v := each validate (Statements p) New) in *.
  assert (follows (each validate (Statements p)) L) as Hf
    by (apply follows_each, Forall_forall; intros s _; apply follows_validateStatement).
  assert (tracks [] New) as T0.
  { split; [constructor | done | done |]. unfold tables. cbn. repeat split; intros; try apply lookup_empty;
      apply not_elem_of_nil. }
  assert (quiet v (validateDatabaseTypeConsistency v)) as Hq.
  { unfold validateDatabaseTypeConsistency. cbn zeta.
    assert (forall t l, quiet v (each (check_database t) l v)) as He
      by (intros t l; apply quiet_each; [apply Forall_forall; intros x _ u; unfold check_database |]; auto).
    destruct (configDecl v), (databaseBlocks v); repeat case_match; auto. }
  destruct (Hf New) as [_ HT]; [by apply (clean_quiet _ _ Hq)|]. specialize (HT [] T0). cbn [app] in HT.
  split; [apply (tk_ok _ _ HT)|]. by apply (databases_clean L v HT).
Qed.

(** C22: Every declaration of an accepted program, at any depth, is admissible
    after those before it: configurations, authentication providers, roles,
    middlewares, events, integrations and webhooks are declared once;
    middlewares name providers and roles that are declared before them; index
    fields exist; database blocks have the configured type. *)
Theorem accepted_program (p : Program_) (Hok : (Validate urlParse (Some p) New).2 = []) :
  let L := concat (map leaves (Statements p)) in
  all_admissible L /\ Forall (fun t => t = database_type L) (database_types L).
Proof. by apply accepted_declarations. Qed.
End Accepted.

(** ** What passes over the top level of a program may rely on *)
Lemma omap_leaves {A} (f : Statement -> option A) l : (forall s, is_Some (f s) -> leaves s = [s]) ->
  sublist (omap f l) (omap f (concat (map leaves l))).
Proof.
  intros Hf. induction l as [|s l IH]; [constructor|].
  change (sublist (omap f ([s] ++ l)) (omap f (leaves s ++ concat (map leaves l)))). rewrite !omap_app.
  apply sublist_app; [|done]. cbn. destruct (f s) eqn:E; [|apply sublist_nil_l].
  rewrite (Hf s) by eauto. cbn. by rewrite E.
Qed.

(** A declaration whose names the validator keeps apart is declared once. *)
Lemma admissible_NoDup (f : Statement -> option string) L :
  (forall L s n, f s = Some n -> admissible L s -> n ∉ omap f L) -> all_admissible L -> NoDup (omap f L).
Proof.
  intros Hf. induction 1 as [|L s HL IH Hs]; [constructor|]. rewrite omap_snoc.
  destruct (f s) as [n|] eqn:E; [|by rewrite app_nil_r]. apply NoDup_app. split; [done|].
  split; [|repeat constructor; set_solver]. intros m Hm ->%list_elem_of_singleton. by apply (Hf _ _ _ E Hs).
Qed.

Lemma admissible_Forall (P : Statement -> Prop) L : (forall L s, admissible L s -> P s) -> all_admissible L -> Forall P L.
Proof. intros HP. induction 1; [constructor|]. apply Forall_app. split; eauto. Qed.

Section Toplevel.
Variable urlParse : string -> result string string.
Variable p : Program_.
Hypothesis Hok : (Validate urlParse (Some p) New).2 = [].

Lemma toplevel_NoDup (f : Statement -> option string) : (forall s, is_Some (f s) -> leaves s = [s]) ->
  (forall L s n, f s = Some n -> admissible L s -> n ∉ omap f L) -> NoDup (omap f (Statements p)).
Proof.
  intros H1 H2. eapply sublist_NoDup; [|by apply omap_leaves].
  by apply admissible_NoDup, (accepted_declarations urlParse p).
Qed.

Lemma toplevel_Forall (P : Statement -> Prop) : (forall L s, admissible L s -> P s) ->
  Forall (fun s => leaves s = [s] -> P s) (Statements p).
Proof.
  intros HP. destruct (accepted_declarations urlParse p Hok) as [Hadm _]. apply (admissible_Forall P) in Hadm; [|done].
  rewrite Forall_forall in Hadm |- *. intros s Hs Hl. apply Hadm, list_elem_of_In, in_concat.
  exists (leaves s). rewrite <- !list_elem_of_In. split; [by apply list_elem_of_fmap_2 | rewrite Hl; set_solver].
Qed.
End Toplevel.

Definition at_ (n : Z) : Position := mkPosition "app.cai" n 1 0.

(** A program with a provider, a role, two middlewares that use them, an event
    and a database. *)
Definition sample_app : Program_ :=
  mkProgram (at_ 1)
    [Config (mkConfigDecl (at_ 1) "postgres" "" "" ∅);
     DatabaseBlock (at_ 2) "postgres" ""
       [Model (mkModelDecl (at_ 3) "User" ""
          [mkFieldDecl (at_ 4) "id" (Some (mkTypeRef (at_ 4) "uuid" [])) [mkModifier (at_ 4) "primary" NilExpr];
           mkFieldDecl (at_ 5) "name" (Some (mkTypeRef (at_ 5) "string" [])) []]
          [mkIndexDecl (at_ 6) ["name"] true])];
     Auth (mkAuthDecl (at_ 7) "main" "jwt" None ∅);
     Role (mkRoleDecl (at_ 8) "admin" ["users:*"]);
     Middleware (mkMiddlewareDecl (at_ 9) "login" "authentication" {["provider" := Identifier (at_ 9) "main"]});
     Middleware (mkMiddlewareDecl (at_ 10) "admins" "authorization"
       {["roles" := ArrayLiteral (at_ 10) [StringLiteral (at_ 10) "admin"]]});
     Event (mkEventDecl (at_ 11) "user.created" None [])].

Lemma accepted_program_witness :
  (Validate (fun _ => Ok "https"%string) (Some sample_app) New).2 = [] /\
  let L := concat (map leaves (Statements sample_app)) in
  all_admissible L /\ Forall (fun t => t = database_type L) (database_types L).
Proof. split; [vm_compute; reflexivity | apply (accepted_program (fun _ => Ok "https"%string)); vm_compute; reflexivity]. Defined.
