(* ===== verification/EventBus.v ===== *)
(** The event bus and the dispatcher: [internal/event/bus] and
    [internal/event/dispatcher/dispatcher.go].

    The synchronous operations are functions.  The asynchronous part - the
    buffered channel, the worker pool, [PublishAsync] and [Close] with their
    read-write lock - is a step relation: one step is one access to what the
    goroutines share.  Loggers are left out. *)

From Stdlib Require Import ZArith Lia.
From stdpp Require Import base strings list gmap relations sorting.
From S2P Require Import Prelude.

#[local] Open Scope nat_scope.

Section EventBus.
(** Payload values, the world the subscribers act on, subscriber values. *)
Variables (any W Subscriber : Type).

Abbreviation EventType := string.

Record Event := mkEvent {
  ID : string; ev_Type : EventType; Source : string; Timestamp : Z;
  Data : gmap string any; Metadata : gmap string string
}.

(** What [Handle] does: it may return an error or panic. *)
Inductive HandleResult := Handled | HandleError (err : string) | HandlePanic.
Variable Handle : Subscriber -> Event -> W -> W * HandleResult.

(** ** Subscriptions *)
Record EventBus := mkBus { subscribers : gmap EventType (list Subscriber) }.

Definition subs_of (t : EventType) (eb : EventBus) : list Subscriber := default [] (subscribers eb !! t).

Definition Subscribe (t : EventType) (sub : Subscriber) (eb : EventBus) : EventBus :=
  mkBus (<[t := subs_of t eb ++ [sub]]> (subscribers eb)).

(** [&s == &subscriber] compares the addresses of the loop variable and of the
    parameter: two live variables, never the same address. *)
Definition same_address (s subscriber : Subscriber) : bool := false.

Fixpoint unsubscribe_loop (subs : list Subscriber) (subscriber : Subscriber) : option (list Subscriber) :=
  match subs with
  | [] => None
  | s :: subs' => if same_address s subscriber then Some subs'
                  else option_map (cons s) (unsubscribe_loop subs' subscriber)
  end.

Definition Unsubscribe (t : EventType) (sub : Subscriber) (eb : EventBus) : EventBus :=
  match unsubscribe_loop (subs_of t eb) sub with
  | Some subs => mkBus (<[t := subs]> (subscribers eb))
  | None => eb
  end.

Definition SubscriberCount (t : EventType) (eb : EventBus) : nat := length (subs_of t eb).

(** ** Publishing *)
(** A panic is recovered, and the named result is still nil. *)
Definition publishToSubscriber (sub : Subscriber) (e : Event) (w : W) : W * option string :=
  match Handle sub e w with
  | (w, Handled) => (w, None)
  | (w, HandleError err) => (w, Some err)
  | (w, HandlePanic) => (w, None)
  end.

Fixpoint publish_loop (subs : list Subscriber) (e : Event) (w : W) : W :=
  match subs with
  | [] => w
  | sub :: subs' => let '(w, _) := publishToSubscriber sub e w in publish_loop subs' e w
  end.

(** The error is always nil. *)
Definition Publish (e : Event) (eb : EventBus) (w : W) : W * option string :=
  (publish_loop (subs_of (ev_Type e) eb) e w, None).

(** ** The dispatcher *)
Record EventDispatcher := mkDispatcher {
  bus : EventBus;
  repository : option (Event -> W -> W * option string);   (** [SaveEvent] *)
  persist : bool
}.

Definition NewDispatcher (b : EventBus) : EventDispatcher := mkDispatcher b None false.
Definition WithRepository (repo : Event -> W -> W * option string) (d : EventDispatcher) : EventDispatcher :=
  mkDispatcher (bus d) (Some repo) true.

(** The persistence step both dispatches begin with. *)
Definition save (e : Event) (d : EventDispatcher) (w : W) : W * option string :=
  match persist d, repository d with
  | true, Some SaveEvent => SaveEvent e w
  | _, _ => (w, None)
  end.

Inductive DispatchError := Persisting (err : string) | Publishing (err : string).

Definition Dispatch (e : Event) (d : EventDispatcher) (w : W) : W * option DispatchError :=
  match save e d w with
  | (w, Some err) => (w, Some (Persisting err))
  | (w, None) =>
      match Publish e (bus d) w with
      | (w, Some err) => (w, Some (Publishing err))
      | (w, None) => (w, None)
      end
  end.

(** [DispatchAsync] up to the hand-over to the bus: [true] if it is reached. *)
Definition DispatchAsync (e : Event) (d : EventDispatcher) (w : W) : W * bool :=
  match save e d w with
  | (w, Some _) => (w, false)
  | (w, None) => (w, true)
  end.

(** ** The asynchronous bus *)
(** A worker waits on the channel, has received an event, runs the loop of
    [Publish] - it has called the subscribers [called] and has [rest] to call -
    or has returned. *)
Inductive Worker :=
| Waiting
| Received (e : Event)
| Calling (e : Event) (called rest : list Subscriber)
| Exited.

(** A call of [PublishAsync] or of [Close], by the statement it is at. *)
Inductive Call :=
| AsyncLock (e : Event)     (** before [closeMu.RLock] *)
| AsyncCheck (e : Event)    (** holds the read lock, before reading [closed] *)
| AsyncSend (e : Event)     (** saw [closed = false], before the [select] *)
| AsyncUnlock               (** before [RUnlock] *)
| CloseLock                 (** before [closeMu.Lock] *)
| CloseSet                  (** holds the write lock *)
| CloseChan                 (** released it, before [close(asyncBuffer)] *)
| CloseWait                 (** in [wg.Wait] *)
| Returned.

Definition holds_read (c : Call) : bool :=
  match c with AsyncCheck _ | AsyncSend _ | AsyncUnlock => true | _ => false end.
Definition holds_write (c : Call) : bool := match c with CloseSet => true | _ => false end.

Record System := mkSystem {
  s_bus : EventBus;
  capacity : nat;
  buffer : list Event;
  closed : bool;
  chan_closed : bool;
  workers : list Worker;
  calls : list Call;
  accepted : list Event;                        (** sent to the channel, in order *)
  taken : list Event;                           (** received by workers, in order *)
  finished : list (Event * list Subscriber);    (** published, with the subscribers called *)
  panicked : bool
}.

Definition NewEventBusWithConfig (cap pool : nat) (eb : EventBus) (cs : list Call) : System :=
  mkSystem eb cap [] false false (replicate pool Waiting) cs [] [] [] false.

Definition no_reader (s : System) : Prop := Forall (fun c => holds_read c = false) (calls s).
Definition no_writer (s : System) : Prop := Forall (fun c => holds_write c = false) (calls s).

Definition set_call (i : nat) (c : Call) (s : System) : System :=
  mkSystem (s_bus s) (capacity s) (buffer s) (closed s) (chan_closed s) (workers s) (<[i := c]> (calls s))
    (accepted s) (taken s) (finished s) (panicked s).
Definition set_worker (j : nat) (k : Worker) (s : System) : System :=
  mkSystem (s_bus s) (capacity s) (buffer s) (closed s) (chan_closed s) (<[j := k]> (workers s)) (calls s)
    (accepted s) (taken s) (finished s) (panicked s).
Definition set_bus (eb : EventBus) (s : System) : System :=
  mkSystem eb (capacity s) (buffer s) (closed s) (chan_closed s) (workers s) (calls s)
    (accepted s) (taken s) (finished s) (panicked s).
Definition set_flags (cl ch : bool) (s : System) : System :=
  mkSystem (s_bus s) (capacity s) (buffer s) cl ch (workers s) (calls s) (accepted s) (taken s) (finished s) (panicked s).
Definition set_queue (b acc tak : list Event) (s : System) : System :=
  mkSystem (s_bus s) (capacity s) b (closed s) (chan_closed s) (workers s) (calls s) acc tak (finished s) (panicked s).
Definition finish (e : Event) (subs : list Subscriber) (s : System) : System :=
  mkSystem (s_bus s) (capacity s) (buffer s) (closed s) (chan_closed s) (workers s) (calls s) (accepted s) (taken s)
    (finished s ++ [(e, subs)]) (panicked s).
Definition panic (s : System) : System :=
  mkSystem (s_bus s) (capacity s) (buffer s) (closed s) (chan_closed s) (workers s) (calls s) (accepted s) (taken s)
    (finished s) true.

Inductive step : System -> System -> Prop :=
(** [PublishAsync] *)
| step_rlock s i e : calls s !! i = Some (AsyncLock e) -> no_writer s -> step s (set_call i (AsyncCheck e) s)
| step_check_closed s i e : calls s !! i = Some (AsyncCheck e) -> closed s = true -> step s (set_call i AsyncUnlock s)
| step_check_open s i e : calls s !! i = Some (AsyncCheck e) -> closed s = false -> step s (set_call i (AsyncSend e) s)
| step_send s i e : calls s !! i = Some (AsyncSend e) -> chan_closed s = false -> length (buffer s) < capacity s ->
    step s (set_call i AsyncUnlock (set_queue (buffer s ++ [e]) (accepted s ++ [e]) (taken s) s))
| step_handoff s i j e : calls s !! i = Some (AsyncSend e) -> chan_closed s = false -> buffer s = [] ->
    workers s !! j = Some Waiting ->
    step s (set_call i AsyncUnlock (set_worker j (Received e)
      (set_queue [] (accepted s ++ [e]) (taken s ++ [e]) s)))
| step_drop s i e : calls s !! i = Some (AsyncSend e) -> chan_closed s = false -> capacity s <= length (buffer s) ->
    step s (set_call i AsyncUnlock s)
| step_send_panic s i e : calls s !! i = Some (AsyncSend e) -> chan_closed s = true -> step s (panic s)
| step_runlock s i : calls s !! i = Some AsyncUnlock -> step s (set_call i Returned s)
(** [Close] *)
| step_lock s i : calls s !! i = Some CloseLock -> no_reader s -> no_writer s -> step s (set_call i CloseSet s)
| step_set s i : calls s !! i = Some CloseSet -> step s (set_call i CloseChan (set_flags true (chan_closed s) s))
| step_close s i : calls s !! i = Some CloseChan -> chan_closed s = false ->
    step s (set_call i CloseWait (set_flags (closed s) true s))
| step_close_panic s i : calls s !! i = Some CloseChan -> chan_closed s = true -> step s (panic s)
| step_wait s i : calls s !! i = Some CloseWait -> Forall (fun k => k = Exited) (workers s) ->
    step s (set_call i Returned s)
(** The workers *)
| step_receive s j e b : workers s !! j = Some Waiting -> buffer s = e :: b ->
    step s (set_worker j (Received e) (set_queue b (accepted s) (taken s ++ [e]) s))
| step_snapshot s j e : workers s !! j = Some (Received e) ->
    step s (set_worker j (Calling e [] (subs_of (ev_Type e) (s_bus s))) s)
| step_deliver s j e called sub rest : workers s !! j = Some (Calling e called (sub :: rest)) ->
    step s (set_worker j (Calling e (called ++ [sub]) rest) s)
| step_finish s j e called : workers s !! j = Some (Calling e called []) ->
    step s (set_worker j Waiting (finish e called s))
| step_exit s j : workers s !! j = Some Waiting -> buffer s = [] -> chan_closed s = true ->
    step s (set_worker j Exited s)
(** Subscriptions change meanwhile *)
| step_subscribe s t sub : step s (set_bus (Subscribe t sub (s_bus s)) s).

(** ** The invariant *)
Definition Reachable (s0 s : System) : Prop := rtc step s0 s.

(** The event a worker has received and not finished. *)
Definition held (k : Worker) : list Event :=
  match k with Received e | Calling e _ _ => [e] | _ => [] end.
Definition in_flight (s : System) : list Event := concat (map held (workers s)).

(** Every subscriber of [eb0] is among [subs], in order and without repetition
    of registrations, and [subs] are subscribers of [eb]. *)
Definition served (eb0 eb : EventBus) (e : Event) (subs : list Subscriber) : Prop :=
  subs_of (ev_Type e) eb0 `prefix_of` subs /\ subs `prefix_of` subs_of (ev_Type e) eb.

Definition is_async (c : Call) : bool :=
  match c with AsyncLock _ | AsyncCheck _ | AsyncSend _ | AsyncUnlock | Returned => true | _ => false end.

(** What the closing call [ic] says about the flags. *)
Definition flags_ok (s : System) (c : option Call) : Prop :=
  match c with
  | None => closed s = false /\ chan_closed s = false
  | Some CloseLock | Some CloseSet => closed s = false /\ chan_closed s = false
  | Some CloseChan => closed s = true /\ chan_closed s = false
  | Some CloseWait => closed s = true /\ chan_closed s = true
  | Some Returned => closed s = true /\ chan_closed s = true /\ Forall (fun k => k = Exited) (workers s)
  | Some _ => False
  end.

Record safe (ic : nat) (eb0 : EventBus) (s : System) : Prop := mkSafe {
  sf_panic : panicked s = false;
  sf_closer : flags_ok s (calls s !! ic);
  sf_others : forall i c, calls s !! i = Some c -> i <> ic -> is_async c = true;
  sf_locked : calls s !! ic = Some CloseSet -> no_reader s;
  sf_send : closed s = true -> Forall (fun c => match c with AsyncSend _ => False | _ => True end) (calls s);
  sf_queue : accepted s = taken s ++ buffer s;
  sf_taken : taken s ≡ₚ map fst (finished s) ++ in_flight s;
  sf_bus : forall t, subs_of t eb0 `prefix_of` subs_of t (s_bus s);
  sf_calling : Forall (fun k => match k with
                | Calling e called rest => served eb0 (s_bus s) e (called ++ rest)
                | Exited => chan_closed s = true /\ buffer s = []
                | _ => True
                end) (workers s);
  sf_finished : Forall (fun p => served eb0 (s_bus s) p.1 p.2) (finished s)
}.

(** [PublishAsync] calls and one call of [Close], the [ic]-th; an [ic] past the
    end stands for a bus nobody closes. *)
Definition one_close (ic : nat) (cs : list Call) : Prop :=
  forall i c, cs !! i = Some c -> if decide (i = ic) then c = CloseLock else exists e, c = AsyncLock e.

Lemma in_flight_insert s j k0 k : workers s !! j = Some k0 -> held k0 = [] ->
  in_flight (set_worker j k s) ≡ₚ held k ++ in_flight s.
Proof.
  unfold in_flight. cbn. intros Hj H0. rewrite <- (take_drop_middle _ _ _ Hj) at 2.
  rewrite insert_take_drop by (by eapply lookup_lt_Some). rewrite !map_app, !concat_app. cbn. rewrite H0. cbn.
  by rewrite Permutation_app_swap_app.
Qed.

Lemma in_flight_remove s j k0 k : workers s !! j = Some k0 -> held k = [] ->
  in_flight s ≡ₚ held k0 ++ in_flight (set_worker j k s).
Proof.
  unfold in_flight. cbn. intros Hj H0. rewrite <- (take_drop_middle _ _ _ Hj) at 1.
  rewrite insert_take_drop by (by eapply lookup_lt_Some). rewrite !map_app, !concat_app. cbn. rewrite H0. cbn.
  by rewrite Permutation_app_swap_app.
Qed.

Lemma in_flight_same s j k0 k : workers s !! j = Some k0 -> held k = held k0 -> in_flight (set_worker j k s) = in_flight s.
Proof.
  unfold in_flight. cbn. intros Hj H0. rewrite <- (take_drop_middle _ _ _ Hj) at 2.
  rewrite insert_take_drop by (by eapply lookup_lt_Some). rewrite !map_app, !concat_app. cbn. by rewrite H0.
Qed.

Section Safety.
Variables (ic : nat) (eb0 : EventBus).
Abbreviation ok := (safe ic eb0).

(** The asynchronous call at [i] is not the closing one. *)
Lemma async_ne s i c : ok s -> calls s !! i = Some c -> is_async c = true -> c <> Returned -> i <> ic.
Proof.
  intros H Hc Ha Hr ->. pose proof (sf_closer _ _ _ H) as Hf. rewrite Hc in Hf. by destruct c.
Qed.

Lemma close_eq s i c : ok s -> calls s !! i = Some c -> is_async c = false -> i = ic.
Proof. intros H Hc Ha. destruct (decide (i = ic)); [done|]. pose proof (sf_others _ _ _ H i c Hc). naive_solver congruence. Qed.

(** An asynchronous call moves on. *)
Lemma safe_set_call s i c0 c : ok s -> calls s !! i = Some c0 -> i <> ic -> is_async c = true ->
  (holds_read c = true -> holds_read c0 = true \/ no_writer s) ->
  match c with AsyncSend _ => closed s = false | _ => True end -> ok (set_call i c s).
Proof.
  intros [H1 H2 H3 H4 H5 H6 H7 H8 H9 H10] Hi Hne Ha Hr Hs. split; try done; cbn.
  - rewrite list_lookup_insert_ne by done. exact H2.
  - intros k d. destruct (decide (k = i)) as [->|Hk].
    + rewrite list_lookup_insert_eq by (by eapply lookup_lt_Some). by intros [= <-].
    + rewrite list_lookup_insert_ne by done. apply H3.
  - rewrite list_lookup_insert_ne by done. intros Hcs. specialize (H4 Hcs). unfold no_reader in *. cbn.
    apply Forall_insert; [done|]. destruct (holds_read c) eqn:E; [|done]. destruct (Hr eq_refl) as [Hc0|Hw].
    + rewrite Forall_lookup in H4. specialize (H4 _ _ Hi). cbn in H4. congruence.
    + unfold no_writer in Hw. rewrite Forall_lookup in Hw. by specialize (Hw _ _ Hcs).
  - intros Hcl. apply Forall_insert; [by apply H5|]. destruct c; try done. congruence.
Qed.

(** The closing call moves on, with the flags of its next statement. *)
Lemma safe_set_close s c cl ch : ok s -> is_Some (calls s !! ic) ->
  flags_ok (set_flags cl ch s) (Some c) -> (c = CloseSet -> no_reader s) ->
  holds_read c = false -> (cl = true -> Forall (fun c => match c with AsyncSend _ => False | _ => True end) (calls s)) ->
  (chan_closed s = true -> ch = true) -> ok (set_call ic c (set_flags cl ch s)).
Proof.
  intros [H1 H2 H3 H4 H5 H6 H7 H8 H9 H10] Hi Hf Hr Hrd Hs Hch.
  assert (ic < length (calls s)) as Hlt by (by apply lookup_lt_is_Some).
  split; try done; cbn.
  - rewrite list_lookup_insert_eq by done. by destruct c.
  - intros k d Hk Hne. rewrite list_lookup_insert_ne in Hk by done. by apply (H3 k).
  - rewrite list_lookup_insert_eq by done. intros [= ->]. unfold no_reader. cbn. apply Forall_insert; [by apply Hr | done].
  - intros Hcl. apply Forall_insert; [by apply Hs|]. by destruct c.
  - apply (Forall_impl _ _ _ H9). intros []; try done. intros [? ?]. auto.
Qed.

(** A worker moves on. *)
Lemma safe_set_worker s j k0 k : ok s -> workers s !! j = Some k0 -> held k = held k0 -> k0 <> Exited ->
  match k with
  | Calling e called rest => served eb0 (s_bus s) e (called ++ rest)
  | Exited => chan_closed s = true /\ buffer s = []
  | _ => True
  end -> ok (set_worker j k s).
Proof.
  intros [H1 H2 H3 H4 H5 H6 H7 H8 H9 H10] Hj Hh Hne Hk. split; try done; cbn.
  - unfold flags_ok in *. cbn. destruct (calls s !! ic) as [[]|]; try done. destruct H2 as (? & ? & Hall).
    rewrite Forall_lookup in Hall. specialize (Hall _ _ Hj). done.
  - change (taken s ≡ₚ map fst (finished s) ++ in_flight (set_worker j k s)). by rewrite (in_flight_same s j k0 k).
  - by apply Forall_insert.
Qed.

(** An event enters or leaves the channel. *)
Lemma safe_send s e : ok s -> closed s = false -> ok (set_queue (buffer s ++ [e]) (accepted s ++ [e]) (taken s) s).
Proof.
  intros [H1 H2 H3 H4 H5 H6 H7 H8 H9 H10] Hc. split; try done; cbn.
  - by rewrite H6, app_assoc.
  - rewrite Forall_forall in H9 |- *. intros k Hk. specialize (H9 _ Hk). destruct k; try done.
    destruct H9 as [Hch _]. unfold flags_ok in H2. destruct (calls s !! ic) as [[]|]; naive_solver congruence.
Qed.

Lemma safe_receive s j e b : ok s -> workers s !! j = Some Waiting -> buffer s = e :: b ->
  ok (set_worker j (Received e) (set_queue b (accepted s) (taken s ++ [e]) s)).
Proof.
  intros [H1 H2 H3 H4 H5 H6 H7 H8 H9 H10] Hj Hb. split; try done; cbn.
  - unfold flags_ok in *. cbn. destruct (calls s !! ic) as [[]|]; try done. destruct H2 as (? & ? & Hall).
    rewrite Forall_lookup in Hall. by specialize (Hall _ _ Hj).
  - by rewrite H6, Hb, <- app_assoc.
  - change (taken s ++ [e] ≡ₚ map fst (finished s) ++ in_flight (set_worker j (Received e) s)).
    rewrite (in_flight_insert s j Waiting) by done. cbn. rewrite H7. solve_Permutation.
  - apply Forall_insert; [|done]. rewrite Forall_forall in H9 |- *. intros k Hk. specialize (H9 _ Hk).
    destruct k; try done. destruct H9 as [_ H9]. congruence.
Qed.

Lemma safe_finish s j e called : ok s -> workers s !! j = Some (Calling e called []) ->
  ok (set_worker j Waiting (finish e called s)).
Proof.
  intros [H1 H2 H3 H4 H5 H6 H7 H8 H9 H10] Hj.
  assert (served eb0 (s_bus s) e called) as Hserved.
  { rewrite Forall_lookup in H9. specialize (H9 _ _ Hj). cbn in H9. by rewrite app_nil_r in H9. }
  split; try done; cbn.
  - unfold flags_ok in *. cbn. destruct (calls s !! ic) as [[]|]; try done. destruct H2 as (? & ? & Hall).
    rewrite Forall_lookup in Hall. by specialize (Hall _ _ Hj).
  - change (taken s ≡ₚ map fst (finished s ++ [(e, called)]) ++ in_flight (set_worker j Waiting s)).
    rewrite H7, (in_flight_remove s j _ Waiting Hj eq_refl), map_app. cbn. solve_Permutation.
  - by apply Forall_insert.
  - apply Forall_app. split; [done|]. by constructor.
Qed.

Lemma safe_subscribe s t sub : ok s -> ok (set_bus (Subscribe t sub (s_bus s)) s).
Proof.
  assert (forall u, subs_of u (s_bus s) `prefix_of` subs_of u (Subscribe t sub (s_bus s))) as Hp.
  { intros u. unfold Subscribe, subs_of. cbn. destruct (decide (t = u)) as [<-|Hne].
    - rewrite lookup_insert_eq. cbn. by eexists.
    - by rewrite lookup_insert_ne. }
  intros [H1 H2 H3 H4 H5 H6 H7 H8 H9 H10]. split; try done; cbn.
  - intros u. etrans; [apply H8 | apply Hp].
  - apply (Forall_impl _ _ _ H9). intros []; try done. intros [? ?]. split; [done|]. etrans; [eassumption | apply Hp].
  - apply (Forall_impl _ _ _ H10). intros p [? ?]. split; [done|]. etrans; [eassumption | apply Hp].
Qed.

Lemma sends_open s i e : ok s -> calls s !! i = Some (AsyncSend e) -> closed s = false /\ chan_closed s = false.
Proof.
  intros H Hi. destruct (closed s) eqn:Hc.
  - pose proof (sf_send _ _ _ H Hc) as Hs. rewrite Forall_lookup in Hs. by specialize (Hs _ _ Hi).
  - split; [done|]. pose proof (sf_closer _ _ _ H) as Hf. unfold flags_ok in Hf.
    destruct (calls s !! ic) as [[]|]; naive_solver congruence.
Qed.

Lemma step_safe s s' : step s s' -> ok s -> ok s'.
Proof.
  intros Hst H. pose proof (sf_closer _ _ _ H) as Hf. destruct Hst as
    [s i e Hi Hw|s i e Hi Hc|s i e Hi Hc|s i e Hi Hc Hl|s i j e Hi Hc Hb Hj|s i e Hi Hc Hl|s i e Hi Hc|s i Hi
    |s i Hi Hr Hw|s i Hi|s i Hi Hc|s i Hi Hc|s i Hi Hw|s j e b Hj Hb|s j e Hj|s j e called sub rest Hj|s j e called Hj|s j Hj Hb Hc|s t sub].
  - apply (safe_set_call _ _ _ _ H Hi); auto. eapply async_ne; eauto.
  - apply (safe_set_call _ _ _ _ H Hi); auto. eapply async_ne; eauto.
  - apply (safe_set_call _ _ _ _ H Hi); auto. eapply async_ne; eauto.
  - destruct (sends_open _ _ _ H Hi) as [Ho _].
    apply (safe_set_call (set_queue (buffer s ++ [e]) (accepted s ++ [e]) (taken s) s) i (AsyncSend e)); auto.
    + by apply safe_send.
    + eapply (async_ne s); eauto.
  - destruct (sends_open _ _ _ H Hi) as [Ho _]. assert (i <> ic) as Hne by (eapply (async_ne s); eauto).
    pose proof (safe_send s e H Ho) as H'. rewrite Hb in H'. cbn in H'.
    apply (safe_receive _ j e []) in H'; [|done|done]. cbn in H'.
    apply (safe_set_call _ i (AsyncSend e)); auto.
  - apply (safe_set_call _ _ _ _ H Hi); auto. eapply async_ne; eauto.
  - destruct (sends_open _ _ _ H Hi) as [_ Ho]. congruence.
  - apply (safe_set_call _ _ _ _ H Hi); auto. eapply async_ne; eauto.
  - assert (i = ic) as -> by (by eapply close_eq). rewrite Hi in Hf.
    apply (safe_set_close s CloseSet (closed s) (chan_closed s) H); auto; try done.
    intros Hcl. by apply (sf_send _ _ _ H).
  - assert (i = ic) as -> by (by eapply close_eq). rewrite Hi in Hf. destruct Hf as [Hf1 Hf2].
    apply (safe_set_close s CloseChan true (chan_closed s) H); auto; try done.
    intros _. pose proof (sf_locked _ _ _ H Hi) as Hn. apply (Forall_impl _ _ _ Hn). by intros [].
  - assert (i = ic) as -> by (by eapply close_eq). rewrite Hi in Hf. destruct Hf as [Hf1 Hf2].
    apply (safe_set_close s CloseWait (closed s) true H); auto; try done.
    intros Hcl. by apply (sf_send _ _ _ H).
  - assert (i = ic) as -> by (by eapply close_eq). rewrite Hi in Hf. destruct Hf. congruence.
  - assert (i = ic) as -> by (by eapply close_eq). rewrite Hi in Hf. destruct Hf as [Hf1 Hf2].
    apply (safe_set_close s Returned (closed s) (chan_closed s) H); auto; try done.
    intros Hcl. by apply (sf_send _ _ _ H).
  - by apply safe_receive.
  - apply (safe_set_worker _ _ _ _ H Hj); auto. cbn. split; [apply (sf_bus _ _ _ H) | done].
  - apply (safe_set_worker _ _ _ _ H Hj); auto. rewrite <- app_assoc.
    pose proof (sf_calling _ _ _ H) as Hc. rewrite Forall_lookup in Hc. exact (Hc _ _ Hj).
  - by apply safe_finish.
  - apply (safe_set_worker _ _ _ _ H Hj); auto.
  - by apply safe_subscribe.
Qed.

Lemma initial_safe cap pool cs : one_close ic cs ->
  ok (NewEventBusWithConfig cap pool eb0 cs).
Proof.
  intros Hcs. split; try done; cbn.
  - unfold flags_ok. cbn. destruct (cs !! ic) as [c|] eqn:E; [|done]. specialize (Hcs _ _ E).
    rewrite decide_True in Hcs by done. by subst.
  - intros i c Hi Hne. specialize (Hcs _ _ Hi). rewrite decide_False in Hcs by done. by destruct Hcs as [e ->].
  - intros E. specialize (Hcs _ _ E). rewrite decide_True in Hcs by done. done.
  - unfold in_flight. cbn. by induction pool.
  - by apply Forall_replicate.
Qed.
End Safety.

(** ** Progress *)
(** A step of a call or of a worker: [Subscribe] always changes the bus. *)
Definition run (s s' : System) : Prop := step s s' /\ s_bus s' = s_bus s.

(** The steps left to a call, to a queued event and to a worker. *)
Definition event_work (eb : EventBus) (e : Event) : nat := 3 + SubscriberCount (ev_Type e) eb.
Definition call_work (eb : EventBus) (c : Call) : nat :=
  match c with
  | AsyncLock e => 4 + event_work eb e
  | AsyncCheck e => 3 + event_work eb e
  | AsyncSend e => 2 + event_work eb e
  | AsyncUnlock | CloseWait => 1
  | CloseLock => 4 | CloseSet => 3 | CloseChan => 2
  | Returned => 0
  end.
Definition worker_work (eb : EventBus) (k : Worker) : nat :=
  match k with
  | Waiting => 1
  | Received e => event_work eb e
  | Calling _ _ rest => 2 + length rest
  | Exited => 0
  end.
Definition work (s : System) : nat :=
  sum_list_with (call_work (s_bus s)) (calls s) + sum_list_with (event_work (s_bus s)) (buffer s)
  + sum_list_with (worker_work (s_bus s)) (workers s).

Lemma sum_insert {A} (f : A -> nat) (l : list A) i x0 x : l !! i = Some x0 ->
  sum_list_with f (<[i := x]> l) + f x0 = sum_list_with f l + f x.
Proof.
  revert i. induction l as [|y l IH]; intros [|i] Hi; try done; cbn in *.
  - injection Hi as ->. lia.
  - specialize (IH _ Hi). change (f y + sum_list_with f (<[i := x]> l) + f x0 = f y + sum_list_with f l + f x). lia.
Qed.

Lemma Subscribe_changes t sub eb : Subscribe t sub eb <> eb.
Proof.
  intros E. apply (f_equal (fun b => length (subs_of t b))) in E. revert E.
  unfold Subscribe, subs_of at 1. cbn. rewrite lookup_insert_eq. cbn. rewrite length_app. cbn. lia.
Qed.

Lemma run_decreases s s' : run s s' -> panicked s' = false -> panicked s = false -> work s' < work s.
Proof.
  intros [Hst Hb] Hp Hp0. destruct Hst; cbn in *; try (by apply Subscribe_changes in Hb); try done; unfold work; cbn;
    repeat match goal with
    | H : calls ?s !! ?i = Some _ |- context [<[?i := ?c]> (calls ?s)] =>
        pose proof (sum_insert (call_work (s_bus s)) _ _ _ c H); clear H
    | H : workers ?s !! ?i = Some _ |- context [<[?i := ?c]> (workers ?s)] =>
        pose proof (sum_insert (worker_work (s_bus s)) _ _ _ c H); clear H
    | H : buffer ?s = _ |- _ => rewrite H in *; clear H
    end; cbn in *; rewrite ?sum_list_with_app; unfold event_work, SubscriberCount in *; cbn in *; lia.
Qed.

Lemma step_workers s s' : step s s' -> length (workers s') = length (workers s).
Proof. intros Hst. destruct Hst; cbn; by rewrite ?length_insert. Qed.

Lemma reachable_safe ic cap pool eb0 cs s : one_close ic cs -> Reachable (NewEventBusWithConfig cap pool eb0 cs) s ->
  safe ic eb0 s /\ length (workers s) = pool.
Proof.
  intros Hcs Hr. apply (rtc_ind_r (R := step) (fun s => safe ic eb0 s /\ length (workers s) = pool) (NewEventBusWithConfig cap pool eb0 cs)); [| |done].
  - split; [by apply initial_safe | apply length_replicate].
  - intros x y _ Hst [Hs Hl]. split; [by eapply step_safe|]. by rewrite (step_workers _ _ Hst).
Qed.

(** A state from which neither a call nor a worker can move. *)
Definition stuck (s : System) : Prop := forall s', ~ run s s'.

Definition worker_done (s : System) (k : Worker) : Prop :=
  match k with Waiting => buffer s = [] /\ chan_closed s = false | Exited => True | _ => False end.

Lemma stuck_workers s : stuck s -> Forall (worker_done s) (workers s).
Proof.
  intros Hs. apply Forall_lookup. intros j k Hj. destruct k as [|e|e called rest|]; cbn; [|exfalso|exfalso|done].
  - split.
    + destruct (buffer s) as [|e b] eqn:E; [done|]. exfalso. eapply Hs. split; [eapply step_receive; eauto|done].
    + destruct (chan_closed s) eqn:Hc; [|done]. exfalso. destruct (buffer s) as [|e b] eqn:E.
      * eapply Hs. split; [eapply step_exit; eauto|done].
      * eapply Hs. split; [eapply step_receive; eauto|done].
  - eapply Hs. split; [by eapply step_snapshot|done].
  - destruct rest.
    + eapply Hs. split; [by eapply step_finish|done].
    + eapply Hs. split; [by eapply step_deliver|done].
Qed.

(** Only the lock waits and [wg.Wait] can block a call. *)
Lemma stuck_calls s i c : stuck s -> calls s !! i = Some c ->
  match c with AsyncLock _ | CloseLock | CloseWait | Returned => True | _ => False end.
Proof.
  intros Hs Hi. assert (forall s', step s s' -> s_bus s' = s_bus s -> False) as Hn by (intros s' ? ?; by apply (Hs s')).
  destruct c as [e|e|e| | | | | |]; try done.
  - destruct (closed s) eqn:E; eapply Hn; [by eapply step_check_closed | done | by eapply step_check_open | done].
  - destruct (chan_closed s) eqn:E; [eapply Hn; [by eapply step_send_panic | done]|].
    destruct (decide (length (buffer s) < capacity s)); eapply Hn; [by eapply step_send | done | eapply step_drop; eauto; lia | done].
  - eapply Hn; [by eapply step_runlock | done].
  - eapply Hn; [by eapply step_set | done].
  - destruct (chan_closed s) eqn:E; eapply Hn; [by eapply step_close_panic | done | by eapply step_close | done].
Qed.

Lemma stuck_returned ic eb0 s : safe ic eb0 s -> stuck s -> Forall (fun c => c = Returned) (calls s).
Proof.
  intros Hsafe Hs. assert (forall s', step s s' -> s_bus s' = s_bus s -> False) as Hn by (intros s' ? ?; by apply (Hs s')).
  assert (no_reader s /\ no_writer s) as [Hr Hw].
  { split; apply Forall_lookup; intros i c Hi; pose proof (stuck_calls _ _ _ Hs Hi); by destruct c. }
  apply Forall_lookup. intros i c Hi. pose proof (stuck_calls _ _ _ Hs Hi) as Hc. destruct c as [e|e|e| | | | | |]; try done; exfalso.
  - eapply Hn; [by eapply step_rlock | done].
  - eapply Hn; [by eapply step_lock | done].
  - eapply Hn; [eapply step_wait; [exact Hi|] | done]. apply (Forall_impl _ _ _ (stuck_workers _ Hs)).
    assert (i = ic) as -> by (by eapply close_eq). pose proof (sf_closer _ _ _ Hsafe) as Hf. rewrite Hi in Hf.
    intros []; cbn; try done. intros []. destruct Hf. congruence.
Qed.

Lemma done_in_flight s : Forall (worker_done s) (workers s) -> in_flight s = [].
Proof. unfold in_flight. induction 1 as [|k l Hk _ IH]; [done|]. cbn. rewrite IH. by destruct k. Qed.

Lemma exited_done s : Forall (fun k => k = Exited) (workers s) -> Forall (worker_done s) (workers s).
Proof. intros H. apply (Forall_impl _ _ _ H). by intros ? ->. Qed.

(** With a worker and nothing left to move, every accepted event is finished. *)
Lemma done_finished ic eb0 s : safe ic eb0 s -> 0 < length (workers s) -> Forall (worker_done s) (workers s) ->
  buffer s = [] /\ map fst (finished s) ≡ₚ accepted s.
Proof.
  intros Hs Hl Hw. assert (buffer s = []) as Hb.
  { pose proof (sf_calling _ _ _ Hs) as Hc. destruct (workers s) as [|k ks]; cbn in Hl; [lia|].
    apply Forall_cons_1 in Hw as [Hw _]. apply Forall_cons_1 in Hc as [Hc _]. destruct k; try done.
    - by destruct Hw.
    - by destruct Hc. }
  split; [done|]. rewrite (sf_queue _ _ _ Hs), Hb, app_nil_r, (sf_taken _ _ _ Hs), (done_in_flight _ Hw), app_nil_r. done.
Qed.

(** C7: [PublishAsync], [Subscribe], the workers and one [Close] interleave
    in any way without a panic (the send and the close of the channel never
    meet a closed channel); accepted events are received in the order they were
    accepted, none is lost or received twice; each finished one was given to
    every subscriber registered before; and when [Close] has returned the
    buffer is drained: the finished events are exactly the accepted ones. *)
Theorem bus_safe ic cap pool eb0 cs s : one_close ic cs -> Reachable (NewEventBusWithConfig cap pool eb0 cs) s ->
  panicked s = false /\ accepted s = taken s ++ buffer s /\ taken s ≡ₚ map fst (finished s) ++ in_flight s /\
  Forall (fun p => subs_of (ev_Type p.1) eb0 `prefix_of` p.2) (finished s) /\
  (calls s !! ic = Some Returned -> 0 < pool -> buffer s = [] /\ map fst (finished s) ≡ₚ accepted s).
Proof.
  intros Hcs Hr. destruct (reachable_safe _ _ _ _ _ _ Hcs Hr) as [Hs Hl].
  repeat split; [apply Hs | apply Hs | apply Hs | | |].
  - apply (Forall_impl _ _ _ (sf_finished _ _ _ Hs)). by intros p [? _].
  - eapply done_finished; [exact Hs | lia|]. apply exited_done. pose proof (sf_closer _ _ _ Hs) as Hf. rewrite H in Hf. apply Hf.
  - eapply done_finished; [exact Hs | lia|]. apply exited_done. pose proof (sf_closer _ _ _ Hs) as Hf. rewrite H in Hf. apply Hf.
Qed.

Lemma run_bounded n ic eb0 s s' : safe ic eb0 s -> nsteps run n s s' -> safe ic eb0 s' /\ n + work s' <= work s.
Proof.
  intros Hs Hn. revert Hs. induction Hn as [|n x y z Hr _ IH]; intros Hs; [split; [done | lia]|].
  assert (safe ic eb0 y) as Hy by (eapply step_safe; [apply Hr | done]).
  destruct (IH Hy) as [Hz Hle]. pose proof (run_decreases _ _ Hr (sf_panic _ _ _ Hy) (sf_panic _ _ _ Hs)). split; [done | lia].
Qed.

(** No schedule deadlocks or runs for ever: from a reachable state the
    calls and the workers take at most [work] steps under any schedule, and when
    none can move every call - the [Close] with its wait for the workers
    included - has returned and every accepted event is finished. *)
Theorem bus_quiesces ic cap pool eb0 cs s : one_close ic cs -> 0 < pool ->
  Reachable (NewEventBusWithConfig cap pool eb0 cs) s -> forall n s', nsteps run n s s' ->
  n <= work s /\
  (stuck s' -> Forall (fun c => c = Returned) (calls s') /\ buffer s' = [] /\ map fst (finished s') ≡ₚ accepted s').
Proof.
  intros Hcs Hp Hr n s' Hn. destruct (reachable_safe _ _ _ _ _ _ Hcs Hr) as [Hs Hl].
  destruct (run_bounded _ _ _ _ _ Hs Hn) as [Hs' Hle]. split; [lia|]. intros Hst. split; [by eapply stuck_returned|].
  assert (length (workers s') = length (workers s)) as Hl'.
  { clear Hle Hst Hs' Hs Hr Hl. induction Hn as [|n x y z [Hxy _] _ IH]; [done|]. by rewrite IH, (step_workers _ _ Hxy). }
  eapply done_finished; [exact Hs' | lia | by apply stuck_workers].
Qed.

(** ** What the synchronous operations do *)
Inductive BusOp := OpSubscribe (t : EventType) (sub : Subscriber) | OpUnsubscribe (t : EventType) (sub : Subscriber).
Definition apply_op (eb : EventBus) (o : BusOp) : EventBus :=
  match o with OpSubscribe t sub => Subscribe t sub eb | OpUnsubscribe t sub => Unsubscribe t sub eb end.

(** The subscribers registered for [t], in order: nothing removes one. *)
Definition registered (t : EventType) (ops : list BusOp) : list Subscriber :=
  omap (fun o => match o with
                 | OpSubscribe u sub => if decide (u = t) then Some sub else None
                 | OpUnsubscribe _ _ => None
                 end) ops.

Lemma unsubscribe_loop_none subs sub : unsubscribe_loop subs sub = None.
Proof. induction subs as [|s subs IH]; [done|]. cbn. by rewrite IH. Qed.

Lemma subs_of_apply t eb ops : subs_of t (foldl apply_op eb ops) = subs_of t eb ++ registered t ops.
Proof.
  revert eb. induction ops as [|o ops IH]; intros eb; [by rewrite app_nil_r|]. cbn [foldl]. rewrite IH.
  destruct o as [u sub|u sub]; cbn.
  - unfold subs_of at 1. unfold Subscribe. cbn. destruct (decide (u = t)) as [->|Hne].
    + rewrite lookup_insert_eq. cbn. by rewrite <- app_assoc.
    + by rewrite lookup_insert_ne.
  - unfold Unsubscribe. by rewrite unsubscribe_loop_none.
Qed.

Lemma publishToSubscriber_world sub e w : (publishToSubscriber sub e w).1 = (Handle sub e w).1.
Proof. unfold publishToSubscriber. by destruct (Handle sub e w) as [w' []]. Qed.

Lemma publish_loop_all subs e w : publish_loop subs e w = foldl (fun w sub => (Handle sub e w).1) w subs.
Proof.
  revert w. induction subs as [|sub subs IH]; intros w; [done|]. cbn. rewrite <- publishToSubscriber_world.
  destruct (publishToSubscriber sub e w) as [w' o]. apply IH.
Qed.

(** [Dispatch] saves the event first: if that fails no subscriber
    is called and the error comes back; otherwise every subscriber registered
    for the event's type is called once, in registration order, in spite of
    errors and panics of the earlier ones, and the result is nil. [DispatchAsync]
    reaches the bus exactly when the event is saved. [Unsubscribe] calls in the
    history change nothing: it compares the addresses of two local variables. *)
Theorem Dispatch_serves_registered ops e d w : bus d = foldl apply_op (mkBus ∅) ops ->
  Dispatch e d w =
    match save e d w with
    | (w', Some err) => (w', Some (Persisting err))
    | (w', None) => (foldl (fun w sub => (Handle sub e w).1) w' (registered (ev_Type e) ops), None)
    end /\
  DispatchAsync e d w = ((save e d w).1, bool_decide ((save e d w).2 = None)) /\
  forall t, SubscriberCount t (bus d) = length (registered t ops).
Proof.
  intros Hb. unfold Dispatch, DispatchAsync, Publish, SubscriberCount. rewrite Hb. split; [|split].
  - destruct (save e d w) as [w' [err|]]; [done|]. by rewrite publish_loop_all, subs_of_apply.
  - by destruct (save e d w) as [w' [err|]].
  - intros t. by rewrite subs_of_apply.
Qed.

(** A second [Close] closes the channel again, and panics. *)
Lemma second_Close_panics cap eb : exists s, Reachable (NewEventBusWithConfig cap 0 eb [CloseLock; CloseLock]) s /\ panicked s = true.
Proof.
  eexists. split.
  - eapply rtc_l; [eapply (step_lock _ 0); [done | by repeat constructor | by repeat constructor]|].
    eapply rtc_l; [by eapply (step_set _ 0)|]. eapply rtc_l; [by eapply (step_close _ 0)|].
    eapply rtc_l; [eapply (step_lock _ 1); [done | by repeat constructor | by repeat constructor]|].
    eapply rtc_l; [by eapply (step_set _ 1)|]. eapply rtc_l; [by eapply (step_close_panic _ 1)|]. apply rtc_refl.
  - done.
Qed.

End EventBus.

(** ** Concrete runs *)
Section Examples.
Definition ev (t : string) : Event nat := mkEvent nat "id" t "test" 0%Z ∅ ∅.
Definition log_handle (sub : nat) (e : Event nat) (w : list nat) : list nat * HandleResult :=
  (w ++ [sub], if decide (sub = 2) then HandlePanic else if decide (sub = 1) then HandleError "no" else Handled).

(** A bus with two subscribers, one event and a [Close]. *)
Definition one_start (eb : EventBus nat) : System nat nat :=
  NewEventBusWithConfig nat nat 1 1 eb [AsyncLock nat (ev "t"); CloseLock nat].
Definition one_run (eb : EventBus nat) : System nat nat :=
  mkSystem nat nat eb 1 [] true true [Exited nat nat] [Returned nat; Returned nat]
    [ev "t"] [ev "t"] [(ev "t", [1; 2])] false.
Definition eb12 : EventBus nat := mkBus nat {[ "t" := [1; 2] ]}.

Lemma one_close_example : one_close nat 1 [AsyncLock nat (ev "t"); CloseLock nat].
Proof. intros [|[|[|i]]] c Hc; cbn in *; simplify_eq; [by eexists | done]. Qed.

Ltac take_step c := eapply nsteps_l; [split; [eapply c; first [reflexivity | repeat constructor] | reflexivity]|];
  unfold set_call, set_worker, set_queue, set_flags, finish; cbn -[subs_of ev].

(** The call sends, [Close] closes, the worker receives, calls both and exits. *)
Lemma one_run_steps eb : subs_of nat "t" eb = [1; 2] -> nsteps (run nat nat) 14 (one_start eb) (one_run eb).
Proof.
  intros He. unfold one_start, NewEventBusWithConfig. cbn -[subs_of ev].
  take_step (fun s => step_rlock nat nat s 0). take_step (fun s => step_check_open nat nat s 0).
  take_step (fun s => step_send nat nat s 0). take_step (fun s => step_runlock nat nat s 0).
  take_step (fun s => step_lock nat nat s 1). take_step (fun s => step_set nat nat s 1).
  take_step (fun s => step_close nat nat s 1). take_step (fun s => step_receive nat nat s 0).
  take_step (fun s => step_snapshot nat nat s 0). change (ev_Type nat (ev "t")) with "t"%string. rewrite He.
  take_step (fun s => step_deliver nat nat s 0). take_step (fun s => step_deliver nat nat s 0).
  take_step (fun s => step_finish nat nat s 0). take_step (fun s => step_exit nat nat s 0).
  take_step (fun s => step_wait nat nat s 1). apply nsteps_O.
Qed.

Lemma one_run_reachable : Reachable nat nat (one_start eb12) (one_run eb12).
Proof.
  unfold Reachable. generalize (one_run_steps eb12 eq_refl). generalize 14 (one_start eb12) (one_run eb12). intros n s s' H.
  induction H as [|n x y z [Hxy _] _ IH]; [apply rtc_refl | by eapply rtc_l].
Qed.

Lemma bus_safe_witness : calls _ _ (one_run eb12) !! 1 = Some (Returned nat) /\
  map fst (finished _ _ (one_run eb12)) ≡ₚ accepted _ _ (one_run eb12).
Proof.
  split; [reflexivity|].
  pose proof (bus_safe nat nat 1 1 1 _ _ (one_run eb12) one_close_example one_run_reachable) as (_ & _ & _ & _ & H).
  apply H; [reflexivity | lia].
Defined.

Lemma bus_quiesces_witness : 14 <= work nat nat (one_start eb12).
Proof.
  exact (proj1 (bus_quiesces nat nat 1 1 1 _ _ (one_start eb12) one_close_example (le_n 1) (rtc_refl _ _) 14 (one_run eb12) (one_run_steps eb12 eq_refl))).
Defined.

Lemma Dispatch_serves_registered_witness :
  let ops := [OpSubscribe nat "t" 1; OpSubscribe nat "t" 2; OpUnsubscribe nat "t" 1; OpSubscribe nat "t" 3] in
  let d := NewDispatcher nat (list nat) nat (foldl (apply_op nat) (mkBus nat ∅) ops) in
  Dispatch nat (list nat) nat log_handle (ev "t") d [] = ([1; 2; 3], None).
Proof.
  intros ops d. rewrite (proj1 (Dispatch_serves_registered nat (list nat) nat log_handle ops (ev "t") d [] eq_refl)).
  vm_compute. reflexivity.
Defined.
End Examples.
