(* ===== verification/MongoQuery.v ===== *)
(** MongoDB filters and pipelines: [internal/database/mongodb/query.go].

    A Go map is the list of its entries in the order a [range] visits them.
    [bson.M], [map[string]interface{}], [[]bson.M] and [[]interface{}] are
    different dynamic types, hence different constructors of [bval].  Documents
    handed to the builder are not shared between filters.  The driver's
    [primitive.ObjectIDFromHex] is a parameter. *)

From Stdlib Require Import ZArith Lia Ascii.
From stdpp Require Import base strings list sets.
From S2P Require Import Prelude GoStrings.

#[local] Open Scope string_scope.

Section MongoQuery.
(** Driver types, values of other dynamic types, and the driver's conversion. *)
Variables (ObjectID any : Type) (ObjectIDFromHex : string -> option ObjectID).

Inductive bval :=
| BNull
| BStr (s : string)
| BBool (b : bool)
| BInt (z : Z)
| BOid (o : ObjectID)
| BOther (a : any)
| BArr (l : list bval)                              (** [[]interface{}] *)
| BDoc (m : list (string * bval))                   (** [bson.M] *)
| BDocs (l : list (option (list (string * bval))))  (** [[]bson.M], [None] a nil map *)
| BMap (m : list (string * bval)).                  (** [map[string]interface{}] *)

Abbreviation M := (list (string * bval)).

(** [m[k]] and [m[k] = v]. *)
Fixpoint mget {A} (k : string) (m : list (string * A)) : option A :=
  match m with
  | [] => None
  | (k', v) :: m' => if String.eqb k k' then Some v else mget k m'
  end.
Fixpoint mset {A} (k : string) (v : A) (m : list (string * A)) : list (string * A) :=
  match m with
  | [] => [(k, v)]
  | (k', v') :: m' => if String.eqb k k' then (k', v) :: m' else (k', v') :: mset k v m'
  end.

(** ** Filter, sort and array expressions *)
Definition FilterOp := string.
Definition OpEq : FilterOp := "eq".
Definition OpNe : FilterOp := "ne".
Definition OpGt : FilterOp := "gt".
Definition OpGte : FilterOp := "gte".
Definition OpLt : FilterOp := "lt".
Definition OpLte : FilterOp := "lte".
Definition OpIn : FilterOp := "in".
Definition OpNin : FilterOp := "nin".
Definition OpRegex : FilterOp := "regex".

Definition mongoOpMap : list (FilterOp * string) :=
  [(OpEq, "$eq"); (OpNe, "$ne"); (OpGt, "$gt"); (OpGte, "$gte"); (OpLt, "$lt"); (OpLte, "$lte");
   (OpIn, "$in"); (OpNin, "$nin"); (OpRegex, "$regex")].

Inductive SortDirection := SortAsc | SortDesc.
Definition direction_int (d : SortDirection) : Z := match d with SortAsc => 1 | SortDesc => -1 end.

Record FilterExpr := mkFilter { Field : string; Operator : FilterOp; Value : bval; Options : string }.

Inductive LogicalExpr := mkLogical (Type_ : string) (Filters : list FilterExpr) (Groups : list LogicalExpr).

Record SortExpr := mkSort { s_Field : string; s_Direction : SortDirection }.
Record ArrayExpr := mkArrayExpr { a_Field : string; a_Type : string; a_Value : bval }.

Record QueryBuilder := mkBuilder {
  collection : string;
  filters : list FilterExpr;
  logicals : list LogicalExpr;
  sorts : list SortExpr;
  skip : option Z;
  limit : option Z;
  projection : M;
  arrayExprs : list ArrayExpr;
  errors : list string     (** the unknown operators *)
}.

Definition NewQueryBuilder (c : string) : QueryBuilder := mkBuilder c [] [] [] None None [] [] [].

(** ** The fluent methods *)
Definition add_filter (f : FilterExpr) (qb : QueryBuilder) : QueryBuilder :=
  mkBuilder (collection qb) (filters qb ++ [f])%list (logicals qb) (sorts qb) (skip qb) (limit qb) (projection qb) (arrayExprs qb) (errors qb).
Definition add_logical (l : LogicalExpr) (qb : QueryBuilder) : QueryBuilder :=
  mkBuilder (collection qb) (filters qb) (logicals qb ++ [l])%list (sorts qb) (skip qb) (limit qb) (projection qb) (arrayExprs qb) (errors qb).
Definition add_array (a : ArrayExpr) (qb : QueryBuilder) : QueryBuilder :=
  mkBuilder (collection qb) (filters qb) (logicals qb) (sorts qb) (skip qb) (limit qb) (projection qb) (arrayExprs qb ++ [a])%list (errors qb).
Definition set_projection (p : M) (qb : QueryBuilder) : QueryBuilder :=
  mkBuilder (collection qb) (filters qb) (logicals qb) (sorts qb) (skip qb) (limit qb) p (arrayExprs qb) (errors qb).

Definition Where (field : string) (v : bval) := add_filter (mkFilter field OpEq v "").
Definition Eq_ (field : string) (v : bval) := Where field v.
Definition Ne (field : string) (v : bval) := add_filter (mkFilter field OpNe v "").
Definition Gt_ (field : string) (v : bval) := add_filter (mkFilter field OpGt v "").
Definition Gte (field : string) (v : bval) := add_filter (mkFilter field OpGte v "").
Definition Lt_ (field : string) (v : bval) := add_filter (mkFilter field OpLt v "").
Definition Lte (field : string) (v : bval) := add_filter (mkFilter field OpLte v "").
Definition In_ (field : string) (v : bval) := add_filter (mkFilter field OpIn v "").
Definition Nin (field : string) (v : bval) := add_filter (mkFilter field OpNin v "").
Definition Regex (field pattern options : string) := add_filter (mkFilter field OpRegex (BStr pattern) options).
Definition RegexCaseInsensitive (field pattern : string) := Regex field pattern "i".

Definition And (fs : list FilterExpr) := add_logical (mkLogical "and" fs []).
Definition Or (fs : list FilterExpr) := add_logical (mkLogical "or" fs []).
Definition Not_ (f : FilterExpr) := add_logical (mkLogical "not" [f] []).
Definition OrGroup (gs : list LogicalExpr) := add_logical (mkLogical "or" [] gs).
Definition AndGroup (gs : list LogicalExpr) := add_logical (mkLogical "and" [] gs).

Definition Sort (field : string) (d : SortDirection) (qb : QueryBuilder) : QueryBuilder :=
  mkBuilder (collection qb) (filters qb) (logicals qb) (sorts qb ++ [mkSort field d])%list (skip qb) (limit qb) (projection qb) (arrayExprs qb) (errors qb).
Definition SortAscending (field : string) := Sort field SortAsc.
Definition SortDescending (field : string) := Sort field SortDesc.

Definition Skip (n : Z) (qb : QueryBuilder) : QueryBuilder :=
  mkBuilder (collection qb) (filters qb) (logicals qb) (sorts qb) (Some n) (limit qb) (projection qb) (arrayExprs qb) (errors qb).
Definition Limit (n : Z) (qb : QueryBuilder) : QueryBuilder :=
  mkBuilder (collection qb) (filters qb) (logicals qb) (sorts qb) (skip qb) (Some n) (projection qb) (arrayExprs qb) (errors qb).

Definition project_all (n : Z) (fields : list string) (p : M) : M := foldl (fun p field => mset field (BInt n) p) p fields.
Definition Select (fields : list string) (qb : QueryBuilder) := set_projection (project_all 1 fields (projection qb)) qb.
Definition Exclude (fields : list string) (qb : QueryBuilder) := set_projection (project_all 0 fields (projection qb)) qb.
Definition Project (p : M) (qb : QueryBuilder) := set_projection p qb.

Definition ElemMatch (field : string) (conditions : M) := add_array (mkArrayExpr field "elemMatch" (BDoc conditions)).
Definition All (field : string) (values : list bval) := add_array (mkArrayExpr field "all" (BArr values)).
Definition Size (field : string) (size : Z) := add_array (mkArrayExpr field "size" (BInt size)).

(** ** Building the filter *)
(** A string in [_id] that reads as an object id is converted. *)
Definition oid_value (field : string) (v : bval) : bval :=
  if String.eqb field "_id" then
    match v with
    | BStr s => match ObjectIDFromHex s with Some o => BOid o | None => v end
    | _ => v
    end
  else v.

(** Merging an operator into what the document holds for the field. *)
Definition merge_op (op : string) (v : bval) (existing : bval) : bval :=
  match existing with
  | BDoc m => BDoc (mset op v m)
  | _ => BDoc [(op, v)]
  end.

Definition addFilterToDoc (f : FilterExpr) (doc : M) (errs : list string) : M * list string :=
  let v := oid_value (Field f) (Value f) in
  match mget (Operator f) mongoOpMap with
  | None => (doc, (errs ++ [Operator f])%list)
  | Some mongoOp =>
      (if String.eqb (Operator f) OpEq then
         match mget (Field f) doc with
         | Some existing => mset (Field f) (merge_op "$eq" v existing) doc
         | None => mset (Field f) v doc
         end
       else if String.eqb (Operator f) OpRegex then
         mset (Field f) (BDoc (if String.eqb (Options f) "" then [("$regex", v)]
                               else [("$regex", v); ("$options", BStr (Options f))])) doc
       else
         match mget (Field f) doc with
         | Some existing => mset (Field f) (merge_op mongoOp v existing) doc
         | None => mset (Field f) (BDoc [(mongoOp, v)]) doc
         end, errs)
  end.

(** [doc[k] = append(doc[k].([]bson.M), conditions...)], which panics on
    another type. *)
Definition append_conditions (k : string) (conditions : list M) (doc : M) : option M :=
  match mget k doc with
  | Some (BDocs ex) => Some (mset k (BDocs (ex ++ map Some conditions)%list) doc)
  | Some _ => None
  | None => Some (mset k (BDocs (map Some conditions)) doc)
  end.

Fixpoint filter_conditions (fs : list FilterExpr) (errs : list string) : list M * list string :=
  match fs with
  | [] => ([], errs)
  | f :: fs' =>
      let '(d, errs) := addFilterToDoc f [] errs in
      let '(ds, errs) := filter_conditions fs' errs in (d :: ds, errs)
  end.

(** The [switch] of [addLogicalToDoc]. *)
Definition add_conditions (ty : string) (conditions : list M) (doc : M) : option M :=
  if String.eqb ty "and" then append_conditions "$and" conditions doc
  else if String.eqb ty "or" then append_conditions "$or" conditions doc
  else if String.eqb ty "not" then
    match conditions with
    | [] => Some doc
    | c :: _ => Some (foldl (fun doc e => mset e.1 (BDoc [("$not", e.2)]) doc) doc c)
    end
  else Some doc.

(** [None]: the type assertion panics. *)
Fixpoint addLogicalToDoc (l : LogicalExpr) (doc : M) (errs : list string) : option (M * list string) :=
  match l with
  | mkLogical ty fs gs =>
      let '(cs, errs) := filter_conditions fs errs in
      match (fix groups (gs : list LogicalExpr) (errs : list string) : option (list M * list string) :=
               match gs with
               | [] => Some ([], errs)
               | g :: gs' =>
                   match addLogicalToDoc g [] errs with
                   | None => None
                   | Some (d, errs) =>
                       match groups gs' errs with
                       | None => None
                       | Some (ds, errs) => Some (d :: ds, errs)
                       end
                   end
               end) gs errs with
      | None => None
      | Some (gcs, errs) =>
          match add_conditions ty (cs ++ gcs)%list doc with
          | None => None
          | Some doc => Some (doc, errs)
          end
      end
  end.

Definition addArrayExprToDoc (a : ArrayExpr) (doc : M) : M :=
  if String.eqb (a_Type a) "elemMatch" then mset (a_Field a) (BDoc [("$elemMatch", a_Value a)]) doc
  else if String.eqb (a_Type a) "all" then mset (a_Field a) (BDoc [("$all", a_Value a)]) doc
  else if String.eqb (a_Type a) "size" then mset (a_Field a) (BDoc [("$size", a_Value a)]) doc
  else doc.

Definition add_filters (fs : list FilterExpr) (st : M * list string) : M * list string :=
  foldl (fun st f => addFilterToDoc f st.1 st.2) st fs.
Fixpoint add_logicals (ls : list LogicalExpr) (st : M * list string) : option (M * list string) :=
  match ls with
  | [] => Some st
  | l :: ls' => match addLogicalToDoc l st.1 st.2 with
                | None => None
                | Some st => add_logicals ls' st
                end
  end.
Definition add_arrays (als : list ArrayExpr) (doc : M) : M := foldl (fun doc a => addArrayExprToDoc a doc) doc als.

(** The filter and the errors after it. *)
Definition BuildFilter (qb : QueryBuilder) : option (M * list string) :=
  match add_logicals (logicals qb) (add_filters (filters qb) ([], errors qb)) with
  | None => None
  | Some (doc, errs) => Some (add_arrays (arrayExprs qb) doc, errs)
  end.

Definition BuildSort (qb : QueryBuilder) : list (string * Z) :=
  map (fun s => (s_Field s, direction_int (s_Direction s))) (sorts qb).

(** A pipeline stage: the one-entry document of its name. *)
Inductive Stage :=
| Match_ (m : M) | Sort_ (d : list (string * Z)) | Skip_ (n : Z) | Limit_ (n : Z) | Project_ (p : M).

Definition when {A} (b : bool) (x : A) : list A := if b then [x] else [].
Definition positive_stage (mk : Z -> Stage) (n : option Z) : list Stage :=
  match n with Some n => when (0 <? n)%Z (mk n) | None => [] end.
Definition nonempty {A} (l : list A) : bool := match l with [] => false | _ => true end.

Definition BuildPipeline (qb : QueryBuilder) : option (list Stage) :=
  match BuildFilter qb with
  | None => None
  | Some (filter, _) =>
      Some (when (nonempty filter) (Match_ filter) ++ when (nonempty (BuildSort qb)) (Sort_ (BuildSort qb))
            ++ positive_stage Skip_ (skip qb) ++ positive_stage Limit_ (limit qb)
            ++ when (nonempty (projection qb)) (Project_ (projection qb)))%list
  end.

Definition HasErrors (qb : QueryBuilder) : bool := nonempty (errors qb).

(** ** Filters of the specification language *)
Record DSLQuery := mkDSL {
  d_Name : string;
  d_Collection : string;
  d_Filter : option M;                       (** [map[string]interface{}], may be nil *)
  d_Sort : option (list (string * string));
  d_Limit : option Z;
  d_Skip : option Z;
  d_Select : list string
}.

Definition translateDSLOperator (op : string) : string :=
  let op := ToLower op in
  let one_of l := existsb (String.eqb op) l in
  if one_of ["eq"; "$eq"] then "$eq" else if one_of ["ne"; "$ne"; "neq"] then "$ne"
  else if one_of ["gt"; "$gt"] then "$gt" else if one_of ["gte"; "$gte"; "ge"] then "$gte"
  else if one_of ["lt"; "$lt"] then "$lt" else if one_of ["lte"; "$lte"; "le"] then "$lte"
  else if one_of ["in"; "$in"] then "$in" else if one_of ["nin"; "$nin"; "notin"] then "$nin"
  else if one_of ["regex"; "$regex"] then "$regex" else if one_of ["exists"; "$exists"] then "$exists"
  else if one_of ["type"; "$type"] then "$type" else if one_of ["elemmatch"; "$elemmatch"; "elemMatch"] then "$elemMatch"
  else if one_of ["all"; "$all"] then "$all" else if one_of ["size"; "$size"] then "$size"
  else "".

(** [{ field: { op: value } }]: operators are translated, other keys kept. *)
Definition field_conditions (field : string) (opMap : M) : M :=
  foldl (fun fc e => let mongoOp := translateDSLOperator e.1 in
                     if String.eqb mongoOp "" then mset e.1 e.2 fc else mset mongoOp (oid_value field e.2) fc) [] opMap.

(** [result[k] = bson.M{"$not": v}] for each entry. *)
Definition negate_entries (notFilter result : M) : M :=
  foldl (fun r e => mset e.1 (BDoc [("$not", e.2)]) r) result notFilter.

Fixpoint parse_map (v : bval) : M :=
  match v with
  | BMap filter =>
      (fix go (filter : M) (result : M) : M :=
         match filter with
         | [] => result
         | (field, value) :: rest =>
             go rest
               (if String.eqb field "$and" || String.eqb field "and" then
                  match value with
                  | BArr arr => mset "$and" (BDocs (map (fun item => match item with BMap _ => Some (parse_map item) | _ => None end) arr)) result
                  | _ => result
                  end
                else if String.eqb field "$or" || String.eqb field "or" then
                  match value with
                  | BArr arr => mset "$or" (BDocs (map (fun item => match item with BMap _ => Some (parse_map item) | _ => None end) arr)) result
                  | _ => result
                  end
                else if String.eqb field "$not" || String.eqb field "not" then
                  match value with
                  | BMap _ => negate_entries (parse_map value) result
                  | _ => result
                  end
                else
                  match value with
                  | BMap opMap => if nonempty (field_conditions field opMap) then mset field (BDoc (field_conditions field opMap)) result else result
                  | _ => mset field (oid_value field value) result
                  end)
         end) filter []
  | _ => []
  end.

Definition parseDSLFilterRecursive (filter : M) : M := parse_map (BMap filter).
Definition ParseDSLFilter (dslFilter : M) : M := parseDSLFilterRecursive dslFilter.

(** The entries of [$and] and [$or] conditions become equality filters too. *)
Definition dsl_filters (e : string * bval) : list FilterExpr :=
  if String.eqb e.1 "$and" || String.eqb e.1 "$or" then
    match e.2 with
    | BDocs arr => concat (map (fun cond => map (fun fv => mkFilter fv.1 OpEq fv.2 "") (default [] cond)) arr)
    | _ => []
    end
  else [mkFilter e.1 OpEq e.2 ""].

Definition dsl_direction (dir : string) : SortDirection :=
  if String.eqb (ToLower dir) "desc" || String.eqb dir "-1" then SortDesc else SortAsc.

Definition BuildFromDSL (dsl : DSLQuery) : QueryBuilder :=
  let qb := NewQueryBuilder (d_Collection dsl) in
  let qb := match d_Filter dsl with
            | Some f => foldl (fun qb e => foldl (fun qb f => add_filter f qb) qb (dsl_filters e)) qb (ParseDSLFilter f)
            | None => qb
            end in
  let qb := foldl (fun qb e => Sort e.1 (dsl_direction e.2) qb) qb (default [] (d_Sort dsl)) in
  let qb := match d_Limit dsl with Some n => Limit n qb | None => qb end in
  let qb := match d_Skip dsl with Some n => Skip n qb | None => qb end in
  if nonempty (d_Select dsl) then Select (d_Select dsl) qb else qb.

Definition BuildPipelineFromDSL (filter : option M) (sort : option (list (string * string))) (limit skip : option Z)
    (project : list string) : list Stage :=
  (match filter with
   | Some f => when (nonempty f) (Match_ (ParseDSLFilter f))
   | None => []
   end
   ++ match sort with
      | Some l => when (nonempty l) (Sort_ (map (fun e => (e.1, direction_int (dsl_direction e.2))) l))
      | None => []
      end
   ++ positive_stage Skip_ skip ++ positive_stage Limit_ limit
   ++ when (nonempty project) (Project_ (project_all 1 project [])))%list.

(** ** Regular expressions *)
Definition is_special (c : ascii) : bool := str_contains c "\.*+?^${}()|[]".

Fixpoint EscapeRegexPattern (pattern : string) : string :=
  match pattern with
  | EmptyString => ""
  | String c s => if is_special c then String backslash (String c (EscapeRegexPattern s)) else String c (EscapeRegexPattern s)
  end.

(** [strings.ReplaceAll] for a pattern of two bytes. *)
Fixpoint ReplaceAll2 (s : string) (a b : ascii) (new : string) : string :=
  match s with
  | String x ((String y s') as t) =>
      if Ascii.eqb x a && Ascii.eqb y b then new +:+ ReplaceAll2 s' a b new else String x (ReplaceAll2 t a b new)
  | _ => s
  end.

Definition WildcardToRegex (pattern : string) : string :=
  let escaped := EscapeRegexPattern pattern in
  let escaped := ReplaceAll2 escaped backslash "*" ".*" in
  let escaped := ReplaceAll2 escaped backslash "?" "." in
  "^" +:+ escaped +:+ "$".

Record PrimitiveRegex := mkRegex { Pattern : string; r_Options : string }.
Definition ContainsRegex (substring : string) : PrimitiveRegex := mkRegex (EscapeRegexPattern substring) "i".
Definition StartsWithRegex (prefix : string) : PrimitiveRegex := mkRegex ("^" +:+ EscapeRegexPattern prefix) "i".
Definition EndsWithRegex (suffix : string) : PrimitiveRegex := mkRegex (EscapeRegexPattern suffix +:+ "$") "i".

(** ** Wildcards *)
(** What each byte of the wildcard pattern becomes. *)
Definition wildcard_byte (c : ascii) : string :=
  if Ascii.eqb c "*" then ".*" else if Ascii.eqb c "?" then "."
  else if is_special c then String backslash (String c "") else String c "".
Fixpoint wildcard_bytes (s : string) : string :=
  match s with
  | EmptyString => ""
  | String c s => wildcard_byte c +:+ wildcard_bytes s
  end.

(** The pattern after the escapes and the first replacement. *)
Definition star_byte (c : ascii) : string :=
  if Ascii.eqb c "*" then ".*" else if is_special c then String backslash (String c "") else String c "".
Fixpoint star_bytes (s : string) : string :=
  match s with
  | EmptyString => ""
  | String c s => star_byte c +:+ star_bytes s
  end.

Lemma ReplaceAll2_skip x t a b new : Ascii.eqb x a = false ->
  ReplaceAll2 (String x t) a b new = String x (ReplaceAll2 t a b new).
Proof. intros Hx. destruct t as [|y t]; [done|]. cbn. by rewrite Hx. Qed.

Lemma ReplaceAll2_pair x y t a b new :
  ReplaceAll2 (String x (String y t)) a b new =
  if Ascii.eqb x a && Ascii.eqb y b then new +:+ ReplaceAll2 t a b new else String x (ReplaceAll2 (String y t) a b new).
Proof. done. Qed.

Definition head_is (b : ascii) (s : string) : bool := match s with String y _ => Ascii.eqb y b | EmptyString => false end.

Lemma ReplaceAll2_head x t a b new : head_is b t = false ->
  ReplaceAll2 (String x t) a b new = String x (ReplaceAll2 t a b new).
Proof. intros Hx. destruct t as [|y t]; [done|]. cbn in Hx. rewrite ReplaceAll2_pair, Hx, andb_false_r. done. Qed.

Lemma plain_not c d : is_special d = true -> is_special c = false -> Ascii.eqb c d = false.
Proof. intros Hd Hc. destruct (ascii_eqb_spec c d) as [->|]; [congruence | done]. Qed.

Lemma escape_head d s : is_special d = true -> Ascii.eqb backslash d = false -> head_is d (EscapeRegexPattern s) = false.
Proof.
  intros Hd Hb. destruct s as [|c s]; [done|]. cbn [EscapeRegexPattern]. destruct (is_special c) eqn:Hc; [done|].
  by apply plain_not.
Qed.

Lemma replace_star s : ReplaceAll2 (EscapeRegexPattern s) backslash "*" ".*" = star_bytes s.
Proof.
  induction s as [|c s IH]; [done|]. cbn [EscapeRegexPattern star_bytes]. unfold star_byte.
  destruct (is_special c) eqn:Hc.
  - rewrite ReplaceAll2_pair. change (Ascii.eqb backslash backslash) with true. rewrite andb_true_l.
    destruct (Ascii.eqb c "*") eqn:Hs; [by rewrite IH|].
    rewrite ReplaceAll2_head by (by apply escape_head). by rewrite IH.
  - rewrite (plain_not c "*" eq_refl Hc), ReplaceAll2_skip by (by apply plain_not). by rewrite IH.
Qed.

Lemma star_head d s : is_special d = true -> Ascii.eqb backslash d = false -> Ascii.eqb "." d = false -> head_is d (star_bytes s) = false.
Proof.
  intros Hd Hb Hs. destruct s as [|c s]; [done|]. cbn [star_bytes]. unfold star_byte.
  destruct (Ascii.eqb c "*"); [done|]. destruct (is_special c) eqn:Hc; [done|]. by apply plain_not.
Qed.

Lemma replace_question s : ReplaceAll2 (star_bytes s) backslash "?" "." = wildcard_bytes s.
Proof.
  induction s as [|c s IH]; [done|]. cbn [star_bytes wildcard_bytes]. unfold star_byte, wildcard_byte.
  destruct (Ascii.eqb c "*") eqn:Hs.
  - cbn [String.append]. rewrite ReplaceAll2_skip by done.
    rewrite ReplaceAll2_head by (by apply star_head). by rewrite IH.
  - destruct (is_special c) eqn:Hc.
    + cbn [String.append]. rewrite ReplaceAll2_pair. change (Ascii.eqb backslash backslash) with true. rewrite andb_true_l.
      destruct (Ascii.eqb c "?") eqn:Hq; [by rewrite IH|].
      rewrite ReplaceAll2_head by (by apply star_head). by rewrite IH.
    + rewrite (plain_not c "?" eq_refl Hc). cbn [String.append].
      rewrite ReplaceAll2_skip by (by apply plain_not). by rewrite IH.
Qed.

(** [WildcardToRegex] translates byte by byte: a star becomes [.*],
    a question mark a dot, every other special byte is escaped and the rest is
    kept, between anchors - the two replacements after the escaping never hit
    an escaped backslash that happens to stand before a star. *)
Theorem WildcardToRegex_bytewise pattern : WildcardToRegex pattern = "^" +:+ wildcard_bytes pattern +:+ "$".
Proof. unfold WildcardToRegex. cbv zeta. by rewrite replace_star, replace_question. Qed.

(** ** What a filter means

    [op_matches field op v options] is the server's answer for one document and
    one operator; a filter document is the conjunction of its entries, [$and] and
    [$or] combine whole documents, an operator document is the conjunction of its
    operators, [$not] negates one, and any other value is an equality. *)
Section Meaning.
Variable op_matches : string -> string -> bval -> string -> bool.

Definition is_op (k : string) : bool := match k with String c _ => Ascii.eqb c "$" | EmptyString => false end.
Definition is_op_doc (m : M) : bool := nonempty m && forallb (fun e => is_op e.1) m.
Definition options_of (m : M) : string := match mget "$options" m with Some (BStr o) => o | _ => "" end.

(** One operator of an operator document with options [o]; [neg] is the meaning
    of the operand of [$not]. *)
Definition op_entry (neg : bval -> bool) (field o op : string) (v : bval) : bool :=
  if String.eqb op "$not" then negb (neg v)
  else if String.eqb op "$options" then true
  else op_matches field op v (if String.eqb op "$regex" then o else "").

Fixpoint cond_matches (field : string) (v : bval) {struct v} : bool :=
  match v with
  | BDoc m =>
      if is_op_doc m then
        (fix go (l : M) : bool :=
           match l with
           | [] => true
           | (op, x) :: l' => op_entry (cond_matches field) field (options_of m) op x && go l'
           end) m
      else op_matches field "$eq" v ""
  | _ => op_matches field "$eq" v ""
  end.

Fixpoint entry_matches (k : string) (v : bval) {struct v} : bool :=
  match v with
  | BDocs l =>
      let doc d := match d with
                   | Some m => (fix go (m : M) : bool := match m with [] => true | (k, v) :: m' => entry_matches k v && go m' end) m
                   | None => true
                   end in
      if String.eqb k "$and" then forallb doc l
      else if String.eqb k "$or" then existsb doc l
      else cond_matches k v
  | _ => cond_matches k v
  end.

Definition doc_matches (m : M) : bool := forallb (fun e => entry_matches e.1 e.2) m.
Definition ops_match (field o : string) (m : M) : bool := forallb (fun e => op_entry (cond_matches field) field o e.1 e.2) m.

Lemma cond_matches_doc field m : is_op_doc m = true -> cond_matches field (BDoc m) = ops_match field (options_of m) m.
Proof.
  intros Hm. cbn. rewrite Hm. unfold ops_match. generalize (options_of m). clear Hm. intros o.
  induction m as [|[op x] m IH]; [done|]. cbn. by rewrite IH.
Qed.

Lemma entry_matches_docs k ms :
  entry_matches k (BDocs (map Some ms)) =
  if String.eqb k "$and" then forallb doc_matches ms
  else if String.eqb k "$or" then existsb doc_matches ms else cond_matches k (BDocs (map Some ms)).
Proof.
  assert (forall m, (fix go (m : M) : bool := match m with [] => true | (k, v) :: m' => entry_matches k v && go m' end) m = doc_matches m) as H.
  { induction m as [|[k' v] m IH]; [done|]. cbn. by rewrite IH. }
  cbn. destruct (String.eqb k "$and").
  - induction ms as [|m ms IH]; [done|]. cbn. by rewrite H, IH.
  - destruct (String.eqb k "$or"); [|done]. induction ms as [|m ms IH]; [done|]. cbn. by rewrite H, IH.
Qed.

(** What the expressions of the builder mean. *)
Definition filter_holds (f : FilterExpr) : bool :=
  match mget (Operator f) mongoOpMap with
  | Some op => op_matches (Field f) op (oid_value (Field f) (Value f)) (if String.eqb (Operator f) OpRegex then Options f else "")
  | None => true
  end.

Fixpoint logical_holds (l : LogicalExpr) : bool :=
  match l with
  | mkLogical ty fs gs =>
      if String.eqb ty "and" then forallb filter_holds fs && forallb logical_holds gs
      else if String.eqb ty "or" then existsb filter_holds fs || existsb logical_holds gs
      else negb (forallb filter_holds fs && forallb logical_holds gs)
  end.

Definition array_op (ty : string) : string :=
  if String.eqb ty "elemMatch" then "$elemMatch" else if String.eqb ty "all" then "$all" else "$size".
Definition array_holds (a : ArrayExpr) : bool := op_matches (a_Field a) (array_op (a_Type a)) (a_Value a) "".

Definition builder_holds (qb : QueryBuilder) : bool :=
  forallb filter_holds (filters qb) && forallb logical_holds (logicals qb) && forallb array_holds (arrayExprs qb).

(** ** Builders that lose nothing *)
(** The operator is known, the field is not an operator's name, and an equality
    does not compare with an operator document. *)
Definition plain_value (v : bval) : bool :=
  match v with BDoc m => negb (is_op_doc m) | BDocs _ => false | _ => true end.
Definition filter_ok (f : FilterExpr) : bool :=
  match mget (Operator f) mongoOpMap with Some _ => true | None => false end
  && negb (is_op (Field f)) && (negb (String.eqb (Operator f) OpEq) || plain_value (oid_value (Field f) (Value f))).

(** [g] added after [f] keeps [f]. *)
Definition compatible (f g : FilterExpr) : Prop :=
  Field f <> Field g \/ (Operator f <> OpEq /\ Operator g <> OpRegex /\ Operator f <> Operator g).

(** The field a [Not] claims. *)
Definition logical_field (l : LogicalExpr) : option string :=
  match l with mkLogical ty [f] [] => if String.eqb ty "not" then Some (Field f) else None | _ => None end.
Definition logical_type (l : LogicalExpr) : string := match l with mkLogical ty _ _ => ty end.

Fixpoint logical_ok (l : LogicalExpr) : bool :=
  match l with
  | mkLogical ty fs gs =>
      forallb filter_ok fs && forallb logical_ok gs &&
      (((String.eqb ty "and" || String.eqb ty "or") && (nonempty fs || nonempty gs))
       || match fs, gs with [f], [] => String.eqb ty "not" && negb (String.eqb (Operator f) OpEq) | _, _ => false end)
  end.

Definition array_ok (a : ArrayExpr) : bool :=
  existsb (String.eqb (a_Type a)) ["elemMatch"; "all"; "size"] && negb (is_op (a_Field a)).

(** Every field is claimed once, but for filters that merge; [Or] is used once. *)
Record admissible (qb : QueryBuilder) : Prop := mkAdmissible {
  ad_filters : forallb filter_ok (filters qb) = true;
  ad_pairs : ForallOrdPairs compatible (filters qb);
  ad_logicals : forallb logical_ok (logicals qb) = true;
  ad_or : (length (List.filter (fun l => String.eqb (logical_type l) "or") (logicals qb)) <= 1)%nat;
  ad_arrays : forallb array_ok (arrayExprs qb) = true;
  ad_fields : NoDup (omap logical_field (logicals qb) ++ map a_Field (arrayExprs qb))%list;
  ad_disjoint : forall f, f ∈ filters qb -> Field f ∉ (omap logical_field (logicals qb) ++ map a_Field (arrayExprs qb))%list
}.

(** ** Lookups and updates *)
Lemma mget_mset {A} k k' (v : A) m : mget k (mset k' v m) = if String.eqb k k' then Some v else mget k m.
Proof.
  induction m as [|[k0 v0] m IH]; cbn; [done|]. destruct (String.eqb_spec k' k0) as [->|Hne]; cbn.
  - by destruct (String.eqb k k0).
  - rewrite IH. destruct (String.eqb_spec k k0) as [->|]; [|done]. by destruct (String.eqb_spec k0 k') as [->|].
Qed.

Lemma mset_new {A} k (v : A) m : mget k m = None -> mset k v m = (m ++ [(k, v)])%list.
Proof. induction m as [|[k0 v0] m IH]; cbn; [done|]. destruct (String.eqb k k0); [done|]. intros H. by rewrite IH. Qed.

(** A property of all entries after one of them changes. *)
Lemma forallb_mset {A} (p : string * A -> bool) (b : bool) k v v0 m : mget k m = Some v0 ->
  (p (k, v) = p (k, v0) && b) -> forallb p (mset k v m) = forallb p m && b.
Proof.
  intros Hm Hp. induction m as [|[k0 v1] m IH]; [done|]. cbn in *. destruct (String.eqb_spec k k0) as [->|Hne]; cbn.
  - injection Hm as ->. rewrite Hp. by destruct (p (k0, v0)), b, (forallb p m).
  - rewrite IH by done. by rewrite andb_assoc.
Qed.

Lemma doc_matches_new k v m : mget k m = None -> doc_matches (mset k v m) = doc_matches m && entry_matches k v.
Proof. intros Hm. unfold doc_matches. rewrite mset_new by done. rewrite forallb_app. cbn. by rewrite andb_true_r. Qed.

Lemma doc_matches_update k v v0 b m : mget k m = Some v0 -> entry_matches k v = entry_matches k v0 && b ->
  doc_matches (mset k v m) = doc_matches m && b.
Proof. intros Hm Hv. unfold doc_matches. by apply (forallb_mset _ b k v v0). Qed.

(** ** Operators *)
Lemma mongoOp_cases op mop : mget op mongoOpMap = Some mop ->
  is_op mop = true /\ mop <> "$not" /\ mop <> "$options" /\ String.eqb mop "$regex" = String.eqb op OpRegex /\
  String.eqb mop "$eq" = String.eqb op OpEq.
Proof.
  unfold mongoOpMap. cbn. repeat (match goal with |- context [String.eqb op ?x] => destruct (String.eqb_spec op x) as [->|] end;
    [intros [= <-]; by repeat split|]). done.
Qed.

Lemma mongoOp_inj a b mop : mget a mongoOpMap = Some mop -> mget b mongoOpMap = Some mop -> a = b.
Proof.
  unfold mongoOpMap. cbn. repeat (match goal with |- context [String.eqb a ?x] => destruct (String.eqb_spec a x) as [->|] end;
    [intros [= <-]; cbn; repeat (match goal with |- context [String.eqb b ?x] => destruct (String.eqb_spec b x) as [->|]; [done|] end); done|]). done.
Qed.

Lemma op_entry_plain neg field o op mop v : mget op mongoOpMap = Some mop ->
  op_entry neg field o mop v = op_matches field mop v (if String.eqb op OpRegex then o else "").
Proof.
  intros Hm. destruct (mongoOp_cases _ _ Hm) as (_ & Hn & Ho & Hr & _). unfold op_entry. rewrite Hr.
  destruct (String.eqb_spec mop "$not"); [done|]. by destruct (String.eqb_spec mop "$options").
Qed.

Lemma entry_field k v : is_op k = false -> entry_matches k v = cond_matches k v.
Proof.
  intros Hk. destruct v; try done. cbn.
  destruct (String.eqb_spec k "$and") as [->|]; [done|]. by destruct (String.eqb_spec k "$or") as [->|].
Qed.

(** The value a filter puts on a field the document does not have yet. *)
Definition fresh_value (mop : string) (f : FilterExpr) : bval :=
  let v := oid_value (Field f) (Value f) in
  if String.eqb (Operator f) OpEq then v
  else if String.eqb (Operator f) OpRegex then
    BDoc (if String.eqb (Options f) "" then [("$regex", v)] else [("$regex", v); ("$options", BStr (Options f))])
  else BDoc [(mop, v)].

Lemma add_fresh f mop doc errs : mget (Operator f) mongoOpMap = Some mop -> mget (Field f) doc = None ->
  addFilterToDoc f doc errs = (mset (Field f) (fresh_value mop f) doc, errs).
Proof.
  intros Hm Hd. unfold addFilterToDoc, fresh_value. rewrite Hm, Hd.
  destruct (String.eqb (Operator f) OpEq); [done|]. by destruct (String.eqb (Operator f) OpRegex).
Qed.

(** Its operator document, unless it is an equality. *)
Lemma fresh_doc f mop : mget (Operator f) mongoOpMap = Some mop -> String.eqb (Operator f) OpEq = false ->
  exists m, fresh_value mop f = BDoc m /\ is_op_doc m = true /\
            forall op x, mget op m = Some x -> op = "$options" \/ op = mop.
Proof.
  intros Hm He. destruct (mongoOp_cases _ _ Hm) as (Hop & _ & _ & Hr & _). unfold fresh_value. rewrite He, <- Hr.
  destruct (String.eqb_spec mop "$regex") as [->|].
  - destruct (String.eqb (Options f) ""); eexists; (split; [reflexivity|]; split; [done|]); intros op x; cbn;
      destruct (String.eqb_spec op "$regex"); auto; destruct (String.eqb_spec op "$options"); auto; done.
  - eexists. split; [reflexivity|]. split; [unfold is_op_doc; cbn; by rewrite Hop|].
    intros op x. cbn. destruct (String.eqb_spec op mop); auto; done.
Qed.

Lemma fresh_holds f mop : mget (Operator f) mongoOpMap = Some mop -> filter_ok f = true ->
  entry_matches (Field f) (fresh_value mop f) = filter_holds f.
Proof.
  unfold filter_ok, filter_holds, fresh_value. intros Hm. rewrite Hm. cbn [andb]. rewrite andb_true_iff, negb_true_iff. intros [Hf Hv].
  rewrite entry_field by done. destruct (mongoOp_cases _ _ Hm) as (Hop & Hn & Ho & Hr & He).
  destruct (String.eqb_spec (Operator f) OpEq) as [E|E]; cbn [negb orb] in Hv.
  - rewrite E in *. injection Hm as <-. cbn. destruct (oid_value (Field f) (Value f)) as [| | | | | | |m| |]; try done.
    cbn in Hv |- *. apply negb_true_iff in Hv. by rewrite Hv.
  - destruct (String.eqb_spec (Operator f) OpRegex) as [E'|E'].
    + rewrite E' in *. injection Hm as <-.
      destruct (String.eqb_spec (Options f) "") as [->|]; by rewrite cond_matches_doc; cbn; rewrite ?andb_true_r.
    + rewrite cond_matches_doc by (unfold is_op_doc; cbn; by rewrite Hop). cbn. rewrite andb_true_r, (op_entry_plain _ _ _ _ _ _ Hm).
      by destruct (String.eqb_spec (Operator f) OpRegex).
Qed.

(** ** The filters *)
Open Scope list_scope.

(** The document holds the meaning of the filters [done], on their fields, and
    where none of them is an equality it holds their operators. *)
Record holds_filters (fs : list FilterExpr) (doc : M) : Prop := mkHolds {
  hf_match : doc_matches doc = forallb filter_holds fs;
  hf_field k v : mget k doc = Some v -> exists f, f ∈ fs /\ Field f = k;
  hf_value k v : mget k doc = Some v -> (forall f, f ∈ fs -> Field f = k -> Operator f <> OpEq) ->
    exists m, v = BDoc m /\ is_op_doc m = true /\
      forall op x, mget op m = Some x -> op = "$options" \/
        exists f, f ∈ fs /\ Field f = k /\ mget (Operator f) mongoOpMap = Some op
}.

Lemma add_fresh_holds fs doc f mop : holds_filters fs doc -> mget (Operator f) mongoOpMap = Some mop -> filter_ok f = true ->
  mget (Field f) doc = None -> holds_filters (fs ++ [f]) (mset (Field f) (fresh_value mop f) doc).
Proof.
  intros [H1 H2 H3] Hm Hf Hd. split.
  - rewrite doc_matches_new, H1, forallb_app by done. cbn. by rewrite (fresh_holds _ _ Hm Hf), andb_true_r.
  - intros k v. rewrite mget_mset. destruct (String.eqb_spec k (Field f)) as [->|]; [intros _; exists f; set_solver|].
    intros Hk. destruct (H2 _ _ Hk) as (g & ? & ?). exists g. set_solver.
  - intros k v. rewrite mget_mset. destruct (String.eqb_spec k (Field f)) as [->|].
    + intros [= <-] He. destruct (fresh_doc _ _ Hm) as (m & -> & Hop & Hk).
      { destruct (String.eqb_spec (Operator f) OpEq) as [E|]; [|done]. exfalso. apply (He f); set_solver. }
      exists m. split; [done|]. split; [done|]. intros op x Hx. destruct (Hk _ _ Hx) as [->| ->]; [by left|]. right. exists f. set_solver.
    + intros Hk He. destruct (H3 _ _ Hk) as (m & ? & ? & Hops); [intros g ? ?; apply He; set_solver|].
      exists m. split; [done|]. split; [done|]. intros op x Hx. destruct (Hops _ _ Hx) as [|(g & ? & ?)]; [by left|].
      right. exists g. set_solver.
Qed.

Lemma add_merged f mop doc errs m : mget (Operator f) mongoOpMap = Some mop -> mget (Field f) doc = Some (BDoc m) ->
  Operator f <> OpRegex ->
  addFilterToDoc f doc errs = (mset (Field f) (BDoc (mset mop (oid_value (Field f) (Value f)) m)) doc, errs).
Proof.
  intros Hm Hd Hr. unfold addFilterToDoc. rewrite Hm, Hd. destruct (String.eqb_spec (Operator f) OpEq) as [E|E].
  - rewrite E in Hm. by injection Hm as <-.
  - by destruct (String.eqb_spec (Operator f) OpRegex).
Qed.

Lemma is_op_doc_mset op v m : is_op op = true -> is_op_doc m = true -> mget op m = None -> is_op_doc (mset op v m) = true.
Proof.
  unfold is_op_doc. rewrite !andb_true_iff. intros Hop [Hn Hm] Hg. rewrite mset_new, forallb_app, Hm by done. cbn. rewrite Hop.
  by destruct m.
Qed.

Lemma merge_holds fs doc f mop m : holds_filters fs doc -> mget (Operator f) mongoOpMap = Some mop -> filter_ok f = true ->
  mget (Field f) doc = Some (BDoc m) -> is_op_doc m = true -> mget mop m = None -> Operator f <> OpRegex ->
  doc_matches (mset (Field f) (BDoc (mset mop (oid_value (Field f) (Value f)) m)) doc) = forallb filter_holds (fs ++ [f]).
Proof.
  intros H Hm Hf Hd Hop Hn Hr. destruct (mongoOp_cases _ _ Hm) as (Hmo & _ & Ho & _ & _).
  rewrite (doc_matches_update _ _ (BDoc m) (filter_holds f)); [by rewrite (hf_match _ _ H), forallb_app; cbn; rewrite andb_true_r | done|].
  unfold filter_ok in Hf. rewrite Hm in Hf. cbn [andb] in Hf. apply andb_true_iff in Hf as [Hf _]. apply negb_true_iff in Hf.
  rewrite !entry_field by done. rewrite mset_new by done. rewrite !cond_matches_doc; [|done|].
  - unfold ops_match. rewrite forallb_app. cbn. rewrite andb_true_r, (op_entry_plain _ _ _ _ _ _ Hm).
    assert (options_of (m ++ [(mop, oid_value (Field f) (Value f))]) = options_of m) as ->.
    { unfold options_of. rewrite <- mset_new by done. rewrite mget_mset. by destruct (String.eqb_spec "$options" mop) as [E|]. }
    f_equal. unfold filter_holds. rewrite Hm. by destruct (String.eqb_spec (Operator f) OpRegex).
  - rewrite <- mset_new by done. by apply is_op_doc_mset.
Qed.

Lemma add_filter_holds fs doc f errs : holds_filters fs doc -> filter_ok f = true -> Forall (fun g => compatible g f) fs ->
  exists doc', addFilterToDoc f doc errs = (doc', errs) /\ holds_filters (fs ++ [f]) doc'.
Proof.
  intros H Hf Hc. assert (exists mop, mget (Operator f) mongoOpMap = Some mop) as [mop Hm].
  { unfold filter_ok in Hf. destruct (mget (Operator f) mongoOpMap); [by eexists | done]. }
  destruct (mget (Field f) doc) as [v|] eqn:Hd.
  2: { eexists. split; [by apply add_fresh|]. by apply add_fresh_holds. }
  rewrite Forall_forall in Hc.
  assert (forall g, g ∈ fs -> Field g = Field f -> Operator g <> OpEq /\ Operator f <> OpRegex /\ Operator g <> Operator f) as Hg.
  { intros g Hin Hgf. destruct (Hc g Hin) as [?|?]; done. }
  destruct (hf_value _ _ H _ _ Hd) as (m & -> & Hop & Hops); [intros g ? ?; by apply Hg|].
  destruct (hf_field _ _ H _ _ Hd) as (g0 & Hg0 & Hg0f). destruct (Hg _ Hg0 Hg0f) as (_ & Hr & _).
  assert (mget mop m = None) as Hn.
  { destruct (mget mop m) as [x|] eqn:Hx; [|done]. exfalso. destruct (Hops _ _ Hx) as [->|(g & Hin & Hgf & Hgo)].
    - by destruct (mongoOp_cases _ _ Hm) as (_ & _ & ? & _).
    - apply (Hg g Hin Hgf). by apply (mongoOp_inj _ _ mop). }
  eexists. split; [by apply add_merged|]. split; [by apply merge_holds| |].
  - intros k v. rewrite mget_mset. destruct (String.eqb_spec k (Field f)) as [->|]; [intros _; exists f; set_solver|].
    intros Hk. destruct (hf_field _ _ H _ _ Hk) as (g & ? & ?). exists g. set_solver.
  - intros k v. rewrite mget_mset. destruct (String.eqb_spec k (Field f)) as [->|].
    + intros [= <-] _. eexists. split; [reflexivity|]. split; [by apply is_op_doc_mset; [apply (mongoOp_cases _ _ Hm)| |]|].
      intros op x. rewrite mget_mset. destruct (String.eqb_spec op mop) as [->|]; [intros _; right; exists f; set_solver|].
      intros Hx. destruct (Hops _ _ Hx) as [|(g & ? & ?)]; [by left|]. right. exists g. set_solver.
    + intros Hk He. destruct (hf_value _ _ H _ _ Hk) as (m' & ? & ? & Hops'); [intros g ? ?; apply He; set_solver|].
      exists m'. split; [done|]. split; [done|]. intros op x Hx. destruct (Hops' _ _ Hx) as [|(g & ? & ?)]; [by left|].
      right. exists g. set_solver.
Qed.

(** ** The logical expressions *)
Section LogicalInd.
Variable P : LogicalExpr -> Prop.
Hypothesis Hstep : forall ty fs gs, Forall P gs -> P (mkLogical ty fs gs).
Fixpoint logical_ind' (l : LogicalExpr) : P l :=
  match l with
  | mkLogical ty fs gs => Hstep ty fs gs
      ((fix go (gs : list LogicalExpr) : Forall P gs :=
          match gs with
          | [] => List.Forall_nil P
          | g :: gs' => List.Forall_cons P g gs' (logical_ind' g) (go gs')
          end) gs)
  end.
End LogicalInd.

Lemma filter_conditions_ok fs errs : forallb filter_ok fs = true ->
  exists ds, filter_conditions fs errs = (ds, errs) /\
    Forall2 (fun f d => doc_matches d = filter_holds f /\
                        exists mop, mget (Operator f) mongoOpMap = Some mop /\ d = [(Field f, fresh_value mop f)]) fs ds.
Proof.
  induction fs as [|f fs IH]; intros Hok; [by exists []|]. cbn in Hok. apply andb_true_iff in Hok as [Hf Hok].
  destruct (IH Hok) as (ds & Hds & HF).
  assert (exists mop, mget (Operator f) mongoOpMap = Some mop) as [mop Hm].
  { unfold filter_ok in Hf. destruct (mget (Operator f) mongoOpMap); [by eexists | done]. }
  exists ([(Field f, fresh_value mop f)] :: ds). cbn [filter_conditions]. rewrite (add_fresh _ _ _ _ Hm) by done. cbn [mset]. rewrite Hds.
  split; [done|]. constructor; [|done]. split; [|by exists mop].
  cbn. by rewrite andb_true_r, (fresh_holds _ _ Hm Hf).
Qed.

(** The key an expression writes. *)
Definition logical_key (l : LogicalExpr) : string :=
  match l with
  | mkLogical ty fs _ =>
      if String.eqb ty "and" then "$and" else if String.eqb ty "or" then "$or"
      else match fs with f :: _ => Field f | [] => "" end
  end.

(** [$and], if present, is a list the builder made. *)
Definition and_free (doc : M) : Prop :=
  mget "$and" doc = None \/ exists ms, mget "$and" doc = Some (BDocs (map Some ms)).

Definition logical_room (l : LogicalExpr) (doc : M) : Prop :=
  and_free doc /\ (logical_key l = "$and" \/ mget (logical_key l) doc = None).

Definition adds_logical (l : LogicalExpr) : Prop := logical_ok l = true -> forall doc errs, logical_room l doc ->
  exists doc', addLogicalToDoc l doc errs = Some (doc', errs) /\ doc_matches doc' = doc_matches doc && logical_holds l /\
    and_free doc' /\ forall k, k <> logical_key l -> mget k doc' = mget k doc.

Lemma append_and cs doc : and_free doc -> exists doc', append_conditions "$and" cs doc = Some doc' /\
  doc_matches doc' = doc_matches doc && forallb doc_matches cs /\ and_free doc' /\
  forall k, k <> "$and" -> mget k doc' = mget k doc.
Proof.
  unfold append_conditions. intros [H|(ms & H)]; rewrite H; eexists; (split; [reflexivity|]).
  - split; [by rewrite doc_matches_new, entry_matches_docs|]. split; [right; exists cs; by rewrite mget_mset|].
    intros k Hk. rewrite mget_mset. by destruct (String.eqb_spec k "$and").
  - rewrite <- map_app. split; [|split; [right; eexists; by rewrite mget_mset|]].
    + rewrite (doc_matches_update _ _ _ (forallb doc_matches cs) _ H); [done|]. rewrite !entry_matches_docs. cbn. apply forallb_app.
    + intros k Hk. rewrite mget_mset. by destruct (String.eqb_spec k "$and").
Qed.

Lemma mset_room k v doc b : mget k doc = None -> k <> "$and" -> and_free doc -> entry_matches k v = b ->
  doc_matches (mset k v doc) = doc_matches doc && b /\ and_free (mset k v doc) /\ forall k', k' <> k -> mget k' (mset k v doc) = mget k' doc.
Proof.
  intros Hk Hne Ha Hb. split; [by rewrite doc_matches_new, Hb|]. split.
  - unfold and_free. rewrite mget_mset. by destruct (String.eqb_spec "$and" k) as [<-|].
  - intros k' Hk'. rewrite mget_mset. by destruct (String.eqb_spec k' k).
Qed.

(** The documents of the groups. *)
Fixpoint group_docs (gs : list LogicalExpr) (errs : list string) : option (list M * list string) :=
  match gs with
  | [] => Some ([], errs)
  | g :: gs' =>
      match addLogicalToDoc g [] errs with
      | None => None
      | Some (d, errs) => match group_docs gs' errs with None => None | Some (ds, errs) => Some (d :: ds, errs) end
      end
  end.

Lemma addLogicalToDoc_eq ty fs gs doc errs :
  addLogicalToDoc (mkLogical ty fs gs) doc errs =
  let '(cs, errs) := filter_conditions fs errs in
  match group_docs gs errs with
  | None => None
  | Some (gcs, errs) => match add_conditions ty (cs ++ gcs) doc with None => None | Some doc => Some (doc, errs) end
  end.
Proof.
  cbn. destruct (filter_conditions fs errs) as [cs errs']. match goal with |- match ?f gs errs' with _ => _ end = _ => set (go := f) end.
  assert (forall gs errs, go gs errs = group_docs gs errs) as ->; [|done].
  clear. intros gs. induction gs as [|g gs IH]; intros errs; [done|]. cbn. destruct (addLogicalToDoc g [] errs) as [[d errs'']|]; [|done]. by rewrite IH.
Qed.

Lemma group_docs_ok gs errs : Forall adds_logical gs -> forallb logical_ok gs = true ->
  exists ds, group_docs gs errs = Some (ds, errs) /\ Forall2 (fun g d => doc_matches d = logical_holds g) gs ds.
Proof.
  induction 1 as [|g gs Hg _ IH]; intros Hok; [by exists []|]. cbn in Hok. apply andb_true_iff in Hok as [Ho Hok].
  destruct (IH Hok) as (ds & Hds & HF).
  destruct (Hg Ho [] errs) as (d & Hd & Hm & _); [by split; [left | right]|].
  exists (d :: ds). cbn. rewrite Hd, Hds. split; [done|]. by constructor.
Qed.

Lemma Forall2_forallb {A B} (p : A -> bool) (q : B -> bool) l k : Forall2 (fun a b => q b = p a) l k -> forallb q k = forallb p l.
Proof. induction 1; cbn; congruence. Qed.
Lemma Forall2_existsb {A B} (p : A -> bool) (q : B -> bool) l k : Forall2 (fun a b => q b = p a) l k -> existsb q k = existsb p l.
Proof. induction 1; cbn; congruence. Qed.

Lemma filter_ok_field f : filter_ok f = true -> is_op (Field f) = false.
Proof. unfold filter_ok. rewrite !andb_true_iff, negb_true_iff. tauto. Qed.

(** [Not] of an operator. *)
Lemma not_entry f mop : mget (Operator f) mongoOpMap = Some mop -> filter_ok f = true -> Operator f <> OpEq ->
  entry_matches (Field f) (BDoc [("$not", fresh_value mop f)]) = negb (filter_holds f).
Proof.
  intros Hm Hf He. pose proof (fresh_holds _ _ Hm Hf) as Hh. rewrite entry_field in * by (by apply filter_ok_field).
  rewrite cond_matches_doc by done. cbn. by rewrite Hh, andb_true_r.
Qed.

Lemma adds_all l : adds_logical l.
Proof.
  induction l as [ty fs gs IH] using logical_ind'. unfold adds_logical. intros Hok doc errs [Ha Hk].
  cbn [logical_ok] in Hok. rewrite !andb_true_iff in Hok. destruct Hok as [[Hfs Hgs] Hty].
  rewrite addLogicalToDoc_eq. destruct (filter_conditions_ok fs errs Hfs) as (cs & -> & Hcs).
  destruct (group_docs_ok gs errs IH Hgs) as (gcs & -> & Hgcs).
  assert (Forall2 (fun f d => doc_matches d = filter_holds f) fs cs) as Hcs' by (eapply Forall2_impl; [exact Hcs | by intros ? ? [? _]]).
  unfold add_conditions. cbn [logical_key logical_holds] in *.
  destruct (String.eqb_spec ty "and") as [->|Hand].
  { destruct (append_and (cs ++ gcs) doc Ha) as (doc' & -> & Hm & Ha' & Hfr). exists doc'. split; [done|]. split; [|done].
    by rewrite Hm, forallb_app, (Forall2_forallb _ _ _ _ Hcs'), (Forall2_forallb _ _ _ _ Hgcs). }
  destruct (String.eqb_spec ty "or") as [->|Hor].
  { destruct Hk as [|Hk]; [done|]. unfold append_conditions. rewrite Hk. eexists. split; [reflexivity|].
    apply mset_room; try done. rewrite entry_matches_docs. cbn.
    by rewrite existsb_app, (Forall2_existsb _ _ _ _ Hcs'), (Forall2_existsb _ _ _ _ Hgcs). }
  cbn [andb orb] in Hty.
  destruct fs as [|f [|? ?]]; try done. destruct gs; [|done]. apply andb_true_iff in Hty as [-> Hne].
  apply negb_true_iff, String.eqb_neq in Hne. apply Forall2_cons_inv_l in Hcs as (d & cs' & [_ (mop & Hm & ->)] & Hnil & ->).
  apply Forall2_nil_inv_l in Hnil as ->. cbn in Hfs. rewrite andb_true_r in Hfs. pose proof (filter_ok_field _ Hfs) as Hop.
  cbn. eexists. split; [reflexivity|]. rewrite !andb_true_r. apply mset_room; try done.
  - destruct Hk as [Hk|Hk]; [by rewrite Hk in Hop | done].
  - intros E. by rewrite E in Hop.
  - by apply not_entry.
Qed.

(** ** The whole filter *)
Lemma add_filters_ok fs errs : forallb filter_ok fs = true -> ForallOrdPairs compatible fs ->
  exists doc, add_filters fs ([], errs) = (doc, errs) /\ holds_filters fs doc.
Proof.
  revert errs. induction fs as [|f fs IH] using rev_ind; intros errs Hok Hp.
  - exists []. split; [done|]. by split.
  - rewrite forallb_app in Hok. apply andb_true_iff in Hok as [Hok Hf]. cbn in Hf. rewrite andb_true_r in Hf.
    assert (ForallOrdPairs compatible fs /\ Forall (fun g => compatible g f) fs) as [Hp1 Hp2].
    { clear -Hp. induction fs as [|g fs IH]; [by repeat constructor|]. inversion Hp as [|? ? H1 H2]; subst.
      destruct (IH H2) as [? ?]. apply Forall_app in H1 as [H1 H3]. split; constructor; auto. by inversion H3. }
    destruct (IH errs Hok Hp1) as (doc & Hd & Hh). unfold add_filters in *. rewrite foldl_app, Hd. cbn. by apply add_filter_holds.
Qed.

Lemma filters_keys fs doc k : holds_filters fs doc -> (forall f, f ∈ fs -> Field f <> k) -> mget k doc = None.
Proof.
  intros H Hk. destruct (mget k doc) as [v|] eqn:E; [|done]. destruct (hf_field _ _ H _ _ E) as (f & Hf & Hfk). by destruct (Hk f Hf).
Qed.

Definition or_count (ls : list LogicalExpr) : nat := length (List.filter (fun l => String.eqb (logical_type l) "or") ls).

(** What the logical expressions need of the document, and of each other. *)
Record logicals_room (ls : list LogicalExpr) (doc : M) : Prop := mkRoom {
  lr_and : and_free doc;
  lr_or : mget "$or" doc = None \/ or_count ls = 0;
  lr_count : or_count ls <= 1;
  lr_fields : NoDup (omap logical_field ls);
  lr_free : forall k, k ∈ omap logical_field ls -> mget k doc = None /\ is_op k = false
}.

Lemma logical_kind l : logical_ok l = true ->
  (logical_type l = "and"%string /\ logical_key l = "$and"%string /\ logical_field l = None) \/
  (logical_type l = "or"%string /\ logical_key l = "$or"%string /\ logical_field l = None) \/
  (logical_type l <> "or"%string /\ logical_field l = Some (logical_key l) /\ is_op (logical_key l) = false).
Proof.
  destruct l as [ty fs gs]. cbn [logical_ok logical_type logical_key logical_field]. rewrite !andb_true_iff. intros [[Hfs _] Hty].
  destruct (String.eqb_spec ty "and") as [->|]; [left; by destruct fs as [|? [|]], gs|].
  destruct (String.eqb_spec ty "or") as [->|]; [right; left; by destruct fs as [|? [|]], gs|]. right; right. cbn [andb orb] in Hty.
  destruct fs as [|f [|]]; try done. destruct gs; [|done]. apply andb_true_iff in Hty as [-> _].
  cbn in Hfs. rewrite andb_true_r in Hfs. by rewrite (filter_ok_field _ Hfs).
Qed.

Lemma add_logicals_ok ls doc errs : forallb logical_ok ls = true -> logicals_room ls doc ->
  exists doc', add_logicals ls (doc, errs) = Some (doc', errs) /\ doc_matches doc' = doc_matches doc && forallb logical_holds ls /\
    forall k, is_op k = false -> k ∉ omap logical_field ls -> mget k doc' = mget k doc.
Proof.
  revert doc. induction ls as [|l ls IH]; intros doc Hok [Ha Ho Hc Hn Hf].
  { exists doc. cbn. by rewrite andb_true_r. }
  cbn [forallb] in Hok. apply andb_true_iff in Hok as [Hl Hok]. unfold or_count in *. cbn in Ho, Hc, Hn, Hf.
  assert (logical_room l doc) as Hroom.
  { split; [done|]. destruct (logical_kind _ Hl) as [(_ & -> & _)|[(Ht & -> & _)|(_ & Hfl & _)]]; [by left|right|right].
    - destruct Ho as [|Ho]; [done|]. rewrite Ht in Ho. cbn in Ho. lia.
    - rewrite Hfl in Hf. apply Hf. set_solver. }
  destruct (adds_all l Hl doc errs Hroom) as (doc1 & Hadd & Hm & Ha1 & Hfr).
  destruct (IH doc1 Hok) as (doc2 & Hadd2 & Hm2 & Hfr2).
  { split; [done| | | |].
    - destruct (logical_kind _ Hl) as [(Ht & Hk & _)|[(Ht & Hk & _)|(Ht & _ & Hk)]].
      + rewrite Hfr by (by rewrite Hk). rewrite Ht in Ho. exact Ho.
      + right. unfold or_count. rewrite Ht in Hc. cbn in Hc. lia.
      + rewrite Hfr by (intros E; by rewrite <- E in Hk). rewrite (proj2 (String.eqb_neq _ _) Ht) in Ho. exact Ho.
    - unfold or_count. destruct (String.eqb (logical_type l) "or"); cbn in Hc; lia.
    - destruct (logical_field l); [by inversion Hn | done].
    - intros k Hk. destruct (Hf k) as [Hk1 Hk2]; [destruct (logical_field l); set_solver|]. split; [|done].
      rewrite Hfr; [done|]. intros ->.
      destruct (logical_kind _ Hl) as [(_ & E & _)|[(_ & E & _)|(_ & E & _)]]; [by rewrite E in Hk2 | by rewrite E in Hk2 |].
      rewrite E in Hn. by inversion Hn. }
  exists doc2. cbn [add_logicals fst snd forallb]. rewrite Hadd. split; [done|]. split; [by rewrite Hm2, Hm, andb_assoc|].
  intros k Hk Hnk. rewrite Hfr2; [apply Hfr | done |].
  - intros ->. destruct (logical_kind _ Hl) as [(_ & E & _)|[(_ & E & _)|(_ & E & _)]]; [by rewrite E in Hk | by rewrite E in Hk |].
    apply Hnk. cbn. rewrite E. set_solver.
  - intros Hin. apply Hnk. cbn. destruct (logical_field l); set_solver.
Qed.

Lemma add_arrays_ok als doc : forallb array_ok als = true -> NoDup (map a_Field als) ->
  (forall a, a ∈ als -> mget (a_Field a) doc = None) ->
  doc_matches (add_arrays als doc) = doc_matches doc && forallb array_holds als.
Proof.
  revert doc. induction als as [|a als IH]; intros doc Hok Hn Hd; [by rewrite andb_true_r|].
  cbn [forallb] in Hok. apply andb_true_iff in Hok as [Ha Hok]. apply NoDup_cons in Hn as [Hna Hn].
  assert (addArrayExprToDoc a doc = mset (a_Field a) (BDoc [(array_op (a_Type a), a_Value a)]) doc /\
          entry_matches (a_Field a) (BDoc [(array_op (a_Type a), a_Value a)]) = array_holds a) as [Hadd He].
  { unfold array_ok in Ha. apply andb_true_iff in Ha as [Ht Hop]. apply negb_true_iff in Hop. rewrite entry_field by done.
    unfold addArrayExprToDoc, array_holds, array_op. cbn [existsb] in Ht.
    destruct (String.eqb (a_Type a) "elemMatch"); [cbn; by rewrite andb_true_r|].
    destruct (String.eqb (a_Type a) "all"); [cbn; by rewrite andb_true_r|]. cbn in Ht.
    destruct (String.eqb (a_Type a) "size"); [|done]. cbn. by rewrite andb_true_r. }
  unfold add_arrays in *. cbn [foldl forallb]. rewrite Hadd, IH; [|done|done|].
  - rewrite doc_matches_new by (apply Hd; set_solver). by rewrite He, andb_assoc.
  - intros b Hb. rewrite mget_mset. destruct (String.eqb_spec (a_Field b) (a_Field a)) as [E|]; [|apply Hd; set_solver].
    exfalso. apply Hna. rewrite <- E. apply list_elem_of_fmap. by exists b.
Qed.

(** A builder whose filters do not overwrite each other builds the
    filter it describes: no error is added, nothing panics, and whatever the
    server answers for single operators, a document matches the built filter
    exactly if it satisfies every filter, every logical expression - nested
    groups included - and every array condition. *)
Theorem BuildFilter_meaning qb : admissible qb ->
  exists doc, BuildFilter qb = Some (doc, errors qb) /\ doc_matches doc = builder_holds qb.
Proof.
  intros [Hf Hp Hl Ho Ha Hn Hd]. destruct (add_filters_ok (filters qb) (errors qb) Hf Hp) as (doc1 & Hadd1 & Hh).
  assert (forall f, f ∈ filters qb -> is_op (Field f) = false) as Hfop.
  { intros f Hin. apply filter_ok_field. rewrite forallb_forall in Hf. apply Hf. by apply list_elem_of_In. }
  assert (forall k, is_op k = true -> mget k doc1 = None) as Hops.
  { intros k Hk. apply (filters_keys (filters qb)); [done|]. intros f Hin E. pose proof (Hfop _ Hin). congruence. }
  apply NoDup_app in Hn as (Hn1 & Hdis & Hn2).
  destruct (add_logicals_ok (logicals qb) doc1 (errors qb) Hl) as (doc2 & Hadd2 & Hm2 & Hfr).
  { split; [left; by apply Hops | left; by apply Hops | exact Ho | exact Hn1|]. intros k Hk. split.
    - apply (filters_keys (filters qb)); [done|]. intros f Hin <-. apply (Hd f Hin). set_solver.
    - apply list_elem_of_omap in Hk as (l & Hin & Hlf). rewrite forallb_forall in Hl.
      assert (logical_ok l = true) as Hlo by (apply Hl; by apply list_elem_of_In).
      destruct (logical_kind _ Hlo) as [(_ & _ & E)|[(_ & _ & E)|(_ & E & Hk)]]; congruence. }
  unfold BuildFilter. rewrite Hadd1, Hadd2. eexists. split; [reflexivity|].
  rewrite add_arrays_ok; [|done|done|].
  - unfold builder_holds. by rewrite Hm2, (hf_match _ _ Hh).
  - intros a Hin. rewrite forallb_forall in Ha. pose proof (Ha a (proj1 (list_elem_of_In _ _) Hin)) as Hop.
    unfold array_ok in Hop. apply andb_true_iff in Hop as [_ Hop]. apply negb_true_iff in Hop.
    assert (a_Field a ∈ map a_Field (arrayExprs qb)) as Hain by (apply list_elem_of_fmap; by exists a).
    rewrite Hfr; [|done|].
    + apply (filters_keys (filters qb)); [done|]. intros f Hfin E. apply (Hd f Hfin). rewrite E. set_solver.
    + intros Hk. by apply (Hdis (a_Field a)).
Qed.

(** What the merging loses.  An equality on a field is dropped when
    an operator other than [$regex] is added to the field after it, so the filter
    matches documents the equality excludes; and a second [Or] is merged into the
    list of the first: instead of the conjunction of the two disjunctions the
    filter means their disjunction. *)
Theorem builder_loses c field v op mop w fs gs :
  mget op mongoOpMap = Some mop -> op <> OpEq -> op <> OpRegex ->
  match oid_value field v with BDoc _ => False | _ => True end ->
  forallb filter_ok (fs ++ gs) = true ->
  BuildFilter (add_filter (mkFilter field op w "") (Where field v (NewQueryBuilder c))) =
    Some ([(field, BDoc [(mop, oid_value field w)])], []) /\
  exists doc, BuildFilter (Or gs (Or fs (NewQueryBuilder c))) = Some (doc, []) /\
              doc_matches doc = existsb filter_holds fs || existsb filter_holds gs.
Proof.
  intros Hm He Hr Hv Hok. split.
  - unfold BuildFilter. cbn [Where add_filter NewQueryBuilder filters logicals arrayExprs errors app add_filters foldl fst snd].
    unfold addFilterToDoc at 2. cbn [Operator Field Value]. change (mget OpEq mongoOpMap) with (Some "$eq"%string). cbn [String.eqb mget].
    change (String.eqb OpEq OpEq) with true. cbn iota. cbn [fst snd mset]. unfold addFilterToDoc. cbn [Operator Field Value].
    rewrite Hm, (proj2 (String.eqb_neq _ _) He), (proj2 (String.eqb_neq _ _) Hr). cbn [mget]. rewrite String.eqb_refl. cbn [mset].
    rewrite String.eqb_refl. by destruct (oid_value field v).
  - rewrite forallb_app in Hok. apply andb_true_iff in Hok as [Hfs Hgs]. unfold BuildFilter, Or, add_logical. cbn [filters NewQueryBuilder logicals app add_filters foldl add_logicals errors fst snd].
    rewrite !addLogicalToDoc_eq. destruct (filter_conditions_ok fs [] Hfs) as (ds & -> & Hds). cbn. rewrite app_nil_r.
    destruct (filter_conditions_ok gs [] Hgs) as (es & -> & Hes). cbn. rewrite app_nil_r. eexists. split; [reflexivity|].
    rewrite <- map_app. unfold doc_matches. cbn [forallb fst snd]. rewrite entry_matches_docs. cbn. rewrite andb_true_r, existsb_app.
    f_equal; apply Forall2_existsb; (eapply Forall2_impl; [eassumption | by intros ? ? [? _]]).
Qed.

End Meaning.
Open Scope list_scope.

(** ** The two ways from a query of the language to a pipeline *)
Definition parse_entry (result : M) (e : string * bval) : M :=
  if String.eqb e.1 "$and" || String.eqb e.1 "and" then
    match e.2 with
    | BArr arr => mset "$and" (BDocs (map (fun item => match item with BMap _ => Some (parse_map item) | _ => None end) arr)) result
    | _ => result
    end
  else if String.eqb e.1 "$or" || String.eqb e.1 "or" then
    match e.2 with
    | BArr arr => mset "$or" (BDocs (map (fun item => match item with BMap _ => Some (parse_map item) | _ => None end) arr)) result
    | _ => result
    end
  else if String.eqb e.1 "$not" || String.eqb e.1 "not" then
    match e.2 with BMap _ => negate_entries (parse_map e.2) result | _ => result end
  else match e.2 with
       | BMap opMap => if nonempty (field_conditions e.1 opMap) then mset e.1 (BDoc (field_conditions e.1 opMap)) result else result
       | _ => mset e.1 (oid_value e.1 e.2) result
       end.

Lemma parse_fold filter : ParseDSLFilter filter = foldl parse_entry [] filter.
Proof.
  unfold ParseDSLFilter, parseDSLFilterRecursive. cbn. generalize (@nil (string * bval)) at 1 2. induction filter as [|[k v] filter IH]; intros r; [done|].
  cbn. by rewrite IH.
Qed.

(** Keys once each, and no string left that reads as an object id. *)
Definition settled (m : M) : Prop := NoDup (map fst m) /\ Forall (fun e => oid_value e.1 e.2 = e.2) m.

Lemma mset_keys {A} k (v : A) m : map fst (mset k v m) = match mget k m with Some _ => map fst m | None => map fst m ++ [k] end.
Proof.
  induction m as [|[k0 v0] m IH]; cbn; [done|]. destruct (String.eqb k k0); cbn; [done|]. rewrite IH. by destruct (mget k m).
Qed.

Lemma mget_None {A} k (m : list (string * A)) : mget k m = None <-> k ∉ map fst m.
Proof.
  induction m as [|[k0 v0] m IH]; cbn; [by split; [set_solver|]|]. destruct (String.eqb_spec k k0) as [->|]; [split; [done | set_solver]|].
  rewrite IH. set_solver.
Qed.

Lemma settled_mset k v m : settled m -> oid_value k v = v -> settled (mset k v m).
Proof.
  intros [H1 H2] Hv. split.
  - rewrite mset_keys. destruct (mget k m) eqn:E; [done|]. apply mget_None in E. apply NoDup_app.
    split; [done|]. split; [|apply NoDup_singleton]. intros x Hx. rewrite list_elem_of_singleton. by intros ->.
  - clear H1. induction H2 as [|[k0 v0] m H0 Hm IH]; cbn; [by repeat constructor|]. destruct (String.eqb_spec k k0) as [->|];
      (apply List.Forall_cons; [done|done]).
Qed.

Lemma oid_value_idem field v : oid_value field (oid_value field v) = oid_value field v.
Proof.
  unfold oid_value. destruct (String.eqb field "_id"); [|done]. destruct v as [|s| | | | | | | |]; try done.
  destruct (ObjectIDFromHex s) eqn:E; [done|]. by rewrite E.
Qed.

Lemma oid_value_other field v : match v with BStr _ => False | _ => True end -> oid_value field v = v.
Proof. unfold oid_value. destruct (String.eqb field "_id"); [|done]. by destruct v. Qed.

Lemma settled_negate es r : settled r -> settled (negate_entries es r).
Proof. revert r. induction es as [|e es IH]; intros r Hr; [done|]. cbn. apply IH. apply settled_mset; [done|]. by apply oid_value_other. Qed.

Lemma settled_parse filter : settled (ParseDSLFilter filter).
Proof.
  rewrite parse_fold. assert (settled []) as H by (by split; constructor). revert H. generalize (@nil (string * bval)).
  induction filter as [|[k v] filter IH]; intros r Hr; [done|]. cbn [foldl]. apply IH. unfold parse_entry. cbn [fst snd].
  destruct (_ || _); [destruct v; try done; by apply settled_mset|]. destruct (_ || _); [destruct v; try done; by apply settled_mset|].
  destruct (_ || _); [destruct v; try done; by apply settled_negate|].
  destruct v as [| | | | | | | | |opMap]; try (apply settled_mset; [done | apply oid_value_idem]).
  destruct (nonempty (field_conditions k opMap)); [|done]. apply settled_mset; [done|]. by apply oid_value_other.
Qed.

Lemma add_settled m1 m2 errs : NoDup (map fst (m1 ++ m2)) -> Forall (fun e => oid_value e.1 e.2 = e.2) m2 ->
  add_filters (map (fun e => mkFilter e.1 OpEq e.2 "") m2) (m1, errs) = (m1 ++ m2, errs).
Proof.
  intros Hn Hf. revert m1 Hn. induction Hf as [|[k v] m2 Hv _ IH]; intros m1 Hn; [by rewrite app_nil_r|].
  assert (mget k m1 = None) as Hk.
  { apply mget_None. rewrite map_app in Hn. apply NoDup_app in Hn as (_ & Hd & _). intros Hin. apply (Hd _ Hin). cbn. set_solver. }
  unfold add_filters in *. cbn [map foldl fst snd]. cbn in Hv.
  assert (addFilterToDoc (mkFilter k OpEq v "") m1 errs = (m1 ++ [(k, v)], errs)) as ->.
  { unfold addFilterToDoc. cbn [Operator Field Value]. change (mget OpEq mongoOpMap) with (Some "$eq"%string).
    change (String.eqb OpEq OpEq) with true. cbn iota. by rewrite Hv, Hk, mset_new. }
  rewrite IH by (by rewrite <- app_assoc). by rewrite <- app_assoc.
Qed.

Lemma fold_add_filters l qb : foldl (fun qb f => add_filter f qb) qb l =
  mkBuilder (collection qb) (filters qb ++ l) (logicals qb) (sorts qb) (skip qb) (limit qb) (projection qb) (arrayExprs qb) (errors qb).
Proof. revert qb. induction l as [|f l IH]; intros qb; cbn; [rewrite app_nil_r; by destruct qb|]. rewrite IH. cbn. by rewrite <- app_assoc. Qed.

Lemma fold_dsl_filters mf qb : foldl (fun qb e => foldl (fun qb f => add_filter f qb) qb (dsl_filters e)) qb mf =
  foldl (fun qb f => add_filter f qb) qb (concat (map dsl_filters mf)).
Proof. revert qb. induction mf as [|e mf IH]; intros qb; [done|]. cbn. by rewrite IH, foldl_app. Qed.

Lemma fold_sorts l qb : foldl (fun qb e => Sort e.1 (dsl_direction e.2) qb) qb l =
  mkBuilder (collection qb) (filters qb) (logicals qb) (sorts qb ++ map (fun e => mkSort e.1 (dsl_direction e.2)) l)
    (skip qb) (limit qb) (projection qb) (arrayExprs qb) (errors qb).
Proof. revert qb. induction l as [|e l IH]; intros qb; cbn; [rewrite app_nil_r; by destruct qb|]. rewrite IH. cbn. by rewrite <- app_assoc. Qed.

Lemma BuildFromDSL_eq dsl : BuildFromDSL dsl =
  mkBuilder (d_Collection dsl) (match d_Filter dsl with Some f => concat (map dsl_filters (ParseDSLFilter f)) | None => [] end)
    [] (map (fun e => mkSort e.1 (dsl_direction e.2)) (default [] (d_Sort dsl))) (d_Skip dsl) (d_Limit dsl)
    (project_all 1 (d_Select dsl) []) [] [].
Proof.
  unfold BuildFromDSL. rewrite fold_sorts. destruct (d_Filter dsl) as [f|]; [rewrite fold_dsl_filters, fold_add_filters|];
    destruct (d_Limit dsl), (d_Skip dsl), (d_Select dsl); done.
Qed.

Lemma dsl_filters_plain mf : mget "$and" mf = None -> mget "$or" mf = None ->
  concat (map dsl_filters mf) = map (fun e => mkFilter e.1 OpEq e.2 "") mf.
Proof.
  induction mf as [|[k v] mf IH]; intros Ha Ho; [done|]. cbn [mget map concat] in *. unfold dsl_filters at 1. cbn [fst snd].
  rewrite (String.eqb_sym k "$and"), (String.eqb_sym k "$or").
  destruct (String.eqb "$and" k); [done|]. destruct (String.eqb "$or" k); [done|]. cbn [orb app]. by rewrite IH.
Qed.

Lemma BuildSort_dsl l : map (fun s => (s_Field s, direction_int (s_Direction s))) (map (fun e => mkSort e.1 (dsl_direction e.2)) l) =
  map (fun e : string * string => (e.1, direction_int (dsl_direction e.2))) l.
Proof. by rewrite map_map. Qed.

Lemma project_nonempty fields : nonempty (project_all 1 fields []) = nonempty fields.
Proof.
  destruct fields as [|f fields]; [done|]. cbn. unfold project_all. cbn. assert (nonempty [(f, BInt 1)] = true) as H by done. revert H.
  generalize [(f, BInt 1)]. induction fields as [|g fields IH]; intros m Hm; [done|]. cbn. apply IH.
  destruct m as [|[k v] m]; [done|]. cbn. by destruct (String.eqb g k).
Qed.

(** Without [and] and [or] at its top, a query of the language gives
    the same pipeline through [BuildFromDSL] and the builder as through
    [BuildPipelineFromDSL]: filter, sort order, positive skip and limit, and
    projection, whatever [not], operators and object ids the filter has. *)
Theorem dsl_pipelines_agree dsl :
  match d_Filter dsl with
  | Some f => mget "$and" (ParseDSLFilter f) = None /\ mget "$or" (ParseDSLFilter f) = None /\ (ParseDSLFilter f = [] -> f = [])
  | None => True
  end ->
  BuildPipeline (BuildFromDSL dsl) =
  Some (BuildPipelineFromDSL (d_Filter dsl) (d_Sort dsl) (d_Limit dsl) (d_Skip dsl) (d_Select dsl)).
Proof.
  intros H. rewrite BuildFromDSL_eq. unfold BuildPipeline, BuildFilter, BuildPipelineFromDSL, BuildSort.
  cbn [filters logicals sorts skip limit projection arrayExprs errors add_logicals add_arrays foldl].
  rewrite project_nonempty, BuildSort_dsl.
  assert (forall x : M * list string, (let '(doc, errs) := x in Some (doc, errs)) = Some x) as Hpair by (by intros []).
  destruct (d_Filter dsl) as [f|].
  - destruct H as (Ha & Ho & Hne). rewrite dsl_filters_plain, add_settled; [| | |done|done]; [|apply settled_parse|apply settled_parse].
    cbn [app]. assert (nonempty (ParseDSLFilter f) = nonempty f) as ->.
    { destruct f as [|e f]; [done|]. destruct (ParseDSLFilter (e :: f)) eqn:E; [|done]. discriminate (Hne eq_refl). }
    destruct (d_Sort dsl) as [l|]; cbn [default]; [by destruct l|done].
  - cbn. destruct (d_Sort dsl) as [l|]; cbn; [by destruct l|done].
Qed.

(** [BuildFromDSL] turns a disjunction into a conjunction: for
    [{or: [{a: x}, {b: y}]}] the parsed filter is the [$or] of the two
    conditions, but the builder's filter is the document with both. *)
Theorem BuildFromDSL_flattens_or dsl a b x y :
  a <> b -> Forall (fun k => k ∉ ["$and"; "and"; "$or"; "or"; "$not"; "not"]%string) [a; b] ->
  d_Filter dsl = Some [("or"%string, BArr [BMap [(a, BStr x)]; BMap [(b, BStr y)]])] ->
  (exists f, d_Filter dsl = Some f /\
    ParseDSLFilter f = [("$or"%string, BDocs [Some [(a, oid_value a (BStr x))]; Some [(b, oid_value b (BStr y))]])]) /\
  BuildFilter (BuildFromDSL dsl) = Some ([(a, oid_value a (BStr x)); (b, oid_value b (BStr y))], []).
Proof.
  intros Hab Hw Hd. assert (forall k v, k ∈ [a; b] -> parse_map (BMap [(k, BStr v)]) = [(k, oid_value k (BStr v))]) as Hp.
  { intros k v Hk. rewrite Forall_forall in Hw. specialize (Hw k Hk). cbn.
    repeat match goal with |- context [String.eqb k ?w] => rewrite (proj2 (String.eqb_neq k w)) by (intros ->; apply Hw; set_solver) end. done. }
  assert (ParseDSLFilter [("or"%string, BArr [BMap [(a, BStr x)]; BMap [(b, BStr y)]])] =
          [("$or"%string, BDocs [Some [(a, oid_value a (BStr x))]; Some [(b, oid_value b (BStr y))]])]) as Hparse.
  { rewrite parse_fold. cbn [foldl]. unfold parse_entry. cbn [fst snd].
    change (String.eqb "or" "$and" || String.eqb "or" "and") with false. change (String.eqb "or" "$or" || String.eqb "or" "or") with true.
    cbn [map]. rewrite !Hp by set_solver. done. }
  split; [by eexists|]. rewrite BuildFromDSL_eq, Hd. rewrite Hparse. unfold BuildFilter. cbn [filters logicals arrayExprs errors add_logicals add_arrays foldl].
  cbn [map concat dsl_filters fst snd String.eqb orb]. cbn -[add_filters oid_value].
  rewrite (add_settled [] [(a, oid_value a (BStr x)); (b, oid_value b (BStr y))]); [done| |].
  - cbn. apply NoDup_cons. split; [set_solver | apply NoDup_singleton].
  - repeat (apply List.Forall_cons; [apply oid_value_idem|]). constructor.
Qed.

End MongoQuery.

(** ** Concrete builders *)
Section Examples.
Let hex (s : string) : option nat := if Nat.eqb (String.length s) 24 then Some 0 else None.
(** The answers of a server for the document [{age: 30, name: "bob"}]. *)
Let answers (field op : string) (v : bval nat unit) (o : string) : bool :=
  match v with
  | BInt _ _ z => String.eqb field "age" && (if String.eqb op "$gt" then (z <? 30)%Z else if String.eqb op "$lt" then (30 <? z)%Z else (z =? 30)%Z)
  | BStr _ _ s => String.eqb field "name" && (if String.eqb op "$ne" then negb (String.eqb s "bob") else String.eqb s "bob")
  | _ => false
  end.
Let adults : QueryBuilder nat unit :=
  Or _ _ [mkFilter _ _ "name" OpEq (BStr _ _ "eve") ""; mkFilter _ _ "name" OpEq (BStr _ _ "bob") ""]
    (Lt_ _ _ "age" (BInt _ _ 65) (Gt_ _ _ "age" (BInt _ _ 18) (NewQueryBuilder _ _ "users"))).

Lemma BuildFilter_meaning_witness : exists doc,
  BuildFilter _ _ hex adults = Some (doc, []) /\ doc_matches _ _ answers doc = true.
Proof.
  destruct (BuildFilter_meaning nat unit hex answers adults) as (doc & Hb & Hm).
  - split; try reflexivity.
    + apply FOP_cons; [apply List.Forall_cons; [right; repeat split; discriminate | constructor] | repeat constructor].
    + constructor.
    + cbn. intros f _ Hf. by apply not_elem_of_nil in Hf.
  - exists doc. split; [exact Hb|]. rewrite Hm. reflexivity.
Defined.

Lemma builder_loses_witness : exists doc,
  BuildFilter _ _ hex (Or _ _ [mkFilter _ _ "a" OpEq (BInt _ _ 1) ""] (Or _ _ [mkFilter _ _ "b" OpEq (BInt _ _ 2) ""] (NewQueryBuilder _ _ "c"))) = Some (doc, []) /\
  doc_matches _ _ answers doc = false.
Proof.
  destruct (builder_loses nat unit hex answers "c" "a" (BInt _ _ 1) OpGt "$gt" (BInt _ _ 0)
    [mkFilter _ _ "b" OpEq (BInt _ _ 2) ""] [mkFilter _ _ "a" OpEq (BInt _ _ 1) ""]) as (_ & doc & Hb & Hm);
    [reflexivity | discriminate | discriminate | exact I | reflexivity |].
  exists doc. split; [exact Hb|]. rewrite Hm. reflexivity.
Defined.

Let dsl (filter : list (string * bval nat unit)) : DSLQuery nat unit :=
  mkDSL _ _ "q" "users" (Some filter) (Some [("age"%string, "desc"%string)]) (Some 10%Z) None ["name"%string].

Lemma dsl_pipelines_agree_witness :
  let q := dsl [("age"%string, BMap _ _ [("gte"%string, BInt _ _ 18)]); ("not"%string, BMap _ _ [("name"%string, BStr _ _ "eve")])] in
  BuildPipeline _ _ hex (BuildFromDSL _ _ hex q) =
  Some (BuildPipelineFromDSL _ _ hex (d_Filter _ _ q) (d_Sort _ _ q) (d_Limit _ _ q) (d_Skip _ _ q) (d_Select _ _ q)).
Proof. intros q. apply dsl_pipelines_agree. repeat split; try reflexivity. discriminate. Defined.

Lemma BuildFromDSL_flattens_or_witness :
  let q := dsl [("or"%string, BArr _ _ [BMap _ _ [("name"%string, BStr _ _ "eve")]; BMap _ _ [("role"%string, BStr _ _ "admin")]])] in
  BuildFilter _ _ hex (BuildFromDSL _ _ hex q) = Some ([("name"%string, BStr _ _ "eve"); ("role"%string, BStr _ _ "admin")], []).
Proof.
  intros q. apply (BuildFromDSL_flattens_or nat unit hex q "name" "role" "eve" "admin"); [discriminate | | reflexivity].
  repeat constructor; set_solver.
Defined.
End Examples.
