(* ===== verification/Pagination.v ===== *)
(** Pagination: [internal/pagination] (requests, HTTP parameters, filters and
    the paginator that runs offset and cursor queries).

    The query parameters of a request are the map [url.Values]; a Go map is
    the list of its entries in the order [range] visits them.  Cursors are JSON
    in base64: [encoding/json] on values of any type and the executor (the SQL
    compiler and the database behind it) are parameters, base64 is modelled. *)

From Stdlib Require Import ZArith Lia Ascii Sorting.Sorted.
From stdpp Require Import base strings list sets.
From S2P Require Import Prelude GoStrings QueryAst.

#[local] Open Scope string_scope.

(** ** Requests *)
Inductive PaginationType := PaginationNone | PaginationOffset | PaginationCursor.
#[export] Instance PaginationType_eq_dec : EqDecision PaginationType.
Proof. solve_decision. Defined.

Definition DefaultLimit : Z := 20.
Definition MaxLimit : Z := 100.
Definition MinLimit : Z := 1.

Record PageRequest := mkRequest {
  p_Type : PaginationType;
  p_Page : Z;
  p_Limit : Z;
  p_Cursor : string;
  p_After : string;
  p_Before : string
}.

Definition DefaultPageRequest : PageRequest := mkRequest PaginationOffset 1 DefaultLimit "" "" "".

Definition with_page (n : Z) (r : PageRequest) := mkRequest (p_Type r) n (p_Limit r) (p_Cursor r) (p_After r) (p_Before r).
Definition with_limit (n : Z) (r : PageRequest) := mkRequest (p_Type r) (p_Page r) n (p_Cursor r) (p_After r) (p_Before r).
Definition with_cursor (s : string) (r : PageRequest) := mkRequest PaginationCursor (p_Page r) (p_Limit r) s (p_After r) (p_Before r).
Definition with_after (s : string) (r : PageRequest) := mkRequest PaginationCursor (p_Page r) (p_Limit r) (p_Cursor r) s (p_Before r).
Definition with_before (s : string) (r : PageRequest) := mkRequest PaginationCursor (p_Page r) (p_Limit r) (p_Cursor r) (p_After r) s.

Definition PageRequest_Validate (r : PageRequest) : PageRequest :=
  let r := if (p_Limit r <? MinLimit)%Z then with_limit DefaultLimit r else r in
  let r := if (MaxLimit <? p_Limit r)%Z then with_limit MaxLimit r else r in
  if (p_Page r <? 1)%Z then with_page 1 r else r.

(** [(pr.Page - 1) * pr.Limit] on 64-bit integers. *)
Definition GetOffset (r : PageRequest) : Z := wrap64 (wrap64 (p_Page r - 1) * p_Limit r).

Definition GetCursor (r : PageRequest) : string := if String.eqb (p_Cursor r) "" then p_After r else p_Cursor r.

Definition IsCursorPagination (r : PageRequest) : bool :=
  bool_decide (p_Type r = PaginationCursor) || negb (String.eqb (p_Cursor r) "")
  || negb (String.eqb (p_After r) "") || negb (String.eqb (p_Before r) "").

(** ** HTTP parameters *)
Abbreviation Params := (list (string * list string)).

(** [url.Values.Get]. *)
Definition Get (k : string) (q : Params) : string :=
  match assoc k q with Some (v :: _) => v | _ => "" end.

(** [if s != "" { if n, err := strconv.Atoi(s); err == nil && ok n { ... } }] *)
Definition when_number (s : string) (ok : Z -> bool) (set : Z -> PageRequest -> PageRequest) (r : PageRequest) : PageRequest :=
  if String.eqb s "" then r
  else match ParseInt s with
       | Ok n => if ok n then set n r else r
       | Err _ => r
       end.
Definition when_given (s : string) (set : string -> PageRequest -> PageRequest) (r : PageRequest) : PageRequest :=
  if String.eqb s "" then r else set s r.

Definition limit_ok (l : Z) : bool := ((MinLimit <=? l) && (l <=? MaxLimit))%Z.

Definition ParsePageRequest (q : Params) : PageRequest :=
  let req := DefaultPageRequest in
  let req := when_number (Get "page" q) (fun p => 0 <? p)%Z with_page req in
  let req := when_number (Get "limit" q) limit_ok with_limit req in
  let req := if String.eqb (Get "limit" q) "" then when_number (Get "per_page" q) limit_ok with_limit req else req in
  let req := when_number (Get "offset" q) (fun o => 0 <=? o)%Z
               (fun o req => with_page (wrap64 (Z.quot o (p_Limit req) + 1)) req) req in
  let req := when_given (Get "cursor" q) with_cursor req in
  let req := when_given (Get "after" q) with_after req in
  let req := when_given (Get "before" q) with_before req in
  PageRequest_Validate req.

(** [strings.Index] of one byte, as the text before it and after it. *)
Fixpoint cut_at (c : ascii) (s : string) : option (string * string) :=
  match s with
  | EmptyString => None
  | String d s' => if Ascii.eqb d c then Some ("", s')
                   else match cut_at c s' with Some (a, b) => Some (String d a, b) | None => None end
  end.

(** [key[field] = op] is [field[op]]; [Index] of the closing bracket is taken in
    the whole key, so one before the opening bracket counts as missing. *)
Fixpoint TrimSuffix1 (c : ascii) (s : string) : string :=
  match s with
  | EmptyString => ""
  | String d EmptyString => if Ascii.eqb d c then "" else s
  | String d s' => String d (TrimSuffix1 c s')
  end.

Definition ParseFilterKey (key : string) : string * string :=
  match cut_at "[" key with
  | None => (key, "eq")
  | Some (field, rest) =>
      if str_contains "]" field then (field, TrimSuffix1 "]" rest)
      else match cut_at "]" rest with
           | Some (op, _) => (field, op)
           | None => (field, TrimSuffix1 "]" rest)
           end
  end.

Definition elem (s : string) (l : list string) : bool := existsb (String.eqb s) l.

Definition ParseFilters (q : Params) (allowed : list string) : list (string * string) :=
  omap (fun e => match e.2 with
                 | [] => None
                 | v :: _ => if elem (ParseFilterKey e.1).1 allowed then Some (e.1, v) else None
                 end) q.

Record SortField := mkSortField { sf_Field : string; sf_Desc : bool }.

(** [strings.LastIndex] of one byte. *)
Fixpoint cut_last (c : ascii) (s : string) : option (string * string) :=
  match s with
  | EmptyString => None
  | String d s' => match cut_last c s' with
                   | Some (a, b) => Some (String d a, b)
                   | None => if Ascii.eqb d c then Some ("", s') else None
                   end
  end.

Definition parseSortField (s : string) : SortField :=
  match s with
  | String "-" s' => mkSortField s' true
  | String "+" s' => mkSortField s' false
  | _ => match cut_last ":" s with
         | Some (field, dir) => mkSortField field (String.eqb (ToLower dir) "desc")
         | None => mkSortField s false
         end
  end.

(** [unicode.IsSpace]. *)
Definition IsSpace (r : Z) : bool :=
  (((9 <=? r) && (r <=? 13)) || (r =? 32) || (r =? 133) || (r =? 160) || (r =? 5760) || ((8192 <=? r) && (r <=? 8202))
   || (r =? 8232) || (r =? 8233) || (r =? 8239) || (r =? 8287) || (r =? 12288))%Z.

(** [strings.TrimSpace]: the text from the first rune that is no space to the
    end of the last one. *)
Definition TrimSpace (s : string) : string :=
  let runes := range_runes s in
  match List.filter (fun p => negb (IsSpace p.2)) runes with
  | [] => ""
  | p :: ps =>
      let last := List.last (p :: ps) p in
      let stop := match List.filter (fun q => Nat.ltb last.1 q.1) runes with q :: _ => q.1 | [] => String.length s end in
      String.substring p.1 (stop - p.1) s
  end.

Definition ParseSort (q : Params) (allowed : list string) : list SortField :=
  let sortParam := Get "sort" q in
  let sortParam := if String.eqb sortParam "" then Get "order_by" q else sortParam in
  if String.eqb sortParam "" then []
  else omap (fun part => let part := TrimSpace part in
                         if String.eqb part "" then None
                         else let sf := parseSortField part in
                              if elem (sf_Field sf) allowed then Some sf else None) (Split "," sortParam).

Definition ParseQueryParams (q : Params) (allowedFilters allowedSorts : list string) :=
  (ParsePageRequest q, ParseFilters q allowedFilters, ParseSort q allowedSorts).

(** ** Filters *)
(** The dynamic types of a filter parameter. *)
Inductive Param := PStr (s : string) | PBool (b : bool) | POther (v : Value).
Definition param_value (p : Param) : Value := match p with PStr s => VStr s | PBool b => VBool b | POther v => v end.

Record FilterDef := mkDef { fd_Field : string; AllowedOps : list string }.
Abbreviation FilterBuilder := (list (string * FilterDef)).

Definition SupportedOperators : list string :=
  ["eq"; "ne"; "gt"; "gte"; "lt"; "lte"; "contains"; "in"; "startswith"; "endswith"; "isnull"].

Definition NewFilterBuilder : FilterBuilder := [].

Fixpoint set_assoc {A} (k : string) (v : A) (m : list (string * A)) : list (string * A) :=
  match m with
  | [] => [(k, v)]
  | (k', v') :: m' => if String.eqb k k' then (k, v) :: m' else (k', v') :: set_assoc k v m'
  end.

Definition Allow (field : string) (ops : list string) (b : FilterBuilder) : FilterBuilder :=
  set_assoc field (mkDef field (match ops with [] => SupportedOperators | _ => ops end)) b.
Definition AllowAll (fields : list string) (b : FilterBuilder) : FilterBuilder :=
  foldl (fun b field => Allow field [] b) b fields.

(** [strings.EqualFold]: letters of ASCII fold by case, and the Kelvin sign and
    the long s fold to [k] and [s]; other letters stand for themselves. *)
Fixpoint fold_case (s : string) : string :=
  match s with
  | String a ((String b ((String c s') as t')) as t) =>
      if (byte a =? 226)%Z && (byte b =? 132)%Z && (byte c =? 170)%Z then String "k" (fold_case s')
      else if (byte a =? 197)%Z && (byte b =? 191)%Z then String "s" (fold_case t')
      else String (lower a) (fold_case t)
  | String a ((String b s') as t) =>
      if (byte a =? 197)%Z && (byte b =? 191)%Z then String "s" (fold_case s') else String (lower a) (fold_case t)
  | String a t => String (lower a) (fold_case t)
  | EmptyString => ""
  end.
Definition EqualFold (s t : string) : bool := String.eqb (fold_case s) (fold_case t).

Definition contains (slice : list string) (item : string) : bool := existsb (fun s => EqualFold s item) slice.

Inductive FilterError := OperatorNotAllowed (op field : string) | UnknownOperator (op : string).

Definition cond (field : string) (op : CompareOp) (v : Value) : Condition := mkCond field op v false None None.

Definition BuildCondition (field op : string) (value : Param) : result FilterError Condition :=
  let v := param_value value in
  let one_of := String.eqb (ToLower op) in
  if one_of "eq" then Ok (cond field OpEquals v)
  else if one_of "ne" then Ok (cond field OpNotEquals v)
  else if one_of "gt" then Ok (cond field OpGreaterThan v)
  else if one_of "gte" then Ok (cond field OpGreaterThanOrEqual v)
  else if one_of "lt" then Ok (cond field OpLessThan v)
  else if one_of "lte" then Ok (cond field OpLessThanOrEqual v)
  else if one_of "contains" then Ok (cond field OpContains v)
  else if one_of "in" then
    Ok (cond field OpIn (match value with PStr s => VList (map (fun p => VStr (TrimSpace p)) (Split "," s)) | _ => v end))
  else if one_of "startswith" then Ok (cond field OpStartsWith v)
  else if one_of "endswith" then Ok (cond field OpEndsWith v)
  else if one_of "isnull" then
    Ok (cond field (match value with
                    | PBool b => if b then OpIsNull else OpIsNotNull
                    | PStr s => if String.eqb s "true" || String.eqb s "1" then OpIsNull else OpIsNotNull
                    | POther _ => OpIsNull
                    end) VNil)
  else Err (UnknownOperator op).

(** The loop of [Build], with the conditions so far. *)
Fixpoint build_loop (b : FilterBuilder) (params : list (string * Param)) (conds : list Condition) : result FilterError (list Condition) :=
  match params with
  | [] => Ok conds
  | (key, value) :: params' =>
      let '(field, op) := ParseFilterKey key in
      match assoc field b with
      | None => build_loop b params' conds
      | Some def =>
          if contains (AllowedOps def) op then
            match BuildCondition field op value with
            | Ok c => build_loop b params' (conds ++ [c])%list
            | Err e => Err e
            end
          else Err (OperatorNotAllowed op field)
      end
  end.

Definition Build (b : FilterBuilder) (params : list (string * Param)) : result FilterError (option WhereClause) :=
  match build_loop b params [] with
  | Err e => Err e
  | Ok [] => Ok None
  | Ok conds => Ok (Some (mkWhere conds LogicalAnd []))
  end.

Definition MergeWhereClauses (clauses : list (option WhereClause)) : option WhereClause :=
  match concat (map (fun w => match w with Some w => w_Conditions w | None => [] end) clauses) with
  | [] => None
  | conds => Some (mkWhere conds LogicalAnd [])
  end.

(** ** The paginator *)
Record Cursor := mkCursor { ID : string; cu_Field : string; cu_Value : Value; Direction : string }.

Definition Row : Type := list (string * Value).

Record PageInfo := mkInfo {
  Total : option Z;
  i_Page : option Z;
  i_Limit : Z;
  HasNext : bool;
  HasPrevious : bool;
  NextCursor : string;
  PrevCursor : string
}.
Record PageResponse := mkResponse { r_Data : list Row; r_Pagination : PageInfo }.

Inductive PageError (E : Type) :=
| QueryFailed (e : E) | CountFailed (e : E) | InvalidCursor | InvalidBeforeCursor.
Arguments QueryFailed {E} _.
Arguments CountFailed {E} _.
Arguments InvalidCursor {E}.
Arguments InvalidBeforeCursor {E}.

Record Paginator := mkPaginator { entity : string; baseQuery : Query; includeTotal : bool }.

Definition NewPaginator (e : string) : Paginator := mkPaginator e (set_Entity e (empty_query QuerySelect)) true.
Definition WithWhere (w : option WhereClause) (p : Paginator) := mkPaginator (entity p) (set_Where w (baseQuery p)) (includeTotal p).
Definition WithOrderBy (o : list OrderClause) (p : Paginator) := mkPaginator (entity p) (set_OrderBy o (baseQuery p)) (includeTotal p).
Definition WithInclude (i : list string) (p : Paginator) := mkPaginator (entity p) (set_Include i (baseQuery p)) (includeTotal p).
Definition WithFields (f : list string) (p : Paginator) := mkPaginator (entity p) (set_Fields f (baseQuery p)) (includeTotal p).
Definition WithTotal (b : bool) (p : Paginator) := mkPaginator (entity p) (baseQuery p) b.

(** A new clause with the operator and the conditions, without the groups. *)
Definition appendCondition (w : option WhereClause) (c : Condition) : WhereClause :=
  match w with
  | None => mkWhere [c] LogicalAnd []
  | Some w => mkWhere (w_Conditions w ++ [c])%list (w_Operator w) []
  end.

Definition is_desc (o : list OrderClause) : bool :=
  match o with c :: _ => match o_Direction c with OrderDesc => true | OrderAsc => false end | [] => false end.
Definition order_field (o : list OrderClause) : string := match o with c :: _ => o_Field c | [] => "id" end.

Definition buildCursorCondition (c : Cursor) (o : list OrderClause) (before : bool) : Condition :=
  let field := if String.eqb (cu_Field c) "" then order_field o else cu_Field c in
  cond field (if before then if is_desc o then OpGreaterThan else OpLessThan
              else if is_desc o then OpLessThan else OpGreaterThan) (cu_Value c).

Section Paginator.
Variable E : Type.
(** The executor; [fmt.Sprintf("%v", id)]; [json.Marshal] and [Unmarshal] of a
    cursor and the base64 around them. *)
Variable Execute : Query -> result E (list Row).
Variable ExecuteCount : Query -> result E Z.
Variable Sprint : Value -> string.
Variable EncodeCursor : Cursor -> string.
Variable decode_cursor : string -> option Cursor.

Definition DecodeCursor (s : string) : option Cursor := if String.eqb s "" then None else decode_cursor s.

Definition getTotal (p : Paginator) : result E Z :=
  ExecuteCount (set_Where (q_Where (baseQuery p)) (set_Entity (entity p) (empty_query QueryCount))).

(** [len(results) > limit], and [results[:limit]] if so. *)
Definition has_more (limit : Z) (results : list Row) : bool := (limit <? Z.of_nat (length results))%Z.
Definition trim (limit : Z) (results : list Row) : list Row :=
  if has_more limit results then take (Z.to_nat limit) results else results.

Definition executeOffset (p : Paginator) (req : PageRequest) : result (PageError E) PageResponse :=
  let q := set_Limit (p_Limit req + 1) (set_Offset (GetOffset req) (baseQuery p)) in
  match Execute q with
  | Err e => Err (QueryFailed e)
  | Ok results =>
      let hasNext := has_more (p_Limit req) results in
      let info total := mkInfo total (Some (p_Page req)) (p_Limit req) hasNext (1 <? p_Page req)%Z "" "" in
      if includeTotal p then
        match getTotal p with
        | Err e => Err (CountFailed e)
        | Ok total => Ok (mkResponse (trim (p_Limit req) results) (info (Some total)))
        end
      else Ok (mkResponse (trim (p_Limit req) results) (info None))
  end.

Definition buildCursor (row : Row) (o : list OrderClause) : string :=
  EncodeCursor (mkCursor (match assoc "id" row with Some v => Sprint v | None => "" end) (order_field o)
                  (default VNil (assoc (order_field o) row)) "").

Definition executeCursor (p : Paginator) (req : PageRequest) : result (PageError E) PageResponse :=
  let q := baseQuery p in
  let q := match q_OrderBy q with [] => set_OrderBy [mkOrder "id" OrderAsc] q | _ => q end in
  let cursor := GetCursor req in
  let add (s : string) (before : bool) (err : PageError E) (q : Query) : result (PageError E) Query :=
    if String.eqb s "" then Ok q
    else match DecodeCursor s with
         | None => Err err
         | Some c => Ok (set_Where (Some (appendCondition (q_Where q) (buildCursorCondition c (q_OrderBy q) before))) q)
         end in
  match add cursor false InvalidCursor q with
  | Err e => Err e
  | Ok q =>
      match add (p_Before req) true InvalidBeforeCursor q with
      | Err e => Err e
      | Ok q =>
          match Execute (set_Limit (p_Limit req + 1) q) with
          | Err e => Err (QueryFailed e)
          | Ok results =>
              let hasNext := has_more (p_Limit req) results in
              let results := trim (p_Limit req) results in
              let nextCursor := match last results with
                                | Some row => if hasNext then buildCursor row (q_OrderBy q) else ""
                                | None => ""
                                end in
              let prevCursor := match results with
                                | row :: _ => if String.eqb cursor "" then "" else buildCursor row (q_OrderBy q)
                                | [] => ""
                                end in
              Ok (mkResponse results (mkInfo None None (p_Limit req) hasNext (negb (String.eqb cursor "")) nextCursor prevCursor))
          end
      end
  end.

(** [Paginator.Execute]. *)
Definition Paginate (p : Paginator) (req : PageRequest) : result (PageError E) PageResponse :=
  let req := PageRequest_Validate req in
  if IsCursorPagination req then executeCursor p req else executeOffset p req.

End Paginator.

(** ** Requests are in bounds *)
Lemma Validate_bounds r : (1 <= p_Limit (PageRequest_Validate r) <= 100)%Z /\ (1 <= p_Page (PageRequest_Validate r))%Z.
Proof.
  unfold PageRequest_Validate, MinLimit, MaxLimit, DefaultLimit.
  destruct (Z.ltb_spec (p_Limit r) 1); cbn; repeat (case_match_eqn; cbn in *); lia.
Qed.

Lemma when_number_page s ok set r : (forall n, in_int64 n = true -> in_int64 (p_Page r) = true -> in_int64 (p_Page (set n r)) = true) ->
  in_int64 (p_Page r) = true -> in_int64 (p_Page (when_number s ok set r)) = true.
Proof.
  intros Hset Hr. unfold when_number. destruct (String.eqb s ""); [done|]. unfold ParseInt.
  repeat case_match_eqn; try done; simplify_eq; auto.
Qed.

Lemma ParsePageRequest_page q : in_int64 (p_Page (ParsePageRequest q)) = true.
Proof.
  unfold ParsePageRequest. set (r4 := when_number (Get "offset" q) _ _ _).
  assert (in_int64 (p_Page r4) = true) as H.
  { apply when_number_page; [intros; apply wrap64_in_int64|]. destruct (String.eqb (Get "limit" q) "");
      repeat (apply when_number_page; [by intros|]); done. }
  clearbody r4. unfold when_given, PageRequest_Validate. repeat (case_match_eqn; cbn in *; try done).
Qed.

(** Whatever a client sends, the request asks for 1 to 100 items of a
    page from 1 on.  The offset is exact and not negative as long as it fits
    64 bits - but a client can name a page whose offset wraps to a negative
    number. *)
Theorem ParsePageRequest_bounds q :
  let r := ParsePageRequest q in
  (1 <= p_Limit r <= 100)%Z /\ (1 <= p_Page r)%Z /\
  (in_int64 ((p_Page r - 1) * p_Limit r) = true -> GetOffset r = ((p_Page r - 1) * p_Limit r)%Z) /\
  exists bad, (GetOffset (ParsePageRequest bad) < 0)%Z.
Proof.
  cbv zeta. assert (forall r, (1 <= p_Limit (PageRequest_Validate r) <= 100)%Z /\ (1 <= p_Page (PageRequest_Validate r))%Z) as Hv
    by apply Validate_bounds.
  split; [apply Hv|]. assert (1 <= p_Page (ParsePageRequest q))%Z as H1 by apply Hv. split; [done|]. split.
  - pose proof (ParsePageRequest_page q) as Hp. intros Hin. unfold GetOffset. rewrite (wrap64_small (p_Page _ - 1)); [by apply wrap64_small|].
    revert Hp. unfold in_int64, int64_min, int64_max. rewrite !andb_true_iff, !Z.leb_le. lia.
  - exists [("page", ["4611686018427387905"]); ("limit", ["2"])]. vm_compute. reflexivity.
Qed.

(** ** Filters let only declared conditions through *)
(** A parameter the builder has no field for. *)
Definition unknown_field (b : FilterBuilder) (e : string * Param) : bool :=
  match assoc (ParseFilterKey e.1).1 b with None => true | Some _ => false end.

(** The condition of a parameter the builder accepts. *)
Definition accepts (b : FilterBuilder) (e : string * Param) (c : Condition) : Prop :=
  exists def, assoc (ParseFilterKey e.1).1 b = Some def /\ contains (AllowedOps def) (ParseFilterKey e.1).2 = true /\
    BuildCondition (ParseFilterKey e.1).1 (ParseFilterKey e.1).2 e.2 = Ok c.

Lemma build_loop_ok b params conds out : build_loop b params conds = Ok out <->
  exists new, out = (conds ++ new)%list /\ Forall2 (accepts b) (List.filter (fun e => negb (unknown_field b e)) params) new.
Proof.
  revert conds. induction params as [|[key v] params IH]; intros conds; cbn.
  { split; [intros [= ->]; exists []; by rewrite app_nil_r|]. intros (new & -> & H). inversion H. by rewrite app_nil_r. }
  unfold unknown_field at 1. cbn [fst]. destruct (ParseFilterKey key) as [field op] eqn:Hk. cbn [fst snd].
  destruct (assoc field b) as [def|] eqn:Hd; cbn [negb]; [|apply IH].
  assert (forall c, accepts b (key, v) c <-> contains (AllowedOps def) op = true /\ BuildCondition field op v = Ok c) as Ha.
  { intros c. unfold accepts. cbn [fst snd]. rewrite Hk. cbn [fst snd]. rewrite Hd. naive_solver. }
  destruct (contains (AllowedOps def) op) eqn:Hc.
  - destruct (BuildCondition field op v) as [c|e] eqn:Hb.
    + rewrite IH. split.
      * intros (new & -> & HF). exists (c :: new). rewrite <- app_assoc. split; [done|]. constructor; [by apply Ha | done].
      * intros (new & -> & HF). inversion HF as [|? c' ? new' Hc' HF']; subst. apply Ha in Hc' as [_ [= <-]].
        exists new'. by rewrite <- app_assoc.
    + split; [done|]. intros (new & _ & HF). inversion HF as [|? c' ? new' Hc' HF']; subst. by apply Ha in Hc' as [_ ?].
  - split; [done|]. intros (new & _ & HF). inversion HF as [|? c' ? new' Hc' HF']; subst. by apply Ha in Hc' as [? _].
Qed.

Lemma BuildCondition_field field op v c : BuildCondition field op v = Ok c -> c_Field c = field /\ c_Not c = false /\ c_SubQuery c = None /\ c_Nested c = None.
Proof. unfold BuildCondition. cbv zeta. repeat (destruct (String.eqb _ _); [by intros [= <-]|]). done. Qed.

(** [Build] succeeds exactly if every parameter of a declared field
    names an operator that is supported and allowed for the field; the clause is
    the conjunction of one condition per such parameter, in order, each on its
    declared field; parameters of other fields have no effect. *)
Theorem Build_whitelists b params w :
  Build b params = Ok w <->
  exists conds, Forall2 (accepts b) (List.filter (fun e => negb (unknown_field b e)) params) conds /\
    Forall (fun c => (exists def, assoc (c_Field c) b = Some def) /\ c_Nested c = None) conds /\
    w = match conds with [] => None | _ => Some (mkWhere conds LogicalAnd []) end.
Proof.
  assert (forall l conds, Forall2 (accepts b) l conds -> Forall (fun c => (exists def, assoc (c_Field c) b = Some def) /\ c_Nested c = None) conds) as Hf.
  { induction 1 as [|e c l conds (def & Hd & _ & Hb) _ IH]; constructor; [|done].
    apply BuildCondition_field in Hb as (-> & _ & _ & Hn). split; [by exists def | done]. }
  unfold Build. split.
  - destruct (build_loop b params []) as [out|e] eqn:Hl; [|done]. apply build_loop_ok in Hl as (new & -> & HF). intros Hw.
    exists new. split; [done|]. split; [by eapply Hf|]. cbn in Hw. by destruct new; injection Hw as <-.
  - intros (conds & HF & _ & ->). assert (build_loop b params [] = Ok conds) as -> by (apply build_loop_ok; by exists conds).
    by destruct conds.
Qed.

(** ** What pages contain

    The database answers a query with a slice of the rows of its entity, in
    the query's order, that satisfy the clause; [sat] is its answer for one
    condition and one row.  An empty clause filters nothing. *)
Definition where_holds (sat : Condition -> Row -> bool) (w : option WhereClause) (row : Row) : bool :=
  match w with
  | None => true
  | Some w =>
      match w_Conditions w, w_Operator w with
      | [], _ => true
      | cs, LogicalAnd => forallb (fun c => sat c row) cs
      | cs, LogicalOr => existsb (fun c => sat c row) cs
      end
  end.

Definition slice {A} (offset limit : option Z) (l : list A) : list A :=
  let l := drop (Z.to_nat (default 0%Z offset)) l in
  match limit with Some n => take (Z.to_nat n) l | None => l end.

(** The query without clause, limit and offset. *)
Definition bare (q : Query) : Query :=
  mkQuery (q_Type q) (q_Entity q) (q_Fields q) None (q_OrderBy q) None None (q_Include q) (q_GroupBy q) (q_Having q) (q_Updates q) (q_AggField q).

Definition conjunctive (w : option WhereClause) : bool :=
  match w with None => true | Some w => bool_decide (w_Operator w = LogicalAnd) end.

(** Merging clauses is their conjunction when they are conjunctions;
    the conditions of an [OR] clause are conjoined too, so the merged clause can
    only be stronger than the clauses that have conditions. *)
Theorem MergeWhereClauses_meaning sat clauses row :
  (Forall (fun w => conjunctive w = true) clauses ->
   where_holds sat (MergeWhereClauses clauses) row = forallb (fun w => where_holds sat w row) clauses) /\
  (where_holds sat (MergeWhereClauses clauses) row = true -> forallb (fun w => where_holds sat w row) clauses = true).
Proof.
  set (conds w := match w with Some w => w_Conditions w | None => [] end).
  assert (where_holds sat (MergeWhereClauses clauses) row = forallb (fun c => sat c row) (concat (map conds clauses))) as ->.
  { unfold MergeWhereClauses. fold conds. by destruct (concat (map conds clauses)). }
  assert (forall w, forallb (fun c => sat c row) (conds w) = true -> where_holds sat w row = true) as Hsome.
  { intros [w|]; [|done]. cbn. destruct (w_Conditions w) as [|c cs]; [done|]. destruct (w_Operator w); [done|].
    cbn. intros [-> _]%andb_true_iff. done. }
  split.
  - induction 1 as [|w clauses Hw _ IH]; [done|]. cbn. rewrite forallb_app, IH. f_equal. destruct w as [w|]; [|done]. cbn in *.
    destruct (w_Operator w); [|done]. by destruct (w_Conditions w).
  - induction clauses as [|w clauses IH]; [done|]. cbn. rewrite forallb_app. intros [Hw Hr]%andb_true_iff. rewrite IH, Hsome; done.
Qed.

(** Sorted lists: what lies behind an element. *)
Section After.
Context {A : Type} (after : A -> A -> bool).
(** [after a b]: [b] comes behind [a]. *)
Definition ordered : list A -> Prop := StronglySorted (fun a b => after a b = true /\ after b a = false).

Lemma filter_all (p : A -> bool) l : Forall (fun a => p a = true) l -> List.filter p l = l.
Proof. induction 1 as [|a l H _ IH]; [done|]. cbn. by rewrite H, IH. Qed.
Lemma filter_none (p : A -> bool) l : Forall (fun a => p a = false) l -> List.filter p l = [].
Proof. induction 1 as [|a l H _ IH]; [done|]. cbn. by rewrite H, IH. Qed.

Lemma ordered_app l1 a l2 : ordered (l1 ++ a :: l2) ->
  Forall (fun b => after a b = false) l1 /\ Forall (fun b => after a b = true) l2.
Proof.
  induction l1 as [|b l1 IH]; cbn; intros H.
  - inversion H as [|? ? Hs Hf]; subst. split; [constructor|]. apply (Forall_impl _ _ _ Hf). by intros ? [? ?].
  - inversion H as [|? ? Hs Hf]; subst. destruct (IH Hs) as [H1 H2]. split; [|done]. constructor; [|done].
    apply Forall_app in Hf as [_ Hf]. inversion Hf as [|? ? [_ ?] _]. done.
Qed.

Lemma filter_after l1 a l2 : (forall b, after b b = false) -> ordered (l1 ++ a :: l2) ->
  List.filter (after a) (l1 ++ a :: l2) = l2.
Proof.
  intros Hirr H. destruct (ordered_app _ _ _ H) as [H1 H2]. rewrite List.filter_app, (filter_none _ l1) by done. cbn.
  rewrite Hirr. by apply filter_all.
Qed.

Lemma filter_split {B} (f : B -> bool) l pre a suf : List.filter f l = (pre ++ a :: suf)%list ->
  exists l1 l2, l = (l1 ++ a :: l2)%list /\ List.filter f l1 = pre /\ List.filter f l2 = suf /\ f a = true.
Proof.
  revert pre. induction l as [|b l IH]; intros pre; cbn; [by destruct pre|]. destruct (f b) eqn:Hb.
  - destruct pre as [|x pre]; cbn; intros [= -> Hl].
    + by exists [], l.
    + destruct (IH _ Hl) as (l1 & l2 & -> & Hl1 & ? & ?). exists (x :: l1), l2. cbn. rewrite Hb. repeat split; congruence.
  - intros Hl. destruct (IH _ Hl) as (l1 & l2 & -> & Hl1 & ? & ?). exists (b :: l1), l2. cbn. rewrite Hb. repeat split; congruence.
Qed.

Lemma filter_sublist {B} (f : B -> bool) l : List.filter f l `sublist_of` l.
Proof. induction l as [|b l IH]; [constructor|]. cbn. destruct (f b); by constructor. Qed.

Lemma ordered_filter p l : ordered l -> ordered (List.filter p l).
Proof.
  induction 1 as [|a l Hs IH Hf]; [constructor|]. cbn. destruct (p a); [|done]. constructor; [done|].
  rewrite Forall_forall in Hf |- *. intros b Hb. apply Hf. apply list_elem_of_In in Hb. apply filter_In in Hb as [Hb _].
  by apply list_elem_of_In.
Qed.
End After.

Section Database.
Context (E : Type) (Execute : Query -> result E (list Row)) (ExecuteCount : Query -> result E Z).
Context (Sprint : Value -> string) (EncodeCursor : Cursor -> string) (decode_cursor : string -> option Cursor).
(** The rows of a query without its clause, and one condition on one row. *)
Context (table : Query -> list Row) (sat : Condition -> Row -> bool).
Hypothesis Hexec : forall q, Execute q =
  Ok (slice (q_Offset q) (q_Limit q) (List.filter (where_holds sat (q_Where q)) (table (bare q)))).
Variable p : Paginator.
Hypothesis Hbase : q_Offset (baseQuery p) = None.
Variable L : Z.
Hypothesis HL : (1 <= L <= 100)%Z.

Definition page_rows (q : Query) : list Row := List.filter (where_holds sat (q_Where q)) (table (bare q)).
Definition Page (req : PageRequest) := Paginate E Execute ExecuteCount Sprint EncodeCursor decode_cursor p req.

Lemma has_more_slice offset (l : list Row) : has_more L (slice offset (Some (L + 1)%Z) l) = (L <? Z.of_nat (length (slice offset None l)))%Z.
Proof.
  unfold has_more, slice. rewrite length_take. set (n := length (drop _ l)).
  destruct (Z.ltb_spec L (Z.of_nat n)); [apply Z.ltb_lt | apply Z.ltb_ge]; lia.
Qed.

Lemma trim_slice offset (l : list Row) : trim L (slice offset (Some (L + 1)%Z) l) = slice offset (Some L) l.
Proof.
  unfold trim. rewrite has_more_slice. unfold slice. cbn. set (k := drop _ l).
  destruct (Z.ltb_spec L (Z.of_nat (length k))); [rewrite take_take; f_equal; lia|]. by rewrite !take_ge by lia.
Qed.

Lemma Validate_id r : p_Limit r = L -> (1 <= p_Page r)%Z -> PageRequest_Validate r = r.
Proof.
  intros Hl Hp. unfold PageRequest_Validate, MinLimit, MaxLimit. rewrite !Hl.
  rewrite (proj2 (Z.ltb_ge L 1)), Hl, (proj2 (Z.ltb_ge 100 L)), (proj2 (Z.ltb_ge (p_Page r) 1)) by lia. done.
Qed.

(** *** Pages by number *)
Definition offset_request (n : Z) : PageRequest := mkRequest PaginationOffset n L "" "" "".

Lemma offset_page n total : (1 <= n)%Z -> in_int64 (n * L) = true -> (includeTotal p = true -> getTotal E ExecuteCount p = Ok total) ->
  Page (offset_request n) =
  Ok (mkResponse (slice (Some ((n - 1) * L)%Z) (Some L) (page_rows (baseQuery p)))
       (mkInfo (if includeTotal p then Some total else None) (Some n) L (n * L <? Z.of_nat (length (page_rows (baseQuery p))))%Z
          (1 <? n)%Z "" "")).
Proof.
  intros Hn Hin Ht. unfold Page, Paginate. rewrite Validate_id by done. change (IsCursorPagination (offset_request n)) with false. cbv zeta iota.
  assert (GetOffset (mkRequest PaginationOffset n L "" "" "") = (n - 1) * L)%Z as Hoff.
  { unfold GetOffset. cbn. unfold in_int64, int64_min, int64_max in *. rewrite andb_true_iff, !Z.leb_le in Hin.
    rewrite (wrap64_small (n - 1)) by (unfold in_int64, int64_min, int64_max; rewrite andb_true_iff, !Z.leb_le; nia).
    apply wrap64_small. unfold in_int64, int64_min, int64_max. rewrite andb_true_iff, !Z.leb_le. nia. }
  unfold executeOffset, offset_request. rewrite Hexec, Hoff. cbn [set_Limit set_Offset q_Offset q_Limit q_Where p_Limit p_Page].
  change (bare (set_Limit (L + 1) (set_Offset ((n - 1) * L) (baseQuery p)))) with (bare (baseQuery p)).
  fold (page_rows (baseQuery p)). rewrite has_more_slice, trim_slice.
  assert ((L <? Z.of_nat (length (slice (Some ((n - 1) * L)%Z) None (page_rows (baseQuery p)))))%Z = (n * L <? Z.of_nat (length (page_rows (baseQuery p))))%Z) as ->.
  { unfold slice. cbn. rewrite length_drop. destruct (Z.ltb_spec (n * L) (Z.of_nat (length (page_rows (baseQuery p)))));
      [apply Z.ltb_lt | apply Z.ltb_ge]; nia. }
  destruct (includeTotal p); [|done]. by rewrite Ht.
Qed.

Definition page_data (req : PageRequest) : list Row := match Page req with Ok r => r_Data r | Err _ => [] end.

(** The pages 1 to [n] of offset pagination, put together, are the
    first [n * L] rows of the query, each row once and in order; a page says
    that there is a next one exactly if rows remain. *)
Theorem offset_pages n total : (includeTotal p = true -> getTotal E ExecuteCount p = Ok total) ->
  in_int64 (Z.of_nat n * L) = true ->
  concat (map (fun k => page_data (offset_request (Z.of_nat k))) (seq 1 n)) = take (n * Z.to_nat L) (page_rows (baseQuery p)) /\
  forall k, 1 <= k <= n -> exists r, Page (offset_request (Z.of_nat k)) = Ok r /\
    (HasNext (r_Pagination r) = true <-> (Z.of_nat k * L < Z.of_nat (length (page_rows (baseQuery p))))%Z).
Proof.
  intros Ht Hin. assert (forall k, 1 <= k <= n -> in_int64 (Z.of_nat k * L) = true) as Hk.
  { unfold in_int64, int64_min, int64_max in *. rewrite andb_true_iff, !Z.leb_le in *. intros k. rewrite andb_true_iff, !Z.leb_le. nia. }
  split.
  - clear Hin. induction n as [|n IH]; [done|]. rewrite seq_S, map_app, concat_app, IH by (intros; apply Hk; lia). cbn [map concat Nat.add].
    rewrite app_nil_r. unfold page_data. rewrite (offset_page _ total); [|lia|by apply Hk; lia|done]. cbn [r_Data]. unfold slice. cbn [default]. unfold id.
    replace (Z.to_nat ((Z.of_nat (S n) - 1) * L)) with (n * Z.to_nat L) by nia.
    replace (S n * Z.to_nat L) with (n * Z.to_nat L + Z.to_nat L) by lia. by rewrite take_take_drop.
  - intros k Hkn. eexists. split; [by apply (offset_page _ total); [lia | apply Hk |]|]. cbn. apply Z.ltb_lt.
Qed.

(** *** Pages by cursor *)
(** The query cursors run: ordered by [id] if nothing else is asked. *)
Definition ordered_query : Query :=
  match q_OrderBy (baseQuery p) with [] => set_OrderBy [mkOrder "id" OrderAsc] (baseQuery p) | _ => baseQuery p end.
Definition key (row : Row) : Value := default VNil (assoc (order_field (q_OrderBy ordered_query)) row).
(** The condition that continues after a value of the order field. *)
Definition continue_after (v : Value) : Condition :=
  cond (order_field (q_OrderBy ordered_query)) (if is_desc (q_OrderBy ordered_query) then OpLessThan else OpGreaterThan) v.
Definition after (a b : Row) : bool := sat (continue_after (key a)) b.
Definition cursor_of (row : Row) : string := buildCursor Sprint EncodeCursor row (q_OrderBy ordered_query).
Definition cursor_request (cur : string) : PageRequest := mkRequest PaginationCursor 1 L cur "" "".

(** Cursors are read back, and the order field orders the rows strictly. *)
Hypothesis Hcodec : forall row i, row ∈ table (bare ordered_query) ->
  let c := mkCursor i (order_field (q_OrderBy ordered_query)) (key row) "" in
  EncodeCursor c <> "" /\ decode_cursor (EncodeCursor c) = Some c.
Hypothesis Hirr : forall row, after row row = false.
Hypothesis Hordered : ordered after (table (bare ordered_query)).

Definition cursor_response (rows : list Row) (cur : string) : PageResponse :=
  mkResponse (take (Z.to_nat L) rows)
    (mkInfo None None L (L <? Z.of_nat (length rows))%Z (negb (String.eqb cur ""))
       (match last (take (Z.to_nat L) rows) with
        | Some row => if (L <? Z.of_nat (length rows))%Z then cursor_of row else "" | None => "" end)
       (match take (Z.to_nat L) rows with row :: _ => if String.eqb cur "" then "" else cursor_of row | [] => "" end)).

Lemma ordered_query_eq : q_Offset ordered_query = None /\ q_Where ordered_query = q_Where (baseQuery p).
Proof. unfold ordered_query. by destruct (q_OrderBy (baseQuery p)). Qed.

Lemma cursor_page_query q cur : q_Offset q = None -> q_OrderBy q = q_OrderBy ordered_query -> 
  match Execute (set_Limit (L + 1) q) with
  | Err e => Err (QueryFailed e)
  | Ok results =>
      let hasNext := has_more L results in
      let results := trim L results in
      let nextCursor := match last results with
                        | Some row => if hasNext then buildCursor Sprint EncodeCursor row (q_OrderBy q) else ""
                        | None => ""
                        end in
      let prevCursor := match results with
                        | row :: _ => if String.eqb cur "" then "" else buildCursor Sprint EncodeCursor row (q_OrderBy q)
                        | [] => ""
                        end in
      Ok (mkResponse results (mkInfo None None L hasNext (negb (String.eqb cur "")) nextCursor prevCursor))
  end = Ok (cursor_response (page_rows q) cur).
Proof.
  intros Ho Hq. rewrite Hexec. cbn [set_Limit q_Offset q_Limit q_Where]. change (bare (set_Limit (L + 1) q)) with (bare q).
  fold (page_rows q). cbv zeta. rewrite Ho, has_more_slice, trim_slice, Hq. unfold slice. cbn [default]. unfold id. by rewrite drop_0.
Qed.

(** The page at the start, and the page after a row. *)
Lemma first_page : Page (cursor_request "") = Ok (cursor_response (page_rows ordered_query) "").
Proof.
  unfold Page, Paginate. rewrite Validate_id by done. change (IsCursorPagination (cursor_request "")) with true. cbv zeta iota.
  unfold executeCursor. fold ordered_query. change (GetCursor (cursor_request "")) with "". cbn [String.eqb p_Before cursor_request].
  by apply (cursor_page_query ordered_query ""); [apply ordered_query_eq|].
Qed.

Definition continued (row : Row) : Query :=
  set_Where (Some (appendCondition (q_Where ordered_query) (continue_after (key row)))) ordered_query.

Lemma next_page row : row ∈ table (bare ordered_query) ->
  Page (cursor_request (cursor_of row)) = Ok (cursor_response (page_rows (continued row)) (cursor_of row)).
Proof.
  intros Hin. unfold cursor_of at 1 2, buildCursor. set (i := match assoc "id" row with Some v => Sprint v | None => "" end).
  destruct (Hcodec row i Hin) as [Hne Hdec]. fold (key row).
  set (c := mkCursor i (order_field (q_OrderBy ordered_query)) (key row) "") in *.
  unfold Page, Paginate. rewrite Validate_id by done. change (IsCursorPagination (cursor_request (EncodeCursor c))) with true. cbv zeta iota.
  unfold executeCursor. fold ordered_query.
  assert (GetCursor (cursor_request (EncodeCursor c)) = EncodeCursor c) as ->.
  { unfold GetCursor. cbn. by rewrite (proj2 (String.eqb_neq _ _) Hne). }
  cbv zeta. rewrite (proj2 (String.eqb_neq _ _) Hne). unfold DecodeCursor. rewrite (proj2 (String.eqb_neq _ _) Hne), Hdec.
  cbn [p_Before cursor_request String.eqb p_Limit]. 
  assert (buildCursorCondition c (q_OrderBy ordered_query) false = continue_after (key row)) as ->.
  { unfold buildCursorCondition, continue_after. cbn. by destruct (String.eqb (order_field (q_OrderBy ordered_query)) ""). }
  assert (q_Offset (continued row) = None) as Ho by apply ordered_query_eq.
  pose proof (cursor_page_query (continued row) (EncodeCursor c) Ho eq_refl) as Hp. rewrite (proj2 (String.eqb_neq _ _) Hne) in Hp. exact Hp.
Qed.

Lemma filter_filter {A} (f g : A -> bool) l : List.filter f (List.filter g l) = List.filter (fun a => g a && f a) l.
Proof. induction l as [|a l IH]; [done|]. cbn. destruct (g a); cbn; [|done]. by rewrite IH. Qed.

Lemma continued_and row : conjunctive (q_Where (baseQuery p)) = true ->
  page_rows (continued row) = List.filter (after row) (page_rows ordered_query).
Proof.
  intros Hc. unfold page_rows. rewrite filter_filter. change (bare (continued row)) with (bare ordered_query). apply filter_ext. intros r.
  unfold continued. cbn [set_Where q_Where]. assert (q_Where ordered_query = q_Where (baseQuery p)) as -> by (unfold ordered_query; by destruct (q_OrderBy (baseQuery p))).
  unfold after. destruct (q_Where (baseQuery p)) as [w|]; cbn in *; [|by rewrite andb_true_r].
  apply bool_decide_eq_true in Hc. rewrite Hc. destruct (w_Conditions w) as [|c cs]; cbn; [by rewrite andb_true_r|].
  rewrite forallb_app. cbn. by rewrite andb_true_r, andb_assoc.
Qed.

Lemma continued_or row w : q_Where (baseQuery p) = Some w -> w_Operator w = LogicalOr -> w_Conditions w <> [] ->
  page_rows (continued row) = List.filter (fun r => where_holds sat (q_Where (baseQuery p)) r || after row r) (table (bare ordered_query)).
Proof.
  intros Hw Ho Hc. unfold page_rows. change (bare (continued row)) with (bare ordered_query). apply filter_ext. intros r.
  unfold continued. cbn [set_Where q_Where]. assert (q_Where ordered_query = q_Where (baseQuery p)) as -> by (unfold ordered_query; by destruct (q_OrderBy (baseQuery p))).
  unfold after. rewrite Hw. cbn. rewrite Ho. destruct (w_Conditions w) as [|c cs]; [done|]. cbn. by rewrite existsb_app; cbn; rewrite orb_false_r, orb_assoc.
Qed.

(** What a client reads that follows [NextCursor] while there is a next page. *)
Fixpoint walk (fuel : nat) (cur : string) : option (list Row) :=
  match Page (cursor_request cur) with
  | Err _ => None
  | Ok r =>
      if HasNext (r_Pagination r) then
        match fuel with
        | O => None
        | S fuel => option_map (fun rest => r_Data r ++ rest)%list (walk fuel (NextCursor (r_Pagination r)))
        end
      else Some (r_Data r)
  end.

Lemma page_split (rows : list Row) : (L < Z.of_nat (length rows))%Z ->
  exists pre row suf, rows = (pre ++ row :: suf)%list /\ take (Z.to_nat L) rows = (pre ++ [row])%list /\ last (take (Z.to_nat L) rows) = Some row.
Proof.
  intros Hl. destruct (@exists_last _ (take (Z.to_nat L) rows)) as (pre & row & Ht).
  { intros Hn. apply (f_equal length) in Hn. rewrite length_take in Hn. cbn in Hn. lia. }
  exists pre, row, (drop (Z.to_nat L) rows). rewrite Ht, last_snoc. split; [|done].
  rewrite <- (take_drop (Z.to_nat L) rows) at 1. by rewrite Ht, <- app_assoc.
Qed.

Lemma page_rows_table row q : bare q = bare ordered_query -> row ∈ page_rows q -> row ∈ table (bare ordered_query).
Proof. intros Hq. unfold page_rows. rewrite Hq, !list_elem_of_In, filter_In. tauto. Qed.

(** The rest of the walk from a page of the rows [suf], [pre] being read. *)
Lemma walk_rest pre suf fuel cur : conjunctive (q_Where (baseQuery p)) = true ->
  page_rows ordered_query = (pre ++ suf)%list -> Page (cursor_request cur) = Ok (cursor_response suf cur) ->
  length suf <= fuel -> walk fuel cur = Some suf.
Proof.
  intros Hc. revert pre suf cur. induction fuel as [|fuel IH]; intros pre suf cur Hrows Hpage Hle; cbn [walk]; rewrite Hpage; cbn [cursor_response r_Data r_Pagination HasNext NextCursor].
  { destruct (Z.ltb_spec L (Z.of_nat (length suf))); [lia|]. by rewrite take_ge by lia. }
  destruct (Z.ltb_spec L (Z.of_nat (length suf))) as [Hl|Hl]; [|by rewrite take_ge by lia].
  destruct (page_split suf Hl) as (a & row & b & Hsuf & Htake & Hlast). rewrite Hlast, Htake.
  assert (page_rows ordered_query = (pre ++ a) ++ row :: b)%list as Hrows' by (by rewrite Hrows, Hsuf, <- app_assoc).
  assert (row ∈ table (bare ordered_query)) as Hin.
  { apply (page_rows_table _ ordered_query); [done|]. rewrite Hrows'. set_solver. }
  rewrite (IH ((pre ++ a) ++ [row])%list b).
  - cbn. by rewrite Hsuf, <- app_assoc.
  - by rewrite Hrows', <- (app_assoc (pre ++ a) [row] b).
  - rewrite next_page, continued_and by done. rewrite Hrows', filter_after; [done | apply Hirr |].
    rewrite <- Hrows'. by apply ordered_filter.
  - rewrite Hsuf, length_app in Hle. cbn in Hle. lia.
Qed.


(** With an [OR] clause the cursor condition is one more alternative:
    the second page repeats the first, with the same cursor, and so does every
    later one - a client that follows the cursors never ends. *)
Theorem cursor_or_repeats w r1 : q_Where (baseQuery p) = Some w -> w_Operator w = LogicalOr -> w_Conditions w <> [] ->
  Page (cursor_request "") = Ok r1 -> HasNext (r_Pagination r1) = true ->
  exists r2, Page (cursor_request (NextCursor (r_Pagination r1))) = Ok r2 /\ r_Data r2 = r_Data r1 /\
    HasNext (r_Pagination r2) = true /\ NextCursor (r_Pagination r2) = NextCursor (r_Pagination r1).
Proof.
  intros Hw Ho Hc H1 Hn. rewrite first_page in H1. injection H1 as <-. cbn in Hn |- *. rewrite Hn. apply Z.ltb_lt in Hn.
  destruct (page_split _ Hn) as (pre & row & suf & Hrows & Htake & Hlast). rewrite Hlast, Htake.
  assert (row ∈ table (bare ordered_query)) as Hin by (apply (page_rows_table _ ordered_query); [done | rewrite Hrows; set_solver]).
  eexists. split; [by apply next_page|]. cbn.
  assert (exists more, page_rows (continued row) = (pre ++ [row]) ++ more /\ suf `sublist_of` more)%list as (more & Hmore & Hsub).
  { rewrite (continued_or row w) by done. unfold page_rows in Hrows. destruct (filter_split _ _ _ _ _ Hrows) as (t1 & t2 & Ht & <- & <- & Hb).
    destruct (ordered_app after t1 row t2) as [Hf1 Hf2]; [by rewrite <- Ht|]. exists t2. rewrite Ht.
    assert (q_Where ordered_query = q_Where (baseQuery p)) as Hq by (unfold ordered_query; by destruct (q_OrderBy (baseQuery p))).
    rewrite Hq in *. split; [|apply filter_sublist]. rewrite List.filter_app. cbn. rewrite Hb, <- app_assoc. cbn. f_equal.
    - apply filter_ext_in. intros r Hr. rewrite Forall_forall in Hf1. rewrite (Hf1 r), orb_false_r; [done|]. by apply list_elem_of_In.
    - f_equal. apply filter_all. apply (Forall_impl _ _ _ Hf2). intros r ->. apply orb_true_r. }
  assert (length (pre ++ [row]) = Z.to_nat L) as Hlen by (rewrite <- Htake, length_take; lia).
  rewrite Hmore, take_app_le, take_ge, last_snoc by lia.
  assert ((L <? Z.of_nat (length ((pre ++ [row]) ++ more)))%Z = true) as ->; [|done].
  apply Z.ltb_lt. apply sublist_length in Hsub. rewrite length_app. rewrite Hrows, length_app in Hn. rewrite length_app in Hlen. cbn in *. rewrite ?length_app. cbn. lia.
Qed.

End Database.

(** ** Concrete pages *)
Section Examples.
Let row (n : Z) : Row := [("id", VInt n); ("even", VBool (Z.even n))].
Let table (q : Query) : list Row := [row 1; row 2; row 3; row 4; row 5].
Let sat (c : Condition) (r : Row) : bool :=
  match assoc (c_Field c) r, c_Value c, c_Operator c with
  | Some (VInt a), VInt b, OpGreaterThan => (b <? a)%Z
  | Some (VInt a), VInt b, OpEquals => (b =? a)%Z
  | Some (VBool a), VBool b, OpEquals => Bool.eqb a b
  | _, _, _ => false
  end.
Let Execute (q : Query) : result string (list Row) :=
  Ok (slice (q_Offset q) (q_Limit q) (List.filter (where_holds sat (q_Where q)) (table (bare q)))).
Let ExecuteCount (q : Query) : result string Z := Ok 5%Z.
Let Sprint (v : Value) : string := match v with VInt n => Itoa n | _ => "" end.
Let EncodeCursor (c : Cursor) : string := Sprint (cu_Value c) +:+ ":" +:+ ID c.
Let decode_cursor (s : string) : option Cursor :=
  match cut_at ":" s with
  | Some (v, i) => match ParseInt v with Ok n => Some (mkCursor i "id" (VInt n) "") | Err _ => None end
  | None => None
  end.
Let odd : Paginator := WithWhere (Some (mkWhere [cond "even" OpEquals (VBool false)] LogicalAnd [])) (NewPaginator "user").
Let odd_or_four : Paginator :=
  WithWhere (Some (mkWhere [cond "even" OpEquals (VBool false); cond "id" OpEquals (VInt 4)] LogicalOr [])) (NewPaginator "user").

Lemma codec_example p : q_OrderBy (ordered_query p) = [mkOrder "id" OrderAsc] -> forall r i, r ∈ table (bare (ordered_query p)) ->
  let c := mkCursor i (order_field (q_OrderBy (ordered_query p))) (key p r) "" in
  EncodeCursor c <> "" /\ decode_cursor (EncodeCursor c) = Some c.
Proof.
  intros Hp r i Hr. unfold key. rewrite Hp. unfold table in Hr.
  repeat (apply elem_of_cons in Hr as [->|Hr]; [split; [discriminate | vm_compute; reflexivity]|]).
  by apply elem_of_nil in Hr.
Qed.

Lemma irr_example p : q_OrderBy (ordered_query p) = [mkOrder "id" OrderAsc] -> forall r, after sat p r r = false.
Proof.
  intros Hp r. unfold after, continue_after, key. rewrite Hp. unfold sat. cbn [cond c_Field c_Value c_Operator order_field o_Field is_desc o_Direction].
  destruct (assoc "id" r) as [v|]; cbn; [|reflexivity]. destruct v; try reflexivity. apply Z.ltb_irrefl.
Qed.

Lemma ordered_example p : q_OrderBy (ordered_query p) = [mkOrder "id" OrderAsc] -> ordered (after sat p) (table (bare (ordered_query p))).
Proof. intros Hp. unfold ordered, after, continue_after, key. rewrite Hp. repeat constructor. Qed.

Lemma Build_whitelists_witness : exists conds, Forall2 (accepts (Allow "age" ["gte"] NewFilterBuilder))
  (List.filter (fun e => negb (unknown_field (Allow "age" ["gte"] NewFilterBuilder) e)) [("admin", PBool true); ("age[gte]", PStr "18")]) conds.
Proof.
  destruct (proj1 (Build_whitelists (Allow "age" ["gte"] NewFilterBuilder) [("admin", PBool true); ("age[gte]", PStr "18")]
    (Some (mkWhere [cond "age" OpGreaterThanOrEqual (VStr "18")] LogicalAnd []))) eq_refl) as (conds & H & _).
  by exists conds.
Defined.

Lemma offset_pages_witness :
  concat (map (fun k => page_data string Execute ExecuteCount Sprint EncodeCursor decode_cursor odd (offset_request 2 (Z.of_nat k))) (seq 1 2))
  = [row 1; row 3; row 5].
Proof.
  rewrite (proj1 (offset_pages string Execute ExecuteCount Sprint EncodeCursor decode_cursor table sat (fun q => eq_refl) odd 2 ltac:(lia) 2 5
    (fun _ => eq_refl) eq_refl)). reflexivity.
Defined.


Lemma cursor_or_repeats_witness : exists r2,
  Page string Execute ExecuteCount Sprint EncodeCursor decode_cursor odd_or_four (cursor_request 2 "3:3") = Ok r2 /\
  r_Data r2 = [row 1; row 3].
Proof.
  destruct (cursor_or_repeats string Execute ExecuteCount Sprint EncodeCursor decode_cursor table sat (fun q => eq_refl) odd_or_four eq_refl 2 ltac:(lia)
    (codec_example odd_or_four eq_refl) (irr_example odd_or_four eq_refl) (ordered_example odd_or_four eq_refl) _
    (mkResponse [row 1; row 3] (mkInfo None None 2 true false "3:3" "")) eq_refl eq_refl ltac:(discriminate) eq_refl eq_refl) as (r2 & H & Hd & _).
  exists r2. by split.
Defined.
End Examples.
