(* ===== verification/Shutdown.v ===== *)
(** Graceful shutdown: [internal/shutdown] ([config.go], [hook.go],
    [timeout.go], [manager.go], [drainer.go]).

    Times are nanoseconds of one clock.  A hook is what it does when it is
    started at a time with a deadline: it never returns, or it returns or panics
    at some later time.  What the Go runtime leaves open is a parameter: the order
    an unstable sort gives equal priorities, the order in which a group's
    goroutines report, and which ready case of a [select] is taken.  Loggers,
    signals and [net/http] are left out; the drainer is a step relation whose
    steps are its accesses to shared memory. *)

From Stdlib Require Import ZArith Lia Sorting.Sorted.
From stdpp Require Import base strings list relations sorting.
From S2P Require Import Prelude GoStrings.

#[local] Open Scope Z_scope.

(** ** Configuration *)
Record Config := mkConfig {
  OverallTimeout : Z; PerHookTimeout : Z; DrainTimeout : Z; SlowHookThreshold : Z
}.
Definition DefaultConfig : Config := mkConfig (30 * Second) (10 * Second) (10 * Second) (5 * Second).

Definition positive_or (d z : Z) : Z := if z <=? 0 then d else z.
Definition Config_Validate (c : Config) : Config :=
  mkConfig (positive_or (30 * Second) (OverallTimeout c)) (positive_or (10 * Second) (PerHookTimeout c))
    (positive_or (10 * Second) (DrainTimeout c)) (positive_or (5 * Second) (SlowHookThreshold c)).

Section Manager.
(** Errors of hooks and values they panic with. *)
Variables (err value : Type).

Inductive FnResult := FnReturned (e : option err) | FnPanicked (v : value).

(** Start and deadline to the time and result of returning; [None]: never. *)
Definition HookFunc : Type := Z -> Z -> option (Z * FnResult).

Record Hook := mkHook { Name : string; Priority : Z; Fn : HookFunc }.

(** ** The registry *)
Abbreviation Registry := (list Hook).
Definition NewRegistry : Registry := [].
Definition Register (name : string) (priority : Z) (fn : HookFunc) (r : Registry) : Registry := r ++ [mkHook name priority fn].
Definition RegisterHook (h : Hook) (r : Registry) : Registry := r ++ [h].
Definition Hooks (r : Registry) : list Hook := r.
Definition Clear (r : Registry) : Registry := [].
Definition Count (r : Registry) : nat := length r.

(** ** One hook *)
Inductive HookError :=
| TimeoutError (Operation : string) (Timeout : Z)
| PanicError (Operation : string) (v : value)
| Canceled
| Failed (e : err).

(** A context: when it ends, and whether by its deadline or by cancellation. *)
Record Context := mkContext { ends : option Z; by_deadline : bool }.

(** [context.WithTimeout] at time [now]. *)
Definition WithTimeout (ctx : Context) (now timeout : Z) : Context :=
  match ends ctx with
  | Some t => if t <=? now + timeout then ctx else mkContext (Some (now + timeout)) true
  | None => mkContext (Some (now + timeout)) true
  end.

(** [ctx.Err() != nil] at time [now]. *)
Definition ctx_done (ctx : Context) (now : Z) : bool := match ends ctx with Some t => t <=? now | None => false end.

(** Which case a [select] takes when the hook returns as the context ends. *)
Variable select_done : Hook -> Z -> bool.

Definition result_error (name : string) (r : FnResult) : option HookError :=
  match r with FnReturned None => None | FnReturned (Some e) => Some (Failed e) | FnPanicked v => Some (PanicError name v) end.
Definition ctx_error (name : string) (timeout : Z) (ctx : Context) : HookError :=
  if by_deadline ctx then TimeoutError name timeout else Canceled.

(** The time it returns and its error.  A hook cannot return before it starts. *)
Definition WithTimeoutAndPanicRecovery (ctx : Context) (now timeout : Z) (h : Hook) : Z * option HookError :=
  let ctx := WithTimeout ctx now timeout in
  let stop := Z.max now (default now (ends ctx)) in
  match Fn h now stop with
  | None => (stop, Some (ctx_error (Name h) timeout ctx))
  | Some (t, r) =>
      let t := Z.max now t in
      if (t <? stop) || ((t =? stop) && select_done h t) then (t, result_error (Name h) r)
      else (stop, Some (ctx_error (Name h) timeout ctx))
  end.

(** What a run of a hook leaves behind. *)
Record HookRun := mkRun { r_Hook : Hook; r_Start : Z; r_End : Z; r_Error : option HookError }.

Definition executeHook (c : Config) (ctx : Context) (now : Z) (h : Hook) : HookRun :=
  let '(t, e) := WithTimeoutAndPanicRecovery ctx now (PerHookTimeout c) h in mkRun h now t e.

(** ** Groups *)
Fixpoint group_loop (hooks group : list Hook) (priority : Z) : list (list Hook) :=
  match hooks with
  | [] => [group]
  | h :: hooks' => if Priority h =? priority then group_loop hooks' (group ++ [h]) priority
                   else group :: group_loop hooks' [h] (Priority h)
  end.
Definition groupByPriority (hooks : list Hook) : list (list Hook) :=
  match hooks with [] => [] | h :: hooks' => group_loop hooks' [h] (Priority h) end.

(** [sort.Slice] by descending priority, and the order in which the goroutines
    of a group end and report. *)
Variable sort_hooks : list Hook -> list Hook.
Variable arrival : list HookRun -> list HookRun.

Inductive ManagerError := HookFailed (name : string) (e : HookError) | OverallTimeoutExceeded.

Definition run_errors (runs : list HookRun) : list ManagerError :=
  omap (fun r => option_map (HookFailed (Name (r_Hook r))) (r_Error r)) runs.

(** The hooks of a group run side by side; it ends with the last of them. *)
Definition executeHookGroup (c : Config) (ctx : Context) (now : Z) (hooks : list Hook) : Z * list HookRun :=
  let runs := map (executeHook c ctx now) hooks in
  (foldr (fun r t => Z.max (r_End r) t) now runs, arrival runs).

(** The loop of [executeHooks]: the end, the runs and the errors. *)
Fixpoint execute_groups (c : Config) (ctx : Context) (now : Z) (groups : list (list Hook)) : Z * list HookRun * list ManagerError :=
  match groups with
  | [] => (now, [], [])
  | g :: groups' =>
      let '(t, runs) := executeHookGroup c ctx now g in
      if ctx_done ctx t then (t, runs, run_errors runs ++ [OverallTimeoutExceeded])
      else let '(t', runs', errs) := execute_groups c ctx t groups' in (t', runs ++ runs', run_errors runs ++ errs)
  end.

Definition executeHooks (c : Config) (ctx : Context) (now : Z) (r : Registry) : Z * list HookRun * list ManagerError :=
  execute_groups c ctx now (groupByPriority (sort_hooks (Hooks r))).

(** ** The manager *)
Inductive State := StateRunning | StateShuttingDown | StateShutdown.
Definition State_String (s : State) : string :=
  match s with StateRunning => "running" | StateShuttingDown => "shutting_down" | StateShutdown => "shutdown" end.

(** [once] is [shutdownOnce]; [trace] records the runs. *)
Record Manager := mkManager {
  config : Config; registry : Registry; state : State; once : bool; done : bool;
  errors : list ManagerError; trace : list HookRun
}.

Definition NewManager (c : Config) : Manager := mkManager (Config_Validate c) NewRegistry StateRunning false false [] [].
Definition with_registry (r : Registry) (m : Manager) : Manager :=
  mkManager (config m) r (state m) (once m) (done m) (errors m) (trace m).
Definition Manager_Register (name : string) (priority : Z) (fn : HookFunc) (m : Manager) : Manager :=
  with_registry (Register name priority fn (registry m)) m.

(** The body both shutdowns run once: the end and the manager after it. *)
Definition shutdown_with (ctx : Context) (now : Z) (m : Manager) : Z * Manager :=
  if once m then (now, m)
  else let '(t, runs, errs) := executeHooks (config m) ctx now (registry m) in
       (t, mkManager (config m) (registry m) StateShutdown true true (errors m ++ errs) (trace m ++ runs)).

Definition Shutdown (now : Z) (m : Manager) : Z * Manager :=
  shutdown_with (WithTimeout (mkContext None true) now (OverallTimeout (config m))) now m.
Definition ShutdownWithContext (ctx : Context) (now : Z) (m : Manager) : Z * Manager := shutdown_with ctx now m.

Definition IsShutdown (m : Manager) : bool := match state m with StateShutdown => true | _ => false end.
Definition HookCount (m : Manager) : nat := Count (registry m).

(** ** Sorting and grouping *)
Hypothesis sort_perm : forall l, sort_hooks l ≡ₚ l.
Hypothesis sort_sorted : forall l, StronglySorted (fun a b => Priority b <= Priority a) (sort_hooks l).
Hypothesis arrival_perm : forall l, arrival l ≡ₚ l.

Lemma group_loop_concat hooks group p : concat (group_loop hooks group p) = group ++ hooks.
Proof.
  revert group p. induction hooks as [|h hooks IH]; intros group p; cbn; [done|].
  destruct (Priority h =? p); cbn; rewrite IH; [by rewrite <- app_assoc | done].
Qed.

Lemma groups_concat hooks : concat (groupByPriority hooks) = hooks.
Proof. destruct hooks; [done|]. apply group_loop_concat. Qed.

(** The groups are nonempty runs of equal priority, in strictly descending order. *)
Definition group_of (p : Z) (g : list Hook) : Prop := g <> [] /\ Forall (fun h => Priority h = p) g.

Lemma group_loop_sorted hooks group p : group_of p group -> StronglySorted (fun a b => Priority b <= Priority a) hooks ->
  Forall (fun h => Priority h <= p) hooks ->
  exists ps, Forall2 group_of ps (group_loop hooks group p) /\ StronglySorted (fun a b => b < a) ps /\ Forall (fun q => q <= p) ps.
Proof.
  revert group p. induction hooks as [|h hooks IH]; intros group p Hg Hs Hp; cbn.
  { exists [p]. split; [by apply Forall2_cons|]. split; repeat constructor. lia. }
  apply StronglySorted_inv in Hs as [Hs Hh]. apply Forall_cons_1 in Hp as [Hph Hp]. destruct (Z.eqb_spec (Priority h) p) as [E|E].
  - apply IH; [|done|done]. destruct Hg as [_ Hg]. split; [by destruct group|]. apply Forall_app. split; [done|]. by constructor.
  - destruct (IH [h] (Priority h)) as (ps & HF & Hss & Hle); [by repeat constructor | done | done |].
    exists (p :: ps). split; [by constructor|]. split.
    + constructor; [done|]. apply (Forall_impl _ _ _ Hle). intros q. cbn. lia.
    + constructor; [lia|]. apply (Forall_impl _ _ _ Hle). intros q. cbn. lia.
Qed.

Lemma groups_sorted hooks : StronglySorted (fun a b => Priority b <= Priority a) hooks ->
  exists ps, Forall2 group_of ps (groupByPriority hooks) /\ StronglySorted (fun a b => b < a) ps.
Proof.
  destruct hooks as [|h hooks]; intros Hs; [by exists []; repeat constructor|]. cbn. apply StronglySorted_inv in Hs as [Hs Hh].
  destruct (group_loop_sorted hooks [h] (Priority h)) as (ps & ? & ? & _); [by repeat constructor | done | done |]. by exists ps.
Qed.

(** ** Bounds *)
(** A hook ends between its start and the end of its context. *)
Lemma run_bounds c ctx now h : (0 <= PerHookTimeout c) -> let r := executeHook c ctx now h in
  r_Hook r = h /\ r_Start r = now /\ now <= r_End r <= now + PerHookTimeout c /\
  (forall t, ends ctx = Some t -> now <= t -> r_End r <= t).
Proof.
  intros Hc. unfold executeHook, WithTimeoutAndPanicRecovery. set (ctx' := WithTimeout ctx now (PerHookTimeout c)).
  assert (exists stop, ends ctx' = Some stop /\ stop <= now + PerHookTimeout c /\ forall t, ends ctx = Some t -> stop <= t) as (stop & Hst & Hle & Hlt).
  { subst ctx'. unfold WithTimeout. destruct (ends ctx) as [t|] eqn:Ht; [destruct (Z.leb_spec t (now + PerHookTimeout c))|].
    - exists t. split; [done|]. split; [done|]. intros ? [= ->]. lia.
    - eexists. split; [done|]. split; [lia|]. intros ? [= ->]. lia.
    - eexists. split; [done|]. split; [lia|]. done. }
  rewrite Hst. cbn [default]. unfold id. clearbody ctx'.
  assert (forall t, ends ctx = Some t -> now <= t -> Z.max now stop <= t) as Hmax by (intros t Ht ?; specialize (Hlt t Ht); lia).
  destruct (Fn h now (Z.max now stop)) as [[t r]|]; [|repeat split; cbn; auto; lia].
  destruct (Z.ltb_spec (Z.max now t) (Z.max now stop)).
  - repeat split; cbn; try lia. intros u Hu ?. specialize (Hmax u Hu). lia.
  - destruct (Z.eqb_spec (Z.max now t) (Z.max now stop)) as [E|]; cbn; [destruct (select_done h (Z.max now t))|];
      repeat split; cbn; try lia; intros u Hu ?; specialize (Hmax u Hu); lia.
Qed.

Lemma fold_max_bounds now (runs : list HookRun) b : now <= b -> Forall (fun r => r_End r <= b) runs ->
  now <= foldr (fun r t => Z.max (r_End r) t) now runs <= b.
Proof. intros Hb. induction 1 as [|r runs Hr _ IH]; cbn; lia. Qed.

Lemma fold_max_ge now (runs : list HookRun) r : r ∈ runs -> r_End r <= foldr (fun r t => Z.max (r_End r) t) now runs.
Proof. induction 1 as [|? ? ? _ IH]; cbn; lia. Qed.

(** What running the groups from [now] gives. *)
Record ran (c : Config) (ctx : Context) (now : Z) (groups : list (list Hook)) (t : Z) (runs : list HookRun) (errs : list ManagerError) : Prop := mkRan {
  rn_time : now <= t;
  rn_deadline d : ends ctx = Some d -> now <= d -> t <= d;
  rn_length : t <= now + Z.of_nat (length groups) * PerHookTimeout c;
  rn_hooks : exists rest, map r_Hook runs ++ concat rest ≡ₚ concat groups /\ rest `suffix_of` groups /\
    (rest = [] \/ OverallTimeoutExceeded ∈ errs);
  rn_within : Forall (fun r => now <= r_Start r /\ r_Start r <= r_End r /\ r_End r <= t) runs;
  rn_errors : errs ≡ₚ run_errors runs \/ errs ≡ₚ run_errors runs ++ [OverallTimeoutExceeded];
  rn_order : forall ps, Forall2 group_of ps groups -> StronglySorted (fun a b => b < a) ps ->
    forall r1 r2, r1 ∈ runs -> r2 ∈ runs -> Priority (r_Hook r2) < Priority (r_Hook r1) -> r_End r1 <= r_Start r2
}.

Lemma run_errors_perm runs runs' : runs ≡ₚ runs' -> run_errors runs ≡ₚ run_errors runs'.
Proof. intros H. unfold run_errors. by apply omap_Permutation. Qed.

Lemma group_ran c ctx now g t runs : 0 <= PerHookTimeout c -> executeHookGroup c ctx now g = (t, runs) ->
  now <= t <= now + PerHookTimeout c /\ (forall d, ends ctx = Some d -> now <= d -> t <= d) /\ map r_Hook runs ≡ₚ g /\
  Forall (fun r => r_Start r = now /\ now <= r_End r /\ r_End r <= t) runs.
Proof.
  intros Hc. unfold executeHookGroup. intros [= <- <-]. set (l := map (executeHook c ctx now) g).
  assert (Forall (fun r => r_Start r = now /\ now <= r_End r <= now + PerHookTimeout c /\ forall d, ends ctx = Some d -> now <= d -> r_End r <= d) l) as Hl.
  { subst l. apply Forall_fmap, Forall_forall. intros h _. cbn. destruct (run_bounds c ctx now h Hc) as (_ & ? & ? & ?). auto. }
  split; [|split; [|split]].
  - apply fold_max_bounds; [lia|]. apply (Forall_impl _ _ _ Hl). intros r (_ & ? & _). lia.
  - intros d Hd Hnow. apply fold_max_bounds; [done|]. apply (Forall_impl _ _ _ Hl). intros r (_ & _ & ?). auto.
  - rewrite arrival_perm. subst l. rewrite map_map. clear Hl. induction g as [|h g IH]; [done|]. cbn [map].
    rewrite IH. by destruct (run_bounds c ctx now h Hc) as (-> & _).
  - rewrite arrival_perm. rewrite Forall_forall in Hl |- *. intros r Hr. destruct (Hl r Hr) as (? & ? & _).
    pose proof (fold_max_ge now l r Hr). lia.
Qed.

Lemma in_map_hook (runs : list HookRun) g r : map r_Hook runs ≡ₚ g -> r ∈ runs -> r_Hook r ∈ g.
Proof. intros <- Hr. apply list_elem_of_fmap. by exists r. Qed.

(** Runs of the groups after one of priority [p] have smaller priorities. *)
Lemma later_priority p ps groups (runs : list HookRun) rest r : Forall2 group_of ps groups -> Forall (fun q => q < p) ps ->
  map r_Hook runs ++ concat rest ≡ₚ concat groups -> r ∈ runs -> Priority (r_Hook r) < p.
Proof.
  intros HF Hp Hperm Hr. assert (r_Hook r ∈ concat groups) as Hin.
  { rewrite <- Hperm. apply elem_of_app. left. apply list_elem_of_fmap. by exists r. }
  apply list_elem_of_In, in_concat in Hin as (g & Hg & Hin). apply list_elem_of_In in Hg, Hin. apply list_elem_of_lookup in Hg as [i Hi].
  destruct (Forall2_lookup_r _ _ _ _ _ HF Hi) as (q & Hq & _ & Hall). rewrite Forall_forall in Hall. rewrite (Hall _ Hin).
  rewrite Forall_forall in Hp. apply Hp. by eapply list_elem_of_lookup_2.
Qed.

Lemma execute_groups_ran c ctx groups now t runs errs : 0 <= PerHookTimeout c ->
  execute_groups c ctx now groups = (t, runs, errs) -> ran c ctx now groups t runs errs.
Proof.
  intros Hc. revert now t runs errs. induction groups as [|g groups IH]; intros now t runs errs; cbn [execute_groups].
  { intros [= <- <- <-]. split; cbn; try lia; try by constructor; auto.
    - exists []. split; [done|]. split; [done|]. by left.
    - intros. set_solver. }
  destruct (executeHookGroup c ctx now g) as [t1 runs1] eqn:Hg. destruct (group_ran _ _ _ _ _ _ Hc Hg) as (Ht1 & Hd1 & Hh1 & Hf1).
  assert (forall ps r1 r2, Forall2 group_of ps (g :: groups) -> r1 ∈ runs1 -> r2 ∈ runs1 -> Priority (r_Hook r1) = Priority (r_Hook r2)) as Hsame.
  { intros ps r1 r2 HF H1 H2. inversion HF as [|p ? ps' ? [_ Hp] _]; subst. rewrite Forall_forall in Hp.
    by rewrite (Hp _ (in_map_hook _ _ _ Hh1 H1)), (Hp _ (in_map_hook _ _ _ Hh1 H2)). }
  destruct (ctx_done ctx t1).
  - intros [= <- <- <-]. split; [lia | done | cbn [length]; nia | | | by right |].
    + exists groups. split; [by rewrite Hh1|]. split; [by exists [g]|]. right. apply elem_of_app. right. by constructor.
    + apply (Forall_impl _ _ _ Hf1). intros r. cbn. lia.
    + intros ps HF _ r1 r2 H1 H2 Hlt. rewrite (Hsame _ _ _ HF H1 H2) in Hlt. lia.
  - destruct (execute_groups c ctx t1 groups) as [[t2 runs2] errs2] eqn:Hrest. intros [= <- <- <-].
    specialize (IH t1 t2 runs2 errs2 Hrest). destruct IH as [I1 I2 I3 (rest & I4 & I5 & I6) I7 I8 I9]. split.
    + lia.
    + intros d Hd Hnow. apply I2; [done|]. by apply Hd1.
    + cbn [length]. nia.
    + exists rest. split; [by rewrite map_app, <- app_assoc, I4, Hh1|]. split; [by apply suffix_cons_r|].
      destruct I6 as [?|?]; [by left|]. right. set_solver.
    + apply Forall_app. split; [apply (Forall_impl _ _ _ Hf1) | apply (Forall_impl _ _ _ I7)]; intros r; cbn; lia.
    + assert (run_errors (runs1 ++ runs2) = run_errors runs1 ++ run_errors runs2) as -> by apply omap_app.
      destruct I8 as [->| ->]; [by left | right]. by rewrite app_assoc.
    + intros ps HF Hs r1 r2 H1 H2 Hlt. inversion HF as [|p ? ps' ? [_ Hp] HF']; subst. apply StronglySorted_inv in Hs as [Hs' Hps].
      rewrite Forall_forall in Hp. rewrite Forall_forall in Hf1. rewrite Forall_forall in I7. apply elem_of_app in H1 as [H1|H1]; apply elem_of_app in H2 as [H2|H2].
      * rewrite (Hsame _ _ _ HF H1 H2) in Hlt. lia.
      * pose proof (Hf1 _ H1). pose proof (I7 _ H2). cbn in *. lia.
      * pose proof (Hp _ (in_map_hook _ _ _ Hh1 H2)). pose proof (later_priority _ _ _ _ _ _ HF' Hps I4 H1). lia.
      * by apply (I9 ps').
Qed.

Lemma validated c : 0 < OverallTimeout (Config_Validate c) /\ 0 < PerHookTimeout (Config_Validate c).
Proof. unfold Config_Validate, positive_or, Second. cbn. split; case_match; lia. Qed.

(** C24: Shutdown runs the hooks by priority: a hook starts only after
    every hook of higher priority has returned, panicked or timed out; each
    registered hook runs once or not at all, and all run unless the overall
    timeout is reported; the errors are those of the hooks that failed, in some
    order.  A second shutdown does nothing. *)
Theorem shutdown_order ctx now m t m' : 0 <= PerHookTimeout (config m) -> once m = false -> trace m = [] -> errors m = [] ->
  shutdown_with ctx now m = (t, m') ->
  (forall r1 r2, r1 ∈ trace m' -> r2 ∈ trace m' -> Priority (r_Hook r2) < Priority (r_Hook r1) -> r_End r1 <= r_Start r2) /\
  (exists skipped, map r_Hook (trace m') ++ skipped ≡ₚ registry m /\ (skipped = [] \/ OverallTimeoutExceeded ∈ errors m')) /\
  (errors m' ≡ₚ run_errors (trace m') \/ errors m' ≡ₚ run_errors (trace m') ++ [OverallTimeoutExceeded]) /\
  state m' = StateShutdown /\ done m' = true /\
  forall ctx' now', shutdown_with ctx' now' m' = (now', m').
Proof.
  intros Hc Ho Htr He. unfold shutdown_with. rewrite Ho. destruct (executeHooks (config m) ctx now (registry m)) as [[t' runs] errs] eqn:Hex.
  intros [= <- <-]. cbn [trace errors state done once]. rewrite Htr, He. cbn [app].
  apply execute_groups_ran in Hex; [|done]. destruct (groups_sorted _ (sort_sorted (registry m))) as (ps & HF & Hs).
  destruct Hex as [_ _ _ (rest & Hperm & _ & Hrest) _ Herr Hord]. split; [by apply (Hord ps)|]. split; [|done].
  exists (concat rest). split; [by rewrite Hperm, groups_concat; apply sort_perm|]. destruct Hrest as [->|?]; [by left | by right].
Qed.

Lemma groups_length ps gs : Forall2 group_of ps gs -> (length gs <= length (concat gs))%nat.
Proof. induction 1 as [|p g ps gs [Hne _] _ IH]; [done|]. cbn. rewrite length_app. destruct g; [done|]. cbn. lia. Qed.

(** C39: Shutdown ends in time whatever the hooks do, even if they never
    return: not later than the overall timeout, and not later than one hook
    timeout per registered hook. *)
Theorem shutdown_bounded c r now t m' : let m := with_registry r (NewManager c) in
  Shutdown now m = (t, m') ->
  now <= t <= now + OverallTimeout (Config_Validate c) /\ t <= now + Z.of_nat (length r) * PerHookTimeout (Config_Validate c).
Proof.
  intros m. unfold Shutdown, shutdown_with. cbn [once m with_registry NewManager config registry]. destruct (validated c) as [Hov Hper].
  destruct (executeHooks _ _ now r) as [[t' runs] errs] eqn:Hex. intros [= <- _]. apply execute_groups_ran in Hex; [|apply Z.lt_le_incl, Hper].
  destruct Hex as [H1 H2 H3 _ _ _ _]. split; [split; [done|]; apply H2; [done | lia]|].
  assert (length (groupByPriority (sort_hooks (Hooks r))) <= length r)%nat as Hl.
  2: { etrans; [exact H3|]. apply Z.add_le_mono_l, Z.mul_le_mono_nonneg_r; [apply Z.lt_le_incl, Hper | lia]. }
  destruct (groups_sorted _ (sort_sorted (Hooks r))) as (ps & HF & _). rewrite <- (Permutation_length (sort_perm r)).
  apply groups_length in HF. by rewrite groups_concat in HF.
Qed.

End Manager.

(** ** The drainer *)
Section Drainer.
#[local] Open Scope nat_scope.

(** An operation, by the statement of [Add], of the caller or of [Done] it is
    at; a call of [Wait]. *)
Inductive Op :=
| OpNew          (** before the [select] of [Add] *)
| OpPassed       (** saw the channel open, before [count.Add(1)] *)
| OpCounted      (** before [wg.Add(1)] *)
| OpRunning      (** [Add] returned true *)
| OpUncounted    (** in [Done], before [wg.Done()] *)
| OpDone
| OpRejected.    (** [Add] returned false *)
Inductive Waiter := WaitBlocked | WaitNil | WaitErr.

Record Drainer := mkDrainer { count : Z; wg : Z; draining : bool; ops : list Op; waiters : list Waiter }.
Definition NewDrainer (n k : nat) : Drainer := mkDrainer 0 0 false (replicate n OpNew) (replicate k WaitBlocked).

Definition set_op (i : nat) (o : Op) (dc dw : Z) (d : Drainer) : Drainer :=
  mkDrainer (count d + dc) (wg d + dw) (draining d) (<[i := o]> (ops d)) (waiters d).
Definition set_waiter (j : nat) (w : Waiter) (d : Drainer) : Drainer :=
  mkDrainer (count d) (wg d) (draining d) (ops d) (<[j := w]> (waiters d)).
Definition close_done (d : Drainer) : Drainer := mkDrainer (count d) (wg d) true (ops d) (waiters d).

Inductive drainer_step : Drainer -> Drainer -> Prop :=
(** [Add] *)
| ds_reject d i : ops d !! i = Some OpNew -> draining d = true -> drainer_step d (set_op i OpRejected 0 0 d)
| ds_pass d i : ops d !! i = Some OpNew -> draining d = false -> drainer_step d (set_op i OpPassed 0 0 d)
| ds_count d i : ops d !! i = Some OpPassed -> drainer_step d (set_op i OpCounted 1 0 d)
| ds_add d i : ops d !! i = Some OpCounted -> drainer_step d (set_op i OpRunning 0 1 d)
(** [Done] *)
| ds_uncount d i : ops d !! i = Some OpRunning -> drainer_step d (set_op i OpUncounted (-1) 0 d)
| ds_done d i : ops d !! i = Some OpUncounted -> drainer_step d (set_op i OpDone 0 (-1) d)
(** [StartDrain], whose [once] makes later calls no steps *)
| ds_start d : draining d = false -> drainer_step d (close_done d)
(** [Wait] *)
| ds_wait d j : waiters d !! j = Some WaitBlocked -> wg d = 0%Z -> drainer_step d (set_waiter j WaitNil d)
| ds_cancel d j : waiters d !! j = Some WaitBlocked -> drainer_step d (set_waiter j WaitErr d).

Definition in_count (o : Op) : Z := match o with OpCounted | OpRunning => 1 | _ => 0 end.
Definition in_wg (o : Op) : Z := match o with OpRunning | OpUncounted => 1 | _ => 0 end.
Definition total (f : Op -> Z) (l : list Op) : Z := foldr (fun o z => f o + z)%Z 0%Z l.

Lemma total_insert f l i o0 o : l !! i = Some o0 -> (total f (<[i := o]> l) = total f l - f o0 + f o)%Z.
Proof.
  revert i. induction l as [|x l IH]; intros [|i] Hi; cbn in *; simplify_eq; [lia|]. specialize (IH _ Hi).
  change (f x + total f (<[i := o]> l) = f x + total f l - f o0 + f o)%Z. lia.
Qed.

Record drainer_ok (d : Drainer) : Prop := mkDrainerOk { dk_count : count d = total in_count (ops d); dk_wg : wg d = total in_wg (ops d) }.

Lemma drainer_step_ok d d' : drainer_step d d' -> drainer_ok d -> drainer_ok d'.
Proof.
  intros Hst [H1 H2]. destruct Hst as [d i Hi _|d i Hi _|d i Hi|d i Hi|d i Hi|d i Hi|d _|d j _ _|d j _]; split; cbn [set_op set_waiter close_done count wg ops]; try done;
    erewrite total_insert by exact Hi; cbn; lia.
Qed.

Lemma drainer_reachable_ok n k d : rtc drainer_step (NewDrainer n k) d -> drainer_ok d.
Proof.
  assert (drainer_ok (NewDrainer n k)) as H0 by (split; cbn; induction n; cbn; auto).
  intros H. induction H as [|d d' d'' Hst _ IH]; [done|]. apply IH. by eapply drainer_step_ok.
Qed.

(** Nobody is inside [Add] past its check. *)
Definition settled (d : Drainer) : Prop := Forall (fun o => o <> OpPassed /\ o <> OpCounted) (ops d).
Definition idle (d : Drainer) : Prop := Forall (fun o => in_wg o = 0%Z /\ in_count o = 0%Z) (ops d).

Lemma total_zero f l : (forall o, 0 <= f o)%Z -> total f l = 0%Z -> Forall (fun o => f o = 0%Z) l.
Proof.
  intros Hf. induction l as [|o l IH]; intros H; [constructor|]. cbn in H.
  assert (0 <= total f l)%Z by (clear -Hf; induction l as [|x l IH]; cbn; [lia | fold (total f l); pose proof (Hf x); lia]).
  pose proof (Hf o). fold (total f l) in H. constructor; [lia | apply IH; lia].
Qed.

Lemma drained_step d d' : drainer_step d d' -> draining d = true -> settled d -> idle d ->
  draining d' = true /\ settled d' /\ idle d'.
Proof.
  unfold settled, idle. intros Hst Hd Hs Hi. destruct Hst as [d i Ho _|d i Ho Hf|d i Ho|d i Ho|d i Ho|d i Ho|d Hf|d j _ _|d j _]; cbn; try done;
    try congruence; try (split; [done|]); try (exfalso; rewrite Forall_lookup in Hs; by destruct (Hs _ _ Ho));
    try (exfalso; rewrite Forall_lookup in Hi; by destruct (Hi _ _ Ho)).
  split; apply Forall_insert; done.
Qed.

(** The counters of a drainer are the operations in flight in every
    reachable state.  Once draining has started, no [Add] is past its check and
    a [Wait] returns nil, no operation runs, and none ever will. *)
Theorem drainer_drains n k d j : rtc drainer_step (NewDrainer n k) d ->
  (count d = total in_count (ops d) /\ wg d = total in_wg (ops d)) /\
  (draining d = true -> settled d -> waiters d !! j = Some WaitBlocked -> wg d = 0%Z ->
   forall d', rtc drainer_step (set_waiter j WaitNil d) d' -> count d' = 0%Z /\ wg d' = 0%Z /\ OpRunning ∉ ops d').
Proof.
  intros Hr. destruct (drainer_reachable_ok _ _ _ Hr) as [H1 H2]. split; [done|]. intros Hd Hs Hj Hw d' Hr'.
  assert (rtc drainer_step (NewDrainer n k) d') as Hreach.
  { etrans; [exact Hr|]. eapply rtc_l; [by eapply ds_wait | exact Hr']. }
  assert (idle d) as Hi.
  { rewrite Hw in H2. symmetry in H2. apply total_zero in H2; [|by intros []]. unfold idle, settled in *. rewrite Forall_forall in *.
    intros o Ho. split; [by apply H2|]. destruct (Hs o Ho). specialize (H2 o Ho). by destruct o. }
  assert (draining d' = true /\ settled d' /\ idle d') as (_ & _ & Hi').
  { assert (draining (set_waiter j WaitNil d) = true /\ settled (set_waiter j WaitNil d) /\ idle (set_waiter j WaitNil d)) as H by done.
    clear -Hr' H. induction Hr' as [|x y z Hst _ IH]; [done|]. apply IH. destruct H as (? & ? & ?). by eapply drained_step. }
  destruct (drainer_reachable_ok _ _ _ Hreach) as [H1' H2']. unfold idle in Hi'.
  assert (total in_count (ops d') = 0%Z /\ total in_wg (ops d') = 0%Z) as [E1 E2].
  { clear -Hi'. induction Hi' as [|o l [? ?] _ [IH1 IH2]]; [done|]. cbn. fold (total in_count l) (total in_wg l). lia. }
  split; [congruence|]. split; [congruence|]. intros Hin. rewrite Forall_forall in Hi'. by destruct (Hi' _ Hin).
Qed.

(** Without that proviso [Wait] can return nil too early: an [Add]
    that saw the channel open starts its operation after draining has started
    and [Wait] has returned. *)
Theorem drainer_race : exists d, rtc drainer_step (NewDrainer 1 1) d /\
  draining d = true /\ waiters d !! 0 = Some WaitNil /\ ops d !! 0 = Some OpRunning.
Proof.
  eexists. split.
  - eapply rtc_l; [by apply (ds_pass _ 0)|]. eapply rtc_l; [by apply ds_start|].
    eapply rtc_l; [by apply (ds_wait _ 0)|]. eapply rtc_l; [by apply (ds_count _ 0)|].
    eapply rtc_l; [by apply (ds_add _ 0)|]. apply rtc_refl.
  - done.
Qed.

End Drainer.

(** ** Concrete shutdowns *)
Section Examples.
Let returns (d : Z) : HookFunc unit unit := fun start _ => Some (start + d, FnReturned unit unit None).
Let hangs : HookFunc unit unit := fun _ _ => None.
Let by_priority (a b : Hook unit unit) : Prop := Priority _ _ b <= Priority _ _ a.
#[local] Instance by_priority_dec : RelDecision by_priority.
Proof. intros a b. unfold by_priority. apply _. Defined.
#[local] Instance by_priority_total : Total by_priority.
Proof. intros a b. unfold by_priority. lia. Qed.
#[local] Instance by_priority_trans : Transitive by_priority.
Proof. intros a b c. unfold by_priority. lia. Qed.

Let hooks : list (Hook unit unit) := [mkHook _ _ "cache" 60 (returns 5); mkHook _ _ "http" 90 hangs; mkHook _ _ "db" 70 (returns 7)].
Let run := Shutdown unit unit (fun _ _ => true) (merge_sort by_priority) (fun l => l).

Lemma shutdown_bounded_witness : (run 0 (with_registry _ _ hooks (NewManager _ _ DefaultConfig))).1 <= 30 * Second.
Proof.
  exact (proj2 (proj1 (shutdown_bounded unit unit (fun _ _ => true) (merge_sort by_priority) (fun l => l) (merge_sort_Permutation by_priority)
    (StronglySorted_merge_sort by_priority) (fun l => Permutation_refl l) DefaultConfig hooks 0 _ _
    (surjective_pairing (run 0 (with_registry _ _ hooks (NewManager _ _ DefaultConfig))))))).
Defined.

Lemma shutdown_order_witness : let m := with_registry _ _ hooks (NewManager _ _ DefaultConfig) in
  state _ _ (run 0 m).2 = StateShutdown /\ map (fun r => Name _ _ (r_Hook _ _ r)) (trace _ _ (run 0 m).2) = ["http"; "db"; "cache"]%string.
Proof.
  intros m. split; [|vm_compute; reflexivity].
  destruct (shutdown_order unit unit (fun _ _ => true) (merge_sort by_priority) (fun l => l) (merge_sort_Permutation by_priority)
    (StronglySorted_merge_sort by_priority) (fun l => Permutation_refl l)
    (WithTimeout (mkContext None true) 0 (OverallTimeout DefaultConfig)) 0 m (run 0 m).1 (run 0 m).2 ltac:(vm_compute; discriminate) eq_refl eq_refl eq_refl)
    as (_ & _ & _ & H & _); [reflexivity | exact H].
Defined.

Lemma drainer_drains_witness : wg (NewDrainer 2 1) = total in_wg (ops (NewDrainer 2 1)).
Proof. exact (proj2 (proj1 (drainer_drains 2 1 (NewDrainer 2 1) 0 (rtc_refl _ _)))). Defined.
End Examples.
