(* ===== verification/GoText.v ===== *)
(** More of Go's [strings]: prefixes, substrings, white space and letter case.  White
    space is that of [unicode.IsSpace], looked for rune by rune. *)

From Stdlib Require Import ZArith Lia Ascii.
From stdpp Require Import base strings list.
From S2P Require Import Prelude GoStrings.

#[local] Open Scope string_scope.

(** ** Prefixes and substrings *)
Fixpoint HasPrefix (s p : string) : bool :=
  match p, s with
  | EmptyString, _ => true
  | String c p', String d s' => Ascii.eqb c d && HasPrefix s' p'
  | String _ _, EmptyString => false
  end.
Definition TrimPrefix (s p : string) : string := if HasPrefix s p then drop_str (String.length p) s else s.

Fixpoint Contains (s sub : string) : bool :=
  HasPrefix s sub || match s with EmptyString => false | String _ s' => Contains s' sub end.

(** ** White space *)
Definition IsSpace (r : Z) : bool :=
  ((9 <=? r) && (r <=? 13) || (r =? 32) || (r =? 133) || (r =? 160) || (r =? 5760) || (8192 <=? r) && (r <=? 8202) ||
   (r =? 8232) || (r =? 8233) || (r =? 8239) || (r =? 8287) || (r =? 12288))%Z.

Fixpoint take_str (n : nat) (s : string) : string :=
  match n, s with S n', String c s' => String c (take_str n' s') | _, _ => "" end.

(** The runes of a string, each with its bytes. *)
Fixpoint pieces_from (fuel : nat) (s : string) : list (Z * string) :=
  match fuel, s with
  | O, _ | _, EmptyString => []
  | S fuel', _ => let '(r, w) := decode_rune s in (r, take_str w s) :: pieces_from fuel' (drop_str w s)
  end.
Definition pieces (s : string) : list (Z * string) := pieces_from (String.length s) s.

Definition text (l : list (Z * string)) : string := Join (map snd l) "".

Fixpoint drop_while {A} (p : A -> bool) (l : list A) : list A :=
  match l with x :: l' => if p x then drop_while p l' else l | [] => [] end.
Definition trim_pieces (p : Z -> bool) (s : string) : string :=
  let cut := drop_while (fun x : Z * string => p x.1) in text (rev (cut (rev (cut (pieces s))))).

Definition TrimSpace (s : string) : string := trim_pieces IsSpace s.
(** [strings.Trim s cutset]. *)
Definition Trim (s cutset : string) : string :=
  trim_pieces (fun r => existsb (fun x => (x.2 =? r)%Z) (range_runes cutset)) s.

Fixpoint fields_from (l : list (Z * string)) (cur : string) : list string :=
  match l with
  | [] => if String.eqb cur "" then [] else [cur]
  | (r, w) :: l' => if IsSpace r then (if String.eqb cur "" then fields_from l' "" else cur :: fields_from l' "")
                    else fields_from l' (cur ++ w)
  end.
(** [strings.Fields]. *)
Definition Words (s : string) : list string := fields_from (pieces s) "".

(** ** Lemmas *)
Lemma HasPrefix_app p s : HasPrefix (p ++ s) p = true.
Proof. induction p as [|c p IH]; cbn; [by destruct s|]. by rewrite Ascii.eqb_refl. Qed.

Lemma HasPrefix_spec s p : HasPrefix s p = true <-> exists t, s = p ++ t.
Proof.
  split; [|intros [t ->]; apply HasPrefix_app]. revert s. induction p as [|c p IH]; intros s; cbn; [by exists s|].
  destruct s as [|d s]; [done|]. intros [<-%Ascii.eqb_eq [t ->]%IH]%andb_true_iff. by exists t.
Qed.

Lemma drop_str_app p s : drop_str (String.length p) (p ++ s) = s.
Proof. induction p as [|c p IH]; cbn; [by destruct s | done]. Qed.

Lemma TrimPrefix_app p s : TrimPrefix (p ++ s) p = s.
Proof. unfold TrimPrefix. by rewrite HasPrefix_app, drop_str_app. Qed.

Lemma Contains_spec s sub : Contains s sub = true <-> exists a b, s = a ++ sub ++ b.
Proof.
  split.
  - induction s as [|c s IH]; cbn [Contains]; rewrite ?orb_false_r.
    + intros [t ->]%HasPrefix_spec. by exists "", t.
    + intros [[t ->]%HasPrefix_spec | (a & b & ->)%IH]%orb_true_iff; [by exists "", t | by exists (String c a), b].
  - intros (a & b & ->). induction a as [|c a IH]; cbn [String.append].
    + assert (HasPrefix (sub ++ b) sub = true) as H by apply HasPrefix_app.
      destruct (sub ++ b); cbn [Contains]; by rewrite H.
    + cbn [Contains]. rewrite IH. apply orb_true_r.
Qed.

(** Text of printable ASCII is its own pieces, and trimming it only looks at
    its ends. *)
Definition is_ascii (c : ascii) : bool := (byte c <? 128)%Z.

Fixpoint chars (s : string) : list (Z * string) :=
  match s with EmptyString => [] | String c s' => (byte c, String c "") :: chars s' end.

Lemma pieces_ascii s : str_forall is_ascii s = true -> pieces s = chars s.
Proof.
  unfold pieces. induction s as [|c s IH]; cbn [str_forall]; [done|]. intros [Hc Hs]%andb_true_iff.
  cbn [String.length pieces_from]. cbn [decode_rune]. unfold is_ascii in Hc. rewrite Hc. cbn [take_str drop_str chars].
  by rewrite IH.
Qed.

Lemma text_cons x l : text (x :: l) = x.2 ++ text l.
Proof. unfold text. cbn. destruct l; cbn; [by rewrite sapp_nil_r | done]. Qed.

Lemma text_chars s : text (chars s) = s.
Proof. induction s as [|c s IH]; [done|]. cbn [chars]. rewrite text_cons, IH. done. Qed.

Lemma chars_app a b : chars (a ++ b) = (chars a ++ chars b)%list.
Proof. induction a as [|c a IH]; cbn; [done | by rewrite IH]. Qed.

(** A text that starts and ends with bytes that stay is not trimmed. *)
Lemma trim_fixed p c s d : str_forall is_ascii (String c s) = true -> (exists s', String c s = s' ++ String d "") ->
  p (byte c) = false -> p (byte d) = false -> trim_pieces p (String c s) = String c s.
Proof.
  intros Ha [s' Hs'] Hc Hd. unfold trim_pieces. rewrite (pieces_ascii _ Ha).
  assert (forall l x, p x.1 = false -> drop_while (fun x : Z * string => p x.1) (x :: l) = x :: l) as Hdrop
    by (intros l x Hx; cbn; by rewrite Hx).
  cbn [chars]. rewrite (Hdrop (chars s) (byte c, String c "")) by done. change ((byte c, String c "") :: chars s) with (chars (String c s)).
  rewrite Hs', chars_app. cbn [chars]. rewrite rev_app_distr. cbn [rev app]. rewrite (Hdrop _ (byte d, String d "")) by done.
  cbn [rev]. rewrite rev_involutive. change [(byte d, String d "")] with (chars (String d "")). by rewrite <- chars_app, text_chars.
Qed.

Lemma drop_while_app {A} (p : A -> bool) l1 l2 : Forall (fun x => p x = true) l1 ->
  drop_while p (l1 ++ l2) = drop_while p l2.
Proof. induction 1 as [|x l Hx _ IH]; cbn; [done | by rewrite Hx]. Qed.

Definition all_pieces (p : Z -> bool) (s : string) : bool := str_forall (fun c => is_ascii c && p (byte c)) s.

Lemma all_pieces_ascii p s : all_pieces p s = true -> str_forall is_ascii s = true.
Proof. apply str_forall_impl. by intros c [? _]%andb_true_iff. Qed.

Lemma all_pieces_chars p s : all_pieces p s = true -> Forall (fun x : Z * string => p x.1 = true) (chars s).
Proof.
  unfold all_pieces. induction s as [|c s IH]; cbn; [constructor|]. intros [[_ Hc]%andb_true_iff Hs]%andb_true_iff.
  constructor; auto.
Qed.

(** What is trimmed around a text does not matter. *)
Lemma trim_around p a s b : all_pieces p a = true -> all_pieces p b = true -> str_forall is_ascii s = true ->
  trim_pieces p (a ++ s ++ b) = trim_pieces p s.
Proof.
  intros Ha Hb Hs. unfold trim_pieces.
  rewrite !pieces_ascii, !chars_app by (rewrite ?str_forall_app, ?Hs, ?(all_pieces_ascii p); done).
  rewrite drop_while_app by by apply all_pieces_chars. generalize (chars s) as l. intros l. f_equal. f_equal.
  apply all_pieces_chars in Hb. clear -Hb. set (q := fun x : Z * string => p x.1) in *.
  induction l as [|x l IH]; cbn [app drop_while].
  - assert (drop_while q (chars b) = []) as ->; [|done]. induction Hb as [|y k Hy _ IHk]; cbn; [done|]. change (q y = true) in Hy. by rewrite Hy.
  - destruct (q x) eqn:Hx; [done|]. change (x :: (l ++ chars b)) with ((x :: l) ++ chars b)%list.
    rewrite rev_app_distr, drop_while_app; [done|]. by apply List.Forall_rev.
Qed.

(** A text without anything to trim stays. *)
Lemma trim_none p s : all_pieces (fun r => negb (p r)) s = true -> trim_pieces p s = s.
Proof.
  intros Hs. unfold trim_pieces. rewrite pieces_ascii by by eapply all_pieces_ascii. apply all_pieces_chars in Hs.
  assert (forall l : list (Z * string), Forall (fun x => negb (p x.1) = true) l -> drop_while (fun x => p x.1) l = l) as Hdrop.
  { intros l [|x k Hx _]; [done|]. cbn. apply negb_true_iff in Hx. by rewrite Hx. }
  rewrite (Hdrop _ Hs), Hdrop by (by apply List.Forall_rev). by rewrite rev_involutive, text_chars.
Qed.

(** ** Splitting at one byte *)
Fixpoint count_byte (c : ascii) (s : string) : nat :=
  match s with EmptyString => 0 | String d s' => (if Ascii.eqb d c then 1 else 0) + count_byte c s' end.

Lemma Split_length sep s : length (Split sep s) = S (count_byte sep s).
Proof.
  induction s as [|c s IH]; cbn; [done|]. destruct (Ascii.eqb c sep); cbn; [by rewrite IH|].
  destruct (Split sep s); [done|]. cbn in *. lia.
Qed.

Lemma Split_at sep a b : count_byte sep a = 0 -> Split sep (a ++ String sep b) = a :: Split sep b.
Proof.
  induction a as [|c a IH]; cbn; [by rewrite Ascii.eqb_refl|]. destruct (Ascii.eqb c sep); [done|]. intros H.
  by rewrite IH.
Qed.

Lemma Split_one sep s : count_byte sep s = 0 -> Split sep s = [s].
Proof. induction s as [|c s IH]; cbn; [done|]. destruct (Ascii.eqb c sep); [done|]. intros H. by rewrite IH. Qed.

Lemma count_byte_app c a b : count_byte c (a ++ b) = count_byte c a + count_byte c b.
Proof. induction a as [|d a IH]; cbn; [done|]. rewrite IH. lia. Qed.

Lemma count_byte_none c p s : p c = false -> str_forall p s = true -> count_byte c s = 0.
Proof.
  intros Hp. induction s as [|d s IH]; cbn; [done|]. intros [Hd Hs]%andb_true_iff.
  destruct (ascii_eqb_spec d c) as [->|]; [congruence|]. cbn. auto.
Qed.

Lemma Join_cons_2 p q l sep : Join (p :: q :: l) sep = p ++ sep ++ Join (q :: l) sep.
Proof. done. Qed.
Lemma Join_Split sep s : Join (Split sep s) (String sep "") = s.
Proof.
  induction s as [|c s IH]; [done|]. cbn [Split]. destruct (Ascii.eqb_spec c sep) as [->|Hne].
  - pose proof (Split_length sep s) as Hl. destruct (Split sep s) as [|p l]; [done|].
    rewrite Join_cons_2, IH. done.
  - destruct (Split sep s) as [|p [|q l]]; cbn in IH |- *; by rewrite <- ?IH.
Qed.
Lemma Split_Join sep l : l <> [] -> Forall (fun p => count_byte sep p = 0) l -> Split sep (Join l (String sep "")) = l.
Proof.
  induction l as [|p [|q l] IH]; [done| |]; intros _ [Hp Hl]%Forall_cons_1.
  - by apply Split_one.
  - rewrite Join_cons_2. cbn [String.append]. rewrite Split_at by done. by rewrite IH.
Qed.

(** * Letter case on any text.  The tables of [unicode] are a class; of ASCII they
    are known. *)
#[local] Open Scope Z_scope.

Class Unicode := mkUnicode {
  rune_lower : Z -> Z;
  rune_upper : Z -> Z;
  rune_title : Z -> Z;
  rune_letter : Z -> bool;
  rune_digit : Z -> bool }.

Definition ascii_lower (r : Z) : Z := if (65 <=? r) && (r <=? 90) then r + 32 else r.
Definition ascii_upper (r : Z) : Z := if (97 <=? r) && (r <=? 122) then r - 32 else r.

Class UnicodeAscii (u : Unicode) : Prop := {
  lower_ascii : forall r, 0 <= r < 128 -> rune_lower r = ascii_lower r;
  upper_ascii : forall r, 0 <= r < 128 -> rune_upper r = ascii_upper r;
  title_ascii : forall r, 0 <= r < 128 -> rune_title r = ascii_upper r }.

(** The tables of a world with nothing but ASCII. *)
#[export] Instance ascii_tables : Unicode := {|
  rune_lower := ascii_lower; rune_upper := ascii_upper; rune_title := ascii_upper;
  rune_letter r := ((65 <=? r) && (r <=? 90)) || ((97 <=? r) && (r <=? 122)); rune_digit r := (48 <=? r) && (r <=? 57) |}.
#[export] Instance ascii_tables_ascii : UnicodeAscii ascii_tables.
Proof. by split. Qed.

Section Case.
Context `{Unicode}.

(** [strings.Map] of a function that drops no rune. *)
Definition Map (f : Z -> Z) (s : string) : string := Join (map (fun ir => encode_rune (f ir.2)) (range_runes s)) "".
Definition Lower (s : string) : string := Map rune_lower s.
Definition Upper (s : string) : string := Map rune_upper s.

Definition isSeparator (r : Z) : bool :=
  if r <=? 127 then
    negb (((48 <=? r) && (r <=? 57)) || ((97 <=? r) && (r <=? 122)) || ((65 <=? r) && (r <=? 90)) || (r =? 95))
  else if rune_letter r || rune_digit r then false else IsSpace r.
(** [strings.Title]: the first rune of every word. *)
Fixpoint title_runes (prev : Z) (l : list Z) : list Z :=
  match l with [] => [] | r :: l' => (if isSeparator prev then rune_title r else r) :: title_runes r l' end.
Definition Title (s : string) : string := Join (map encode_rune (title_runes 32 (map snd (range_runes s)))) "".
End Case.

(** [strings.HasSuffix] *)
Fixpoint HasSuffix (s suffix : string) : bool :=
  String.eqb s suffix || match s with EmptyString => false | String _ s' => HasSuffix s' suffix end.
(** [strings.SplitN(s, sep, n)] for [n > 0] *)
Fixpoint SplitN (sep : ascii) (n : nat) (s : string) : list string :=
  match n with
  | O => []
  | S O => [s]
  | S n' =>
      match Split sep s with
      | p :: _ :: _ => p :: SplitN sep n' (drop_str (S (String.length p)) s)
      | l => l
      end
  end.

(** * ASCII texts *)
Lemma Join_nil_cons p l : Join (p :: l) "" = p ++ Join l "".
Proof. destruct l; cbn; [by rewrite sapp_nil_r|done]. Qed.

Lemma range_ascii s : str_forall is_ascii s = true ->
  forall fuel i, (String.length s <= fuel)%nat -> map snd (range_runes_from fuel i s) = map byte (String.list_ascii_of_string s).
Proof.
  induction s as [|c s IH]; intros Ha fuel i Hf; [by destruct fuel|]. cbn in Ha. apply andb_true_iff in Ha as [Hc Ha].
  destruct fuel as [|fuel]; [cbn in Hf; lia|]. cbn [range_runes_from].
  assert (decode_rune (String c s) = (byte c, 1%nat)) as ->.
  { unfold is_ascii in Hc. cbn. by rewrite Hc. }
  cbn. f_equal. apply IH; [done|]. cbn in Hf. lia.
Qed.
Lemma runes_ascii s : str_forall is_ascii s = true -> map snd (range_runes s) = map byte (String.list_ascii_of_string s).
Proof. intros Ha. by apply range_ascii. Qed.

Lemma encode_ascii r : 0 <= r < 128 -> encode_rune r = String (of_byte r) "".
Proof. intros Hr. unfold encode_rune. by destruct (Z.ltb_spec r 128); [|lia]. Qed.

Lemma Map_ascii f g s : str_forall is_ascii s = true ->
  (forall c, is_ascii c = true -> encode_rune (f (byte c)) = String (g c) "") -> Map f s = str_map g s.
Proof.
  intros Ha Hf. unfold Map. rewrite <- (map_map snd (fun r => encode_rune (f r))), runes_ascii by done.
  induction s as [|c s IH]; [done|]. cbn in Ha. apply andb_true_iff in Ha as [Hc Ha].
  cbn [String.list_ascii_of_string map]. rewrite Join_nil_cons, Hf by done. cbn. f_equal. by apply IH.
Qed.
(** On ASCII it is the [ToLower] of [GoStrings]. *)
Lemma Lower_ascii `{UnicodeAscii} s : str_forall is_ascii s = true -> Lower s = ToLower s.
Proof.
  intros Ha. apply Map_ascii; [done|]. intros c Hc. unfold is_ascii in Hc. pose proof (byte_range c).
  rewrite lower_ascii by lia. unfold ascii_lower, lower, is_upper, in_range. case_match.
  - apply encode_ascii. lia.
  - rewrite encode_ascii by lia. by rewrite of_byte_byte.
Qed.

Lemma HasSuffix_spec s suffix : HasSuffix s suffix = true <-> exists p, s = p ++ suffix.
Proof.
  induction s as [|c s IH]; cbn [HasSuffix].
  - rewrite orb_false_r, String.eqb_eq. split; [intros <-; by exists ""|]. by intros [[|d p] E].
  - rewrite orb_true_iff, String.eqb_eq, IH. split.
    + intros [<- | [p ->]]; [by exists ""|by exists (String c p)].
    + intros [[|d p] E]; [by left|]. injection E as -> ->. right. by exists p.
Qed.
