(* ===== verification/GoDuration.v ===== *)
(** [time.ParseDuration] of Go's standard library: signed sequences of decimal
    numbers with units, in nanoseconds, with its checks for overflow of
    [uint64] and its use of [float64] for fractions. *)

From Stdlib Require Import ZArith Lia Ascii SpecFloat DecimalString.
From stdpp Require Import base strings list.
From S2P Require Import Prelude GoStrings GoText Retry.

#[local] Open Scope string_scope.
#[local] Open Scope Z_scope.

Inductive DurationError := InvalidDuration | MissingUnit | UnknownUnit (u : string).

(** Digits up to the first other byte; [None] on overflow. *)
Fixpoint leadingInt (x : Z) (s : string) : option (Z * string) :=
  match s with
  | String c s' =>
      if is_digit c then
        if (2 ^ 63 / 10 <? x) then None
        else let x' := x * 10 + (byte c - 48) in
             if (2 ^ 63 <? x') then None else leadingInt x' s'
      else Some (x, s)
  | EmptyString => Some (x, s)
  end.

(** Digits beyond what [int64] holds are skipped. *)
Fixpoint leadingFraction (x : Z) (scale : float64) (overflow : bool) (s : string) : Z * float64 * string :=
  match s with
  | String c s' =>
      if is_digit c then
        let y := x * 10 + (byte c - 48) in
        if overflow || (int64_max / 10 <? x) || (2 ^ 63 <? y) then leadingFraction x scale true s'
        else leadingFraction y (f_mul scale (f_of_int 10)) false s'
      else (x, scale, s)
  | EmptyString => (x, scale, s)
  end.

Definition ends_unit (c : ascii) : bool := Ascii.eqb c "." || is_digit c.
Fixpoint span_unit (s : string) : string * string :=
  match s with
  | String c s' => if ends_unit c then ("", s) else let '(u, r) := span_unit s' in (String c u, r)
  | EmptyString => ("", "")
  end.

Definition Microsecond : Z := 1000.
Definition Hour : Z := 60 * Minute.
Definition unitMap (u : string) : option Z :=
  if String.eqb u "ns" then Some Nanosecond
  else if String.eqb u "us" || String.eqb u "µs" || String.eqb u "μs" then Some Microsecond
  else if String.eqb u "ms" then Some Millisecond
  else if String.eqb u "s" then Some Second
  else if String.eqb u "m" then Some Minute
  else if String.eqb u "h" then Some Hour
  else None.

(** [uint64(f)] of a small float that is not negative. *)
Definition float_floor (f : float64) : Z := match f with S754_finite neg m e => f_trunc neg m e | _ => 0 end.

(** A dot and digits: the fraction, its scale, the rest, and whether it has a digit. *)
Definition duration_fraction (s : string) : Z * float64 * string * bool :=
  match s with
  | String c s' =>
      if Ascii.eqb c "." then
        let '(f, scale, r) := leadingFraction 0 (f_of_int 1) false s' in (f, scale, r, negb (String.eqb r s'))
      else (0, f_of_int 1, s, false)
  | EmptyString => (0, f_of_int 1, s, false)
  end.

(** One number and its unit: the nanoseconds and the rest. *)
Definition duration_part (s : string) : result DurationError (Z * string) :=
  match s with
  | EmptyString => Err InvalidDuration
  | String c0 _ =>
      if negb (ends_unit c0) then Err InvalidDuration
      else match leadingInt 0 s with
      | None => Err InvalidDuration
      | Some (v, s1) =>
          let pre := negb (String.eqb s1 s) in
          let '(f, scale, s2, post) := duration_fraction s1 in
          if negb pre && negb post then Err InvalidDuration
          else let '(u, rest) := span_unit s2 in
          if String.eqb u "" then Err MissingUnit
          else match unitMap u with
          | None => Err (UnknownUnit u)
          | Some unit_ =>
              if (2 ^ 63 / unit_ <? v) then Err InvalidDuration
              else let v := v * unit_ in
                   let v := if 0 <? f then v + float_floor (f_mul (f_of_int f) (SFdiv 53 1024 (f_of_int unit_) scale)) else v in
                   if (0 <? f) && (2 ^ 63 <? v) then Err InvalidDuration else Ok (v, rest)
          end
      end
  end.

Fixpoint duration_parts (fuel : nat) (d : Z) (s : string) : result DurationError Z :=
  match s with
  | EmptyString => Ok d
  | _ =>
      match fuel with
      | O => Err InvalidDuration
      | S fuel' =>
          match duration_part s with
          | Err e => Err e
          | Ok (v, rest) =>
              let d := (d + v) mod 2 ^ 64 in
              if (2 ^ 63 <? d) then Err InvalidDuration else duration_parts fuel' d rest
          end
      end
  end.

Definition ParseDuration (s : string) : result DurationError Z :=
  let '(neg, body) :=
    match s with
    | String c s' => if Ascii.eqb c "-" then (true, s') else if Ascii.eqb c "+" then (false, s') else (false, s)
    | EmptyString => (false, s)
    end in
  if String.eqb body "0" then Ok 0
  else if String.eqb body "" then Err InvalidDuration
  else match duration_parts (String.length body) 0 body with
       | Err e => Err e
       | Ok d => if neg : bool then Ok (wrap64 (- wrap64 d)) else if (int64_max <? d) then Err InvalidDuration else Ok d
       end.

Example duration_hours : ParseDuration "24h" = Ok (24 * Hour). Proof. vm_compute. reflexivity. Qed.
Example duration_mixed : ParseDuration "-1h2m3.5s" = Ok (- (Hour + 2 * Minute + 3500 * Millisecond)).
Proof. vm_compute. reflexivity. Qed.
Example duration_micro : ParseDuration "1.5µs" = Ok 1500. Proof. vm_compute. reflexivity. Qed.
Example duration_min : ParseDuration "-9223372036854775808ns" = Ok int64_min. Proof. vm_compute. reflexivity. Qed.
Example duration_too_long : ParseDuration "9223372036854775808ns" = Err InvalidDuration. Proof. vm_compute. reflexivity. Qed.
Example duration_no_unit : ParseDuration "30" = Err MissingUnit. Proof. vm_compute. reflexivity. Qed.

(** ** The fuel suffices *)
Lemma leadingInt_shorter s : forall x v r, leadingInt x s = Some (v, r) -> (String.length r <= String.length s)%nat.
Proof.
  induction s as [|c s IH]; intros x v r; cbn [leadingInt].
  - intros [= <- <-]. done.
  - destruct (is_digit c); [|by intros [= <- <-]]. destruct (_ <? _); [done|]. cbv zeta. destruct (_ <? _); [done|].
    intros H%IH. cbn. lia.
Qed.
Lemma leadingFraction_shorter s : forall x sc o, (String.length (leadingFraction x sc o s).2 <= String.length s)%nat.
Proof.
  induction s as [|c s IH]; intros x sc o; cbn [leadingFraction]; [done|]. destruct (is_digit c); [|done]. cbv zeta.
  destruct (_ || _); (etransitivity; [apply IH|]); cbn; lia.
Qed.
Lemma span_unit_shorter s : (String.length (span_unit s).1 + String.length (span_unit s).2 = String.length s)%nat.
Proof.
  induction s as [|c s IH]; cbn; [done|]. destruct (ends_unit c); [done|]. destruct (span_unit s). cbn in *. lia.
Qed.
Lemma fraction_shorter s : (String.length (duration_fraction s).1.2 <= String.length s)%nat.
Proof.
  destruct s as [|c s]; [done|]. unfold duration_fraction. destruct (Ascii.eqb c "."); [|done].
  pose proof (leadingFraction_shorter s 0 (f_of_int 1) false) as Hf.
  destruct (leadingFraction 0 (f_of_int 1) false s) as [[f sc] r]. cbn in *. lia.
Qed.
Lemma duration_part_shorter s v r : duration_part s = Ok (v, r) -> (String.length r < String.length s)%nat.
Proof.
  unfold duration_part. destruct s as [|c0 s0]; [done|]. destruct (negb (ends_unit c0)); [done|].
  set (s := String c0 s0). destruct (leadingInt 0 s) as [[v1 s1]|] eqn:E1; [|done].
  pose proof (leadingInt_shorter _ _ _ _ E1) as H1.
  pose proof (fraction_shorter s1) as H2. cbv zeta. destruct (duration_fraction s1) as [[[f sc] s2] post].
  cbn in H2. destruct (_ && _); [done|].
  pose proof (span_unit_shorter s2) as H3. destruct (span_unit s2) as [u rest]. cbn in H3.
  destruct (String.eqb_spec u "") as [|Hu]; [done|]. destruct (unitMap u); [|done]. destruct (_ <? _); [done|].
  destruct (_ && _); [done|]. intros [= _ <-]. destruct u; [done|]. cbn in *. lia.
Qed.
(** Any fuel that is as long as the text gives the same answer. *)
Lemma duration_parts_fuel m : forall n s d, (String.length s <= m)%nat -> (String.length s <= n)%nat ->
  duration_parts m d s = duration_parts n d s.
Proof.
  induction m as [|m IH]; intros n s d Hm Hn; destruct s as [|c s]; cbn in Hm, Hn; try lia; [by destruct n|by destruct n|].
  destruct n as [|n]; [lia|]. cbn [duration_parts]. destruct (duration_part (String c s)) as [[v r]|] eqn:E; [|done]. cbv zeta.
  destruct (_ <? _); [done|]. apply duration_part_shorter in E. cbn in E.
  apply IH; lia.
Qed.

(** ** Whole numbers read back *)
Fixpoint dec_value (x : Z) (ds : string) : Z :=
  match ds with String c ds' => dec_value (x * 10 + (byte c - 48)) ds' | EmptyString => x end.

Lemma dec_value_mono ds : forall x, str_forall is_digit ds = true -> 0 <= x -> x <= dec_value x ds.
Proof.
  induction ds as [|c ds IH]; intros x; cbn [str_forall dec_value]; [lia|].
  intros [Hc%in_range_spec Hd]%andb_true_iff Hx. specialize (IH (x * 10 + (byte c - 48)) Hd). lia.
Qed.
Lemma dec_value_acc d : forall acc, dec_value (Z.pos acc) (NilEmpty.string_of_uint d) = Z.pos (Pos.of_uint_acc d acc).
Proof.
  induction d; intros acc; cbn [NilEmpty.string_of_uint dec_value Pos.of_uint_acc]; [done|..]; rewrite <- IHd;
  match goal with |- context [byte ?c] => let v := eval vm_compute in (byte c) in change (byte c) with v end; f_equal; lia.
Qed.
Lemma dec_value_uint d : dec_value 0 (NilEmpty.string_of_uint d) = Z.of_N (N.of_uint d).
Proof.
  induction d; cbn [NilEmpty.string_of_uint dec_value]; [done|exact IHd|..];
    match goal with |- context [dec_value ?x _] => let v := eval vm_compute in x in change x with v end; by rewrite dec_value_acc.
Qed.
Lemma dec_value_Itoa n : 0 <= n -> dec_value 0 (Itoa n) = n /\ str_forall is_digit (Itoa n) = true.
Proof.
  destruct n as [|p|p]; [done| |lia]. intros _. unfold Itoa. cbn [Z.to_int NilZero.string_of_int].
  destruct (string_of_pos p) as (c & s & E & Hd & Hu). rewrite E. split; [|done].
  pose proof (NilEmpty.sus _ _ Hu) as Hs. rewrite <- Hs, dec_value_uint. apply of_uint_pos.
Qed.

Lemma leadingInt_digits ds : forall x u, str_forall is_digit ds = true -> (forall c t, u = String c t -> is_digit c = false) ->
  0 <= x -> dec_value x ds <= 2 ^ 63 -> leadingInt x (ds ++ u) = Some (dec_value x ds, u).
Proof.
  induction ds as [|c ds IH]; intros x u; cbn [str_forall dec_value].
  - intros _ Hu _ _. destruct u as [|c u]; cbn; [done|]. by rewrite (Hu c u).
  - intros [Hc Hd]%andb_true_iff Hu Hx Hv. cbn [String.append leadingInt]. rewrite Hc. apply in_range_spec in Hc.
    pose proof (dec_value_mono ds (x * 10 + (byte c - 48)) Hd ltac:(lia)) as Hm.
    change (2 ^ 63 / 10) with 922337203685477580. change (2 ^ 63) with 9223372036854775808 in *.
    destruct (Z.ltb_spec 922337203685477580 x); [lia|]. cbv zeta.
    destruct (Z.ltb_spec 9223372036854775808 (x * 10 + (byte c - 48))); [lia|]. apply IH; auto; lia.
Qed.

Lemma span_unit_plain u : str_forall (fun c => negb (ends_unit c)) u = true -> span_unit u = (u, "").
Proof.
  induction u as [|c u IH]; cbn; [done|]. intros [Hc Hu]%andb_true_iff. apply negb_true_iff in Hc. by rewrite Hc, (IH Hu).
Qed.

Lemma unitMap_units u k : unitMap u = Some k ->
  0 < k /\ u <> "" /\ str_forall (fun c => negb (ends_unit c)) u = true.
Proof.
  unfold unitMap. repeat case_match; intros [= <-];
    repeat match goal with
    | H : (_ || _) = true |- _ => apply orb_true_iff in H as [H|H]
    | H : String.eqb u _ = true |- _ => apply String.eqb_eq in H as ->
    end; done.
Qed.
Lemma digits_unit ds u k : unitMap u = Some k -> str_forall is_digit ds = true -> ds <> "" -> dec_value 0 ds * k <= int64_max ->
  duration_part (ds ++ u) = Ok (dec_value 0 ds * k, "").
Proof.
  intros Hu Hd Hne Hmax. destruct (unitMap_units u k Hu) as (Hk & Hune & Hplain).
  pose proof (dec_value_mono ds 0 Hd ltac:(lia)) as H0.
  assert (dec_value 0 ds <= 2 ^ 63) as Hle by (unfold int64_max in Hmax; nia).
  assert (forall c t, u = String c t -> is_digit c = false /\ Ascii.eqb c "." = false) as Hc.
  { intros c t ->. cbn in Hplain. apply andb_true_iff in Hplain as [Hp _]. unfold ends_unit in Hp.
    by apply negb_true_iff, orb_false_iff in Hp as [? ?]. }
  destruct ds as [|c0 ds]; [done|]. unfold duration_part. change (String c0 ds ++ u) with (String c0 (ds ++ u)) at 1.
  cbn [String.append]. cbv beta iota.
  assert (ends_unit c0 = true) as -> by (cbn in Hd; apply andb_true_iff in Hd as [Hd0 _]; unfold ends_unit; by rewrite Hd0, orb_true_r).
  cbn [negb]. change (String c0 (ds ++ u)) with (String c0 ds ++ u).
  rewrite leadingInt_digits by (first [exact Hd | exact Hle | lia | intros c t Ht; apply (Hc c t Ht)]).
  assert (String.eqb u (String c0 ds ++ u) = false) as ->.
  { apply String.eqb_neq. intros E. apply (f_equal String.length) in E. rewrite slen_app in E. cbn in E. lia. }
  assert (duration_fraction u = (0, f_of_int 1, u, false)) as ->.
  { destruct u as [|c t]; [done|]. unfold duration_fraction. by destruct (Hc c t) as [_ ->]. }
  cbn [negb andb]. rewrite (span_unit_plain u Hplain). destruct (String.eqb_spec u "") as [|_]; [done|]. rewrite Hu.
  assert (dec_value 0 (String c0 ds) <= 2 ^ 63 / k) as Hq
    by (apply Z.div_le_lower_bound; [done|]; rewrite Z.mul_comm; unfold int64_max in Hmax; lia).
  destruct (Z.ltb_spec (2 ^ 63 / k) (dec_value 0 (String c0 ds))); [lia|done].
Qed.

(** A whole number of units that fits is read as that many units. *)
Lemma ParseDuration_whole n u k : 0 <= n -> unitMap u = Some k -> n * k <= int64_max -> ParseDuration (Itoa n ++ u) = Ok (n * k).
Proof.
  intros Hn Hu Hmax. destruct (dec_value_Itoa n Hn) as [Hv Hd]. destruct (unitMap_units u k Hu) as (Hk & Hune & _).
  destruct (Itoa_split n) as (sg & ds & E & _ & Hne & _).
  assert (Itoa n <> "") as Hne' by (rewrite E; destruct sg; [done|discriminate]). clear E Hne sg ds.
  pose proof (digits_unit (Itoa n) u k Hu Hd Hne') as Hp. rewrite Hv in Hp. specialize (Hp Hmax).
  destruct (Itoa n) as [|c ds] eqn:Ei; [done|]. cbn [str_forall] in Hd. apply andb_true_iff in Hd as [Hc Hd].
  destruct (digit_not_sign c Hc) as [Hm Hpl]. unfold ParseDuration. cbn [String.append]. rewrite Hm, Hpl.
  destruct (String.eqb_spec (String c (ds ++ u)) "0") as [[= _ Ez]|_]; [destruct ds, u; done|].
  cbn [String.eqb String.length duration_parts]. cbn [String.append] in Hp. rewrite Hp. cbv zeta.
  assert (0 <= n * k) by nia. rewrite Z.add_0_l, Z.mod_small by (unfold int64_max in Hmax; lia).
  unfold int64_max in *. destruct (Z.ltb_spec (2 ^ 63) (n * k)); [lia|].
  assert (forall f, duration_parts f (n * k) "" = Ok (n * k)) as -> by by intros [].
  destruct (Z.ltb_spec (2 ^ 63 - 1) (n * k)); [lia|done].
Qed.
Lemma ParseDuration_seconds n : 0 <= n -> n * Second <= int64_max -> ParseDuration (Itoa n ++ "s") = Ok (n * Second).
Proof. intros. by apply ParseDuration_whole. Qed.

(** Whatever is read fits in [int64]. *)
Lemma ParseDuration_bounds s d : ParseDuration s = Ok d -> in_int64 d = true.
Proof.
  unfold ParseDuration. destruct (match s with EmptyString => _ | String _ _ => _ end) as [neg body].
  destruct (String.eqb body "0"); [by intros [= <-]|]. destruct (String.eqb body ""); [done|].
  destruct (duration_parts (String.length body) 0 body) as [d'|] eqn:E; [|done].
  destruct neg; [intros [= <-]; apply wrap64_in_int64|]. destruct (Z.ltb_spec int64_max d'); [done|]. intros [= <-].
  assert (forall f x t y, 0 <= x -> duration_parts f x t = Ok y -> 0 <= y) as Hpos.
  { induction f as [|f IH]; intros x t y Hx; destruct t as [|c t]; cbn [duration_parts]; try (by intros [= <-]).
    destruct (duration_part (String c t)) as [[v r]|]; [|done]. cbv zeta. destruct (_ <? _); [done|]. apply IH.
    apply Z.mod_pos_bound. lia. }
  specialize (Hpos _ 0 _ _ ltac:(lia) E). unfold in_int64. apply andb_true_iff. unfold int64_min. split; apply Z.leb_le; lia.
Qed.
