(* ===== verification/IntegrationClient.v ===== *)
(** Clients of external services: [internal/integration/dsl_loader.go].

    A call of [Do] touches the circuit breaker three times, each under its
    lock: [Allow], the recording of the outcome and [Done].  [Do] is the
    sequence of one call; [call_step] interleaves any number of calls at these
    points.  The counters count calls and stay far below [2^63].
    [url.Parse], [time.ParseDuration] and the network are parameters. *)

From Stdlib Require Import ZArith Lia.
From stdpp Require Import base strings list gmap relations.
From S2P Require Import Prelude GoStrings DslAst.

#[local] Open Scope string_scope.
#[local] Open Scope Z_scope.

(** ** The circuit breaker *)
Inductive CircuitState := CircuitClosed | CircuitOpen | CircuitHalfOpen.
Record CircuitBreaker := mkCircuitBreaker {
  failureThreshold : Z; timeout : Z; maxConcurrent : Z; failures : Z; lastFailure : Z; state : CircuitState; concurrent : Z }.

Definition set_state (s : CircuitState) (cb : CircuitBreaker) : CircuitBreaker :=
  mkCircuitBreaker (failureThreshold cb) (timeout cb) (maxConcurrent cb) (failures cb) (lastFailure cb) s (concurrent cb).
Definition set_concurrent (n : Z) (cb : CircuitBreaker) : CircuitBreaker :=
  mkCircuitBreaker (failureThreshold cb) (timeout cb) (maxConcurrent cb) (failures cb) (lastFailure cb) (state cb) n.
Definition set_failures (n last : Z) (cb : CircuitBreaker) : CircuitBreaker :=
  mkCircuitBreaker (failureThreshold cb) (timeout cb) (maxConcurrent cb) n last (state cb) (concurrent cb).

Definition enter (cb : CircuitBreaker) : CircuitBreaker := set_concurrent (concurrent cb + 1) cb.

Definition Allow (now : Z) (cb : CircuitBreaker) : CircuitBreaker * result string unit :=
  match state cb with
  | CircuitOpen =>
      if timeout cb <? now - lastFailure cb then (enter (set_state CircuitHalfOpen cb), Ok tt)
      else (cb, Err "circuit breaker is open")
  | CircuitHalfOpen =>
      if 1 <=? concurrent cb then (cb, Err "circuit breaker is half-open, waiting for test request")
      else (enter cb, Ok tt)
  | CircuitClosed =>
      if (0 <? maxConcurrent cb) && (maxConcurrent cb <=? concurrent cb) then (cb, Err "max concurrent requests reached")
      else (enter cb, Ok tt)
  end.

Definition Done (cb : CircuitBreaker) : CircuitBreaker :=
  if 0 <? concurrent cb then set_concurrent (concurrent cb - 1) cb else cb.

Definition RecordFailure (now : Z) (cb : CircuitBreaker) : CircuitBreaker :=
  let cb := set_failures (failures cb + 1) now cb in
  if failureThreshold cb <=? failures cb then set_state CircuitOpen cb else cb.

Definition RecordSuccess (cb : CircuitBreaker) : CircuitBreaker :=
  match state cb with
  | CircuitHalfOpen => set_failures 0 (lastFailure cb) (set_state CircuitClosed cb)
  | _ => cb
  end.

Definition State (cb : CircuitBreaker) : CircuitState := state cb.

(** ** Loading *)
Record AuthConfig := mkAuthConfig {
  ac_Type : string; ac_Token : string; ac_Header : string; ac_Value : string; ac_Config : gmap string string }.

(** A string is taken as it is, [env("NAME")] as the text [${NAME}]. *)
Definition config_value (e : Expression) : option string :=
  match e with
  | StringLiteral _ v => Some v
  | FunctionCall _ n (StringLiteral _ v :: _) => if String.eqb n "env" then Some ("${" ++ v ++ "}") else None
  | _ => None
  end.
Definition buildAuthConfig (a : IntegrationAuthDecl) : AuthConfig :=
  let config := omap config_value (ia_Config a) in
  mkAuthConfig (AuthType a) (default "" (config !! "token")) (default "" (config !! "header")) (default "" (config !! "value")) config.

Record Client := mkClient {
  cl_Name : string; cl_Type : string; cl_BaseURL : string; cl_Auth : option AuthConfig; cl_Timeout : Z;
  cl_Breaker : option CircuitBreaker }.

Inductive LoadError := NilIntegration | InvalidBaseURL (url err : string) | InvalidTimeout (t err : string).

Section Load.
Variable url_Parse : string -> result string unit.
Variable ParseDuration : string -> result string Z.

Definition ConfigureCircuitBreaker (c : CircuitBreakerConfig) : CircuitBreaker :=
  let t := match ParseDuration (cb_Timeout c) with Ok d => d | Err _ => 0 end in
  mkCircuitBreaker (cb_FailureThreshold c) (if t =? 0 then 60 * Second else t) (MaxConcurrent c) 0 0 CircuitClosed 0.

Definition LoadIntegrationFromAST (d : option IntegrationDecl) (r : gmap string Client) :
    gmap string Client * result LoadError Client :=
  match d with
  | None => (r, Err NilIntegration)
  | Some d =>
      match url_Parse (BaseURL d) with
      | Err e => (r, Err (InvalidBaseURL (BaseURL d) e))
      | Ok _ =>
          match (if String.eqb (ig_Timeout d) "" then Ok (30 * Second) else ParseDuration (ig_Timeout d)) with
          | Err e => (r, Err (InvalidTimeout (ig_Timeout d) e))
          | Ok t =>
              let c := mkClient (ig_Name d) (IntgType d) (BaseURL d) (option_map buildAuthConfig (ig_Auth d)) t
                         (option_map ConfigureCircuitBreaker (ig_CircuitBreaker d)) in
              (<[ig_Name d := c]> r, Ok c)
          end
      end
  end.
End Load.
Definition GetClient (n : string) (r : gmap string Client) : option Client := r !! n.
Definition Count (r : gmap string Client) : nat := size r.

(** ** Requests *)
Definition applyAuth (a : AuthConfig) (header : gmap string string) : gmap string string :=
  if String.eqb (ac_Type a) "bearer" then <["Authorization" := "Bearer " ++ ac_Token a]> header
  else if String.eqb (ac_Type a) "apikey" then
    if negb (String.eqb (ac_Header a) "") then <[ac_Header a := ac_Value a]> header else header
  else header.

Record HttpRequest := mkHttpRequest { hr_Method : string; hr_URL : string; hr_Header : gmap string string; hr_Body : option string }.

(** What the network answers: the request cannot be made, it fails, or there is
    a status and a body. *)
Inductive HttpAnswer := NoRequest (e : string) | NoAnswer (e : string) | Answered (status : Z) (body : string).

Definition client_request (c : Client) (method path : string) (body : option string) : HttpRequest :=
  mkHttpRequest method (cl_BaseURL c ++ path) (match cl_Auth c with Some a => applyAuth a ∅ | None => ∅ end) body.

Definition is_failure (a : HttpAnswer) : bool := match a with Answered status _ => 500 <=? status | _ => true end.
Definition record (now : Z) (failed : bool) (cb : CircuitBreaker) : CircuitBreaker :=
  if failed then RecordFailure now cb else RecordSuccess cb.

Definition with_breaker (f : CircuitBreaker -> CircuitBreaker) (c : Client) : Client :=
  mkClient (cl_Name c) (cl_Type c) (cl_BaseURL c) (cl_Auth c) (cl_Timeout c) (option_map f (cl_Breaker c)).

(** One call on its own: started at [t0], answered at [t1]. *)
Definition Do (net : HttpRequest -> HttpAnswer) (t0 t1 : Z) (method path : string) (body : option string) (c : Client) :
    Client * result string (Z * string) :=
  let admitted := match cl_Breaker c with
                  | None => (c, Ok tt)
                  | Some cb => match Allow t0 cb with (cb, r) => (with_breaker (fun _ => cb) c, r) end
                  end in
  match admitted with
  | (c, Err e) => (c, Err e)
  | (c, Ok _) =>
      let a := net (client_request c method path body) in
      let c := with_breaker (fun cb => Done (record t1 (is_failure a) cb)) c in
      (c, match a with NoRequest e | NoAnswer e => Err e | Answered status body => Ok (status, body) end)
  end.

(** ** Calls side by side
    [running] calls have been admitted and not recorded yet, [recorded] ones
    have still to leave. *)
Record Calls := mkCalls { breaker : CircuitBreaker; running : nat; recorded : nat }.

Inductive call_step : Calls -> Calls -> Prop :=
| step_admit now cb cb' m k : Allow now cb = (cb', Ok tt) -> call_step (mkCalls cb m k) (mkCalls cb' (S m) k)
| step_refuse now cb cb' e m k : Allow now cb = (cb', Err e) -> call_step (mkCalls cb m k) (mkCalls cb' m k)
| step_record now failed cb m k : call_step (mkCalls cb (S m) k) (mkCalls (record now failed cb) m (S k))
| step_leave cb m k : call_step (mkCalls cb m (S k)) (mkCalls (Done cb) m k).

(** ** The limit on concurrent calls *)
Definition limited (c : Calls) : Prop :=
  concurrent (breaker c) = Z.of_nat (running c + recorded c) /\
  (0 < maxConcurrent (breaker c) ->
     Z.of_nat (running c) + (match state (breaker c) with CircuitOpen => 1 | _ => 0 end) <= maxConcurrent (breaker c)).

Lemma limited_step c c' : call_step c c' -> limited c ->
  limited c' /\ maxConcurrent (breaker c') = maxConcurrent (breaker c).
Proof.
  intros Hs [Hc Hm]. destruct Hs as [now cb cb' m k Ha | now cb cb' e m k Ha | now failed cb m k | cb m k]; unfold limited; cbn in *.
  - unfold Allow in Ha. destruct (state cb) eqn:Es.
    + destruct ((0 <? maxConcurrent cb) && (maxConcurrent cb <=? concurrent cb)) eqn:E; [done|]. injection Ha as <-. cbn.
      rewrite Es. apply andb_false_iff in E as [E%Z.ltb_ge|E%Z.leb_gt]; lia.
    + destruct (timeout cb <? now - lastFailure cb); [|done]. injection Ha as <-. cbn. lia.
    + destruct (1 <=? concurrent cb) eqn:E; [done|]. apply Z.leb_gt in E. injection Ha as <-. cbn. rewrite Es. lia.
  - assert (cb' = cb) as -> by (unfold Allow in Ha; repeat case_match; by simplify_eq). auto.
  - destruct failed; cbn [record].
    + unfold RecordFailure. cbn zeta. destruct (state cb) eqn:Es, (_ <=? _); cbn; rewrite ?Es; lia.
    + unfold RecordSuccess. destruct (state cb) eqn:Es; cbn; rewrite ?Es; lia.
  - unfold Done. destruct (Z.ltb_spec 0 (concurrent cb)); cbn; lia.
Qed.

(** However the calls of a client interleave, no more than [max_concurrent]
    of them are ever waiting for the service at once, also while the breaker
    opens and probes; the counter is the number of calls that have not left. *)
Theorem calls_limited (cb : CircuitBreaker) (c : Calls)
    (Hfresh : concurrent cb = 0 /\ state cb = CircuitClosed) (Hmax : 0 < maxConcurrent cb)
    (Hr : rtc call_step (mkCalls cb 0 0) c) :
  Z.of_nat (running c) <= maxConcurrent cb /\ concurrent (breaker c) = Z.of_nat (running c + recorded c).
Proof.
  assert (limited c /\ maxConcurrent (breaker c) = maxConcurrent cb) as [[H1 H2] H3].
  { destruct Hfresh as [H0 Hs]. assert (limited (mkCalls cb 0 0)) as Hl by (split; cbn; rewrite ?Hs; lia).
    clear Hmax. revert Hl. change (maxConcurrent cb) with (maxConcurrent (breaker (mkCalls cb 0 0))).
    induction Hr as [x | x y z Hxy _ IH]; [done|]. intros Hl. destruct (limited_step _ _ Hxy Hl) as [Hy E].
    destruct (IH Hy) as [? E2]. split; [done | congruence]. }
  split; [|done]. rewrite H3 in H2. specialize (H2 Hmax). destruct (state (breaker c)); lia.
Qed.

Lemma calls_limited_witness :
  let cb := mkCircuitBreaker 1 Second 1 0 0 CircuitClosed 0 in
  exists c, rtc call_step (mkCalls cb 0 0) c /\ running c = 1%nat /\ state (breaker c) = CircuitHalfOpen /\
    Z.of_nat (running c) <= 1.
Proof.
  intros cb. pose (c := mkCalls (mkCircuitBreaker 1 Second 1 1 0 CircuitHalfOpen 1) 1 0).
  assert (rtc call_step (mkCalls cb 0 0) c) as Hr.
  { eapply rtc_l; [apply (step_admit 0); reflexivity|]. eapply rtc_l; [apply (step_record 0 true)|].
    eapply rtc_l; [apply step_leave|]. apply rtc_once. apply (step_admit (2 * Second)). reflexivity. }
  exists c. split; [exact Hr|]. split; [reflexivity|]. split; [reflexivity|].
  exact (proj1 (calls_limited cb c (conj eq_refl eq_refl) eq_refl Hr)).
Defined.

(** ** Recovery, and what trips the breaker *)

(** Successes do not take failures back while the breaker is closed: it opens
    with the [failureThreshold]-th failure of its life, however many calls
    succeeded in between. *)
Definition outcomes (now : Z) (l : list bool) (cb : CircuitBreaker) : CircuitBreaker :=
  fold_left (fun cb failed => record now failed cb) l cb.

Lemma failures_accumulate now l : forall cb, state cb = CircuitClosed ->
  failures cb + Z.of_nat (length (List.filter (fun b => b) l)) < failureThreshold cb ->
  state (outcomes now l cb) = CircuitClosed /\ failureThreshold (outcomes now l cb) = failureThreshold cb /\
  failures (outcomes now l cb) = failures cb + Z.of_nat (length (List.filter (fun b => b) l)).
Proof.
  induction l as [|b l IH]; intros cb Hs Hf; [cbn; auto with zarith|]. cbn [outcomes fold_left]. destruct b; cbn in Hf.
  - assert (record now true cb = set_failures (failures cb + 1) now cb) as E.
    { unfold record, RecordFailure. cbn. destruct (Z.leb_spec (failureThreshold cb) (failures cb + 1)); [lia | done]. }
    rewrite E. destruct (IH (set_failures (failures cb + 1) now cb)) as (H1 & H2 & H3); [done | cbn; lia|].
    unfold outcomes in *. rewrite H1, H2, H3. cbn. repeat split; lia.
  - assert (record now false cb = cb) as E by (unfold record, RecordSuccess; by rewrite Hs). rewrite E.
    destruct (IH cb Hs Hf) as (H1 & H2 & H3). auto.
Qed.

Lemma trips_at_threshold now l cb : state cb = CircuitClosed -> failures cb = 0 ->
  Z.of_nat (length (List.filter (fun b => b) l)) + 1 = failureThreshold cb -> state (record now true (outcomes now l cb)) = CircuitOpen.
Proof.
  intros Hs H0 Hn. destruct (failures_accumulate now l cb Hs) as (H1 & H2 & H3); [lia|]. cbn [record]. unfold RecordFailure.
  cbn. destruct (Z.leb_spec (failureThreshold (outcomes now l cb)) (failures (outcomes now l cb) + 1)); [done | lia].
Qed.

(** ** What credentials are sent *)

(** A client sends the credentials of its declaration: a bearer token or a
    named header, and nothing for basic authentication.  A credential declared
    as [env("NAME")] is sent as the text [${NAME}], and one declared as
    [env(NAME)] as nothing: no variable is ever read. *)
Theorem credentials_sent (c : Client) (a : IntegrationAuthDecl) method path body
    (Ha : cl_Auth c = Some (buildAuthConfig a)) :
  let h := hr_Header (client_request c method path body) in
  (forall p t, AuthType a = "bearer" -> ia_Config a !! "token" = Some (StringLiteral p t) ->
     h = {["Authorization" := "Bearer " ++ t]}) /\
  (forall p q v args, AuthType a = "bearer" -> ia_Config a !! "token" = Some (FunctionCall p "env" (StringLiteral q v :: args)) ->
     h = {["Authorization" := "Bearer ${" ++ v ++ "}"]}) /\
  (forall p q v args, AuthType a = "bearer" -> ia_Config a !! "token" = Some (FunctionCall p "env" (Identifier q v :: args)) ->
     h = {["Authorization" := "Bearer "]}) /\
  (forall p q n v, AuthType a = "apikey" -> n <> "" -> ia_Config a !! "header" = Some (StringLiteral p n) ->
     ia_Config a !! "value" = Some (StringLiteral q v) -> h = {[n := v]}) /\
  (AuthType a <> "bearer" -> AuthType a <> "apikey" -> h = ∅).
Proof.
  intros h. unfold h, client_request. cbn [hr_Header]. rewrite Ha. unfold applyAuth, buildAuthConfig. cbn [ac_Type ac_Token ac_Header ac_Value].
  rewrite !lookup_omap. repeat split.
  - intros p t -> ->. reflexivity.
  - intros p q v args -> ->. reflexivity.
  - intros p q v args -> ->. reflexivity.
  - intros p q n v -> Hn -> ->. cbn. apply String.eqb_neq in Hn. by rewrite Hn.
  - intros H1%String.eqb_neq H2%String.eqb_neq. by rewrite H1, H2.
Qed.

Definition stripe_auth : IntegrationAuthDecl :=
  let p := mkPosition "app.cai" 1 1 0 in
  mkIntegrationAuth p "bearer" {["token" := FunctionCall p "env" [StringLiteral p "STRIPE_KEY"]]}.
Definition stripe : Client := mkClient "stripe" "rest" "https://api.stripe.com" (Some (buildAuthConfig stripe_auth)) (30 * Second) None.

Lemma credentials_sent_witness :
  hr_Header (client_request stripe "GET" "/v1/charges" None) = {["Authorization" := "Bearer ${STRIPE_KEY}"]}.
Proof.
  destruct (credentials_sent stripe stripe_auth "GET" "/v1/charges" None eq_refl) as (_ & H & _ & _).
  exact (H _ _ "STRIPE_KEY" [] eq_refl eq_refl).
Defined.
