(* ===== verification/GoValue.v ===== *)
(** Values of the empty interface, as the code that runs specifications handles
    them: [internal/codegen], [internal/event] and the JSON they read and write.

    A [map[string]interface{}] is a reference into a heap, so that a map handed
    on and changed in place is changed for everybody who holds it.  A [nil] map
    is the reference [None]; writing to it panics. *)

From Stdlib Require Import ZArith Lia SpecFloat.
From stdpp Require Import base strings list gmap.
From S2P Require Import Prelude GoStrings.

#[local] Open Scope string_scope.

Definition Ref : Type := option positive.

Inductive GoVal :=
| VNil
| VString (s : string)
| VBool (b : bool)
| VInt (z : Z)
| VInt32 (z : Z)
| VInt64 (z : Z)
| VFloat32 (f : spec_float)
| VFloat64 (f : spec_float)
| VTime (t : Z)
| VList (l : list GoVal)
| VStrings (l : list string)
| VInts (l : list Z)
| VFloats (l : list spec_float)
| VMap (m : Ref)
| VMaps (l : list Ref)
| VOther (type : string).

Abbreviation Fields := (gmap string GoVal).
Abbreviation Heap := (gmap positive Fields).

(** [%T]. *)
Definition type_name (v : GoVal) : string :=
  match v with
  | VNil => "<nil>" | VString _ => "string" | VBool _ => "bool" | VInt _ => "int" | VInt32 _ => "int32"
  | VInt64 _ => "int64" | VFloat32 _ => "float32" | VFloat64 _ => "float64" | VTime _ => "time.Time"
  | VList _ => "[]interface {}" | VStrings _ => "[]string" | VInts _ => "[]int" | VFloats _ => "[]float64"
  | VMap _ => "map[string]interface {}" | VMaps _ => "[]map[string]interface {}" | VOther t => t
  end.

Definition is_nil (v : GoVal) : bool := match v with VNil => true | _ => false end.

(** ** Maps *)
Definition fields_of (h : Heap) (m : Ref) : Fields :=
  match m with Some r => default ∅ (h !! r) | None => ∅ end.

Definition alloc (f : Fields) (h : Heap) : Heap * Ref := let r := fresh (dom h) in (<[r := f]> h, Some r).

(** [m[k] = v]; [None] is the panic on a [nil] map. *)
Definition map_set (m : Ref) (k : string) (v : GoVal) (h : Heap) : option Heap :=
  match m with Some r => Some (<[r := <[k := v]> (fields_of h m)]> h) | None => None end.

(** ** What [encoding/json] decodes *)
Inductive JSON :=
| JNull
| JBool (b : bool)
| JNumber (f : spec_float)
| JString (s : string)
| JArray (l : list JSON)
| JObject (kvs : list (string * JSON)).

(** Decoding into an interface; later members replace earlier ones. *)
Fixpoint of_json (j : JSON) (h : Heap) : Heap * GoVal :=
  match j with
  | JNull => (h, VNil)
  | JBool b => (h, VBool b)
  | JNumber f => (h, VFloat64 f)
  | JString s => (h, VString s)
  | JArray l =>
      let '(h, vs) := (fix all l h := match l with
                        | [] => (h, [])
                        | j :: l' => let '(h, v) := of_json j h in let '(h, vs) := all l' h in (h, v :: vs)
                        end) l h in
      (h, VList vs)
  | JObject kvs =>
      let '(h, f) := (fix all kvs h f := match kvs with
                       | [] => (h, f)
                       | (k, j) :: kvs' => let '(h, v) := of_json j h in all kvs' h (<[k := v]> f)
                       end) kvs h ∅ in
      let '(h, m) := alloc f h in (h, VMap m)
  end.

Fixpoint of_members (kvs : list (string * JSON)) (h : Heap) (f : Fields) : Heap * Fields :=
  match kvs with [] => (h, f) | (k, j) :: kvs' => let '(h, v) := of_json j h in of_members kvs' h (<[k := v]> f) end.

(** The kind of value an error of [encoding/json] names. *)
Definition json_kind (j : JSON) : string :=
  match j with JNull => "null" | JBool _ => "bool" | JNumber _ => "number" | JString _ => "string" | JArray _ => "array" | JObject _ => "object" end.

(** Decoding into a variable of type [map[string]interface{}] that holds [m]:
    an object adds to the map, allocating it if it is [nil]; [null] makes it
    [nil]; anything else is an error. *)
Definition json_into_map (j : JSON) (m : Ref) (h : Heap) : Heap * result string Ref :=
  match j with
  | JNull => (h, Ok None)
  | JObject kvs =>
      let '(h, f) := of_members kvs h (fields_of h m) in
      match m with
      | Some r => (<[r := f]> h, Ok m)
      | None => let '(h, m) := alloc f h in (h, Ok m)
      end
  | _ => (h, Err ("json: cannot unmarshal " ++ json_kind j ++ " into Go value of type map[string]interface {}"))
  end.

Lemma fields_of_alloc f h h' m : alloc f h = (h', m) -> fields_of h' m = f.
Proof. intros [= <- <-]. cbn. by rewrite lookup_insert_eq. Qed.
