(* ===== verification/EventRegistry.v ===== *)
(** The events and handlers of a specification at run time:
    [internal/event/dsl_loader.go] and the synchronous dispatcher of
    [internal/event/event.go] under it.

    Handlers run on the stack of the emitter, and a handler whose action is
    [emit] emits again: the recursion takes fuel, and [None] is a call that has
    not returned within it.  Workflows, integrations and webhooks are
    placeholders in the code; a call to one is recorded. *)

From Stdlib Require Import ZArith Lia Ascii.
From stdpp Require Import base strings list gmap fin_sets relations.
From S2P Require Import Prelude GoStrings GoValue DslAst DslSymbols DslValidator DslAccepted.

#[local] Open Scope string_scope.

(** ** State *)
Record RegisteredEvent := mkRegisteredEvent { re_Name : string; re_Schema : option (gmap string string) }.
Record RegisteredHandler := mkRegisteredHandler {
  rh_EventName : string; rh_ActionType : string; rh_Target : string; rh_Async : bool }.

(** The dispatcher holds a closure of each handler, which is the handler. *)
Abbreviation Dispatcher := (gmap string (list RegisteredHandler)).
Record EventRegistry := mkEventRegistry {
  reg_events : gmap string RegisteredEvent;
  reg_handlers : gmap string (list RegisteredHandler);
  dispatcher : Dispatcher }.

Definition NewEventRegistry : EventRegistry := mkEventRegistry ∅ ∅ ∅.

(** ** The dispatcher *)
Definition subscribed (d : Dispatcher) (t : string) : list RegisteredHandler := default [] (d !! t).
Definition Subscribe (t : string) (h : RegisteredHandler) (d : Dispatcher) : Dispatcher :=
  <[t := (subscribed d t ++ [h])%list]> d.
Definition Unsubscribe (t : string) (h : RegisteredHandler) (d : Dispatcher) : Dispatcher := d.

Inductive Call := WorkflowCall (name : string) | IntegrationCall (name : string) | WebhookCall (name : string).

(** The calls a handler makes and the error it returns, given what a dispatch
    does. *)
Definition createHandler (dispatch : string -> option (list Call)) (h : RegisteredHandler) :
    option (list Call * option string) :=
  if String.eqb (rh_ActionType h) "workflow" then Some ([WorkflowCall (rh_Target h)], None)
  else if String.eqb (rh_ActionType h) "integration" then Some ([IntegrationCall (rh_Target h)], None)
  else if String.eqb (rh_ActionType h) "emit" then option_map (fun tr => (tr, None)) (dispatch (rh_Target h))
  else if String.eqb (rh_ActionType h) "webhook" then Some ([WebhookCall (rh_Target h)], None)
  else Some ([], Some ("unknown action type: " ++ rh_ActionType h)).

(** The loop of [Dispatch]: errors of handlers are dropped. *)
Fixpoint dispatch_loop (dispatch : string -> option (list Call)) (hs : list RegisteredHandler) : option (list Call) :=
  match hs with
  | [] => Some []
  | h :: hs' =>
      match createHandler dispatch h with
      | None => None
      | Some (tr, _) => option_map (fun tr' => tr ++ tr')%list (dispatch_loop dispatch hs')
      end
  end.

Fixpoint Dispatch (fuel : nat) (d : Dispatcher) (t : string) : option (list Call) :=
  match fuel with
  | O => None
  | S fuel' => dispatch_loop (Dispatch fuel' d) (subscribed d t)
  end.

(** ** Registration *)
Inductive RegistryError :=
| NilDecl
| InvalidEventName (n : string)
| EventExists (n : string)
| NotRegistered (n : string)
| PayloadInvalid (field expected got : string).

Definition isValidEventName (n : string) : bool :=
  let parts := Split "."%char n in (length parts <=? 2)%nat && forallb is_name_part parts.

Definition schema_map (fs : list EventSchemaField) : gmap string string :=
  fold_left (fun m f => <[sf_Name f := sf_Type f]> m) fs ∅.

Definition RegisterEventFromAST (e : EventDecl) (r : EventRegistry) : EventRegistry * result RegistryError unit :=
  if negb (isValidEventName (ev_Name e)) then (r, Err (InvalidEventName (ev_Name e)))
  else match reg_events r !! ev_Name e with
       | Some _ => (r, Err (EventExists (ev_Name e)))
       | None =>
           (mkEventRegistry
              (<[ev_Name e := mkRegisteredEvent (ev_Name e) (option_map (fun s => schema_map (es_Fields s)) (ev_Schema e))]>
                 (reg_events r)) (reg_handlers r) (dispatcher r), Ok tt)
       end.

Definition SubscribeHandlerFromAST (h : EventHandlerDecl) (r : EventRegistry) : EventRegistry * result RegistryError unit :=
  let rh := mkRegisteredHandler (EventName h) (ActionType h) (Target h) (Async h) in
  (mkEventRegistry (reg_events r) (<[EventName h := (default [] (reg_handlers r !! EventName h) ++ [rh])%list]> (reg_handlers r))
     (Subscribe (EventName h) rh (dispatcher r)), Ok tt).

Definition GetEvent (n : string) (r : EventRegistry) : option RegisteredEvent := reg_events r !! n.
Definition GetHandlers (n : string) (r : EventRegistry) : list RegisteredHandler := default [] (reg_handlers r !! n).
Definition EventCount (r : EventRegistry) : nat := size (reg_events r).
Definition HandlerCount (r : EventRegistry) : nat := sum_list (map (fun kv => length kv.2) (map_to_list (reg_handlers r))).

(** ** Payloads *)
Definition validateFieldType (n : string) (v : GoVal) (expected : string) : option RegistryError :=
  let mismatch what := Some (PayloadInvalid n what (type_name v)) in
  if String.eqb expected "string" then
    match v with VString _ => None | _ => mismatch "string" end
  else if String.eqb expected "int" || String.eqb expected "integer" then
    match v with VInt _ | VInt32 _ | VInt64 _ | VFloat64 _ => None | _ => mismatch "integer" end
  else if String.eqb expected "decimal" || String.eqb expected "float" then
    match v with VFloat32 _ | VFloat64 _ | VInt _ | VInt32 _ | VInt64 _ => None | _ => mismatch "decimal" end
  else if String.eqb expected "bool" || String.eqb expected "boolean" then
    match v with VBool _ => None | _ => mismatch "boolean" end
  else if String.eqb expected "timestamp" || String.eqb expected "datetime" then None
  else if String.eqb expected "array" then
    match v with VList _ | VStrings _ | VInts _ | VFloats _ => None | _ => mismatch "array" end
  else None.

(** The loop over the schema, in the order in which the runtime ranges over the
    map. *)
Fixpoint payload_loop (payload : Fields) (fs : list (string * string)) : option RegistryError :=
  match fs with
  | [] => None
  | (n, t) :: fs' =>
      match payload !! n with
      | None => payload_loop payload fs'
      | Some v => match validateFieldType n v t with Some e => Some e | None => payload_loop payload fs' end
      end
  end.

Section Emit.
(** The order in which a map is ranged over. *)
Variable range : gmap string string -> list (string * string).

Definition validatePayload (payload : Fields) (schema : option (gmap string string)) : option RegistryError :=
  match schema with None => None | Some s => payload_loop payload (range s) end.

(** [EmitEvent]: the error, and the calls made. *)
Definition EmitEvent (fuel : nat) (n : string) (payload : Fields) (r : EventRegistry) :
    option (option RegistryError * list Call) :=
  match reg_events r !! n with
  | None => Some (Some (NotRegistered n), [])
  | Some e =>
      match validatePayload payload (re_Schema e) with
      | Some err => Some (Some err, [])
      | None => option_map (fun tr => (None, tr)) (Dispatch fuel (dispatcher r) n)
      end
  end.
End Emit.

(** ** Loading a program: [generator.loadEvents] of [internal/codegen] *)
Fixpoint loadEvents (l : list Statement) (r : EventRegistry) : EventRegistry * result RegistryError unit :=
  match l with
  | [] => (r, Ok tt)
  | s :: l' =>
      let '(r, res) := match s with
                       | Event d => RegisterEventFromAST d r
                       | EventHandler d => SubscribeHandlerFromAST d r
                       | _ => (r, Ok tt)
                       end in
      match res with Ok _ => loadEvents l' r | Err e => (r, Err e) end
  end.

(** * When emitting returns *)
Definition emits (d : Dispatcher) (t u : string) : Prop :=
  exists h, h ∈ subscribed d t /\ rh_ActionType h = "emit" /\ rh_Target h = u.

(** The only handler whose calls depend on the dispatcher is [emit]. *)
Lemma createHandler_cases f h :
  (rh_ActionType h = "emit" /\ createHandler f h = option_map (fun tr => (tr, None)) (f (rh_Target h))) \/
  (rh_ActionType h <> "emit" /\ exists r, forall g, createHandler g h = Some r).
Proof.
  unfold createHandler. destruct (String.eqb_spec (rh_ActionType h) "emit") as [->|]; [by left|]. right. split; [done|].
  repeat case_match; eauto.
Qed.

Lemma createHandler_some f h : is_Some (createHandler f h) <-> (rh_ActionType h = "emit" -> is_Some (f (rh_Target h))).
Proof.
  destruct (createHandler_cases f h) as [[-> ->] | [Hn [r Hr]]].
  - destruct (f (rh_Target h)); cbn; split; eauto; intros H; [by destruct H | by destruct (H eq_refl)].
  - rewrite Hr. split; [done | eauto].
Qed.

Lemma dispatch_loop_some f hs :
  is_Some (dispatch_loop f hs) <-> Forall (fun h => rh_ActionType h = "emit" -> is_Some (f (rh_Target h))) hs.
Proof.
  induction hs as [|h hs IH]; cbn; [split; eauto|]. rewrite Forall_cons, <- IH, <- (createHandler_some f).
  destruct (createHandler f h) as [[tr e]|]; cbn; [destruct (dispatch_loop f hs); cbn|]; split; intros H;
    [eauto | eauto | by destruct H | by destruct H as [_ []] | by destruct H | by destruct H as [[] _]].
Qed.

Lemma dispatch_loop_mono f g hs tr : (forall u tr, f u = Some tr -> g u = Some tr) ->
  dispatch_loop f hs = Some tr -> dispatch_loop g hs = Some tr.
Proof.
  intros Hfg. revert tr. induction hs as [|h hs IH]; cbn; [done|]. intros tr.
  destruct (createHandler f h) as [[tr1 e]|] eqn:E; [|done].
  assert (createHandler g h = Some (tr1, e)) as ->.
  { destruct (createHandler_cases f h) as [[He Hf] | [_ [r Hr]]]; [|by rewrite Hr in *].
    destruct (createHandler_cases g h) as [[_ ->] | [? _]]; [|done]. rewrite Hf in E.
    destruct (f (rh_Target h)) eqn:Ef; [|done]. by rewrite (Hfg _ _ Ef). }
  destruct (dispatch_loop f hs) eqn:E2; [|done]. by rewrite (IH _ eq_refl).
Qed.

Lemma Dispatch_mono d fuel fuel' t tr : fuel <= fuel' -> Dispatch fuel d t = Some tr -> Dispatch fuel' d t = Some tr.
Proof.
  revert fuel' t tr. induction fuel as [|fuel IH]; intros fuel' t tr Hle; [done|].
  destruct fuel' as [|fuel']; [lia|]. cbn. apply dispatch_loop_mono. intros u tr'. apply IH. lia.
Qed.

Lemma Dispatch_fun d f1 f2 t tr1 tr2 : Dispatch f1 d t = Some tr1 -> Dispatch f2 d t = Some tr2 -> tr1 = tr2.
Proof.
  intros H1%(Dispatch_mono _ _ (f1 + f2)); [|lia]. intros H2%(Dispatch_mono _ _ (f1 + f2)); [|lia]. congruence.
Qed.

Lemma Dispatch_acc d fuel : forall t, is_Some (Dispatch fuel d t) -> Acc (fun u t => emits d t u) t.
Proof.
  induction fuel as [|fuel IH]; intros t; cbn; [intros [? [=]]|]. rewrite dispatch_loop_some, Forall_forall.
  intros H. constructor. intros u (h & Hin & He & <-). by apply IH, H.
Qed.

Lemma acc_no_cycle d t : Acc (fun u t => emits d t u) t -> ~ exists u, rtc (emits d) t u /\ tc (emits d) u u.
Proof.
  induction 1 as [t _ IH]. intros (u & Hr & Hc). apply rtc_inv in Hr as [<- | (v & Hv & Hr)].
  - assert (exists v, emits d t v /\ rtc (emits d) v t) as (v & Hv & Hr).
    { inversion Hc; subst; eauto using tc_rtc. }
    apply (IH v Hv). eauto.
  - apply (IH v Hv). eauto.
Qed.

Lemma self_emit_diverges d t fuel : emits d t t -> Dispatch fuel d t = None.
Proof.
  intros He. destruct (Dispatch fuel d t) eqn:E; [|done]. exfalso. eapply acc_no_cycle; [by eapply Dispatch_acc|].
  exists t. split; [reflexivity | by apply tc_once].
Qed.

Lemma emits_dom d t u : emits d t u -> t ∈ dom d.
Proof.
  intros (h & Hin & _). unfold subscribed in Hin. destruct (d !! t) eqn:E; [by apply elem_of_dom_2 in E | set_solver].
Qed.

(** Without a cycle, one unit of fuel for each event on the path and one more
    are enough. *)
Lemma acyclic_enough d n : forall (path : gset string) t, (forall v, v ∈ path -> tc (emits d) v t) ->
  ~ (exists u, rtc (emits d) t u /\ tc (emits d) u u) -> size (dom d ∖ path) <= n -> is_Some (Dispatch (S n) d t).
Proof.
  induction n as [|n IH]; intros path t Hpath Hno Hsize; cbn; apply dispatch_loop_some, Forall_forall; intros h Hin He.
  all: assert (emits d t (rh_Target h)) as Hem by (by exists h).
  all: assert (t ∈ dom d ∖ path) as Ht
    by (apply elem_of_difference; split; [by apply emits_dom in Hem | intros Hp; apply Hno; exists t; split; [reflexivity | auto]]).
  - assert (size (dom d ∖ path) = 0) as H0%size_empty_inv by lia. set_solver.
  - apply (IH (path ∪ {[t]})).
    + intros v [Hv | ->%elem_of_singleton]%elem_of_union; [eapply tc_r; [by apply Hpath | done] | by apply tc_once].
    + intros (u & Hr & Hc). apply Hno. exists u. split; [|done]. eapply rtc_l; eauto.
    + assert (size (dom d ∖ (path ∪ {[t]})) < size (dom d ∖ path)); [|lia]. apply subset_size. set_solver.
Qed.

(** C36: Emitting an event returns exactly when no chain of [emit] handlers from
    it runs into a cycle, and then whatever the stack allows from one frame per
    event name with handlers on; with a cycle it recurses until the stack
    overflows. *)
Theorem emission_terminates (d : Dispatcher) (t : string) :
  ((exists fuel tr, Dispatch fuel d t = Some tr) <-> ~ exists u, rtc (emits d) t u /\ tc (emits d) u u) /\
  (forall fuel tr, Dispatch fuel d t = Some tr -> forall fuel', S (size (dom d)) <= fuel' -> Dispatch fuel' d t = Some tr).
Proof.
  assert (~ (exists u, rtc (emits d) t u /\ tc (emits d) u u) -> is_Some (Dispatch (S (size (dom d))) d t)) as Hback.
  { intros H. apply (acyclic_enough d _ ∅); [set_solver | done |]. by rewrite difference_empty_L. }
  assert (forall fuel tr, Dispatch fuel d t = Some tr -> ~ exists u, rtc (emits d) t u /\ tc (emits d) u u) as Hforth
    by (intros; by eapply acc_no_cycle, Dispatch_acc).
  split; [split|].
  - intros (fuel & tr & H). by eapply Hforth.
  - intros [tr H]%Hback. eauto.
  - intros fuel tr H fuel' Hle. destruct (Hback (Hforth _ _ H)) as [tr' H'].
    rewrite (Dispatch_fun _ _ _ _ _ _ H H'). by eapply Dispatch_mono.
Qed.

(** A handler that emits its own event never returns; a chain that ends does. *)
Lemma emission_terminates_witness :
  let d : Dispatcher := Subscribe "a" (mkRegisteredHandler "a" "emit" "b" false)
    (Subscribe "b" (mkRegisteredHandler "b" "workflow" "w" false)
       (Subscribe "loop" (mkRegisteredHandler "loop" "emit" "loop" false) ∅)) in
  Dispatch (S (size (dom d))) d "a" = Some [WorkflowCall "w"] /\ forall fuel, Dispatch fuel d "loop" = None.
Proof.
  intros d. split.
  - refine (proj2 (emission_terminates d "a") 2 [WorkflowCall "w"] _ _ (le_n _)). reflexivity.
  - intros fuel. destruct (Dispatch fuel d "loop") as [tr|] eqn:E; [|reflexivity]. exfalso.
    refine (proj1 (proj1 (emission_terminates d "loop")) (ex_intro _ fuel (ex_intro _ tr E)) _).
    assert (emits d "loop" "loop") as He.
    { exists (mkRegisteredHandler "loop" "emit" "loop" false). split; [|done]. apply list_elem_of_here. }
    exists "loop". split; [reflexivity | by apply tc_once].
Defined.

(** * Loading an accepted program *)
Definition event_of (s : Statement) : option EventDecl := match s with Event d => Some d | _ => None end.
Definition handler_of (s : Statement) : option RegisteredHandler :=
  match s with EventHandler h => Some (mkRegisteredHandler (EventName h) (ActionType h) (Target h) (Async h)) | _ => None end.
Definition registered (d : EventDecl) : RegisteredEvent :=
  mkRegisteredEvent (ev_Name d) (option_map (fun s => schema_map (es_Fields s)) (ev_Schema d)).

Lemma loadEvents_handlers l : forall r n, (loadEvents l r).2 = Ok tt ->
  subscribed (dispatcher (loadEvents l r).1) n =
    (subscribed (dispatcher r) n ++ List.filter (fun h => String.eqb (rh_EventName h) n) (omap handler_of l))%list.
Proof.
  induction l as [|s l IH]; intros r n Hok; [by cbn; rewrite app_nil_r|].
  destruct s; cbn [loadEvents] in *; try exact (IH r n Hok).
  - destruct (RegisterEventFromAST d r) as [r' []] eqn:E; [|done]. rewrite (IH r' n Hok). f_equal. f_equal.
    unfold RegisterEventFromAST in E. repeat case_match; by simplify_eq.
  - cbn in Hok |- *. rewrite (IH _ n Hok). cbn. destruct (String.eqb_spec (EventName d) n) as [->|Hn].
    + unfold subscribed at 1, Subscribe. rewrite lookup_insert_eq. cbn. by rewrite <- app_assoc.
    + unfold subscribed at 1, Subscribe. by rewrite lookup_insert_ne.
Qed.

Lemma loadEvents_events l : forall r,
  NoDup (omap (fun s => match s with Event d => Some (ev_Name d) | _ => None end) l) ->
  Forall (fun s => match s with Event d => isValidEventName (ev_Name d) = true | _ => True end) l ->
  (forall d, Event d ∈ l -> reg_events r !! ev_Name d = None) ->
  (loadEvents l r).2 = Ok tt /\
  forall n, reg_events (loadEvents l r).1 !! n =
    match reg_events r !! n with
    | Some e => Some e
    | None => option_map registered (List.find (fun d => String.eqb (ev_Name d) n) (omap event_of l))
    end.
Proof.
  induction l as [|s l IH]; intros r Hnd Hv Hfresh; [split; [done|]; intros n; cbn; by destruct (_ !! n)|].
  apply Forall_cons in Hv as [Hs Hv].
  assert (forall d, Event d ∈ l -> reg_events r !! ev_Name d = None) as Hfresh' by (intros; apply Hfresh; by constructor).
  destruct s; cbn [loadEvents omap list_omap event_of] in *; try exact (IH r Hnd Hv Hfresh').
  - unfold RegisterEventFromAST. rewrite Hs, (Hfresh d) by constructor. cbn. apply NoDup_cons in Hnd as [Hnot Hnd].
    destruct (IH (mkEventRegistry (<[ev_Name d := registered d]> (reg_events r)) (reg_handlers r) (dispatcher r)) Hnd Hv)
      as [H1 H2].
    { intros d' Hd'. cbn. rewrite lookup_insert_ne; [by apply Hfresh'|]. intros Heq. apply Hnot, list_elem_of_omap.
      exists (Event d'). by rewrite Heq. }
    split; [done|]. intros n. rewrite H2. cbn. destruct (String.eqb_spec (ev_Name d) n) as [<-|].
    + by rewrite lookup_insert_eq, Hfresh by constructor.
    + by rewrite lookup_insert_ne.
  - cbn. destruct (IH (SubscribeHandlerFromAST d r).1 Hnd Hv Hfresh') as [H1 H2]. by split.
Qed.

Section Accepted.
Variable urlParse : string -> result string string.

(** The events and handlers of an accepted program load without an error:
    each event is registered with its schema, and the subscribers of an event
    are the handlers declared for it, in the order of the program. *)
Theorem accepted_events_load (p : Program_) (Hok : (Validate urlParse (Some p) New).2 = []) :
  let '(r, res) := loadEvents (Statements p) NewEventRegistry in
  res = Ok tt /\
  (forall n, GetEvent n r =
     option_map registered (List.find (fun d => String.eqb (ev_Name d) n) (omap event_of (Statements p)))) /\
  (forall n, subscribed (dispatcher r) n =
     List.filter (fun h => String.eqb (rh_EventName h) n) (omap handler_of (Statements p))).
Proof.
  pose proof (toplevel_NoDup urlParse p Hok (fun s => match s with Event d => Some (ev_Name d) | _ => None end)) as Hnd.
  pose proof (toplevel_Forall urlParse p Hok
    (fun s => match s with Event d => isValidEventName (ev_Name d) = true | _ => True end)) as Hv.
  destruct (loadEvents_events (Statements p) NewEventRegistry) as [H1 H2].
  - apply Hnd; [by intros [] [? ?]|]. intros L [] n; try done. intros [= <-] [H _]. exact H.
  - eapply Forall_impl; [apply Hv; intros L []; try done; by intros (_ & H & _)|].
    intros s Hs. destruct s; try done. by apply Hs.
  - done.
  - pose proof (loadEvents_handlers (Statements p) NewEventRegistry) as H3.
    destruct (loadEvents (Statements p) NewEventRegistry) as [r res]. cbn [fst snd] in *. split; [done|]. split.
    + intros n. unfold GetEvent. by rewrite H2.
    + intros n. by rewrite H3.
Qed.
End Accepted.

Definition here : Position := mkPosition "app.cai" 1 1 0.

(** [event order_created schema { total Decimal }] and
    [on "order_created" do emit "order_created"]. *)
Definition looping_app : Program_ := mkProgram here
  [Event (mkEventDecl here "order_created" (Some (mkEventSchema here [mkSchemaField here "total" "Decimal"])) []);
   EventHandler (mkEventHandler here "order_created" "emit" "order_created" false)].

Lemma accepted_events_load_witness :
  let r := (loadEvents (Statements looping_app) NewEventRegistry).1 in
  (Validate (fun _ => Ok "https") (Some looping_app) New).2 = [] /\
  GetEvent "order_created" r = Some (mkRegisteredEvent "order_created" (Some {["total" := "Decimal"]})) /\
  subscribed (dispatcher r) "order_created" = [mkRegisteredHandler "order_created" "emit" "order_created" false].
Proof.
  split; [reflexivity|]. destruct (accepted_events_load (fun _ => Ok "https") looping_app eq_refl) as (_ & H1 & H2).
  split; [exact (H1 "order_created") | exact (H2 "order_created")].
Defined.

(** The validator accepts the program, and emitting its event overflows the
    stack. *)
Lemma accepted_program_overflows range fuel payload : payload !! "total" = None ->
  Permutation (range {["total" := "Decimal"]}) (map_to_list {["total" := "Decimal"]}) ->
  EmitEvent range fuel "order_created" payload (loadEvents (Statements looping_app) NewEventRegistry).1 = None.
Proof.
  intros Hp Hr. unfold EmitEvent. change (reg_events _ !! "order_created") with
    (Some (mkRegisteredEvent "order_created" (Some {["total" := "Decimal"]}))). cbn [re_Schema validatePayload].
  rewrite map_to_list_singleton in Hr. apply Permutation_singleton_r in Hr as ->. cbn [payload_loop]. rewrite Hp.
  rewrite self_emit_diverges; [done|]. exists (mkRegisteredHandler "order_created" "emit" "order_created" false).
  split; [apply list_elem_of_here | done].
Qed.

(** ** Payloads
    A payload passes when every field it has is of its declared type, whatever
    the order of the map; a declared type in capitals, which the validator
    accepts, is not checked. *)
Definition well_typed (payload : Fields) (s : gmap string string) : Prop :=
  map_Forall (fun n t => forall v, payload !! n = Some v -> validateFieldType n v t = None) s.

Lemma payload_loop_none payload fs :
  payload_loop payload fs = None <-> Forall (fun nt => forall v, payload !! nt.1 = Some v -> validateFieldType nt.1 v nt.2 = None) fs.
Proof.
  induction fs as [|[n t] fs IH]; [done|]. cbn. rewrite Forall_cons, <- IH. cbn.
  destruct (payload !! n) as [v|]; [|split; [intros H; by split | by intros [_ H]]].
  destruct (validateFieldType n v t) eqn:E; split.
  - done.
  - intros [H _]. by rewrite (H v eq_refl) in E.
  - intros H. split; [|done]. congruence.
  - by intros [_ H].
Qed.

Lemma validatePayload_spec range payload s : Permutation (range s) (map_to_list s) ->
  validatePayload range payload (Some s) = None <-> well_typed payload s.
Proof.
  intros Hr. cbn. rewrite payload_loop_none, Hr. unfold well_typed. rewrite map_Forall_to_list.
  apply Forall_proper; [intros []; reflexivity | reflexivity].
Qed.

Lemma capitals_unchecked n v : validateFieldType n v "Decimal" = None /\ validateFieldType n v "String" = None.
Proof. done. Qed.
