(* ===== verification/AuthJwt.v ===== *)
(** Validation of JSON web tokens: [internal/auth/jwt.go] and the key sets of
    [internal/auth/jwks.go].

    Parsing a token and verifying its signature is the JWT library's; what it
    promises is a hypothesis.  The answers of the key server and the clock are
    arguments.  Locks protect single reads and writes of the maps and are left
    out. *)

From Stdlib Require Import ZArith Lia Ascii.
From stdpp Require Import base strings list gmap.
From S2P Require Import Prelude GoStrings GoText GoValue.

#[local] Open Scope string_scope.
#[local] Open Scope Z_scope.

Inductive AuthError :=
| ErrInvalidToken | ErrExpiredToken | ErrInvalidIssuer | ErrInvalidAudience | ErrMissingToken
| ErrKeyNotFound (kid : string) | ErrUnsupportedAlgorithm (alg : string) | ErrNoSecretConfigured
| ErrNoPublicKeyConfigured | ErrJWKSFetchFailed | ErrJWKSDecodeFailed | ErrRequest | ErrInvalidPublicKey.

(** ** Users *)
Record User := mkUser {
  u_ID : string; u_Email : string; u_Name : string; u_Roles : list string; u_Permissions : list string;
  u_Claims : Fields; u_Token : string; u_ExpiresAt : option Z }.

Definition HasRole (u : User) (role : string) : bool := existsb (String.eqb role) (u_Roles u).
Definition HasPermission (u : User) (permission : string) : bool := existsb (String.eqb permission) (u_Permissions u).

(** ** Key sets *)
Record RSAKey := mkRSAKey { N : Z; E : Z }.
Record JWK := mkJWK { Kid : string; Kty : string; jwk_Alg : string; Use : string; jwk_N : string; jwk_E : string }.

(** [base64.RawURLEncoding.DecodeString]: line ends are skipped; a last group
    of one character is an error. *)
Definition sextet (c : ascii) : option Z :=
  if is_upper c then Some (byte c - 65) else if is_lower c then Some (byte c - 71)
  else if is_digit c then Some (byte c + 4) else if Ascii.eqb c "-" then Some 62
  else if Ascii.eqb c "_" then Some 63 else None.

Fixpoint sextets (s : string) : option (list Z) :=
  match s with
  | EmptyString => Some []
  | String c s' =>
      if Ascii.eqb c newline || Ascii.eqb c creturn then sextets s'
      else match sextet c, sextets s' with Some x, Some l => Some (x :: l) | _, _ => None end
  end.

Fixpoint quanta (l : list Z) : option (list Z) :=
  match l with
  | [] => Some []
  | [_] => None
  | [a; b] => Some [a * 4 + b / 16]
  | [a; b; c] => Some [a * 4 + b / 16; (b mod 16) * 16 + c / 4]
  | a :: b :: c :: d :: l' =>
      option_map (fun r => a * 4 + b / 16 :: (b mod 16) * 16 + c / 4 :: (c mod 4) * 64 + d :: r) (quanta l')
  end.
Definition RawURLDecode (s : string) : option (list Z) := match sextets s with Some l => quanta l | None => None end.

(** [big.Int.SetBytes]. *)
Definition SetBytes (l : list Z) : Z := fold_left (fun acc b => acc * 256 + b) l 0.

(** [int(e.Int64())] keeps the low 64 bits. *)
Definition jwkToRSAPublicKey (k : JWK) : option RSAKey :=
  if String.eqb (jwk_N k) "" || String.eqb (jwk_E k) "" then None
  else match RawURLDecode (jwk_N k), RawURLDecode (jwk_E k) with
       | Some n, Some e => Some (mkRSAKey (SetBytes n) (wrap64 (SetBytes e)))
       | _, _ => None
       end.

Record JWKSCache := mkJWKSCache {
  jc_url : string; jc_keys : gmap string RSAKey; jc_refreshTTL : Z; jc_lastRefresh : Z }.
Definition NewJWKSCache (url : string) (ttl : Z) : JWKSCache := mkJWKSCache url ∅ ttl 0.

(** What comes of a request to the key server. *)
Inductive HttpAnswer := RequestInvalid | DoFailed | Answer (status : Z) (body : option (list JWK)).

Definition keys_of (jwks : list JWK) : gmap string RSAKey :=
  fold_left (fun m k =>
    if negb (String.eqb (Kty k) "RSA") then m
    else match jwkToRSAPublicKey k with Some key => <[Kid k := key]> m | None => m end) jwks ∅.

Definition Refresh (answer : HttpAnswer) (now : Z) (c : JWKSCache) : JWKSCache * result AuthError unit :=
  match answer with
  | RequestInvalid => (c, Err ErrRequest)
  | DoFailed => (c, Err ErrJWKSFetchFailed)
  | Answer status body =>
      if negb (status =? 200) then (c, Err ErrJWKSFetchFailed)
      else match body with
           | None => (c, Err ErrJWKSDecodeFailed)
           | Some jwks => (mkJWKSCache (jc_url c) (keys_of jwks) (jc_refreshTTL c) now, Ok tt)
           end
  end.

Definition GetKey (kid : string) (answer : HttpAnswer) (now : Z) (c : JWKSCache) : JWKSCache * result AuthError RSAKey :=
  match jc_keys c !! kid with
  | Some key => (c, Ok key)
  | None =>
      match Refresh answer now c with
      | (c, Err e) => (c, Err e)
      | (c, Ok _) => match jc_keys c !! kid with Some key => (c, Ok key) | None => (c, Err (ErrKeyNotFound kid)) end
      end
  end.

Definition GetKeyByID (kid : string) (c : JWKSCache) : option RSAKey := jc_keys c !! kid.
Definition LastRefresh (c : JWKSCache) : Z := jc_lastRefresh c.
Definition KeyCount (c : JWKSCache) : nat := size (jc_keys c).

(** [StartRefreshLoop]: one turn for each tick until the context ends. *)
Fixpoint StartRefreshLoop (ticks : list (HttpAnswer * Z)) (c : JWKSCache) : JWKSCache :=
  match ticks with [] => c | (a, now) :: ticks' => StartRefreshLoop ticks' (Refresh a now c).1 end.

(** ** The validator *)
Record Config := mkConfig {
  c_Issuer : string; c_Audience : string; c_Secret : string; c_PublicKey : string; c_JWKSURL : string;
  c_RolesClaim : string; c_PermsClaim : string }.
Record Validator := mkValidator {
  v_config : Config; v_publicKeys : gmap string RSAKey; v_jwksCache : option JWKSCache }.

Inductive Key := HMACKey (secret : string) | RSAPublicKey (k : RSAKey).

Section Jwt.
(** [jwt.ParseRSAPublicKeyFromPEM]. *)
Variable ParseRSAPublicKeyFromPEM : string -> option RSAKey.
(** The header of a token, read without verifying it. *)
Variable ParseUnverified : string -> option Fields.

Record ParsedToken := mkParsedToken { pt_Claims : option Fields; pt_Valid : bool }.

(** [jwt.Parse] with the function that finds the key; the errors are their
    texts. *)
Variable jwt_Parse : string -> (string -> Validator -> Validator * result AuthError Key) -> Validator ->
  Validator * result string ParsedToken.
(** The registered claims; an absent or ill-typed one reads as its zero value. *)
Variable GetIssuer : Fields -> string.
Variable GetAudience : Fields -> list string.
Variable GetExpirationTime : Fields -> option Z.

Definition NewValidator (config : Config) (answer : HttpAnswer) (now : Z) : result AuthError Validator :=
  let publicKeys := if String.eqb (c_PublicKey config) "" then Some ∅
                    else option_map (fun k => {["default" := k]}) (ParseRSAPublicKeyFromPEM (c_PublicKey config)) in
  match publicKeys with
  | None => Err ErrInvalidPublicKey
  | Some keys =>
      if String.eqb (c_JWKSURL config) "" then Ok (mkValidator config keys None)
      else match Refresh answer now (NewJWKSCache (c_JWKSURL config) (5 * Minute)) with
           | (_, Err e) => Err e
           | (c, Ok _) => Ok (mkValidator config keys (Some c))
           end
  end.

Definition SetJWKSCache (c : JWKSCache) (v : Validator) : Validator := mkValidator (v_config v) (v_publicKeys v) (Some c).

Definition static_key (kid : string) (keys : gmap string RSAKey) : result AuthError Key :=
  match (if String.eqb kid "" then None else keys !! kid) with
  | Some k => Ok (RSAPublicKey k)
  | None => match keys !! "default" with Some k => Ok (RSAPublicKey k) | None => Err ErrNoPublicKeyConfigured end
  end.

Definition hmac_algs : list string := ["HS256"; "HS384"; "HS512"].
Definition rsa_algs : list string := ["RS256"; "RS384"; "RS512"].
Definition one_of_algs (l : list string) (alg : string) : bool := existsb (String.eqb alg) l.

Definition getKey (kid : string) (answer : HttpAnswer) (now : Z) (alg : string) (v : Validator) :
    Validator * result AuthError Key :=
  if one_of_algs hmac_algs alg then
    (v, if String.eqb (c_Secret (v_config v)) "" then Err ErrNoSecretConfigured else Ok (HMACKey (c_Secret (v_config v))))
  else if one_of_algs rsa_algs alg then
    match v_jwksCache v with
    | None => (v, static_key kid (v_publicKeys v))
    | Some c =>
        match GetKey kid answer now c with
        | (c, Ok k) => (SetJWKSCache c v, Ok (RSAPublicKey k))
        | (c, Err _) => (SetJWKSCache c v, static_key kid (v_publicKeys v))
        end
    end
  else (v, Err (ErrUnsupportedAlgorithm alg)).

Definition isExpiredError (err : string) : bool := Contains err "token is expired".
Definition containsAudience (aud : list string) (expected : string) : bool := existsb (fun a => String.eqb a expected) aud.

Definition getStringClaim (claims : Fields) (key : string) : string :=
  match claims !! key with Some (VString s) => s | _ => "" end.
Definition getStringListClaim (claims : Fields) (key : string) : list string :=
  match claims !! key with
  | Some (VList l) => omap (fun v => match v with VString s => Some s | _ => None end) l
  | Some (VStrings l) => l
  | Some (VString s) => Words s
  | _ => []
  end.

Definition make_user (config : Config) (tokenStr : string) (claims : Fields) : User :=
  mkUser (getStringClaim claims "sub") (getStringClaim claims "email") (getStringClaim claims "name")
    (getStringListClaim claims (if String.eqb (c_RolesClaim config) "" then "roles" else c_RolesClaim config))
    (if String.eqb (c_PermsClaim config) "" then [] else getStringListClaim claims (c_PermsClaim config))
    claims tokenStr (GetExpirationTime claims).

Definition header_kid (header : Fields) : string := getStringClaim header "kid".

Definition ValidateToken (tokenStr : string) (answer : HttpAnswer) (now : Z) (v : Validator) :
    Validator * result AuthError User :=
  if String.eqb tokenStr "" then (v, Err ErrMissingToken)
  else match ParseUnverified tokenStr with
  | None => (v, Err ErrInvalidToken)
  | Some header =>
      match jwt_Parse tokenStr (getKey (header_kid header) answer now) v with
      | (v, Err e) => (v, Err (if isExpiredError e then ErrExpiredToken else ErrInvalidToken))
      | (v, Ok t) =>
          match pt_Claims t, pt_Valid t with
          | Some claims, true =>
              let c := v_config v in
              if negb (String.eqb (c_Issuer c) "") && negb (String.eqb (GetIssuer claims) (c_Issuer c))
              then (v, Err ErrInvalidIssuer)
              else if negb (String.eqb (c_Audience c) "") && negb (containsAudience (GetAudience claims) (c_Audience c))
              then (v, Err ErrInvalidAudience)
              else (v, Ok (make_user c tokenStr claims))
          | _, _ => (v, Err ErrInvalidToken)
          end
      end
  end.

(** ** What an accepted token is *)

(** [verified alg key token claims]: the signature of the token, under its
    algorithm, verifies with the key, and these are its claims. *)
Variable verified : string -> Key -> string -> Fields -> Prop.

(** The library accepts a token only with the key the function gave for the
    algorithm of its header, and does not change the validator otherwise. *)
Definition Parse_sound : Prop := forall s kf v v' t,
  jwt_Parse s kf v = (v', Ok t) ->
  exists alg key, kf alg v = (v', Ok key) /\ forall cl, pt_Claims t = Some cl -> verified alg key s cl.

Definition trusted (v : Validator) (kid alg : string) (key : Key) : Prop :=
  match key with
  | HMACKey s => alg ∈ hmac_algs /\ s = c_Secret (v_config v) /\ s <> ""
  | RSAPublicKey k => alg ∈ rsa_algs /\
      ((exists c, v_jwksCache v = Some c /\ jc_keys c !! kid = Some k) \/
       v_publicKeys v !! kid = Some k \/ v_publicKeys v !! "default" = Some k)
  end.

Lemma one_of_algs_elem l alg : one_of_algs l alg = true -> alg ∈ l.
Proof. unfold one_of_algs. intros (x & Hx & ->%String.eqb_eq)%existsb_exists. by apply list_elem_of_In. Qed.

Lemma static_key_trusted kid keys key : static_key kid keys = Ok key ->
  exists k, key = RSAPublicKey k /\ (keys !! kid = Some k \/ keys !! "default" = Some k).
Proof. unfold static_key. repeat case_match; intros; simplify_eq; eauto. Qed.

Lemma GetKey_ok kid a now c c' k : GetKey kid a now c = (c', Ok k) -> jc_keys c' !! kid = Some k.
Proof. unfold GetKey. repeat case_match; intros; by simplify_eq. Qed.

Lemma getKey_trusted kid a now alg v v' key : getKey kid a now alg v = (v', Ok key) ->
  v_config v' = v_config v /\ v_publicKeys v' = v_publicKeys v /\ trusted v' kid alg key.
Proof.
  unfold getKey. destruct (one_of_algs hmac_algs alg) eqn:E1.
  { case_match eqn:Es; intros; simplify_eq. apply String.eqb_neq in Es. repeat split; auto using one_of_algs_elem. }
  destruct (one_of_algs rsa_algs alg) eqn:E2; [|done]. apply one_of_algs_elem in E2.
  destruct (v_jwksCache v) as [c|] eqn:Ec.
  - destruct (GetKey kid a now c) as [c' [k|e]] eqn:Eg.
    + intros [= <- <-]. apply GetKey_ok in Eg. repeat split; eauto.
    + intros [= <- (k & -> & Hk)%static_key_trusted]. repeat split; auto.
  - intros [= <- (k & -> & Hk)%static_key_trusted]. repeat split; auto.
Qed.

(** C11: A token is accepted only if its signature verifies with a key that fits
    its algorithm — the configured, non-empty secret for HMAC, a key of the key
    set for its key id or a static key for RSA, so no public key is ever used as
    a secret — and only from the configured issuer and for the configured
    audience, where these are configured.  The user is read off its claims. *)
Theorem accepted_token (HP : Parse_sound) s a now v v' u (H : ValidateToken s a now v = (v', Ok u)) :
  exists header alg key, ParseUnverified s = Some header /\
    verified alg key s (u_Claims u) /\ trusted v' (header_kid header) alg key /\
    v_config v' = v_config v /\ v_publicKeys v' = v_publicKeys v /\
    (c_Issuer (v_config v) <> "" -> GetIssuer (u_Claims u) = c_Issuer (v_config v)) /\
    (c_Audience (v_config v) <> "" -> c_Audience (v_config v) ∈ GetAudience (u_Claims u)) /\
    u = make_user (v_config v) s (u_Claims u).
Proof.
  unfold ValidateToken in H. case_match; [done|]. destruct (ParseUnverified s) as [header|]; [|done].
  destruct (jwt_Parse s _ v) as [w [[claims valid]|e]] eqn:Ep; [|done]. cbn in H.
  destruct claims as [claims|]; [|done]. destruct valid; [|done].
  apply HP in Ep as (alg & key & Hk & Hv). apply getKey_trusted in Hk as (Hc & Hp & Ht).
  destruct (negb (String.eqb (c_Issuer (v_config w)) "") && _) eqn:E1; [done|].
  destruct (negb (String.eqb (c_Audience (v_config w)) "") && _) eqn:E2; [done|].
  injection H as <- <-. exists header, alg, key. cbn [u_Claims make_user]. rewrite Hc in *.
  split; [done|]. split; [by apply Hv|]. repeat (split; [done|]). split; [|split; [|done]].
  - intros Hi%String.eqb_neq. rewrite Hi in E1. by apply negb_false_iff, String.eqb_eq in E1.
  - intros Ha%String.eqb_neq. rewrite Ha in E2. apply negb_false_iff, existsb_exists in E2 as (x & Hx & ->%String.eqb_eq).
    by apply list_elem_of_In.
Qed.

(** Without a secret no HMAC token is accepted, and nothing is ever accepted by
    a validator that knows no key at all. *)
Lemma keyless_rejects (HP : Parse_sound) s a now v : c_Secret (v_config v) = "" -> v_publicKeys v = ∅ -> v_jwksCache v = None ->
  is_ok (ValidateToken s a now v).2 = false.
Proof.
  intros Hs Hp Hj. destruct (ValidateToken s a now v) as [v' [u|e]] eqn:E; [|done]. exfalso.
  unfold ValidateToken in E. case_match; [done|]. destruct (ParseUnverified s) as [h|]; [|done].
  destruct (jwt_Parse s _ v) as [w [t|e]] eqn:Ep; [|done]. apply HP in Ep as (alg & key & Hk & _).
  unfold getKey in Hk. rewrite Hs, Hj, Hp in Hk. cbn in Hk. unfold static_key in Hk.
  repeat case_match; by simplify_map_eq.
Qed.
End Jwt.

(** ** What the key set serves *)

(** A key set holds the keys of one answer of the server, or none yet. *)
Inductive CacheOp := OpGet (kid : string) (a : HttpAnswer) (now : Z) | OpRefresh (a : HttpAnswer) (now : Z).
Definition cache_op (o : CacheOp) (c : JWKSCache) : JWKSCache :=
  match o with OpGet kid a now => (GetKey kid a now c).1 | OpRefresh a now => (Refresh a now c).1 end.
Definition op_answer (o : CacheOp) : HttpAnswer * Z := match o with OpGet _ a now | OpRefresh a now => (a, now) end.

Definition of_answer (ops : list CacheOp) (c : JWKSCache) : Prop :=
  jc_keys c = ∅ \/ exists jwks, (Answer 200 (Some jwks), jc_lastRefresh c) ∈ map op_answer ops /\ jc_keys c = keys_of jwks.

Lemma of_answer_snoc ops o c : of_answer ops c -> of_answer (ops ++ [o]) c.
Proof. intros [H | (j & H & E)]; [by left | right; exists j; rewrite map_app; set_solver]. Qed.

Lemma Refresh_of_answer ops o a now c : op_answer o = (a, now) -> of_answer ops c -> of_answer (ops ++ [o]) (Refresh a now c).1.
Proof.
  intros Ho H. destruct a as [| |status [jwks|]]; cbn; try by apply of_answer_snoc.
  - destruct (Z.eqb_spec status 200) as [->|]; cbn; [|by apply of_answer_snoc]. right. exists jwks. cbn.
    rewrite map_app, <- Ho. set_solver.
  - destruct (negb _); by apply of_answer_snoc.
Qed.

Lemma jwks_keys_served url ttl ops : of_answer ops (fold_left (fun c o => cache_op o c) ops (NewJWKSCache url ttl)).
Proof.
  induction ops as [|o ops IH] using rev_ind; [by left|]. rewrite fold_left_app. cbn [fold_left].
  set (c := fold_left _ ops _) in *. destruct o as [kid a now | a now]; cbn [cache_op]; [|by apply Refresh_of_answer].
  unfold GetKey. destruct (jc_keys c !! kid); [by apply of_answer_snoc|].
  pose proof (Refresh_of_answer ops (OpGet kid a now) a now c eq_refl IH) as H.
  destruct (Refresh a now c) as [c' [|]]; [|done]. by destruct (jc_keys c' !! kid).
Qed.

(** A key that is there is served whatever the server says since, however long
    ago it was fetched. *)
Lemma cached_key_forever kid k c ops : jc_keys c !! kid = Some k ->
  Forall (fun o => exists a now, o = OpGet kid a now) ops ->
  fold_left (fun c o => cache_op o c) ops c = c /\ forall a now, GetKey kid a now c = (c, Ok k).
Proof.
  intros Hk Hops. assert (forall a now, GetKey kid a now c = (c, Ok k)) as H by (intros; unfold GetKey; by rewrite Hk).
  split; [|done]. induction Hops as [|o ops (a & now & ->) _ IH]; [done|]. cbn. by rewrite H.
Qed.

(** ** A library that keeps its promise *)
Definition toy_claims : Fields :=
  {["sub" := VString "u1"; "iss" := VString "https://id"; "roles" := VString "admin editor"]}.
Definition toy_Parse (s : string) (kf : string -> Validator -> Validator * result AuthError Key) (v : Validator) :
    Validator * result string ParsedToken :=
  match kf "RS256" v with
  | (v, Ok _) => (v, Ok (mkParsedToken (Some toy_claims) true))
  | (v, Err _) => (v, Err "token is unverifiable")
  end.
Definition toy_issuer (c : Fields) : string := getStringClaim c "iss".
Definition toy_verified (alg : string) (k : Key) (s : string) (c : Fields) : Prop := alg = "RS256" /\ c = toy_claims.

(** The key of kid "k1": modulus 65537, exponent 3. *)
Definition toy_answer : HttpAnswer := Answer 200 (Some [mkJWK "k1" "RSA" "RS256" "sig" "AQAB" "Aw"]).
Definition toy_validator : Validator :=
  mkValidator (mkConfig "https://id" "" "" "" "https://id/jwks" "" "") ∅ (Some (NewJWKSCache "https://id/jwks" (5 * Minute))).

Example jwk_decodes : jwkToRSAPublicKey (mkJWK "k1" "RSA" "RS256" "sig" "AQAB" "Aw") = Some (mkRSAKey 65537 3).
Proof. reflexivity. Qed.

Lemma accepted_token_witness :
  let r := ValidateToken (fun _ => Some {["kid" := VString "k1"]}) toy_Parse toy_issuer (fun _ => []) (fun _ => None)
             "t" toy_answer 7 toy_validator in
  exists u, r.2 = Ok u /\ u_Roles u = ["admin"; "editor"] /\ toy_issuer (u_Claims u) = "https://id".
Proof.
  intros r. assert (exists v' u, r = (v', Ok u) /\ u_Roles u = ["admin"; "editor"]) as (v' & u & E & Hr)
    by (do 2 eexists; split; reflexivity).
  exists u. rewrite E. split; [done|]. split; [done|].
  destruct (accepted_token (fun _ => Some {["kid" := VString "k1"]}) toy_Parse toy_issuer (fun _ => []) (fun _ => None)
    toy_verified) with (s := "t") (a := toy_answer) (now := 7) (v := toy_validator) (v' := v') (u := u)
    as (header & alg & key & _ & _ & _ & _ & _ & Hi & _).
  - intros s kf v w t Hp. unfold toy_Parse in Hp. destruct (kf "RS256" v) as [w' [k|]] eqn:Ek; [|discriminate].
    injection Hp as <- <-. exists "RS256", k. split; [exact Ek|]. intros cl [= <-]. split; reflexivity.
  - exact E.
  - apply Hi. discriminate.
Defined.
