(* ===== verification/AuthMiddleware.v ===== *)
(** HTTP requests, and the middleware of [internal/auth/middleware.go].

    A handler takes a request and the state of the server to the state
    afterwards and a response, or panics.  The middleware is proved against an
    interface, [TokenValidator]: whatever validates tokens in the server's
    state. *)

From Stdlib Require Import ZArith Lia.
From stdpp Require Import base strings list gmap.
From S2P Require Import Prelude GoStrings GoText GoValue AuthJwt.

#[local] Open Scope string_scope.
#[local] Open Scope Z_scope.

(** ** Requests and responses *)

(** Header names are canonical; [r_Params] are the path parameters of the
    router's context, if it has one. *)
Record Request := mkRequest {
  r_Method : string; r_Path : string; r_RemoteAddr : string;
  r_Header : gmap string (list string); r_Query : gmap string (list string); r_Cookies : list (string * string);
  r_Body : option (result string string); r_Params : option (list (string * string)); r_User : option User }.

Definition first_value (m : gmap string (list string)) (k : string) : string :=
  match m !! k with Some (x :: _) => x | _ => "" end.

Definition UserFromContext (r : Request) : option User := r_User r.
Definition ContextWithUser (u : User) (r : Request) : Request :=
  mkRequest (r_Method r) (r_Path r) (r_RemoteAddr r) (r_Header r) (r_Query r) (r_Cookies r) (r_Body r) (r_Params r) (Some u).

Inductive Body :=
| NoBody
| AuthErrorBody (Error : string)
| ErrorBody (error message : string)
| ValueBody (h : Heap) (v : GoVal).
Record Response := mkResponse { Status : Z; Headers : gmap string string; ResponseBody : Body }.

Definition json_headers : gmap string string := {["Content-Type" := "application/json"]}.
Definition writeJSONError (status : Z) (message : string) : Response :=
  mkResponse status json_headers (AuthErrorBody message).

(** A panic is recovered further up; a stack overflow ends the process. *)
Inductive Outcome := Responded (r : Response) | Panicked | Crashed.

Definition StatusOK : Z := 200.
Definition StatusBadRequest : Z := 400.
Definition StatusUnauthorized : Z := 401.
Definition StatusForbidden : Z := 403.
Definition StatusNotFound : Z := 404.
Definition StatusInternalServerError : Z := 500.

(** [ExtractToken]: the header, then the query, then the cookie. *)
Definition ExtractToken (r : Request) : string :=
  let auth := first_value (r_Header r) "Authorization" in
  if HasPrefix auth "Bearer " then TrimPrefix auth "Bearer "
  else if negb (String.eqb (first_value (r_Query r) "token") "") then first_value (r_Query r) "token"
  else match List.find (fun kv => String.eqb kv.1 "token") (r_Cookies r) with Some kv => kv.2 | None => "" end.

(** ** Middleware *)
Class TokenValidator (W : Type) := validate_token : string -> W -> W * result AuthError User.

Inductive AuthRequirement := AuthRequired | AuthOptional | AuthPublic.

Section Middleware.
Context {W : Type}.
Definition HttpHandler : Type := Request -> W -> W * Outcome.

Definition token_message (e : AuthError) : string :=
  match e with
  | ErrExpiredToken => "token has expired"
  | ErrInvalidIssuer => "invalid token issuer"
  | ErrInvalidAudience => "invalid token audience"
  | _ => "invalid token"
  end.

Definition Authenticate `{TokenValidator W} (requirement : AuthRequirement) (next : HttpHandler) : HttpHandler := fun r w =>
  match requirement with
  | AuthPublic => next r w
  | _ =>
      let required := match requirement with AuthRequired => true | _ => false end in
      let token := ExtractToken r in
      if String.eqb token "" then
        if required then (w, Responded (writeJSONError StatusUnauthorized "authentication required")) else next r w
      else match validate_token token w with
           | (w, Err e) =>
               if required then (w, Responded (writeJSONError StatusUnauthorized (token_message e))) else next r w
           | (w, Ok u) => next (ContextWithUser u r) w
           end
  end.

Definition RequireAuth `{TokenValidator W} : HttpHandler -> HttpHandler := Authenticate AuthRequired.
Definition OptionalAuth `{TokenValidator W} : HttpHandler -> HttpHandler := Authenticate AuthOptional.

(** What the three checks of the user in the context share. *)
Definition require (ok : User -> bool) (next : HttpHandler) : HttpHandler := fun r w =>
  match UserFromContext r with
  | None => (w, Responded (writeJSONError StatusUnauthorized "authentication required"))
  | Some u => if ok u then next r w else (w, Responded (writeJSONError StatusForbidden "insufficient permissions"))
  end.
Definition RequireRole (role : string) : HttpHandler -> HttpHandler := require (fun u => HasRole u role).
Definition RequirePermission (permission : string) : HttpHandler -> HttpHandler := require (fun u => HasPermission u permission).
Definition RequireAnyRole (roles : list string) : HttpHandler -> HttpHandler := require (fun u => existsb (HasRole u) roles).

(** [m] answers the request itself, whatever it wraps. *)
Definition refuses (m : HttpHandler -> HttpHandler) (r : Request) (w w' : W) (statuses : list Z) : Prop :=
  exists resp, Status resp ∈ statuses /\ forall next, m next r w = (w', Responded resp).

(** [m] hands on, as [r'] and in [w']. *)
Definition passes (m : HttpHandler -> HttpHandler) (r : Request) (w : W) (r' : Request) (w' : W) : Prop :=
  forall next, m next r w = next r' w'.

Lemma Authenticate_required `{TokenValidator W} r w :
  (exists u w', ExtractToken r <> "" /\ validate_token (ExtractToken r) w = (w', Ok u) /\
     passes (Authenticate AuthRequired) r w (ContextWithUser u r) w') \/
  (exists w', (ExtractToken r = "" \/ exists e, validate_token (ExtractToken r) w = (w', Err e)) /\
     refuses (Authenticate AuthRequired) r w w' [StatusUnauthorized]).
Proof.
  unfold passes, refuses, Authenticate. cbn zeta. destruct (String.eqb_spec (ExtractToken r) "") as [->|Hne].
  - right. exists w. split; [by left|]. eexists. split; [|done]. apply list_elem_of_here.
  - destruct (validate_token (ExtractToken r) w) as [w' [u|e]] eqn:E; [left; eauto|]. right. exists w'.
    split; [eauto|]. eexists. split; [|done]. apply list_elem_of_here.
Qed.

Lemma HasRole_spec u role : HasRole u role = true <-> role ∈ u_Roles u.
Proof.
  unfold HasRole. rewrite existsb_exists. setoid_rewrite String.eqb_eq. setoid_rewrite list_elem_of_In.
  split; [by intros (x & ? & ->) | eauto].
Qed.

(** Behind [Authenticate] with a required token and [RequireRole], a handler
    runs only for a user whose token was accepted and who has the role, and then
    with that user in its context; every other request is answered 401 or 403
    without running it. *)
Theorem guarded_handler `{TokenValidator W} role r w :
  let m := fun next => Authenticate AuthRequired (RequireRole role next) in
  (exists u w', ExtractToken r <> "" /\ validate_token (ExtractToken r) w = (w', Ok u) /\ role ∈ u_Roles u /\
     passes m r w (ContextWithUser u r) w') \/
  (exists w', refuses m r w w' [StatusUnauthorized; StatusForbidden]).
Proof.
  intros m. destruct (Authenticate_required r w) as [(u & w' & Hne & Hv & Hp) | (w' & _ & resp & Hs & Hr)].
  - destruct (HasRole u role) eqn:E.
    + left. exists u, w'. apply HasRole_spec in E. repeat split; auto. intros next. unfold m. rewrite Hp.
      unfold RequireRole, require. cbn. apply HasRole_spec in E. by rewrite E.
    + right. exists w'. eexists. split; [|intros next; unfold m; rewrite Hp; unfold RequireRole, require; cbn; by rewrite E].
      apply list_elem_of_further, list_elem_of_here.
  - right. exists w', resp. split; [set_solver|]. intros next. apply Hr.
Qed.

(** An optional token never refuses: the request is handed on, with the user of
    the token exactly if there is a valid one. *)
Lemma Authenticate_optional `{TokenValidator W} r w : exists r' w', passes (Authenticate AuthOptional) r w r' w' /\
  (r' = r \/ exists u, r' = ContextWithUser u r /\ validate_token (ExtractToken r) w = (w', Ok u)).
Proof.
  unfold passes, Authenticate. cbn zeta. destruct (String.eqb (ExtractToken r) ""); [exists r, w; auto|].
  destruct (validate_token (ExtractToken r) w) as [w' [u|e]] eqn:E; [exists (ContextWithUser u r), w' | exists r, w'];
    (split; [done|]); [right; eauto | by left].
Qed.
End Middleware.
Arguments HttpHandler : clear implicits.
