(* ===== verification/RbacMiddleware.v ===== *)
(** HTTP middleware that asks for permissions and roles:
    [internal/rbac/middleware.go], over the engine of [RbacEngine] and the requests
    of [AuthMiddleware].  A check that does not return is [None]. *)

From Stdlib Require Import ZArith Lia.
From stdpp Require Import base strings list gmap.
From S2P Require Import Prelude GoStrings RbacPolicy RbacStorage RbacEngine.
From S2P Require AuthJwt AuthMiddleware.

#[local] Open Scope string_scope.

(** The engine sees the user of the request's context. *)
Definition engine_user (u : AuthJwt.User) : User := mkUser (AuthJwt.u_ID u) (AuthJwt.u_Roles u) (AuthJwt.u_Permissions u).

Section Middleware.
Context {S : Type} `{Storage S} {W : Type}.
(** The bound on the depth of inheritance and the time of the checks. *)
Variables (n : nat) (t : Z).

(** What a handler changes: the engine, which the middleware shares, and the rest. *)
Definition World : Type := Engine S * W.
Definition Handler : Type := AuthMiddleware.Request -> World -> option (World * AuthMiddleware.Outcome).
Definition refuse (status : Z) (message : string) (w : World) : option (World * AuthMiddleware.Outcome) :=
  Some (w, AuthMiddleware.Responded (AuthMiddleware.writeJSONError status message)).

(** Checks of a user, in a world. *)
Definition Check_ : Type := AuthMiddleware.Request -> AuthJwt.User -> World -> option (World * bool).
Definition guard (check : Check_) (next : Handler) : Handler := fun r w =>
  match AuthMiddleware.UserFromContext r with
  | None => refuse AuthMiddleware.StatusUnauthorized "authentication required" w
  | Some user =>
      match check r user w with
      | None => None
      | Some (w, true) => next r w
      | Some (w, false) => refuse AuthMiddleware.StatusForbidden "insufficient permissions" w
      end
  end.

Definition check_permission (permission : Permission) : Check_ := fun _ user w =>
  match CheckPermission n t (Some (engine_user user)) permission w.1 with Some (e, b) => Some ((e, w.2), b) | None => None end.
Definition check_role (role : string) : Check_ := fun _ user w =>
  match CheckRole n t (Some (engine_user user)) role w.1 with Some (e, b) => Some ((e, w.2), b) | None => None end.
(** The loops stop at the first check that holds, or that does not. *)
Fixpoint check_any {A} (check : A -> Check_) (l : list A) : Check_ := fun r user w =>
  match l with
  | [] => Some (w, false)
  | x :: l' =>
      match check x r user w with
      | Some (w, true) => Some (w, true)
      | Some (w, false) => check_any check l' r user w
      | None => None
      end
  end.
Fixpoint check_all {A} (check : A -> Check_) (l : list A) : Check_ := fun r user w =>
  match l with
  | [] => Some (w, true)
  | x :: l' =>
      match check x r user w with
      | Some (w, true) => check_all check l' r user w
      | Some (w, false) => Some (w, false)
      | None => None
      end
  end.

Definition RequirePermission (permission : Permission) : Handler -> Handler := guard (check_permission permission).
Definition RequireAnyPermission (permissions : list Permission) : Handler -> Handler := guard (check_any check_permission permissions).
Definition RequireAllPermissions (permissions : list Permission) : Handler -> Handler := guard (check_all check_permission permissions).
Definition RequireRole (role : string) : Handler -> Handler := guard (check_role role).
Definition RequireAnyRole (roles : list string) : Handler -> Handler := guard (check_any check_role roles).
Definition ResourcePermission (action : string) (resourceExtractor : AuthMiddleware.Request -> string) : Handler -> Handler :=
  guard (fun r => check_permission (resourceExtractor r ++ ":" ++ action) r).
Definition Custom (authorize : AuthMiddleware.Request -> AuthJwt.User -> W -> W * bool) : Handler -> Handler :=
  guard (fun r user w => let '(w', b) := authorize r user w.2 in Some ((w.1, w'), b)).
End Middleware.

(** * What reaches the handler *)
Section Correct.
Context {S : Type} `{StorageLaws S} {W : Type}.
Variables (n : nat) (t : Z) (roles : gmap string Role).
Hypothesis Hn : (size roles < n)%nat.

(** A check returns, keeps the engine good, and holds only if [P] does. *)
Definition sound (check : Check_ (S := S) (W := W)) (r : AuthMiddleware.Request) (u : AuthJwt.User) (P : Prop) : Prop :=
  forall w, good roles w.1 -> exists w' b, check r u w = Some (w', b) /\ good roles w'.1 /\ w'.2 = w.2 /\ (b = true -> P).

Lemma permission_sound permission r u : sound (check_permission n t permission) r u (allowed roles (engine_user u) permission).
Proof.
  intros [e w] Hg. unfold check_permission. cbn [fst snd]. destruct (CheckPermission_spec roles n t (engine_user u) permission e Hg Hn) as (e' & b & -> & Hg' & Hb & _).
  by exists (e', w), b.
Qed.
Lemma any_sound {A} (check : A -> Check_) l r u (P : A -> Prop) : (forall x, sound (check x) r u (P x)) ->
  sound (check_any check l) r u (exists x, x ∈ l /\ P x).
Proof.
  intros Hc. induction l as [|x l IH]; intros w Hg; cbn [check_any].
  - by exists w, false.
  - destruct (Hc x w Hg) as (w1 & b & -> & Hg1 & E1 & Hb). destruct b.
    + exists w1, true. split; [done|]. split; [done|]. split; [done|]. intros _. exists x. split; [by left|by apply Hb].
    + destruct (IH w1 Hg1) as (w2 & b & E & Hg2 & E2 & Hb2). exists w2, b. split; [done|]. split; [done|]. split; [congruence|].
      intros Ht. destruct (Hb2 Ht) as (y & Hy & HP). exists y. split; [by right|done].
Qed.
Lemma all_sound {A} (check : A -> Check_) l r u (P : A -> Prop) : (forall x, sound (check x) r u (P x)) ->
  sound (check_all check l) r u (forall x, x ∈ l -> P x).
Proof.
  intros Hc. induction l as [|x l IH]; intros w Hg; cbn [check_all].
  - exists w, true. split; [done|]. split; [done|]. split; [done|]. intros _ x Hx. by apply not_elem_of_nil in Hx.
  - destruct (Hc x w Hg) as (w1 & b & -> & Hg1 & E1 & Hb). destruct b.
    + destruct (IH w1 Hg1) as (w2 & b & E & Hg2 & E2 & Hb2). exists w2, b. split; [done|]. split; [done|]. split; [congruence|].
      intros Ht y [-> | Hy]%elem_of_cons; [by apply Hb|by apply Hb2].
    + by exists w1, false.
Qed.

(** A request reaches the handler, in an engine that is as good as before; or it
    is refused with the status that says why, and nothing else changes. *)
Definition guards (m : Handler (S := S) (W := W) -> Handler) (r : AuthMiddleware.Request) (P : AuthJwt.User -> Prop) : Prop :=
  forall w, good roles w.1 ->
    (AuthMiddleware.UserFromContext r = None /\ forall next, m next r w = refuse AuthMiddleware.StatusUnauthorized "authentication required" w) \/
    exists user w', AuthMiddleware.UserFromContext r = Some user /\ good roles w'.1 /\ w'.2 = w.2 /\
      ((P user /\ forall next, m next r w = next r w') \/
       (forall next, m next r w = refuse AuthMiddleware.StatusForbidden "insufficient permissions" w')).

Lemma guard_sound check r P : (forall u, sound check r u (P u)) -> guards (guard check) r P.
Proof.
  intros Hc w Hg. unfold guard. destruct (AuthMiddleware.UserFromContext r) as [user|]; [right|by left].
  destruct (Hc user w Hg) as (w' & b & -> & Hg' & E & Hb). exists user, w'. split; [done|]. split; [done|]. split; [done|].
  destruct b; [left; by split; [apply Hb|]|by right].
Qed.

(** C12: Behind the middleware a handler runs only for an authenticated user who is
    allowed what it asks for, by a direct claim or by a role the user has or
    inherits: the permission, one of the permissions, all of them, or the
    permission on the resource of the request.  Every other request is answered
    with 401 or 403 and changes nothing but the engine's cache, which stays
    sound. *)
Theorem permissions_guarded r permission permissions action resource :
  guards (RequirePermission n t permission) r (fun u => allowed roles (engine_user u) permission) /\
  guards (RequireAnyPermission n t permissions) r (fun u => exists p, p ∈ permissions /\ allowed roles (engine_user u) p) /\
  guards (RequireAllPermissions n t permissions) r (fun u => forall p, p ∈ permissions -> allowed roles (engine_user u) p) /\
  guards (ResourcePermission n t action resource) r (fun u => allowed roles (engine_user u) (resource r ++ ":" ++ action)).
Proof.
  split; [|split; [|split]]; apply guard_sound; intros u.
  - apply permission_sound.
  - apply any_sound. intros p. apply permission_sound.
  - apply all_sound. intros p. apply permission_sound.
  - intros w Hg. exact (permission_sound (resource r ++ ":" ++ action) r u w Hg).
Qed.

(** With an empty cache and an acyclic policy, a permission and a role are asked
    for exactly. *)
Hypothesis Hac : acyclic roles.
Lemma role_exact role r user (w : World (S := S) (W := W)) next : good roles w.1 -> AuthMiddleware.UserFromContext r = Some user ->
  exists w', good roles w'.1 /\ w'.2 = w.2 /\
    ((exists x, In x (AuthJwt.u_Roles user) /\ rtc (inherits roles) x role) -> RequireRole n t role next r w = next r w') /\
    (~ (exists x, In x (AuthJwt.u_Roles user) /\ rtc (inherits roles) x role) ->
     RequireRole n t role next r w = refuse AuthMiddleware.StatusForbidden "insufficient permissions" w').
Proof.
  intros Hg Hu. destruct w as [e w]. unfold RequireRole, guard, check_role. rewrite Hu. cbn [fst snd].
  destruct (CheckRole_spec roles n t (engine_user user) role e Hg Hac Hn) as (e' & b & -> & Hg' & Hb). exists (e', w). split; [done|]. split; [done|].
  cbn in Hb. destruct b; split; intros Hx; naive_solver.
Qed.
Lemma permission_exact permission r user (w : World (S := S) (W := W)) next : good roles w.1 -> rolePermissions w.1 = ∅ -> AuthMiddleware.UserFromContext r = Some user ->
  allowed roles (engine_user user) permission -> exists w', good roles w'.1 /\ w'.2 = w.2 /\ RequirePermission n t permission next r w = next r w'.
Proof.
  intros Hg Hempty Hu Ha. destruct w as [e w]. unfold RequirePermission, guard, check_permission. rewrite Hu. cbn [fst snd].
  destruct (CheckPermission_spec roles n t (engine_user user) permission e Hg Hn) as (e' & b & -> & Hg' & _ & Hb). exists (e', w).
  rewrite (Hb Hempty Ha). by split.
Qed.
End Correct.

(** No permission asked for lets every user through, in one way, and none in the other. *)
Lemma none_asked {S : Type} `{Storage S} {W : Type} n t (next : Handler) r user (w : World (S := S) (W := W)) :
  AuthMiddleware.UserFromContext r = Some user ->
  RequireAllPermissions n t [] next r w = next r w /\
  RequireAnyPermission n t [] next r w = refuse AuthMiddleware.StatusForbidden "insufficient permissions" w.
Proof. intros Hu. unfold RequireAllPermissions, RequireAnyPermission, guard. by rewrite Hu. Qed.

(** ** An editor reads the health of the system *)
Definition editor : AuthJwt.User := AuthJwt.mkUser "u" "" "" ["editor"] [] ∅ "" None.
Definition editor_request : AuthMiddleware.Request := AuthMiddleware.ContextWithUser editor (AuthMiddleware.mkRequest "GET" "/health" "" ∅ ∅ [] None None None).

Lemma permissions_guarded_witness : let roles := contents (storage default_engine) in
  allowed roles (engine_user editor) "health:read" /\
  exists w', good roles w'.1 /\ forall next : Handler (W := unit), RequirePermission 4 0 "health:read" next editor_request (default_engine, tt) = next editor_request w'.
Proof.
  intros roles. assert (good roles default_engine) as Hg.
  { split; [exact I|]. split; [done|]. intros r ps. cbn. rewrite lookup_empty. discriminate. }
  destruct (permissions_guarded (W := unit) 4 0 roles ltac:(vm_compute; lia) editor_request "health:read" [] "" (fun _ => "")) as (H & _ & _ & _).
  destruct (H (default_engine, tt) Hg) as [[Hu _] | (user & w' & Hu & Hg' & _ & [[Ha Hp] | Hr])]; [discriminate Hu| |].
  - injection Hu as <-. split; [exact Ha|]. by exists w'.
  - specialize (Hr (fun _ _ => None)). discriminate Hr.
Defined.
