(* ===== verification/AuthLoader.v ===== *)
(** Authentication providers, roles and middleware of a specification:
    [internal/auth/dsl_loader.go].

    Maps are ranged over in no particular order; the loops over a middleware's
    configuration treat each key on its own, so the order does not show. *)

From Stdlib Require Import ZArith Lia Ascii.
From stdpp Require Import base strings list gmap.
From S2P Require Import Prelude GoStrings GoText GoValue DslAst DslSymbols DslValidator DslAccepted AuthJwt.

#[local] Open Scope string_scope.

Record LoadedAuth := mkLoadedAuth {
  la_Name : string; la_Method : string; la_Config : option AuthJwt.Config; la_JWKS : option JWKSConfig; la_RawDecl : AuthDecl }.
Record LoadedRole := mkLoadedRole { lr_Name : string; lr_Permissions : list string; lr_RawDecl : RoleDecl }.
Record LoadedMiddleware := mkLoadedMiddleware {
  lm_Name : string; lm_Type : string; lm_Config : Fields; Provider : string; Required : bool; lm_RawDecl : MiddlewareDecl }.

Record DSLLoader := mkDSLLoader {
  auths : gmap string LoadedAuth; loaded_roles : gmap string LoadedRole; loaded_middlewares : gmap string LoadedMiddleware }.
Definition NewDSLLoader : DSLLoader := mkDSLLoader ∅ ∅ ∅.

Inductive LoadError :=
| DuplicateAuth (n : string) | DuplicateRole (n : string) | DuplicateMiddleware (n : string)
| UnknownAuth (n : string) | NoConfiguration (n : string) | UnknownMiddleware (n : string)
| NotAuthentication (n : string) | NoProvider (n : string) | ValidatorFailed (e : AuthError)
| NilAuth | NotHTTPS (url : string) | NilRole | InvalidPermission (p : string)
| Loading (what name : string) (e : LoadError).

(** ** Loading *)
Definition jwks_config (j : JWKSConfig) : AuthJwt.Config :=
  AuthJwt.mkConfig (Issuer j) (Audience j) "" "" (URL j) "" "".
Definition load_decl (d : AuthDecl) : LoadedAuth :=
  mkLoadedAuth (auth_Name d) (Method d) (option_map jwks_config (JWKS d)) (JWKS d) d.

Definition loadAuth (d : AuthDecl) (l : DSLLoader) : DSLLoader * result LoadError unit :=
  match auths l !! auth_Name d with
  | Some _ => (l, Err (DuplicateAuth (auth_Name d)))
  | None => (mkDSLLoader (<[auth_Name d := load_decl d]> (auths l)) (loaded_roles l) (loaded_middlewares l), Ok tt)
  end.

Definition load_role_decl (d : RoleDecl) : LoadedRole := mkLoadedRole (role_Name d) (role_Permissions d) d.
Definition loadRole (d : RoleDecl) (l : DSLLoader) : DSLLoader * result LoadError unit :=
  match loaded_roles l !! role_Name d with
  | Some _ => (l, Err (DuplicateRole (role_Name d)))
  | None => (mkDSLLoader (auths l) (<[role_Name d := load_role_decl d]> (loaded_roles l)) (loaded_middlewares l), Ok tt)
  end.

Definition extractExpressionValue (e : Expression) : GoVal :=
  match e with
  | StringLiteral _ v => VString v
  | NumberLiteral _ v => VFloat64 v
  | BoolLiteral _ v => VBool v
  | Identifier _ n => VString n
  | _ => VNil
  end.

Definition load_middleware_decl (d : MiddlewareDecl) : LoadedMiddleware :=
  let config := extractExpressionValue <$> mw_Config d in
  mkLoadedMiddleware (mw_Name d) (MiddlewareType d) config
    (match config !! "provider" with Some (VString s) => s | _ => "" end)
    (match config !! "required" with Some (VBool b) => b | _ => false end) d.
Definition loadMiddleware (d : MiddlewareDecl) (l : DSLLoader) : DSLLoader * result LoadError unit :=
  match loaded_middlewares l !! mw_Name d with
  | Some _ => (l, Err (DuplicateMiddleware (mw_Name d)))
  | None => (mkDSLLoader (auths l) (loaded_roles l) (<[mw_Name d := load_middleware_decl d]> (loaded_middlewares l)), Ok tt)
  end.

Definition wrap (what name : string) (x : DSLLoader * result LoadError unit) : DSLLoader * result LoadError unit :=
  match x with (l, Err e) => (l, Err (Loading what name e)) | r => r end.
Definition load_statement (s : Statement) (l : DSLLoader) : DSLLoader * result LoadError unit :=
  match s with
  | Auth d => wrap "auth" (auth_Name d) (loadAuth d l)
  | Role d => wrap "role" (role_Name d) (loadRole d l)
  | Middleware d => wrap "middleware" (mw_Name d) (loadMiddleware d l)
  | _ => (l, Ok tt)
  end.
Fixpoint LoadStatements (stmts : list Statement) (l : DSLLoader) : DSLLoader * result LoadError unit :=
  match stmts with
  | [] => (l, Ok tt)
  | s :: stmts' => match load_statement s l with (l, Ok _) => LoadStatements stmts' l | (l, Err e) => (l, Err e) end
  end.
Definition LoadProgram (p : Program_) (l : DSLLoader) : DSLLoader * result LoadError unit := LoadStatements (Statements p) l.

(** ** Lookups *)
Definition GetAuth (n : string) (l : DSLLoader) : option LoadedAuth := auths l !! n.
Definition GetRole (n : string) (l : DSLLoader) : option LoadedRole := loaded_roles l !! n.
Definition GetMiddleware (n : string) (l : DSLLoader) : option LoadedMiddleware := loaded_middlewares l !! n.
Definition AllAuths (l : DSLLoader) : gmap string LoadedAuth := auths l.
Definition AllRoles (l : DSLLoader) : gmap string LoadedRole := loaded_roles l.
Definition AllMiddlewares (l : DSLLoader) : gmap string LoadedMiddleware := loaded_middlewares l.

Section Validators.
(** [NewValidator] with the PEM parser, the answer of the key server and the time. *)
Variable new_validator : AuthJwt.Config -> result AuthError Validator.

Definition CreateValidator (n : string) (l : DSLLoader) : result LoadError Validator :=
  match auths l !! n with
  | None => Err (UnknownAuth n)
  | Some a =>
      match la_Config a with
      | None => Err (NoConfiguration n)
      | Some c => match new_validator c with Ok v => Ok v | Err e => Err (ValidatorFailed e) end
      end
  end.

(** The validator of the middleware it creates. *)
Definition CreateMiddlewareChain (n : string) (l : DSLLoader) : result LoadError Validator :=
  match loaded_middlewares l !! n with
  | None => Err (UnknownMiddleware n)
  | Some mw =>
      if negb (String.eqb (lm_Type mw) "authentication") then Err (NotAuthentication n)
      else if String.eqb (Provider mw) "" then Err (NoProvider n)
      else match CreateValidator (Provider mw) l with Ok v => Ok v | Err e => Err (Loading "validator" n e) end
  end.
End Validators.

Definition RoleHasPermission (roleName permission : string) (l : DSLLoader) : bool :=
  match loaded_roles l !! roleName with
  | None => false
  | Some r => existsb (fun p => String.eqb p permission) (lr_Permissions r)
  end.

(** The permissions in order of first appearance. *)
Fixpoint add_perms (ps : list string) (seen : gset string) (perms : list string) : gset string * list string :=
  match ps with
  | [] => (seen, perms)
  | p :: ps' => if bool_decide (p ∈ seen) then add_perms ps' seen perms
                else add_perms ps' ({[p]} ∪ seen) (perms ++ [p])%list
  end.
Fixpoint perms_loop (l : DSLLoader) (names : list string) (seen : gset string) (perms : list string) : list string :=
  match names with
  | [] => perms
  | n :: names' =>
      match loaded_roles l !! n with
      | None => perms_loop l names' seen perms
      | Some r => let '(seen, perms) := add_perms (lr_Permissions r) seen perms in perms_loop l names' seen perms
      end
  end.
Definition GetPermissionsForRoles (names : list string) (l : DSLLoader) : list string := perms_loop l names ∅ [].

(** ** The checking loaders *)
Definition LoadAuthConfig (d : option AuthDecl) : result LoadError LoadedAuth :=
  match d with
  | None => Err NilAuth
  | Some d =>
      match JWKS d with
      | Some j => if negb (String.eqb (URL j) "") && (4 <? String.length (URL j))%nat && HasPrefix (URL j) "http" &&
                     negb (HasPrefix (URL j) "https")
                  then Err (NotHTTPS (URL j)) else Ok (load_decl d)
      | None => Ok (load_decl d)
      end
  end.

(** The loop over the runes: the index of the first colon decides. *)
Fixpoint permission_loop (runes : list (nat * Z)) (len : nat) : bool :=
  match runes with
  | [] => false
  | (i, c) :: runes' => if (c =? 58)%Z then (0 <? i)%nat && (i <? len - 1)%nat else permission_loop runes' len
  end.
Definition isValidPermissionFormat (p : string) : bool := permission_loop (range_runes p) (String.length p).

Definition LoadRoleConfig (d : option RoleDecl) : result LoadError LoadedRole :=
  match d with
  | None => Err NilRole
  | Some d =>
      match List.find (fun p => negb (isValidPermissionFormat p)) (role_Permissions d) with
      | Some p => Err (InvalidPermission p)
      | None => Ok (load_role_decl d)
      end
  end.

Fixpoint LoadRolesMap (roles : list RoleDecl) (m : gmap string LoadedRole) : result LoadError (gmap string LoadedRole) :=
  match roles with
  | [] => Ok m
  | d :: roles' =>
      match m !! role_Name d with
      | Some _ => Err (DuplicateRole (role_Name d))
      | None => match LoadRoleConfig (Some d) with
                | Err e => Err (Loading "role" (role_Name d) e)
                | Ok r => LoadRolesMap roles' (<[role_Name d := r]> m)
                end
      end
  end.

(** * What loading establishes *)
Definition auth_of (s : Statement) : option AuthDecl := match s with Auth d => Some d | _ => None end.
Definition role_of (s : Statement) : option RoleDecl := match s with Role d => Some d | _ => None end.
Definition middleware_of (s : Statement) : option MiddlewareDecl := match s with Middleware d => Some d | _ => None end.

(** The declaration of a name. *)
Definition declared {D} (name : D -> string) (f : Statement -> option D) (l : list Statement) (n : string) : option D :=
  List.find (fun d => String.eqb (name d) n) (omap f l).

(** [m] gains, for each declaration of [ds], an entry under its own name. *)
Definition gains {D V} (name : D -> string) (load : D -> V) (ds : list D) (m m' : gmap string V) : Prop :=
  forall n, m' !! n = match m !! n with
                      | Some v => Some v
                      | None => option_map load (List.find (fun d => String.eqb (name d) n) ds)
                      end.

Definition new_names {D V} (name : D -> string) (ds : list D) (m : gmap string V) : Prop :=
  NoDup (map name ds) /\ Forall (fun d => m !! name d = None) ds.

Lemma gains_nil {D V} name (load : D -> V) m : gains name load [] m m.
Proof. intros n. by destruct (m !! n). Qed.

Lemma gains_cons {D V} name (load : D -> V) d ds m m' : m !! name d = None ->
  gains name load ds (<[name d := load d]> m) m' -> gains name load (d :: ds) m m'.
Proof.
  intros Hd H n. rewrite H. cbn. destruct (String.eqb_spec (name d) n) as [<-|Hn].
  - by rewrite lookup_insert_eq, Hd.
  - by rewrite lookup_insert_ne.
Qed.

Lemma new_names_cons {D V} name (load : D -> V) d ds (m : gmap string V) : new_names name (d :: ds) m ->
  m !! name d = None /\ new_names name ds (<[name d := load d]> m).
Proof.
  intros [Hnd Hf]. cbn in Hnd. apply NoDup_cons in Hnd as [Hnot Hnd]. apply Forall_cons in Hf as [Hd Hf]. split; [done|].
  split; [done|]. rewrite Forall_forall in Hf |- *. intros e He. rewrite lookup_insert_ne; [auto|]. intros Heq. apply Hnot.
  rewrite Heq. by apply list_elem_of_fmap_2.
Qed.

Lemma LoadStatements_ok l : forall st,
  new_names auth_Name (omap auth_of l) (auths st) -> new_names role_Name (omap role_of l) (loaded_roles st) ->
  new_names mw_Name (omap middleware_of l) (loaded_middlewares st) ->
  let '(st', res) := LoadStatements l st in
  res = Ok tt /\ gains auth_Name load_decl (omap auth_of l) (auths st) (auths st') /\
  gains role_Name load_role_decl (omap role_of l) (loaded_roles st) (loaded_roles st') /\
  gains mw_Name load_middleware_decl (omap middleware_of l) (loaded_middlewares st) (loaded_middlewares st').
Proof.
  induction l as [|s l IH]; intros st Ha Hr Hm; [cbn; auto using gains_nil|].
  destruct s; cbn [LoadStatements load_statement omap list_omap auth_of role_of middleware_of] in *;
    try exact (IH st Ha Hr Hm).
  - apply (new_names_cons _ load_decl) in Ha as [Hn Ha]. unfold loadAuth. rewrite Hn. cbn.
    specialize (IH (mkDSLLoader (<[auth_Name d := load_decl d]> (auths st)) (loaded_roles st) (loaded_middlewares st)) Ha Hr Hm).
    destruct (LoadStatements l _) as [st' res]. destruct IH as (? & ? & ? & ?). auto using gains_cons.
  - apply (new_names_cons _ load_role_decl) in Hr as [Hn Hr]. unfold loadRole. rewrite Hn. cbn.
    specialize (IH (mkDSLLoader (auths st) (<[role_Name d := load_role_decl d]> (loaded_roles st)) (loaded_middlewares st)) Ha Hr Hm).
    destruct (LoadStatements l _) as [st' res]. destruct IH as (? & ? & ? & ?). auto using gains_cons.
  - apply (new_names_cons _ load_middleware_decl) in Hm as [Hn Hm]. unfold loadMiddleware. rewrite Hn. cbn.
    specialize (IH (mkDSLLoader (auths st) (loaded_roles st) (<[mw_Name d := load_middleware_decl d]> (loaded_middlewares st))) Ha Hr Hm).
    destruct (LoadStatements l _) as [st' res]. destruct IH as (? & ? & ? & ?). auto using gains_cons.
Qed.

Lemma omap_names {D} (name : D -> string) (f : Statement -> option D) l :
  map name (omap f l) = omap (fun s => option_map name (f s)) l.
Proof. induction l as [|s l IH]; [done|]. cbn. destruct (f s); cbn; by rewrite IH. Qed.

Section Accepted.
Variable urlParse : string -> result string string.

Lemma accepted_new_names {D V} (name : D -> string) (f : Statement -> option D) (p : Program_) :
  (Validate urlParse (Some p) New).2 = [] ->
  (forall s, is_Some (f s) -> leaves s = [s]) ->
  (forall L s d, f s = Some d -> admissible L s -> name d ∉ omap (fun s => option_map name (f s)) L) ->
  new_names name (omap f (Statements p)) (∅ : gmap string V).
Proof.
  intros Hok Hl Hn. split; [|apply Forall_forall; intros; apply lookup_empty]. rewrite omap_names.
  apply (toplevel_NoDup urlParse p Hok).
  - intros s [n Hs]. apply Hl. destruct (f s); [eauto | done].
  - intros L s n Hs Ha. destruct (f s) as [d|] eqn:E; [|done]. injection Hs as <-. eauto.
Qed.

(** The providers, roles and middleware of an accepted program load without
    an error, each under its own name: the duplicates the loader refuses are
    among those the validator refuses. *)
Theorem accepted_auth_loads (p : Program_) (Hok : (Validate urlParse (Some p) New).2 = []) :
  let '(l, res) := LoadProgram p NewDSLLoader in
  res = Ok tt /\
  (forall n, GetAuth n l = option_map load_decl (declared auth_Name auth_of (Statements p) n)) /\
  (forall n, GetRole n l = option_map load_role_decl (declared role_Name role_of (Statements p) n)) /\
  (forall n, GetMiddleware n l = option_map load_middleware_decl (declared mw_Name middleware_of (Statements p) n)).
Proof.
  pose proof (LoadStatements_ok (Statements p) NewDSLLoader) as H. unfold LoadProgram.
  destruct (LoadStatements (Statements p) NewDSLLoader) as [l res].
  destruct H as (H0 & H1 & H2 & H3); try (apply (accepted_new_names _ _ p Hok); [by intros [] [? ?]|]).
  - intros L [] e; try done. intros [= <-] [H _]. intros Hin. apply H. unfold auth_names.
    rewrite list_elem_of_omap in Hin |- *. destruct Hin as (s & Hs & E). exists s. by destruct s.
  - intros L [] e; try done. intros [= <-] [H _]. intros Hin. apply H. unfold role_names.
    rewrite list_elem_of_omap in Hin |- *. destruct Hin as (s & Hs & E). exists s. by destruct s.
  - intros L [] e; try done. intros [= <-] [H _]. intros Hin. apply H. unfold middleware_names.
    rewrite list_elem_of_omap in Hin |- *. destruct Hin as (s & Hs & E). exists s. by destruct s.
  - split; [done|]. split; [exact H1 | split; [exact H2 | exact H3]].
Qed.
End Accepted.

Lemma accepted_auth_loads_witness :
  let l := (LoadProgram sample_app NewDSLLoader).1 in
  (Validate (fun _ => Ok "https") (Some sample_app) New).2 = [] /\
  forall n, GetMiddleware n l = option_map load_middleware_decl (declared mw_Name middleware_of (Statements sample_app) n).
Proof.
  split; [reflexivity|]. intros n.
  destruct (accepted_auth_loads (fun _ => Ok "https") sample_app eq_refl) as (_ & _ & _ & H). exact (H n).
Defined.

(** ** Permissions of roles *)
Lemma add_perms_spec ps : forall seen perms seen' perms',
  add_perms ps seen perms = (seen', perms') -> NoDup perms -> (forall x, x ∈ seen <-> x ∈ perms) ->
  NoDup perms' /\ (forall x, x ∈ seen' <-> x ∈ perms') /\ forall x, x ∈ perms' <-> x ∈ perms \/ x ∈ ps.
Proof.
  induction ps as [|p ps IH]; intros seen perms seen' perms'; cbn.
  - intros [= <- <-] Hnd Hs. split; [done|]. split; [done|]. set_solver.
  - case_bool_decide as Hp; intros H Hnd Hs.
    + apply IH in H as (? & ? & H); auto. split; [done|]. split; [done|]. intros x. rewrite H. set_solver.
    + apply IH in H as (? & ? & H).
      * split; [done|]. split; [done|]. intros x. rewrite H. set_solver.
      * apply NoDup_app. split; [done|]. split; [|repeat constructor; set_solver]. set_solver.
      * intros x. set_solver.
Qed.

(** Every permission of a known role, once. *)
Lemma GetPermissionsForRoles_spec names l :
  NoDup (GetPermissionsForRoles names l) /\
  forall x, x ∈ GetPermissionsForRoles names l <-> exists n r, n ∈ names /\ GetRole n l = Some r /\ x ∈ lr_Permissions r.
Proof.
  unfold GetPermissionsForRoles.
  assert (forall names seen perms, NoDup perms -> (forall x, x ∈ seen <-> x ∈ perms) ->
    NoDup (perms_loop l names seen perms) /\
    forall x, x ∈ perms_loop l names seen perms <->
      x ∈ perms \/ exists n r, n ∈ names /\ GetRole n l = Some r /\ x ∈ lr_Permissions r) as H.
  { clear. induction names as [|n names IH]; intros seen perms Hnd Hs; cbn [perms_loop]; [set_solver|].
    destruct (loaded_roles l !! n) as [r|] eqn:Er.
    - destruct (add_perms _ seen perms) as [seen' perms'] eqn:E. apply add_perms_spec in E as (H1 & H2 & H3); auto.
      destruct (IH seen' perms' H1 H2) as [IH1 IH2]. split; [done|]. intros x. rewrite IH2, H3. unfold GetRole. split.
      + intros [[Hx|Hx]|(m & q & Hm & Hx)]; [by left | right; exists n, r; set_solver | right; exists m, q; set_solver].
      + intros [Hx|(m & q & [->|Hm]%elem_of_cons & Hq & Hx)]; [by left; left | left; right; congruence | right; eauto].
    - destruct (IH seen perms Hnd Hs) as [IH1 IH2]. split; [done|]. intros x. rewrite IH2. unfold GetRole. split.
      + intros [Hx|(m & q & Hm & Hx)]; [by left | right; exists m, q; set_solver].
      + intros [Hx|(m & q & [->|Hm]%elem_of_cons & Hq & Hx)]; [by left | congruence | right; eauto]. }
  destruct (H names ∅ []) as [H1 H2]; [constructor | set_solver |]. split; [done|]. intros x. rewrite H2. set_solver.
Qed.
