(* ===== verification/Endpoints.v ===== *)
(** The handlers generated for endpoints: [internal/codegen/endpoint_generator.go]
    and the execution context of [internal/codegen/runtime.go].

    A handler runs the steps of its logic one after the other over an execution
    context.  Maps are references into the heap of the request: the map of the
    request's input is the one an insertion stamps.  MongoDB, JSON, registered
    transformations, the clients of integrations and the clock are parameters
    over a world [W]; a run-time panic and an event that never stops emitting
    are outcomes. *)

From Stdlib Require Import ZArith Lia Ascii.
From stdpp Require Import base strings list gmap.
From S2P Require Import Prelude GoStrings GoText GoValue DslAst EventRegistry AuthJwt AuthMiddleware.

#[local] Open Scope string_scope.
#[local] Open Scope Z_scope.
#[local] Open Scope go_scope.

(** ** Errors *)
Inductive HandlerError :=
| ValidationError (Field Message : string)
| AuthorizationError (Message RequiredRole : string)
| NotFoundError (Resource : string)
| OtherError (text : string).

Definition HandlerError_Error (e : HandlerError) : string :=
  match e with
  | ValidationError f m => "validation error on " ++ f ++ ": " ++ m
  | AuthorizationError m r =>
      if negb (String.eqb r "") then "authorization failed: " ++ m ++ " (required role: " ++ r ++ ")"
      else "authorization failed: " ++ m
  | NotFoundError r => r ++ " not found"
  | OtherError t => t
  end.

Definition determineErrorStatusCode (e : HandlerError) : Z :=
  match e with
  | ValidationError _ _ => StatusBadRequest
  | AuthorizationError _ _ => StatusForbidden
  | NotFoundError _ => StatusNotFound
  | OtherError _ => StatusInternalServerError
  end.

(** [http.StatusText] of the codes above. *)
Definition StatusText (code : Z) : string :=
  if code =? 400 then "Bad Request" else if code =? 403 then "Forbidden" else if code =? 404 then "Not Found"
  else if code =? 500 then "Internal Server Error" else "".

(** Why a handler stops before its last step. *)
Inductive Stop := StopError (e : HandlerError) | StopPanic | StopOverflow.

Definition RegistryError_text (e : RegistryError) : string :=
  match e with
  | NilDecl => "event declaration is nil"
  | InvalidEventName n => "invalid event name '" ++ n ++ "': must follow resource.action or resource_action pattern"
  | EventExists n => "event '" ++ n ++ "' is already registered"
  | NotRegistered n => "event '" ++ n ++ "' is not registered"
  | PayloadInvalid f x got => "payload validation failed: field '" ++ f ++ "' expected " ++ x ++ ", got " ++ got
  end.

Inductive DBConnection := NoConnection | NoMongoClient | NotMongoClient | Mongo.

Section Runtime.
Context {W : Type}.

(** ** The execution context *)
Record Exec := mkExec {
  input : GoVal; result_ : GoVal; data : Fields; claims : option Fields; heap : Heap; world : W }.

Definition SetInput (v : GoVal) (x : Exec) : Exec := mkExec v (result_ x) (data x) (claims x) (heap x) (world x).
Definition SetResult (v : GoVal) (x : Exec) : Exec := mkExec (input x) v (data x) (claims x) (heap x) (world x).
Definition Set_ (k : string) (v : GoVal) (x : Exec) : Exec :=
  mkExec (input x) (result_ x) (<[k := v]> (data x)) (claims x) (heap x) (world x).
Definition SetClaims (c : option Fields) (x : Exec) : Exec := mkExec (input x) (result_ x) (data x) c (heap x) (world x).
Definition set_heap (h : Heap) (x : Exec) : Exec := mkExec (input x) (result_ x) (data x) (claims x) h (world x).
Definition set_world (w : W) (x : Exec) : Exec := mkExec (input x) (result_ x) (data x) (claims x) (heap x) w.

Definition NewContext (w : W) : Exec := mkExec VNil VNil ∅ None ∅ w.

(** The fields of the input, when it is a map. *)
Definition input_field (k : string) (x : Exec) : GoVal :=
  match input x with VMap m => default VNil (fields_of (heap x) m !! k) | _ => VNil end.

Definition Get (k : string) (x : Exec) : GoVal :=
  match data x !! k with Some v => v | None => input_field k x end.

(** ** What the handlers call *)
Variable db : DBConnection.
(** [Find] with the reading of its cursor, and [InsertOne]. *)
Variable mongo_find : W -> Heap -> string -> Fields -> W * Heap * result string (list Ref).
Variable mongo_insert : W -> string -> Fields -> W * result string GoVal.
Variable json_Marshal : Heap -> GoVal -> result string string.
Variable json_Unmarshal : string -> result string JSON.
Variable transforms : gmap string (W -> Heap -> GoVal -> W * Heap * result string GoVal).
Variable integrations : option (gmap string (W -> string -> string -> option string -> W * result string string)).
Variable registry : option EventRegistry.
Variable range : gmap string string -> list (string * string).
Variable fuel : nat.
Variable clock : W -> Z.

Abbreviation X := (SE Exec Stop).
Definition fail {A} (e : HandlerError) : X A := se_err (StopError e).
Definition gets {A} (f : Exec -> A) : X A := fun x => (x, Ok (f x)).
Definition modify (f : Exec -> Exec) : X unit := fun x => (f x, Ok tt).
Definition lift_result {A} (r : result string A) (context : string) : X A :=
  match r with Ok a => se_ret a | Err e => fail (OtherError (context ++ e)) end.

(** ** Database *)
Definition QueryDatabase (table : string) (conditions : Fields) : X GoVal := fun x =>
  match db with
  | Mongo =>
      match mongo_find (world x) (heap x) table conditions with
      | (w, h, Ok refs) => (set_heap h (set_world w x), Ok (VMaps refs))
      | (w, h, Err e) => (set_heap h (set_world w x), Err (StopError (OtherError ("database query failed: " ++ e))))
      end
  | _ => (x, Ok (VMaps []))
  end.

Definition FindOne (table : string) (id : GoVal) : X GoVal := se_ret VNil.

(** The map to insert: the data itself if it is one, else what its JSON reads
    as. *)
Definition to_map (v : GoVal) (marshal_context unmarshal_context : string) : X Ref := fun x =>
  match v with
  | VMap m => (x, Ok m)
  | _ =>
      match json_Marshal (heap x) v with
      | Err e => (x, Err (StopError (OtherError (marshal_context ++ e))))
      | Ok s =>
          match json_Unmarshal s with
          | Err e => (x, Err (StopError (OtherError (unmarshal_context ++ e))))
          | Ok j => match json_into_map j None (heap x) with
                    | (h, Ok m) => (set_heap h x, Ok m)
                    | (h, Err e) => (set_heap h x, Err (StopError (OtherError (unmarshal_context ++ e))))
                    end
          end
      end
  end.

Definition stamp (m : Ref) (k : string) : X unit := fun x =>
  match fields_of (heap x) m !! k with
  | Some _ => (x, Ok tt)
  | None => match map_set m k (VTime (clock (world x))) (heap x) with
            | Some h => (set_heap h x, Ok tt)
            | None => (x, Err StopPanic)
            end
  end.

Definition InsertDatabase (table : string) (v : GoVal) : X GoVal :=
  match db with
  | Mongo =>
      m <-! to_map v "database insert failed: converting data to map: " "database insert failed: unmarshaling data: " ;;
      _ <-! stamp m "created_at" ;;
      _ <-! stamp m "updated_at" ;;
      fun x => let '(w, r) := mongo_insert (world x) table (fields_of (heap x) m) in
               (set_world w x, match r with Ok id => Ok id
                               | Err e => Err (StopError (OtherError ("database insert failed: MongoDB insert failed: " ++ e))) end)
  | _ => se_ret (VString "mock-id-123")
  end.

Definition UpdateDatabase (table : string) (id v : GoVal) : X unit := se_ret tt.
Definition DeleteDatabase (table : string) (id : GoVal) : X unit := se_ret tt.

(** ** Transformations *)
Definition decode (j : JSON) : X GoVal := fun x => let '(h, v) := of_json j (heap x) in (set_heap h x, Ok v).

Definition transformToJSON (v : GoVal) : X GoVal := fun x =>
  match json_Marshal (heap x) v with
  | Ok s => (x, Ok (VString s))
  | Err e => (x, Err (StopError (OtherError ("transformation failed: " ++ e))))
  end.
Definition transformFromJSON (v : GoVal) : X GoVal :=
  match v with
  | VString s => j <-! lift_result (json_Unmarshal s) "transformation failed: " ;; decode j
  | _ => se_ret v
  end.
Definition transformPick (v : GoVal) : X GoVal := se_ret v.
Definition transformOmit (v : GoVal) : X GoVal := se_ret v.

Definition Transform (name : string) (v : GoVal) : X GoVal :=
  match transforms !! name with
  | Some fn => fun x =>
      match fn (world x) (heap x) v with
      | (w, h, Ok r) => (set_heap h (set_world w x), Ok r)
      | (w, h, Err e) => (set_heap h (set_world w x), Err (StopError (OtherError ("transformation failed: " ++ e))))
      end
  | None =>
      if String.eqb name "toJSON" then transformToJSON v
      else if String.eqb name "fromJSON" then transformFromJSON v
      else if String.eqb name "pick" then transformPick v
      else if String.eqb name "omit" then transformOmit v
      else se_ret v
  end.

(** ** Events and integrations *)

(** The payload of an event as a map: what is no map and no JSON object is
    wrapped. *)
Definition payload_map (v : GoVal) : X Fields := fun x =>
  match v with
  | VMap m => (x, Ok (fields_of (heap x) m))
  | _ =>
      match json_Marshal (heap x) v with
      | Err e => (x, Err (StopError (OtherError ("converting payload: " ++ e))))
      | Ok s =>
          match json_Unmarshal s with
          | Err _ => (x, Ok {["data" := v]})
          | Ok j => match json_into_map j None (heap x) with
                    | (h, Ok m) => (set_heap h x, Ok (fields_of h m))
                    | (h, Err _) => (set_heap h x, Ok {["data" := v]})
                    end
          end
      end
  end.

Definition Exec_EmitEvent (name : string) (payload : GoVal) : X unit :=
  match registry with
  | None => se_ret tt
  | Some r =>
      p <-! payload_map payload ;;
      match EmitEvent range fuel name p r with
      | None => se_err StopOverflow
      | Some (Some e, _) => fail (OtherError (RegistryError_text e))
      | Some (None, _) => se_ret tt
      end
  end.

Definition CallIntegration (name method path : string) (body : GoVal) : X GoVal :=
  match integrations with
  | None => fail (OtherError "integration call failed: no integrations configured")
  | Some clients =>
      match clients !! name with
      | None => fail (OtherError ("integration call failed: integration " ++ String dquote (name ++ String dquote " not found")))
      | Some do_ => fun x =>
          match (match body with VNil => Ok None | _ =>
                   match json_Marshal (heap x) body with Ok s => Ok (Some s) | Err e => Err e end end) with
          | Err e => (x, Err (StopError (OtherError ("integration call failed: marshaling request body: " ++ e))))
          | Ok b =>
              let '(w, r) := do_ (world x) method path b in
              let x := set_world w x in
              match r with
              | Err e => (x, Err (StopError (OtherError ("integration call failed: " ++ e))))
              | Ok text =>
                  if String.eqb text "" then (x, Ok VNil)
                  else match json_Unmarshal text with Err _ => (x, Ok (VString text)) | Ok j => decode j x end
              end
          end
      end
  end.

Definition CacheGet (key : string) : X GoVal := se_ret VNil.
Definition CacheSet (key : string) (v : GoVal) (ttl : Z) : X unit := se_ret tt.

(** ** Steps *)
Definition arg (n : nat) (d : string) (s : LogicStep) : string := nth n (ls_Args s) d.
Definition has_args (n : nat) (s : LogicStep) : bool := (n <? length (ls_Args s))%nat.

Definition is_request (a : string) : bool := String.eqb a "request" || String.eqb a "input".

(** [ctx.Set(step.Target, v)] or [ctx.SetResult(v)]. *)
Definition store (s : LogicStep) (v : GoVal) : X unit :=
  modify (if negb (String.eqb (ls_Target s) "") then Set_ (ls_Target s) v else SetResult v).
Definition store_target (s : LogicStep) (v : GoVal) : X unit :=
  if negb (String.eqb (ls_Target s) "") then modify (Set_ (ls_Target s) v) else se_ret tt.

Definition executeValidate (s : LogicStep) : X unit := fun x =>
  let target := if has_args 0 s then (if is_request (arg 0 "" s) then input x else Get (arg 0 "" s) x) else input x in
  if is_nil target then fail (ValidationError "request" "no data to validate") x else (x, Ok tt).

Definition is_role (role : string) (v : GoVal) : bool := match v with VString r => String.eqb r role | _ => false end.

Definition executeAuthorize (s : LogicStep) : X unit := fun x =>
  if negb (has_args 1 s) then (x, Ok tt)
  else
    let requiredRole := arg 1 "" s in
    match claims x with
    | None => fail (AuthorizationError "no authentication claims found" "") x
    | Some cl =>
        let ok := match cl !! "roles" with
                  | Some (VList roles) => existsb (is_role requiredRole) roles
                  | _ => match cl !! "role" with Some v => is_role requiredRole v | None => false end
                  end in
        if ok then (x, Ok tt) else fail (AuthorizationError "insufficient permissions" requiredRole) x
    end.

Definition parseCondition (condition : string) (x : Exec) : Fields :=
  match Split "="%char condition with
  | [f; v] =>
      let field := TrimSpace f in
      let value := TrimSpace v in
      if HasPrefix value "$" then {[field := Get (TrimPrefix value "$") x]}
      else if HasPrefix value "request." || HasPrefix value "input." then
        match input x with
        | VMap _ => {[field := input_field (TrimPrefix (TrimPrefix value "request.") "input.") x]}
        | _ => ∅
        end
      else {[field := VString (Trim value (String dquote (String squote "")))]}
  | _ => ∅
  end.

Definition executeDBFind (s : LogicStep) : X unit := fun x =>
  let conditions := if String.eqb (ls_Condition s) "" then ∅ else parseCondition (ls_Condition s) x in
  (r <-! QueryDatabase (arg 0 "" s) conditions ;; store s r) x.

(** The id of a step: a field of the input, a stored value, or the text itself. *)
Definition step_id (prefixes : list string) (s : LogicStep) (x : Exec) : GoVal :=
  if has_args 1 s then
    let a := arg 1 "" s in
    if existsb (HasPrefix a) prefixes then input_field (foldl TrimPrefix a prefixes) x
    else match Get a x with VNil => VString a | v => v end
  else VNil.

Definition executeDBFindOne (s : LogicStep) : X unit := fun x =>
  (r <-! FindOne (arg 0 "" s) (step_id ["request."; "input."] s x) ;;
   if is_nil r then fail (NotFoundError (arg 0 "" s)) else store s r) x.

Definition step_data (n : nat) (s : LogicStep) (x : Exec) : GoVal :=
  if has_args n s then (if is_request (arg n "" s) then input x else Get (arg n "" s) x) else input x.

(** A new map with one field. *)
Definition new_map (k : string) (v : GoVal) : X GoVal := fun x =>
  let '(h, m) := alloc {[k := v]} (heap x) in (set_heap h x, Ok (VMap m)).

Definition executeDBInsert (s : LogicStep) : X unit := fun x =>
  (id <-! InsertDatabase (arg 0 "" s) (step_data 1 s x) ;; r <-! new_map "id" id ;; store s r) x.

Definition executeDBUpdate (s : LogicStep) : X unit := fun x =>
  (_ <-! UpdateDatabase (arg 0 "" s) (step_id ["request."] s x) (step_data 2 s x) ;;
   r <-! new_map "updated" (VBool true) ;; store_target s r) x.

Definition executeDBDelete (s : LogicStep) : X unit := fun x =>
  (_ <-! DeleteDatabase (arg 0 "" s) (step_id ["request."] s x) ;;
   r <-! new_map "deleted" (VBool true) ;; store_target s r) x.

Definition executeTransform (s : LogicStep) : X unit := fun x =>
  (r <-! Transform (arg 0 "" s) (if has_args 1 s then Get (arg 1 "" s) x else result_ x) ;; store s r) x.

Definition executeEmit (s : LogicStep) : X unit := fun x =>
  Exec_EmitEvent (arg 0 "" s) (if has_args 1 s then Get (arg 1 "" s) x else result_ x) x.

Definition executeIntegrationCall (s : LogicStep) : X unit := fun x =>
  (r <-! CallIntegration (arg 0 "" s) (arg 1 "GET" s) (arg 2 "/" s) (if has_args 3 s then Get (arg 3 "" s) x else VNil) ;;
   store s r) x.

Definition executeCacheGet (s : LogicStep) : X unit := v <-! CacheGet (arg 0 "" s) ;; store_target s v.
Definition executeCacheSet (s : LogicStep) : X unit := fun x =>
  CacheSet (arg 0 "" s) (if has_args 1 s then Get (arg 1 "" s) x else VNil) 0 x.

Definition action_in (l : list string) (s : LogicStep) : bool := existsb (String.eqb (ls_Action s)) l.

Definition executeLogicStep (s : LogicStep) : X unit :=
  if action_in ["validate"] s then executeValidate s
  else if action_in ["authorize"] s then executeAuthorize s
  else if action_in ["db.find"; "find"; "query"] s then executeDBFind s
  else if action_in ["db.findOne"; "findOne"] s then executeDBFindOne s
  else if action_in ["db.insert"; "insert"] s then executeDBInsert s
  else if action_in ["db.update"; "update"] s then executeDBUpdate s
  else if action_in ["db.delete"; "delete"] s then executeDBDelete s
  else if action_in ["transform"] s then executeTransform s
  else if action_in ["emit"] s then executeEmit s
  else if action_in ["call"] s then executeIntegrationCall s
  else if action_in ["cache.get"] s then executeCacheGet s
  else if action_in ["cache.set"] s then executeCacheSet s
  else se_ret tt.

Fixpoint run_steps (steps : list LogicStep) : X unit :=
  match steps with [] => se_ret tt | s :: steps' => _ <-! executeLogicStep s ;; run_steps steps' end.
Definition executeLogicSteps (steps : list LogicStep) : X GoVal := _ <-! run_steps steps ;; gets result_.

(** ** Requests *)

(** [data[key] = v] of the request's data; [None] is the panic. *)
Fixpoint set_all (kvs : list (string * GoVal)) (overwrite : bool) (m : Ref) (h : Heap) : option Heap :=
  match kvs with
  | [] => Some h
  | (k, v) :: kvs' =>
      match (if overwrite then None else fields_of h m !! k) with
      | Some _ => set_all kvs' overwrite m h
      | None => match map_set m k v h with Some h => set_all kvs' overwrite m h | None => None end
      end
  end.

Definition values_of (m : gmap string (list string)) : list (string * GoVal) :=
  map (fun kv => (kv.1, match kv.2 with [x] => VString x | l => VStrings l end)) (map_to_list m).
Definition params_of (r : Request) : list (string * GoVal) :=
  map (fun kv => (kv.1, VString kv.2)) (default [] (r_Params r)).

(** The data of the source, then the path parameters that are not there yet.
    The outer [None] is the panic. *)
Definition body_data (r : Request) (m : Ref) (h : Heap) : Heap * result string Ref :=
  match r_Body r with
  | None => (h, Ok m)
  | Some (Err e) => (h, Err ("reading request body: " ++ e))
  | Some (Ok body) =>
      if String.eqb body "" then (h, Ok m)
      else match json_Unmarshal body with
           | Err e => (h, Err ("parsing JSON body: " ++ e))
           | Ok j => match json_into_map j m h with
                     | (h, Ok m) => (h, Ok m)
                     | (h, Err e) => (h, Err ("parsing JSON body: " ++ e))
                     end
           end
  end.

Definition extractRequestData (r : Request) (rq : RequestType) (h : Heap) : option (Heap * result string GoVal) :=
  let '(h, m) := alloc ∅ h in
  let src := rq_Source rq in
  let '(h, data) :=
    if String.eqb src "body" then body_data r m h
    else if String.eqb src "query" then (default h (set_all (values_of (r_Query r)) true m h), Ok m)
    else if String.eqb src "path" then (default h (set_all (params_of r) true m h), Ok m)
    else if String.eqb src "header" then (default h (set_all (values_of (r_Header r)) true m h), Ok m)
    else (h, Ok m) in
  match data with
  | Err e => Some (h, Err e)
  | Ok m =>
      if String.eqb src "path" then Some (h, Ok (VMap m))
      else match set_all (params_of r) false m h with Some h => Some (h, Ok (VMap m)) | None => None end
  end.

(** ** Responses *)

(** [WriteHeader] panics on a code that has not three digits; what cannot be
    encoded leaves the body empty. *)
Definition writeJSON (status : Z) (body : Body) : Outcome :=
  if (100 <=? status) && (status <=? 999) then Responded (mkResponse status json_headers body) else Panicked.
Definition encode (h : Heap) (v : GoVal) : Body :=
  match json_Marshal h v with Ok _ => ValueBody h v | Err _ => NoBody end.
Definition writeError (status : Z) (message : string) : Outcome :=
  writeJSON status (ErrorBody (StatusText status) message).

Definition handler_request (ep : EndpointDecl) : option RequestType := match ep_Handler ep with Some h => h_Request h | None => None end.
Definition handler_steps (ep : EndpointDecl) : option (list LogicStep) :=
  match ep_Handler ep with Some h => option_map hl_Steps (h_Logic h) | None => None end.
Definition handler_status (ep : EndpointDecl) : Z :=
  match ep_Handler ep with Some h => match h_Response h with Some r => StatusCode r | None => StatusOK end | None => StatusOK end.

Definition stop_outcome (e : Stop) : Outcome :=
  match e with
  | StopError e => writeError (determineErrorStatusCode e) (HandlerError_Error e)
  | StopPanic => Panicked
  | StopOverflow => Crashed
  end.

(** [{"status": "ok"}] when no step left a result. *)
Definition respond (status : Z) (x : Exec) : Outcome :=
  match result_ x with
  | VNil => let '(h, m) := alloc {["status" := VString "ok"]} (heap x) in writeJSON status (encode h (VMap m))
  | v => writeJSON status (encode (heap x) v)
  end.

Definition run_logic (ep : EndpointDecl) (x : Exec) : W * Outcome :=
  match handler_steps ep with
  | None => (world x, respond (handler_status ep) x)
  | Some steps =>
      match executeLogicSteps steps x with
      | (x, Err e) => (world x, stop_outcome e)
      | (x, Ok r) => let x := SetResult r x in (world x, respond (handler_status ep) x)
      end
  end.

Definition GenerateEndpointHandler (ep : EndpointDecl) : HttpHandler W := fun r w =>
  let x := NewContext w in
  match handler_request ep with
  | None => run_logic ep x
  | Some rq =>
      match extractRequestData r rq (heap x) with
      | None => (w, Panicked)
      | Some (h, Err e) => (w, writeError StatusBadRequest ("invalid request: " ++ e))
      | Some (h, Ok v) => run_logic ep (SetInput v (set_heap h x))
      end
  end.

(** * What a handler does *)

(** The steps [l] all succeed, from [x] to [x']. *)
Inductive ran : list LogicStep -> Exec -> Exec -> Prop :=
| ran_nil x : ran [] x x
| ran_cons s l x x1 x2 : executeLogicStep s x = (x1, Ok tt) -> ran l x1 x2 -> ran (s :: l) x x2.

(** The context in which the logic starts. *)
Definition starts (ep : EndpointDecl) (r : Request) (w : W) (x : Exec) : Prop :=
  match handler_request ep with
  | None => x = NewContext w
  | Some rq => exists h v, extractRequestData r rq ∅ = Some (h, Ok v) /\ x = SetInput v (set_heap h (NewContext w))
  end.

(** What an endpoint promises for a request: nothing runs for a request that
    cannot be read; otherwise the steps run in order up to the first that fails,
    which decides the response; when none does, the response is the result of
    the last that left one, with the declared status. *)
Inductive serve (ep : EndpointDecl) (r : Request) (w : W) : W -> Outcome -> Prop :=
| serve_unreadable rq h e : handler_request ep = Some rq -> extractRequestData r rq ∅ = Some (h, Err e) ->
    serve ep r w w (writeError StatusBadRequest ("invalid request: " ++ e))
| serve_unreadable_panic rq : handler_request ep = Some rq -> extractRequestData r rq ∅ = None -> serve ep r w w Panicked
| serve_stop x0 pre s post x1 x2 e : starts ep r w x0 -> handler_steps ep = Some (pre ++ s :: post)%list ->
    ran pre x0 x1 -> executeLogicStep s x1 = (x2, Err e) -> serve ep r w (world x2) (stop_outcome e)
| serve_done x0 x1 : starts ep r w x0 -> ran (default [] (handler_steps ep)) x0 x1 ->
    serve ep r w (world x1) (respond (handler_status ep) x1).

Lemma run_steps_ran l x x' : run_steps l x = (x', Ok tt) <-> ran l x x'.
Proof.
  split.
  - revert x. induction l as [|s l IH]; intros x; cbn; [intros [= <-]; constructor|]. unfold se_bind.
    destruct (executeLogicStep s x) as [x1 [[]|e]] eqn:E; [|done]. intros H. econstructor; eauto.
  - induction 1 as [|s l x x1 x2 H _ IH]; [done|]. cbn. unfold se_bind. by rewrite H.
Qed.

Lemma run_steps_stop l x x' e : run_steps l x = (x', Err e) <->
  exists pre s post x1, l = (pre ++ s :: post)%list /\ ran pre x x1 /\ executeLogicStep s x1 = (x', Err e).
Proof.
  split.
  - revert x. induction l as [|s l IH]; intros x; cbn; [done|]. unfold se_bind.
    destruct (executeLogicStep s x) as [x1 [[]|e']] eqn:E.
    + intros (pre & s' & post & x2 & -> & H1 & H2)%IH. exists (s :: pre), s', post, x2. eauto using ran.
    + intros [= <- <-]. exists [], s, l, x. eauto using ran.
  - intros (pre & s & post & x1 & -> & H1 & H2). induction H1 as [x|s' l x y z H _ IH]; cbn; unfold se_bind.
    + by rewrite H2.
    + rewrite H. auto.
Qed.

Lemma run_logic_spec ep x0 w' out : run_logic ep x0 = (w', out) <->
  (exists pre s post x1 x2 e, handler_steps ep = Some (pre ++ s :: post)%list /\ ran pre x0 x1 /\
     executeLogicStep s x1 = (x2, Err e) /\ w' = world x2 /\ out = stop_outcome e) \/
  (exists x1, ran (default [] (handler_steps ep)) x0 x1 /\ w' = world x1 /\ out = respond (handler_status ep) x1).
Proof.
  unfold run_logic, executeLogicSteps, se_bind, gets. destruct (handler_steps ep) as [steps|] eqn:Es; cbn [default].
  - destruct (run_steps steps x0) as [x1 [[]|e]] eqn:E.
    + pose proof (proj1 (run_steps_ran _ _ _) E) as Hr. split.
      * intros [= <- <-]. right. exists x1. by destruct x1.
      * intros [(pre & s & post & y & x2 & e & Heq & H1 & H2 & _) | (y & H & -> & ->)]; [injection Heq as Heq; subst steps|].
        -- assert (run_steps (pre ++ s :: post) x0 = (x2, Err e)) as H by (apply run_steps_stop; eauto 8). congruence.
        -- apply run_steps_ran in H. unfold id in H. rewrite E in H. injection H as <-. by destruct x1.
    + split.
      * intros [= <- <-]. left. apply run_steps_stop in E as (pre & s & post & y & -> & H1 & H2). eauto 12.
      * intros [(pre & s & post & y & x2 & e' & Heq & H1 & H2 & -> & ->) | (y & H & _)]; [injection Heq as Heq; subst steps|].
        -- assert (run_steps (pre ++ s :: post) x0 = (x2, Err e')) as H by (apply run_steps_stop; eauto 8).
           rewrite E in H. by injection H as -> ->.
        -- apply run_steps_ran in H. unfold id in H. congruence.
  - split; [intros [= <- <-]; right; exists x0; split; [constructor | done]|].
    intros [(? & ? & ? & ? & ? & ? & ? & _) | (x1 & H & -> & ->)]; [done|]. by inversion H.
Qed.

Lemma handler_serve ep r w w' out : GenerateEndpointHandler ep r w = (w', out) <-> serve ep r w w' out.
Proof.
  unfold GenerateEndpointHandler. cbn zeta. split.
  - destruct (handler_request ep) as [rq|] eqn:Er.
    + cbn [heap NewContext]. destruct (extractRequestData r rq ∅) as [[h [v|e]]|] eqn:Ex.
      * assert (starts ep r w (SetInput v (set_heap h (NewContext w)))) as Hs by (unfold starts; rewrite Er; eauto).
        intros [(pre & s & post & x1 & x2 & e & ? & ? & ? & -> & ->) | (x1 & ? & -> & ->)]%run_logic_spec;
          econstructor; eauto.
      * intros [= <- <-]. by eapply serve_unreadable.
      * intros [= <- <-]. by eapply serve_unreadable_panic.
    + assert (starts ep r w (NewContext w)) as Hs by (unfold starts; by rewrite Er).
      intros [(pre & s & post & x1 & x2 & e & ? & ? & ? & -> & ->) | (x1 & ? & -> & ->)]%run_logic_spec;
        econstructor; eauto.
  - intros [rq h e Er Ex | rq Er Ex | x0 pre s post x1 x2 e Hs H1 H2 H3 | x0 x1 Hs H1].
    1, 2: rewrite Er; cbn [heap NewContext]; by rewrite Ex.
    all: unfold starts in Hs; destruct (handler_request ep) as [rq|];
      [destruct Hs as (h & v & Hx & ->); cbn [heap NewContext]; rewrite Hx | subst x0]; apply run_logic_spec; eauto 12.
Qed.


(** ** Nobody sets the claims
    No step changes the claims of the context, which are those of a fresh
    context: none. *)
Definition keeps {A} (m : X A) : Prop := forall x, claims (m x).1 = claims x.

Lemma keeps_ret {A} (a : A) : keeps (se_ret a).
Proof. done. Qed.
Lemma keeps_err {A} e : keeps (se_err e : X A).
Proof. done. Qed.
Lemma keeps_bind {A B} (m : X A) (k : A -> X B) : keeps m -> (forall a, keeps (k a)) -> keeps (se_bind m k).
Proof.
  intros Hm Hk x. unfold se_bind. specialize (Hm x). destruct (m x) as [x1 [a|e]]; cbn in Hm; [|done]. by rewrite Hk.
Qed.
Lemma keeps_if {A} (b : bool) (m1 m2 : X A) : keeps m1 -> keeps m2 -> keeps (if b then m1 else m2).
Proof. by destruct b. Qed.
Lemma keeps_modify f : (forall x, claims (f x) = claims x) -> keeps (modify f).
Proof. done. Qed.

#[local] Hint Resolve keeps_ret keeps_err keeps_bind keeps_if : go.

Lemma keeps_store s v : keeps (store s v).
Proof. apply keeps_modify. intros x. by case_match. Qed.
Lemma keeps_store_target s v : keeps (store_target s v).
Proof. by apply keeps_if. Qed.
Lemma keeps_new_map k v : keeps (new_map k v).
Proof. done. Qed.
Lemma keeps_decode j : keeps (decode j).
Proof. intros x. unfold decode. by case_match. Qed.
Lemma keeps_lift {A} (r : result string A) c : keeps (lift_result r c).
Proof. by destruct r. Qed.
Lemma keeps_QueryDatabase t c : keeps (QueryDatabase t c).
Proof. intros x. unfold QueryDatabase. by repeat case_match. Qed.
Lemma keeps_to_map v a b : keeps (to_map v a b).
Proof. intros x. unfold to_map. by repeat case_match. Qed.
Lemma keeps_stamp m k : keeps (stamp m k).
Proof. intros x. unfold stamp. by repeat case_match. Qed.
#[local] Hint Resolve keeps_store keeps_store_target keeps_new_map keeps_decode keeps_lift keeps_QueryDatabase keeps_to_map
  keeps_stamp : go.

Lemma keeps_InsertDatabase t v : keeps (InsertDatabase t v).
Proof.
  unfold InsertDatabase. case_match; auto with go. apply keeps_bind; [auto with go|]. intros m.
  apply keeps_bind; [auto with go|]. intros _. apply keeps_bind; [auto with go|]. intros _ x. by repeat case_match.
Qed.
Lemma keeps_Transform n v : keeps (Transform n v).
Proof.
  unfold Transform. case_match; [intros x; by repeat case_match|]. repeat apply keeps_if; auto with go.
  - intros x. unfold transformToJSON. by case_match.
  - unfold transformFromJSON. case_match; auto with go.
Qed.
Lemma keeps_payload_map v : keeps (payload_map v).
Proof. intros x. unfold payload_map. by repeat case_match. Qed.
Lemma keeps_EmitEvent n v : keeps (Exec_EmitEvent n v).
Proof.
  unfold Exec_EmitEvent. case_match; auto with go. apply keeps_bind; [apply keeps_payload_map|]. intros p.
  repeat case_match; auto with go. apply keeps_err.
Qed.
Lemma keeps_CallIntegration n m p b : keeps (CallIntegration n m p b).
Proof.
  unfold CallIntegration. destruct integrations as [cl|]; [|apply keeps_err]. destruct (cl !! n) as [f|]; [|apply keeps_err].
  intros x. destruct (match b with VNil => Ok None | _ => _ end) as [t|e]; [|done]. destruct (f (world x) m p t) as [w [s|e]]; [|done].
  case_match; [done|]. case_match; [|done]. by rewrite keeps_decode.
Qed.
#[local] Hint Resolve keeps_InsertDatabase keeps_Transform keeps_EmitEvent keeps_CallIntegration : go.

Lemma keeps_step s : keeps (executeLogicStep s).
Proof.
  unfold executeLogicStep. repeat case_match; auto with go.
  - intros x. unfold executeValidate. by repeat case_match.
  - intros x. unfold executeAuthorize. by repeat case_match.
  - intros x. unfold executeDBFind. apply keeps_bind; auto with go.
  - intros x. unfold executeDBFindOne. apply keeps_bind; [apply keeps_ret|]. intros r. apply keeps_if; [apply keeps_err | auto with go].
  - intros x. unfold executeDBInsert. apply keeps_bind; auto with go.
  - intros x. unfold executeDBUpdate. apply keeps_bind; auto with go. apply keeps_ret.
  - intros x. unfold executeDBDelete. apply keeps_bind; auto with go. apply keeps_ret.
  - intros x. unfold executeTransform. apply keeps_bind; auto with go.
  - intros x. unfold executeEmit. apply keeps_EmitEvent.
  - intros x. unfold executeIntegrationCall. apply keeps_bind; auto with go.
  - unfold executeCacheGet. apply keeps_bind; [apply keeps_ret | auto with go].
  - done.
Qed.

Lemma ran_claims l x x' : ran l x x' -> claims x' = claims x.
Proof.
  induction 1 as [|s l x x1 x2 H _ IH]; [done|]. rewrite IH. pose proof (keeps_step s x) as Hk. by rewrite H in Hk.
Qed.

Lemma starts_claims ep r w x : starts ep r w x -> claims x = None.
Proof. unfold starts. destruct (handler_request ep); [intros (h & v & _ & ->) | intros ->]; done. Qed.

Definition with_steps (ep : EndpointDecl) (steps : list LogicStep) : EndpointDecl :=
  mkEndpointDecl (ep_pos ep) (ep_Method ep) (ep_Path ep)
    (option_map (fun h => mkHandler (h_pos h) (h_Request h) (h_Response h)
       (option_map (fun l => mkHandlerLogic (hl_pos l) steps) (h_Logic h))) (ep_Handler ep))
    (ep_Middlewares ep) (DslAst.RequireRole ep) (ep_Annotations ep).

Definition names_role (s : LogicStep) : Prop := ls_Action s = "authorize" /\ (2 <= length (ls_Args s))%nat.

Lemma names_role_denied s x : names_role s -> claims x = None ->
  executeLogicStep s x = (x, Err (StopError (AuthorizationError "no authentication claims found" ""))).
Proof.
  intros [Ha Hl] Hc. unfold executeLogicStep, action_in. rewrite Ha. cbn. unfold executeAuthorize, has_args.
  rewrite (proj2 (Nat.ltb_lt _ _)) by lia. cbn. by rewrite Hc.
Qed.

Lemma error_codes e : determineErrorStatusCode e ∈ [400; 403; 404; 500].
Proof. apply list_elem_of_In. destruct e; cbn; auto. Qed.

Lemma executeLogicSteps_app l1 l2 x : executeLogicSteps (l1 ++ l2) x =
  match run_steps l1 x with (x', Ok _) => executeLogicSteps l2 x' | (x', Err e) => (x', Err e) end.
Proof.
  unfold executeLogicSteps, se_bind, gets. revert x. induction l1 as [|s l1 IH]; intros x; [done|]. cbn. unfold se_bind.
  destruct (executeLogicStep s x) as [x1 [[]|e]]; [apply IH | done].
Qed.

Lemma handler_steps_with ep steps l : handler_steps ep = Some l -> handler_steps (with_steps ep steps) = Some steps.
Proof. unfold handler_steps, with_steps. destruct ep as [? ? ? [[? ? ? []]|]]; cbn; congruence. Qed.
Lemma handler_request_with ep steps : handler_request (with_steps ep steps) = handler_request ep.
Proof. unfold handler_request, with_steps. by destruct ep as [? ? ? []]. Qed.
Lemma handler_status_with ep steps : handler_status (with_steps ep steps) = handler_status ep.
Proof. unfold handler_status, with_steps. by destruct ep as [? ? ? []]. Qed.

(** An endpoint with a step [authorize(x, role)] never serves anybody: no
    generated handler has claims, so the step fails for every request that
    reaches it, with 403 and whatever the token says, the steps after it have no
    part in any response, and the declared response is never sent. *)
Theorem authorize_denies_all ep pre s post (Hsteps : handler_steps ep = Some (pre ++ s :: post)%list) (Hs : names_role s)
    r w w' out (H : GenerateEndpointHandler ep r w = (w', out)) :
  (forall post', GenerateEndpointHandler (with_steps ep (pre ++ s :: post')) r w = (w', out)) /\
  (out = Panicked \/ out = Crashed \/
   exists code message, code ∈ [400; 403; 404; 500] /\ out = writeError code message) /\
  (forall x0 x1, starts ep r w x0 -> ran pre x0 x1 ->
     w' = world x1 /\ out = writeError 403 "authorization failed: no authentication claims found").
Proof.
  assert (forall x1 l, claims x1 = None ->
    executeLogicSteps (s :: l) x1 = (x1, Err (StopError (AuthorizationError "no authentication claims found" "")))) as Hdeny
    by (intros x1 l Hc; unfold executeLogicSteps, se_bind; cbn; unfold se_bind; by rewrite names_role_denied).
  assert (forall x0 l, claims x0 = None -> executeLogicSteps (pre ++ s :: l) x0 =
    match run_steps pre x0 with
    | (x1, Ok _) => (x1, Err (StopError (AuthorizationError "no authentication claims found" "")))
    | (x1, Err e) => (x1, Err e) end) as Hrun.
  { intros x0 l Hc. rewrite executeLogicSteps_app. destruct (run_steps pre x0) as [x1 [[]|e]] eqn:E; [|done].
    apply Hdeny. apply run_steps_ran, ran_claims in E. congruence. }
  assert (forall x0, claims x0 = None -> forall post', run_logic (with_steps ep (pre ++ s :: post')) x0 = run_logic ep x0) as Hsame.
  { intros x0 Hc post'. unfold run_logic. rewrite (handler_steps_with _ _ _ Hsteps), Hsteps, !Hrun by done.
    by destruct (run_steps pre x0) as [x1 [[]|e]]. }
  split; [|split].
  - intros post'. rewrite <- H. unfold GenerateEndpointHandler. rewrite handler_request_with. cbn zeta.
    repeat case_match; try done; by apply Hsame.
  - apply handler_serve in H. destruct H as [rq h e _ _ | | x0 pr s' po x1 x2 e Hst _ _ _ | x0 x1 Hst Hr].
    + right; right. do 2 eexists. split; [|reflexivity]. apply list_elem_of_here.
    + by left.
    + destruct e as [e| |]; [right; right | by left | by right; left].
      exists (determineErrorStatusCode e), (HandlerError_Error e). split; [apply error_codes | done].
    + exfalso. rewrite Hsteps in Hr. apply run_steps_ran in Hr. assert (run_steps (pre ++ s :: post) x0 = (x1, Ok tt)) as Hr' by done.
      pose proof (Hrun x0 post (starts_claims _ _ _ _ Hst)) as H1. unfold executeLogicSteps, se_bind in H1. rewrite Hr' in H1.
      destruct (run_steps pre x0) as [? []]; done.
  - intros x0 x1 Hst Hpre. apply handler_serve in H. pose proof (starts_claims _ _ _ _ Hst) as Hc.
    assert (GenerateEndpointHandler ep r w = (world x1, writeError 403 "authorization failed: no authentication claims found")) as H'.
    { apply handler_serve.
      change (writeError 403 _) with (stop_outcome (StopError (AuthorizationError "no authentication claims found" ""))).
      eapply (serve_stop ep r w x0 pre s post); [done | done | done |]. apply names_role_denied; [done|]. by rewrite (ran_claims _ _ _ Hpre). }
    apply handler_serve in H. rewrite H' in H. by injection H as <- <-.
Qed.

(** ** Conditions *)
Definition without_condition (s : LogicStep) : LogicStep :=
  mkLogicStep (ls_pos s) (ls_Action s) (ls_Target s) (ls_Args s) "" (ls_Options s).

(** Words without blanks and [=], and texts that may stand between quotes. *)
Definition word (s : string) : bool := all_pieces (fun r => negb (IsSpace r) && negb (r =? 61)) s.
Definition quotable (s : string) : bool := all_pieces (fun r => negb (r =? 34) && negb (r =? 39) && negb (r =? 61)) s.

Lemma word_trim s : word s = true -> TrimSpace s = s.
Proof.
  intros H. apply trim_none. eapply str_forall_impl; [|exact H]. intros c. cbn. rewrite !andb_true_iff. tauto.
Qed.
Lemma word_ascii s : word s = true -> str_forall is_ascii s = true.
Proof. apply all_pieces_ascii. Qed.
Lemma no_equals p s : (forall r, p r = true -> r <> 61) -> all_pieces p s = true -> count_byte "=" s = 0%nat.
Proof.
  intros Hp. apply count_byte_none. destruct (p 61) eqn:E; [by apply Hp in E|]. change (is_ascii "=" && p 61 = false).
  rewrite E. apply andb_false_r.
Qed.
Lemma word_no_equals s : word s = true -> count_byte "=" s = 0%nat.
Proof. apply no_equals. intros r [_ H%negb_true_iff%Z.eqb_neq]%andb_true_iff. done. Qed.

Lemma condition_parts f v : word f = true -> count_byte "=" v = 0%nat ->
  Split "="%char (f ++ " = " ++ v) = [f ++ " "; " " ++ v] /\ TrimSpace (f ++ " ") = f.
Proof.
  intros Hf Hv. split.
  - change (f ++ " = " ++ v) with (f ++ " " ++ String "=" (" " ++ v)). rewrite <- sapp_assoc, Split_at.
    + rewrite Split_one; [done|]. by rewrite count_byte_app, Hv.
    + by rewrite count_byte_app, word_no_equals.
  - pose proof (trim_around IsSpace "" f " " eq_refl eq_refl (word_ascii f Hf)) as E. exact (eq_trans E (word_trim f Hf)).
Qed.

Lemma condition_value v : str_forall is_ascii v = true -> TrimSpace (" " ++ v) = TrimSpace v.
Proof. intros H. pose proof (trim_around IsSpace " " v "" eq_refl eq_refl H) as E. by rewrite sapp_nil_r in E. Qed.

(** A [where] clause filters by one equation: [f = 'text'], [f = $name] and
    [f = request.key] ask for the text, the stored value and the field of the
    input.  A condition with any other number of equality signs is ignored: the
    step reads every document of the collection. *)
Theorem where_clause :
  (forall s x, count_byte "=" (ls_Condition s) <> 1%nat -> executeDBFind s x = executeDBFind (without_condition s) x) /\
  (forall f x, word f = true ->
     (forall v, quotable v = true ->
        parseCondition (f ++ " = " ++ String squote (v ++ String squote "")) x = {[f := VString v]}) /\
     (forall n, word n = true -> parseCondition (f ++ " = " ++ "$" ++ n) x = {[f := Get n x]}) /\
     (forall k m, word k = true -> HasPrefix k "input." = false -> input x = VMap m ->
        parseCondition (f ++ " = " ++ "request." ++ k) x = {[f := input_field k x]})).
Proof.
  split; [|intros f x Hf; split; [|split]].
  - intros s x Hc. unfold executeDBFind. cbn [ls_Condition without_condition]. destruct (String.eqb (ls_Condition s) ""); [done|].
    assert (parseCondition (ls_Condition s) x = ∅) as ->; [|done]. unfold parseCondition.
    pose proof (Split_length "=" (ls_Condition s)) as Hl.
    destruct (Split "="%char (ls_Condition s)) as [|a [|b [|c l]]]; try done. cbn in Hl. lia.
  - intros v Hv. pose proof (all_pieces_ascii _ _ Hv) as Ha.
    assert (count_byte "=" v = 0%nat) as Hn.
    { revert Hv. apply no_equals. intros r [_ H%negb_true_iff%Z.eqb_neq]%andb_true_iff. done. }
    destruct (condition_parts f (String squote (v ++ String squote "")) Hf) as [Hs Ht].
    { cbn. by rewrite count_byte_app, Hn. }
    unfold parseCondition. rewrite Hs, Ht, condition_value by (cbn; by rewrite str_forall_app, Ha). cbn zeta.
    assert (TrimSpace (String squote (v ++ String squote "")) = String squote (v ++ String squote "")) as ->.
    { unfold TrimSpace. apply (trim_fixed _ _ _ squote); [cbn; by rewrite str_forall_app, Ha | | done | done].
      by exists (String squote v). }
    cbn [HasPrefix Ascii.eqb squote orb]. change (HasPrefix (String squote _) _) with false. cbn [orb].
    f_equal. f_equal. unfold Trim.
    change (String squote (v ++ String squote "")) with (String squote "" ++ v ++ String squote "").
    rewrite trim_around; [|done|done|done]. apply trim_none. eapply str_forall_impl; [|exact Hv].
    intros c. change (range_runes _) with [(0%nat, 34); (1%nat, 39)]. cbn [existsb snd].
    rewrite !andb_true_iff, !negb_true_iff, !orb_false_iff, !Z.eqb_neq. intuition lia.
  - intros n Hn. destruct (condition_parts f ("$" ++ n) Hf) as [Hs Ht]; [by cbn; rewrite word_no_equals|].
    unfold parseCondition. rewrite Hs, Ht, condition_value by (cbn; by apply word_ascii). cbn zeta.
    assert (word ("$" ++ n) = true) as Hw by done. rewrite (word_trim _ Hw). by destruct n.
  - intros k m Hk Hp Hx. destruct (condition_parts f ("request." ++ k) Hf) as [Hs Ht]; [by cbn; rewrite word_no_equals|].
    unfold parseCondition. rewrite Hs, Ht, condition_value by (cbn; by apply word_ascii). cbn zeta.
    assert (word ("request." ++ k) = true) as Hw by done. rewrite (word_trim _ Hw).
    change (HasPrefix ("request." ++ k) "$") with false. rewrite HasPrefix_app. cbn [orb]. rewrite Hx, TrimPrefix_app.
    unfold TrimPrefix at 1. by rewrite Hp.
Qed.

(** ** Insertions *)
Definition add_stamp (k : string) (now : Z) (f : Fields) : Fields :=
  match f !! k with Some _ => f | None => <[k := VTime now]> f end.
Definition stamped (now : Z) (f : Fields) : Fields := add_stamp "updated_at" now (add_stamp "created_at" now f).

Lemma add_stamp_has k now f : is_Some (add_stamp k now f !! k).
Proof. unfold add_stamp. destruct (f !! k) eqn:E; [by rewrite E | by rewrite lookup_insert_eq]. Qed.
Lemma add_stamp_keeps k l now f : is_Some (f !! l) -> is_Some (add_stamp k now f !! l).
Proof.
  intros H. unfold add_stamp. destruct (f !! k) eqn:E; [done|]. destruct (decide (k = l)) as [->|];
    [by rewrite lookup_insert_eq | by rewrite lookup_insert_ne].
Qed.
Lemma add_stamp_done k now f : is_Some (f !! k) -> add_stamp k now f = f.
Proof. unfold add_stamp. by intros [v ->]. Qed.

Lemma stamped_idempotent now now' f : stamped now' (stamped now f) = stamped now f.
Proof.
  unfold stamped at 1. rewrite (add_stamp_done "created_at"), add_stamp_done; [done | apply add_stamp_has |].
  apply add_stamp_keeps, add_stamp_has.
Qed.

Lemma stamp_spec r f k x : heap x !! r = Some f -> exists x',
  stamp (Some r) k x = (x', Ok tt) /\ world x' = world x /\ (forall r', r' <> r -> heap x' !! r' = heap x !! r') /\
  heap x' !! r = Some (add_stamp k (clock (world x)) f).
Proof.
  intros Hr. unfold stamp, add_stamp. cbn. rewrite Hr. cbn. destruct (f !! k); [eauto|]. eexists. split; [done|]. split; [done|]. cbn.
  split; [intros; by rewrite lookup_insert_ne | by rewrite lookup_insert_eq].
Qed.

(** Inserting a map into MongoDB sends its fields with [created_at] and
    [updated_at] set to the time wherever the caller has not set them, and
    leaves the very map stamped for everyone who holds it, so that inserting it
    again sends the same document.  Inserting a [nil] map panics. *)
Theorem insert_stamps (Hdb : db = Mongo) table x :
  (forall r f, heap x !! r = Some f ->
     let f' := stamped (clock (world x)) f in
     let '(w, res) := mongo_insert (world x) table f' in
     exists x', InsertDatabase table (VMap (Some r)) x =
         (x', match res with Ok id => Ok id
              | Err e => Err (StopError (OtherError ("database insert failed: MongoDB insert failed: " ++ e))) end) /\
       world x' = w /\ heap x' !! r = Some f' /\ (forall r', r' <> r -> heap x' !! r' = heap x !! r') /\
       forall now, stamped now f' = f') /\
  InsertDatabase table (VMap None) x = (x, Err StopPanic).
Proof.
  unfold InsertDatabase. rewrite Hdb. split; [|done]. intros r f Hr. cbv zeta. set (f' := stamped (clock (world x)) f).
  destruct (stamp_spec r f "created_at" x Hr) as (x1 & E1 & W1 & O1 & R1).
  destruct (stamp_spec r _ "updated_at" x1 R1) as (x2 & E2 & W2 & O2 & R2).
  rewrite W1 in R2. change (heap x2 !! r = Some f') in R2.
  destruct (mongo_insert (world x) table f') as [w res] eqn:Em. exists (set_world w x2). split; [|split; [|split; [|split]]].
  - unfold se_bind. cbn [to_map]. rewrite E1, E2. cbn [fields_of]. rewrite R2, W2, W1. cbn [default]. unfold id. by rewrite Em.
  - done.
  - done.
  - intros r' Hne. cbn. by rewrite O2, O1.
  - intros now. apply stamped_idempotent.
Qed.

(** A request whose body is [null] makes the input a [nil] map, and inserting it
    panics. *)
Lemma null_body_panics (Hdb : db = Mongo) ep r w rq s post :
  handler_request ep = Some rq -> rq_Source rq = "body" -> handler_steps ep = Some (s :: post) ->
  ls_Action s = "insert" -> (length (ls_Args s) <= 1)%nat ->
  r_Body r = Some (Ok "null") -> json_Unmarshal "null" = Ok JNull -> r_Params r = None ->
  GenerateEndpointHandler ep r w = (w, Panicked).
Proof.
  intros Hrq Hsrc Hst Ha Hl Hb Hj Hp. apply handler_serve.
  assert (extractRequestData r rq ∅ = Some ((alloc ∅ ∅).1, Ok (VMap None))) as Hx.
  { unfold extractRequestData, body_data, params_of. rewrite Hsrc, Hb, Hp. destruct (alloc ∅ ∅) as [h m] eqn:E. cbn.
    by rewrite Hj. }
  set (x0 := SetInput (VMap None) (set_heap (alloc ∅ ∅).1 (NewContext w))).
  apply (serve_stop ep r w x0 [] s post x0 x0 StopPanic); [|done | constructor |].
  - unfold starts. rewrite Hrq. eauto.
  - unfold executeLogicStep, action_in. rewrite Ha. cbn. unfold executeDBInsert, step_data, has_args.
    rewrite (proj2 (Nat.ltb_ge _ _)) by lia. unfold se_bind. cbn [input x0 SetInput].
    unfold InsertDatabase. by rewrite Hdb.
Qed.

(** [require_role] plays no part in the handler. *)
Lemma require_role_ignored ep role r w :
  GenerateEndpointHandler (mkEndpointDecl (ep_pos ep) (ep_Method ep) (ep_Path ep) (ep_Handler ep) (ep_Middlewares ep) role
    (ep_Annotations ep)) r w = GenerateEndpointHandler ep r w.
Proof. done. Qed.
End Runtime.

(** ** A small server
    Its world is the list of the documents inserted so far, and its clock their
    number. *)
Definition Docs : Type := list (string * Fields).
Definition toy_find (w : Docs) (h : Heap) (t : string) (c : Fields) : Docs * Heap * result string (list Ref) := (w, h, Ok []).
Definition toy_insert (w : Docs) (t : string) (f : Fields) : Docs * result string GoVal :=
  (((t, f) :: w)%list, Ok (VInt (Z.of_nat (length w)))).
Definition toy_Marshal (h : Heap) (v : GoVal) : result string string := Ok "{}".
Definition toy_Unmarshal (s : string) : result string JSON := if String.eqb s "null" then Ok JNull else Err "not JSON".
Definition toy_clock (w : Docs) : Z := Z.of_nat (length w).
Definition nowhere : Position := mkPosition "api.cai" 1 1 0.
Definition toy_step (action target : string) (args : list string) (cond : string) : LogicStep :=
  mkLogicStep nowhere action target args cond [].
Definition toy_endpoint (steps : list LogicStep) : EndpointDecl :=
  mkEndpointDecl nowhere "GET" "/users/:id" (Some (mkHandler nowhere None None (Some (mkHandlerLogic nowhere steps)))) [] "" [].
Definition toy_serve (ep : EndpointDecl) : HttpHandler Docs :=
  GenerateEndpointHandler Mongo toy_find toy_insert toy_Marshal toy_Unmarshal ∅ None None map_to_list 100 toy_clock ep.
Definition toy_request : Request := mkRequest "GET" "/users/7" "10.0.0.1" ∅ ∅ [] None None None.

(** [authorize(request, "admin")] denies. *)
Lemma authorize_denies_all_witness :
  exists out, toy_serve (toy_endpoint [toy_step "authorize" "" ["request"; "admin"] ""; toy_step "find" "" ["User"] ""])
    toy_request [] = ([], out) /\ out = writeError 403 "authorization failed: no authentication claims found".
Proof.
  set (s := toy_step "authorize" "" ["request"; "admin"] "").
  set (ep := toy_endpoint [s; toy_step "find" "" ["User"] ""]).
  destruct (toy_serve ep toy_request []) as [w' out] eqn:E. exists out.
  destruct (authorize_denies_all Mongo toy_find toy_insert toy_Marshal toy_Unmarshal ∅ None None map_to_list 100 toy_clock
    ep [] s [toy_step "find" "" ["User"] ""] eq_refl (conj eq_refl (le_n 2)) toy_request [] w' out E) as (_ & _ & H).
  destruct (H (NewContext []) (NewContext [])) as [-> ->]; [reflexivity | constructor |]. split; [exact E | reflexivity].
Defined.

(** The condition of the repository's example, [deleted_at IS NULL], reads the
    whole collection. *)
Lemma where_clause_witness :
  let x := NewContext (W := Docs) [] in
  let s := toy_step "find" "user" ["User"; "id"] "deleted_at IS NULL" in
  executeDBFind Mongo toy_find s x = executeDBFind Mongo toy_find (without_condition s) x /\
  parseCondition "name = 'New York'" x = {["name" := VString "New York"]}.
Proof.
  intros x s. destruct (where_clause (W := Docs) Mongo toy_find toy_Unmarshal) as [H1 H2]. split; [apply H1; discriminate|].
  destruct (H2 "name" x eq_refl) as [H _]. exact (H "New York" eq_refl).
Defined.

Lemma insert_stamps_witness :
  let f : Fields := {["email" := VString "a@b.c"; "created_at" := VInt 0]} in
  let x := set_heap {[1%positive := f]} (NewContext (W := Docs) []) in
  exists x', InsertDatabase Mongo toy_insert toy_Marshal toy_Unmarshal toy_clock "users" (VMap (Some 1%positive)) x = (x', Ok (VInt 0)) /\
    world x' = [("users", <["updated_at" := VTime 0]> f)] /\ heap x' !! 1%positive = Some (<["updated_at" := VTime 0]> f).
Proof.
  intros f x. destruct (insert_stamps Mongo toy_insert toy_Marshal toy_Unmarshal toy_clock eq_refl "users" x) as [H _].
  destruct (H 1%positive f eq_refl) as (x' & E & W & R & _). exists x'. split; [exact E|]. split; [exact W | exact R].
Defined.
