(* ===== verification/Generator.v ===== *)
(** The router generated for a specification: the chains of middleware and the
    registration of endpoints of [internal/codegen/generator.go].

    A middleware is kept as what it is rather than as a function, and
    [apply_middleware] is the function.  Each authentication middleware has its
    own validator; how the validator of a name behaves at run time is an
    interface ([validators]), and whether it can be created when the router is
    built — it may have to reach a key server — is an argument that may differ
    from one attempt to the next. *)

From Stdlib Require Import ZArith Lia Ascii.
From stdpp Require Import base strings list gmap.
From S2P Require Import Prelude GoStrings GoText GoValue DslAst AuthJwt AuthMiddleware AuthLoader.

#[local] Open Scope string_scope.
#[local] Open Scope Z_scope.

(** ** Middleware *)
Inductive GenMiddleware :=
| MwAuthenticate (name : string) (v : Validator) (requirement : AuthRequirement)
| MwRateLimit
| MwCORS (origins : string)
| MwLogging.

Record GeneratedCode := mkGeneratedCode {
  Middlewares : gmap string GenMiddleware; code_AuthLoader : DSLLoader; attempts : nat }.

Section Generator.
Context {W : Type}.
Variable validators : string -> TokenValidator W.
Variable new_validator : nat -> AuthJwt.Config -> result AuthError Validator.

Definition generateAuthMiddlewareFunc (k : nat) (mw : LoadedMiddleware) (l : DSLLoader) : option GenMiddleware :=
  match CreateMiddlewareChain (new_validator k) (lm_Name mw) l with
  | Err _ => None
  | Ok v => Some (MwAuthenticate (lm_Name mw) v (if Required mw then AuthRequired else AuthOptional))
  end.

(** The limit and the window are read and not used. *)
Definition generateRateLimitMiddleware (mw : LoadedMiddleware) : GenMiddleware := MwRateLimit.
Definition generateCORSMiddleware (mw : LoadedMiddleware) : GenMiddleware :=
  MwCORS (match lm_Config mw !! "origins" with Some (VString s) => s | _ => "*" end).
Definition generateLoggingMiddleware (mw : LoadedMiddleware) : GenMiddleware := MwLogging.

Definition generateMiddlewareFunc (k : nat) (mw : LoadedMiddleware) (l : DSLLoader) : option GenMiddleware :=
  if String.eqb (lm_Type mw) "authentication" then generateAuthMiddlewareFunc k mw l
  else if String.eqb (lm_Type mw) "rate_limiting" then Some (generateRateLimitMiddleware mw)
  else if String.eqb (lm_Type mw) "cors" then Some (generateCORSMiddleware mw)
  else if String.eqb (lm_Type mw) "logging" then Some (generateLoggingMiddleware mw)
  else None.

Definition cors_headers (origins : string) : gmap string string :=
  <["Access-Control-Allow-Origin" := origins]>
    (<["Access-Control-Allow-Methods" := "GET, POST, PUT, DELETE, PATCH, OPTIONS"]>
       {["Access-Control-Allow-Headers" := "Content-Type, Authorization"]}).
(** Headers set before the handler runs; it may set them again. *)
Definition under_headers (hs : gmap string string) (o : Outcome) : Outcome :=
  match o with Responded resp => Responded (mkResponse (Status resp) (Headers resp ∪ hs) (ResponseBody resp)) | o => o end.

Definition apply_middleware (m : GenMiddleware) (next : HttpHandler W) : HttpHandler W :=
  match m with
  | MwAuthenticate n _ req => @Authenticate W (validators n) req next
  | MwRateLimit | MwLogging => next
  | MwCORS origins => fun r w =>
      if String.eqb (r_Method r) "OPTIONS" then (w, Responded (mkResponse StatusOK (cors_headers origins) NoBody))
      else let '(w, o) := next r w in (w, under_headers (cors_headers origins) o)
  end.

Fixpoint buildMiddlewareChain (refs : list MiddlewareRef) (code : GeneratedCode) : GeneratedCode * list GenMiddleware :=
  match refs with
  | [] => (code, [])
  | ref :: refs' =>
      match Middlewares code !! mr_Name ref with
      | Some mw => let '(code, chain) := buildMiddlewareChain refs' code in (code, mw :: chain)
      | None =>
          match GetMiddleware (mr_Name ref) (code_AuthLoader code) with
          | None => buildMiddlewareChain refs' code
          | Some loaded =>
              match generateMiddlewareFunc (attempts code) loaded (code_AuthLoader code) with
              | Some mw =>
                  let '(code, chain) := buildMiddlewareChain refs'
                    (mkGeneratedCode (<[mr_Name ref := mw]> (Middlewares code)) (code_AuthLoader code) (S (attempts code))) in
                  (code, mw :: chain)
              | None => buildMiddlewareChain refs' (mkGeneratedCode (Middlewares code) (code_AuthLoader code) (S (attempts code)))
              end
          end
      end
  end.

Definition wrap_handler (chain : list GenMiddleware) (h : HttpHandler W) : HttpHandler W := foldr apply_middleware h chain.

(** ** Paths *)
Fixpoint convert_from (param : bool) (s : string) : string :=
  match s with
  | EmptyString => if param then "}" else ""
  | String c s' =>
      if param then (if Ascii.eqb c "/" then String "}" (String "/" (convert_from false s')) else String c (convert_from true s'))
      else if Ascii.eqb c ":" then String "{" (convert_from true s')
      else String c (convert_from false s')
  end.
Definition convertPathToChi (path : string) : string := convert_from false path.

(** ** Endpoints *)
Variable GenerateHandler : EndpointDecl -> HttpHandler W.

Record Route := mkRoute { rt_Method : string; rt_Pattern : string; rt_Handler : HttpHandler W }.

Definition http_methods : list string := ["GET"; "POST"; "PUT"; "DELETE"; "PATCH"].

Definition registerEndpoint (ep : EndpointDecl) (st : GeneratedCode * list Route) : GeneratedCode * list Route * result string unit :=
  let '(code, chain) := buildMiddlewareChain (ep_Middlewares ep) st.1 in
  if existsb (String.eqb (ep_Method ep)) http_methods
  then (code, (st.2 ++ [mkRoute (ep_Method ep) (convertPathToChi (ep_Path ep)) (wrap_handler chain (GenerateHandler ep))])%list, Ok tt)
  else (code, st.2, Err ("unsupported HTTP method: " ++ ep_Method ep)).

(** The endpoints in the order of the program, and their number. *)
Fixpoint generate_routes (l : list Statement) (st : GeneratedCode * list Route) (n : nat) :
    GeneratedCode * result string (list Route * nat) :=
  match l with
  | [] => (st.1, Ok (st.2, n))
  | Endpoint ep :: l' =>
      match registerEndpoint ep st with
      | (st, Ok _) => generate_routes l' st (S n)
      | (st, Err e) => (st.1, Err ("registering endpoint " ++ ep_Method ep ++ " " ++ ep_Path ep ++ ": " ++ e))
      end
  | _ :: l' => generate_routes l' st n
  end.
Definition generateRouter (p : Program_) (code : GeneratedCode) : GeneratedCode * result string (list Route * nat) :=
  generate_routes (Statements p) (code, []) 0.

(** * What a chain guards *)

(** The middleware created so far are those of the loaded declarations. *)
Definition generated (l : DSLLoader) (n : string) (m : GenMiddleware) : Prop :=
  exists lm k, GetMiddleware n l = Some lm /\ generateMiddlewareFunc k lm l = Some m.
Definition consistent (code : GeneratedCode) : Prop :=
  forall n m, Middlewares code !! n = Some m -> generated (code_AuthLoader code) n m.

Lemma consistent_insert code n lm m : consistent code -> GetMiddleware n (code_AuthLoader code) = Some lm ->
  generateMiddlewareFunc (attempts code) lm (code_AuthLoader code) = Some m ->
  consistent (mkGeneratedCode (<[n := m]> (Middlewares code)) (code_AuthLoader code) (S (attempts code))).
Proof.
  intros Hc Hl Hm n' m' H. cbn in *. destruct (decide (n = n')) as [<-|Hne].
  - rewrite lookup_insert_eq in H. injection H as <-. by exists lm, (attempts code).
  - rewrite lookup_insert_ne in H by done. by apply Hc.
Qed.

(** Each middleware of a chain is that of a reference, and a reference whose
    middleware can always be generated has one in the chain. *)
Lemma chain_spec refs : forall code code' chain, buildMiddlewareChain refs code = (code', chain) -> consistent code ->
  consistent code' /\ code_AuthLoader code' = code_AuthLoader code /\
  (forall m, m ∈ chain -> exists ref, ref ∈ refs /\ generated (code_AuthLoader code) (mr_Name ref) m) /\
  (forall ref lm, ref ∈ refs -> GetMiddleware (mr_Name ref) (code_AuthLoader code) = Some lm ->
     (forall k, is_Some (generateMiddlewareFunc k lm (code_AuthLoader code))) ->
     exists m, m ∈ chain /\ generated (code_AuthLoader code) (mr_Name ref) m).
Proof.
  induction refs as [|ref refs IH]; intros code code' chain; cbn [buildMiddlewareChain].
  { intros [= <- <-] Hc. repeat split; auto; set_solver. }
  destruct (Middlewares code !! mr_Name ref) as [mw|] eqn:Em.
  { destruct (buildMiddlewareChain refs code) as [c ch] eqn:E. intros [= <- <-] Hc.
    destruct (IH _ _ _ E Hc) as (H1 & H2 & H3 & H4). pose proof (Hc _ _ Em) as Hg. repeat split; auto.
    - intros m [->|Hm]%elem_of_cons; [exists ref; set_solver|]. destruct (H3 m Hm) as (q & ? & ?). exists q. set_solver.
    - intros q lm [->|Hq]%elem_of_cons Hl Hk; [exists mw; set_solver|].
      destruct (H4 q lm Hq Hl Hk) as (m & ? & ?). exists m. set_solver. }
  destruct (GetMiddleware (mr_Name ref) (code_AuthLoader code)) as [lm|] eqn:El.
  2: { intros E Hc. destruct (IH _ _ _ E Hc) as (H1 & H2 & H3 & H4). repeat split; auto.
       - intros m Hm. destruct (H3 m Hm) as (q & ? & ?). exists q. set_solver.
       - intros q lm [->|Hq]%elem_of_cons Hl Hk; [congruence|]. eauto. }
  destruct (generateMiddlewareFunc (attempts code) lm (code_AuthLoader code)) as [mw|] eqn:Eg.
  - destruct (buildMiddlewareChain refs _) as [c ch] eqn:E. intros [= <- <-] Hc.
    destruct (IH _ _ _ E (consistent_insert _ _ _ _ Hc El Eg)) as (H1 & H2 & H3 & H4). cbn in H2, H3, H4.
    assert (generated (code_AuthLoader code) (mr_Name ref) mw) as Hg by (by exists lm, (attempts code)).
    repeat split; auto.
    + intros m [->|Hm]%elem_of_cons; [exists ref; set_solver|]. destruct (H3 m Hm) as (q & ? & ?). exists q. set_solver.
    + intros q lm' [->|Hq]%elem_of_cons Hl Hk; [exists mw; set_solver|].
      destruct (H4 q lm' Hq Hl Hk) as (m & ? & ?). exists m. set_solver.
  - intros E Hc. destruct (IH _ _ _ E) as (H1 & H2 & H3 & H4); [exact Hc|]. cbn in H2, H3, H4. repeat split; auto.
    + intros m Hm. destruct (H3 m Hm) as (q & ? & ?). exists q. set_solver.
    + intros q lm' [->|Hq]%elem_of_cons Hl Hk; [|eauto]. rewrite El in Hl. injection Hl as <-.
      destruct (Hk (attempts code)) as [? H]. congruence.
Qed.

(** A request and what middleware may make of it: only the user changes. *)
Definition with_user (r : Request) (u : option User) : Request :=
  mkRequest (r_Method r) (r_Path r) (r_RemoteAddr r) (r_Header r) (r_Query r) (r_Cookies r) (r_Body r) (r_Params r) u.
Lemma with_user_same r : with_user r (r_User r) = r.
Proof. by destruct r. Qed.

(** Whatever handler it wraps, the chain answers itself. *)
Definition stops (chain : list GenMiddleware) (r : Request) (w : W) : Prop :=
  exists w' o, forall h, wrap_handler chain h r w = (w', o).
(** Whatever handler it wraps, the chain runs it on the request and answers what
    it answers, up to headers. *)
Definition reaches (chain : list GenMiddleware) (r : Request) (w : W) : Prop :=
  exists u w' f, forall h, wrap_handler chain h r w = (let '(w2, o) := h (with_user r u) w' in (w2, f o)).

Definition no_valid_token (n : string) (r : Request) : Prop :=
  ExtractToken r = "" \/ forall w, exists w' e, @validate_token W (validators n) (ExtractToken r) w = (w', Err e).

Lemma apply_cases m r w :
  stops [m] r w \/ exists u w' f, forall next, apply_middleware m next r w = (let '(w2, o) := next (with_user r u) w' in (w2, f o)).
Proof.
  assert (forall next : HttpHandler W, next r w = (let '(w2, o) := next (with_user r (r_User r)) w in (w2, (fun o => o) o))) as Hid
    by (intros next; rewrite with_user_same; by destruct (next r w)).
  destruct m as [n v req | | origins |]; cbn [apply_middleware].
  - destruct req.
    + destruct (@Authenticate_required W (validators n) r w) as [(u & w' & _ & _ & Hp) | (w' & _ & resp & _ & Hr)].
      * right. exists (Some u), w', (fun o => o). intros next. rewrite Hp. by destruct (next _ w').
      * left. exists w', (Responded resp). intros h. apply Hr.
    + right. destruct (@Authenticate_optional W (validators n) r w) as (r' & w' & Hp & [->|(u & -> & _)]).
      * exists (r_User r), w', (fun o => o). intros next. rewrite Hp, with_user_same. by destruct (next r w').
      * exists (Some u), w', (fun o => o). intros next. rewrite Hp. by destruct (next _ w').
    + right. eauto.
  - right. eauto.
  - destruct (String.eqb (r_Method r) "OPTIONS") eqn:E.
    + left. exists w, (Responded (mkResponse StatusOK (cors_headers origins) NoBody)). intros h. cbn. by rewrite E.
    + right. exists (r_User r), w, (under_headers (cors_headers origins)). intros next. by rewrite with_user_same.
  - right. eauto.
Qed.

Lemma required_stops chain n v : MwAuthenticate n v AuthRequired ∈ chain ->
  forall r w, no_valid_token n r -> stops chain r w.
Proof.
  intros Hin r w Hno. revert r w Hno. induction chain as [|m chain IH]; intros r w Hno; [by apply not_elem_of_nil in Hin|].
  apply elem_of_cons in Hin as [<-|Hin].
  - destruct (@Authenticate_required W (validators n) r w) as [(u & w' & Hne & Hv & _) | (w' & _ & resp & _ & Hr)].
    + destruct Hno as [?|Hno]; [done|]. destruct (Hno w) as (w2 & e & H). rewrite Hv in H. discriminate.
    + exists w', (Responded resp). intros h. cbn. apply Hr.
  - destruct (apply_cases m r w) as [(w' & o & H) | (u & w' & f & H)].
    + exists w', o. intros h. exact (H (wrap_handler chain h)).
    + destruct (IH Hin (with_user r u) w' Hno) as (w2 & o & H2). exists w2, (f o). intros h.
      etransitivity; [exact (H (wrap_handler chain h))|]. by rewrite H2.
Qed.

Definition is_required (m : GenMiddleware) : Prop := match m with MwAuthenticate _ _ AuthRequired => True | _ => False end.

Lemma unrequired_reaches chain : Forall (fun m => ~ is_required m) chain ->
  forall r w, r_Method r <> "OPTIONS" -> reaches chain r w.
Proof.
  induction 1 as [|m chain Hm _ IH]; intros r w Hopt.
  - exists (r_User r), w, (fun o => o). intros h. rewrite with_user_same. cbn. by destruct (h r w).
  - destruct (apply_cases m r w) as [(w' & o & H) | (u & w' & f & H)].
    + exfalso. specialize (H (fun r w => (w, Crashed))) as H1. specialize (H (fun r w => (w, Panicked))).
      unfold wrap_handler in H, H1. cbn [foldr] in H, H1.
      destruct m as [n v [] | | origins |]; cbn [apply_middleware] in H, H1; try (apply Hm; exact I).
      * destruct (@Authenticate_optional W (validators n) r w) as (r' & w2 & Hp & _). rewrite Hp in H, H1. congruence.
      * cbn in H, H1. congruence.
      * congruence.
      * cbv beta in H, H1. apply String.eqb_neq in Hopt. rewrite Hopt in H, H1. cbn in H, H1. congruence.
      * congruence.
    + destruct (IH (with_user r u) w' Hopt) as (u2 & w2 & g & H2). exists u2, w2, (fun o => f (g o)). intros h.
      etransitivity; [exact (H (wrap_handler chain h))|]. rewrite H2. change (with_user (with_user r u) u2) with (with_user r u2).
      by destruct (h (with_user r u2) w2).
Qed.

(** Generating what stands for a required token. *)
Lemma generated_required l n m : generated l n m -> is_required m ->
  exists lm k v, GetMiddleware n l = Some lm /\ lm_Type lm = "authentication" /\ Required lm = true /\
    CreateMiddlewareChain (new_validator k) (lm_Name lm) l = Ok v /\ m = MwAuthenticate (lm_Name lm) v AuthRequired.
Proof.
  intros (lm & k & Hl & Hg) Hr. unfold generateMiddlewareFunc in Hg.
  destruct (String.eqb_spec (lm_Type lm) "authentication") as [Ht|_]; [|repeat case_match; by simplify_eq].
  unfold generateAuthMiddlewareFunc in Hg. destruct (CreateMiddlewareChain _ _ l) as [v|] eqn:E; [|done].
  injection Hg as <-. exists lm, k, v. destruct (Required lm); [done | by destruct Hr].
Qed.


(** Building a router only ever adds middleware of the loaded declarations. *)
Lemma registerEndpoint_consistent ep st : consistent st.1 -> consistent (registerEndpoint ep st).1.1.
Proof.
  intros Hc. unfold registerEndpoint. destruct (buildMiddlewareChain (ep_Middlewares ep) st.1) as [code chain] eqn:E.
  apply chain_spec in E as [H _]; [|done]. by destruct (existsb _ _).
Qed.

Lemma generate_routes_consistent l : forall st n, consistent st.1 -> consistent (generate_routes l st n).1.
Proof.
  induction l as [|s l IH]; intros st n Hc; [done|]. destruct s; cbn [generate_routes]; auto.
  pose proof (registerEndpoint_consistent d st Hc) as H. destruct (registerEndpoint d st) as [st' [u|e]]; [by apply IH | exact H].
Qed.

(** Every endpoint of a program with known methods gets its route, in order. *)
Definition endpoint_of (s : Statement) : option EndpointDecl := match s with Endpoint d => Some d | _ => None end.
Definition route_key (ep : EndpointDecl) : string * string := (ep_Method ep, convertPathToChi (ep_Path ep)).

Lemma generateRouter_routes p code : Forall (fun ep => ep_Method ep ∈ http_methods) (omap endpoint_of (Statements p)) ->
  exists routes, (generateRouter p code).2 = Ok (routes, length (omap endpoint_of (Statements p))) /\
    map (fun rt => (rt_Method rt, rt_Pattern rt)) routes = map route_key (omap endpoint_of (Statements p)).
Proof.
  unfold generateRouter. generalize (Statements p) as l. intros l.
  assert (forall st n, Forall (fun ep => ep_Method ep ∈ http_methods) (omap endpoint_of l) ->
    exists routes, (generate_routes l st n).2 = Ok ((st.2 ++ routes)%list, (n + length (omap endpoint_of l))%nat) /\
      map (fun rt => (rt_Method rt, rt_Pattern rt)) routes = map route_key (omap endpoint_of l)) as H.
  { induction l as [|s l IH]; intros st n; [exists []; cbn; rewrite app_nil_r, Nat.add_0_r; done|].
    destruct s; cbn [generate_routes]; try exact (IH st n). cbn. intros [Hm Hl]%Forall_cons. unfold registerEndpoint.
    destruct (buildMiddlewareChain (ep_Middlewares d) st.1) as [c ch]. apply list_elem_of_In in Hm.
    assert (existsb (String.eqb (ep_Method d)) http_methods = true) as Hmem
      by (apply existsb_exists; exists (ep_Method d); by rewrite String.eqb_refl).
    rewrite Hmem. destruct (IH (c, (st.2 ++ [mkRoute (ep_Method d) (convertPathToChi (ep_Path d)) (wrap_handler ch (GenerateHandler d))])%list) (S n) Hl)
      as (routes & E & Hr). eexists. rewrite E. cbn. rewrite <- app_assoc, Nat.add_succ_r. split; [reflexivity|].
    cbn. by rewrite Hr. }
  intros Hl. destruct (H (code, []) 0%nat Hl) as (routes & E & Hr). exists routes. by rewrite E.
Qed.
End Generator.

(** ** Paths by their segments *)
Fixpoint convert_segment (s : string) : string :=
  match s with
  | EmptyString => ""
  | String c s' => if Ascii.eqb c ":" then String "{" (s' ++ "}") else String c (convert_segment s')
  end.

Lemma Join_cons p q l : Join (p :: q :: l) "/" = p ++ "/" ++ Join (q :: l) "/".
Proof. done. Qed.

Lemma convert_from_segments s :
  convert_from false s = Join (map convert_segment (Split "/" s)) "/" /\
  convert_from true s = match Split "/" s with
                        | p :: ps => Join ((p ++ "}") :: map convert_segment ps) "/"
                        | [] => "}" end.
Proof.
  induction s as [|c s [IH1 IH2]]; [done|]. cbn [convert_from Split]. destruct (Split "/" s) as [|p ps] eqn:E.
  { exfalso. pose proof (Split_length "/" s) as H. by rewrite E in H. }
  destruct (ascii_eqb_spec c "/") as [->|Hc].
  - change (Ascii.eqb "/" ":") with false. rewrite IH1. cbn [map]. split; [done|]. done.
  - split.
    + destruct (ascii_eqb_spec c ":") as [->|Hc2].
      * rewrite IH2. cbn [map convert_segment]. change (Ascii.eqb ":" ":") with true. by destruct ps.
      * rewrite IH1. cbn [map convert_segment]. apply Ascii.eqb_neq in Hc2. rewrite Hc2. by destruct ps.
    + rewrite IH2. by destruct ps.
Qed.

(** A path is converted segment by segment: what follows the first colon of
    a segment becomes its parameter. *)
Theorem convertPath_segments path : convertPathToChi path = Join (map convert_segment (Split "/" path)) "/".
Proof. apply convert_from_segments. Qed.

Example convert_users : convertPathToChi "/users/:id/posts/:post" = "/users/{id}/posts/{post}".
Proof. reflexivity. Qed.

(** ** A server of its own
    Its only provider accepts no token; [auth_check] requires one. *)
Definition gen_loader : DSLLoader :=
  let at1 := mkPosition "api.cai" 1 1 0 in
  mkDSLLoader {["jwt" := load_decl (mkAuthDecl at1 "jwt" "jwt" (Some (mkJWKS at1 "https://id/jwks" "https://id" "api")) ∅)]} ∅
    {["auth_check" := load_middleware_decl (mkMiddlewareDecl at1 "auth_check" "authentication"
        (<["provider" := Identifier at1 "jwt"]> {["required" := BoolLiteral at1 true]}))]}.
Definition gen_code : GeneratedCode := mkGeneratedCode ∅ gen_loader 0.
Definition no_tokens (n : string) : TokenValidator unit := fun tok w => (w, Err ErrInvalidToken).
Definition keyless (k : nat) (c : AuthJwt.Config) : result AuthError Validator := Ok (mkValidator c ∅ None).
Definition gen_ref (n : string) : MiddlewareRef := mkMiddlewareRef (mkPosition "api.cai" 2 1 0) n.
Definition gen_request : Request := mkRequest "GET" "/users" "10.0.0.1" ∅ ∅ [] None None None.

Lemma gen_code_consistent : consistent keyless gen_code.
Proof. intros n m H. discriminate. Qed.

