(* ===== verification/GoCrypto.v ===== *)
(** Hexadecimal, SHA-256 and HMAC, as [encoding/hex], [crypto/sha256] and
    [crypto/hmac] compute them; HTTP headers with their canonical names.

    Byte slices are strings.  The constants of SHA-256 are computed from the
    primes they are defined by. *)

From Stdlib Require Import ZArith Lia Ascii.
From stdpp Require Import base strings list gmap.
From S2P Require Import Prelude GoStrings.

#[local] Open Scope string_scope.
#[local] Open Scope Z_scope.

(** ** Strings and bytes *)
Fixpoint bytes (s : string) : list Z :=
  match s with
  | EmptyString => []
  | String c s' => byte c :: bytes s'
  end.
Definition of_bytes (l : list Z) : string := fold_right (fun z s => String (of_byte z) s) "" l.

Lemma of_bytes_bytes s : of_bytes (bytes s) = s.
Proof. unfold of_bytes. induction s as [|c s IH]; cbn; [done|]. by rewrite of_byte_byte, IH. Qed.

Lemma length_of_bytes l : String.length (of_bytes l) = length l.
Proof. unfold of_bytes. induction l; cbn; congruence. Qed.

(** ** Hexadecimal *)
Definition hex_digit (d : Z) : ascii := of_byte (if d <? 10 then d + 48 else d + 87).
Definition hex_value (c : ascii) : option Z :=
  if in_range 48 57 c then Some (byte c - 48)
  else if in_range 97 102 c then Some (byte c - 87)
  else if in_range 65 70 c then Some (byte c - 55)
  else None.

Fixpoint EncodeToString (s : string) : string :=
  match s with
  | EmptyString => ""
  | String c s' => String (hex_digit (byte c / 16)) (String (hex_digit (byte c mod 16)) (EncodeToString s'))
  end.

(** [None] on a character that is no digit and on an odd length. *)
Fixpoint DecodeString (s : string) : option string :=
  match s with
  | EmptyString => Some ""
  | String _ EmptyString => None
  | String a (String b s') =>
      match hex_value a, hex_value b, DecodeString s' with
      | Some x, Some y, Some r => Some (String (of_byte (16 * x + y)) r)
      | _, _, _ => None
      end
  end.

Lemma hex_value_digit d : 0 <= d < 16 -> hex_value (hex_digit d) = Some d.
Proof.
  intros H. assert (In d (map Z.of_nat (seq 0 16))) as Hin.
  { apply in_map_iff. exists (Z.to_nat d). rewrite in_seq. lia. }
  revert Hin. clear H. cbn. intuition (subst; reflexivity).
Qed.

Lemma Decode_Encode s : DecodeString (EncodeToString s) = Some s.
Proof.
  induction s as [|c s IH]; cbn [EncodeToString DecodeString]; [done|].
  pose proof (byte_range c) as Hc.
  rewrite !hex_value_digit, IH; [| apply Z.mod_pos_bound; lia | split; [apply Z.div_pos; lia | apply Z.div_lt_upper_bound; lia]].
  by rewrite <-Z.div_mod, of_byte_byte by lia.
Qed.

Lemma length_Encode s : String.length (EncodeToString s) = (2 * String.length s)%nat.
Proof. induction s as [|c s IH]; cbn [EncodeToString String.length]; lia. Qed.

Lemma Encode_inj s t : EncodeToString s = EncodeToString t -> s = t.
Proof. intros H. apply (f_equal DecodeString) in H. rewrite !Decode_Encode in H. by injection H. Qed.

(** ** SHA-256 *)
Definition w32 (z : Z) : Z := Z.land z (2 ^ 32 - 1).
Definition add32 (a b : Z) : Z := w32 (a + b).
Definition rotr (n x : Z) : Z := Z.lor (Z.shiftr x n) (w32 (Z.shiftl x (32 - n))).
Definition xor3 (a b c : Z) : Z := Z.lxor a (Z.lxor b c).
Definition ch (x y z : Z) : Z := Z.lxor (Z.land x y) (Z.land (Z.lxor x (2 ^ 32 - 1)) z).
Definition maj (x y z : Z) : Z := xor3 (Z.land x y) (Z.land x z) (Z.land y z).
Definition sum0 (x : Z) : Z := xor3 (rotr 2 x) (rotr 13 x) (rotr 22 x).
Definition sum1 (x : Z) : Z := xor3 (rotr 6 x) (rotr 11 x) (rotr 25 x).
Definition sig0 (x : Z) : Z := xor3 (rotr 7 x) (rotr 18 x) (Z.shiftr x 3).
Definition sig1 (x : Z) : Z := xor3 (rotr 17 x) (rotr 19 x) (Z.shiftr x 10).

Definition primes (n : nat) : list Z :=
  let prime p := forallb (fun d => negb (p mod d =? 0)) (map Z.of_nat (seq 2 (Z.to_nat (p - 2)))) in
  firstn n (List.filter prime (map Z.of_nat (seq 2 310))).

(** The integer cube root of a number below [2 ^ 108], bit by bit. *)
Definition cube_root (n : Z) : Z :=
  fold_left (fun r b => let r' := r + 2 ^ Z.of_nat b in if r' * r' * r' <=? n then r' else r) (rev (seq 0 36)) 0.

(** The first 32 bits of the fractions of cube and square roots of primes. *)
Definition round_constants : list Z := Eval vm_compute in map (fun p => w32 (cube_root (p * 2 ^ 96))) (primes 64).
Definition initial_hash : list Z := Eval vm_compute in map (fun p => w32 (Z.sqrt (p * 2 ^ 64))) (primes 8).

(** [n] bytes of [z], the most significant first. *)
Fixpoint big_endian (n : nat) (z : Z) : list Z :=
  match n with
  | O => []
  | S n' => Z.land (Z.shiftr z (8 * Z.of_nat n')) 255 :: big_endian n' z
  end.
Definition word (l : list Z) : Z := fold_left (fun a b => 256 * a + b) l 0.

Fixpoint chunks {A} (fuel n : nat) (l : list A) : list (list A) :=
  match fuel, l with
  | S fuel', _ :: _ => firstn n l :: chunks fuel' n (skipn n l)
  | _, _ => []
  end.

Definition padded (msg : list Z) : list Z :=
  let n := Z.of_nat (length msg) in
  (msg ++ [128] ++ repeat 0 (Z.to_nat ((55 - n) mod 64)) ++ big_endian 8 (8 * n))%list.

(** The message schedule, the last word first. *)
Fixpoint schedule (n : nat) (ws : list Z) : list Z :=
  match n with
  | O => ws
  | S n' => schedule n' (add32 (add32 (sig1 (nth 1 ws 0)) (nth 6 ws 0)) (add32 (sig0 (nth 14 ws 0)) (nth 15 ws 0)) :: ws)
  end.

Definition round (st : list Z) (kw : Z * Z) : list Z :=
  match st with
  | [a; b; c; d; e; f; g; h] =>
      let t1 := add32 (add32 h (sum1 e)) (add32 (ch e f g) (add32 kw.1 kw.2)) in
      let t2 := add32 (sum0 a) (maj a b c) in
      [add32 t1 t2; a; b; c; add32 d t1; e; f; g]
  | _ => st
  end.

Definition block (st : list Z) (b : list Z) : list Z :=
  let ws := map word (chunks 16 4 b) in
  zip_with add32 st (fold_left round (zip round_constants (rev (schedule 48 (rev ws)))) st).

Definition sha256 (s : string) : string :=
  let msg := padded (bytes s) in
  of_bytes (concat (map (big_endian 4) (fold_left block (chunks (length msg) 64 msg) initial_hash))).

(** ** HMAC with SHA-256 *)
Definition block_key (key : string) : list Z :=
  let k := bytes (if (64 <? String.length key)%nat then sha256 key else key) in
  (k ++ repeat 0 (64 - length k))%list.
Definition hmac (key msg : string) : string :=
  let pad b := of_bytes (map (Z.lxor b) (block_key key)) in
  sha256 (pad 92 ++ sha256 (pad 54 ++ msg)).

(** Published test vectors. *)
Example sha256_empty :
  EncodeToString (sha256 "") = "e3b0c44298fc1c149afbf4c8996fb92427ae41e4649b934ca495991b7852b855".
Proof. vm_compute. reflexivity. Qed.
Example sha256_abc :
  EncodeToString (sha256 "abc") = "ba7816bf8f01cfea414140de5dae2223b00361a396177a9cb410ff61f20015ad".
Proof. vm_compute. reflexivity. Qed.
Example sha256_two_blocks :
  EncodeToString (sha256 "abcdbcdecdefdefgefghfghighijhijkijkljklmklmnlmnomnopnopq") =
  "248d6a61d20638b8e5c026930c3e6039a33ce45964ff2167f6ecedd419db06c1".
Proof. vm_compute. reflexivity. Qed.
Example hmac_jefe :
  EncodeToString (hmac "Jefe" "what do ya want for nothing?") =
  "5bdcc146bf60754e6a042426089575c75a003f089d2739839dec58b964ec3843".
Proof. vm_compute. reflexivity. Qed.

Lemma length_round st kw : length (round st kw) = length st.
Proof. by do 9 (destruct st as [|? st]; [done|]). Qed.

Lemma length_rounds kws st : length (fold_left round kws st) = length st.
Proof. revert st. induction kws as [|kw kws IH]; intros st; cbn; [done|]. by rewrite IH, length_round. Qed.

Lemma length_blocks bs st : length (fold_left block bs st) = length st.
Proof.
  revert st. induction bs as [|b bs IH]; intros st; cbn [fold_left]; [done|].
  rewrite IH. unfold block. rewrite length_zip_with, length_rounds. lia.
Qed.

Lemma length_big_endian n z : length (big_endian n z) = n.
Proof. induction n as [|n IH]; [done|]. cbn [big_endian length]. by rewrite IH. Qed.

Lemma length_sha256 s : String.length (sha256 s) = 32%nat.
Proof.
  unfold sha256. rewrite length_of_bytes.
  assert (forall l, length (concat (map (big_endian 4) l)) = (4 * length l)%nat) as Hc.
  { induction l as [|x l IH]; [done|]. cbn [map concat length]. rewrite length_app, length_big_endian. lia. }
  rewrite Hc, length_blocks. reflexivity.
Qed.

(** ** HTTP headers *)
Abbreviation Header := (gmap string (list string)).

(** The bytes of a token. *)
Definition header_byte (c : ascii) : bool :=
  is_digit c || is_upper c || is_lower c || str_contains c "!#$%&'*+-.^_`|~".
Definition upper (c : ascii) : ascii := if is_lower c then of_byte (byte c - 32) else c.

Fixpoint canonical_from (up : bool) (s : string) : string :=
  match s with
  | EmptyString => ""
  | String c s' => let d := if up then upper c else lower c in String d (canonical_from (Ascii.eqb d "-") s')
  end.
Definition CanonicalHeaderKey (s : string) : string :=
  if str_forall header_byte s then canonical_from true s else s.

Definition Header_Set (key value : string) (h : Header) : Header := <[ CanonicalHeaderKey key := [value] ]> h.
Definition Header_Get (key : string) (h : Header) : string := default "" (hd_error (default [] (h !! CanonicalHeaderKey key))).
