(* ===== verification/WebhookClient.v ===== *)
(** Sending webhooks: [pkg/integration/webhook] ([client.go], [models.go]) and
    the signatures of [internal/webhook/security/signature.go].

    What the program meets when it runs is an [Environment]: the server's
    answers, the time that passes, which ready case a [select] takes, fresh
    identifiers, the order in which a map is ranged over.  The [World] records
    the requests sent, so that everything may depend on what happened before.
    The semaphore is its [select]; [SendBatch] starts independent calls of
    [Send] and is left out. *)

From Stdlib Require Import ZArith Lia Ascii SpecFloat DecimalString DecimalZ DecimalPos.
From stdpp Require Import base strings list gmap.
From S2P Require Import Prelude GoStrings GoText Retry GoCrypto.

#[local] Open Scope string_scope.
#[local] Open Scope Z_scope.

(** ** Requests and their answers *)
Record HttpRequest := mkHttpRequest {
  q_Method : string; q_URL : string; q_Header : Header; q_Body : string }.

(** What [http.Client.Do] and reading the body give. *)
Inductive Answer := NoAnswer (err : string) | Answered (status : Z) (body : result string string).

Record World := mkWorld {
  w_log : list HttpRequest;   (** sent so far, the last first *)
  w_reads : nat;              (** readings of the environment so far *)
  w_now : Z }.

Class Environment := mkEnvironment {
  network : World -> HttpRequest -> Answer;
  bad_url : string -> option string;          (** the error of [url.Parse] *)
  elapsed : World -> Z;                       (** since the clock was last read *)
  ctx_done : World -> option string;          (** a [select] takes [ctx.Done()] *)
  new_uuid : nat -> string;
  range_order : forall A : Type, World -> list A -> list A;
  float_overflow : float64 -> Z
}.
Arguments range_order {_ _} _ _.

(** Time does not run backwards, identifiers are fresh, and ranging over a map
    visits every entry once. *)
Class LawfulEnvironment (E : Environment) := {
  elapsed_nonneg w : 0 <= elapsed w;
  new_uuid_inj m n : new_uuid m = new_uuid n -> m = n;
  range_order_perm (A : Type) w (l : list A) : range_order w l ≡ₚ l
}.

(** ** Retry policies *)
Record RetryPolicy := mkRetryPolicy {
  MaxAttempts : Z; InitialBackoff : Z; MaxBackoff : Z; Multiplier : float64 }.

Definition DefaultRetryPolicy : RetryPolicy := mkRetryPolicy 3 (5 * Second) (5 * Minute) f_two.

(** ** Webhooks and results *)
Record Webhook := mkWebhook {
  ID : string; URL : string; EventType : string; EventID : string; Payload : string;
  Headers : gmap string string; Secret : string; Timeout : Z; wh_RetryPolicy : option RetryPolicy }.

Record DeliveryResult := mkDeliveryResult {
  WebhookID : string; StatusCode : Z; ResponseBody : string; Duration : Z; Attempts : Z; Success : bool;
  Error : string; DeliveredAt : Z }.

(** ** Signatures *)
Definition SignPayload (secret payload : string) : string := EncodeToString (hmac secret payload).
Definition SignPayloadWithTimestamp (secret : string) (timestamp : Z) (payload : string) : string :=
  SignPayload secret (Itoa timestamp ++ "." ++ payload).

Definition constantTimeEqual (a b : string) : bool :=
  match DecodeString a, DecodeString b with
  | Some x, Some y => String.eqb x y
  | _, _ => false
  end.
Definition VerifySignature (secret payload signature : string) : bool :=
  constantTimeEqual (SignPayload secret payload) signature.
Definition VerifySignatureWithTimestamp (secret : string) (timestamp : Z) (payload signature : string) : bool :=
  constantTimeEqual (SignPayloadWithTimestamp secret timestamp payload) signature.

Definition SignatureHeader : string := "X-Webhook-Signature".
Definition SignatureAlgorithmHeader : string := "X-Webhook-Signature-Algorithm".
Definition DefaultAlgorithm : string := "sha256".

Definition AddSignatureHeaders (secret payload : string) (headers : Header) : Header :=
  Header_Set SignatureAlgorithmHeader DefaultAlgorithm
    (Header_Set SignatureHeader (SignPayload secret payload) headers).

(** [AddSignatureToMap] writes into a Go map, whose keys are as given. *)
Definition AddSignatureToMap (secret payload : string) (headers : gmap string string) : gmap string string :=
  <[ SignatureAlgorithmHeader := DefaultAlgorithm ]> (<[ SignatureHeader := SignPayload secret payload ]> headers).

(** What follows the first equality sign, unless that comes first. *)
Definition after_prefix (signature : string) : string :=
  match String.index 0 "=" signature with
  | Some (S n) => drop_str (S (S n)) signature
  | _ => signature
  end.

Fixpoint first_header (names : list string) (headers : Header) : option string :=
  match names with
  | [] => None
  | h :: names' => if String.eqb (Header_Get h headers) "" then first_header names' headers
                   else Some (after_prefix (Header_Get h headers))
  end.
Definition ExtractSignature (headers : Header) : option string :=
  first_header [SignatureHeader; "X-Hub-Signature-256"; "X-Signature-256"; "Webhook-Signature"] headers.

(** [None] is a panic: the slice of a digest ends beyond it. *)
Definition GenerateSecret (length : Z) : option string :=
  let length := if length <=? 0 then 32 else length in
  let digest := sha256 (of_bytes (repeat 0 (Z.to_nat length))) in
  if length <=? 32 then Some (EncodeToString (take_str (Z.to_nat length) digest)) else None.

Section Client.
Context {E : Environment}.

(** Reading the clock, and the two [select]s on the context. *)
Definition Now (w : World) : World * Z :=
  let t := w_now w + elapsed w in (mkWorld (w_log w) (S (w_reads w)) t, t).

Definition select_done (w : World) : World * option string :=
  (mkWorld (w_log w) (S (w_reads w)) (w_now w), ctx_done w).

Definition sleep (d : Z) (w : World) : World * option string :=
  match select_done w with
  | (w', Some err) => (w', Some err)
  | (w', None) => (mkWorld (w_log w') (w_reads w') (w_now w' + Z.max 0 d), None)
  end.

Definition NewUUID (w : World) : World * string :=
  (mkWorld (w_log w) (S (w_reads w)) (w_now w), new_uuid (w_reads w)).

Definition int_of_float : float64 -> Z := Retry.int_of_float float_overflow.

(** The backoff after the turns [i := 1; i < attempt] of the loop. *)
Fixpoint backoff_loop (turns : nat) (p : RetryPolicy) (backoff : Z) : Z :=
  match turns with
  | O => backoff
  | S turns' =>
      let backoff' := int_of_float (f_mul (f_of_int backoff) (Multiplier p)) in
      if MaxBackoff p <? backoff' then MaxBackoff p else backoff_loop turns' p backoff'
  end.
Definition CalculateBackoff (p : RetryPolicy) (attempt : Z) : Z :=
  if attempt <=? 0 then InitialBackoff p else backoff_loop (Z.to_nat (attempt - 1)) p (InitialBackoff p).

(** [signPayload] of the client is the same computation. *)
Definition signPayload (secret payload : string) : string := EncodeToString (hmac secret payload).

Definition set_headers (l : list (string * string)) (h : Header) : Header :=
  fold_left (fun h kv => Header_Set kv.1 kv.2 h) l h.

Definition build_request (wh : Webhook) (w : World) : HttpRequest :=
  let h := Header_Set "User-Agent" "CodeAI-Webhook/1.0" (Header_Set "Content-Type" "application/json" ∅) in
  let h := set_headers (range_order w (map_to_list (Headers wh))) h in
  let h := if String.eqb (Secret wh) "" then h
           else Header_Set "X-Webhook-Signature-Algorithm" "sha256"
                  (Header_Set "X-Webhook-Signature" (signPayload (Secret wh) (Payload wh)) h) in
  mkHttpRequest "POST" (URL wh) h (Payload wh).

(** The status code, the body and the error. *)
Definition doSend (wh : Webhook) (w : World) : World * (Z * string * option string) :=
  match bad_url (URL wh) with
  | Some err => (w, (0, "", Some ("creating request: " ++ err)))
  | None =>
      let req := build_request wh w in
      let w' := mkWorld (req :: w_log w) (S (w_reads w)) (w_now w) in
      match network w req with
      | NoAnswer err => (w', (0, "", Some ("sending request: " ++ err)))
      | Answered status (Err err) => (w', (status, "", Some ("reading response: " ++ err)))
      | Answered status (Ok body) => (w', (status, body, None))
      end
  end.

Definition accepted (status : Z) (err : option string) : bool :=
  match err with None => (200 <=? status) && (status <? 300) | Some _ => false end.
Definition client_error (status : Z) : bool := (400 <=? status) && (status <? 500) && negb (status =? 429).
Definition failure (status : Z) (err : option string) : string :=
  match err with Some e => e | None => "unexpected status code: " ++ Itoa status end.

(** [Some err] is the error returned next to the result. *)
Definition finish (r : DeliveryResult) (ok : bool) (error : string) (start : Z) (w : World) : World * DeliveryResult :=
  let '(w, t1) := Now w in
  let '(w, t2) := Now w in
  (w, mkDeliveryResult (WebhookID r) (StatusCode r) (ResponseBody r) (t2 - start) (Attempts r) ok error t1).

Definition last_failure (r : DeliveryResult) (lastErr : option string) : option string :=
  match lastErr with
  | Some e => Some ("webhook delivery failed after " ++ Itoa (Attempts r) ++ " attempts: " ++ e)
  | None => None
  end.

(** [turns] are the turns left of [attempt := 1; attempt <= maxAttempts]. *)
Fixpoint send_loop (turns : nat) (wh : Webhook) (p : RetryPolicy) (attempt start : Z)
    (r : DeliveryResult) (lastErr : option string) (w : World) : World * (DeliveryResult * option string) :=
  match turns with
  | O => let '(w, r') := finish r (Success r) (Error r) start w in (w, (r', last_failure r' lastErr))
  | S turns' =>
      let r := mkDeliveryResult (WebhookID r) (StatusCode r) (ResponseBody r) (Duration r) attempt (Success r) (Error r) (DeliveredAt r) in
      let '(w, stop) := if 1 <? attempt then sleep (CalculateBackoff p (attempt - 1)) w else (w, None) in
      match stop with
      | Some err => let '(w, r') := finish r (Success r) err start w in (w, (r', Some err))
      | None =>
          let '(w, (status, body, err)) := doSend wh w in
          let r := mkDeliveryResult (WebhookID r) status body (Duration r) attempt (Success r) (Error r) (DeliveredAt r) in
          if accepted status err then
            let '(w, r') := finish r true (Error r) start w in (w, (r', None))
          else
            let e := failure status err in
            let r := mkDeliveryResult (WebhookID r) status body (Duration r) attempt (Success r) e (DeliveredAt r) in
            if client_error status then
              let '(w, r') := finish r (Success r) e start w in (w, (r', last_failure r' (Some e)))
            else send_loop turns' wh p (attempt + 1) start r (Some e) w
      end
  end.

Definition policy_of (wh : Webhook) : RetryPolicy := default DefaultRetryPolicy (wh_RetryPolicy wh).
Definition max_attempts (p : RetryPolicy) : Z := if MaxAttempts p <=? 0 then 1 else MaxAttempts p.

(** No result at all if the context ends before the semaphore is acquired. *)
Definition Send (wh : Webhook) (w : World) : World * (option DeliveryResult * option string) :=
  match select_done w with
  | (w, Some err) => (w, (None, Some err))
  | (w, None) =>
      let p := policy_of wh in
      let '(w, start) := Now w in
      let '(w, (r, err)) := send_loop (Z.to_nat (max_attempts p)) wh p 1 start
                              (mkDeliveryResult (ID wh) 0 "" 0 0 false "" 0) None w in
      (w, (Some r, err))
  end.

Definition ValidateEndpoint (url : string) (w : World) : World * option string :=
  match bad_url url with
  | Some err => (w, Some ("creating request: " ++ err))
  | None =>
      let req := mkHttpRequest "HEAD" url ∅ "" in
      let w' := mkWorld (req :: w_log w) (S (w_reads w)) (w_now w) in
      match network w req with
      | NoAnswer err => (w', Some ("endpoint unreachable: " ++ err))
      | Answered status _ =>
          (w', if 500 <=? status then Some ("endpoint returned server error: " ++ Itoa status) else None)
      end
  end.

(** ** What sending does *)

(** The world before the [k]-th request, from 0, if every earlier one is
    retried, what it answers, and whether the wait after it is cut short. *)
Fixpoint before (wh : Webhook) (p : RetryPolicy) (w : World) (k : nat) : World :=
  match k with
  | O => w
  | S k' => (sleep (CalculateBackoff p (Z.of_nat (S k'))) (doSend wh (before wh p w k')).1).1
  end.
Definition answer (wh : Webhook) (p : RetryPolicy) (w : World) (k : nat) : Z * string * option string :=
  (doSend wh (before wh p w k)).2.
Definition cut_short (wh : Webhook) (p : RetryPolicy) (w : World) (k : nat) : option string :=
  (sleep (CalculateBackoff p (Z.of_nat (S k))) (doSend wh (before wh p w k)).1).2.

(** The answer is a failure worth another attempt. *)
Definition retriable (a : Z * string * option string) : bool :=
  negb (accepted a.1.1 a.2) && negb (client_error a.1.1).

(** The request and the result after [n] requests, of at most [max]. *)
Definition sent (wh : Webhook) (q : HttpRequest) : Prop :=
  q_Method q = "POST" /\ q_URL q = URL wh /\ q_Body q = Payload wh.

Definition ends (wh : Webhook) (p : RetryPolicy) (w : World) (max n : nat) (r : DeliveryResult) (err : option string) : Prop :=
  let '(status, body, e) := answer wh p w (n - 1) in
  StatusCode r = status /\ ResponseBody r = body /\
  if accepted status e then Success r = true /\ err = None /\ Attempts r = Z.of_nat n
  else Success r = false /\ err <> None /\
       ((Attempts r = Z.of_nat n /\ (client_error status = true \/ n = max)) \/
        (Attempts r = Z.of_nat (S n) /\ (n < max)%nat /\ err = cut_short wh p w (n - 1))).

Lemma finish_fields r ok e start w w' r' : finish r ok e start w = (w', r') ->
  w_log w' = w_log w /\ WebhookID r' = WebhookID r /\ StatusCode r' = StatusCode r /\ ResponseBody r' = ResponseBody r /\
  Attempts r' = Attempts r /\ Success r' = ok /\ Error r' = e.
Proof. unfold finish, Now. intros [= <- <-]. done. Qed.

Lemma sleep_log d w : w_log (sleep d w).1 = w_log w.
Proof. unfold sleep, select_done. by destruct (ctx_done w). Qed.

Lemma doSend_log wh w w' a : doSend wh w = (w', a) ->
  exists reqs, w_log w' = (reqs ++ w_log w)%list /\ Forall (sent wh) reqs /\
    length reqs = match bad_url (URL wh) with Some _ => O | None => 1%nat end.
Proof.
  unfold doSend. destruct (bad_url (URL wh)) as [e|].
  - intros [= <- <-]. by exists [].
  - intros H. exists [build_request wh w]. split; [|split; [by repeat constructor | done]].
    destruct (network _ _) as [e|st [b|e]]; by injection H as <- <-.
Qed.

Lemma before_log wh p w k :
  exists reqs, w_log (before wh p w k) = (reqs ++ w_log w)%list /\ Forall (sent wh) reqs /\
    length reqs = match bad_url (URL wh) with Some _ => O | None => k end.
Proof.
  induction k as [|k (reqs & Hl & Hs & Hn)]; cbn [before].
  - exists []. by destruct (bad_url _).
  - destruct (doSend wh (before wh p w k)) as [w' a] eqn:Hd.
    destruct (doSend_log _ _ _ _ Hd) as (r1 & Hl1 & Hs1 & Hn1).
    exists (r1 ++ reqs)%list. cbn [fst]. rewrite sleep_log, Hl1, Hl, <-app_assoc. split; [done|].
    split; [by apply Forall_app|]. rewrite length_app, Hn, Hn1. by destruct (bad_url _).
Qed.

(** [finish] after request [n]: the result is that of the answer. *)
Lemma finish_ends wh p w0 max n r ok e start err w w' r' status body e0 :
  finish r ok e start w = (w', r') -> answer wh p w0 (n - 1) = (status, body, e0) ->
  StatusCode r = status -> ResponseBody r = body -> ok = accepted status e0 ->
  (if ok then err = None /\ Attempts r = Z.of_nat n
   else err <> None /\
     ((Attempts r = Z.of_nat n /\ (client_error status = true \/ n = max)) \/
      (Attempts r = Z.of_nat (S n) /\ (n < max)%nat /\ err = cut_short wh p w0 (n - 1)))) ->
  ends wh p w0 max n r' err /\ w_log w' = w_log w.
Proof.
  intros (Hl & _ & H1 & H2 & H3 & H4 & _)%finish_fields Ha Hs Hb Hok Hc. split; [|done].
  unfold ends. rewrite Ha, H1, H2, H3, H4, <-Hok. split; [done|]. split; [done|].
  destruct ok; [tauto|]. split; [done | exact Hc].
Qed.

Lemma last_failure_some r e : last_failure r (Some e) <> None.
Proof. done. Qed.

(** The loop after [k] requests, the last of which is to be retried. *)
Definition loop_at (wh : Webhook) (p : RetryPolicy) (w0 : World) (k : nat) (r : DeliveryResult) (lastErr : option string) : Prop :=
  (1 <= k)%nat /\ retriable (answer wh p w0 (k - 1)) = true /\
  StatusCode r = (answer wh p w0 (k - 1)).1.1 /\ ResponseBody r = (answer wh p w0 (k - 1)).1.2 /\
  Success r = false /\ Attempts r = Z.of_nat k /\ lastErr <> None.

Definition loop_ends (wh : Webhook) (p : RetryPolicy) (w0 : World) (k max : nat) (out : World * (DeliveryResult * option string)) : Prop :=
  exists n, (k <= n <= max)%nat /\ (forall j, (k - 1 <= j < n - 1)%nat -> retriable (answer wh p w0 j) = true) /\
    ends wh p w0 max n out.2.1 out.2.2 /\ w_log out.1 = w_log (doSend wh (before wh p w0 (n - 1))).1.

(** Request [S k] after [k]: accepted, a client error, or retried. *)
Lemma send_turn_ends wh p w0 w start turns k r lastErr max :
  (k = 0%nat \/ retriable (answer wh p w0 (k - 1)) = true) -> (k < max)%nat -> Success r = false ->
  (forall r' e, loop_at wh p w0 (S k) r' (Some e) ->
     loop_ends wh p w0 (S k) max (send_loop turns wh p (Z.of_nat (S k) + 1) start r' (Some e) (doSend wh (before wh p w0 k)).1)) ->
  (if 1 <? Z.of_nat (S k) then sleep (CalculateBackoff p (Z.of_nat (S k) - 1)) w else (w, None)) = (before wh p w0 k, None) ->
  loop_ends wh p w0 (Nat.max 1 k) max (send_loop (S turns) wh p (Z.of_nat (S k)) start r lastErr w).
Proof.
  intros Hre Hlt Hsu IH Hsl.
  assert (forall j, (k - 1 <= j < k)%nat -> retriable (answer wh p w0 j) = true) as Hold.
  { intros j Hj. destruct Hre as [->|Hre]; [lia|]. by replace j with (k - 1)%nat by lia. }
  assert (forall out, ends wh p w0 max (S k) out.2.1 out.2.2 /\ w_log out.1 = w_log (doSend wh (before wh p w0 k)).1 ->
    loop_ends wh p w0 (Nat.max 1 k) max out) as Hstop.
  { intros out [He Hl]. exists (S k). replace (S k - 1)%nat with k by lia. split; [lia|].
    split; [|done]. intros j Hj. apply Hold. lia. }
  cbn [send_loop]. rewrite Hsl.
  destruct (doSend wh (before wh p w0 k)) as [w2 [[st bo] e]] eqn:Hd.
  assert (answer wh p w0 k = (st, bo, e)) as Han by (unfold answer; by rewrite Hd).
  destruct (accepted st e) eqn:Hac; [|destruct (client_error st) eqn:Hce].
  - destruct (finish _ _ _ _ _) as [w' r'] eqn:Hf. apply Hstop. eapply finish_ends; [exact Hf | by rewrite Nat.sub_1_r | done | done | done | done].
  - destruct (finish _ _ _ _ _) as [w' r'] eqn:Hf. apply Hstop.
    eapply finish_ends; [exact Hf | by rewrite Nat.sub_1_r | done | done | cbn; congruence |]. cbn [Success]. rewrite Hsu. auto using last_failure_some.
  - match goal with |- context [send_loop turns wh p _ start ?r1 _ w2] => destruct (IH r1 (failure st e)) as (n & Hn & Hj & Hn') end.
    { unfold loop_at. replace (S k - 1)%nat with k by lia. rewrite Han. unfold retriable. cbn. rewrite Hac, Hce. repeat split; done || lia. }
    exists n. split; [lia|]. split; [|done]. intros j Hj'.
    destruct (decide (j < k)%nat); [apply Hold; lia | apply Hj; lia].
Qed.

Lemma send_loop_ends wh p w0 start turns : forall k r lastErr, loop_at wh p w0 k r lastErr ->
  loop_ends wh p w0 k (k + turns) (send_loop turns wh p (Z.of_nat k + 1) start r lastErr (doSend wh (before wh p w0 (k - 1))).1).
Proof.
  induction turns as [|turns IH]; intros k r lastErr (Hk & Hre & Hst & Hbo & Hsu & Hat & Hle).
  all: destruct (answer wh p w0 (k - 1)) as [[st bo] e0] eqn:Han.
  all: assert (accepted st e0 = false) as Hac by (unfold retriable in Hre; cbn in Hre; by destruct (accepted st e0)).
  - cbn [send_loop]. destruct (finish _ _ _ _ _) as [w' r'] eqn:Hf. exists k. split; [lia|]. split; [lia|]. cbn [fst snd].
    eapply finish_ends; [exact Hf | done | done | done | congruence |]. rewrite Hsu.
    split; [by destruct lastErr | left; split; [done | right; lia]].
  - destruct (sleep (CalculateBackoff p (Z.of_nat k)) (doSend wh (before wh p w0 (k - 1))).1) as [w1 [e|]] eqn:Hs.
    + cbn [send_loop]. replace (1 <? Z.of_nat k + 1) with true by (symmetry; apply Z.ltb_lt; lia).
      replace (Z.of_nat k + 1 - 1) with (Z.of_nat k) by lia. rewrite Hs.
      destruct (finish _ _ _ _ _) as [w' r'] eqn:Hf. exists k. split; [lia|]. split; [lia|]. cbn [fst snd].
      rewrite <-(sleep_log (CalculateBackoff p (Z.of_nat k)) (doSend wh (before wh p w0 (k - 1))).1), Hs.
      eapply finish_ends; [exact Hf | done | done | done | cbn; congruence |]. cbn [Success]. rewrite Hsu. split; [done|].
      right. cbn. split; [lia|]. split; [lia|]. unfold cut_short. replace (S (k - 1)) with k by lia. by rewrite Hs.
    + pose proof (send_turn_ends wh p w0 (doSend wh (before wh p w0 (k - 1))).1 start turns k r lastErr (k + S turns)) as Ht.
      replace (Nat.max 1 k) with k in Ht by lia.
      replace (Z.of_nat k + 1) with (Z.of_nat (S k)) by lia. apply Ht; [right; by rewrite Han | lia | done | |].
      * intros r' e H. replace (k + S turns)%nat with (S k + turns)%nat by lia.
        specialize (IH (S k) r' (Some e) H). by replace (S k - 1)%nat with k in IH by lia.
      * replace (1 <? Z.of_nat (S k)) with true by (symmetry; apply Z.ltb_lt; lia).
        replace (Z.of_nat (S k) - 1) with (Z.of_nat k) by lia. rewrite Hs. f_equal.
        destruct k as [|k]; [lia|]. cbn [before]. replace (S k - 1)%nat with k in Hs by lia. by rewrite Hs.
Qed.

Lemma max_attempts_pos p : 0 < max_attempts p.
Proof. unfold max_attempts. destruct (Z.leb_spec (MaxAttempts p) 0); lia. Qed.

(** Sending: the requests made, [n] of them, end with the first that needs no
    further attempt, with the last attempt, or with the context. *)
Lemma Send_ends wh w :
  let '(w', (res, err)) := Send wh w in
  let w0 := (Now (select_done w).1).1 in
  let p := policy_of wh in
  match res with
  | None => err <> None /\ err = ctx_done w /\ w_log w' = w_log w
  | Some r => exists n, (1 <= n <= Z.to_nat (max_attempts p))%nat /\
      (forall j, (j < n - 1)%nat -> retriable (answer wh p w0 j) = true) /\
      ends wh p w0 (Z.to_nat (max_attempts p)) n r err /\
      exists reqs, w_log w' = (reqs ++ w_log w)%list /\ Forall (sent wh) reqs /\
        length reqs = match bad_url (URL wh) with Some _ => O | None => n end
  end.
Proof.
  unfold Send, select_done. destruct (ctx_done w) as [e|]; [done|].
  pose proof (max_attempts_pos (policy_of wh)) as Hmax.
  set (w1 := mkWorld _ _ _). set (w0 := (Now w1).1). cbn [Now]. fold w0.
  destruct (Z.to_nat (max_attempts (policy_of wh))) as [|turns] eqn:Et; [lia|].
  set (r0 := mkDeliveryResult _ _ _ _ _ _ _ _). set (start := w_now w1 + elapsed w1).
  pose proof (send_turn_ends wh (policy_of wh) w0 w0 start turns 0 r0 None (S turns)) as Ht.
  destruct Ht as (n & Hn & Hj & He & Hl); [by left | lia | done | | done |].
  { intros r' e H. apply (send_loop_ends _ _ _ _ turns 1 _ _ H). }
  change (Z.of_nat 1) with 1 in *. cbn [Nat.max] in *. change (mkWorld (w_log w1) _ _) with w0.
  destruct (send_loop (S turns) _ _ _ _ _ _ w0) as [w' [r' err]]. cbn [fst snd] in *.
  exists n. split; [lia|]. split; [intros j ?; apply Hj; lia|]. split; [done|].
  destruct (doSend wh (before wh (policy_of wh) w0 (n - 1))) as [w2 a] eqn:Hd.
  destruct (doSend_log _ _ _ _ Hd) as (r1 & Hl1 & Hs1 & Hn1).
  destruct (before_log wh (policy_of wh) w0 (n - 1)) as (r2 & Hl2 & Hs2 & Hn2).
  exists (r1 ++ r2)%list. cbn [fst] in Hl. rewrite Hl, Hl1, Hl2, <-app_assoc. split; [done|].
  split; [by apply Forall_app|]. rewrite length_app, Hn1, Hn2. destruct (bad_url _); lia.
Qed.
End Client.

(** ** The world only moves forward *)
Definition later (w w' : World) : Prop :=
  (w_reads w <= w_reads w')%nat /\ w_now w <= w_now w' /\ exists reqs, w_log w' = (reqs ++ w_log w)%list.

#[export] Instance later_preorder : PreOrder later.
Proof.
  split.
  - intros w. split; [done|]. split; [done|]. by exists [].
  - intros w1 w2 w3 (? & ? & r1 & H1) (? & ? & r2 & H2). split; [lia|]. split; [lia|].
    exists (r2 ++ r1)%list. by rewrite H2, H1, app_assoc.
Qed.

Section Later.
Context {E : Environment} {L : LawfulEnvironment E}.

Lemma read_later w t : w_now w <= t -> later w (mkWorld (w_log w) (S (w_reads w)) t).
Proof. intros H. split; [cbn; lia|]. split; [done|]. by exists []. Qed.

Lemma Now_later w : later w (Now w).1.
Proof. apply read_later. pose proof (elapsed_nonneg w). lia. Qed.

Lemma select_done_later w : later w (select_done w).1.
Proof. by apply read_later. Qed.

Lemma NewUUID_later w : later w (NewUUID w).1.
Proof. by apply read_later. Qed.

Lemma sleep_later d w : later w (sleep d w).1.
Proof.
  unfold sleep, select_done. destruct (ctx_done w); cbn; [by apply read_later|].
  split; [cbn; lia|]. split; [cbn; lia|]. by exists [].
Qed.

Lemma doSend_later wh w : later w (doSend wh w).1.
Proof.
  unfold doSend. destruct (bad_url (URL wh)); [done|].
  assert (later w (mkWorld (build_request wh w :: w_log w) (S (w_reads w)) (w_now w))) as H.
  { split; [cbn; lia|]. split; [done|]. by exists [build_request wh w]. }
  destruct (network _ _) as [e|st [b|e]]; exact H.
Qed.

Lemma finish_later r ok e start w : later w (finish r ok e start w).1.
Proof. unfold finish. etransitivity; [apply Now_later|]. exact (Now_later _). Qed.

Lemma send_loop_later turns wh p start : forall attempt r lastErr w,
  later w (send_loop turns wh p attempt start r lastErr w).1.
Proof.
  induction turns as [|turns IH]; intros attempt r lastErr w; cbn [send_loop].
  - pose proof (finish_later r (Success r) (Error r) start w). by destruct (finish _ _ _ _ _).
  - match goal with |- context [if 1 <? attempt then ?a else ?b] => set (slept := if 1 <? attempt then a else b) end.
    assert (later w slept.1) as Hs by (unfold slept; destruct (1 <? attempt); [apply sleep_later | done]).
    destruct slept as [w1 [e|]]; cbn [fst] in Hs.
    + match goal with |- context [finish ?r ?ok ?e ?st ?w] => pose proof (finish_later r ok e st w); destruct (finish r ok e st w) end.
      by etransitivity.
    + pose proof (doSend_later wh w1) as Hd. destruct (doSend wh w1) as [w2 [[st bo] e]]. cbn [fst] in Hd.
      etransitivity; [exact Hs|]. etransitivity; [exact Hd|].
      destruct (accepted st e); [|destruct (client_error st)]; [| |apply IH].
      all: match goal with |- context [finish ?r ?ok ?e ?st ?w] => pose proof (finish_later r ok e st w); by destruct (finish r ok e st w) end.
Qed.

Lemma Send_later wh w : later w (Send wh w).1.
Proof.
  unfold Send. pose proof (select_done_later w) as H1. destruct (select_done w) as [w1 [e|]]; [done|].
  etransitivity; [exact H1|]. pose proof (Now_later w1) as H2. destruct (Now w1) as [w2 start].
  etransitivity; [exact H2|].
  match goal with |- context [send_loop ?n ?wh ?p ?a ?st ?r ?l ?w] => pose proof (send_loop_later n wh p st a r l w) as H3; destruct (send_loop n wh p a st r l w) as [? [? ?]] end.
  exact H3.
Qed.
End Later.

(** ** What signatures promise *)

Lemma verify_spec secret payload signature :
  VerifySignature secret payload signature = true <-> DecodeString signature = Some (hmac secret payload).
Proof.
  unfold VerifySignature, constantTimeEqual, SignPayload. rewrite Decode_Encode.
  destruct (DecodeString signature) as [y|]; [|done]. rewrite String.eqb_eq. split; [by intros -> | by intros [= ->]].
Qed.

Lemma verify_signed secret payload secret' payload' :
  VerifySignature secret' payload' (SignPayload secret payload) = true <-> hmac secret payload = hmac secret' payload'.
Proof. rewrite verify_spec. unfold SignPayload. rewrite Decode_Encode. split; [by intros [= ->] | by intros ->]. Qed.

Lemma index_none c s : str_forall (fun d => negb (Ascii.eqb d c)) s = true -> String.index 0 (String c "") s = None.
Proof.
  induction s as [|d s IH]; [done|]. cbn [str_forall]. intros [Hd Hs]%andb_true_iff. cbn.
  rewrite (IH Hs). destruct (ascii_eqb_spec d c) as [->|Hne]; [done|]. by destruct (ascii_dec c d) as [->|].
Qed.

Lemma hex_no_equals s : str_forall (fun d => negb (Ascii.eqb d "=")) (EncodeToString s) = true.
Proof.
  assert (forall d, 0 <= d < 16 -> negb (Ascii.eqb (hex_digit d) "=") = true) as Hd.
  { intros d H. assert (In d (map Z.of_nat (seq 0 16))) as Hin by (apply in_map_iff; exists (Z.to_nat d); rewrite in_seq; lia).
    revert Hin. clear H. cbn. intuition (subst; reflexivity). }
  induction s as [|c s IH]; [done|]. cbn [EncodeToString str_forall]. pose proof (byte_range c).
  rewrite !Hd, IH; [done | apply Z.mod_pos_bound; lia | split; [apply Z.div_pos; lia | apply Z.div_lt_upper_bound; lia]].
Qed.

Lemma SignPayload_nonempty secret payload : String.eqb (SignPayload secret payload) "" = false.
Proof.
  apply String.eqb_neq. intros H. apply (f_equal String.length) in H. unfold SignPayload, hmac in H.
  by rewrite length_Encode, length_sha256 in H.
Qed.

Lemma signed_header {E : Environment} wh w : Secret wh <> "" ->
  ExtractSignature (q_Header (build_request wh w)) = Some (SignPayload (Secret wh) (Payload wh)).
Proof.
  intros Hs%String.eqb_neq. unfold build_request, ExtractSignature. rewrite Hs. cbn [q_Header first_header].
  unfold Header_Get, Header_Set.
  replace (CanonicalHeaderKey SignatureHeader) with "X-Webhook-Signature" by (vm_compute; reflexivity).
  replace (CanonicalHeaderKey "X-Webhook-Signature") with "X-Webhook-Signature" by (vm_compute; reflexivity).
  replace (CanonicalHeaderKey "X-Webhook-Signature-Algorithm") with "X-Webhook-Signature-Algorithm" by (vm_compute; reflexivity).
  rewrite lookup_insert_ne, lookup_insert_eq by discriminate. cbn.
  change (signPayload (Secret wh) (Payload wh)) with (SignPayload (Secret wh) (Payload wh)).
  rewrite SignPayload_nonempty. f_equal. unfold after_prefix, SignPayload. by rewrite index_none by apply hex_no_equals.
Qed.

Lemma count_byte_contains c s : str_contains c s = false -> count_byte c s = 0%nat.
Proof. induction s as [|d s IH]; cbn; [done|]. destruct (Ascii.eqb d c); [done|]. auto. Qed.

Lemma timestamp_message_inj t t' p p' : in_int64 t = true -> in_int64 t' = true ->
  Itoa t ++ "." ++ p = Itoa t' ++ "." ++ p' -> t = t' /\ p = p'.
Proof.
  intros Ht Ht' H. cbn in H.
  assert (forall z, count_byte "." (Itoa z) = 0%nat) as Hno by (intros z; apply count_byte_contains; by apply Itoa_contains).
  assert (Itoa t = Itoa t') as He.
  { apply (f_equal (Split ".")) in H. rewrite !Split_at in H by apply Hno. by injection H. }
  split.
  - apply (f_equal ParseInt) in He. rewrite !ParseInt_Itoa in He by done. by injection He.
  - rewrite He in H. apply (inj (String.app _)) in H. by injection H.
Qed.

(** ** Properties *)

(** A webhook is sent at least once unless its context ends first; it is sent
    again exactly while the answers are failures other than client errors (429
    excepted), attempts are left and the context lasts; the result carries the
    last answer and the number of attempts, and an error is returned exactly if
    that answer is no success. *)
Theorem send_outcome {E : Environment} (wh : Webhook) (w : World) :
  let '(w', (res, err)) := Send wh w in
  let w0 := (Now (select_done w).1).1 in
  let p := policy_of wh in
  match res with
  | None => err <> None /\ err = ctx_done w /\ w_log w' = w_log w
  | Some r => exists n, (1 <= n <= Z.to_nat (max_attempts p))%nat /\
      (forall j, (j < n - 1)%nat -> retriable (answer wh p w0 j) = true) /\
      ends wh p w0 (Z.to_nat (max_attempts p)) n r err /\
      exists reqs, w_log w' = (reqs ++ w_log w)%list /\ Forall (sent wh) reqs /\
        length reqs = match bad_url (URL wh) with Some _ => O | None => n end
  end.
Proof. apply Send_ends. Qed.

(** Whatever headers a subscription asks for, the receiver finds in a request
    with a secret the signature of its body, and verifying accepts it for
    exactly the secrets and bodies with the same HMAC - the sender's own among
    them. *)
Theorem signed_delivery {E : Environment} (wh : Webhook) (w : World) (Hs : Secret wh <> "") :
  exists signature, ExtractSignature (q_Header (build_request wh w)) = Some signature /\
    forall secret body, VerifySignature secret body signature = true <->
      hmac (Secret wh) (q_Body (build_request wh w)) = hmac secret body.
Proof. eexists. split; [by apply signed_header|]. intros secret body. apply verify_signed. Qed.

(** A signature with a timestamp is accepted for another timestamp or body only
    if two different messages have the same HMAC. *)
Lemma timestamp_signature secret t t' p p' : in_int64 t = true -> in_int64 t' = true ->
  VerifySignatureWithTimestamp secret t p (SignPayloadWithTimestamp secret t' p') = true ->
  (t = t' /\ p = p') \/
  (exists m m', m <> m' /\ hmac secret m = hmac secret m').
Proof.
  intros Ht Ht' H. unfold VerifySignatureWithTimestamp, SignPayloadWithTimestamp in H.
  apply verify_signed in H. destruct (decide (Itoa t' ++ "." ++ p' = Itoa t ++ "." ++ p)) as [He|Hne]; [|right; eauto].
  left. by apply timestamp_message_inj.
Qed.

(** Every secret of one length is the same, and a long one cannot be had. *)
Lemma generated_secrets :
  GenerateSecret 0 = Some "66687aadf862bd776c8fc18b8e9f8e20089714856ee233b3902a591d0d5f2925" /\
  GenerateSecret 32 = GenerateSecret 0 /\ GenerateSecret 16 = Some "374708fff7719dd5979ec875d56cd228" /\
  forall n, 32 < n -> GenerateSecret n = None.
Proof.
  split; [vm_compute; reflexivity|]. split; [done|]. split; [vm_compute; reflexivity|].
  intros n Hn. unfold GenerateSecret. destruct (Z.leb_spec n 0); [lia|]. by destruct (Z.leb_spec n 32); [lia|].
Qed.

(** An environment whose server gives the answers of a list in order. *)
Definition scripted (answers : list Answer) : Environment := {|
  network w _ := nth (length (w_log w)) answers (NoAnswer "EOF");
  bad_url _ := None;
  elapsed _ := 0;
  ctx_done _ := None;
  new_uuid n := Itoa (Z.of_nat n);
  range_order _ _ l := l;
  float_overflow _ := 0
|}.

Lemma Itoa_inj (a b : Z) : Itoa a = Itoa b -> a = b.
Proof.
  assert (forall z, Z.to_int z <> Decimal.Pos Decimal.Nil /\ Z.to_int z <> Decimal.Neg Decimal.Nil) as Hn.
  { intros [|p|p]; cbn; [done | |]; split; try done; intros [= H]; by apply (DecimalPos.Unsigned.to_uint_nonnil p). }
  intros H. apply (f_equal NilZero.int_of_string) in H. unfold Itoa in H.
  rewrite !NilZero.isi in H by apply Hn. injection H as H. apply (f_equal Z.of_int) in H. by rewrite !DecimalZ.of_to in H.
Qed.

#[export] Instance scripted_lawful answers : LawfulEnvironment (scripted answers).
Proof. split; [done | | done]. intros m n H. apply Itoa_inj in H. lia. Qed.
Definition ping : Webhook :=
  mkWebhook "d1" "https://example.com/hook" "user.created" "e1" "{}" {[ "x-webhook-signature" := "forged" ]} "s3cret" (30 * Second) None.

Example ping_retried :
  let E := scripted [Answered 500 (Ok "oops"); Answered 429 (Ok ""); Answered 204 (Ok "")] in
  let '(w, (r, err)) := Send ping (mkWorld [] 0 0) in
  length (w_log w) = 3%nat /\ err = None /\ w_now w = 15 * Second /\
  r = Some (mkDeliveryResult "d1" 204 "" (15 * Second) 3 true "unexpected status code: 429" (15 * Second)).
Proof. vm_compute. auto. Qed.

Lemma signed_delivery_witness :
  Secret ping <> "" /\
  let E := scripted [] in
  exists signature, ExtractSignature (q_Header (build_request ping (mkWorld [] 0 0))) = Some signature /\
    forall secret body, VerifySignature secret body signature = true <->
      hmac (Secret ping) (q_Body (build_request ping (mkWorld [] 0 0))) = hmac secret body.
Proof. split; [discriminate|]. apply (@signed_delivery (scripted [])). discriminate. Defined.
