(* ===== verification/WebhookRepository.v ===== *)
(** Subscriptions and deliveries of webhooks: the records of
    [internal/webhook/repository/webhook_repository.go] and their memory
    implementation, [memory_repository.go].

    Every method holds the repository's lock while it runs.  Records are copied
    when they are stored and when they are handed out. *)

From Stdlib Require Import ZArith Lia.
From stdpp Require Import base strings list gmap.
From S2P Require Import Prelude GoStrings GoValue WebhookClient.

#[local] Open Scope string_scope.
#[local] Open Scope Z_scope.

(** ** Records *)
Record WebhookConfig := mkWebhookConfig {
  c_ID : string; c_URL : string; c_Events : list string; c_Secret : string; c_Headers : gmap string string;
  Active : bool; CreatedAt : Z; UpdatedAt : Z; LastDelivery : option Z; FailureCount : Z; Metadata : gmap string GoVal }.

(** A [nil] pointer, slice or map leaves its field alone. *)
Record WebhookUpdate := mkWebhookUpdate {
  u_URL : option string; u_Events : option (list string); u_Secret : option string; u_Headers : option (gmap string string);
  u_Active : option bool; u_LastDelivery : option Z; u_FailureCount : option Z; u_Metadata : option (gmap string GoVal) }.

Record WebhookFilter := mkWebhookFilter { wf_Active : option bool; wf_Limit : Z; wf_Offset : Z }.

Record WebhookDelivery := mkWebhookDelivery {
  d_ID : string; d_WebhookID : string; d_EventID : string; d_EventType : string; d_URL : string; d_StatusCode : Z;
  RequestBody : string; d_ResponseBody : string; d_Duration : Z; d_Attempts : Z; d_Success : bool; d_Error : string;
  d_DeliveredAt : Z; NextRetryAt : option Z }.

Record DeliveryFilter := mkDeliveryFilter { df_Success : option bool; df_Limit : Z; df_Offset : Z }.

Record MemoryRepository := mkRepository {
  webhooks : gmap string WebhookConfig; deliveries : gmap string WebhookDelivery }.
Definition NewMemoryRepository : MemoryRepository := mkRepository ∅ ∅.

Inductive RepoError := AlreadyExists (id : string) | WebhookNotFound (id : string) | DeliveryNotFound (id : string).

(** The repository in its environment. *)
Record State := mkState { s_world : World; s_repo : MemoryRepository }.

Section Repository.
Context {E : Environment}.

Definition set_webhooks (m : gmap string WebhookConfig) (s : State) : State :=
  mkState (s_world s) (mkRepository m (deliveries (s_repo s))).
Definition set_deliveries (m : gmap string WebhookDelivery) (s : State) : State :=
  mkState (s_world s) (mkRepository (webhooks (s_repo s)) m).

(** An operation of the environment. *)
Definition on_world {A} (f : World -> World * A) (s : State) : State * A :=
  let '(w, a) := f (s_world s) in (mkState w (s_repo s), a).

(** The values of a map in the order a [range] visits them. *)
Definition range_values {A} (m : gmap string A) (w : World) : World * list A :=
  (mkWorld (w_log w) (S (w_reads w)) (w_now w), map snd (range_order w (map_to_list m))).

(** ** Subscriptions *)
Definition CreateWebhook (c : WebhookConfig) (s : State) : State * result RepoError unit :=
  match webhooks (s_repo s) !! c_ID c with
  | Some _ => (s, Err (AlreadyExists (c_ID c)))
  | None => (set_webhooks (<[ c_ID c := c ]> (webhooks (s_repo s))) s, Ok tt)
  end.

Definition GetWebhook (id : string) (s : State) : result RepoError WebhookConfig :=
  match webhooks (s_repo s) !! id with
  | Some c => Ok c
  | None => Err (WebhookNotFound id)
  end.

(** [l[offset:]] and [l[:limit]]; zero and negative numbers do nothing. *)
Definition page {A} (offset limit : Z) (l : list A) : list A :=
  let n := Z.of_nat (length l) in
  if (0 <? offset) && (n <=? offset) then []
  else
    let l := if 0 <? offset then skipn (Z.to_nat offset) l else l in
    if (0 <? limit) && (limit <? Z.of_nat (length l)) then firstn (Z.to_nat limit) l else l.

Definition ListWebhooks (f : WebhookFilter) (s : State) : State * list WebhookConfig :=
  let '(s, l) := on_world (range_values (webhooks (s_repo s))) s in
  let keep c := match wf_Active f with Some a => Bool.eqb (Active c) a | None => true end in
  (s, page (wf_Offset f) (wf_Limit f) (List.filter keep l)).

Definition wants (eventType : string) (c : WebhookConfig) : bool :=
  Active c && match c_Events c with [] => true | es => existsb (fun et => String.eqb et eventType) es end.

Definition GetWebhooksByEvent (eventType : string) (s : State) : State * list WebhookConfig :=
  let '(s, l) := on_world (range_values (webhooks (s_repo s))) s in
  (s, List.filter (wants eventType) l).

Definition apply_update (u : WebhookUpdate) (now : Z) (c : WebhookConfig) : WebhookConfig :=
  mkWebhookConfig (c_ID c) (default (c_URL c) (u_URL u)) (default (c_Events c) (u_Events u))
    (default (c_Secret c) (u_Secret u)) (default (c_Headers c) (u_Headers u)) (default (Active c) (u_Active u))
    (CreatedAt c) now (match u_LastDelivery u with Some t => Some t | None => LastDelivery c end)
    (default (FailureCount c) (u_FailureCount u)) (default (Metadata c) (u_Metadata u)).

(** Change the stored record in place and stamp it. *)
Definition modify_webhook (id : string) (f : Z -> WebhookConfig -> WebhookConfig) (s : State) : State * result RepoError unit :=
  match webhooks (s_repo s) !! id with
  | None => (s, Err (WebhookNotFound id))
  | Some c => let '(s, now) := on_world Now s in (set_webhooks (<[ id := f now c ]> (webhooks (s_repo s))) s, Ok tt)
  end.

Definition UpdateWebhook (id : string) (u : WebhookUpdate) : State -> State * result RepoError unit :=
  modify_webhook id (apply_update u).

Definition DeleteWebhook (id : string) (s : State) : State * result RepoError unit :=
  match webhooks (s_repo s) !! id with
  | None => (s, Err (WebhookNotFound id))
  | Some _ => (set_webhooks (delete id (webhooks (s_repo s))) s, Ok tt)
  end.

Definition set_count (n : Z) (now : Z) (c : WebhookConfig) : WebhookConfig :=
  mkWebhookConfig (c_ID c) (c_URL c) (c_Events c) (c_Secret c) (c_Headers c) (Active c) (CreatedAt c) now (LastDelivery c) n (Metadata c).

Definition IncrementFailureCount (id : string) : State -> State * result RepoError unit :=
  modify_webhook id (fun now c => set_count (wrap64 (FailureCount c + 1)) now c).
Definition ResetFailureCount (id : string) : State -> State * result RepoError unit :=
  modify_webhook id (set_count 0).

(** ** Deliveries *)
Definition SaveDelivery (d : WebhookDelivery) (s : State) : State :=
  set_deliveries (<[ d_ID d := d ]> (deliveries (s_repo s))) s.

Definition GetDelivery (id : string) (s : State) : result RepoError WebhookDelivery :=
  match deliveries (s_repo s) !! id with
  | Some d => Ok d
  | None => Err (DeliveryNotFound id)
  end.

Definition ListDeliveries (webhookID : string) (f : DeliveryFilter) (s : State) : State * list WebhookDelivery :=
  let '(s, l) := on_world (range_values (deliveries (s_repo s))) s in
  let keep d := String.eqb (d_WebhookID d) webhookID &&
                match df_Success f with Some b => Bool.eqb (d_Success d) b | None => true end in
  (s, page (df_Offset f) (df_Limit f) (List.filter keep l)).

Definition due (now : Z) (d : WebhookDelivery) : bool :=
  negb (d_Success d) && match NextRetryAt d with Some t => t <=? now | None => false end.

Definition GetFailedDeliveries (limit : Z) (s : State) : State * list WebhookDelivery :=
  let '(s, now) := on_world Now s in
  let '(s, l) := on_world (range_values (deliveries (s_repo s))) s in
  let ready := List.filter (due now) l in
  (s, if 0 <? limit then firstn (Z.to_nat limit) ready else ready).

Definition set_retry (t : option Z) (d : WebhookDelivery) : WebhookDelivery :=
  mkWebhookDelivery (d_ID d) (d_WebhookID d) (d_EventID d) (d_EventType d) (d_URL d) (d_StatusCode d) (RequestBody d)
    (d_ResponseBody d) (d_Duration d) (d_Attempts d) (d_Success d) (d_Error d) (d_DeliveredAt d) t.

Definition UpdateDeliveryRetry (id : string) (nextRetryAt : Z) (s : State) : State * result RepoError unit :=
  match deliveries (s_repo s) !! id with
  | None => (s, Err (DeliveryNotFound id))
  | Some d => (set_deliveries (<[ id := set_retry (Some nextRetryAt) d ]> (deliveries (s_repo s))) s, Ok tt)
  end.

Definition DeleteOldDeliveries (before : Z) (s : State) : State * Z :=
  let old := filter (fun p : string * WebhookDelivery => d_DeliveredAt p.2 < before) (deliveries (s_repo s)) in
  (set_deliveries (filter (fun p : string * WebhookDelivery => ~ d_DeliveredAt p.2 < before) (deliveries (s_repo s))) s,
   Z.of_nat (size old)).
End Repository.

(** ** The repository's operations *)
Section Lemmas.
Context {E : Environment} {L : LawfulEnvironment E}.

Lemma on_world_spec {A} (f : World -> World * A) s :
  on_world f s = (mkState (f (s_world s)).1 (s_repo s), (f (s_world s)).2).
Proof. unfold on_world. by destruct (f (s_world s)). Qed.

(** The records are stored under their own identifiers. *)
Definition keyed (r : MemoryRepository) : Prop :=
  map_Forall (fun id c => c_ID c = id) (webhooks r) /\ map_Forall (fun id d => d_ID d = id) (deliveries r).

(** [modify_webhook] of a webhook that is there, and of one that is not. *)
Lemma modify_found id f s c : webhooks (s_repo s) !! id = Some c ->
  modify_webhook id f s =
  (mkState (Now (s_world s)).1 (mkRepository (<[ id := f (Now (s_world s)).2 c ]> (webhooks (s_repo s))) (deliveries (s_repo s))), Ok tt).
Proof. intros H. unfold modify_webhook. by rewrite H, on_world_spec. Qed.

Lemma modify_missing id f s : webhooks (s_repo s) !! id = None -> modify_webhook id f s = (s, Err (WebhookNotFound id)).
Proof. intros H. unfold modify_webhook. by rewrite H. Qed.

Lemma map_snd_perm {A} (m : gmap string A) w :
  (range_values m w).2 ≡ₚ map snd (map_to_list m).
Proof. cbn. apply Permutation_map, range_order_perm. Qed.

Lemma elem_of_range {A} (m : gmap string A) w x :
  x ∈ (range_values m w).2 <-> exists id, m !! id = Some x.
Proof.
  rewrite map_snd_perm, list_elem_of_In, in_map_iff. split.
  - intros ([id y] & <- & Hin). exists id. apply elem_of_map_to_list. by apply list_elem_of_In.
  - intros [id H]. exists (id, x). split; [done|]. apply list_elem_of_In. by apply elem_of_map_to_list.
Qed.

Lemma keyed_values_NoDup {A} (key : A -> string) (m : gmap string A) w :
  map_Forall (fun id x => key x = id) m -> NoDup (map key (range_values m w).2).
Proof.
  intros Hk. rewrite map_snd_perm, map_map.
  replace (map (fun p => key p.2) (map_to_list m)) with (map fst (map_to_list m)); [apply (NoDup_fst_map_to_list m)|].
  symmetry. apply map_ext_in. intros [id x] Hin. apply list_elem_of_In, elem_of_map_to_list in Hin. by apply (Hk id x).
Qed.

Lemma filter_NoDup_map {A B} (f : A -> B) (p : A -> bool) (l : list A) : NoDup (map f l) -> NoDup (map f (List.filter p l)).
Proof.
  induction l as [|x l IH]; cbn; [done|]. rewrite NoDup_cons. intros [Hx Hl].
  destruct (p x); [|by apply IH]. cbn. rewrite NoDup_cons. split; [|by apply IH].
  rewrite list_elem_of_In, in_map_iff in *. intros (y & Hy & Hin). apply Hx. exists y. split; [done|]. by apply filter_In in Hin as [? _].
Qed.

Lemma insert_delivery_keyed d r : keyed r -> keyed (mkRepository (webhooks r) (<[ d_ID d := d ]> (deliveries r))).
Proof. intros [Hw Hd]. split; [done|]. by apply map_Forall_insert_2. Qed.

Lemma insert_webhook_keyed c r : keyed r -> keyed (mkRepository (<[ c_ID c := c ]> (webhooks r)) (deliveries r)).
Proof. intros [Hw Hd]. split; [|done]. by apply map_Forall_insert_2. Qed.
End Lemmas.
