(* ===== verification/WebhookService.v ===== *)
(** Delivering events to webhooks: [internal/webhook/service/webhook_service.go],
    the retries of [internal/webhook/retry/retry_handler.go] and the subscriber
    of [internal/webhook/subscriber] that connects them to the event bus.

    A [State] is the memory repository in its environment.  Encoding an event
    as JSON is a parameter.  Loggers are left out, and so are the goroutine and
    the ticker of the retry handler: [ticks] runs its loop for a number of
    turns. *)

From Stdlib Require Import ZArith Lia.
From stdpp Require Import base strings list gmap.
From S2P Require Import Prelude GoStrings GoValue EventBus WebhookClient WebhookRepository.

#[local] Open Scope string_scope.
#[local] Open Scope Z_scope.

Abbreviation Event := (EventBus.Event GoVal).

(** ** The service *)
Record Config := mkConfig { MaxFailureCount : Z; DefaultTimeout : Z }.
Definition DefaultConfig : Config := mkConfig 10 (30 * Second).

Record RegisterWebhookRequest := mkRegisterRequest {
  rr_URL : string; rr_Events : list string; rr_Secret : string; rr_Headers : gmap string string; rr_Metadata : gmap string GoVal }.

Inductive ServiceError :=
| CreatingWebhook (e : RepoError) | UpdatingWebhook (e : RepoError) | DeletingWebhook (e : RepoError)
| MarshalingEvent (e : string) | GettingDelivery (e : RepoError) | GettingWebhook (e : RepoError)
| WebhookDisabled (id : string) | DisablingWebhook (e : RepoError) | SendFailed (e : string).

Section Service.
Context {E : Environment}.
(** [json.Marshal] of an event. *)
Variable marshal : Event -> result string string.

Definition map_err {A} (f : RepoError -> ServiceError) (r : result RepoError A) : result ServiceError A :=
  match r with Ok a => Ok a | Err e => Err (f e) end.

Definition RegisterWebhook (req : RegisterWebhookRequest) (s : State) : State * result ServiceError string :=
  let '(s, webhookID) := on_world NewUUID s in
  let '(s, now) := on_world Now s in
  let '(s, r) := CreateWebhook (mkWebhookConfig webhookID (rr_URL req) (rr_Events req) (rr_Secret req) (rr_Headers req)
                                  true now now None 0 (rr_Metadata req)) s in
  match r with
  | Err e => (s, Err (CreatingWebhook e))
  | Ok _ => (s, Ok webhookID)
  end.

Definition no_update : WebhookUpdate := mkWebhookUpdate None None None None None None None None.

(** The request has no field for the last delivery and the failure count. *)
Record UpdateWebhookRequest := mkUpdateRequest {
  ur_URL : option string; ur_Events : option (list string); ur_Secret : option string; ur_Headers : option (gmap string string);
  ur_Active : option bool; ur_Metadata : option (gmap string GoVal) }.
Definition service_UpdateWebhook (id : string) (req : UpdateWebhookRequest) (s : State) : State * result ServiceError unit :=
  let '(s, r) := UpdateWebhook id (mkWebhookUpdate (ur_URL req) (ur_Events req) (ur_Secret req) (ur_Headers req) (ur_Active req)
                                     None None (ur_Metadata req)) s in
  (s, map_err UpdatingWebhook r).

Definition service_DeleteWebhook (id : string) (s : State) : State * result ServiceError unit :=
  let '(s, r) := DeleteWebhook id s in (s, map_err DeletingWebhook r).

Definition DisableWebhook (id : string) (s : State) : State * result ServiceError unit :=
  let '(s, r) := UpdateWebhook id (mkWebhookUpdate None None None None (Some false) None None None) s in
  (s, map_err DisablingWebhook r).

(** What a delivery records of the result of sending it. *)
Definition record_result (res : option DeliveryResult) (err : option string) (bump : Z) (d : WebhookDelivery) : WebhookDelivery :=
  match res, err with
  | Some r, _ =>
      mkWebhookDelivery (d_ID d) (d_WebhookID d) (d_EventID d) (d_EventType d) (d_URL d) (StatusCode r) (RequestBody d)
        (ResponseBody r) (Duration r) (Attempts r) (Success r) (Error r) (d_DeliveredAt d) (NextRetryAt d)
  | None, Some e =>
      mkWebhookDelivery (d_ID d) (d_WebhookID d) (d_EventID d) (d_EventType d) (d_URL d) (d_StatusCode d) (RequestBody d)
        (d_ResponseBody d) (d_Duration d) (wrap64 (d_Attempts d + bump)) (d_Success d) e (d_DeliveredAt d) (NextRetryAt d)
  | None, None => d
  end.

Definition the_webhook (cfg : Config) (c : WebhookConfig) (id eventType eventID payload : string) : Webhook :=
  mkWebhook id (c_URL c) eventType eventID payload (c_Headers c) (c_Secret c) (DefaultTimeout cfg) None.

(** Send, and make the record of the attempt. *)
Definition attempt (cfg : Config) (c : WebhookConfig) (id eventType eventID payload : string) (s : State)
  : State * (WebhookDelivery * option string) :=
  let '(s, (res, err)) := on_world (Send (the_webhook cfg c id eventType eventID payload)) s in
  let '(s, now) := on_world Now s in
  (s, (record_result res err 0 (mkWebhookDelivery id (c_ID c) eventID eventType (c_URL c) 0 payload "" 0 0 false "" now None), err)).

Definition count_success (id : string) (now : Z) (s : State) : State :=
  let s := (ResetFailureCount id s).1 in
  (UpdateWebhook id (mkWebhookUpdate None None None None None (Some now) None None) s).1.

Definition count_failure (cfg : Config) (id : string) (s : State) : State :=
  let s := (IncrementFailureCount id s).1 in
  match GetWebhook id s with
  | Ok c => if MaxFailureCount cfg <=? FailureCount c then (DisableWebhook id s).1 else s
  | Err _ => s
  end.

Definition backoff_time (attempts : Z) (s : State) : State * Z :=
  let '(s, now) := on_world Now s in (s, now + CalculateBackoff DefaultRetryPolicy attempts).

Definition deliverToWebhook (cfg : Config) (c : WebhookConfig) (event : Event) (payload : string) (s : State)
  : State * option string :=
  let '(s, deliveryID) := on_world NewUUID s in
  let '(s, (delivery, err)) := attempt cfg c deliveryID (ev_Type _ event) (EventBus.ID _ event) payload s in
  let s := SaveDelivery delivery s in
  let '(s, now) := on_world Now s in
  if d_Success delivery then (count_success (c_ID c) now s, err)
  else
    let s := count_failure cfg (c_ID c) s in
    let '(s, nextRetryAt) := backoff_time (d_Attempts delivery) s in
    ((UpdateDeliveryRetry deliveryID nextRetryAt s).1, err).

(** Failures are logged, and the loop goes on. *)
Fixpoint deliver_all (cfg : Config) (l : list WebhookConfig) (event : Event) (payload : string) (s : State) : State :=
  match l with
  | [] => s
  | c :: l' => deliver_all cfg l' event payload (deliverToWebhook cfg c event payload s).1
  end.

Definition DeliverWebhooksForEvent (cfg : Config) (event : Event) (s : State) : State * result ServiceError unit :=
  let '(s, l) := GetWebhooksByEvent (ev_Type _ event) s in
  match l with
  | [] => (s, Ok tt)
  | _ =>
      match marshal event with
      | Err e => (s, Err (MarshalingEvent e))
      | Ok payload => (deliver_all cfg l event payload s, Ok tt)
      end
  end.

Definition set_delivered (now : Z) (d : WebhookDelivery) : WebhookDelivery :=
  mkWebhookDelivery (d_ID d) (d_WebhookID d) (d_EventID d) (d_EventType d) (d_URL d) (d_StatusCode d) (RequestBody d)
    (d_ResponseBody d) (d_Duration d) (d_Attempts d) (d_Success d) (d_Error d) now (NextRetryAt d).

Definition RetryFailedWebhook (cfg : Config) (deliveryID : string) (s : State) : State * result ServiceError unit :=
  match GetDelivery deliveryID s with
  | Err e => (s, Err (GettingDelivery e))
  | Ok delivery =>
      match GetWebhook (d_WebhookID delivery) s with
      | Err e => (s, Err (GettingWebhook e))
      | Ok c =>
          if negb (Active c) then (s, Err (WebhookDisabled (c_ID c)))
          else
            let wh := the_webhook cfg c (d_ID delivery) (d_EventType delivery) (d_EventID delivery) (RequestBody delivery) in
            let '(s, (res, sendErr)) := on_world (Send wh) s in
            let delivery := record_result res sendErr 1 delivery in
            let '(s, now) := on_world Now s in
            let delivery := set_delivered now delivery in
            let '(s, delivery) :=
              if d_Success delivery then (s, set_retry None delivery)
              else if d_Attempts delivery <? MaxAttempts DefaultRetryPolicy then
                let '(s, nextRetryAt) := backoff_time (d_Attempts delivery) s in (s, set_retry (Some nextRetryAt) delivery)
              else (s, set_retry None delivery) in
            (SaveDelivery delivery s, match sendErr with Some e => Err (SendFailed e) | None => Ok tt end)
      end
  end.

Definition SendTestWebhook (cfg : Config) (webhookID : string) (s : State)
  : State * result ServiceError (WebhookDelivery * option string) :=
  match GetWebhook webhookID s with
  | Err e => (s, Err (GettingWebhook e))
  | Ok c =>
      let '(s, eventID) := on_world NewUUID s in
      let '(s, now) := on_world Now s in
      let testEvent := EventBus.mkEvent GoVal eventID "webhook.test" "codeai.webhook.test" now
        {[ "test" := VBool true; "message" := VString "This is a test webhook delivery from CodeAI" ]} {[ "test" := "true" ]} in
      match marshal testEvent with
      | Err e => (s, Err (MarshalingEvent e))
      | Ok payload =>
          let '(s, deliveryID) := on_world NewUUID s in
          let '(s, (delivery, sendErr)) := attempt cfg c deliveryID "webhook.test" eventID payload s in
          (SaveDelivery delivery s, Ok (delivery, sendErr))
      end
  end.

(** ** Retries *)
Record HandlerConfig := mkHandlerConfig { CheckInterval : Z; BatchSize : Z; MaxRetries : Z }.
Definition DefaultHandlerConfig : HandlerConfig := mkHandlerConfig Minute 100 5.

Definition clearRetry (deliveryID : string) (s : State) : State :=
  match GetDelivery deliveryID s with
  | Ok d => SaveDelivery (set_retry None d) s
  | Err _ => s
  end.

(** One delivery of the batch; the flag says that the context is done. *)
Definition process_one (cfg : Config) (rc : HandlerConfig) (d : WebhookDelivery) (s : State) : State * bool :=
  if MaxRetries rc <=? d_Attempts d then (clearRetry (d_ID d) s, false)
  else match GetWebhook (d_WebhookID d) s with
       | Err _ => (s, false)
       | Ok c =>
           if negb (Active c) then (clearRetry (d_ID d) s, false)
           else
             let s := (RetryFailedWebhook cfg (d_ID d) s).1 in
             let '(s, done) := on_world select_done s in
             (s, match done with Some _ => true | None => false end)
       end.

Fixpoint process_batch (cfg : Config) (rc : HandlerConfig) (l : list WebhookDelivery) (s : State) : State :=
  match l with
  | [] => s
  | d :: l' => match process_one cfg rc d s with
               | (s, true) => s
               | (s, false) => process_batch cfg rc l' s
               end
  end.

Definition processRetries (cfg : Config) (rc : HandlerConfig) (s : State) : State :=
  let '(s, failures) := GetFailedDeliveries (BatchSize rc) s in process_batch cfg rc failures s.

(** The loop of [run]: the ticker fires one interval after the work is done. *)
Definition wait_tick (rc : HandlerConfig) (s : State) : State :=
  let w := s_world s in mkState (mkWorld (w_log w) (w_reads w) (w_now w + CheckInterval rc)) (s_repo s).
Fixpoint ticks (cfg : Config) (rc : HandlerConfig) (n : nat) (s : State) : State :=
  match n with
  | O => s
  | S n' => processRetries cfg rc (wait_tick rc (ticks cfg rc n' s))
  end.

(** ** The subscriber *)
Definition default_event_types : list string :=
  ["workflow.started"; "workflow.completed"; "workflow.failed"; "job.enqueued"; "job.started"; "job.completed"; "job.failed";
   "agent.executed"; "test.suite.completed"].

Definition subscriber_Handle (cfg : Config) (event : Event) (s : State) : State * option ServiceError :=
  match DeliverWebhooksForEvent cfg event s with
  | (s, Ok _) => (s, None)
  | (s, Err e) => (s, Some e)
  end.

Definition RegisterWithBus {Sub : Type} (sub : Sub) (eventTypes : list string) (eb : EventBus.EventBus Sub) : EventBus.EventBus Sub :=
  fold_left (fun eb t => Subscribe _ t sub eb) eventTypes eb.
Definition UnregisterFromBus {Sub : Type} (sub : Sub) (eventTypes : list string) (eb : EventBus.EventBus Sub) : EventBus.EventBus Sub :=
  fold_left (fun eb t => Unsubscribe _ t sub eb) eventTypes eb.

(** ** What a delivery does to the repository *)
Definition same_subscription (c c' : WebhookConfig) : Prop :=
  c_ID c' = c_ID c /\ c_URL c' = c_URL c /\ c_Events c' = c_Events c /\ c_Secret c' = c_Secret c /\
  c_Headers c' = c_Headers c /\ CreatedAt c' = CreatedAt c /\ Metadata c' = Metadata c.

(** A success starts the count of failures afresh; a failure adds one, and at the
    limit the webhook is disabled. *)
Definition health (cfg : Config) (ok : bool) (c c' : WebhookConfig) : Prop :=
  FailureCount c' = (if ok then 0 else wrap64 (FailureCount c + 1)) /\
  Active c' = Active c && (ok || (FailureCount c' <? MaxFailureCount cfg)).

(** The record of sending [event] to [c]; a failure is due for a retry. *)
Definition record_of (event : Event) (payload : string) (c : WebhookConfig) (d : WebhookDelivery) : Prop :=
  d_WebhookID d = c_ID c /\ d_EventID d = EventBus.ID _ event /\ d_EventType d = ev_Type _ event /\ d_URL d = c_URL c /\
  RequestBody d = payload /\ (NextRetryAt d = None <-> d_Success d = true).

Context {L : LawfulEnvironment E}.

Lemma count_success_effect id now s c : webhooks (s_repo s) !! id = Some c ->
  exists c', s_repo (count_success id now s) = mkRepository (<[ id := c' ]> (webhooks (s_repo s))) (deliveries (s_repo s)) /\
    later (s_world s) (s_world (count_success id now s)) /\ same_subscription c c' /\ forall cfg, health cfg true c c'.
Proof.
  intros H. unfold count_success, ResetFailureCount, UpdateWebhook. rewrite (modify_found _ _ _ _ H). cbn [fst].
  erewrite modify_found by (cbn; apply lookup_insert_eq). cbn [fst s_repo s_world webhooks deliveries]. rewrite insert_insert_eq.
  eexists. split; [done|]. split; [etransitivity; apply Now_later|]. split; [done|].
  intros cfg. unfold health. cbn. by rewrite andb_true_r.
Qed.

Lemma count_failure_effect cfg id s c : webhooks (s_repo s) !! id = Some c ->
  exists c', s_repo (count_failure cfg id s) = mkRepository (<[ id := c' ]> (webhooks (s_repo s))) (deliveries (s_repo s)) /\
    later (s_world s) (s_world (count_failure cfg id s)) /\ same_subscription c c' /\ health cfg false c c'.
Proof.
  intros H. unfold count_failure, IncrementFailureCount. rewrite (modify_found _ _ _ _ H). cbn [fst].
  unfold GetWebhook. cbn [s_repo webhooks]. rewrite lookup_insert_eq. cbn [FailureCount set_count].
  destruct (Z.leb_spec (MaxFailureCount cfg) (wrap64 (FailureCount c + 1))) as [Hle|Hlt].
  - unfold DisableWebhook, UpdateWebhook. erewrite modify_found by (cbn; apply lookup_insert_eq).
    cbn [fst s_repo s_world webhooks deliveries]. rewrite insert_insert_eq.
    eexists. split; [done|]. split; [etransitivity; apply Now_later|]. split; [done|]. unfold health. cbn.
    split; [done|]. destruct (Z.ltb_spec (wrap64 (FailureCount c + 1)) (MaxFailureCount cfg)); [lia|]. by rewrite andb_false_r.
  - eexists. split; [done|]. split; [apply Now_later|]. split; [done|]. unfold health. cbn.
    split; [done|]. destruct (Z.ltb_spec (wrap64 (FailureCount c + 1)) (MaxFailureCount cfg)); [|lia]. by rewrite andb_true_r.
Qed.

Lemma attempt_effect cfg c id ty eid payload s :
  let '(s', (d, err)) := attempt cfg c id ty eid payload s in
  s_repo s' = s_repo s /\ later (s_world s) (s_world s') /\
  d_ID d = id /\ d_WebhookID d = c_ID c /\ d_EventID d = eid /\ d_EventType d = ty /\ d_URL d = c_URL c /\
  RequestBody d = payload /\ NextRetryAt d = None.
Proof.
  unfold attempt. rewrite on_world_spec. pose proof (Send_later (the_webhook cfg c id ty eid payload) (s_world s)) as Hs.
  destruct (Send _ (s_world s)) as [w [res err]]. cbn [fst snd] in *. rewrite on_world_spec. cbn [s_world s_repo fst snd].
  split; [done|]. split; [etransitivity; [exact Hs | apply Now_later]|]. by destruct res, err.
Qed.

Lemma deliver_effect cfg c event payload s : webhooks (s_repo s) !! c_ID c = Some c ->
  let s' := (deliverToWebhook cfg c event payload s).1 in
  exists d c', d_ID d = new_uuid (w_reads (s_world s)) /\ record_of event payload c d /\
    s_repo s' = mkRepository (<[ c_ID c := c' ]> (webhooks (s_repo s))) (<[ d_ID d := d ]> (deliveries (s_repo s))) /\
    later (s_world s) (s_world s') /\ (w_reads (s_world s) < w_reads (s_world s'))%nat /\
    same_subscription c c' /\ health cfg (d_Success d) c c'.
Proof.
  intros H. unfold deliverToWebhook. rewrite on_world_spec. cbn [NewUUID fst snd].
  set (id := new_uuid _). set (s1 := mkState _ _).
  assert (later (s_world s) (s_world s1) /\ (w_reads (s_world s) < w_reads (s_world s1))%nat) as [H1 Hlt].
  { split; [by apply read_later | cbn; lia]. }
  pose proof (attempt_effect cfg c id (ev_Type _ event) (EventBus.ID _ event) payload s1) as Ha.
  destruct (attempt _ _ _ _ _ _ _) as [s2 [d err]]. destruct Ha as (Hr & Hl & Hid & Hd1 & Hd2 & Hd3 & Hd4 & Hd5 & Hd6).
  rewrite on_world_spec. set (s3 := mkState _ _).
  assert (s_repo s3 = mkRepository (webhooks (s_repo s)) (<[ id := d ]> (deliveries (s_repo s)))) as Hr3.
  { cbn. by rewrite Hid, Hr. }
  assert (later (s_world s) (s_world s3) /\ (w_reads (s_world s) < w_reads (s_world s3))%nat) as [H3 Hlt3].
  { assert (later (s_world s1) (s_world s3)) as H13 by (etransitivity; [exact Hl | apply Now_later]).
    split; [by etransitivity | destruct H13; lia]. }
  assert (webhooks (s_repo s3) !! c_ID c = Some c) as Hc by (by rewrite Hr3).
  destruct (d_Success d) eqn:Hok.
  - destruct (count_success_effect (c_ID c) (Now (s_world (SaveDelivery d s2))).2 s3 c Hc) as (c' & Hs' & Hl' & Hsame & Hh).
    exists d, c'. cbn [fst]. rewrite Hs', Hr3, Hok. unfold record_of. rewrite Hid, Hok, Hd6.
    split; [done|]. split; [done|]. split; [done|]. split; [by etransitivity|]. split; [destruct Hl'; lia|]. done.
  - destruct (count_failure_effect cfg (c_ID c) s3 c Hc) as (c' & Hs' & Hl' & Hsame & Hh).
    unfold backoff_time. rewrite on_world_spec. cbn [fst]. unfold UpdateDeliveryRetry. cbn [s_repo].
    rewrite Hs', Hr3. cbn [deliveries webhooks]. rewrite lookup_insert_eq. cbn [fst set_deliveries s_world s_repo webhooks deliveries].
    rewrite insert_insert_eq. eexists (set_retry (Some _) d), c'. unfold record_of. cbn [d_ID set_retry d_WebhookID d_EventID d_EventType d_URL RequestBody NextRetryAt d_Success].
    split; [exact Hid|]. split; [do 5 (split; [assumption|]); by rewrite Hok|]. split; [by rewrite Hid|].
    assert (later (s_world s3) (Now (s_world (count_failure cfg (c_ID c) s3))).1) as Hn by (etransitivity; [exact Hl' | apply Now_later]).
    split; [by etransitivity|]. split; [destruct Hn; lia|]. by rewrite Hok.
Qed.

(** Identifiers of deliveries come from the environment. *)
Definition fresh (s : State) : Prop :=
  map_Forall (fun id _ => exists n, (n < w_reads (s_world s))%nat /\ id = new_uuid n) (deliveries (s_repo s)).

Lemma fresh_unused s : fresh s -> deliveries (s_repo s) !! new_uuid (w_reads (s_world s)) = None.
Proof.
  intros Hf. apply eq_None_not_Some. intros [d Hd]. destruct (Hf _ _ Hd) as (n & Hn & He). apply new_uuid_inj in He. lia.
Qed.

(** Every webhook of the list has one new record, and its health follows it. *)
Definition delivered (cfg : Config) (event : Event) (payload : string) (l : list WebhookConfig) (recs : list WebhookDelivery) (s s' : State) : Prop :=
  Forall2 (fun c d => record_of event payload c d /\
             exists c', webhooks (s_repo s') !! c_ID c = Some c' /\ same_subscription c c' /\ health cfg (d_Success d) c c') l recs /\
  (forall id, id ∉ map c_ID l -> webhooks (s_repo s') !! id = webhooks (s_repo s) !! id) /\
  NoDup (map d_ID recs) /\ Forall (fun d => deliveries (s_repo s) !! d_ID d = None) recs /\
  deliveries (s_repo s') = list_to_map (map (fun d => (d_ID d, d)) recs) ∪ deliveries (s_repo s).

Lemma list_to_map_records (recs : list WebhookDelivery) id : id ∉ map d_ID recs ->
  (list_to_map (map (fun d => (d_ID d, d)) recs) : gmap string WebhookDelivery) !! id = None.
Proof.
  intros H. apply not_elem_of_list_to_map_1. intros Hin. apply H. apply list_elem_of_fmap_1 in Hin as ([i d] & -> & Hd).
  apply list_elem_of_fmap_1 in Hd as (d' & [= -> ->] & Hd'). change (d_ID d' ∈ d_ID <$> recs). by apply list_elem_of_fmap_2.
Qed.

Lemma deliver_all_effect cfg event payload l : forall s,
  NoDup (map c_ID l) -> Forall (fun c => webhooks (s_repo s) !! c_ID c = Some c) l -> fresh s ->
  let s' := deliver_all cfg l event payload s in
  later (s_world s) (s_world s') /\ fresh s' /\ exists recs, delivered cfg event payload l recs s s'.
Proof.
  induction l as [|c l IH]; intros s Hnd Hl Hf; cbn [deliver_all].
  { split; [done|]. split; [done|]. exists []. unfold delivered. cbn. rewrite (left_id_L ∅ (∪)). repeat constructor. }
  apply NoDup_cons in Hnd as [Hc Hnd]. apply Forall_cons in Hl as [Hlc Hl].
  destruct (deliver_effect cfg c event payload s Hlc) as (d & c' & Hid & Hrec & Hr & Hlat & Hlt & Hsame & Hh).
  set (s1 := (deliverToWebhook cfg c event payload s).1) in *.
  assert (deliveries (s_repo s) !! d_ID d = None) as Hun by (rewrite Hid; by apply fresh_unused).
  assert (forall id, id <> c_ID c -> webhooks (s_repo s1) !! id = webhooks (s_repo s) !! id) as Hw1
    by (intros id Hne; rewrite Hr; cbn; by rewrite lookup_insert_ne).
  destruct (IH s1 Hnd) as (Hlat' & Hf' & recs & Hall & Hother & Hnd' & Hold & Hdel).
  - apply Forall_forall. intros x Hx. pose proof (proj1 (Forall_forall _ _) Hl x Hx) as Hx'.
    rewrite Hw1; [done|]. intros He. apply Hc. rewrite <-He. apply list_elem_of_In, in_map. by apply list_elem_of_In.
  - unfold fresh. rewrite Hr. cbn [deliveries]. apply map_Forall_insert_2; [rewrite Hid; eauto|].
    intros id x Hx. destruct (Hf _ _ Hx) as (n & Hn & ->). exists n. split; [lia | done].
  - split; [by etransitivity|]. split; [done|]. exists (d :: recs).
    assert (d_ID d ∉ map d_ID recs) as Hnew.
    { intros Hin. apply list_elem_of_fmap_1 in Hin as (d' & He & Hin). apply (proj1 (Forall_forall _ _) Hold) in Hin.
      rewrite Hr in Hin. cbn [deliveries] in Hin. rewrite <-He, lookup_insert_eq in Hin. done. }
    split; [|split; [|split; [|split]]].
    + constructor; [|done]. split; [done|]. exists c'. rewrite (Hother _ Hc), Hr. cbn. rewrite lookup_insert_eq. done.
    + intros id Hnin. apply not_elem_of_cons in Hnin as [Hne Hnin]. by rewrite Hother, Hw1.
    + cbn. by apply NoDup_cons.
    + constructor; [done|]. apply (Forall_impl _ _ _ Hold). intros x Hx. rewrite Hr in Hx. cbn [deliveries] in Hx.
      by apply lookup_insert_None in Hx as [Hx _].
    + rewrite Hdel, Hr. cbn [deliveries map list_to_map foldr]. rewrite <-insert_union_r by by apply list_to_map_records.
      cbn. by rewrite insert_union_l.
Qed.

Lemma DeliverWebhooksForEvent_effect cfg event payload s :
  marshal event = Ok payload -> keyed (s_repo s) -> fresh s ->
  let s' := (DeliverWebhooksForEvent cfg event s).1 in
  (DeliverWebhooksForEvent cfg event s).2 = Ok tt /\ fresh s' /\ later (s_world s) (s_world s') /\
  exists l recs, NoDup (map c_ID l) /\
    (forall c, c ∈ l <-> webhooks (s_repo s) !! c_ID c = Some c /\ wants (ev_Type _ event) c = true) /\
    delivered cfg event payload l recs s s'.
Proof.
  intros Hm [Hkw Hkd] Hf. unfold DeliverWebhooksForEvent, GetWebhooksByEvent. rewrite on_world_spec.
  set (s1 := mkState _ _). set (l := List.filter _ _).
  assert (NoDup (map c_ID l)) as Hnd by (apply filter_NoDup_map; by apply keyed_values_NoDup).
  assert (forall c, c ∈ l <-> webhooks (s_repo s) !! c_ID c = Some c /\ wants (ev_Type _ event) c = true) as Hin.
  { intros c. unfold l. rewrite list_elem_of_In, filter_In, <-list_elem_of_In, elem_of_range. split.
    - intros [[id Hc] Hs]. pose proof (Hkw _ _ Hc) as Hid. cbn in Hid. subst id. done.
    - intros [Hc Hs]. split; [by exists (c_ID c) | done]. }
  assert (later (s_world s) (s_world s1)) as H1 by by apply read_later.
  assert (fresh s1) as Hf1.
  { intros id x Hx. destruct (Hf _ _ Hx) as (n & Hn & ->). exists n. cbn. split; [lia | done]. }
  destruct (deliver_all_effect cfg event payload l s1 Hnd) as (Hlat & Hf' & recs & Hdel); [|done|].
  { apply Forall_forall. intros c Hc. by apply Hin in Hc as [? _]. }
  assert ((match l with [] => (s1, Ok tt) | _ => match marshal event with Err e => (s1, Err (MarshalingEvent e)) | Ok p => (deliver_all cfg l event p s1, Ok tt) end end)
    = (deliver_all cfg l event payload s1, Ok tt : result ServiceError unit)) as ->.
  { rewrite Hm. by destruct l. }
  cbn [fst snd]. split; [done|]. split; [done|]. split; [by etransitivity|]. exists l, recs. done.
Qed.

(** ** Sequences of operations *)
Inductive ServiceOp :=
| OpRegister (req : RegisterWebhookRequest) | OpUpdate (id : string) (req : UpdateWebhookRequest) | OpDelete (id : string)
| OpDisable (id : string) | OpDeliver (event : Event) | OpRetry (id : string) | OpTest (id : string) | OpProcess (rc : HandlerConfig).

Definition run_op (cfg : Config) (s : State) (o : ServiceOp) : State :=
  match o with
  | OpRegister req => (RegisterWebhook req s).1
  | OpUpdate id req => (service_UpdateWebhook id req s).1
  | OpDelete id => (service_DeleteWebhook id s).1
  | OpDisable id => (DisableWebhook id s).1
  | OpDeliver event => (DeliverWebhooksForEvent cfg event s).1
  | OpRetry id => (RetryFailedWebhook cfg id s).1
  | OpTest id => (SendTestWebhook cfg id s).1
  | OpProcess rc => processRetries cfg rc s
  end.
Definition run_ops (cfg : Config) (ops : list ServiceOp) (s : State) : State := fold_left (run_op cfg) ops s.

(** Nobody switches a webhook on again by hand. *)
Definition no_reactivation (o : ServiceOp) : bool :=
  match o with OpUpdate _ req => match ur_Active req with Some true => false | _ => true end | _ => true end.

Section Health.
Variable cfg : Config.
Hypothesis limit : 0 < MaxFailureCount cfg <= int64_max.

Definition healthy (id : string) (c : WebhookConfig) : Prop :=
  c_ID c = id /\ (Active c = true -> 0 <= FailureCount c < MaxFailureCount cfg).
Definition all_healthy (s : State) : Prop := map_Forall healthy (webhooks (s_repo s)).

Lemma modify_healthy id f s : (forall now c, healthy id c -> healthy id (f now c)) ->
  all_healthy s -> all_healthy (modify_webhook id f s).1.
Proof.
  intros Hf Hs. destruct (webhooks (s_repo s) !! id) as [c|] eqn:Hc.
  - rewrite (modify_found _ _ _ _ Hc). cbn. apply map_Forall_insert_2; [|done]. apply Hf. by apply Hs.
  - by rewrite modify_missing.
Qed.

Lemma update_healthy id u s : u_FailureCount u = None -> u_Active u <> Some true ->
  all_healthy s -> all_healthy (UpdateWebhook id u s).1.
Proof.
  intros Hn Ha. apply modify_healthy. intros now c [Hid Hc]. split; [done|]. unfold apply_update. cbn. rewrite Hn.
  destruct (u_Active u) as [[]|]; cbn; [done | done | exact Hc].
Qed.

Lemma health_healthy id ok c c' : same_subscription c c' -> health cfg ok c c' -> healthy id c -> healthy id c'.
Proof.
  intros (Hid & _) [Hn Ha] [Hk Hc]. split; [congruence|]. rewrite Ha. intros [HA Hcase]%andb_true_iff. specialize (Hc HA).
  destruct ok; cbn in Hcase; [lia|]. apply Z.ltb_lt in Hcase. rewrite wrap64_small in Hn; [lia|].
  unfold in_int64. rewrite andb_true_iff, !Z.leb_le. unfold int64_min, int64_max in *. lia.
Qed.

Lemma count_success_healthy id now s : all_healthy s -> all_healthy (count_success id now s).
Proof.
  intros Hs. unfold count_success. apply update_healthy; [done | done |].
  apply modify_healthy; [|done]. intros t c [Hid Hc]. split; [done|]. cbn. lia.
Qed.

Lemma count_failure_healthy id s : all_healthy s -> all_healthy (count_failure cfg id s).
Proof.
  intros Hs. destruct (webhooks (s_repo s) !! id) as [c|] eqn:Hc.
  - destruct (count_failure_effect cfg id s c Hc) as (c' & Hr & _ & Hsame & Hh). unfold all_healthy. rewrite Hr. cbn [webhooks].
    apply map_Forall_insert_2; [|done]. eapply health_healthy; [exact Hsame | exact Hh | by apply Hs].
  - unfold count_failure, IncrementFailureCount. rewrite modify_missing by done. unfold GetWebhook. cbn [fst]. by rewrite Hc.
Qed.

(** Saving, scheduling and sending leave the subscriptions alone. *)
Lemma attempt_repo c id ty eid payload s : s_repo (attempt cfg c id ty eid payload s).1 = s_repo s.
Proof.
  pose proof (attempt_effect cfg c id ty eid payload s) as H. destruct (attempt _ _ _ _ _ _ _) as [s' [d err]]. apply H.
Qed.

Lemma deliver_healthy c event payload s : all_healthy s -> all_healthy (deliverToWebhook cfg c event payload s).1.
Proof.
  intros Hs. unfold deliverToWebhook. rewrite on_world_spec. cbn [fst snd]. set (s1 := mkState _ _).
  pose proof (attempt_repo c (NewUUID (s_world s)).2 (ev_Type _ event) (EventBus.ID _ event) payload s1) as Hr.
  destruct (attempt _ _ _ _ _ _ _) as [s2 [d err]]. cbn [fst] in Hr. rewrite on_world_spec. set (s3 := mkState _ _).
  assert (all_healthy s3) as H3 by (unfold all_healthy; cbn; by rewrite Hr).
  destruct (d_Success d).
  - by apply count_success_healthy.
  - apply (count_failure_healthy (c_ID c)) in H3. unfold backoff_time. rewrite on_world_spec. cbn [fst snd]. unfold UpdateDeliveryRetry.
    cbn [s_repo]. by destruct (deliveries _ !! _).
Qed.

Lemma deliver_all_healthy l event payload : forall s, all_healthy s -> all_healthy (deliver_all cfg l event payload s).
Proof. induction l as [|c l IH]; intros s Hs; [done|]. apply IH. by apply deliver_healthy. Qed.

Lemma retry_webhooks id s : webhooks (s_repo (RetryFailedWebhook cfg id s).1) = webhooks (s_repo s).
Proof.
  unfold RetryFailedWebhook. destruct (GetDelivery id s) as [d|]; [|done]. destruct (GetWebhook (d_WebhookID d) s) as [c|]; [|done].
  destruct (negb (Active c)); [done|]. rewrite on_world_spec. destruct (Send _ _) as [w [res err]]. cbn [fst snd].
  rewrite on_world_spec. cbn [fst snd s_world s_repo]. destruct (d_Success _); [done|]. destruct (_ <? _); [|done].
  unfold backoff_time. by rewrite on_world_spec.
Qed.

Lemma clearRetry_webhooks id s : webhooks (s_repo (clearRetry id s)) = webhooks (s_repo s).
Proof. unfold clearRetry. by destruct (GetDelivery id s). Qed.

Lemma process_one_webhooks rc d s : webhooks (s_repo (process_one cfg rc d s).1) = webhooks (s_repo s).
Proof.
  unfold process_one. destruct (_ <=? _); [apply clearRetry_webhooks|]. destruct (GetWebhook _ s) as [c|]; [|done].
  destruct (negb (Active c)); [apply clearRetry_webhooks|]. rewrite on_world_spec. cbn. apply retry_webhooks.
Qed.

Lemma process_batch_webhooks rc l : forall s, webhooks (s_repo (process_batch cfg rc l s)) = webhooks (s_repo s).
Proof.
  induction l as [|d l IH]; intros s; cbn; [done|]. pose proof (process_one_webhooks rc d s) as H.
  destruct (process_one cfg rc d s) as [s' []]; [done|]. by rewrite IH.
Qed.

Lemma processRetries_webhooks rc s : webhooks (s_repo (processRetries cfg rc s)) = webhooks (s_repo s).
Proof. unfold processRetries, GetFailedDeliveries. rewrite !on_world_spec. by rewrite process_batch_webhooks. Qed.

Lemma test_webhooks id s : webhooks (s_repo (SendTestWebhook cfg id s).1) = webhooks (s_repo s).
Proof.
  unfold SendTestWebhook. destruct (GetWebhook id s) as [c|]; [|done]. rewrite !on_world_spec. cbn [fst snd].
  destruct (marshal _) as [p|]; [|done].
  match goal with |- context [attempt cfg c ?i ?t ?e p ?s] => pose proof (attempt_repo c i t e p s) as H; destruct (attempt cfg c i t e p s) as [s' [d err]] end.
  cbn in *. by rewrite H.
Qed.

Lemma run_op_healthy o s : no_reactivation o = true -> all_healthy s -> all_healthy (run_op cfg s o).
Proof.
  intros Ho Hs. destruct o; cbn [run_op].
  - unfold RegisterWebhook. rewrite !on_world_spec. cbn [fst snd]. unfold CreateWebhook. cbn [c_ID s_repo].
    destruct (webhooks (s_repo s) !! _); [done|]. apply map_Forall_insert_2; [|done]. split; [done|]. cbn. lia.
  - unfold service_UpdateWebhook. match goal with |- context [UpdateWebhook id ?u s] => pose proof (update_healthy id u s) as H; destruct (UpdateWebhook id u s) end.
    apply H; [done | | done]. cbn in *. by destruct (ur_Active req) as [[]|].
  - unfold service_DeleteWebhook, DeleteWebhook. destruct (webhooks (s_repo s) !! id); [|done]. by apply map_Forall_delete.
  - unfold DisableWebhook. match goal with |- context [UpdateWebhook id ?u s] => pose proof (update_healthy id u s) as H; destruct (UpdateWebhook id u s) end.
    by apply H.
  - unfold DeliverWebhooksForEvent, GetWebhooksByEvent. rewrite on_world_spec. set (l := List.filter _ _). clearbody l.
    destruct l as [|c l]; [done|]. destruct (marshal event); [|done]. by apply (deliver_all_healthy (c :: l)).
  - unfold all_healthy. by rewrite retry_webhooks.
  - unfold all_healthy. by rewrite test_webhooks.
  - unfold all_healthy. by rewrite processRetries_webhooks.
Qed.

Lemma run_ops_healthy ops : forall s, Forall (fun o => no_reactivation o = true) ops -> all_healthy s -> all_healthy (run_ops cfg ops s).
Proof.
  induction ops as [|o ops IH]; intros s Ho Hs; [done|]. apply Forall_cons in Ho as [Ho Hos]. apply (IH (run_op cfg s o) Hos).
  by apply run_op_healthy.
Qed.
End Health.

(** ** Deliveries refused by the client *)
Section Refused.
Variables (cfg : Config) (rc : HandlerConfig) (url : string).
Hypothesis ctx_lives : forall w, ctx_done w = None.
Hypothesis good_url : bad_url url = None.
Hypothesis refuses : forall w q, q_URL q = url -> exists status body, network w q = Answered status body /\ client_error status = true.
Hypothesis batch : 0 < BatchSize rc.
Hypothesis retries : 1 < MaxRetries rc.
Hypothesis interval : 5 * Second <= CheckInterval rc.

Lemma client_error_not_accepted status e : client_error status = true -> accepted status e = false.
Proof. unfold client_error, accepted. destruct e; [done|]. lia. Qed.

Lemma refused_answer wh p w k : URL wh = url -> client_error (answer wh p w k).1.1 = true.
Proof.
  intros Hu. unfold answer, doSend. rewrite Hu, good_url.
  destruct (refuses (before wh p w k) (build_request wh (before wh p w k)) Hu) as (st & b & -> & Hce). by destruct b.
Qed.

(** One request, and a failure after one attempt. *)
Lemma refused_send wh w : URL wh = url ->
  exists w' r e q, Send wh w = (w', (Some r, Some e)) /\ Success r = false /\ Attempts r = 1 /\ w_log w' = q :: w_log w /\ sent wh q.
Proof.
  intros Hu. pose proof (Send_ends wh w) as H. destruct (Send wh w) as [w' [[r|] err]].
  2: { destruct H as (Hne & He & _). by rewrite ctx_lives in He. }
  cbv zeta in H. destruct H as (n & Hn & Hre & He & reqs & Hl & Hs & Hlen).
  assert (n = 1)%nat as ->.
  { destruct (decide (n = 1)%nat) as [|Hne]; [done|]. specialize (Hre 0%nat ltac:(lia)). unfold retriable in Hre.
    by rewrite refused_answer, andb_false_r in Hre. }
  unfold ends in He. cbn [Nat.sub] in He.
  pose proof (refused_answer wh (policy_of wh) (Now (select_done w).1).1 0 Hu) as Hce.
  destruct (answer _ _ _ _) as [[st b] e0]. cbn in Hce. destruct He as (_ & _ & He).
  rewrite client_error_not_accepted in He by done. destruct He as (Hsu & Herr & [[Ha _]|(_ & _ & Hc)]).
  - rewrite Hu, good_url in Hlen. destruct reqs as [|q [|]]; [done | | done]. apply Forall_cons in Hs as [Hq _].
    destruct err as [e|]; [|done]. exists w', r, e, q. done.
  - unfold cut_short, sleep, select_done in Hc. rewrite ctx_lives in Hc. by subst err.
Qed.

Definition requests_to (s : State) : nat := length (List.filter (fun q => String.eqb (q_URL q) url) (w_log (s_world s))).

Lemma later_requests s s' : later (s_world s) (s_world s') -> (requests_to s <= requests_to s')%nat.
Proof. intros (_ & _ & reqs & H). unfold requests_to. rewrite H, List.filter_app, length_app. lia. Qed.

(** Delivery [id] has failed at the first attempt and is scheduled; at least [n]
    requests have been made. *)
Record pending (id wid : string) (n : nat) (s : State) : Prop := mkPending {
  p_requests : (n <= requests_to s)%nat;
  p_keyed : map_Forall (fun i d => d_ID d = i) (deliveries (s_repo s));
  p_size : Z.of_nat (size (deliveries (s_repo s))) <= BatchSize rc;
  p_webhook : exists c, webhooks (s_repo s) !! wid = Some c /\ Active c = true /\ c_URL c = url;
  p_delivery : exists d t, deliveries (s_repo s) !! id = Some d /\ d_WebhookID d = wid /\ d_Success d = false /\
    d_Attempts d = 1 /\ NextRetryAt d = Some t /\ t <= w_now (s_world s) + 5 * Second
}.

Lemma later_pending id wid n s w : pending id wid n s -> later (s_world s) w -> pending id wid n (mkState w (s_repo s)).
Proof.
  intros [H1 H2 H3 H4 (d & t & H5 & H6 & H7 & H8 & H9 & H10)] Hl. split; [| done | done | done |].
  - pose proof (later_requests s (mkState w (s_repo s)) Hl). lia.
  - exists d, t. cbn. destruct Hl as (_ & Ht & _). repeat (split; [done|]). lia.
Qed.

(** A retry stores one record under its own identifier. *)
Lemma retry_effect id s : map_Forall (fun i d => d_ID d = i) (deliveries (s_repo s)) ->
  let s' := (RetryFailedWebhook cfg id s).1 in
  later (s_world s) (s_world s') /\ webhooks (s_repo s') = webhooks (s_repo s) /\
  (deliveries (s_repo s') = deliveries (s_repo s) \/
   exists d d', deliveries (s_repo s) !! id = Some d /\ d_ID d' = id /\ deliveries (s_repo s') = <[ id := d' ]> (deliveries (s_repo s))).
Proof.
  intros Hk. cbv zeta. split; [|split; [apply retry_webhooks|]]; unfold RetryFailedWebhook, GetDelivery.
  all: destruct (deliveries (s_repo s) !! id) as [d|] eqn:Hd; [|first [reflexivity | by left]]; pose proof (Hk _ _ Hd) as Hid; cbn in Hid.
  all: destruct (GetWebhook (d_WebhookID d) s) as [c|]; [|first [reflexivity | by left]]; destruct (negb (Active c)); [first [reflexivity | by left]|]; rewrite on_world_spec.
  all: match goal with |- context [Send ?wh ?w] => pose proof (Send_later wh w) as Hl; destruct (Send wh w) as [w1 [res err]] end.
  all: cbn [fst snd] in *; rewrite on_world_spec; cbn [fst snd s_world s_repo].
  - assert (later (s_world s) (Now w1).1) as H1 by (etransitivity; [exact Hl | apply Now_later]).
    destruct (d_Success _); [exact H1|]. destruct (_ <? _); [|exact H1]. unfold backoff_time. rewrite on_world_spec.
    cbn. etransitivity; [exact H1 | exact (Now_later _)].
  - right. exists d. set (d1 := set_delivered _ _). assert (d_ID d1 = id) as Hd1 by (unfold d1; by destruct res, err).
    destruct (d_Success d1); [|destruct (_ <? _)]; [| unfold backoff_time; rewrite on_world_spec |].
    all: eexists; split; [done|]; split; [|cbn [fst SaveDelivery set_deliveries s_repo deliveries d_ID set_retry]; by rewrite Hd1]; exact Hd1.
Qed.

Lemma insert_pending id wid n s s' i d' : pending id wid n s -> i <> id -> d_ID d' = i -> is_Some (deliveries (s_repo s) !! i) ->
  later (s_world s) (s_world s') -> s_repo s' = mkRepository (webhooks (s_repo s)) (<[ i := d' ]> (deliveries (s_repo s))) ->
  pending id wid n s'.
Proof.
  intros [H1 H2 H3 H4 (d & t & H5 & H6 & H7 & H8 & H9 & H10)] Hne Hi [x Hx] Hl Hr. split; rewrite ?Hr; cbn [webhooks deliveries].
  - pose proof (later_requests _ _ Hl). lia.
  - by apply map_Forall_insert_2.
  - by rewrite map_size_insert_Some by by eexists.
  - done.
  - exists d, t. rewrite lookup_insert_ne by done. destruct Hl as (_ & Ht & _). repeat (split; [done|]). lia.
Qed.

(** Handling another delivery. *)
Lemma process_other id wid n s x : pending id wid n s -> d_ID x <> id ->
  pending id wid n (process_one cfg rc x s).1 /\ (process_one cfg rc x s).2 = false.
Proof.
  intros Hp Hne.
  assert (pending id wid n (clearRetry (d_ID x) s)) as Hclear.
  { unfold clearRetry, GetDelivery. destruct (deliveries (s_repo s) !! d_ID x) as [d|] eqn:Hd; [|done].
    pose proof (p_keyed _ _ _ _ Hp _ _ Hd) as Hid. cbn in Hid.
    eapply (insert_pending _ _ _ s _ (d_ID x) (set_retry None d)); [done | done | done | by eexists | done |]. cbn. by rewrite Hid. }
  unfold process_one. destruct (_ <=? _); [done|]. destruct (GetWebhook _ s) as [c|]; [|done]. destruct (negb (Active c)); [done|].
  rewrite on_world_spec. cbn [fst snd]. unfold select_done at 2. cbn [snd]. rewrite ctx_lives. split; [|done].
  apply later_pending; [|apply select_done_later].
  destruct (retry_effect (d_ID x) s (p_keyed _ _ _ _ Hp)) as (Hl & Hw & [Hd|(d & d' & Hd & Hid & Hd')]).
  - destruct (RetryFailedWebhook _ _ _) as [s' r]. cbn in *.
    assert (s_repo s' = s_repo s) as Hr by (destruct (s_repo s'), (s_repo s); cbn in *; congruence).
    destruct s' as [w' rr]. cbn in *. subst rr. by apply later_pending.
  - eapply (insert_pending _ _ _ s _ (d_ID x) d'); [done | done | done | by eexists | done |].
    destruct (s_repo (RetryFailedWebhook cfg (d_ID x) s).1). cbn in *. by subst.
Qed.

(** Handling the delivery itself sends it and schedules it again. *)
Lemma retry_own id wid n s : pending id wid n s -> pending id wid (S n) (RetryFailedWebhook cfg id s).1.
Proof.
  intros [H1 H2 H3 (c & Hc & Hact & Hu) (d & t & Hd & Hwid & Hsu & Hat & Hnx & Hle)].
  pose proof (H2 _ _ Hd) as Hid. cbn in Hid.
  unfold RetryFailedWebhook, GetDelivery, GetWebhook. rewrite Hd, Hwid, Hc, Hact. cbn [negb]. rewrite on_world_spec.
  set (wh := the_webhook _ _ _ _ _ _). destruct (refused_send wh (s_world s) Hu) as (w1 & r & e & q & Hs & Hsr & Har & Hlog & Hq).
  pose proof (Send_later wh (s_world s)) as Hl. rewrite Hs in *. cbn [fst snd] in *. rewrite on_world_spec. cbn [fst snd s_world s_repo].
  set (d1 := set_delivered _ _). assert (d_Success d1 = false) as Hs1 by exact Hsr. assert (d_Attempts d1 = 1) as Ha1 by exact Har.
  rewrite Hs1, Ha1. change (1 <? MaxAttempts DefaultRetryPolicy) with true. cbn iota. unfold backoff_time. rewrite on_world_spec. cbn [fst snd s_world s_repo].
  set (t' := _ + CalculateBackoff _ _). assert (d_ID d1 = id) as Hid1 by exact Hid.
  split; cbn [s_repo s_world SaveDelivery set_deliveries webhooks deliveries d_ID set_retry]; rewrite ?Hid1.
  - unfold requests_to. cbn. rewrite Hlog. cbn. destruct Hq as (_ & Hqu & _). rewrite Hqu. cbn [URL wh the_webhook]. rewrite Hu, String.eqb_refl.
    cbn. unfold requests_to in H1. lia.
  - by apply map_Forall_insert_2.
  - by rewrite map_size_insert_Some by by eexists.
  - by exists c.
  - eexists _, t'. rewrite lookup_insert_eq. split; [done|]. split; [exact Hwid|]. split; [exact Hsr|]. split; [exact Har|].
    split; [done|]. unfold t'. change (CalculateBackoff DefaultRetryPolicy 1) with (5 * Second). cbn [Now fst snd w_now]. lia.
Qed.

Lemma process_own id wid n s x : pending id wid n s -> d_ID x = id -> d_WebhookID x = wid -> d_Attempts x = 1 ->
  pending id wid (S n) (process_one cfg rc x s).1 /\ (process_one cfg rc x s).2 = false.
Proof.
  intros Hp Hid Hw Ha. unfold process_one, GetWebhook. rewrite Ha, Hw, Hid.
  destruct (Z.leb_spec (MaxRetries rc) 1); [lia|]. destruct (p_webhook _ _ _ _ Hp) as (c & -> & -> & _). cbn [negb].
  rewrite on_world_spec. cbn [fst snd]. unfold select_done at 2. cbn [snd]. rewrite ctx_lives. split; [|done].
  apply later_pending; [by apply retry_own | apply select_done_later].
Qed.

Lemma pending_weaken id wid n m s : (m <= n)%nat -> pending id wid n s -> pending id wid m s.
Proof. intros Hle [H1 H2 H3 H4 H5]. split; [lia | done..]. Qed.

Lemma process_batch_pending id wid l : forall n s,
  Forall (fun x => d_ID x = id -> d_WebhookID x = wid /\ d_Attempts x = 1) l -> pending id wid n s ->
  pending id wid n (process_batch cfg rc l s) /\
  (Exists (fun x => d_ID x = id) l -> pending id wid (S n) (process_batch cfg rc l s)).
Proof.
  induction l as [|x l IH]; intros n s Hl Hp; cbn; [by split; [|intros He; inversion He]|].
  apply Forall_cons in Hl as [Hx Hl]. destruct (decide (d_ID x = id)) as [He|Hne].
  - destruct (Hx He) as [Hw Ha]. destruct (process_own id wid n s x Hp He Hw Ha) as [Hp' Hf].
    destruct (process_one cfg rc x s) as [s' b]. cbn in *. subst b. destruct (IH (S n) s' Hl Hp') as [H1 _].
    split; [by eapply (pending_weaken _ _ (S n)); [lia|] | done].
  - destruct (process_other id wid n s x Hp Hne) as [Hp' Hf]. destruct (process_one cfg rc x s) as [s' b]. cbn in *. subst b.
    destruct (IH n s' Hl Hp') as [H1 H2]. split; [done|]. intros [?|?]%Exists_cons; [done | auto].
Qed.

(** One turn of the loop. *)
Lemma tick_pending id wid n s : pending id wid n s -> pending id wid (S n) (processRetries cfg rc (wait_tick rc s)).
Proof.
  intros Hp. set (s1 := wait_tick rc s).
  assert (later (s_world s) (s_world s1)) as Hl.
  { unfold s1, wait_tick. cbn. split; [done|]. split; [cbn; unfold Second in interval; lia|]. by exists []. }
  unfold processRetries, GetFailedDeliveries. rewrite !on_world_spec. cbn [fst snd s_world s_repo].
  set (now := (Now (s_world s1)).2). change (s_repo s1) with (s_repo s). set (all := (range_values _ _).2). set (ready := List.filter (due now) all).
  match goal with |- pending _ _ _ (process_batch _ _ _ ?st) => set (s2 := st) end.
  assert (later (s_world s) (s_world s2)) as Hl2.
  { etransitivity; [exact Hl|]. etransitivity; [apply Now_later|]. by apply read_later. }
  pose proof (later_pending _ _ _ _ _ Hp Hl2) as Hp2.
  assert (forall x, x ∈ ready -> deliveries (s_repo s) !! d_ID x = Some x) as Hready.
  { intros x Hx. unfold ready in Hx. rewrite list_elem_of_In, filter_In, <-list_elem_of_In in Hx. destruct Hx as [Hx _].
    unfold all in Hx. apply elem_of_range in Hx as [i Hi]. pose proof (p_keyed _ _ _ _ Hp _ _ Hi) as He. cbn in He. by subst i. }
  assert (length ready <= size (deliveries (s_repo s)))%nat as Hlen.
  { unfold ready. etransitivity; [apply List.filter_length_le|]. unfold all. by rewrite map_snd_perm, length_map, length_map_to_list. }
  assert ((if 0 <? BatchSize rc then firstn (Z.to_nat (BatchSize rc)) ready else ready) = ready) as ->.
  { destruct (Z.ltb_spec 0 (BatchSize rc)); [|lia]. apply firstn_all2. pose proof (p_size _ _ _ _ Hp). lia. }
  destruct (p_delivery _ _ _ _ Hp) as (d & t & Hd & Hwid & Hsu & Hat & Hnx & Hle).
  pose proof (p_keyed _ _ _ _ Hp _ _ Hd) as Hid. cbn in Hid.
  apply (process_batch_pending id wid ready n s2).
  - apply Forall_forall. intros x Hx He. apply Hready in Hx. rewrite He, Hd in Hx. injection Hx as <-. done.
  - exact Hp2.
  - apply Exists_exists. exists d. split; [|done]. unfold ready. rewrite list_elem_of_In, filter_In, <-list_elem_of_In. split.
    + apply elem_of_range. by exists id.
    + unfold due. rewrite Hsu, Hnx. cbn. apply Z.leb_le. unfold now, Now, s1, wait_tick. cbn.
      pose proof (elapsed_nonneg (mkWorld (w_log (s_world s)) (w_reads (s_world s)) (w_now (s_world s) + CheckInterval rc))).
      unfold Second in *. lia.
Qed.

Lemma ticks_pending id wid n s : pending id wid n s -> forall k, pending id wid (n + k) (ticks cfg rc k s).
Proof.
  intros Hp. induction k as [|k IH]; cbn [ticks]; [by rewrite Nat.add_0_r|]. replace (n + S k)%nat with (S (n + k)) by lia.
  by apply tick_pending.
Qed.
End Refused.
End Service.

(** ** Properties *)

(** Delivering an event gives every active subscription to it - and no other -
    one new delivery that records the event and how sending it went, due for a
    retry exactly if it failed; a success clears the subscription's count of
    failures, a failure adds one and disables it at the limit; everything else
    in the repository is left as it was. *)
Theorem event_delivered {E : Environment} {L : LawfulEnvironment E} (marshal : Event -> result string string)
    (cfg : Config) (event : Event) (payload : string) (s : State) :
  marshal event = Ok payload -> keyed (s_repo s) -> fresh s ->
  let s' := (DeliverWebhooksForEvent marshal cfg event s).1 in
  (DeliverWebhooksForEvent marshal cfg event s).2 = Ok tt /\ fresh s' /\ later (s_world s) (s_world s') /\
  exists l recs, NoDup (map c_ID l) /\
    (forall c, c ∈ l <-> webhooks (s_repo s) !! c_ID c = Some c /\ wants (ev_Type _ event) c = true) /\
    delivered cfg event payload l recs s s'.
Proof. intros Hm Hk Hf. by apply DeliverWebhooksForEvent_effect. Qed.

(** As long as nobody switches a disabled webhook on again by hand, whatever
    the service and the retry handler are asked to do, an active webhook has
    fewer failures since its last success than the limit. *)
Theorem webhook_health {E : Environment} {L : LawfulEnvironment E} (marshal : Event -> result string string)
    (cfg : Config) (ops : list ServiceOp) (w : World) :
  0 < MaxFailureCount cfg <= int64_max -> Forall (fun o => no_reactivation o = true) ops ->
  map_Forall (healthy cfg) (webhooks (s_repo (run_ops marshal cfg ops (mkState w NewMemoryRepository)))).
Proof. intros H Ho. apply (run_ops_healthy marshal cfg H ops); [done | apply map_Forall_empty]. Qed.

(** C37: A delivery that a client error ends at its first attempt is never given
    up: its count of attempts is that of the last sending, so it stays at one,
    below both limits, and every turn of the retry handler sends it again and
    schedules it again - [MaxAttempts] and [MaxRetries] notwithstanding. *)
Theorem refused_forever {E : Environment} {L : LawfulEnvironment E} (cfg : Config) (rc : HandlerConfig) (url : string) :
  (forall w, ctx_done w = None) -> bad_url url = None ->
  (forall w q, q_URL q = url -> exists status body, network w q = Answered status body /\ client_error status = true) ->
  0 < BatchSize rc -> 1 < MaxRetries rc -> 5 * Second <= CheckInterval rc ->
  forall id wid n s, pending rc url id wid n s -> forall k, pending rc url id wid (n + k) (ticks cfg rc k s).
Proof. intros. by apply ticks_pending. Qed.

(** What the last attempts of a sending leave behind is given up. *)
Lemma exhausted_not_due now d : NextRetryAt d = None -> due now d = false.
Proof. intros H. unfold due. rewrite H. by rewrite andb_false_r. Qed.

(** A webhook switched on again keeps its count, and the next failure disables it. *)
Lemma reactivated_webhook {E : Environment} {L : LawfulEnvironment E} cfg id s c :
  webhooks (s_repo s) !! id = Some c -> MaxFailureCount cfg <= FailureCount c -> FailureCount c < int64_max -> 0 <= FailureCount c ->
  let s1 := (service_UpdateWebhook id (mkUpdateRequest None None None None (Some true) None) s).1 in
  (exists c1, webhooks (s_repo s1) !! id = Some c1 /\ Active c1 = true) /\
  (exists c2, webhooks (s_repo (count_failure cfg id s1)) !! id = Some c2 /\ Active c2 = false).
Proof.
  intros Hc Hmax Hlt Hpos. unfold service_UpdateWebhook, UpdateWebhook. rewrite (modify_found _ _ _ _ Hc). cbn [fst].
  set (s1 := mkState _ _). assert (exists c1, webhooks (s_repo s1) !! id = Some c1 /\ Active c1 = true /\ FailureCount c1 = FailureCount c) as (c1 & H1 & H2 & H3).
  { eexists. cbn. rewrite lookup_insert_eq. done. }
  split; [by exists c1|]. destruct (count_failure_effect cfg id s1 c1 H1) as (c2 & Hr & _ & _ & Hn & Ha).
  exists c2. rewrite Hr. cbn [webhooks]. rewrite lookup_insert_eq. split; [done|]. rewrite Ha, H2. cbn.
  apply Z.ltb_ge. rewrite Hn, H3, wrap64_small; [lia|]. unfold in_int64. rewrite andb_true_iff, !Z.leb_le. unfold int64_min, int64_max in *. lia.
Qed.

(** Unregistering leaves every subscription in place. *)
Lemma unregister_does_nothing {Sub : Type} (sub : Sub) types eb : UnregisterFromBus sub types eb = eb.
Proof.
  unfold UnregisterFromBus. revert eb. induction types as [|t types IH]; intros eb; cbn; [done|].
  assert (Unsubscribe Sub t sub eb = eb) as ->; [|apply IH]. unfold Unsubscribe.
  assert (forall l, unsubscribe_loop Sub l sub = None) as ->; [|done]. induction l as [|x l IHl]; cbn; [done|]. by rewrite IHl.
Qed.

(** A server that always answers with one status. *)
Definition answering (status : Z) : Environment := {|
  network _ _ := Answered status (Ok "");
  bad_url _ := None;
  elapsed _ := 0;
  ctx_done _ := None;
  new_uuid n := Itoa (Z.of_nat n);
  range_order _ _ l := l;
  float_overflow _ := 0
|}.

#[export] Instance answering_lawful status : LawfulEnvironment (answering status).
Proof. split; [done | | done]. intros m n H. apply Itoa_inj in H. lia. Qed.

Definition marshal_id (event : Event) : result string string := Ok (EventBus.ID _ event).
Definition signup : Event := EventBus.mkEvent GoVal "e1" "user.created" "test" 0 ∅ ∅.
Definition crm_request : RegisterWebhookRequest := mkRegisterRequest "https://crm.example.com/hook" ["user.created"] "s3cret" ∅ ∅.

(** One subscription. *)
Definition registered (status : Z) : State :=
  let E := answering status in (RegisterWebhook crm_request (mkState (mkWorld [] 0 0) NewMemoryRepository)).1.

Lemma registered_keyed status : keyed (s_repo (registered status)).
Proof. split; cbn; [by apply map_Forall_insert_2, map_Forall_empty | apply map_Forall_empty]. Qed.

Lemma event_delivered_witness :
  let E := answering 200 in let s := registered 200 in
  marshal_id signup = Ok "e1" /\ keyed (s_repo s) /\ fresh s /\
  let s' := (DeliverWebhooksForEvent marshal_id DefaultConfig signup s).1 in
  (DeliverWebhooksForEvent marshal_id DefaultConfig signup s).2 = Ok tt /\ fresh s' /\ later (s_world s) (s_world s') /\
  exists l recs, NoDup (map c_ID l) /\
    (forall c, c ∈ l <-> webhooks (s_repo s) !! c_ID c = Some c /\ wants (ev_Type _ signup) c = true) /\
    delivered DefaultConfig signup "e1" l recs s s'.
Proof.
  intros E s. split; [done|]. split; [apply registered_keyed|]. split; [apply map_Forall_empty|].
  exact (event_delivered marshal_id DefaultConfig signup "e1" s eq_refl (registered_keyed 200) (map_Forall_empty _)).
Defined.

Lemma webhook_health_witness :
  let E := answering 500 in let ops := [OpRegister crm_request; OpDeliver signup; OpProcess DefaultHandlerConfig] in
  (0 < MaxFailureCount DefaultConfig <= int64_max) /\ Forall (fun o => no_reactivation o = true) ops /\
  map_Forall (healthy DefaultConfig) (webhooks (s_repo (run_ops marshal_id DefaultConfig ops (mkState (mkWorld [] 0 0) NewMemoryRepository)))).
Proof.
  intros E ops. assert (0 < MaxFailureCount DefaultConfig <= int64_max) as H by (cbn; unfold int64_max; lia).
  assert (Forall (fun o => no_reactivation o = true) ops) as Ho by repeat constructor.
  split; [exact H|]. split; [exact Ho|]. exact (webhook_health marshal_id DefaultConfig ops (mkWorld [] 0 0) H Ho).
Defined.

(** After a first delivery that ends in 404. *)
Definition refused_once : State :=
  let E := answering 404 in (DeliverWebhooksForEvent marshal_id DefaultConfig signup (registered 404)).1.

Lemma refused_once_pending : pending DefaultHandlerConfig "https://crm.example.com/hook" "3" "0" 1 refused_once.
Proof.
  split.
  - vm_compute. lia.
  - apply (bool_decide_unpack _). vm_compute. exact I.
  - vm_compute. discriminate.
  - eexists. split; [vm_compute; reflexivity | split; reflexivity].
  - eexists _, _. split; [vm_compute; reflexivity|]. do 4 (split; [reflexivity|]). vm_compute. discriminate.
Qed.

Lemma refused_forever_witness :
  let E := answering 404 in
  (forall w, ctx_done w = None) /\
  pending DefaultHandlerConfig "https://crm.example.com/hook" "3" "0" 1 refused_once /\
  pending DefaultHandlerConfig "https://crm.example.com/hook" "3" "0" 101 (ticks DefaultConfig DefaultHandlerConfig 100 refused_once).
Proof.
  intros E. split; [done|]. split; [exact refused_once_pending|].
  refine (refused_forever DefaultConfig DefaultHandlerConfig "https://crm.example.com/hook" _ _ _ _ _ _ "3" "0" 1 refused_once refused_once_pending 100).
  - done.
  - done.
  - intros w q _. by exists 404, (Ok "").
  - cbn. lia.
  - cbn. lia.
  - vm_compute. discriminate.
Defined.
