(* ===== verification/WebhookQueue.v ===== *)
(** The queue of deliveries and its workers:
    [internal/webhook/queue/delivery_queue.go].

    What a worker does with an item is a function.  The channel, the worker
    pool and the calls of [Start], [Stop] and [Enqueue] are a step relation:
    one step is one access to what the goroutines share, a critical section of
    the lock included.  Loggers are left out. *)

From Stdlib Require Import ZArith Lia.
From stdpp Require Import base strings list gmap relations.
From S2P Require Import Prelude GoStrings WebhookClient WebhookRepository WebhookService.

#[local] Open Scope nat_scope.

(** ** Configuration and items *)
Record QueueConfig := mkQueueConfig { QueueSize : Z; WorkerCount : Z }.
Definition normalize (cfg : QueueConfig) : QueueConfig :=
  mkQueueConfig (if (QueueSize cfg <=? 0)%Z then 1000%Z else QueueSize cfg)
    (if (WorkerCount cfg <=? 0)%Z then 10%Z else WorkerCount cfg).

Record DeliveryItem := mkDeliveryItem { i_Webhook : Webhook; i_WebhookID : string; i_EventID : string }.

(** ** What a worker does *)
Definition schedule_retry {E : Environment} (d : WebhookDelivery) (s : State) : State :=
  if (d_Attempts d <? MaxAttempts DefaultRetryPolicy)%Z then
    let '(s, nextRetryAt) := backoff_time (d_Attempts d) s in (UpdateDeliveryRetry (d_ID d) nextRetryAt s).1
  else s.

(** The item has no event type, so its record has none; a failing webhook is
    counted and never disabled. *)
Definition processItem {E : Environment} (item : DeliveryItem) (s : State) : State :=
  let wh := i_Webhook item in
  let '(s, (res, err)) := on_world (Send wh) s in
  let '(s, now) := on_world Now s in
  let d := record_result res err 0
             (mkWebhookDelivery (ID wh) (i_WebhookID item) (i_EventID item) "" (URL wh) 0 (Payload wh) "" 0 0 false "" now None) in
  let s := SaveDelivery d s in
  if d_Success d then (ResetFailureCount (i_WebhookID item) s).1
  else schedule_retry d (IncrementFailureCount (i_WebhookID item) s).1.

(** ** The calls and the workers *)
Section Queue.
Variable Item : Type.

Inductive Worker := Receiving | Processing (i : Item) | Exited.
Inductive Call :=
| StartCall
| EnqueueCall (i : Item)   (** before the check of [stopped] *)
| Sending (i : Item)       (** after it, the lock released *)
| Returned (b : bool)
| StopCall
| Cancelling               (** [stopped] is set, the lock released *)
| Closing
| Waiting                  (** for the workers *)
| Stopped.

Record Queue := mkQueue {
  capacity : nat; pool : nat; buffer : list Item; closed : bool; stopped : bool; started : bool; cancelled : bool;
  workers : list Worker; calls : list Call; panicked : bool;
  accepted : list Item; taken : list Item; processed : list Item   (** the history *)
}.

Definition NewDeliveryQueue (cap pool : nat) (cs : list Call) : Queue :=
  mkQueue cap pool [] false false false false [] cs false [] [] [].

Definition set_call (k : nat) (c : Call) (q : Queue) : Queue :=
  mkQueue (capacity q) (pool q) (buffer q) (closed q) (stopped q) (started q) (cancelled q) (workers q) (<[ k := c ]> (calls q))
    (panicked q) (accepted q) (taken q) (processed q).
Definition set_flags (cl st ca : bool) (q : Queue) : Queue :=
  mkQueue (capacity q) (pool q) (buffer q) cl st (started q) ca (workers q) (calls q) (panicked q) (accepted q) (taken q) (processed q).
Definition set_panic (q : Queue) : Queue :=
  mkQueue (capacity q) (pool q) (buffer q) (closed q) (stopped q) (started q) (cancelled q) (workers q) (calls q) true (accepted q) (taken q) (processed q).
Definition set_worker (j : nat) (w : Worker) (q : Queue) : Queue :=
  mkQueue (capacity q) (pool q) (buffer q) (closed q) (stopped q) (started q) (cancelled q) (<[ j := w ]> (workers q)) (calls q)
    (panicked q) (accepted q) (taken q) (processed q).

Definition Start (q : Queue) : Queue :=
  if started q then q
  else mkQueue (capacity q) (pool q) (buffer q) (closed q) false true false (workers q ++ repeat Receiving (pool q)) (calls q)
         (panicked q) (accepted q) (taken q) (processed q).

Definition push (i : Item) (q : Queue) : Queue :=
  mkQueue (capacity q) (pool q) (buffer q ++ [i]) (closed q) (stopped q) (started q) (cancelled q) (workers q) (calls q)
    (panicked q) (accepted q ++ [i]) (taken q) (processed q).
Definition pop (i : Item) (rest : list Item) (q : Queue) : Queue :=
  mkQueue (capacity q) (pool q) rest (closed q) (stopped q) (started q) (cancelled q) (workers q) (calls q)
    (panicked q) (accepted q) (taken q ++ [i]) (processed q).
Definition finished (i : Item) (q : Queue) : Queue :=
  mkQueue (capacity q) (pool q) (buffer q) (closed q) (stopped q) (started q) (cancelled q) (workers q) (calls q)
    (panicked q) (accepted q) (taken q) (processed q ++ [i]).

(** The [select] of [Enqueue]: sending on a closed channel panics. *)
Definition try_send (k : nat) (i : Item) (q : Queue) : Queue :=
  if closed q then set_panic q
  else if length (buffer q) <? capacity q then set_call k (Returned true) (push i q)
  else set_call k (Returned false) q.

Inductive step : Queue -> Queue -> Prop :=
| step_start k q : panicked q = false -> calls q !! k = Some StartCall -> step q (set_call k (Returned true) (Start q))
| step_check k i q : panicked q = false -> calls q !! k = Some (EnqueueCall i) ->
    step q (set_call k (if stopped q then Returned false else Sending i) q)
| step_send k i q : panicked q = false -> calls q !! k = Some (Sending i) -> step q (try_send k i q)
| step_stop k q : panicked q = false -> calls q !! k = Some StopCall ->
    step q (if stopped q then set_call k (Returned false) q else set_call k Cancelling (set_flags (closed q) true (cancelled q) q))
| step_cancel k q : panicked q = false -> calls q !! k = Some Cancelling ->
    step q (set_call k Closing (set_flags (closed q) (stopped q) (started q) q))
| step_close k q : panicked q = false -> calls q !! k = Some Closing ->
    step q (if closed q then set_panic q else set_call k Waiting (set_flags true (stopped q) (cancelled q) q))
| step_wait k q : panicked q = false -> calls q !! k = Some Waiting -> Forall (fun w => w = Exited) (workers q) ->
    step q (set_call k Stopped q)
| step_receive j i rest q : panicked q = false -> workers q !! j = Some Receiving -> buffer q = i :: rest ->
    step q (set_worker j (Processing i) (pop i rest q))
| step_process j i q : panicked q = false -> workers q !! j = Some (Processing i) ->
    step q (set_worker j Receiving (finished i q))
| step_exit j q : panicked q = false -> workers q !! j = Some Receiving -> buffer q = [] -> closed q = true ->
    step q (set_worker j Exited q).

Definition Reachable (q0 q : Queue) : Prop := rtc step q0 q.

(** ** The invariant *)
Definition held (w : Worker) : list Item := match w with Processing i => [i] | _ => [] end.
Definition in_flight (q : Queue) : list Item := concat (map held (workers q)).

Definition drained (q : Queue) : Prop := closed q = true /\ buffer q = [] /\ Forall (fun w => w = Exited) (workers q).

(** Of a queue that has been started, with at least one worker. *)
Record safe (q : Queue) : Prop := mkSafe {
  s_started : started q = true;
  s_workers : 0 < length (workers q);
  s_accepted : accepted q = taken q ++ buffer q;
  s_taken : taken q ≡ₚ processed q ++ in_flight q;
  s_capacity : length (buffer q) <= capacity q;
  s_exited : Exited ∈ workers q -> closed q = true /\ buffer q = [];
  s_stopped : Stopped ∈ calls q -> drained q
}.

Lemma concat_map_insert {A B} (f : A -> list B) (l : list A) j x0 x : l !! j = Some x0 ->
  f x0 ++ concat (map f (<[ j := x ]> l)) ≡ₚ f x ++ concat (map f l).
Proof.
  intros Hj. rewrite <-(take_drop_middle _ _ _ Hj) at 2. rewrite insert_take_drop by (by eapply lookup_lt_Some).
  rewrite !map_app, !concat_app. cbn. rewrite !(Permutation_app_swap_app _ (concat (map f (take j l)))).
  apply Permutation_app_head, Permutation_app_swap_app.
Qed.

Lemma elem_of_insert_other {A} (l : list A) k x y : y ∈ <[ k := x ]> l -> y <> x -> y ∈ l.
Proof. intros (i & Hi)%list_elem_of_lookup Hne. apply list_lookup_insert_Some in Hi as [(_ & -> & _)|[_ Hi]]; [done|]. by eapply list_elem_of_lookup_2. Qed.

(** A call that moves on without having waited. *)
Lemma queue_safe_set_call k c q : safe q -> c <> Stopped -> safe (set_call k c q).
Proof.
  intros H Hc. split; try apply H. intros Hs. apply H. cbn in Hs. by eapply elem_of_insert_other.
Qed.

Lemma safe_set_flags cl st ca q : safe q -> (closed q = true -> cl = true) -> safe (set_flags cl st ca q).
Proof.
  intros H Hcl. split; try apply H.
  - intros He. destruct (s_exited _ H He) as [? ?]. cbn. auto.
  - intros Hs. destruct (s_stopped _ H Hs) as (? & ? & ?). split; [|split]; cbn; auto.
Qed.

Lemma safe_panic q : safe q -> safe (set_panic q).
Proof. intros H. split; apply H. Qed.

Lemma safe_push i q : safe q -> closed q = false -> length (buffer q) < capacity q -> safe (push i q).
Proof.
  intros H Hcl Hlt. split; try apply H; cbn.
  - by rewrite (s_accepted _ H), app_assoc.
  - rewrite length_app. cbn. lia.
  - intros He. destruct (s_exited _ H He). congruence.
  - intros Hs. destruct (s_stopped _ H Hs) as (? & _). congruence.
Qed.

Lemma drained_idle j w q : drained q -> workers q !! j = Some w -> w = Exited.
Proof. intros (_ & _ & Hw) Hj. exact (Forall_lookup_1 _ _ _ _ Hw Hj). Qed.

(** A worker that is running takes up something else. *)
Lemma queue_safe_set_worker j w0 w q : safe q -> workers q !! j = Some w0 -> w0 <> Exited -> held w = held w0 ->
  (w = Exited -> closed q = true /\ buffer q = []) -> safe (set_worker j w q).
Proof.
  intros H Hj Hne Hh Hw. split; try apply H.
  - cbn. rewrite length_insert. apply H.
  - cbn. rewrite (s_taken _ H). apply Permutation_app_head. pose proof (concat_map_insert held _ _ _ w Hj) as Hp.
    rewrite Hh in Hp. apply Permutation_app_inv_l in Hp. by symmetry.
  - cbn. intros He. destruct w; [| |by apply Hw]; apply H; by eapply elem_of_insert_other.
  - intros Hs. by destruct (Hne (drained_idle _ _ _ (s_stopped _ H Hs) Hj)).
Qed.

Lemma queue_safe_receive j i rest q : safe q -> workers q !! j = Some Receiving -> buffer q = i :: rest ->
  safe (set_worker j (Processing i) (pop i rest q)).
Proof.
  intros H Hj Hb. assert (Stopped ∉ calls q) as Hns.
  { intros Hs. by pose proof (drained_idle _ _ _ (s_stopped _ H Hs) Hj). }
  split; cbn; try (by apply H || by intros).
  - rewrite length_insert. apply H.
  - by rewrite (s_accepted _ H), Hb, <-app_assoc.
  - rewrite (s_taken _ H). pose proof (concat_map_insert held _ _ _ (Processing i) Hj) as Hp. cbn [held app] in Hp.
    unfold in_flight. cbn [workers set_worker pop]. rewrite Hp. cbn. by rewrite <- !app_assoc, (Permutation_app_comm _ [i]).
  - pose proof (s_capacity _ H). rewrite Hb in *. cbn in *. lia.
  - intros He%elem_of_insert_other; [|done]. destruct (s_exited _ H He). congruence.
Qed.

Lemma safe_process j i q : safe q -> workers q !! j = Some (Processing i) -> safe (set_worker j Receiving (finished i q)).
Proof.
  intros H Hj. assert (Stopped ∉ calls q) as Hns.
  { intros Hs. by pose proof (drained_idle _ _ _ (s_stopped _ H Hs) Hj). }
  split; cbn; try (by apply H || by intros).
  - rewrite length_insert. apply H.
  - rewrite (s_taken _ H). pose proof (concat_map_insert held _ _ _ Receiving Hj) as Hp. cbn [held app] in Hp.
    unfold in_flight. cbn [workers set_worker finished]. by rewrite <-Hp, <-app_assoc.
  - intros He%elem_of_insert_other; [|done]. by apply H.
Qed.

Lemma queue_step_safe q q' : step q q' -> safe q -> safe q'.
Proof.
  intros Hst H. destruct Hst as [k q Hp Hk|k i q Hp Hk|k i q Hp Hk|k q Hp Hk|k q Hp Hk|k q Hp Hk|k q Hp Hk Hex
    |j i rest q Hp Hj Hb|j i q Hp Hj|j q Hp Hj Hb Hcl].
  - unfold Start. rewrite (s_started _ H). by apply queue_safe_set_call.
  - apply queue_safe_set_call; [done|]. by destruct (stopped q).
  - unfold try_send. destruct (closed q) eqn:Hcl; [by apply safe_panic|].
    destruct (Nat.ltb_spec (length (buffer q)) (capacity q)); apply queue_safe_set_call; try done. by apply safe_push.
  - destruct (stopped q); apply queue_safe_set_call; try done. by apply safe_set_flags.
  - apply queue_safe_set_call; [|done]. by apply safe_set_flags.
  - destruct (closed q); [by apply safe_panic|]. apply queue_safe_set_call; [|done]. by apply safe_set_flags.
  - assert (drained q) as Hd.
    { destruct (workers q) as [|w ws] eqn:Hw; [pose proof (s_workers _ H); rewrite Hw in *; cbn in *; lia|].
      assert (Exited ∈ workers q) as He by (rewrite Hw; apply Forall_cons in Hex as [-> _]; apply list_elem_of_here).
      destruct (s_exited _ H He). split; [done|]. split; [done|]. by rewrite Hw. }
    split; try apply H. by intros.
  - by apply queue_safe_receive.
  - by apply safe_process.
  - by apply (queue_safe_set_worker j Receiving).
Qed.

(** The calls a queue starts with. *)
Definition initial_call (c : Call) : bool :=
  match c with StartCall | EnqueueCall _ | StopCall => true | _ => false end.

Lemma queue_initial_safe cap n cs : 0 < n -> Forall (fun c => initial_call c = true) cs -> safe (Start (NewDeliveryQueue cap n cs)).
Proof.
  intros Hn Hcs. assert (concat (map held (repeat Receiving n)) = []) as Hr by (clear; induction n; cbn; auto).
  split; cbn; try done; try lia.
  - rewrite repeat_length. lia.
  - unfold in_flight. cbn. by rewrite Hr.
  - intros He. apply list_elem_of_In, repeat_spec in He. done.
  - intros Hs. pose proof (proj1 (Forall_forall _ _) Hcs _ Hs) as Hf. done.
Qed.

Lemma queue_reachable_safe cap n cs q : 0 < n -> Forall (fun c => initial_call c = true) cs ->
  Reachable (Start (NewDeliveryQueue cap n cs)) q -> safe q.
Proof.
  intros Hn Hcs Hr. assert (safe (Start (NewDeliveryQueue cap n cs))) as H0 by by apply queue_initial_safe.
  induction Hr as [|x y z Hxy _ IH]; [done|]. apply IH. by eapply queue_step_safe.
Qed.

Lemma all_exited_in_flight q : Forall (fun w => w = Exited) (workers q) -> in_flight q = [].
Proof. unfold in_flight. induction 1 as [|w ws -> _ IH]; [done | exact IH]. Qed.

(** The check of [stopped] and the send are two steps: [Stop] fits in between. *)
Lemma enqueue_panics cap n i : exists q,
  Reachable (Start (NewDeliveryQueue cap n [EnqueueCall i; StopCall])) q /\ panicked q = true.
Proof.
  eexists. split.
  - eapply rtc_l; [by apply (step_check 0 i)|]. eapply rtc_l; [by apply (step_stop 1)|].
    eapply rtc_l; [by apply (step_cancel 1)|]. eapply rtc_l; [by apply (step_close 1)|].
    eapply rtc_l; [by apply (step_send 0 i)|]. apply rtc_refl.
  - reflexivity.
Qed.

(** [Stop] on a queue that was never started closes the channel, and [Start]
    afterwards takes items again: the next one panics. *)
Lemma stop_start_enqueue_panics cap n i : exists q,
  Reachable (NewDeliveryQueue cap n [StopCall; StartCall; EnqueueCall i]) q /\ panicked q = true.
Proof.
  eexists. split.
  - eapply rtc_l; [by apply (step_stop 0)|]. eapply rtc_l; [by apply (step_cancel 0)|].
    eapply rtc_l; [by apply (step_close 0)|]. eapply rtc_l; [apply (step_wait 0); [done | done | by constructor]|].
    eapply rtc_l; [by apply (step_start 1)|]. eapply rtc_l; [by apply (step_check 2 i)|].
    eapply rtc_l; [by apply (step_send 2 i)|]. apply rtc_refl.
  - reflexivity.
Qed.
End Queue.

(** ** Properties *)

(** In every interleaving of calls of [Enqueue] and [Stop] and of the workers
    of a started queue, items accepted are taken in order, each by one worker,
    the buffer stays within its capacity, and once a [Stop] has waited for the
    workers every item accepted has been processed. *)
Theorem queue_drains (Item : Type) (cap n : nat) (cs : list (Call Item)) (q : Queue Item) :
  0 < n -> Forall (fun c => initial_call Item c = true) cs ->
  Reachable Item (Start Item (NewDeliveryQueue Item cap n cs)) q ->
  accepted _ q = taken _ q ++ buffer _ q /\ taken _ q ≡ₚ processed _ q ++ in_flight _ q /\ length (buffer _ q) <= capacity _ q /\
  (Stopped _ ∈ calls _ q -> buffer _ q = [] /\ processed _ q ≡ₚ accepted _ q).
Proof.
  intros Hn Hcs Hr. pose proof (queue_reachable_safe _ _ _ _ _ Hn Hcs Hr) as H.
  split; [apply H|]. split; [apply H|]. split; [apply H|]. intros Hs. destruct (s_stopped _ _ H Hs) as (_ & Hb & Hw).
  split; [done|]. rewrite (s_accepted _ _ H), Hb, app_nil_r, (s_taken _ _ H), all_exited_in_flight by done. by rewrite app_nil_r.
Qed.

Definition one_item : Queue nat :=
  mkQueue nat 4 1 [] true true true true [Exited nat] [Returned nat true; Stopped nat] false [7] [7] [7].

Lemma one_item_reachable : Reachable nat (Start nat (NewDeliveryQueue nat 4 1 [EnqueueCall nat 7; StopCall nat])) one_item.
Proof.
  eapply rtc_l; [by apply (step_check nat 0 7)|]. eapply rtc_l; [by apply (step_send nat 0 7)|].
  eapply rtc_l; [by apply (step_stop nat 1)|]. eapply rtc_l; [by apply (step_receive nat 0 7 [])|].
  eapply rtc_l; [by apply (step_cancel nat 1)|]. eapply rtc_l; [by apply (step_close nat 1)|].
  eapply rtc_l; [by apply (step_process nat 0 7)|]. eapply rtc_l; [by apply (step_exit nat 0)|].
  eapply rtc_l; [apply (step_wait nat 1); [done | done | by repeat constructor]|]. apply rtc_refl.
Qed.

Lemma queue_drains_witness :
  0 < 1 /\ Stopped nat ∈ calls nat one_item /\
  (accepted _ one_item = taken _ one_item ++ buffer _ one_item /\ taken _ one_item ≡ₚ processed _ one_item ++ in_flight _ one_item /\
   length (buffer _ one_item) <= capacity _ one_item /\
   (Stopped _ ∈ calls _ one_item -> buffer _ one_item = [] /\ processed _ one_item ≡ₚ accepted _ one_item)).
Proof.
  split; [lia|]. split; [apply list_elem_of_In; cbn; auto|].
  apply (queue_drains nat 4 1 [EnqueueCall nat 7; StopCall nat]); [lia | by repeat constructor | exact one_item_reachable].
Defined.
