(* ===== verification/JobRepository.v ===== *)
(** Jobs and their memory repository: [internal/scheduler/repository]
    ([job_repository.go], [job_repository_memory.go]).

    Every method holds the repository's lock while it runs; a reading of the
    clock and the order in which a map is ranged over are arguments.  What
    [sort.Slice] documents is the interface [SliceSort]: it orders by any
    comparison that is transitive and whose negation is. *)

From Stdlib Require Import ZArith Lia Ascii Sorting.Sorted.
From stdpp Require Import base strings list gmap sorting.
From S2P Require Import Prelude GoStrings GoValue.

#[local] Open Scope string_scope.
#[local] Open Scope Z_scope.

(** ** Sorting *)
Class SliceSort := sort_slice : forall A : Type, (A -> A -> bool) -> list A -> list A.
Arguments sort_slice {_ A} _ _.

Definition ordering {A} (less : A -> A -> bool) : Prop :=
  (forall a b c, less a b = true -> less b c = true -> less a c = true) /\
  (forall a b c, less a b = false -> less b c = false -> less a c = false).

(** [a] may stand before [b]. *)
Definition in_order {A} (less : A -> A -> bool) (a b : A) : Prop := less a b = true \/ less b a = false.

Class LawfulSort (S : SliceSort) := {
  sort_perm A (less : A -> A -> bool) l : sort_slice less l ≡ₚ l;
  sort_sorted A (less : A -> A -> bool) l : ordering less -> StronglySorted (in_order less) (sort_slice less l)
}.

(** ** Jobs *)
Definition JobStatusPending : string := "pending".
Definition JobStatusScheduled : string := "scheduled".
Definition JobStatusRunning : string := "running".
Definition JobStatusCompleted : string := "completed".
Definition JobStatusFailed : string := "failed".
Definition JobStatusCancelled : string := "cancelled".
Definition JobStatusRetrying : string := "retrying".

Record Job := mkJob {
  ID : string; TaskType : string; Payload : string; Status : string; Queue : string; ScheduledAt : option Z;
  StartedAt : option Z; CompletedAt : option Z; FailedAt : option Z; RetryCount : Z; MaxRetries : Z; Error : string;
  Result : string; CronExpression : string; CronEntryID : string; Timeout : Z; CreatedAt : Z; UpdatedAt : Z;
  Metadata : gmap string GoVal }.

Record JobFilter := mkJobFilter {
  f_Status : list string; TaskTypes : list string; f_Queue : string; ScheduledBefore : option Z; ScheduledAfter : option Z;
  CreatedBefore : option Z; CreatedAfter : option Z; WithCron : option bool; Limit : Z; Offset : Z; OrderBy : string;
  OrderDirection : string }.
Definition no_filter : JobFilter := mkJobFilter [] [] "" None None None None None 0 0 "" "".
Definition DefaultFilter : JobFilter := mkJobFilter [] [] "" None None None None None 100 0 "created_at" "DESC".

Inductive RepoError := ErrJobNotFound.

Abbreviation MemoryJobRepository := (gmap string Job).
Definition NewMemoryJobRepository : MemoryJobRepository := ∅.

(** ** Changing jobs *)
Definition with_times (created updated : Z) (j : Job) : Job :=
  mkJob (ID j) (TaskType j) (Payload j) (Status j) (Queue j) (ScheduledAt j) (StartedAt j) (CompletedAt j) (FailedAt j)
    (RetryCount j) (MaxRetries j) (Error j) (Result j) (CronExpression j) (CronEntryID j) (Timeout j) created updated (Metadata j).

(** An existing job of the same identifier is replaced. *)
Definition CreateJob (job : Job) (t1 t2 : Z) (r : MemoryJobRepository) : MemoryJobRepository :=
  <[ ID job := with_times t1 t2 job ]> r.

Definition GetJob (jobID : string) (r : MemoryJobRepository) : result RepoError Job :=
  match r !! jobID with Some j => Ok j | None => Err ErrJobNotFound end.

Definition UpdateJob (job : Job) (now : Z) (r : MemoryJobRepository) : MemoryJobRepository * result RepoError unit :=
  match r !! ID job with
  | None => (r, Err ErrJobNotFound)
  | Some _ => (<[ ID job := with_times (CreatedAt job) now job ]> r, Ok tt)
  end.

(** A method that changes the stored job in place. *)
Definition modify (jobID : string) (f : Job -> Job) (r : MemoryJobRepository) : MemoryJobRepository * result RepoError unit :=
  match r !! jobID with
  | None => (r, Err ErrJobNotFound)
  | Some j => (<[ jobID := f j ]> r, Ok tt)
  end.

Definition set_status (status : string) (err : option string) (now : Z) (j : Job) : Job :=
  mkJob (ID j) (TaskType j) (Payload j) status (Queue j) (ScheduledAt j)
    (if String.eqb status JobStatusRunning then Some now else StartedAt j)
    (if String.eqb status JobStatusCompleted then Some now else CompletedAt j)
    (if String.eqb status JobStatusFailed then Some now else FailedAt j)
    (RetryCount j) (MaxRetries j)
    (if String.eqb status JobStatusFailed then default (Error j) err else Error j)
    (Result j) (CronExpression j) (CronEntryID j) (Timeout j) (CreatedAt j) now (Metadata j).

Definition UpdateJobStatus (jobID status : string) (err : option string) (now : Z) : MemoryJobRepository -> MemoryJobRepository * result RepoError unit :=
  modify jobID (set_status status err now).

Definition DeleteJob (jobID : string) (r : MemoryJobRepository) : MemoryJobRepository * result RepoError unit :=
  match r !! jobID with
  | None => (r, Err ErrJobNotFound)
  | Some _ => (delete jobID r, Ok tt)
  end.

Definition set_result (res : string) (now : Z) (j : Job) : Job :=
  mkJob (ID j) (TaskType j) (Payload j) (Status j) (Queue j) (ScheduledAt j) (StartedAt j) (CompletedAt j) (FailedAt j)
    (RetryCount j) (MaxRetries j) (Error j) res (CronExpression j) (CronEntryID j) (Timeout j) (CreatedAt j) now (Metadata j).
Definition SetJobResult (jobID res : string) (now : Z) : MemoryJobRepository -> MemoryJobRepository * result RepoError unit :=
  modify jobID (set_result res now).

Definition count_retry (now : Z) (j : Job) : Job :=
  mkJob (ID j) (TaskType j) (Payload j) (Status j) (Queue j) (ScheduledAt j) (StartedAt j) (CompletedAt j) (FailedAt j)
    (wrap64 (RetryCount j + 1)) (MaxRetries j) (Error j) (Result j) (CronExpression j) (CronEntryID j) (Timeout j)
    (CreatedAt j) now (Metadata j).
Definition IncrementRetryCount (jobID : string) (now : Z) : MemoryJobRepository -> MemoryJobRepository * result RepoError unit :=
  modify jobID (count_retry now).

(** ** Looking jobs up *)
Definition member (s : string) (l : list string) : bool := match l with [] => true | _ => existsb (String.eqb s) l end.

Definition matchesFilter (j : Job) (f : JobFilter) : bool :=
  member (Status j) (f_Status f) && member (TaskType j) (TaskTypes f) &&
  (String.eqb (f_Queue f) "" || String.eqb (Queue j) (f_Queue f)) &&
  match ScheduledBefore f, ScheduledAt j with Some t, Some s => s <=? t | _, _ => true end &&
  match ScheduledAfter f, ScheduledAt j with Some _, None => false | Some t, Some s => t <=? s | None, _ => true end &&
  match CreatedBefore f with Some t => CreatedAt j <=? t | None => true end &&
  match CreatedAfter f with Some t => t <=? CreatedAt j | None => true end &&
  match WithCron f with Some b => Bool.eqb b (negb (String.eqb (CronExpression j) "")) | None => true end.

(** Go compares strings byte by byte. *)
Fixpoint str_ltb (a b : string) : bool :=
  match a, b with
  | _, EmptyString => false
  | EmptyString, String _ _ => true
  | String c a', String d b' => (byte c <? byte d) || ((byte c =? byte d) && str_ltb a' b')
  end.

(** Jobs without a time come last. *)
Definition scheduled_less (a b : option Z) : bool :=
  match a, b with
  | Some x, Some y => x <? y
  | Some _, None => true
  | None, _ => false
  end.

Definition job_less (orderBy : string) (a b : Job) : bool :=
  if String.eqb orderBy "updated_at" then UpdatedAt a <? UpdatedAt b
  else if String.eqb orderBy "scheduled_at" then scheduled_less (ScheduledAt a) (ScheduledAt b)
  else if String.eqb orderBy "status" then str_ltb (Status a) (Status b)
  else if String.eqb orderBy "task_type" then str_ltb (TaskType a) (TaskType b)
  else CreatedAt a <? CreatedAt b.

(** The comparison given to [sort.Slice]: descending is "not less". *)
Definition comparison (f : JobFilter) (a b : Job) : bool :=
  if String.eqb (OrderDirection f) "ASC" then job_less (OrderBy f) a b else negb (job_less (OrderBy f) a b).

Definition page_limit (limit : Z) : Z := if (limit <=? 0) || (100 <? limit) then 100 else limit.

Section Listing.
Context {S : SliceSort}.

Definition sortJobs (f : JobFilter) (l : list Job) : list Job := sort_slice (comparison f) l.

(** [order] is the order in which the map is ranged over. *)
Definition matching (f : JobFilter) (order : list (string * Job)) : list Job :=
  List.filter (fun j => matchesFilter j f) (map snd order).

Definition paginate (f : JobFilter) (l : list Job) : list Job :=
  if Z.of_nat (length l) <=? Offset f then []
  else
    let l := if 0 <? Offset f then skipn (Z.to_nat (Offset f)) l else l in
    firstn (Z.to_nat (page_limit (Limit f))) l.

Definition ListJobs (f : JobFilter) (order : list (string * Job)) : list Job := paginate f (sortJobs f (matching f order)).

Definition CountJobs (f : JobFilter) (order : list (string * Job)) : Z := Z.of_nat (length (matching f order)).

Definition GetJobsByStatus (status : string) (limit : Z) : list (string * Job) -> list Job :=
  ListJobs (mkJobFilter [status] [] "" None None None None None limit 0 "" "").

Definition GetPendingJobs (now limit : Z) : list (string * Job) -> list Job :=
  ListJobs (mkJobFilter [JobStatusPending; JobStatusScheduled] [] "" (Some now) None None None None limit 0 "scheduled_at" "ASC").

Definition GetRecurringJobs : list (string * Job) -> list Job :=
  ListJobs (mkJobFilter [] [] "" None None None None (Some true) 1000 0 "" "").

(** ** The comparisons are orderings *)
Definition weak {A} (less : A -> A -> bool) : Prop := ordering less.

Lemma ordering_negb {A} (less : A -> A -> bool) : ordering less -> ordering (fun a b => negb (less a b)).
Proof.
  intros [Ht Hn]. split; intros a b c; rewrite ?negb_true_iff, ?negb_false_iff; [apply Hn | apply Ht].
Qed.

Lemma ordering_by {A B} (key : A -> B) (less : B -> B -> bool) : ordering less -> ordering (fun a b => less (key a) (key b)).
Proof. intros [Ht Hn]. split; intros a b c; [apply Ht | apply Hn]. Qed.

Lemma Z_ltb_ordering : ordering Z.ltb.
Proof. split; intros a b c; rewrite ?Z.ltb_lt, ?Z.ltb_ge; lia. Qed.

Lemma scheduled_less_ordering : ordering scheduled_less.
Proof. split; intros [a|] [b|] [c|]; cbn; try done; rewrite ?Z.ltb_lt, ?Z.ltb_ge; lia. Qed.

Lemma str_ltb_ordering : ordering str_ltb.
Proof.
  split.
  - intros a. induction a as [|x a IH]; intros [|y b] [|z c]; cbn; try done.
    rewrite !orb_true_iff, !andb_true_iff, !Z.ltb_lt, !Z.eqb_eq. intros [H1|[H1 H2]] [H3|[H3 H4]]; [left; lia.. |].
    right. split; [congruence | by eapply IH].
  - intros a. induction a as [|x a IH]; intros [|y b] [|z c]; cbn; try done.
    rewrite !orb_false_iff, !andb_false_iff, !Z.ltb_ge, !Z.eqb_neq. intros [H1 H2] [H3 H4].
    split; [lia|]. destruct (decide (byte x = byte z)) as [He|]; [|by left]. right.
    destruct H2 as [|H2]; [lia|]. destruct H4 as [|H4]; [lia|]. by eapply IH.
Qed.

Lemma comparison_ordering f : ordering (comparison f).
Proof.
  assert (ordering (job_less (OrderBy f))) as H.
  { unfold job_less. destruct (String.eqb _ _); [apply (ordering_by UpdatedAt), Z_ltb_ordering|].
    destruct (String.eqb _ _); [apply (ordering_by ScheduledAt), scheduled_less_ordering|].
    destruct (String.eqb _ _); [apply (ordering_by Status), str_ltb_ordering|].
    destruct (String.eqb _ _); [apply (ordering_by TaskType), str_ltb_ordering | apply (ordering_by CreatedAt), Z_ltb_ordering]. }
  unfold comparison. destruct (String.eqb _ _); [exact H | by apply ordering_negb].
Qed.

(** ** Paging through the jobs *)
Definition with_offset (f : JobFilter) (offset : Z) : JobFilter :=
  mkJobFilter (f_Status f) (TaskTypes f) (f_Queue f) (ScheduledBefore f) (ScheduledAfter f) (CreatedBefore f) (CreatedAfter f)
    (WithCron f) (Limit f) offset (OrderBy f) (OrderDirection f).

(** Different jobs that match have different keys. *)
Definition distinct_keys (f : JobFilter) (l : list Job) : Prop :=
  forall x y, x ∈ l -> y ∈ l -> job_less (OrderBy f) x y = false -> job_less (OrderBy f) y x = false -> x = y.

Context {L : LawfulSort S}.

Lemma perm_filter {A} (p : A -> bool) (l1 l2 : list A) : l1 ≡ₚ l2 -> List.filter p l1 ≡ₚ List.filter p l2.
Proof.
  induction 1 as [|x l1 l2 _ IH|x y l|l1 l2 l3 _ IH1 _ IH2]; cbn; [done | | | by etransitivity].
  - by destruct (p x); [apply Permutation_cons|].
  - destruct (p x), (p y); try done. apply perm_swap.
Qed.

Lemma in_order_antisym f l x y : distinct_keys f l -> x ∈ l -> y ∈ l ->
  in_order (comparison f) x y -> in_order (comparison f) y x -> x = y.
Proof.
  intros Hd Hx Hy. assert (forall a b, job_less (OrderBy f) a b = true -> job_less (OrderBy f) b a = true -> False) as Hasym.
  { intros a b H1 H2. pose proof (comparison_ordering (mkJobFilter [] [] "" None None None None None 0 0 (OrderBy f) "ASC")) as [Ht _].
    pose proof (Ht _ _ _ H1 H2) as H. unfold comparison, job_less in H. cbn in H.
    assert (forall s, str_ltb s s = false) as Hs by (intros s; induction s as [|c s IH]; cbn; [done|]; rewrite IH, Z.ltb_irrefl, andb_false_r; done).
    assert (forall t, scheduled_less t t = false) as Hsch by (intros [t|]; cbn; [apply Z.ltb_irrefl | done]).
    rewrite !Hs, !Z.ltb_irrefl, Hsch in H. by repeat destruct (String.eqb _ _). }
  unfold in_order, comparison. intros H1 H2. apply Hd; [done | done | |].
  all: destruct (job_less (OrderBy f) x y) eqn:E1, (job_less (OrderBy f) y x) eqn:E2; try done; try by destruct (Hasym _ _ E1 E2).
  all: destruct (String.eqb _ _); cbn in *; naive_solver.
Qed.

Lemma sorted_once f o1 o2 : o1 ≡ₚ o2 -> distinct_keys f (matching f o1) ->
  sortJobs f (matching f o1) = sortJobs f (matching f o2).
Proof.
  intros Hp Hd. unfold sortJobs.
  assert (matching f o1 ≡ₚ matching f o2) as Hm.
  { unfold matching. by apply perm_filter, Permutation_map. }
  apply (StronglySorted_unique_strong (in_order (comparison f))).
  - intros x y Hx Hy. rewrite sort_perm in Hx, Hy. rewrite <-Hm in Hy. by apply (in_order_antisym f (matching f o1)).
  - apply sort_sorted, comparison_ordering.
  - apply sort_sorted, comparison_ordering.
  - by rewrite !sort_perm.
Qed.

Lemma concat_pages {A} (m : nat) (l : list A) n : concat (map (fun k => firstn m (skipn (k * m) l)) (seq 0 n)) = firstn (n * m) l.
Proof.
  induction n as [|n IH]; [done|]. rewrite seq_S, map_app, concat_app, IH. cbn. rewrite app_nil_r.
  rewrite take_take_drop. f_equal. lia.
Qed.

Lemma paginate_page f l k : 0 < Limit f <= 100 ->
  paginate (with_offset f (Z.of_nat k * Limit f)) l = firstn (Z.to_nat (Limit f)) (skipn (k * Z.to_nat (Limit f)) l).
Proof.
  intros HL. unfold paginate, page_limit. cbn [Offset with_offset Limit].
  replace ((Limit f <=? 0) || (100 <? Limit f)) with false by lia.
  destruct (Z.leb_spec (Z.of_nat (length l)) (Z.of_nat k * Limit f)) as [Hle|Hlt].
  - by rewrite skipn_all2, firstn_nil by lia.
  - destruct (Z.ltb_spec 0 (Z.of_nat k * Limit f)).
    + by replace (Z.to_nat (Z.of_nat k * Limit f)) with (k * Z.to_nat (Limit f))%nat by lia.
    + by replace (k * Z.to_nat (Limit f))%nat with 0%nat by lia.
Qed.

Lemma pages_spec f (orders : nat -> list (string * Job)) (all : list (string * Job)) n :
  0 < Limit f <= 100 -> (forall k, orders k ≡ₚ all) -> distinct_keys f (matching f all) ->
  concat (map (fun k => ListJobs (with_offset f (Z.of_nat k * Limit f)) (orders k)) (seq 0 n)) =
  firstn (n * Z.to_nat (Limit f)) (sortJobs f (matching f all)).
Proof.
  intros HL Ho Hd. rewrite <-concat_pages. f_equal. apply map_ext. intros k. unfold ListJobs. rewrite paginate_page by done.
  change (sortJobs (with_offset f _) (matching (with_offset f _) (orders k))) with (sortJobs f (matching f (orders k))).
  by rewrite (sorted_once f all (orders k)).
Qed.
End Listing.

(** However many recurring jobs there are. *)
Lemma recurring_cut {S : SliceSort} order : (length (GetRecurringJobs order) <= 100)%nat.
Proof.
  unfold GetRecurringJobs, ListJobs, paginate. destruct (_ <=? _); [cbn; lia|]. cbn [Offset Limit]. cbn. rewrite length_firstn. lia.
Qed.

(** ** Insertion sort is a [SliceSort] *)
Fixpoint insert {A} (less : A -> A -> bool) (x : A) (l : list A) : list A :=
  match l with
  | [] => [x]
  | y :: l' => if less x y || negb (less y x) then x :: l else y :: insert less x l'
  end.
Definition insertion_sort : SliceSort := fun _ less l => fold_right (insert less) [] l.

Lemma insert_perm {A} (less : A -> A -> bool) x l : insert less x l ≡ₚ x :: l.
Proof.
  induction l as [|y l IH]; cbn; [done|]. destruct (_ || _); [done|]. rewrite IH. apply perm_swap.
Qed.

Lemma in_order_trans {A} (less : A -> A -> bool) a b c : ordering less -> in_order less a b -> in_order less b c -> in_order less a c.
Proof.
  intros [Ht Hn] [Hab|Hab] [Hbc|Hbc]; unfold in_order.
  - left. by eapply Ht.
  - destruct (less a c) eqn:E; [by left|]. right. destruct (less c a) eqn:E'; [|done].
    by rewrite (Ht _ _ _ E' Hab) in Hbc.
  - destruct (less a c) eqn:E; [by left|]. right. destruct (less c a) eqn:E'; [|done].
    by rewrite (Ht _ _ _ Hbc E') in Hab.
  - right. by eapply Hn.
Qed.

Lemma insert_sorted {A} (less : A -> A -> bool) x l : ordering less ->
  StronglySorted (in_order less) l -> StronglySorted (in_order less) (insert less x l).
Proof.
  intros Ho. induction 1 as [|y l Hs IH Hy]; cbn; [by repeat constructor|]. destruct (less x y || negb (less y x)) eqn:E.
  - assert (in_order less x y) as Hxy by (apply orb_true_iff in E as [E|E%negb_true_iff]; [by left | by right]).
    constructor; [by constructor|]. constructor; [done|]. apply (Forall_impl _ _ _ Hy). intros z Hz. by eapply in_order_trans.
  - apply orb_false_iff in E as [E1 E2%negb_false_iff]. constructor; [done|].
    apply Forall_forall. intros z. rewrite insert_perm. intros [->|Hz]%elem_of_cons; [by left|].
    exact (proj1 (Forall_forall _ _) Hy z Hz).
Qed.

#[export] Instance insertion_sort_lawful : LawfulSort insertion_sort.
Proof.
  split; intros A less l; unfold sort_slice, insertion_sort.
  - induction l as [|x l IH]; cbn; [done|]. by rewrite insert_perm, IH.
  - intros Ho. induction l as [|x l IH]; cbn; [constructor | by apply insert_sorted].
Qed.

(** ** Properties *)

(** Paging through the jobs of a filter with any limit up to 100 visits every
    job that matches, once, in the order asked for - provided matching jobs
    differ in the field they are ordered by, and in whatever order the map is
    ranged over at each call. *)
Theorem pages_cover {S : SliceSort} {L : LawfulSort S} (r : MemoryJobRepository) (f : JobFilter)
    (orders : nat -> list (string * Job)) (n : nat) :
  0 < Limit f <= 100 -> (forall k, orders k ≡ₚ map_to_list r) -> distinct_keys f (matching f (map_to_list r)) ->
  CountJobs f (map_to_list r) <= Z.of_nat n * Limit f ->
  let pages := concat (map (fun k => ListJobs (with_offset f (Z.of_nat k * Limit f)) (orders k)) (seq 0 n)) in
  pages ≡ₚ matching f (map_to_list r) /\ StronglySorted (in_order (comparison f)) pages.
Proof.
  intros HL Ho Hd Hn. cbv zeta. rewrite (pages_spec f orders (map_to_list r) n HL Ho Hd), firstn_all2.
  - split; [apply sort_perm | apply sort_sorted, comparison_ordering].
  - unfold sortJobs. rewrite sort_perm. unfold CountJobs in Hn. lia.
Qed.

Definition job (id : string) (t : Z) : Job :=
  with_times t t (mkJob id "cleanup" "{}" JobStatusPending "default" None None None None 0 3 "" "" "" "" 0 0 0 ∅).
Definition three_jobs : MemoryJobRepository := {[ "a" := job "a" 1; "b" := job "b" 2; "c" := job "c" 3 ]}.
Definition by_two : JobFilter := mkJobFilter [] [] "" None None None None None 2 0 "created_at" "DESC".

Lemma pages_cover_witness :
  let S := insertion_sort in
  (0 < Limit by_two <= 100) /\ CountJobs by_two (map_to_list three_jobs) <= 2 * Limit by_two /\
  let pages := concat (map (fun k => ListJobs (with_offset by_two (Z.of_nat k * Limit by_two)) (map_to_list three_jobs)) (seq 0 2)) in
  pages ≡ₚ matching by_two (map_to_list three_jobs) /\ StronglySorted (in_order (comparison by_two)) pages.
Proof.
  intros S. assert (0 < Limit by_two <= 100) as HL by (cbn; lia).
  assert (CountJobs by_two (map_to_list three_jobs) <= 2 * Limit by_two) as Hn by (vm_compute; discriminate).
  split; [exact HL|]. split; [exact Hn|].
  refine (pages_cover three_jobs by_two (fun _ => map_to_list three_jobs) 2 HL (fun _ => reflexivity _) _ Hn).
  intros x y Hx Hy.
  assert (forall z, z ∈ matching by_two (map_to_list three_jobs) -> z = job "a" 1 \/ z = job "b" 2 \/ z = job "c" 3) as Hall.
  { intros z Hz. apply list_elem_of_In in Hz. vm_compute in Hz. vm_compute. intuition. }
  destruct (Hall x Hx) as [-> | [-> | ->]], (Hall y Hy) as [-> | [-> | ->]]; vm_compute; intros; done.
Defined.
