(* ===== verification/JobScheduler.v ===== *)
(** Scheduling jobs: the service of
    [internal/scheduler/service/scheduler_service.go], the tasks and the
    manager of [internal/scheduler/queue], the registry of
    [internal/scheduler/handlers] and the loader of
    [internal/scheduler/dsl_loader.go].

    Asynq is the broker behind the manager: what was asked of it is a log, what
    it answers a parameter.  So are JSON, cron expressions and durations.
    Identifiers and times are arguments.  Sending an event is recorded. *)

From Stdlib Require Import ZArith Lia.
From stdpp Require Import base strings list gmap.
From S2P Require Import Prelude GoStrings GoValue DslAst Retry JobRepository.

#[local] Open Scope string_scope.
#[local] Open Scope Z_scope.

(** ** Tasks *)
Definition QueueCritical : string := "critical".
Definition QueueDefault : string := "default".
Definition QueueLow : string := "low".

Record Task := mkTask {
  t_Type : string; t_Payload : string; t_Queue : string; MaxRetry : Z; t_Timeout : Z; Deadline : option Z; Retention : Z;
  UniqueKey : string; UniqueTTL : Z; Group : string }.

Inductive AsynqOption :=
| OptQueue (name : string) | OptMaxRetry (n : Z) | OptTimeout (d : Z) | OptDeadline (t : Z) | OptRetention (d : Z)
| OptUnique (ttl : Z) | OptGroup (name : string) | OptProcessAt (t : Z) | OptProcessIn (d : Z).

(** What the manager asks of Asynq. *)
Inductive BrokerRequest :=
| Enqueue (type payload : string) (opts : list AsynqOption)
| RegisterCron (spec type payload : string) (opts : list AsynqOption)
| UnregisterCron (entryID : string).

Section Tasks.
(** [json.Marshal]. *)
Variable marshal : GoVal -> result string string.

Definition NewTask (taskType : string) (payload : GoVal) : result string Task :=
  match marshal payload with
  | Err e => Err e
  | Ok data => Ok (mkTask taskType data QueueDefault 3 0 None 0 "" 0 "")
  end.
End Tasks.

Definition WithQueue (q : string) (t : Task) : Task :=
  mkTask (t_Type t) (t_Payload t) q (MaxRetry t) (t_Timeout t) (Deadline t) (Retention t) (UniqueKey t) (UniqueTTL t) (Group t).
Definition WithMaxRetry (n : Z) (t : Task) : Task :=
  mkTask (t_Type t) (t_Payload t) (t_Queue t) n (t_Timeout t) (Deadline t) (Retention t) (UniqueKey t) (UniqueTTL t) (Group t).
Definition WithTimeout (d : Z) (t : Task) : Task :=
  mkTask (t_Type t) (t_Payload t) (t_Queue t) (MaxRetry t) d (Deadline t) (Retention t) (UniqueKey t) (UniqueTTL t) (Group t).

Definition when {A} (b : bool) (x : A) : list A := if b then [x] else [].

Definition base_options (t : Task) : list AsynqOption := [OptQueue (t_Queue t); OptMaxRetry (MaxRetry t)].
Definition timing_options (t : Task) : list AsynqOption :=
  (when (0 <? t_Timeout t)%Z (OptTimeout (t_Timeout t)) ++ when (0 <? Retention t)%Z (OptRetention (Retention t)))%list.

Definition EnqueueTask (t : Task) : BrokerRequest :=
  Enqueue (t_Type t) (t_Payload t)
    (base_options t ++ when (0 <? t_Timeout t)%Z (OptTimeout (t_Timeout t)) ++
     match Deadline t with Some d => [OptDeadline d] | None => [] end ++
     when (0 <? Retention t)%Z (OptRetention (Retention t)) ++
     when (negb (String.eqb (UniqueKey t) "") && (0 <? UniqueTTL t)%Z) (OptUnique (UniqueTTL t)) ++
     when (negb (String.eqb (Group t) "")) (OptGroup (Group t)))%list.
Definition ScheduleTask (t : Task) (processAt : Z) : BrokerRequest :=
  Enqueue (t_Type t) (t_Payload t) (base_options t ++ OptProcessAt processAt :: timing_options t)%list.
Definition EnqueueIn (t : Task) (delay : Z) : BrokerRequest :=
  Enqueue (t_Type t) (t_Payload t) (base_options t ++ OptProcessIn delay :: timing_options t)%list.
(** The identifier the caller proposes is not used. *)
Definition EnqueueRecurringTask (t : Task) (cronSpec entryID : string) : BrokerRequest :=
  RegisterCron cronSpec (t_Type t) (t_Payload t) (base_options t ++ timing_options t)%list.

(** ** Delays between retries *)

(** [time.Duration(1<<uint(n)) * time.Second]: the shift of an [int64]. *)
Definition retry_delay (n : Z) : Z :=
  let shifted := if (0 <=? n) && (n <? 64) then wrap64 (Z.shiftl 1 n) else 0 in
  let delay := wrap64 (shifted * Second) in
  if 10 * Minute <? delay then 10 * Minute else delay.

Record RetryPolicy := mkRetryPolicy { p_MaxRetries : Z; InitialDelay : Z; p_MaxDelay : Z; p_Multiplier : float64 }.
Definition DefaultRetryPolicy : RetryPolicy := mkRetryPolicy 3 (10 * Second) (10 * Minute) f_two.

Section Delay.
Variable overflow : float64 -> Z.
Fixpoint delay_loop (turns : nat) (p : RetryPolicy) (delay : Z) : Z :=
  match turns with
  | O => delay
  | S turns' =>
      let delay' := Retry.int_of_float overflow (f_mul (f_of_int delay) (p_Multiplier p)) in
      if p_MaxDelay p <? delay' then p_MaxDelay p else delay_loop turns' p delay'
  end.
Definition CalculateDelay (p : RetryPolicy) (attempt : Z) : Z :=
  if attempt <=? 0 then InitialDelay p else delay_loop (Z.to_nat attempt) p (InitialDelay p).
End Delay.

(** ** The service *)
Record JobRequest := mkJobRequest {
  r_TaskType : string; r_Payload : GoVal; r_Queue : string; r_MaxRetries : Z; r_Timeout : Z; r_Metadata : gmap string GoVal }.

Record State := mkState {
  jobs : MemoryJobRepository;
  requests : list BrokerRequest;                            (** to Asynq, the last first *)
  events : list (string * gmap string GoVal) }.       (** dispatched, the last first *)

Inductive ServiceError :=
| MarshalPayload (e : string) | CreateTaskError (e : string) | EnqueueError (e : string) | ScheduleError (e : string)
| RegisterError (e : string) | GetJobError (e : RepoError) | AlreadyDone (status : string) | UpdateStatusError (e : RepoError)
| IncrementError (e : RepoError).

Section Service.
Variable marshal : GoVal -> result string string.
(** Asynq's answer after earlier requests: the identifier of the task or entry. *)
Variable broker : list BrokerRequest -> BrokerRequest -> result string string.

Definition dispatch (type : string) (data : gmap string GoVal) (s : State) : State :=
  mkState (jobs s) (requests s) ((type, data) :: events s).
Definition ask (q : BrokerRequest) (s : State) : State * result string string :=
  (mkState (jobs s) (q :: requests s) (events s), broker (requests s) q).
Definition with_jobs (r : MemoryJobRepository) (s : State) : State := mkState r (requests s) (events s).
Definition set_job_status (jobID status : string) (err : option string) (now : Z) (s : State) : State * result RepoError unit :=
  let '(r, res) := UpdateJobStatus jobID status err now (jobs s) in (with_jobs r s, res).

Definition queue_of (req : JobRequest) : string := if String.eqb (r_Queue req) "" then QueueDefault else r_Queue req.
Definition retries_of (req : JobRequest) : Z := if r_MaxRetries req <=? 0 then 3 else r_MaxRetries req.

Definition new_job (id payload status : string) (at_ : option Z) (cron entry : string) (req : JobRequest) : Job :=
  mkJob id (r_TaskType req) payload status (queue_of req) at_ None None None 0 (retries_of req) "" "" cron entry
    (r_Timeout req) 0 0 (r_Metadata req).

Definition task_of (req : JobRequest) : result string Task :=
  match NewTask marshal (r_TaskType req) (r_Payload req) with
  | Err e => Err e
  | Ok t => let t := WithMaxRetry (retries_of req) (WithQueue (queue_of req) t) in
            Ok (if 0 <? r_Timeout req then WithTimeout (r_Timeout req) t else t)
  end.

Definition job_created (id : string) (req : JobRequest) : gmap string GoVal :=
  {[ "job_id" := VString id; "task_type" := VString (r_TaskType req) ]}.

Definition SubmitJob (jobID : string) (t1 t2 now : Z) (req : JobRequest) (s : State) : State * result ServiceError string :=
  match marshal (r_Payload req) with
  | Err e => (s, Err (MarshalPayload e))
  | Ok payload =>
      let s := with_jobs (CreateJob (new_job jobID payload JobStatusPending None "" "" req) t1 t2 (jobs s)) s in
      let s := dispatch "job.created" (job_created jobID req) s in
      match task_of req with
      | Err e => (s, Err (CreateTaskError e))
      | Ok task =>
          match ask (EnqueueTask task) s with
          | (s, Err e) => ((set_job_status jobID JobStatusFailed (Some ("enqueue task: " ++ e)) now s).1, Err (EnqueueError e))
          | (s, Ok _) => (s, Ok jobID)
          end
      end
  end.

Definition ScheduleJob (jobID : string) (t1 t2 now : Z) (req : JobRequest) (scheduleTime : Z) (s : State)
  : State * result ServiceError string :=
  match marshal (r_Payload req) with
  | Err e => (s, Err (MarshalPayload e))
  | Ok payload =>
      let s := with_jobs (CreateJob (new_job jobID payload JobStatusScheduled (Some scheduleTime) "" "" req) t1 t2 (jobs s)) s in
      let s := dispatch "job.scheduled" (<[ "scheduled_at" := VTime scheduleTime ]> (job_created jobID req)) s in
      match task_of req with
      | Err e => (s, Err (CreateTaskError e))
      | Ok task =>
          match ask (ScheduleTask task scheduleTime) s with
          | (s, Err e) => ((set_job_status jobID JobStatusFailed (Some ("schedule task: " ++ e)) now s).1, Err (ScheduleError e))
          | (s, Ok _) => (s, Ok jobID)
          end
      end
  end.

(** Creating the record cannot fail in the memory repository. *)
Definition CreateRecurringJob (jobID : string) (t1 t2 : Z) (req : JobRequest) (cronSpec : string) (s : State)
  : State * result ServiceError string :=
  match marshal (r_Payload req) with
  | Err e => (s, Err (MarshalPayload e))
  | Ok payload =>
      match task_of req with
      | Err e => (s, Err (CreateTaskError e))
      | Ok task =>
          match ask (EnqueueRecurringTask task cronSpec jobID) s with
          | (s, Err e) => (s, Err (RegisterError e))
          | (s, Ok entryID) =>
              let s := with_jobs (CreateJob (new_job jobID payload JobStatusScheduled None cronSpec entryID req) t1 t2 (jobs s)) s in
              (dispatch "job.scheduled" (<[ "cron_expression" := VString cronSpec ]> (job_created jobID req)) s, Ok jobID)
          end
      end
  end.

(** An update that has to succeed, and the event that announces it. *)
Definition announce (jobID type : string) (data : gmap string GoVal) (s : State) : State :=
  dispatch type (<[ "job_id" := VString jobID ]> data) s.

Definition CancelJob (jobID : string) (now : Z) (s : State) : State * result ServiceError unit :=
  match GetJob jobID (jobs s) with
  | Err e => (s, Err (GetJobError e))
  | Ok job =>
      if String.eqb (Status job) JobStatusCompleted || String.eqb (Status job) JobStatusCancelled
      then (s, Err (AlreadyDone (Status job)))
      else
        let s := if String.eqb (CronEntryID job) "" then s else (ask (UnregisterCron (CronEntryID job)) s).1 in
        match set_job_status jobID JobStatusCancelled None now s with
        | (s, Err e) => (s, Err (UpdateStatusError e))
        | (s, Ok _) => (announce jobID "job.cancelled" ∅ s, Ok tt)
        end
  end.

Definition MarkJobStarted (jobID : string) (now : Z) (s : State) : State * result ServiceError unit :=
  match set_job_status jobID JobStatusRunning None now s with
  | (s, Err e) => (s, Err (UpdateStatusError e))
  | (s, Ok _) => (announce jobID "job.started" ∅ s, Ok tt)
  end.

Definition MarkJobCompleted (jobID : string) (now now' : Z) (res : option GoVal) (s : State) : State * result ServiceError unit :=
  match set_job_status jobID JobStatusCompleted None now s with
  | (s, Err e) => (s, Err (UpdateStatusError e))
  | (s, Ok _) =>
      let s := match res with
               | Some v => match marshal v with
                           | Ok b => with_jobs (SetJobResult jobID b now' (jobs s)).1 s
                           | Err _ => s
                           end
               | None => s
               end in
      (announce jobID "job.completed" ∅ s, Ok tt)
  end.

Definition MarkJobFailed (jobID : string) (now : Z) (jobErr : string) (s : State) : State * result ServiceError unit :=
  match set_job_status jobID JobStatusFailed (Some jobErr) now s with
  | (s, Err e) => (s, Err (UpdateStatusError e))
  | (s, Ok _) => (announce jobID "job.failed" {[ "error" := VString jobErr ]} s, Ok tt)
  end.

Definition MarkJobRetrying (jobID : string) (now now' : Z) (s : State) : State * result ServiceError unit :=
  match set_job_status jobID JobStatusRetrying None now s with
  | (s, Err e) => (s, Err (UpdateStatusError e))
  | (s, Ok _) =>
      match IncrementRetryCount jobID now' (jobs s) with
      | (_, Err e) => (s, Err (IncrementError e))
      | (r, Ok _) => (announce jobID "job.retrying" ∅ (with_jobs r s), Ok tt)
      end
  end.

(** ** Waiting jobs *)
Inductive JobOp :=
| OpSubmit (jobID : string) (t1 t2 now : Z) (req : JobRequest)
| OpSchedule (jobID : string) (t1 t2 now : Z) (req : JobRequest) (at_ : Z)
| OpRecurring (jobID : string) (t1 t2 : Z) (req : JobRequest) (cron : string)
| OpCancel (jobID : string) (now : Z) | OpStarted (jobID : string) (now : Z)
| OpCompleted (jobID : string) (now now' : Z) (res : option GoVal) | OpFailed (jobID : string) (now : Z) (err : string)
| OpRetrying (jobID : string) (now now' : Z).

Definition run_op (s : State) (o : JobOp) : State :=
  match o with
  | OpSubmit id t1 t2 now req => (SubmitJob id t1 t2 now req s).1
  | OpSchedule id t1 t2 now req at_ => (ScheduleJob id t1 t2 now req at_ s).1
  | OpRecurring id t1 t2 req cron => (CreateRecurringJob id t1 t2 req cron s).1
  | OpCancel id now => (CancelJob id now s).1
  | OpStarted id now => (MarkJobStarted id now s).1
  | OpCompleted id now now' res => (MarkJobCompleted id now now' res s).1
  | OpFailed id now err => (MarkJobFailed id now err s).1
  | OpRetrying id now now' => (MarkJobRetrying id now now' s).1
  end.
Definition run_ops (ops : list JobOp) (s : State) : State := fold_left run_op ops s.

(** The request asks Asynq to run what the job records. *)
Definition carries (j : Job) (q : BrokerRequest) : Prop :=
  match q with
  | Enqueue ty p opts => ty = TaskType j /\ p = Payload j /\ [OptQueue (Queue j); OptMaxRetry (MaxRetries j)] `prefix_of` opts
  | RegisterCron spec ty p opts =>
      spec = CronExpression j /\ ty = TaskType j /\ p = Payload j /\ [OptQueue (Queue j); OptMaxRetry (MaxRetries j)] `prefix_of` opts
  | UnregisterCron _ => False
  end.
Definition waiting (j : Job) : Prop := Status j = JobStatusPending \/ Status j = JobStatusScheduled.
Definition queued (qs : list BrokerRequest) (j : Job) : Prop := waiting j -> Exists (carries j) qs.
Definition waiting_queued (s : State) : Prop := map_Forall (fun _ j => queued (requests s) j) (jobs s).

Lemma queued_more qs q j : queued qs j -> queued (q :: qs) j.
Proof. intros H Hw. right. by apply H. Qed.

Lemma ask_queued q s : waiting_queued s -> waiting_queued (ask q s).1.
Proof. intros H id j Hj. cbn in *. apply queued_more. by apply (H id). Qed.

Lemma dispatch_queued t d s : waiting_queued s -> waiting_queued (dispatch t d s).
Proof. done. Qed.

Lemma insert_queued id j s : waiting_queued s -> queued (requests s) j -> waiting_queued (with_jobs (<[ id := j ]> (jobs s)) s).
Proof. intros H Hj. by apply map_Forall_insert_2. Qed.

(** A job is given a status that is not one of waiting. *)
Lemma set_status_queued id status err now s : status <> JobStatusPending -> status <> JobStatusScheduled ->
  waiting_queued s -> waiting_queued (set_job_status id status err now s).1.
Proof.
  intros H1 H2 H. unfold set_job_status, UpdateJobStatus, modify. destruct (jobs s !! id) as [j|]; [|done].
  cbn. apply insert_queued; [done|]. intros [Hw|Hw]; cbn in Hw; congruence.
Qed.

Lemma task_of_spec req payload t : marshal (r_Payload req) = Ok payload -> task_of req = Ok t ->
  t_Type t = r_TaskType req /\ t_Payload t = payload /\ t_Queue t = queue_of req /\ MaxRetry t = retries_of req.
Proof.
  unfold task_of, NewTask. intros ->. intros [= <-]. by destruct (0 <? r_Timeout req).
Qed.

Lemma task_of_ok req payload : marshal (r_Payload req) = Ok payload -> exists t, task_of req = Ok t.
Proof. unfold task_of, NewTask. intros ->. eauto. Qed.

(** Recording a job and asking for it; the status afterwards if that fails. *)
Lemma record_ask_queued id j q err now s d ty : carries j q -> waiting_queued s ->
  let s1 := dispatch ty d (with_jobs (<[ id := j ]> (jobs s)) s) in
  waiting_queued (ask q s1).1 /\ waiting_queued (set_job_status id JobStatusFailed err now (ask q s1).1).1.
Proof.
  intros Hc H. cbv zeta.
  assert (waiting_queued (ask q (dispatch ty d (with_jobs (<[ id := j ]> (jobs s)) s))).1) as H1.
  { unfold waiting_queued. cbn. apply map_Forall_insert_2; [intros _; by left|]. intros i x Hx. apply queued_more. by apply (H i). }
  split; [exact H1|]. by apply set_status_queued.
Qed.

Lemma mark_queued id status err now ty d s : status <> JobStatusPending -> status <> JobStatusScheduled -> waiting_queued s ->
  waiting_queued (match set_job_status id status err now s with
                  | (s, Err e) => (s, Err (UpdateStatusError e) : result ServiceError unit)
                  | (s, Ok _) => (announce id ty d s, Ok tt)
                  end).1.
Proof.
  intros H1 H2 H. pose proof (set_status_queued id status err now s H1 H2 H) as Hs. by destruct (set_job_status _ _ _ _ _) as [s' []].
Qed.

(** A change that leaves what is waiting, and what it asks for, alone. *)
Lemma modify_queued f id s : (forall j, Status (f j) = Status j /\ forall q, carries j q -> carries (f j) q) ->
  waiting_queued s -> waiting_queued (with_jobs (modify id f (jobs s)).1 s).
Proof.
  intros Hf H. unfold modify. destruct (jobs s !! id) as [j|] eqn:Hj; [|by destruct s].
  cbn. apply insert_queued; [done|]. unfold queued, waiting. destruct (Hf j) as [-> Hc]. intros Hw.
  apply (Exists_impl (carries j)); [by apply (H id) | exact Hc].
Qed.

Lemma submit_queued id t1 t2 now req s : waiting_queued s -> waiting_queued (SubmitJob id t1 t2 now req s).1.
Proof.
  intros H. unfold SubmitJob. destruct (marshal (r_Payload req)) as [p|] eqn:Hm; [|done].
  destruct (task_of_ok req p Hm) as [t Ht]. rewrite Ht. destruct (task_of_spec _ _ _ Hm Ht) as (E1 & E2 & E3 & E4).
  set (j := with_times t1 t2 (new_job id p JobStatusPending None "" "" req)).
  assert (carries j (EnqueueTask t)) as Hc.
  { cbn. rewrite E1, E2, E3, E4. split; [done|]. split; [done|]. by eexists. }
  pose proof (fun e => record_ask_queued id j (EnqueueTask t) (Some ("enqueue task: " ++ e)) now s (job_created id req) "job.created" Hc H) as Hr.
  unfold CreateJob. change (ID (new_job _ _ _ _ _ _ _)) with id. fold j. cbv zeta in Hr. revert Hr.
  destruct (ask _ _) as [s' [b|e]]; intros Hr; [apply (Hr "") | apply (Hr e)].
Qed.

Lemma schedule_queued id t1 t2 now req at_ s : waiting_queued s -> waiting_queued (ScheduleJob id t1 t2 now req at_ s).1.
Proof.
  intros H. unfold ScheduleJob. destruct (marshal (r_Payload req)) as [p|] eqn:Hm; [|done].
  destruct (task_of_ok req p Hm) as [t Ht]. rewrite Ht. destruct (task_of_spec _ _ _ Hm Ht) as (E1 & E2 & E3 & E4).
  set (j := with_times t1 t2 (new_job id p JobStatusScheduled (Some at_) "" "" req)).
  assert (carries j (ScheduleTask t at_)) as Hc.
  { cbn. rewrite E1, E2, E3, E4. split; [done|]. split; [done|]. by eexists. }
  pose proof (fun e => record_ask_queued id j (ScheduleTask t at_) (Some ("schedule task: " ++ e)) now s
    (<[ "scheduled_at" := VTime at_ ]> (job_created id req)) "job.scheduled" Hc H) as Hr.
  unfold CreateJob. change (ID (new_job _ _ _ _ _ _ _)) with id. fold j. cbv zeta in Hr. revert Hr.
  destruct (ask _ _) as [s' [b|e]]; intros Hr; [apply (Hr "") | apply (Hr e)].
Qed.

Lemma recurring_queued id t1 t2 req cron s : waiting_queued s -> waiting_queued (CreateRecurringJob id t1 t2 req cron s).1.
Proof.
  intros H. unfold CreateRecurringJob. destruct (marshal (r_Payload req)) as [p|] eqn:Hm; [|done].
  destruct (task_of_ok req p Hm) as [t Ht]. rewrite Ht. destruct (task_of_spec _ _ _ Hm Ht) as (E1 & E2 & E3 & E4).
  pose proof (ask_queued (EnqueueRecurringTask t cron id) s H) as Ha. unfold ask in *. cbn [fst] in Ha.
  destruct (broker _ _) as [entry|e]; [|exact Ha].
  apply dispatch_queued. apply (insert_queued id _ (mkState _ _ _)); [exact Ha|]. intros _. left. cbn.
  rewrite E1, E2, E3, E4. split; [done|]. split; [done|]. split; [done|]. by eexists.
Qed.

Lemma run_op_queued o s : waiting_queued s -> waiting_queued (run_op s o).
Proof.
  intros H. destruct o; cbn [run_op].
  - by apply submit_queued.
  - by apply schedule_queued.
  - by apply recurring_queued.
  - unfold CancelJob. destruct (GetJob _ _) as [j|]; [|done]. destruct (_ || _); [done|]. apply mark_queued; [done | done |].
    destruct (String.eqb _ _); [done | by apply ask_queued].
  - by apply mark_queued.
  - unfold MarkJobCompleted. pose proof (set_status_queued jobID JobStatusCompleted None now s ltac:(done) ltac:(done) H) as Hs.
    destruct (set_job_status _ _ _ _ _) as [s' [|]]; [|done]. apply dispatch_queued. destruct res as [v|]; [|done].
    destruct (marshal v); [|done]. apply modify_queued; [|done]. done.
  - by apply mark_queued.
  - unfold MarkJobRetrying. pose proof (set_status_queued jobID JobStatusRetrying None now s ltac:(done) ltac:(done) H) as Hs.
    destruct (set_job_status _ _ _ _ _) as [s' [|]]; [|done]. unfold IncrementRetryCount.
    pose proof (modify_queued (count_retry now') jobID s' ltac:(done) Hs) as Hm.
    destruct (modify jobID (count_retry now') (jobs s')) as [r [|]]; done.
Qed.

Lemma run_ops_queued ops : forall s, waiting_queued s -> waiting_queued (run_ops ops s).
Proof. induction ops as [|o ops IH]; intros s H; [done|]. apply IH. by apply run_op_queued. Qed.

Lemma set_job_status_found id status err now s j : jobs s !! id = Some j ->
  set_job_status id status err now s = (with_jobs (<[ id := set_status status err now j ]> (jobs s)) s, Ok tt).
Proof. intros H. unfold set_job_status, UpdateJobStatus, modify. by rewrite H. Qed.

(** A cancelled job that is not recurring stays with Asynq, and runs. *)
Lemma cancel_leaves_task id j now now' s : jobs s !! id = Some j -> CronEntryID j = "" ->
  Status j <> JobStatusCompleted -> Status j <> JobStatusCancelled ->
  let s1 := (CancelJob id now s).1 in let s2 := (MarkJobStarted id now' s1).1 in
  (CancelJob id now s).2 = Ok tt /\ requests s1 = requests s /\
  (exists j1, jobs s1 !! id = Some j1 /\ Status j1 = JobStatusCancelled) /\
  (MarkJobStarted id now' s1).2 = Ok tt /\ exists j2, jobs s2 !! id = Some j2 /\ Status j2 = JobStatusRunning.
Proof.
  intros Hj Hcron H1%String.eqb_neq H2%String.eqb_neq.
  assert (CancelJob id now s =
    (announce id "job.cancelled" ∅ (with_jobs (<[ id := set_status JobStatusCancelled None now j ]> (jobs s)) s), Ok tt)) as ->.
  { unfold CancelJob, GetJob. rewrite Hj, H1, H2, Hcron. cbn [orb String.eqb]. by rewrite (set_job_status_found _ _ _ _ _ _ Hj). }
  cbv zeta. cbn [fst snd]. unfold MarkJobStarted. erewrite set_job_status_found by apply lookup_insert_eq.
  split; [done|]. split; [done|]. split; [eexists; split; [apply lookup_insert_eq | done]|].
  split; [done|]. eexists. split; [apply lookup_insert_eq | done].
Qed.
End Service.

(** The delays: doubled until ten minutes; from [n = 34] on the product
    overflows, first to a negative number and in the end to zero. *)
Lemma retry_delay_small n : 0 <= n < 34 -> retry_delay n = Z.min (2 ^ n * Second) (10 * Minute).
Proof.
  intros H. assert (In n (map Z.of_nat (seq 0 34))) as Hin by (apply in_map_iff; exists (Z.to_nat n); rewrite in_seq; lia).
  revert Hin. clear H. cbn [seq map]. intros Hin. repeat (destruct Hin as [<-|Hin]; [vm_compute; reflexivity|]). destruct Hin.
Qed.

Lemma retry_delay_overflows : retry_delay 34 = -1266874889709551616 /\ retry_delay 64 = 0.
Proof. by vm_compute. Qed.

(** ** Handlers of tasks *)
Section Handlers.
(** What a handler does to the world, given a task; it may panic. *)
Variable W : Type.
Inductive Outcome := Finished | Failed (err : string) | Panicked (v : string).
Definition HandlerFunc : Type := string * string -> W -> W * Outcome.

Abbreviation Registry := (gmap string HandlerFunc).

Definition Registry_Register (taskType : string) (h : HandlerFunc) (r : Registry) : Registry := <[ taskType := h ]> r.
Definition Registry_Unregister (taskType : string) (r : Registry) : Registry := delete taskType r.
Definition Registry_Get (taskType : string) (r : Registry) : option HandlerFunc := r !! taskType.
Definition Registry_Has (taskType : string) (r : Registry) : bool := bool_decide (is_Some (r !! taskType)).

Definition MiddlewareFunc : Type := HandlerFunc -> HandlerFunc.
(** The loop runs from the last middleware to the first. *)
Definition wrap (ms : list MiddlewareFunc) (h : HandlerFunc) : HandlerFunc := fold_left (fun h m => m h) (rev ms) h.
Definition WithMiddleware (ms : list MiddlewareFunc) (r : Registry) : Registry := wrap ms <$> r.

Definition RecoveryMiddleware (next : HandlerFunc) : HandlerFunc := fun t w =>
  match next t w with
  | (w, Panicked v) => (w, Failed ("task panicked: " ++ v))
  | res => res
  end.
(** Whether the context is done is the world's. *)
Definition TimeoutMiddleware (ctx_err : W -> option string) (next : HandlerFunc) : HandlerFunc := fun t w =>
  match ctx_err w with Some e => (w, Failed e) | None => next t w end.

(** The first middleware is the outermost. *)
Lemma wrap_cons m ms h : wrap (m :: ms) h = m (wrap ms h).
Proof. unfold wrap. cbn. by rewrite fold_left_app. Qed.

Lemma recovered next t w v : (RecoveryMiddleware next t w).2 <> Panicked v.
Proof. unfold RecoveryMiddleware. by destruct (next t w) as [w' []]. Qed.

Lemma with_middleware_get ms r taskType : Registry_Get taskType (WithMiddleware ms r) = wrap ms <$> Registry_Get taskType r.
Proof. apply lookup_fmap. Qed.
End Handlers.

(** ** Jobs of a specification *)
Record DSLRetryPolicy := mkDSLRetryPolicy { MaxAttempts : Z; dp_InitialInterval : Z; dp_BackoffMultiplier : float64 }.
Record DSLJobConfig := mkDSLJobConfig {
  dj_Name : string; dj_Schedule : string; dj_Task : string; dj_Queue : string; RetryPolicy_ : DSLRetryPolicy }.

Inductive LoadError :=
| InvalidSchedule (schedule err : string) | InvalidInterval (err : string) | JobNameRequired | LoadingJob (name : string) (e : LoadError).

Section Loader.
(** [cron.Parser.Parse] (the error) and [time.ParseDuration]. *)
Variables (cron_error : string -> option string) (ParseDuration : string -> result string Z).

Definition defaultJobRetryPolicy : DSLRetryPolicy := mkDSLRetryPolicy 3 (10 * Second) f_two.

Definition convertJobRetryPolicy (d : RetryPolicyDecl) : result LoadError DSLRetryPolicy :=
  match (if String.eqb (InitialInterval d) "" then Ok (10 * Second) else ParseDuration (InitialInterval d)) with
  | Err e => Err (InvalidInterval e)
  | Ok i => Ok (mkDSLRetryPolicy (rp_MaxAttempts d) i (if f_lt f_zero (BackoffMultiplier d) then BackoffMultiplier d else f_two))
  end.

Definition LoadJobFromAST (d : JobDecl) : result LoadError DSLJobConfig :=
  let queue := if String.eqb (DslAst.Queue d) "" then "default" else DslAst.Queue d in
  match (if String.eqb (Schedule d) "" then None else cron_error (Schedule d)) with
  | Some e => Err (InvalidSchedule (Schedule d) e)
  | None =>
      match (match job_Retry d with Some r => convertJobRetryPolicy r | None => Ok defaultJobRetryPolicy end) with
      | Err e => Err e
      | Ok p => Ok (mkDSLJobConfig (job_Name d) (Schedule d) (DslAst.Task d) queue p)
      end
  end.

Abbreviation DSLJobRegistry := (gmap string DSLJobConfig).
Definition Register (c : DSLJobConfig) (r : DSLJobRegistry) : DSLJobRegistry * option LoadError :=
  if String.eqb (dj_Name c) "" then (r, Some JobNameRequired) else (<[ dj_Name c := c ]> r, None).
Definition Get (name : string) (r : DSLJobRegistry) : option DSLJobConfig := r !! name.
Definition GetScheduledJobs (order : list (string * DSLJobConfig)) : list DSLJobConfig :=
  List.filter (fun c => negb (String.eqb (dj_Schedule c) "")) (map snd order).

Fixpoint LoadJobs (decls : list JobDecl) (r : DSLJobRegistry) : DSLJobRegistry * option LoadError :=
  match decls with
  | [] => (r, None)
  | d :: decls' =>
      match LoadJobFromAST d with
      | Err e => (r, Some (LoadingJob (job_Name d) e))
      | Ok c => match Register c r with
                | (r, Some e) => (r, Some e)
                | (r, None) => LoadJobs decls' r
                end
      end
  end.

(** The last declaration of a name wins. *)
Definition last_decl (decls : list JobDecl) (name : string) : option JobDecl :=
  hd_error (List.filter (fun d => String.eqb (job_Name d) name) (rev decls)).

Lemma load_jobs_get decls : forall r r', LoadJobs decls r = (r', None) -> forall name,
  match last_decl decls name with
  | Some d => exists c, LoadJobFromAST d = Ok c /\ Get name r' = Some c
  | None => Get name r' = Get name r
  end.
Proof.
  induction decls as [|d decls IH] using rev_ind; intros r r'; [by intros [= ->]|].
  assert (forall l r0, LoadJobs (l ++ [d]) r0 = match LoadJobs l r0 with
            | (r1, Some e) => (r1, Some e)
            | (r1, None) => match LoadJobFromAST d with Err e => (r1, Some (LoadingJob (job_Name d) e)) | Ok c => Register c r1 end
            end) as Happ.
  { clear. induction l as [|x l IHl]; intros r0; cbn.
    - destruct (LoadJobFromAST d); [|done]. by destruct (Register a r0) as [r1 [e|]].
    - destruct (LoadJobFromAST x); [|done]. destruct (Register a r0) as [r1 [e|]]; [done | apply IHl]. }
  rewrite Happ. destruct (LoadJobs decls r) as [r1 [e|]] eqn:Hl; [done|]. destruct (LoadJobFromAST d) as [c|] eqn:Hd; [|done].
  unfold Register. destruct (String.eqb (dj_Name c) "") eqn:Hn; [done|]. intros [= <-] name.
  assert (dj_Name c = job_Name d) as Hname.
  { unfold LoadJobFromAST in Hd. destruct (if String.eqb (Schedule d) "" then _ else _); [done|].
    destruct (match job_Retry d with Some _ => _ | None => _ end); [|done]. by injection Hd as <-. }
  unfold last_decl. rewrite rev_unit. cbn [List.filter]. destruct (String.eqb_spec (job_Name d) name) as [<-|Hne].
  - cbn. exists c. split; [done|]. unfold Get. rewrite Hname. apply lookup_insert_eq.
  - specialize (IH _ _ Hl name). unfold Get, last_decl in *. by rewrite lookup_insert_ne by congruence.
Qed.
End Loader.

(** ** Properties *)

(** Whatever the service is asked to do, every job it records as pending or
    scheduled has been accepted for the queue: Asynq was asked to run its task,
    with its payload, in its queue, with its number of retries. *)
Theorem waiting_jobs_queued (marshal : GoVal -> result string string) (broker : list BrokerRequest -> BrokerRequest -> result string string)
    (ops : list JobOp) :
  let s := run_ops marshal broker ops (mkState NewMemoryJobRepository [] []) in
  map_Forall (fun _ j => waiting j -> Exists (carries j) (requests s)) (jobs s).
Proof. apply (run_ops_queued marshal broker ops), map_Forall_empty. Qed.
