(* ===== verification/EndpointValidator.v ===== *)
(** Validation of endpoints, [internal/validator/endpoint_validator.go], and of
    middleware, [middleware_validator.go], with the
    patterns for identifiers it shares with [workflow_validator.go].

    [v.errors.Add] is called with the position of the endpoint and a formatted
    message; the message is kept as its format and arguments ([Issue]), and each
    check returns what it adds, in order. *)

From Stdlib Require Import ZArith Lia Ascii.
From stdpp Require Import base strings list gmap.
From S2P Require Import Prelude GoStrings GoText DslAst DslValidator.

#[local] Open Scope string_scope.

(** ** Patterns *)
Definition is_ident_start (c : ascii) : bool := is_letter c || Ascii.eqb c "_".

Definition isValidIdentifier (name : string) : bool :=
  match name with EmptyString => false | String c s => is_ident_start c && str_forall is_word s end.

Definition isValidTypeName (name : string) : bool :=
  match name with EmptyString => false | String c s => is_upper c && str_forall (fun c => is_letter c || is_digit c) s end.

Definition is_number (s : string) : bool :=
  match s with EmptyString => false | _ => str_forall is_digit s end.
(** An optional [v], then numbers separated by dots. *)
Definition isValidVersion (version : string) : bool := forallb is_number (Split "." (TrimPrefix version "v")).

Fixpoint word_prefix (s : string) : string :=
  match s with String c s' => if is_word c then String c (word_prefix s') else "" | EmptyString => "" end.
Definition starts_ident (s : string) : bool :=
  match s with String c _ => is_ident_start c | EmptyString => false end.
(** The names after the colons.  A match holds no colon but its first, so the
    search goes on after it. *)
Fixpoint extractPathParams (path : string) : list string :=
  match path with
  | EmptyString => []
  | String c s =>
      if Ascii.eqb c ":" && starts_ident s then word_prefix s :: extractPathParams s else extractPathParams s
  end.

(** ** State *)
Inductive Issue :=
| DuplicateEndpoint (key : string) (first : Position)
| InvalidMethod (method : string)
| PathMustStartWithSlash (path : string)
| DuplicatePathParam (param path : string)
| InvalidPathParam (param path : string)
| DoubleSlashes (path : string)
| DuplicateMiddleware (name method path : string)
| InvalidMiddlewareName (name : string)
| UnknownMiddleware (name method path : string)
| DuplicateAnnotation (name method path : string)
| InvalidAnnotationName (name : string)
| AuthNeedsValue (method path : string)
| RateLimitNotNumeric (method path : string)
| NotSemver (value : string)
| InvalidRequestType (name method path : string)
| UnknownRequestType (name method path : string)
| InvalidRequestSource (source : string)
| InvalidResponseType (name method path : string)
| UnknownResponseType (name method path : string)
| InvalidStatusCode (code : Z)
| DeleteReturns201 (path : string)
| EmptyAction (method path : string)
| InvalidAction (action method path : string)
| UnknownAction (action method path : string)
| InvalidTarget (target method path : string)
| InvalidArgument (arg action : string)
| InvalidOptionKey (key action : string)
| BodyNotAllowed (method path : string).

Record EndpointValidator := mkEndpointValidator {
  errors : list (Position * Issue); endpoints : gmap string EndpointDecl;
  middlewares : gset string; types : gset string; actions : gset string }.

Definition NewEndpointValidator : EndpointValidator := mkEndpointValidator [] ∅ ∅ ∅ ∅.
Definition RegisterMiddleware (name : string) (v : EndpointValidator) : EndpointValidator :=
  mkEndpointValidator (errors v) (endpoints v) ({[name]} ∪ middlewares v) (types v) (actions v).
Definition RegisterType (name : string) (v : EndpointValidator) : EndpointValidator :=
  mkEndpointValidator (errors v) (endpoints v) (middlewares v) ({[name]} ∪ types v) (actions v).
Definition RegisterAction (name : string) (v : EndpointValidator) : EndpointValidator :=
  mkEndpointValidator (errors v) (endpoints v) (middlewares v) (types v) ({[name]} ∪ actions v).

(** ** The checks *)
Definition issue_if (b : bool) (i : Issue) : list Issue := if b then [i] else [].

(** Strict once a name is registered: [len(m) > 0 && !m[name]]. *)
Definition unknown (m : gset string) (name : string) : bool := negb (bool_decide (m = ∅)) && negb (seen name m).

Definition valid_methods : list string := ["GET"; "POST"; "PUT"; "DELETE"; "PATCH"].
Definition validateHTTPMethod (decl : EndpointDecl) : list Issue :=
  issue_if (negb (one_of valid_methods (ep_Method decl))) (InvalidMethod (ep_Method decl)).

Fixpoint check_params (path : string) (params : list string) (seenParams : gset string) : list Issue :=
  match params with
  | [] => []
  | p :: ps =>
      (issue_if (seen p seenParams) (DuplicatePathParam p path) ++
       issue_if (negb (isValidIdentifier p)) (InvalidPathParam p path) ++
       check_params path ps ({[p]} ∪ seenParams))%list
  end.
Definition validatePath (decl : EndpointDecl) : list Issue :=
  let path := ep_Path decl in
  (issue_if (negb (HasPrefix path "/")) (PathMustStartWithSlash path) ++
   check_params path (extractPathParams path) ∅ ++
   issue_if (Contains path "//") (DoubleSlashes path))%list.

Fixpoint check_middlewares (known : gset string) (decl : EndpointDecl) (mws : list MiddlewareRef) (seenMws : gset string) : list Issue :=
  match mws with
  | [] => []
  | mw :: mws' =>
      let name := mr_Name mw in
      (issue_if (seen name seenMws) (DuplicateMiddleware name (ep_Method decl) (ep_Path decl)) ++
       issue_if (negb (isValidIdentifier name)) (InvalidMiddlewareName name) ++
       issue_if (unknown known name) (UnknownMiddleware name (ep_Method decl) (ep_Path decl)) ++
       check_middlewares known decl mws' ({[name]} ∪ seenMws))%list
  end.
Definition validateMiddlewares (v : EndpointValidator) (decl : EndpointDecl) : list Issue :=
  check_middlewares (middlewares v) decl (ep_Middlewares decl) ∅.

Definition validateAnnotationValue (ann : Annotation) (decl : EndpointDecl) : list Issue :=
  if String.eqb (an_Name ann) "auth" then
    issue_if (String.eqb (an_Value ann) "") (AuthNeedsValue (ep_Method decl) (ep_Path decl))
  else if String.eqb (an_Name ann) "rate_limit" then
    issue_if (negb (String.eqb (an_Value ann) "") && negb (is_ok (ParseInt (an_Value ann))))
      (RateLimitNotNumeric (ep_Method decl) (ep_Path decl))
  else if String.eqb (an_Name ann) "version" then
    issue_if (negb (String.eqb (an_Value ann) "") && negb (isValidVersion (an_Value ann))) (NotSemver (an_Value ann))
  else [].

Definition repeatable (name : string) : bool := String.eqb name "tag".
(** An unknown annotation is accepted. *)
Fixpoint check_annotations (decl : EndpointDecl) (anns : list Annotation) (seenAnns : gset string) : list Issue :=
  match anns with
  | [] => []
  | ann :: anns' =>
      let name := an_Name ann in
      (issue_if (seen name seenAnns && negb (repeatable name)) (DuplicateAnnotation name (ep_Method decl) (ep_Path decl)) ++
       issue_if (negb (isValidIdentifier name)) (InvalidAnnotationName name) ++
       validateAnnotationValue ann decl ++
       check_annotations decl anns' ({[name]} ∪ seenAnns))%list
  end.
Definition validateAnnotations (decl : EndpointDecl) : list Issue := check_annotations decl (ep_Annotations decl) ∅.

Definition valid_sources : list string := ["body"; "query"; "path"; "header"].
Definition validateRequestType (v : EndpointValidator) (req : RequestType) (decl : EndpointDecl) : list Issue :=
  (issue_if (negb (isValidTypeName (rq_TypeName req))) (InvalidRequestType (rq_TypeName req) (ep_Method decl) (ep_Path decl)) ++
   issue_if (unknown (types v) (rq_TypeName req)) (UnknownRequestType (rq_TypeName req) (ep_Method decl) (ep_Path decl)) ++
   issue_if (negb (one_of valid_sources (rq_Source req))) (InvalidRequestSource (rq_Source req)))%list.

Definition validateStatusCodeForMethod (status : Z) (decl : EndpointDecl) : list Issue :=
  issue_if (String.eqb (ep_Method decl) "DELETE" && (status =? 201)%Z) (DeleteReturns201 (ep_Path decl)).
Definition validateResponseType (v : EndpointValidator) (resp : ResponseType) (decl : EndpointDecl) : list Issue :=
  (issue_if (negb (isValidTypeName (rs_TypeName resp))) (InvalidResponseType (rs_TypeName resp) (ep_Method decl) (ep_Path decl)) ++
   issue_if (unknown (types v) (rs_TypeName resp)) (UnknownResponseType (rs_TypeName resp) (ep_Method decl) (ep_Path decl)) ++
   issue_if ((StatusCode resp <? 100) || (599 <? StatusCode resp))%Z (InvalidStatusCode (StatusCode resp)) ++
   validateStatusCodeForMethod (StatusCode resp) decl)%list.

Definition valid_argument (arg : string) : bool :=
  HasPrefix arg (String dquote "") || isValidIdentifier arg || String.eqb arg "request" || String.eqb arg "response".
(** The targets seen so far are recorded and not used. *)
Definition validateLogicStep (v : EndpointValidator) (decl : EndpointDecl) (step : LogicStep) : list Issue :=
  let m := ep_Method decl in let p := ep_Path decl in let a := ls_Action step in
  if String.eqb a "" then [EmptyAction m p]
  else
    (issue_if (negb (isValidIdentifier a)) (InvalidAction a m p) ++
     issue_if (unknown (actions v) a) (UnknownAction a m p) ++
     issue_if (negb (String.eqb (ls_Target step) "") && negb (isValidIdentifier (ls_Target step))) (InvalidTarget (ls_Target step) m p) ++
     concat (map (fun arg => issue_if (negb (valid_argument arg)) (InvalidArgument arg a)) (ls_Args step)) ++
     concat (map (fun opt => issue_if (negb (isValidIdentifier (opt_Key opt))) (InvalidOptionKey (opt_Key opt) a)) (ls_Options step)))%list.
Definition validateHandlerLogic (v : EndpointValidator) (logic : HandlerLogic) (decl : EndpointDecl) : list Issue :=
  concat (map (validateLogicStep v decl) (hl_Steps logic)).

Definition validateRequestSourceMethodConsistency (req : RequestType) (decl : EndpointDecl) : list Issue :=
  issue_if (one_of ["GET"; "DELETE"] (ep_Method decl) && String.eqb (rq_Source req) "body") (BodyNotAllowed (ep_Method decl) (ep_Path decl)).

Definition when_set {A} (o : option A) (f : A -> list Issue) : list Issue := match o with Some x => f x | None => [] end.
Definition validateHandler (v : EndpointValidator) (decl : EndpointDecl) : list Issue :=
  when_set (ep_Handler decl) (fun h =>
    when_set (h_Request h) (fun r => validateRequestType v r decl) ++
    when_set (h_Response h) (fun r => validateResponseType v r decl) ++
    when_set (h_Logic h) (fun l => validateHandlerLogic v l decl) ++
    when_set (h_Request h) (fun r => validateRequestSourceMethodConsistency r decl))%list.

(** ** The validator *)
Definition endpoint_key (decl : EndpointDecl) : string := ep_Method decl ++ " " ++ ep_Path decl.

Definition add_all (decl : EndpointDecl) (issues : list Issue) (v : EndpointValidator) : EndpointValidator :=
  mkEndpointValidator (errors v ++ map (pair (ep_pos decl)) issues)%list (endpoints v) (middlewares v) (types v) (actions v).

Definition validateEndpoint (v : EndpointValidator) (d : option EndpointDecl) : EndpointValidator :=
  match d with
  | None => v
  | Some decl =>
      let key := endpoint_key decl in
      match endpoints v !! key with
      | Some existing => add_all decl [DuplicateEndpoint key (ep_pos existing)] v
      | None =>
          let v := mkEndpointValidator (errors v) (<[key := decl]> (endpoints v)) (middlewares v) (types v) (actions v) in
          add_all decl (validateHTTPMethod decl ++ validatePath decl ++ validateMiddlewares v decl ++
                        validateAnnotations decl ++ validateHandler v decl)%list v
      end
  end.

Definition ValidateEndpoints (decls : list (option EndpointDecl)) (v : EndpointValidator) :
    EndpointValidator * list (Position * Issue) :=
  let v := fold_left validateEndpoint decls v in (v, errors v).

(** * What acceptance means *)
Lemma issue_if_nil b i : issue_if b i = [] <-> b = false.
Proof. by destruct b. Qed.
Lemma app_nil_iff {A} (a b : list A) : (a ++ b)%list = [] <-> a = [] /\ b = [].
Proof. split; [apply app_eq_nil|by intros [-> ->]]. Qed.
Lemma concat_map_nil {A B} (f : A -> list B) l : concat (map f l) = [] <-> forall x, x ∈ l -> f x = [].
Proof.
  induction l as [|x l IH]; cbn [map concat]; [set_solver|]. rewrite app_nil_iff, IH. set_solver.
Qed.
Lemma one_of_true l s : one_of l s = true <-> s ∈ l.
Proof.
  unfold one_of. rewrite existsb_exists. split.
  - intros (x & Hx & ->%String.eqb_eq). by apply list_elem_of_In.
  - intros Hs. exists s. split; [by apply list_elem_of_In|apply String.eqb_refl].
Qed.
Lemma unknown_false (m : gset string) s : unknown m s = false <-> m = ∅ \/ s ∈ m.
Proof.
  unfold unknown. rewrite andb_false_iff, !negb_false_iff, bool_decide_eq_true, seen_true. done.
Qed.

Lemma omap_Some {A} (l : list A) : omap id (map Some l) = l.
Proof. induction l as [|x l IH]; [done|]. cbn. by rewrite IH. Qed.

(** *** Names in paths *)
Lemma word_prefix_word s : str_forall is_word (word_prefix s) = true.
Proof. induction s as [|c s IH]; cbn; [done|]. destruct (is_word c) eqn:E; cbn; [by rewrite E|done]. Qed.
Lemma ident_start_word c : is_ident_start c = true -> is_word c = true.
Proof. unfold is_ident_start, is_word. destruct (is_letter c), (Ascii.eqb c "_"), (is_digit c); done. Qed.
Lemma word_prefix_ident s : starts_ident s = true -> isValidIdentifier (word_prefix s) = true.
Proof.
  destruct s as [|c s]; cbn; [done|]. intros Hc. rewrite (ident_start_word _ Hc). cbn. by rewrite Hc, word_prefix_word.
Qed.
Lemma extract_idents path : Forall (fun p => isValidIdentifier p = true) (extractPathParams path).
Proof.
  induction path as [|c s IH]; cbn; [done|]. destruct (Ascii.eqb c ":" && starts_ident s) eqn:E; [|done].
  constructor; [|done]. apply andb_true_iff in E as [_ E]. by apply word_prefix_ident.
Qed.

(** A slash ends a name. *)
Lemma word_prefix_slash a b : word_prefix (a ++ String "/" b) = word_prefix a.
Proof. induction a as [|c a IH]; cbn; [done|]. destruct (is_word c); [by f_equal|done]. Qed.
Lemma extract_slash a b : extractPathParams (a ++ String "/" b) = (extractPathParams a ++ extractPathParams b)%list.
Proof.
  induction a as [|c a IH]; [done|].
  change (String c a ++ String "/" b) with (String c (a ++ String "/" b)). cbn [extractPathParams].
  replace (starts_ident (a ++ String "/" b)) with (starts_ident a) by by destruct a.
  rewrite word_prefix_slash, IH. by destruct (Ascii.eqb c ":" && starts_ident a).
Qed.
Lemma extract_segments segs : extractPathParams (Join segs "/") = concat (map extractPathParams segs).
Proof.
  induction segs as [|p [|q segs] IH]; [done|cbn; by rewrite app_nil_r|].
  change (Join (p :: q :: segs) "/") with (p ++ String "/" (Join (q :: segs) "/")). by rewrite extract_slash, IH.
Qed.

(** *** Versions *)
Definition numbers_of (version : string) (ns : list string) : Prop :=
  ns <> [] /\ Forall (fun n => is_number n = true) ns /\ (version = Join ns "." \/ version = "v" ++ Join ns ".").
Lemma number_no_dot n : is_number n = true -> count_byte "." n = 0.
Proof. intros H. apply (count_byte_none _ is_digit); [done|]. by destruct n. Qed.
Lemma numbers_Join ns : ns <> [] -> Forall (fun n => is_number n = true) ns ->
  Split "." (Join ns ".") = ns /\ HasPrefix (Join ns ".") "v" = false.
Proof.
  intros Hne Hn. split.
  - apply Split_Join; [done|]. eapply Forall_impl; [exact Hn|]. apply number_no_dot.
  - destruct ns as [|n ns]; [done|]. apply Forall_cons_1 in Hn as [Hc _]. destruct n as [|c n]; [discriminate Hc|].
    apply not_true_is_false. intros [t Ht]%HasPrefix_spec.
    assert (c = "v"%char) as -> by (destruct ns; cbn in Ht; congruence). discriminate Hc.
Qed.
Lemma forallb_Forall_true {A} (f : A -> bool) l : forallb f l = true <-> Forall (fun x => f x = true) l.
Proof. rewrite forallb_forall, Forall_forall. split; intros H x Hx; apply H; by apply list_elem_of_In. Qed.

Lemma isValidVersion_spec version : isValidVersion version = true <-> exists ns, numbers_of version ns.
Proof.
  unfold isValidVersion, numbers_of. rewrite forallb_Forall_true. split.
  - intros H. exists (Split "." (TrimPrefix version "v")). repeat split.
    + intros E. pose proof (Split_length "." (TrimPrefix version "v")) as Hl. by rewrite E in Hl.
    + done.
    + rewrite Join_Split. unfold TrimPrefix. destruct (HasPrefix version "v") eqn:E; [right|by left].
      apply HasPrefix_spec in E as [t ->]. done.
  - intros (ns & Hne & Hn & Hv). destruct (numbers_Join ns Hne Hn) as [Hs Hp].
    destruct Hv as [-> | ->]; [unfold TrimPrefix; by rewrite Hp, Hs|].
    unfold TrimPrefix. rewrite HasPrefix_app. change (drop_str _ _) with (Join ns "."). by rewrite Hs.
Qed.

(** *** Well-formed endpoints *)
Definition identifier (n : string) : Prop := isValidIdentifier n = true.
Definition allowed (m : gset string) (n : string) : Prop := m = ∅ \/ n ∈ m.

Record annotation_ok (a : Annotation) : Prop := {
  ann_name : identifier (an_Name a);
  ann_auth : an_Name a = "auth" -> an_Value a <> "";
  ann_limit : an_Name a = "rate_limit" -> an_Value a = "" \/ exists n, ParseInt (an_Value a) = Ok n;
  ann_version : an_Name a = "version" -> an_Value a = "" \/ exists ns, numbers_of (an_Value a) ns }.

Record step_ok (v : EndpointValidator) (s : LogicStep) : Prop := {
  step_action : identifier (ls_Action s) /\ allowed (actions v) (ls_Action s);
  step_target : ls_Target s = "" \/ identifier (ls_Target s);
  step_args : forall a, a ∈ ls_Args s -> identifier a \/ exists t, a = String dquote t;
  step_options : forall o, o ∈ ls_Options s -> identifier (opt_Key o) }.

Record request_ok (v : EndpointValidator) (e : EndpointDecl) (r : RequestType) : Prop := {
  req_type : isValidTypeName (rq_TypeName r) = true /\ allowed (types v) (rq_TypeName r);
  req_source : rq_Source r ∈ valid_sources;
  req_body : ep_Method e ∈ ["GET"; "DELETE"] -> rq_Source r <> "body" }.

Record response_ok (v : EndpointValidator) (e : EndpointDecl) (r : ResponseType) : Prop := {
  resp_type : isValidTypeName (rs_TypeName r) = true /\ allowed (types v) (rs_TypeName r);
  resp_status : (100 <= StatusCode r <= 599)%Z;
  resp_created : ep_Method e = "DELETE" -> StatusCode r <> 201%Z }.

Definition unrepeatable (anns : list Annotation) : list string :=
  List.filter (fun n => negb (repeatable n)) (map an_Name anns).

Record well_formed (v : EndpointValidator) (e : EndpointDecl) : Prop := {
  wf_method : ep_Method e ∈ valid_methods;
  wf_slash : exists p, ep_Path e = "/" ++ p;
  wf_double : ~ exists a b, ep_Path e = a ++ "//" ++ b;
  wf_params : NoDup (extractPathParams (ep_Path e));
  wf_chain : NoDup (map mr_Name (ep_Middlewares e));
  wf_names : forall n, n ∈ map mr_Name (ep_Middlewares e) -> identifier n /\ allowed (middlewares v) n;
  wf_once : NoDup (unrepeatable (ep_Annotations e));
  wf_annotations : Forall annotation_ok (ep_Annotations e);
  wf_request : forall h r, ep_Handler e = Some h -> h_Request h = Some r -> request_ok v e r;
  wf_response : forall h r, ep_Handler e = Some h -> h_Response h = Some r -> response_ok v e r;
  wf_logic : forall h l s, ep_Handler e = Some h -> h_Logic h = Some l -> s ∈ hl_Steps l -> step_ok v s }.

Lemma check_params_nil path ps : Forall (fun p => identifier p) ps -> forall s,
  check_params path ps s = [] <-> NoDup ps /\ (forall p, p ∈ ps -> p ∉ s).
Proof.
  induction 1 as [|p ps Hp Hps IH]; intros s; cbn [check_params].
  - split; [split; [constructor|set_solver]|done].
  - unfold identifier in Hp. rewrite !app_nil_iff, !issue_if_nil, seen_false, IH, NoDup_cons, Hp. set_solver.
Qed.
Lemma check_middlewares_nil known decl mws : forall s, check_middlewares known decl mws s = [] <->
  NoDup (map mr_Name mws) /\ (forall n, n ∈ map mr_Name mws -> (n ∉ s) /\ identifier n /\ allowed known n).
Proof.
  induction mws as [|mw mws IH]; intros s; cbn [check_middlewares map].
  - split; [split; [constructor|set_solver]|done].
  - rewrite !app_nil_iff, !issue_if_nil, seen_false, negb_false_iff, unknown_false, IH, NoDup_cons.
    change (isValidIdentifier (mr_Name mw) = true) with (identifier (mr_Name mw)).
    change (known = ∅ \/ mr_Name mw ∈ known) with (allowed known (mr_Name mw)). set_solver.
Qed.
Lemma annotation_value_nil a decl : identifier (an_Name a) -> (validateAnnotationValue a decl = [] <-> annotation_ok a).
Proof.
  intros Hid. unfold validateAnnotationValue.
  assert (forall (b : bool), negb (String.eqb (an_Value a) "") && negb b = false <-> an_Value a = "" \/ b = true) as Hor.
  { intros b. rewrite andb_false_iff, !negb_false_iff. destruct (String.eqb_spec (an_Value a) ""); intuition congruence. }
  destruct (String.eqb_spec (an_Name a) "auth") as [E|]; [|destruct (String.eqb_spec (an_Name a) "rate_limit") as [E|];
    [|destruct (String.eqb_spec (an_Name a) "version") as [E|]]]; rewrite ?issue_if_nil.
  - rewrite String.eqb_neq. split; [intros H|intros []; auto]. by constructor; try congruence.
  - rewrite Hor. split; [intros H|intros [_ _ H _]; destruct (H E) as [|[m ->]]; auto].
    constructor; try congruence. intros _. destruct H as [|H]; [by left|right]. destruct (ParseInt (an_Value a)); [eauto|done].
  - rewrite Hor, isValidVersion_spec. split; [intros H; by constructor; try congruence|intros []; auto].
  - split; [|done]. intros _. by constructor.
Qed.
Lemma check_annotations_nil decl anns : forall s, check_annotations decl anns s = [] <->
  NoDup (unrepeatable anns) /\ (forall n, n ∈ unrepeatable anns -> n ∉ s) /\ Forall annotation_ok anns.
Proof.
  unfold unrepeatable. induction anns as [|a anns IH]; intros s; cbn [check_annotations map List.filter].
  { split; [|done]. repeat split; [constructor|set_solver|constructor]. }
  rewrite !app_nil_iff, !issue_if_nil, andb_false_iff, seen_false, !negb_false_iff, IH, Forall_cons.
  assert (isValidIdentifier (an_Name a) = true /\ validateAnnotationValue a decl = [] <-> annotation_ok a) as Ha.
  { split; [intros [Hid Hv]; by apply (annotation_value_nil a decl Hid)|].
    intros Hok. split; [apply Hok|]. by apply annotation_value_nil; [apply Hok|]. }
  destruct (repeatable (an_Name a)) eqn:Er; cbn [negb].
  - assert (forall n, n ∈ List.filter (fun n => negb (repeatable n)) (map an_Name anns) -> n <> an_Name a) as Hne.
    { intros n Hn ->. apply list_elem_of_In, filter_In in Hn as [_ Hn]. by rewrite Er in Hn. }
    rewrite <- Ha. set_solver.
  - rewrite NoDup_cons, <- Ha. set_solver.
Qed.

Lemma when_set_nil {A} (o : option A) f : when_set o f = [] <-> forall x, o = Some x -> f x = [].
Proof. destruct o; cbn; naive_solver. Qed.

Lemma request_nil v e r :
  (validateRequestType v r e = [] /\ validateRequestSourceMethodConsistency r e = []) <-> request_ok v e r.
Proof.
  unfold validateRequestType, validateRequestSourceMethodConsistency.
  rewrite !app_nil_iff, !issue_if_nil, !negb_false_iff, unknown_false, one_of_true, andb_false_iff, String.eqb_neq.
  assert (one_of ["GET"; "DELETE"] (ep_Method e) = false <-> ~ ep_Method e ∈ ["GET"; "DELETE"]) as ->
    by (by rewrite <- one_of_true, not_true_iff_false).
  split.
  - intros ((H1 & H2 & H3) & H4). constructor; auto. intros Hm. by destruct H4.
  - intros [[H1 H2] H3 H4]. repeat split; auto. destruct (decide (ep_Method e ∈ ["GET"; "DELETE"])); auto.
Qed.
Lemma response_nil v e r : validateResponseType v r e = [] <-> response_ok v e r.
Proof.
  unfold validateResponseType, validateStatusCodeForMethod.
  rewrite !app_nil_iff, !issue_if_nil, negb_false_iff, unknown_false, orb_false_iff, andb_false_iff,
    !Z.ltb_ge, String.eqb_neq, Z.eqb_neq.
  split.
  - intros (H1 & H2 & H3 & H4). constructor; auto; try lia. intros Hm. by destruct H4.
  - intros [[H1 H2] H3 H4]. repeat split; auto; try lia. destruct (decide (ep_Method e = "DELETE")); auto.
Qed.

Lemma valid_argument_spec a : valid_argument a = true <-> identifier a \/ exists t, a = String dquote t.
Proof.
  unfold valid_argument. rewrite !orb_true_iff, !String.eqb_eq, HasPrefix_spec. split.
  - intros [[[[t ->] | H] | ->] | ->]; [right; by exists t|by left|by left|by left].
  - intros [H | [t ->]]; [auto|]. do 3 left. by exists t.
Qed.
Lemma step_nil v e s : validateLogicStep v e s = [] <-> step_ok v s.
Proof.
  unfold validateLogicStep. destruct (String.eqb_spec (ls_Action s) "") as [E|Hne].
  - split; [done|]. intros [[H _] _ _ _]. by rewrite E in H.
  - rewrite !app_nil_iff, !issue_if_nil, !negb_false_iff, unknown_false, andb_false_iff, !negb_false_iff, !concat_map_nil.
    setoid_rewrite issue_if_nil. setoid_rewrite negb_false_iff. setoid_rewrite valid_argument_spec.
    rewrite String.eqb_eq. split; [intros (? & ? & ? & ? & ?); by constructor|by intros [[] ? ? ?]].
Qed.

Lemma map_nil_iff {A B} (f : A -> B) l : map f l = [] <-> l = [].
Proof. by destruct l. Qed.

(** The checks of one endpoint, as [validateEndpoint] runs them. *)
Definition checks (v : EndpointValidator) (e : EndpointDecl) : list Issue :=
  (validateHTTPMethod e ++ validatePath e ++ validateMiddlewares v e ++ validateAnnotations e ++ validateHandler v e)%list.

Lemma handler_nil v e : validateHandler v e = [] <->
  (forall h r, ep_Handler e = Some h -> h_Request h = Some r -> request_ok v e r) /\
  (forall h r, ep_Handler e = Some h -> h_Response h = Some r -> response_ok v e r) /\
  (forall h l s, ep_Handler e = Some h -> h_Logic h = Some l -> s ∈ hl_Steps l -> step_ok v s).
Proof.
  unfold validateHandler, validateHandlerLogic. rewrite when_set_nil. setoid_rewrite app_nil_iff. setoid_rewrite app_nil_iff.
  setoid_rewrite app_nil_iff. setoid_rewrite when_set_nil. setoid_rewrite <- request_nil.
  setoid_rewrite response_nil. setoid_rewrite concat_map_nil. setoid_rewrite step_nil. naive_solver.
Qed.

Lemma path_nil e : validatePath e = [] <->
  (exists p, ep_Path e = "/" ++ p) /\ (~ exists a b, ep_Path e = a ++ "//" ++ b) /\ NoDup (extractPathParams (ep_Path e)).
Proof.
  unfold validatePath. rewrite !app_nil_iff, !issue_if_nil, negb_false_iff, HasPrefix_spec, <- not_true_iff_false, Contains_spec.
  rewrite check_params_nil by apply extract_idents. set_solver.
Qed.

Lemma checks_nil v e : checks v e = [] <-> well_formed v e.
Proof.
  unfold checks, validateHTTPMethod, validateMiddlewares, validateAnnotations.
  rewrite !app_nil_iff, !issue_if_nil, negb_false_iff, one_of_true, check_middlewares_nil, check_annotations_nil,
    handler_nil, path_nil.
  split.
  - intros (H1 & (H2 & H3 & H4) & (H5 & H6) & (H7 & _ & H8) & H9 & H10 & H11). constructor; auto. intros n Hn. by apply H6.
  - intros [H1 H2 H3 H4 H5 H6 H7 H8 H9 H10 H11].
    split; [done|split; [done|split; [|split; [split; [done|split; [intros ? _; apply not_elem_of_empty|done]]|done]]]].
    split; [done|]. intros n Hn. split; [apply not_elem_of_empty|by apply H6].
Qed.

(** Validating one endpoint. *)
Lemma validateEndpoint_some v e : validateEndpoint v (Some e) =
  match endpoints v !! endpoint_key e with
  | Some first => add_all e [DuplicateEndpoint (endpoint_key e) (ep_pos first)] v
  | None => add_all e (checks v e) (mkEndpointValidator (errors v) (<[endpoint_key e := e]> (endpoints v)) (middlewares v) (types v) (actions v))
  end.
Proof. done. Qed.

Lemma checks_names v e e' : checks (validateEndpoint v (Some e)) e' = checks v e'.
Proof. rewrite validateEndpoint_some. by destruct (endpoints v !! endpoint_key e). Qed.

(** ** Declarations that are checked unless their key has been seen *)
Section FirstDeclared.
Context {V D E : Type}.
Variables (validate : V -> option D -> V) (errs : V -> list E) (declared : V -> gmap string D).
Variables (key : D -> string) (check : V -> D -> list E).
Hypothesis skipped : forall v, validate v None = v.
Hypothesis first : forall v d, declared v !! key d = None ->
  errs (validate v (Some d)) = (errs v ++ check v d)%list /\ declared (validate v (Some d)) = <[key d := d]> (declared v).
Hypothesis again : forall v d f, declared v !! key d = Some f -> errs (validate v (Some d)) <> [].
Hypothesis stable : forall v d d', check (validate v (Some d)) d' = check v d'.

Lemma first_declared ds : forall v, errs (fold_left validate ds v) = [] <->
  errs v = [] /\ NoDup (map key (omap id ds)) /\
  forall d, d ∈ omap id ds -> declared v !! key d = None /\ check v d = [].
Proof.
  induction ds as [|[d|] ds IH]; intros v; cbn [fold_left].
  { cbn. split; [|by intros []]. intros ->. split; [done|]. split; [constructor|]. by intros e H%not_elem_of_nil. }
  2: { rewrite skipped. apply IH. }
  rewrite IH. cbn [omap list_omap id map]. rewrite NoDup_cons. setoid_rewrite elem_of_cons. setoid_rewrite stable.
  destruct (declared v !! key d) as [f|] eqn:Ef.
  { split; [intros [H _]; by eapply again in H|]. intros (_ & _ & H). destruct (H d); [by left|congruence]. }
  destruct (first v d Ef) as [-> ->]. rewrite app_nil_iff. split.
  - intros [[Hv He] [Hd Hes]]. split; [done|]. split; [split; [|done]|].
    + intros (d' & Hk & Hd')%list_elem_of_fmap. destruct (Hes d' Hd') as [H _]. by rewrite <- Hk, lookup_insert_eq in H.
    + intros d' [-> | Hd']; [done|]. destruct (Hes d' Hd') as [H Hw']. split; [|done]. by apply lookup_insert_None in H as [].
  - intros (Hv & [He Hd] & Hes). destruct (Hes d) as [_ Hw0]; [by left|]. split; [done|]. split; [done|].
    intros d' Hd'. destruct (Hes d') as [Hn' Hw']; [by right|]. split; [|done].
    apply lookup_insert_None. split; [done|]. intros Hk. apply He. rewrite Hk. by apply list_elem_of_fmap_2.
Qed.
End FirstDeclared.

Lemma validate_loop decls v : errors (fold_left validateEndpoint decls v) = [] <->
  errors v = [] /\ NoDup (map endpoint_key (omap id decls)) /\
  forall e, e ∈ omap id decls -> endpoints v !! endpoint_key e = None /\ map (pair (ep_pos e)) (checks v e) = [].
Proof.
  apply (first_declared validateEndpoint errors endpoints endpoint_key (fun v e => map (pair (ep_pos e)) (checks v e))); [done| | |].
  - intros w e He. by rewrite validateEndpoint_some, He.
  - intros w e f He. rewrite validateEndpoint_some, He. cbn. by destruct (errors w).
  - intros w e e'. by rewrite checks_names.
Qed.

Lemma endpoints_accepted_iff (v : EndpointValidator) (He : errors v = []) (Hf : endpoints v = ∅) decls :
  (ValidateEndpoints decls v).2 = [] <->
  NoDup (map endpoint_key (omap id decls)) /\ forall e, e ∈ omap id decls -> well_formed v e.
Proof.
  unfold ValidateEndpoints. cbn [snd]. rewrite validate_loop, Hf. setoid_rewrite map_nil_iff. setoid_rewrite checks_nil.
  split; [intros (_ & H & Hw); split; [done|]; apply Hw|]. intros [H Hw]. split; [done|]. split; [done|].
  intros e Hi. split; [apply lookup_empty|by apply Hw].
Qed.

(** A fresh validator accepts a list of endpoints exactly when no two of
    them have the same method and path and each is well formed: a known method,
    a path that starts with a slash, has no empty segment and names no parameter
    twice, each middleware once and known, each annotation but tags once with
    the value it needs, and request, response and logic as described. *)
Theorem endpoints_accepted (v : EndpointValidator) (He : errors v = []) (Hf : endpoints v = ∅) decls :
  (ValidateEndpoints decls v).2 = [] <->
  NoDup (map endpoint_key (omap id decls)) /\ forall e, e ∈ omap id decls -> well_formed v e.
Proof. by apply endpoints_accepted_iff. Qed.

Definition nowhere : Position := mkPosition "" 0 0 0.
Definition get_user : EndpointDecl :=
  mkEndpointDecl nowhere "GET" "/users/:id"
    (Some (mkHandler nowhere (Some (mkRequestType nowhere "UserID" "path")) (Some (mkResponseType nowhere "User" 200))
       (Some (mkHandlerLogic nowhere [mkLogicStep nowhere "findUser" "user" ["request"] "" []]))))
    [mkMiddlewareRef nowhere "auth"] "" [mkAnnotation nowhere "version" "v1.2"; mkAnnotation nowhere "tag" "a"; mkAnnotation nowhere "tag" "b"].
Definition some_validator : EndpointValidator := RegisterMiddleware "auth" NewEndpointValidator.

Lemma endpoints_accepted_witness :
  (ValidateEndpoints [Some get_user; None] some_validator).2 = [] /\ well_formed some_validator get_user.
Proof.
  assert ((ValidateEndpoints [Some get_user; None] some_validator).2 = []) as H by (vm_compute; reflexivity).
  split; [exact H|]. apply (endpoints_accepted some_validator eq_refl eq_refl [Some get_user; None]) in H.
  apply H. left.
Defined.

(** *** A duplicate is reported once, and not checked further *)
Lemma duplicate_only e f v : endpoints v !! endpoint_key e = Some f ->
  errors (validateEndpoint v (Some e)) = (errors v ++ [(ep_pos e, DuplicateEndpoint (endpoint_key e) (ep_pos f))])%list /\
  endpoints (validateEndpoint v (Some e)) = endpoints v.
Proof. intros H. rewrite validateEndpoint_some, H. done. Qed.

(** The check of the names of parameters never fails: what it is given matches
    the pattern already. *)
Lemma names_always_valid path p : InvalidPathParam p path ∉ check_params path (extractPathParams path) ∅.
Proof.
  generalize (∅ : gset string) (extract_idents path). generalize (extractPathParams path).
  induction l as [|q l IH]; intros s Hl; cbn [check_params]; [set_solver|]. apply Forall_cons_1 in Hl as [Hq Hl].
  rewrite Hq, !elem_of_app. intros [H | [H | H]]; [destruct (seen q s); set_solver|set_solver|by apply (IH ({[q]} ∪ s))].
Qed.

(** The paths of the routes: names in their own segments are read back. *)
Inductive Segment := Literal (s : string) | Param (n : string).
Definition segment_text (s : Segment) : string := match s with Literal s => s | Param n => ":" ++ n end.
Definition segment_param (s : Segment) : list string := match s with Literal _ => [] | Param n => [n] end.
Definition plain_segment (s : Segment) : Prop :=
  match s with Literal s => count_byte ":" s = 0 | Param n => identifier n end.

Lemma extract_plain s : plain_segment s -> extractPathParams (segment_text s) = segment_param s.
Proof.
  assert (forall s, count_byte ":" s = 0 -> extractPathParams s = []) as Hnone.
  { clear s. induction s as [|c s IH]; cbn; [done|]. destruct (Ascii.eqb c ":"); [done|]. exact IH. }
  destruct s as [s|n]; cbn; [apply Hnone|]. unfold identifier. destruct n as [|c n]; [done|]. cbn [isValidIdentifier].
  intros [Hc Hn]%andb_true_iff. cbn [starts_ident]. rewrite Hc. rewrite Hnone.
  - cbn. rewrite (ident_start_word _ Hc). do 2 f_equal. induction n as [|d n IH]; cbn in *; [done|].
    apply andb_true_iff in Hn as [-> Hn]. by rewrite IH.
  - apply (count_byte_none _ is_word); [done|]. cbn. by rewrite (ident_start_word _ Hc).
Qed.

(** The parameters of a path made of segments, each a literal without a colon
    or a colon and a name, are the names, in order. *)
Theorem params_of_segments segs (Hs : Forall plain_segment segs) :
  extractPathParams (Join (map segment_text segs) "/") = concat (map segment_param segs).
Proof.
  rewrite extract_segments, map_map. f_equal. apply map_ext_in. intros s Hin. apply extract_plain.
  rewrite Forall_forall in Hs. apply Hs. by apply list_elem_of_In.
Qed.

Lemma params_of_segments_witness : extractPathParams "/users/:id/posts/:post_id" = ["id"; "post_id"].
Proof.
  apply (params_of_segments [Literal ""; Literal "users"; Param "id"; Literal "posts"; Param "post_id"]).
  repeat constructor.
Defined.

(** Outside segments of that kind, the validator and the router disagree: a
    name that goes on after a character that is none is cut, and a name that
    starts with a digit is not seen, so its repetition is not reported. *)
Lemma params_cut : extractPathParams "/files/:id.json" = ["id"] /\ extractPathParams "/:1a/:1a" = [].
Proof. done. Qed.

(** * Middleware, authentication providers and roles

    [internal/validator/middleware_validator.go].  Each function returns its first
    error, which is its text.  A pointer is an [option]; [url.Parse] is given by the
    scheme it finds. *)

(** Lower case letters and underscores on both sides of one colon. *)
Definition perm_word (s : string) : bool :=
  match s with EmptyString => false | _ => str_forall (fun c => is_lower c || Ascii.eqb c "_") s end.
Definition permissionPattern (s : string) : bool :=
  match Split ":" s with [resource; action] => perm_word resource && perm_word action | _ => false end.

Definition middleware_types : list string :=
  ["authentication"; "authorization"; "rate_limiting"; "cors"; "logging"; "compression"; "cache"; "custom"].
Definition ValidateMiddleware (mw : option MiddlewareDecl) : option string :=
  match mw with
  | None => Some "middleware is nil"
  | Some mw =>
      if String.eqb (mw_Name mw) "" then Some "middleware name cannot be empty"
      else if String.eqb (MiddlewareType mw) "" then Some ("middleware " ++ mw_Name mw ++ ": type cannot be empty")
      else if negb (one_of middleware_types (MiddlewareType mw))
      then Some ("middleware " ++ mw_Name mw ++ ": unknown type '" ++ MiddlewareType mw ++ "'")
      else None
  end.

Section Auth.
(** The scheme of a URL. *)
Variable urlParse : string -> result string string.

Definition ValidateJWKS (jwks : option JWKSConfig) : option string :=
  match jwks with
  | None => Some "jwks config is nil"
  | Some j =>
      match urlParse (URL j) with
      | Err e => Some ("invalid jwks_url: " ++ e)
      | Ok scheme =>
          if String.eqb scheme "" then Some ("invalid jwks_url: missing scheme in " ++ URL j)
          else if negb (HasPrefix (URL j) "https://") then Some ("jwks_url must use HTTPS: " ++ URL j)
          else if String.eqb (Issuer j) "" then Some "jwks issuer cannot be empty"
          else if String.eqb (Audience j) "" then Some "jwks audience cannot be empty"
          else None
      end
  end.

Definition auth_methods : list string := ["jwt"; "oauth2"; "apikey"; "basic"].
Definition ValidateAuth (auth : option AuthDecl) : option string :=
  match auth with
  | None => Some "auth is nil"
  | Some a =>
      if String.eqb (auth_Name a) "" then Some "auth provider name cannot be empty"
      else if negb (one_of auth_methods (Method a)) then Some ("auth " ++ auth_Name a ++ ": invalid method '" ++ Method a ++ "'")
      else match JWKS a with
      | None => None
      | Some j => match ValidateJWKS (Some j) with Some e => Some ("auth " ++ auth_Name a ++ ": " ++ e) | None => None end
      end
  end.
End Auth.

Fixpoint check_permissions (role : string) (perms : list string) : option string :=
  match perms with
  | [] => None
  | perm :: perms' =>
      if negb (permissionPattern perm)
      then Some ("role " ++ role ++ ": invalid permission format '" ++ perm ++ "' (must be 'resource:action')")
      else check_permissions role perms'
  end.
Definition ValidateRole (role : option RoleDecl) : option string :=
  match role with
  | None => Some "role is nil"
  | Some r =>
      if String.eqb (role_Name r) "" then Some "role name cannot be empty"
      else if Nat.eqb (length (role_Permissions r)) 0 then Some ("role " ++ role_Name r ++ ": must have at least one permission")
      else check_permissions (role_Name r) (role_Permissions r)
  end.

(** The loops of [ValidateMiddlewares] and [ValidateRoles]. *)
Fixpoint validate_middlewares (mws : list (option MiddlewareDecl)) (seenNames : gset string) : option string :=
  match mws with
  | [] => None
  | mw :: mws' =>
      match ValidateMiddleware mw, mw with
      | Some e, _ => Some e
      | None, Some d =>
          if seen (mw_Name d) seenNames then Some ("duplicate middleware: " ++ mw_Name d)
          else validate_middlewares mws' ({[mw_Name d]} ∪ seenNames)
      | None, None => None
      end
  end.
Definition ValidateMiddlewares (mws : list (option MiddlewareDecl)) : option string := validate_middlewares mws ∅.

Fixpoint validate_roles (rs : list (option RoleDecl)) (seenNames : gset string) : option string :=
  match rs with
  | [] => None
  | r :: rs' =>
      match ValidateRole r, r with
      | Some e, _ => Some e
      | None, Some d =>
          if seen (role_Name d) seenNames then Some ("duplicate role: " ++ role_Name d)
          else validate_roles rs' ({[role_Name d]} ∪ seenNames)
      | None, None => None
      end
  end.
Definition ValidateRoles (rs : list (option RoleDecl)) : option string := validate_roles rs ∅.

(** * What is accepted *)
Definition perm_text (s : string) : Prop := s <> "" /\ str_forall (fun c => is_lower c || Ascii.eqb c "_") s = true.
Definition permission_form (p : string) : Prop := exists r a, perm_text r /\ perm_text a /\ p = r ++ ":" ++ a.

Lemma perm_word_spec s : perm_word s = true <-> perm_text s.
Proof. unfold perm_text. destruct s; cbn [perm_word]; naive_solver. Qed.
Lemma permissionPattern_spec p : permissionPattern p = true <-> permission_form p.
Proof.
  unfold permissionPattern, permission_form. split.
  - intros H. exists (nth 0 (Split ":" p) ""), (nth 1 (Split ":" p) ""). pose proof (Join_Split ":" p) as Hj.
    destruct (Split ":" p) as [|r [|a [|]]]; try done. apply andb_true_iff in H as [Hr%perm_word_spec Ha%perm_word_spec]. by rewrite <- Hj.
  - intros (r & a & Hr & Ha & ->). pose proof (proj2 Hr) as Hc. pose proof (proj2 Ha) as Hc'.
    cbn [String.append]. rewrite Split_at by by eapply count_byte_none; [|exact Hc].
    rewrite Split_one by by eapply count_byte_none; [|exact Hc']. apply perm_word_spec in Hr as ->. by apply perm_word_spec in Ha as ->.
Qed.
Lemma check_permissions_none r ps : check_permissions r ps = None <-> Forall permission_form ps.
Proof.
  induction ps as [|p ps IH]; cbn [check_permissions]; [done|]. rewrite Forall_cons, <- permissionPattern_spec, <- IH.
  destruct (permissionPattern p); naive_solver.
Qed.

Record role_valid (r : RoleDecl) : Prop := {
  role_named : role_Name r <> "";
  role_some : role_Permissions r <> [];
  role_form : Forall permission_form (role_Permissions r) }.
Lemma ValidateRole_none r : ValidateRole (Some r) = None <-> role_valid r.
Proof.
  unfold ValidateRole. destruct (String.eqb_spec (role_Name r) "") as [E|E]; [split; [done|by intros []]|].
  destruct (Nat.eqb_spec (length (role_Permissions r)) 0) as [E'|E'].
  - split; [done|]. intros [_ H _]. by apply length_zero_iff_nil in E'.
  - rewrite check_permissions_none. split; [intros Hf; constructor; auto; intros H0; by rewrite H0 in E'|by intros []].
Qed.
Lemma validate_roles_none rs : forall s, validate_roles (map Some rs) s = None <->
  NoDup (map role_Name rs) /\ Forall (fun r => role_valid r /\ role_Name r ∉ s) rs.
Proof.
  induction rs as [|r rs IH]; intros s; cbn [map validate_roles].
  - split; [|done]. split; constructor.
  - rewrite NoDup_cons, Forall_cons, <- ValidateRole_none. destruct (ValidateRole (Some r)) as [e|]; [naive_solver|].
    destruct (seen (role_Name r) s) eqn:E.
    + apply seen_true in E. naive_solver.
    + apply seen_false in E. rewrite IH, !Forall_forall. split.
      * intros [Hd H]. split; [split; [|done]|split; [done|]].
        -- intros (d & Hd' & Hin)%list_elem_of_fmap. destruct (H d Hin). set_solver.
        -- intros d Hin. destruct (H d Hin). set_solver.
      * intros [[Hn Hd] [_ H]]. split; [done|]. intros d Hin. destruct (H d Hin) as [Hv Hs]. split; [done|].
        rewrite not_elem_of_union, not_elem_of_singleton. split; [|done]. intros Hk. apply Hn. rewrite <- Hk. by apply list_elem_of_fmap_2.
Qed.

(** Roles are accepted exactly when their names are distinct and not empty, each
    has a permission, and every permission is a resource and an action of lower
    case letters. *)
Theorem roles_valid rs : ValidateRoles (map Some rs) = None <-> NoDup (map role_Name rs) /\ Forall role_valid rs.
Proof.
  unfold ValidateRoles. rewrite validate_roles_none, !Forall_forall. split.
  - intros [H1 H2]. split; [done|]. intros r Hr. by apply H2.
  - intros [H1 H2]. split; [done|]. intros r Hr. split; [by apply H2|apply not_elem_of_empty].
Qed.

Record middleware_valid (m : MiddlewareDecl) : Prop := {
  mwv_named : mw_Name m <> ""; mwv_type : MiddlewareType m ∈ middleware_types }.
Lemma ValidateMiddleware_none m : ValidateMiddleware (Some m) = None <-> middleware_valid m.
Proof.
  unfold ValidateMiddleware. destruct (String.eqb_spec (mw_Name m) "") as [E|E]; [split; [done|by intros []]|].
  destruct (String.eqb_spec (MiddlewareType m) "") as [E'|E'].
  { split; [done|]. intros [_ H%one_of_true]. by rewrite E' in H. }
  destruct (one_of middleware_types (MiddlewareType m)) eqn:Eo; cbn [negb].
  - apply one_of_true in Eo. split; [by constructor|done].
  - split; [done|]. intros [_ H]. apply one_of_true in H. congruence.
Qed.

(** The validator of whole programs takes any permission that is not empty, and
    roles without permissions; this one does not. *)
Lemma validators_differ : let r := mkRoleDecl nowhere "r" ["everything"] in
  DslValidator.errors (validateRoleDecl r New) = [] /\ ValidateRole (Some r) <> None.
Proof. split; [vm_compute; reflexivity|]. vm_compute. discriminate. Qed.
