(* ===== verification/WorkflowValidator.v ===== *)
(** Validation of workflows and jobs: [internal/validator/workflow_validator.go].

    As in [EndpointValidator], a message is its format and arguments.  The names
    of steps are one map that nested steps share, so it is threaded.  The parser
    of cron expressions is another library's and is given by its error. *)

From Stdlib Require Import ZArith Lia Ascii.
From stdpp Require Import base strings list gmap.
From S2P Require Import Prelude GoStrings GoText Retry GoDuration DslAst DslValidator EndpointValidator.
From S2P Require JobScheduler.

#[local] Open Scope string_scope.

Definition TriggerTypeEvent : string := "event".
Definition TriggerTypeSchedule : string := "schedule".
Definition TriggerTypeManual : string := "manual".

(** ** Patterns *)
(** Words that start with a letter, separated by dots. *)
Definition isValidEventName (name : string) : bool := forallb is_name_part (Split "." name).

(** ** State *)
Inductive WorkflowIssue :=
| DuplicateWorkflow (name : string)
| InvalidWorkflowName (name : string)
| InvalidTimeout (timeout : string)
| NoSteps (name : string)
| TriggerNeedsValue (type : string)
| InvalidTriggerEvent (value : string)
| InvalidCron (expr err : string)
| DuplicateStep (name : string)
| InvalidStepName (name : string)
| NoActivity (step : string)
| UnknownActivity (name : string)
| InvalidMappingKey (key : string)
| NegativeAttempts (n : Z)
| InvalidIntervalDuration (interval : string)
| NegativeBackoff (b : float64)
| DuplicateJob (name : string)
| InvalidJobName (name : string)
| NoTask (job : string)
| UnknownTask (task : string)
| InvalidQueueName (queue : string).

Abbreviation Found := (list (Position * WorkflowIssue)).

Record WorkflowValidator := mkWorkflowValidator {
  wv_errors : Found; wv_workflows : gmap string WorkflowDecl; wv_jobs : gmap string JobDecl;
  activities : gset string; taskTypes : gset string }.

Definition NewWorkflowValidator : WorkflowValidator := mkWorkflowValidator [] ∅ ∅ ∅ ∅.
Definition RegisterActivity (name : string) (v : WorkflowValidator) : WorkflowValidator :=
  mkWorkflowValidator (wv_errors v) (wv_workflows v) (wv_jobs v) ({[name]} ∪ activities v) (taskTypes v).
Definition RegisterTaskType (name : string) (v : WorkflowValidator) : WorkflowValidator :=
  mkWorkflowValidator (wv_errors v) (wv_workflows v) (wv_jobs v) (activities v) ({[name]} ∪ taskTypes v).

Definition found_if (b : bool) (p : Position) (i : WorkflowIssue) : Found := if b then [(p, i)] else [].
Definition given (s : string) : bool := negb (String.eqb s "").

Section Validator.
(** [cron.Parser.Parse] with the five standard fields: the error. *)
Variable validateCronExpression : string -> option string.

Definition cron_found (p : Position) (expr : string) : Found :=
  match validateCronExpression expr with Some e => [(p, InvalidCron expr e)] | None => [] end.

(** ** Checks *)

(** A workflow without a trigger is let through. *)
Definition validateTrigger (trigger : option Trigger) : Found :=
  match trigger with
  | None => []
  | Some t =>
      if String.eqb (TrigType t) TriggerTypeEvent then
        (found_if (String.eqb (tr_Value t) "") (tr_pos t) (TriggerNeedsValue TriggerTypeEvent) ++
         found_if (given (tr_Value t) && negb (isValidEventName (tr_Value t))) (tr_pos t) (InvalidTriggerEvent (tr_Value t)))%list
      else if String.eqb (TrigType t) TriggerTypeSchedule then
        (found_if (String.eqb (tr_Value t) "") (tr_pos t) (TriggerNeedsValue TriggerTypeSchedule) ++
         if given (tr_Value t) then cron_found (tr_pos t) (tr_Value t) else [])%list
      else []
  end.

Definition validateInputMapping (m : InputMapping) : Found :=
  found_if (negb (isValidIdentifier (im_Key m))) (im_pos m) (InvalidMappingKey (im_Key m)).

(** The loop over steps, which add their names. *)
Definition steps_loop {A} (validate : A -> gset string -> Found * gset string) : list A -> gset string -> Found * gset string :=
  fix loop (l : list A) (names : gset string) :=
    match l with
    | [] => ([], names)
    | s :: l' => let '(found, names) := validate s names in let '(found', names) := loop l' names in ((found ++ found')%list, names)
    end.

Fixpoint validateWorkflowStep (known : gset string) (step : WorkflowStep) (stepNames : gset string) : Found * gset string :=
  match step with
  | mkWorkflowStep pos name activity input cond parallel steps =>
      if parallel then steps_loop (validateWorkflowStep known) steps stepNames
      else
        ((found_if (given name && seen name stepNames) pos (DuplicateStep name) ++
          found_if (given name && negb (isValidIdentifier name)) pos (InvalidStepName name) ++
          found_if (String.eqb activity "") pos (NoActivity name) ++
          found_if (given activity && unknown known activity) pos (UnknownActivity activity) ++
          concat (map validateInputMapping input))%list,
         if given name then {[name]} ∪ stepNames else stepNames)
  end.

Definition validateRetryPolicy (p : RetryPolicyDecl) : Found :=
  (found_if (rp_MaxAttempts p <? 0)%Z (rp_pos p) (NegativeAttempts (rp_MaxAttempts p)) ++
   found_if (given (InitialInterval p) && negb (is_ok (ParseDuration (InitialInterval p)))) (rp_pos p) (InvalidIntervalDuration (InitialInterval p)) ++
   found_if (f_lt (BackoffMultiplier p) f_zero) (rp_pos p) (NegativeBackoff (BackoffMultiplier p)))%list.
Definition retry_found (r : option RetryPolicyDecl) : Found := match r with Some p => validateRetryPolicy p | None => [] end.

Definition workflow_checks (known : gset string) (d : WorkflowDecl) : Found :=
  (found_if (negb (isValidIdentifier (wf_Name d))) (wf_pos d) (InvalidWorkflowName (wf_Name d)) ++
   validateTrigger (wf_Trigger d) ++
   found_if (given (wf_Timeout d) && negb (is_ok (ParseDuration (wf_Timeout d)))) (wf_pos d) (InvalidTimeout (wf_Timeout d)) ++
   found_if (Nat.eqb (length (wf_Steps d)) 0) (wf_pos d) (NoSteps (wf_Name d)) ++
   (steps_loop (validateWorkflowStep known) (wf_Steps d) ∅).1 ++
   retry_found (wf_Retry d))%list.

Definition job_checks (known : gset string) (d : JobDecl) : Found :=
  (found_if (negb (isValidIdentifier (job_Name d))) (job_pos d) (InvalidJobName (job_Name d)) ++
   (if given (Schedule d) then cron_found (job_pos d) (Schedule d) else []) ++
   found_if (String.eqb (Task d) "") (job_pos d) (NoTask (job_Name d)) ++
   found_if (given (Task d) && unknown known (Task d)) (job_pos d) (UnknownTask (Task d)) ++
   found_if (given (Queue d) && negb (isValidIdentifier (Queue d))) (job_pos d) (InvalidQueueName (Queue d)) ++
   retry_found (job_Retry d))%list.

(** ** Declarations *)
Definition add_found (f : Found) (v : WorkflowValidator) : WorkflowValidator :=
  mkWorkflowValidator (wv_errors v ++ f)%list (wv_workflows v) (wv_jobs v) (activities v) (taskTypes v).

Definition validateWorkflow (v : WorkflowValidator) (d : option WorkflowDecl) : WorkflowValidator :=
  match d with
  | None => v
  | Some decl =>
      match wv_workflows v !! wf_Name decl with
      | Some _ => add_found [(wf_pos decl, DuplicateWorkflow (wf_Name decl))] v
      | None =>
          add_found (workflow_checks (activities v) decl)
            (mkWorkflowValidator (wv_errors v) (<[wf_Name decl := decl]> (wv_workflows v)) (wv_jobs v) (activities v) (taskTypes v))
      end
  end.
Definition validateJob (v : WorkflowValidator) (d : option JobDecl) : WorkflowValidator :=
  match d with
  | None => v
  | Some decl =>
      match wv_jobs v !! job_Name decl with
      | Some _ => add_found [(job_pos decl, DuplicateJob (job_Name decl))] v
      | None =>
          add_found (job_checks (taskTypes v) decl)
            (mkWorkflowValidator (wv_errors v) (wv_workflows v) (<[job_Name decl := decl]> (wv_jobs v)) (activities v) (taskTypes v))
      end
  end.

(** Both report the errors found so far, of either kind. *)
Definition ValidateWorkflows (ds : list (option WorkflowDecl)) (v : WorkflowValidator) : WorkflowValidator * Found :=
  let v := fold_left validateWorkflow ds v in (v, wv_errors v).
Definition ValidateJobs (ds : list (option JobDecl)) (v : WorkflowValidator) : WorkflowValidator * Found :=
  let v := fold_left validateJob ds v in (v, wv_errors v).

(** * What acceptance means *)
Definition step_name (s : WorkflowStep) : string := let 'mkWorkflowStep _ n _ _ _ _ _ := s in n.
Definition step_activity (s : WorkflowStep) : string := let 'mkWorkflowStep _ _ a _ _ _ _ := s in a.
Definition step_input (s : WorkflowStep) : list InputMapping := let 'mkWorkflowStep _ _ _ i _ _ _ := s in i.

(** The steps that run an activity, whatever blocks they are nested in. *)
Fixpoint leaf_steps (s : WorkflowStep) : list WorkflowStep :=
  match s with mkWorkflowStep _ _ _ _ _ parallel steps => if parallel then concat (map leaf_steps steps) else [s] end.
Definition leaf_names (ls : list WorkflowStep) : list string := List.filter given (map step_name ls).

Record leaf_ok (known : gset string) (s : WorkflowStep) : Prop := {
  leaf_name : step_name s = "" \/ identifier (step_name s);
  leaf_activity : step_activity s <> "" /\ allowed known (step_activity s);
  leaf_keys : Forall (fun m => identifier (im_Key m)) (step_input s) }.

Lemma found_if_nil b p i : found_if b p i = [] <-> b = false.
Proof. by destruct b. Qed.
Lemma given_false s : given s = false <-> s = "".
Proof. unfold given. rewrite negb_false_iff. apply String.eqb_eq. Qed.
Lemma given_and s b : given s && b = false <-> s = "" \/ b = false.
Proof. by rewrite andb_false_iff, given_false. Qed.

(** What validating [ls] after [names] finds and adds. *)
Definition validates (known : gset string) (ls : list WorkflowStep) (names : gset string) (r : Found * gset string) : Prop :=
  (r.1 = [] <-> NoDup (leaf_names ls) /\ (forall n, n ∈ leaf_names ls -> n ∉ names) /\ Forall (leaf_ok known) ls) /\
  r.2 = names ∪ list_to_set (leaf_names ls).

Lemma validates_nil known names : validates known [] names ([], names).
Proof. split; [|set_solver]. split; [|done]. intros _. split; [constructor|]. split; [set_solver|constructor]. Qed.
Lemma leaf_names_app a b : leaf_names (a ++ b) = (leaf_names a ++ leaf_names b)%list.
Proof. unfold leaf_names. by rewrite map_app, List.filter_app. Qed.
Lemma validates_app known a b names fa n1 fb n2 : validates known a names (fa, n1) -> validates known b n1 (fb, n2) ->
  validates known (a ++ b) names ((fa ++ fb)%list, n2).
Proof.
  intros [Ha Ea] [Hb Eb]. cbn [fst snd] in *. subst n1 n2. split; cbn [fst snd].
  - rewrite app_nil_iff, Ha, Hb, leaf_names_app, NoDup_app, Forall_app. set_solver.
  - rewrite leaf_names_app, list_to_set_app_L. set_solver.
Qed.
Lemma validates_leaf known p n a i c ss names : let s := mkWorkflowStep p n a i c false ss in
  validates known [s] names (validateWorkflowStep known s names).
Proof.
  cbv zeta. split; cbn [validateWorkflowStep fst snd].
  - rewrite !app_nil_iff, !found_if_nil, !given_and, String.eqb_neq, negb_false_iff, unknown_false, concat_map_nil, Forall_singleton.
    unfold leaf_names. cbn [map List.filter step_name].
    assert ((forall m, m ∈ i -> validateInputMapping m = []) <-> Forall (fun m => identifier (im_Key m)) i) as ->.
    { rewrite Forall_forall. unfold validateInputMapping. by setoid_rewrite found_if_nil; setoid_rewrite negb_false_iff. }
    assert (seen n names = false <-> n ∉ names) as -> by apply seen_false.
    split.
    + intros (H1 & H2 & H3 & H4 & H5). split; [|split; [|constructor; cbn; auto]].
      * destruct (given n); [apply NoDup_singleton|constructor].
      * destruct (given n) eqn:E; [|set_solver]. destruct H1 as [->|]; [done|]. set_solver.
      * split; [done|]. destruct H4; done.
    + intros (_ & H1 & [H2 [H3 H4] H5]). cbn in *. repeat split; auto.
      destruct (given n) eqn:E; [right|left; by apply given_false]. apply H1. set_solver.
  - unfold leaf_names. cbn [map List.filter step_name]. destruct (given n); set_solver.
Qed.

Lemma validates_steps known ss : Forall (fun s => forall names, validates known (leaf_steps s) names (validateWorkflowStep known s names)) ss ->
  forall names, validates known (concat (map leaf_steps ss)) names (steps_loop (validateWorkflowStep known) ss names).
Proof.
  induction 1 as [|s ss Hs _ IH]; intros names; [apply validates_nil|]. cbn [map concat steps_loop].
  specialize (Hs names). destruct (validateWorkflowStep known s names) as [f1 n1]. specialize (IH n1).
  fold (steps_loop (validateWorkflowStep known)). destruct (steps_loop (validateWorkflowStep known) ss n1) as [f2 n2].
  by eapply validates_app.
Qed.
Fixpoint validates_step known s : forall names, validates known (leaf_steps s) names (validateWorkflowStep known s names).
Proof.
  destruct s as [p n a i c [] ss]; intros names; [|apply validates_leaf]. apply validates_steps.
  induction ss as [|s ss IH]; constructor; [apply validates_step|exact IH].
Qed.

Definition event_value (v : string) : Prop := v <> "" /\ isValidEventName v = true.
Record trigger_ok (t : Trigger) : Prop := {
  trig_event : TrigType t = TriggerTypeEvent -> event_value (tr_Value t);
  trig_schedule : TrigType t = TriggerTypeSchedule -> tr_Value t <> "" /\ validateCronExpression (tr_Value t) = None }.
Definition duration_value (s : string) : Prop := s = "" \/ exists d, ParseDuration s = Ok d.
Record retry_ok (p : RetryPolicyDecl) : Prop := {
  retry_attempts : (0 <= rp_MaxAttempts p)%Z;
  retry_interval : duration_value (InitialInterval p);
  retry_backoff : f_lt (BackoffMultiplier p) f_zero = false }.

Record workflow_ok (known : gset string) (d : WorkflowDecl) : Prop := {
  ok_name : identifier (wf_Name d);
  ok_trigger : forall t, wf_Trigger d = Some t -> trigger_ok t;
  ok_timeout : duration_value (wf_Timeout d);
  ok_steps : wf_Steps d <> [];
  ok_names : NoDup (leaf_names (concat (map leaf_steps (wf_Steps d))));
  ok_leaves : Forall (leaf_ok known) (concat (map leaf_steps (wf_Steps d)));
  ok_retry : forall p, wf_Retry d = Some p -> retry_ok p }.

Record job_ok (known : gset string) (d : JobDecl) : Prop := {
  jok_name : identifier (job_Name d);
  jok_schedule : Schedule d = "" \/ validateCronExpression (Schedule d) = None;
  jok_task : Task d <> "" /\ allowed known (Task d);
  jok_queue : Queue d = "" \/ identifier (Queue d);
  jok_retry : forall p, job_Retry d = Some p -> retry_ok p }.

Lemma duration_value_spec s : given s && negb (is_ok (ParseDuration s)) = false <-> duration_value s.
Proof. rewrite given_and, negb_false_iff. unfold duration_value. destruct (ParseDuration s); naive_solver. Qed.
Lemma cron_found_nil p e : cron_found p e = [] <-> validateCronExpression e = None.
Proof. unfold cron_found. by destruct (validateCronExpression e). Qed.
Lemma retry_found_nil r : retry_found r = [] <-> forall p, r = Some p -> retry_ok p.
Proof.
  destruct r as [p|]; cbn [retry_found]; [|naive_solver]. unfold validateRetryPolicy.
  rewrite !app_nil_iff, !found_if_nil, duration_value_spec, Z.ltb_ge. split.
  - intros (H1 & H2 & H3) q [= <-]. by constructor.
  - intros H. by destruct (H p eq_refl).
Qed.
Lemma trigger_nil o : validateTrigger o = [] <-> forall t, o = Some t -> trigger_ok t.
Proof.
  destruct o as [t|]; cbn [validateTrigger]; [|naive_solver].
  transitivity (trigger_ok t); [|naive_solver].
  destruct (String.eqb_spec (TrigType t) TriggerTypeEvent) as [E|E];
    [|destruct (String.eqb_spec (TrigType t) TriggerTypeSchedule) as [E'|E']].
  - rewrite app_nil_iff, !found_if_nil, String.eqb_neq, given_and, negb_false_iff. unfold event_value. split.
    + intros [H1 H2]. constructor; [|by rewrite E]. destruct H2; done.
    + intros [H _]. destruct (H E). auto.
  - rewrite app_nil_iff, found_if_nil, String.eqb_neq.
    assert ((if given (tr_Value t) then cron_found (tr_pos t) (tr_Value t) else []) = [] <->
            tr_Value t = "" \/ validateCronExpression (tr_Value t) = None) as ->.
    { rewrite <- given_false, <- (cron_found_nil (tr_pos t)). destruct (given (tr_Value t)); naive_solver. }
    split; [intros [H1 H2]; constructor; [done|]; destruct H2; done|]. intros [_ H]. destruct (H E'). auto.
  - split; [|done]. by constructor.
Qed.

Lemma workflow_checks_nil known d : workflow_checks known d = [] <-> workflow_ok known d.
Proof.
  unfold workflow_checks. rewrite !app_nil_iff, !found_if_nil, negb_false_iff, trigger_nil, duration_value_spec, retry_found_nil, Nat.eqb_neq.
  destruct (validates_steps known (wf_Steps d)) with (names := ∅ : gset string) as [-> _].
  { apply Forall_forall. intros. apply validates_step. }
  split.
  - intros (H1 & H2 & H3 & H4 & (H5 & _ & H6) & H7). constructor; auto. intros E. by rewrite E in H4.
  - intros [H1 H2 H3 H4 H5 H6 H7]. split; [done|]. split; [done|]. split; [done|]. split; [by destruct (wf_Steps d)|].
    split; [|done]. split; [done|]. split; [|done]. intros n _. apply not_elem_of_empty.
Qed.
Lemma job_checks_nil known d : job_checks known d = [] <-> job_ok known d.
Proof.
  unfold job_checks. rewrite !app_nil_iff, !found_if_nil, !given_and, !negb_false_iff, retry_found_nil, String.eqb_neq, unknown_false.
  assert ((if given (Schedule d) then cron_found (job_pos d) (Schedule d) else []) = [] <->
          Schedule d = "" \/ validateCronExpression (Schedule d) = None) as ->.
  { rewrite <- given_false, <- (cron_found_nil (job_pos d)). destruct (given (Schedule d)); naive_solver. }
  split.
  - intros (H1 & H2 & H3 & H4 & H5 & H6). constructor; auto. split; [done|]. by destruct H4.
  - intros [H1 H2 [H3 H4] H5 H6]. auto 10.
Qed.

Lemma workflows_accepted_iff (v : WorkflowValidator) ds :
  (ValidateWorkflows ds v).2 = [] <->
  wv_errors v = [] /\ NoDup (map wf_Name (omap id ds)) /\
  forall d, d ∈ omap id ds -> wv_workflows v !! wf_Name d = None /\ workflow_ok (activities v) d.
Proof.
  unfold ValidateWorkflows. cbn [snd]. setoid_rewrite <- workflow_checks_nil.
  apply (first_declared validateWorkflow wv_errors wv_workflows wf_Name (fun v => workflow_checks (activities v))); [done| | |].
  - intros w d Hd. cbn. by rewrite Hd.
  - intros w d f Hd. cbn. rewrite Hd. cbn. by destruct (wv_errors w).
  - intros w d d'. cbn. by destruct (wv_workflows w !! wf_Name d).
Qed.

(** A validator without errors accepts a list of workflows exactly when no
    two of them have the same name, none has the name of an earlier one, and each
    is well formed: names are identifiers, the trigger has a value of its kind,
    durations can be read, there is a step, no two steps in the workflow and its
    parallel blocks share a name, and each step names a known activity. *)
Theorem workflows_accepted (v : WorkflowValidator) ds :
  (ValidateWorkflows ds v).2 = [] <->
  wv_errors v = [] /\ NoDup (map wf_Name (omap id ds)) /\
  forall d, d ∈ omap id ds -> wv_workflows v !! wf_Name d = None /\ workflow_ok (activities v) d.
Proof. apply workflows_accepted_iff. Qed.

(** The same of jobs. *)
Lemma jobs_accepted_iff (v : WorkflowValidator) ds :
  (ValidateJobs ds v).2 = [] <->
  wv_errors v = [] /\ NoDup (map job_Name (omap id ds)) /\
  forall d, d ∈ omap id ds -> wv_jobs v !! job_Name d = None /\ job_ok (taskTypes v) d.
Proof.
  unfold ValidateJobs. cbn [snd]. setoid_rewrite <- job_checks_nil.
  apply (first_declared validateJob wv_errors wv_jobs job_Name (fun v => job_checks (taskTypes v))); [done| | |].
  - intros w d Hd. cbn. by rewrite Hd.
  - intros w d f Hd. cbn. rewrite Hd. cbn. by destruct (wv_errors w).
  - intros w d d'. cbn. by destruct (wv_jobs w !! job_Name d).
Qed.

(** ** Accepted jobs load *)
Section LoadJobs.
Variable render : DurationError -> string.
Definition parse_duration (s : string) : result string Z := match ParseDuration s with Ok d => Ok d | Err e => Err (render e) end.

Lemma accepted_job_loads known d : job_ok known d ->
  exists c, JobScheduler.LoadJobFromAST validateCronExpression parse_duration d = Ok c /\ JobScheduler.dj_Name c = job_Name d.
Proof.
  intros [_ Hs _ _ Hr]. unfold JobScheduler.LoadJobFromAST.
  assert ((if String.eqb (Schedule d) "" then None else validateCronExpression (Schedule d)) = None) as ->
    by (destruct (String.eqb_spec (Schedule d) ""); [done|by destruct Hs]).
  destruct (job_Retry d) as [p|]; [|by eexists]. destruct (Hr p eq_refl) as [_ Hi _]. unfold JobScheduler.convertJobRetryPolicy.
  assert (exists z, (if String.eqb (InitialInterval p) "" then Ok (10 * Second)%Z else parse_duration (InitialInterval p)) = Ok z) as [z ->].
  { destruct (String.eqb_spec (InitialInterval p) ""); [by eexists|]. destruct Hi as [|[z E]]; [done|].
    unfold parse_duration. rewrite E. by eexists. }
  by eexists.
Qed.

Lemma LoadJobs_all ds : forall r,
  Forall (fun d => exists c, JobScheduler.LoadJobFromAST validateCronExpression parse_duration d = Ok c /\
                             JobScheduler.dj_Name c = job_Name d /\ job_Name d <> "") ds -> NoDup (map job_Name ds) ->
  exists r', JobScheduler.LoadJobs validateCronExpression parse_duration ds r = (r', None) /\
    (forall n, n ∉ map job_Name ds -> r' !! n = r !! n) /\
    Forall (fun d => exists c, r' !! job_Name d = Some c /\ JobScheduler.LoadJobFromAST validateCronExpression parse_duration d = Ok c) ds.
Proof.
  induction ds as [|d ds IH]; intros r H Hd; cbn [map JobScheduler.LoadJobs].
  - exists r. split; [done|]. split; [done|constructor].
  - apply Forall_cons_1 in H as [(c & Hc & Hn & Hne) H]. apply NoDup_cons in Hd as [Hni Hd]. rewrite Hc. unfold JobScheduler.Register.
    destruct (String.eqb_spec (JobScheduler.dj_Name c) "") as [E|_]; [congruence|].
    destruct (IH (<[JobScheduler.dj_Name c := c]> r) H Hd) as (r' & Hl & Hother & Hall). exists r'. split; [done|]. split.
    + intros n [Hn1 Hn2]%not_elem_of_cons. rewrite Hother by done. apply lookup_insert_ne. congruence.
    + constructor; [|done]. exists c. split; [|done]. rewrite Hother by done. rewrite <- Hn. apply lookup_insert_eq.
Qed.

(** The jobs the validator accepts can be loaded, and each is found under its
    name with the configuration of its own declaration. *)
Theorem accepted_jobs_load (v : WorkflowValidator) ds (Hok : (ValidateJobs (map Some ds) v).2 = []) :
  exists r, JobScheduler.LoadJobs validateCronExpression parse_duration ds ∅ = (r, None) /\
    Forall (fun d => exists c, JobScheduler.Get (job_Name d) r = Some c /\
                               JobScheduler.LoadJobFromAST validateCronExpression parse_duration d = Ok c) ds.
Proof.
  apply jobs_accepted_iff in Hok as (_ & Hd & Hall).
  rewrite omap_Some in *. destruct (LoadJobs_all ds ∅) as (r & Hl & _ & Hr); [|done|by exists r].
  apply Forall_forall. intros d Hin. destruct (Hall d Hin) as [_ Hj]. destruct (accepted_job_loads _ d Hj) as (c & Hc & Hn).
  exists c. repeat split; auto. pose proof (jok_name _ _ Hj) as Hid. intros H0. by rewrite H0 in Hid.
Qed.
End LoadJobs.
End Validator.

Definition nightly : JobDecl := mkJobDecl nowhere "nightly" "0 3 * * *" "cleanup" "low" None.
Definition job_ok_cron (e : string) : option string := if String.eqb e "" then Some "empty" else None.
Lemma accepted_jobs_load_witness : exists r,
  JobScheduler.LoadJobs job_ok_cron (parse_duration (fun _ => "")) [nightly] ∅ = (r, None) /\
  Forall (fun d => exists c, JobScheduler.Get (job_Name d) r = Some c /\
                             JobScheduler.LoadJobFromAST job_ok_cron (parse_duration (fun _ => "")) d = Ok c) [nightly].
Proof. apply (accepted_jobs_load job_ok_cron (fun _ => "") NewWorkflowValidator [nightly]). vm_compute. reflexivity. Defined.

(** A trigger may name an event that no declaration can register: one with more
    than two parts. *)
Lemma trigger_beyond_events : isValidEventName "a.b.c" = true /\ isValidEventNameFormat "a.b.c" = false.
Proof. split; vm_compute; reflexivity. Qed.
