(* ===== verification/Workflow.v ===== *)
(** Workflows of a specification at run time:
    [internal/workflow/dsl_loader.go], the loader, the execution of steps and the
    registry.

    Temporal runs the activities: an activity that is called is appended to a
    log, and its answer is a parameter that may depend on the calls before it.
    The clock of the workflow is a parameter read in sequence.  A panic is
    [None]. *)

From Stdlib Require Import ZArith Lia Ascii.
From stdpp Require Import base strings list gmap.
From S2P Require Import Prelude GoStrings GoText GoValue Retry GoDuration DslAst DslValidator EndpointValidator WorkflowValidator.

#[local] Open Scope string_scope.
#[local] Open Scope Z_scope.

(** ** Loading *)
Record RetryPolicy := mkRetryPolicy {
  rt_InitialInterval : Z; BackoffCoefficient : float64; MaximumInterval : Z; MaximumAttempts : Z }.

Inductive DSLWorkflowStep :=
  mkStep (Name Activity : string) (Input : gmap string string) (Condition : string) (Parallel : bool) (Steps : list DSLWorkflowStep).
Definition st_Name (s : DSLWorkflowStep) : string := let 'mkStep n _ _ _ _ _ := s in n.
Definition st_Activity (s : DSLWorkflowStep) : string := let 'mkStep _ a _ _ _ _ := s in a.
Definition st_Input (s : DSLWorkflowStep) : gmap string string := let 'mkStep _ _ i _ _ _ := s in i.
Definition st_Parallel (s : DSLWorkflowStep) : bool := let 'mkStep _ _ _ _ p _ := s in p.
Definition st_Steps (s : DSLWorkflowStep) : list DSLWorkflowStep := let 'mkStep _ _ _ _ _ l := s in l.

Record DSLWorkflowConfig := mkConfig {
  c_Name : string; TriggerType : string; TriggerValue : string; c_Timeout : Z; c_Retry : RetryPolicy; c_Steps : list DSLWorkflowStep }.

Inductive WorkflowLoadError :=
| NilWorkflow
| BadTimeout (timeout : string) (e : DurationError)
| BadRetryPolicy (e : DurationError)
| NilConfig
| WorkflowNameRequired
| LoadingWorkflow (name : string) (e : WorkflowLoadError).

Definition convertRetryPolicy (d : RetryPolicyDecl) : result DurationError RetryPolicy :=
  match (if given (InitialInterval d) then ParseDuration (InitialInterval d) else Ok Second) with
  | Err e => Err e
  | Ok interval =>
      Ok (mkRetryPolicy interval (if f_lt f_zero (BackoffMultiplier d) then BackoffMultiplier d else f_two) (10 * Minute)
            (wrap32 (rp_MaxAttempts d)))
  end.
Definition defaultRetryPolicy : RetryPolicy := mkRetryPolicy Second f_two (10 * Minute) 3.

Definition mappings (l : list InputMapping) : gmap string string :=
  fold_left (fun m i => <[im_Key i := im_Value i]> m) l ∅.
(** It has an error to return and never does. *)
Fixpoint convertWorkflowStep (s : WorkflowStep) : DSLWorkflowStep :=
  match s with
  | mkWorkflowStep _ name activity input cond parallel steps =>
      mkStep name activity (mappings input) cond parallel (if parallel then map convertWorkflowStep steps else [])
  end.

(** The trigger is read without a check. *)
Definition LoadWorkflowFromAST (d : option WorkflowDecl) : option (result WorkflowLoadError DSLWorkflowConfig) :=
  match d with
  | None => Some (Err NilWorkflow)
  | Some decl =>
      match wf_Trigger decl with
      | None => None
      | Some t =>
          Some (match (if given (wf_Timeout decl) then ParseDuration (wf_Timeout decl) else Ok (24 * Hour)) with
                | Err e => Err (BadTimeout (wf_Timeout decl) e)
                | Ok timeout =>
                    match (match wf_Retry decl with Some p => convertRetryPolicy p | None => Ok defaultRetryPolicy end) with
                    | Err e => Err (BadRetryPolicy e)
                    | Ok policy => Ok (mkConfig (wf_Name decl) (TrigType t) (tr_Value t) timeout policy (map convertWorkflowStep (wf_Steps decl)))
                    end
                end)
      end
  end.

(** ** Execution *)
Definition StatusRunning : string := "running".
Definition StatusCompleted : string := "completed".
Definition StatusFailed : string := "failed".

Record ActivityCall := mkCall { ac_Name : string; ac_Input : gmap string GoVal; ac_Retry : RetryPolicy }.
Record StepResult := mkStepResult {
  sr_StepName : string; sr_Status : string; sr_Output : option string; sr_Error : string;
  sr_Duration : Z; sr_StartedAt : option Z; sr_FinishedAt : option Z }.

Inductive ExecError :=
| ConditionFailed (step err : string)
| ResolveFailed (step err : string)
| ParallelResolveFailed (step err : string)
| StepFailed (step err : string)
| ParallelFailed (step err : string).

Record Exec := mkExec {
  calls : list ActivityCall; ticks : nat; stepOutputs : gmap string string; StepResults : gmap string StepResult }.

Record DSLWorkflowOutput := mkOutput {
  o_WorkflowID : string; o_Status : string; o_Results : gmap string StepResult; o_StartedAt : Z; o_CompletedAt : Z; o_Error : option ExecError }.

(** Mappings are taken as literals, and conditions as true. *)
Definition resolveMapping (mapping : string) (ctx : gmap string string) : result string GoVal := Ok (VString mapping).
Definition evaluateCondition (condition : string) (ctx : gmap string string) : result string bool := Ok true.

Definition resolve_entry (ctx : gmap string string) (kv : string * string) (acc : result string (gmap string GoVal)) :
    result string (gmap string GoVal) :=
  match acc with
  | Err e => Err e
  | Ok m => match resolveMapping kv.2 ctx with Err e => Err ("failed to resolve mapping: " ++ e) | Ok v => Ok (<[kv.1 := v]> m) end
  end.
Definition resolveInputMappings (ms ctx : gmap string string) : result string (gmap string GoVal) :=
  foldr (resolve_entry ctx) (Ok ∅) (map_to_list ms).

Section Execution.
Variable clock : nat -> Z.
(** What an activity answers, after the calls before it. *)
Variable activity : list ActivityCall -> ActivityCall -> result string string.
Variable retry : RetryPolicy.

Definition Now (s : Exec) : Exec * Z := (mkExec (calls s) (S (ticks s)) (stepOutputs s) (StepResults s), clock (ticks s)).
Definition ExecuteActivity (name : string) (input : gmap string GoVal) (s : Exec) : Exec * result string string :=
  let c := mkCall name input retry in
  (mkExec (calls s ++ [c])%list (ticks s) (stepOutputs s) (StepResults s), activity (calls s) c).
Definition set_result (r : StepResult) (s : Exec) : Exec :=
  mkExec (calls s) (ticks s) (stepOutputs s) (<[sr_StepName r := r]> (StepResults s)).
Definition set_output (name out : string) (s : Exec) : Exec :=
  mkExec (calls s) (ticks s) (<[name := out]> (stepOutputs s)) (StepResults s).

(** Record how a step ended. *)
Definition finish_step (name : string) (started finished : Z) (answer : result string string) (fail : string -> string -> ExecError)
    (s : Exec) : Exec * option ExecError :=
  let d := wrap64 (finished - started) in
  match answer with
  | Err e => (set_result (mkStepResult name StatusFailed None e d (Some started) (Some finished)) s, Some (fail name e))
  | Ok out => (set_output name out (set_result (mkStepResult name StatusCompleted (Some out) "" d (Some started) (Some finished)) s), None)
  end.

Fixpoint start_steps (steps : list DSLWorkflowStep) (s : Exec) : Exec * result ExecError (list (string * result string string)) :=
  match steps with
  | [] => (s, Ok [])
  | st :: steps' =>
      match resolveInputMappings (st_Input st) (stepOutputs s) with
      | Err e => (s, Err (ParallelResolveFailed (st_Name st) e))
      | Ok input =>
          let '(s, answer) := ExecuteActivity (st_Activity st) input s in
          match start_steps steps' s with
          | (s, Ok futures) => (s, Ok ((st_Name st, answer) :: futures))
          | (s, Err e) => (s, Err e)
          end
      end
  end.
Fixpoint await_steps (futures : list (string * result string string)) (s : Exec) : Exec * option ExecError :=
  match futures with
  | [] => (s, None)
  | (name, answer) :: futures' =>
      let '(s, started) := Now s in
      let '(s, finished) := Now s in
      match finish_step name started finished answer ParallelFailed s with
      | (s, None) => await_steps futures' s
      | (s, Some e) => (s, Some e)
      end
  end.
(** The steps of a block are taken as single activities. *)
Definition executeParallelSteps (steps : list DSLWorkflowStep) (s : Exec) : Exec * option ExecError :=
  match start_steps steps s with
  | (s, Err e) => (s, Some e)
  | (s, Ok futures) => await_steps futures s
  end.

Definition executeStep (step : DSLWorkflowStep) (s : Exec) : Exec * option ExecError :=
  match step with
  | mkStep name act input cond parallel steps =>
      if parallel then executeParallelSteps steps s
      else match (if given cond then evaluateCondition cond (stepOutputs s) else Ok true) with
      | Err e => (s, Some (ConditionFailed name e))
      | Ok false => (set_result (mkStepResult name StatusCompleted None "" 0 None None) s, None)
      | Ok true =>
          match resolveInputMappings input (stepOutputs s) with
          | Err e => (s, Some (ResolveFailed name e))
          | Ok resolved =>
              let '(s, started) := Now s in
              let '(s, answer) := ExecuteActivity act resolved s in
              let '(s, finished) := Now s in
              finish_step name started finished answer StepFailed s
          end
      end
  end.

Fixpoint execute_steps (steps : list DSLWorkflowStep) (s : Exec) : Exec * option ExecError :=
  match steps with
  | [] => (s, None)
  | step :: steps' =>
      match executeStep step s with
      | (s, None) => execute_steps steps' s
      | (s, Some e) => (s, Some e)
      end
  end.
End Execution.

(** The timeout of the configuration is looked at and not used. *)
Definition ExecuteDSLWorkflow (clock : nat -> Z) (activity : list ActivityCall -> ActivityCall -> result string string)
    (config : DSLWorkflowConfig) (workflowID : string) : Exec * DSLWorkflowOutput :=
  let '(s, started) := Now clock (mkExec [] 0 ∅ ∅) in
  let '(s, err) := execute_steps clock activity (c_Retry config) (c_Steps config) s in
  let '(s, completed) := Now clock s in
  (s, mkOutput workflowID (match err with Some _ => StatusFailed | None => StatusCompleted end) (StepResults s) started completed err).

(** ** The registry *)
Abbreviation DSLWorkflowRegistry := (gmap string DSLWorkflowConfig).
Definition NewDSLWorkflowRegistry : DSLWorkflowRegistry := ∅.
Definition Register (c : option DSLWorkflowConfig) (r : DSLWorkflowRegistry) : DSLWorkflowRegistry * option WorkflowLoadError :=
  match c with
  | None => (r, Some NilConfig)
  | Some c => if String.eqb (c_Name c) "" then (r, Some WorkflowNameRequired) else (<[c_Name c := c]> r, None)
  end.
Definition Get (name : string) (r : DSLWorkflowRegistry) : option DSLWorkflowConfig := r !! name.
(** Over the entries in the order the map yields them. *)
Definition GetByTrigger (triggerType triggerValue : string) (entries : list (string * DSLWorkflowConfig)) : list DSLWorkflowConfig :=
  List.filter (fun c => String.eqb (TriggerType c) triggerType && String.eqb (TriggerValue c) triggerValue) (map snd entries).
Definition List_ (entries : list (string * DSLWorkflowConfig)) : list string := map fst entries.

Fixpoint LoadWorkflows (decls : list (option WorkflowDecl)) (r : DSLWorkflowRegistry) : option (DSLWorkflowRegistry * option WorkflowLoadError) :=
  match decls with
  | [] => Some (r, None)
  | d :: decls' =>
      match LoadWorkflowFromAST d with
      | None => None
      | Some (Err e) => match d with None => None | Some decl => Some (r, Some (LoadingWorkflow (wf_Name decl) e)) end
      | Some (Ok c) =>
          match Register (Some c) r with
          | (r, Some e) => Some (r, Some e)
          | (r, None) => LoadWorkflows decls' r
          end
      end
  end.

(** The workflows that match are found and none is started. *)
Definition HandleEvent (eventName : string) (entries : list (string * DSLWorkflowConfig)) : list DSLWorkflowConfig * option string :=
  let workflows := GetByTrigger TriggerTypeEvent eventName entries in ([], None).

(** * What an execution does *)
Lemma resolve_literal ms ctx : resolveInputMappings ms ctx = Ok (VString <$> ms).
Proof.
  unfold resolveInputMappings.
  assert (foldr (resolve_entry ctx) (Ok ∅) (map_to_list ms) = Ok (list_to_map (map (prod_map id VString) (map_to_list ms)))) as ->.
  { generalize (map_to_list ms). induction l as [|[k v] l IH]; [done|]. cbn [foldr map]. rewrite IH. done. }
  f_equal. rewrite <- (list_to_map_to_list (VString <$> ms)), map_to_list_fmap. done.
Qed.

Section Plan.
Variable clock : nat -> Z.
Variable activity : list ActivityCall -> ActivityCall -> result string string.
Variable retry : RetryPolicy.

(** The call of a step, and the calls a step of the workflow makes at once. *)
Definition call_of (s : DSLWorkflowStep) : ActivityCall := mkCall (st_Activity s) (VString <$> st_Input s) retry.
Definition group_of (s : DSLWorkflowStep) : list DSLWorkflowStep := if st_Parallel s then st_Steps s else [s].

(** The specification: groups of calls in order; a group is started as a whole
    and must succeed for the next to start. *)
Fixpoint answers (h : list ActivityCall) (cs : list ActivityCall) : list (result string string) :=
  match cs with [] => [] | c :: cs' => activity h c :: answers (h ++ [c])%list cs' end.
Fixpoint run_plan (groups : list (list ActivityCall)) (h : list ActivityCall) : list ActivityCall * bool :=
  match groups with
  | [] => (h, true)
  | g :: gs => if forallb is_ok (answers h g) then run_plan gs (h ++ g)%list else ((h ++ g)%list, false)
  end.

Lemma start_steps_spec steps : forall s, start_steps activity retry steps s =
  (mkExec (calls s ++ map call_of steps)%list (ticks s) (stepOutputs s) (StepResults s),
   Ok (zip (map st_Name steps) (answers (calls s) (map call_of steps)))).
Proof.
  induction steps as [|st steps IH]; intros s; cbn [start_steps].
  - destruct s. cbn. by rewrite app_nil_r.
  - rewrite resolve_literal. cbn [ExecuteActivity]. rewrite IH. cbn. by rewrite <- app_assoc.
Qed.

(** Waiting changes neither the calls nor, unless an answer is an error, what is
    returned. *)
Lemma await_steps_spec fs : forall s s' e, await_steps clock fs s = (s', e) ->
  calls s' = calls s /\ (e = None <-> forallb is_ok (map snd fs) = true).
Proof.
  induction fs as [|[n a] fs IH]; intros s s' e; cbn [await_steps map forallb].
  - by intros [= <- <-].
  - cbn [Now]. destruct a as [out|err]; cbn [finish_step].
    + intros H%IH. cbn in H. exact H.
    + intros [= <- <-]. cbn. by split.
Qed.

Lemma snd_zip_answers steps h : map snd (zip (map st_Name steps) (answers h (map call_of steps))) = answers h (map call_of steps).
Proof. revert h. induction steps as [|s steps IH]; intros h; cbn; [done|]. by rewrite IH. Qed.

Lemma executeStep_spec st s s' e : executeStep clock activity retry st s = (s', e) ->
  calls s' = (calls s ++ map call_of (group_of st))%list /\
  (e = None <-> forallb is_ok (answers (calls s) (map call_of (group_of st))) = true).
Proof.
  destruct st as [n a i c [] ss]; unfold group_of; cbn [executeStep st_Parallel st_Steps].
  - unfold executeParallelSteps. rewrite start_steps_spec. intros H%await_steps_spec. cbn in H. by rewrite snd_zip_answers in H.
  - replace (if given c then evaluateCondition c (stepOutputs s) else Ok true) with (@Ok string bool true) by by destruct (given c).
    rewrite resolve_literal. cbn [Now ExecuteActivity]. cbn [map answers forallb call_of st_Activity st_Input calls].
    unfold call_of at 2. cbn [st_Activity st_Input].
    destruct (activity (calls s) (mkCall a (VString <$> i) retry)); cbn; by intros [= <- <-].
Qed.

(** Whatever the conditions of the steps, execution makes the calls of the plan
    and succeeds when the plan does. *)
Lemma execute_steps_spec steps : forall s s' e, execute_steps clock activity retry steps s = (s', e) ->
  run_plan (map (fun st => map call_of (group_of st)) steps) (calls s) = (calls s', bool_decide (e = None)).
Proof.
  induction steps as [|st steps IH]; intros s s' e; cbn [execute_steps map run_plan].
  - by intros [= <- <-].
  - destruct (executeStep clock activity retry st s) as [s1 e1] eqn:E1. destruct (executeStep_spec _ _ _ _ E1) as [Hc He].
    destruct e1 as [e1|].
    + intros [= <- <-]. destruct (forallb is_ok _); [by destruct He as [_ He]; specialize (He eq_refl)|].
      by rewrite Hc.
    + destruct He as [-> _]; [|done]. rewrite <- Hc. apply IH.
Qed.

(** *** What is recorded *)
Definition recorded (n out : string) (s : Exec) : Prop :=
  stepOutputs s !! n = Some out /\
  exists r, StepResults s !! n = Some r /\ sr_Status r = StatusCompleted /\ sr_Output r = Some out.
Definition unchanged (n : string) (s s' : Exec) : Prop :=
  stepOutputs s' !! n = stepOutputs s !! n /\ StepResults s' !! n = StepResults s !! n.
(** The name at a place, and nowhere else. *)
Definition only_at (names : list string) (i : nat) (n : string) : Prop := forall j, names !! j = Some n <-> j = i.

Lemma recorded_unchanged n out s s' : recorded n out s -> unchanged n s s' -> recorded n out s'.
Proof. intros [H1 H2] [E1 E2]. unfold recorded. by rewrite E1, E2. Qed.
Lemma unchanged_trans n s1 s2 s3 : unchanged n s1 s2 -> unchanged n s2 s3 -> unchanged n s1 s3.
Proof. intros [? ?] [? ?]. split; congruence. Qed.

Lemma finish_ok name t1 t2 out fail s s' : finish_step name t1 t2 (Ok out) fail s = (s', None) ->
  recorded name out s' /\ forall n, n <> name -> unchanged n s s'.
Proof.
  intros [= <-]. split.
  - split; cbn; rewrite lookup_insert_eq; [done|]. eexists. split; [reflexivity|done].
  - intros n Hn. split; cbn; by rewrite lookup_insert_ne.
Qed.

Lemma await_steps_ok fs : forall s s', await_steps clock fs s = (s', None) ->
  (forall n, n ∉ map fst fs -> unchanged n s s') /\
  (forall i n a, fs !! i = Some (n, a) -> only_at (map fst fs) i n -> exists out, a = Ok out /\ recorded n out s').
Proof.
  induction fs as [|[m b] fs IH]; intros s s'; cbn [await_steps map].
  - intros [= <-]. split; [intros; by split|]. intros i n a H. by rewrite lookup_nil in H.
  - cbn [Now]. destruct b as [out|err]; [|done].
    destruct (finish_step m _ _ (Ok out) ParallelFailed _) as [s1 [e|]] eqn:Ef; [done|].
    apply finish_ok in Ef as [Hrec Hun]. intros H. apply IH in H as [H1 H2]. split.
    + intros n [Hn Hn']%not_elem_of_cons. eapply unchanged_trans; [|by apply H1]. by apply Hun.
    + intros [|i] n a; cbn.
      * intros [= <- <-] Ho. exists out. split; [done|]. eapply recorded_unchanged; [exact Hrec|]. apply H1.
        intros (j & Hj)%list_elem_of_lookup. by specialize (proj1 (Ho (S j)) Hj).
      * intros Hi Ho. apply (H2 i n a Hi). intros j. specialize (Ho (S j)). cbn in Ho. rewrite Ho. lia.
Qed.

Lemma answers_lookup cs : forall h i, answers h cs !! i = (fun c => activity (h ++ take i cs)%list c) <$> cs !! i.
Proof.
  induction cs as [|c cs IH]; intros h [|i]; cbn; [done|done|by rewrite app_nil_r|]. rewrite IH. cbn. by rewrite <- app_assoc.
Qed.

Lemma zip_lookup {A B} (l : list A) (k : list B) i x y : l !! i = Some x -> k !! i = Some y -> zip l k !! i = Some (x, y).
Proof. intros H1 H2. rewrite lookup_zip_with, H1. cbn. by rewrite H2. Qed.

(** A step that succeeds records the answer of each of its calls. *)
Lemma executeStep_ok st s s' : executeStep clock activity retry st s = (s', None) ->
  (forall n, n ∉ map st_Name (group_of st) -> unchanged n s s') /\
  (forall i b, group_of st !! i = Some b -> only_at (map st_Name (group_of st)) i (st_Name b) -> exists out,
     activity (calls s ++ take i (map call_of (group_of st)))%list (call_of b) = Ok out /\ recorded (st_Name b) out s').
Proof.
  destruct st as [n a inp c [] ss]; unfold group_of; cbn [executeStep st_Parallel st_Steps].
  - unfold executeParallelSteps. rewrite start_steps_spec. intros H%await_steps_ok. destruct H as [H1 H2].
    assert (map fst (zip (map st_Name ss) (answers (calls s) (map call_of ss))) = map st_Name ss) as Ef.
    { clear. revert s. intros s. generalize (calls s). induction ss as [|x ss IH]; intros h; cbn; [done|]. by rewrite IH. }
    rewrite Ef in *. split; [exact H1|]. intros i b Hi Ho.
    assert (map st_Name ss !! i = Some (st_Name b)) as Hn by (by rewrite list_lookup_fmap, Hi).
    assert (answers (calls s) (map call_of ss) !! i = Some (activity (calls s ++ take i (map call_of ss))%list (call_of b))) as Ha.
    { rewrite answers_lookup, list_lookup_fmap, Hi. done. }
    destruct (H2 i _ _ (zip_lookup _ _ _ _ _ Hn Ha) Ho) as (out & E & Hr). exists out. by split.
  - replace (if given c then evaluateCondition c (stepOutputs s) else Ok true) with (@Ok string bool true) by by destruct (given c).
    rewrite resolve_literal. cbn [Now ExecuteActivity calls]. fold (call_of (mkStep n a inp c false ss)).
    change (mkCall a (VString <$> inp) retry) with (call_of (mkStep n a inp c false ss)).
    destruct (activity (calls s) (call_of (mkStep n a inp c false ss))) as [out|err] eqn:Ea; [|done].
    intros H. apply finish_ok in H as [Hr Hu]. split.
    + intros m Hm. cbn in Hm. apply (Hu m). set_solver.
    + intros [|i] b; cbn; [|done]. intros [= <-] _. exists out. rewrite app_nil_r. by split.
Qed.

Definition executed (steps : list DSLWorkflowStep) : list DSLWorkflowStep := concat (map group_of steps).

Lemma execute_steps_ok steps : forall s s', execute_steps clock activity retry steps s = (s', None) ->
  (forall n, n ∉ map st_Name (executed steps) -> unchanged n s s') /\
  (forall i b, executed steps !! i = Some b -> only_at (map st_Name (executed steps)) i (st_Name b) -> exists out,
     activity (calls s ++ take i (map call_of (executed steps)))%list (call_of b) = Ok out /\ recorded (st_Name b) out s').
Proof.
  unfold executed. induction steps as [|st steps IH]; intros s s'; cbn [execute_steps map concat].
  - intros [= <-]. split; [intros; by split|]. intros i b H. by rewrite lookup_nil in H.
  - destruct (executeStep clock activity retry st s) as [s1 [e1|]] eqn:E1; [done|].
    destruct (executeStep_spec _ _ _ _ E1) as [Hc _]. destruct (executeStep_ok _ _ _ E1) as [H1 H2].
    intros [H3 H4]%IH. rewrite Hc in H4. rewrite !map_app. split.
    + intros n [Hn1 Hn2]%not_elem_of_app. eapply unchanged_trans; [by apply H1|by apply H3].
    + intros i b Hi Ho. set (names1 := map st_Name (group_of st)) in *.
      destruct (decide (i < length (group_of st))%nat) as [Hlt|Hge].
      * rewrite lookup_app_l in Hi by done. destruct (H2 i b Hi) as (out & Ha & Hr).
        { intros j. specialize (Ho j). destruct (decide (j < length names1)%nat) as [Hj|Hj].
          - by rewrite lookup_app_l in Ho.
          - rewrite (lookup_ge_None_2 names1) by lia. split; [done|]. unfold names1 in Hj. rewrite length_map in Hj. lia. }
        exists out. rewrite take_app_le by (rewrite length_map; lia). split; [done|].
        eapply recorded_unchanged; [exact Hr|]. apply H3. intros (j & Hj)%list_elem_of_lookup.
        assert ((names1 ++ map st_Name (concat (map group_of steps)))%list !! (length names1 + j)%nat = Some (st_Name b)) as Hx.
        { rewrite lookup_app_r by lia. rewrite <- Hj. f_equal. lia. }
        apply Ho in Hx. unfold names1 in Hx. rewrite length_map in Hx. lia.
      * rewrite lookup_app_r in Hi by lia. destruct (H4 _ b Hi) as (out & Ha & Hr).
        { intros j. specialize (Ho (length names1 + j)%nat). rewrite lookup_app_r in Ho by lia.
          replace (length names1 + j - length names1)%nat with j in Ho by lia. rewrite Ho. unfold names1. rewrite length_map. lia. }
        exists out. split; [|done]. rewrite <- Ha, <- app_assoc. do 2 f_equal.
        rewrite take_app_ge by (rewrite length_map; lia). by rewrite length_map.
Qed.
End Plan.

(** The workflow runs its plan: the calls it makes are those of the groups of
    the plan up to the first group with a failure, each group started as a whole
    and no step left out for its condition, and it completes exactly when no
    call of the plan fails. *)
Theorem workflow_runs_plan clock activity config id :
  let '(s, o) := ExecuteDSLWorkflow clock activity config id in
  run_plan activity (map (fun st => map (call_of (c_Retry config)) (group_of st)) (c_Steps config)) [] =
    (calls s, bool_decide (o_Status o = StatusCompleted)) /\
  (o_Status o = StatusFailed <-> o_Error o <> None).
Proof.
  unfold ExecuteDSLWorkflow. cbn [Now]. destruct (execute_steps clock activity (c_Retry config) (c_Steps config) _) as [s1 e] eqn:E.
  apply execute_steps_spec in E. cbn [calls] in E. rewrite E. destruct e; by split.
Qed.

(** ** Accepted workflows *)

(** Parallel blocks hold plain steps only. *)
Definition is_parallel (s : WorkflowStep) : bool := let 'mkWorkflowStep _ _ _ _ _ p _ := s in p.
Definition nested (s : WorkflowStep) : list WorkflowStep := let 'mkWorkflowStep _ _ _ _ _ _ l := s in l.
Definition flat (d : WorkflowDecl) : Prop :=
  Forall (fun s => is_parallel s = true -> Forall (fun n => is_parallel n = false) (nested s)) (wf_Steps d).
Definition leaves_of (d : WorkflowDecl) : list WorkflowStep := concat (map leaf_steps (wf_Steps d)).
Definition leaf_call (retry : RetryPolicy) (s : WorkflowStep) : ActivityCall :=
  mkCall (step_activity s) (VString <$> mappings (step_input s)) retry.

Lemma group_convert s : (is_parallel s = true -> Forall (fun n => is_parallel n = false) (nested s)) ->
  group_of (convertWorkflowStep s) = map convertWorkflowStep (leaf_steps s).
Proof.
  destruct s as [p n a i c [] ss]; [|done]. cbn [is_parallel nested convertWorkflowStep leaf_steps]. intros H.
  specialize (H eq_refl). unfold group_of. cbn [st_Parallel st_Steps].
  induction H as [|s ss Hs _ IH]; [done|]. cbn [map concat]. rewrite map_app, <- IH. by destruct s as [? ? ? ? ? [] ?].
Qed.
Lemma executed_convert d : flat d -> executed (map convertWorkflowStep (wf_Steps d)) = map convertWorkflowStep (leaves_of d).
Proof.
  unfold executed, leaves_of, flat. induction 1 as [|s ss Hs _ IH]; [done|]. cbn [map concat].
  by rewrite map_app, IH, group_convert.
Qed.
Lemma convert_name s : st_Name (convertWorkflowStep s) = step_name s.
Proof. by destruct s. Qed.
Lemma convert_call retry s : call_of retry (convertWorkflowStep s) = leaf_call retry s.
Proof. by destruct s. Qed.

(** Distinct names, among those given, are at one place. *)
Lemma given_only_at names : NoDup (List.filter given names) -> forall i n, names !! i = Some n -> n <> "" -> only_at names i n.
Proof.
  induction names as [|m names IH]; cbn [List.filter]; [done|]. intros Hd i n Hi Hn j.
  assert (given n = true) as Hg by (apply not_false_is_true; by rewrite given_false).
  assert (forall k, names !! k = Some n -> n ∈ List.filter given names) as Hin.
  { intros k Hk. apply list_elem_of_In, filter_In. split; [|done]. apply list_elem_of_In. by eapply list_elem_of_lookup_2. }
  destruct i as [|i]; cbn in Hi.
  - injection Hi as ->. rewrite Hg in Hd. apply NoDup_cons in Hd as [Hni _]. destruct j as [|j]; cbn; [done|].
    split; [|done]. by intros Hj%Hin.
  - destruct j as [|j]; cbn.
    + split; [|done]. intros [= ->]. rewrite Hg in Hd. apply NoDup_cons in Hd as [Hni _]. by destruct Hni; eapply Hin.
    + rewrite (IH ltac:(destruct (given m); [by apply NoDup_cons in Hd as [_ Hd]|done]) i n Hi Hn j). lia.
Qed.

Section Accepted.
Variable cron : string -> option string.

Lemma retry_converts p : retry_ok p -> exists r, convertRetryPolicy p = Ok r.
Proof.
  intros [_ H _]. unfold convertRetryPolicy. destruct H as [->|[d E]]; [by eexists|].
  destruct (given (InitialInterval p)); [rewrite E|]; by eexists.
Qed.
Lemma accepted_loads known d t : workflow_ok cron known d -> wf_Trigger d = Some t ->
  exists c, LoadWorkflowFromAST (Some d) = Some (Ok c) /\ c_Name c = wf_Name d /\ c_Steps c = map convertWorkflowStep (wf_Steps d) /\
    TriggerType c = TrigType t /\ TriggerValue c = tr_Value t.
Proof.
  intros [_ _ Ht _ _ _ Hr] Et. unfold LoadWorkflowFromAST. rewrite Et.
  assert (exists z, (if given (wf_Timeout d) then ParseDuration (wf_Timeout d) else Ok (24 * Hour)) = Ok z) as [z ->].
  { destruct Ht as [->|[z E]]; [by eexists|]. destruct (given (wf_Timeout d)); [rewrite E|]; by eexists. }
  assert (exists r, (match wf_Retry d with Some p => convertRetryPolicy p | None => Ok defaultRetryPolicy end) = Ok r) as [r ->].
  { destruct (wf_Retry d) as [p|]; [|by eexists]. by apply retry_converts, Hr. }
  by eexists.
Qed.

(** When an accepted workflow without blocks in blocks completes, every step
    that has a name has been run after the steps before it, on the literal texts
    of its mappings, and the result under its name is completed and holds what
    the activity answered. *)
Lemma accepted_workflow_results known d c (Hok : workflow_ok cron known d) (Hflat : flat d)
    (Hload : LoadWorkflowFromAST (Some d) = Some (Ok c)) clock activity id s o
    (Hrun : ExecuteDSLWorkflow clock activity c id = (s, o)) (Hdone : o_Status o = StatusCompleted) i st :
  leaves_of d !! i = Some st -> step_name st <> "" ->
  exists out r, activity (map (leaf_call (c_Retry c)) (take i (leaves_of d))) (leaf_call (c_Retry c) st) = Ok out /\
    o_Results o !! step_name st = Some r /\ sr_Status r = StatusCompleted /\ sr_Output r = Some out.
Proof.
  intros Hi Hn. destruct (wf_Trigger d) as [t|] eqn:Et; [|unfold LoadWorkflowFromAST in Hload; by rewrite Et in Hload].
  destruct (accepted_loads known d t Hok Et) as (c' & Hc & _ & Hs & _). rewrite Hload in Hc. injection Hc as <-.
  unfold ExecuteDSLWorkflow in Hrun. cbn [Now] in Hrun.
  destruct (execute_steps clock activity (c_Retry c) (c_Steps c) _) as [s1 e] eqn:E. cbn [Now] in Hrun. injection Hrun as <- <-.
  destruct e as [e|]; [discriminate Hdone|]. apply execute_steps_ok in E as [_ E].
  rewrite Hs, executed_convert in E by done. specialize (E i (convertWorkflowStep st)).
  rewrite list_lookup_fmap, Hi, map_map in E. specialize (E eq_refl). rewrite convert_name in E.
  rewrite (map_ext _ step_name convert_name) in E.
  destruct E as (out & Ha & Ho & r & Hr & Hst & Hout).
  { apply (given_only_at (map step_name (leaves_of d))); [exact (ok_names _ _ _ Hok)| |done]. by rewrite list_lookup_fmap, Hi. }
  exists out, r. split; [|done]. rewrite convert_call, map_map in Ha. cbn [calls] in Ha. rewrite app_nil_l in Ha.
  rewrite (map_ext _ (leaf_call (c_Retry c)) (convert_call (c_Retry c))) in Ha. by rewrite firstn_map in Ha.
Qed.

(** ** Loading accepted workflows *)
Lemma LoadWorkflows_all decls : forall r,
  Forall (fun d => exists c, LoadWorkflowFromAST (Some d) = Some (Ok c) /\ c_Name c = wf_Name d /\ wf_Name d <> "") decls ->
  NoDup (map wf_Name decls) ->
  exists r', LoadWorkflows (map Some decls) r = Some (r', None) /\
    (forall n, n ∉ map wf_Name decls -> r' !! n = r !! n) /\
    Forall (fun d => exists c, r' !! wf_Name d = Some c /\ LoadWorkflowFromAST (Some d) = Some (Ok c)) decls.
Proof.
  induction decls as [|d decls IH]; intros r H Hd; cbn [map LoadWorkflows].
  - exists r. split; [done|]. split; [done|constructor].
  - apply Forall_cons_1 in H as [(c & Hc & Hn & Hne) H]. apply NoDup_cons in Hd as [Hni Hd]. rewrite Hc. unfold Register.
    destruct (String.eqb_spec (c_Name c) "") as [E|_]; [congruence|].
    destruct (IH (<[c_Name c := c]> r) H Hd) as (r' & Hl & Hother & Hall). exists r'. split; [done|]. split.
    + intros n [Hn1 Hn2]%not_elem_of_cons. rewrite Hother by done. apply lookup_insert_ne. congruence.
    + constructor; [|done]. exists c. split; [|done]. rewrite Hother by done. rewrite <- Hn. apply lookup_insert_eq.
Qed.

(** What the validator accepts can be loaded, once every workflow has a
    trigger: no workflow is lost, and each is found under its name with the
    configuration of its own declaration. *)
Lemma accepted_workflows_load (v : WorkflowValidator) decls (Hf : wv_workflows v = ∅)
    (Hok : (ValidateWorkflows cron (map Some decls) v).2 = []) (Ht : Forall (fun d => wf_Trigger d <> None) decls) :
  exists r, LoadWorkflows (map Some decls) NewDSLWorkflowRegistry = Some (r, None) /\
    (forall n, n ∈ dom r <-> n ∈ map wf_Name decls) /\
    Forall (fun d => exists c, Get (wf_Name d) r = Some c /\ LoadWorkflowFromAST (Some d) = Some (Ok c)) decls.
Proof.
  apply workflows_accepted_iff in Hok as (_ & Hd & Hall).
  rewrite omap_Some in *. destruct (LoadWorkflows_all decls ∅) as (r & Hl & Hother & Hr); [|done|].
  { rewrite Forall_forall in Ht |- *. intros d Hin. destruct (wf_Trigger d) as [t|] eqn:Et; [|by apply Ht in Hin].
    destruct (Hall d Hin) as [_ Hw]. destruct (accepted_loads _ d t Hw Et) as (c & Hc & Hn & _). exists c.
    repeat split; auto. pose proof (ok_name _ _ _ Hw) as Hid. intros H0. by rewrite H0 in Hid. }
  exists r. split; [done|]. split; [|done]. intros n. rewrite elem_of_dom. split.
  - intros [c Hc]. destruct (decide (n ∈ map wf_Name decls)) as [|Hn]; [done|]. rewrite Hother in Hc by done. done.
  - intros (d & -> & Hin)%list_elem_of_fmap. rewrite Forall_forall in Hr. destruct (Hr d Hin) as (c & Hc & _). by eexists.
Qed.
End Accepted.

(** ** Witnesses *)
Definition no_cron (e : string) : option string := None.
Definition order_workflow : WorkflowDecl :=
  mkWorkflowDecl nowhere "order" (Some (mkTrigger nowhere "event" "order.created"))
    [mkWorkflowStep nowhere "check" "CheckStock" [mkInputMapping nowhere "id" "workflow.input.id"] "" false [];
     mkWorkflowStep nowhere "" "" [] "" true
       [mkWorkflowStep nowhere "pay" "Charge" [] "steps.check.output.ok" false []; mkWorkflowStep nowhere "mail" "Notify" [] "" false []]]
    None "1h".
Definition all_answer (h : list ActivityCall) (c : ActivityCall) : result string string := Ok (ac_Name c).
Definition order_config : DSLWorkflowConfig :=
  match LoadWorkflowFromAST (Some order_workflow) with Some (Ok c) => c | _ => mkConfig "" "" "" 0 defaultRetryPolicy [] end.
Definition order_run : Exec * DSLWorkflowOutput := ExecuteDSLWorkflow Z.of_nat all_answer order_config "w1".

Lemma order_accepted : (ValidateWorkflows no_cron (map Some [order_workflow]) NewWorkflowValidator).2 = [].
Proof. vm_compute. reflexivity. Defined.
Lemma order_ok : workflow_ok no_cron ∅ order_workflow.
Proof.
  apply (workflows_accepted_iff no_cron NewWorkflowValidator [Some order_workflow]); [apply order_accepted|]. cbn. set_solver.
Qed.

(** ** Where the code does less than it says *)

(** A workflow without a trigger is accepted, and loading it panics. *)
Definition triggerless : WorkflowDecl :=
  mkWorkflowDecl nowhere "w" None [mkWorkflowStep nowhere "a" "A" [] "" false []] None "".
Lemma triggerless_panics :
  (ValidateWorkflows no_cron [Some triggerless] NewWorkflowValidator).2 = [] /\
  LoadWorkflows [Some triggerless] NewDSLWorkflowRegistry = None.
Proof. split; vm_compute; reflexivity. Qed.

(** A condition never keeps a step from running. *)
Lemma condition_ignored clock activity retry name act input c1 c2 s :
  executeStep clock activity retry (mkStep name act input c1 false []) s =
  executeStep clock activity retry (mkStep name act input c2 false []) s.
Proof. cbn [executeStep]. by destruct (given c1), (given c2). Qed.

(** The timeout has no effect. *)
Lemma timeout_ignored clock activity name ty val t1 t2 retry steps id :
  ExecuteDSLWorkflow clock activity (mkConfig name ty val t1 retry steps) id =
  ExecuteDSLWorkflow clock activity (mkConfig name ty val t2 retry steps) id.
Proof. done. Qed.

(** A parallel block in a parallel block runs an activity without a name in
    place of its steps. *)
Definition block_in_block : WorkflowDecl :=
  mkWorkflowDecl nowhere "w" (Some (mkTrigger nowhere "manual" ""))
    [mkWorkflowStep nowhere "" "" [] "" true [mkWorkflowStep nowhere "" "" [] "" true [mkWorkflowStep nowhere "a" "A" [] "" false []]]]
    None "".
Lemma nested_block_lost :
  (ValidateWorkflows no_cron [Some block_in_block] NewWorkflowValidator).2 = [] /\
  exists c, LoadWorkflowFromAST (Some block_in_block) = Some (Ok c) /\
    map ac_Name (calls (ExecuteDSLWorkflow Z.of_nat all_answer c "w1").1) = [""].
Proof. split; [vm_compute; reflexivity|]. eexists. split; [vm_compute; reflexivity|vm_compute; reflexivity]. Qed.

(** The number of attempts is cut to 32 bits: a large one becomes none, which
    for Temporal is no limit. *)
Lemma attempts_wrap p m : InitialInterval p = "" -> rp_MaxAttempts p = 2 ^ 32 * m -> exists r,
  convertRetryPolicy p = Ok r /\ MaximumAttempts r = 0.
Proof.
  intros E Em. unfold convertRetryPolicy. rewrite E. eexists. split; [reflexivity|]. cbn [MaximumAttempts]. rewrite Em.
  unfold wrap32. rewrite Z.add_comm, (Z.mul_comm (2 ^ 32)), Z_mod_plus_full. done.
Qed.

(** No event starts a workflow. *)
Lemma no_event_starts name entries : HandleEvent name entries = ([], None).
Proof. done. Qed.
