(* ===== verification/EndpointRoutes.v ===== *)
(** Accepted endpoints and the router: what [EndpointValidator] guarantees to
    [Generator]. *)

From Stdlib Require Import ZArith Lia Ascii.
From stdpp Require Import base strings list gmap.
From S2P Require Import Prelude GoStrings GoText DslAst DslValidator EndpointValidator.
From S2P Require AuthMiddleware Generator.

#[local] Open Scope string_scope.

(** ** Paths without braces are converted one to one *)
Definition no_brace (c : ascii) : bool := negb (Ascii.eqb c "{") && negb (Ascii.eqb c "}").
Definition braceless (path : string) : Prop := str_forall no_brace path = true.

Lemma no_brace_ne c : no_brace c = true -> c <> "{"%char /\ c <> "}"%char.
Proof. unfold no_brace. intros [H1%negb_true_iff H2%negb_true_iff]%andb_true_iff. by apply Ascii.eqb_neq in H1, H2. Qed.

Lemma convert_from_inj s : forall b t, braceless s -> braceless t ->
  Generator.convert_from b s = Generator.convert_from b t -> s = t.
Proof.
  assert (forall c d s' t', Generator.convert_from true (String c s') = Generator.convert_from true (String d t') ->
    no_brace c = true -> no_brace d = true -> c = d /\ Generator.convert_from (negb (Ascii.eqb c "/")) s' = Generator.convert_from (negb (Ascii.eqb c "/")) t') as Htrue.
  { intros c d s' t' H Hc Hd. apply no_brace_ne in Hc as [_ Hc], Hd as [_ Hd]. cbn [Generator.convert_from] in H.
    destruct (ascii_eqb_spec c "/") as [->|Hc'], (ascii_eqb_spec d "/") as [->|Hd']; injection H; intros; subst; done. }
  induction s as [|c s IH]; intros b t Hs Ht.
  - destruct t as [|d t]; [done|]. unfold braceless in Ht. cbn in Ht. apply andb_true_iff in Ht as [Hd _].
    apply no_brace_ne in Hd as [_ Hd]. destruct b; cbn.
    + destruct (Ascii.eqb d "/"); [by intros [=]|]. intros [= E _]. by destruct Hd.
    + destruct (Ascii.eqb d ":"); by intros [=].
  - unfold braceless in *. cbn in Hs. apply andb_true_iff in Hs as [Hc Hs]. destruct t as [|d t].
    { apply no_brace_ne in Hc as [_ Hc]. destruct b; cbn.
      - destruct (Ascii.eqb c "/"); [by intros [=]|]. intros [= E _]. by destruct Hc.
      - destruct (Ascii.eqb c ":"); by intros [=]. }
    cbn in Ht. apply andb_true_iff in Ht as [Hd Ht]. destruct b.
    + intros H. destruct (Htrue _ _ _ _ H Hc Hd) as [-> H']. f_equal. by eapply IH.
    + cbn. apply no_brace_ne in Hc as [Hc _], Hd as [Hd _].
      destruct (ascii_eqb_spec c ":") as [->|Hc'], (ascii_eqb_spec d ":") as [->|Hd']; intros H; injection H; intros.
      * f_equal. by eapply IH.
      * by destruct Hd.
      * by destruct Hc.
      * subst. f_equal. by eapply IH.
Qed.

Lemma NoDup_map_finer {A B C} (f : A -> B) (g : A -> C) l : (forall x y, x ∈ l -> y ∈ l -> f x = f y -> g x = g y) ->
  NoDup (map g l) -> NoDup (map f l).
Proof.
  induction l as [|x l IH]; intros Hfg; cbn [map]; [intros _; constructor|]. rewrite !NoDup_cons. intros [Hx Hl]. split.
  - intros (y & Hy & Hin)%list_elem_of_fmap. apply Hx. rewrite (Hfg x y); [by apply list_elem_of_fmap_2|set_solver|set_solver|done].
  - apply IH; [|done]. intros. apply Hfg; set_solver.
Qed.

Section Routes.
Context {W : Type}.
Variables (validators : string -> AuthMiddleware.TokenValidator W)
  (new_validator : nat -> AuthJwt.Config -> result AuthJwt.AuthError AuthJwt.Validator)
  (GenerateHandler : EndpointDecl -> AuthMiddleware.HttpHandler W).

End Routes.

Definition user_program : Program_ := mkProgram nowhere [Endpoint get_user].
Definition echo_handler (e : EndpointDecl) : AuthMiddleware.HttpHandler unit :=
  fun r w => (w, AuthMiddleware.Responded (AuthMiddleware.mkResponse 200 ∅ AuthMiddleware.NoBody)).


(** With braces two accepted endpoints can have one pattern. *)
Definition at_path (p : string) : EndpointDecl := mkEndpointDecl nowhere "GET" p None [] "" [].
Lemma braces_collide :
  (ValidateEndpoints [Some (at_path "/:id"); Some (at_path "/{id}")] NewEndpointValidator).2 = [] /\
  Generator.route_key (at_path "/:id") = Generator.route_key (at_path "/{id}").
Proof. split; vm_compute; reflexivity. Qed.
