(* ===== verification/EndpointParser.v ===== *)
(** Endpoints from their text: [internal/parser/endpoint.go], and the reading of
    quoted texts and numbers of [parser.go].

    The grammar is run by a parser library, whose result — a tree of the grammar
    structures below — is a parameter ([grammar]).  The structures keep the
    position of each node, which the conversion does not read. *)

From Stdlib Require Import ZArith Lia Ascii.
From stdpp Require Import base strings list gmap.
From S2P Require Import Prelude GoStrings GoText DslAst.

#[local] Open Scope string_scope.
#[local] Open Scope Z_scope.

(** ** Quoted texts and numbers *)

(** The last byte of a text that is not empty. *)
Fixpoint last_byte (c : ascii) (s : string) : ascii := match s with EmptyString => c | String d s' => last_byte d s' end.
Fixpoint without_last (s : string) : string :=
  match s with EmptyString => "" | String _ EmptyString => "" | String c s' => String c (without_last s') end.
(** Strips the quotes around a text, and nothing else. *)
Definition unquote (s : string) : string :=
  match s with
  | String c (String d r) => if Ascii.eqb c dquote && Ascii.eqb (last_byte d r) dquote then without_last (String d r) else s
  | _ => s
  end.
Definition safeUnquote (s : option string) : string := match s with Some s => unquote s | None => "" end.

(** [n, _ := strconv.Atoi(s)]: the value on an error is that of the bound passed,
    or zero. *)
Definition Atoi_value (s : string) : Z :=
  match ParseInt s with
  | Ok n => n
  | Err ErrRange => if HasPrefix s "-" then int64_min else int64_max
  | Err ErrSyntax => 0
  end.

(** ** The grammar *)
Definition LexPos : Type := Position.
Record pMiddlewareRef := mkPMiddlewareRef { pm_pos : LexPos; pm_Name : string }.
Record pRequestType := mkPRequest { pr_pos : LexPos; pr_TypeName : string; pr_Source : string }.
Record pResponseType := mkPResponse { ps_pos : LexPos; ps_TypeName : string; ps_StatusCode : string }.
Record pOption := mkPOption { po_pos : LexPos; po_Key : string; po_Value : string }.
Record pLogicStep := mkPLogicStep {
  pl_pos : LexPos; pl_Target : option string; pl_Action : string; pl_Args : list string; pl_Condition : option string;
  pl_Options : list pOption }.
Record pHandlerLogic := mkPLogic { ph_pos : LexPos; ph_Steps : list pLogicStep }.
Record pAnnotation := mkPAnnotation { pa_pos : LexPos; pa_Name : string; pa_Value : option string }.
Record pEndpointDecl := mkPEndpoint {
  pe_pos : LexPos; pe_Annotations : list pAnnotation; pe_Method : string; pe_Path : string; pe_Middlewares : list pMiddlewareRef;
  pe_RequireRole : option string; pe_Request : option pRequestType; pe_Response : option pResponseType; pe_Logic : option pHandlerLogic }.
Record pEndpointFile := mkPEndpointFile { pf_pos : LexPos; pf_Endpoints : list pEndpointDecl }.

(** ** Conversion *)

(** The position of a node that was given none. *)
Definition no_pos : Position := mkPosition "" 0 0 0.

(** A keyword that is one of those expected, or the default. *)
Definition keyword (known : list string) (dflt s : string) : string := if existsb (String.eqb s) known then s else dflt.

Definition convertRequestType (r : pRequestType) : RequestType :=
  mkRequestType no_pos (pr_TypeName r) (keyword ["body"; "query"; "path"; "header"] "body" (pr_Source r)).
Definition convertResponseType (r : pResponseType) : ResponseType :=
  mkResponseType no_pos (ps_TypeName r) (Atoi_value (ps_StatusCode r)).
(** Every option is a text. *)
Definition convertOption (o : pOption) : Option_ := mkOption no_pos (po_Key o) (StringLiteral no_pos (unquote (po_Value o))).
Definition convertLogicStep (s : pLogicStep) : LogicStep :=
  mkLogicStep no_pos (pl_Action s) (default "" (pl_Target s)) (map unquote (pl_Args s)) (safeUnquote (pl_Condition s))
    (map convertOption (pl_Options s)).
Definition convertHandlerLogic (l : pHandlerLogic) : HandlerLogic := mkHandlerLogic no_pos (map convertLogicStep (ph_Steps l)).
Definition convertAnnotation (a : pAnnotation) : Annotation := mkAnnotation no_pos (pa_Name a) (safeUnquote (pa_Value a)).
Definition convertMiddlewareRef (m : pMiddlewareRef) : MiddlewareRef := mkMiddlewareRef no_pos (pm_Name m).

Definition convertEndpointDecl (e : pEndpointDecl) : EndpointDecl :=
  mkEndpointDecl no_pos (keyword ["GET"; "POST"; "PUT"; "DELETE"; "PATCH"] "GET" (pe_Method e)) (unquote (pe_Path e))
    (Some (mkHandler no_pos (convertRequestType <$> pe_Request e) (convertResponseType <$> pe_Response e)
             (convertHandlerLogic <$> pe_Logic e)))
    (map convertMiddlewareRef (pe_Middlewares e)) (safeUnquote (pe_RequireRole e)) (map convertAnnotation (pe_Annotations e)).
Definition convertEndpoints (f : pEndpointFile) : list EndpointDecl := map convertEndpointDecl (pf_Endpoints f).

Section Parse.
Variable grammar : string -> result string pEndpointFile.

Definition ParseEndpoints (input : string) : result string (list EndpointDecl) :=
  match grammar input with Err e => Err e | Ok parsed => Ok (convertEndpoints parsed) end.
(** The first endpoint; the others are dropped.  [None] is nil. *)
Definition ParseEndpoint (input : string) : result string (option EndpointDecl) :=
  match ParseEndpoints input with
  | Err e => Err e
  | Ok [] => Ok None
  | Ok (e :: _) => Ok (Some e)
  end.
End Parse.

(** * Quoting *)
Definition quoted (s : string) : string := String dquote (s ++ String dquote "").

Lemma last_byte_app s c d : last_byte c (s ++ String d "") = d.
Proof. revert c. induction s as [|x s IH]; intros c; cbn; [done|apply IH]. Qed.
Lemma without_last_app s d : without_last (s ++ String d "") = s.
Proof. induction s as [|c s IH]; [done|]. cbn. rewrite IH. by destruct s. Qed.
(** Every text can be written, its quotes and backslashes as they are: nothing is
    an escape. *)
Lemma unquote_quoted s : unquote (quoted s) = s.
Proof.
  unfold quoted, unquote. destruct (s ++ String dquote "") as [|d r] eqn:E; [by destruct s|].
  assert (last_byte d r = dquote) as -> by (rewrite <- (last_byte_app s dquote dquote), E; done).
  rewrite <- E. apply without_last_app.
Qed.
Lemma unquote_plain s : (forall r, s <> String dquote r) -> unquote s = s.
Proof.
  intros H. destruct s as [|c [|d r]]; [done|done|]. cbn. destruct (Ascii.eqb_spec c dquote) as [->|]; [|done]. by destruct (H (String d r)).
Qed.

Lemma keyword_known known dflt s : dflt ∈ known -> keyword known dflt s ∈ known.
Proof.
  intros Hd. unfold keyword. destruct (existsb (String.eqb s) known) eqn:E; [|done].
  apply existsb_exists in E as (x & Hx & ->%String.eqb_eq). by apply list_elem_of_In.
Qed.
