(* ===== verification/WorkflowParser.v ===== *)
(** Workflows and jobs from their text: [internal/parser/workflow.go].  The
    grammars are run by a parser library whose results are parameters. *)

From Stdlib Require Import ZArith Lia Ascii.
From stdpp Require Import base strings list gmap.
From S2P Require Import Prelude GoStrings GoText Retry GoDuration DslAst EndpointParser DslValidator EndpointValidator WorkflowValidator Workflow.

#[local] Open Scope string_scope.
#[local] Open Scope Z_scope.

(** ** The grammar *)
Record pTrigger := mkPTrigger { pt_pos : LexPos; pt_Event : option string; pt_Schedule : option string; pt_Manual : bool }.
Record pInputMapping := mkPMapping { pi_pos : LexPos; pi_Key : string; pi_Value : string }.
Record pInputBlock := mkPInput { pb_pos : LexPos; pb_Mappings : list pInputMapping }.
Record pRegularStep := mkPRegular {
  pg_pos : LexPos; pg_Name : string; pg_Activity : option string; pg_Input : option pInputBlock; pg_Condition : option string }.
Record pParallelBlock := mkPParallel { pp_pos : LexPos; pp_Steps : list pRegularStep }.
Record pWorkflowStep := mkPStep { pw_pos : LexPos; pw_Parallel : option pParallelBlock; pw_Regular : option pRegularStep }.
Record pRetryPolicy := mkPRetry {
  pY_pos : LexPos; pY_MaxAttempts : option Z; pY_InitialInterval : option string; pY_BackoffMultiplier : option float64 }.
Record pWorkflowDecl := mkPWorkflow {
  pk_pos : LexPos; pk_Name : string; pk_Trigger : option pTrigger; pk_Timeout : option string; pk_Steps : list pWorkflowStep;
  pk_Retry : option pRetryPolicy }.
Record pJobDecl := mkPJob {
  pj_pos : LexPos; pj_Name : string; pj_Schedule : option string; pj_Task : string; pj_Queue : option string; pj_Retry : option pRetryPolicy }.

(** ** Conversion *)

(** Written out again as [trimQuotes]; it is [unquote]. *)
Definition trimQuotes (s : string) : string := unquote s.
Definition trim_optional (s : option string) : string := match s with Some s => trimQuotes s | None => "" end.

Definition convertTriggerFromParsed (p : pTrigger) : Trigger :=
  match pt_Event p, pt_Schedule p with
  | Some e, _ => mkTrigger no_pos TriggerTypeEvent (trimQuotes e)
  | None, Some s => mkTrigger no_pos TriggerTypeSchedule (trimQuotes s)
  | None, None => mkTrigger no_pos (if pt_Manual p then TriggerTypeManual else "") ""
  end.

Definition convert_mapping (m : pInputMapping) : InputMapping := mkInputMapping no_pos (pi_Key m) (trimQuotes (pi_Value m)).
Definition convertRegularStepFromParsed (p : pRegularStep) : WorkflowStep :=
  mkWorkflowStep no_pos (pg_Name p) (trim_optional (pg_Activity p))
    (match pg_Input p with Some b => map convert_mapping (pb_Mappings b) | None => [] end) (trim_optional (pg_Condition p)) false [].
Definition convertWorkflowStepFromParsed (p : pWorkflowStep) : WorkflowStep :=
  match pw_Parallel p, pw_Regular p with
  | Some b, _ => mkWorkflowStep no_pos "" "" [] "" true (map convertRegularStepFromParsed (pp_Steps b))
  | None, Some r => convertRegularStepFromParsed r
  | None, None => mkWorkflowStep no_pos "" "" [] "" false []
  end.
Definition convertRetryPolicyFromParsed (p : pRetryPolicy) : RetryPolicyDecl :=
  mkRetryPolicyDecl no_pos (default 0 (pY_MaxAttempts p)) (trim_optional (pY_InitialInterval p)) (default f_zero (pY_BackoffMultiplier p)).
Definition convertWorkflowFromParsed (p : pWorkflowDecl) : WorkflowDecl :=
  mkWorkflowDecl no_pos (pk_Name p) (convertTriggerFromParsed <$> pk_Trigger p) (map convertWorkflowStepFromParsed (pk_Steps p))
    (convertRetryPolicyFromParsed <$> pk_Retry p) (trim_optional (pk_Timeout p)).
Definition convertJobFromParsed (p : pJobDecl) : JobDecl :=
  mkJobDecl no_pos (pj_Name p) (trim_optional (pj_Schedule p)) (trimQuotes (pj_Task p)) (trim_optional (pj_Queue p))
    (convertRetryPolicyFromParsed <$> pj_Retry p).

Definition ParseWorkflow (grammar : string -> result string pWorkflowDecl) (input : string) : result string WorkflowDecl :=
  match grammar input with Err e => Err e | Ok p => Ok (convertWorkflowFromParsed p) end.
Definition ParseJob (grammar : string -> result string pJobDecl) (input : string) : result string JobDecl :=
  match grammar input with Err e => Err e | Ok p => Ok (convertJobFromParsed p) end.

(** * What is parsed *)

(** Blocks are not nested, so what [Workflow] says of flat workflows holds of
    every workflow that was read from a text. *)
Lemma parsed_flat p : flat (convertWorkflowFromParsed p).
Proof.
  unfold flat. cbn [convertWorkflowFromParsed wf_Steps]. apply Forall_forall. intros s (q & -> & _)%list_elem_of_fmap.
  destruct q as [pos [b|] [r|]]; cbn; try done; intros _; apply Forall_forall; by intros s (r' & -> & _)%list_elem_of_fmap.
Qed.


Definition order_text : pWorkflowDecl :=
  mkPWorkflow no_pos "order" (Some (mkPTrigger no_pos (Some (quoted "order.created")) None false)) (Some (quoted "1h"))
    [mkPStep no_pos None (Some (mkPRegular no_pos "check" (Some (quoted "CheckStock"))
       (Some (mkPInput no_pos [mkPMapping no_pos "id" (quoted "workflow.input.id")])) None));
     mkPStep no_pos (Some (mkPParallel no_pos [mkPRegular no_pos "pay" (Some (quoted "Charge")) None (Some (quoted "steps.check.output.ok"));
       mkPRegular no_pos "mail" (Some (quoted "Notify")) None None])) None] None.
Definition order_grammar (input : string) : result string pWorkflowDecl := Ok order_text.

