(* ===== verification/DslParser.v ===== *)
(** Programs from their text: [internal/parser/parser.go], and the view of a
    program as an application ([ToApplication], [internal/ast/ast.go]).

    The grammar of everything but endpoints is run by a parser library whose
    result, a tree of the structures below, is a parameter.  Where a structure has
    alternatives the library sets exactly one, which is a constructor here;
    positions of inner nodes, which nothing reads, are left out. *)

From Stdlib Require Import ZArith Lia Ascii SpecFloat.
From stdpp Require Import base strings list gmap.
From S2P Require Import Prelude GoStrings GoText DslAst EndpointParser.

#[local] Open Scope string_scope.
#[local] Open Scope Z_scope.

(** ** The grammar *)
Inductive pExpression :=
| PString (s : string)
| PNumber (s : string)
| PTrue
| PFalse
| PArray (elements : list pExpression)
| PFuncCall (name : string) (arguments : list pExpression)
| PIdentifier (name : string)
| PNoExpression.

Record pConfigProperty := mkPProperty { pc_Key : string; pc_Value : pExpression }.
Record pConfigDecl := mkPConfig { pc_Properties : list pConfigProperty }.
Record pAuthDecl := mkPAuth { pu_Name : string; pu_Method : string; pu_JwksURL : option string; pu_Issuer : option string; pu_Audience : option string }.
Record pRoleDecl := mkPRole { pro_Name : string; pro_Permissions : list string }.
Record pMiddlewareDecl := mkPMiddleware { pmw_Name : string; pmw_Type : string; pmw_Config : list pConfigProperty }.
Record pEventSchemaField := mkPSchemaField { pef_Name : string; pef_FieldType : string }.
Record pEventSchema := mkPSchema { pes_Fields : list pEventSchemaField }.
Record pEventDecl := mkPEvent { pev_Name : string; pev_Schema : option pEventSchema }.
Record pEventHandler := mkPHandler { peh_EventName : string; peh_ActionType : string; peh_Target : string; peh_Async : bool }.
Record pIntegrationAuth := mkPIntegrationAuth { pia_AuthType : string; pia_Config : list pConfigProperty }.
Record pCircuitBreaker := mkPBreaker { pcb_Threshold : Z; pcb_Timeout : string; pcb_MaxConcurrent : Z }.
Record pIntegrationDecl := mkPIntegration {
  pin_Name : string; pin_IntgType : string; pin_BaseURL : string; pin_Auth : option pIntegrationAuth; pin_Timeout : option string;
  pin_CircuitBreaker : option pCircuitBreaker }.
Record pWebhookHeader := mkPHeader { pwh_Key : string; pwh_Value : string }.
Record pWebhookHeaders := mkPHeaders { pwh_Headers : list pWebhookHeader }.
Record pWebhookRetryPolicy := mkPWebhookRetry { pwr_MaxAttempts : Z; pwr_InitialInterval : string; pwr_Backoff : float64 }.
Record pWebhookDecl := mkPWebhook {
  pwd_Name : string; pwd_Event : string; pwd_URL : string; pwd_Method : string; pwd_Headers : option pWebhookHeaders;
  pwd_Retry : option pWebhookRetryPolicy }.
Record pModifier := mkPModifier { pmo_Name : string; pmo_Value : option pExpression }.
Inductive pTypeRef := mkPTypeRef (name : string) (params : list pTypeRef).
Record pFieldDecl := mkPField { pfd_Name : string; pfd_Type : option pTypeRef; pfd_Modifiers : list pModifier }.
Record pIndexDecl := mkPIndex { pix_Fields : list string; pix_Unique : bool }.
Record pModelDecl := mkPModel { pmd_Name : string; pmd_Description : option string; pmd_Fields : list pFieldDecl; pmd_Indexes : list pIndexDecl }.
Record pMongoFieldOf (T : Type) := mkPMongoField { pmf_Name : string; pmf_Type : option T; pmf_Modifiers : list pModifier }.
Arguments mkPMongoField {T}. Arguments pmf_Name {T}. Arguments pmf_Type {T}. Arguments pmf_Modifiers {T}.
Inductive pMongoTypeRef :=
| PEmbedded (fields : list (pMongoFieldOf pMongoTypeRef))
| PMongoType (name : string) (params : list string).
Definition pMongoFieldDecl : Type := pMongoFieldOf pMongoTypeRef.
Record pMongoIndexDecl := mkPMongoIndex { pmi_Fields : list string; pmi_Unique : bool; pmi_IndexKind : string }.
Record pMongoIndexesBlock := mkPMongoIndexes { pmi_Indexes : list pMongoIndexDecl }.
Record pCollectionDecl := mkPCollection {
  pco_Name : string; pco_Description : option string; pco_Fields : list pMongoFieldDecl; pco_Indexes : option pMongoIndexesBlock }.
Record pDatabaseBlock := mkPDatabase { pdb_Type : string; pdb_Models : list pModelDecl; pdb_Collections : list pCollectionDecl }.

Inductive pStatement :=
| PConfig (d : pConfigDecl)
| PDatabase (d : pDatabaseBlock)
| PAuth (d : pAuthDecl)
| PRole (d : pRoleDecl)
| PMiddleware (d : pMiddlewareDecl)
| PEvent (d : pEventDecl)
| PEventHandler (d : pEventHandler)
| PIntegration (d : pIntegrationDecl)
| PWebhook (d : pWebhookDecl)
| PVar (name : string) (value : pExpression)
| PIf (condition : pExpression) (body orelse : list pStatement)
| PFor (variable : string) (iterable : pExpression) (body : list pStatement)
| PFunc (name : string) (params : list string) (body : list pStatement)
| PExec (command : string)
| PAssign (name : string) (value : pExpression)
| PNoStatement.
Record pProgram := mkPProgram { pp_Statements : list pStatement }.

(** ** Nodes, which are given no position *)
Definition createProgram (stmts : list Statement) : Program_ := mkProgram no_pos stmts.
Definition createVarDecl (name : string) (value : Expression) : Statement := VarDecl no_pos name value.
Definition createAssignment (name : string) (value : Expression) : Statement := Assignment no_pos name value.
Definition createIfStmt (cond : Expression) (then_ else_ : option Block) : Statement := IfStmt no_pos cond then_ else_.
Definition createForLoop (variable : string) (iterable : Expression) (body : option Block) : Statement := ForLoop no_pos variable iterable body.
Definition createFuncDecl (name : string) (params : list Parameter_) (body : option Block) : Statement := FunctionDecl no_pos name params body.
Definition createExecBlock (command : string) : Statement := ExecBlock no_pos command.
Definition createBlock (stmts : list Statement) : Block := mkBlock no_pos stmts.
Definition createStringLiteral (value : string) : Expression := StringLiteral no_pos value.
Definition createNumberLiteral (value : float64) : Expression := NumberLiteral no_pos value.
Definition createBoolLiteral (value : bool) : Expression := BoolLiteral no_pos value.
Definition createIdentifier (name : string) : Expression := Identifier no_pos name.
Definition createArrayLiteral (elems : list Expression) : Expression := ArrayLiteral no_pos elems.
Definition createFuncCallNode (name : string) (args : list Expression) : Expression := FunctionCall no_pos name args.
Definition createConfigDecl (dbType mongoURI mongoDBName : string) (props : gmap string Expression) : ConfigDecl :=
  mkConfigDecl no_pos dbType mongoURI mongoDBName props.
Definition createDatabaseBlock (dbType : string) (stmts : list Statement) : Statement := DatabaseBlock no_pos dbType "" stmts.

(** ** Expressions *)

(** [n, _ := strconv.ParseFloat(s, 64)]: infinity when out of range. *)
Definition ParseFloat_value (s : string) : float64 :=
  match ParseFloat s with
  | Ok f => f
  | Err ErrRange => S754_infinity (HasPrefix s "-")
  | Err ErrSyntax => S754_zero false
  end.

Fixpoint convertExpression (e : pExpression) : Expression :=
  match e with
  | PString s => createStringLiteral (unquote s)
  | PNumber s => createNumberLiteral (ParseFloat_value s)
  | PTrue => createBoolLiteral true
  | PFalse => createBoolLiteral false
  | PArray elements => createArrayLiteral (map convertExpression elements)
  | PFuncCall name args => createFuncCallNode name (map convertExpression args)
  | PIdentifier name => createIdentifier name
  | PNoExpression => NilExpr
  end.

(** ** Declarations *)
Record config_state := mkConfigState { cs_type : string; cs_uri : string; cs_name : string; cs_props : gmap string Expression }.
Definition convert_property (c : config_state) (p : pConfigProperty) : config_state :=
  let expr := convertExpression (pc_Value p) in
  let props := <[pc_Key p := expr]> (cs_props c) in
  match expr with
  | StringLiteral _ v =>
      if String.eqb (pc_Key p) "database_type" then
        mkConfigState (if String.eqb v "postgres" || String.eqb v "mongodb" then v else cs_type c) (cs_uri c) (cs_name c) props
      else if String.eqb (pc_Key p) "mongodb_uri" then mkConfigState (cs_type c) v (cs_name c) props
      else if String.eqb (pc_Key p) "mongodb_database" then mkConfigState (cs_type c) (cs_uri c) v props
      else mkConfigState (cs_type c) (cs_uri c) (cs_name c) props
  | _ => mkConfigState (cs_type c) (cs_uri c) (cs_name c) props
  end.
Definition convertConfigDecl (c : pConfigDecl) : ConfigDecl :=
  let s := fold_left convert_property (pc_Properties c) (mkConfigState "postgres" "" "" ∅) in
  createConfigDecl (cs_type s) (cs_uri s) (cs_name s) (cs_props s).

Definition convert_config (ps : list pConfigProperty) : gmap string Expression :=
  fold_left (fun m p => <[pc_Key p := convertExpression (pc_Value p)]> m) ps ∅.

Definition convertAuthDecl (a : pAuthDecl) : AuthDecl :=
  let method := keyword ["jwt"; "oauth2"; "apikey"; "basic"] "jwt" (pu_Method a) in
  mkAuthDecl no_pos (pu_Name a) method
    (match pu_JwksURL a with
     | Some url => if String.eqb method "jwt"
                   then Some (mkJWKS no_pos (unquote url) (safeUnquote (pu_Issuer a)) (safeUnquote (pu_Audience a))) else None
     | None => None
     end) ∅.
Definition convertRoleDecl (r : pRoleDecl) : RoleDecl := mkRoleDecl no_pos (pro_Name r) (map unquote (pro_Permissions r)).
Definition convertMiddlewareDecl (m : pMiddlewareDecl) : MiddlewareDecl :=
  mkMiddlewareDecl no_pos (pmw_Name m) (pmw_Type m) (convert_config (pmw_Config m)).

Definition convertModifier (m : pModifier) : Modifier :=
  mkModifier no_pos (pmo_Name m) (match pmo_Value m with Some e => convertExpression e | None => NilExpr end).
Fixpoint convertTypeRef (t : pTypeRef) : TypeRef :=
  match t with mkPTypeRef name params => mkTypeRef no_pos name (map convertTypeRef params) end.
Definition convertFieldDecl (f : pFieldDecl) : FieldDecl :=
  mkFieldDecl no_pos (pfd_Name f) (convertTypeRef <$> pfd_Type f) (map convertModifier (pfd_Modifiers f)).
Definition convertIndexDecl (i : pIndexDecl) : IndexDecl := mkIndexDecl no_pos (pix_Fields i) (pix_Unique i).
Definition convertModelDecl (m : pModelDecl) : ModelDecl :=
  mkModelDecl no_pos (pmd_Name m) (safeUnquote (pmd_Description m)) (map convertFieldDecl (pmd_Fields m)) (map convertIndexDecl (pmd_Indexes m)).

Definition convert_mongo_field {T U} (type : T -> U) (f : pMongoFieldOf T) : MongoFieldOf U :=
  mkMongoField no_pos (pmf_Name f) (match pmf_Type f with Some t => Some (type t) | None => None end) (map convertModifier (pmf_Modifiers f)).
Fixpoint convertMongoTypeRef (t : pMongoTypeRef) : MongoTypeRef :=
  match t with
  | PEmbedded fields => mkMongoTypeRef no_pos "" [] (Some (mkEmbeddedDoc no_pos (map (convert_mongo_field convertMongoTypeRef) fields)))
  | PMongoType name params => mkMongoTypeRef no_pos name params None
  end.
Definition convertMongoFieldDecl (f : pMongoFieldDecl) : MongoFieldDecl := convert_mongo_field convertMongoTypeRef f.
Definition convertMongoIndexDecl (i : pMongoIndexDecl) : MongoIndexDecl :=
  mkMongoIndex no_pos (pmi_Fields i) (pmi_Unique i) (pmi_IndexKind i).
Definition convertCollectionDecl (c : pCollectionDecl) : CollectionDecl :=
  mkCollectionDecl no_pos (pco_Name c) (safeUnquote (pco_Description c)) (map convertMongoFieldDecl (pco_Fields c))
    (match pco_Indexes c with Some b => map convertMongoIndexDecl (pmi_Indexes b) | None => [] end).
(** Models first, then collections. *)
Definition convertDatabaseBlock (d : pDatabaseBlock) : Statement :=
  createDatabaseBlock (keyword ["postgres"; "mongodb"] "postgres" (pdb_Type d))
    (map (fun m => Model (convertModelDecl m)) (pdb_Models d) ++ map (fun c => Collection (convertCollectionDecl c)) (pdb_Collections d))%list.

Definition convertEventSchema (s : pEventSchema) : EventSchema :=
  mkEventSchema no_pos (map (fun f => mkSchemaField no_pos (pef_Name f) (pef_FieldType f)) (pes_Fields s)).
Definition convertEventDecl (e : pEventDecl) : EventDecl := mkEventDecl no_pos (pev_Name e) (convertEventSchema <$> pev_Schema e) [].
Definition convertEventHandler (h : pEventHandler) : EventHandlerDecl :=
  mkEventHandler no_pos (unquote (peh_EventName h)) (peh_ActionType h) (unquote (peh_Target h)) (peh_Async h).

Definition convertIntegrationAuth (a : pIntegrationAuth) : IntegrationAuthDecl :=
  mkIntegrationAuth no_pos (keyword ["bearer"; "basic"; "apikey"; "oauth2"] "bearer" (pia_AuthType a)) (convert_config (pia_Config a)).
Definition convertCircuitBreaker (c : pCircuitBreaker) : CircuitBreakerConfig :=
  mkCircuitBreakerDecl no_pos (pcb_Threshold c) (unquote (pcb_Timeout c)) (pcb_MaxConcurrent c).
Definition convertIntegrationDecl (i : pIntegrationDecl) : IntegrationDecl :=
  mkIntegrationDecl no_pos (pin_Name i) (keyword ["rest"; "graphql"; "grpc"; "webhook"] "rest" (pin_IntgType i)) (unquote (pin_BaseURL i))
    (convertIntegrationAuth <$> pin_Auth i) (safeUnquote (pin_Timeout i)) (convertCircuitBreaker <$> pin_CircuitBreaker i).

Definition convertWebhookRetryPolicy (p : pWebhookRetryPolicy) : RetryPolicyDecl :=
  mkRetryPolicyDecl no_pos (pwr_MaxAttempts p) (unquote (pwr_InitialInterval p)) (pwr_Backoff p).
Definition convert_header (h : pWebhookHeader) : WebhookHeader := mkWebhookHeader no_pos (unquote (pwh_Key h)) (unquote (pwh_Value h)).
Definition convertWebhookDecl (w : pWebhookDecl) : WebhookDecl :=
  mkWebhookDecl no_pos (pwd_Name w) (unquote (pwd_Event w)) (unquote (pwd_URL w)) (keyword ["POST"; "PUT"] "POST" (pwd_Method w))
    (match pwd_Headers w with Some b => map convert_header (pwh_Headers b) | None => [] end)
    (convertWebhookRetryPolicy <$> pwd_Retry w).

(** ** Statements *)
Fixpoint convertStatement (s : pStatement) : Statement :=
  match s with
  | PConfig d => Config (convertConfigDecl d)
  | PDatabase d => convertDatabaseBlock d
  | PAuth d => Auth (convertAuthDecl d)
  | PRole d => Role (convertRoleDecl d)
  | PMiddleware d => Middleware (convertMiddlewareDecl d)
  | PEvent d => Event (convertEventDecl d)
  | PEventHandler d => EventHandler (convertEventHandler d)
  | PIntegration d => Integration (convertIntegrationDecl d)
  | PWebhook d => Webhook (convertWebhookDecl d)
  | PVar name value => createVarDecl name (convertExpression value)
  | PAssign name value => createAssignment name (convertExpression value)
  | PIf condition body orelse =>
      createIfStmt (convertExpression condition) (Some (createBlock (map convertStatement body)))
        (match orelse with [] => None | _ => Some (createBlock (map convertStatement orelse)) end)
  | PFor variable iterable body =>
      createForLoop variable (convertExpression iterable) (Some (createBlock (map convertStatement body)))
  | PFunc name params body =>
      createFuncDecl name (map (fun p => mkParameter p "" NilExpr) params) (Some (createBlock (map convertStatement body)))
  | PExec command => createExecBlock (TrimSpace command)
  | PNoStatement => NilStmt
  end.
Definition convertProgram (p : pProgram) : Program_ := createProgram (map convertStatement (pp_Statements p)).

(** ** Endpoints, which are cut out of the text line by line *)
Definition starts_endpoint (line : string) : bool := HasPrefix (TrimSpace line) "endpoint ".
Definition starts_annotation (line : string) : bool := HasPrefix (TrimSpace line) "@".

(** The lines before the first one that satisfies [p], and those from it on. *)
Fixpoint split_at (p : string -> bool) (lines : list string) : option (list string * list string) :=
  match lines with
  | [] => None
  | l :: lines' =>
      if p l then Some ([], lines) else match split_at p lines' with Some (before, from) => Some (l :: before, from) | None => None end
  end.

Definition brace_count (count : Z) (line : string) : Z :=
  count + Z.of_nat (count_byte "{" line) - Z.of_nat (count_byte "}" line).
(** The lines up to the one after which the count is not positive, that count,
    and the lines after. *)
Fixpoint close_block (count : Z) (lines : list string) : list string * Z * list string :=
  match lines with
  | [] => ([], count, [])
  | l :: lines' =>
      let count' := brace_count count l in
      if 0 <? count' then let '(block, c, rest) := close_block count' lines' in (l :: block, c, rest)
      else ([l], count', lines')
  end.

Section Endpoints.
Variable grammar : string -> result string pEndpointFile.

(** One turn of the loop at a line that starts an endpoint: the block and the
    count at its end, or that the loop is left. *)
Definition take_block (l : string) (lines : list string) : option (list string * Z * list string) :=
  match (if starts_annotation l then split_at starts_endpoint (l :: lines) else Some ([], l :: lines)) with
  | None => None
  | Some (annotations, from) =>
      match split_at (fun l => Contains l "{") from with
      | None => None
      | Some (before, opening :: from') =>
          let '(block, count, rest) := close_block 1 from' in
          Some ((annotations ++ before ++ opening :: block)%list, count, rest)
      | Some (before, []) => None
      end
  end.

Fixpoint extract_loop (fuel : nat) (lines : list string) (endpoints : list (option EndpointDecl)) (cleaned : list string) :
    result string (list (option EndpointDecl) * list string) :=
  match fuel, lines with
  | O, _ | _, [] => Ok (endpoints, cleaned)
  | S fuel', l :: lines' =>
      if starts_annotation l || starts_endpoint l then
        match take_block l lines' with
        | None => Ok (endpoints, cleaned)
        | Some (block, count, rest) =>
            if count =? 0 then
              match ParseEndpoint grammar (Join block (String newline "")) with
              | Err e => Err e
              | Ok endpoint => extract_loop fuel' rest (endpoints ++ [endpoint])%list cleaned
              end
            else extract_loop fuel' rest endpoints (cleaned ++ [l])%list
        end
      else extract_loop fuel' lines' endpoints (cleaned ++ [l])%list
  end.

Definition extractAndParseEndpoints (input : string) : result string (list (option EndpointDecl) * string) :=
  let lines := Split newline input in
  match extract_loop (length lines) lines [] [] with
  | Err e => Err e
  | Ok (endpoints, cleaned) => Ok (endpoints, TrimSpace (Join cleaned (String newline "")))
  end.
End Endpoints.

(** ** Programs *)

(** An endpoint that is nil is appended as a nil pointer. *)
Definition endpoint_statement (e : option EndpointDecl) : Statement := match e with Some d => Endpoint d | None => NilStmt end.

Section Parse.
Variables (program_grammar : string -> result string pProgram) (endpoint_grammar : string -> result string pEndpointFile).

Definition Parse (input : string) : result string Program_ :=
  match extractAndParseEndpoints endpoint_grammar input with
  | Err e => Err e
  | Ok (endpoints, cleanedInput) =>
      match program_grammar cleanedInput with
      | Err e => Err e
      | Ok parsed =>
          let program := convertProgram parsed in
          Ok (mkProgram (prog_pos program) (Statements program ++ map endpoint_statement endpoints)%list)
      end
  end.
End Parse.

(** ** Applications *)
Record Application := mkApplication {
  app_pos : Position; app_Config : option ConfigDecl; app_Database : option Statement; app_Endpoints : list EndpointDecl;
  app_Middlewares : list MiddlewareDecl; app_Auths : list AuthDecl; app_Roles : list RoleDecl; app_Events : list EventDecl;
  app_Handlers : list EventHandlerDecl; app_Integrations : list IntegrationDecl; app_Webhooks : list WebhookDecl;
  app_Workflows : list WorkflowDecl; app_Jobs : list JobDecl; app_Variables : list Statement; app_Functions : list Statement }.

(** The last of several is kept. *)
Definition last_of {A} (f : Statement -> option A) (l : list Statement) : option A :=
  fold_left (fun acc s => match f s with Some x => Some x | None => acc end) l None.
Definition ToApplication (p : Program_) : Application :=
  let l := Statements p in
  mkApplication (prog_pos p)
    (last_of (fun s => match s with Config d => Some d | _ => None end) l)
    (last_of (fun s => match s with DatabaseBlock _ _ _ _ => Some s | _ => None end) l)
    (omap (fun s => match s with Endpoint d => Some d | _ => None end) l)
    (omap (fun s => match s with Middleware d => Some d | _ => None end) l)
    (omap (fun s => match s with Auth d => Some d | _ => None end) l)
    (omap (fun s => match s with Role d => Some d | _ => None end) l)
    (omap (fun s => match s with Event d => Some d | _ => None end) l)
    (omap (fun s => match s with EventHandler d => Some d | _ => None end) l)
    (omap (fun s => match s with Integration d => Some d | _ => None end) l)
    (omap (fun s => match s with Webhook d => Some d | _ => None end) l)
    (omap (fun s => match s with Workflow d => Some d | _ => None end) l)
    (omap (fun s => match s with Job d => Some d | _ => None end) l)
    (omap (fun s => match s with VarDecl _ _ _ => Some s | _ => None end) l)
    (omap (fun s => match s with FunctionDecl _ _ _ _ => Some s | _ => None end) l).
Definition ParseApplication (program_grammar : string -> result string pProgram) (endpoint_grammar : string -> result string pEndpointFile)
    (input : string) : result string Application :=
  match Parse program_grammar endpoint_grammar input with Err e => Err e | Ok p => Ok (ToApplication p) end.

(** * Cutting out endpoints *)
Section Layout.
Variable grammar : string -> result string pEndpointFile.

(** A line of a program, or an endpoint: lines of annotations, lines from the one
    that starts it to the one with its first brace, and its body. *)
Inductive Item := Plain (line : string) | EndpointItem (annotations header : list string) (opening : string) (body : list string).
Definition item_lines (i : Item) : list string :=
  match i with Plain l => [l] | EndpointItem a h o b => (a ++ h ++ o :: b)%list end.

(** The braces that are open after lines, the first of which is opened before. *)
Definition open_braces (lines : list string) : Z := fold_left brace_count lines 1.
Record body_ok (body : list string) : Prop := {
  body_closes : open_braces body = 0;
  body_last : forall n, (n < length body)%nat -> 0 < open_braces (take n body) }.

Definition item_ok (i : Item) : Prop :=
  match i with
  | Plain l => starts_annotation l = false /\ starts_endpoint l = false
  | EndpointItem annotations header opening body =>
      match annotations with [] => True | a :: _ => starts_annotation a = true end /\
      Forall (fun l => starts_endpoint l = false) annotations /\
      match header with [] => starts_endpoint opening = true | h :: _ => starts_endpoint h = true end /\
      Forall (fun l => Contains l "{" = false) header /\ Contains opening "{" = true /\ body_ok body
  end.

Lemma starts_exclusive l : starts_endpoint l = true -> starts_annotation l = false.
Proof.
  unfold starts_endpoint, starts_annotation. destruct (TrimSpace l) as [|c s]; [done|]. cbn [HasPrefix].
  destruct (ascii_eqb_spec "e" c) as [<-|]; [done|]. by rewrite ?andb_false_l.
Qed.

Lemma split_at_app p before l from : Forall (fun x => p x = false) before -> p l = true ->
  split_at p (before ++ l :: from) = Some (before, l :: from).
Proof. intros Hb Hl. induction Hb as [|x before Hx _ IH]; cbn; [by rewrite Hl|]. by rewrite Hx, IH. Qed.

Lemma close_block_body body : forall count rest, 0 < count -> fold_left brace_count body count = 0 ->
  (forall n, (n < length body)%nat -> 0 < fold_left brace_count (take n body) count) ->
  close_block count (body ++ rest) = (body, 0, rest).
Proof.
  induction body as [|l body IH]; intros count rest Hc Hz Hp; cbn in Hz; [lia|]. cbn [app close_block].
  destruct (decide (body = [])) as [->|Hne].
  - cbn in Hz. rewrite Hz. done.
  - assert (0 < brace_count count l) as H1.
    { specialize (Hp 1%nat). cbn in Hp. apply Hp. destruct body; [done|cbn; lia]. }
    destruct (Z.ltb_spec 0 (brace_count count l)); [|lia].
    rewrite IH; [done|done|exact Hz|]. intros n Hn. apply (Hp (S n)). cbn. lia.
Qed.

Lemma take_block_item annotations header opening body rest l lines : item_ok (EndpointItem annotations header opening body) ->
  (item_lines (EndpointItem annotations header opening body) ++ rest)%list = l :: lines ->
  (starts_annotation l || starts_endpoint l = true) /\
  take_block l lines = Some (item_lines (EndpointItem annotations header opening body), 0, rest).
Proof.
  intros (Ha & Hae & Hh & Hhb & Ho & Hb). cbn [item_lines]. intros E.
  assert (forall k, split_at (fun l => Contains l "{") ((header ++ opening :: k)%list) = Some (header, opening :: k)) as Hsplit.
  { intros k. by apply split_at_app. }
  assert (close_block 1 (body ++ rest) = (body, 0, rest)) as Hclose.
  { apply close_block_body; [lia|apply Hb|apply Hb]. }
  assert (starts_endpoint (hd opening header) = true) as Hstart by by destruct header.
  unfold take_block. rewrite <- E. destruct annotations as [|a annotations]; cbn [app] in E |- *.
  - assert (l = hd opening header) as -> by (by destruct header; injection E).
    rewrite (starts_exclusive _ Hstart), Hstart. split; [done|].
    replace (((header ++ opening :: body) ++ rest)%list) with (header ++ opening :: (body ++ rest))%list by by rewrite <- app_assoc.
    rewrite Hsplit, Hclose. done.
  - injection E as -> _. rewrite Ha. split; [done|].
    replace (l :: (annotations ++ header ++ opening :: body) ++ rest)%list with
      ((l :: annotations) ++ header ++ opening :: (body ++ rest))%list by (cbn; rewrite <- !app_assoc; cbn; by rewrite <- ?app_assoc).
    assert (split_at starts_endpoint ((l :: annotations) ++ header ++ opening :: (body ++ rest)) =
            Some (l :: annotations, (header ++ opening :: (body ++ rest))%list)) as ->.
    { destruct header as [|h header]; by apply split_at_app. }
    rewrite Hsplit, Hclose. done.
Qed.

(** The endpoints of the blocks, and the lines that are left. *)
Fixpoint parse_items (items : list Item) : result string (list (option EndpointDecl)) :=
  match items with
  | [] => Ok []
  | Plain _ :: items' => parse_items items'
  | i :: items' =>
      match ParseEndpoint grammar (Join (item_lines i) (String newline "")) with
      | Err e => Err e
      | Ok d => match parse_items items' with Ok ds => Ok (d :: ds) | Err e => Err e end
      end
  end.
Definition plain_lines (items : list Item) : list string :=
  omap (fun i => match i with Plain l => Some l | EndpointItem _ _ _ _ => None end) items.

Lemma extract_items items : Forall item_ok items -> forall fuel endpoints cleaned,
  (length (concat (map item_lines items)) <= fuel)%nat ->
  extract_loop grammar fuel (concat (map item_lines items)) endpoints cleaned =
  match parse_items items with
  | Err e => Err e
  | Ok ds => Ok ((endpoints ++ ds)%list, (cleaned ++ plain_lines items)%list)
  end.
Proof.
  induction 1 as [|i items Hi _ IH]; intros fuel endpoints cleaned Hf; cbn [map concat] in *.
  { cbn. destruct fuel; by rewrite !app_nil_r. }
  destruct i as [l|a h o b].
  - cbn [item_lines app] in *. destruct fuel as [|fuel]; [cbn in Hf; lia|]. cbn [extract_loop]. destruct Hi as [-> ->].
    cbn [orb parse_items]. rewrite IH by (cbn in Hf; lia). destruct (parse_items items); [|done].
    unfold plain_lines. cbn [omap list_omap]. by rewrite <- app_assoc.
  - destruct (item_lines (EndpointItem a h o b) ++ concat (map item_lines items))%list as [|l lines] eqn:E.
    { cbn [item_lines] in E. by destruct a, h. }
    destruct (take_block_item _ _ _ _ _ _ _ Hi E) as [Hs Ht]. destruct fuel as [|fuel]; [cbn in Hf; lia|].
    cbn [extract_loop]. rewrite Hs, Ht. cbn [Z.eqb parse_items].
    destruct (ParseEndpoint grammar (Join (item_lines (EndpointItem a h o b)) (String newline ""))) as [d|e]; [|done].
    rewrite IH.
    + destruct (parse_items items) as [ds|e]; [|done]. unfold plain_lines. cbn [omap list_omap]. by rewrite <- app_assoc.
    + apply (f_equal length) in E. rewrite length_app in E. cbn [length] in E, Hf. cbn [item_lines] in E. rewrite !length_app in E. cbn in E. lia.
Qed.
End Layout.

Definition text_of (lines : list string) : string := Join lines (String newline "").

Section Programs.
Variables (program_grammar : string -> result string pProgram) (endpoint_grammar : string -> result string pEndpointFile).

Lemma extract_text items : Forall item_ok items -> items <> [] ->
  Forall (fun l => count_byte newline l = 0%nat) (concat (map item_lines items)) ->
  extractAndParseEndpoints endpoint_grammar (text_of (concat (map item_lines items))) =
  match parse_items endpoint_grammar items with
  | Err e => Err e
  | Ok ds => Ok (ds, TrimSpace (text_of (plain_lines items)))
  end.
Proof.
  intros Hok Hne Hl. unfold extractAndParseEndpoints, text_of. rewrite Split_Join; [|destruct items as [|[l|[|? ?] [|? ?] ? ?] ?]; done|done].
  rewrite extract_items by done. by destruct (parse_items endpoint_grammar items).
Qed.

(** C31: A program text made of lines and endpoints — annotations, the line that
    starts with [endpoint], the line with the first brace, and lines up to the one
    that closes it — parses to the statements of the text without the endpoints,
    in order, followed by the first endpoint of each block, in order; the first
    block that does not parse gives the error. *)
Theorem parse_layout items (Hok : Forall item_ok items) (Hne : items <> [])
    (Hl : Forall (fun l => count_byte newline l = 0%nat) (concat (map item_lines items))) :
  Parse program_grammar endpoint_grammar (text_of (concat (map item_lines items))) =
  match parse_items endpoint_grammar items with
  | Err e => Err e
  | Ok ds =>
      match program_grammar (TrimSpace (text_of (plain_lines items))) with
      | Err e => Err e
      | Ok p => Ok (mkProgram no_pos (map convertStatement (pp_Statements p) ++ map endpoint_statement ds)%list)
      end
  end.
Proof. unfold Parse. rewrite extract_text by done. by destruct (parse_items endpoint_grammar items). Qed.
End Programs.

(** ** A program *)
Definition dq (s : string) : string := quoted s.
Definition users_items : list Item :=
  [Plain "var limit = 10";
   EndpointItem ["@deprecated"] [] ("endpoint GET " ++ dq "/users" ++ " {") ["  do {"; "    list(User)"; "  }"; "}"];
   Plain "var page = 1"].
Definition vars_grammar (s : string) : result string pProgram :=
  if String.eqb s (text_of ["var limit = 10"; "var page = 1"])
  then Ok (mkPProgram [PVar "limit" (PNumber "10"); PVar "page" (PNumber "1")]) else Err "unexpected token".
Definition users_endpoint : pEndpointDecl :=
  mkPEndpoint no_pos [mkPAnnotation no_pos "deprecated" None] "GET" (dq "/users") [] None None None
    (Some (mkPLogic no_pos [mkPLogicStep no_pos None "list" ["User"] None []])).
Definition users_grammar (s : string) : result string pEndpointFile := Ok (mkPEndpointFile no_pos [users_endpoint]).

Lemma users_ok : Forall item_ok users_items.
Proof.
  repeat constructor. intros n Hn. cbn [length] in Hn. do 4 (destruct n as [|n]; [vm_compute; reflexivity|]). lia.
Defined.
Lemma parse_layout_witness :
  Parse vars_grammar users_grammar (text_of (concat (map item_lines users_items))) =
  Ok (mkProgram no_pos [VarDecl no_pos "limit" (NumberLiteral no_pos (ParseFloat_value "10")); VarDecl no_pos "page" (NumberLiteral no_pos (ParseFloat_value "1"));
                        Endpoint (convertEndpointDecl users_endpoint)]).
Proof.
  rewrite (parse_layout vars_grammar users_grammar users_items users_ok); [|discriminate|repeat constructor].
  vm_compute. reflexivity.
Defined.

(** ** Texts that lose statements *)

(** An endpoint on one line is not closed: it is left to the grammar of programs,
    which has no endpoints, and the lines after it are lost. *)
Lemma one_line_endpoint eg : extractAndParseEndpoints eg (text_of ["endpoint GET " ++ dq "/a" ++ " { }"; "var x = 1"]) =
  Ok ([], "endpoint GET " ++ dq "/a" ++ " { }").
Proof. vm_compute. reflexivity. Qed.
(** An annotation without an endpoint drops the rest of the text. *)
Lemma annotation_alone eg : extractAndParseEndpoints eg (text_of ["var x = 1"; "@note"; "var y = 2"]) = Ok ([], "var x = 1").
Proof. vm_compute. reflexivity. Qed.
(** A line that closes more than is open drops the block before it. *)
Lemma closed_twice eg : extractAndParseEndpoints eg (text_of ["endpoint GET " ++ dq "/a" ++ " {"; "  do {"; "}}}"; "var x = 1"]) =
  Ok ([], text_of ["endpoint GET " ++ dq "/a" ++ " {"; "var x = 1"]).
Proof. vm_compute. reflexivity. Qed.

(** A text with a quote in it keeps the backslash that escaped it. *)
Lemma escape_kept : convertExpression (PString (dq ("a\" ++ String dquote "b"))) = StringLiteral no_pos ("a\" ++ String dquote "b").
Proof. vm_compute. reflexivity. Qed.

(** Of two database blocks, an application has the second. *)
Lemma second_database a b : app_Database (ToApplication (convertProgram (mkPProgram [PDatabase a; PDatabase b]))) = Some (convertDatabaseBlock b).
Proof. done. Qed.
