(* ===== verification/DslPositions.v ===== *)
(** Errors about parsed programs.  The nodes that [DslParser] makes have no
    position, so no error of [DslValidator] has one; and arguments of steps lose
    their quotes, by which [EndpointValidator] would know them as texts. *)

From Stdlib Require Import ZArith Lia Ascii SpecFloat.
From stdpp Require Import base strings list gmap.
From S2P Require Import Prelude GoStrings GoText DslAst DslSymbols DslValidator EndpointParser DslParser.
From S2P Require EndpointValidator.

#[local] Open Scope string_scope.
#[local] Open Scope Z_scope.

(** Neither the errors nor what later errors take their position from has one. *)
Record unplaced (v : Validator) : Prop := {
  up_errors : Forall (fun e => err_Position e = no_pos) (errors v);
  up_config : forall c, configDecl v = Some c -> cfg_pos c = no_pos;
  up_databases : Forall (fun d => db_pos d = no_pos) (databaseBlocks v) }.

Create HintDb placed discriminated.

Lemma up_Add e v : err_Position e = no_pos -> unplaced v -> unplaced (Add e v).
Proof. intros He [H1 H2 H3]. constructor; [|exact H2|exact H3]. apply Forall_app. split; [done|by constructor]. Qed.
Lemma up_AddIf b e v : err_Position e = no_pos -> unplaced v -> unplaced (AddIf b e v).
Proof. intros He H. destruct b; [by apply up_Add|done]. Qed.
Lemma up_semantic m v : unplaced v -> unplaced (semantic no_pos m v).
Proof. by apply up_Add. Qed.
Lemma up_semanticIf b m v : unplaced v -> unplaced (semanticIf b no_pos m v).
Proof. by apply up_AddIf. Qed.
Lemma up_symbols st v : unplaced v -> unplaced (set_symbols st v).
Proof. by intros []. Qed.
Lemma up_types t v : unplaced v -> unplaced (set_types t v).
Proof. by intros []. Qed.
Lemma up_auth a v : unplaced v -> unplaced (set_authProviders a v).
Proof. by intros []. Qed.
Lemma up_roles r v : unplaced v -> unplaced (set_roles r v).
Proof. by intros []. Qed.
Lemma up_middlewares m v : unplaced v -> unplaced (set_middlewares m v).
Proof. by intros []. Qed.
Lemma up_events e v : unplaced v -> unplaced (set_eventValidation e v).
Proof. by intros []. Qed.
Lemma up_enter v : unplaced v -> unplaced (enter v).
Proof. apply up_symbols. Qed.
Lemma up_exit v : unplaced v -> unplaced (exit_ v).
Proof. apply up_symbols. Qed.
Lemma up_each {A} (f : A -> Validator -> Validator) l v : (forall x w, x ∈ l -> unplaced w -> unplaced (f x w)) ->
  unplaced v -> unplaced (each f l v).
Proof.
  revert v. induction l as [|x l IH]; intros v Hf Hv; cbn; [done|]. apply IH; [|apply Hf; [by left|done]].
  intros y w Hy. apply Hf. by right.
Qed.
#[export] Hint Resolve up_Add up_AddIf up_semantic up_semanticIf up_symbols up_types up_auth up_roles up_middlewares up_events
  up_enter up_exit : placed.
#[export] Hint Extern 1 (_ = no_pos) => reflexivity : placed.

(** Case analysis on what the validator looks at, then the lemmas above. *)
Ltac placed := cbv zeta; repeat case_match; subst; eauto 12 with placed.

(** ** Expressions and variables *)
Lemma up_identifier n v : unplaced v -> unplaced (validateIdentifier no_pos n v).
Proof. intros. unfold validateIdentifier. placed. Qed.
Lemma up_call n k v : unplaced v -> unplaced (check_call no_pos n k v).
Proof. intros. unfold check_call. placed. Qed.
#[export] Hint Resolve up_identifier up_call : placed.

Section ExpressionInd.
Context (P : pExpression -> Prop).
Hypotheses (HS : forall s, P (PString s)) (HN : forall s, P (PNumber s)) (HT : P PTrue) (HF : P PFalse) (HI : forall n, P (PIdentifier n))
  (H0 : P PNoExpression) (HA : forall l, Forall P l -> P (PArray l)) (HC : forall n l, Forall P l -> P (PFuncCall n l)).
Fixpoint expression_ind e : P e :=
  let all := fix all l : Forall P l :=
    match l with [] => Forall_nil_2 P | x :: l' => Forall_cons_2 P x l' (expression_ind x) (all l') end in
  match e with
  | PString s => HS s
  | PNumber s => HN s
  | PTrue => HT
  | PFalse => HF
  | PArray l => HA l (all l)
  | PFuncCall n l => HC n l (all l)
  | PIdentifier n => HI n
  | PNoExpression => H0
  end.
End ExpressionInd.

(** The loop over the images of a list. *)
Lemma up_map {A B} (f : B -> Validator -> Validator) (g : A -> B) l v :
  Forall (fun x => forall w, unplaced w -> unplaced (f (g x) w)) l -> unplaced v -> unplaced (each f (map g l) v).
Proof. intros Hl. revert v. induction Hl as [|x l Hx _ IH]; intros v Hv; cbn; [done|]. by apply IH, Hx. Qed.

Lemma up_expression e : forall v, unplaced v -> unplaced (validateExpression (convertExpression e) v).
Proof.
  induction e as [s|s| | |n| |l IH|n l IH] using expression_ind; intros v Hv; cbn; eauto with placed.
  - by apply up_map.
  - apply up_call. by apply up_map.
Qed.
#[export] Hint Resolve up_expression : placed.

Lemma up_var_decl n e v : unplaced v -> unplaced (validateVarDecl no_pos n (convertExpression e) v).
Proof. intros. unfold validateVarDecl. placed. Qed.
Lemma up_assignment n e v : unplaced v -> unplaced (validateAssignment no_pos n (convertExpression e) v).
Proof. intros. unfold validateAssignment, assign. placed. Qed.
Lemma up_params ps : forall names v, unplaced v -> unplaced (declare_params no_pos ps names v).
Proof.
  induction ps as [|q ps IH]; intros names v Hv; cbn; [done|]. case_match; apply IH; [placed|]. case_match. case_match; placed.
Qed.
#[export] Hint Resolve up_var_decl up_assignment up_params : placed.

(** ** Fields, models and collections *)
Lemma up_modifiers check dup ms : (forall m w, unplaced w -> unplaced (check (convertModifier m) w)) ->
  forall names v, unplaced v -> unplaced (modifier_loop check dup (map convertModifier ms) names v).2.
Proof.
  intros Hc. induction ms as [|m ms IH]; intros names v Hv; cbn; [done|]. apply IH.
  destruct m as [n [e|]]; cbn; auto using up_semanticIf, up_expression.
Qed.
Lemma up_conflict ms n r : unplaced r.2 -> unplaced (conflict (map convertModifier ms) n r).
Proof. destruct r as [names v], ms as [|m ms]; cbn; auto with placed. Qed.
Lemma up_index unknown names p fs v : p = no_pos -> unplaced v -> unplaced (validateIndex unknown names p fs v).
Proof. intros -> Hv. unfold validateIndex. apply up_each; auto with placed. Qed.

Section TypeInd.
Context (P : pTypeRef -> Prop) (HP : forall n l, Forall P l -> P (mkPTypeRef n l)).
Fixpoint type_ind t : P t :=
  match t with
  | mkPTypeRef n l =>
      HP n l ((fix all l : Forall P l :=
        match l with [] => Forall_nil_2 P | x :: l' => Forall_cons_2 P x l' (type_ind x) (all l') end) l)
  end.
End TypeInd.

Lemma up_field_type m t : forall v, unplaced v -> unplaced (validateFieldType m (convertTypeRef t) v).
Proof.
  induction t as [n l IH] using type_ind; intros v Hv; cbn. case_match; [placed|]. apply up_map; [done|placed].
Qed.
Lemma up_model d v : unplaced v -> unplaced (validateModelDecl (convertModelDecl d) v).
Proof.
  intros Hv. unfold validateModelDecl. destruct d as [n desc fs is_]. cbn.
  assert (forall names w, unplaced w -> unplaced (model_fields n (map convertFieldDecl fs) names w).2) as Hf.
  { clear. induction fs as [|f fs IH]; intros names w Hw; cbn; [done|]. apply IH. unfold validateModifiers.
    apply up_conflict, up_modifiers; [done|]. destruct f as [fn [t|] fm]; cbn; auto using up_semanticIf, up_field_type. }
  specialize (Hf ∅ v Hv). destruct (model_fields n _ ∅ v) as [names w]. apply up_map; [|done].
  apply Forall_forall. intros i _ w' Hw. by apply up_index.
Qed.

Section MongoTypeInd.
Context (P : pMongoTypeRef -> Prop).
Definition typed (f : pMongoFieldDecl) : Prop := match pmf_Type f with Some t => P t | None => True end.
Hypotheses (HE : forall fs, Forall typed fs -> P (PEmbedded fs)) (HM : forall n ps, P (PMongoType n ps)).
Fixpoint mongo_ind t : P t :=
  match t with
  | PEmbedded fs =>
      HE fs ((fix all fs : Forall typed fs :=
        match fs with
        | [] => Forall_nil_2 typed
        | mkPMongoField n t ms :: fs' =>
            Forall_cons_2 typed (mkPMongoField n t ms) fs' (match t return typed (mkPMongoField n t ms) with Some t => mongo_ind t | None => I end) (all fs')
        end) fs)
  | PMongoType n ps => HM n ps
  end.
End MongoTypeInd.

Lemma up_mongo_modifiers ms c n v : unplaced v -> unplaced (validateMongoModifiers (map convertModifier ms) c n v).
Proof. intros Hv. apply up_conflict, up_modifiers; auto with placed. Qed.
Lemma up_mongo_type c t : forall n depth v, unplaced v -> unplaced (validateMongoFieldType c (convertMongoTypeRef t) n depth v).
Proof.
  induction t as [fs IH|m ps] using mongo_ind; intros n depth v Hv; cbn; case_match; auto with placed.
  apply up_map; [|done]. eapply Forall_impl; [exact IH|]. intros [fn [t|] ms] Ht w Hw; cbn in *; auto using up_mongo_modifiers.
Qed.
Lemma up_collection d v : unplaced v -> unplaced (validateCollectionDecl (convertCollectionDecl d) v).
Proof.
  intros Hv. unfold validateCollectionDecl. destruct d as [n desc fs ix]. cbn.
  assert (forall names w, unplaced w -> unplaced (collection_fields n (map convertMongoFieldDecl fs) names w).2) as Hf.
  { clear. induction fs as [|f fs IH]; intros names w Hw; cbn; [done|]. apply IH.
    destruct f as [fn [t|] fm]; cbn; auto using up_semanticIf, up_mongo_type, up_mongo_modifiers. }
  specialize (Hf ∅ v Hv). destruct (collection_fields n _ ∅ v) as [names w]. destruct ix as [b|]; [|done]. apply up_map; [|done].
  apply Forall_forall. intros i _ w' Hw. by apply up_index.
Qed.

(** ** Configuration and databases *)
Lemma up_config_decl c v : cfg_pos c = no_pos -> unplaced v -> unplaced (validateConfigDecl c v).
Proof.
  intros Hc Hv. assert (unplaced (set_configDecl c v)) as Hs.
  { destruct Hv as [He _ Hd]. constructor; [exact He| |exact Hd]. intros c' E. cbn in E. by injection E as <-. }
  unfold validateConfigDecl. rewrite Hc. placed.
Qed.
Lemma up_database t d v : db_pos d = no_pos -> unplaced v -> unplaced (check_database t d v).
Proof.
  intros Hd Hv. unfold check_database. destruct (configDecl v) as [c|] eqn:E; [rewrite (up_config v Hv c E)|rewrite Hd]; placed.
Qed.
Lemma up_consistency v : unplaced v -> unplaced (validateDatabaseTypeConsistency v).
Proof.
  intros Hv. unfold validateDatabaseTypeConsistency.
  assert (forall t, unplaced (each (check_database t) (databaseBlocks v) v)) as Hl.
  { intros t. apply up_each; [|done]. intros d w Hd Hw. apply up_database; [|done].
    pose proof (up_databases v Hv) as H. rewrite Forall_forall in H. by apply H. }
  specialize (Hl (match configDecl v with Some c => cfg_DatabaseType c | None => "postgres" end)).
  assert (unplaced v /\ forall w, unplaced w -> unplaced (match configDecl w with
    | Some cfg => if String.eqb (cfg_DatabaseType cfg) "mongodb" then
        semanticIf (negb (existsb (fun db => String.eqb (db_DBType db) "mongodb") (databaseBlocks w)) && negb (Nat.eqb (length (databaseBlocks w)) 0))
          (cfg_pos cfg) "config specifies database_type 'mongodb' but no mongodb database block found" w else w
    | None => w end)) as [_ Ha].
  { split; [done|]. intros w Hw. destruct (configDecl w) as [c|] eqn:E; [rewrite (up_config w Hw c E)|]; placed. }
  destruct (configDecl v), (databaseBlocks v); [apply Ha, Hl|apply Ha, Hl|done|apply Ha, Hl].
Qed.
Lemma up_config_pos c : cfg_pos (convertConfigDecl c) = no_pos.
Proof. done. Qed.
#[export] Hint Resolve up_config_decl up_consistency : placed.

(** ** The other declarations *)
Lemma up_auth_decl a v : unplaced v -> unplaced (validateAuthDecl (convertAuthDecl a) v).
Proof.
  intros Hv. unfold validateAuthDecl. cbn [auth_pos auth_Name JWKS convertAuthDecl Method].
  case_match; [placed|]. destruct (pu_JwksURL a) as [url|]; [|placed]. destruct (String.eqb (keyword _ _ (pu_Method a)) "jwt"); [unfold validateJWKSConfig; cbn [jwks_pos URL]|]; eauto 12 with placed.
Qed.
Lemma up_role_decl r v : unplaced v -> unplaced (validateRoleDecl (convertRoleDecl r) v).
Proof. intros Hv. unfold validateRoleDecl. cbn. case_match; [placed|]. apply up_each; [|placed]. intros; placed. Qed.
Lemma up_middleware m v : mw_pos m = no_pos -> unplaced v -> unplaced (validateMiddlewareDecl m v).
Proof.
  intros Hm Hv. unfold validateMiddlewareDecl, validateAuthenticationMiddleware, validateAuthorizationMiddleware, validateRateLimitingMiddleware.
  rewrite !Hm. cbv zeta. repeat case_match; subst; eauto 12 with placed.
  apply up_each; [|placed]. intros e w He Hw. placed.
Qed.
Lemma up_schema n fs : forall names v, unplaced v ->
  unplaced (schema_fields n (map (fun f => mkSchemaField no_pos (pef_Name f) (pef_FieldType f)) fs) names v).
Proof. induction fs as [|f fs IH]; intros names v Hv; cbn; [done|]. apply IH. placed. Qed.
Lemma up_event e v : unplaced v -> unplaced (validateEventDecl (convertEventDecl e) v).
Proof. intros Hv. unfold validateEventDecl. destruct e as [n [s|]]; cbn; case_match; [placed|apply up_schema; placed|placed|placed]. Qed.
Lemma up_handler h v : unplaced v -> unplaced (validateEventHandler (convertEventHandler h) v).
Proof. intros Hv. unfold validateEventHandler. cbn. placed. Qed.

Section Urls.
Variable urlParse : string -> result string string.

Lemma up_url url what n v : unplaced v -> unplaced (validateURL urlParse url what n no_pos v).
Proof. intros Hv. unfold validateURL. placed. Qed.
#[local] Hint Resolve up_url : placed.
Lemma up_integration g v : unplaced v -> unplaced (validateIntegrationDecl urlParse (convertIntegrationDecl g) v).
Proof.
  intros Hv. unfold validateIntegrationDecl. cbn. case_match; [placed|].
  assert (forall a n w, unplaced w -> unplaced (validateIntegrationAuth (convertIntegrationAuth a) n w)) as Ha.
  { intros. unfold validateIntegrationAuth. cbn. placed. }
  assert (forall c n w, unplaced w -> unplaced (validateCircuitBreaker (convertCircuitBreaker c) n w)) as Hc.
  { intros. unfold validateCircuitBreaker. cbn. placed. }
  destruct g as [n t u [a|] tm [c|]]; cbn; repeat first [apply Hc | apply Ha]; placed.
Qed.
Lemma up_webhook w v : unplaced v -> unplaced (validateWebhookDecl urlParse (convertWebhookDecl w) v).
Proof. intros Hv. unfold validateWebhookDecl. cbn. placed. Qed.
#[local] Hint Resolve up_auth_decl up_role_decl up_middleware up_event up_handler up_integration up_webhook up_model up_collection : placed.

(** ** Statements *)
Section StatementInd.
Context (P : pStatement -> Prop).
Hypotheses (HP : forall s, match s with PIf _ _ _ | PFor _ _ _ | PFunc _ _ _ => True | _ => P s end)
  (HI : forall c b e, Forall P b -> Forall P e -> P (PIf c b e)) (HF : forall x i b, Forall P b -> P (PFor x i b))
  (HFn : forall n ps b, Forall P b -> P (PFunc n ps b)).
Fixpoint statement_ind s : P s :=
  let all := fix all l : Forall P l :=
    match l with [] => Forall_nil_2 P | x :: l' => Forall_cons_2 P x l' (statement_ind x) (all l') end in
  match s with
  | PIf c b e => HI c b e (all b) (all e)
  | PFor x i b => HF x i b (all b)
  | PFunc n ps b => HFn n ps b (all b)
  | s => HP s
  end.
End StatementInd.

Lemma up_statement s : forall v, unplaced v -> unplaced (validateStatement urlParse (convertStatement s) v).
Proof.
  apply (statement_ind (fun s => forall v, unplaced v -> unplaced (validateStatement urlParse (convertStatement s) v)));
    clear s; [intros s|intros c b e IHb IHe|intros x i b IHb|intros n ps b IHb].
  - destruct s; try exact I; intros v Hv; cbn; try solve [placed].
    apply up_each.
    + intros s w [ (m & -> & _)%list_elem_of_fmap | (m & -> & _)%list_elem_of_fmap ]%elem_of_app Hw; cbn; placed.
    + destruct Hv as [He Hc Hd]. constructor; [done|done|]. apply Forall_app. by repeat constructor.
  - intros v Hv. cbn. assert (unplaced (exit_ (each (validateStatement urlParse) (map convertStatement b)
      (enter (validateExpression (convertExpression c) v))))) as Ht by (apply up_exit, up_map; [done|placed]).
    destruct e as [|s e]; [exact Ht|]. cbn [map]. apply up_exit. cbn [validateBlock_with b_Statements createBlock].
    apply (up_map (validateStatement urlParse) convertStatement (s :: e)); [done|placed].
  - intros v Hv. cbn. apply up_exit, up_map; [done|]. placed.
  - intros v Hv. cbn. case_match; [placed|]. case_match. case_match; [|placed]. apply up_exit, up_map; [done|]. placed.
Qed.
End Urls.

(** No error about a parsed program says where it is: the nodes that the parser
    makes have no position, endpoints are not validated, and every error of the
    validator has the position of a node. *)
Theorem errors_unplaced urlParse program_grammar endpoint_grammar input p
    (Hp : Parse program_grammar endpoint_grammar input = Ok p) :
  Forall (fun e => err_Position e = no_pos) (Validate urlParse (Some p) New).2.
Proof.
  apply up_errors, up_consistency. unfold Parse in Hp.
  destruct (extractAndParseEndpoints endpoint_grammar input) as [ [ds text]|]; [|done].
  destruct (program_grammar text) as [q|]; [|done]. injection Hp as <-. cbn [Statements].
  apply up_each; [|by constructor]. intros s w Hs Hw. apply elem_of_app in Hs as [Hs|Hs]; apply list_elem_of_fmap in Hs as (x & -> & _).
  - by apply up_statement.
  - by destruct x.
Qed.

(** [x = y], with neither declared. *)
Definition assignment : pProgram := mkPProgram [PAssign "x" (PIdentifier "y")].
Definition assignment_grammar (s : string) : result string pProgram := if String.eqb s "x = y" then Ok assignment else Err "unexpected token".
Definition no_endpoints (s : string) : result string pEndpointFile := Err "unexpected token".
Lemma errors_unplaced_witness :
  Parse assignment_grammar no_endpoints "x = y" = Ok (convertProgram assignment) /\
  (Validate Ok (Some (convertProgram assignment)) New).2 = [errUndefinedVariable no_pos "y"; errUndefinedVariable no_pos "x"] /\
  Forall (fun e => err_Position e = no_pos) (Validate Ok (Some (convertProgram assignment)) New).2.
Proof.
  split; [vm_compute; reflexivity|]. split; [vm_compute; reflexivity|].
  apply (errors_unplaced Ok assignment_grammar no_endpoints "x = y"). vm_compute. reflexivity.
Defined.

(** ** Arguments of steps *)

(** An argument is accepted if it is an identifier when its quotes are taken away:
    a number is refused, and so is a text that is not an identifier. *)
Lemma argument_refused v e s arg : pl_Action s <> "" -> arg ∈ pl_Args s ->
  EndpointValidator.valid_argument (unquote arg) = false ->
  EndpointValidator.InvalidArgument (unquote arg) (pl_Action s) ∈ EndpointValidator.validateLogicStep v e (convertLogicStep s).
Proof.
  intros Ha Hin Hv. unfold EndpointValidator.validateLogicStep. cbn [ls_Action ls_Args convertLogicStep].
  destruct (String.eqb_spec (pl_Action s) ""); [done|]. rewrite !elem_of_app. right. right. right. left.
  apply list_elem_of_In, in_concat. eexists. split.
  - apply in_map_iff. exists (unquote arg). split; [done|]. apply in_map_iff. exists arg. split; [done|by apply list_elem_of_In].
  - rewrite Hv. by left.
Qed.
(** [paginate(20, 0)] and [query("users", "")], of the repository's example. *)
Lemma number_refused v e : 
  EndpointValidator.InvalidArgument "20" "paginate" ∈
  EndpointValidator.validateLogicStep v e (convertLogicStep (mkPLogicStep no_pos None "paginate" ["20"; "0"] None [])).
Proof. apply (argument_refused v e (mkPLogicStep no_pos None "paginate" ["20"; "0"] None []) "20"); [discriminate|by left|vm_compute; reflexivity]. Qed.
Lemma empty_text_refused v e :
  EndpointValidator.InvalidArgument "" "query" ∈
  EndpointValidator.validateLogicStep v e (convertLogicStep (mkPLogicStep no_pos None "query" [quoted "users"; quoted ""] None [])).
Proof. apply (argument_refused v e (mkPLogicStep no_pos None "query" [quoted "users"; quoted ""] None []) (quoted "")); [discriminate|by right; left|vm_compute; reflexivity]. Qed.
