(* ===== verification/OpenApi.v ===== *)
(** OpenAPI documents and their validator: [internal/openapi/types.go],
    [config.go] and [validator.go].

    Maps are [gmap]s; where the code ranges over one, in an order that Go does not
    fix, the entries come in the order of [map_to_list].  Fields of [types.go]
    that nothing sets or reads — examples, callbacks, links, composed schemas —
    are left out. *)

From Stdlib Require Import ZArith Lia Ascii.
From stdpp Require Import base strings list gmap.
From S2P Require Import Prelude GoStrings GoText.

#[local] Open Scope string_scope.
#[local] Open Scope Z_scope.

(** ** Documents *)

(** Values of type [any] that documents hold. *)
Inductive Any := AnyNil | AnyString (s : string) | AnyFloat (f : float64) | AnyBool (b : bool).

Record Contact := mkContact { ct_Name : string; ct_URL : string; ct_Email : string }.
Record License := mkLicense { lc_Name : string; lc_URL : string }.
Record Info := mkInfo {
  in_Title : string; in_Description : string; in_TermsOfService : string; in_Contact : option Contact; in_License : option License;
  in_Version : string }.
Record Server := mkServer { sv_URL : string; sv_Description : string }.

(** The validation keywords of a schema. *)
Record Keywords := mkKeywords {
  kw_Maximum : option float64; kw_ExclusiveMaximum : option float64; kw_Minimum : option float64; kw_ExclusiveMinimum : option float64;
  kw_MaxLength : option Z; kw_MinLength : option Z; kw_Pattern : string; kw_MaxItems : option Z; kw_MinItems : option Z }.
Definition no_keywords : Keywords := mkKeywords None None None None None None "" None None.
Inductive Schema := mkSchema
  (Ref Type_ Format Description : string) (Default : Any) (Nullable ReadOnly : bool) (Example : Any) (Validation : Keywords)
  (Properties : gmap string Schema) (AdditionalProperties : option Schema) (Required : list string) (Items : option Schema)
  (Enum : list Any) (XMongoCollection XDatabaseType : string).
Definition sc_Ref (s : Schema) : string := match s with mkSchema r _ _ _ _ _ _ _ _ _ _ _ _ _ _ _ => r end.
Definition sc_Type (s : Schema) : string := match s with mkSchema _ t _ _ _ _ _ _ _ _ _ _ _ _ _ _ => t end.
Definition sc_Format (s : Schema) : string := match s with mkSchema _ _ f _ _ _ _ _ _ _ _ _ _ _ _ _ => f end.
Definition sc_Description (s : Schema) : string := match s with mkSchema _ _ _ d _ _ _ _ _ _ _ _ _ _ _ _ => d end.
Definition sc_Nullable (s : Schema) : bool := match s with mkSchema _ _ _ _ _ n _ _ _ _ _ _ _ _ _ _ => n end.
Definition sc_Keywords (s : Schema) : Keywords := match s with mkSchema _ _ _ _ _ _ _ _ k _ _ _ _ _ _ _ => k end.
Definition sc_Properties (s : Schema) : gmap string Schema := match s with mkSchema _ _ _ _ _ _ _ _ _ p _ _ _ _ _ _ => p end.
Definition sc_AdditionalProperties (s : Schema) : option Schema := match s with mkSchema _ _ _ _ _ _ _ _ _ _ a _ _ _ _ _ => a end.
Definition sc_Required (s : Schema) : list string := match s with mkSchema _ _ _ _ _ _ _ _ _ _ _ rq _ _ _ _ => rq end.
Definition sc_Items (s : Schema) : option Schema := match s with mkSchema _ _ _ _ _ _ _ _ _ _ _ _ i _ _ _ => i end.
Definition sc_Enum (s : Schema) : list Any := match s with mkSchema _ _ _ _ _ _ _ _ _ _ _ _ _ e _ _ => e end.

(** [&Schema{Type: t, Format: f}], and [&Schema{Ref: r}]. *)
Definition typed (t f : string) : Schema :=
  mkSchema "" t f "" AnyNil false false AnyNil no_keywords ∅ None [] None [] "" "".
Definition reference (r : string) : Schema :=
  mkSchema r "" "" "" AnyNil false false AnyNil no_keywords ∅ None [] None [] "" "".
(** Assignments to fields. *)
Definition set_Description (d : string) (s : Schema) : Schema :=
  match s with mkSchema r t f _ df n ro ex k p a rq i e x y => mkSchema r t f d df n ro ex k p a rq i e x y end.
Definition set_Default (df : Any) (s : Schema) : Schema :=
  match s with mkSchema r t f d _ n ro ex k p a rq i e x y => mkSchema r t f d df n ro ex k p a rq i e x y end.
Definition set_Nullable (n : bool) (s : Schema) : Schema :=
  match s with mkSchema r t f d df _ ro ex k p a rq i e x y => mkSchema r t f d df n ro ex k p a rq i e x y end.
Definition set_ReadOnly (ro : bool) (s : Schema) : Schema :=
  match s with mkSchema r t f d df n _ ex k p a rq i e x y => mkSchema r t f d df n ro ex k p a rq i e x y end.
Definition set_Example (ex : Any) (s : Schema) : Schema :=
  match s with mkSchema r t f d df n ro _ k p a rq i e x y => mkSchema r t f d df n ro ex k p a rq i e x y end.
Definition set_Keywords (k : Keywords) (s : Schema) : Schema :=
  match s with mkSchema r t f d df n ro ex _ p a rq i e x y => mkSchema r t f d df n ro ex k p a rq i e x y end.
Definition set_Properties (p : gmap string Schema) (rq : list string) (s : Schema) : Schema :=
  match s with mkSchema r t f d df n ro ex k _ a _ i e x y => mkSchema r t f d df n ro ex k p a rq i e x y end.
Definition set_Items (i : option Schema) (s : Schema) : Schema :=
  match s with mkSchema r t f d df n ro ex k p a rq _ e x y => mkSchema r t f d df n ro ex k p a rq i e x y end.
Definition set_extensions (x y : string) (s : Schema) : Schema :=
  match s with mkSchema r t f d df n ro ex k p a rq i e _ _ => mkSchema r t f d df n ro ex k p a rq i e x y end.

Record ApiParameter := mkApiParameter {
  pa_Ref : string; pa_Name : string; pa_In : string; pa_Description : string; pa_Required : bool; pa_Schema : option Schema }.
Record MediaType := mkMediaType { mt_Schema : option Schema }.
Record RequestBody := mkRequestBody { rb_Ref : string; rb_Content : gmap string MediaType; rb_Required : bool }.
Record Response := mkResponse { rs_Ref : string; rs_Description : string; rs_Content : gmap string MediaType }.
(** [map[string][]string] *)
Abbreviation SecurityRequirement := (gmap string (list string)).
Record Operation := mkOperation {
  op_Tags : list string; op_Summary : string; op_Description : string; op_OperationID : string; op_Parameters : list ApiParameter;
  op_RequestBody : option RequestBody; op_Responses : gmap string Response; op_Deprecated : bool; op_Security : list SecurityRequirement;
  op_XCodeAIHandler : string; op_XCodeAIMiddleware : list string; op_XCodeAISource : string }.
Record PathItem := mkPathItem {
  pi_Ref : string; pi_Get : option Operation; pi_Put : option Operation; pi_Post : option Operation; pi_Delete : option Operation;
  pi_Options : option Operation; pi_Head : option Operation; pi_Patch : option Operation }.
Definition no_operations : PathItem := mkPathItem "" None None None None None None None.

Record OAuthFlow := mkOAuthFlow { fl_AuthorizationURL : string; fl_TokenURL : string; fl_Scopes : gmap string string }.
Record OAuthFlows := mkOAuthFlows { fs_ClientCredentials : option OAuthFlow; fs_AuthorizationCode : option OAuthFlow }.
Record SecurityScheme := mkSecurityScheme {
  ss_Ref : string; ss_Type : string; ss_Description : string; ss_Name : string; ss_In : string; ss_Scheme : string;
  ss_BearerFormat : string; ss_Flows : option OAuthFlows; ss_OpenIDConnectURL : string }.
Record Components := mkComponents { co_Schemas : gmap string Schema; co_SecuritySchemes : gmap string SecurityScheme }.
Record Tag := mkTag { tg_Name : string; tg_Description : string }.
Record OpenAPI := mkOpenAPI {
  oa_OpenAPI : string; oa_Info : Info; oa_Servers : list Server; oa_Paths : gmap string PathItem; oa_Components : Components;
  oa_Security : list SecurityRequirement; oa_Tags : list Tag }.

(** ** Configuration *)
Record ServerConfig := mkServerConfig { svc_URL : string; svc_Description : string }.
Record Config := mkConfig {
  cf_Title : string; cf_Description : string; cf_Version : string; cf_TermsOfService : string; cf_ContactName : string;
  cf_ContactURL : string; cf_ContactEmail : string; cf_LicenseName : string; cf_LicenseURL : string; cf_Servers : list ServerConfig;
  cf_DefaultSecurity : list string; cf_OutputFormat : string }.
Definition DefaultConfig : Config := mkConfig "API" "" "1.0.0" "" "" "" "" "" "" [] [] "yaml".
(** [Config.Validate]: the text of the error, if any. *)
Definition Config_Validate (c : Config) : option string :=
  if String.eqb (cf_Title c) "" then Some "title is required"
  else if String.eqb (cf_Version c) "" then Some "version is required"
  else if negb (String.eqb (cf_OutputFormat c) "") && negb (String.eqb (cf_OutputFormat c) "json") && negb (String.eqb (cf_OutputFormat c) "yaml")
  then Some "output_format must be 'json' or 'yaml'" else None.
Definition ToInfo (c : Config) : Info :=
  mkInfo (cf_Title c) (cf_Description c) (cf_TermsOfService c)
    (if negb (String.eqb (cf_ContactName c) "") || negb (String.eqb (cf_ContactURL c) "") || negb (String.eqb (cf_ContactEmail c) "")
     then Some (mkContact (cf_ContactName c) (cf_ContactURL c) (cf_ContactEmail c)) else None)
    (if negb (String.eqb (cf_LicenseName c) "") then Some (mkLicense (cf_LicenseName c) (cf_LicenseURL c)) else None)
    (cf_Version c).
Definition ToServers (c : Config) : list Server := map (fun s => mkServer (svc_URL s) (svc_Description s)) (cf_Servers c).

(** ** Validation *)
Record ValidationError := mkValidationError { ve_Path : string; ve_Message : string }.
Definition ValidationError_Error (e : ValidationError) : string :=
  if String.eqb (ve_Path e) "" then ve_Message e else ve_Path e ++ ": " ++ ve_Message e.
Record ValidationResult := mkValidationResult { Valid : bool; Errors : list ValidationError; Warnings : list ValidationError }.

(** What a check reports, in the order in which it does; [record] is [addError]
    and [addWarning]. *)
Inductive Note := Error_ (path message : string) | Warning_ (path message : string).
Definition record (r : ValidationResult) (n : Note) : ValidationResult :=
  match n with
  | Error_ p m => mkValidationResult false (Errors r ++ [mkValidationError p m])%list (Warnings r)
  | Warning_ p m => mkValidationResult (Valid r) (Errors r) (Warnings r ++ [mkValidationError p m])%list
  end.
Definition error_if (b : bool) (p m : string) : list Note := if b then [Error_ p m] else [].
Definition warn_if (b : bool) (p m : string) : list Note := if b then [Warning_ p m] else [].
Definition one_of (l : list string) (s : string) : bool := existsb (String.eqb s) l.
Definition empty (s : string) : bool := String.eqb s "".

Definition isValidURL (url : string) : bool := HasPrefix url "http://" || HasPrefix url "https://".
Definition isValidEmail (email : string) : bool := Contains email "@" && Contains email ".".
Definition isValidStatusCode (code : string) : bool :=
  match code with
  | String a (String b (String c EmptyString)) => in_range 49 53 a && is_digit b && is_digit c
  | _ => false
  end.

(** The matches of [\{([^}]+)\}]: an opening brace, then everything up to the next
    closing one, if that is something. *)
Fixpoint until_brace (s : string) : option (string * string) :=
  match s with
  | EmptyString => None
  | String c s' => if Ascii.eqb c "}" then Some ("", s')
                   else match until_brace s' with Some (p, r) => Some (String c p, r) | None => None end
  end.
Fixpoint extract_from (fuel : nat) (path : string) : list string :=
  match fuel, path with
  | O, _ | _, EmptyString => []
  | S fuel', String c path' =>
      if Ascii.eqb c "{" then
        match until_brace path' with
        | Some (String _ _ as p, r) => p :: extract_from fuel' r
        | _ => extract_from fuel' path'
        end
      else extract_from fuel' path'
  end.
Definition extractPathParams (path : string) : list string := extract_from (String.length path) path.

Definition schema_types : list string := ["string"; "number"; "integer"; "boolean"; "array"; "object"].
Definition invalid_reference (r : string) : bool := negb (HasPrefix r "#/").

Section Validate.
Variable StrictMode : bool.

Definition validateOpenAPIVersion (spec : OpenAPI) : list Note :=
  if empty (oa_OpenAPI spec) then [Error_ "openapi" "openapi version is required"]
  else error_if (negb (one_of ["3.0.0"; "3.0.1"; "3.0.2"; "3.0.3"; "3.1.0"] (oa_OpenAPI spec))) "openapi"
         ("invalid OpenAPI version: " ++ oa_OpenAPI spec).

Definition validateInfo (spec : OpenAPI) : list Note :=
  let i := oa_Info spec in
  (error_if (empty (in_Title i)) "info.title" "title is required" ++
   error_if (empty (in_Version i)) "info.version" "version is required" ++
   match in_Contact i with
   | Some c =>
       warn_if (negb (empty (ct_URL c)) && negb (isValidURL (ct_URL c))) "info.contact.url" "invalid URL format" ++
       warn_if (negb (empty (ct_Email c)) && negb (isValidEmail (ct_Email c))) "info.contact.email" "invalid email format"
   | None => []
   end ++
   match in_License i with
   | Some l =>
       error_if (empty (lc_Name l)) "info.license.name" "license name is required when license is present" ++
       warn_if (negb (empty (lc_URL l)) && negb (isValidURL (lc_URL l))) "info.license.url" "invalid URL format"
   | None => []
   end)%list.

Fixpoint validateSchema (path : string) (s : Schema) {struct s} : list Note :=
  match s with
  | mkSchema ref type _ _ _ _ _ _ _ properties additional _ items _ _ _ =>
      if negb (empty ref) then warn_if (invalid_reference ref) (path ++ ".$ref") "reference should start with #/"
      else
        (error_if (negb (empty type) && negb (one_of schema_types type)) (path ++ ".type") ("invalid type: " ++ type) ++
         error_if (String.eqb type "array" && match items with None => true | Some _ => false end) (path ++ ".items")
           "items is required for array type" ++
         match items with Some i => validateSchema (path ++ ".items") i | None => [] end ++
         map_fold (fun name prop notes => validateSchema (path ++ ".properties." ++ name) prop ++ notes) [] properties ++
         match additional with Some a => validateSchema (path ++ ".additionalProperties") a | None => [] end)%list
  end.

Definition validateMediaType (path : string) (mt : MediaType) : list Note :=
  (warn_if (match mt_Schema mt with None => StrictMode | Some _ => false end) (path ++ ".schema") "schema should be defined" ++
   match mt_Schema mt with Some s => validateSchema (path ++ ".schema") s | None => [] end)%list.
Definition validate_content (path : string) (content : gmap string MediaType) : list Note :=
  concat (map (fun kv => validateMediaType (path ++ ".content." ++ kv.1) kv.2) (map_to_list content)).

Definition validateParameter (path : string) (p : ApiParameter) : list Note :=
  if negb (empty (pa_Ref p)) then []
  else
    (error_if (empty (pa_Name p)) (path ++ ".name") "parameter name is required" ++
     (if empty (pa_In p) then [Error_ (path ++ ".in") "parameter location (in) is required"]
      else error_if (negb (one_of ["query"; "header"; "path"; "cookie"] (pa_In p))) (path ++ ".in")
             ("invalid parameter location: " ++ pa_In p)) ++
     error_if (String.eqb (pa_In p) "path" && negb (pa_Required p)) (path ++ ".required") "path parameters must be required")%list.
Definition validateRequestBody (path : string) (b : RequestBody) : list Note :=
  if negb (empty (rb_Ref b)) then []
  else (error_if (Nat.eqb (size (rb_Content b)) 0) (path ++ ".content") "request body content is required" ++
        validate_content path (rb_Content b))%list.
Definition validateResponse (path code : string) (r : Response) : list Note :=
  if negb (empty (rs_Ref r)) then []
  else
    (error_if (negb (String.eqb code "default") && negb (isValidStatusCode code)) path ("invalid status code: " ++ code) ++
     error_if (empty (rs_Description r)) (path ++ ".description") "response description is required" ++
     validate_content path (rs_Content r))%list.

(** The parameters from number [i] on. *)
Fixpoint validate_parameters (basePath : string) (i : Z) (ps : list ApiParameter) : list Note :=
  match ps with
  | [] => []
  | p :: ps' => (validateParameter (basePath ++ ".parameters[" ++ Itoa i ++ "]") p ++ validate_parameters basePath (i + 1) ps')%list
  end.
Definition validateOperation (path method : string) (op : Operation) (pathParams : list string) : list Note :=
  let basePath := "paths." ++ path ++ "." ++ method in
  let definedParams := map pa_Name (List.filter (fun p => String.eqb (pa_In p) "path") (op_Parameters op)) in
  (error_if (Nat.eqb (size (op_Responses op)) 0) (basePath ++ ".responses") "responses is required" ++
   concat (map (fun p => warn_if (negb (one_of definedParams p)) (basePath ++ ".parameters")
                           ("path parameter '" ++ p ++ "' is not defined")) pathParams) ++
   validate_parameters basePath 0 (op_Parameters op) ++
   match op_RequestBody op with Some b => validateRequestBody (basePath ++ ".requestBody") b | None => [] end ++
   concat (map (fun kv => validateResponse (basePath ++ ".responses." ++ kv.1) kv.1 kv.2) (map_to_list (op_Responses op))) ++
   warn_if (StrictMode && empty (op_OperationID op)) (basePath ++ ".operationId") "operationId should be defined")%list.

(** The operations of a path that are validated, in order. *)
Definition operations (item : PathItem) : list (string * Operation) :=
  omap (fun mo => match mo.2 with Some op => Some (mo.1, op) | None => None end)
    [("get", pi_Get item); ("put", pi_Put item); ("post", pi_Post item); ("delete", pi_Delete item); ("patch", pi_Patch item);
     ("head", pi_Head item); ("options", pi_Options item)].
Definition validatePath (path : string) (item : PathItem) : list Note :=
  let pathParams := extractPathParams path in
  (error_if (negb (HasPrefix path "/")) ("paths." ++ path) "path must start with /" ++
   concat (map (fun mo => validateOperation path mo.1 mo.2 pathParams) (operations item)) ++
   warn_if (Nat.eqb (length (operations item)) 0 && empty (pi_Ref item)) ("paths." ++ path) "path has no operations")%list.
Definition validatePaths (spec : OpenAPI) : list Note :=
  if Nat.eqb (size (oa_Paths spec)) 0 then [Warning_ "paths" "no paths defined"]
  else concat (map (fun kv => validatePath kv.1 kv.2) (map_to_list (oa_Paths spec))).

Definition validateSecurityScheme (path : string) (s : SecurityScheme) : list Note :=
  if negb (empty (ss_Ref s)) then []
  else if empty (ss_Type s) then [Error_ (path ++ ".type") "security scheme type is required"]
  else
    (error_if (negb (one_of ["apiKey"; "http"; "oauth2"; "openIdConnect"] (ss_Type s))) (path ++ ".type")
       ("invalid security scheme type: " ++ ss_Type s) ++
     (if String.eqb (ss_Type s) "apiKey" then
        error_if (empty (ss_Name s)) (path ++ ".name") "name is required for apiKey type" ++
        (if empty (ss_In s) then [Error_ (path ++ ".in") "in is required for apiKey type"]
         else error_if (negb (one_of ["query"; "header"; "cookie"] (ss_In s))) (path ++ ".in")
                "in must be query, header, or cookie for apiKey type")
      else if String.eqb (ss_Type s) "http" then error_if (empty (ss_Scheme s)) (path ++ ".scheme") "scheme is required for http type"
      else if String.eqb (ss_Type s) "oauth2" then
        error_if (match ss_Flows s with None => true | Some _ => false end) (path ++ ".flows") "flows is required for oauth2 type"
      else if String.eqb (ss_Type s) "openIdConnect" then
        error_if (empty (ss_OpenIDConnectURL s)) (path ++ ".openIdConnectUrl") "openIdConnectUrl is required for openIdConnect type"
      else []))%list.
Definition validateComponents (spec : OpenAPI) : list Note :=
  (concat (map (fun kv => validateSchema ("components.schemas." ++ kv.1) kv.2) (map_to_list (co_Schemas (oa_Components spec)))) ++
   concat (map (fun kv => validateSecurityScheme ("components.securitySchemes." ++ kv.1) kv.2)
            (map_to_list (co_SecuritySchemes (oa_Components spec)))))%list.

Fixpoint validate_tags (tags : list Tag) (seen : gset string) : list Note :=
  match tags with
  | [] => []
  | t :: tags' =>
      if empty (tg_Name t) then Error_ "tags" "tag name is required" :: validate_tags tags' seen
      else (warn_if (bool_decide (tg_Name t ∈ seen)) "tags" ("duplicate tag: " ++ tg_Name t) ++
            validate_tags tags' ({[tg_Name t]} ∪ seen))%list
  end.
Definition validateTags (spec : OpenAPI) : list Note := validate_tags (oa_Tags spec) ∅.
Definition validateSecurity (spec : OpenAPI) : list Note :=
  concat (map (fun req => concat (map (fun kv =>
    error_if (match co_SecuritySchemes (oa_Components spec) !! kv.1 with None => true | Some _ => false end) "security"
      ("security scheme '" ++ kv.1 ++ "' is not defined")) (map_to_list req))) (oa_Security spec)).

Definition Validate (spec : OpenAPI) : ValidationResult :=
  fold_left record
    (validateOpenAPIVersion spec ++ validateInfo spec ++ validatePaths spec ++ validateComponents spec ++ validateTags spec ++
     validateSecurity spec)%list (mkValidationResult true [] []).
End Validate.
Definition ValidateSpec (spec : OpenAPI) : ValidationResult := Validate false spec.
Definition ValidateSpecStrict (spec : OpenAPI) : ValidationResult := Validate true spec.

(** * What is valid *)
Definition harmless (n : Note) : Prop := match n with Error_ _ _ => False | Warning_ _ _ => True end.
Definition clean (l : list Note) : Prop := Forall harmless l.

Lemma record_valid l : forall r, Valid (fold_left record l r) = true <-> Valid r = true /\ clean l.
Proof.
  unfold clean. induction l as [|n l IH]; intros r; cbn [fold_left]; [split; [|by intros []]; by intros H|].
  rewrite IH, Forall_cons. destruct n; cbn; naive_solver.
Qed.
Lemma clean_app a b : clean (a ++ b) <-> clean a /\ clean b.
Proof. apply Forall_app. Qed.
Lemma clean_concat_map {A} (f : A -> list Note) l : clean (concat (map f l)) <-> forall x, x ∈ l -> clean (f x).
Proof.
  induction l as [|x l IH]; cbn; [split; [intros _ x Hx; by apply not_elem_of_nil in Hx|by intros _; constructor]|].
  rewrite clean_app, IH. setoid_rewrite elem_of_cons. naive_solver.
Qed.
Lemma clean_entries {A} (f : string * A -> list Note) (m : gmap string A) :
  clean (concat (map f (map_to_list m))) <-> forall k x, m !! k = Some x -> clean (f (k, x)).
Proof.
  rewrite clean_concat_map. split.
  - intros H k x Hk. apply H. by apply elem_of_map_to_list.
  - intros H [k x] Hx. apply H. by apply elem_of_map_to_list in Hx.
Qed.
Lemma clean_error_if b p m : clean (error_if b p m) <-> b = false.
Proof. destruct b; cbn; [split; [intros H; by inversion H|done]|split; [done|by constructor]]. Qed.
Lemma clean_warn_if b p m : clean (warn_if b p m) <-> True.
Proof. destruct b; cbn; (split; [done|intros _; repeat constructor]). Qed.
Lemma clean_nil : clean [] <-> True.
Proof. split; [done|constructor]. Qed.
Lemma clean_error p m : clean [Error_ p m] <-> False.
Proof. split; [intros H; by inversion H|done]. Qed.
Lemma empty_spec s : empty s = true <-> s = "".
Proof. apply String.eqb_eq. Qed.
Lemma empty_false s : empty s = false <-> s <> "".
Proof. apply String.eqb_neq. Qed.
Lemma one_of_spec l s : one_of l s = true <-> s ∈ l.
Proof. unfold one_of. rewrite existsb_exists. setoid_rewrite String.eqb_eq. rewrite list_elem_of_In. naive_solver. Qed.
Create Rewrite HintDb clean.
#[export] Hint Rewrite clean_app clean_error_if clean_warn_if clean_nil clean_error @clean_concat_map @clean_entries negb_false_iff
  negb_true_iff empty_spec empty_false one_of_spec String.eqb_eq String.eqb_neq : clean.

(** ** Schemas *)

(** A schema is a reference or of a known type, arrays say of what, and its parts
    are schemas. *)
Inductive schema_ok (s : Schema) : Prop :=
| ok_reference : sc_Ref s <> "" -> schema_ok s
| ok_structure : sc_Type s = "" \/ sc_Type s ∈ schema_types -> (sc_Type s = "array" -> sc_Items s <> None) ->
    (forall i, sc_Items s = Some i -> schema_ok i) -> (forall k p, sc_Properties s !! k = Some p -> schema_ok p) ->
    (forall a, sc_AdditionalProperties s = Some a -> schema_ok a) -> schema_ok s.

Fixpoint schema_size (s : Schema) : nat :=
  match s with
  | mkSchema _ _ _ _ _ _ _ _ _ properties additional _ items _ _ _ =>
      S (match items with Some i => schema_size i | None => 0 end + map_fold (fun _ p n => schema_size p + n) 0 properties +
         match additional with Some a => schema_size a | None => 0 end)
  end%nat.
Lemma size_property (m : gmap string Schema) k p : m !! k = Some p ->
  (schema_size p <= map_fold (fun _ p n => schema_size p + n) 0 m)%nat.
Proof.
  intros Hk. apply elem_of_map_to_list in Hk. rewrite map_fold_foldr. induction (map_to_list m) as [|[k' p'] l IH]; cbn.
  - by apply not_elem_of_nil in Hk.
  - apply elem_of_cons in Hk as [[= <- <-] | Hk]; [lia|]. apply IH in Hk. lia.
Qed.

Lemma properties_notes path (m : gmap string Schema) :
  map_fold (fun name prop notes => (validateSchema (path ++ ".properties." ++ name) prop ++ notes)%list) [] m =
  concat (map (fun kv => validateSchema (path ++ ".properties." ++ kv.1) kv.2) (map_to_list m)).
Proof. rewrite map_fold_foldr. induction (map_to_list m) as [|[k p] l IH]; cbn; [done|]. f_equal. exact IH. Qed.

Lemma validateSchema_ok s : forall path, clean (validateSchema path s) <-> schema_ok s.
Proof.
  induction s as [s IH] using (induction_ltof1 _ schema_size). unfold ltof in IH. intros path.
  assert (forall i, sc_Items s = Some i -> schema_size i < schema_size s)%nat as Hi.
  { destruct s as [? ? ? ? ? ? ? ? ? ? ? ? items]. cbn. intros i ->. lia. }
  assert (forall a, sc_AdditionalProperties s = Some a -> schema_size a < schema_size s)%nat as Ha.
  { destruct s as [? ? ? ? ? ? ? ? ? ? add]. cbn. intros i ->. lia. }
  assert (forall k p, sc_Properties s !! k = Some p -> schema_size p < schema_size s)%nat as Hp.
  { destruct s as [? ? ? ? ? ? ? ? ? props]. cbn. intros k p Hk. apply size_property in Hk. lia. }
  assert (validateSchema path s =
    if negb (empty (sc_Ref s)) then warn_if (invalid_reference (sc_Ref s)) (path ++ ".$ref") "reference should start with #/"
    else
      (error_if (negb (empty (sc_Type s)) && negb (one_of schema_types (sc_Type s))) (path ++ ".type") ("invalid type: " ++ sc_Type s) ++
       error_if (String.eqb (sc_Type s) "array" && match sc_Items s with None => true | Some _ => false end) (path ++ ".items")
         "items is required for array type" ++
       match sc_Items s with Some i => validateSchema (path ++ ".items") i | None => [] end ++
       concat (map (fun kv => validateSchema (path ++ ".properties." ++ kv.1) kv.2) (map_to_list (sc_Properties s))) ++
       match sc_AdditionalProperties s with Some a => validateSchema (path ++ ".additionalProperties") a | None => [] end)%list) as ->.
  { destruct s. cbn [validateSchema]. by rewrite properties_notes. }
  destruct (empty (sc_Ref s)) eqn:Hr; cbn [negb].
  - autorewrite with clean in *. rewrite !andb_false_iff. autorewrite with clean.
    assert (match sc_Items s with Some i => clean (validateSchema (path ++ ".items") i) | None => clean [] end <->
            forall i, sc_Items s = Some i -> schema_ok i) as HI.
    { destruct (sc_Items s) as [i|] eqn:E; [|split; [done|by constructor]]. rewrite IH by eauto. naive_solver. }
    assert (match sc_AdditionalProperties s with Some a => clean (validateSchema (path ++ ".additionalProperties") a) | None => clean [] end <->
            forall a, sc_AdditionalProperties s = Some a -> schema_ok a) as HA.
    { destruct (sc_AdditionalProperties s) as [a|] eqn:E; [|split; [done|by constructor]]. rewrite IH by eauto. naive_solver. }
    assert (clean (match sc_Items s with Some i => validateSchema (path ++ ".items") i | None => [] end) <->
            forall i, sc_Items s = Some i -> schema_ok i) as -> by (rewrite <- HI; by destruct (sc_Items s)).
    assert (clean (match sc_AdditionalProperties s with Some a => validateSchema (path ++ ".additionalProperties") a | None => [] end) <->
            forall a, sc_AdditionalProperties s = Some a -> schema_ok a) as -> by (rewrite <- HA; by destruct (sc_AdditionalProperties s)).
    assert ((forall k x, sc_Properties s !! k = Some x -> clean (validateSchema (path ++ ".properties." ++ (k, x).1) (k, x).2)) <->
            (forall k p, sc_Properties s !! k = Some p -> schema_ok p)) as ->.
    { split; intros H k p Hk; [by eapply IH, H; eauto|apply IH; eauto]. }
    split.
    + intros (Ht & Hit & H1 & H2 & H3). apply ok_structure; [naive_solver| |done|done|done].
      intros E. destruct Hit as [? | Hit]; [done|]. by destruct (sc_Items s).
    + intros [? | Ht Hit H1 H2 H3]; [done|]. repeat split; [naive_solver| |done|done|done].
      destruct (decide (sc_Type s = "array")) as [E|]; [right|by left]. specialize (Hit E). by destruct (sc_Items s).
  - autorewrite with clean in *. split; [|done]. intros _. by apply ok_reference.
Qed.

(** ** Operations, paths and documents *)
Definition parameter_ok (p : ApiParameter) : Prop :=
  pa_Ref p <> "" \/
  (pa_Name p <> "" /\ pa_In p ∈ ["query"; "header"; "path"; "cookie"] /\ (pa_In p = "path" -> pa_Required p = true)).
Definition content_ok (content : gmap string MediaType) : Prop :=
  forall m mt s, content !! m = Some mt -> mt_Schema mt = Some s -> schema_ok s.
Definition request_ok (b : RequestBody) : Prop := rb_Ref b <> "" \/ (rb_Content b <> ∅ /\ content_ok (rb_Content b)).
Definition response_ok (code : string) (r : Response) : Prop :=
  rs_Ref r <> "" \/
  ((code = "default" \/ isValidStatusCode code = true) /\ rs_Description r <> "" /\ content_ok (rs_Content r)).
Record operation_ok (op : Operation) : Prop := {
  ok_responses : op_Responses op <> ∅;
  ok_parameters : Forall parameter_ok (op_Parameters op);
  ok_body : forall b, op_RequestBody op = Some b -> request_ok b;
  ok_each_response : forall code r, op_Responses op !! code = Some r -> response_ok code r }.
Record path_ok (path : string) (item : PathItem) : Prop := {
  ok_slash : HasPrefix path "/" = true;
  ok_operations : forall m op, (m, op) ∈ operations item -> operation_ok op }.
Definition scheme_ok (s : SecurityScheme) : Prop :=
  ss_Ref s <> "" \/
  (ss_Type s = "apiKey" /\ ss_Name s <> "" /\ ss_In s ∈ ["query"; "header"; "cookie"]) \/
  (ss_Type s = "http" /\ ss_Scheme s <> "") \/
  (ss_Type s = "oauth2" /\ ss_Flows s <> None) \/
  (ss_Type s = "openIdConnect" /\ ss_OpenIDConnectURL s <> "").
Record document_ok (spec : OpenAPI) : Prop := {
  ok_version : oa_OpenAPI spec ∈ ["3.0.0"; "3.0.1"; "3.0.2"; "3.0.3"; "3.1.0"];
  ok_title : in_Title (oa_Info spec) <> "";
  ok_api_version : in_Version (oa_Info spec) <> "";
  ok_license : forall l, in_License (oa_Info spec) = Some l -> lc_Name l <> "";
  ok_paths : forall path item, oa_Paths spec !! path = Some item -> path_ok path item;
  ok_schemas : forall n s, co_Schemas (oa_Components spec) !! n = Some s -> schema_ok s;
  ok_schemes : forall n s, co_SecuritySchemes (oa_Components spec) !! n = Some s -> scheme_ok s;
  ok_tags : Forall (fun t => tg_Name t <> "") (oa_Tags spec);
  ok_security : forall req n, req ∈ oa_Security spec -> is_Some (req !! n) -> is_Some (co_SecuritySchemes (oa_Components spec) !! n) }.

Lemma size_nonempty {A} (m : gmap string A) : Nat.eqb (size m) 0 = false <-> m <> ∅.
Proof. rewrite Nat.eqb_neq. by rewrite map_size_non_empty_iff. Qed.

Section Decides.
Variable strict : bool.

Lemma content_notes path content : clean (validate_content strict path content) <-> content_ok content.
Proof.
  unfold validate_content, validateMediaType, content_ok. autorewrite with clean. cbn [fst snd]. split.
  - intros H m mt s Hm Hs. specialize (H m mt Hm). autorewrite with clean in H. rewrite Hs, validateSchema_ok in H. by apply H.
  - intros H m mt Hm. autorewrite with clean. split; [done|]. destruct (mt_Schema mt) eqn:E; [|constructor]. apply validateSchema_ok. by eapply H.
Qed.
Lemma parameter_notes path p : clean (validateParameter path p) <-> parameter_ok p.
Proof.
  unfold validateParameter, parameter_ok. destruct (empty (pa_Ref p)) eqn:Er; cbn [negb]; autorewrite with clean in *; [|by split; [left|constructor]].
  rewrite andb_false_iff. destruct (empty (pa_In p)) eqn:Ei; autorewrite with clean in *.
  - split; [by intros (_ & [] & _)|]. intros [? | (_ & Hin & _)]; [done|]. rewrite Ei in Hin. set_solver.
  - split.
    + intros (Hn & Hin & Hreq). right. split; [done|]. split; [done|]. intros E. by destruct Hreq.
    + intros [? | (Hn & Hin & Hreq)]; [done|]. split; [done|]. split; [done|]. destruct (decide (pa_In p = "path")); [right|left]; auto.
Qed.
Lemma parameters_notes base ps : forall i, clean (validate_parameters base i ps) <-> Forall parameter_ok ps.
Proof.
  induction ps as [|p ps IH]; intros i; cbn [validate_parameters]; [split; constructor|].
  by rewrite clean_app, parameter_notes, IH, Forall_cons.
Qed.
Lemma body_notes path b : clean (validateRequestBody strict path b) <-> request_ok b.
Proof.
  unfold validateRequestBody, request_ok. destruct (empty (rb_Ref b)) eqn:Er; cbn [negb]; autorewrite with clean in *; [|by split; [left|constructor]].
  rewrite size_nonempty, content_notes. naive_solver.
Qed.
Lemma response_notes path code r : clean (validateResponse strict path code r) <-> response_ok code r.
Proof.
  unfold validateResponse, response_ok. destruct (empty (rs_Ref r)) eqn:Er; cbn [negb]; autorewrite with clean in *; [|by split; [left|constructor]].
  rewrite content_notes, andb_false_iff. autorewrite with clean. naive_solver.
Qed.
Lemma operation_notes path m op params : clean (validateOperation strict path m op params) <-> operation_ok op.
Proof.
  unfold validateOperation. cbv zeta. autorewrite with clean. rewrite size_nonempty, parameters_notes. setoid_rewrite response_notes. cbn [fst snd].
  setoid_rewrite clean_warn_if.
  split.
  - intros (H1 & _ & H3 & H4 & H5 & _). constructor; [done|done| |done]. intros b E. rewrite E in H4. by eapply body_notes.
  - intros [H1 H3 H4 H5]. split; [done|]. split; [done|]. split; [done|]. split; [|done].
    destruct (op_RequestBody op) as [b|]; [|constructor]. by apply body_notes, H4.
Qed.
Lemma path_notes path item : clean (validatePath strict path item) <-> path_ok path item.
Proof.
  unfold validatePath. cbv zeta. autorewrite with clean. setoid_rewrite operation_notes. split.
  - intros (H1 & H2 & _). constructor; [done|]. intros m op Hin. exact (H2 (m, op) Hin).
  - intros [H1 H2]. split; [done|]. split; [|done]. intros [m op]. apply H2.
Qed.
Lemma scheme_notes path s : clean (validateSecurityScheme path s) <-> scheme_ok s.
Proof.
  unfold validateSecurityScheme, scheme_ok. destruct (empty (ss_Ref s)) eqn:Er; cbn [negb]; autorewrite with clean in *; [|by split; [left|constructor]].
  destruct (empty (ss_Type s)) eqn:Et; autorewrite with clean in *; [rewrite Et; naive_solver|].
  destruct (String.eqb_spec (ss_Type s) "apiKey") as [E|N1]; [rewrite E; destruct (empty (ss_In s)) eqn:Ei; autorewrite with clean in *|].
  - rewrite Ei. split; [naive_solver|]. intros [? | [(_ & _ & Hin) | [[? _] | [[? _] | [? _]]]]]; try done. set_solver.
  - split; [intros (_ & ? & ?); naive_solver|]. intros [? | [(_ & ? & ?) | [[? _] | [[? _] | [? _]]]]]; try done.
    split; [set_solver|done].
  - destruct (String.eqb_spec (ss_Type s) "http") as [E|N2]; [rewrite E; autorewrite with clean|].
    { split; [naive_solver|]. intros [? | [(? & _) | [[_ ?] | [[? _] | [? _]]]]]; try done. split; [set_solver|done]. }
    destruct (String.eqb_spec (ss_Type s) "oauth2") as [E|N3]; [rewrite E; autorewrite with clean|].
    { split.
      - intros [_ H]. right. right. right. left. split; [done|]. by destruct (ss_Flows s).
      - intros [? | [(? & _) | [[? _] | [[_ H] | [? _]]]]]; try done. split; [set_solver|]. by destruct (ss_Flows s). }
    destruct (String.eqb_spec (ss_Type s) "openIdConnect") as [E|N4]; [rewrite E; autorewrite with clean|].
    { split; [naive_solver|]. intros [? | [(? & _) | [[? _] | [[? _] | [_ ?]]]]]; try done. split; [set_solver|done]. }
    autorewrite with clean. split; [intros [H _]; set_solver|naive_solver].
Qed.
Lemma tags_notes tags : forall seen, clean (validate_tags tags seen) <-> Forall (fun t => tg_Name t <> "") tags.
Proof.
  induction tags as [|t tags IH]; intros seen; cbn [validate_tags]; [split; constructor|]. rewrite Forall_cons.
  destruct (empty (tg_Name t)) eqn:E; autorewrite with clean in *; [|rewrite IH; naive_solver].
  split; [intros H; by inversion H|naive_solver].
Qed.

Lemma version_notes spec : clean (validateOpenAPIVersion spec) <-> oa_OpenAPI spec ∈ ["3.0.0"; "3.0.1"; "3.0.2"; "3.0.3"; "3.1.0"].
Proof.
  unfold validateOpenAPIVersion. destruct (empty (oa_OpenAPI spec)) eqn:E; autorewrite with clean in *; [rewrite E; set_solver|done].
Qed.
Lemma info_notes spec : clean (validateInfo spec) <->
  in_Title (oa_Info spec) <> "" /\ in_Version (oa_Info spec) <> "" /\ forall l, in_License (oa_Info spec) = Some l -> lc_Name l <> "".
Proof.
  unfold validateInfo. cbv zeta. autorewrite with clean.
  assert (clean (match in_Contact (oa_Info spec) with
    | Some c => warn_if (negb (empty (ct_URL c)) && negb (isValidURL (ct_URL c))) "info.contact.url" "invalid URL format" ++
                warn_if (negb (empty (ct_Email c)) && negb (isValidEmail (ct_Email c))) "info.contact.email" "invalid email format"
    | None => [] end)) as Hc by (destruct (in_Contact (oa_Info spec)); by autorewrite with clean).
  destruct (in_License (oa_Info spec)) as [l|]; autorewrite with clean; naive_solver.
Qed.
Lemma paths_notes spec : clean (validatePaths strict spec) <-> forall path item, oa_Paths spec !! path = Some item -> path_ok path item.
Proof.
  unfold validatePaths. destruct (Nat.eqb (size (oa_Paths spec)) 0) eqn:E.
  - apply Nat.eqb_eq, map_size_empty_iff in E. rewrite E. split; [|by repeat constructor]. intros _ path item H. by rewrite lookup_empty in H.
  - autorewrite with clean. by setoid_rewrite path_notes.
Qed.
Lemma security_notes spec : clean (validateSecurity spec) <->
  forall req n, req ∈ oa_Security spec -> is_Some (req !! n) -> is_Some (co_SecuritySchemes (oa_Components spec) !! n).
Proof.
  unfold validateSecurity. autorewrite with clean. split.
  - intros H req n Hreq [l Hn]. specialize (H req Hreq). autorewrite with clean in H. specialize (H n l Hn). autorewrite with clean in H.
    cbn in H. by destruct (_ !! n).
  - intros H req Hreq. autorewrite with clean. intros n l Hn. autorewrite with clean. cbn. by destruct (H req n Hreq (mk_is_Some _ _ Hn)) as [x ->].
Qed.

Lemma Validate_decides_iff spec : Valid (Validate strict spec) = true <-> document_ok spec.
Proof.
  unfold Validate. rewrite record_valid, !clean_app, version_notes, info_notes, paths_notes, security_notes. unfold validateTags, validateComponents.
  rewrite tags_notes. autorewrite with clean. setoid_rewrite validateSchema_ok. setoid_rewrite scheme_notes. cbn [fst snd Valid]. split.
  - intros (_ & H1 & (H2 & H3 & H4) & H5 & (H6 & H7) & H8 & H9). by constructor.
  - by intros [].
Qed.

(** The validator of documents reports no error, strict or not, exactly for
    well-formed documents: a known version, a title and a version, paths that
    start with a slash and whose operations have responses, named and located
    parameters and contents, schemas and security schemes of known types that say
    what their type asks for, named tags, and defined default security. *)
Theorem Validate_decides spec : Valid (Validate strict spec) = true <-> document_ok spec.
Proof. apply Validate_decides_iff. Qed.
End Decides.

(** ** Schemas that are built *)

(** Validity looks at references, types and parts only. *)
Definition structure (s : Schema) : string * string * option Schema * gmap string Schema * option Schema :=
  (sc_Ref s, sc_Type s, sc_Items s, sc_Properties s, sc_AdditionalProperties s).
Lemma ok_structure_eq s s' : structure s = structure s' -> schema_ok s -> schema_ok s'.
Proof.
  intros [= E1 E2 E3 E4 E5] [Hr | Ht Ha Hi Hp Hd]; [by apply ok_reference; rewrite <- E1|].
  apply ok_structure; rewrite <- ?E2, <- ?E3, <- ?E4, <- ?E5; auto.
Qed.
Lemma ok_set_Description d s : schema_ok s -> schema_ok (set_Description d s).
Proof. apply ok_structure_eq. by destruct s. Qed.
Lemma ok_set_Default d s : schema_ok s -> schema_ok (set_Default d s).
Proof. apply ok_structure_eq. by destruct s. Qed.
Lemma ok_set_Nullable b s : schema_ok s -> schema_ok (set_Nullable b s).
Proof. apply ok_structure_eq. by destruct s. Qed.
Lemma ok_set_ReadOnly b s : schema_ok s -> schema_ok (set_ReadOnly b s).
Proof. apply ok_structure_eq. by destruct s. Qed.
Lemma ok_set_Example e s : schema_ok s -> schema_ok (set_Example e s).
Proof. apply ok_structure_eq. by destruct s. Qed.
Lemma ok_set_Keywords k s : schema_ok s -> schema_ok (set_Keywords k s).
Proof. apply ok_structure_eq. by destruct s. Qed.
Lemma ok_set_extensions x y s : schema_ok s -> schema_ok (set_extensions x y s).
Proof. apply ok_structure_eq. by destruct s. Qed.
Lemma ok_ref r : r <> "" -> schema_ok (reference r).
Proof. intros H. by apply ok_reference. Qed.
Lemma ok_typed t f : t ∈ schema_types -> t <> "array" -> schema_ok (typed t f).
Proof. intros Ht Hn. apply ok_structure; cbn; [by right|done|done| |done]. intros k p H. by rewrite lookup_empty in H. Qed.
Lemma ok_array i f : schema_ok i -> schema_ok (set_Items (Some i) (typed "array" f)).
Proof.
  intros Hi. apply ok_structure; cbn; [right; set_solver|done| | |done].
  - by intros i' [= <-].
  - intros k p H. by rewrite lookup_empty in H.
Qed.
Lemma ok_object props required : (forall k p, props !! k = Some p -> schema_ok p) -> schema_ok (set_Properties props required (typed "object" "")).
Proof. intros Hp. apply ok_structure; cbn; [right; set_solver|done|done|exact Hp|done]. Qed.
Lemma array_without_items s : sc_Ref s = "" -> sc_Type s = "array" -> sc_Items s = None -> ~ schema_ok s.
Proof. intros Hr Ht Hi [? | _ H _ _ _]; [done|]. by destruct (H Ht). Qed.
Create HintDb schemas discriminated.
#[export] Hint Resolve ok_set_Description ok_set_Default ok_set_Nullable ok_set_ReadOnly ok_set_Example ok_set_Keywords ok_set_extensions
  ok_array : schemas.
