(* ===== verification/OpenApiMapper.v ===== *)
(** From programs to OpenAPI documents: [internal/openapi/mapper.go] and the
    schemas of named types of [schema.go].

    The mapper's state is the document it builds.  No method returns an error.
    Letter case is that of [GoText]. *)

From Stdlib Require Import ZArith Lia Ascii SpecFloat.
From stdpp Require Import base strings list gmap.
From S2P Require Import Prelude GoStrings GoText Retry DslAst OpenApi.

#[local] Open Scope string_scope.
#[local] Open Scope Z_scope.

(** ** Schemas of named types *)
Definition GenerateRef (name : string) : Schema := reference ("#/components/schemas/" ++ name).
Definition SchemaFromType (typeName : string) : Schema :=
  let among := fun l => one_of l typeName in
  if among ["string"; "text"] then typed "string" ""
  else if among ["integer"; "int"; "int32"; "int64"] then typed "integer" "int64"
  else if among ["number"; "float"; "float32"; "float64"; "decimal"] then typed "number" "double"
  else if among ["boolean"; "bool"] then typed "boolean" ""
  else if among ["uuid"] then typed "string" "uuid"
  else if among ["timestamp"; "datetime"] then typed "string" "date-time"
  else if among ["date"] then typed "string" "date"
  else if among ["time"] then typed "string" "time"
  else if among ["json"; "object"] then typed "object" ""
  else if among ["array"] then typed "array" ""
  else GenerateRef typeName.

(** ** The document *)
Definition NewMapper : OpenAPI :=
  mkOpenAPI "3.0.0" (mkInfo "" "" "" None None "") [] ∅ (mkComponents ∅ ∅) [] [].
Definition set_Paths (p : gmap string PathItem) (m : OpenAPI) : OpenAPI :=
  mkOpenAPI (oa_OpenAPI m) (oa_Info m) (oa_Servers m) p (oa_Components m) (oa_Security m) (oa_Tags m).
Definition set_Components (c : Components) (m : OpenAPI) : OpenAPI :=
  mkOpenAPI (oa_OpenAPI m) (oa_Info m) (oa_Servers m) (oa_Paths m) c (oa_Security m) (oa_Tags m).
Definition set_Tags (t : list Tag) (m : OpenAPI) : OpenAPI :=
  mkOpenAPI (oa_OpenAPI m) (oa_Info m) (oa_Servers m) (oa_Paths m) (oa_Components m) (oa_Security m) t.

Definition AddSchema (name : string) (s : Schema) (m : OpenAPI) : OpenAPI :=
  set_Components (mkComponents (<[name := s]> (co_Schemas (oa_Components m))) (co_SecuritySchemes (oa_Components m))) m.
Definition AddSecurityScheme (name : string) (s : SecurityScheme) (m : OpenAPI) : OpenAPI :=
  set_Components (mkComponents (co_Schemas (oa_Components m)) (<[name := s]> (co_SecuritySchemes (oa_Components m)))) m.
Definition AddTag (t : Tag) (m : OpenAPI) : OpenAPI :=
  if existsb (fun t' => String.eqb (tg_Name t') (tg_Name t)) (oa_Tags m) then m else set_Tags (oa_Tags m ++ [t])%list m.

(** The assignment to the operation of a method; other methods have none. *)
Definition set_operation (method : string) (op : Operation) (i : PathItem) : PathItem :=
  let '(mkPathItem r g pu po d o h pa) := i in
  if String.eqb method "GET" then mkPathItem r (Some op) pu po d o h pa
  else if String.eqb method "POST" then mkPathItem r g pu (Some op) d o h pa
  else if String.eqb method "PUT" then mkPathItem r g (Some op) po d o h pa
  else if String.eqb method "DELETE" then mkPathItem r g pu po (Some op) o h pa
  else if String.eqb method "PATCH" then mkPathItem r g pu po d o h (Some op)
  else if String.eqb method "HEAD" then mkPathItem r g pu po d o (Some op) pa
  else if String.eqb method "OPTIONS" then mkPathItem r g pu po d (Some op) h pa
  else i.
Definition put_operation (method path : string) (op : Operation) (m : OpenAPI) : OpenAPI :=
  let pathItem := default no_operations (oa_Paths m !! path) in
  set_Paths (<[path := set_operation method op pathItem]> (oa_Paths m)) m.

(** ** Texts *)

(** [strings.TrimSuffix] by its length, of a text that ends so. *)
Definition drop_last (n : nat) (s : string) : string := take_str (String.length s - n) s.

(** Attempts to make a word singular. *)
Definition singularize (word : string) : string :=
  let word := TrimSpace word in
  if String.eqb word "" then word
  else if HasSuffix word "ies" then drop_last 3 word ++ "y"
  else if HasSuffix word "es" then drop_last 2 word
  else if HasSuffix word "s" && negb (HasSuffix word "ss") then drop_last 1 word
  else word.

Definition convertPathParams (path : string) : string :=
  Join (map (fun part => if HasPrefix part ":" then "{" ++ TrimPrefix part ":" ++ "}" else part) (Split "/" path)) "/".
Definition extractPathParamsFromPath (path : string) : list string :=
  omap (fun part => if HasPrefix part ":" then Some (TrimPrefix part ":")
                    else if HasPrefix part "{" && HasSuffix part "}" then Some (Trim part "{}") else None) (Split "/" path).
Definition extractTagsFromPath (path : string) : list string :=
  match Split "/" (Trim path "/") with
  | p :: _ => if negb (String.eqb p "") && negb (HasPrefix p ":") && negb (HasPrefix p "{") then [p] else []
  | [] => []
  end.
Definition status_descriptions : list (Z * string) :=
  [(200, "OK"); (201, "Created"); (204, "No Content"); (400, "Bad Request"); (401, "Unauthorized"); (403, "Forbidden"); (404, "Not Found");
   (409, "Conflict"); (422, "Unprocessable Entity"); (500, "Internal Server Error")].
Definition getStatusDescription (code : Z) : string :=
  match find (fun cd => Z.eqb cd.1 code) status_descriptions with Some (_, d) => d | None => "Response " ++ Itoa code end.
Definition appendDescription (existing addition : string) : string :=
  if String.eqb existing "" then addition else existing ++ ". " ++ addition.
Definition extractExpressionValue (e : Expression) : Any :=
  match e with StringLiteral _ s => AnyString s | NumberLiteral _ f => AnyFloat f | BoolLiteral _ b => AnyBool b | _ => AnyNil end.

Section Mapper.
Context `{Unicode}.
(** [int(f)] beyond the range of [int], which the language leaves open. *)
Variable int_of_huge : float64 -> Z.

Definition toSnakeCase (s : string) : string :=
  Lower (Join (map (fun ir => (if Nat.ltb 0 ir.1 && (65 <=? ir.2) && (ir.2 <=? 90) then "_" else "") ++ encode_rune ir.2) (range_runes s)) "").

Definition generateSummary (method path : string) : string :=
  match Split "/" (Trim path "/") with
  | [] => method ++ " endpoint"
  | p :: _ =>
      let resource := Title (ReplaceAll p "_" " ") in
      if String.eqb method "GET" then
        (if Contains path "{" then "Get " ++ singularize resource ++ " by ID" else "List " ++ resource)
      else if String.eqb method "POST" then "Create " ++ singularize resource
      else if String.eqb method "PUT" then "Update " ++ singularize resource
      else if String.eqb method "PATCH" then "Partially update " ++ singularize resource
      else if String.eqb method "DELETE" then "Delete " ++ singularize resource
      else method ++ " " ++ resource
  end.
Definition generateEndpointOperationID (method path : string) : string :=
  Lower method ++ Join (map (fun part => if HasPrefix part ":" || HasPrefix part "{" then "ById" else Title part) (Split "/" (Trim path "/"))) "".
Definition generateEndpointSummary (method path : string) : string := generateSummary method (convertPathParams path).

Definition handler_prefixes : list (string * string) :=
  [("get", "GET"); ("list", "GET"); ("fetch", "GET"); ("create", "POST"); ("add", "POST"); ("new", "POST"); ("post", "POST");
   ("update", "PUT"); ("put", "PUT"); ("edit", "PUT"); ("patch", "PATCH"); ("delete", "DELETE"); ("remove", "DELETE"); ("handle", "")].
(** The first prefix, in the order [prefixes] in which the map is ranged over. *)
Definition parse_handler_name (prefixes : list (string * string)) (name : string) : string * string :=
  let lowerName := Lower name in
  match find (fun pm => HasPrefix lowerName pm.1) prefixes with
  | None => ("", "")
  | Some (foundPrefix, method) =>
      if String.eqb foundPrefix "handle" then
        match SplitN "_" 3 name with
        | [_; m] => (Upper m, "")
        | _ :: m :: resource :: _ => (Upper m, "/" ++ toSnakeCase resource)
        | _ => ("", "")
        end
      else
        let resourcePart := TrimPrefix (drop_str (String.length foundPrefix) name) "_" in
        let hasIdParam := HasSuffix (Lower resourcePart) "byid" in
        let resourcePart := if hasIdParam then drop_last 4 resourcePart else resourcePart in
        (method, "/" ++ toSnakeCase resourcePart ++ (if hasIdParam then "/{id}" else ""))
  end.
Definition parseHandlerName (name : string) : string * string := parse_handler_name handler_prefixes name.

(** ** Parameters of functions *)
Definition is_integral (f : float64) : bool :=
  let in_range z := (int64_min <=? z) && (z <=? int64_max) in
  match f with
  | S754_zero _ => true
  | S754_finite neg m e =>
      let z := f_trunc neg m e in SFeqb f (f_of_int (if in_range z then z else int_of_huge f))
  | _ => SFeqb f (f_of_int (int_of_huge f))
  end.
Fixpoint schemaFromExpression (e : Expression) : Schema :=
  match e with
  | StringLiteral _ s => set_Example (AnyString s) (typed "string" "")
  | NumberLiteral _ f => set_Example (AnyFloat f) (typed (if is_integral f then "integer" else "number") "")
  | BoolLiteral _ b => set_Example (AnyBool b) (typed "boolean" "")
  | ArrayLiteral _ elements =>
      set_Items (match elements with e :: _ => Some (schemaFromExpression e) | [] => None end) (typed "array" "")
  | _ => typed "object" ""
  end.
Definition inferParamSchema (p : Parameter_) : Schema :=
  if negb (String.eqb (par_Type p) "") then SchemaFromType (par_Type p)
  else match Default p with NilExpr => typed "string" "" | e => schemaFromExpression e end.
Definition mapParameter (p : Parameter_) (path : string) : ApiParameter :=
  let isPathParam := Contains path ("{" ++ par_Name p ++ "}") in
  mkApiParameter "" (par_Name p) (if isPathParam then "path" else "query") "" isPathParam (Some (inferParamSchema p)).
Definition mapFunction (pos : Position) (name : string) (params : list Parameter_) (m : OpenAPI) : OpenAPI :=
  let '(method, path) := parseHandlerName name in
  if String.eqb method "" then m
  else
    put_operation method path
      (mkOperation [] (generateSummary method path) "" name (map (fun p => mapParameter p path) params) None
         (<["200" := mkResponse "" "Success" ∅]> (<["400" := mkResponse "" "Bad Request" ∅]>
           {["500" := mkResponse "" "Internal Server Error" ∅]})) false [] name [] (Position_String pos)) m.

(** ** Collections *)
Definition has_modifier (n : string) (ms : list Modifier) : bool := existsb (fun m => String.eqb (Lower (mod_Name m)) n) ms.
Definition isOptionalField (f : MongoFieldDecl) : bool := has_modifier "optional" (mf_Modifiers f).

(** The schema of a type name that is in lower case; [items] is what an array has. *)
Definition mongo_named (typeName : string) (items : option Schema) : Schema :=
  let among := fun l => one_of l typeName in
  if among ["objectid"] then
    set_Keywords (mkKeywords None None None None None None "^[a-fA-F0-9]{24}$" None None)
      (set_Description "MongoDB ObjectID" (typed "string" "objectid"))
  else if among ["string"] then typed "string" ""
  else if among ["int"; "integer"] then typed "integer" ""
  else if among ["int32"] then typed "integer" "int32"
  else if among ["int64"] then typed "integer" "int64"
  else if among ["double"; "float"; "number"] then typed "number" ""
  else if among ["decimal"; "decimal128"] then typed "string" "decimal"
  else if among ["bool"; "boolean"] then typed "boolean" ""
  else if among ["date"; "datetime"; "timestamp"] then typed "string" "date-time"
  else if among ["binary"; "bindata"] then typed "string" "binary"
  else if among ["array"] then set_Items items (typed "array" "")
  else if among ["object"; "document"] then typed "object" ""
  else GenerateRef typeName.

(** The properties and the required names of fields, given the schemas of their
    types; of two fields with a name the second is a property. *)
Definition mongo_fields {T} (type : option T -> Schema) (fs : list (MongoFieldOf T)) : gmap string Schema * list string :=
  fold_left (fun '(props, required) f =>
    let s := type (mf_Type f) in
    (<[mf_Name f := if has_modifier "nullable" (mf_Modifiers f) then set_Nullable true s else s]> props,
     if has_modifier "optional" (mf_Modifiers f) then required else (required ++ [mf_Name f])%list)) fs (∅, []).
Fixpoint mapMongoType (t : MongoTypeRef) : Schema :=
  match t with
  | mkMongoTypeRef _ name params doc =>
      match doc with
      | Some d =>
          let '(props, required) :=
            mongo_fields (fun t => match t with Some t => mapMongoType t | None => typed "object" "" end) (ed_Fields d) in
          set_Properties props required (typed "object" "")
      | None => mongo_named (Lower name) (match params with p :: _ => Some (mongo_named (Lower p) None) | [] => None end)
      end
  end.
Definition map_mongo_type (t : option MongoTypeRef) : Schema := match t with Some t => mapMongoType t | None => typed "object" "" end.
Definition mapCollection (c : CollectionDecl) (m : OpenAPI) : OpenAPI :=
  let '(props, required) := mongo_fields map_mongo_type (cd_Fields c) in
  let description := if String.eqb (cd_Description c) "" then "MongoDB collection: " ++ cd_Name c else cd_Description c in
  AddSchema (cd_Name c) (set_extensions (cd_Name c) "" (set_Description description (set_Properties props required (typed "object" "")))) m.

(** ** Models *)
Definition field_named (typeName : string) : Schema :=
  let among := fun l => one_of l typeName in
  if among ["string"; "text"] then typed "string" ""
  else if among ["int"; "integer"] then typed "integer" "int32"
  else if among ["int64"; "bigint"] then typed "integer" "int64"
  else if among ["float"; "float32"] then typed "number" "float"
  else if among ["float64"; "double"; "decimal"] then typed "number" "double"
  else if among ["bool"; "boolean"] then typed "boolean" ""
  else if among ["uuid"] then typed "string" "uuid"
  else if among ["timestamp"; "datetime"] then typed "string" "date-time"
  else if among ["date"] then typed "string" "date"
  else if among ["time"] then typed "string" "time"
  else if among ["email"] then typed "string" "email"
  else if among ["url"; "uri"] then typed "string" "uri"
  else if among ["json"; "jsonb"] then typed "object" ""
  else if among ["binary"; "bytes"] then typed "string" "binary"
  else GenerateRef typeName.
Definition type_name (t : TypeRef) : string := match t with mkTypeRef _ n _ => n end.
Fixpoint mapFieldType (t : TypeRef) : Schema :=
  match t with
  | mkTypeRef _ name params =>
      let typeName := Lower name in
      match params with
      | p :: _ =>
          if one_of ["list"; "array"] typeName then set_Items (Some (mapFieldType p)) (typed "array" "")
          else if String.eqb typeName "ref" then GenerateRef (type_name p)
          else if String.eqb typeName "optional" then set_Nullable true (mapFieldType p)
          else field_named typeName
      | [] => field_named typeName
      end
  end.
Definition applyFieldModifier (s : Schema) (mo : Modifier) : Schema :=
  let n := Lower (mod_Name mo) in
  if String.eqb n "primary" then set_Description (appendDescription (sc_Description s) "Primary key") s
  else if String.eqb n "unique" then set_Description (appendDescription (sc_Description s) "Unique") s
  else if String.eqb n "auto" then set_ReadOnly true s
  else if one_of ["nullable"; "optional"] n then set_Nullable true s
  else if String.eqb n "default" then
    match mod_Value mo with NilExpr => s | e => set_Default (extractExpressionValue e) s end
  else s.
Definition model_fields (fs : list FieldDecl) : gmap string Schema * list string :=
  fold_left (fun '(props, required) f =>
    (<[fd_Name f := fold_left applyFieldModifier (fd_Modifiers f)
                      (match fd_Type f with Some t => mapFieldType t | None => typed "object" "" end)]> props,
     (required ++ omap (fun mo => if String.eqb (Lower (mod_Name mo)) "required" then Some (fd_Name f) else None) (fd_Modifiers f))%list))
    fs (∅, []).
Definition mapModel (d : ModelDecl) (m : OpenAPI) : OpenAPI :=
  let '(props, required) := model_fields (md_Fields d) in
  AddSchema (md_Name d) (set_extensions "" "postgres" (set_Description (md_Description d) (set_Properties props required (typed "object" "")))) m.

(** ** Authentication *)
Definition config_text (k : string) (a : AuthDecl) : option string :=
  match auth_Config a !! k with Some (StringLiteral _ s) => Some s | _ => None end.
Definition mapOAuth2Flows (a : AuthDecl) : OAuthFlows :=
  let authURL := default "" (config_text "authorization_url" a) in
  let tokenURL := default "" (config_text "token_url" a) in
  if negb (String.eqb authURL "") && negb (String.eqb tokenURL "") then mkOAuthFlows None (Some (mkOAuthFlow authURL tokenURL ∅))
  else if negb (String.eqb tokenURL "") then mkOAuthFlows (Some (mkOAuthFlow "" tokenURL ∅)) None
  else mkOAuthFlows None None.
Definition auth_scheme (a : AuthDecl) : SecurityScheme :=
  let description := auth_Name a ++ " authentication" in
  if String.eqb (Method a) "jwt" then
    mkSecurityScheme "" "http" (match JWKS a with Some j => "JWT authentication (JWKS: " ++ URL j ++ ")" | None => description end)
      "" "" "bearer" "JWT" None ""
  else if String.eqb (Method a) "oauth2" then mkSecurityScheme "" "oauth2" description "" "" "" "" (Some (mapOAuth2Flows a)) ""
  else if String.eqb (Method a) "apikey" then
    mkSecurityScheme "" "apiKey" description (default "X-API-Key" (config_text "header" a)) "header" "" "" None ""
  else if String.eqb (Method a) "basic" then mkSecurityScheme "" "http" description "" "" "basic" "" None ""
  else mkSecurityScheme "" "" description "" "" "" "" None "".
Definition mapAuth (a : AuthDecl) (m : OpenAPI) : OpenAPI := AddSecurityScheme (auth_Name a) (auth_scheme a) m.

(** ** Endpoints *)
Definition add_parameters (ps : list ApiParameter) (op : Operation) : Operation :=
  mkOperation (op_Tags op) (op_Summary op) (op_Description op) (op_OperationID op) (op_Parameters op ++ ps)%list (op_RequestBody op)
    (op_Responses op) (op_Deprecated op) (op_Security op) (op_XCodeAIHandler op) (op_XCodeAIMiddleware op) (op_XCodeAISource op).
Definition set_RequestBody (b : RequestBody) (op : Operation) : Operation :=
  mkOperation (op_Tags op) (op_Summary op) (op_Description op) (op_OperationID op) (op_Parameters op) (Some b)
    (op_Responses op) (op_Deprecated op) (op_Security op) (op_XCodeAIHandler op) (op_XCodeAIMiddleware op) (op_XCodeAISource op).
Definition set_response (code : string) (r : Response) (op : Operation) : Operation :=
  mkOperation (op_Tags op) (op_Summary op) (op_Description op) (op_OperationID op) (op_Parameters op) (op_RequestBody op)
    (<[code := r]> (op_Responses op)) (op_Deprecated op) (op_Security op) (op_XCodeAIHandler op) (op_XCodeAIMiddleware op) (op_XCodeAISource op).
(** What annotations change: tags, summary, description, deprecation, security. *)
Definition annotate (tags : list string) (summary description : string) (deprecated : bool) (security : list SecurityRequirement)
    (op : Operation) : Operation :=
  mkOperation tags summary description (op_OperationID op) (op_Parameters op) (op_RequestBody op) (op_Responses op) deprecated security
    (op_XCodeAIHandler op) (op_XCodeAIMiddleware op) (op_XCodeAISource op).

Definition json_content (typeName : string) : gmap string MediaType := {["application/json" := mkMediaType (Some (GenerateRef typeName))]}.
Definition mapRequest (op : Operation) (req : RequestType) (path : string) : Operation :=
  if String.eqb (rq_Source req) "path" then
    add_parameters (map (fun n => mkApiParameter "" n "path" "" true (Some (typed "string" ""))) (extractPathParamsFromPath path)) op
  else if String.eqb (rq_Source req) "query" then
    add_parameters [mkApiParameter "" "query" "query" "" false (Some (GenerateRef (rq_TypeName req)))] op
  else if String.eqb (rq_Source req) "body" then set_RequestBody (mkRequestBody "" (json_content (rq_TypeName req)) true) op
  else if String.eqb (rq_Source req) "header" then
    add_parameters [mkApiParameter "" (rq_TypeName req) "header" "" false (Some (typed "string" ""))] op
  else op.
Definition mapResponse (op : Operation) (resp : ResponseType) : Operation :=
  set_response (Itoa (StatusCode resp))
    (mkResponse "" (getStatusDescription (StatusCode resp))
       (if negb (String.eqb (rs_TypeName resp) "") then json_content (rs_TypeName resp) else ∅)) op.
Definition mapHandler (op : Operation) (h : Handler) (path : string) : Operation :=
  let op := match h_Request h with Some req => mapRequest op req path | None => op end in
  match h_Response h with Some resp => mapResponse op resp | None => op end.
Definition applyAnnotation (op : Operation) (a : Annotation) : Operation :=
  let n := Lower (an_Name a) in
  let '(tags, summary, description, deprecated, security) := (op_Tags op, op_Summary op, op_Description op, op_Deprecated op, op_Security op) in
  if String.eqb n "deprecated" then annotate tags summary description true security op
  else if String.eqb n "auth" then
    (if negb (String.eqb (an_Value a) "")
     then annotate tags summary description deprecated (security ++ [{[an_Value a := []]}])%list op else op)
  else if String.eqb n "summary" then annotate tags (an_Value a) description deprecated security op
  else if String.eqb n "description" then annotate tags summary (an_Value a) deprecated security op
  else if one_of ["tag"; "tags"] n then annotate (tags ++ [an_Value a])%list summary description deprecated security op
  else op.

(** A response that is added if its code has none. *)
Definition default_response (code description : string) (op : Operation) : Operation :=
  match op_Responses op !! code with Some _ => op | None => set_response code (mkResponse "" description ∅) op end.
Definition endpoint_operation (ep : EndpointDecl) : Operation :=
  let op := mkOperation (extractTagsFromPath (ep_Path ep)) (generateEndpointSummary (ep_Method ep) (ep_Path ep)) ""
    (generateEndpointOperationID (ep_Method ep) (ep_Path ep)) [] None ∅ false [] "" (map mr_Name (ep_Middlewares ep))
    (Position_String (ep_pos ep)) in
  let op := fold_left applyAnnotation (ep_Annotations ep) op in
  let op := match ep_Handler ep with Some h => mapHandler op h (ep_Path ep) | None => op end in
  let op := if Nat.eqb (size (op_Responses op)) 0 then set_response "200" (mkResponse "" "Success" ∅) op else op in
  default_response "500" "Internal Server Error" (default_response "401" "Unauthorized" (default_response "400" "Bad Request" op)).
Definition mapEndpoint (ep : EndpointDecl) (m : OpenAPI) : OpenAPI :=
  let path := convertPathParams (ep_Path ep) in
  let op := endpoint_operation ep in
  let pathItem := default no_operations (oa_Paths m !! path) in
  let pathItem := if one_of ["GET"; "POST"; "PUT"; "DELETE"; "PATCH"] (ep_Method ep) then set_operation (ep_Method ep) op pathItem else pathItem in
  set_Paths (<[path := pathItem]> (oa_Paths m)) m.

(** ** Programs *)
Definition AddRoute (method path : string) (op : Operation) (m : OpenAPI) : OpenAPI := put_operation (Upper method) path op m.
Definition mapStatement (s : Statement) (m : OpenAPI) : OpenAPI :=
  match s with
  | FunctionDecl pos name params _ => mapFunction pos name params m
  | Collection c => mapCollection c m
  | Endpoint ep => mapEndpoint ep m
  | Model d => mapModel d m
  | Auth a => mapAuth a m
  | _ => m
  end.
Definition MapProgram (p : Program_) (m : OpenAPI) : OpenAPI := fold_left (fun m s => mapStatement s m) (Statements p) m.
End Mapper.

(** * Names of handlers *)

Lemma HasPrefix_both s a b : HasPrefix s a = true -> HasPrefix s b = true -> HasPrefix a b = true \/ HasPrefix b a = true.
Proof.
  revert s b. induction a as [|c a IH]; intros s b; [by right; destruct b|]. destruct b as [|d b]; [by left; destruct a|].
  destruct s as [|e s]; cbn; [done|]. destruct (ascii_eqb_spec c e) as [->|]; [|done]. destruct (ascii_eqb_spec d e) as [->|]; [|done]. rewrite Ascii.eqb_refl. apply IH.
Qed.

(** At most one entry satisfies [p]. *)
Definition at_most_one {A} (p : A -> bool) (l : list A) : Prop := forall x y, x ∈ l -> y ∈ l -> p x = true -> p y = true -> x = y.
Lemma find_perm {A} (p : A -> bool) l l' : at_most_one p l -> l ≡ₚ l' -> find p l = find p l'.
Proof.
  intros H Hl. destruct (find p l) as [x|] eqn:E; destruct (find p l') as [y|] eqn:E'; [| | |done].
  - apply find_some in E as [Hx Px], E' as [Hy Py]. f_equal. apply H; [by apply list_elem_of_In| |done|done]. rewrite Hl. by apply list_elem_of_In.
  - apply find_some in E as [Hx Px]. assert (In x l') as Hx' by (apply list_elem_of_In; rewrite <- Hl; by apply list_elem_of_In). by rewrite (find_none _ _ E' x Hx') in Px.
  - apply find_some in E' as [Hy Py]. assert (In y l) as Hy' by (apply list_elem_of_In; rewrite Hl; by apply list_elem_of_In). by rewrite (find_none _ _ E y Hy') in Py.
Qed.

(** No prefix begins another one. *)
Lemma prefixes_apart x y : x ∈ handler_prefixes -> y ∈ handler_prefixes -> HasPrefix x.1 y.1 = true -> x = y.
Proof.
  assert (forallb (fun x => forallb (fun y => negb (HasPrefix x.1 y.1) || (String.eqb x.1 y.1 && String.eqb x.2 y.2)) handler_prefixes)
            handler_prefixes = true) as H by (vm_compute; reflexivity).
  rewrite forallb_forall in H. intros Hx%list_elem_of_In Hy%list_elem_of_In Hp. specialize (H x Hx). rewrite forallb_forall in H.
  specialize (H y Hy). rewrite Hp in H. cbn in H. apply andb_true_iff in H as [H1%String.eqb_eq H2%String.eqb_eq].
  destruct x, y. cbn in *. by subst.
Qed.
(** So the order in which the map is ranged over does not matter. *)
Lemma parse_order `{Unicode} prefixes name : prefixes ≡ₚ handler_prefixes -> parse_handler_name prefixes name = parseHandlerName name.
Proof.
  intros Hp. unfold parseHandlerName, parse_handler_name. rewrite (find_perm _ handler_prefixes prefixes); [done| |done].
  intros x y Hx Hy Px Py. destruct (HasPrefix_both _ _ _ Px Py) as [E|E]; [by apply prefixes_apart|]. symmetry. by apply prefixes_apart.
Qed.

(** * What the mapper builds is well formed *)
Lemma ok_GenerateRef n : schema_ok (GenerateRef n).
Proof. by apply ok_ref. Qed.
#[export] Hint Resolve ok_GenerateRef : schemas.
#[export] Hint Extern 1 (schema_ok (typed _ _)) => (apply ok_typed; [set_solver|discriminate]) : schemas.

Section Valid.
Context `{Unicode}.
Variable int_of_huge : float64 -> Z.

(** [if among l then ...] is well formed if every branch is. *)
Ltac branches := repeat (case_match; [solve [eauto 6 with schemas]|]); eauto 6 with schemas.

Lemma ok_field_named n : schema_ok (field_named n).
Proof. unfold field_named. cbv zeta. branches. Qed.
Lemma ok_mapFieldType t : schema_ok (mapFieldType t).
Proof.
  revert t. fix IH 1. intros [pos name params]. cbn [mapFieldType]. destruct params as [|p params]; [apply ok_field_named|].
  repeat case_match; auto with schemas; apply ok_field_named.
Qed.
Lemma ok_applyFieldModifier s mo : schema_ok s -> schema_ok (applyFieldModifier s mo).
Proof. intros Hs. unfold applyFieldModifier. repeat case_match; auto with schemas. Qed.

Lemma ok_model_fields fs : forall k p, (model_fields fs).1 !! k = Some p -> schema_ok p.
Proof.
  unfold model_fields. set (step := fun '(props, required) f => _).
  assert (forall acc, (forall k p, acc.1 !! k = Some p -> schema_ok p) -> forall k p, (fold_left step fs acc).1 !! k = Some p -> schema_ok p) as Hf.
  { clear. induction fs as [|f fs IH]; intros acc Ha; cbn [fold_left]; [exact Ha|]. apply IH. intros k p. destruct acc as [props required]. cbn in *.
    destruct (decide (fd_Name f = k)) as [->|Hn]; [rewrite lookup_insert_eq|rewrite lookup_insert_ne by done; apply Ha].
    intros [= <-]. assert (schema_ok match fd_Type f with Some t => mapFieldType t | None => typed "object" "" end) as Ht
      by (destruct (fd_Type f); [apply ok_mapFieldType|auto with schemas]).
    revert Ht. generalize (match fd_Type f with Some t => mapFieldType t | None => typed "object" "" end). clear.
    induction (fd_Modifiers f) as [|mo ms IH]; intros s Hs; cbn; [done|]. by apply IH, ok_applyFieldModifier. }
  apply Hf. intros k p Hk. cbn in Hk. by rewrite lookup_empty in Hk.
Qed.

(** Every model becomes a well-formed schema. *)
Lemma ok_mapModel d m : (forall n s, co_Schemas (oa_Components m) !! n = Some s -> schema_ok s) ->
  forall n s, co_Schemas (oa_Components (mapModel d m)) !! n = Some s -> schema_ok s.
Proof.
  intros Hm n s. unfold mapModel. destruct (model_fields (md_Fields d)) as [props required] eqn:E. cbn.
  destruct (decide (md_Name d = n)) as [->|Hn]; [rewrite lookup_insert_eq|rewrite lookup_insert_ne by done; apply Hm].
  intros [= <-]. apply (ok_structure_eq (set_Properties props required (typed "object" ""))); [done|]. apply ok_object.
  intros k p Hk. apply (ok_model_fields (md_Fields d) k). by rewrite E.
Qed.

(** ** Collections *)
(** An array whose elements have a type, which is not itself an array. *)
Definition array_typed (name : string) (params : list string) : Prop :=
  Lower name = "array" -> exists p, head params = Some p /\ Lower p <> "array".
Lemma ok_mongo_scalar n items : n <> "array" -> schema_ok (mongo_named n items).
Proof.
  intros Hn. unfold mongo_named. cbv zeta. destruct (one_of ["array"] n) eqn:E; [apply one_of_spec in E; set_solver|]. branches.
Qed.
Lemma ok_mongo_array i : schema_ok i -> schema_ok (mongo_named "array" (Some i)).
Proof. apply ok_array. Qed.

Fixpoint arrays_typed (t : MongoTypeRef) : Prop :=
  match t with
  | mkMongoTypeRef _ name params doc =>
      match doc with
      | Some d => (fix all fs := match fs with
                                 | [] => True
                                 | f :: fs' => match mf_Type f with Some t => arrays_typed t | None => True end /\ all fs'
                                 end) (ed_Fields d)
      | None => array_typed name params
      end
  end.
Definition field_typed (f : MongoFieldDecl) : Prop := match mf_Type f with Some t => arrays_typed t | None => True end.

Lemma ok_mongo_fields {T} (type : option T -> Schema) (fs : list (MongoFieldOf T)) :
  Forall (fun f => schema_ok (type (mf_Type f))) fs -> forall k p, (mongo_fields type fs).1 !! k = Some p -> schema_ok p.
Proof.
  intros Hf. unfold mongo_fields. set (step := fun '(props, required) f => _).
  assert (forall acc, (forall k p, acc.1 !! k = Some p -> schema_ok p) -> forall k p, (fold_left step fs acc).1 !! k = Some p -> schema_ok p) as Hl.
  { induction Hf as [|f fs Hx _ IH]; intros acc Ha; cbn [fold_left]; [exact Ha|]. apply IH. intros k p. destruct acc as [props required]. cbn in *.
    destruct (decide (mf_Name f = k)) as [->|Hn]; [rewrite lookup_insert_eq|rewrite lookup_insert_ne by done; apply Ha].
    intros [= <-]. case_match; auto with schemas. }
  apply Hl. intros k p Hk. cbn in Hk. by rewrite lookup_empty in Hk.
Qed.
Lemma ok_mapMongoType t : arrays_typed t -> schema_ok (mapMongoType t).
Proof.
  revert t. fix IH 1. intros [pos name params [d|] ]; cbn [mapMongoType arrays_typed].
  - intros Ha. set (type := fun t => match t with Some t => mapMongoType t | None => typed "object" "" end).
    destruct (mongo_fields type (ed_Fields d)) as [props required] eqn:E. apply ok_object. intros k p Hk.
    apply (ok_mongo_fields type (ed_Fields d)) with k; [|by rewrite E]. clear E Hk. destruct d as [dpos fs]. cbn in *.
    induction fs as [|f fs IHf]; constructor; [|by apply IHf, Ha]. destruct f as [fpos fn [t|] fm]; cbn in *; [by apply IH, Ha|auto with schemas].
  - intros Ha. destruct (decide (Lower name = "array")) as [E|]; [|by apply ok_mongo_scalar].
    destruct (Ha E) as (p & Hp & Hn). destruct params as [|q params]; [done|]. injection Hp as ->. rewrite E. by apply ok_mongo_array, ok_mongo_scalar.
Qed.
Definition schemas_ok (m : OpenAPI) : Prop := forall n s, co_Schemas (oa_Components m) !! n = Some s -> schema_ok s.
Lemma ok_mapCollection c m : Forall field_typed (cd_Fields c) -> schemas_ok m -> schemas_ok (mapCollection c m).
Proof.
  intros Hf Hm n s. unfold mapCollection. destruct (mongo_fields map_mongo_type (cd_Fields c)) as [props required] eqn:E. cbn.
  destruct (decide (cd_Name c = n)) as [->|Hn]; [rewrite lookup_insert_eq|rewrite lookup_insert_ne by done; apply Hm].
  intros [= <-]. apply (ok_structure_eq (set_Properties props required (typed "object" ""))); [done|]. apply ok_object. intros k p Hk.
  apply (ok_mongo_fields map_mongo_type (cd_Fields c)) with k; [|by rewrite E]. eapply Forall_impl; [exact Hf|].
  intros [fpos fn [t|] fm]; cbn; [apply ok_mapMongoType|auto with schemas].
Qed.

(** ** Operations *)
Definition paths_ok (m : OpenAPI) : Prop := forall path item, oa_Paths m !! path = Some item -> path_ok path item.

Lemma operations_set method op item x : x ∈ operations (set_operation method op item) -> x.2 = op \/ x ∈ operations item.
Proof.
  unfold operations. rewrite !list_elem_of_omap. intros ([n o] & Hin & Ho). cbn in Ho. destruct o as [o|]; [|done]. injection Ho as <-. cbn [snd].
  assert (o = op \/ (n, Some o) ∈ [("get", pi_Get item); ("put", pi_Put item); ("post", pi_Post item); ("delete", pi_Delete item);
    ("patch", pi_Patch item); ("head", pi_Head item); ("options", pi_Options item)]) as [-> | H']; [|by left|right; by exists (n, Some o)].
  rewrite !elem_of_cons in *. destruct item. unfold set_operation in Hin. repeat (case_match; [cbn in *; naive_solver|]). by right.
Qed.
Lemma ok_put method path op m : HasPrefix path "/" = true -> operation_ok op -> paths_ok m -> paths_ok (put_operation method path op m).
Proof.
  intros Hp Ho Hm q item. unfold put_operation. cbn [oa_Paths set_Paths]. destruct (decide (path = q)) as [->|Hn]; [rewrite lookup_insert_eq|rewrite lookup_insert_ne by done; apply Hm].
  intros [= <-]. constructor; [done|]. intros mt op' [E|Hin]%operations_set; [by cbn in E; subst|].
  destruct (oa_Paths m !! q) as [i|] eqn:E; cbn in Hin; [by eapply Hm|by apply not_elem_of_nil in Hin].
Qed.

Lemma ok_response code d : isValidStatusCode code = true -> d <> "" -> OpenApi.response_ok code (mkResponse "" d ∅).
Proof. intros Hc Hd. right. split; [by right|]. split; [done|]. intros ? ? ? H'. cbn in H'. by rewrite lookup_empty in H'. Qed.
Lemma ok_json n : content_ok (json_content n).
Proof.
  intros k mt s. unfold json_content. destruct (decide (k = "application/json")) as [->|Hn]; [rewrite lookup_singleton_eq|by rewrite lookup_singleton_ne].
  intros [= <-] [= <-]. apply ok_GenerateRef.
Qed.

(** A function is put at a path unless its name is [handle_] and a method. *)
Definition routable (name : string) : Prop := (parseHandlerName name).2 = "" -> (parseHandlerName name).1 = "".
Lemma handler_path_slash name : (parseHandlerName name).2 <> "" -> HasPrefix (parseHandlerName name).2 "/" = true.
Proof.
  unfold parseHandlerName, parse_handler_name. destruct (find _ _) as [[p method]|]; [|done].
  destruct (String.eqb p "handle"); [|intros _; apply (HasPrefix_app "/")].
  destruct (SplitN "_" 3 name) as [|? [|? [|? ?]]]; [done..|]. intros _. apply (HasPrefix_app "/").
Qed.
Lemma ok_mapFunction pos name params m : routable name -> Forall (fun p => par_Name p <> "") params -> paths_ok m ->
  paths_ok (mapFunction int_of_huge pos name params m).
Proof.
  intros Hr Hps Hm. unfold mapFunction, routable in *. pose proof (handler_path_slash name) as Hs. destruct (parseHandlerName name) as [method path]. cbn in *.
  destruct (String.eqb_spec method ""); [done|]. apply ok_put; [by apply Hs; intros ->; apply n, Hr| |done].
  constructor; cbn [op_Responses op_Parameters op_RequestBody].
  - apply insert_non_empty.
  - apply Forall_forall. intros p (q & -> & Hq)%list_elem_of_fmap. rewrite Forall_forall in Hps. right. cbn.
    split; [by apply Hps|]. destruct (Contains _ _); cbn; (split; [set_solver|done]).
  - done.
  - intros code r. rewrite !lookup_insert_Some, lookup_singleton_Some.
    intros [[<- <-] | [_ [[<- <-] | [_ [<- <-]]]]]; by apply ok_response.
Qed.

(** ** Endpoints *)
Record operation_parts (op : Operation) : Prop := {
  part_parameters : Forall parameter_ok (op_Parameters op);
  part_body : forall b, op_RequestBody op = Some b -> OpenApi.request_ok b;
  part_responses : forall code r, op_Responses op !! code = Some r -> OpenApi.response_ok code r }.

Lemma parts_annotate t sm d dp sc op : operation_parts op -> operation_parts (annotate t sm d dp sc op).
Proof. by intros []. Qed.
Lemma parts_annotation op a : operation_parts op -> operation_parts (applyAnnotation op a).
Proof. intros Hop. unfold applyAnnotation. repeat case_match; auto using parts_annotate. Qed.
Lemma parts_add ps op : Forall parameter_ok ps -> operation_parts op -> operation_parts (add_parameters ps op).
Proof. intros Hps [H1 H2 H3]. constructor; [by apply Forall_app|exact H2|exact H3]. Qed.
Lemma parts_response code r op : OpenApi.response_ok code r -> operation_parts op -> operation_parts (set_response code r op).
Proof.
  intros Hr [H1 H2 H3]. constructor; [exact H1|exact H2|]. intros c r'. cbn. rewrite lookup_insert_Some. intros [[<- <-] | [_ E]]; [done|by apply H3].
Qed.

Lemma valid_code n : 100 <= n <= 599 -> isValidStatusCode (Itoa n) = true.
Proof.
  assert (forallb (fun k => isValidStatusCode (Itoa (Z.of_nat k))) (seq 100 500) = true) as Ha by (vm_compute; reflexivity).
  intros Hn. rewrite forallb_forall in Ha. rewrite <- (Z2Nat.id n) by lia. apply Ha, in_seq. lia.
Qed.
Lemma description_some n : getStatusDescription n <> "".
Proof.
  unfold getStatusDescription. destruct (find _ _) as [[c d]|] eqn:E; [|done]. apply find_some in E as [Hin _]. cbn in Hin.
  repeat (destruct Hin as [[= <- <-] | Hin]; [done|]). done.
Qed.

(** What the mapper needs of an endpoint. *)
Record documentable (ep : EndpointDecl) : Prop := {
  doc_slash : HasPrefix (ep_Path ep) "/" = true;
  doc_params : forall h r, ep_Handler ep = Some h -> h_Request h = Some r -> rq_Source r = "path" -> "" ∉ extractPathParamsFromPath (ep_Path ep);
  doc_header : forall h r, ep_Handler ep = Some h -> h_Request h = Some r -> rq_Source r = "header" -> rq_TypeName r <> "";
  doc_status : forall h r, ep_Handler ep = Some h -> h_Response h = Some r -> 100 <= StatusCode r <= 599 }.

Lemma parts_request op req path : (rq_Source req = "path" -> "" ∉ extractPathParamsFromPath path) ->
  (rq_Source req = "header" -> rq_TypeName req <> "") -> operation_parts op -> operation_parts (mapRequest op req path).
Proof.
  intros Hp Hh Hop. unfold mapRequest.
  destruct (String.eqb_spec (rq_Source req) "path") as [E|_].
  { apply parts_add; [|done]. apply Forall_forall. intros x (n & -> & Hn)%list_elem_of_fmap. right. split; [|split; [set_solver|done]].
    cbn. intros ->. by destruct (Hp E). }
  destruct (String.eqb (rq_Source req) "query").
  { apply parts_add; [|done]. apply Forall_singleton. right. split; [done|]. split; [set_solver|done]. }
  destruct (String.eqb (rq_Source req) "body").
  { destruct Hop as [H1 H2 H3]. constructor; [exact H1| |exact H3]. intros b [= <-]. right. split; [|apply ok_json]. apply map_non_empty_singleton. }
  destruct (String.eqb_spec (rq_Source req) "header") as [E|_]; [|done].
  apply parts_add; [|done]. apply Forall_singleton. right. split; [by apply Hh|]. split; [set_solver|done].
Qed.

Lemma endpoint_parts ep : documentable ep -> operation_parts (endpoint_operation ep) /\ op_Responses (endpoint_operation ep) <> ∅.
Proof.
  intros [_ Hp Hh Hs]. unfold endpoint_operation. set (op0 := mkOperation _ _ _ _ _ _ _ _ _ _ _ _).
  assert (operation_parts op0) as H0. { constructor; [constructor|done|]. intros code r E. cbn in E. by rewrite lookup_empty in E. }
  set (op1 := fold_left applyAnnotation (ep_Annotations ep) op0).
  assert (operation_parts op1) as H1.
  { subst op1. revert H0. generalize op0. clear. induction (ep_Annotations ep) as [|a l IH]; intros op Hop; cbn; [done|]. by apply IH, parts_annotation. }
  set (op2 := match ep_Handler ep with Some h => mapHandler op1 h (ep_Path ep) | None => op1 end).
  assert (operation_parts op2) as H2.
  { subst op2. destruct (ep_Handler ep) as [h|]; [|done]. unfold mapHandler.
    assert (operation_parts match h_Request h with Some req => mapRequest op1 req (ep_Path ep) | None => op1 end) as Hr.
    { destruct (h_Request h) as [r|] eqn:E; [|done]. apply parts_request; [|eauto|done]. eauto. }
    destruct (h_Response h) as [r|] eqn:E; [|done]. apply parts_response; [|done]. right. split; [right; apply valid_code; eauto|].
    split; [apply description_some|]. cbn. destruct (negb _); [apply ok_json|]. intros ? ? ? H'. by rewrite lookup_empty in H'. }
  set (op3 := if Nat.eqb (size (op_Responses op2)) 0 then _ else _).
  assert (operation_parts op3) as H3. { subst op3. destruct (Nat.eqb _ _); [|done]. apply parts_response; [by apply ok_response|done]. }
  assert (forall code d op, isValidStatusCode code = true -> d <> "" -> operation_parts op -> operation_parts (default_response code d op)) as Hd.
  { intros code d op Hc Hn Hop. unfold default_response. destruct (_ !! code); [done|]. apply parts_response; [by apply ok_response|done]. }
  split; [by repeat apply Hd|]. unfold default_response at 1.
  destruct (_ !! "500") eqn:E; [intros E'; by rewrite E', lookup_empty in E|]. cbn. apply insert_non_empty.
Qed.

Lemma convert_slash path : HasPrefix path "/" = true -> HasPrefix (convertPathParams path) "/" = true.
Proof.
  intros [p ->]%HasPrefix_spec. unfold convertPathParams. change ("/" ++ p) with ("" ++ String "/" p). rewrite Split_at by done. cbn [map].
  destruct (Split "/" p) as [|q l] eqn:E; [pose proof (Split_length "/" p) as Hl; by rewrite E in Hl|]. cbn [map].
  rewrite Join_cons_2. apply (HasPrefix_app "/").
Qed.
Lemma ok_mapEndpoint ep m : documentable ep -> paths_ok m -> paths_ok (mapEndpoint ep m).
Proof.
  intros Hd Hm. destruct (endpoint_parts ep Hd) as [[H1 H2 H3] H4].
  pose proof (convert_slash _ (doc_slash _ Hd)) as Hs.
  destruct (one_of ["GET"; "POST"; "PUT"; "DELETE"; "PATCH"] (ep_Method ep)) eqn:E.
  - assert (mapEndpoint ep m = put_operation (ep_Method ep) (convertPathParams (ep_Path ep)) (endpoint_operation ep) m) as ->
      by (unfold mapEndpoint; cbv zeta; by rewrite E).
    by apply ok_put.
  - unfold mapEndpoint. rewrite E. intros q item. cbn [oa_Paths set_Paths].
    destruct (decide (convertPathParams (ep_Path ep) = q)) as [<-|Hn]; [rewrite lookup_insert_eq|rewrite lookup_insert_ne by done; apply Hm].
    intros [= <-]. destruct (oa_Paths m !! convertPathParams (ep_Path ep)) as [i|] eqn:Eq; [by apply Hm|].
    constructor; [exact Hs|]. intros mt op Hin. by apply not_elem_of_nil in Hin.
Qed.

(** ** Security schemes *)
Definition schemes_ok (m : OpenAPI) : Prop := forall n s, co_SecuritySchemes (oa_Components m) !! n = Some s -> scheme_ok s.
Definition auth_ok (a : AuthDecl) : Prop :=
  Method a ∈ ["jwt"; "oauth2"; "apikey"; "basic"] /\ (Method a = "apikey" -> config_text "header" a <> Some "").
Lemma ok_mapAuth a m : auth_ok a -> schemes_ok m -> schemes_ok (mapAuth a m).
Proof.
  intros [Ha Hk] Hm n s. cbn. destruct (decide (auth_Name a = n)) as [->|Hn]; [rewrite lookup_insert_eq|rewrite lookup_insert_ne by done; apply Hm].
  intros [= <-]. unfold auth_scheme, scheme_ok. rewrite !elem_of_cons in Ha.
  destruct Ha as [-> | [-> | [E | [-> | []%not_elem_of_nil] ] ] ]; cbn; try naive_solver.
  rewrite E. cbn. right. left. split; [done|]. split; [|set_solver]. specialize (Hk E). destruct (config_text "header" a); cbn; congruence.
Qed.
End Valid.
