(* ===== verification/OpenApiDocument.v ===== *)
(** OpenAPI documents of programs: [internal/openapi/generator.go], and what they
    say of the application.  [OpenApiMapper] builds a document, [OpenApi] validates
    it, [EndpointValidator] accepts the endpoints it describes.

    A generator keeps its document: the pointer it returns is to that document,
    which later calls change. *)

From Stdlib Require Import ZArith Lia Ascii.
From stdpp Require Import base strings list gmap.
From S2P Require Import Prelude GoStrings GoText DslAst OpenApi OpenApiMapper.
From S2P Require EndpointValidator EndpointRoutes Generator EndpointParser DslParser.

#[local] Open Scope string_scope.

Record DocGenerator := mkDocGenerator { gen_config : OpenApi.Config; gen_spec : OpenAPI }.
Definition NewGenerator (c : option OpenApi.Config) : DocGenerator := mkDocGenerator (default DefaultConfig c) NewMapper.

Definition set_config (i : Info) (sv : list Server) (sec : list SecurityRequirement) (m : OpenAPI) : OpenAPI :=
  mkOpenAPI (oa_OpenAPI m) i sv (oa_Paths m) (oa_Components m) sec (oa_Tags m).
Definition applyConfig (c : OpenApi.Config) (spec : OpenAPI) : OpenAPI :=
  set_config (ToInfo c) (ToServers c) (oa_Security spec ++ map (fun n => {[n := []]}) (cf_DefaultSecurity c))%list spec.

Fixpoint tags_of (paths : list string) (tagMap : gset string) : list Tag :=
  match paths with
  | [] => []
  | path :: paths' =>
      match Split "/" (Trim path "/") with
      | tagName :: _ =>
          if negb (String.eqb tagName "") && negb (bool_decide (tagName ∈ tagMap))
          then mkTag tagName ("Operations for " ++ tagName) :: tags_of paths' ({[tagName]} ∪ tagMap)
          else tags_of paths' tagMap
      | [] => tags_of paths' tagMap
      end
  end.
Definition generateTags (spec : OpenAPI) : OpenAPI := set_Tags (oa_Tags spec ++ tags_of (map fst (map_to_list (oa_Paths spec))) ∅)%list spec.

(** ** Merging: what the first document has stays *)
Definition or_else {A} (a b : option A) : option A := match a with Some _ => a | None => b end.
Definition merge_items (existing item : PathItem) : PathItem :=
  mkPathItem (pi_Ref existing) (or_else (pi_Get existing) (pi_Get item)) (or_else (pi_Put existing) (pi_Put item))
    (or_else (pi_Post existing) (pi_Post item)) (or_else (pi_Delete existing) (pi_Delete item)) (pi_Options existing) (pi_Head existing)
    (or_else (pi_Patch existing) (pi_Patch item)).
Definition merge_paths (base addition : gmap string PathItem) : gmap string PathItem :=
  map_fold (fun path item paths => <[path := match paths !! path with Some existing => merge_items existing item | None => item end]> paths) base addition.
Definition merge_missing {A} (base addition : gmap string A) : gmap string A :=
  map_fold (fun name x m => match m !! name with Some _ => m | None => <[name := x]> m end) base addition.
Definition Merge (base addition : option OpenAPI) : option OpenAPI :=
  match base, addition with
  | None, _ => addition
  | _, None => base
  | Some b, Some a =>
      Some (mkOpenAPI (oa_OpenAPI b) (oa_Info b) (oa_Servers b) (merge_paths (oa_Paths b) (oa_Paths a))
        (mkComponents (merge_missing (co_Schemas (oa_Components b)) (co_Schemas (oa_Components a)))
           (merge_missing (co_SecuritySchemes (oa_Components b)) (co_SecuritySchemes (oa_Components a))))
        (oa_Security b)
        (oa_Tags b ++ List.filter (fun t => negb (existsb (fun t' => String.eqb (tg_Name t') (tg_Name t)) (oa_Tags b))) (oa_Tags a))%list)
  end.

Section Document.
Context `{Unicode}.
Variable int_of_huge : float64 -> Z.

Definition GenerateFromAST (g : DocGenerator) (p : Program_) : DocGenerator :=
  let spec := applyConfig (gen_config g) (MapProgram int_of_huge p (gen_spec g)) in
  mkDocGenerator (gen_config g) (match oa_Tags spec with [] => generateTags spec | _ => spec end).
Definition GenerateFromSource (program_grammar : string -> result string DslParser.pProgram)
    (endpoint_grammar : string -> result string EndpointParser.pEndpointFile) (g : DocGenerator) (source : string) : DocGenerator * result string OpenAPI :=
  match DslParser.Parse program_grammar endpoint_grammar source with
  | Err e => (g, Err ("failed to parse source: " ++ e))
  | Ok p => let g := GenerateFromAST g p in (g, Ok (gen_spec g))
  end.

Definition with_spec (f : OpenAPI -> OpenAPI) (g : DocGenerator) : DocGenerator := mkDocGenerator (gen_config g) (f (gen_spec g)).
Definition generateOperationID (method path : string) : string :=
  Lower method ++ Join (map (fun part => if HasPrefix part "{" then "ById" else Title part) (Split "/" (Trim path "/"))) "".
Definition route_operation (method path summary description : string) : Operation :=
  mkOperation [] summary description (generateOperationID method path) [] None {["200" := mkResponse "" "Success" ∅]} false [] "" [] "".
(** The operation that is added is returned too. *)
Definition Generator_AddRoute (method path summary description : string) (g : DocGenerator) : DocGenerator * Operation :=
  let op := route_operation method path summary description in (with_spec (AddRoute method path op) g, op).
Definition AddBearerAuth (name : string) : DocGenerator -> DocGenerator :=
  with_spec (AddSecurityScheme name (mkSecurityScheme "" "http" "" "" "" "bearer" "JWT" None "")).
Definition AddAPIKeyAuth (name headerName : string) : DocGenerator -> DocGenerator :=
  with_spec (AddSecurityScheme name (mkSecurityScheme "" "apiKey" "" headerName "header" "" "" None "")).
Definition Generator_AddTag (name description : string) : DocGenerator -> DocGenerator := with_spec (AddTag (mkTag name description)).
(** Applies the configuration to the document once more. *)
Definition GetSpec (g : DocGenerator) : DocGenerator := with_spec (applyConfig (gen_config g)) g.

(** * Valid documents *)

(** What the mapper needs of a statement. *)
Definition statement_ok (s : Statement) : Prop :=
  match s with
  | FunctionDecl _ name params _ => routable name /\ Forall (fun p => par_Name p <> "") params
  | Collection c => Forall field_typed (cd_Fields c)
  | Endpoint ep => documentable ep
  | Auth a => auth_ok a
  | _ => True
  end.
Record spec_ok (m : OpenAPI) : Prop := {
  so_paths : paths_ok m; so_schemas : schemas_ok m; so_schemes : schemes_ok m }.

Lemma ok_paths_only m m' : oa_Paths m' = oa_Paths m -> paths_ok m -> paths_ok m'.
Proof. unfold paths_ok. by intros ->. Qed.
Lemma mapFunction_components pos n ps m : oa_Components (mapFunction int_of_huge pos n ps m) = oa_Components m.
Proof. unfold mapFunction. destruct (parseHandlerName n) as [method path]. by destruct (String.eqb method ""). Qed.
Lemma ok_mapStatement s m : statement_ok s -> spec_ok m -> spec_ok (mapStatement int_of_huge s m).
Proof.
  intros Hs [H1 H2 H3]. destruct s; cbn [mapStatement statement_ok] in *; try by constructor.
  - destruct Hs. constructor; [by apply ok_mapFunction| |]; unfold schemas_ok, schemes_ok; by rewrite mapFunction_components.
  - constructor; [|exact (ok_mapModel d m H2)|]; unfold mapModel; by destruct (model_fields _).
  - constructor; [|by apply ok_mapCollection|]; unfold mapCollection; by destruct (mongo_fields _ _).
  - constructor; [done|done|by apply ok_mapAuth].
  - constructor; [by apply ok_mapEndpoint|done|done].
Qed.
Lemma ok_MapProgram l : Forall statement_ok l -> forall m, spec_ok m -> spec_ok (fold_left (fun m s => mapStatement int_of_huge s m) l m).
Proof. induction 1 as [|s l Hs _ IH]; intros m Hm; cbn; [done|]. by apply IH, ok_mapStatement. Qed.

(** The mapper changes only paths, components and nothing else. *)
Definition rest (m : OpenAPI) := (oa_OpenAPI m, oa_Info m, oa_Servers m, oa_Security m, oa_Tags m).
Lemma mapStatement_rest s m : rest (mapStatement int_of_huge s m) = rest m.
Proof.
  destruct s; try done; cbn [mapStatement].
  - unfold mapFunction. destruct (parseHandlerName _) as [method path]. by destruct (String.eqb method "").
  - unfold mapModel. by destruct (model_fields _).
  - unfold mapCollection. by destruct (mongo_fields _ _).
Qed.
Lemma MapProgram_rest l : forall m, rest (fold_left (fun m s => mapStatement int_of_huge s m) l m) = rest m.
Proof. induction l as [|s l IH]; intros m; cbn; [done|]. by rewrite IH, mapStatement_rest. Qed.

(** Schemes are never removed, and every declaration adds one. *)
Lemma mapStatement_schemes s m n : is_Some (co_SecuritySchemes (oa_Components m) !! n) ->
  is_Some (co_SecuritySchemes (oa_Components (mapStatement int_of_huge s m)) !! n).
Proof.
  intros Hn. destruct s; try done; cbn [mapStatement].
  - by rewrite mapFunction_components.
  - unfold mapModel. by destruct (model_fields _).
  - unfold mapCollection. by destruct (mongo_fields _ _).
  - cbn. rewrite lookup_insert_is_Some. destruct (decide (auth_Name d = n)); auto.
Qed.
Lemma MapProgram_schemes l n : forall m,
  is_Some (co_SecuritySchemes (oa_Components m) !! n) \/ (exists a, Auth a ∈ l /\ auth_Name a = n) ->
  is_Some (co_SecuritySchemes (oa_Components (fold_left (fun m s => mapStatement int_of_huge s m) l m)) !! n).
Proof.
  induction l as [|s l IH]; intros m [Hm | (a & Ha & En)]; cbn; [done|by apply not_elem_of_nil in Ha| |]; apply IH.
  - left. by apply mapStatement_schemes.
  - apply elem_of_cons in Ha as [<- | Ha]; [left|right; by exists a]. cbn. rewrite En, lookup_insert_eq. by eexists.
Qed.

Lemma tags_named paths : forall seen, Forall (fun t => tg_Name t <> "") (tags_of paths seen).
Proof.
  induction paths as [|path paths IH]; intros seen; cbn; [constructor|]. destruct (Split "/" (Trim path "/")) as [|p ?]; [apply IH|].
  destruct (String.eqb_spec p ""); cbn; [apply IH|]. case_match; [by constructor|apply IH].
Qed.

(** The default security schemes are declared. *)
Definition security_declared (c : OpenApi.Config) (p : Program_) : Prop :=
  forall n, n ∈ cf_DefaultSecurity c -> exists a, Auth a ∈ Statements p /\ auth_Name a = n.

Lemma generate_valid c p : Config_Validate c = None -> Forall statement_ok (Statements p) -> security_declared c p ->
  document_ok (gen_spec (GenerateFromAST (NewGenerator (Some c)) p)).
Proof.
  intros Hc Hp Hsec. unfold GenerateFromAST. cbn [gen_config gen_spec NewGenerator default]. unfold MapProgram.
  assert (spec_ok NewMapper) as H0.
  { constructor; intros k x E; cbn in E; by rewrite lookup_empty in E. }
  pose proof (ok_MapProgram _ Hp NewMapper H0) as [H1 H2 H3]. pose proof (MapProgram_rest (Statements p) NewMapper) as Hr.
  pose proof (fun n => MapProgram_schemes (Statements p) n NewMapper) as Hs.
  set (m := fold_left _ (Statements p) NewMapper) in *. injection Hr as Hv Hi Hsv Hse Ht.
  unfold Config_Validate in Hc. destruct (String.eqb_spec (cf_Title c) ""); [done|]. destruct (String.eqb_spec (cf_Version c) ""); [done|].
  assert (forall tags, Forall (fun t => tg_Name t <> "") tags -> document_ok (set_Tags tags (applyConfig c m))) as Hd.
  { intros tags Htags. constructor; cbn; try done.
    - rewrite Hv. set_solver.
    - intros l. destruct (String.eqb_spec (cf_LicenseName c) ""); cbn; [done|]. by intros [= <-].
    - intros req n' Hreq Hn. rewrite Hse in Hreq. apply list_elem_of_fmap in Hreq as (sn & -> & Hin).
      destruct Hn as [x [<- _]%lookup_singleton_Some]. apply Hs. right. by apply Hsec. }
  cbn [applyConfig set_config oa_Tags]. rewrite Ht. apply Hd. cbn [applyConfig set_config oa_Tags]. rewrite Ht. apply tags_named.
Qed.

(** The document that is generated for a program is valid, strictly or not, if
    the configuration is and declares its default security in the program, and:
    functions that are read as handlers are given a path and name their
    parameters, arrays of collections have a type of elements, providers have a
    known method, and endpoints have a path that starts with a slash, parameters
    and headers with a name, and a status code. *)
Theorem document_valid strict c p (Hc : Config_Validate c = None) (Hp : Forall statement_ok (Statements p)) (Hs : security_declared c p) :
  Valid (Validate strict (gen_spec (GenerateFromAST (NewGenerator (Some c)) p))) = true.
Proof. apply Validate_decides_iff. by apply generate_valid. Qed.
End Document.

(** * Paths of documents *)
Lemma Split_forall p sep s : str_forall p s = true -> Forall (fun q => str_forall p q = true) (Split sep s).
Proof.
  induction s as [|c s IH]; cbn; [by repeat constructor|]. intros [Hc Hs]%andb_true_iff. specialize (IH Hs).
  destruct (Ascii.eqb c sep); [by constructor|]. destruct (Split sep s) as [|q l]; [repeat constructor; cbn; by rewrite Hc|].
  apply Forall_cons_1 in IH as [Hq Hl]. constructor; [cbn; by rewrite Hc|done].
Qed.
Lemma Split_parts sep s : Forall (fun q => count_byte sep q = 0) (Split sep s).
Proof.
  induction s as [|c s IH]; cbn; [by repeat constructor|]. destruct (ascii_eqb_spec c sep) as [->|Hc]; [by constructor|].
  apply Ascii.eqb_neq in Hc. destruct (Split sep s) as [|q l]; [repeat constructor; cbn; by rewrite Hc|].
  apply Forall_cons_1 in IH as [Hq Hl]. constructor; [cbn; by rewrite Hc|done].
Qed.
Lemma Split_nonempty sep s : Split sep s <> [].
Proof. intros E. pose proof (Split_length sep s) as H. by rewrite E in H. Qed.

Definition convert_part (part : string) : string := if HasPrefix part ":" then "{" ++ TrimPrefix part ":" ++ "}" else part.
Lemma convert_parts path : convertPathParams path = Join (map convert_part (Split "/" path)) "/".
Proof. done. Qed.
Lemma convert_colon p : convert_part (String ":" p) = "{" ++ p ++ "}".
Proof. unfold convert_part. change (String ":" p) with (":" ++ p). by rewrite HasPrefix_app, TrimPrefix_app. Qed.
Lemma convert_other c p : c <> ":"%char -> convert_part (String c p) = String c p.
Proof. intros Hc. unfold convert_part. cbn [HasPrefix]. destruct (ascii_eqb_spec ":" c); [congruence|done]. Qed.

Lemma convert_part_inj p q : str_forall EndpointRoutes.no_brace p = true -> str_forall EndpointRoutes.no_brace q = true ->
  convert_part p = convert_part q -> p = q.
Proof.
  assert (forall c p, str_forall EndpointRoutes.no_brace (String c p) = true -> c <> "{"%char) as Hb.
  { intros c r. cbn. intros [H _]%andb_true_iff. by apply EndpointRoutes.no_brace_ne in H as [? _]. }
  destruct p as [|c p], q as [|d q]; intros Hp Hq; [done|..].
  - destruct (decide (d = ":"%char)) as [->|]; [by rewrite convert_colon|by rewrite convert_other].
  - destruct (decide (c = ":"%char)) as [->|]; [by rewrite convert_colon|by rewrite convert_other].
  - destruct (decide (c = ":"%char)) as [->|Hc], (decide (d = ":"%char)) as [->|Hd];
      rewrite ?convert_colon, ?(convert_other c), ?(convert_other d) by done; [|intros [= E _]|intros [= E _]|done].
    + intros [= E]. f_equal. revert q E Hp Hq. clear. induction p as [|c p IH]; intros [|d q] E Hp Hq; [done|..].
      * cbn in E. injection E as -> E. by destruct q.
      * cbn in E. injection E as -> E. by destruct p.
      * cbn in E. injection E as -> E. f_equal. cbn in Hp, Hq. by apply IH; [|destruct (EndpointRoutes.no_brace d)|destruct (EndpointRoutes.no_brace d)].
    + by destruct (Hb _ _ Hq).
    + by destruct (Hb _ _ Hp).
Qed.
Lemma convert_part_slash p : count_byte "/" p = 0 -> count_byte "/" (convert_part p) = 0.
Proof.
  destruct p as [|c p]; [done|]. destruct (decide (c = ":"%char)) as [->|]; [rewrite convert_colon|by rewrite convert_other].
  rewrite !count_byte_app. cbn. lia.
Qed.
(** Paths without braces are documented under different paths. *)
Lemma convertPathParams_inj p q : EndpointRoutes.braceless p -> EndpointRoutes.braceless q -> convertPathParams p = convertPathParams q -> p = q.
Proof.
  intros Hp%(Split_forall _ "/") Hq%(Split_forall _ "/") E. rewrite !convert_parts in E. apply (f_equal (Split "/")) in E.
  rewrite !Split_Join in E;
    try (apply Forall_map; eapply Forall_impl; [apply Split_parts|]; intros; by apply convert_part_slash);
    try (intros E'%map_eq_nil; by apply Split_nonempty in E').
  rewrite <- (Join_Split "/" p), <- (Join_Split "/" q). f_equal. revert E Hp Hq. generalize (Split "/" p), (Split "/" q). clear.
  induction l as [|x l IH]; intros [|y l']; cbn; [done..|]. intros [= E El] [Hx Hl]%Forall_cons [Hy Hl']%Forall_cons. f_equal; [by apply convert_part_inj|by apply IH].
Qed.

(** Colons are only where a segment starts, or in a segment that starts with one. *)
Definition colons_lead (path : string) : Prop := Forall (fun p => HasPrefix p ":" = true \/ count_byte ":" p = 0) (Split "/" path).
(** Then the path of the document is the pattern of the router. *)
Lemma documented_pattern path : colons_lead path -> convertPathParams path = Generator.convertPathToChi path.
Proof.
  intros Hc. rewrite convert_parts, Generator.convertPath_segments. f_equal. unfold colons_lead in Hc. induction Hc as [|p l Hp _ IH]; cbn; [done|]. f_equal; [|exact IH].
  destruct p as [|c p]; [done|]. destruct (decide (c = ":"%char)) as [->|Hn]; [by rewrite convert_colon|]. rewrite convert_other by done.
  destruct Hp as [[t Ht]%HasPrefix_spec|Hp]; [by injection Ht as -> _|]. revert Hp. clear. generalize (String c p) as s.
  induction s as [|d s IH]; cbn; [done|]. destruct (Ascii.eqb d ":"); [done|]. intros H. f_equal. by apply IH.
Qed.
(** Elsewhere it is not: the router sees a parameter that the document does not. *)
Lemma pattern_undocumented : convertPathParams "/files/v:version" = "/files/v:version" /\ Generator.convertPathToChi "/files/v:version" = "/files/v{version}".
Proof. split; reflexivity. Qed.

(** ** The operations of a document *)
Definition operation_for (method : string) (i : PathItem) : option Operation :=
  if String.eqb method "GET" then pi_Get i else if String.eqb method "POST" then pi_Post i else if String.eqb method "PUT" then pi_Put i
  else if String.eqb method "DELETE" then pi_Delete i else if String.eqb method "PATCH" then pi_Patch i else None.
Definition documented (method path : string) (m : OpenAPI) : option Operation := oa_Paths m !! path ≫= operation_for method.
Definition document_key (ep : EndpointDecl) : string * string := (ep_Method ep, convertPathParams (ep_Path ep)).
Definition methods : list string := ["GET"; "POST"; "PUT"; "DELETE"; "PATCH"].

Lemma operation_for_same method op i : method ∈ methods -> operation_for method (set_operation method op i) = Some op.
Proof. intros Hm. destruct i. unfold methods in Hm. rewrite !elem_of_cons in Hm. destruct Hm as [-> | [-> | [-> | [-> | [-> | []%not_elem_of_nil] ] ] ] ]; done. Qed.
Lemma operation_for_other method method' op i : method <> method' -> operation_for method (set_operation method' op i) = operation_for method i.
Proof.
  intros Hm. destruct i. unfold operation_for, set_operation.
  repeat (match goal with |- context [String.eqb method' ?s] => destruct (String.eqb_spec method' s); subst end);
  repeat (match goal with |- context [String.eqb method ?s] => destruct (String.eqb_spec method s); subst end); done.
Qed.

Section Documented.
Context `{Unicode}.
Variable int_of_huge : float64 -> Z.

Lemma documented_put method path method' path' op m : (method, path) <> (method', path') ->
  documented method path (put_operation method' path' op m) = documented method path m.
Proof.
  intros Hk. unfold documented, put_operation. cbn [oa_Paths set_Paths]. destruct (decide (path' = path)) as [->|Hn]; [|by rewrite lookup_insert_ne].
  rewrite lookup_insert_eq. cbn [mbind option_bind]. rewrite operation_for_other by (intros ->; by apply Hk).
  destruct (oa_Paths m !! path); cbn; [done|]. unfold operation_for. repeat case_match; done.
Qed.
Lemma documented_endpoint ep m : ep_Method ep ∈ methods ->
  documented (ep_Method ep) (convertPathParams (ep_Path ep)) (mapEndpoint ep m) = Some (endpoint_operation ep).
Proof.
  intros Hm. unfold documented, mapEndpoint. cbn [oa_Paths set_Paths]. rewrite lookup_insert_eq. cbn [mbind option_bind].
  assert (one_of ["GET"; "POST"; "PUT"; "DELETE"; "PATCH"] (ep_Method ep) = true) as -> by by apply one_of_spec. by apply operation_for_same.
Qed.
Lemma documented_later ep ep' m : ep_Method ep' ∈ methods -> document_key ep <> document_key ep' ->
  documented (ep_Method ep) (convertPathParams (ep_Path ep)) (mapEndpoint ep' m) = documented (ep_Method ep) (convertPathParams (ep_Path ep)) m.
Proof.
  intros Hm Hk. assert (mapEndpoint ep' m = put_operation (ep_Method ep') (convertPathParams (ep_Path ep')) (endpoint_operation ep') m) as ->.
  { unfold mapEndpoint. cbv zeta. by assert (one_of ["GET"; "POST"; "PUT"; "DELETE"; "PATCH"] (ep_Method ep') = true) as -> by by apply one_of_spec. }
  by apply documented_put.
Qed.

(** Endpoints that come last and differ in method and path are all documented. *)
Lemma endpoints_documented (eps : list EndpointDecl) : Forall (fun e => ep_Method e ∈ methods) eps -> NoDup (map document_key eps) ->
  forall m ep, ep ∈ eps ->
  documented (ep_Method ep) (convertPathParams (ep_Path ep))
    (fold_left (fun m s => mapStatement int_of_huge s m) (map Endpoint eps) m) = Some (endpoint_operation ep).
Proof.
  assert (forall eps ep m, Forall (fun e => ep_Method e ∈ methods) eps -> document_key ep ∉ map document_key eps ->
    documented (ep_Method ep) (convertPathParams (ep_Path ep)) (fold_left (fun m s => mapStatement int_of_huge s m) (map Endpoint eps) m) =
    documented (ep_Method ep) (convertPathParams (ep_Path ep)) m) as Hlater.
  { clear. induction eps as [|e eps IH]; intros ep m; cbn; [done|]. intros [He Hes]%Forall_cons [Hk Hks]%not_elem_of_cons.
    rewrite IH by done. by apply documented_later. }
  induction eps as [|e eps IH]; intros Hm Hd m ep Hin; [by apply not_elem_of_nil in Hin|]. cbn in *.
  apply Forall_cons in Hm as [He Hes]. apply NoDup_cons in Hd as [Hk Hks]. apply elem_of_cons in Hin as [-> | Hin]; [|by apply IH].
  rewrite Hlater by done. by apply documented_endpoint.
Qed.
End Documented.

(** * Documents of parsed programs *)
Section Parsed.
Context `{Unicode}.
Variables (int_of_huge : float64 -> Z) (program_grammar : string -> result string DslParser.pProgram)
  (endpoint_grammar : string -> result string EndpointParser.pEndpointFile).

Abbreviation map_all := (fold_left (fun m s => mapStatement int_of_huge s m)).
Abbreviation endpoints_of := (omap Generator.endpoint_of).

(** The statements that are not endpoints, and the endpoints, which come last. *)
Lemma Parse_statements input p : DslParser.Parse program_grammar endpoint_grammar input = Ok p ->
  exists stmts ds, Statements p = (map DslParser.convertStatement stmts ++ map DslParser.endpoint_statement ds)%list.
Proof.
  unfold DslParser.Parse. destruct (DslParser.extractAndParseEndpoints _ _) as [ [ds text]|]; [|done].
  destruct (program_grammar text) as [q|]; [|done]. intros [= <-]. by exists (DslParser.pp_Statements q), ds.
Qed.
Lemma no_endpoints stmts : endpoints_of (map DslParser.convertStatement stmts) = [].
Proof. induction stmts as [|s l IH]; [done|]. by destruct s. Qed.
Lemma last_endpoints ds : endpoints_of (map DslParser.endpoint_statement ds) = omap id ds.
Proof. induction ds as [|[d|] l IH]; [done|..]; cbn; [by rewrite <- IH|exact IH]. Qed.
Lemma map_endpoints ds : forall m, map_all (map DslParser.endpoint_statement ds) m = map_all (map Endpoint (omap id ds)) m.
Proof. induction ds as [|[d|] l IH]; intros m; [done|..]; apply IH. Qed.

(** Databases are not mapped: the parser puts models and collections nowhere else. *)
Lemma convert_schemas s m : co_Schemas (oa_Components (mapStatement int_of_huge (DslParser.convertStatement s) m)) = co_Schemas (oa_Components m).
Proof. destruct s; try done. cbn [DslParser.convertStatement mapStatement DslParser.createFuncDecl]. by rewrite mapFunction_components. Qed.
Lemma parsed_schemas stmts ds : forall m, co_Schemas (oa_Components
  (map_all (map DslParser.convertStatement stmts ++ map DslParser.endpoint_statement ds)%list m)) = co_Schemas (oa_Components m).
Proof.
  induction stmts as [|s l IH]; intros m; cbn; [|by rewrite IH, convert_schemas]. revert m.
  induction ds as [|[d|] l IH]; intros m; cbn; [done|..]; by rewrite IH.
Qed.
Lemma convert_auth_ok a : auth_ok (DslParser.convertAuthDecl a).
Proof.
  split; [|done]. cbn. apply EndpointParser.keyword_known. set_solver.
Qed.

(** Functions with names and parameters as [statement_ok] asks. *)
Definition functions_ok (p : Program_) : Prop :=
  forall pos n ps b, FunctionDecl pos n ps b ∈ Statements p -> routable n /\ Forall (fun q => par_Name q <> "") ps.
(** An endpoint whose request comes from its path names every parameter of it. *)
Definition parameters_named (ep : EndpointDecl) : Prop :=
  forall h r, ep_Handler ep = Some h -> h_Request h = Some r -> rq_Source r = "path" -> "" ∉ extractPathParamsFromPath (ep_Path ep).

Lemma accepted_documentable v ep : EndpointValidator.well_formed v ep -> parameters_named ep -> documentable ep.
Proof.
  intros Hw Hn. constructor; [| exact Hn | |].
  - destruct (EndpointValidator.wf_slash _ _ Hw) as [q ->]. apply HasPrefix_app.
  - intros h r Hh Hr _ E. destruct (EndpointValidator.req_type _ _ _ (EndpointValidator.wf_request _ _ Hw h r Hh Hr)) as [Ht _]. by rewrite E in Ht.
  - intros h r Hh Hr. exact (EndpointValidator.resp_status _ _ _ (EndpointValidator.wf_response _ _ Hw h r Hh Hr)).
Qed.

End Parsed.

(** ** A shop: a model, a provider, a function and an endpoint *)
Definition huge (f : float64) : Z := 0.
Definition shop_text : string := DslParser.text_of
  ["database postgres { model Item { id: uuid } }"; "auth jwt { method jwt }"; "function getItems(limit) { }";
   "endpoint GET /items/:id {"; "  request Key from path"; "  response Item status 200"; "}"].
Definition shop_program : DslParser.pProgram := DslParser.mkPProgram
  [DslParser.PDatabase (DslParser.mkPDatabase "postgres" [DslParser.mkPModel "Item" None
     [DslParser.mkPField "id" (Some (DslParser.mkPTypeRef "uuid" [])) []] []] []);
   DslParser.PAuth (DslParser.mkPAuth "jwt" "jwt" None None None); DslParser.PFunc "getItems" ["limit"] []].
Definition shop_endpoint : EndpointParser.pEndpointDecl := EndpointParser.mkPEndpoint EndpointParser.no_pos [] "GET" "/items/:id" [] None
  (Some (EndpointParser.mkPRequest EndpointParser.no_pos "Key" "path")) (Some (EndpointParser.mkPResponse EndpointParser.no_pos "Item" "200")) None.
Definition shop_grammar (s : string) : result string DslParser.pProgram := Ok shop_program.
Definition shop_endpoints (s : string) : result string EndpointParser.pEndpointFile := Ok (EndpointParser.mkPEndpointFile EndpointParser.no_pos [shop_endpoint]).
Definition shop : Program_ := mkProgram EndpointParser.no_pos
  (map DslParser.convertStatement (DslParser.pp_Statements shop_program) ++ [Endpoint (EndpointParser.convertEndpointDecl shop_endpoint)])%list.
Definition shop_config : OpenApi.Config := mkConfig "Shop" "" "1.0.0" "" "" "" "" "" "" [] ["jwt"] "json".
Definition shop_document : OpenAPI := gen_spec (GenerateFromAST huge (NewGenerator (Some shop_config)) shop).

Lemma shop_functions : functions_ok shop.
Proof.
  intros pos n ps b H. cbn in H. rewrite !elem_of_cons in H.
  destruct H as [H | [H | [H | [H | []%not_elem_of_nil] ] ] ]; try discriminate H. injection H as -> -> -> ->.
  split; [vm_compute; discriminate|]. by repeat constructor.
Defined.
Lemma shop_security : security_declared shop_config shop.
Proof.
  intros n Hn. apply list_elem_of_singleton in Hn as ->. exists (DslParser.convertAuthDecl (DslParser.mkPAuth "jwt" "jwt" None None None)). split; [|done].
  cbn. set_solver.
Defined.
Lemma shop_parameters : Forall parameters_named (omap Generator.endpoint_of (Statements shop)).
Proof. repeat constructor. intros h r _ _ _. vm_compute. intros H. by repeat (apply elem_of_cons in H as [H|H]; [discriminate H|]); apply not_elem_of_nil in H. Defined.


Lemma document_valid_witness : Valid (Validate false shop_document) = true.
Proof.
  apply (document_valid huge false shop_config shop).
  - reflexivity.
  - repeat constructor; try (vm_compute; discriminate); try (vm_compute; set_solver).
  - exact shop_security.
Defined.

(** * What documents get wrong *)

(** The responses of the shop refer to a schema that the document does not have;
    the validator looks at the form of references only. *)
Lemma dangling_reference : Valid (Validate true shop_document) = true /\
  (documented "GET" "/items/{id}" shop_document ≫= fun op => op_Responses op !! "200" ≫= fun r => rs_Content r !! "application/json" ≫= mt_Schema)
    = Some (reference "#/components/schemas/Item") /\ co_Schemas (oa_Components shop_document) !! "Item" = None.
Proof. split; [vm_compute; reflexivity|]. split; vm_compute; reflexivity. Qed.

(** Of a model at the top level, fields that refer to another model refer to its
    name in lower case. *)
Lemma lowered_reference pos : mapFieldType (mkTypeRef pos "User" []) = reference "#/components/schemas/user".
Proof. reflexivity. Qed.
(** A collection with a plain array is accepted and makes the document invalid. *)
Lemma untyped_array pos : Valid (Validate false (gen_spec (GenerateFromAST huge (NewGenerator None)
  (mkProgram pos [Collection (mkCollectionDecl pos "logs" "" [mkMongoField pos "lines" (Some (mkMongoTypeRef pos "array" [] None)) []] [])])))) = false.
Proof. vm_compute. reflexivity. Qed.
(** A function whose name says a method only is put at the empty path. *)
Lemma pathless_function pos : Valid (Validate false (gen_spec (GenerateFromAST huge (NewGenerator None)
  (mkProgram pos [FunctionDecl pos "handle_get" [] None])))) = false.
Proof. vm_compute. reflexivity. Qed.
(** Any function that starts with a verb is a route. *)
Lemma function_is_route : parseHandlerName "address" = ("POST", "/ress") /\ parseHandlerName "newsletter" = ("POST", "/sletter").
Proof. split; vm_compute; reflexivity. Qed.
(** A segment that is only a colon becomes a parameter without a name. *)
Lemma nameless_parameter : extractPathParamsFromPath "/items/:" = [""] /\
  (EndpointValidator.ValidateEndpoints [Some (EndpointRoutes.at_path "/items/:")] EndpointValidator.NewEndpointValidator).2 = [].
Proof. split; vm_compute; reflexivity. Qed.
(** Different endpoints with one operation identifier. *)
Lemma operation_ids_collide : generateEndpointOperationID "GET" "/a/b" = generateEndpointOperationID "GET" "/aB" /\
  generateEndpointOperationID "GET" "/a/:x" = generateEndpointOperationID "GET" "/aById".
Proof. split; vm_compute; reflexivity. Qed.

(** Every [GetSpec] adds the default security once more. *)
Lemma GetSpec_repeats g : let g1 := GetSpec g in
  oa_Security (gen_spec (GetSpec g1)) = (oa_Security (gen_spec g1) ++ map (fun n => {[n := []]}) (cf_DefaultSecurity (gen_config g)))%list.
Proof. done. Qed.

(** ** Merging *)
Lemma merge_missing_lookup {A} (base addition : gmap string A) n :
  merge_missing base addition !! n = match base !! n with Some x => Some x | None => addition !! n end.
Proof.
  unfold merge_missing. revert n. apply (map_fold_weak_ind (fun m a => forall n, m !! n = match base !! n with Some x => Some x | None => a !! n end)).
  - intros n. rewrite lookup_empty. by destruct (base !! n).
  - intros k x a m Hk IH n. destruct (m !! k) as [y|] eqn:E.
    + rewrite IH. destruct (decide (k = n)) as [->|Hn]; [|by rewrite lookup_insert_ne]. rewrite lookup_insert_eq. rewrite IH, Hk in E. by destruct (base !! n).
    + destruct (decide (k = n)) as [->|Hn]; [|by rewrite !lookup_insert_ne]. rewrite !lookup_insert_eq. rewrite IH in E. by destruct (base !! n).
Qed.
Lemma merge_paths_lookup base addition path :
  merge_paths base addition !! path =
  match base !! path, addition !! path with
  | Some b, Some a => Some (merge_items b a)
  | Some b, None => Some b
  | None, a => a
  end.
Proof.
  unfold merge_paths. revert path. apply (map_fold_weak_ind (fun m a => forall path, m !! path =
    match base !! path, a !! path with Some b, Some a => Some (merge_items b a) | Some b, None => Some b | None, a => a end)).
  - intros path. rewrite lookup_empty. by destruct (base !! path).
  - intros k x a m Hk IH path. destruct (decide (k = path)) as [->|Hn].
    + rewrite !lookup_insert_eq, IH, Hk. by destruct (base !! path).
    + by rewrite !lookup_insert_ne.
Qed.

(** Merging keeps what the first document has: a path of both has, for GET,
    POST, PUT, DELETE and PATCH, the operation of the first document, or else of
    the second; other paths, schemas and security schemes are those of the one
    document that has them, the first if both do. *)
Theorem Merge_correct b a m (Hm : Merge (Some b) (Some a) = Some m) :
  (forall method path, method ∈ methods -> documented method path m = or_else (documented method path b) (documented method path a)) /\
  (forall n, co_Schemas (oa_Components m) !! n = or_else (co_Schemas (oa_Components b) !! n) (co_Schemas (oa_Components a) !! n)) /\
  (forall n, co_SecuritySchemes (oa_Components m) !! n =
     or_else (co_SecuritySchemes (oa_Components b) !! n) (co_SecuritySchemes (oa_Components a) !! n)).
Proof.
  injection Hm as <-. split; [|split].
  - intros method path Hin. unfold documented. cbn [oa_Paths]. rewrite merge_paths_lookup.
    destruct (oa_Paths b !! path) as [ib|], (oa_Paths a !! path) as [ia|]; cbn; try done; [|by destruct (operation_for method ib)].
    unfold methods in Hin. rewrite !elem_of_cons in Hin.
    by destruct Hin as [-> | [-> | [-> | [-> | [-> | []%not_elem_of_nil] ] ] ] ].
  - intros n. cbn. rewrite merge_missing_lookup. by destruct (_ !! n).
  - intros n. cbn. rewrite merge_missing_lookup. by destruct (_ !! n).
Qed.
Lemma Merge_correct_witness : exists m, Merge (Some shop_document) (Some NewMapper) = Some m /\
  documented "GET" "/items/{id}" m = documented "GET" "/items/{id}" shop_document.
Proof.
  eexists. split; [reflexivity|]. destruct (Merge_correct shop_document NewMapper _ eq_refl) as [H _].
  rewrite H by (by left). vm_compute. reflexivity.
Defined.
(** The other methods of a path that both have are lost. *)
Lemma merge_drops_head existing item : pi_Head (merge_items existing item) = pi_Head existing /\ pi_Options (merge_items existing item) = pi_Options existing.
Proof. done. Qed.
