(* ===== verification/Migrator.v ===== *)
(** Migrations of the database: [internal/database/migrate.go].

    A database is the table of applied versions, with the time of each, and the
    rest ([schema]), which scripts change ([run_sql]).  Every call of the driver
    has a number, and may fail ([fault]); a transaction that is not committed
    changes nothing. *)

From Stdlib Require Import ZArith Lia Ascii.
From stdpp Require Import base strings list gmap sorting.
From S2P Require Import Prelude GoStrings GoText.

#[local] Open Scope string_scope.

Record Migration := mkMigration { Version : string; Name : string; UpSQL : string; DownSQL : string; AppliedAt : option Z }.

(** ** Loading *)

(** The version and the rest of a file's name. *)
Definition split_name (filename : string) : option (string * string) :=
  match SplitN "_" 2 filename with [v; r] => Some (v, r) | _ => None end.
(** What a file is: its version, its name and whether it goes up. *)
Definition file_of (filename : string) : option (string * string * bool) :=
  if HasSuffix filename ".sql" then
    match split_name filename with
    | Some (version, r) =>
        if HasSuffix r ".up.sql" then Some (version, take_str (String.length r - String.length ".up.sql") r, true)
        else if HasSuffix r ".down.sql" then Some (version, take_str (String.length r - String.length ".down.sql") r, false)
        else None
    | None => None
    end
  else None.
Definition load_file (m : gmap string Migration) (file : string * string) : gmap string Migration :=
  match file_of file.1 with
  | None => m
  | Some (version, name, up) =>
      let mig := default (mkMigration version name "" "" None) (m !! version) in
      <[version := if up then mkMigration (Version mig) (Name mig) file.2 (DownSQL mig) None
                   else mkMigration (Version mig) (Name mig) (UpSQL mig) file.2 None]> m
  end.
Definition before (a b : Migration) : Prop := is_true (String.leb (Version a) (Version b)).
#[global] Instance before_dec a b : Decision (before a b).
Proof. unfold before. apply _. Defined.
(** The files of the program, in the order in which they are walked. *)
Definition loadMigrations (files : list (string * string)) : list Migration :=
  merge_sort before (map snd (map_to_list (fold_left load_file files ∅))).

(** ** The database *)
Section Database.
Context {W : Type}.
Variables (run_sql : string -> W -> result string W) (fault : nat -> option string) (now : nat -> Z).

Record DB := mkDB { applied : gmap string Z; schema : W; calls : nat }.
Definition call (db : DB) : DB * option string := (mkDB (applied db) (schema db) (S (calls db)), fault (calls db)).

Definition getAppliedMigrations (db : DB) : DB * result string (gmap string Z) :=
  (* the table is created if it is missing, queried, and its rows are read *)
  let '(db, e) := call db in
  match e with
  | Some e => (db, Err e)
  | None =>
      let '(db, e) := call db in
      match e with
      | Some e => (db, Err e)
      | None =>
          let '(db, e) := call db in
          match e with Some e => (db, Err e) | None => (db, Ok (applied db)) end
      end
  end.

(** A call that may fail, inside a transaction. *)
Definition step (db : DB) (k : DB -> DB * result string unit) : DB * result string unit :=
  let '(db, e) := call db in match e with Some e => (db, Err e) | None => k db end.
Definition runMigration (mig : Migration) (up : bool) (db : DB) : DB * result string unit :=
  step db (fun db =>
    let sqlToRun := if up then UpSQL mig else DownSQL mig in
    if String.eqb sqlToRun "" then (db, Err ("no " ++ (if up then "up" else "down") ++ " SQL for migration " ++ Version mig))
    else
      step db (fun db =>
        match run_sql sqlToRun (schema db) with
        | Err e => (db, Err e)
        | Ok schema' =>
            step db (fun db =>
              match up, applied db !! Version mig with
              | true, Some _ => (db, Err "UNIQUE constraint failed: schema_migrations.version")
              | _, _ =>
                  let applied' := if up then <[Version mig := now (calls db)]> (applied db) else delete (Version mig) (applied db) in
                  step db (fun db => (mkDB applied' schema' (calls db), Ok tt))
              end)
        end)).

Fixpoint up_loop (migrations : list Migration) (done : gmap string Z) (db : DB) : DB * result string unit :=
  match migrations with
  | [] => (db, Ok tt)
  | mig :: migrations' =>
      match done !! Version mig with
      | Some _ => up_loop migrations' done db
      | None =>
          match runMigration mig true db with
          | (db, Err e) => (db, Err ("running migration " ++ Version mig ++ ": " ++ e))
          | (db, Ok _) => up_loop migrations' done db
          end
      end
  end.
Definition MigrateUp (migrations : list Migration) (db : DB) : DB * result string unit :=
  match getAppliedMigrations db with
  | (db, Err e) => (db, Err ("getting applied migrations: " ++ e))
  | (db, Ok done) => up_loop migrations done db
  end.

(** The greatest version, in the order of texts. *)
Definition last_version (done : gmap string Z) : string :=
  fold_left (fun last version => if String.ltb last version then version else last) (map fst (map_to_list done)) "".
Definition MigrateDown (migrations : list Migration) (db : DB) : DB * result string unit :=
  match getAppliedMigrations db with
  | (db, Err e) => (db, Err ("getting applied migrations: " ++ e))
  | (db, Ok done) =>
      if Nat.eqb (size done) 0 then (db, Ok tt)
      else
        let lastVersion := last_version done in
        match find (fun mig => String.eqb (Version mig) lastVersion) migrations with
        | Some mig => runMigration mig false db
        | None => (db, Err ("migration " ++ lastVersion ++ " not found"))
        end
  end.
(** The loop of [MigrateReset]; [None] when the fuel does not suffice. *)
Fixpoint reset_loop (fuel : nat) (migrations : list Migration) (db : DB) : option (DB * result string unit) :=
  match fuel with
  | O => None
  | S fuel' =>
      match getAppliedMigrations db with
      | (db, Err e) => Some (db, Err e)
      | (db, Ok done) =>
          if Nat.eqb (size done) 0 then Some (db, Ok tt)
          else
            match MigrateDown migrations db with
            | (db, Err e) => Some (db, Err e)
            | (db, Ok _) => reset_loop fuel' migrations db
            end
      end
  end.
Definition MigrateReset (fuel : nat) (migrations : list Migration) (db : DB) : option (DB * result string unit) :=
  match reset_loop fuel migrations db with
  | Some (db, Ok _) => Some (MigrateUp migrations db)
  | r => r
  end.

Definition Status (migrations : list Migration) (db : DB) : DB * result string (list Migration) :=
  match getAppliedMigrations db with
  | (db, Err e) => (db, Err e)
  | (db, Ok done) =>
      (db, Ok (map (fun m => match done !! Version m with
                             | Some t => mkMigration (Version m) (Name m) (UpSQL m) (DownSQL m) (Some t)
                             | None => m
                             end) migrations))
  end.
End Database.
Arguments DB : clear implicits.

(** * Loading *)
Lemma ascii_compare_N a b : Ascii.compare a b = N.compare (N_of_ascii a) (N_of_ascii b).
Proof. done. Qed.
Lemma leb_cons a x b y : String.leb (String a x) (String b y) = true <-> (N_of_ascii a < N_of_ascii b)%N \/ (a = b /\ String.leb x y = true).
Proof.
  unfold String.leb. cbn [String.compare]. rewrite ascii_compare_N. destruct (N.compare_spec (N_of_ascii a) (N_of_ascii b)) as [E | E | E].
  - assert (a = b) as <- by (rewrite <- (ascii_N_embedding a), <- (ascii_N_embedding b); congruence). split; [by right|]. intros [H | [_ H]]; [lia|done].
  - split; [by left|done].
  - split; [discriminate|]. intros [H | [-> _]]; lia.
Qed.
Lemma leb_trans x y z : String.leb x y = true -> String.leb y z = true -> String.leb x z = true.
Proof.
  revert y z. induction x as [|a x IH]; intros [|b y] [|c z] Hxy Hyz; try done.
  apply leb_cons in Hxy, Hyz. apply leb_cons. destruct Hxy as [H1 | [-> H1]], Hyz as [H2 | [-> H2]]; [left; lia|by left|by left|right; split; [done|by apply (IH y)]].
Qed.
#[global] Instance before_total : Total before.
Proof. intros a b. unfold before. destruct (String.leb_total (Version a) (Version b)) as [-> | ->]; [by left|by right]. Qed.
#[global] Instance before_trans : Transitive before.
Proof. intros a b c Hab Hbc. unfold before, is_true in *. by apply leb_trans with (Version b). Qed.

Definition keyed (m : gmap string Migration) : Prop := forall v mig, m !! v = Some mig -> Version mig = v.
Lemma load_file_keyed m file : keyed m -> keyed (load_file m file).
Proof.
  intros Hm. unfold load_file. destruct (file_of file.1) as [[[version name] up]|]; [|done].
  intros v mig. destruct (decide (v = version)) as [-> | Hne]; [|rewrite lookup_insert_ne by done; apply Hm].
  rewrite lookup_insert_eq. intros [= <-]. destruct (m !! version) as [old|] eqn:E; cbn [default]; destruct up; cbn; try done; by apply Hm.
Qed.
Lemma load_keyed files m : keyed m -> keyed (fold_left load_file files m).
Proof. revert m. induction files as [|f files IH]; intros m Hm; [done|]. cbn [fold_left]. by apply IH, load_file_keyed. Qed.
Lemma keyed_versions m : keyed m -> map Version (map snd (map_to_list m)) = map fst (map_to_list m).
Proof.
  intros Hm. rewrite List.map_map. apply List.map_ext_in. intros [v mig] Hin. apply list_elem_of_In, elem_of_map_to_list in Hin. by apply Hm.
Qed.
(** Migrations are loaded in the order of their versions, one of each. *)
Lemma loaded_sorted files : StronglySorted before (loadMigrations files).
Proof. apply StronglySorted_merge_sort; apply _. Qed.
Lemma loaded_once files : NoDup (map Version (loadMigrations files)).
Proof.
  unfold loadMigrations. rewrite (merge_sort_Permutation before). rewrite keyed_versions; [apply NoDup_fst_map_to_list|].
  apply load_keyed. intros v mig H. by rewrite lookup_empty in H.
Qed.

(** * Applying and rolling back *)
Section Correct.
Context {W : Type}.
Variables (run_sql : string -> W -> result string W) (fault : nat -> option string) (now : nat -> Z).
#[local] Abbreviation run := (runMigration run_sql fault now).

(** What scripts do, one after the other. *)
Fixpoint run_scripts (scripts : list string) (w : W) : option W :=
  match scripts with
  | [] => Some w
  | s :: scripts' => match run_sql s w with Ok w' => run_scripts scripts' w' | Err _ => None end
  end.
Lemma run_scripts_app a b w : run_scripts (a ++ b)%list w = match run_scripts a w with Some w' => run_scripts b w' | None => None end.
Proof. revert w. induction a as [|s a IH]; intros w; [done|]. cbn. destruct (run_sql s w); [apply IH|done]. Qed.

Definition same (a b : DB W) : Prop := applied a = applied b /\ schema a = schema b.
Lemma same_trans a b c : same a b -> same b c -> same a c.
Proof. intros [] []. split; congruence. Qed.
Lemma call_same db : same (call fault db).1 db.
Proof. by split. Qed.

Lemma getApplied_cases db db' r : getAppliedMigrations fault db = (db', r) ->
  same db' db /\ match r with Ok done => done = applied db | Err _ => exists n, is_Some (fault n) end.
Proof.
  unfold getAppliedMigrations, call. cbn [calls applied schema].
  destruct (fault (calls db)) eqn:E1; [intros [= <- <-]; split; [done|eauto]|].
  destruct (fault (S (calls db))) eqn:E2; [intros [= <- <-]; split; [done|eauto]|].
  destruct (fault (S (S (calls db)))) eqn:E3; intros [= <- <-]; (split; [done|eauto]).
Qed.

(** One migration, in one transaction: all of it or nothing. *)
Definition committed (mig : Migration) (up : bool) (db db' : DB W) : Prop :=
  run_sql (if up then UpSQL mig else DownSQL mig) (schema db) = Ok (schema db') /\
  (if up then applied db !! Version mig = None /\ exists t, applied db' = <[Version mig := t]> (applied db)
   else applied db' = delete (Version mig) (applied db)).
(** Why a migration fails. *)
Definition obstacle (mig : Migration) (up : bool) (db : DB W) : Prop :=
  (exists n, is_Some (fault n)) \/ (if up then UpSQL mig else DownSQL mig) = "" \/
  is_ok (run_sql (if up then UpSQL mig else DownSQL mig) (schema db)) = false \/ (up = true /\ is_Some (applied db !! Version mig)).

Lemma run_cases mig up db db' r : run mig up db = (db', r) ->
  match r with Ok _ => committed mig up db db' | Err _ => same db' db /\ obstacle mig up db end.
Proof.
  unfold runMigration, step, call, committed, obstacle. cbn [calls applied schema].
  destruct (fault (calls db)) eqn:E1; [intros [= <- <-]; split; [done|eauto]|].
  set (q := if up then UpSQL mig else DownSQL mig). destruct (String.eqb_spec q "") as [Hq | Hq]; [intros [= <- <-]; split; [done|auto]|].
  destruct (fault (S (calls db))) eqn:E2; [intros [= <- <-]; split; [done|eauto]|]. cbn [applied schema calls].
  destruct (run_sql q (schema db)) as [w | e] eqn:Ew; [|intros [= <- <-]; split; [done|cbn; auto]].
  destruct (fault (S (S (calls db)))) eqn:E3; [intros [= <- <-]; split; [done|eauto]|]. cbn [applied schema calls].
  destruct up.
  - destruct (applied db !! Version mig) eqn:Ea; [intros [= <- <-]; split; [done|right; right; right; split; [done|by eexists]]|].
    destruct (fault (S (S (S (calls db))))) eqn:E4; intros [= <- <-]; [split; [done|eauto]|]. cbn. split; [done|]. split; [done|by eexists].
  - destruct (fault (S (S (S (calls db))))) eqn:E4; intros [= <- <-]; [split; [done|eauto]|]. by cbn.
Qed.

(** ** Up *)
Definition pending (migrations : list Migration) (done : gmap string Z) : list Migration :=
  filter (fun mig => done !! Version mig = None) migrations.
Lemma pending_sorted migrations done : StronglySorted before migrations -> StronglySorted before (pending migrations done).
Proof.
  induction 1 as [|m l Hs IH Hf]; [constructor|]. unfold pending. rewrite filter_cons. destruct (decide _); [|done].
  constructor; [done|]. apply Forall_forall. intros x [_ Hx]%list_elem_of_filter. by apply (Forall_forall (before m) l).
Qed.
Lemma sorted_prefix (l rest : list Migration) : StronglySorted before (l ++ rest)%list -> StronglySorted before l.
Proof. induction l as [|m l IH]; intros Hs; [constructor|]. apply StronglySorted_inv in Hs as [Hs Hf]. constructor; [by apply IH|]. by apply Forall_app in Hf as [Hf _]. Qed.
(** The database after the migrations [l], one after the other. *)
Definition upgraded (l : list Migration) (db db' : DB W) : Prop :=
  run_scripts (map UpSQL l) (schema db) = Some (schema db') /\
  dom (applied db') = dom (applied db) ∪ list_to_set (map Version l) /\ applied db ⊆ applied db'.
Lemma upgraded_same db db' : same db' db -> upgraded [] db db'.
Proof. intros [Ha Hs]. unfold upgraded. rewrite Ha, Hs. split; [done|]. split; [set_solver|done]. Qed.
Lemma upgraded_cons mig l db db1 db' : committed mig true db db1 -> upgraded l db1 db' -> upgraded (mig :: l) db db'.
Proof.
  intros (Hs & Hnone & t & Ht) (H1 & H2 & H3). split; [|split].
  - cbn. by rewrite Hs.
  - rewrite H2, Ht, dom_insert_L. cbn. set_solver.
  - transitivity (applied db1); [|done]. rewrite Ht. by apply insert_subseteq.
Qed.
Lemma upgraded_from db0 l db db' : same db db0 -> upgraded l db db' -> upgraded l db0 db'.
Proof. intros [Ha Hs]. unfold upgraded. by rewrite Ha, Hs. Qed.

Lemma up_loop_cases migrations done db db' r : NoDup (map Version migrations) ->
  (forall mig, mig ∈ migrations -> done !! Version mig = None -> applied db !! Version mig = None) ->
  up_loop run_sql fault now migrations done db = (db', r) ->
  exists l rest, pending migrations done = (l ++ rest)%list /\ upgraded l db db' /\
    (if is_ok r then rest = [] else exists mig rest', rest = mig :: rest' /\ obstacle mig true db').
Proof.
  revert db. induction migrations as [|mig migrations IH]; intros db Hnd Ha; cbn [up_loop].
  - intros [= <- <-]. exists [], []. split; [done|]. split; [by apply upgraded_same|done].
  - cbn [map] in Hnd. apply NoDup_cons in Hnd as [Hnot Hnd]. unfold pending. rewrite filter_cons. destruct (done !! Version mig) as [t|] eqn:Ed.
    { rewrite decide_False by congruence. intros E. apply IH in E; [exact E|done|]. intros m Hm. apply Ha. by right. }
    rewrite decide_True by done. destruct (run mig true db) as [db1 [u | e]] eqn:Er; apply run_cases in Er.
    + intros E. apply IH in E as (l & rest & Hp & Hu & Hr); [|done|].
      * exists (mig :: l), rest. split; [unfold pending in Hp; by rewrite Hp|]. split; [by apply upgraded_cons with db1|done].
      * destruct Er as (_ & _ & t & ->). intros m Hm Hd. rewrite lookup_insert_ne; [apply Ha; [by right|done]|].
        intros Hv. apply Hnot. rewrite Hv. apply list_elem_of_In, List.in_map. by apply list_elem_of_In.
    + intros [= <- <-]. destruct Er as [Hs Ho]. exists [], (mig :: pending migrations done). split; [done|]. split; [by apply upgraded_same|].
      cbn. exists mig, (pending migrations done). split; [done|]. destruct Hs as [Hs1 Hs2]. unfold obstacle. by rewrite Hs1, Hs2.
Qed.

Lemma MigrateUp_cases migrations db db' r : NoDup (map Version migrations) ->
  MigrateUp run_sql fault now migrations db = (db', r) ->
  exists l rest, pending migrations (applied db) = (l ++ rest)%list /\ upgraded l db db' /\
    (if is_ok r then rest = [] else (exists n, is_Some (fault n)) \/ exists mig rest', rest = mig :: rest' /\ obstacle mig true db').
Proof.
  intros Hnd. unfold MigrateUp. destruct (getAppliedMigrations fault db) as [db1 [done | e]] eqn:Eg; apply getApplied_cases in Eg as [Hs Hg].
  - subst done. intros E. apply up_loop_cases in E as (l & rest & Hp & Hu & Hr); [|done|].
    + exists l, rest. split; [done|]. split; [by apply upgraded_from with db1|]. destruct (is_ok r); [done|by right].
    + destruct Hs as [-> _]. done.
  - intros [= <- <-]. exists [], (pending migrations (applied db)). split; [done|]. split; [by apply upgraded_same|by left].
Qed.

(** ** Down *)
Lemma leb_ltb x y : String.ltb x y = false -> String.leb y x = true.
Proof.
  unfold String.ltb, String.leb. rewrite (String.compare_antisym y x). by destruct (String.compare x y).
Qed.
Lemma ltb_leb x y : String.ltb x y = true -> String.leb x y = true.
Proof. unfold String.ltb, String.leb. by destruct (String.compare x y). Qed.
Lemma leb_refl x : String.leb x x = true.
Proof. by destruct (String.leb_total x x). Qed.
Lemma last_fold l a : let m := fold_left (fun last version => if String.ltb last version then version else last) l a in
  String.leb a m = true /\ (m = a \/ m ∈ l) /\ forall x, x ∈ l -> String.leb x m = true.
Proof.
  revert a. induction l as [|x l IH]; intros a; cbn [fold_left].
  - split; [apply leb_refl|]. split; [by left|]. intros x Hx. by apply not_elem_of_nil in Hx.
  - destruct (String.ltb a x) eqn:E.
    + destruct (IH x) as (H1 & H2 & H3). split; [by apply leb_trans with x; [apply ltb_leb|]|]. split.
      * destruct H2 as [-> | H2]; right; [by left|by right].
      * intros y [-> | Hy]%elem_of_cons; [done|by apply H3].
    + destruct (IH a) as (H1 & H2 & H3). split; [done|]. split.
      * destruct H2 as [-> | H2]; [by left|right; by right].
      * intros y [-> | Hy]%elem_of_cons; [by apply leb_trans with a; [apply leb_ltb|]|by apply H3].
Qed.
Lemma leb_empty x : String.leb x "" = true -> x = "".
Proof. by destruct x. Qed.
Lemma last_version_spec done : done <> ∅ -> last_version done ∈ dom done /\ forall v, v ∈ dom done -> String.leb v (last_version done) = true.
Proof.
  intros Hne. unfold last_version. destruct (last_fold (map fst (map_to_list done)) "") as (_ & Hin & Hle).
  set (m := fold_left _ _ _) in *. assert (forall v, v ∈ dom done <-> v ∈ map fst (map_to_list done)) as Hd.
  { intros v. rewrite elem_of_dom. split.
    - intros [t Ht]. apply list_elem_of_In, List.in_map_iff. exists (v, t). split; [done|]. by apply list_elem_of_In, elem_of_map_to_list.
    - intros Hv. apply list_elem_of_In, List.in_map_iff in Hv as ([v' t] & <- & Hv). exists t. by apply list_elem_of_In, elem_of_map_to_list in Hv. }
  split; [|intros v Hv; by apply Hle, Hd]. destruct Hin as [Hm | Hin]; [|by apply Hd].
  apply map_choose in Hne as (v & t & Hv). assert (v ∈ dom done) as Hvd by (apply elem_of_dom; by exists t).
  assert (v = "") as E by (apply leb_empty; rewrite <- Hm; by apply Hle, Hd). rewrite E in Hvd. by rewrite Hm.
Qed.

(** A rollback that succeeds takes the greatest version that is applied, and no
    other, with the script of that migration. *)
Definition rolled_back (migrations : list Migration) (db db' : DB W) : Prop :=
  exists mig, mig ∈ migrations /\ Version mig ∈ dom (applied db) /\ (forall v, v ∈ dom (applied db) -> String.leb v (Version mig) = true) /\
    committed mig false db db'.
Lemma MigrateDown_cases migrations db db' r : MigrateDown run_sql fault now migrations db = (db', r) ->
  match r with
  | Ok _ => applied db = ∅ /\ same db' db \/ applied db <> ∅ /\ rolled_back migrations db db'
  | Err _ => same db' db
  end.
Proof.
  unfold MigrateDown. destruct (getAppliedMigrations fault db) as [db1 [done | e]] eqn:Eg; apply getApplied_cases in Eg as [Hs Hg].
  2: { by intros [= <- <-]. }
  subst done. destruct (Nat.eqb_spec (size (applied db)) 0) as [E | E].
  { intros [= <- <-]. left. by apply map_size_empty_inv in E. }
  assert (applied db <> ∅) as Hne by (intros H0; by rewrite H0, map_size_empty in E).
  destruct (last_version_spec _ Hne) as [Hin Hmax]. destruct (find _ migrations) as [mig|] eqn:Ef; [|by intros [= <- <-]].
  apply List.find_some in Ef as [Hm Hv]. apply String.eqb_eq in Hv. intros Er. apply run_cases in Er. destruct r as [u | e].
  - right. split; [done|]. exists mig. split; [by apply list_elem_of_In|]. rewrite Hv. split; [done|]. split; [done|].
    destruct Hs as [Ha Hs]. unfold committed in *. by rewrite <- Ha, <- Hs.
  - destruct Er as [Hr _]. by apply same_trans with db1.
Qed.

(** ** Reset *)
Lemma reset_ends fuel migrations db : (size (applied db) < fuel)%nat ->
  exists db' r, reset_loop run_sql fault now fuel migrations db = Some (db', r) /\ (is_ok r = true -> applied db' = ∅) /\ applied db' ⊆ applied db.
Proof.
  revert db. induction fuel as [|fuel IH]; intros db Hf; [lia|]. cbn [reset_loop].
  destruct (getAppliedMigrations fault db) as [db1 [done | e]] eqn:Eg; apply getApplied_cases in Eg as [[Ha Hs] Hg].
  2: { eexists _, _. split; [reflexivity|]. split; [done|]. by rewrite Ha. }
  assert (done = applied db1) as -> by congruence. destruct (Nat.eqb_spec (size (applied db1)) 0) as [E | E].
  { eexists _, _. split; [reflexivity|]. split; [intros _; by apply map_size_empty_inv|by rewrite Ha]. }
  destruct (MigrateDown run_sql fault now migrations db1) as [db2 [u | e]] eqn:Ed; apply MigrateDown_cases in Ed.
  2: { destruct Ed as [Ha2 _]. eexists _, _. split; [reflexivity|]. split; [done|]. by rewrite Ha2, Ha. }
  destruct Ed as [[H0 _] | [_ (mig & _ & Hd & _ & Hc)]]; [by rewrite H0, map_size_empty in E|]. destruct Hc as [_ Hc]. cbn in Hc.
  destruct (IH db2) as (db' & r & -> & Hok & Hsub).
  - apply elem_of_dom in Hd as [t Ht]. rewrite Hc, map_size_delete, Ht. cbn. rewrite Ha in *. lia.
  - exists db', r. split; [done|]. split; [done|]. transitivity (applied db2); [done|]. rewrite Hc, <- Ha. apply delete_subseteq.
Qed.

(** C35: Migrating up, whichever calls of the driver fail, commits a prefix of the
    pending migrations, in the order of their versions: the database is what their
    scripts make of it, one after the other, exactly their versions are added to
    those applied, and nothing is left of the migration that failed.  The error is
    nil only if all are applied, and otherwise the next migration met an obstacle.
    Rolling back undoes the applied migration of the greatest version, or nothing. *)
Theorem migrations_atomic files db :
  let migrations := loadMigrations files in
  (forall db' r, MigrateUp run_sql fault now migrations db = (db', r) ->
   exists l rest, pending migrations (applied db) = (l ++ rest)%list /\ StronglySorted before l /\ upgraded l db db' /\
     (if is_ok r then rest = [] else (exists n, is_Some (fault n)) \/ exists mig rest', rest = mig :: rest' /\ obstacle mig true db')) /\
  (forall db' r, MigrateDown run_sql fault now migrations db = (db', r) ->
   match r with
   | Ok _ => applied db = ∅ /\ same db' db \/ applied db <> ∅ /\ rolled_back migrations db db'
   | Err _ => same db' db
   end).
Proof.
  intros migrations. split; intros db' r E; [|by apply MigrateDown_cases].
  apply MigrateUp_cases in E as (l & rest & Hp & Hu & Hr); [|apply loaded_once]. exists l, rest. split; [done|]. split; [|done].
  apply (sorted_prefix l rest). rewrite <- Hp. apply pending_sorted, loaded_sorted.
Qed.

(** Resetting ends: each round of its loop rolls back one of the applied
    migrations or fails, so as many rounds as there are applied migrations, and one
    more, are enough, whichever calls fail; and without an error it ends with
    exactly the migrations of the program applied. *)
Theorem reset_terminates files db fuel : (size (applied db) < fuel)%nat ->
  exists db' r, MigrateReset run_sql fault now fuel (loadMigrations files) db = Some (db', r) /\
    (is_ok r = true -> dom (applied db') = list_to_set (map Version (loadMigrations files))).
Proof.
  intros Hf. unfold MigrateReset. destruct (reset_ends fuel (loadMigrations files) db Hf) as (db1 & r1 & -> & Hok & _).
  destruct r1 as [u | e]; [|by exists db1, (Err e)]. destruct (MigrateUp run_sql fault now (loadMigrations files) db1) as [db' r] eqn:E. exists db', r. split; [done|].
  intros Hr. apply MigrateUp_cases in E as (l & rest & Hp & (_ & Hd & _) & Hrest); [|apply loaded_once]. rewrite Hr in Hrest. subst rest.
  rewrite Hd, (Hok eq_refl), dom_empty_L, union_empty_l_L. rewrite app_nil_r in Hp. rewrite <- Hp, (Hok eq_refl). do 2 f_equal.
  unfold pending. clear. induction (loadMigrations files) as [|m l IH]; [done|]. rewrite filter_cons, decide_True by apply lookup_empty. by f_equal.
Qed.

(** Migrating again does nothing. *)
Lemma migrated_twice migrations db db1 db2 r : NoDup (map Version migrations) ->
  MigrateUp run_sql fault now migrations db = (db1, Ok tt) -> MigrateUp run_sql fault now migrations db1 = (db2, r) -> same db2 db1.
Proof.
  intros Hnd E1 E2. apply MigrateUp_cases in E1 as (l & rest & Hp & (_ & Hd & _) & Hr); [|done]. cbn in Hr. subst rest. rewrite app_nil_r in Hp.
  apply MigrateUp_cases in E2 as (l2 & rest & Hp2 & (Hs & Hd2 & Hsub) & _); [|done].
  assert (pending migrations (applied db1) = []) as H0.
  { apply elem_of_nil_inv. intros m [Hnone Hm]%list_elem_of_filter. apply not_elem_of_dom in Hnone. apply Hnone. rewrite Hd. destruct (applied db !! Version m) as [t|] eqn:Em.
    - apply elem_of_union_l, elem_of_dom. by exists t.
    - apply elem_of_union_r, elem_of_list_to_set, list_elem_of_In, List.in_map, list_elem_of_In. rewrite <- Hp. by apply list_elem_of_filter. }
  rewrite H0 in Hp2. symmetry in Hp2. apply app_eq_nil in Hp2 as [-> ->]. split; [|cbn in Hs; congruence].
  symmetry. apply (map_subseteq_size_eq (applied db1)); [done|]. rewrite <- !size_dom, Hd2. cbn. rewrite union_empty_r_L. done.
Qed.
End Correct.

(** ** A database that remembers its scripts *)
Definition log_sql (script : string) (w : list string) : result string (list string) :=
  if String.eqb script "BROKEN" then Err "syntax error" else Ok (w ++ [script])%list.
Definition files : list (string * string) :=
  [("002_users.down.sql", "DROP users"); ("002_users.up.sql", "CREATE users"); ("001_base.up.sql", "CREATE base"); ("001_base.down.sql", "DROP base");
   ("003_more.up.sql", "BROKEN"); ("README.md", "text"); ("notes.sql", "text"); ("004_seed.sql", "text")].
Definition empty_db : DB (list string) := mkDB ∅ [] 0.
Definition never (n : nat) : option string := None.
Definition clock (n : nat) : Z := Z.of_nat n.

(** The third migration fails, and the first two stay. *)
Lemma migrations_atomic_witness : let r := MigrateUp log_sql never clock (loadMigrations files) empty_db in
  schema r.1 = ["CREATE base"; "CREATE users"] /\ r.2 = Err "running migration 003: syntax error" /\
  exists l rest, pending (loadMigrations files) ∅ = (l ++ rest)%list /\ upgraded log_sql l empty_db r.1 /\ rest <> [].
Proof.
  intros r. split; [vm_compute; reflexivity|]. split; [vm_compute; reflexivity|].
  destruct (migrations_atomic log_sql never clock files empty_db) as [H _].
  destruct (H r.1 r.2 (surjective_pairing _)) as (l & rest & Hp & _ & Hu & Hr). exists l, rest. split; [exact Hp|]. split; [exact Hu|].
  replace (is_ok r.2) with false in Hr by (vm_compute; reflexivity).
  destruct Hr as [[n [e He]] | (mig & rest' & -> & _)]; [discriminate He|discriminate].
Defined.
Lemma reset_terminates_witness : let db := mkDB {["001" := 5%Z; "002" := 7%Z]} ["CREATE base"; "CREATE users"] 0 in let migrations := loadMigrations (take 4 files) in
  (size (applied db) < 3)%nat /\
  exists db' r, MigrateReset log_sql never clock 3 migrations db = Some (db', r) /\ r = Ok tt /\ dom (applied db') = {["001"; "002"]} /\
    schema db' = ["CREATE base"; "CREATE users"; "DROP users"; "DROP base"; "CREATE base"; "CREATE users"].
Proof.
  intros db migrations. assert (size (applied db) < 3)%nat as Hs by (vm_compute; lia). split; [exact Hs|].
  destruct (reset_terminates log_sql never clock (take 4 files) db 3 Hs) as (db' & r & E & _). exists db', r. split; [exact E|].
  vm_compute in E. injection E as <- <-. split; [reflexivity|]. split; vm_compute; reflexivity.
Defined.

(** A call that fails leaves the migration out, whichever of its calls it is. *)
Example commit_fails : let r := MigrateUp log_sql (fun n => if Nat.eqb n 6 then Some "connection reset" else None) clock (loadMigrations files) empty_db in
  (schema r.1, r.2) = ([], Err "running migration 001: connection reset").
Proof. vm_compute. reflexivity. Qed.
(** Rolling back takes the greatest version and not the migration applied last:
    here the second was applied before the first. *)
Example late_migration : let db := (MigrateUp log_sql never clock (loadMigrations (take 4 files)) (mkDB {["002" := (-1)%Z]} ["CREATE users"] 0)).1 in
  schema db = ["CREATE users"; "CREATE base"] /\ schema (MigrateDown log_sql never clock (loadMigrations (take 4 files)) db).1 = ["CREATE users"; "CREATE base"; "DROP users"].
Proof. vm_compute. by split. Qed.
(** Versions are compared as texts. *)
Example tenth_before_ninth : map Version (loadMigrations [("9_a.up.sql", "A"); ("10_b.up.sql", "B")]) = ["10"; "9"].
Proof. vm_compute. reflexivity. Qed.
(** A migration without a script to roll back stops every reset. *)
Example no_way_down : let db := (MigrateUp log_sql never clock (loadMigrations [("1_a.up.sql", "A")]) empty_db).1 in
  (MigrateDown log_sql never clock (loadMigrations [("1_a.up.sql", "A")]) db).2 = Err "no down SQL for migration 1".
Proof. vm_compute. reflexivity. Qed.
