(* ===== verification/Health.v ===== *)
(** Health checks: [internal/health] and [internal/health/checks].

    A check looks at the world, which is what it pings or measures; one that does
    not return is [None].  The goroutines of [runChecks] are a list of checks that
    run, and finish in any order, each with its own critical section. *)

From Stdlib Require Import ZArith Lia SpecFloat.
From stdpp Require Import base strings list gmap relations.
From S2P Require Import Prelude GoStrings GoValue.
From S2P Require Retry.

#[local] Open Scope string_scope.

(** Both are texts, and a check of the program's own may answer any. *)
Definition Status : Type := string.
Definition StatusHealthy : Status := "healthy".
Definition StatusUnhealthy : Status := "unhealthy".
Definition StatusDegraded : Status := "degraded".
Definition Severity : Type := string.
Definition SeverityCritical : Severity := "critical".
Definition SeverityWarning : Severity := "warning".

Record CheckResult := mkCheck { cr_Status : Status; cr_Message : string; cr_Duration : Z; cr_Details : option Fields }.
Record Response := mkResponse { Status_ : Status; Timestamp : Z; Version : string; Uptime : Z; Checks : option (gmap string CheckResult) }.

Section Registry.
Context {W : Type}.
Record Checker := mkChecker { Name : string; severity : Severity; check : W -> option CheckResult }.
Record Registry := mkRegistry { checkers : list Checker; startTime : Z; version : string }.
Definition NewRegistry (now : Z) (version : string) : Registry := mkRegistry [] now version.
Definition Register (c : Checker) (r : Registry) : Registry := mkRegistry (checkers r ++ [c])%list (startTime r) (version r).
Definition Liveness (now : Z) (r : Registry) : Response := mkResponse StatusHealthy now (version r) (now - startTime r) None.

(** ** Running checks *)
Record Run := mkRun { running : list Checker; checks : gmap string CheckResult; overallStatus : Status; answered : list (Checker * CheckResult) }.
Definition select (criticalOnly : bool) (l : list Checker) : list Checker :=
  if criticalOnly then filter (fun c => severity c = SeverityCritical) l else l.
Definition start (criticalOnly : bool) (r : Registry) : Run := mkRun (select criticalOnly (checkers r)) ∅ StatusHealthy [].
(** The status after one more result. *)
Definition update (severity : Severity) (result : Status) (overall : Status) : Status :=
  if String.eqb result StatusUnhealthy then
    if String.eqb severity SeverityCritical then StatusUnhealthy
    else if String.eqb overall StatusHealthy then StatusDegraded else overall
  else if String.eqb result StatusDegraded && String.eqb overall StatusHealthy then StatusDegraded else overall.
(** The critical section of a goroutine. *)
Definition finish (running : list Checker) (c : Checker) (r : CheckResult) (x : Run) : Run :=
  mkRun running (<[Name c := r]> (checks x)) (update (severity c) (cr_Status r) (overallStatus x)) (answered x ++ [(c, r)])%list.
Definition timed (began ended : Z) (r : CheckResult) : CheckResult := mkCheck (cr_Status r) (cr_Message r) (ended - began) (cr_Details r).
Inductive step : Run -> Run -> Prop :=
| step_finish a c b x w r began ended : running x = (a ++ c :: b)%list -> check c w = Some r ->
    step x (finish (a ++ b) c (timed began ended r) x).
(** What [wg.Wait()] lets through. *)
Definition runChecks (now : Z) (r : Registry) (x : Run) : option Response :=
  match running x with
  | [] => Some (mkResponse (overallStatus x) now (version r) (now - startTime r) (Some (checks x)))
  | _ => None
  end.

(** ** Serving *)
Definition StatusOK : Z := 200.
Definition StatusServiceUnavailable : Z := 503.
Definition writeResponse (resp : Response) : Z * Response :=
  (if String.eqb (Status_ resp) StatusUnhealthy then StatusServiceUnavailable else StatusOK, resp).
Definition served (now : Z) (r : Registry) (x : Run) : option (Z * Response) := option_map writeResponse (runChecks now r x).
Definition LivenessHandler (now : Z) (r : Registry) : Z * Response := writeResponse (Liveness now r).
End Registry.
Arguments Checker : clear implicits.
Arguments Registry : clear implicits.
Arguments Run : clear implicits.

(** ** The checks of the program *)
Definition pass (details : option Fields) : CheckResult := mkCheck StatusHealthy "" 0 details.
Definition fail (message : string) : CheckResult := mkCheck StatusUnhealthy message 0 None.
(** What the checks look at: the answers of [Ping] and [PingContext] within the
    time-out given, if they come; the pool; the file system; the memory. *)
Record PoolStats := mkPool { MaxOpenConnections : Z; OpenConnections : Z; InUse : Z; Idle : Z }.
Record Statfs := mkStatfs { Blocks : Z; Bavail : Z; Bsize : Z }.
Record MemStats := mkMem { Alloc : Z; Sys : Z; NumGC : Z; goroutines : Z }.
Record Machine := mkMachine {
  cache_ping : Z -> option (option string); db_ping : Z -> option (option string); pool : PoolStats;
  statfs : string -> result string Statfs; memory : MemStats
}.
Definition ping_check (name verb : string) (severity : Severity) (ping : Machine -> option (option string)) (details : Machine -> option Fields) : Checker Machine :=
  mkChecker name severity (fun m =>
    match ping m with
    | None => None
    | Some (Some e) => Some (fail (verb ++ " ping failed: " ++ e))
    | Some None => Some (pass (details m))
    end).
Definition NewCacheChecker (timeout : Z) (severity : Severity) : Checker Machine :=
  ping_check "cache" "cache" severity (fun m => cache_ping m timeout) (fun _ => None).
Definition pool_details (p : PoolStats) : Fields :=
  list_to_map [("max_connections", VInt (MaxOpenConnections p)); ("open_connections", VInt (OpenConnections p)); ("in_use", VInt (InUse p)); ("idle", VInt (Idle p))].
Definition NewDatabaseChecker (timeout : Z) (severity : Severity) : Checker Machine :=
  ping_check "database" "database" severity (fun m => db_ping m timeout) (fun m => Some (pool_details (pool m))).
Definition NewCustomChecker {W} (name : string) (checkFn : W -> option CheckResult) (severity : Severity) : Checker W := mkChecker name severity checkFn.

Section Measures.
(** [%.2f]. *)
Variable show2 : spec_float -> string.
Definition f_div (a b : spec_float) : spec_float := SFdiv 53 1024 a b.
Definition percent (a b : Z) : spec_float := Retry.f_mul (f_div (Retry.f_of_int a) (Retry.f_of_int b)) (Retry.f_of_int 100).
Definition scaled (n : nat) (a : Z) : spec_float := Nat.iter n (fun x => f_div x (Retry.f_of_int 1024)) (Retry.f_of_int a).
Definition uint64 (z : Z) : Z := (z mod 2 ^ 64)%Z.
Definition NewDiskChecker (path : string) (threshold : spec_float) (severity : Severity) : Checker Machine :=
  mkChecker "disk" severity (fun m => Some
    match statfs m path with
    | Err e => fail ("failed to get disk stats for " ++ path ++ ": " ++ e)
    | Ok stat =>
        let totalBytes := uint64 (Blocks stat * uint64 (Bsize stat)) in
        let freeBytes := uint64 (Bavail stat * uint64 (Bsize stat)) in
        let usedBytes := uint64 (totalBytes - freeBytes) in
        let freePercent := percent freeBytes totalBytes in
        let low := SFltb freePercent threshold in
        mkCheck (if low then StatusDegraded else StatusHealthy)
          (if low then "disk free space " ++ show2 freePercent ++ "% below threshold " ++ show2 threshold ++ "%" else "") 0
          (Some (list_to_map [("path", VString path); ("total_gb", VString (show2 (scaled 3 totalBytes))); ("free_gb", VString (show2 (scaled 3 freeBytes)));
                              ("used_gb", VString (show2 (scaled 3 usedBytes))); ("free_percent", VString (show2 freePercent));
                              ("used_percent", VString (show2 (percent usedBytes totalBytes)))]))
    end).
Definition NewMemoryChecker (threshold : spec_float) (severity : Severity) : Checker Machine :=
  mkChecker "memory" severity (fun m => Some
    (let usagePercent := percent (Alloc (memory m)) (Sys (memory m)) in
     let high := SFltb threshold usagePercent in
     mkCheck (if high then StatusDegraded else StatusHealthy)
       (if high then "memory usage " ++ show2 usagePercent ++ "% exceeds threshold " ++ show2 threshold ++ "%" else "") 0
       (Some (list_to_map [("alloc_mb", VString (show2 (scaled 2 (Alloc (memory m))))); ("sys_mb", VString (show2 (scaled 2 (Sys (memory m)))));
                           ("usage_percent", VString (show2 usagePercent)); ("num_gc", VOther "uint32"); ("goroutines", VInt (goroutines (memory m)))])))).
End Measures.
(** The settings without options. *)
Definition default_cache : Checker Machine := NewCacheChecker Second SeverityCritical.
Definition default_database : Checker Machine := NewDatabaseChecker (2 * Second) SeverityCritical.
Definition default_disk (show2 : spec_float -> string) (path : string) : Checker Machine := NewDiskChecker show2 path (Retry.f_of_int 10) SeverityWarning.
Definition default_memory (show2 : spec_float -> string) : Checker Machine := NewMemoryChecker show2 (Retry.f_of_int 90) SeverityWarning.

(** * What a response says *)
Section Correct.
Context {W : Type}.
Implicit Types (r : Registry W) (x y : Run W) (l : list (Checker W * CheckResult)).

Definition critical_failure (p : Checker W * CheckResult) : bool := String.eqb (cr_Status p.2) StatusUnhealthy && String.eqb (severity p.1) SeverityCritical.
Definition trouble (p : Checker W * CheckResult) : bool := String.eqb (cr_Status p.2) StatusUnhealthy || String.eqb (cr_Status p.2) StatusDegraded.
(** The status of results, whatever their order. *)
Definition worst l : Status := if existsb critical_failure l then StatusUnhealthy else if existsb trouble l then StatusDegraded else StatusHealthy.

Lemma worst_snoc l p : worst (l ++ [p]) = update (severity p.1) (cr_Status p.2) (worst l).
Proof.
  unfold worst, update. rewrite !existsb_app. cbn [existsb]. rewrite !orb_false_r. unfold critical_failure, trouble.
  destruct (String.eqb (cr_Status p.2) StatusUnhealthy) eqn:E1; destruct (String.eqb (severity p.1) SeverityCritical) eqn:E2;
  destruct (String.eqb (cr_Status p.2) StatusDegraded) eqn:E3; cbn [andb orb];
  fold critical_failure trouble; destruct (existsb critical_failure l), (existsb trouble l); reflexivity.
Qed.
Lemma worst_unhealthy l : worst l = StatusUnhealthy <-> exists p, p ∈ l /\ cr_Status p.2 = StatusUnhealthy /\ severity p.1 = SeverityCritical.
Proof.
  unfold worst. destruct (existsb critical_failure l) eqn:E.
  - apply List.existsb_exists in E as (p & Hp & [H1%String.eqb_eq H2%String.eqb_eq]%andb_true_iff). split; [intros _|done]. exists p. split; [by apply list_elem_of_In|done].
  - split; [by destruct (existsb trouble l)|]. intros (p & Hp & H1 & H2). apply not_true_iff_false in E. exfalso. apply E, List.existsb_exists.
    exists p. split; [by apply list_elem_of_In|]. unfold critical_failure. by rewrite H1, H2.
Qed.

(** What holds while the checks run. *)
Record good (selected : list (Checker W)) x : Prop := {
  g_all : Permutation (running x ++ map fst (answered x)) selected;
  g_status : overallStatus x = worst (answered x);
  g_names : forall n, is_Some (checks x !! n) <-> n ∈ map (fun p => Name p.1) (answered x);
  g_entry : forall n res, checks x !! n = Some res -> exists c, (c, res) ∈ answered x /\ Name c = n;
  g_answers : forall c res, (c, res) ∈ answered x -> exists w raw, check c w = Some raw /\ cr_Status res = cr_Status raw
}.
Lemma good_start co r : good (select co (checkers r)) (start co r).
Proof.
  split; cbn.
  - by rewrite app_nil_r.
  - done.
  - intros n. rewrite lookup_empty. split; [by intros []|intros []%not_elem_of_nil].
  - intros n res. by rewrite lookup_empty.
  - intros c res []%not_elem_of_nil.
Qed.
Lemma good_step selected x y : good selected x -> step x y -> good selected y.
Proof.
  intros Hg Hs. destruct Hs as [a c b x w raw began ended Hr Hc], Hg as [H1 H2 H3 H4 H5]. split; cbn.
  - rewrite map_app. cbn. rewrite <- H1, Hr. solve_Permutation.
  - rewrite worst_snoc. cbn. by rewrite H2.
  - intros n. rewrite map_app. cbn. rewrite elem_of_app, list_elem_of_singleton, <- H3. destruct (decide (n = Name c)) as [-> | Hne].
    + rewrite lookup_insert_eq. split; [by right|by eexists].
    + rewrite lookup_insert_ne by done. naive_solver.
  - intros n res. destruct (decide (n = Name c)) as [-> | Hne].
    + rewrite lookup_insert_eq. intros [= <-]. exists c. split; [|done]. apply elem_of_app. right. by left.
    + rewrite lookup_insert_ne by done. intros (c' & Hin & Hn)%H4. exists c'. split; [|done]. apply elem_of_app. by left.
  - intros c' res [Hin | [= -> ->]%list_elem_of_singleton]%elem_of_app; [by apply H5|]. by exists w, raw.
Qed.
Lemma good_run co r x : rtc step (start co r) x -> good (select co (checkers r)) x.
Proof. apply (rtc_ind_r (R := step) (good (select co (checkers r)))); [apply good_start|]. intros y z _ Hs Hg. by apply good_step with y. Qed.

(** A check that can return. *)
Definition returns (c : Checker W) : Prop := exists w, is_Some (check c w).
Lemma run_all x : Forall returns (running x) -> exists y, rtc step x y /\ running y = [].
Proof.
  remember (running x) as l eqn:El. intros Hl. revert x El. induction Hl as [|c l [w [raw Hw]] Hl IH]; intros x El; [by exists x|].
  destruct (IH (finish l c (timed 0 0 raw) x) eq_refl) as (y & Hy & Hn). exists y. split; [|done]. eapply rtc_l; [|exact Hy].
  apply (step_finish [] c l x w raw 0 0); [by rewrite <- El|done].
Qed.
Lemma runChecks_Some now r x resp : runChecks now r x = Some resp -> running x = [] /\ Status_ resp = overallStatus x /\ Checks resp = Some (checks x).
Proof. unfold runChecks. destruct (running x); [|done]. by intros [= <-]. Qed.

(** Whether a response is possible at all. *)
Lemma answered_iff co r : (exists x now, rtc step (start co r) x /\ is_Some (runChecks now r x)) <-> Forall returns (select co (checkers r)).
Proof.
  split.
  - intros (x & now & Hx & resp & E). apply good_run in Hx as [H1 _ _ _ H5]. apply runChecks_Some in E as (Hr & _). rewrite Hr in H1. cbn in H1.
    rewrite <- H1. apply Forall_forall. intros c Hc. apply list_elem_of_In, List.in_map_iff in Hc as ([c' res] & <- & Hc).
    apply list_elem_of_In, H5 in Hc as (w & raw & Hw & _). exists w. by exists raw.
  - intros Hall. destruct (run_all (start co r) Hall) as (y & Hy & Hn). exists y, 0%Z. split; [done|]. unfold runChecks. rewrite Hn. by eexists.
Qed.

(** Whatever order the checks finish in, a response says the worst of their
    answers: it is unhealthy, and served with 503, exactly when a critical check
    answered so, and degraded when another is unhealthy or any is degraded.  Every
    check that was selected has answered once, and its name has an entry with the
    answer of a check of that name.  A response is possible exactly when all
    selected checks can return. *)
Theorem health_reported co r :
  (forall x now resp, rtc step (start co r) x -> runChecks now r x = Some resp ->
     Permutation (map fst (answered x)) (select co (checkers r)) /\ Status_ resp = worst (answered x) /\
     ((writeResponse resp).1 = StatusServiceUnavailable <-> exists p, p ∈ answered x /\ cr_Status p.2 = StatusUnhealthy /\ severity p.1 = SeverityCritical) /\
     exists results, Checks resp = Some results /\ dom results = list_to_set (map Name (select co (checkers r))) /\
       forall n res, results !! n = Some res -> exists c, (c, res) ∈ answered x /\ Name c = n) /\
  ((exists x now, rtc step (start co r) x /\ is_Some (runChecks now r x)) <-> Forall returns (select co (checkers r))).
Proof.
  split; [|split].
  - intros x now resp Hx E. apply good_run in Hx as [H1 H2 H3 H4 _]. apply runChecks_Some in E as (Hr & Hs & Hc). rewrite Hr in H1. cbn in H1.
    split; [done|]. split; [congruence|]. split.
    + rewrite <- worst_unhealthy, <- H2, <- Hs. unfold writeResponse. destruct (String.eqb_spec (Status_ resp) StatusUnhealthy); cbn; naive_solver.
    + exists (checks x). split; [done|]. split; [|done]. apply set_eq. intros n. rewrite elem_of_dom, H3, elem_of_list_to_set.
      rewrite <- (List.map_map fst Name). by rewrite H1.
  - by apply answered_iff.
  - by apply answered_iff.
Qed.

(** Two runs with the same answers say the same. *)
Lemma order_irrelevant co r x y now1 now2 resp1 resp2 : rtc step (start co r) x -> rtc step (start co r) y ->
  runChecks now1 r x = Some resp1 -> runChecks now2 r y = Some resp2 -> Permutation (answered x) (answered y) -> Status_ resp1 = Status_ resp2.
Proof.
  intros Hx Hy E1 E2 Hp. apply good_run in Hx as [_ H1 _ _ _], Hy as [_ H2 _ _ _]. apply runChecks_Some in E1 as (_ & -> & _), E2 as (_ & -> & _).
  rewrite H1, H2. unfold worst. assert (forall f, existsb f (answered x) = existsb f (answered y)) as Hf.
  { intros f. apply eq_true_iff_eq. rewrite !List.existsb_exists. split; intros (p & Hin & Ht); exists p; (split; [|done]);
      [by apply (Permutation_in p Hp)|by apply (Permutation_in p (Permutation_sym Hp))]. }
  by rewrite !Hf.
Qed.
End Correct.

(** ** The checks of the program *)
Definition broken_cache : Machine := mkMachine (fun _ => Some (Some "connection refused")) (fun _ => Some None) (mkPool 10 2 1 1)
  (fun _ => Ok (mkStatfs 1000 50 4096)) (mkMem 1 2 3 4).
Definition no_show (f : spec_float) : string := "".
Definition system : Registry Machine := Register (default_disk no_show "/") (Register default_cache (Register default_database (NewRegistry 0 "1.0"))).
(** All checks of a system in one world, in the order they were registered. *)
Definition run_in {W} (w : W) (x : Run W) : Run W :=
  fold_left (fun x c => match check c w with Some raw => finish (tail (running x)) c (timed 0 0 raw) x | None => x end) (running x) x.
Example cache_down : option_map (fun p => (p.1, Status_ p.2)) (served 9 system (run_in broken_cache (start true system))) = Some (503%Z, StatusUnhealthy).
Proof. vm_compute. reflexivity. Qed.
Definition low_disk : Machine := mkMachine (fun _ => Some None) (fun _ => Some None) (mkPool 10 2 1 1) (fun _ => Ok (mkStatfs 1000 50 4096)) (mkMem 1 2 3 4).
Example disk_low : option_map (fun p => (p.1, Status_ p.2)) (served 9 system (run_in low_disk (start false system))) = Some (200%Z, StatusDegraded).
Proof. vm_compute. reflexivity. Qed.

Lemma health_reported_witness : exists x resp, rtc step (start true system) x /\ runChecks 9 system x = Some resp /\
  Status_ resp = StatusUnhealthy /\ worst (answered x) = StatusUnhealthy.
Proof.
  destruct (health_reported true system) as [H _]. set (x := run_in broken_cache (start true system)).
  assert (rtc step (start true system) x) as Hx.
  { eapply rtc_l; [eapply (step_finish [] default_database [default_cache] _ broken_cache _ 0 0); reflexivity|].
    eapply rtc_l; [eapply (step_finish [] default_cache [] _ broken_cache _ 0 0); reflexivity|]. apply rtc_refl. }
  destruct (runChecks 9 system x) as [resp|] eqn:E; [|discriminate E]. exists x, resp. split; [exact Hx|]. split; [exact E|].
  destruct (H x 9%Z resp Hx E) as (_ & Hs & _). split; [rewrite Hs|]; vm_compute; reflexivity.
Defined.

(** A check that does not look at its context keeps the answer waiting, whatever
    the time-out of the registry. *)
Definition stuck : Checker Machine := NewCustomChecker "stuck" (fun _ => None) SeverityWarning.
Example no_answer : ~ exists x now, rtc step (start false (Register stuck system)) x /\ is_Some (runChecks now (Register stuck system) x).
Proof. rewrite answered_iff. intros H. apply Forall_forall with (x := stuck) in H; [by destruct H as [w [r Hr]]|]. cbn. set_solver. Qed.
(** Two checks of one name share an entry: a failing database may be reported as
    healthy under its name, although the status is not. *)
Definition replica : Checker Machine := NewCustomChecker "database" (fun _ => Some (fail "replica down")) SeverityWarning.
Example same_name : let r := Register default_database (Register replica (NewRegistry 0 "1.0")) in
  option_map (fun resp => (Status_ resp, option_map (fun m => cr_Status (default (fail "") (m !! "database"))) (Checks resp))) (runChecks 9 r (run_in low_disk (start false r)))
  = Some (StatusDegraded, Some StatusHealthy).
Proof. vm_compute. reflexivity. Qed.
(** A status that is none of the three counts as healthy. *)
Example unknown_status : let r := Register (NewCustomChecker "x" (fun _ : Machine => Some (mkCheck "down" "" 0 None)) SeverityCritical) (NewRegistry 0 "1.0") in
  option_map Status_ (runChecks 9 r (run_in low_disk (start false r))) = Some StatusHealthy.
Proof. vm_compute. reflexivity. Qed.
