(* ===== verification/QueryExecutor.v ===== *)
(** The executor and the query builder: [internal/query/executor.go].

    The database is a record of operations on its state, with what their answers
    are read into.  Queries share their condition: a builder keeps a reference
    into a heap of [WhereClause]s. *)

From Stdlib Require Import ZArith Lia.
From stdpp Require Import base strings list gmap.
From S2P Require Import Prelude GoStrings GoText QueryAst QueryTokens QueryParser QueryCompiler.

#[local] Open Scope string_scope.

(** ** The database *)
Section Executor.
Context {W V : Type}.

(** The rows of an answer: its columns, each row as it is scanned, and the error
    that ended them. *)
Record Rows := mkRows { rows_Columns : result string (list string); rows_scanned : list (result string (list V)); rows_Err : option string }.
Record DB := mkDB {
  QueryContext : string -> list Value -> W -> W * result string Rows;
  (* [QueryRowContext], scanned into an integer and into anything *)
  QueryRow_int : string -> list Value -> W -> W * result string Z;
  QueryRow_any : string -> list Value -> W -> W * result string V;
  (* [ExecContext], and the rows affected *)
  ExecContext : string -> list Value -> W -> W * result string (result string Z)
}.

Inductive ExecError := QueryErr (e : QueryError) | ParseErr (e : ParseError) | DriverErr (e : string).
Definition NewExecutionError (message : string) : ExecError := QueryErr (mkQueryError no_position (MsgText message) ErrorExecution None).

Variable sprint_rest : Value -> string.
Variable db : DB.

(** ** The executor: the compiler it shares with every query, and the database. *)
Definition State : Type := SQLCompiler * W.
Definition NewExecutor (entities : list (string * EntityMeta)) : SQLCompiler := NewSQLCompiler entities.

Fixpoint scan_loop (columns : list string) (rows : list (result string (list V))) (results : list (gmap string V)) : result ExecError (list (gmap string V)) :=
  match rows with
  | [] => Ok results
  | Err e :: _ => Err (NewExecutionError e)
  | Ok values :: rows' =>
      scan_loop columns rows' (results ++ [fold_left (fun row p => <[p.1 := p.2]> row) (combine columns values) ∅])
  end.
Definition scanRows (rows : Rows) : result ExecError (list (gmap string V)) :=
  match rows_Columns rows with
  | Err e => Err (NewExecutionError e)
  | Ok columns =>
      match scan_loop columns (rows_scanned rows) [] with
      | Err e => Err e
      | Ok results => match rows_Err rows with Some e => Err (NewExecutionError e) | None => Ok results end
      end
  end.

(** A compiled query is sent with [send]. *)
Definition send_compiled {A} (q : Query) (send : string -> list Value -> W -> W * result ExecError A) (s : State) : State * result ExecError A :=
  match Compile sprint_rest q s.1 with
  | (c, Err e) => ((c, s.2), Err (QueryErr e))
  | (c, Ok compiled) => let '(w, r) := send (SQL compiled) (Params compiled) s.2 in ((c, w), r)
  end.
Definition execution {A B} (k : A -> result ExecError B) (r : result string A) : result ExecError B :=
  match r with Ok a => k a | Err e => Err (NewExecutionError e) end.

Definition send_rows (sql : string) (args : list Value) (w : W) : W * result ExecError (list (gmap string V)) :=
  let '(w, r) := QueryContext db sql args w in (w, execution scanRows r).
Definition Execute (q : Query) : State -> State * result ExecError (list (gmap string V)) := send_compiled q send_rows.
Definition ExecuteString (queryStr : string) (s : State) : option (State * result ExecError (list (gmap string V))) :=
  match Parse queryStr with
  | None => None
  | Some (Err e) => Some (s, Err (ParseErr e))
  | Some (Ok q) => Some (Execute q s)
  end.
Definition count_query (q : Query) : Query :=
  match q_Type q with
  | QueryCount => q
  | _ => mkQuery QueryCount (q_Entity q) [] (q_Where q) [] None None [] [] None [] ""
  end.
Definition send_count (sql : string) (args : list Value) (w : W) : W * result ExecError Z :=
  let '(w, r) := QueryRow_int db sql args w in (w, execution Ok r).
Definition ExecuteCount (q : Query) : State -> State * result ExecError Z := send_compiled (count_query q) send_count.
Definition send_any (sql : string) (args : list Value) (w : W) : W * result ExecError V :=
  let '(w, r) := QueryRow_any db sql args w in (w, execution Ok r).
Definition ExecuteAggregate (q : Query) : State -> State * result ExecError V := send_compiled q send_any.
Definition affected (sql : string) (args : list Value) (w : W) : W * result ExecError Z :=
  let '(w, r) := ExecContext db sql args w in
  (w, execution (fun n => match n with Ok n => Ok n | Err e => Err (DriverErr e) end) r).
Definition ExecuteUpdate (q : Query) (s : State) : State * result ExecError Z :=
  match q_Type q with
  | QueryUpdate => send_compiled q affected s
  | _ => (s, Err (QueryErr (NewCompilerError (MsgText "expected UPDATE query"))))
  end.
Definition ExecuteDelete (q : Query) (s : State) : State * result ExecError Z :=
  match q_Type q with
  | QueryDelete => send_compiled q affected s
  | _ => (s, Err (QueryErr (NewCompilerError (MsgText "expected DELETE query"))))
  end.
(** The limit is set in the caller's query. *)
Definition ExecuteOne (q : Query) (s : State) : Query * (State * result ExecError (option (gmap string V))) :=
  let q := match q_Limit q with None => set_Limit 1 q | Some _ => q end in
  (q, match Execute q s with
      | (s, Err e) => (s, Err e)
      | (s, Ok results) => (s, Ok (head results))
      end).
End Executor.
Arguments Rows : clear implicits.
Arguments DB : clear implicits.

(** ** The builder

    The conditions of a query are an object that others may share. *)
Abbreviation Heap := (gmap positive WhereClause).
Record QueryBuilder := mkBuilder { query : Query; where_ : option positive }.
(** The query as it is when it is used; [Build] hands out the builder's own. *)
Definition resolve (h : Heap) (qb : QueryBuilder) : Query := set_Where (r ← where_ qb; h !! r) (query qb).

Definition Select (entity : string) : QueryBuilder := mkBuilder (set_Entity entity (empty_query QuerySelect)) None.
Definition Count (entity : string) : QueryBuilder := mkBuilder (set_Entity entity (empty_query QueryCount)) None.
Definition Update (entity : string) : QueryBuilder := mkBuilder (set_Entity entity (empty_query QueryUpdate)) None.
Definition Delete (entity : string) : QueryBuilder := mkBuilder (set_Entity entity (empty_query QueryDelete)) None.
Definition on_query (f : Query -> Query) (qb : QueryBuilder) : QueryBuilder := mkBuilder (f (query qb)) (where_ qb).
Definition Fields (fields : list string) : QueryBuilder -> QueryBuilder := on_query (set_Fields fields).
Definition add_condition (cond : Condition) (w : WhereClause) : WhereClause := mkWhere (w_Conditions w ++ [cond]) (w_Operator w) (w_Groups w).
Definition Where (field : string) (op : CompareOp) (value : Value) (h : Heap) (qb : QueryBuilder) : Heap * QueryBuilder :=
  let cond := mkCond field op value false None None in
  let '(h, r) := match where_ qb with
                 | Some r => (h, r)
                 | None => let r := fresh (dom h) in (<[r := mkWhere [] LogicalAnd []]> h, r)
                 end in
  (alter (add_condition cond) r h, mkBuilder (query qb) (Some r)).
(** [WhereClause where]: the caller's object, or [nil]. *)
Definition set_clause (r : option positive) (qb : QueryBuilder) : QueryBuilder := mkBuilder (query qb) r.
Definition OrderBy (field : string) (direction : OrderDirection) : QueryBuilder -> QueryBuilder :=
  on_query (fun q => set_OrderBy (q_OrderBy q ++ [mkOrder field direction]) q).
Definition Limit (n : Z) : QueryBuilder -> QueryBuilder := on_query (set_Limit n).
Definition Offset (n : Z) : QueryBuilder -> QueryBuilder := on_query (set_Offset n).
Definition Include_ (relations : list string) : QueryBuilder -> QueryBuilder := on_query (fun q => set_Include (q_Include q ++ relations) q).
Definition add_update (field : string) (value : Value) (op : UpdateOp) : QueryBuilder -> QueryBuilder :=
  on_query (fun q => set_Updates (q_Updates q ++ [mkUpdate field value op]) q).
Definition Set_ (field : string) (value : Value) : QueryBuilder -> QueryBuilder := add_update field value UpdateSetValue.
Definition Increment (field : string) (value : Value) : QueryBuilder -> QueryBuilder := add_update field value UpdateIncrement.
Definition Decrement (field : string) (value : Value) : QueryBuilder -> QueryBuilder := add_update field value UpdateDecrement.
Section Run.
Context {W V : Type}.
Variables (sprint_rest : Value -> string) (db : DB W V).
Definition builder_Execute (h : Heap) (qb : QueryBuilder) : State (W := W) -> State * result ExecError (list (gmap string V)) :=
  Execute sprint_rest db (resolve h qb).
Definition builder_ExecuteOne (h : Heap) (qb : QueryBuilder) (s : State (W := W)) : QueryBuilder * (State * result ExecError (option (gmap string V))) :=
  let '(q, r) := ExecuteOne sprint_rest db (resolve h qb) s in (mkBuilder (set_Where None q) (where_ qb), r).
End Run.

(** * What reaches the database *)
Section Correct.
Context {W V : Type}.
Variables (sprint_rest : Value -> string) (db : DB W V).

(** Nothing is sent: the database is as it was. *)
Definition refused {A} (s s' : State (W := W)) (r : result ExecError A) : Prop := s'.2 = s.2 /\ exists e, r = Err e.
(** One statement is sent for [q], with [send]: its placeholders are numbered in
    order, one for each of the operands of [q], which are sent apart. *)
Definition sent {A} (q : Query) (send : string -> list Value -> W -> W * result ExecError A) (s s' : State (W := W)) (r : result ExecError A) : Prop :=
  exists sql args, query_values sprint_rest (entities s.1) q = Some args /\ placeholders sql = Some (map Itoa (seqZ 1 (Z.of_nat (length args)))) /\
    (s'.2, r) = send sql args s.2.

Lemma send_compiled_cases {A} q (send : string -> list Value -> W -> W * result ExecError A) s s' r :
  send_compiled sprint_rest q send s = (s', r) ->
  match query_values sprint_rest (entities s.1) q with Some _ => sent q send s s' r | None => refused s s' r end.
Proof.
  unfold send_compiled, sent, refused. pose proof (compiled_values sprint_rest s.1 q) as Hv.
  destruct (query_values sprint_rest (entities s.1) q) as [vs|].
  - destruct Hv as (c' & compiled & E & Hp). rewrite E. destruct (send (SQL compiled) (Params compiled) s.2) as [w r'] eqn:Es. intros [= <- <-].
    exists (SQL compiled), vs. split; [done|]. split; [rewrite <- Hp; by apply (compiled_placeholders sprint_rest s.1 c' q)|]. by rewrite <- Hp, Es.
  - destruct Hv as (c' & e & ->). intros [= <- <-]. split; [done|]. by eexists.
Qed.
Lemma send_compiled_entities {A} q (send : string -> list Value -> W -> W * result ExecError A) s s' r :
  send_compiled sprint_rest q send s = (s', r) -> entities s'.1 = entities s.1.
Proof.
  unfold send_compiled. pose proof (Compile_entities sprint_rest s.1 q) as He. destruct (Compile sprint_rest q s.1) as [c [compiled | e]]; cbn in He.
  - destruct (send _ _ _) as [w r']. by intros [= <- <-].
  - by intros [= <- <-].
Qed.
(** The outcome of a query: sent when it has operands, else refused. *)
Definition outcome {A} (q : Query) (send : string -> list Value -> W -> W * result ExecError A) (s s' : State (W := W)) (r : result ExecError A) : Prop :=
  match query_values sprint_rest (entities s.1) q with Some _ => sent q send s s' r | None => refused s s' r end.

(** C26: For every text the executor returns, and either it is refused, as a text
    that does not parse or a query that does not compile, and the database is not
    touched; or exactly one statement is sent, whose placeholders outside quotes
    are numbered in order and match the operands of the query, which are sent apart
    from it, and the result is what the database's answer is read as.  The same
    holds for the other ways to execute a query; updates and deletions are refused
    for queries of another type. *)
Theorem statements_sent (s : State (W := W)) :
  (forall text, exists s' r, ExecuteString sprint_rest db text s = Some (s', r) /\ entities s'.1 = entities s.1 /\
     match Parse text with Some (Ok q) => outcome q (send_rows db) s s' r | _ => refused s s' r end) /\
  (forall q s' r, ExecuteCount sprint_rest db q s = (s', r) -> q_Type (count_query q) = QueryCount /\ q_Where (count_query q) = q_Where q /\
     outcome (count_query q) (send_count db) s s' r) /\
  (forall q s' r, ExecuteAggregate sprint_rest db q s = (s', r) -> outcome q (send_any db) s s' r) /\
  (forall q s' r, ExecuteUpdate sprint_rest db q s = (s', r) -> if decide (q_Type q = QueryUpdate) then outcome q (affected db) s s' r else refused s s' r) /\
  (forall q s' r, ExecuteDelete sprint_rest db q s = (s', r) -> if decide (q_Type q = QueryDelete) then outcome q (affected db) s s' r else refused s s' r).
Proof.
  split; [|split; [|split; [|split]]].
  - intros text. unfold ExecuteString. destruct (Parse_returns text) as (p & -> & _). destruct p as [q | e].
    + destruct (Execute sprint_rest db q s) as [s' r] eqn:E. exists s', r. split; [done|]. unfold Execute in E.
      split; [by apply send_compiled_entities in E|by apply send_compiled_cases].
    + exists s, (Err (ParseErr e)). split; [done|]. split; [done|]. split; [done|by eexists].
  - intros q s' r E. split; [by destruct q as [[] ???????????]|]. split; [by destruct q as [[] ???????????]|]. by apply send_compiled_cases.
  - intros q s' r. apply send_compiled_cases.
  - intros q s' r. unfold ExecuteUpdate. destruct (decide (q_Type q = QueryUpdate)) as [-> | Hn]; [apply send_compiled_cases|].
    destruct (q_Type q); try done; intros [= <- <-]; (split; [done|by eexists]).
  - intros q s' r. unfold ExecuteDelete. destruct (decide (q_Type q = QueryDelete)) as [-> | Hn]; [apply send_compiled_cases|].
    destruct (q_Type q); try done; intros [= <- <-]; (split; [done|by eexists]).
Qed.

(** One executor after the other queries does what a new one does. *)
Lemma executor_stateless q (c : SQLCompiler) (w : W) :
  Execute sprint_rest db q (c, w) = Execute sprint_rest db q (NewExecutor (entities c), w).
Proof. done. Qed.
End Correct.

(** ** Builders *)
Definition where_all (conds : list (string * CompareOp * Value)) (hq : Heap * QueryBuilder) : Heap * QueryBuilder :=
  fold_left (fun '(h, qb) '(f, op, v) => Where f op v h qb) conds hq.
Definition conditions (conds : list (string * CompareOp * Value)) : list Condition :=
  map (fun '(f, op, v) => mkCond f op v false None None) conds.
Lemma Where_shared f op v h qb r w : where_ qb = Some r -> h !! r = Some w ->
  Where f op v h qb = (<[r := add_condition (mkCond f op v false None None) w]> h, qb).
Proof.
  intros Hr Hw. unfold Where. rewrite Hr. destruct qb as [q o]. cbn in *. subst o. f_equal. apply map_eq. intros i. destruct (decide (i = r)) as [-> | Hn].
  - by rewrite lookup_alter_eq, lookup_insert_eq, Hw.
  - by rewrite lookup_alter_ne, lookup_insert_ne by done.
Qed.
Lemma where_all_shared conds h qb r w : where_ qb = Some r -> h !! r = Some w ->
  where_all conds (h, qb) = (<[r := mkWhere (w_Conditions w ++ conditions conds) (w_Operator w) (w_Groups w)]> h, qb).
Proof.
  revert h w. induction conds as [|[[f op] v] conds IH]; intros h w Hr Hw.
  - cbn. rewrite app_nil_r. destruct w as [cs op gs]. by rewrite insert_id.
  - cbn [where_all fold_left]. fold (where_all conds). rewrite (Where_shared _ _ _ _ _ r w) by done. unfold where_all in IH.
    rewrite (IH _ (add_condition (mkCond f op v false None None) w)) by (done || apply lookup_insert_eq). rewrite insert_insert_eq. cbn.
    by rewrite <- (assoc_L app).
Qed.
(** A builder conjoins its conditions in the order in which they are added, and
    touches no other object. *)
Lemma builder_conjoins f op v conds h qb : where_ qb = None ->
  let '(h', qb') := where_all ((f, op, v) :: conds) (h, qb) in
  resolve h' qb' = set_Where (Some (mkWhere (conditions ((f, op, v) :: conds)) LogicalAnd [])) (query qb) /\
  forall r, r ∈ dom h -> h' !! r = h !! r.
Proof.
  intros Hn. cbn [where_all fold_left]. fold (where_all conds). destruct (Where f op v h qb) as [h1 qb1] eqn:E1. unfold Where in E1. rewrite Hn in E1. injection E1 as <- <-.
  set (r0 := fresh (dom h)). rewrite (where_all_shared conds _ _ r0 (mkWhere [mkCond f op v false None None] LogicalAnd [])); [|done|].
  - split.
    + unfold resolve. cbn. by rewrite lookup_insert_eq.
    + intros r Hr. assert (r <> r0) by (intros ->; by apply (is_fresh (dom h))). by rewrite lookup_insert_ne, lookup_alter_ne, lookup_insert_ne by done.
  - by rewrite lookup_alter_eq, lookup_insert_eq.
Qed.

(** ** A database that writes down what it is sent *)
Definition Log : Type := list (string * list Value).
Definition recorder : DB Log Z := mkDB
  (fun sql args w => ((w ++ [(sql, args)])%list, Ok (mkRows (Ok ["id"; "age"]) [Ok [1%Z; 20%Z]; Ok [2%Z; 30%Z]] None)))
  (fun sql args w => ((w ++ [(sql, args)])%list, Ok 2%Z)) (fun sql args w => ((w ++ [(sql, args)])%list, Ok 50%Z))
  (fun sql args w => ((w ++ [(sql, args)])%list, Ok (Ok 1%Z))).
Definition schema : list (string * EntityMeta) := [("User", mkEntity "users" "id" "deleted_at" [] [] [] [])].
Definition text_of (v : Value) : string := "".

Definition adults : string := "select users where age >= 18".
Definition users : State (W := Log) := (NewExecutor [("users", mkEntity "users" "id" "deleted_at" [] [] [] [])], []).
(** The first statement that was sent, if any. *)
Definition first_sent {A} (o : option (State (W := Log) * A)) : string :=
  match o with Some (s', _) => match s'.2 with (sql, _) :: _ => sql | [] => "" end | None => "" end.
Definition adults_sql : string := Eval vm_compute in first_sent (ExecuteString text_of recorder adults users).
Lemma statements_sent_witness : exists s' r, ExecuteString text_of recorder adults users = Some (s', r) /\
  s'.2 = [(adults_sql, [VInt 18])] /\ placeholders adults_sql = Some ["1"] /\ r = Ok [{["id" := 1; "age" := 20]}; {["id" := 2; "age" := 30]}]%Z.
Proof.
  assert (option_map (fun o => (o.1.2, o.2)) (ExecuteString text_of recorder adults users) = Some ([(adults_sql, [VInt 18])], Ok [{["id" := 1; "age" := 20]}; {["id" := 2; "age" := 30]}]%Z)) as Hc
    by (vm_compute; reflexivity).
  destruct (statements_sent text_of recorder users) as [H _].
  destruct (H adults) as (s' & r & E & _ & Ho). exists s', r. split; [exact E|]. rewrite E in Hc. injection Hc as Hs Hr.
  split; [exact Hs|]. split; [vm_compute; reflexivity|exact Hr].
Defined.

(** [ExecuteOne] leaves its limit in the query of the caller. *)
Example limit_stays : let q := set_Entity "User" (empty_query QuerySelect) in
  q_Limit (ExecuteOne text_of recorder q (NewExecutor schema, [])).1 = Some 1%Z.
Proof. vm_compute. reflexivity. Qed.
(** Two builders with one clause see each other's conditions. *)
Example shared_clause : let h := {[1%positive := mkWhere [] LogicalAnd []]} : Heap in
  let a := set_clause (Some 1%positive) (Select "User") in let b := set_clause (Some 1%positive) (Select "User") in
  q_Where (resolve (Where "tenant" OpEquals (VInt 7) h a).1 b) = Some (mkWhere [mkCond "tenant" OpEquals (VInt 7) false None None] LogicalAnd []).
Proof. vm_compute. reflexivity. Qed.
(** A condition added to a disjunction widens it. *)
Example added_to_or : let h := {[1%positive := mkWhere [mkCond "name" OpEquals (VStr "a") false None None; mkCond "name" OpEquals (VStr "b") false None None] LogicalOr []]} : Heap in
  let '(h', qb) := Where "tenant" OpEquals (VInt 7) h (set_clause (Some 1%positive) (Select "User")) in
  option_map (fun w => (length (w_Conditions w), w_Operator w)) (q_Where (resolve h' qb)) = Some (3, LogicalOr).
Proof. vm_compute. reflexivity. Qed.
(** [Execute] runs queries of every type: a text that deletes is sent through the
    call that reads rows. *)
Example reads_that_delete : let ran := ExecuteString text_of recorder "delete User where id = 1" (NewExecutor [("User", mkEntity "users" "id" "" [] [] [] [])], []) in
  option_map (fun o => map snd o.1.2) ran = Some [[VInt 1]] /\ take_str 11 (first_sent ran) = "DELETE FROM".
Proof. split; vm_compute; reflexivity. Qed.

(** Two goroutines share the compiler of an executor: between the statement of one
    and its reading of the parameters, the other compiles, and the first sends the
    operands of the second. *)
Definition by_name (n : string) : Query := set_Where (Some (mkWhere [mkCond "name" OpEquals (VStr n) false None None] LogicalAnd [])) (set_Entity "User" (empty_query QuerySelect)).
Definition reset (c : SQLCompiler) : SQLCompiler := mkCompiler (entities c) [] 0.
Example compiler_shared : exists sql, (compile_sql text_of (by_name "alice") (reset (NewExecutor schema))).2 = Ok sql /\
  let a := (compile_sql text_of (by_name "alice") (reset (NewExecutor schema))).1 in
  let b := (compile_sql text_of (by_name "bob") (reset a)).1 in
  params a = [VStr "alice"] /\ params b = [VStr "bob"].
Proof. vm_compute. by eexists. Qed.
