(* ===== verification/Regexp.v ===== *)
(** Go's [regexp], as far as the program uses it: the leftmost match, which among
    those that start there is the first that backtracking finds, and
    [ReplaceAllString] with a text that has no reference.  A text is the list of its
    runes, each with its bytes. *)

From Stdlib Require Import ZArith Lia Ascii.
From stdpp Require Import base strings list.
From S2P Require Import Prelude GoStrings GoText.

#[local] Open Scope string_scope.
#[local] Open Scope Z_scope.

Inductive regexp :=
| REps
| RSet (p : Z -> bool)
| RSeq (a b : regexp)
| RAlt (a b : regexp)
| RStar (a : regexp)
| RWordBoundary
| RBegin
| REnd.
(** The operators prefer to match more. *)
Definition ROpt (a : regexp) : regexp := RAlt a REps.
Definition RPlus (a : regexp) : regexp := RSeq a (RStar a).
Fixpoint RTimes (n : nat) (a : regexp) : regexp := match n with O => REps | S n' => RSeq a (RTimes n' a) end.
Fixpoint RSeqs (l : list regexp) : regexp := match l with [] => REps | a :: l' => RSeq a (RSeqs l') end.

(** ** Sets of runes *)
Definition between (lo hi : Z) (r : Z) : bool := (lo <=? r) && (r <=? hi).
Definition one_of (l : list Z) (r : Z) : bool := existsb (Z.eqb r) l.
Definition either (p q : Z -> bool) (r : Z) : bool := p r || q r.
Definition other (p : Z -> bool) (r : Z) : bool := negb (p r).
Definition digit : Z -> bool := between 48 57.
Definition letter : Z -> bool := either (between 65 90) (between 97 122).
Definition space : Z -> bool := one_of [9; 10; 12; 13; 32].
Definition word_rune : Z -> bool := either (either digit letter) (one_of [95]).
(** What [(?i)] adds to letters beyond ASCII: the long s and the sign of the kelvin. *)
Definition folded_s_k : Z -> bool := one_of [383; 8490].
(** A rune in any case. *)
Definition any_case (r : Z) : Z -> bool :=
  if letter r then
    let l := if between 65 90 r then r + 32 else r in
    one_of ([l; l - 32] ++ (if l =? 115 then [383] else if l =? 107 then [8490] else []))
  else one_of [r].
Definition literal (s : string) : regexp := RSeqs (map (fun c => RSet (Z.eqb (byte c))) (String.list_ascii_of_string s)).
Definition literal_i (s : string) : regexp := RSeqs (map (fun c => RSet (any_case (byte c))) (String.list_ascii_of_string s)).

(** ** Matching

    A position is the rune before it and the text after it. *)
Definition Pos : Type := option Z * list (Z * string).
Definition at_boundary (x : Pos) : bool :=
  xorb (match x.1 with Some r => word_rune r | None => false end) (match x.2 with c :: _ => word_rune c.1 | [] => false end).

(** The loop of a star; an iteration has to consume something. *)
Fixpoint star_loop (body : Pos -> (Pos -> option Pos) -> option Pos) (n : nat) (x : Pos) (k : Pos -> option Pos) : option Pos :=
  match n with
  | O => k x
  | S n' =>
      match body x (fun y => if (length y.2 <? length x.2)%nat then star_loop body n' y k else None) with
      | Some z => Some z
      | None => k x
      end
  end.
Fixpoint run (r : regexp) (x : Pos) (k : Pos -> option Pos) : option Pos :=
  match r with
  | REps => k x
  | RSet p => match x.2 with c :: l => if p c.1 then k (Some c.1, l) else None | [] => None end
  | RSeq a b => run a x (fun y => run b y k)
  | RAlt a b => match run a x k with Some z => Some z | None => run b x k end
  | RStar a => star_loop (run a) (length x.2) x k
  | RWordBoundary => if at_boundary x then k x else None
  | RBegin => match x.1 with None => k x | Some _ => None end
  | REnd => match x.2 with [] => k x | _ => None end
  end.
(** Where the match that starts here ends. *)
Definition match_at (r : regexp) (x : Pos) : option Pos := run r x Some.

Definition step_over (l : list (Z * string)) (after : Pos -> string) : string :=
  match l with [] => "" | c :: l' => c.2 ++ after (Some c.1, l') end.
(** [matched]: the last match ended here, so an empty one does not count. *)
Fixpoint replace_from (n : nat) (r : regexp) (repl : string) (matched : bool) (x : Pos) : string :=
  match n with
  | O => ""
  | S n' =>
      match match_at r x with
      | Some y =>
          if (length y.2 <? length x.2)%nat then repl ++ replace_from n' r repl true y
          else (if matched then "" else repl) ++ step_over x.2 (replace_from n' r repl false)
      | None => step_over x.2 (replace_from n' r repl false)
      end
  end.
Definition ReplaceAllString (r : regexp) (s repl : string) : string :=
  let l := pieces s in replace_from (S (length l)) r repl false (None, l).
Fixpoint match_from (n : nat) (r : regexp) (x : Pos) : bool :=
  match match_at r x with
  | Some _ => true
  | None => match n, x.2 with S n', c :: l => match_from n' r (Some c.1, l) | _, _ => false end
  end.
Definition MatchString (r : regexp) (s : string) : bool := let l := pieces s in match_from (length l) r (None, l).

(** * What a match consumes *)
Inductive matches : regexp -> Pos -> list (Z * string) -> Pos -> Prop :=
| m_eps x : matches REps x [] x
| m_set p o c l : p c.1 = true -> matches (RSet p) (o, c :: l) [c] (Some c.1, l)
| m_seq a b x u y v z : matches a x u y -> matches b y v z -> matches (RSeq a b) x (u ++ v) z
| m_left a b x u y : matches a x u y -> matches (RAlt a b) x u y
| m_right a b x u y : matches b x u y -> matches (RAlt a b) x u y
| m_stop a x : matches (RStar a) x [] x
| m_more a x u y v z : matches a x u y -> matches (RStar a) y v z -> matches (RStar a) x (u ++ v) z
| m_boundary x : at_boundary x = true -> matches RWordBoundary x [] x
| m_begin l : matches RBegin (None, l) [] (None, l)
| m_end o : matches REnd (o, []) [] (o, []).

Lemma star_sound a body : (forall x k z, body x k = Some z -> exists u y, matches a x u y /\ k y = Some z) ->
  forall n x k z, star_loop body n x k = Some z -> exists u y, matches (RStar a) x u y /\ k y = Some z.
Proof.
  intros Hb. induction n as [|n IH]; intros x k z; cbn [star_loop]; [intros Hk; exists [], x; split; [constructor|done]|].
  destruct (body x _) as [z'|] eqn:E.
  - intros [= <-]. apply Hb in E as (u & y & Hu & E). destruct (length y.2 <? length x.2)%nat; [|discriminate].
    apply IH in E as (v & w & Hv & Hk). exists (u ++ v)%list, w. split; [by apply m_more with y|done].
  - intros Hk. exists [], x. split; [constructor|done].
Qed.
Lemma run_sound r x k z : run r x k = Some z -> exists u y, matches r x u y /\ k y = Some z.
Proof.
  revert x k z. induction r as [|p|a IHa b IHb|a IHa b IHb|a IHa| | |]; intros x k z; cbn [run].
  - intros Hk. exists [], x. split; [constructor|done].
  - destruct x as [o [|c l]]; cbn; [done|]. destruct (p c.1) eqn:Hp; [|done]. intros Hk. exists [c], (Some c.1, l). split; [by constructor|done].
  - intros (u & y & Hu & (v & w & Hv & Hk)%IHb)%IHa. exists (u ++ v)%list, w. split; [by apply m_seq with y|done].
  - destruct (run a x k) as [z'|] eqn:E.
    + intros [= <-]. apply IHa in E as (u & y & Hu & Hk). exists u, y. split; [by apply m_left|done].
    + intros (u & y & Hu & Hk)%IHb. exists u, y. split; [by apply m_right|done].
  - apply star_sound, IHa.
  - destruct (at_boundary x) eqn:E; [|done]. intros Hk. exists [], x. split; [by constructor|done].
  - destruct x as [[c|] l]; cbn; [done|]. intros Hk. exists [], (None, l). split; [constructor|done].
  - destruct x as [o [|c l]]; cbn; [|done]. intros Hk. exists [], (o, []). split; [constructor|done].
Qed.
Lemma matches_text r x u y : matches r x u y -> x.2 = (u ++ y.2)%list.
Proof. induction 1 as [| | a b x u y v z _ IH1 _ IH2 | | | | a x u y v z _ IH1 _ IH2 | | |]; cbn; try done; by rewrite IH1, IH2, (assoc_L app). Qed.

(** A match has to consume a rune of [p]. *)
Fixpoint needs (p : Z -> bool) (r : regexp) : Prop :=
  match r with
  | RSet q => forall c, q c = true -> p c = true
  | RSeq a b => needs p a \/ needs p b
  | RAlt a b => needs p a /\ needs p b
  | _ => False
  end.
Lemma needs_consumed p r x u y : matches r x u y -> needs p r -> exists c, c ∈ u /\ p c.1 = true.
Proof.
  induction 1 as [x|q o c l Hq|a b x u y v z _ IH1 _ IH2|a b x u y _ IH|a b x u y _ IH|a x|a x u y v z _ _ _ _|x Hx|l|o]; cbn [needs]; try done.
  - intros Hn. exists c. split; [by left|by apply Hn].
  - intros [(c & Hc & Hp)%IH1 | (c & Hc & Hp)%IH2]; exists c; (split; [|done]); apply elem_of_app; [by left|by right].
  - intros [Hn _]. by apply IH.
  - intros [_ Hn]. by apply IH.
Qed.
Lemma no_match p r x : needs p r -> forallb (fun c => negb (p c.1)) x.2 = true -> match_at r x = None.
Proof.
  intros Hn Hall. destruct (match_at r x) as [z|] eqn:E; [|done]. apply run_sound in E as (u & y & Hu & _). destruct (needs_consumed p _ _ _ _ Hu Hn) as (c & Hc & Hp).
  apply matches_text in Hu. rewrite Hu, forallb_app in Hall. apply andb_true_iff in Hall as [Hall _]. rewrite forallb_forall in Hall.
  apply list_elem_of_In, Hall in Hc. by rewrite Hp in Hc.
Qed.
(** Without a match nothing is replaced. *)
Lemma replace_none p r repl n b x : needs p r -> forallb (fun c => negb (p c.1)) x.2 = true -> (length x.2 < n)%nat -> replace_from n r repl b x = text x.2.
Proof.
  intros Hn. revert b x. induction n as [|n IH]; intros b x Hall Hl; [lia|]. cbn [replace_from]. rewrite (no_match p) by done.
  destruct x as [o [|c l]]; [done|]. cbn [snd step_over] in *. rewrite IH.
  - by rewrite text_cons.
  - cbn in Hall. by apply andb_true_iff in Hall as [_ Hall].
  - cbn in Hl |- *. lia.
Qed.
(** A star of a set takes a text of that set to its end. *)
Definition after (o : option Z) (l : list (Z * string)) : option Z := fold_left (fun _ c => Some c.1) l o.
Lemma run_set p o c l k : run (RSet p) (o, c :: l) k = if p c.1 then k (Some c.1, l) else None.
Proof. done. Qed.
Lemma star_all p l : forall o n z k, forallb (fun c : Z * string => p c.1) l = true -> (length l <= n)%nat -> k (after o l, []) = Some z ->
  star_loop (run (RSet p)) n (o, l) k = Some z.
Proof.
  induction l as [|c l IH]; intros o n z k Hl Hn Hk.
  - destruct n; cbn; exact Hk.
  - destruct n as [|n]; [cbn in Hn; lia|]. cbn [forallb] in Hl. apply andb_true_iff in Hl as [Hc Hl]. cbn [star_loop]. rewrite run_set, Hc.
    cbn [length snd]. rewrite (proj2 (Nat.ltb_lt _ _)) by lia. rewrite (IH (Some c.1) n z k); [done|done|cbn in Hn; lia|exact Hk].
Qed.

(** * The matcher decides the language

    What is asked of the rest matters only for whether it succeeds. *)
Lemma star_ext body : (forall x k k', (forall y, k y = k' y) -> body x k = body x k') ->
  forall n x k k', (forall y, k y = k' y) -> star_loop body n x k = star_loop body n x k'.
Proof.
  intros Hb. induction n as [|n IH]; intros x k k' Hk; cbn [star_loop]; [apply Hk|]. rewrite (Hk x). erewrite Hb; [done|]. intros y. cbv beta.
  destruct (length y.2 <? length x.2)%nat; [by apply IH|done].
Qed.
Lemma run_ext r : forall x k k', (forall y, k y = k' y) -> run r x k = run r x k'.
Proof.
  induction r as [|p|a IHa b IHb|a IHa b IHb|a IHa| | |]; intros x k k' Hk; cbn [run].
  - apply Hk.
  - destruct x.2 as [|c l]; [done|]. destruct (p c.1); [apply Hk|done].
  - apply IHa. intros y. by apply IHb.
  - by rewrite (IHa x k k'), (IHb x k k').
  - by apply star_ext.
  - destruct (at_boundary x); [apply Hk|done].
  - destruct x.1; [done|apply Hk].
  - destruct x.2; [apply Hk|done].
Qed.
(** More rounds than there is text make no difference. *)
Lemma star_fuel a n m x k : (length x.2 <= n)%nat -> (length x.2 <= m)%nat -> star_loop (run a) n x k = star_loop (run a) m x k.
Proof.
  assert (forall n x k, (length x.2 <= n)%nat -> star_loop (run a) n x k = star_loop (run a) (S n) x k) as Hs.
  { clear. induction n as [|n IH]; intros x k Hn.
    - cbn [star_loop]. rewrite (run_ext a x _ (fun _ => None)); [|by intros y; destruct x as [o [|c l]]; [|cbn in Hn; lia]].
      destruct (run a x (fun _ => None)) as [z|] eqn:E; [|done]. by apply run_sound in E as (u & y & _ & E).
    - remember (S n) as m eqn:Em. cbn [star_loop]. rewrite Em at 1. cbn [star_loop]. rewrite (run_ext a x _ (fun y => if (length y.2 <? length x.2)%nat then star_loop (run a) m y k else None)); [done|].
      intros y. destruct (Nat.ltb_spec (length y.2) (length x.2)); [|done]. subst m. apply IH. lia. }
  intros Hn Hm. assert (forall d n, (length x.2 <= n)%nat -> star_loop (run a) n x k = star_loop (run a) (d + n) x k) as Hd.
  { clear n m Hn Hm. induction d as [|d IH]; intros n Hn; [done|]. rewrite IH by done. rewrite Hs by lia. done. }
  destruct (Nat.le_ge_cases n m) as [H | H].
  - rewrite (Hd (m - n)%nat n) by done. f_equal. lia.
  - rewrite (Hd (n - m)%nat m) by done. f_equal. lia.
Qed.
Lemma matches_nil r x y : matches r x [] y -> y = x.
Proof.
  intros H. remember [] as u eqn:E. revert E. induction H as [| | a b x u y v z _ IH1 _ IH2 |a b x u y _ IH|a b x u y _ IH| | a x u y v z _ IH1 _ IH2 | | |]; try done; try (by intros E; apply IH).
  - intros [-> ->]%app_eq_nil. by rewrite IH2, IH1.
  - intros [-> ->]%app_eq_nil. by rewrite IH2, IH1.
Qed.
Lemma run_complete r x u y k : matches r x u y -> is_Some (k y) -> is_Some (run r x k).
Proof.
  intros H. revert k. induction H as [x|p o c l Hp|a b x u y v z _ IH1 _ IH2|a b x u y _ IH|a b x u y _ IH|a x|a x u y v z Hu IH1 Hv IH2|x Hx|l|o]; intros k Hk; cbn [run snd fst]; try done.
  - by rewrite Hp.
  - by apply IH1, IH2.
  - destruct (IH k Hk) as [z' ->]. by eexists.
  - destruct (run a x k); [by eexists|]. by apply IH.
  - destruct (length x.2) as [|n] eqn:E; cbn [star_loop]; [done|]. destruct (run a x _); [by eexists|done].
  - destruct u as [|c u].
    + apply matches_nil in Hu as ->. by apply IH2.
    + pose proof (matches_text _ _ _ _ Hu) as Ht. assert (length y.2 < length x.2)%nat as Hl by (rewrite Ht; cbn; rewrite length_app; lia).
      destruct (length x.2) as [|n] eqn:E; [lia|]. cbn [star_loop]. rewrite E.
      assert (is_Some (run a x (fun y' => if (length y'.2 <? S n)%nat then star_loop (run a) n y' k else None))) as [z' ->]; [|by eexists].
      apply IH1. rewrite (proj2 (Nat.ltb_lt _ _)) by done. rewrite (star_fuel a n (length y.2)) by lia. by apply IH2.
  - by rewrite Hx.
Qed.
Lemma match_at_spec r x : is_Some (match_at r x) <-> exists u y, matches r x u y.
Proof.
  split.
  - intros [z E]. apply run_sound in E as (u & y & H & _). by exists u, y.
  - intros (u & y & H). by apply (run_complete r x u y Some H).
Qed.
(** An anchored pattern matches at the start or not at all. *)
Lemma MatchString_anchored r s : MatchString (RSeq RBegin r) s = true <-> exists u y, matches r (None, pieces s) u y.
Proof.
  assert (forall n o l, match_from n (RSeq RBegin r) (Some o, l) = false) as Hno.
  { induction n as [|n IH]; intros o l; cbn [match_from]; change (match_at (RSeq RBegin r) (Some o, l)) with (@None Pos); cbn; [done|]. destruct l as [|c l]; [done|apply IH]. }
  unfold MatchString. generalize (pieces s). intros l.
  assert (match_at (RSeq RBegin r) (None, l) = match_at r (None, l)) as E by done.
  assert (match_from (length l) (RSeq RBegin r) (None, l) = true <-> is_Some (match_at r (None, l))) as ->.
  { destruct (match_at r (None, l)) as [z|] eqn:Ez.
    - split; [intros _; by exists z|]. intros _. destruct (length l); cbn [match_from]; by rewrite E.
    - split; [|by intros []]. destruct (length l) as [|n]; cbn [match_from snd]; rewrite E; [done|]. destruct l as [|c l]; [done|by rewrite Hno]. }
  apply match_at_spec.
Qed.
(** What a repeated set, a literal and the end match. *)
Lemma matches_times n p x u y : matches (RTimes n (RSet p)) x u y -> length u = n /\ forallb (fun c : Z * string => p c.1) u = true.
Proof.
  revert x u. induction n as [|n IH]; intros x u; cbn [RTimes]; intros H; inversion H; subst; [done|].
  match goal with H1 : matches (RSet p) _ _ _, H2 : matches (RTimes n _) _ _ _ |- _ => apply IH in H2 as [<- Hall]; inversion H1; subst end.
  cbn [app length forallb]. split; [done|]. rewrite Hall, andb_true_r. done.
Qed.
Lemma times_matches p u o l : forallb (fun c : Z * string => p c.1) u = true -> matches (RTimes (length u) (RSet p)) (o, u ++ l)%list u (after o u, l).
Proof.
  revert o. induction u as [|c u IH]; intros o; cbn [length RTimes forallb app]; [constructor|]. intros [Hc Hu]%andb_true_iff.
  apply (m_seq _ _ _ [c] (Some c.1, (u ++ l)%list)); [by constructor|by apply IH].
Qed.
