(* ===== verification/Redactor.v ===== *)
(** The redaction of logs: [pkg/logging/redactor.go], with its patterns as regular
    expressions. *)

From Stdlib Require Import ZArith Lia Ascii.
From stdpp Require Import base strings list gmap.
From S2P Require Import Prelude GoStrings GoText Regexp.

#[local] Open Scope string_scope.
#[local] Open Scope Z_scope.

Definition RedactedValue : string := "[REDACTED]".
Definition defaultSensitiveFields : list string :=
  ["password"; "passwd"; "secret"; "token"; "api_key"; "apikey"; "api-key"; "authorization"; "auth"; "credential"; "credentials"; "credit_card";
   "creditcard"; "card_number"; "cardnumber"; "cvv"; "ssn"; "social_security"; "private_key"; "privatekey"; "access_token"; "refresh_token";
   "session_id"; "sessionid"; "bearer"].

(** ** The patterns *)
Definition quote_opt : regexp := ROpt (RSet (one_of [34; 39])).
Definition spaces : regexp := RStar (RSet space).
(** Up to a space, a quote, a comma or a closing brace. *)
Definition bare : Z -> bool := other (either space (one_of [34; 39; 44; 125])).
Definition token_rune : Z -> bool := either letter (either digit (one_of [45; 95])).
Definition assigned (name : regexp) (value : Z -> bool) : regexp :=
  RSeqs [name; quote_opt; spaces; RSet (one_of [58; 61]); spaces; quote_opt; RPlus (RSet value)].
Definition password_pattern : regexp := assigned (literal_i "password") bare.
Definition bearer_rune : Z -> bool := either (either token_rune (one_of [46])) folded_s_k.
Definition bearer_pattern : regexp := RSeqs [literal_i "bearer"; RPlus (RSet space); RPlus (RSet bearer_rune)].
Definition api_key_pattern : regexp := assigned (RSeqs [literal_i "api"; ROpt (RSet (one_of [95; 45])); literal_i "key"]) (either token_rune folded_s_k).
Definition jwt_pattern : regexp :=
  RSeqs [literal "eyJ"; RPlus (RSet token_rune); literal ".eyJ"; RPlus (RSet token_rune); literal "."; RPlus (RSet token_rune)].
Definition email_pattern : regexp :=
  RSeqs [RPlus (RSet (either letter (either digit (one_of [46; 95; 37; 43; 45])))); literal "@"; RPlus (RSet (either letter (either digit (one_of [46; 45]))));
         literal "."; RTimes 2 (RSet letter); RStar (RSet letter)].
Definition card_pattern : regexp :=
  let four := RTimes 4 (RSet digit) in let gap := ROpt (RSet (either space (one_of [45]))) in
  RSeqs [RWordBoundary; four; gap; four; gap; four; gap; four; RWordBoundary].
Definition aws_pattern : regexp := RSeq (literal_i "AKIA") (RTimes 16 (RSet (either (either digit letter) folded_s_k))).
Definition secret_pattern : regexp := assigned (literal_i "secret") bare.
Definition defaultSensitivePatterns : list regexp :=
  [password_pattern; bearer_pattern; api_key_pattern; jwt_pattern; email_pattern; card_pattern; aws_pattern; secret_pattern].

(** ** The redactor *)
Record Redactor := mkRedactor { sensitiveFields : gset string; sensitivePatterns : list regexp; allowlistFields : gset string }.
Definition NewRedactor : Redactor := mkRedactor (list_to_set defaultSensitiveFields) defaultSensitivePatterns ∅.

(** Data: a map is the list of its entries, in the order in which it is ranged over;
    what is none of the three is handed on as it is. *)
Inductive Any :=
| AString (s : string)
| AMap (o : option (list (string * Any)))
| AList (o : option (list Any))
| AOther (type content : string).

(** Attributes of a record of [slog]: a text, a group, or anything else. *)
Inductive Attr :=
| AttrString (key value : string)
| AttrGroup (key : string) (attrs : list Attr)
| AttrOther (key kind content : string).

Section Redact.
Context `{Unicode}.
Definition AddSensitiveField (field : string) (r : Redactor) : Redactor := mkRedactor ({[Lower field]} ∪ sensitiveFields r) (sensitivePatterns r) (allowlistFields r).
(** The pattern as it is compiled. *)
Definition AddSensitivePattern (re : result string regexp) (r : Redactor) : Redactor * option string :=
  match re with
  | Ok re => (mkRedactor (sensitiveFields r) (sensitivePatterns r ++ [re]) (allowlistFields r), None)
  | Err e => (r, Some e)
  end.
Definition AddAllowlistField (field : string) (r : Redactor) : Redactor := mkRedactor (sensitiveFields r) (sensitivePatterns r) ({[Lower field]} ∪ allowlistFields r).

Variable r : Redactor.
Definition IsSensitiveField (field : string) : bool :=
  let lower := Lower field in
  if decide (lower ∈ allowlistFields r) then false else bool_decide (lower ∈ sensitiveFields r).
Definition RedactString (s : string) : string := fold_left (fun result pattern => ReplaceAllString pattern result RedactedValue) (sensitivePatterns r) s.

(** [RedactMap], [redactSlice] and what they share. *)
Fixpoint redact (v : Any) : Any :=
  match v with
  | AString s => AString (RedactString s)
  | AMap (Some kvs) => AMap (Some (map (fun kv => (kv.1, if IsSensitiveField kv.1 then AString RedactedValue else redact kv.2)) kvs))
  | AList (Some l) => AList (Some (map redact l))
  | AMap None | AList None | AOther _ _ => v
  end.
Definition RedactMap (data : option (list (string * Any))) : option (list (string * Any)) :=
  match redact (AMap data) with AMap o => o | _ => None end.

(** [slog.Any] *)
Definition attr_of (key : string) (v : Any) : Attr :=
  match v with
  | AString s => AttrString key s
  | AOther type content => AttrOther key type content
  | AMap _ => AttrOther key "map[string]interface {}" ""
  | AList _ => AttrOther key "[]interface {}" ""
  end.

(** ** The handler of records *)
Fixpoint redactAttr (a : Attr) : Attr :=
  match a with
  | AttrString key value => if IsSensitiveField key then AttrString key RedactedValue else AttrString key (RedactString value)
  | AttrGroup key attrs => if IsSensitiveField key then AttrString key RedactedValue else AttrGroup key (map redactAttr attrs)
  | AttrOther key _ _ => if IsSensitiveField key then AttrString key RedactedValue else a
  end.
End Redact.
Record LogRecord := mkRecord { Time : Z; Level : Z; Message : string; Attrs : list Attr }.
(** A handler: the attributes and groups that it was given, innermost last, and
    what it does with a record. *)
Inductive Scope := ScopeAttrs (attrs : list Attr) | ScopeGroup (name : string).
Record RedactingHandler := mkHandler { scopes : list Scope; redactor : Redactor }.
Section Handler.
Context `{Unicode}.
Definition NewRedactingHandler (scopes : list Scope) (r : option Redactor) : RedactingHandler := mkHandler scopes (default NewRedactor r).
(** What the wrapped handler is called with. *)
Definition Handle (h : RedactingHandler) (rec : LogRecord) : list Scope * LogRecord :=
  (scopes h, mkRecord (Time rec) (Level rec) (Message rec) (map (redactAttr (redactor h)) (Attrs rec))).
Definition WithAttrs (attrs : list Attr) (h : RedactingHandler) : RedactingHandler :=
  mkHandler (scopes h ++ [ScopeAttrs (map (redactAttr (redactor h)) attrs)]) (redactor h).
Definition WithGroup (name : string) (h : RedactingHandler) : RedactingHandler := mkHandler (scopes h ++ [ScopeGroup name]) (redactor h).
End Handler.

(** * What a log does not show *)
Section Any_ind.
Variable P : Any -> Prop.
Hypothesis HString : forall s, P (AString s).
Hypothesis HMap : forall kvs, Forall (fun kv => P kv.2) kvs -> P (AMap (Some kvs)).
Hypothesis HList : forall l, Forall P l -> P (AList (Some l)).
Hypothesis Hnilmap : P (AMap None).
Hypothesis Hnillist : P (AList None).
Hypothesis HOther : forall t c, P (AOther t c).
Fixpoint Any_ind' (v : Any) : P v :=
  match v with
  | AString s => HString s
  | AMap None => Hnilmap
  | AList None => Hnillist
  | AOther t c => HOther t c
  | AMap (Some kvs) => HMap kvs ((fix go l : Forall (fun kv => P kv.2) l := match l with [] => @List.Forall_nil _ _ | kv :: l' => @List.Forall_cons _ _ _ _ (Any_ind' kv.2) (go l') end) kvs)
  | AList (Some l) => HList l ((fix go l : Forall P l := match l with [] => @List.Forall_nil _ _ | x :: l' => @List.Forall_cons _ _ _ _ (Any_ind' x) (go l') end) l)
  end.
End Any_ind.
Section Attr_ind.
Variable P : Attr -> Prop.
Hypothesis HString : forall k v, P (AttrString k v).
Hypothesis HGroup : forall k l, Forall P l -> P (AttrGroup k l).
Hypothesis HOther : forall k t c, P (AttrOther k t c).
Fixpoint Attr_ind' (a : Attr) : P a :=
  match a with
  | AttrString k v => HString k v
  | AttrOther k t c => HOther k t c
  | AttrGroup k l => HGroup k l ((fix go l : Forall P l := match l with [] => @List.Forall_nil _ _ | x :: l' => @List.Forall_cons _ _ _ _ (Attr_ind' x) (go l') end) l)
  end.
End Attr_ind.

Section Hidden.
Context `{Unicode}.
Variable r : Redactor.

(** Data that differs only under keys that are sensitive, at any depth that maps
    and lists reach. *)
Fixpoint alike (a b : Any) : Prop :=
  match a, b with
  | AMap (Some kvs), AMap (Some kvs') =>
      (fix go l l' := match l, l' with
                      | [], [] => True
                      | kv :: l, kv' :: l' => kv.1 = kv'.1 /\ (IsSensitiveField r kv.1 = true \/ alike kv.2 kv'.2) /\ go l l'
                      | _, _ => False
                      end) kvs kvs'
  | AList (Some l), AList (Some l') =>
      (fix go l l' := match l, l' with [], [] => True | x :: l, x' :: l' => alike x x' /\ go l l' | _, _ => False end) l l'
  | _, _ => a = b
  end.
Definition key_of (a : Attr) : string := match a with AttrString k _ | AttrGroup k _ | AttrOther k _ _ => k end.
Fixpoint attr_alike (a b : Attr) : Prop :=
  key_of a = key_of b /\ (IsSensitiveField r (key_of a) = true \/
  match a, b with
  | AttrGroup _ l, AttrGroup _ l' =>
      (fix go l l' := match l, l' with [], [] => True | x :: l, x' :: l' => attr_alike x x' /\ go l l' | _, _ => False end) l l'
  | _, _ => a = b
  end).

Lemma redact_alike a b : alike a b -> redact r a = redact r b.
Proof.
  revert b. induction a as [s|kvs IH|l IH| | |t c] using Any_ind'; intros b.
  - by intros ->.
  - destruct b as [|[kvs'|]| |]; cbn [alike]; try done. intros Hab. cbn [redact]. do 2 f_equal. revert kvs' Hab.
    induction IH as [|[k v] kvs Hv _ IHl]; intros [|[k' v'] kvs']; cbn [map fst snd]; try done. intros (<- & Hs & Hl). rewrite (IHl kvs') by done. f_equal. f_equal.
    destruct (IsSensitiveField r k); [done|]. apply Hv. by destruct Hs.
  - destruct b as [| |[l'|]|]; cbn [alike]; try done. intros Hab. cbn [redact]. do 2 f_equal. revert l' Hab.
    induction IH as [|x l Hx _ IHl]; intros [|x' l']; cbn [map]; try done. intros (Hv & Hl). by rewrite (IHl l'), (Hx x').
  - by intros <-.
  - by intros <-.
  - by intros ->.
Qed.
Lemma redactAttr_alike a b : attr_alike a b -> redactAttr r a = redactAttr r b.
Proof.
  assert (forall x, IsSensitiveField r (key_of x) = true -> redactAttr r x = AttrString (key_of x) RedactedValue) as Hs by (intros [] Hx; cbn in *; by rewrite Hx).
  revert b. induction a as [k v|k l IH|k t c] using Attr_ind'; intros b (Hk & [Hx | Hb]); try (rewrite !Hs by congruence; congruence).
  - by rewrite <- Hb.
  - destruct b as [|k' l'|]; try done. cbn in Hk. subst k'. cbn [redactAttr]. destruct (IsSensitiveField r k); [done|]. f_equal. revert l' Hb.
    induction IH as [|x l Hx _ IHl]; intros [|x' l']; cbn [map]; try done. intros (Hv & Hl). by rewrite (IHl l'), (Hx x').
  - by rewrite <- Hb.
Qed.
End Hidden.

(** ** A token in an authorization header *)
Lemma pattern_none p a s : needs p a -> str_forall is_ascii s = true -> str_forall (fun c => negb (p (byte c))) s = true -> ReplaceAllString a s RedactedValue = s.
Proof.
  intros Hn Ha Hp. unfold ReplaceAllString. rewrite pieces_ascii by done. rewrite (replace_none p); [apply text_chars|done| |cbn; lia].
  cbn [snd]. clear Ha. induction s as [|c s IH]; [done|]. cbn [str_forall chars forallb] in *. apply andb_true_iff in Hp as [Hc Hp]. cbn [fst]. by rewrite Hc, IH.
Qed.
Definition bearer_char (c : ascii) : bool := bearer_rune (byte c) && is_ascii c.
Lemma bearer_chars t : str_forall bearer_char t = true -> forallb (fun c => bearer_rune c.1) (chars t) = true /\ str_forall is_ascii t = true /\
  str_forall (fun c => negb (one_of [58; 61] (byte c))) t = true.
Proof.
  induction t as [|c t IH]; [done|]. cbn [str_forall chars forallb]. intros [[Hc Ha]%andb_true_iff Ht]%andb_true_iff. apply IH in Ht as (H1 & H2 & H3).
  cbn [fst]. rewrite Hc, Ha, H1, H2, H3. split; [done|]. split; [done|]. rewrite andb_true_r. unfold one_of. cbn [existsb].
  destruct (Z.eqb_spec (byte c) 58) as [E | _]; [rewrite E in Hc; discriminate Hc|]. by destruct (Z.eqb_spec (byte c) 61) as [E | _]; [rewrite E in Hc; discriminate Hc|].
Qed.
Lemma bearer_word l k : run (literal_i "bearer") (None, (chars "Bearer" ++ l)%list) k = k (Some 114, l).
Proof. reflexivity. Qed.
Lemma not_space c : bearer_char c = true -> space (byte c) = false.
Proof.
  unfold bearer_char, space, one_of. intros [Hc _]%andb_true_iff. cbn [existsb]. rewrite orb_false_r.
  repeat match goal with |- context [byte c =? ?n] => destruct (Z.eqb_spec (byte c) n) as [E | _]; [rewrite E in Hc; discriminate Hc|] end. done.
Qed.
Lemma bearer_match c t : str_forall bearer_char (String c t) = true -> exists o, match_at bearer_pattern (None, chars ("Bearer " ++ String c t)) = Some (o, []).
Proof.
  cbn [str_forall]. intros [Hc Ht]%andb_true_iff. destruct (bearer_chars t Ht) as (Hl & _ & _). exists (after (Some (byte c)) (chars t)).
  change (chars ("Bearer " ++ String c t)) with (chars "Bearer" ++ (32%Z, " ") :: (byte c, String c "") :: chars t)%list.
  unfold match_at, bearer_pattern. cbn [RSeqs]. set (space_set := RSet space). set (bearer_set := RSet bearer_rune).
  change (run (RSeq (literal_i "bearer") ?b) ?x ?k) with (run (literal_i "bearer") x (fun y => run b y k)). rewrite bearer_word.
  unfold RPlus. cbn [run]. unfold space_set. rewrite run_set. change (space (fst (32, " "))) with true. cbn [snd fst length star_loop].
  rewrite run_set. cbn [fst]. rewrite not_space by done. unfold bearer_set.
  assert (bearer_rune (byte c) = true) as Hb by (unfold bearer_char in Hc; by apply andb_true_iff in Hc as [Hc _]).
  rewrite run_set. cbn [fst]. rewrite Hb. by apply star_all.
Qed.
Lemma bearer_replaced c t : str_forall bearer_char (String c t) = true -> ReplaceAllString bearer_pattern ("Bearer " ++ String c t) RedactedValue = RedactedValue.
Proof.
  intros Hb. destruct (bearer_match c t Hb) as [o Hm]. unfold ReplaceAllString. rewrite pieces_ascii.
  - cbn [replace_from]. rewrite Hm. cbn [snd length]. change (length (chars ("Bearer " ++ String c t))) with (S (S (S (S (S (S (S (S (length (chars t)))))))))).
    cbn [Nat.ltb Nat.leb]. reflexivity.
  - apply bearer_chars in Hb as (_ & Ha & _). rewrite str_forall_app. by rewrite Ha.
Qed.
(** The value of an authorization header is redacted whole. *)
Lemma bearer_hidden c t : str_forall bearer_char (String c t) = true -> RedactString NewRedactor ("Bearer " ++ String c t) = RedactedValue.
Proof.
  intros Hb. unfold RedactString. cbn [NewRedactor sensitivePatterns defaultSensitivePatterns fold_left].
  rewrite (pattern_none (one_of [58; 61]) password_pattern).
  - rewrite bearer_replaced by done. vm_compute. reflexivity.
  - unfold password_pattern, assigned. cbn [RSeqs needs]. right. right. right. left. done.
  - apply bearer_chars in Hb as (_ & Ha & _). rewrite str_forall_app. by rewrite Ha.
  - apply bearer_chars in Hb as (_ & _ & Hn). rewrite str_forall_app. by rewrite Hn.
Qed.

(** Sensitive keys are found in any letter case, unless they are allowed. *)
Lemma sensitive_any_case `{UnicodeAscii} (r : Redactor) k : str_forall is_ascii k = true ->
  IsSensitiveField r k = true <-> ToLower k ∈ sensitiveFields r /\ ToLower k ∉ allowlistFields r.
Proof.
  intros Hk. unfold IsSensitiveField. rewrite Lower_ascii by done. destruct (decide (ToLower k ∈ allowlistFields r)); [naive_solver|].
  rewrite bool_decide_eq_true. naive_solver.
Qed.

(** ** Two sessions *)
Definition login (password : string) : Any :=
  AMap (Some [("user", AString "joe"); ("Password", AString password); ("devices", AList (Some [AMap (Some [("token", AString (password ++ "-t"))])]))]).

(** A password with a space is redacted up to the space. *)
Example half_redacted : RedactString NewRedactor "password=correct horse" = "[REDACTED] horse".
Proof. vm_compute. reflexivity. Qed.
(** Names of fields that are no pattern pass in texts. *)
Example token_in_text : RedactString NewRedactor "token=abc passwd=abc" = "token=abc passwd=abc".
Proof. vm_compute. reflexivity. Qed.
(** Maps and lists of other types are logged as they are, whatever their keys. *)
Example headers_pass : let headers := AOther "map[string]string" "map[Authorization:Bearer abc]" in
  redact NewRedactor (AMap (Some [("headers", headers)])) = AMap (Some [("headers", headers)]).
Proof. vm_compute. reflexivity. Qed.
(** So is an attribute that holds a map, and the text of the record. *)
Example any_passes : redactAttr NewRedactor (AttrOther "body" "map[string]interface {}" "map[password:x]") = AttrOther "body" "map[string]interface {}" "map[password:x]".
Proof. vm_compute. reflexivity. Qed.
Example message_passes : Message (Handle (NewRedactingHandler [] None) (mkRecord 0 0 "password=x" [])).2 = "password=x".
Proof. vm_compute. reflexivity. Qed.
(** A group opened under a sensitive name is not redacted, and one that is an
    attribute is. *)
Example group_passes : (Handle (WithGroup "credentials" (NewRedactingHandler [] None)) (mkRecord 0 0 "" [AttrString "user" "x"])).2
  = mkRecord 0 0 "" [AttrString "user" "x"] /\
  redactAttr NewRedactor (AttrGroup "credentials" [AttrString "user" "x"]) = AttrString "credentials" RedactedValue.
Proof. vm_compute. by split. Qed.
