(* ===== verification/GraphQl.v ===== *)
(** The GraphQL query builder: [pkg/integration/graphql/query.go].

    A builder of fields is the field it builds; the builder it reports to is given
    to [Done].  The rendering of floats is a parameter, and so is the text of a value
    that is printed with [%v]. *)

From Stdlib Require Import ZArith Lia Ascii.
From stdpp Require Import base strings list.
From S2P Require Import Prelude GoStrings.

#[local] Open Scope string_scope.

(** ** Queries *)
Inductive value :=
| VNil
| VVar (name : string)
| VString (s : string)
| VBool (b : bool)
| VInt (z : Z)
| VFloat (f : float64)
| VSlice (l : list value)
| VMap (kvs : list (string * value)) (* in the order in which it is ranged over *)
| VOther (text : string).

Record variable := mkVariable { v_name : string; variableType : string; defaultValue : value }.
Definition argument : Type := string * value.
Definition directive : Type := string * list argument.
Inductive field := mkField {
  f_name : string; alias : string; args : list argument; subFields : list field; f_fragments : list string; directives : list directive
}.
Record QueryBuilder := mkQuery { operationType : string; operationName : string; variables : list variable; fields : list field; fragments : list string }.

Definition NewQuery : QueryBuilder := mkQuery "query" "" [] [] [].
Definition NewMutation : QueryBuilder := mkQuery "mutation" "" [] [] [].
Definition NewSubscription : QueryBuilder := mkQuery "subscription" "" [] [] [].
Definition Name (name : string) (q : QueryBuilder) : QueryBuilder := mkQuery (operationType q) name (variables q) (fields q) (fragments q).
Definition Variable_ (name variableType : string) (defaultValue : list value) (q : QueryBuilder) : QueryBuilder :=
  mkQuery (operationType q) (operationName q) (variables q ++ [mkVariable name variableType (hd VNil defaultValue)]) (fields q) (fragments q).
Definition simple (name : string) : field := mkField name "" [] [] [] [].
Definition add_fields (l : list field) (q : QueryBuilder) : QueryBuilder :=
  mkQuery (operationType q) (operationName q) (variables q) (fields q ++ l) (fragments q).
Definition Fields (names : list string) : QueryBuilder -> QueryBuilder := add_fields (map simple names).
Definition Fragment (name : string) (q : QueryBuilder) : QueryBuilder :=
  mkQuery (operationType q) (operationName q) (variables q) (fields q) (fragments q ++ [name]).
(** A builder of a field, or of a field of a field. *)
Definition Field (name : string) : field := simple name.
Definition Done (f : field) (q : QueryBuilder) : QueryBuilder := add_fields [f] q.
Definition Alias (alias : string) (f : field) : field := mkField (f_name f) alias (args f) (subFields f) (f_fragments f) (directives f).
Definition Args (l : list argument) (f : field) : field := mkField (f_name f) (alias f) (args f ++ l) (subFields f) (f_fragments f) (directives f).
Definition Arg (name : string) (v : value) : field -> field := Args [(name, v)].
Definition VarArg (name variableName : string) : field -> field := Arg name (VVar variableName).
Definition add_subFields (l : list field) (f : field) : field := mkField (f_name f) (alias f) (args f) (subFields f ++ l) (f_fragments f) (directives f).
Definition Select (names : list string) : field -> field := add_subFields (map simple names).
Definition SubDone (sub : field) : field -> field := add_subFields [sub].
Definition FieldFragment (name : string) (f : field) : field := mkField (f_name f) (alias f) (args f) (subFields f) (f_fragments f ++ [name]) (directives f).
Definition add_directive (name variableName : string) (f : field) : field :=
  mkField (f_name f) (alias f) (args f) (subFields f) (f_fragments f) (directives f ++ [(name, [("if", VVar variableName)])]).
Definition Include : string -> field -> field := add_directive "include".
Definition Skip : string -> field -> field := add_directive "skip".
Definition VarRef (name : string) : value := VVar name.
Record FragmentBuilder := mkFragment { frag_name : string; onType : string; frag_fields : list field }.
Definition NewFragment (name onType : string) : FragmentBuilder := mkFragment name onType [].
Definition FragmentFields (names : list string) (f : FragmentBuilder) : FragmentBuilder := mkFragment (frag_name f) (onType f) (frag_fields f ++ map simple names).
Definition FragmentField (name : string) (subs : list string) (f : FragmentBuilder) : FragmentBuilder :=
  mkFragment (frag_name f) (onType f) (frag_fields f ++ [Select subs (simple name)]).

(** ** Printing *)
Definition escape (s : string) : string :=
  ReplaceAll (ReplaceAll (ReplaceAll s backslash (String backslash (String backslash ""))) dquote (String backslash (String dquote "")))
    newline (String backslash "n").
Definition quoted (s : string) : string := String dquote (s ++ String dquote "").
Section Print.
Variable show_float : float64 -> string.
Fixpoint formatValue (v : value) : string :=
  match v with
  | VNil => "null"
  | VVar name => "$" ++ name
  | VString s => quoted (escape s)
  | VBool b => if b then "true" else "false"
  | VInt z => Itoa z
  | VFloat f => show_float f
  | VSlice l => "[" ++ Join (map formatValue l) ", " ++ "]"
  | VMap kvs => "{" ++ Join (map (fun kv => kv.1 ++ ": " ++ formatValue kv.2) kvs) ", " ++ "}"
  | VOther text => quoted text
  end.
Definition build_args (args : list argument) : string :=
  match args with
  | [] => ""
  | _ => "(" ++ Join (map (fun a => a.1 ++ ": " ++ formatValue a.2) args) ", " ++ ")"
  end.
Definition build_directive (d : directive) : string := " @" ++ d.1 ++ build_args d.2.
Definition build_fragments (l : list string) : string := Join (map (fun frag => " ..." ++ frag) l) "".
Fixpoint buildField (f : field) : string :=
  match f with
  | mkField name alias args subFields frags directives =>
      (if String.eqb alias "" then "" else alias ++ ": ") ++ name ++ build_args args ++ Join (map build_directive directives) "" ++
      match subFields, frags with
      | [], [] => ""
      | _, _ => " { " ++ Join (map buildField subFields) " " ++ build_fragments frags ++ " }"
      end
  end.
Definition build_variable (v : variable) : string :=
  "$" ++ v_name v ++ ": " ++ variableType v ++ match defaultValue v with VNil => "" | d => " = " ++ formatValue d end.
Definition Build (q : QueryBuilder) : string :=
  operationType q ++ (if String.eqb (operationName q) "" then "" else " " ++ operationName q) ++
  match variables q with [] => "" | vs => "(" ++ Join (map build_variable vs) ", " ++ ")" end ++
  " { " ++ Join (map buildField (fields q)) " " ++ build_fragments (fragments q) ++ " }".
Definition BuildFragment (f : FragmentBuilder) : string :=
  "fragment " ++ frag_name f ++ " on " ++ onType f ++ " { " ++ Join (map buildField (frag_fields f)) " " ++ " }".
Definition BuildInline (onType : string) (names : list string) : string :=
  "... on " ++ onType ++ " { " ++ Join (map buildField (map simple names)) " " ++ " }".
End Print.
