(* ===== verification/GraphQlBuilder.v ===== *)
(** A reader of GraphQL documents, which is the specification of the builder of
    [GraphQl]: the lexical grammar of names, numbers, texts and punctuators, and the
    grammar of operations and fragments.  Block strings, comments and escapes of code
    points are not read.  What the builder builds, the reader reads back. *)


From Stdlib Require Import ZArith Lia Ascii.
From stdpp Require Import base strings list sets.
From S2P Require Import Prelude GoStrings GraphQl.

#[local] Open Scope string_scope.

(** ** Tokens *)
Inductive tok := TName (s : string) | TNum (s : string) | TStr (s : string) | TPunct (c : ascii) | TSpread.
#[export] Instance tok_eq_dec : EqDecision tok.
Proof. solve_decision. Defined.
Inductive state := Start | InName (s : string) | InNum (s : string) | InStr (s : string) | InEsc (s : string) | Dot1 | Dot2.

Definition in_chars (c : ascii) (l : list ascii) : bool := existsb (Ascii.eqb c) l.
Definition name_start (c : ascii) : bool := is_upper c || is_lower c || Ascii.eqb c "_".
Definition name_char (c : ascii) : bool := name_start c || is_digit c.
Definition num_start (c : ascii) : bool := is_digit c || Ascii.eqb c "-".
Definition num_char (c : ascii) : bool := is_digit c || in_chars c ["-"; "+"; "."; "e"; "E"]%char.
Definition ignored (c : ascii) : bool := in_chars c [" "; ","; tab; newline; creturn]%char.
Definition punctuator (c : ascii) : bool := in_chars c ["!"; "$"; "&"; "("; ")"; ":"; "="; "@"; "["; "]"; "{"; "|"; "}"]%char.
(** What may stand in quotes without an escape, the quote and the backslash apart. *)
Definition string_char (c : ascii) : bool := (32 <=? byte c)%Z || Ascii.eqb c tab.
Definition push (s : string) (c : ascii) : string := s ++ String c "".

Definition step_start (c : ascii) : option (list tok * state) :=
  if ignored c then Some ([], Start)
  else if name_start c then Some ([], InName (String c ""))
  else if num_start c then Some ([], InNum (String c ""))
  else if Ascii.eqb c dquote then Some ([], InStr "")
  else if Ascii.eqb c "." then Some ([], Dot1)
  else if punctuator c then Some ([TPunct c], Start)
  else None.
Definition emit (t : tok) (r : option (list tok * state)) : option (list tok * state) := match r with Some (ts, st) => Some (t :: ts, st) | None => None end.
Definition escaped_char (c : ascii) : option ascii :=
  if in_chars c [dquote; backslash; "/"%char] then Some c
  else if Ascii.eqb c "n" then Some newline else if Ascii.eqb c "t" then Some tab else if Ascii.eqb c "r" then Some creturn else None.
Definition step (st : state) (c : ascii) : option (list tok * state) :=
  match st with
  | Start => step_start c
  | InName s => if name_char c then Some ([], InName (push s c)) else emit (TName s) (step_start c)
  | InNum s => if num_char c then Some ([], InNum (push s c)) else emit (TNum s) (step_start c)
  | InStr s =>
      if Ascii.eqb c dquote then Some ([TStr s], Start)
      else if Ascii.eqb c backslash then Some ([], InEsc s)
      else if string_char c then Some ([], InStr (push s c)) else None
  | InEsc s => match escaped_char c with Some d => Some ([], InStr (push s d)) | None => None end
  | Dot1 => if Ascii.eqb c "." then Some ([], Dot2) else None
  | Dot2 => if Ascii.eqb c "." then Some ([TSpread], Start) else None
  end.
Fixpoint run (st : state) (s : string) : option (list tok * state) :=
  match s with
  | "" => Some ([], st)
  | String c s' =>
      match step st c with
      | Some (ts, st') => match run st' s' with Some (ts', st'') => Some ((ts ++ ts')%list, st'') | None => None end
      | None => None
      end
  end.
Definition pending (st : state) : option (list tok) :=
  match st with Start => Some [] | InName s => Some [TName s] | InNum s => Some [TNum s] | _ => None end.
Definition lex (s : string) : option (list tok) :=
  match run Start s with Some (ts, st) => match pending st with Some ts' => Some (ts ++ ts')%list | None => None end | None => None end.

(** ** Documents *)
Inductive rvalue := RNull | RVar (n : string) | RStr (s : string) | RBool (b : bool) | RNum (t : string) | REnum (n : string) | RList (l : list rvalue) | RObj (kvs : list (string * rvalue)).
Abbreviation rargs := (list (string * rvalue)).
Inductive rsel :=
| RField (alias name : string) (args : rargs) (dirs : list (string * rargs)) (sels : list rsel)
| RSpread (name : string)
| RInline (on : string) (sels : list rsel).
Inductive rtype := RNamed (n : string) | RListOf (t : rtype) | RNonNull (t : rtype).
Record rvariable := mkRVar { rv_name : string; rv_type : rtype; rv_default : option rvalue }.
Record roperation := mkROp { rop_type : string; rop_name : string; rop_vars : list rvariable; rop_sels : list rsel }.

Definition Reader (A : Type) : Type := list tok -> option (A * list tok).
(** Items up to a closing token. *)
Fixpoint many {A} (close : tok) (p : Reader A) (n : nat) : Reader (list A) := fun ts =>
  match n, ts with
  | S n', t :: ts' =>
      if decide (t = close) then Some ([], ts')
      else match p ts with
           | Some (a, ts1) => match many close p n' ts1 with Some (l, r) => Some (a :: l, r) | None => None end
           | None => None
           end
  | _, _ => None
  end.
Definition until {A} (close : ascii) (p : Reader A) : Reader (list A) := fun ts => many (TPunct close) p (S (length ts)) ts.
(** Lists in parentheses and braces are not empty. *)
Definition nonempty {A} (r : option (list A * list tok)) : option (list A * list tok) := match r with Some ([], _) => None | _ => r end.
Definition rbind {A B} (m : option (A * list tok)) (k : A -> Reader B) : option (B * list tok) := match m with Some (a, ts) => k a ts | None => None end.

Definition read_pair {A} (p : Reader A) : Reader (string * A) := fun ts =>
  match ts with TName k :: TPunct ":" :: ts' => rbind (p ts') (fun a r => Some ((k, a), r)) | _ => None end.
Fixpoint read_value (n : nat) : Reader rvalue := fun ts =>
  match n with
  | O => None
  | S n' =>
      match ts with
      | TPunct "$" :: TName v :: r => Some (RVar v, r)
      | TName v :: r =>
          Some (if String.eqb v "null" then RNull else if String.eqb v "true" then RBool true else if String.eqb v "false" then RBool false else REnum v, r)
      | TNum t :: r => Some (RNum t, r)
      | TStr s :: r => Some (RStr s, r)
      | TPunct "[" :: r => rbind (until "]" (read_value n') r) (fun l r => Some (RList l, r))
      | TPunct "{" :: r => rbind (until "}" (read_pair (read_value n')) r) (fun l r => Some (RObj l, r))
      | _ => None
      end
  end.
Definition read_args (n : nat) : Reader rargs := fun ts =>
  match ts with TPunct "(" :: r => nonempty (until ")" (read_pair (read_value n)) r) | _ => Some ([], ts) end.
Fixpoint read_directives (fuel n : nat) : Reader (list (string * rargs)) := fun ts =>
  match fuel, ts with
  | S fuel', TPunct "@" :: TName d :: r =>
      rbind (read_args n r) (fun args r => rbind (read_directives fuel' n r) (fun ds r => Some ((d, args) :: ds, r)))
  | _, _ => Some ([], ts)
  end.
Definition optional_set (p : Reader rsel) : Reader (list rsel) := fun ts => match ts with TPunct "{" :: r => nonempty (until "}" p r) | _ => Some ([], ts) end.
(** What follows the name of a field. *)
Definition read_field (n : nat) (p : Reader rsel) (alias name : string) : Reader rsel := fun ts =>
  rbind (read_args n ts) (fun args ts => rbind (read_directives (length ts) n ts) (fun dirs ts => rbind (optional_set p ts) (fun sels ts =>
    Some (RField alias name args dirs sels, ts)))).
Fixpoint read_selection (n : nat) : Reader rsel := fun ts =>
  match n with
  | O => None
  | S n' =>
      match ts with
      | TSpread :: TName f :: r =>
          if String.eqb f "on" then match r with TName t :: r => rbind (optional_set (read_selection n') r) (fun sels r => Some (RInline t sels, r)) | _ => None end
          else Some (RSpread f, r)
      | TName a :: TPunct ":" :: TName name :: r => read_field n (read_selection n') a name r
      | TName name :: r => read_field n (read_selection n') "" name r
      | _ => None
      end
  end.
Fixpoint read_type (n : nat) : Reader rtype := fun ts =>
  match n with
  | O => None
  | S n' =>
      let bang t ts := match ts with TPunct "!" :: r => Some (RNonNull t, r) | _ => Some (t, ts) end in
      match ts with
      | TName t :: r => bang (RNamed t) r
      | TPunct "[" :: r => rbind (read_type n' r) (fun t r => match r with TPunct "]" :: r => bang (RListOf t) r | _ => None end)
      | _ => None
      end
  end.
Definition read_variable (n : nat) : Reader rvariable := fun ts =>
  match ts with
  | TPunct "$" :: TName v :: TPunct ":" :: r =>
      rbind (read_type n r) (fun t r =>
        match r with
        | TPunct "=" :: r => rbind (read_value n r) (fun d r => Some (mkRVar v t (Some d), r))
        | _ => Some (mkRVar v t None, r)
        end)
  | _ => None
  end.
Definition read_set (n : nat) : Reader (list rsel) := fun ts => match ts with TPunct "{" :: r => nonempty (until "}" (read_selection n) r) | _ => None end.
Definition read_variables (n : nat) : Reader (list rvariable) := fun ts =>
  match ts with TPunct "(" :: r => nonempty (until ")" (read_variable n) r) | _ => Some ([], ts) end.
Definition read_body (n : nat) (op name : string) : Reader roperation := fun ts =>
  rbind (read_variables n ts) (fun vars r => rbind (read_set n r) (fun sels r => Some (mkROp op name vars sels, r))).
Definition read_operation (n : nat) : Reader roperation := fun ts =>
  match ts with
  | TName op :: r =>
      if existsb (String.eqb op) ["query"; "mutation"; "subscription"] then
        match r with TName name :: r' => read_body n op name r' | _ => read_body n op "" r end
      else None
  | _ => None
  end.
(** The operation that a text is. *)
Definition read (s : string) : option roperation :=
  match lex s with
  | Some ts => match read_operation (S (length ts)) ts with Some (op, []) => Some op | _ => None end
  | None => None
  end.
Definition read_fragment (s : string) : option (string * string * list rsel) :=
  match lex s with
  | Some (TName "fragment" :: TName name :: TName "on" :: TName t :: ts) =>
      match read_set (S (length ts)) ts with Some (sels, []) => Some (name, t, sels) | _ => None end
  | _ => None
  end.

Definition q : string := String dquote "".
Example read_simple : read ("query Q($id: [ID!]! = [" ++ q ++ "a\" ++ q ++ "b" ++ q ++ "]) { u: user(id: $id, n: 3) @include(if: $b) { name ...F } }") =
  Some (mkROp "query" "Q" [mkRVar "id" (RNonNull (RListOf (RNonNull (RNamed "ID")))) (Some (RList [RStr ("a" ++ q ++ "b")]))]
    [RField "u" "user" [("id", RVar "id"); ("n", RNum "3")] [("include", [("if", RVar "b")])] [RField "" "name" [] [] []; RSpread "F"]]).
Proof. vm_compute. reflexivity. Qed.

(** * From text to tokens *)
Definition is_name (s : string) : bool := match s with String c s' => name_start c && str_forall name_char s' | "" => false end.
Definition is_number (s : string) : bool := match s with String c s' => num_start c && str_forall num_char s' | "" => false end.
(** A character that ends a name and a number. *)
Definition separator (c : ascii) : bool := negb (name_char c) && negb (num_char c).

Lemma run_app st a b : run st (a ++ b) = match run st a with
  | Some (ts, st') => match run st' b with Some (ts', st'') => Some ((ts ++ ts')%list, st'') | None => None end | None => None end.
Proof.
  revert st. induction a as [|c a IH]; intros st; cbn [run String.append].
  - by destruct (run st b) as [[ts st']|].
  - destruct (step st c) as [[ts st']|]; [|done]. rewrite IH. destruct (run st' a) as [[ts1 st1]|]; [|done]. destruct (run st1 b) as [[ts2 st2]|]; [|done].
    by rewrite (assoc_L app).
Qed.

(** [reads p ts]: from the start the text [p] gives the tokens [ts], the last of
    which may still grow; [clean p ts]: and none may. *)
Definition reads (p : string) (ts : list tok) : Prop :=
  exists ts1 st ts2, run Start p = Some (ts1, st) /\ pending st = Some ts2 /\ ts = (ts1 ++ ts2)%list.
Definition clean (p : string) (ts : list tok) : Prop := run Start p = Some (ts, Start).
Definition sep_first (p : string) : Prop := match p with String c _ => separator c = true | "" => True end.

Lemma clean_reads p ts : clean p ts -> reads p ts.
Proof. intros H. exists ts, Start, []. by rewrite app_nil_r. Qed.
Lemma clean_clean p1 ts1 p2 ts2 : clean p1 ts1 -> clean p2 ts2 -> clean (p1 ++ p2) (ts1 ++ ts2).
Proof. unfold clean. intros H1 H2. by rewrite run_app, H1, H2. Qed.
Lemma clean_then p1 ts1 p2 ts2 : clean p1 ts1 -> reads p2 ts2 -> reads (p1 ++ p2) (ts1 ++ ts2).
Proof.
  unfold clean. intros H1 (a & st & b & H2 & Hp & ->). exists (ts1 ++ a)%list, st, b. rewrite run_app, H1, H2. by rewrite (assoc_L app).
Qed.
Lemma step_flush st ts c : pending st = Some ts -> separator c = true ->
  step st c = match step_start c with Some (ts', st') => Some ((ts ++ ts')%list, st') | None => None end.
Proof.
  unfold separator. intros Hp [Hn Hm]%andb_true_iff. destruct st; try discriminate; injection Hp as <-; cbn [step].
  - by destruct (step_start c) as [[]|].
  - rewrite (proj1 (negb_true_iff _) Hn). by destruct (step_start c) as [[]|].
  - rewrite (proj1 (negb_true_iff _) Hm). by destruct (step_start c) as [[]|].
Qed.
Lemma run_flush st ts p : pending st = Some ts -> sep_first p -> p <> "" ->
  run st p = match run Start p with Some (ts', st') => Some ((ts ++ ts')%list, st') | None => None end.
Proof.
  intros Hp Hs Hne. destruct p as [|c p]; [done|]. cbn [run]. rewrite (step_flush st ts c Hp Hs). cbn [step].
  destruct (step_start c) as [[ts' st']|]; [|done]. destruct (run st' p) as [[ts'' st'']|]; [|done]. by rewrite (assoc_L app).
Qed.
Lemma reads_clean p1 ts1 p2 ts2 : reads p1 ts1 -> sep_first p2 -> p2 <> "" -> clean p2 ts2 -> clean (p1 ++ p2) (ts1 ++ ts2).
Proof.
  unfold clean. intros (a & st & b & H1 & Hp & ->) Hs Hne H2. by rewrite run_app, H1, (run_flush st b p2), H2, (assoc_L app).
Qed.
Lemma reads_app p1 ts1 p2 ts2 : reads p1 ts1 -> sep_first p2 -> reads p2 ts2 -> reads (p1 ++ p2) (ts1 ++ ts2).
Proof.
  intros (a & st & b & H1 & Hp & ->) Hs (c & st' & d & H2 & Hp' & ->). destruct (decide (p2 = "")) as [-> | Hne].
  - injection H2 as <- <-. injection Hp' as <-. exists a, st, b. by rewrite sapp_nil_r, H1, app_nil_r.
  - exists (a ++ b ++ c)%list, st', d. rewrite run_app, H1, (run_flush st b p2), H2 by done. split; [by rewrite (assoc_L app)|]. split; [done|].
    by rewrite <- !(assoc_L app).
Qed.

(** ** Names, numbers and texts *)
Lemma run_name s n : str_forall name_char n = true -> run (InName s) n = Some ([], InName (s ++ n)).
Proof.
  revert s. induction n as [|c n IH]; intros s Hn; [by rewrite sapp_nil_r|]. cbn [str_forall] in Hn. apply andb_true_iff in Hn as [Hc Hn].
  cbn [run step]. rewrite Hc, IH by done. unfold push. by rewrite sapp_assoc.
Qed.
Lemma run_num s n : str_forall num_char n = true -> run (InNum s) n = Some ([], InNum (s ++ n)).
Proof.
  revert s. induction n as [|c n IH]; intros s Hn; [by rewrite sapp_nil_r|]. cbn [str_forall] in Hn. apply andb_true_iff in Hn as [Hc Hn].
  cbn [run step]. rewrite Hc, IH by done. unfold push. by rewrite sapp_assoc.
Qed.
Lemma in_chars_spec c l : in_chars c l = true <-> c ∈ l.
Proof. unfold in_chars. rewrite List.existsb_exists. setoid_rewrite Ascii.eqb_eq. rewrite list_elem_of_In. naive_solver. Qed.
(** A test that holds for no character that another holds for, decided on all. *)
Ltac by_chars := let c := fresh "c" in intros c; destruct c as [[] [] [] [] [] [] [] []]; vm_compute; congruence.
Lemma name_start_not_ignored : forall c, name_start c = true -> ignored c = false.
Proof. by_chars. Qed.
Lemma num_start_only : forall c, num_start c = true -> ignored c || name_start c = false.
Proof. by_chars. Qed.
Lemma reads_name n : is_name n = true -> reads n [TName n].
Proof.
  destruct n as [|c n]; [done|]. intros [Hc Hn]%andb_true_iff. exists [], (InName (String c n)), [TName (String c n)]. split; [|done].
  cbn [run step]. unfold step_start. rewrite (name_start_not_ignored c Hc), Hc. by rewrite run_name.
Qed.
Lemma reads_number n : is_number n = true -> reads n [TNum n].
Proof.
  destruct n as [|c n]; [done|]. intros [Hc Hn]%andb_true_iff. exists [], (InNum (String c n)), [TNum (String c n)]. split; [|done].
  pose proof (num_start_only c Hc) as H. apply orb_false_iff in H as [H1 H2]. cbn [run step]. unfold step_start. rewrite H1, H2, Hc. by rewrite run_num.
Qed.
Lemma is_number_Itoa z : is_number (Itoa z) = true.
Proof.
  assert (forall c, is_digit c = true -> num_start c = true /\ num_char c = true) as Hd by (intros c Hc; unfold num_start, num_char; by rewrite Hc).
  assert (forall s, str_forall is_digit s = true -> str_forall num_char s = true) as Hall by (intros s; apply str_forall_impl; intros c; apply Hd).
  destruct (Itoa_split z) as (sg & ds & -> & Hsg & Hne & Hds). destruct Hsg as [-> | ->]; cbn [String.append is_number].
  - destruct ds as [|d ds]; [done|]. cbn [str_forall is_number] in *. apply andb_true_iff in Hds as [H1 H2]. apply Hd in H1 as [H1 _]. rewrite H1. by apply Hall.
  - by apply Hall.
Qed.

(** What may be printed as a text: no control characters but the tab and the end
    of a line. *)
Definition text_char (c : ascii) : bool := string_char c || Ascii.eqb c newline.
Definition escape_char (c : ascii) : string :=
  if Ascii.eqb c backslash then String backslash (String backslash "") else if Ascii.eqb c dquote then String backslash (String dquote "")
  else if Ascii.eqb c newline then String backslash "n" else String c "".
Lemma escape_cons c s : escape (String c s) = escape_char c ++ escape s.
Proof. destruct c as [[] [] [] [] [] [] [] []]; reflexivity. Qed.
Lemma run_step st c st' p : step st c = Some ([], st') -> run st (String c p) = run st' p.
Proof. intros E. cbn [run]. rewrite E. by destruct (run st' p) as [[]|]. Qed.
Lemma run_escaped c s p : text_char c = true -> run (InStr s) (escape_char c ++ p) = run (InStr (push s c)) p.
Proof.
  unfold escape_char, text_char. intros Hc. destruct (Ascii.eqb_spec c backslash) as [-> | Hb]; [by (transitivity (run (InEsc s) (String backslash p)); [apply run_step; reflexivity|apply run_step; reflexivity])|].
  destruct (Ascii.eqb_spec c dquote) as [-> | Hq]; [by (transitivity (run (InEsc s) (String dquote p)); [apply run_step; reflexivity|apply run_step; reflexivity])|].
  destruct (Ascii.eqb_spec c newline) as [-> | Hn]; [by (transitivity (run (InEsc s) (String "n" p)); [apply run_step; reflexivity|apply run_step; reflexivity])|].
  rewrite orb_false_r in Hc. apply run_step. cbn [step]. by rewrite (proj2 (Ascii.eqb_neq c dquote) Hq), (proj2 (Ascii.eqb_neq c backslash) Hb), Hc.
Qed.
Lemma run_text s : str_forall text_char s = true -> forall t, run (InStr t) (escape s ++ String dquote "") = Some ([TStr (t ++ s)], Start).
Proof.
  induction s as [|c s IH]; intros Hs t; [by rewrite sapp_nil_r|]. cbn [str_forall] in Hs. apply andb_true_iff in Hs as [Hc Hs].
  rewrite escape_cons, sapp_assoc, run_escaped, IH by done. unfold push. by rewrite sapp_assoc.
Qed.
Lemma clean_quoted s : str_forall text_char s = true -> clean (quoted (escape s)) [TStr s].
Proof. intros Hs. unfold clean, quoted. transitivity (run (InStr "") (escape s ++ String dquote "")); [by apply run_step|]. by rewrite run_text. Qed.

(** ** Lists *)
Section Lists.
Context {A : Type}.
Variables (show : A -> string) (toks : A -> list tok).
Lemma reads_Join sep l : sep_first sep -> sep <> "" -> clean sep [] -> Forall (fun x => reads (show x) (toks x)) l ->
  reads (Join (map show l) sep) (concat (map toks l)).
Proof.
  intros Hs Hne Hc. induction 1 as [|x l Hx Hl IH]; [by apply clean_reads|]. cbn [map concat]. destruct l as [|y l]; [cbn [map Join concat]; by rewrite app_nil_r|].
  change (Join (show x :: map show (y :: l)) sep) with (show x ++ sep ++ Join (map show (y :: l)) sep).
  apply reads_app; [done|by destruct sep|]. change (concat (map toks (y :: l))) with ([] ++ concat (map toks (y :: l)))%list. by apply clean_then.
Qed.
(** Items that start with a separator need none between them. *)
Lemma reads_concat l : Forall (fun x => sep_first (show x) /\ reads (show x) (toks x)) l -> sep_first (Join (map show l) "") /\ reads (Join (map show l) "") (concat (map toks l)).
Proof.
  induction 1 as [|x l [Hf Hx] Hl [IHf IH]]; [split; [done|by apply clean_reads]|]. cbn [map concat].
  assert (Join (show x :: map show l) "" = show x ++ Join (map show l) "") as -> by (destruct l; cbn; [by rewrite sapp_nil_r|done]).
  split; [by destruct (show x)|]. by apply reads_app.
Qed.
End Lists.
Lemma sep_first_app a b : sep_first a -> sep_first b -> sep_first (a ++ b).
Proof. by destruct a. Qed.
(** An opening and a closing text around what is read. *)
Lemma clean_wrap a ta p tp b tb : clean a ta -> reads p tp -> sep_first b -> b <> "" -> clean b tb -> clean (a ++ p ++ b) (ta ++ tp ++ tb).
Proof. intros Ha Hp Hs Hne Hb. apply clean_clean; [done|]. by apply reads_clean. Qed.
(** [k: v] *)
Lemma reads_pair k p ts : is_name k = true -> reads p ts -> reads (k ++ ": " ++ p) (TName k :: TPunct ":" :: ts).
Proof.
  intros Hk Hp. change (TName k :: TPunct ":" :: ts) with ([TName k] ++ [TPunct ":"] ++ ts)%list. apply reads_app; [by apply reads_name|done|]. by apply clean_then.
Qed.

(** ** Induction on what is nested *)
Section Induction.
Variable P : value -> Prop.
Hypothesis Hleaf : forall v, match v with VSlice _ | VMap _ => True | _ => P v end.
Hypothesis Hslice : forall l, Forall P l -> P (VSlice l).
Hypothesis Hmap : forall kvs, Forall (fun kv => P kv.2) kvs -> P (VMap kvs).
Fixpoint value_nested (v : value) : P v :=
  match v as v0 return match v0 with VSlice _ | VMap _ => True | _ => P v0 end -> P v0 with
  | VSlice l => fun _ => Hslice l ((fix go l : Forall P l := match l with [] => @List.Forall_nil _ _ | x :: l' => @List.Forall_cons _ _ _ _ (value_nested x) (go l') end) l)
  | VMap kvs => fun _ => Hmap kvs ((fix go l : Forall (fun kv => P kv.2) l := match l with [] => @List.Forall_nil _ _ | kv :: l' => @List.Forall_cons _ _ _ _ (value_nested kv.2) (go l') end) kvs)
  | VNil | VVar _ | VString _ | VBool _ | VInt _ | VFloat _ | VOther _ => fun H => H
  end (Hleaf v).
Variable Q : field -> Prop.
Hypothesis Hfield : forall name alias args subs frags dirs, Forall Q subs -> Q (mkField name alias args subs frags dirs).
Fixpoint field_nested (f : field) : Q f :=
  match f with
  | mkField name alias args subs frags dirs =>
      Hfield name alias args subs frags dirs ((fix go l : Forall Q l := match l with [] => @List.Forall_nil _ _ | x :: l' => @List.Forall_cons _ _ _ _ (field_nested x) (go l') end) subs)
  end.
End Induction.
Lemma Forall_forallb {A} (p : A -> bool) (P Q : A -> Prop) l : Forall P l -> (forall x, P x -> p x = true -> Q x) -> forallb p l = true -> Forall Q l.
Proof. intros Hl HPQ. induction Hl as [|x l Hx Hl IH]; cbn [forallb]; [done|]. intros [Hp Hps]%andb_true_iff. constructor; [by apply HPQ|by apply IH]. Qed.
Lemma forallb_Forall' {A} (p : A -> bool) (Q : A -> Prop) l : (forall x, p x = true -> Q x) -> forallb p l = true -> Forall Q l.
Proof. intros H. apply (Forall_forallb p (fun _ => True)); [by apply Forall_true|]. auto. Qed.

(** ** Values and arguments *)
Section Values.
Variable show_float : float64 -> string.
(** What the grammar of values can say: names are names, texts have no control
    characters, and there is nothing that is printed with [%v] between quotes. *)
Fixpoint wf_value (v : value) : bool :=
  match v with
  | VNil | VBool _ | VInt _ => true
  | VVar n => is_name n
  | VString s => str_forall text_char s
  | VFloat f => is_number (show_float f)
  | VSlice l => forallb wf_value l
  | VMap kvs => forallb (fun kv => is_name kv.1 && wf_value kv.2) kvs
  | VOther _ => false
  end.
Definition wf_args (l : list argument) : bool := forallb (fun a => is_name a.1 && wf_value a.2) l.
Fixpoint vtoks (v : value) : list tok :=
  match v with
  | VNil => [TName "null"]
  | VVar n => [TPunct "$"; TName n]
  | VString s => [TStr s]
  | VBool b => [TName (if b then "true" else "false")]
  | VInt z => [TNum (Itoa z)]
  | VFloat f => [TNum (show_float f)]
  | VSlice l => [TPunct "["] ++ concat (map vtoks l) ++ [TPunct "]"]
  | VMap kvs => [TPunct "{"] ++ concat (map (fun kv => TName kv.1 :: TPunct ":" :: vtoks kv.2) kvs) ++ [TPunct "}"]
  | VOther text => [TStr text]
  end%list.
Definition pair_toks (a : argument) : list tok := TName a.1 :: TPunct ":" :: vtoks a.2.
Definition arg_toks (l : list argument) : list tok :=
  match l with [] => [] | _ => ([TPunct "("] ++ concat (map pair_toks l) ++ [TPunct ")"])%list end.

Lemma reads_value v : wf_value v = true -> reads (formatValue show_float v) (vtoks v).
Proof.
  revert v. apply (value_nested (fun v => wf_value v = true -> reads (formatValue show_float v) (vtoks v))); [intros v|intros l IH|intros kvs IH].
  - destruct v as [|n|s|b|z|f|l|kvs|text]; try done; cbn [wf_value formatValue vtoks]; intros Hv.
    + by apply reads_name.
    + change [TPunct "$"; TName n] with ([TPunct "$"] ++ [TName n])%list. apply clean_then; [done|by apply reads_name].
    + by apply clean_reads, clean_quoted.
    + destruct b; by apply reads_name.
    + apply reads_number, is_number_Itoa.
    + by apply reads_number.
  - cbn [wf_value formatValue vtoks]. intros Hl. apply clean_reads, clean_wrap; try done. apply reads_Join; try done.
    apply (Forall_forallb wf_value _ _ l IH); [auto|done].
  - cbn [wf_value formatValue vtoks]. intros Hl. apply clean_reads, clean_wrap; try done.
    apply (reads_Join (fun kv => kv.1 ++ ": " ++ formatValue show_float kv.2) pair_toks); try done.
    apply (Forall_forallb (fun kv => is_name kv.1 && wf_value kv.2) _ _ kvs IH); [|done]. intros [k v] Hv [Hk Hw]%andb_true_iff. by apply reads_pair; [|apply Hv].
Qed.
Lemma reads_args l : wf_args l = true -> sep_first (build_args show_float l) /\ clean (build_args show_float l) (arg_toks l).
Proof.
  destruct l as [|a l]; [done|]. intros Hl. split; [done|]. apply clean_wrap; try done.
  apply (reads_Join (fun kv => kv.1 ++ ": " ++ formatValue show_float kv.2) pair_toks); try done.
  apply (forallb_Forall' _ _ _ (fun kv H => match andb_prop _ _ H with conj Hk Hv => reads_pair _ _ _ Hk (reads_value _ Hv) end)). exact Hl.
Qed.

(** ** Fields *)
Definition wf_directive (d : directive) : bool := is_name d.1 && wf_args d.2.
Definition wf_alias (alias : string) : bool := String.eqb alias "" || is_name alias.
Definition wf_fragment (frag : string) : bool := is_name frag && negb (String.eqb frag "on").
Fixpoint wf_field (f : field) : bool :=
  match f with
  | mkField name alias args subs frags dirs =>
      is_name name && wf_alias alias && wf_args args && forallb wf_directive dirs && forallb wf_fragment frags && forallb wf_field subs
  end.
Definition directive_toks (d : directive) : list tok := (TPunct "@" :: TName d.1 :: arg_toks d.2)%list.
Definition fragment_toks (frag : string) : list tok := [TSpread; TName frag].
Fixpoint field_toks (f : field) : list tok :=
  match f with
  | mkField name alias args subs frags dirs =>
      (if String.eqb alias "" then [] else [TName alias; TPunct ":"]) ++ [TName name] ++ arg_toks args ++ concat (map directive_toks dirs) ++
      match subs, frags with
      | [], [] => []
      | _, _ => [TPunct "{"] ++ (concat (map field_toks subs) ++ concat (map fragment_toks frags)) ++ [TPunct "}"]
      end
  end%list.
Definition set_toks (subs : list field) (frags : list string) : list tok :=
  ([TPunct "{"] ++ (concat (map field_toks subs) ++ concat (map fragment_toks frags)) ++ [TPunct "}"])%list.

Lemma reads_directive d : wf_directive d = true -> sep_first (build_directive show_float d) /\ reads (build_directive show_float d) (directive_toks d).
Proof.
  destruct d as [n l]. intros [Hn Hl]%andb_true_iff. split; [done|]. unfold build_directive. cbn [fst snd].
  change (" @" ++ n ++ build_args show_float l) with (" @" ++ (n ++ build_args show_float l)).
  change (directive_toks (n, l)) with ([TPunct "@"] ++ ([TName n] ++ arg_toks l))%list. apply clean_then; [done|].
  destruct (reads_args l Hl) as [Hs Hr]. apply reads_app; [by apply reads_name|done|by apply clean_reads].
Qed.
Lemma reads_fragments l : forallb wf_fragment l = true -> sep_first (build_fragments l) /\ reads (build_fragments l) (concat (map fragment_toks l)).
Proof.
  intros Hl. apply (reads_concat (fun frag => " ..." ++ frag)). apply (forallb_Forall' wf_fragment); [|done]. intros frag [Hn _]%andb_true_iff. split; [done|].
  apply (clean_then " ..." [TSpread]); [done|by apply reads_name].
Qed.
Lemma clean_set subs frags : Forall (fun f => reads (buildField show_float f) (field_toks f)) subs -> forallb wf_fragment frags = true ->
  clean (" { " ++ (Join (map (buildField show_float) subs) " " ++ build_fragments frags) ++ " }") (set_toks subs frags).
Proof.
  intros Hs Hf. destruct (reads_fragments frags Hf) as [Hfs Hfr]. apply clean_wrap; try done. apply reads_app; [|done|done].
  by apply (reads_Join (buildField show_float) field_toks).
Qed.
Lemma reads_field f : wf_field f = true -> reads (buildField show_float f) (field_toks f).
Proof.
  induction f as [name alias args subs frags dirs IH] using field_nested. cbn [wf_field]. rewrite !andb_true_iff. intros (((((Hn & Ha) & Hargs) & Hd) & Hf) & Hs).
  assert (Forall (fun f => reads (buildField show_float f) (field_toks f)) subs) as Hsubs by (apply (Forall_forallb wf_field _ _ subs IH); [auto|done]).
  pose proof (clean_set subs frags Hsubs Hf) as Hset. destruct (reads_args args Hargs) as [Has Har].
  assert (Forall (fun d => sep_first (build_directive show_float d) /\ reads (build_directive show_float d) (directive_toks d)) dirs) as Hdirs
    by (apply (forallb_Forall' wf_directive); [apply reads_directive|done]).
  apply (reads_concat (build_directive show_float)) in Hdirs as [Hds Hdr]. cbn [buildField field_toks].
  assert (clean (if String.eqb alias "" then "" else alias ++ ": ") (if String.eqb alias "" then [] else [TName alias; TPunct ":"])) as Hal.
  { unfold wf_alias in Ha. destruct (String.eqb alias ""); [done|]. apply (reads_clean alias [TName alias] ": " [TPunct ":"]); try done. by apply reads_name. }
  apply clean_then; [exact Hal|]. set (tail := match subs, frags with [], [] => "" | _, _ => _ end).
  assert (sep_first tail /\ reads tail (match subs, frags with [], [] => [] | _, _ => set_toks subs frags end)) as [Hts Htr].
  { subst tail. destruct subs, frags; (split; [done|apply clean_reads; rewrite <- ?sapp_assoc in *; first [done | rewrite sapp_assoc in Hset; rewrite sapp_assoc; exact Hset]]). }
  apply reads_app; [by apply reads_name|by repeat apply sep_first_app|]. apply clean_then; [done|]. apply reads_app; [done|done|].
  by destruct subs, frags.
Qed.

(** * From tokens to documents *)
Fixpoint den_value (v : value) : rvalue :=
  match v with
  | VNil => RNull
  | VVar n => RVar n
  | VString s => RStr s
  | VBool b => RBool b
  | VInt z => RNum (Itoa z)
  | VFloat f => RNum (show_float f)
  | VSlice l => RList (map den_value l)
  | VMap kvs => RObj (map (fun kv => (kv.1, den_value kv.2)) kvs)
  | VOther text => RStr text
  end.
Definition den_arg (a : argument) : string * rvalue := (a.1, den_value a.2).
Definition den_directive (d : directive) : string * rargs := (d.1, map den_arg d.2).
Fixpoint den_field (f : field) : rsel :=
  match f with
  | mkField name alias args subs frags dirs => RField alias name (map den_arg args) (map den_directive dirs) (map den_field subs ++ map RSpread frags)
  end.

(** Items that are read one by one, each before what may follow it, are read up to
    the closing token. *)
Lemma until_read {A B} (toks : A -> list tok) (den : A -> B) close (p : Reader B) (ok : list tok -> Prop) l rest :
  (forall x, x ∈ l -> forall r, ok r -> p (toks x ++ r)%list = Some (den x, r)) ->
  (forall x, x ∈ l -> exists t ts, toks x = t :: ts /\ t <> TPunct close) ->
  (forall r, ok (TPunct close :: r)) -> (forall x r, x ∈ l -> ok (toks x ++ r)%list) ->
  until close p (concat (map toks l) ++ TPunct close :: rest)%list = Some (map den l, rest).
Proof.
  unfold until. intros Hp Hh Hc Ho.
  assert (length l <= length (concat (map toks l)))%nat as Hlen.
  { clear Hp Ho. induction l as [|x l IH]; [done|]. cbn [map concat length]. rewrite length_app. destruct (Hh x) as (t & ts & -> & _); [by left|].
    cbn. specialize (IH (fun y Hy => Hh y (list_elem_of_further _ _ _ Hy))). lia. }
  assert (length l < S (length (concat (map toks l) ++ TPunct close :: rest)))%nat as Hn by (rewrite length_app; lia).
  revert Hn. generalize (S (length (concat (map toks l) ++ TPunct close :: rest))). clear Hlen.
  induction l as [|x l IH]; intros n Hn.
  - destruct n; [cbn in Hn; lia|]. cbn. by rewrite decide_True.
  - destruct n; [cbn in Hn; lia|]. cbn [map concat]. rewrite <- (assoc_L app). destruct (Hh x) as (t & ts & Ht & Hne); [by left|]. cbn [many].
    rewrite Ht. cbn [app]. rewrite decide_False by done. change (t :: ts ++ ?r)%list with ((t :: ts) ++ r)%list. rewrite <- Ht.
    rewrite (Hp x) by (by left || (destruct l as [|y l]; [apply Hc|cbn [map concat]; rewrite <- (assoc_L app); apply Ho; right; by left])).
    rewrite IH; [done|..|cbn in Hn; lia].
    + intros y Hy. apply Hp. by right.
    + intros y Hy. apply Hh. by right.
    + intros y r Hy. apply Ho. by right.
Qed.
Lemma concat_length {A} (toks : A -> list tok) x l : x ∈ l -> (length (toks x) <= length (concat (map toks l)))%nat.
Proof.
  induction 1 as [x l|x y l _ IH]; cbn [map concat]; rewrite length_app; lia.
Qed.
Lemma vtoks_head v : exists t ts, vtoks v = t :: ts /\ forall c, t = TPunct c -> c ∈ ["$"; "["; "{"]%char.
Proof. destruct v as [|n|s|b|z|f|l|kvs|text]; cbn [vtoks app]; do 2 eexists; (split; [reflexivity|]); intros c; try discriminate; intros [= <-]; set_solver. Qed.
Lemma read_pair_value n a r : read_value n (vtoks a.2 ++ r)%list = Some (den_value a.2, r) -> read_pair (read_value n) (pair_toks a ++ r)%list = Some (den_arg a, r).
Proof. intros H. unfold read_pair, pair_toks. cbn [app]. rewrite H. done. Qed.
Definition anything (r : list tok) : Prop := True.
Lemma read_value_toks v : wf_value v = true -> forall n r, (length (vtoks v) <= n)%nat -> read_value n (vtoks v ++ r)%list = Some (den_value v, r).
Proof.
  revert v. apply (value_nested (fun v => wf_value v = true -> forall n r, (length (vtoks v) <= n)%nat -> read_value n (vtoks v ++ r)%list = Some (den_value v, r)));
    [intros v|intros l IH|intros kvs IH].
  - destruct v as [|n|s|b|z|f|l|kvs|text]; try done; intros Hv m r Hm; (destruct m; [cbn in Hm; lia|]); try done. by destruct b.
  - cbn [wf_value vtoks den_value]. intros Hl n r Hn. rewrite !length_app in Hn. cbn [length] in Hn. destruct n; [lia|]. cbn [app read_value].
    rewrite <- (assoc_L app). cbn [app]. rewrite (until_read vtoks den_value _ _ anything); try done.
    + intros x Hx r' _. rewrite Forall_forall in IH. apply IH; [done| |].
      * rewrite forallb_forall in Hl. by apply Hl, list_elem_of_In.
      * pose proof (concat_length vtoks x l Hx). lia.
    + intros x _. destruct (vtoks_head x) as (t & ts & -> & Ht). exists t, ts. split; [done|]. intros E. apply Ht in E. set_solver.
  - cbn [wf_value vtoks den_value]. intros Hl n r Hn. change (concat (map _ kvs)) with (concat (map pair_toks kvs)) in *. rewrite !length_app in Hn. cbn [length] in Hn. destruct n; [lia|].
    cbn [app read_value]. rewrite <- (assoc_L app). cbn [app]. rewrite (until_read pair_toks den_arg _ _ anything); try done.
    + intros x Hx r' _. apply read_pair_value. rewrite Forall_forall in IH. apply IH; [done| |].
      * rewrite forallb_forall in Hl. apply list_elem_of_In, Hl in Hx. by apply andb_true_iff in Hx as [_ Hx].
      * pose proof (concat_length pair_toks x kvs Hx) as Hc. cbn in Hc. lia.
    + intros x _. by do 2 eexists.
Qed.

(** What follows does not start with one of these. *)
Definition starts_not (cs : list ascii) (r : list tok) : Prop := match r with TPunct c :: _ => in_chars c cs = false | _ => True end.
Ltac no_token H :=
  match goal with r : list tok |- _ => destruct r as [|[?|?|?|c|] r]; try reflexivity; destruct c as [[] [] [] [] [] [] [] []]; try reflexivity; discriminate H end.
Lemma read_args_none n r : starts_not ["("%char] r -> read_args n r = Some ([], r).
Proof. intros H. no_token H. Qed.
Lemma read_directives_none fuel n r : starts_not ["@"%char] r -> read_directives fuel n r = Some ([], r).
Proof. intros H. destruct fuel; [done|]. no_token H. Qed.
Lemma optional_set_none p r : starts_not ["{"%char] r -> optional_set p r = Some ([], r).
Proof. intros H. no_token H. Qed.
Lemma read_selection_name n name r : starts_not [":"%char] r -> read_selection (S n) (TName name :: r) = read_field (S n) (read_selection n) "" name r.
Proof. intros H. no_token H. Qed.

Lemma read_args_toks l n r : wf_args l = true -> (length (arg_toks l) <= n)%nat -> starts_not ["("%char] r -> read_args n (arg_toks l ++ r)%list = Some (map den_arg l, r).
Proof.
  intros Hl Hn Hr. destruct l as [|a l]; [by apply read_args_none|]. unfold arg_toks in *. cbn [app read_args]. rewrite <- (assoc_L app). cbn [app].
  rewrite (until_read pair_toks den_arg _ _ anything); try done.
  - intros x Hx r' _. unfold wf_args in Hl. rewrite forallb_forall in Hl. apply read_pair_value, read_value_toks.
    + apply list_elem_of_In, Hl in Hx. by apply andb_true_iff in Hx as [_ Hx].
    + pose proof (concat_length pair_toks x (a :: l) Hx) as Hc. rewrite !length_app in Hn. cbn [length] in Hn. unfold pair_toks in Hc at 1. cbn [length] in Hc. lia.
  - intros x _. by do 2 eexists.
Qed.
Lemma read_directives_toks l fuel n r : forallb wf_directive l = true -> (length l <= fuel)%nat -> (length (concat (map directive_toks l)) <= n)%nat ->
  starts_not ["@"; "("]%char r -> read_directives fuel n (concat (map directive_toks l) ++ r)%list = Some (map den_directive l, r).
Proof.
  revert fuel. induction l as [|[d args] l IH]; intros fuel Hl Hf Hn Hr.
  - apply read_directives_none. destruct r as [|[]]; try done; cbn in *. by apply orb_false_iff in Hr as [-> _].
  - destruct fuel; [cbn in Hf; lia|]. cbn [forallb] in Hl. apply andb_true_iff in Hl as [[_ Ha]%andb_true_iff Hl]. cbn [map concat] in *.
    rewrite length_app in Hn. cbn [directive_toks fst snd length app] in *. cbn [read_directives]. rewrite <- (assoc_L app).
    rewrite read_args_toks; [|done|lia|].
    + cbn [rbind]. rewrite IH; [done|done|cbn in Hf; lia|lia|done].
    + destruct l as [|d' l]; [|done]. cbn [map concat app]. destruct r as [|[]]; try done; cbn in *. by apply orb_false_iff in Hr as [_ ->].
Qed.

(** The fields and the fragments of a set. *)
Definition item : Type := field + string.
Definition item_toks (x : item) : list tok := match x with inl f => field_toks f | inr frag => fragment_toks frag end.
Definition den_item (x : item) : rsel := match x with inl f => den_field f | inr frag => RSpread frag end.
Definition after_field : list tok -> Prop := starts_not [":"; "("; "@"; "{"]%char.
Definition items (subs : list field) (frags : list string) : list item := (map inl subs ++ map inr frags)%list.
Lemma items_toks subs frags : (concat (map field_toks subs) ++ concat (map fragment_toks frags))%list = concat (map item_toks (items subs frags)).
Proof. unfold items. by rewrite map_app, concat_app, !List.map_map. Qed.
Lemma items_den subs frags : (map den_field subs ++ map RSpread frags)%list = map den_item (items subs frags).
Proof. unfold items. by rewrite map_app, !List.map_map. Qed.
Lemma field_head f : exists n ts, field_toks f = TName n :: ts.
Proof. destruct f as [name alias args subs frags dirs]. cbn [field_toks]. destruct (String.eqb alias ""); cbn; by do 2 eexists. Qed.
Lemma item_head x : exists t ts, item_toks x = t :: ts /\ forall c, t <> TPunct c.
Proof. destruct x as [f|frag]; [destruct (field_head f) as (n & ts & E); cbn; rewrite E|]; by do 2 eexists. Qed.
Definition selected (n : nat) (f : field) : Prop := forall r, after_field r -> read_selection n (field_toks f ++ r)%list = Some (den_field f, r).
Lemma until_items subs frags n r : (forall f, f ∈ subs -> selected n f) -> forallb wf_fragment frags = true -> (0 < n)%nat ->
  until "}" (read_selection n) (concat (map item_toks (items subs frags)) ++ TPunct "}" :: r)%list = Some (map den_item (items subs frags), r).
Proof.
  intros Hs Hf Hn. apply (until_read item_toks den_item _ _ after_field).
  - intros x Hx r' Hr. unfold items in Hx. apply elem_of_app in Hx as [(f & -> & Hin)%list_elem_of_fmap | (frag & -> & Hin)%list_elem_of_fmap].
    + by apply Hs.
    + rewrite forallb_forall in Hf. apply list_elem_of_In, Hf, andb_true_iff in Hin as [_ Hon%negb_true_iff]. destruct n; [lia|]. cbn. by rewrite Hon.
  - intros x _. destruct (item_head x) as (t & ts & E & Ht). by exists t, ts.
  - done.
  - intros x r' _. destruct (item_head x) as (t & ts & -> & Ht). cbn. destruct t; try done. by destruct (Ht c).
Qed.
Lemma set_toks_items subs frags r : (set_toks subs frags ++ r)%list = TPunct "{" :: (concat (map item_toks (items subs frags)) ++ TPunct "}" :: r)%list.
Proof. unfold set_toks. rewrite items_toks. cbn [app]. by rewrite <- (assoc_L app). Qed.

Lemma read_field_toks name alias args subs frags dirs n r :
  wf_args args = true -> forallb wf_directive dirs = true -> forallb wf_fragment frags = true -> (forall f, f ∈ subs -> selected n f) -> (0 < n \/ subs = [] /\ frags = [])%nat ->
  (length (arg_toks args) <= S n)%nat -> (length (concat (map directive_toks dirs)) <= S n)%nat -> after_field r ->
  read_field (S n) (read_selection n) alias name
    (arg_toks args ++ concat (map directive_toks dirs) ++ match subs, frags with [], [] => [] | _, _ => set_toks subs frags end ++ r)%list
  = Some (RField alias name (map den_arg args) (map den_directive dirs) (map den_field subs ++ map RSpread frags), r).
Proof.
  intros Ha Hd Hf Hs Hn Hla Hld Hr. set (tail := match subs, frags with [], [] => [] | _, _ => _ end).
  assert (starts_not ["@"; "("]%char (tail ++ r)) as Hst by (subst tail; destruct subs, frags; try done; destruct r as [|[]]; try done; unfold after_field in Hr; cbn in *; destruct (Ascii.eqb c "("), (Ascii.eqb c "@"); cbn in *; rewrite ?orb_true_r in Hr; congruence).
  assert (optional_set (read_selection n) (tail ++ r)%list = Some (map den_field subs ++ map RSpread frags, r)%list) as Hset.
  { subst tail. destruct (decide (subs = [] /\ frags = [])) as [[-> ->] | Hne].
    - apply optional_set_none. destruct r as [|[]]; try done. unfold after_field in Hr. cbn in *. destruct (Ascii.eqb c "{"); [rewrite ?orb_true_r in Hr; congruence|done].
    - rewrite items_den. assert (0 < n)%nat as Hpos by naive_solver.
      assert (match subs, frags with [], [] => [] | _, _ => set_toks subs frags end = set_toks subs frags) as -> by (destruct subs, frags; naive_solver).
      rewrite set_toks_items. cbn [optional_set]. rewrite until_items by done. destruct subs, frags; naive_solver. }
  unfold read_field. rewrite read_args_toks; [|done|done|].
  - cbn [rbind]. rewrite read_directives_toks; [|done| |done|done].
    + cbn [rbind]. by rewrite Hset.
    + rewrite length_app. assert (length dirs <= length (concat (map directive_toks dirs)))%nat; [|lia].
      clear. induction dirs as [|d l IH]; [done|]. cbn [map concat length]. rewrite length_app. cbn. lia.
  - destruct dirs as [|d dirs]; [|done]. cbn [map concat app]. destruct (tail ++ r)%list as [|[]]; try done. cbn in *. by apply orb_false_iff in Hst as [_ ->].
Qed.
Lemma read_selection_toks f : wf_field f = true -> forall n, (length (field_toks f) <= n)%nat -> selected n f.
Proof.
  induction f as [name alias args subs frags dirs IH] using field_nested. cbn [wf_field]. rewrite !andb_true_iff. intros (((((Hn & Ha) & Hargs) & Hd) & Hf) & Hs) n Hlen r Hr.
  set (tail := match subs, frags with [], [] => [] | _, _ => set_toks subs frags end).
  assert (field_toks (mkField name alias args subs frags dirs) =
    (if String.eqb alias "" then [] else [TName alias; TPunct ":"]) ++ TName name :: (arg_toks args ++ concat (map directive_toks dirs) ++ tail))%list as Et by (subst tail; by destruct subs, frags).
  rewrite Et in *. rewrite length_app in Hlen. cbn [length] in Hlen. rewrite !length_app in Hlen. destruct n as [|n]; [lia|].
  assert (forall f, f ∈ subs -> selected n f /\ (0 < n)%nat) as Hsub.
  { intros f Hin. assert (length (field_toks f) <= length tail)%nat as Hc.
    { pose proof (concat_length field_toks f subs Hin) as Hc. subst tail. destruct subs as [|f' subs']; [by apply not_elem_of_nil in Hin|].
      unfold set_toks. rewrite !length_app. lia. }
    assert (0 < length (field_toks f))%nat by (destruct (field_head f) as (m & ts & ->); cbn; lia). split; [|lia].
    rewrite Forall_forall in IH. apply IH; [done| |lia]. rewrite forallb_forall in Hs. by apply Hs, list_elem_of_In. }
  assert (read_field (S n) (read_selection n) alias name ((arg_toks args ++ concat (map directive_toks dirs) ++ tail) ++ r)%list = Some (den_field (mkField name alias args subs frags dirs), r)) as Hbody.
  { rewrite <- !(assoc_L app). apply read_field_toks; try done; try lia.
    - intros f Hin. by apply Hsub.
    - destruct subs as [|f subs]; [destruct frags; [by right|left; subst tail; unfold set_toks in Hlen; rewrite !length_app in Hlen; cbn in Hlen; lia]|left; apply (Hsub f); by left]. }
  unfold wf_alias in Ha. destruct (String.eqb_spec alias "") as [-> | Hne].
  - cbn [app]. rewrite read_selection_name; [done|]. clear Hbody Hlen. destruct args as [|a args]; [|done]. destruct dirs as [|d dirs]; [|done].
    subst tail. destruct subs, frags; try done. destruct r as [|[]]; try done. unfold after_field in Hr. cbn in *. by apply orb_false_iff in Hr as [-> _].
  - cbn [app]. exact Hbody.
Qed.

(** ** Operations *)
Fixpoint show_type (t : rtype) : string :=
  match t with RNamed n => n | RListOf t => "[" ++ show_type t ++ "]" | RNonNull t => show_type t ++ "!" end.
Fixpoint wf_type (t : rtype) : bool :=
  match t with RNamed n => is_name n | RListOf t => wf_type t | RNonNull (RNonNull _) => false | RNonNull t => wf_type t end.
Fixpoint type_toks (t : rtype) : list tok :=
  match t with RNamed n => [TName n] | RListOf t => [TPunct "["] ++ type_toks t ++ [TPunct "]"] | RNonNull t => type_toks t ++ [TPunct "!"] end%list.
Lemma reads_type t : wf_type t = true -> reads (show_type t) (type_toks t).
Proof.
  induction t as [n|t IH|t IH]; cbn [wf_type show_type type_toks]; intros Ht.
  - by apply reads_name.
  - apply clean_reads, clean_wrap; try done. by apply IH.
  - apply reads_app; [apply IH; by destruct t|done|by apply clean_reads].
Qed.
Definition is_bang (t : rtype) : bool := match t with RNonNull _ => true | _ => false end.
Lemma read_type_toks t : wf_type t = true -> forall n r, (length (type_toks t) <= n)%nat ->
  (starts_not ["!"%char] r -> read_type n (type_toks t ++ r)%list = Some (t, r)) /\
  (is_bang t = false -> read_type n (type_toks t ++ TPunct "!" :: r)%list = Some (RNonNull t, r)).
Proof.
  induction t as [m|t IH|t IH]; cbn [wf_type type_toks is_bang]; intros Ht n r Hn.
  - destruct n; [cbn in Hn; lia|]. split; [|done]. intros Hr. cbn [app read_type]. no_token Hr.
  - rewrite !length_app in Hn. cbn in Hn. destruct n; [lia|]. destruct (IH Ht n (TPunct "]" :: r) ltac:(lia)) as [H _]. cbn [app read_type]. rewrite <- (assoc_L app). cbn [app].
    split; [intros Hr; rewrite H by done; cbn [rbind]; no_token Hr|]. intros _. destruct (IH Ht n (TPunct "]" :: TPunct "!" :: r) ltac:(lia)) as [H' _]. rewrite <- (assoc_L app). cbn [app].
    rewrite H' by done. done.
  - split; [|done]. intros _. rewrite length_app in Hn. rewrite <- (assoc_L app). cbn [app]. apply IH; [by destruct t|lia|by destruct t].
Qed.

Definition default_toks (d : value) : list tok := match d with VNil => [] | d => (TPunct "=" :: vtoks d) end.
Definition den_default (d : value) : option rvalue := match d with VNil => None | d => Some (den_value d) end.
(** A variable and what is read: its type is one of the grammar. *)
Definition variable_read (v : variable) (rv : rvariable) : Prop :=
  rv_name rv = v_name v /\ wf_type (rv_type rv) = true /\ show_type (rv_type rv) = variableType v /\ rv_default rv = den_default (defaultValue v).
Definition wf_variable (v : variable) : Prop := is_name (v_name v) = true /\ wf_value (defaultValue v) = true /\ exists t, wf_type t = true /\ show_type t = variableType v.
Definition variable_toks (v : variable) (t : rtype) : list tok := TPunct "$" :: TName (v_name v) :: TPunct ":" :: (type_toks t ++ default_toks (defaultValue v)).
Lemma reads_default d : wf_value d = true -> let p := match d with VNil => "" | d => " = " ++ formatValue show_float d end in sep_first p /\ reads p (default_toks d).
Proof.
  intros Hd. assert (reads (" = " ++ formatValue show_float d) (TPunct "=" :: vtoks d)) as H by (apply (clean_then " = " [TPunct "="]); [done|by apply reads_value]).
  destruct d; try (split; [done|exact H]). split; [done|by apply clean_reads].
Qed.
Lemma reads_variable v t : is_name (v_name v) = true -> wf_value (defaultValue v) = true -> wf_type t = true -> show_type t = variableType v ->
  reads (build_variable show_float v) (variable_toks v t).
Proof.
  intros Hn Hd Ht Es. unfold build_variable, variable_toks. rewrite <- Es. destruct (reads_default _ Hd) as [Hs Hr].
  apply (clean_then "$" [TPunct "$"]); [done|]. apply (reads_app _ [TName (v_name v)]); [by apply reads_name|done|].
  apply (clean_then ": " [TPunct ":"]); [done|]. apply reads_app; [by apply reads_type|by destruct (defaultValue v)|by destruct (defaultValue v)].
Qed.
Lemma read_variable_toks v t n r : wf_value (defaultValue v) = true -> wf_type t = true -> (length (variable_toks v t) <= n)%nat -> starts_not ["!"; "="]%char r ->
  read_variable n (variable_toks v t ++ r)%list = Some (mkRVar (v_name v) t (den_default (defaultValue v)), r).
Proof.
  intros Hd Ht Hn Hr. unfold variable_toks in *. cbn [length app] in *. rewrite length_app in Hn. cbn [read_variable]. rewrite <- (assoc_L app).
  destruct (read_type_toks t Ht n (default_toks (defaultValue v) ++ r)%list ltac:(lia)) as [H _]. rewrite H.
  - cbn [rbind]. assert (defaultValue v = VNil \/ defaultValue v <> VNil) as [E | Hne] by (destruct (defaultValue v); auto; right; discriminate).
    + rewrite E. cbn [default_toks app den_default]. clear H Hn. destruct r as [|[?|?|?|c|] r]; try reflexivity. destruct c as [[] [] [] [] [] [] [] []]; try reflexivity; discriminate Hr.
    + assert (default_toks (defaultValue v) = TPunct "=" :: vtoks (defaultValue v)) as Ed by (destruct (defaultValue v); done).
      rewrite Ed in *. cbn [app length] in *. rewrite read_value_toks by (done || lia). cbn [rbind]. destruct (defaultValue v); done.
  - destruct (defaultValue v); try done. destruct r as [|[]]; try done. cbn in *. by apply orb_false_iff in Hr as [-> _].
Qed.

(** An operation that the grammar can say. *)
Record wf_query (q : QueryBuilder) : Prop := {
  wf_op : existsb (String.eqb (operationType q)) ["query"; "mutation"; "subscription"] = true;
  wf_name : operationName q = "" \/ is_name (operationName q) = true;
  wf_vars : Forall wf_variable (variables q);
  wf_fields : forallb wf_field (fields q) = true;
  wf_frags : forallb wf_fragment (fragments q) = true;
  wf_some : fields q <> [] \/ fragments q <> []
}.
Definition typed : Type := variable * rtype.
Definition typed_ok (x : typed) : Prop := is_name (v_name x.1) = true /\ wf_value (defaultValue x.1) = true /\ wf_type x.2 = true /\ show_type x.2 = variableType x.1.
Definition typed_toks (x : typed) : list tok := variable_toks x.1 x.2.
Definition den_typed (x : typed) : rvariable := mkRVar (v_name x.1) x.2 (den_default (defaultValue x.1)).
Lemma type_all l : Forall wf_variable l -> exists xs, map fst xs = l /\ Forall typed_ok xs.
Proof.
  induction 1 as [|v l (Hn & Hd & t & Ht & Es) _ (xs & <- & Hxs)]; [by exists []|]. exists ((v, t) :: xs). by split; [|constructor].
Qed.
Definition vars_toks (xs : list typed) : list tok := match xs with [] => [] | _ => ([TPunct "("] ++ concat (map typed_toks xs) ++ [TPunct ")"])%list end.
Definition build_vars (l : list variable) : string := match l with [] => "" | vs => "(" ++ Join (map (build_variable show_float) vs) ", " ++ ")" end.
Lemma clean_vars xs : Forall typed_ok xs -> sep_first (build_vars (map fst xs)) /\ clean (build_vars (map fst xs)) (vars_toks xs).
Proof.
  intros Hxs. destruct xs as [|x xs]; [done|]. split; [done|]. unfold build_vars, vars_toks. apply clean_wrap; try done.
  change (map fst (x :: xs)) with (map fst (x :: xs)). rewrite List.map_map. apply (reads_Join (fun x => build_variable show_float x.1) typed_toks); try done.
  apply (Forall_impl _ _ _ Hxs). intros [v t] (Hn & Hd & Ht & Es). by apply reads_variable.
Qed.
Definition body_text (q : QueryBuilder) : string := " { " ++ Join (map (buildField show_float) (fields q)) " " ++ build_fragments (fragments q) ++ " }".
Lemma Build_parts q : Build show_float q =
  operationType q ++ (if String.eqb (operationName q) "" then "" else " " ++ operationName q) ++ build_vars (variables q) ++ body_text q.
Proof. unfold Build, build_vars, body_text. by destruct (variables q). Qed.
Definition query_toks (q : QueryBuilder) (xs : list typed) : list tok :=
  (TName (operationType q) :: (if String.eqb (operationName q) "" then [] else [TName (operationName q)]) ++ vars_toks xs ++ set_toks (fields q) (fragments q))%list.
Lemma op_name op : existsb (String.eqb op) ["query"; "mutation"; "subscription"] = true -> is_name op = true.
Proof. cbn. rewrite orb_false_r, !orb_true_iff, !String.eqb_eq. by intros [-> | [-> | ->]]. Qed.
Lemma lex_query q xs : wf_query q -> map fst xs = variables q -> Forall typed_ok xs -> lex (Build show_float q) = Some (query_toks q xs).
Proof.
  intros [Hop Hn _ Hf Hfr _] Hv Hxs. destruct (clean_vars xs Hxs) as [Hs Hc]. rewrite Hv in Hs, Hc.
  assert (Forall (fun f => reads (buildField show_float f) (field_toks f)) (fields q)) as Hfields by (apply (forallb_Forall' wf_field); [apply reads_field|done]).
  pose proof (clean_set _ _ Hfields Hfr) as Hset. rewrite sapp_assoc in Hset.
  assert (clean (Build show_float q) (query_toks q xs)) as Hall.
  { rewrite Build_parts. unfold query_toks. set (tail := build_vars (variables q) ++ body_text q). fold (body_text q) in Hset. assert (sep_first tail /\ clean tail (vars_toks xs ++ set_toks (fields q) (fragments q))%list) as [Ht1 Ht2]
      by (subst tail; split; [by apply sep_first_app|by apply clean_clean]).
    assert (tail <> "") as Htn by (subst tail; by destruct (build_vars (variables q))).
    apply op_name in Hop. destruct Hn as [-> | Hn]; cbn [String.eqb].
    - cbn [String.append app]. by apply (reads_clean _ [TName (operationType q)]); [apply reads_name|..].
    - destruct (String.eqb_spec (operationName q) "") as [E | _]; [by rewrite E in Hn|]. apply (reads_clean _ [TName (operationType q)]); [by apply reads_name|done|done|].
      rewrite sapp_assoc. change ([TName (operationName q)] ++ vars_toks xs ++ set_toks (fields q) (fragments q))%list with ([] ++ ([TName (operationName q)] ++ (vars_toks xs ++ set_toks (fields q) (fragments q))))%list.
      apply (clean_clean " " []); [done|]. by apply reads_clean; [apply reads_name|..]. }
  unfold lex. unfold clean in Hall. rewrite Hall. cbn. by rewrite app_nil_r.
Qed.
Lemma read_vars xs n r : Forall typed_ok xs -> (length (vars_toks xs) <= n)%nat -> match r with TPunct "{" :: _ => True | _ => False end ->
  read_variables n (vars_toks xs ++ r)%list = Some (map den_typed xs, r).
Proof.
  intros Hxs Hn Hr. destruct xs as [|x xs]; [cbn [vars_toks app map]; destruct r as [|[?|?|?|c|] r]; try done; destruct c as [[] [] [] [] [] [] [] []]; done|].
  unfold vars_toks in *. cbn [app]. rewrite <- (assoc_L app). cbn [app]. rewrite !length_app in Hn. cbn [length] in Hn.
  unfold read_variables. rewrite (until_read typed_toks den_typed _ _ (starts_not ["!"; "="]%char)); [done|..|done|done].
  - intros [v t] Hin r' Hr'. rewrite Forall_forall in Hxs. destruct (Hxs _ Hin) as (_ & Hd & Ht & _). apply read_variable_toks; [done|done| |done].
    pose proof (concat_length typed_toks _ _ Hin) as Hc. unfold typed_toks in Hc at 1. cbn [fst snd] in Hc |- *. lia.
  - intros y _. by do 2 eexists.
Qed.
Lemma read_set_toks subs frags n r : forallb wf_field subs = true -> forallb wf_fragment frags = true -> (length (set_toks subs frags) <= n)%nat -> subs <> [] \/ frags <> [] ->
  read_set n (set_toks subs frags ++ r)%list = Some (map den_field subs ++ map RSpread frags, r)%list.
Proof.
  intros Hs Hf Hn Hne. rewrite set_toks_items, items_den. cbn [read_set]. unfold set_toks in Hn. rewrite !length_app in Hn. cbn [length] in Hn.
  rewrite until_items; [destruct subs, frags; naive_solver| |done|lia]. intros f Hin. apply read_selection_toks.
  - rewrite forallb_forall in Hs. by apply Hs, list_elem_of_In.
  - pose proof (concat_length field_toks f subs Hin). lia.
Qed.
End Values.

(** C29: A query that the builder is asked for, with names that are names, variables
    of types of the grammar, texts without control characters and no value that is
    printed with [%v], is built as a text that a reader of GraphQL reads as exactly
    that query: its operation, variables with their defaults, fields with aliases,
    arguments, directives and selections, and its fragments.  In particular no text
    in an argument can end its quotes. *)
Theorem build_read (show_float : float64 -> string) (q : QueryBuilder) : wf_query show_float q ->
  exists vars, Forall2 (variable_read show_float) (variables q) vars /\
    read (Build show_float q) = Some (mkROp (operationType q) (operationName q) vars (map (den_field show_float) (fields q) ++ map RSpread (fragments q))%list).
Proof.
  intros Hq. destruct (type_all _ _ (wf_vars _ _ Hq)) as (xs & Hv & Hxs). exists (map (den_typed show_float) xs). split.
  - rewrite <- Hv. clear Hv. induction Hxs as [|[v t] xs (Hn & Hd & Ht & Es) _ IH]; [constructor|]. cbn [map]. by constructor.
  - unfold read. rewrite (lex_query show_float q xs Hq Hv Hxs). destruct Hq as [Hop Hn _ Hf Hfr Hne]. set (n := S (length (query_toks show_float q xs))).
    assert (length (vars_toks show_float xs) <= n /\ length (set_toks show_float (fields q) (fragments q)) <= n)%nat as [Hlv Hls] by (subst n; unfold query_toks; cbn [length]; rewrite !length_app; lia).
    assert (read_body n (operationType q) (operationName q) (vars_toks show_float xs ++ set_toks show_float (fields q) (fragments q))%list =
      Some (mkROp (operationType q) (operationName q) (map (den_typed show_float) xs) (map (den_field show_float) (fields q) ++ map RSpread (fragments q))%list, [])) as Hrest.
    { unfold read_body. rewrite (read_vars show_float xs n) by done. cbn [rbind]. rewrite <- (app_nil_r (set_toks _ _ _)). by rewrite read_set_toks. }
    unfold query_toks. cbn [app read_operation]. rewrite Hop. destruct (String.eqb_spec (operationName q) "") as [En | En].
    + cbn [app]. rewrite En in *. destruct xs as [|x xs]; cbn [app vars_toks set_toks] in *; by rewrite Hrest.
    + cbn [app]. by rewrite Hrest.
Qed.

(** Fragments read back in the same way. *)
Lemma fragment_read show_float f : is_name (frag_name f) = true -> is_name (onType f) = true -> forallb (wf_field show_float) (frag_fields f) = true -> frag_fields f <> [] ->
  read_fragment (BuildFragment show_float f) = Some (frag_name f, onType f, map (den_field show_float) (frag_fields f)).
Proof.
  intros Hn Ht Hf Hne. assert (lex (BuildFragment show_float f) = Some ([TName "fragment"; TName (frag_name f); TName "on"; TName (onType f)] ++ set_toks show_float (frag_fields f) [])%list) as Hl.
  { assert (Forall (fun x => reads (buildField show_float x) (field_toks show_float x)) (frag_fields f)) as Hfields by (apply (forallb_Forall' (wf_field show_float)); [apply reads_field|done]).
    pose proof (clean_set show_float _ [] Hfields eq_refl) as Hset. cbn [build_fragments map Join] in Hset. rewrite sapp_nil_r in Hset.
    assert (clean (BuildFragment show_float f) ([TName "fragment"; TName (frag_name f); TName "on"; TName (onType f)] ++ set_toks show_float (frag_fields f) [])%list) as Hc.
    { unfold BuildFragment. set (body := " { " ++ _) in *. apply (clean_clean "fragment " [TName "fragment"]); [done|].
      apply (reads_clean _ [TName (frag_name f)]); [by apply reads_name|done|done|]. apply (clean_clean " on " [TName "on"]); [done|].
      apply (reads_clean _ [TName (onType f)]); [by apply reads_name|done|done|done]. }
    unfold lex. unfold clean in Hc. rewrite Hc. cbn [pending]. by rewrite app_nil_r. }
  unfold read_fragment. rewrite Hl. cbn [app]. rewrite <- (app_nil_r (set_toks _ _ _)) at 1 2. rewrite read_set_toks; [|done|done|rewrite app_nil_r; lia|by left]. by rewrite app_nil_r.
Qed.

(** ** A text that tries to escape *)
Definition no_float (f : float64) : string := "0".
Definition evil : string := q ++ ") { secrets }" ++ String newline ("\" ++ q).
Definition search : QueryBuilder :=
  Done (Select ["id"; "name"] (Include "full" (VarArg "kind" "kind" (Arg "text" (VString evil) (Alias "found" (Field "search"))))))
    (Fragment "Rest" (Variable_ "full" "Boolean" [VBool true] (Variable_ "kind" "[Kind!]" [] (Name "Find" NewQuery)))).
Lemma build_read_witness : wf_query no_float search /\
  exists vars, read (Build no_float search) = Some (mkROp "query" "Find" vars
    [RField "found" "search" [("text", RStr evil); ("kind", RVar "kind")] [("include", [("if", RVar "full")])] [RField "" "id" [] [] []; RField "" "name" [] [] []]; RSpread "Rest"]).
Proof.
  assert (wf_query no_float search) as Hq.
  { split; [reflexivity|by right|repeat constructor|reflexivity|reflexivity|by left].
    - by exists (RListOf (RNonNull (RNamed "Kind"))).
    - by exists (RNamed "Boolean"). }
  split; [exact Hq|]. destruct (build_read no_float search Hq) as (vars & _ & E). exists vars. exact E.
Defined.

(** What is printed with [%v], as times and texts of a named type are, is not
    escaped and can end its quotes. *)
Definition with_arg (v : value) : string := Build no_float (Done (Arg "a" v (Field "f")) NewQuery).
Example verbatim_escapes : read (with_arg (VOther ("x" ++ q ++ ", admin: " ++ q ++ "y"))) =
  Some (mkROp "query" "" [] [RField "" "f" [("a", RStr "x"); ("admin", RStr "y")] [] []]).
Proof. vm_compute. reflexivity. Qed.
(** So can the key of a map. *)
Example key_escapes : read (with_arg (VMap [("k: 1}, admin: {j", VInt 2)])) =
  Some (mkROp "query" "" [] [RField "" "f" [("a", RObj [("k", RNum "1")]); ("admin", RObj [("j", RNum "2")])] [] []]).
Proof. vm_compute. reflexivity. Qed.
(** A carriage return is not escaped, and the text is no document. *)
Example carriage_return : read (with_arg (VString (String creturn ""))) = None.
Proof. vm_compute. reflexivity. Qed.
(** Neither is an operation without fields. *)
Example no_fields : read (Build no_float NewQuery) = None.
Proof. vm_compute. reflexivity. Qed.
