(* ===== verification/ParamValidation.v ===== *)
(** Validation of the parameters of requests: [internal/validation].

    The parsing of JSON and of dates, hexadecimal floats and [%v] of a float are
    parameters. *)

From Stdlib Require Import ZArith Lia SpecFloat Ascii.
From stdpp Require Import base strings list gmap.
From S2P Require Import Prelude GoStrings GoText GoValue Regexp.
From S2P Require Retry.

#[local] Open Scope string_scope.
#[local] Open Scope Z_scope.

Record ValidationError := mkValidationError { Field : string; Value : GoVal; Rule : string; Message : string; Suggestion : string }.
Definition ValidationError_Error (e : ValidationError) : string := Field e ++ ": " ++ Message e.
(** A validator that found something: its errors, in order. *)
Definition ValidationErrors : Type := list ValidationError.
Definition ValidationErrors_Error (e : ValidationErrors) : string := Join (map ValidationError_Error e) "; ".
Definition HasErrors (e : ValidationErrors) : bool := match e with [] => false | _ => true end.

Record ParamDef := mkParam {
  Name : string; Type_ : string; Required : bool; Min : option float64; Max : option float64; MinLength : option Z; MaxLength : option Z;
  Pattern : option regexp; Enum : list string; Custom : option (GoVal -> option string)
}.

(** ** Formats of texts *)
Definition hex : Z -> bool := either digit (either (between 97 102) (between 65 70)).
Definition uuidRegex : regexp :=
  RSeqs [RBegin; RTimes 8 (RSet hex); literal "-"; RTimes 4 (RSet hex); literal "-"; RTimes 4 (RSet hex); literal "-"; RTimes 4 (RSet hex); literal "-";
         RTimes 12 (RSet hex); REnd].
Definition local_rune : Z -> bool := either letter (either digit (one_of [46; 95; 37; 43; 45])).
Definition domain_rune : Z -> bool := either letter (either digit (one_of [46; 45])).
Definition emailRegex : regexp :=
  RSeqs [RBegin; RPlus (RSet local_rune); literal "@"; RPlus (RSet domain_rune); literal "."; RTimes 2 (RSet letter); RStar (RSet letter); REnd].
Definition isValidUUID (s : string) : bool := MatchString uuidRegex s.
Definition isValidEmail (s : string) : bool := MatchString emailRegex s.
Definition date_formats : list string := ["2006-01-02T15:04:05Z07:00"; "2006-01-02T15:04:05.999999999Z07:00"; "2006-01-02T15:04:05"; "2006-01-02"].

Section Validator.
(** [time.Parse] accepts; what a float beyond the range becomes as an [int64];
    [%v]. *)
Variables (time_parses : string -> string -> bool) (int_of_huge : float64 -> Z) (show_float : float64 -> string).
Definition isValidISO8601 (s : string) : bool := existsb (fun format => time_parses format s) date_formats.

(** [float64(int64(val))] *)
Definition truncated (f : float64) : float64 :=
  match f with
  | S754_zero _ => f
  | S754_finite neg m e => let z := Retry.f_trunc neg m e in Retry.f_of_int (if in_int64 z then z else int_of_huge f)
  | _ => Retry.f_of_int (int_of_huge f)
  end.
Definition type_error (field : string) (value : GoVal) (what suggestion : string) : option ValidationError :=
  Some (mkValidationError field value "type" (field ++ " must be " ++ what) suggestion).
Definition date_hint : string := "Use ISO 8601 format: 2024-01-15T10:30:00Z".
Definition validateType (field : string) (value : GoVal) (expectedType : string) : option ValidationError :=
  let named t := String.eqb expectedType t in
  if named "string" || named "text" then match value with VString _ => None | _ => type_error field value "a string" "" end
  else if named "integer" then
    match value with
    | VFloat64 val => if SFeqb val (truncated val) then None else type_error field value "an integer" ""
    | VInt _ | VInt64 _ => None
    | _ => type_error field value "an integer" ""
    end
  else if named "decimal" || named "number" then match value with VFloat64 _ | VInt _ => None | _ => type_error field value "a number" "" end
  else if named "boolean" then match value with VBool _ => None | _ => type_error field value "a boolean" "" end
  else if named "uuid" then
    match value with
    | VString str => if isValidUUID str then None else type_error field value "a valid UUID" "Use format: xxxxxxxx-xxxx-xxxx-xxxx-xxxxxxxxxxxx"
    | _ => type_error field value "a valid UUID" "Use format: xxxxxxxx-xxxx-xxxx-xxxx-xxxxxxxxxxxx"
    end
  else if named "email" then
    match value with
    | VString str => if isValidEmail str then None else type_error field value "a valid email address" ""
    | _ => type_error field value "a valid email address" ""
    end
  else if named "timestamp" || named "datetime" then
    match value with
    | VString str => if isValidISO8601 str then None else type_error field value "a valid ISO 8601 timestamp" date_hint
    | _ => type_error field value "a valid timestamp" date_hint
    end
  else if named "array" then match value with VList _ => None | _ => type_error field value "an array" "" end
  else if named "object" then match value with VMap _ => None | _ => type_error field value "an object" "" end
  else None.

Definition toFloat64 (v : GoVal) : option float64 :=
  match v with VFloat64 f => Some f | VInt z | VInt64 z => Some (Retry.f_of_int z) | _ => None end.
Definition broken (param : ParamDef) (value : GoVal) (rule what : string) : ValidationError :=
  mkValidationError (Name param) value rule (Name param ++ " " ++ what) "".
(** An error if the bound is there and does not hold. *)
Definition bound {A} (limit : option A) (fails : A -> bool) (e : A -> ValidationError) : list ValidationError :=
  match limit with Some a => if fails a then [e a] else [] | None => [] end.
Definition length_errors (param : ParamDef) (value : GoVal) (n : Z) (verb unit_ : string) : list ValidationError :=
  bound (MinLength param) (fun k => n <? k) (fun k => broken param value "minLength" ("must " ++ verb ++ " at least " ++ Itoa k ++ " " ++ unit_)) ++
  bound (MaxLength param) (fun k => k <? n) (fun k => broken param value "maxLength" ("must " ++ verb ++ " at most " ++ Itoa k ++ " " ++ unit_)).
Definition number_errors (param : ParamDef) (value : GoVal) : list ValidationError :=
  match toFloat64 value with
  | Some num =>
      bound (Min param) (fun k => SFltb num k) (fun k => broken param value "min" ("must be at least " ++ show_float k)) ++
      bound (Max param) (fun k => SFltb k num) (fun k => broken param value "max" ("must be at most " ++ show_float k))
  | None => []
  end.
Definition text_errors (param : ParamDef) (value : GoVal) : list ValidationError :=
  match value with
  | VString str =>
      length_errors param value (Z.of_nat (String.length str)) "be" "characters" ++
      bound (Pattern param) (fun re => negb (MatchString re str)) (fun _ => broken param value "pattern" "does not match required pattern")
  | VList arr => length_errors param value (Z.of_nat (length arr)) "have" "items"
  | _ => []
  end.
Definition enum_errors (param : ParamDef) (value : GoVal) : list ValidationError :=
  match Enum param with
  | [] => []
  | enum =>
      let str := match value with VString s => s | _ => "" end in
      if existsb (String.eqb str) enum then []
      else [mkValidationError (Name param) value "enum" (Name param ++ " must be one of: " ++ Join enum ", ") ("Valid values: " ++ Join enum ", ")]
  end.
Definition custom_errors (param : ParamDef) (value : GoVal) : list ValidationError :=
  match Custom param with
  | Some custom => match custom value with Some e => [mkValidationError (Name param) value "custom" e ""] | None => [] end
  | None => []
  end.
Definition validateConstraints (param : ParamDef) (value : GoVal) : list ValidationError :=
  number_errors param value ++ text_errors param value ++ enum_errors param value ++ custom_errors param value.
Definition required_error (param : ParamDef) : ValidationError :=
  mkValidationError (Name param) VNil "required" (Name param ++ " is required") ("Provide a value for '" ++ Name param ++ "'").
(** One turn of the loop. *)
Definition validate_param (data : Fields) (param : ParamDef) : list ValidationError :=
  match data !! Name param with
  | None | Some VNil => if Required param then [required_error param] else []
  | Some value => match validateType (Name param) value (Type_ param) with Some e => [e] | None => validateConstraints param value end
  end.
Definition Validate (data : Fields) (params : list ParamDef) : option ValidationErrors :=
  match fold_left (fun errors param => (errors ++ validate_param data param)%list) params [] with [] => None | errors => Some errors end.

(** ** The middleware *)
Record Request := mkRequest { Query : gmap string string; Body : option (result string string); ContentLength : Z }.
Inductive Refusal := InvalidParams (errs : ValidationErrors) | BadRequest (message : string).
(** [strconv.ParseFloat] and [ParseBool] on any text. *)
Variable hex_float : string -> option float64.
Definition ParseFloat_any (s : string) : option float64 :=
  let '(neg, signed, body) := match s with String "-"%char r => (true, true, r) | String "+"%char r => (false, true, r) | _ => (false, false, s) end in
  let l := ToLower body in
  if String.eqb l "inf" || String.eqb l "infinity" then Some (S754_infinity neg)
  else if String.eqb l "nan" && negb signed then Some S754_nan
  else if HasPrefix l "0x" then hex_float s
  else match ParseFloat s with Ok f => Some f | Err _ => None end.
Definition ParseBool (s : string) : option bool :=
  if existsb (String.eqb s) ["1"; "t"; "T"; "TRUE"; "true"; "True"] then Some true
  else if existsb (String.eqb s) ["0"; "f"; "F"; "FALSE"; "false"; "False"] then Some false else None.
Definition convertQueryValue (value paramType : string) : GoVal :=
  if String.eqb paramType "integer" then match ParseInt value with Ok v => VFloat64 (Retry.f_of_int v) | Err _ => VString value end
  else if String.eqb paramType "decimal" || String.eqb paramType "number" then match ParseFloat_any value with Some v => VFloat64 v | None => VString value end
  else if String.eqb paramType "boolean" then match ParseBool value with Some v => VBool v | None => VString value end
  else VString value.
Definition query_data (r : Request) (queryParams : list ParamDef) : Fields :=
  fold_left (fun data p => let v := default "" (Query r !! Name p) in if String.eqb v "" then data else <[Name p := convertQueryValue v (Type_ p)]> data) queryParams ∅.
(** [json.Unmarshal] into a map; [null] is a map without entries. *)
Variable Unmarshal : string -> option Fields.
Definition validate_query (queryParams : list ParamDef) (r : Request) : option Refusal :=
  match queryParams with
  | [] => None
  | _ => match Validate (query_data r queryParams) queryParams with Some errs => Some (InvalidParams errs) | None => None end
  end.
Definition validate_body (bodyParams : list ParamDef) (r : Request) : option Refusal :=
  match bodyParams, Body r with
  | [], _ | _, None => None
  | _, Some body =>
      if ContentLength r =? 0 then None
      else match body with
           | Err _ => Some (BadRequest "failed to read request body")
           | Ok "" => None
           | Ok bytes =>
               match Unmarshal bytes with
               | None => Some (BadRequest "invalid JSON body")
               | Some body => match Validate body bodyParams with Some errs => Some (InvalidParams errs) | None => None end
               end
           end
  end.
(** The request that the next handler gets, with its body to be read again. *)
Definition ValidationMiddleware (bodyParams queryParams : list ParamDef) (r : Request) : result Refusal Request :=
  match validate_query queryParams r with
  | Some refusal => Err refusal
  | None => match validate_body bodyParams r with Some refusal => Err refusal | None => Ok r end
  end.
Definition ValidateBody (params : list ParamDef) : Request -> result Refusal Request := ValidationMiddleware params [].
Definition ValidateQuery (params : list ParamDef) : Request -> result Refusal Request := ValidationMiddleware [] params.
End Validator.

(** * Formats *)
Lemma chars_split s u v : chars s = (u ++ v)%list -> exists a b, s = a ++ b /\ u = chars a /\ v = chars b.
Proof.
  revert s. induction u as [|c u IH]; intros s E; [by exists "", s|]. destruct s as [|d s]; [done|]. cbn [chars app] in E. injection E as <- E.
  apply IH in E as (a & b & -> & -> & ->). by exists (String d a), b.
Qed.
(** A text whose runes are ASCII is ASCII. *)
Lemma pieces_low s : forallb (fun c => c.1 <? 128) (pieces s) = true -> str_forall is_ascii s = true.
Proof.
  unfold pieces. assert (forall n s, (String.length s <= n)%nat -> forallb (fun c => c.1 <? 128) (pieces_from n s) = true -> str_forall is_ascii s = true) as H; [|by apply H].
  clear s. induction n as [|n IH]; intros [|c s] Hn; try done; [cbn in Hn; lia|]. cbn [pieces_from]. destruct (decode_rune (String c s)) as [r w] eqn:E. cbn [forallb fst].
  intros [Hr Hs]%andb_true_iff. destruct (byte c <? 128) eqn:Hc.
  - unfold decode_rune in E. rewrite Hc in E. injection E as <- <-. cbn [drop_str] in Hs. cbn [str_forall]. unfold is_ascii at 1. rewrite Hc. apply IH; [cbn in Hn; lia|].
    by destruct s.
  - exfalso. apply Z.ltb_lt in Hr. apply Z.ltb_ge in Hc. unfold decode_rune in E. rewrite (proj2 (Z.ltb_ge _ _) Hc) in E. revert E Hr. pose proof (byte_range c).
    assert (forall d, is_cont d = true -> 0 <= cont d < 64) as Hcont by (intros d Hd; unfold is_cont, cont in *; apply in_range_spec in Hd; lia).
    repeat match goal with |- context [if ?b then _ else _] => destruct b eqn:? | |- context [match ?s with EmptyString => _ | String _ _ => _ end] => destruct s end;
      intros [= <- <-]; unfold RuneError; repeat match goal with H : _ && _ = true |- _ => apply andb_true_iff in H as [? ?] | H : is_cont _ = true |- _ => apply Hcont in H | H : (_ <=? _) = true |- _ => apply Z.leb_le in H
        | H : in_range _ _ _ = true |- _ => apply in_range_spec in H end; unfold cont in *; lia.
Qed.

Definition hex_char (c : ascii) : bool := hex (byte c).
Definition hex_text (n : nat) (s : string) : Prop := String.length s = n /\ str_forall hex_char s = true.
(** Thirty-two hexadecimal digits in five groups. *)
Definition uuid_text (s : string) : Prop :=
  exists a b c d e, s = a ++ "-" ++ b ++ "-" ++ c ++ "-" ++ d ++ "-" ++ e /\ hex_text 8 a /\ hex_text 4 b /\ hex_text 4 c /\ hex_text 4 d /\ hex_text 12 e.
Lemma hex_low r : hex r = true -> (r <? 128) = true.
Proof. unfold hex, either, digit, between. rewrite !orb_true_iff, !andb_true_iff, !Z.leb_le, Z.ltb_lt. lia. Qed.
Lemma hex_group n s : hex_text n s <-> length (chars s) = n /\ forallb (fun c => hex c.1) (chars s) = true.
Proof.
  assert (length (chars s) = String.length s /\ forallb (fun c => hex c.1) (chars s) = str_forall hex_char s) as [-> ->]; [|done].
  induction s as [|c s [IH1 IH2]]; [done|]. cbn [chars length forallb str_forall String.length fst]. by rewrite IH1, IH2.
Qed.
(** One group and the dash after it. *)
Lemma group_inv n r o l u y : matches (RSeq (RTimes n (RSet hex)) (RSeq (literal "-") r)) (o, l) u y ->
  exists g w o' l' v, l = (g ++ (45%Z, w) :: l')%list /\ length g = n /\ forallb (fun c : Z * string => hex c.1) g = true /\ matches r (o', l') v y.
Proof.
  intros H. inversion H as [| | a b x u1 y1 v1 z H1 H2 E1 E2 E3 | | | | | | |]; subst. inversion H2 as [| | a b x u2 y2 v2 z H3 H4 E1 E2 E3 | | | | | | |]; subst.
  pose proof (matches_text _ _ _ _ H1) as Ht. cbn [snd] in Ht. apply matches_times in H1 as [Hl Hh]. unfold literal in H3. cbn in H3.
  inversion H3 as [| | a b x u3 y3 v3 z H5 H6 E1 E2 E3 | | | | | | |]; subst. inversion H5 as [|p o2 c2 l2 Hp E1 E2 E3 E4| | | | | | | |]; subst. inversion H6; subst.
  apply Z.eqb_eq in Hp. destruct c2 as [k w]. cbn in Hp. subst k. exists u1, w, (Some 45%Z), l2, v2. done.
Qed.
Lemma last_inv n o l u y : matches (RSeq (RTimes n (RSet hex)) (RSeq REnd REps)) (o, l) u y -> length l = n /\ forallb (fun c : Z * string => hex c.1) l = true.
Proof.
  intros H. inversion H as [| | a b x u1 y1 v1 z H1 H2 E1 E2 E3 | | | | | | |]; subst. inversion H2 as [| | a b x u2 y2 v2 z H3 H4 E1 E2 E3 | | | | | | |]; subst. inversion H3; subst.
  pose proof (matches_text _ _ _ _ H1) as Ht. cbn [snd] in Ht. rewrite app_nil_r in Ht. subst l. by apply matches_times in H1.
Qed.
Lemma group_matches o g l r y v : forallb (fun c : Z * string => hex c.1) g = true -> matches r (Some 45%Z, l) v y ->
  exists u, matches (RSeq (RTimes (length g) (RSet hex)) (RSeq (literal "-") r)) (o, g ++ (45%Z, "-") :: l)%list u y.
Proof.
  intros Hg Hr. eexists. eapply m_seq; [by apply times_matches|]. eapply m_seq; [|exact Hr]. unfold literal. cbn.
  apply (m_seq _ _ _ [(45%Z, "-")] (Some 45%Z, l)); [by constructor|constructor].
Qed.
Lemma split_group s g w l : chars s = (g ++ (45%Z, w) :: l)%list -> exists a s', s = a ++ "-" ++ s' /\ g = chars a /\ l = chars s'.
Proof.
  intros E. apply chars_split in E as (a & b & -> & -> & E). destruct b as [|c b]; [done|]. cbn [chars] in E. injection E as Hc Hw Hl.
  exists a, b. assert (c = "-"%char) as -> by (by apply byte_inj). done.
Qed.
Lemma isValidUUID_spec s : isValidUUID s = true <-> uuid_text s.
Proof.
  unfold isValidUUID. transitivity (exists u y, matches (RSeqs [RTimes 8 (RSet hex); literal "-"; RTimes 4 (RSet hex); literal "-"; RTimes 4 (RSet hex); literal "-"; RTimes 4 (RSet hex);
    literal "-"; RTimes 12 (RSet hex); REnd]) (None, pieces s) u y); [apply MatchString_anchored|]. split.
  - intros (u & y & H). apply group_inv in H as (g1 & w1 & o1 & l1 & v1 & E & Hl1 & Hh1 & H). apply group_inv in H as (g2 & w2 & o2 & l2 & v2 & -> & Hl2 & Hh2 & H).
    apply group_inv in H as (g3 & w3 & o3 & l3 & v3 & -> & Hl3 & Hh3 & H). apply group_inv in H as (g4 & w4 & o4 & l4 & v4 & -> & Hl4 & Hh4 & H). apply last_inv in H as [Hl5 Hh5].
    assert (forall g : list (Z * string), forallb (fun c => hex c.1) g = true -> forallb (fun c => c.1 <? 128) g = true) as Hlow
      by (intros g; rewrite !forallb_forall; intros Hg c Hc; by apply hex_low, Hg).
    assert (str_forall is_ascii s = true) as Ha.
    { apply pieces_low. rewrite E, !forallb_app. cbn [forallb fst]. rewrite !forallb_app. cbn [forallb fst]. rewrite !forallb_app. cbn [forallb fst]. rewrite !forallb_app. cbn [forallb fst].
      by rewrite !Hlow. }
    rewrite pieces_ascii in E by done. apply split_group in E as (a & s1 & -> & -> & E). symmetry in E. apply split_group in E as (b & s2 & -> & -> & E). symmetry in E.
    apply split_group in E as (c & s3 & -> & -> & E). symmetry in E. apply split_group in E as (d & e & -> & -> & ->).
    exists a, b, c, d, e. rewrite !hex_group. done.
  - intros (a & b & c & d & e & -> & Ha & Hb & Hc & Hd & He).
    assert (forall n t, hex_text n t -> str_forall is_ascii t = true) as Hlow.
    { intros n t [_ Ht]. revert Ht. apply str_forall_impl. intros k. apply hex_low. }
    rewrite pieces_ascii by (rewrite !str_forall_app; cbn [str_forall]; rewrite (Hlow 8%nat a), (Hlow 4%nat b), (Hlow 4%nat c), (Hlow 4%nat d), (Hlow 12%nat e) by done; done).
    rewrite !chars_app. apply hex_group in Ha as [Hal Hah], Hb as [Hbl Hbh], Hc as [Hcl Hch], Hd as [Hdl Hdh], He as [Hel Heh].
    change (chars "-") with [(45%Z, "-")]. cbn [app RSeqs].
    assert (exists u y, matches (RSeq (RTimes (length (chars e)) (RSet hex)) (RSeq REnd REps)) (Some 45%Z, chars e) u y) as (u5 & y & H5).
    { eexists _, _. eapply m_seq; [rewrite <- (app_nil_r (chars e)) at 2; by apply times_matches|]. eapply m_seq; [apply m_end|constructor]. }
    destruct (group_matches (Some 45%Z) (chars d) _ _ _ _ Hdh H5) as (u4 & H4).
    destruct (group_matches (Some 45%Z) (chars c) _ _ _ _ Hch H4) as (u3 & H3). destruct (group_matches (Some 45%Z) (chars b) _ _ _ _ Hbh H3) as (u2 & H2).
    destruct (group_matches None (chars a) _ _ _ _ Hah H2) as (u1 & H1). rewrite Hal, Hbl, Hcl, Hdl, Hel in H1. exists u1, y. exact H1.
Qed.

(** * What is accepted *)
Section Accepted.
Variables (time_parses : string -> string -> bool) (int_of_huge : float64 -> Z) (show_float : float64 -> string).
Local Abbreviation validate := (Validate time_parses int_of_huge show_float).

Definition known_types : list string :=
  ["string"; "text"; "integer"; "decimal"; "number"; "boolean"; "uuid"; "email"; "timestamp"; "datetime"; "array"; "object"].
(** The values of a type; a type that is not known has all. *)
Inductive has_type : string -> GoVal -> Prop :=
| ty_string t s : t ∈ ["string"; "text"] -> has_type t (VString s)
| ty_int z : has_type "integer" (VInt z)
| ty_int64 z : has_type "integer" (VInt64 z)
| ty_whole f : SFeqb f (truncated int_of_huge f) = true -> has_type "integer" (VFloat64 f)
| ty_float t f : t ∈ ["decimal"; "number"] -> has_type t (VFloat64 f)
| ty_number t z : t ∈ ["decimal"; "number"] -> has_type t (VInt z)
| ty_bool b : has_type "boolean" (VBool b)
| ty_uuid s : uuid_text s -> has_type "uuid" (VString s)
| ty_email s : isValidEmail s = true -> has_type "email" (VString s)
| ty_time t s : t ∈ ["timestamp"; "datetime"] -> isValidISO8601 time_parses s = true -> has_type t (VString s)
| ty_array l : has_type "array" (VList l)
| ty_object m : has_type "object" (VMap m)
| ty_any t v : t ∉ known_types -> has_type t v.
Lemma validateType_spec field v t : validateType time_parses int_of_huge field v t = None <-> has_type t v.
Proof.
  split.
  - destruct (decide (t ∈ known_types)) as [Hin | Hout]; [|intros _; by apply ty_any]. unfold known_types in Hin.
    repeat (apply elem_of_cons in Hin as [-> | Hin]; [destruct v; cbn; try discriminate; try (intros _; by constructor; repeat constructor)|]); [..|by apply not_elem_of_nil in Hin].
    all: match goal with |- context [if ?b then _ else _] => destruct b eqn:E end; intros [=];
      first [by apply ty_whole | apply ty_uuid; by apply isValidUUID_spec | by apply ty_email | by apply ty_time; [repeat constructor|]].
  - unfold validateType. intros H. destruct H as [t s Ht|z|z|f Hf|t f Ht|t z Ht|b|s Hs|s Hs|t s Ht Hs|l|m|t v Ht]; try reflexivity.
    + by repeat (apply elem_of_cons in Ht as [-> | Ht]; [reflexivity|]); apply not_elem_of_nil in Ht.
    + cbn. by rewrite Hf.
    + by repeat (apply elem_of_cons in Ht as [-> | Ht]; [reflexivity|]); apply not_elem_of_nil in Ht.
    + by repeat (apply elem_of_cons in Ht as [-> | Ht]; [reflexivity|]); apply not_elem_of_nil in Ht.
    + apply isValidUUID_spec in Hs. cbn. by rewrite Hs.
    + cbn. by rewrite Hs.
    + by repeat (apply elem_of_cons in Ht as [-> | Ht]; [cbn -[isValidISO8601]; by rewrite Hs|]); apply not_elem_of_nil in Ht.
    + repeat match goal with |- context [String.eqb t ?x] => destruct (String.eqb_spec t x) as [-> | _]; [exfalso; apply Ht, list_elem_of_In; cbn; by auto 20|]; cbn [orb] end. done.
Qed.

Definition at_least {A} (limit : option A) (P : A -> Prop) : Prop := forall a, limit = Some a -> P a.
(** The constraints that a value of the right type is under. *)
Record satisfies (param : ParamDef) (v : GoVal) : Prop := {
  s_min : forall num, toFloat64 v = Some num -> at_least (Min param) (fun k => SFltb num k = false);
  s_max : forall num, toFloat64 v = Some num -> at_least (Max param) (fun k => SFltb k num = false);
  s_text : forall s, v = VString s ->
    at_least (MinLength param) (fun k => k <= Z.of_nat (String.length s)) /\ at_least (MaxLength param) (fun k => Z.of_nat (String.length s) <= k) /\
    at_least (Pattern param) (fun re => MatchString re s = true);
  s_list : forall l, v = VList l ->
    at_least (MinLength param) (fun k => k <= Z.of_nat (length l)) /\ at_least (MaxLength param) (fun k => Z.of_nat (length l) <= k);
  s_enum : Enum param <> [] -> match v with VString s => s | _ => "" end ∈ Enum param;
  s_custom : at_least (Custom param) (fun custom => custom v = None)
}.
Lemma bound_nil {A} (limit : option A) fails e : bound limit fails e = [] <-> at_least limit (fun a => fails a = false).
Proof.
  unfold bound, at_least. destruct limit as [a|]; [|split; [by intros _ a [=]|done]]. split.
  - destruct (fails a) eqn:E; [done|]. by intros _ b [= <-].
  - intros H. by rewrite (H a eq_refl).
Qed.
Lemma length_nil param v n verb unit_ : length_errors param v n verb unit_ = [] <-> at_least (MinLength param) (fun k => k <= n) /\ at_least (MaxLength param) (fun k => n <= k).
Proof. unfold length_errors. rewrite app_nil, !bound_nil. unfold at_least. setoid_rewrite Z.ltb_ge. done. Qed.
Lemma validateConstraints_spec param v : validateConstraints show_float param v = [] <-> satisfies param v.
Proof.
  unfold validateConstraints. rewrite !app_nil. assert (number_errors show_float param v = [] <-> (forall num, toFloat64 v = Some num -> at_least (Min param) (fun k => SFltb num k = false)) /\
    (forall num, toFloat64 v = Some num -> at_least (Max param) (fun k => SFltb k num = false))) as ->.
  { unfold number_errors. destruct (toFloat64 v) as [num|]; [|split; [by intros _; split; intros num [=]|done]]. rewrite app_nil, !bound_nil. naive_solver. }
  assert (enum_errors param v = [] <-> (Enum param <> [] -> match v with VString s => s | _ => "" end ∈ Enum param)) as ->.
  { unfold enum_errors. destruct (Enum param) as [|x l]; [split; [by intros _ []|done]|]. set (str := match v with VString s => s | _ => "" end).
    destruct (existsb (String.eqb str) (x :: l)) eqn:E.
    - apply List.existsb_exists in E as (y & Hy & ->%String.eqb_eq). split; [intros _ _; by apply list_elem_of_In|done].
    - split; [done|]. intros H. apply not_true_iff_false in E. exfalso. apply E, List.existsb_exists. exists str. split; [by apply list_elem_of_In, H|apply String.eqb_refl]. }
  assert (custom_errors param v = [] <-> at_least (Custom param) (fun custom => custom v = None)) as ->.
  { unfold custom_errors, at_least. destruct (Custom param) as [custom|]; [|split; [by intros _ c [=]|done]]. destruct (custom v) eqn:E; split; try done; [intros H; by rewrite (H custom eq_refl) in E|by intros _ c [= <-]]. }
  assert (text_errors param v = [] <-> (forall s, v = VString s -> at_least (MinLength param) (fun k => k <= Z.of_nat (String.length s)) /\ at_least (MaxLength param) (fun k => Z.of_nat (String.length s) <= k) /\
    at_least (Pattern param) (fun re => MatchString re s = true)) /\ (forall l, v = VList l -> at_least (MinLength param) (fun k => k <= Z.of_nat (length l)) /\ at_least (MaxLength param) (fun k => Z.of_nat (length l) <= k))) as ->.
  { unfold text_errors. destruct v as [|s| | | | | | | |l| | | | | |]; try (split; [by intros _; split|done]).
    - rewrite app_nil, length_nil, bound_nil. unfold at_least. setoid_rewrite negb_false_iff. split; [|naive_solver]. intros [[H1 H2] H3]. split; [|done]. by intros t [= <-].
    - rewrite length_nil. split; [|naive_solver]. intros H. split; [done|]. by intros t [= <-]. }
  split; [|intros []; tauto]. intros ([] & [] & ? & ?). by split.
Qed.

(** A parameter and the data: what is required is there, and what is there has its
    type and satisfies its constraints. *)
Definition param_ok (data : Fields) (param : ParamDef) : Prop :=
  match data !! Name param with
  | None | Some VNil => Required param = false
  | Some v => has_type (Type_ param) v /\ satisfies param v
  end.
Lemma validate_param_spec data param : validate_param time_parses int_of_huge show_float data param = [] <-> param_ok data param.
Proof.
  unfold validate_param, param_ok. assert (forall v, match validateType time_parses int_of_huge (Name param) v (Type_ param) with Some e => [e] | None => validateConstraints show_float param v end = [] <->
    has_type (Type_ param) v /\ satisfies param v) as H.
  { intros v. rewrite <- (validateType_spec (Name param)). destruct (validateType _ _ _ _ _); [naive_solver|]. rewrite validateConstraints_spec. naive_solver. }
  assert ((if Required param then [required_error param] else []) = [] <-> Required param = false) as Hr by (destruct (Required param); naive_solver).
  destruct (data !! Name param) as [[]|]; done.
Qed.
Lemma Validate_errors data params : validate data params = match concat (map (validate_param time_parses int_of_huge show_float data) params) with [] => None | errors => Some errors end.
Proof.
  unfold Validate. assert (forall acc, fold_left (fun errors param => errors ++ validate_param time_parses int_of_huge show_float data param)%list params acc =
    (acc ++ concat (map (validate_param time_parses int_of_huge show_float data) params))%list) as H; [|by rewrite H].
  induction params as [|p params IH]; intros acc; cbn [fold_left map concat]; [by rewrite app_nil_r|]. by rewrite IH, (assoc_L app).
Qed.
Lemma Validate_spec data params : validate data params = None <-> Forall (param_ok data) params.
Proof.
  rewrite Validate_errors, (Forall_iff _ _ _ (fun p => iff_sym (validate_param_spec data p))). induction params as [|p params IH]; [done|]. cbn [map concat]. rewrite Forall_cons, <- IH.
  destruct (validate_param _ _ _ data p); [by destruct (concat _); naive_solver|]. naive_solver.
Qed.

(** ** The middleware *)
Variables (hex_float : string -> option float64) (Unmarshal : string -> option Fields).
Local Abbreviation middleware := (ValidationMiddleware time_parses int_of_huge show_float hex_float Unmarshal).
(** The body that is looked at: it is there, has a length, can be read and is not empty. *)
Definition has_body (r : Request) (bytes : string) : Prop := Body r = Some (Ok bytes) /\ bytes <> "" /\ ContentLength r <> 0.
Definition body_unread (r : Request) : Prop := Body r = None \/ ContentLength r = 0 \/ Body r = Some (Ok "").
Lemma validate_query_spec queryParams r : validate_query time_parses int_of_huge show_float hex_float queryParams r = None <->
  Forall (param_ok (query_data hex_float r queryParams)) queryParams.
Proof.
  unfold validate_query. destruct queryParams as [|p params]; [done|]. rewrite <- Validate_spec. by destruct (Validate _ _ _ _ _).
Qed.
Lemma validate_body_spec bodyParams r : validate_body time_parses int_of_huge show_float Unmarshal bodyParams r = None <->
  bodyParams = [] \/ body_unread r \/ exists bytes data, has_body r bytes /\ Unmarshal bytes = Some data /\ Forall (param_ok data) bodyParams.
Proof.
  unfold validate_body, body_unread, has_body. destruct bodyParams as [|p params]; [split; [by left|done]|].
  destruct (Body r) as [[bytes | e]|]; [|destruct (Z.eqb_spec (ContentLength r) 0); naive_solver|naive_solver].
  destruct (Z.eqb_spec (ContentLength r) 0); [naive_solver|]. destruct bytes as [|c bytes]; [naive_solver|].
  destruct (Unmarshal (String c bytes)) as [data|] eqn:E.
  - pose proof (Validate_spec data (p :: params)) as Hv. destruct (Validate _ _ _ data _); naive_solver.
  - naive_solver.
Qed.

End Accepted.

(** ** What is let through *)
Definition no_dates (format s : string) : bool := false.
Definition int_min (f : float64) : Z := - 2 ^ 63.
Definition no_show (f : float64) : string := "".
Definition no_hex (s : string) : option float64 := None.
Definition price : ParamDef := mkParam "price" "number" true (Some (Retry.f_of_int 0)) (Some (Retry.f_of_int 100)) None None None [] None.
Definition id_param : ParamDef := mkParam "id" "uuid" true None None None None None [] None.
Definition an_id : string := "123e4567-e89b-12d3-a456-426614174000".
Example short_id : isValidUUID "123e4567-e89b-12d3-a456-42661417400" = false.
Proof. vm_compute. reflexivity. Qed.

(** A request without a body is not asked for the parameters that are required. *)
Example empty_body : ValidateBody no_dates int_min no_show no_hex (fun _ => None) [id_param] (mkRequest ∅ (Some (Ok "")) 0) = Ok (mkRequest ∅ (Some (Ok "")) 0).
Proof. vm_compute. reflexivity. Qed.
(** What is not a number is in every range. *)
Example nan_price : let r := mkRequest {["price" := "NaN"]} None 0 in ValidateQuery no_dates int_min no_show no_hex (fun _ => None) [price] r = Ok r.
Proof. vm_compute. reflexivity. Qed.
(** An integer is not one of the texts of an enumeration, whatever they are. *)
Example enum_of_numbers : Validate no_dates int_min no_show {["n" := VInt 1]} [mkParam "n" "integer" false None None None None None ["1"; "2"] None] <> None.
Proof. vm_compute. discriminate. Qed.
(** Lengths are in bytes. *)
Example two_umlauts : Validate no_dates int_min no_show {["s" := VString "üü"]} [mkParam "s" "string" false None None None (Some 3) None [] None] <> None.
Proof. vm_compute. discriminate. Qed.
(** A type that is not known has all values. *)
Example unknown_type : Validate no_dates int_min no_show {["s" := VBool true]} [mkParam "s" "int" true None None None None None [] None] = None.
Proof. vm_compute. reflexivity. Qed.
