(* ===== verification/MongoWhere.v ===== *)
(** Clauses of the query language as filters of MongoDB: the translation of
    [internal/database/mongodb/repository.go].

    The documents are those of [MongoQuery]; their meaning there, [doc_matches],
    is the specification.  The driver's [ObjectIDFromHex] is a parameter. *)

From Stdlib Require Import ZArith Lia Ascii.
From stdpp Require Import base strings list sets.
From S2P Require Import Prelude GoStrings MongoQuery QueryAst.

#[local] Open Scope string_scope.

(** What a document holds beside texts, integers, truth values, identifiers,
    lists and documents. *)
Inductive other :=
| OTime (t : Z) | ODateTime (ms : Z) | OInt32 (z : Z) | OInt64 (z : Z) | OFloat (f : float64) | OParam (name : string) | OBetween (low high : Value).

Arguments BNull {_ _}.
Arguments BStr {_ _} _.
Arguments BBool {_ _} _.
Arguments BInt {_ _} _.
Arguments BOid {_ _} _.
Arguments BOther {_ _} _.
Arguments BArr {_ _} _.
Arguments BDoc {_ _} _.
Arguments BDocs {_ _} _.
Arguments BMap {_ _} _.

(** ** Patterns *)
Definition special : list ascii := ["\"; "."; "+"; "*"; "?"; "^"; "$"; "("; ")"; "["; "]"; "{"; "}"; "|"]%char.
Definition escapeRegex (s : string) : string := foldl (fun result char => ReplaceAll result char (String backslash (String char ""))) s special.
Definition likeToRegex (pattern : string) : string :=
  let escaped := escapeRegex pattern in
  let escaped := ReplaceAll escaped "%" ".*" in
  let escaped := ReplaceAll escaped "_" "." in
  "^" +:+ escaped +:+ "$".

Section Where.
Variables (ObjectID : Type) (ObjectIDFromHex : string -> option ObjectID).
Local Abbreviation bval := (MongoQuery.bval ObjectID other).
Local Abbreviation M := (list (string * bval)).

(** The [interface{}] of a condition, as a value of a document. *)
Fixpoint to_bval (v : Value) : bval :=
  match v with
  | VNil => BNull | VStr s => BStr s | VBool b => BBool b | VInt z => BInt z | VFloat f => BOther (OFloat f)
  | VParam n => BOther (OParam n) | VList l => BArr (map to_bval l) | VBetween low high => BOther (OBetween low high)
  end.

Definition regex_doc (pattern : string) : M := [("$regex", BStr pattern); ("$options", BStr "i")].
(** The document of a condition without nested clauses, before [NOT]; [None] is
    the nil map. *)
Definition leaf_doc (field : string) (op : CompareOp) (raw : Value) : option M :=
  let value := oid_value ObjectID other ObjectIDFromHex field (to_bval raw) in
  let text (k : string -> M) : option M := match value with BStr s => Some (k s) | _ => None end in
  match op with
  | OpEquals => Some [(field, value)]
  | OpNotEquals => Some [(field, BDoc [("$ne", value)])]
  | OpGreaterThan => Some [(field, BDoc [("$gt", value)])]
  | OpGreaterThanOrEqual => Some [(field, BDoc [("$gte", value)])]
  | OpLessThan => Some [(field, BDoc [("$lt", value)])]
  | OpLessThanOrEqual => Some [(field, BDoc [("$lte", value)])]
  | OpContains => text (fun str => [(field, BDoc (regex_doc str))])
  | OpStartsWith => text (fun str => [(field, BDoc (regex_doc ("^" +:+ escapeRegex str)))])
  | OpEndsWith => text (fun str => [(field, BDoc (regex_doc (escapeRegex str +:+ "$")))])
  | OpIn => Some [(field, BDoc [("$in", value)])]
  | OpNotIn => Some [(field, BDoc [("$nin", value)])]
  | OpIsNull => Some [(field, BNull)]
  | OpIsNotNull => Some [(field, BDoc [("$ne", BNull)])]
  | OpIncludes | OpArrayContains => Some [(field, value)]
  | OpLike => text (fun str => [(field, BDoc [("$regex", BStr (likeToRegex str))])])
  | OpILike => text (fun str => [(field, BDoc (regex_doc (likeToRegex str)))])
  | OpBetween => match raw with VBetween low high => Some [(field, BDoc [("$gte", to_bval low); ("$lte", to_bval high)])] | _ => None end
  | OpFuzzy => text (fun str => [("$text", BDoc [("$search", BStr str)])])
  | OpExact => Some [(field, value)]
  end.
Definition negated (not : bool) (mongoOp : option M) : M :=
  match mongoOp with
  | Some m => if not then [("$not", BDoc m)] else m
  | None => []
  end.
(** One document for the conditions that are left. *)
Definition combine (op : LogicalOp) (conditions : list M) : M :=
  match conditions with
  | [] => []
  | [c] => c
  | _ => match op with LogicalOr => [("$or", BDocs (map Some conditions))] | LogicalAnd => [("$and", BDocs (map Some conditions))] end
  end.
Fixpoint translateWhereClause (w : WhereClause) : M :=
  match w with
  | mkWhere conditions op groups =>
      combine op (List.filter nonempty (map translateCondition conditions) ++ List.filter nonempty (map translateWhereClause groups))%list
  end
with translateCondition (c : Condition) : M :=
  match c with
  | mkCond field op value not _ nested =>
      match nested with
      | Some w => translateWhereClause w
      | None => negated not (leaf_doc field op value)
      end
  end.

(** The identifier of a document as a text. *)
Variables (Hex : ObjectID -> string) (Sprint : bval -> string).
Definition formatID (id : bval) : string := match id with BOid v => Hex v | BStr v => v | v => Sprint v end.
(** A filter whose identifier is read. *)
Definition translateFilter (filter : M) : M := map (fun e => (e.1, oid_value ObjectID other ObjectIDFromHex e.1 e.2)) filter.
End Where.

(** * Patterns are escaped byte by byte *)
Fixpoint bytewise (f : ascii -> string) (s : string) : string :=
  match s with EmptyString => "" | String c s => f c +:+ bytewise f s end.
Definition escape_with (p : list ascii) (c : ascii) : string := if existsb (Ascii.eqb c) p then String backslash (String c "") else String c "".
Lemma append_assoc (a b c : string) : (a +:+ b) +:+ c = a +:+ (b +:+ c).
Proof. induction a as [|x a IH]; [done|]. cbn. by rewrite IH. Qed.
Lemma ReplaceAll_app a b old new : ReplaceAll (a +:+ b) old new = ReplaceAll a old new +:+ ReplaceAll b old new.
Proof. induction a as [|x a IH]; [done|]. cbn. rewrite IH. destruct (Ascii.eqb x old); [by rewrite append_assoc|done]. Qed.
Lemma ReplaceAll_bytewise f s old new : ReplaceAll (bytewise f s) old new = bytewise (fun c => ReplaceAll (f c) old new) s.
Proof. induction s as [|c s IH]; [done|]. cbn [bytewise]. by rewrite ReplaceAll_app, IH. Qed.
Lemma bytewise_ext f g s : (forall c, f c = g c) -> bytewise f s = bytewise g s.
Proof. intros H. induction s as [|c s IH]; [done|]. cbn [bytewise]. by rewrite H, IH. Qed.
Lemma bytewise_id s : bytewise (fun c => String c "") s = s.
Proof. induction s as [|c s IH]; [done|]. cbn. by rewrite IH. Qed.

Lemma escape_step p d s : (p = [] \/ Ascii.eqb backslash d = false) -> existsb (Ascii.eqb d) p = false ->
  ReplaceAll (bytewise (escape_with p) s) d (String backslash (String d "")) = bytewise (escape_with (p ++ [d])) s.
Proof.
  intros Hb Hd. rewrite ReplaceAll_bytewise. apply bytewise_ext. intros c. unfold escape_with. rewrite existsb_app. cbn [existsb]. rewrite orb_false_r.
  destruct (existsb (Ascii.eqb c) p) eqn:E; cbn [orb ReplaceAll].
  - destruct Hb as [-> | ->]; [done|]. destruct (ascii_eqb_spec c d) as [->|]; [congruence|done].
  - by destruct (ascii_eqb_spec c d) as [->|].
Qed.
Lemma escape_loop l p s : (p = [] \/ forallb (fun d => negb (Ascii.eqb backslash d)) l = true) -> NoDup (p ++ l) ->
  (p = [] -> forallb (fun d => negb (Ascii.eqb backslash d)) (tail l) = true) ->
  foldl (fun result char => ReplaceAll result char (String backslash (String char ""))) (bytewise (escape_with p) s) l = bytewise (escape_with (p ++ l)) s.
Proof.
  revert p. induction l as [|d l IH]; intros p Hp Hnd Ht; cbn [foldl]; [by rewrite app_nil_r|]. rewrite escape_step.
  - rewrite IH; [by rewrite <- (assoc_L app)| |by rewrite <- (assoc_L app)|by destruct p].
    right. destruct Hp as [-> | Hp]; [by apply Ht|]. by apply andb_true_iff in Hp as [_ ?].
  - destruct Hp as [? | Hp]; [by left|right]. apply andb_true_iff in Hp as [Hp _]. by apply negb_true_iff in Hp.
  - apply not_true_iff_false. intros (c & Hc & ->%Ascii.eqb_eq)%List.existsb_exists. apply NoDup_app in Hnd as (_ & Hnd & _).
    apply (Hnd c); [by apply list_elem_of_In|left].
Qed.
Lemma special_spec c : existsb (Ascii.eqb c) special = is_special c.
Proof. by destruct c as [[] [] [] [] [] [] [] []]. Qed.
(** The two ways of the program to escape a pattern agree. *)
Lemma escapeRegex_agrees s : escapeRegex s = EscapeRegexPattern s.
Proof.
  unfold escapeRegex. rewrite <- (bytewise_id s) at 1. change (fun c => String c "") with (escape_with []). rewrite escape_loop; [|by left| |done].
  - cbn [app]. induction s as [|c s IH]; [done|]. cbn [bytewise EscapeRegexPattern]. rewrite IH. unfold escape_with. rewrite special_spec. by destruct (is_special c).
  - cbn [app]. unfold special. repeat (apply NoDup_cons; split; [rewrite ?elem_of_cons, elem_of_nil; intuition discriminate|]). apply NoDup_nil_2.
Qed.
Definition like_byte (c : ascii) : string :=
  if Ascii.eqb c "%" then ".*" else if Ascii.eqb c "_" then "." else if is_special c then String backslash (String c "") else String c "".
Lemma likeToRegex_bytewise s : likeToRegex s = "^" +:+ bytewise like_byte s +:+ "$".
Proof.
  unfold likeToRegex. f_equal. f_equal. rewrite escapeRegex_agrees.
  assert (EscapeRegexPattern s = bytewise (fun c => if is_special c then String backslash (String c "") else String c "") s) as ->.
  { induction s as [|c s IH]; [done|]. cbn [EscapeRegexPattern bytewise]. rewrite IH. by destruct (is_special c). }
  rewrite !ReplaceAll_bytewise. apply bytewise_ext. intros c. by destruct c as [[] [] [] [] [] [] [] []].
Qed.

(** * What the filter of a clause means *)
Section ClauseInd.
Variables (P : WhereClause -> Prop) (Q : Condition -> Prop).
Hypothesis HW : forall cs op gs, Forall Q cs -> Forall P gs -> P (mkWhere cs op gs).
Hypothesis HC : forall f op v n sq, Q (mkCond f op v n sq None).
Hypothesis HN : forall f op v n sq w, P w -> Q (mkCond f op v n sq (Some w)).
Fixpoint clause_ind' (w : WhereClause) : P w :=
  match w with
  | mkWhere cs op gs =>
      HW cs op gs
        ((fix go (cs : list Condition) : Forall Q cs :=
            match cs with [] => List.Forall_nil Q | c :: cs' => List.Forall_cons Q c cs' (condition_ind' c) (go cs') end) cs)
        ((fix go (gs : list WhereClause) : Forall P gs :=
            match gs with [] => List.Forall_nil P | g :: gs' => List.Forall_cons P g gs' (clause_ind' g) (go gs') end) gs)
  end
with condition_ind' (c : Condition) : Q c :=
  match c with
  | mkCond f op v n sq None => HC f op v n sq
  | mkCond f op v n sq (Some w) => HN f op v n sq w (clause_ind' w)
  end.
End ClauseInd.

Section Meaning.
Variables (ObjectID : Type) (ObjectIDFromHex : string -> option ObjectID).
Local Abbreviation bval := (MongoQuery.bval ObjectID other).
Local Abbreviation M := (list (string * bval)).
(** The server's answer for one document and one operator, as in [MongoQuery]. *)
Variable op_matches : string -> string -> bval -> string -> bool.
Local Abbreviation oid := (oid_value ObjectID other ObjectIDFromHex).
Local Abbreviation leaf := (leaf_doc ObjectID ObjectIDFromHex).
Local Abbreviation tr := (translateWhereClause ObjectID ObjectIDFromHex).
Local Abbreviation trc := (translateCondition ObjectID ObjectIDFromHex).
Local Abbreviation matches := (doc_matches ObjectID other op_matches).

(** The meaning of one condition. *)
Definition leaf_means (field : string) (op : CompareOp) (raw : Value) : bool :=
  let v := oid field (to_bval ObjectID raw) in
  let pattern (k : string -> string) (o : string) : bool := match raw with VStr s => op_matches field "$regex" (BStr (k s)) o | _ => true end in
  match op with
  | OpEquals | OpIncludes | OpArrayContains | OpExact => op_matches field "$eq" v ""
  | OpNotEquals => op_matches field "$ne" v ""
  | OpGreaterThan => op_matches field "$gt" v ""
  | OpGreaterThanOrEqual => op_matches field "$gte" v ""
  | OpLessThan => op_matches field "$lt" v ""
  | OpLessThanOrEqual => op_matches field "$lte" v ""
  | OpIn => op_matches field "$in" v ""
  | OpNotIn => op_matches field "$nin" v ""
  | OpIsNull => op_matches field "$eq" BNull ""
  | OpIsNotNull => op_matches field "$ne" BNull ""
  | OpBetween => match raw with VBetween low high => op_matches field "$gte" (to_bval ObjectID low) "" && op_matches field "$lte" (to_bval ObjectID high) "" | _ => true end
  | OpContains => pattern (fun s => s) "i"
  | OpStartsWith => pattern (fun s => "^" +:+ EscapeRegexPattern s) "i"
  | OpEndsWith => pattern (fun s => EscapeRegexPattern s +:+ "$") "i"
  | OpLike => pattern (fun s => "^" +:+ bytewise like_byte s +:+ "$") ""
  | OpILike => pattern (fun s => "^" +:+ bytewise like_byte s +:+ "$") "i"
  | OpFuzzy => match raw with VStr s => op_matches "$text" "$search" (BStr s) "" | _ => true end
  end.
(** A clause is the conjunction or the disjunction of its parts. *)
Fixpoint where_means (w : WhereClause) : bool :=
  match w with
  | mkWhere cs op gs =>
      let parts := (map cond_means cs ++ map where_means gs)%list in
      match op with LogicalOr => existsb (fun b => b) parts | LogicalAnd => forallb (fun b => b) parts end
  end
with cond_means (c : Condition) : bool :=
  match c with
  | mkCond field op v _ _ None => leaf_means field op v
  | mkCond _ _ _ _ _ (Some w) => where_means w
  end.

(** The operators on texts have one, which is not an identifier. *)
Definition typed (field : string) (op : CompareOp) (raw : Value) : bool :=
  match op with
  | OpContains | OpStartsWith | OpEndsWith | OpLike | OpILike | OpFuzzy =>
      match raw with VStr s => negb (String.eqb field "_id") || match ObjectIDFromHex s with Some _ => false | None => true end | _ => false end
  | OpBetween => match raw with VBetween _ _ => true | _ => false end
  | _ => true
  end.
(** No clause is empty, nothing is negated and the operators have their types. *)
Fixpoint supported (w : WhereClause) : bool :=
  match w with mkWhere cs _ gs => (nonempty cs || nonempty gs) && forallb supported_cond cs && forallb supported gs end
with supported_cond (c : Condition) : bool :=
  match c with
  | mkCond field op v n _ None => negb (is_op field) && negb n && typed field op v
  | mkCond _ _ _ _ _ (Some w) => supported w
  end.
(** No condition that is translated is negated. *)
Fixpoint unnegated (w : WhereClause) : bool :=
  match w with mkWhere cs _ gs => forallb unnegated_cond cs && forallb unnegated gs end
with unnegated_cond (c : Condition) : bool :=
  match c with
  | mkCond field op v n _ None => negb (n && typed field op v)
  | mkCond _ _ _ _ _ (Some w) => unnegated w
  end.
(** No field has the name of an operator. *)
Fixpoint plain (w : WhereClause) : bool :=
  match w with mkWhere cs _ gs => forallb plain_cond cs && forallb plain gs end
with plain_cond (c : Condition) : bool :=
  match c with
  | mkCond field _ _ _ _ None => negb (is_op field)
  | mkCond _ _ _ _ _ (Some w) => plain w
  end.

(** The documented names of operators that a filter may begin with; the server
    refuses another. *)
Definition top_level (k : string) : bool :=
  negb (is_op k) || existsb (String.eqb k) ["$and"; "$or"; "$nor"; "$text"; "$where"; "$expr"; "$jsonSchema"; "$comment"].
Fixpoint accepted_entry (k : string) (v : bval) : bool :=
  top_level k &&
  match v with
  | BDocs l =>
      if is_op k then
        forallb (fun d => match d with
                          | Some m => (fix go (m : M) : bool := match m with [] => true | (k, v) :: m' => accepted_entry k v && go m' end) m
                          | None => true
                          end) l
      else true
  | _ => true
  end.
Definition accepted (m : M) : bool := forallb (fun e => accepted_entry e.1 e.2) m.
Lemma accepted_docs k ms : is_op k = true -> accepted [(k, BDocs (map Some ms))] = top_level k && forallb accepted ms.
Proof.
  intros Hk. unfold accepted at 1. cbn [forallb fst snd accepted_entry]. rewrite Hk, andb_true_r. f_equal. induction ms as [|m ms IH]; [done|]. cbn [map forallb]. rewrite IH. f_equal.
  clear. unfold accepted. induction m as [|[k v] m IH]; [done|]. cbn [forallb fst snd]. by rewrite <- IH.
Qed.

(** ** One condition *)
Lemma oid_simple field raw : match oid field (to_bval ObjectID raw) with BDoc _ | BDocs _ | BMap _ => False | _ => True end.
Proof. unfold oid_value. destruct (String.eqb field "_id"); destruct raw as [|s| | | | | |]; try done. cbn. by destruct (ObjectIDFromHex s). Qed.
Lemma cond_eq field v : match v with BDoc _ | BDocs _ | BMap _ => False | _ => True end -> cond_matches ObjectID other op_matches field v = op_matches field "$eq" v "".
Proof. by destruct v. Qed.
Lemma oid_text field s : oid field (BStr s) = BStr s \/ (negb (String.eqb field "_id") || match ObjectIDFromHex s with Some _ => false | None => true end) = false /\ exists o, oid field (BStr s) = BOid o.
Proof. unfold oid_value. destruct (String.eqb field "_id"); [|by left]. cbn. destruct (ObjectIDFromHex s); [right; eauto|by left]. Qed.
Lemma oid_text_typed field s : (negb (String.eqb field "_id") || match ObjectIDFromHex s with Some _ => false | None => true end) = true -> oid field (BStr s) = BStr s.
Proof. intros H. destruct (oid_text field s) as [?|[H' _]]; [done|congruence]. Qed.
Lemma oid_no_text field raw : (forall s, raw <> VStr s) -> forall s, oid field (to_bval ObjectID raw) <> BStr s.
Proof. intros H s. unfold oid_value. destruct (String.eqb field "_id"); destruct raw; try done; by destruct (H s0). Qed.
Lemma leaf_typed field op raw : typed field op raw = match leaf field op raw with Some _ => true | None => false end.
Proof.
  assert (forall k, match raw with VStr s => negb (String.eqb field "_id") || match ObjectIDFromHex s with Some _ => false | None => true end | _ => false end =
    match match oid field (to_bval ObjectID raw) with BStr s => Some (k s : M) | _ => None end with Some _ => true | None => false end) as H.
  { intros k. destruct raw as [|s| | | | | |]; try (unfold oid_value; by destruct (String.eqb field "_id")).
    cbn [to_bval]. destruct (oid_text field s) as [E|[Ht (o & E)]].
    - rewrite E. revert E. unfold oid_value. destruct (String.eqb field "_id"); [|done]. cbn. by destruct (ObjectIDFromHex s).
    - by rewrite Ht, E. }
  unfold typed, leaf_doc. destruct op; try done; try apply H. by destruct raw.
Qed.
Lemma leaf_matches field op raw : is_op field = false -> typed field op raw = true ->
  exists m, leaf field op raw = Some m /\ nonempty m = true /\ matches m = leaf_means field op raw.
Proof.
  intros Hf Ht. pose proof (oid_simple field raw) as Hs.
  assert (forall m, leaf field op raw = Some m -> nonempty m = true /\ matches m = leaf_means field op raw) as H.
  - revert Ht. unfold leaf_doc, typed, leaf_means.
    destruct op; try (intros _ m [= <-]; split; [done|]; unfold doc_matches; cbn [forallb fst snd]; rewrite andb_true_r, entry_field by done; first [by apply cond_eq | by cbn; rewrite ?andb_true_r]).
    all: destruct raw as [|s| | | | | |low high]; try done; intros Ht m; cbn [to_bval]; try rewrite (oid_text_typed _ _ Ht); intros [= <-]; (split; [done|]); unfold doc_matches; cbn [forallb fst snd];
      rewrite andb_true_r, ?entry_field, ?escapeRegex_agrees, ?likeToRegex_bytewise by done; cbn; by rewrite ?andb_true_r.
  - rewrite leaf_typed in Ht. destruct (leaf field op raw) as [m|]; [|done]. exists m. split; [done|]. by apply H.
Qed.

(** ** Clauses *)
Lemma tr_eq cs op gs : tr (mkWhere cs op gs) = combine ObjectID op (List.filter nonempty (map trc cs) ++ List.filter nonempty (map tr gs))%list.
Proof. done. Qed.
Lemma trc_eq f op v n sq : trc (mkCond f op v n sq None) = negated ObjectID n (leaf f op v).
Proof. done. Qed.
Lemma combine_matches op l : l <> [] -> matches (combine ObjectID op l) = match op with LogicalOr => existsb matches l | LogicalAnd => forallb matches l end.
Proof.
  destruct l as [|c [|d l]]; [done| |]; intros _; [destruct op; cbn; by rewrite ?andb_true_r, ?orb_false_r|].
  unfold combine. destruct op; unfold doc_matches at 1; cbn [forallb fst snd]; by rewrite entry_matches_docs, andb_true_r.
Qed.
Lemma combine_nonempty op l : l <> [] -> forallb nonempty l = true -> nonempty (combine ObjectID op l) = true.
Proof. destruct l as [|c [|d l]]; [done| |]; intros _ H; [cbn in *; by rewrite andb_true_r in H|]. by destruct op. Qed.
Lemma combine_accepted op l : accepted (combine ObjectID op l) = forallb accepted l.
Proof. destruct l as [|c [|d l]]; [done|cbn; by rewrite andb_true_r|]. unfold combine. by destruct op; rewrite accepted_docs. Qed.
Lemma forallb_map_ext {A} (f : A -> M) (ok : A -> bool) (means : A -> bool) l : Forall (fun a => ok a = true -> nonempty (f a) = true /\ matches (f a) = means a) l -> forallb ok l = true ->
  List.filter nonempty (map f l) = map f l /\ forallb nonempty (map f l) = true /\ map matches (map f l) = map means l.
Proof.
  induction 1 as [|a l Ha _ IH]; [done|]. cbn [forallb map List.filter]. intros [Ho Hl]%andb_true_iff. destruct (Ha Ho) as [Hn Hm]. destruct (IH Hl) as (-> & -> & ->). by rewrite Hn, Hm.
Qed.
Lemma matches_parts op (l : list M) : match op with LogicalOr => existsb matches l | LogicalAnd => forallb matches l end =
  match op with LogicalOr => existsb (fun b : bool => b) (map matches l) | LogicalAnd => forallb (fun b : bool => b) (map matches l) end.
Proof. destruct op; induction l as [|m l IH]; [done| |done|]; cbn; by rewrite IH. Qed.
Lemma supported_meaning w : supported w = true -> nonempty (tr w) = true /\ matches (tr w) = where_means w.
Proof.
  revert w. apply (clause_ind' (fun w => supported w = true -> nonempty (tr w) = true /\ matches (tr w) = where_means w)
    (fun c => supported_cond c = true -> nonempty (trc c) = true /\ matches (trc c) = cond_means c)).
  - intros cs op gs Hcs Hgs. rewrite tr_eq. cbn [supported where_means]. rewrite !andb_true_iff. intros [[Hn Hc] Hg].
    destruct (forallb_map_ext trc _ _ cs Hcs Hc) as (-> & Hc1 & Hc2). destruct (forallb_map_ext tr _ _ gs Hgs Hg) as (-> & Hg1 & Hg2).
    assert ((map trc cs ++ map tr gs)%list <> []) as Hne by (destruct cs, gs; done). split.
    + apply combine_nonempty; [done|]. by rewrite forallb_app, Hc1, Hg1.
    + rewrite combine_matches, matches_parts, map_app by done. by rewrite Hc2, Hg2.
  - intros f op v n sq. rewrite trc_eq. cbn [supported_cond cond_means]. rewrite !andb_true_iff, !negb_true_iff. intros [[Hf ->] Ht].
    destruct (leaf_matches f op v Hf Ht) as (m & -> & Hn & Hm). done.
  - done.
Qed.
Lemma accepted_filtered l : forallb accepted (List.filter nonempty l) = forallb accepted l.
Proof. induction l as [|m l IH]; [done|]. cbn [List.filter]. destruct m; cbn; by rewrite IH. Qed.
Lemma forallb_map {A B} (f : A -> B) (p : B -> bool) l : forallb p (map f l) = forallb (fun a => p (f a)) l.
Proof. induction l as [|a l IH]; [done|]. cbn. by rewrite IH. Qed.
Lemma forallb_ext_Forall {A} (ok p q : A -> bool) l : Forall (fun a => ok a = true -> p a = q a) l -> forallb ok l = true -> forallb p l = forallb q l.
Proof. induction 1 as [|a l Ha _ IH]; [done|]. cbn. intros [Ho Hl]%andb_true_iff. by rewrite (Ha Ho), (IH Hl). Qed.
Lemma leaf_accepted field op raw m : is_op field = false -> leaf field op raw = Some m -> accepted m = true.
Proof.
  intros Hf. assert (top_level field = true) as Ht by (unfold top_level; by rewrite Hf). pose proof (oid_simple field raw) as Hs.
  unfold leaf_doc. destruct op; repeat case_match; intros [= <-]; unfold accepted; cbn -[top_level]; rewrite ?Ht; done.
Qed.
Lemma accepted_unnegated w : plain w = true -> accepted (tr w) = unnegated w.
Proof.
  revert w. apply (clause_ind' (fun w => plain w = true -> accepted (tr w) = unnegated w) (fun c => plain_cond c = true -> accepted (trc c) = unnegated_cond c)).
  - intros cs op gs Hcs Hgs. rewrite tr_eq. cbn [plain unnegated]. intros [Hc Hg]%andb_true_iff. rewrite combine_accepted, forallb_app, !accepted_filtered, !forallb_map.
    by rewrite (forallb_ext_Forall _ _ _ _ Hcs Hc), (forallb_ext_Forall _ _ _ _ Hgs Hg).
  - intros f op v n sq. rewrite trc_eq. cbn [plain_cond unnegated_cond]. rewrite negb_true_iff, leaf_typed. intros Hf. pose proof (leaf_accepted f op v) as H.
    destruct (leaf f op v) as [m|]; [|by rewrite andb_false_r]. destruct n; [done|]. by apply H.
  - done.
Qed.

End Meaning.

(** ** Concrete clauses *)
Definition no_hex (s : string) : option nat := if Nat.eqb (String.length s) 24 then Some 0 else None.
(** The answers of a server for the document [{age: 30, name: "bob"}]. *)
Definition bob (field op : string) (v : bval nat other) (o : string) : bool :=
  match v with
  | BInt z => String.eqb field "age" && (if String.eqb op "$gt" then (z <? 30)%Z else (z =? 30)%Z)
  | BStr s => String.eqb field "name" && existsb (String.eqb s) ["bob"; "^b"]
  | _ => false
  end.
Definition leaf_cond (f : string) (op : CompareOp) (v : Value) (n : bool) : Condition := mkCond f op v n None None.
Definition adults : WhereClause :=
  mkWhere [leaf_cond "age" OpGreaterThan (VInt 18) false] LogicalAnd
    [mkWhere [leaf_cond "name" OpStartsWith (VStr "b") false; leaf_cond "name" OpEquals (VStr "eve") false] LogicalOr []].

(** [not] in front of a condition makes a filter that the server refuses; in front
    of a group it is lost. *)
Example negation_refused : accepted nat (translateWhereClause nat no_hex (mkWhere [leaf_cond "name" OpEquals (VStr "eve") true] LogicalAnd [])) = false.
Proof. reflexivity. Qed.
Example negated_group : translateWhereClause nat no_hex (mkWhere [mkCond "" OpEquals VNil true None (Some adults)] LogicalAnd []) = translateWhereClause nat no_hex adults.
Proof. reflexivity. Qed.
(** A condition whose operand has another type is dropped: the filter matches
    every document. *)
Example dropped_condition : translateWhereClause nat no_hex (mkWhere [leaf_cond "name" OpContains (VInt 7) false] LogicalAnd []) = [].
Proof. reflexivity. Qed.
(** The text of [contains] is a pattern. *)
Example pattern_given : translateCondition nat no_hex (leaf_cond "name" OpContains (VStr ".*") false) = [("name", BDoc [("$regex", BStr ".*"); ("$options", BStr "i")])].
Proof. reflexivity. Qed.
