(* ===== verification/Models.v ===== *)
(** Deployments, configurations and executions: [internal/database/models], the
    interfaces of their repositories, [internal/database/repository/interfaces.go],
    and what an implementation promises to the handlers of the API.

    Times are nanoseconds since the epoch.  A state [S] holds the database, and a
    [W] what one call takes from outside: the clock and new identifiers. *)

From Stdlib Require Import ZArith Lia.
From stdpp Require Import base strings list.
From S2P Require Import Prelude.

#[local] Open Scope string_scope.

(** ** Models *)
Record Deployment := mkDeployment { d_ID : string; d_Name : string; d_ConfigID : option string; d_Status : string; d_CreatedAt : Z; d_UpdatedAt : Z }.
Record Config := mkConfig { c_ID : string; c_Name : string; c_Content : string; c_ASTJSON : string; c_ValidationErrors : string; c_CreatedAt : Z }.
Record Execution := mkExecution {
  e_ID : string; e_DeploymentID : string; e_Command : string; e_Output : option string; e_ExitCode : option Z; e_StartedAt : Z; e_CompletedAt : option Z }.
(** [time.Time{}]. *)
Definition zero_time : Z := (-62135596800 * Second)%Z.
Definition NewDeployment (now : Z) (name : string) : Deployment := mkDeployment "" name None "pending" now now.
Definition NewConfig (now : Z) (name content : string) : Config := mkConfig "" name content "" "" now.
Definition NewExecution (now : Z) (deploymentID command : string) : Execution := mkExecution "" deploymentID command None None now None.
Definition SetCompleted (now : Z) (output : string) (exitCode : Z) (e : Execution) : Execution :=
  mkExecution (e_ID e) (e_DeploymentID e) (e_Command e) (Some output) (Some (wrap32 exitCode)) (e_StartedAt e) (Some now).
Definition IsCompleted (e : Execution) : bool := match e_CompletedAt e with Some _ => true | None => false end.
Definition deployment_id (id : string) (d : Deployment) : Deployment := mkDeployment id (d_Name d) (d_ConfigID d) (d_Status d) (d_CreatedAt d) (d_UpdatedAt d).
Definition config_id (id : string) (c : Config) : Config := mkConfig id (c_Name c) (c_Content c) (c_ASTJSON c) (c_ValidationErrors c) (c_CreatedAt c).
Definition execution_id (id : string) (e : Execution) : Execution :=
  mkExecution id (e_DeploymentID e) (e_Command e) (e_Output e) (e_ExitCode e) (e_StartedAt e) (e_CompletedAt e).

(** ** Repositories *)
(** What a caller tells of a failure: [errors.Is(err, ErrNotFound)]. *)
Inductive StoreError := NotFound | StoreFailure.

(** The operations the three interfaces share.  A model that is created or updated
    is a pointer, which the repository writes to. *)
Record Crud (S W A : Type) := mkCrud {
  Create : W -> A -> S -> S * A * result StoreError unit;
  GetByID : string -> S -> result StoreError A;
  List_ : Z -> Z -> S -> result StoreError (list A);
  Update : W -> A -> S -> S * A * result StoreError unit;
  Delete : string -> S -> S * result StoreError unit }.
Arguments mkCrud {S W A} _ _ _ _ _.
Arguments Create {S W A} _. Arguments GetByID {S W A} _. Arguments List_ {S W A} _. Arguments Update {S W A} _. Arguments Delete {S W A} _.
Record DeploymentRepo (S W : Type) := mkDeploymentRepo { dr_crud :> Crud S W Deployment; dr_GetByName : string -> S -> result StoreError Deployment }.
Record ConfigRepo (S W : Type) := mkConfigRepo { cr_crud :> Crud S W Config; cr_GetByName : string -> S -> result StoreError Config }.
Record ExecutionRepo (S W : Type) := mkExecutionRepo {
  er_crud :> Crud S W Execution; ListByDeployment : string -> Z -> Z -> S -> result StoreError (list Execution) }.
Arguments mkDeploymentRepo {S W} _ _. Arguments mkConfigRepo {S W} _ _. Arguments mkExecutionRepo {S W} _ _.
Arguments dr_crud {S W} _. Arguments cr_crud {S W} _. Arguments er_crud {S W} _.
Arguments dr_GetByName {S W} _. Arguments cr_GetByName {S W} _. Arguments ListByDeployment {S W} _.
Record Repositories (S W : Type) := mkRepositories { Deployments : DeploymentRepo S W; Configs : ConfigRepo S W; Executions : ExecutionRepo S W }.
Arguments mkRepositories {S W} _ _ _.
Arguments Deployments {S W} _. Arguments Configs {S W} _. Arguments Executions {S W} _.

(** ** What a model is to its callers *)
(** Its identifier, the facts that are kept as they are, and when it was made. *)
Class Model (A : Type) := {
  Facts : Type;
  ident : A -> string;
  with_id : string -> A -> A;
  facts : A -> Facts;
  born : A -> Z }.
#[export] Instance deployment_model : Model Deployment := {|
  ident := d_ID; with_id := deployment_id; facts d := (d_Name d, d_ConfigID d, d_Status d); born := d_CreatedAt |}.
#[export] Instance config_model : Model Config := {|
  ident := c_ID; with_id := config_id; facts c := (c_Name c, c_Content c, c_ASTJSON c, c_ValidationErrors c); born := c_CreatedAt |}.
#[export] Instance execution_model : Model Execution := {|
  ident := e_ID; with_id := execution_id; facts e := (e_DeploymentID e, e_Command e, e_Output e, e_ExitCode e); born := e_StartedAt |}.

(** ** What an implementation promises *)
(** The states in which it works, which identifiers name the same model, what it
    says of one that is not there, how
    precisely it keeps time, and when a call is one it accepts. *)
Class StoreSpec {S W A} `{Model A} (repo : Crud S W A) := {
  wf : S -> Prop;
  same : string -> string -> Prop;
  missing : StoreError;
  keep_time : Z -> Z;
  can_create : W -> A -> S -> Prop;
  can_update : W -> A -> S -> Prop;
  can_delete : string -> S -> Prop }.

(** [s'] differs from [s] only at [id], where it answers [r]. *)
Definition changed {S W A} `{StoreSpec S W A repo} (s s' : S) (id : string) (r : result StoreError A) : Prop :=
  (forall i, same i id -> GetByID repo i s' = r) /\ (forall i, ~ same i id -> GetByID repo i s' = GetByID repo i s).

Class StoreLaws {S W A} `{HM : Model A} (repo : Crud S W A) {HS : StoreSpec repo} : Prop := {
  same_equiv : Equivalence same;
  get_same s i j : same i j -> GetByID repo i s = GetByID repo j s;
  get_ident s i a : wf s -> GetByID repo i s = Ok a -> same i (ident a);
  create_law w a s : wf s -> can_create w a s -> exists s' id a',
    Create repo w a s = (s', with_id id a, Ok tt) /\ wf s' /\ (ident a = "" \/ id = ident a) /\ changed s s' id (Ok a') /\
    ident a' = id /\ facts a' = facts a /\ born a' = keep_time (born a);
  update_law w a a0 s : wf s -> GetByID repo (ident a) s = Ok a0 -> can_update w a s -> exists s' b a',
    Update repo w a s = (s', b, Ok tt) /\ wf s' /\ ident b = ident a /\ facts b = facts a /\ born b = born a /\
    changed s s' (ident a) (Ok a') /\ ident a' = ident a0 /\ facts a' = facts a /\ born a' = born a0;
  delete_law id s : wf s -> can_delete id s -> exists s' res,
    Delete repo id s = (s', res) /\ wf s' /\ changed s s' id (Err missing) /\
    res = match GetByID repo id s with Ok _ => Ok tt | Err e => Err e end }.
