(* ===== verification/MongoRepository.v ===== *)
(** The repository over one MongoDB collection:
    [internal/database/mongodb/repository.go].

    The driver and the server behind it are a record of calls; what their
    documentation says of them is a hypothesis of the theorems that need it.  The
    time and the new identifiers are arguments.  Documents handed in are different
    maps, and are not used again by their owner. *)

From Stdlib Require Import ZArith Lia Ascii Sorting.Sorted.
From stdpp Require Import base strings list sets.
From S2P Require Import Prelude GoStrings MongoQuery QueryAst Pagination MongoWhere.
From S2P Require DslAst.

#[local] Open Scope string_scope.

(** ** The driver *)
Inductive DriverError := NoDocuments | DuplicateKey (message : string) | OtherError (message : string).
Inductive RepoError := ErrClientClosed | ErrNotFound | ErrDuplicateKey (message : string) | Failed (call : string) (e : DriverError) | BadCursor.

Section Repository.
Variables (ObjectID : Type) (ObjectIDFromHex : string -> option ObjectID) (Hex : ObjectID -> string).
Local Abbreviation bval := (MongoQuery.bval ObjectID other).
Local Abbreviation M := (list (string * bval)).

(** [options.Find] with what has been set. *)
Record FindOpts := mkOpts { fo_Sort : option (list (string * Z)); fo_Skip : option Z; fo_Limit : option Z; fo_Projection : option M }.
Record IndexModel := mkIndex { Keys : list (string * bval); Unique : bool }.
Record Driver (Db : Type) := mkDriver {
  d_FindOne : Db -> M -> result DriverError M;
  d_Find : Db -> M -> FindOpts -> result DriverError (result DriverError (list M));   (** the inner result is that of [All] *)
  d_Count : Db -> M -> result DriverError Z;
  d_InsertOne : Db -> M -> Db * result DriverError bval;
  d_InsertMany : Db -> list M -> Db * result DriverError (list bval);
  d_UpdateOne : Db -> M -> M -> Db * result DriverError Z;
  d_UpdateMany : Db -> M -> M -> Db * result DriverError Z;
  d_DeleteOne : Db -> M -> Db * result DriverError Z;
  d_DeleteMany : Db -> M -> Db * result DriverError Z;
  d_CreateMany : Db -> list IndexModel -> Db * result DriverError unit;
  d_CreateOne : Db -> IndexModel -> Db * result DriverError unit
}.
Arguments d_FindOne {Db} _. Arguments d_Find {Db} _. Arguments d_Count {Db} _. Arguments d_InsertOne {Db} _. Arguments d_InsertMany {Db} _.
Arguments d_UpdateOne {Db} _. Arguments d_UpdateMany {Db} _. Arguments d_DeleteOne {Db} _. Arguments d_DeleteMany {Db} _.
Arguments d_CreateMany {Db} _. Arguments d_CreateOne {Db} _.
(** [%v] of an identifier. *)
Variable Sprint : bval -> string.
Variables (Db : Type) (driver : Driver Db).

(** The repository's client, which may be closed, and its collection. *)
Record Repository := mkRepo { closed : bool; db : Db }.
Definition with_db (r : Repository) (d : Db) : Repository := mkRepo (closed r) d.
Local Abbreviation tf := (translateFilter ObjectID ObjectIDFromHex).
Local Abbreviation format := (formatID ObjectID Hex Sprint).

(** A call that reads, and one that writes. *)
Definition reading {A} (r : Repository) (call : result RepoError A) : result RepoError A := if closed r then Err ErrClientClosed else call.
Definition writing {A B} (r : Repository) (call : Db * result DriverError A) (ok : A -> B) (fail : DriverError -> RepoError) : Repository * result RepoError B :=
  if closed r then (r, Err ErrClientClosed)
  else let '(d, res) := call in (with_db r d, match res with Ok a => Ok (ok a) | Err e => Err (fail e) end).

Definition find_one_error (e : DriverError) : RepoError := match e with NoDocuments => ErrNotFound | e => Failed "findOne" e end.
Definition insert_error (call : string) (e : DriverError) : RepoError := match e with DuplicateKey m => ErrDuplicateKey m | e => Failed call e end.

(** ** Single documents *)
Definition FindOne (r : Repository) (filter : M) : result RepoError M :=
  reading r match d_FindOne driver (db r) (tf filter) with Ok doc => Ok doc | Err e => Err (find_one_error e) end.
Definition FindByID (r : Repository) (id : string) : result RepoError M :=
  match FindOne r [("_id", BStr id)] with
  | Err ErrNotFound => match ObjectIDFromHex id with Some oid => FindOne r [("_id", BOid oid)] | None => Err ErrNotFound end
  | res => res
  end.
Definition set_default (k : string) (v : bval) (doc : M) : M := match mget k doc with Some _ => doc | None => mset k v doc end.
(** The document with its times and its identifier. *)
Definition prepare (now : Z) (new : ObjectID) (doc : M) : M :=
  set_default "_id" (BOid new) (set_default "updatedAt" (BOther (OTime now)) (set_default "createdAt" (BOther (OTime now)) doc)).
Definition InsertOne (now : Z) (new : ObjectID) (r : Repository) (doc : M) : Repository * result RepoError string :=
  writing r (d_InsertOne driver (db r) (prepare now new doc)) format (insert_error "insertOne").
(** The update that is sent.  The loop over the entries of the caller's update
    runs after its variable holds the new one. *)
Definition one_update (now : Z) (update : M) : M :=
  match mget "$set" update with
  | Some (BDoc setDoc) => mset "$set" (BDoc (mset "updatedAt" (BOther (OTime now)) setDoc)) update
  | Some _ => update
  | None =>
      let update := [("$set", BDoc [("updatedAt", BOther (OTime now))])] in
      foldl (fun u e => if String.eqb e.1 "$set" then u
                        else match mget "$set" u with Some (BDoc s) => mset "$set" (BDoc (mset e.1 e.2 s)) u | _ => u end) update update
  end.
Definition UpdateOne (now : Z) (r : Repository) (filter update : M) : Repository * result RepoError Z :=
  writing r (d_UpdateOne driver (db r) (tf filter) (one_update now update)) (fun n => n) (Failed "updateOne").
Definition DeleteOne (r : Repository) (filter : M) : Repository * result RepoError Z :=
  writing r (d_DeleteOne driver (db r) (tf filter)) (fun n => n) (Failed "deleteOne").

(** ** Many documents *)
Record FindOptions := mkFindOptions { Sort_by : list (string * Z); Limit_to : Z; Skip_over : Z; Projection : option M }.
Definition find_opts (opts : option FindOptions) : FindOpts :=
  match opts with
  | Some o => mkOpts (match Sort_by o with [] => None | l => Some l end) (if (0 <? Skip_over o)%Z then Some (Skip_over o) else None)
                (if (0 <? Limit_to o)%Z then Some (Limit_to o) else None) (Projection o)
  | None => mkOpts None None None None
  end.
(** [Find] and [All]. *)
Definition run_find (call : string) (d : Db) (filter : M) (opts : FindOpts) : result RepoError (list M) :=
  match d_Find driver d filter opts with
  | Ok (Ok docs) => Ok docs
  | Ok (Err e) => Err (Failed "cursor decode" e)
  | Err e => Err (Failed call e)
  end.
Definition Find (r : Repository) (filter : M) (opts : option FindOptions) : result RepoError (list M) :=
  reading r (run_find "find" (db r) (tf filter) (find_opts opts)).
Definition InsertMany (now : Z) (new : nat -> ObjectID) (r : Repository) (docs : list M) : Repository * result RepoError (list string) :=
  if closed r then (r, Err ErrClientClosed)
  else match docs with
       | [] => (r, Ok [])
       | _ => writing r (d_InsertMany driver (db r) (imap (fun i doc => prepare now (new i) doc) docs)) (map format) (insert_error "insertMany")
       end.
(** [None]: the update is a nil map, which is written to. *)
Definition many_update (now : Z) (update : option M) : option M :=
  let entry k := match update with Some u => mget k u | None => None end in
  match entry "$set", update with
  | Some (BDoc setDoc), Some u => Some (mset "$set" (BDoc (mset "updatedAt" (BOther (OTime now)) setDoc)) u)
  | (None | Some BNull), _ =>
      match entry "$currentDate" with
      | None | Some BNull => match update with Some u => Some (mset "$currentDate" (BDoc [("updatedAt", BBool true)]) u) | None => None end
      | Some _ => update
      end
  | _, _ => update
  end.
Definition UpdateMany (now : Z) (r : Repository) (filter : M) (update : option M) : option (Repository * result RepoError Z) :=
  if closed r then Some (r, Err ErrClientClosed)
  else match many_update now update with
       | None => None
       | Some u => Some (writing r (d_UpdateMany driver (db r) (tf filter) u) (fun n => n) (Failed "updateMany"))
       end.
Definition DeleteMany (r : Repository) (filter : M) : Repository * result RepoError Z :=
  writing r (d_DeleteMany driver (db r) (tf filter)) (fun n => n) (Failed "deleteMany").
Definition Count (r : Repository) (filter : M) : result RepoError Z :=
  reading r match d_Count driver (db r) (tf filter) with Ok n => Ok n | Err e => Err (Failed "count" e) end.
Definition Exists (r : Repository) (filter : M) : result RepoError bool :=
  match Count r filter with Ok n => Ok (0 <? n)%Z | Err e => Err e end.

(** ** Pages *)
Record DocPage := mkDocPage { pg_Data : list M; pg_Info : PageInfo }.
(** A cursor as a text: JSON in base64, as in [Pagination]. *)
Variables (EncodeCursor : Cursor -> string) (decode_cursor : string -> option Cursor).
Definition more_docs (limit : Z) (docs : list M) : bool := (limit <? Z.of_nat (length docs))%Z.
Definition trim_docs (limit : Z) (docs : list M) : list M := if more_docs limit docs then take (Z.to_nat limit) docs else docs.

Definition findWithOffsetPagination (d : Db) (filter : M) (page : PageRequest) (sortField : string) (sortValue : Z) : result RepoError DocPage :=
  match d_Count driver d filter with
  | Err e => Err (Failed "count" e)
  | Ok total =>
      match run_find "find" d filter (mkOpts (Some [(sortField, sortValue)]) (Some (GetOffset page)) (Some (p_Limit page + 1)%Z) None) with
      | Err e => Err e
      | Ok docs =>
          Ok (mkDocPage (trim_docs (p_Limit page) docs)
                (mkInfo (Some total) (Some (p_Page page)) (p_Limit page) (more_docs (p_Limit page) docs) (1 <? p_Page page)%Z "" ""))
      end
  end.

Definition cursor_filter (before : bool) (cursorID : string) : M :=
  [("_id", BDoc [(if before then "$lt" else "$gt", match ObjectIDFromHex cursorID with Some oid => BOid oid | None => BStr cursorID end)])].
(** [EncodeCursor] of the identifier of a document, if it has one. *)
Definition doc_cursor (direction : string) (doc : option M) : string :=
  match doc with
  | Some doc => match mget "_id" doc with Some id => EncodeCursor (mkCursor (format id) "" VNil direction) | None => "" end
  | None => ""
  end.
Definition cursor_text (page : PageRequest) : string := if String.eqb (p_Before page) "" then GetCursor page else p_Before page.
Definition findWithCursorPagination (d : Db) (filter : M) (page : PageRequest) (sortField : string) (sortValue : Z) : result RepoError DocPage :=
  let isBackward := negb (String.eqb (p_Before page) "") in
  let cursorStr := cursor_text page in
  let filtered : option M :=
    if String.eqb cursorStr "" then Some filter
    else match DecodeCursor decode_cursor cursorStr with
         | None => None
         | Some cursor =>
             let cursorFilter := cursor_filter isBackward (ID cursor) in
             Some (if nonempty filter then [("$and", BDocs [Some filter; Some cursorFilter])] else cursorFilter)
         end in
  match filtered with
  | None => Err BadCursor
  | Some filter =>
      match run_find "find" d filter (mkOpts (Some [(sortField, if isBackward then - sortValue else sortValue)%Z]) None (Some (p_Limit page + 1)%Z) None) with
      | Err e => Err e
      | Ok docs =>
          let hasMore := more_docs (p_Limit page) docs in
          let docs := trim_docs (p_Limit page) docs in
          let docs := if isBackward then rev docs else docs in
          let hasPrevious := negb (String.eqb cursorStr "") in
          Ok (mkDocPage docs (mkInfo None None (p_Limit page) (if isBackward then hasPrevious else hasMore) (if isBackward then hasMore else hasPrevious)
                                (doc_cursor "forward" (last docs)) (doc_cursor "backward" (head docs))))
      end
  end.
Definition FindWithPagination (r : Repository) (filter : M) (page : PageRequest) (sortField : string) (sortDir : OrderDirection) : result RepoError DocPage :=
  reading r
    (let page := PageRequest_Validate page in
     let filter := tf filter in
     let sortValue := match sortDir with OrderDesc => -1 | OrderAsc => 1 end%Z in
     let sortField := if String.eqb sortField "" then "_id" else sortField in
     if IsCursorPagination page then findWithCursorPagination (db r) filter page sortField sortValue
     else findWithOffsetPagination (db r) filter page sortField sortValue).

(** ** Indexes *)
Definition index_model (idx : DslAst.MongoIndexDecl) : IndexModel :=
  let kind := DslAst.IndexKind idx in
  let value := if String.eqb kind "text" then BStr "text" else if String.eqb kind "geospatial" || String.eqb kind "2dsphere" then BStr "2dsphere" else BInt 1 in
  mkIndex (map (fun field => (field, value)) (DslAst.mi_Fields idx)) (DslAst.mi_Unique idx).
Definition EnsureIndexes (r : Repository) (indexes : list DslAst.MongoIndexDecl) : Repository * result RepoError unit :=
  if closed r then (r, Err ErrClientClosed)
  else match indexes with
       | [] => (r, Ok tt)
       | _ => writing r (d_CreateMany driver (db r) (map index_model indexes)) (fun u => u) (Failed "create indexes")
       end.
Definition EnsureIndex (r : Repository) (fields : list string) (unique : bool) : Repository * result RepoError unit :=
  writing r (d_CreateOne driver (db r) (mkIndex (map (fun field => (field, BInt 1)) fields) unique)) (fun u => u) (Failed "create index").

(** ** Queries *)
Definition query_filter (q : Query) : M := match q_Where q with Some w => translateWhereClause ObjectID ObjectIDFromHex w | None => [] end.
Definition query_opts (q : Query) : FindOpts :=
  mkOpts (match q_OrderBy q with [] => None | l => Some (map (fun o => (o_Field o, match o_Direction o with OrderDesc => -1 | OrderAsc => 1 end%Z)) l) end)
    (q_Offset q) (q_Limit q)
    (match q_Fields q with [] => None | l => Some (project_all ObjectID other 1 l []) end).
Definition ExecuteQuery (r : Repository) (q : Query) : result RepoError (list M) :=
  reading r (run_find "query execution" (db r) (query_filter q) (query_opts q)).
End Repository.

(** * Pages of a collection in the order of its identifiers *)
Lemma filter_before {A} (after : A -> A -> bool) l1 a l2 : (forall b, after b b = false) -> ordered after (l1 ++ a :: l2) -> List.filter (fun b => after b a) (l1 ++ a :: l2) = l1.
Proof.
  intros Hirr. induction l1 as [|x l1 IH]; cbn; intros H; inversion H as [|? ? Hs Hf]; subst.
  - rewrite Hirr. apply filter_none. apply (Forall_impl _ _ _ Hf). by intros ? [_ ?].
  - apply Forall_app in Hf as [_ Hf]. inversion Hf as [|? ? [Hx _] _]; subst. by rewrite Hx, IH.
Qed.
Lemma filter_and {A} (p q : A -> bool) l : List.filter (fun a => p a && q a) l = List.filter q (List.filter p l).
Proof. induction l as [|a l IH]; [done|]. cbn. destruct (p a); cbn; [|done]. destruct (q a); by rewrite IH. Qed.

Section Pages.
Context (ObjectID : Type) (ObjectIDFromHex : string -> option ObjectID) (Hex : ObjectID -> string) (Sprint : MongoQuery.bval ObjectID other -> string).
Context (Db : Type) (driver : Driver ObjectID Db) (EncodeCursor : Cursor -> string) (decode_cursor : string -> option Cursor).
Local Abbreviation bval := (MongoQuery.bval ObjectID other).
Local Abbreviation M := (list (string * bval)).
(** The documents of the collection by identifier, and the server's answers for a
    document, an operator and its operand. *)
Context (D : Db) (docs : list M) (lt : ObjectID -> ObjectID -> bool) (answers : M -> string -> string -> bval -> string -> bool).
Definition sat (f doc : M) : bool := doc_matches ObjectID other (answers doc) f.
Definition after_id (a b : M) : bool := match mget "_id" a, mget "_id" b with Some (BOid x), Some (BOid y) => lt x y | _, _ => false end.
Hypothesis Hup : forall f n, (0 <= n)%Z -> d_Find _ _ driver D f (mkOpts _ (Some [("_id", 1%Z)]) None (Some n) None) = Ok (Ok (take (Z.to_nat n) (List.filter (sat f) docs))).
Hypothesis Hdown : forall f n, (0 <= n)%Z -> d_Find _ _ driver D f (mkOpts _ (Some [("_id", (-1)%Z)]) None (Some n) None) = Ok (Ok (take (Z.to_nat n) (rev (List.filter (sat f) docs)))).
Hypothesis Hids : Forall (fun doc => exists o, mget "_id" doc = Some (BOid o)) docs.
Hypothesis Hgt : forall doc o x, doc ∈ docs -> mget "_id" doc = Some (BOid o) -> answers doc "_id" "$gt" (BOid x) "" = lt x o.
Hypothesis Hlt : forall doc o x, doc ∈ docs -> mget "_id" doc = Some (BOid o) -> answers doc "_id" "$lt" (BOid x) "" = lt o x.
Hypothesis Hirr : forall o, lt o o = false.
Hypothesis Hordered : ordered after_id docs.
(** Identifiers and cursors are read back. *)
Hypothesis Hhex : forall o, ObjectIDFromHex (Hex o) = Some o.
Hypothesis Hcodec : forall o dir, dir = "forward" \/ dir = "backward" -> EncodeCursor (mkCursor (Hex o) "" VNil dir) <> "" /\ decode_cursor (EncodeCursor (mkCursor (Hex o) "" VNil dir)) = Some (mkCursor (Hex o) "" VNil dir).

Variables (filter : M) (L : Z).
Hypothesis HL : (1 <= L <= 100)%Z.
(** What the filter matches, in order. *)
Definition matching : list M := List.filter (sat (translateFilter ObjectID ObjectIDFromHex filter)) docs.
Definition page_at (cursor before : string) : result RepoError (DocPage ObjectID) :=
  FindWithPagination _ ObjectIDFromHex Hex Sprint _ driver EncodeCursor decode_cursor (mkRepo _ false D) filter (mkRequest PaginationCursor 1 L cursor "" before) "" OrderAsc.
Local Abbreviation cursor_of := (doc_cursor ObjectID Hex Sprint EncodeCursor).

Lemma after_irr d : after_id d d = false.
Proof. unfold after_id. destruct (mget "_id" d) as [[]|]; auto. Qed.
Lemma matching_ordered : ordered after_id matching.
Proof. by apply ordered_filter. Qed.
Lemma matching_id d : d ∈ matching -> d ∈ docs /\ exists o, mget "_id" d = Some (BOid o).
Proof.
  intros Hd. apply list_elem_of_In, filter_In in Hd as [Hd%list_elem_of_In _]. split; [done|]. by apply (proj1 (Forall_forall _ _) Hids).
Qed.
Lemma sat_and f g d : sat (if nonempty f then [("$and", BDocs [Some f; Some g])] else g) d = sat f d && sat g d.
Proof.
  unfold sat. destruct f as [|e f]; [done|]. change (nonempty (e :: f)) with true. cbv iota.
  assert (forall h : M, doc_matches ObjectID other (answers d) [("$and", BDocs (map Some [h; g]))] = doc_matches ObjectID other (answers d) h && doc_matches ObjectID other (answers d) g) as H; [|apply (H (e :: f))].
  intros h. unfold doc_matches at 1. cbn [forallb fst snd]. rewrite entry_matches_docs. cbn [forallb]. by rewrite !andb_true_r.
Qed.
Lemma cursor_filter_eq before o : cursor_filter ObjectID ObjectIDFromHex before (Hex o) = [("_id", BDoc [(if before then "$lt" else "$gt", BOid o)])].
Proof. unfold cursor_filter. by rewrite Hhex. Qed.
Lemma cursor_sat (before : bool) o d : d ∈ docs -> sat (cursor_filter ObjectID ObjectIDFromHex before (Hex o)) d =
  match mget "_id" d with Some (BOid y) => if before then lt y o else lt o y | _ => false end.
Proof.
  intros Hd. rewrite cursor_filter_eq. unfold sat, doc_matches. destruct (proj1 (Forall_forall _ _) Hids d Hd) as [y Hy]. rewrite Hy.
  destruct before; cbn; rewrite !andb_true_r; [by apply Hlt | by apply Hgt].
Qed.
Lemma filter_ext_in {A} (p q : A -> bool) l : (forall a, a ∈ l -> p a = q a) -> List.filter p l = List.filter q l.
Proof. intros H. apply List.filter_ext_in. intros a Ha. by apply H, list_elem_of_In. Qed.
(** What the filter and a cursor at one of its documents match. *)
Lemma from_cursor (before : bool) pre d suf o : matching = (pre ++ d :: suf)%list -> mget "_id" d = Some (BOid o) ->
  let f := translateFilter ObjectID ObjectIDFromHex filter in
  List.filter (sat (if nonempty f then [("$and", BDocs [Some f; Some (cursor_filter ObjectID ObjectIDFromHex before (Hex o))])] else cursor_filter ObjectID ObjectIDFromHex before (Hex o))) docs =
  if before then pre else suf.
Proof.
  intros Hm Ho f. rewrite (filter_ext_in _ (fun d => sat f d && sat (cursor_filter ObjectID ObjectIDFromHex before (Hex o)) d)) by (intros; apply sat_and).
  rewrite filter_and. change (List.filter (sat f) docs) with matching.
  rewrite (filter_ext_in _ (fun b => if before then after_id b d else after_id d b)).
  - rewrite Hm. pose proof matching_ordered as Hord. rewrite Hm in Hord. destruct before; [by apply filter_before, Hord; apply after_irr | by apply filter_after, Hord; apply after_irr].
  - intros b Hb. destruct (matching_id b Hb) as (Hbd & y & Hy). rewrite cursor_sat by done. unfold after_id. rewrite Ho, Hy. by destruct before.
Qed.
Lemma more_take (n : Z) (l : list M) : (0 <= n)%Z -> more_docs ObjectID n (take (Z.to_nat (n + 1)) l) = (n <? Z.of_nat (length l))%Z.
Proof. intros Hn. unfold more_docs. rewrite length_take. destruct (Z.ltb_spec n (Z.of_nat (length l))); [apply Z.ltb_lt | apply Z.ltb_ge]; lia. Qed.
Lemma trim_take (n : Z) (l : list M) : (0 <= n)%Z -> trim_docs ObjectID n (take (Z.to_nat (n + 1)) l) = take (Z.to_nat n) l.
Proof.
  intros Hn. unfold trim_docs. rewrite more_take by done. destruct (Z.ltb_spec n (Z.of_nat (length l))); [|by rewrite !take_ge by lia].
  rewrite take_take. f_equal. lia.
Qed.
(** A page of the documents [ds] that the cursor leaves, in the order asked for. *)
Definition page_of (before first : bool) (ds : list M) : DocPage ObjectID :=
  let taken := take (Z.to_nat L) (if before then rev ds else ds) in
  let data := if before then rev taken else taken in
  let more := (L <? Z.of_nat (length ds))%Z in
  mkDocPage _ data (mkInfo None None L (if before then negb first else more) (if before then more else negb first) (cursor_of "forward" (last data)) (cursor_of "backward" (head data))).
Lemma page_valid c b : PageRequest_Validate (mkRequest PaginationCursor 1 L c "" b) = mkRequest PaginationCursor 1 L c "" b.
Proof. by apply (Validate_id L). Qed.
Lemma empty_text c : String.eqb c "" = false -> c <> "".
Proof. intros H ->. done. Qed.
Lemma run_page (before : bool) f ds call : List.filter (sat f) docs = ds ->
  run_find ObjectID Db driver call D f (mkOpts _ (Some [("_id", if before then -1 else 1)%Z]) None (Some (L + 1)%Z) None) = Ok (take (Z.to_nat (L + 1)) (if before then rev ds else ds)).
Proof. intros <-. unfold run_find. destruct before; [rewrite Hdown by lia | rewrite Hup by lia]; done. Qed.
Lemma doc_first_page : page_at "" "" = Ok (page_of false true matching).
Proof.
  unfold page_at, FindWithPagination, reading. cbn [closed]. rewrite page_valid. change (IsCursorPagination _) with true. cbn [negb]. unfold findWithCursorPagination, cursor_text. cbn [p_Before p_Limit String.eqb negb db].
  change (GetCursor _) with "". cbn [String.eqb]. rewrite (run_page false _ matching) by done. by rewrite more_take, trim_take by lia.
Qed.
Lemma doc_next_page (before : bool) pre d suf : matching = (pre ++ d :: suf)%list -> 
  page_at (if before then "" else cursor_of "forward" (Some d)) (if before then cursor_of "backward" (Some d) else "") = Ok (page_of before false (if before then pre else suf)).
Proof.
  intros Hm. assert (d ∈ matching) as Hd by (rewrite Hm; set_solver). destruct (matching_id d Hd) as (_ & o & Ho).
  unfold page_at, FindWithPagination, reading. cbn [closed]. rewrite page_valid. change (IsCursorPagination _) with true. cbv iota zeta. unfold findWithCursorPagination, cursor_text. cbn [p_Before p_Limit db].
  unfold doc_cursor. rewrite Ho. cbn [formatID]. pose proof (from_cursor before _ _ _ _ Hm Ho) as Hf. cbv zeta in Hf.
  destruct before.
  - destruct (Hcodec o "backward" (or_intror eq_refl)) as [Hne Hdec]. destruct (String.eqb_spec (EncodeCursor (mkCursor (Hex o) "" VNil "backward")) "") as [?|_]; [done|]. cbn [negb].
    unfold DecodeCursor. rewrite Hdec. destruct (String.eqb_spec (EncodeCursor (mkCursor (Hex o) "" VNil "backward")) "") as [?|_]; [done|]. cbn [ID].
    rewrite (run_page true _ _ _ Hf). rewrite more_take, trim_take by lia. unfold page_of. by rewrite length_rev.
  - destruct (Hcodec o "forward" (or_introl eq_refl)) as [Hne Hdec]. cbn [String.eqb negb]. change (GetCursor _) with (if String.eqb (EncodeCursor (mkCursor (Hex o) "" VNil "forward")) "" then "" else EncodeCursor (mkCursor (Hex o) "" VNil "forward")).
    destruct (String.eqb_spec (EncodeCursor (mkCursor (Hex o) "" VNil "forward")) "") as [?|_]; [done|].
    unfold DecodeCursor. destruct (String.eqb_spec (EncodeCursor (mkCursor (Hex o) "" VNil "forward")) "") as [?|_]; [done|]. rewrite Hdec. cbn [ID].
    rewrite (run_page false _ _ _ Hf). by rewrite more_take, trim_take by lia.
Qed.

(** Following the cursors forward; one unit of fuel for a page. *)
Fixpoint walk (fuel : nat) (cursor : string) : list M :=
  match fuel with
  | O => []
  | S fuel =>
      match page_at cursor "" with
      | Ok p => pg_Data _ p ++ (if HasNext (pg_Info _ p) then walk fuel (NextCursor (pg_Info _ p)) else [])
      | Err _ => []
      end
  end%list.
Lemma doc_walk_rest fuel pre ds first cursor : matching = (pre ++ ds)%list -> page_at cursor "" = Ok (page_of false first ds) -> (length ds <= fuel)%nat -> walk (S fuel) cursor = ds.
Proof.
  revert pre ds first cursor. induction fuel as [|fuel IH]; intros pre ds first cursor Hm Hp Hf; change (walk (S ?n) cursor) with
    (match page_at cursor "" with Ok p => pg_Data _ p ++ (if HasNext (pg_Info _ p) then walk n (NextCursor (pg_Info _ p)) else []) | Err _ => [] end)%list; rewrite Hp; cbn [pg_Data pg_Info HasNext NextCursor page_of].
  - destruct ds; [|cbn in Hf; lia]. destruct (Z.ltb_spec L (Z.of_nat (length (A := M) []))); [cbn in *; lia|]. by rewrite take_nil.
  - destruct (Z.ltb_spec L (Z.of_nat (length ds))) as [Hlen|Hlen].
    + destruct (last (take (Z.to_nat L) ds)) as [d|] eqn:Hd.
      2: { apply last_None in Hd. apply (f_equal length) in Hd. rewrite length_take in Hd. cbn in Hd. lia. }
      apply last_Some in Hd as [front Hd]. pose proof (take_drop (Z.to_nat L) ds) as Hds. rewrite Hd, <- (assoc_L app) in Hds. cbn [app] in Hds.
      assert (matching = ((pre ++ front) ++ d :: drop (Z.to_nat L) ds)%list) as Hm' by (rewrite <- (assoc_L app), Hds; done).
      rewrite (IH ((pre ++ front) ++ [d])%list (drop (Z.to_nat L) ds) false).
      * by rewrite take_drop.
      * rewrite <- (assoc_L app). exact Hm'.
      * exact (doc_next_page false _ _ _ Hm').
      * rewrite length_drop. lia.
    + by rewrite app_nil_r, take_ge by lia.
Qed.
End Pages.

(** * A server in memory *)
Module Memory.
Local Abbreviation bval := (MongoQuery.bval nat other).
Local Abbreviation M := (list (string * bval)).
(** Identifiers are numbers, written in unary between signs. *)
Fixpoint unary (n : nat) : string := match n with O => "#" | S n => String "1" (unary n) end.
Definition Hex (n : nat) : string := String "#" (unary n).
Fixpoint read_unary (s : string) : option nat :=
  match s with String "#" "" => Some 0 | String "1" s => option_map S (read_unary s) | _ => None end.
Definition ObjectIDFromHex (s : string) : option nat := match s with String "#" s => read_unary s | _ => None end.
Definition same (v w : bval) : bool :=
  match v, w with BStr s, BStr t => String.eqb s t | BOid x, BOid y => Nat.eqb x y | BInt x, BInt y => Z.eqb x y | BNull, BNull => true | _, _ => false end.
Definition answers (doc : M) (field op : string) (v : bval) (o : string) : bool :=
  match mget field doc with
  | Some w =>
      if String.eqb op "$eq" then same v w
      else match v, w with
           | BOid x, BOid y => if String.eqb op "$gt" then Nat.ltb x y else if String.eqb op "$lt" then Nat.ltb y x else false
           | _, _ => false
           end
  | None => false
  end.
(** Times are kept in milliseconds. *)
Definition stored (v : bval) : bval := match v with BOther (OTime t) => BOther (ODateTime (t / Millisecond)) | v => v end.
Definition store (doc : M) : M := map (fun e => (e.1, stored e.2)) doc.
Definition sat (f doc : M) : bool := doc_matches nat other (answers doc) f.
Definition in_order (opts : FindOpts nat) (docs : list M) : list M :=
  let docs := match fo_Sort _ opts with Some [(_, v)] => if (v =? -1)%Z then rev docs else docs | _ => docs end in
  let docs := drop (Z.to_nat (default 0%Z (fo_Skip _ opts))) docs in
  match fo_Limit _ opts with Some n => take (Z.to_nat n) docs | None => docs end.
Definition id_of (doc : M) : bval := default BNull (mget "_id" doc).
Definition insert (db : list M) (doc : M) : list M * result DriverError bval :=
  if existsb (fun d => same (id_of d) (id_of doc)) db then (db, Err (DuplicateKey "E11000")) else ((db ++ [store doc])%list, Ok (id_of doc)).
Definition set_all (u : M) (doc : M) : M :=
  match mget "$set" u with Some (BDoc m) => foldl (fun d e => mset e.1 (stored e.2) d) doc m | _ => doc end.
Fixpoint update (db : list M) (f u : M) : list M * result DriverError Z :=
  match db with
  | [] => ([], Ok 0%Z)
  | d :: db => if sat f d then (set_all u d :: db, Ok 1%Z) else let '(db, r) := update db f u in (d :: db, r)
  end.
Fixpoint remove (db : list M) (f : M) : list M * result DriverError Z :=
  match db with
  | [] => ([], Ok 0%Z)
  | d :: db => if sat f d then (db, Ok 1%Z) else let '(db, r) := remove db f in (d :: db, r)
  end.
Definition driver : Driver nat (list M) :=
  mkDriver nat (list M)
    (fun db f => match List.find (sat f) db with Some d => Ok d | None => Err NoDocuments end)
    (fun db f opts => Ok (Ok (in_order opts (List.filter (sat f) db))))
    (fun db f => Ok (Z.of_nat (length (List.filter (sat f) db))))
    insert
    (fun db docs => foldl (fun '(db, r) doc => match r with Err e => (db, Err e) | Ok ids => match insert db doc with (db, Ok id) => (db, Ok (ids ++ [id])%list) | (db, Err e) => (db, Err e) end end) (db, Ok []) docs)
    update
    (fun db f u => (map (fun d => if sat f d then set_all u d else d) db, Ok (Z.of_nat (length (List.filter (sat f) db)))))
    remove
    (fun db f => (List.filter (fun d => negb (sat f d)) db, Ok (Z.of_nat (length (List.filter (sat f) db)))))
    (fun db _ => (db, Ok tt)) (fun db _ => (db, Ok tt)).
Definition EncodeCursor (c : Cursor) : string := if String.eqb (Direction c) "forward" then String "f" (ID c) else String "b" (ID c).
Definition decode_cursor (s : string) : option Cursor :=
  match s with String "f" id => Some (mkCursor id "" VNil "forward") | String "b" id => Some (mkCursor id "" VNil "backward") | _ => None end.
Definition Sprint (v : bval) : string := match v with BInt z => Itoa z | _ => "" end.
Lemma read_Hex n : ObjectIDFromHex (Hex n) = Some n.
Proof. unfold Hex, ObjectIDFromHex. induction n as [|n IH]; [done|]. cbn [unary read_unary]. by rewrite IH. Qed.
End Memory.

(** ** Concrete pages *)
Definition item (n : nat) : list (string * MongoQuery.bval nat other) := [("_id", BOid n)].
Definition five : list (list (string * MongoQuery.bval nat other)) := map item [1; 2; 3; 4; 5].
Definition pages_of (desc : OrderDirection) (docs : list (list (string * MongoQuery.bval nat other))) (cursor : string) :=
  FindWithPagination nat Memory.ObjectIDFromHex Memory.Hex Memory.Sprint _ Memory.driver Memory.EncodeCursor Memory.decode_cursor (mkRepo _ false docs) []
    (mkRequest PaginationCursor 1 2 cursor "" "") "" desc.
Definition next_of (res : result RepoError (DocPage nat)) : string := match res with Ok p => NextCursor (pg_Info _ p) | Err _ => "" end.
(** In descending order the cursor of the first page leads back to its beginning:
    the rest is never reached. *)
Example descending_pages : exists next, (match pages_of OrderDesc five "" with Ok p => Some (pg_Data _ p, NextCursor (pg_Info _ p)) | Err _ => None end) = Some ([item 5; item 4], next) /\
  (match pages_of OrderDesc five next with Ok p => Some (pg_Data _ p, HasNext (pg_Info _ p)) | Err _ => None end) = Some ([item 5], false).
Proof. exists (next_of (pages_of OrderDesc five "")). split; vm_compute; reflexivity. Qed.
(** Nor is anything behind a document whose identifier is an integer: the cursor
    holds a text. *)
Definition numbers : list (list (string * MongoQuery.bval nat other)) := map (fun n => [("_id", BInt n)]) [1; 2; 3]%Z.
Example integer_ids : exists next, (match pages_of OrderAsc numbers "" with Ok p => Some (HasNext (pg_Info _ p), NextCursor (pg_Info _ p)) | Err _ => None end) = Some (true, next) /\
  (match pages_of OrderAsc numbers next with Ok p => Some (pg_Data _ p) | Err _ => None end) = Some [].
Proof. exists (next_of (pages_of OrderAsc numbers "")). split; vm_compute; reflexivity. Qed.
(** An update without [$set] is lost, whatever it is. *)
Lemma update_lost {O} now (update : list (string * MongoQuery.bval O other)) : mget "$set" update = None -> one_update O now update = [("$set", BDoc [("updatedAt", BOther (OTime now))])].
Proof. intros H. unfold one_update. by rewrite H. Qed.
(** A document whose identifier is a text that reads as an object identifier is
    not found by it: the text is converted both times. *)
Example text_id : let r := mkRepo _ false [[("_id", BStr "##")]] in
  FindByID nat Memory.ObjectIDFromHex _ Memory.driver r "##" = Err ErrNotFound /\ mget "_id" (nth 0 (db _ r) []) = Some (BStr "##").
Proof. split; vm_compute; reflexivity. Qed.
