(* ===== verification/MongoAdapters.v ===== *)
(** Deployments, configurations and executions in MongoDB:
    [internal/database/mongodb/adapters.go], over [MongoRepository].

    Times are nanoseconds since the epoch; JSON is a parameter. *)

From Stdlib Require Import ZArith Lia Ascii.
From stdpp Require Import base strings list sets.
From S2P Require Import Prelude GoStrings MongoQuery QueryAst MongoWhere Models MongoRepository.

#[local] Open Scope string_scope.
#[local] Open Scope list_scope.

Section Adapters.
Variables (ObjectID : Type) (ObjectIDFromHex : string -> option ObjectID) (Hex : ObjectID -> string).
Local Abbreviation bval := (MongoQuery.bval ObjectID other).
Local Abbreviation M := (list (string * bval)).
Variables (Sprint : bval -> string) (Db : Type) (driver : Driver ObjectID Db).
Local Abbreviation Repo := (Repository Db).
(** [json.Unmarshal] into an [interface{}], and [json.Marshal]. *)
Variables (Unmarshal : string -> option bval) (Marshal : bval -> option string).

Definition translateAdapterError (e : RepoError) : RepoError := match e with ErrNotFound => ErrNotFound | e => e end.
Definition time (t : Z) : bval := BOther (OTime t).
(** An entry for a value that is there. *)
Definition optional {A} (k : string) (f : A -> bval) (v : option A) : M := match v with Some a => [(k, f a)] | None => [] end.
Definition given (s : string) : option string := if String.eqb s "" then None else Some s.
Definition json_entry (k s : string) : M :=
  if String.eqb s "" then [] else match Unmarshal s with Some data => [(k, data)] | None => [] end.

(** ** Reading documents *)
Definition text_at (doc : M) (field : string) : string := match mget field doc with Some (BStr s) => s | _ => "" end.
Definition extractDocID (doc : M) : string := match mget "_id" doc with Some (BOid v) => Hex v | Some (BStr v) => v | _ => "" end.
Definition extractDocTimePtr (doc : M) (field : string) : option Z :=
  match mget field doc with
  | Some (BOther (OTime v)) => Some v
  | Some (BOther (ODateTime ms)) => Some (ms * Millisecond)%Z
  | _ => None
  end.
Definition extractDocTime (doc : M) (field : string) : Z := default zero_time (extractDocTimePtr doc field).
Definition documentToDeployment (doc : M) : Deployment :=
  mkDeployment (extractDocID doc) (text_at doc "name") (match mget "configId" doc with Some (BStr s) => given s | _ => None end) (text_at doc "status")
    (extractDocTime doc "createdAt") (extractDocTime doc "updatedAt").
Definition json_at (doc : M) (field : string) : string :=
  match mget field doc with Some BNull | None => "" | Some v => default "" (Marshal v) end.
Definition documentToConfig (doc : M) : Config :=
  mkConfig (extractDocID doc) (text_at doc "name") (text_at doc "content") (json_at doc "astJson") (json_at doc "validationErrors") (extractDocTime doc "createdAt").
Definition exit_code (doc : M) : option Z :=
  match mget "exitCode" doc with
  | Some (BOther (OInt32 v)) => Some v
  | Some (BOther (OInt64 v)) | Some (BInt v) => Some (wrap32 v)
  | _ => None
  end.
Definition documentToExecution (doc : M) : Execution :=
  mkExecution (extractDocID doc) (text_at doc "deploymentId") (text_at doc "command") (match mget "output" doc with Some (BStr s) => Some s | _ => None end)
    (exit_code doc) (extractDocTime doc "startedAt") (extractDocTimePtr doc "completedAt").

(** ** What the three adapters do alike *)
Local Abbreviation insert := (InsertOne ObjectID Hex Sprint Db driver).
Local Abbreviation find_id := (FindByID ObjectID ObjectIDFromHex Db driver).
Local Abbreviation update_one := (UpdateOne ObjectID ObjectIDFromHex Db driver).
Definition get {D A} (conv : D -> A) (found : result RepoError D) : result RepoError A :=
  match found with Ok doc => Ok (conv doc) | Err e => Err (translateAdapterError e) end.
(** The repository, the identifier that the model has then, and the answer. *)
Definition create (now : Z) (new : ObjectID) (r : Repo) (id : string) (doc : M) : Repo * string * result RepoError unit :=
  match insert now new r doc with
  | (r, Ok given_id) => (r, if String.eqb id "" then given_id else id, Ok tt)
  | (r, Err e) => (r, id, Err (translateAdapterError e))
  end.
Definition list_all {A} (conv : M -> A) (r : Repo) (filter : M) (by_ : string) (limit offset : Z) : result RepoError (list A) :=
  get (map conv) (Find ObjectID ObjectIDFromHex Db driver r filter (Some (mkFindOptions _ [(by_, (-1)%Z)] limit offset None))).
Definition counted (res : Repo * result RepoError Z) : Repo * result RepoError unit :=
  match res with
  | (r, Ok n) => (r, if (n =? 0)%Z then Err ErrNotFound else Ok tt)
  | (r, Err e) => (r, Err (translateAdapterError e))
  end.
Definition update (now : Z) (r : Repo) (id : string) (set_ : M) : Repo * result RepoError unit :=
  counted (update_one now r [("_id", BStr id)] [("$set", BDoc set_)]).
Definition Delete (r : Repo) (id : string) : Repo * result RepoError unit := counted (DeleteOne ObjectID ObjectIDFromHex Db driver r [("_id", BStr id)]).
Definition id_entry (id : string) : M := optional "_id" BStr (given id).

(** ** Deployments *)
Definition deployment_doc (d : Deployment) : M :=
  [("name", BStr (d_Name d)); ("status", BStr (d_Status d)); ("createdAt", time (d_CreatedAt d)); ("updatedAt", time (d_UpdatedAt d))] ++
  optional "configId" BStr (d_ConfigID d) ++ id_entry (d_ID d).
Definition Deployment_Create (now : Z) (new : ObjectID) (r : Repo) (d : Deployment) : Repo * Deployment * result RepoError unit :=
  let '(r, id, res) := create now new r (d_ID d) (deployment_doc d) in (r, deployment_id id d, res).
Definition Deployment_GetByID (r : Repo) (id : string) : result RepoError Deployment := get documentToDeployment (find_id r id).
Definition Deployment_GetByName (r : Repo) (name : string) : result RepoError Deployment :=
  get documentToDeployment (FindOne ObjectID ObjectIDFromHex Db driver r [("name", BStr name)]).
Definition Deployment_List (r : Repo) (limit offset : Z) : result RepoError (list Deployment) := list_all documentToDeployment r [] "createdAt" limit offset.
(** The clock is read twice. *)
Definition Deployment_Update (now later : Z) (r : Repo) (d : Deployment) : Repo * Deployment * result RepoError unit :=
  let d := mkDeployment (d_ID d) (d_Name d) (d_ConfigID d) (d_Status d) (d_CreatedAt d) now in
  let '(r, res) := update later r (d_ID d)
    [("name", BStr (d_Name d)); ("status", BStr (d_Status d)); ("updatedAt", time (d_UpdatedAt d)); ("configId", match d_ConfigID d with Some s => BStr s | None => BNull end)] in
  (r, d, res).

(** ** Configurations *)
Definition config_doc (c : Config) : M :=
  [("name", BStr (c_Name c)); ("content", BStr (c_Content c)); ("createdAt", time (c_CreatedAt c))] ++ id_entry (c_ID c) ++
  json_entry "astJson" (c_ASTJSON c) ++ json_entry "validationErrors" (c_ValidationErrors c).
Definition Config_Create (now : Z) (new : ObjectID) (r : Repo) (c : Config) : Repo * Config * result RepoError unit :=
  let '(r, id, res) := create now new r (c_ID c) (config_doc c) in (r, config_id id c, res).
Definition Config_GetByID (r : Repo) (id : string) : result RepoError Config := get documentToConfig (find_id r id).
Definition Config_GetByName (r : Repo) (name : string) : result RepoError Config :=
  get documentToConfig (FindOne ObjectID ObjectIDFromHex Db driver r [("name", BStr name)]).
Definition Config_List (r : Repo) (limit offset : Z) : result RepoError (list Config) := list_all documentToConfig r [] "createdAt" limit offset.
Definition Config_Update (now : Z) (r : Repo) (c : Config) : Repo * result RepoError unit :=
  update now r (c_ID c) ([("name", BStr (c_Name c)); ("content", BStr (c_Content c))] ++ json_entry "astJson" (c_ASTJSON c) ++ json_entry "validationErrors" (c_ValidationErrors c)).

(** ** Executions *)
Definition completion (e : Execution) : M :=
  optional "output" BStr (e_Output e) ++ optional "exitCode" (fun z => BOther (OInt32 z)) (e_ExitCode e) ++ optional "completedAt" time (e_CompletedAt e).
Definition execution_doc (e : Execution) : M :=
  [("deploymentId", BStr (e_DeploymentID e)); ("command", BStr (e_Command e)); ("startedAt", time (e_StartedAt e))] ++ id_entry (e_ID e) ++ completion e.
Definition Execution_Create (now : Z) (new : ObjectID) (r : Repo) (e : Execution) : Repo * Execution * result RepoError unit :=
  let '(r, id, res) := create now new r (e_ID e) (execution_doc e) in (r, execution_id id e, res).
Definition Execution_GetByID (r : Repo) (id : string) : result RepoError Execution := get documentToExecution (find_id r id).
Definition Execution_List (r : Repo) (limit offset : Z) : result RepoError (list Execution) := list_all documentToExecution r [] "startedAt" limit offset.
Definition ListByDeployment (r : Repo) (deploymentID : string) (limit offset : Z) : result RepoError (list Execution) :=
  list_all documentToExecution r [("deploymentId", BStr deploymentID)] "startedAt" limit offset.
Definition Execution_Update (now : Z) (r : Repo) (e : Execution) : Repo * result RepoError unit := update now r (e_ID e) (completion e).
End Adapters.

(** * What is created is found *)
(** What the documentation of the server says of collections: documents are kept
    in some order and told apart by their identifiers, and times are kept in
    milliseconds. *)
Section Store.
Context (ObjectID : Type) (ObjectIDFromHex : string -> option ObjectID) (Hex : ObjectID -> string).
Local Abbreviation bval := (MongoQuery.bval ObjectID other).
Local Abbreviation M := (list (string * bval)).
Context (Sprint : bval -> string) (Db : Type) (driver : Driver ObjectID Db).
Context (docs : Db -> list M) (answers : M -> string -> string -> bval -> string -> bool) (stored : bval -> bval).
Local Abbreviation sat := (MongoRepository.sat ObjectID answers).
Definition store (doc : M) : M := map (fun e => (e.1, stored e.2)) doc.
Definition set_all (m doc : M) : M := foldl (fun d e => mset e.1 (stored e.2) d) doc m.
Definition first_match (f : M) (pre : list M) (d : M) : Prop := Forall (fun x => sat f x = false) pre /\ sat f d = true.
Record Documented : Prop := {
  l_find d f : d_FindOne _ _ driver d f = match List.find (sat f) (docs d) with Some doc => Ok doc | None => Err NoDocuments end;
  l_insert d doc v : match v with BStr _ | BOid _ => True | _ => False end -> mget "_id" doc = Some v -> Forall (fun x => mget "_id" x <> Some v) (docs d) ->
    exists d', d_InsertOne _ _ driver d doc = (d', Ok v) /\ docs d' = docs d ++ [store doc];
  l_update d f m pre doc suf : docs d = pre ++ doc :: suf -> first_match f pre doc ->
    exists d' n, d_UpdateOne _ _ driver d f [("$set", BDoc m)] = (d', Ok n) /\ docs d' = pre ++ set_all m doc :: suf /\ (set_all m doc <> doc -> n = 1%Z);
  l_delete d f pre doc suf : docs d = pre ++ doc :: suf -> first_match f pre doc ->
    exists d', d_DeleteOne _ _ driver d f = (d', Ok 1%Z) /\ docs d' = pre ++ suf;
  l_delete_none d f : Forall (fun x => sat f x = false) (docs d) -> exists d', d_DeleteOne _ _ driver d f = (d', Ok 0%Z) /\ docs d' = docs d;
  l_id doc v : match v with BStr _ | BOid _ => True | _ => False end -> answers doc "_id" "$eq" v "" = true <-> mget "_id" doc = Some v;
  l_text s : stored (BStr s) = BStr s;
  l_oid o : stored (BOid o) = BOid o;
  l_null : stored BNull = BNull;
  l_int z : stored (BOther (OInt32 z)) = BOther (OInt32 z);
  l_time t : stored (BOther (OTime t)) = BOther (ODateTime (t / Millisecond))
}.
Hypothesis Hdoc : Documented.
Hypothesis Hhex : forall o, ObjectIDFromHex (Hex o) = Some o.

(** The identifier that a text stands for. *)
Definition key (id : string) : bval := oid_value ObjectID other ObjectIDFromHex "_id" (BStr id).
Local Abbreviation find_id := (FindByID ObjectID ObjectIDFromHex Db driver).
Implicit Types r : Repository Db.

Lemma key_simple id : match key id with BStr _ | BOid _ => True | _ => False end.
Proof. unfold key, oid_value. cbn. by destruct (ObjectIDFromHex id). Qed.
Lemma sat_key id doc : sat [("_id", key id)] doc = true <-> mget "_id" doc = Some (key id).
Proof.
  unfold MongoRepository.sat, doc_matches. cbn [forallb fst snd]. rewrite andb_true_r. pose proof (key_simple id) as Hk. rewrite <- (l_id Hdoc doc (key id) Hk). by destruct (key id).
Qed.
Lemma key_Hex o : key (Hex o) = BOid o.
Proof. unfold key, oid_value. cbn. by rewrite Hhex. Qed.
Lemma find_by_key r id : closed Db r = false -> find_id r id =
  match List.find (sat [("_id", key id)]) (docs (db Db r)) with Some doc => Ok doc | None => Err ErrNotFound end.
Proof.
  intros Hc. unfold FindByID, FindOne, reading. rewrite Hc. change (translateFilter _ _ [("_id", BStr id)]) with [("_id", key id)]. rewrite (l_find Hdoc).
  destruct (List.find _ _) eqn:E; [done|]. cbn [find_one_error]. destruct (ObjectIDFromHex id) as [oid|] eqn:Ho; [|done].
  change (translateFilter _ _ [("_id", BOid oid)]) with [("_id", BOid oid : bval)]. rewrite (l_find Hdoc). assert (key id = BOid oid) as <- by (unfold key, oid_value; cbn; by rewrite Ho). by rewrite E.
Qed.
Lemma find_app {A} (p : A -> bool) l1 l2 : List.find p (l1 ++ l2) = match List.find p l1 with Some a => Some a | None => List.find p l2 end.
Proof. induction l1 as [|a l1 IH]; [done|]. cbn. by destruct (p a). Qed.
Lemma find_none {A} (p : A -> bool) l : Forall (fun a => p a = false) l -> List.find p l = None.
Proof. induction 1 as [|a l Ha _ IH]; [done|]. cbn. by rewrite Ha. Qed.
Lemma not_sat id doc : mget "_id" doc <> Some (key id) -> sat [("_id", key id)] doc = false.
Proof. intros H. apply not_true_iff_false. by rewrite sat_key. Qed.
Lemma mget_store k doc : mget k (store doc) = option_map stored (mget k doc).
Proof. induction doc as [|[k' v] doc IH]; [done|]. cbn. by destruct (String.eqb k k'). Qed.
Lemma mget_default k k' (v : bval) doc : mget k (set_default ObjectID k' v doc) = if String.eqb k k' then Some (default v (mget k' doc)) else mget k doc.
Proof.
  unfold set_default. destruct (mget k' doc) as [w|] eqn:E; [destruct (String.eqb_spec k k') as [->|]; by rewrite ?E|]. rewrite mget_mset. by destruct (String.eqb_spec k k').
Qed.
Lemma mget_prepare now new k doc : mget k (prepare ObjectID now new doc) =
  if String.eqb k "_id" then Some (default (BOid new) (mget "_id" doc))
  else if String.eqb k "updatedAt" then Some (default (BOther (OTime now)) (mget "updatedAt" doc))
  else if String.eqb k "createdAt" then Some (default (BOther (OTime now)) (mget "createdAt" doc)) else mget k doc.
Proof. unfold prepare. rewrite !mget_default. destruct (String.eqb k "_id"), (String.eqb k "updatedAt"); done. Qed.
Lemma find_cons {A} (p : A -> bool) a l : List.find p (a :: l) = if p a then Some a else List.find p l.
Proof. done. Qed.

(** *** Inserting *)
(** A new identifier: none is given and the new one is free, or a free text is
    given that is not read as another. *)
Definition free (r : Repository Db) (id : string) (new : ObjectID) : Prop :=
  let v := if String.eqb id "" then BOid new else BStr id in
  (id = "" \/ ObjectIDFromHex id = None) /\ Forall (fun x => mget "_id" x <> Some v) (docs (db Db r)).
Lemma insert_found now new r id doc : closed Db r = false -> free r id new -> mget "_id" doc = option_map BStr (given id) ->
  exists r' id', create ObjectID Hex Sprint Db driver now new r id doc = (r', id', Ok tt) /\ closed Db r' = false /\ id' = (if String.eqb id "" then Hex new else id) /\
    (forall i, key i = key id' -> find_id r' i = Ok (store (prepare ObjectID now new doc))) /\
    (forall i, key i <> key id' -> find_id r' i = find_id r i).
Proof.
  intros Hc [Hid Hfree] Hm. set (v := if String.eqb id "" then BOid new else BStr id) in *.
  assert (mget "_id" (prepare ObjectID now new doc) = Some v) as Hv by (rewrite mget_prepare, Hm; unfold given, v; by destruct (String.eqb id "")).
  destruct (l_insert Hdoc (db Db r) (prepare ObjectID now new doc) v) as (d' & Hi & Hd); [unfold v; by destruct (String.eqb id "")|done|done|]. exists (with_db Db r d'), (if String.eqb id "" then Hex new else id).
  assert (key (if String.eqb id "" then Hex new else id) = v) as Hk.
  { unfold v. destruct (String.eqb_spec id ""); [apply key_Hex|]. destruct Hid as [?|Hid]; [done|]. unfold key, oid_value. cbn. by rewrite Hid. }
  assert (stored v = v) as Hsv by (unfold v; destruct (String.eqb id ""); [apply (l_oid Hdoc)|apply (l_text Hdoc)]). split; [|split; [done|split; [done|split]]].
  - unfold create, InsertOne, writing. rewrite Hc, Hi. unfold v. by destruct (String.eqb id "").
  - intros i Hki. rewrite find_by_key by done. cbn [db with_db]. rewrite Hd, find_app, find_none.
    + rewrite find_cons, (proj2 (sat_key _ _)); [done|]. rewrite mget_store, Hv, Hki, Hk. cbn. by rewrite Hsv.
    + apply (Forall_impl _ _ _ Hfree). intros x Hx. apply not_sat. by rewrite Hki, Hk.
  - intros i Hki. rewrite !find_by_key by done. cbn [db with_db]. rewrite Hd, find_app, find_cons, not_sat; [by destruct (List.find _ _)|].
    rewrite mget_store, Hv. cbn [option_map]. rewrite Hsv. intros [= E]. apply Hki. by rewrite Hk.
Qed.

(** *** Updating *)
Lemma find_split {A} (p : A -> bool) l a : List.find p l = Some a -> exists pre suf, l = pre ++ a :: suf /\ Forall (fun x => p x = false) pre /\ p a = true.
Proof.
  induction l as [|x l IH]; [done|]. cbn. destruct (p x) eqn:E; [intros [= ->]; by exists [], l|].
  intros (pre & suf & -> & H1 & H2)%IH. exists (x :: pre), suf. split; [done|]. split; [by constructor|done].
Qed.
Lemma mget_set_all k m doc : NoDup (map fst m) -> mget k (set_all m doc) = match mget k m with Some v => Some (stored v) | None => mget k doc end.
Proof.
  unfold set_all. revert doc. induction m as [|[k' v] m IH]; intros doc Hnd; [done|]. cbn [map fst] in Hnd. apply NoDup_cons in Hnd as [Hk Hnd]. cbn [foldl fst snd]. rewrite IH by done. cbn [mget].
  destruct (String.eqb_spec k k') as [->|Hne]; [|rewrite mget_mset; by destruct (String.eqb_spec k k')].
  assert (mget k' m = None) as ->; [|by rewrite mget_mset, String.eqb_refl].
  clear -Hk. induction m as [|[k0 v0] m IH]; [done|]. cbn in *. apply not_elem_of_cons in Hk as [Hk1 Hk2]. destruct (String.eqb_spec k' k0); [done|]. by apply IH.
Qed.
Lemma update_found later r id m doc : closed Db r = false -> find_id r id = Ok doc -> let m' := mset "updatedAt" (BOther (OTime later)) m in NoDup (map fst m') -> mget "_id" m' = None ->
  exists r' res, update ObjectID ObjectIDFromHex Db driver later r id m = (r', res) /\ closed Db r' = false /\ (set_all m' doc <> doc -> res = Ok tt) /\
    (forall i, key i = key id -> find_id r' i = Ok (set_all m' doc)) /\
    (forall i, key i <> key id -> find_id r' i = find_id r i).
Proof.
  intros Hc Hf m' Hnd Hid. rewrite find_by_key in Hf by done. destruct (List.find _ _) as [doc'|] eqn:E; [|done]. injection Hf as ->.
  apply find_split in E as (pre & suf & Hd & Hpre & Hs).
  destruct (l_update Hdoc (db Db r) [("_id", key id)] m' pre doc suf Hd (conj Hpre Hs)) as (d' & n & Hu & Hd' & Hn).
  pose proof (proj1 (sat_key _ _) Hs) as Hkey.
  assert (mget "_id" (set_all m' doc) = Some (key id)) as Hkey' by (rewrite mget_set_all, Hid by done; exact Hkey).
  exists (with_db Db r d'), (if (n =? 0)%Z then Err ErrNotFound else Ok tt). split.
  { unfold update, UpdateOne, writing. rewrite Hc. change (translateFilter _ _ [("_id", BStr id)]) with [("_id", key id)].
    change (one_update ObjectID later [("$set", BDoc m)]) with [("$set", BDoc (mset "updatedAt" (BOther (OTime later)) m))]. change (mset "updatedAt" (BOther (OTime later)) m) with m'. by rewrite Hu. }
  split; [done|]. split; [by intros H; rewrite (Hn H)|]. split; intros i Hi; rewrite !find_by_key by done; cbn [db with_db]; rewrite Hd'.
  - rewrite find_app, find_cons, Hi, find_none by done. by rewrite (proj2 (sat_key _ _) Hkey').
  - rewrite Hd, !find_app, !find_cons. rewrite !not_sat; [done| |]; rewrite ?Hkey, ?Hkey'; congruence.
Qed.
(** *** Deleting *)
(** The server keeps identifiers unique. *)
Definition unique (r : Repository Db) : Prop := NoDup (map (mget "_id") (docs (db Db r))).
Lemma delete_found r id : closed Db r = false -> unique r ->
  exists r' res, Delete ObjectID ObjectIDFromHex Db driver r id = (r', res) /\ closed Db r' = false /\
    res = (match find_id r id with Ok _ => Ok tt | Err e => Err e end) /\
    (forall i, key i = key id -> find_id r' i = Err ErrNotFound) /\
    (forall i, key i <> key id -> find_id r' i = find_id r i).
Proof.
  intros Hc Hnd. rewrite find_by_key by done. destruct (List.find (sat [("_id", key id)]) (docs (db Db r))) as [doc|] eqn:E.
  - apply find_split in E as (pre & suf & Hd & Hpre & Hs). destruct (l_delete Hdoc (db Db r) _ pre doc suf Hd (conj Hpre Hs)) as (d' & Hu & Hd').
    exists (with_db Db r d'), (Ok tt). split; [unfold Delete, DeleteOne, writing; rewrite Hc; change (translateFilter _ _ [("_id", BStr id)]) with [("_id", key id)]; by rewrite Hu|].
    split; [done|]. split; [done|]. pose proof (proj1 (sat_key _ _) Hs) as Hkey. split; intros i Hi; rewrite !find_by_key by done; cbn [db with_db]; rewrite Hd'.
    + rewrite Hi, find_none; [done|]. apply Forall_app. split; [done|]. unfold unique in Hnd. rewrite Hd, map_app in Hnd. cbn [map] in Hnd.
      apply NoDup_app in Hnd as (_ & _ & Hnd). apply NoDup_cons in Hnd as [Hnd _]. apply Forall_forall. intros x Hx. apply not_sat. rewrite <- Hkey. intros Hxd. apply Hnd. rewrite <- Hxd.
      apply list_elem_of_In, in_map, list_elem_of_In, Hx.
    + rewrite Hd, !find_app, find_cons. rewrite (not_sat _ doc); [done|]. rewrite Hkey. congruence.
  - assert (Forall (fun x => sat [("_id", key id)] x = false) (docs (db Db r))) as Hn.
    { apply Forall_forall. intros x Hx. apply (List.find_none _ _ E). by apply list_elem_of_In. }
    destruct (l_delete_none Hdoc (db Db r) _ Hn) as (d' & Hu & Hd'). exists (with_db Db r d'), (Err ErrNotFound).
    split; [unfold Delete, DeleteOne, writing; rewrite Hc; change (translateFilter _ _ [("_id", BStr id)]) with [("_id", key id)]; by rewrite Hu|].
    split; [done|]. split; [done|]. split; intros i Hi; rewrite !find_by_key by done; cbn [db with_db]; rewrite Hd'; [by rewrite Hi, E|done].
Qed.

(** *** Models *)
(** A time as it is read back. *)
Definition ms (t : Z) : Z := (t / Millisecond * Millisecond)%Z.
Definition named (o : option string) : option string := match o with Some s => given s | None => None end.
Definition deployment_read (d : Deployment) : Deployment := mkDeployment (d_ID d) (d_Name d) (named (d_ConfigID d)) (d_Status d) (ms (d_CreatedAt d)) (ms (d_UpdatedAt d)).
Definition execution_read (e : Execution) : Execution :=
  mkExecution (e_ID e) (e_DeploymentID e) (e_Command e) (e_Output e) (e_ExitCode e) (ms (e_StartedAt e)) (option_map ms (e_CompletedAt e)).
Definition new_id (id : string) (new : ObjectID) : string := if String.eqb id "" then Hex new else id.
Lemma read_id now new id doc : mget "_id" doc = option_map BStr (given id) -> extractDocID ObjectID Hex (store (prepare ObjectID now new doc)) = new_id id new.
Proof.
  intros H. unfold extractDocID. rewrite mget_store, mget_prepare, H. cbn [String.eqb Ascii.eqb Bool.eqb option_map]. unfold given, new_id. destruct (String.eqb id ""); cbn; [by rewrite (l_oid Hdoc)|by rewrite (l_text Hdoc)].
Qed.
Lemma read_deployment now new d : documentToDeployment ObjectID Hex (store (prepare ObjectID now new (deployment_doc ObjectID d))) = deployment_read (deployment_id (new_id (d_ID d) new) d).
Proof.
  unfold documentToDeployment, deployment_read. rewrite (read_id now new (d_ID d)) by (unfold deployment_doc, id_entry; by destruct (d_ConfigID d), (given (d_ID d))).
  unfold text_at, extractDocTime, extractDocTimePtr. rewrite !mget_store, !mget_prepare. unfold deployment_doc, id_entry, deployment_id, time. cbn.
  rewrite !(l_text Hdoc), !(l_time Hdoc). cbn. f_equal. destruct (d_ConfigID d) as [c|]; cbn; [by rewrite (l_text Hdoc)|by destruct (given (d_ID d))].
Qed.
Lemma read_execution now new e : documentToExecution ObjectID Hex (store (prepare ObjectID now new (execution_doc ObjectID e))) = execution_read (execution_id (new_id (e_ID e) new) e).
Proof.
  unfold documentToExecution, execution_read. rewrite (read_id now new (e_ID e)) by (unfold execution_doc, id_entry, completion; by destruct (given (e_ID e)), (e_Output e), (e_ExitCode e), (e_CompletedAt e)).
  unfold text_at, extractDocTime, extractDocTimePtr, exit_code. rewrite !mget_store, !mget_prepare. unfold execution_doc, id_entry, execution_id, completion, time. cbn.
  rewrite !(l_text Hdoc), !(l_time Hdoc). cbn. destruct (given (e_ID e)), (e_Output e), (e_ExitCode e), (e_CompletedAt e); cbn; rewrite ?(l_text Hdoc), ?(l_time Hdoc), ?(l_int Hdoc); done.
Qed.
Lemma doc_id_given id : mget "_id" (id_entry ObjectID id) = option_map BStr (given id).
Proof. unfold id_entry. by destruct (given id). Qed.

Local Abbreviation get_deployment := (Deployment_GetByID ObjectID ObjectIDFromHex Hex Db driver).
Local Abbreviation get_execution := (Execution_GetByID ObjectID ObjectIDFromHex Hex Db driver).
Lemma create_deployment now new r d : closed Db r = false -> free r (d_ID d) new ->
  exists r', let d' := deployment_id (new_id (d_ID d) new) d in Deployment_Create ObjectID Hex Sprint Db driver now new r d = (r', d', Ok tt) /\ closed Db r' = false /\
    (forall id, key id = key (d_ID d') -> get_deployment r' id = Ok (deployment_read d')) /\
    (forall id, key id <> key (d_ID d') -> get_deployment r' id = get_deployment r id).
Proof.
  intros Hc Hf. destruct (insert_found now new r (d_ID d) (deployment_doc ObjectID d) Hc Hf) as (r' & id' & Hi & Hc' & -> & H1 & H2).
  { rewrite <- doc_id_given. unfold deployment_doc. by destruct (d_ConfigID d). }
  exists r'. unfold Deployment_Create. rewrite Hi. split; [done|]. split; [done|]. unfold Deployment_GetByID. split; intros i Hk; [rewrite (H1 i Hk); cbn [get]; by rewrite read_deployment|by rewrite (H2 i Hk)].
Qed.
Lemma create_execution now new r e : closed Db r = false -> free r (e_ID e) new ->
  exists r', let e' := execution_id (new_id (e_ID e) new) e in Execution_Create ObjectID Hex Sprint Db driver now new r e = (r', e', Ok tt) /\ closed Db r' = false /\
    (forall id, key id = key (e_ID e') -> get_execution r' id = Ok (execution_read e')) /\
    (forall id, key id <> key (e_ID e') -> get_execution r' id = get_execution r id).
Proof.
  intros Hc Hf. destruct (insert_found now new r (e_ID e) (execution_doc ObjectID e) Hc Hf) as (r' & id' & Hi & Hc' & -> & H1 & H2).
  { rewrite <- doc_id_given. unfold execution_doc, completion, id_entry. by destruct (given (e_ID e)), (e_Output e), (e_ExitCode e), (e_CompletedAt e). }
  exists r'. unfold Execution_Create. rewrite Hi. split; [done|]. split; [done|]. unfold Execution_GetByID. split; intros i Hk; [rewrite (H1 i Hk); cbn [get]; by rewrite read_execution|by rewrite (H2 i Hk)].
Qed.
Lemma update_deployment now later r d d0 : closed Db r = false -> get_deployment r (d_ID d) = Ok d0 ->
  exists r' d' res, Deployment_Update ObjectID ObjectIDFromHex Db driver now later r d = (r', d', res) /\ closed Db r' = false /\ (ms later <> d_UpdatedAt d0 -> res = Ok tt) /\
    (forall id, key id = key (d_ID d) -> get_deployment r' id = Ok (mkDeployment (d_ID d0) (d_Name d) (named (d_ConfigID d)) (d_Status d) (d_CreatedAt d0) (ms later))) /\
    (forall id, key id <> key (d_ID d) -> get_deployment r' id = get_deployment r id).
Proof.
  intros Hc. unfold Deployment_GetByID at 1. destruct (find_id r (d_ID d)) as [doc|e] eqn:E; [|done]. intros [= <-].
  set (m := [("name", BStr (d_Name d)); ("status", BStr (d_Status d)); ("updatedAt", time ObjectID now); ("configId", match d_ConfigID d with Some s => BStr s | None => BNull end)]%string : M).
  destruct (update_found later r (d_ID d) m doc Hc E) as (r' & res & Hu & Hc' & Hres & H1 & H2); [|done|].
  { cbn. repeat (apply NoDup_cons; split; [rewrite ?elem_of_cons, elem_of_nil; intuition discriminate|]). apply NoDup_nil_2. }
  set (m' := mset "updatedAt" (BOther (OTime later)) m) in *.
  assert (forall k, mget k (set_all m' doc) = match mget k m' with Some v => Some (stored v) | None => mget k doc end) as Hget.
  { intros k. apply mget_set_all. cbn. repeat (apply NoDup_cons; split; [rewrite ?elem_of_cons, elem_of_nil; intuition discriminate|]). apply NoDup_nil_2. }
  eexists r', _, res. unfold Deployment_Update. cbn [d_ID d_Name d_Status d_UpdatedAt d_ConfigID]. fold m. rewrite Hu. split; [reflexivity|]. split; [done|]. split.
  - intros Hne. apply Hres. intros Heq. apply Hne. rewrite <- Heq. cbn. unfold extractDocTime, extractDocTimePtr. rewrite Hget. cbn. by rewrite (l_time Hdoc).
  - unfold Deployment_GetByID. split; intros i Hk; [|by rewrite (H2 i Hk)]. rewrite (H1 i Hk). cbn [get]. f_equal. unfold documentToDeployment, extractDocID, text_at, extractDocTime, extractDocTimePtr.
    rewrite !Hget. cbn. rewrite !(l_text Hdoc), !(l_time Hdoc). cbn. f_equal. destruct (d_ConfigID d); cbn; by rewrite ?(l_text Hdoc), ?(l_null Hdoc).
Qed.

(** *** As a store of models *)
(** The clock twice, and the identifier that the driver would make. *)
Record Readings := mkReadings { now1 : Z; now2 : Z; new : ObjectID }.
(** [mongodb.ErrNotFound] is not the [ErrNotFound] that the handlers know. *)
Definition told {A} (res : result RepoError A) : result StoreError A := match res with Ok a => Ok a | Err _ => Err StoreFailure end.
Definition deployments : Crud (Repository Db) Readings Deployment := mkCrud
  (fun w d r => let '(r, d, res) := Deployment_Create ObjectID Hex Sprint Db driver (now1 w) (new w) r d in (r, d, told res))
  (fun id r => told (get_deployment r id))
  (fun limit offset r => told (Deployment_List ObjectID ObjectIDFromHex Hex Db driver r limit offset))
  (fun w d r => let '(r, d, res) := Deployment_Update ObjectID ObjectIDFromHex Db driver (now1 w) (now2 w) r d in (r, d, told res))
  (fun id r => let '(r, res) := Delete ObjectID ObjectIDFromHex Db driver r id in (r, told res)).
#[export] Instance deployments_spec : StoreSpec deployments := {|
  wf r := closed Db r = false; same i j := key i = key j; missing := StoreFailure; keep_time := ms;
  can_create w d r := free r (d_ID d) (new w) /\ d_ConfigID d <> Some "";
  can_update w d r := d_ConfigID d <> Some "" /\ forall d0, get_deployment r (d_ID d) = Ok d0 -> ms (now2 w) <> d_UpdatedAt d0;
  can_delete id r := unique r |}.
Lemma named_id o : o <> Some "" -> named o = o.
Proof. destruct o as [s|]; [|done]. intros Hs. cbn. unfold given. destruct (String.eqb_spec s "") as [->|]; done. Qed.
Lemma key_hex i j : key i = key j -> ObjectIDFromHex i = ObjectIDFromHex j.
Proof. unfold key, oid_value. cbn. destruct (ObjectIDFromHex i) eqn:Ei, (ObjectIDFromHex j) eqn:Ej; congruence. Qed.
Lemma find_id_key r i j : key i = key j -> find_id r i = find_id r j.
Proof.
  intros Hk. unfold FindByID, FindOne. assert (forall i, translateFilter ObjectID ObjectIDFromHex [("_id", BStr i)] = [("_id", key i)])%string as Ht by done.
  by rewrite !Ht, Hk, (key_hex i j Hk).
Qed.
#[export] Instance deployments_laws : StoreLaws deployments.
Proof.
  split; cbn.
  - split; [by intros i|by intros i j|by intros i j k -> ->].
  - intros r i j Hk. f_equal. unfold Deployment_GetByID. by rewrite (find_id_key r i j Hk).
  - intros r i d Hc. unfold Deployment_GetByID. rewrite find_by_key by done. destruct (List.find _ _) as [doc|] eqn:E; [|done]. intros [= <-]. apply List.find_some in E as [_ E]. apply sat_key in E.
    change (key i = key (extractDocID ObjectID Hex doc)). unfold extractDocID. rewrite E. pose proof (key_simple i) as Hs. destruct (key i) eqn:Hk; try done; [|by rewrite key_Hex].
    unfold key, oid_value in Hk |- *. cbn in Hk |- *. destruct (ObjectIDFromHex i) eqn:Ei; [done|]. injection Hk as ->. by rewrite Ei.
  - intros w d r Hc [Hf Hr]. destruct (create_deployment (now1 w) (new w) r d Hc Hf) as (r' & Hcr & Hc' & H1 & H2). rewrite Hcr. exists r', (new_id (d_ID d) (new w)), (deployment_read (deployment_id (new_id (d_ID d) (new w)) d)).
    split; [done|]. split; [done|]. split; [unfold new_id; destruct (String.eqb_spec (d_ID d) ""); auto|]. split; [|cbn; by rewrite (named_id _ Hr)].
    unfold changed; cbn. split; intros i Hi; [by rewrite (H1 i Hi)|by rewrite (H2 i Hi)].
  - intros w d d0 r Hc Hg [Hr Hu]. destruct (get_deployment r (d_ID d)) as [d1|] eqn:Eg; [|done]. injection Hg as ->.
    destruct (update_deployment (now1 w) (now2 w) r d d0 Hc Eg) as (r' & d' & res & Hup & Hc' & Hres & H1 & H2). rewrite Hup, (Hres (Hu d0 eq_refl)).
    exists r', d', (mkDeployment (d_ID d0) (d_Name d) (named (d_ConfigID d)) (d_Status d) (d_CreatedAt d0) (ms (now2 w))). split; [done|]. split; [done|].
    assert (d' = mkDeployment (d_ID d) (d_Name d) (d_ConfigID d) (d_Status d) (d_CreatedAt d) (now1 w)) as -> by (unfold Deployment_Update in Hup; cbn in Hup; destruct (update _ _ _ _ _ _ _ _); by injection Hup).
    do 3 (split; [done|]). split; [unfold changed; cbn; split; intros i Hi; [by rewrite (H1 i Hi)|by rewrite (H2 i Hi)]|]. cbn. by rewrite (named_id _ Hr).
  - intros id r Hc Hu. destruct (delete_found r id Hc Hu) as (r' & res & Hd & Hc' & -> & H1 & H2). rewrite Hd. eexists r', _. split; [reflexivity|]. split; [done|].
    unfold changed, Deployment_GetByID; cbn; unfold Deployment_GetByID. split; [split; intros i Hi; [by rewrite (H1 i Hi)|by rewrite (H2 i Hi)]|]. by destruct (find_id r id).
Qed.

(** On a server that keeps documents as documented, the deployments in a
    collection are a map: one that is created, with a new identifier that is not
    read as another, is found under it with its times in milliseconds, an update
    changes it and a deletion removes it, none touches another, and an update is
    answered as done if the time has moved on; and executions are kept as they are
    created. *)
Theorem models_kept now later new r d e d0 : closed Db r = false ->
  (free r (d_ID d) new -> exists r', let d' := deployment_id (new_id (d_ID d) new) d in Deployment_Create ObjectID Hex Sprint Db driver now new r d = (r', d', Ok tt) /\ closed Db r' = false /\
    (forall id, key id = key (d_ID d') -> get_deployment r' id = Ok (deployment_read d')) /\
    (forall id, key id <> key (d_ID d') -> get_deployment r' id = get_deployment r id)) /\
  (get_deployment r (d_ID d) = Ok d0 -> exists r' d' res, Deployment_Update ObjectID ObjectIDFromHex Db driver now later r d = (r', d', res) /\ closed Db r' = false /\
    (ms later <> d_UpdatedAt d0 -> res = Ok tt) /\
    (forall id, key id = key (d_ID d) -> get_deployment r' id = Ok (mkDeployment (d_ID d0) (d_Name d) (named (d_ConfigID d)) (d_Status d) (d_CreatedAt d0) (ms later))) /\
    (forall id, key id <> key (d_ID d) -> get_deployment r' id = get_deployment r id)) /\
  (unique r -> exists r' res, Delete ObjectID ObjectIDFromHex Db driver r (d_ID d) = (r', res) /\ (res = Ok tt <-> exists found, get_deployment r (d_ID d) = Ok found) /\
    (forall id, key id = key (d_ID d) -> get_deployment r' id = Err ErrNotFound) /\
    (forall id, key id <> key (d_ID d) -> get_deployment r' id = get_deployment r id)) /\
  (free r (e_ID e) new -> exists r', let e' := execution_id (new_id (e_ID e) new) e in Execution_Create ObjectID Hex Sprint Db driver now new r e = (r', e', Ok tt) /\ closed Db r' = false /\
    (forall id, key id = key (e_ID e') -> get_execution r' id = Ok (execution_read e')) /\
    (forall id, key id <> key (e_ID e') -> get_execution r' id = get_execution r id)).
Proof.
  intros Hc. split; [by apply create_deployment|]. split; [by apply update_deployment|]. split; [|by apply create_execution].
  intros Hnd. destruct (delete_found r (d_ID d) Hc Hnd) as (r' & res & Hd & _ & -> & H1 & H2). exists r', (match find_id r (d_ID d) with Ok _ => Ok tt | Err e => Err e end). split; [done|]. unfold Deployment_GetByID. split.
  - destruct (find_id r (d_ID d)); cbn; [split; [eauto|done]|]. split; [done|by intros []].
  - split; intros i Hk; [by rewrite (H1 i Hk)|by rewrite (H2 i Hk)].
Qed.
End Store.

(** ** The server in memory *)
Lemma memory_update d f m pre doc suf : d = pre ++ doc :: suf -> Forall (fun x => Memory.sat f x = false) pre -> Memory.sat f doc = true ->
  Memory.update d f [("$set", BDoc m)]%string = (pre ++ set_all nat Memory.stored m doc :: suf, Ok 1%Z).
Proof.
  intros -> Hpre Hs. induction Hpre as [|x pre Hx _ IH]; cbn [app Memory.update]; [by rewrite Hs|]. by rewrite Hx, IH.
Qed.
Lemma memory_remove d f pre doc suf : d = pre ++ doc :: suf -> Forall (fun x => Memory.sat f x = false) pre -> Memory.sat f doc = true -> Memory.remove d f = (pre ++ suf, Ok 1%Z).
Proof. intros -> Hpre Hs. induction Hpre as [|x pre Hx _ IH]; cbn [app Memory.remove]; [by rewrite Hs|]. by rewrite Hx, IH. Qed.
Lemma memory_remove_none d f : Forall (fun x => Memory.sat f x = false) d -> Memory.remove d f = (d, Ok 0%Z).
Proof. induction 1 as [|x d Hx _ IH]; [done|]. cbn [Memory.remove]. by rewrite Hx, IH. Qed.
Lemma same_simple v w : match v with BStr _ | BOid _ => True | _ => False end -> Memory.same v w = true <-> w = v.
Proof.
  destruct v; try done; intros _; destruct w; cbn; try (by split; [|intros [=]]).
  - rewrite String.eqb_eq. split; [by intros ->|by intros [= ->]].
  - rewrite Nat.eqb_eq. split; [by intros ->|by intros [= ->]].
Qed.
Lemma same_sym v w : Memory.same v w = Memory.same w v.
Proof. destruct v, w; cbn; auto using String.eqb_sym, Nat.eqb_sym, Z.eqb_sym. Qed.
Lemma memory_documented : Documented nat _ Memory.driver (fun d => d) Memory.answers Memory.stored.
Proof.
  split; try done.
  - intros d doc v Hv Hd Hf. exists (d ++ [Memory.store doc]). split; [|done]. cbn. unfold Memory.insert. assert (Memory.id_of doc = v) as -> by (unfold Memory.id_of; by rewrite Hd).
    assert (existsb (fun x => Memory.same (Memory.id_of x) v) d = false) as E.
    { apply not_true_iff_false. intros (x & Hx & Hs)%List.existsb_exists. rewrite Forall_forall in Hf. apply (Hf x); [by apply list_elem_of_In|].
      rewrite same_sym in Hs. apply (same_simple v _ Hv) in Hs. unfold Memory.id_of in Hs. destruct (mget "_id" x); cbn in Hs; [by rewrite Hs|by subst v]. }
    by rewrite E.
  - intros d f m pre doc suf Hd [Hp Hs]. eexists _, 1%Z. split; [by apply (memory_update d f m pre doc suf)|]. done.
  - intros d f pre doc suf Hd [Hp Hs]. eexists. split; [by apply (memory_remove d f pre doc suf)|]. done.
  - intros d f Hp. eexists. split; [by apply memory_remove_none|]. done.
  - intros doc v Hv. unfold Memory.answers. destruct (mget "_id" doc) as [w|]; [|by split; [|intros [=]]]. cbn. rewrite (same_simple v w Hv). split; [by intros ->|by intros [= ->]].
Qed.
Definition first_deployment : Deployment := mkDeployment "" "shop" None "pending" 1500000 1500000.
Lemma models_kept_witness : exists r', Deployment_GetByID nat Memory.ObjectIDFromHex Memory.Hex _ Memory.driver r' "#1#" = Ok (mkDeployment "#1#" "shop" None "pending" 1000000 1000000).
Proof.
  destruct (models_kept nat Memory.ObjectIDFromHex Memory.Hex Memory.Sprint _ Memory.driver (fun d => d) Memory.answers Memory.stored memory_documented
    Memory.read_Hex 0 0 1 (mkRepo _ false []) first_deployment (mkExecution "" "" "" None None 0 None) first_deployment eq_refl) as (H & _).
  destruct H as (r' & _ & _ & H & _); [split; [left; reflexivity|constructor]|]. exists r'. apply (H "#1#"). reflexivity.
Defined.
(** A deployment whose identifier reads as an object identifier is created and not
    found. *)
Example hidden_deployment : let d := deployment_id "##" first_deployment in
  let '(r, _, res) := Deployment_Create nat Memory.Hex Memory.Sprint _ Memory.driver 0 1 (mkRepo _ false []) d in
  res = Ok tt /\ Deployment_GetByID nat Memory.ObjectIDFromHex Memory.Hex _ Memory.driver r "##" = Err ErrNotFound.
Proof. vm_compute. split; reflexivity. Qed.
