(* ===== verification/SqlRepositories.v ===== *)
(** Deployments, configurations and executions in SQL:
    [internal/database/repository].

    The database is what it answers to a text with operands.  What the statements
    mean is in [Statement]; that the texts of the code are the statements meant is
    computed, and what an engine makes of a statement is a hypothesis of the laws. *)

From Stdlib Require Import ZArith Lia.
From stdpp Require Import base strings list.
From S2P Require Import Prelude GoStrings GoText Models.

#[local] Open Scope string_scope.
#[local] Open Scope list_scope.

(** ** Values and scanning *)
Inductive SqlVal := SNull | SText (s : string) | SInt (z : Z) | STime (t : Z).
Definition null_text (v : option string) : SqlVal := match v with Some s => SText s | None => SNull end.
Definition null_int (v : option Z) : SqlVal := match v with Some z => SInt z | None => SNull end.
Definition null_time (v : option Z) : SqlVal := match v with Some t => STime t | None => SNull end.

Section Scan.
(** [RFC3339Nano]. *)
Variable FormatTime : Z -> string.
(** Into a [string], [NullString], [NullInt32], [time.Time] and [NullTime];
    [None] is an error. *)
Definition scan_text (v : SqlVal) : option string :=
  match v with SText s => Some s | SInt z => Some (Itoa z) | STime t => Some (FormatTime t) | SNull => None end.
Definition scan_null_text (v : SqlVal) : option (option string) := match v with SNull => Some None | v => option_map Some (scan_text v) end.
Definition in_int32 (z : Z) : bool := ((- 2 ^ 31 <=? z) && (z <? 2 ^ 31))%Z.
Definition scan_null_int32 (v : SqlVal) : option (option Z) :=
  match v with
  | SNull => Some None
  | SInt z => if in_int32 z then Some (Some z) else None
  | SText s => match ParseInt s with Ok z => if in_int32 z then Some (Some z) else None | Err _ => None end
  | STime _ => None
  end.
Definition scan_time (v : SqlVal) : option Z := match v with STime t => Some t | _ => None end.
Definition scan_null_time (v : SqlVal) : option (option Z) := match v with SNull => Some None | STime t => Some (Some t) | _ => None end.

(** ** The database *)
Record Querier (Db : Type) := mkQuerier {
  ExecContext : string -> list SqlVal -> Db -> Db * result string (result string Z);             (** the inner result is [RowsAffected] *)
  QueryContext : string -> list SqlVal -> Db -> result string (list (list SqlVal) * option string);  (** the rows, and [rows.Err] *)
  QueryRowContext : string -> list SqlVal -> Db -> result (option string) (list SqlVal) }.         (** [None] is [ErrNoRows] *)
Arguments ExecContext {Db} _. Arguments QueryContext {Db} _. Arguments QueryRowContext {Db} _.
Variables (Db : Type) (db : Querier Db).
(** A new UUID, and the clock when it is read first and second. *)
Record Readings := mkReadings { uuid : string; now1 : Z; now2 : Z }.

(** A statement over several lines, as the code indents it. *)
Definition raw (l : list string) : string :=
  foldr (fun line rest => String newline (String tab (String tab (line +:+ rest)))) (String newline (String tab "")) l.
Definition given_id (w : Readings) (id : string) : string := if String.eqb id "" then uuid w else id.
Definition given_time (now t : Z) : Z := if (t =? zero_time)%Z then now else t.
Definition executed (res : Db * result string (result string Z)) : Db * result StoreError unit :=
  let '(d, r) := res in (d, match r with Ok _ => Ok tt | Err _ => Err StoreFailure end).
Definition affected (res : Db * result string (result string Z)) : Db * result StoreError unit :=
  let '(d, r) := res in (d, match r with Ok (Ok n) => if (n =? 0)%Z then Err NotFound else Ok tt | _ => Err StoreFailure end).
Definition scanned {A} (scan : list SqlVal -> option A) (res : result (option string) (list SqlVal)) : result StoreError A :=
  match res with
  | Ok row => match scan row with Some a => Ok a | None => Err StoreFailure end
  | Err None => Err NotFound
  | Err (Some _) => Err StoreFailure
  end.
Fixpoint scan_all {A} (scan : list SqlVal -> option A) (rows : list (list SqlVal)) : result StoreError (list A) :=
  match rows with
  | [] => Ok []
  | row :: rows => match scan row with None => Err StoreFailure | Some a => let? l := scan_all scan rows in Ok (a :: l) end
  end%go.
Definition listed {A} (scan : list SqlVal -> option A) (res : result string (list (list SqlVal) * option string)) : result StoreError (list A) :=
  match res with
  | Err _ => Err StoreFailure
  | Ok (rows, e) => match scan_all scan rows, e with Ok l, None => Ok l | _, _ => Err StoreFailure end
  end.

(** ** Deployments *)
Definition insert_deployment : string := raw ["INSERT INTO deployments (id, name, config_id, status, created_at, updated_at)"; "VALUES (?, ?, ?, ?, ?, ?)"].
Definition select_deployments : list string := ["SELECT id, name, config_id, status, created_at, updated_at"; "FROM deployments"].
Definition deployment_by_id : string := raw (select_deployments ++ ["WHERE id = ?"]).
Definition deployment_by_name : string := raw (select_deployments ++ ["WHERE name = ?"]).
Definition deployment_page : string := raw (select_deployments ++ ["ORDER BY created_at DESC"; "LIMIT ? OFFSET ?"]).
Definition update_deployment : string := raw ["UPDATE deployments"; "SET name = ?, config_id = ?, status = ?, updated_at = ?"; "WHERE id = ?"].
Definition delete_deployment : string := "DELETE FROM deployments WHERE id = ?".
Definition scanDeployment (row : list SqlVal) : option Deployment :=
  match row with
  | [id; name; cfg; status; created; updated] =>
      match scan_text id, scan_text name, scan_null_text cfg, scan_text status, scan_time created, scan_time updated with
      | Some id, Some name, Some cfg, Some status, Some created, Some updated => Some (mkDeployment id name cfg status created updated)
      | _, _, _, _, _, _ => None
      end
  | _ => None
  end.
Definition Deployment_Create (w : Readings) (d : Deployment) (s : Db) : Db * Deployment * result StoreError unit :=
  let d := mkDeployment (given_id w (d_ID d)) (d_Name d) (d_ConfigID d) (d_Status d) (given_time (now1 w) (d_CreatedAt d)) (given_time (now2 w) (d_UpdatedAt d)) in
  let '(s, r) := executed (ExecContext db insert_deployment [SText (d_ID d); SText (d_Name d); null_text (d_ConfigID d); SText (d_Status d); STime (d_CreatedAt d); STime (d_UpdatedAt d)] s) in
  (s, d, r).
Definition Deployment_GetByID (id : string) (s : Db) : result StoreError Deployment := scanned scanDeployment (QueryRowContext db deployment_by_id [SText id] s).
Definition Deployment_GetByName (name : string) (s : Db) : result StoreError Deployment := scanned scanDeployment (QueryRowContext db deployment_by_name [SText name] s).
Definition Deployment_List (limit offset : Z) (s : Db) : result StoreError (list Deployment) := listed scanDeployment (QueryContext db deployment_page [SInt limit; SInt offset] s).
Definition Deployment_Update (w : Readings) (d : Deployment) (s : Db) : Db * Deployment * result StoreError unit :=
  let d := mkDeployment (d_ID d) (d_Name d) (d_ConfigID d) (d_Status d) (d_CreatedAt d) (now1 w) in
  let '(s, r) := affected (ExecContext db update_deployment [SText (d_Name d); null_text (d_ConfigID d); SText (d_Status d); STime (d_UpdatedAt d); SText (d_ID d)] s) in
  (s, d, r).
Definition Deployment_Delete (id : string) (s : Db) : Db * result StoreError unit := affected (ExecContext db delete_deployment [SText id] s).

(** ** Configurations *)
Definition insert_config : string := raw ["INSERT INTO configs (id, name, content, ast_json, validation_errors, created_at)"; "VALUES (?, ?, ?, ?, ?, ?)"].
Definition select_configs : list string := ["SELECT id, name, content, ast_json, validation_errors, created_at"; "FROM configs"].
Definition config_by_id : string := raw (select_configs ++ ["WHERE id = ?"]).
Definition config_by_name : string := raw (select_configs ++ ["WHERE name = ?"]).
Definition config_page : string := raw (select_configs ++ ["ORDER BY created_at DESC"; "LIMIT ? OFFSET ?"]).
Definition update_config : string := raw ["UPDATE configs"; "SET name = ?, content = ?, ast_json = ?, validation_errors = ?"; "WHERE id = ?"].
Definition delete_config : string := "DELETE FROM configs WHERE id = ?".
(** A JSON text that is empty is stored as [NULL]. *)
Definition json_val (s : string) : SqlVal := if String.eqb s "" then SNull else SText s.
Definition scanConfig (row : list SqlVal) : option Config :=
  match row with
  | [id; name; content; ast; errs; created] =>
      match scan_text id, scan_text name, scan_text content, scan_null_text ast, scan_null_text errs, scan_time created with
      | Some id, Some name, Some content, Some ast, Some errs, Some created => Some (mkConfig id name content (default "" ast) (default "" errs) created)
      | _, _, _, _, _, _ => None
      end
  | _ => None
  end.
Definition Config_Create (w : Readings) (c : Config) (s : Db) : Db * Config * result StoreError unit :=
  let c := mkConfig (given_id w (c_ID c)) (c_Name c) (c_Content c) (c_ASTJSON c) (c_ValidationErrors c) (given_time (now1 w) (c_CreatedAt c)) in
  let '(s, r) := executed (ExecContext db insert_config [SText (c_ID c); SText (c_Name c); SText (c_Content c); json_val (c_ASTJSON c); json_val (c_ValidationErrors c); STime (c_CreatedAt c)] s) in
  (s, c, r).
Definition Config_GetByID (id : string) (s : Db) : result StoreError Config := scanned scanConfig (QueryRowContext db config_by_id [SText id] s).
Definition Config_GetByName (name : string) (s : Db) : result StoreError Config := scanned scanConfig (QueryRowContext db config_by_name [SText name] s).
Definition Config_List (limit offset : Z) (s : Db) : result StoreError (list Config) := listed scanConfig (QueryContext db config_page [SInt limit; SInt offset] s).
Definition Config_Update (w : Readings) (c : Config) (s : Db) : Db * Config * result StoreError unit :=
  let '(s, r) := affected (ExecContext db update_config [SText (c_Name c); SText (c_Content c); json_val (c_ASTJSON c); json_val (c_ValidationErrors c); SText (c_ID c)] s) in
  (s, c, r).
Definition Config_Delete (id : string) (s : Db) : Db * result StoreError unit := affected (ExecContext db delete_config [SText id] s).

(** ** Executions *)
Definition insert_execution : string :=
  raw ["INSERT INTO executions (id, deployment_id, command, output, exit_code, started_at, completed_at)"; "VALUES (?, ?, ?, ?, ?, ?, ?)"].
Definition select_executions : list string := ["SELECT id, deployment_id, command, output, exit_code, started_at, completed_at"; "FROM executions"].
Definition execution_by_id : string := raw (select_executions ++ ["WHERE id = ?"]).
Definition execution_page : string := raw (select_executions ++ ["ORDER BY started_at DESC"; "LIMIT ? OFFSET ?"]).
Definition execution_page_of : string := raw (select_executions ++ ["WHERE deployment_id = ?"; "ORDER BY started_at DESC"; "LIMIT ? OFFSET ?"]).
Definition update_execution : string := raw ["UPDATE executions"; "SET output = ?, exit_code = ?, completed_at = ?"; "WHERE id = ?"].
Definition delete_execution : string := "DELETE FROM executions WHERE id = ?".
Definition scanExecution (row : list SqlVal) : option Execution :=
  match row with
  | [id; dep; command; output; code; started; completed] =>
      match scan_text id, scan_text dep, scan_text command, scan_null_text output, scan_null_int32 code, scan_time started, scan_null_time completed with
      | Some id, Some dep, Some command, Some output, Some code, Some started, Some completed => Some (mkExecution id dep command output code started completed)
      | _, _, _, _, _, _, _ => None
      end
  | _ => None
  end.
Definition Execution_Create (w : Readings) (e : Execution) (s : Db) : Db * Execution * result StoreError unit :=
  let e := mkExecution (given_id w (e_ID e)) (e_DeploymentID e) (e_Command e) (e_Output e) (e_ExitCode e) (given_time (now1 w) (e_StartedAt e)) (e_CompletedAt e) in
  let '(s, r) := executed (ExecContext db insert_execution
    [SText (e_ID e); SText (e_DeploymentID e); SText (e_Command e); null_text (e_Output e); null_int (e_ExitCode e); STime (e_StartedAt e); null_time (e_CompletedAt e)] s) in
  (s, e, r).
Definition Execution_GetByID (id : string) (s : Db) : result StoreError Execution := scanned scanExecution (QueryRowContext db execution_by_id [SText id] s).
Definition Execution_List (limit offset : Z) (s : Db) : result StoreError (list Execution) := listed scanExecution (QueryContext db execution_page [SInt limit; SInt offset] s).
Definition Execution_ListByDeployment (deploymentID : string) (limit offset : Z) (s : Db) : result StoreError (list Execution) :=
  listed scanExecution (QueryContext db execution_page_of [SText deploymentID; SInt limit; SInt offset] s).
Definition Execution_Update (w : Readings) (e : Execution) (s : Db) : Db * Execution * result StoreError unit :=
  let '(s, r) := affected (ExecContext db update_execution [null_text (e_Output e); null_int (e_ExitCode e); null_time (e_CompletedAt e); SText (e_ID e)] s) in (s, e, r).
Definition Execution_Delete (id : string) (s : Db) : Db * result StoreError unit := affected (ExecContext db delete_execution [SText id] s).

(** ** The interfaces *)
Definition deployments : Crud Db Readings Deployment := mkCrud Deployment_Create Deployment_GetByID Deployment_List Deployment_Update Deployment_Delete.
Definition configs : Crud Db Readings Config := mkCrud Config_Create Config_GetByID Config_List Config_Update Config_Delete.
Definition executions : Crud Db Readings Execution := mkCrud Execution_Create Execution_GetByID Execution_List Execution_Update Execution_Delete.
Definition NewRepositories : Repositories Db Readings :=
  mkRepositories (mkDeploymentRepo deployments Deployment_GetByName) (mkConfigRepo configs Config_GetByName) (mkExecutionRepo executions Execution_ListByDeployment).
End Scan.
Arguments ExecContext {Db} _. Arguments QueryContext {Db} _. Arguments QueryRowContext {Db} _.
Arguments insert_deployment : simpl never. Arguments deployment_by_id : simpl never. Arguments deployment_by_name : simpl never. Arguments deployment_page : simpl never. Arguments update_deployment : simpl never. Arguments delete_deployment : simpl never.
Arguments insert_config : simpl never. Arguments config_by_id : simpl never. Arguments config_by_name : simpl never. Arguments config_page : simpl never. Arguments update_config : simpl never. Arguments delete_config : simpl never.
Arguments insert_execution : simpl never. Arguments execution_by_id : simpl never. Arguments execution_page : simpl never. Arguments execution_page_of : simpl never. Arguments update_execution : simpl never. Arguments delete_execution : simpl never.

(** * What the statements mean *)
Inductive Statement :=
| Insert (table : string) (cols : list string)
| SelectBy (cols : list string) (table col : string)
| SelectPage (cols : list string) (table : string) (col : option string) (order : string)
| UpdateById (table : string) (cols : list string)
| DeleteById (table : string).
Definition render (st : Statement) : string :=
  match st with
  | Insert table cols => "INSERT INTO " +:+ table +:+ " (" +:+ Join cols ", " +:+ ") VALUES (" +:+ Join (map (fun _ => "?") cols) ", " +:+ ")"
  | SelectBy cols table col => "SELECT " +:+ Join cols ", " +:+ " FROM " +:+ table +:+ " WHERE " +:+ col +:+ " = ?"
  | SelectPage cols table col order =>
      "SELECT " +:+ Join cols ", " +:+ " FROM " +:+ table +:+ match col with Some c => " WHERE " +:+ c +:+ " = ?" | None => "" end +:+ " ORDER BY " +:+ order +:+ " DESC LIMIT ? OFFSET ?"
  | UpdateById table cols => "UPDATE " +:+ table +:+ " SET " +:+ Join (map (fun c => c +:+ " = ?") cols) ", " +:+ " WHERE id = ?"
  | DeleteById table => "DELETE FROM " +:+ table +:+ " WHERE id = ?"
  end.
Definition deployment_cols : list string := ["id"; "name"; "config_id"; "status"; "created_at"; "updated_at"].
Definition config_cols : list string := ["id"; "name"; "content"; "ast_json"; "validation_errors"; "created_at"].
Definition execution_cols : list string := ["id"; "deployment_id"; "command"; "output"; "exit_code"; "started_at"; "completed_at"].
Definition deployment_ucols : list string := ["name"; "config_id"; "status"; "updated_at"].
Definition config_ucols : list string := ["name"; "content"; "ast_json"; "validation_errors"].
Definition execution_ucols : list string := ["output"; "exit_code"; "completed_at"].
(** The statements that the repositories use; a text is one of them if it differs
    from it only in white space. *)
Definition statements : list Statement :=
  [Insert "deployments" deployment_cols; SelectBy deployment_cols "deployments" "id"; SelectBy deployment_cols "deployments" "name";
   SelectPage deployment_cols "deployments" None "created_at"; UpdateById "deployments" deployment_ucols; DeleteById "deployments";
   Insert "configs" config_cols; SelectBy config_cols "configs" "id"; SelectBy config_cols "configs" "name"; SelectPage config_cols "configs" None "created_at";
   UpdateById "configs" config_ucols; DeleteById "configs";
   Insert "executions" execution_cols; SelectBy execution_cols "executions" "id"; SelectPage execution_cols "executions" None "started_at";
   SelectPage execution_cols "executions" (Some "deployment_id") "started_at"; UpdateById "executions" execution_ucols; DeleteById "executions"].
#[export] Instance statement_eq_dec : EqDecision Statement.
Proof. solve_decision. Defined.
Definition is_statement (sql : string) (st : Statement) : Prop := st ∈ statements /\ Words sql = Words (render st).
Ltac known := split; [by apply (bool_decide_unpack _); vm_compute|vm_compute; reflexivity].
Lemma texts_deployments :
  is_statement insert_deployment (Insert "deployments" deployment_cols) /\ is_statement deployment_by_id (SelectBy deployment_cols "deployments" "id") /\
  is_statement deployment_by_name (SelectBy deployment_cols "deployments" "name") /\ is_statement deployment_page (SelectPage deployment_cols "deployments" None "created_at") /\
  is_statement update_deployment (UpdateById "deployments" deployment_ucols) /\ is_statement delete_deployment (DeleteById "deployments").
Proof. split_and!; known. Qed.
Lemma texts_configs :
  is_statement insert_config (Insert "configs" config_cols) /\ is_statement config_by_id (SelectBy config_cols "configs" "id") /\
  is_statement config_by_name (SelectBy config_cols "configs" "name") /\ is_statement config_page (SelectPage config_cols "configs" None "created_at") /\
  is_statement update_config (UpdateById "configs" config_ucols) /\ is_statement delete_config (DeleteById "configs").
Proof. split_and!; known. Qed.
Lemma texts_executions :
  is_statement insert_execution (Insert "executions" execution_cols) /\ is_statement execution_by_id (SelectBy execution_cols "executions" "id") /\
  is_statement execution_page (SelectPage execution_cols "executions" None "started_at") /\
  is_statement execution_page_of (SelectPage execution_cols "executions" (Some "deployment_id") "started_at") /\
  is_statement update_execution (UpdateById "executions" execution_ucols) /\ is_statement delete_execution (DeleteById "executions").
Proof. split_and!; known. Qed.

(** ** Rows *)
Definition Row : Type := list (string * SqlVal).
Fixpoint cell (c : string) (r : Row) : SqlVal :=
  match r with [] => SNull | (c', v) :: r => if String.eqb c c' then v else cell c r end.
Fixpoint put_cell (c : string) (v : SqlVal) (r : Row) : Row :=
  match r with [] => [(c, v)] | (c', w) :: r => if String.eqb c c' then (c', v) :: r else (c', w) :: put_cell c v r end.
Definition put_cells (cs : Row) (r : Row) : Row := foldl (fun r e => put_cell e.1 e.2 r) r cs.
Definition project (cols : list string) (r : Row) : list SqlVal := map (fun c => cell c r) cols.
(** [col = ?]: nothing is equal to [NULL]. *)
Definition cell_is (c : string) (v : SqlVal) (r : Row) : bool :=
  match cell c r, v with SText s, SText t => String.eqb s t | SInt x, SInt y => (x =? y)%Z | STime x, STime y => (x =? y)%Z | _, _ => false end.
Lemma cell_put c c' v r : cell c (put_cell c' v r) = if String.eqb c c' then v else cell c r.
Proof.
  induction r as [|[c0 w] r IH]; cbn; [done|]. destruct (String.eqb_spec c' c0) as [->|Hne]; cbn; destruct (String.eqb_spec c c0) as [->|]; try done.
  by destruct (String.eqb_spec c0 c') as [->|].
Qed.

(** ** An engine *)
(** What the documentation of an engine that takes question marks for operands says:
    tables are lists of rows, a statement is carried out or refused, the identifiers
    of a table are texts that differ, and times may be kept less precisely. *)
Section Engine.
Context (FormatTime : Z -> string) (Db : Type) (db : Querier Db) (rows : Db -> string -> list Row) (keep : Z -> Z).
Definition stored (v : SqlVal) : SqlVal := match v with STime t => STime (keep t) | v => v end.
Definition has_id (id : string) : Row -> bool := cell_is "id" (SText id).
Record Documented : Prop := {
  l_insert sql table cols args d d' n : is_statement sql (Insert table cols) -> length args = length cols -> ExecContext db sql args d = (d', Ok n) ->
    rows d' table = rows d table ++ [zip cols (map stored args)];
  l_update sql table cols args id d d' n : is_statement sql (UpdateById table cols) -> length args = length cols -> ExecContext db sql (args ++ [SText id]) d = (d', Ok n) ->
    rows d' table = map (fun r => if has_id id r then put_cells (zip cols (map stored args)) r else r) (rows d table) /\
    n = Ok (Z.of_nat (length (List.filter (has_id id) (rows d table))));
  l_delete sql table id d d' n : is_statement sql (DeleteById table) -> ExecContext db sql [SText id] d = (d', Ok n) ->
    rows d' table = List.filter (fun r => negb (has_id id r)) (rows d table) /\ n = Ok (Z.of_nat (length (List.filter (has_id id) (rows d table))));
  l_select sql cols table col v d : is_statement sql (SelectBy cols table col) ->
    QueryRowContext db sql [v] d = match List.find (cell_is col v) (rows d table) with Some r => Ok (project cols r) | None => Err None end;
  l_key d table : NoDup (map (cell "id") (rows d table)) }.
Hypothesis Hdoc : Documented.

(** *** One table *)
Section Table.
Context {A : Type} `{Model A} (table : string) (cols ucols : list string) (scan : list SqlVal -> option A).
Context (insert by_id update delete : string).
Context (Hins : is_statement insert (Insert table cols)) (Hsel : is_statement by_id (SelectBy cols table "id"))
  (Hupd : is_statement update (UpdateById table ucols)) (Hdel : is_statement delete (DeleteById table)).
Local Abbreviation get id s := (scanned scan (QueryRowContext db by_id [SText id] s)).
(** Every row reads as a model. *)
Definition readable (r : Row) : Prop := exists a, scan (project cols r) = Some a /\ cell "id" r = SText (ident a).
Definition table_ok (s : Db) : Prop := Forall readable (rows s table).
Definition found (id : string) (s : Db) : option Row := List.find (has_id id) (rows s table).

Lemma get_eq id s : get id s = match found id s with Some r => match scan (project cols r) with Some a => Ok a | None => Err StoreFailure end | None => Err NotFound end.
Proof. rewrite (l_select Hdoc _ _ _ _ _ _ Hsel). unfold found, has_id, scanned. by destruct (List.find _ _). Qed.
Lemma has_id_spec id r : has_id id r = true <-> cell "id" r = SText id.
Proof. unfold has_id, cell_is. destruct (cell "id" r); try (by split). rewrite String.eqb_eq. split; [by intros ->|by intros [= ->]]. Qed.
Lemma found_In id s r : found id s = Some r -> r ∈ rows s table /\ cell "id" r = SText id.
Proof. intros [H1 H2]%List.find_some. by rewrite <- has_id_spec, list_elem_of_In. Qed.
Lemma get_readable id s : table_ok s -> get id s = match found id s with Some r => match scan (project cols r) with Some a => Ok a | None => Err NotFound end | None => Err NotFound end.
Proof.
  intros Hok. rewrite get_eq. destruct (found id s) as [r|] eqn:E; [|done]. apply found_In in E as [E _]. unfold table_ok in Hok. rewrite Forall_forall in Hok. destruct (Hok r E) as (a & -> & _). done.
Qed.
Lemma get_found id s a : table_ok s -> get id s = Ok a -> exists r, found id s = Some r /\ scan (project cols r) = Some a /\ ident a = id.
Proof.
  intros Hok. rewrite get_eq. destruct (found id s) as [r|] eqn:E; [|done]. destruct (scan _) as [a'|] eqn:Hs; [|done]. intros [= ->]. exists r. split; [done|]. split; [done|].
  apply found_In in E as [E Hid]. unfold table_ok in Hok. rewrite Forall_forall in Hok. destruct (Hok r E) as (a' & Ha & Hi). rewrite Hs in Ha. injection Ha as <-. rewrite Hid in Hi. by injection Hi.
Qed.
Lemma same_row s r1 r2 : r1 ∈ rows s table -> r2 ∈ rows s table -> cell "id" r1 = cell "id" r2 -> r1 = r2.
Proof.
  pose proof (l_key Hdoc s table) as Hnd. revert Hnd. induction (rows s table) as [|r l IH]; cbn; [by intros _ ?%elem_of_nil|]. intros [Hr Hnd]%NoDup_cons.
  intros [->|H1]%elem_of_cons [->|H2]%elem_of_cons He; [done| | |by apply IH]; exfalso; apply Hr; [rewrite He|rewrite <- He]; by apply list_elem_of_In, in_map, list_elem_of_In.
Qed.
Lemma find_map_same (f : Row -> Row) i l : (forall r, cell "id" (f r) = cell "id" r) -> List.find (has_id i) (map f l) = option_map f (List.find (has_id i) l).
Proof. intros Hf. induction l as [|r l IH]; cbn; [done|]. assert (has_id i (f r) = has_id i r) as -> by (unfold has_id, cell_is; by rewrite Hf). by destruct (has_id i r). Qed.
Lemma filter_no_row {B} (p : B -> bool) l : (forall x, In x l -> p x = false) -> List.filter p l = [].
Proof. induction l as [|x l IH]; cbn; [done|]. intros Hn. rewrite (Hn x) by (by left). apply IH. intros y Hy. apply Hn. by right. Qed.
Lemma inserted args s s' n row a : table_ok s -> ExecContext db insert args s = (s', Ok n) -> length args = length cols -> row = zip cols (map stored args) ->
  scan (project cols row) = Some a -> cell "id" row = SText (ident a) ->
  table_ok s' /\ get (ident a) s' = Ok a /\ forall i, i <> ident a -> get i s' = get i s.
Proof.
  intros Hok He Hl -> Hs Hid. pose proof (l_insert Hdoc _ _ _ _ _ _ _ Hins Hl He) as Hr. set (row := zip cols (map stored args)) in *.
  assert (found (ident a) s = None) as Hfree.
  { destruct (found (ident a) s) as [r|] eqn:E; [|done]. apply found_In in E as [E Hc]. pose proof (l_key Hdoc s' table) as Hnd. rewrite Hr, map_app in Hnd.
    apply NoDup_app in Hnd as (_ & Hnd & _). exfalso. apply (Hnd (cell "id" row)); [|by left]. rewrite Hid, <- Hc. by apply list_elem_of_In, in_map, list_elem_of_In. }
  assert (forall i, found i s' = match found i s with Some r => Some r | None => if has_id i row then Some row else None end) as Hf.
  { intros i. unfold found. rewrite Hr. clear. induction (rows s table) as [|r l IH]; cbn; [done|]. by destruct (has_id i r). }
  split; [unfold table_ok; rewrite Hr; apply Forall_app; split; [done|]; constructor; [by exists a|constructor]|]. split.
  - rewrite get_eq, Hf, Hfree, (proj2 (has_id_spec _ _) Hid). by rewrite Hs.
  - intros i Hi. rewrite !get_eq, Hf. destruct (found i s); [done|]. destruct (has_id i row) eqn:E; [|done]. apply has_id_spec in E. rewrite Hid in E. by injection E.
Qed.
Lemma replaced id args s s' n a0 a : table_ok s -> get id s = Ok a0 -> length args = length ucols -> ExecContext db update (args ++ [SText id]) s = (s', Ok n) ->
  let put r := put_cells (zip ucols (map stored args)) r in
  (forall r, cell "id" (put r) = cell "id" r) -> (forall r, scan (project cols r) = Some a0 -> scan (project cols (put r)) = Some a) -> ident a = ident a0 ->
  (exists z, n = Ok z /\ z <> 0%Z) /\ table_ok s' /\ get id s' = Ok a /\ forall i, i <> id -> get i s' = get i s.
Proof.
  intros Hok Hg Hl He put Hput Hscan Hid. destruct (l_update Hdoc _ _ _ _ _ _ _ _ Hupd Hl He) as [Hr0 ->].
  destruct (get_found _ _ _ Hok Hg) as (r0 & Hf & Hs0 & Hi0). pose proof (found_In _ _ _ Hf) as [Hin Hc].
  set (f := fun r => if has_id id r then put r else r). assert (rows s' table = map f (rows s table)) as Hr by exact Hr0. clear Hr0. assert (forall r, cell "id" (f r) = cell "id" r) as Hcf by (intros r; unfold f; by destruct (has_id id r)).
  assert (forall i, found i s' = option_map f (found i s)) as Hff by (intros i; unfold found; rewrite Hr; by apply find_map_same).
  assert (forall r, r ∈ rows s table -> has_id id r = true -> r = r0) as Honly by (intros r H1 H2%has_id_spec; apply (same_row s); [done|done|congruence]).
  split; [eexists; split; [done|]|split; [|split]].
  - assert (r0 ∈ List.filter (has_id id) (rows s table)) as Hm by (apply list_elem_of_In, List.filter_In; split; [by apply list_elem_of_In|by apply has_id_spec]).
    destruct (List.filter _ _); [by apply elem_of_nil in Hm|cbn; lia].
  - unfold table_ok in *. rewrite Hr, Forall_map. rewrite Forall_forall in *. intros r Hr'. unfold f. destruct (has_id id r) eqn:E; [|by apply Hok].
    rewrite (Honly r Hr' E). exists a. rewrite (Hscan r0 Hs0), Hput, Hc. split; [done|]. congruence.
  - rewrite get_eq, Hff, Hf. cbn [option_map]. unfold f. by rewrite (proj2 (has_id_spec _ _) Hc), (Hscan r0 Hs0).
  - intros i Hi. rewrite !get_eq, Hff. destruct (found i s) as [r|] eqn:E; [|done]. cbn [option_map]. unfold f. destruct (has_id id r) eqn:E'; [|done].
    apply found_In in E as [_ E]. apply has_id_spec in E'. congruence.
Qed.
Lemma removed id s s' n : table_ok s -> ExecContext db delete [SText id] s = (s', Ok n) ->
  n = Ok (match get id s with Ok _ => 1 | Err _ => 0 end)%Z /\ table_ok s' /\ get id s' = Err NotFound /\ forall i, i <> id -> get i s' = get i s.
Proof.
  intros Hok He. destruct (l_delete Hdoc _ _ _ _ _ _ Hdel He) as [Hr ->].
  assert (forall i, i <> id -> found i s' = found i s) as Hother.
  { intros i Hi. unfold found. rewrite Hr. clear -Hi Hdoc. induction (rows s table) as [|r l IH]; cbn; [done|]. destruct (has_id id r) eqn:E; cbn; rewrite IH; [|done].
    assert (has_id i r = false) as ->; [|done]. apply not_true_iff_false. intros E'. apply has_id_spec in E, E'. congruence. }
  assert (found id s' = None) as Hgone by (unfold found; rewrite Hr; clear; induction (rows s table) as [|r l IH]; cbn; [done|]; destruct (has_id id r) eqn:E; cbn; rewrite ?E; done).
  split; [|split; [|split]].
  - rewrite (get_readable _ _ Hok). destruct (found id s) as [r|] eqn:E.
    + pose proof (found_In _ _ _ E) as [Hin Hc]. pose proof Hok as Hok'. unfold table_ok in Hok'. rewrite Forall_forall in Hok'. destruct (Hok' r Hin) as (a & -> & _). do 2 f_equal.
      pose proof (l_key Hdoc s table) as Hnd. apply list_elem_of_split in Hin as (l1 & l2 & Hl). rewrite Hl in Hnd |- *. rewrite List.filter_app, map_app in *. cbn in *. rewrite (proj2 (has_id_spec _ _) Hc).
      apply NoDup_app in Hnd as (_ & H1 & H2). apply NoDup_cons in H2 as [H2 _].
      rewrite (filter_no_row (has_id id) l1), (filter_no_row (has_id id) l2); [done| |]; intros x Hx; apply not_true_iff_false; intros Hxi; apply has_id_spec in Hxi.
      * apply H2. rewrite Hc, <- Hxi. by apply list_elem_of_In, in_map.
      * apply (H1 (cell "id" x)); [by apply list_elem_of_In, in_map|rewrite Hxi, Hc; by left].
    + assert (List.filter (has_id id) (rows s table) = []) as ->; [|done]. apply filter_no_row. intros x Hx. apply (List.find_none _ _ E x Hx).
  - unfold table_ok in *. rewrite Hr. rewrite Forall_forall in *. intros r Hr'. apply Hok. apply list_elem_of_In, List.filter_In in Hr' as [Hr' _]. by apply list_elem_of_In.
  - by rewrite get_eq, Hgone.
  - intros i Hi. by rewrite !get_eq, Hother.
Qed.
End Table.
(** ** The repositories keep their promises *)
Definition accepted (res : Db * result string (result string Z)) : Prop := exists d n, res = (d, Ok n).
Local Abbreviation deployments := (deployments FormatTime Db db).
Local Abbreviation configs := (configs FormatTime Db db).
Local Abbreviation executions := (executions FormatTime Db db).
Definition given_json (s : string) : option string := if String.eqb s "" then None else Some s.
Definition int32_code (e : Execution) : Prop := match e_ExitCode e with Some z => in_int32 z = true | None => True end.

#[export] Instance deployments_spec : StoreSpec deployments := {|
  wf := table_ok "deployments" deployment_cols (scanDeployment FormatTime); same := eq; missing := NotFound; keep_time := keep;
  can_create w d s := d_CreatedAt d <> zero_time /\ d_UpdatedAt d <> zero_time /\
    accepted (ExecContext db insert_deployment [SText (given_id w (d_ID d)); SText (d_Name d); null_text (d_ConfigID d); SText (d_Status d); STime (d_CreatedAt d); STime (d_UpdatedAt d)] s);
  can_update w d s := accepted (ExecContext db update_deployment [SText (d_Name d); null_text (d_ConfigID d); SText (d_Status d); STime (now1 w); SText (d_ID d)] s);
  can_delete id s := accepted (ExecContext db delete_deployment [SText id] s) |}.
#[export] Instance configs_spec : StoreSpec configs := {|
  wf := table_ok "configs" config_cols (scanConfig FormatTime); same := eq; missing := NotFound; keep_time := keep;
  can_create w c s := c_CreatedAt c <> zero_time /\
    accepted (ExecContext db insert_config [SText (given_id w (c_ID c)); SText (c_Name c); SText (c_Content c); json_val (c_ASTJSON c); json_val (c_ValidationErrors c); STime (c_CreatedAt c)] s);
  can_update w c s := accepted (ExecContext db update_config [SText (c_Name c); SText (c_Content c); json_val (c_ASTJSON c); json_val (c_ValidationErrors c); SText (c_ID c)] s);
  can_delete id s := accepted (ExecContext db delete_config [SText id] s) |}.
#[export] Instance executions_spec : StoreSpec executions := {|
  wf := table_ok "executions" execution_cols (scanExecution FormatTime); same := eq; missing := NotFound; keep_time := keep;
  can_create w e s := e_StartedAt e <> zero_time /\ int32_code e /\
    accepted (ExecContext db insert_execution
      [SText (given_id w (e_ID e)); SText (e_DeploymentID e); SText (e_Command e); null_text (e_Output e); null_int (e_ExitCode e); STime (e_StartedAt e); null_time (e_CompletedAt e)] s);
  can_update w e s := int32_code e /\ (forall e0, GetByID executions (e_ID e) s = Ok e0 -> e_DeploymentID e = e_DeploymentID e0 /\ e_Command e = e_Command e0) /\
    accepted (ExecContext db update_execution [null_text (e_Output e); null_int (e_ExitCode e); null_time (e_CompletedAt e); SText (e_ID e)] s);
  can_delete id s := accepted (ExecContext db delete_execution [SText id] s) |}.

Lemma given_time_id now t : t <> zero_time -> given_time now t = t.
Proof. unfold given_time. by destruct (Z.eqb_spec t zero_time). Qed.
Lemma given_id_cases w id : id = "" \/ given_id w id = id.
Proof. unfold given_id. destruct (String.eqb_spec id ""); auto. Qed.

(** What is the same for the three. *)
Section Laws.
Context {A} `{Model A} (table : string) (cols : list string) (scan : list SqlVal -> option A) (by_id delete : string).
Context (Hsel : is_statement by_id (SelectBy cols table "id")) (Hdel : is_statement delete (DeleteById table)).
Local Abbreviation get id s := (scanned scan (QueryRowContext db by_id [SText id] s)).
Lemma deleted id s : table_ok table cols scan s -> accepted (ExecContext db delete [SText id] s) ->
  exists s' res, affected Db (ExecContext db delete [SText id] s) = (s', res) /\ table_ok table cols scan s' /\
    ((forall i, i = id -> get i s' = Err NotFound) /\ (forall i, i <> id -> get i s' = get i s)) /\ res = match get id s with Ok _ => Ok tt | Err e => Err e end.
Proof.
  intros Hok (s' & n & He). destruct (removed table cols scan by_id delete Hsel Hdel id s s' n Hok He) as (-> & Hok' & Hg & Ho). rewrite He. eexists s', _. split; [reflexivity|]. split; [done|].
  split; [split; [by intros i ->|done]|]. rewrite (get_readable table cols scan by_id Hsel id s Hok). destruct (found table id s) as [r|]; [|done]. by destruct (scan _).
Qed.
Lemma gotten i s a : table_ok table cols scan s -> get i s = Ok a -> i = ident a.
Proof. intros Hok Hg. destruct (get_found table cols scan by_id Hsel i s a Hok Hg) as (_ & _ & _ & Hi). done. Qed.
End Laws.

#[export] Instance deployments_laws : StoreLaws deployments.
Proof.
  pose proof texts_deployments as (Hi & Hs & _ & _ & Hu & Hd). split; cbn; try exact _.
  - by intros s i j ->.
  - intros s i a. exact (gotten "deployments" deployment_cols (scanDeployment FormatTime) _ Hs i s a).
  - intros w d s Hok (Hc & Hup & s' & n & He). set (id := given_id w (d_ID d)) in *. unfold Deployment_Create. rewrite !given_time_id by done. cbn. fold id. rewrite He. cbn.
    exists s', id, (mkDeployment id (d_Name d) (d_ConfigID d) (d_Status d) (keep (d_CreatedAt d)) (keep (d_UpdatedAt d))). split; [done|].
    destruct (inserted "deployments" deployment_cols (scanDeployment FormatTime) _ _ Hi Hs _ s s' n _ (mkDeployment id (d_Name d) (d_ConfigID d) (d_Status d) (keep (d_CreatedAt d)) (keep (d_UpdatedAt d))) Hok He eq_refl eq_refl)
      as (Hok' & Hg & Ho); [by destruct (d_ConfigID d)|done|]. split; [done|]. split; [apply given_id_cases|]. split; [split; [by intros i ->|done]|done].
  - intros w d d0 s Hok Hg (s' & n & He). unfold Deployment_Update. cbn. rewrite He.
    destruct (replaced "deployments" deployment_cols deployment_ucols (scanDeployment FormatTime) _ _ Hs Hu (d_ID d) [SText (d_Name d); null_text (d_ConfigID d); SText (d_Status d); STime (now1 w)]
      s s' n d0 (mkDeployment (d_ID d0) (d_Name d) (d_ConfigID d) (d_Status d) (d_CreatedAt d0) (keep (now1 w))) Hok Hg eq_refl He) as ((z & -> & Hz) & Hok' & Hg' & Ho); [| |done|].
    + intros r. cbn. by rewrite !cell_put.
    + intros r. cbn. rewrite !cell_put. cbn. destruct (scan_text FormatTime (cell "id" r)), (scan_text FormatTime (cell "name" r)), (scan_null_text FormatTime (cell "config_id" r)), (scan_text FormatTime (cell "status" r)), (scan_time (cell "created_at" r)), (scan_time (cell "updated_at" r)); try done.
      intros [= <-]. by destruct (d_ConfigID d).
    + cbn. rewrite (proj2 (Z.eqb_neq z 0) Hz). eexists s', _, _. split; [done|]. split; [done|]. do 3 (split; [done|]). split; [split; [by intros i ->|done]|done].
  - intros id s. exact (deleted "deployments" deployment_cols (scanDeployment FormatTime) _ _ Hs Hd id s).
Qed.
Lemma json_cell s : scan_null_text FormatTime (stored (json_val s)) = Some (given_json s).
Proof. unfold json_val, given_json. by destruct (String.eqb_spec s "") as [->|]. Qed.
Lemma given_json_default s : default "" (given_json s) = s.
Proof. unfold given_json. by destruct (String.eqb_spec s "") as [->|]. Qed.
#[export] Instance configs_laws : StoreLaws configs.
Proof.
  pose proof texts_configs as (Hi & Hs & _ & _ & Hu & Hd). split; cbn; try exact _.
  - by intros s i j ->.
  - intros s i a. exact (gotten "configs" config_cols (scanConfig FormatTime) _ Hs i s a).
  - intros w c s Hok (Hc & s' & n & He). set (id := given_id w (c_ID c)) in *. unfold Config_Create. rewrite !given_time_id by done. cbn. fold id. rewrite He. cbn.
    exists s', id, (mkConfig id (c_Name c) (c_Content c) (c_ASTJSON c) (c_ValidationErrors c) (keep (c_CreatedAt c))). split; [done|].
    destruct (inserted "configs" config_cols (scanConfig FormatTime) _ _ Hi Hs _ s s' n _ (mkConfig id (c_Name c) (c_Content c) (c_ASTJSON c) (c_ValidationErrors c) (keep (c_CreatedAt c))) Hok He eq_refl eq_refl)
      as (Hok' & Hg & Ho); [cbn; by rewrite !json_cell, !given_json_default|done|]. split; [done|]. split; [apply given_id_cases|]. split; [split; [by intros i ->|done]|done].
  - intros w c c0 s Hok Hg (s' & n & He). unfold Config_Update. cbn. rewrite He.
    destruct (replaced "configs" config_cols config_ucols (scanConfig FormatTime) _ _ Hs Hu (c_ID c) [SText (c_Name c); SText (c_Content c); json_val (c_ASTJSON c); json_val (c_ValidationErrors c)]
      s s' n c0 (mkConfig (c_ID c0) (c_Name c) (c_Content c) (c_ASTJSON c) (c_ValidationErrors c) (c_CreatedAt c0)) Hok Hg eq_refl He) as ((z & -> & Hz) & Hok' & Hg' & Ho); [| |done|].
    + intros r. cbn. by rewrite !cell_put.
    + intros r. cbn. rewrite !cell_put. cbn. rewrite !json_cell, !given_json_default.
      destruct (scan_text FormatTime (cell "id" r)), (scan_text FormatTime (cell "name" r)), (scan_text FormatTime (cell "content" r)), (scan_null_text FormatTime (cell "ast_json" r)),
        (scan_null_text FormatTime (cell "validation_errors" r)), (scan_time (cell "created_at" r)); try done. by intros [= <-].
    + cbn. rewrite (proj2 (Z.eqb_neq z 0) Hz). eexists s', _, _. split; [done|]. split; [done|]. do 3 (split; [done|]). split; [split; [by intros i ->|done]|done].
  - intros id s. exact (deleted "configs" config_cols (scanConfig FormatTime) _ _ Hs Hd id s).
Qed.
Lemma code_cell e : int32_code e -> scan_null_int32 (stored (null_int (e_ExitCode e))) = Some (e_ExitCode e).
Proof. unfold int32_code. destruct (e_ExitCode e); cbn; [by intros ->|done]. Qed.
#[export] Instance executions_laws : StoreLaws executions.
Proof.
  pose proof texts_executions as (Hi & Hs & _ & _ & Hu & Hd). split; cbn; try exact _.
  - by intros s i j ->.
  - intros s i a. exact (gotten "executions" execution_cols (scanExecution FormatTime) _ Hs i s a).
  - intros w e s Hok (Hc & Hcode & s' & n & He). set (id := given_id w (e_ID e)) in *. unfold Execution_Create. rewrite !given_time_id by done. cbn. fold id. rewrite He. cbn.
    set (e' := mkExecution id (e_DeploymentID e) (e_Command e) (e_Output e) (e_ExitCode e) (keep (e_StartedAt e)) (option_map keep (e_CompletedAt e))). exists s', id, e'. split; [done|].
    destruct (inserted "executions" execution_cols (scanExecution FormatTime) _ _ Hi Hs _ s s' n _ e' Hok He eq_refl eq_refl)
      as (Hok' & Hg & Ho); [cbn; rewrite (code_cell e Hcode); by destruct (e_Output e), (e_CompletedAt e)|done|]. split; [done|]. split; [apply given_id_cases|]. split; [split; [by intros i ->|done]|done].
  - intros w e e0 s Hok Hg (Hcode & Hsame & s' & n & He). unfold Execution_Update. cbn. rewrite He. destruct (Hsame e0 Hg) as [Hdep Hcom].
    destruct (replaced "executions" execution_cols execution_ucols (scanExecution FormatTime) _ _ Hs Hu (e_ID e) [null_text (e_Output e); null_int (e_ExitCode e); null_time (e_CompletedAt e)]
      s s' n e0 (mkExecution (e_ID e0) (e_DeploymentID e0) (e_Command e0) (e_Output e) (e_ExitCode e) (e_StartedAt e0) (option_map keep (e_CompletedAt e))) Hok Hg eq_refl He) as ((z & -> & Hz) & Hok' & Hg' & Ho); [| |done|].
    + intros r. cbn. by rewrite !cell_put.
    + intros r. cbn. rewrite !cell_put. cbn. rewrite (code_cell e Hcode).
      destruct (scan_text FormatTime (cell "id" r)), (scan_text FormatTime (cell "deployment_id" r)), (scan_text FormatTime (cell "command" r)), (scan_null_text FormatTime (cell "output" r)),
        (scan_null_int32 (cell "exit_code" r)), (scan_time (cell "started_at" r)), (scan_null_time (cell "completed_at" r)); try done. intros [= <-]. by destruct (e_Output e), (e_CompletedAt e).
    + cbn. rewrite (proj2 (Z.eqb_neq z 0) Hz). eexists s', _, _. split; [done|]. split; [done|]. do 3 (split; [done|]). split; [split; [by intros i ->|done]|]. cbn. by rewrite Hdep, Hcom.
  - intros id s. exact (deleted "executions" execution_cols (scanExecution FormatTime) _ _ Hs Hd id s).
Qed.
End Engine.

(** * An engine in memory *)
(** Three lists of rows; a statement that would break a key is refused, and times
    are kept in microseconds. *)
Module Engine.
Record Tables := mkTables { t_deployments : list Row; t_configs : list Row; t_executions : list Row }.
Definition table_rows (t : Tables) (table : string) : list Row :=
  if String.eqb table "deployments" then t_deployments t else if String.eqb table "configs" then t_configs t
  else if String.eqb table "executions" then t_executions t else [].
Definition set_rows (table : string) (l : list Row) (t : Tables) : Tables :=
  if String.eqb table "deployments" then mkTables l (t_configs t) (t_executions t) else if String.eqb table "configs" then mkTables (t_deployments t) l (t_executions t)
  else mkTables (t_deployments t) (t_configs t) l.
Definition keyed (l : list Row) : bool := bool_decide (NoDup (map (fun r => match cell "id" r with SText s => Some s | _ => None end) l)).
Definition valid (t : Tables) : bool := keyed (t_deployments t) && keyed (t_configs t) && keyed (t_executions t).
Record Db := mkDb { tables : Tables; is_valid : valid tables = true }.
Definition empty : Db := mkDb (mkTables [] [] []) (eq_refl true <: valid (mkTables [] [] []) = true).
Definition rows (d : Db) : string -> list Row := table_rows (tables d).
Definition keep (t : Z) : Z := (t / 1000 * 1000)%Z.
Definition stmt (sql : string) : option Statement := let ws := Words sql in List.find (fun st => bool_decide (ws = Words (render st))) statements.
Definition commit (t : Tables) (n : nat) (d : Db) : Db * result string (result string Z) :=
  match bool_dec (valid t) true with left p => (mkDb t p, Ok (Ok (Z.of_nat n))) | right _ => (d, Err "constraint") end.
Definition exec (sql : string) (args : list SqlVal) (d : Db) : Db * result string (result string Z) :=
  match stmt sql with
  | Some (Insert table cols) => commit (set_rows table (rows d table ++ [zip cols (map (stored keep) args)]) (tables d)) 1 d
  | Some (UpdateById table cols) =>
      match last args with
      | Some (SText id) =>
          commit (set_rows table (map (fun r => if has_id id r then put_cells (zip cols (map (stored keep) (removelast args))) r else r) (rows d table)) (tables d))
            (length (List.filter (has_id id) (rows d table))) d
      | _ => (d, Err "no identifier")
      end
  | Some (DeleteById table) =>
      match args with
      | [SText id] => commit (set_rows table (List.filter (fun r => negb (has_id id r)) (rows d table)) (tables d)) (length (List.filter (has_id id) (rows d table))) d
      | _ => (d, Err "no identifier")
      end
  | _ => (d, Err "not a statement")
  end.
Definition query_row (sql : string) (args : list SqlVal) (d : Db) : result (option string) (list SqlVal) :=
  match stmt sql, args with
  | Some (SelectBy cols table col), [v] => match List.find (cell_is col v) (rows d table) with Some r => Ok (project cols r) | None => Err None end
  | _, _ => Err (Some "not a query")
  end.
(** Pages are not ordered here. *)
Definition query (sql : string) (args : list SqlVal) (d : Db) : result string (list (list SqlVal) * option string) :=
  match stmt sql with Some (SelectPage cols table _ _) => Ok (map (project cols) (rows d table), None) | _ => Err "not a query" end.
Definition db : Querier Db := mkQuerier Db exec query query_row.

Lemma stmt_found sql st : is_statement sql st -> stmt sql = Some st.
Proof.
  intros [Hin Hw]. unfold stmt. rewrite Hw. clear Hw. revert st Hin. apply Forall_forall. apply (bool_decide_unpack _). vm_compute. reflexivity.
Qed.
Lemma commit_ok t n d d' r : commit t n d = (d', Ok r) -> tables d' = t /\ r = Ok (Z.of_nat n).
Proof. unfold commit. destruct (bool_dec _ _); [by intros [= <- <-]|done]. Qed.
Definition known_table (t : string) : Prop := t = "deployments" \/ t = "configs" \/ t = "executions".
Definition table_of (st : Statement) : string := match st with Insert t _ | SelectBy _ t _ | SelectPage _ t _ _ | UpdateById t _ | DeleteById t => t end.
Lemma tables_known st : st ∈ statements -> known_table (table_of st).
Proof. revert st. apply Forall_forall. unfold statements, known_table. repeat (apply Forall_cons; split; [cbn; auto|]). by apply Forall_nil. Qed.
Lemma rows_set t l tb : known_table t -> table_rows (set_rows t l tb) t = l.
Proof. by intros [-> | [-> | ->]]. Qed.
Lemma valid_table d t : keyed (rows d t) = true.
Proof.
  destruct d as [tb Hv]. unfold rows, table_rows. cbn. unfold valid in Hv. apply andb_prop in Hv as [Hv H3]. apply andb_prop in Hv as [H1 H2].
  destruct (String.eqb t _); [done|]. destruct (String.eqb t _); [done|]. by destruct (String.eqb t _).
Qed.
Lemma documented : Documented Db db rows keep.
Proof.
  split.
  - intros sql t cols args d d' n Hs Hl He. cbn in He. unfold exec in He. rewrite (stmt_found _ _ Hs) in He. apply commit_ok in He as [Ht _]. unfold rows. rewrite Ht. apply rows_set. exact (tables_known _ (proj1 Hs)).
  - intros sql t cols args id d d' n Hs Hl He. cbn in He. unfold exec in He. rewrite (stmt_found _ _ Hs), last_snoc, removelast_last in He. apply commit_ok in He as [Ht ->]. unfold rows at 1. rewrite Ht.
    split; [|done]. apply rows_set. exact (tables_known _ (proj1 Hs)).
  - intros sql t id d d' n Hs He. cbn in He. unfold exec in He. rewrite (stmt_found _ _ Hs) in He. apply commit_ok in He as [Ht ->]. unfold rows at 1. rewrite Ht.
    split; [|done]. apply rows_set. exact (tables_known _ (proj1 Hs)).
  - intros sql cols t col v d Hs. cbn. unfold query_row. by rewrite (stmt_found _ _ Hs).
  - intros d t. pose proof (valid_table d t) as H. unfold keyed in H. apply bool_decide_eq_true in H. apply (NoDup_fmap_1 (fun v => match v with SText s => Some s | _ => None end)).
    replace (_ <$> map (cell "id") (rows d t)) with (map (fun r => match cell "id" r with SText s => Some s | _ => None end) (rows d t)) by (unfold fmap; by rewrite <- list_fmap_compose). done.
Qed.
End Engine.
