(* ===== verification/ApiBase.v ===== *)
(** What the HTTP handlers share: [internal/api/handlers/base.go], the requests of
    [internal/api/types/requests.go], and the same helpers of the packages
    [handlers/webhooks] and [handlers/jobs].

    Reading JSON, and the checks of the validator package by the tags of a struct,
    are parameters.  A response is its status and the value that is encoded. *)

From Stdlib Require Import ZArith Lia Ascii.
From stdpp Require Import base strings list gmap.
From S2P Require Import Prelude GoStrings.

#[local] Open Scope string_scope.

(** ** Requests *)
(** The body, if there is one, the parameter [id] of the path, and
    [r.URL.Query().Get]. *)
Record HttpReq := mkHttpReq { r_body : option string; r_id : string; r_query : string -> string }.

(** [validator.FieldError]. *)
Record FieldError := mkFieldError { fe_Field : string; fe_Tag : string; fe_Param : string }.
(** A field of a request with its value and its [validate] tag. *)
Record Field := mkField { f_Name : string; f_Value : string; f_Tags : string }.
Inductive RequestError := NotDecoded (message : string) | NotValid (errs : list FieldError).

Section Validate.
(** [validator.Struct]. *)
Variable Struct : list Field -> list FieldError.
Definition decodeJSON {A} (Decode : string -> result string A) (r : HttpReq) : result string A :=
  match r_body r with None => Err "request body is required" | Some body => Decode body end.
Definition validateRequest (fields : list Field) : result RequestError unit :=
  match Struct fields with [] => Ok tt | errs => Err (NotValid errs) end.
Definition decodeAndValidate {A} (Decode : string -> result string A) (fields : A -> list Field) (r : HttpReq) : result RequestError A :=
  match decodeJSON Decode r with
  | Err e => Err (NotDecoded e)
  | Ok v => match validateRequest (fields v) with Err e => Err e | Ok _ => Ok v end
  end.
Lemma decoded_valid {A} (Decode : string -> result string A) fields r v : decodeAndValidate Decode fields r = Ok v -> Struct (fields v) = [].
Proof.
  unfold decodeAndValidate, validateRequest. destruct (decodeJSON Decode r) as [a|]; [|done]. destruct (Struct (fields a)) eqn:E; [|done]. by intros [= <-].
Qed.
End Validate.

(** ** Responses *)
Record ErrorResponse := mkErrorResponse { er_Error : string; er_Details : gmap string string }.
(** [B] is what a package answers besides errors. *)
Inductive Payload (B : Type) := Data (b : B) | Failure (e : ErrorResponse).
Arguments Data {B} _. Arguments Failure {B} _.
Record Response (B : Type) := mkResponse { Status : Z; Content : option (Payload B) }.
Arguments mkResponse {B} _ _. Arguments Status {B} _. Arguments Content {B} _.
Section Respond.
Context {B : Type}.
Definition respondJSON (code : Z) (data : B) : Response B := mkResponse code (Some (Data data)).
Definition respondError (code : Z) (message : string) : Response B := mkResponse code (Some (Failure (mkErrorResponse message ∅))).
Definition NoContent : Response B := mkResponse 204 None.
Definition respondValidationError (format : FieldError -> string) (e : RequestError) : Response B :=
  match e with
  | NotValid errs => mkResponse 400 (Some (Failure (mkErrorResponse "validation failed" (fold_left (fun m e => <[fe_Field e := format e]> m) errs ∅))))
  | NotDecoded _ => respondError 400 "invalid input"
  end.
End Respond.

(** What a tag is reported as, in the three packages. *)
Definition min_max_error (e : FieldError) : string :=
  if String.eqb (fe_Tag e) "min" then "must be at least " ++ fe_Param e ++ " characters"
  else if String.eqb (fe_Tag e) "max" then "must be at most " ++ fe_Param e ++ " characters"
  else "is invalid".
Definition formatValidationError (e : FieldError) : string :=
  if String.eqb (fe_Tag e) "required" then "is required"
  else if String.eqb (fe_Tag e) "uuid" then "must be a valid UUID"
  else if String.eqb (fe_Tag e) "oneof" then "must be one of: " ++ fe_Param e
  else min_max_error e.
Definition webhooks_formatValidationError (e : FieldError) : string :=
  if String.eqb (fe_Tag e) "required" then "is required" else if String.eqb (fe_Tag e) "url" then "must be a valid URL" else min_max_error e.
Definition jobs_formatValidationError (e : FieldError) : string := if String.eqb (fe_Tag e) "required" then "is required" else min_max_error e.

(** ** Pages *)
Definition DefaultLimit : Z := 20.
Definition DefaultMaxLimit : Z := 100.
(** A number that is given, can be read and is accepted, or the default. *)
Definition numeric_param (s : string) (ok : Z -> bool) (otherwise : Z) : Z :=
  if String.eqb s "" then otherwise else match ParseInt s with Ok n => if ok n then n else otherwise | Err _ => otherwise end.
Definition getPaginationParams (r : HttpReq) : Z * Z :=
  (Z.min DefaultMaxLimit (numeric_param (r_query r "limit") (fun n => 0 <? n)%Z DefaultLimit), numeric_param (r_query r "offset") (fun n => 0 <=? n)%Z 0%Z).
Lemma pagination_bounds r limit offset : getPaginationParams r = (limit, offset) -> (1 <= limit <= 100 /\ 0 <= offset)%Z.
Proof.
  unfold getPaginationParams, numeric_param, DefaultMaxLimit, DefaultLimit. intros [= <- <-].
  destruct (String.eqb (r_query r "limit") ""), (String.eqb (r_query r "offset") ""), (ParseInt (r_query r "limit")), (ParseInt (r_query r "offset")); repeat case_match_eqn; lia.
Qed.
