(* ===== verification/ApiHandlers.v ===== *)
(** The handlers of deployments, configurations and executions:
    [internal/api/handlers] ([deployments.go], [configs.go], [executions.go],
    [health.go]) and [internal/api/types], over the repositories of [Models], the
    parser and the validator of programs.

    The state is that of the repositories.  [now] is the clock when a model is made
    and [w] what the repository takes from outside. *)

From Stdlib Require Import ZArith Lia Ascii.
From stdpp Require Import base strings list gmap.
From S2P Require Import Prelude GoStrings GoText DslAst DslSymbols DslValidator DslParser Models ApiBase SqlRepositories.
From S2P Require MongoRepository MongoAdapters.

#[local] Open Scope string_scope.

(** ** Requests *)
Record CreateDeploymentRequest := mkCreateDeployment { cd_Name : string; cd_ConfigID : string }.
Record UpdateDeploymentRequest := mkUpdateDeployment { ud_Name : string; ud_ConfigID : string; ud_Status : string }.
Record CreateConfigRequest := mkCreateConfig { cc_Name : string; cc_Content : string }.
Record UpdateConfigRequest := mkUpdateConfig { uc_Name : string; uc_Content : string }.
Definition create_deployment_fields (r : CreateDeploymentRequest) : list Field :=
  [mkField "Name" (cd_Name r) "required,min=1,max=255"; mkField "ConfigID" (cd_ConfigID r) "omitempty,uuid"].
Definition update_deployment_fields (r : UpdateDeploymentRequest) : list Field :=
  [mkField "Name" (ud_Name r) "omitempty,min=1,max=255"; mkField "ConfigID" (ud_ConfigID r) "omitempty,uuid";
   mkField "Status" (ud_Status r) "omitempty,oneof=pending running stopped failed complete"].
Definition create_config_fields (r : CreateConfigRequest) : list Field :=
  [mkField "Name" (cc_Name r) "required,min=1,max=255"; mkField "Content" (cc_Content r) "required"].
Definition update_config_fields (r : UpdateConfigRequest) : list Field :=
  [mkField "Name" (uc_Name r) "omitempty,min=1,max=255"; mkField "Content" (uc_Content r) "omitempty"].

(** ** Responses *)
Record DeploymentResponse := mkDeploymentResponse { dr_ID : string; dr_Name : string; dr_ConfigID : option string; dr_Status : string; dr_CreatedAt : Z; dr_UpdatedAt : Z }.
Definition DeploymentFromModel (d : Deployment) : DeploymentResponse :=
  mkDeploymentResponse (d_ID d) (d_Name d) (d_ConfigID d) (d_Status d) (d_CreatedAt d) (d_UpdatedAt d).
Record ConfigResponse := mkConfigResponse { cr_ID : string; cr_Name : string; cr_Content : string; cr_ASTJSON : string; cr_ValidationErrors : string; cr_CreatedAt : Z }.
Definition ConfigFromModel (c : Config) : ConfigResponse :=
  mkConfigResponse (c_ID c) (c_Name c) (c_Content c) (c_ASTJSON c) (c_ValidationErrors c) (c_CreatedAt c).
Record ExecutionResponse := mkExecutionResponse {
  er_ID : string; er_DeploymentID : string; er_Command : string; er_Output : option string; er_ExitCode : option Z; er_StartedAt : Z; er_CompletedAt : option Z }.
Definition ExecutionFromModel (e : Execution) : ExecutionResponse :=
  mkExecutionResponse (e_ID e) (e_DeploymentID e) (e_Command e) (e_Output e) (e_ExitCode e) (e_StartedAt e) (e_CompletedAt e).
Record ValidationResult := mkValidationResult { vr_Valid : bool; vr_Errors : list string }.
(** [Total] is never set. *)
Record ListResponse (T : Type) := mkListResponse { lr_Data : list T; lr_Limit : Z; lr_Offset : Z; lr_Total : Z }.
Arguments mkListResponse {T} _ _ _ _.
Definition NewListResponse {T} (data : list T) (limit offset : Z) : ListResponse T := mkListResponse data limit offset 0.
Inductive Body :=
| BDeployment (d : DeploymentResponse) | BDeployments (l : ListResponse DeploymentResponse)
| BConfig (c : ConfigResponse) | BConfigs (l : ListResponse ConfigResponse)
| BExecution (e : ExecutionResponse) | BExecutions (l : ListResponse ExecutionResponse)
| BValidation (v : ValidationResult) | BHealth (status timestamp : string).

Section Handlers.
Context {S W : Type} (repos : Repositories S W).
Variable Struct : list Field -> list FieldError.
Variables (DecodeCreateDeployment : string -> result string CreateDeploymentRequest) (DecodeUpdateDeployment : string -> result string UpdateDeploymentRequest)
  (DecodeCreateConfig : string -> result string CreateConfigRequest) (DecodeUpdateConfig : string -> result string UpdateConfigRequest)
  (DecodeExecute : string -> result string unit) (DecodeContent : string -> result string string).
Local Abbreviation Resp := (Response Body).
Local Abbreviation validated decode fields req := (decodeAndValidate Struct decode fields req).
Definition invalid (e : RequestError) : Resp := respondValidationError formatValidationError e.
(** A failure of a repository to [verb] what is called [what]. *)
Definition failed (verb what : string) : Resp := respondError 500 ("failed to " ++ verb ++ " " ++ what).
Definition not_found_or (verb what : string) (e : StoreError) : Resp :=
  match e with NotFound => respondError 404 (what ++ " not found") | StoreFailure => failed verb what end.
(** A field that is given replaces the old value. *)
Definition replace (given old : string) : string := if String.eqb given "" then old else given.

(** ** Deployments *)
Definition deployment_of (now : Z) (r : CreateDeploymentRequest) : Deployment :=
  let d := NewDeployment now (cd_Name r) in
  mkDeployment (d_ID d) (d_Name d) (if String.eqb (cd_ConfigID r) "" then d_ConfigID d else Some (cd_ConfigID r)) (d_Status d) (d_CreatedAt d) (d_UpdatedAt d).
Definition CreateDeployment (now : Z) (w : W) (req : HttpReq) (s : S) : S * Resp :=
  match validated DecodeCreateDeployment create_deployment_fields req with
  | Err e => (s, invalid e)
  | Ok r =>
      match Create (Deployments repos) w (deployment_of now r) s with
      | (s, _, Err _) => (s, failed "create" "deployment")
      | (s, d, Ok _) => (s, respondJSON 201 (BDeployment (DeploymentFromModel d)))
      end
  end.
Definition GetDeployment (req : HttpReq) (s : S) : Resp :=
  match GetByID (Deployments repos) (r_id req) s with
  | Err e => not_found_or "get" "deployment" e
  | Ok d => respondJSON 200 (BDeployment (DeploymentFromModel d))
  end.
Definition ListDeployments (req : HttpReq) (s : S) : Resp :=
  let '(limit, offset) := getPaginationParams req in
  match List_ (Deployments repos) limit offset s with
  | Err _ => failed "list" "deployments"
  | Ok l => respondJSON 200 (BDeployments (NewListResponse (map DeploymentFromModel l) limit offset))
  end.
Definition update_deployment_with (r : UpdateDeploymentRequest) (d : Deployment) : Deployment :=
  mkDeployment (d_ID d) (replace (ud_Name r) (d_Name d)) (if String.eqb (ud_ConfigID r) "" then d_ConfigID d else Some (ud_ConfigID r))
    (replace (ud_Status r) (d_Status d)) (d_CreatedAt d) (d_UpdatedAt d).
Definition UpdateDeployment (w : W) (req : HttpReq) (s : S) : S * Resp :=
  match validated DecodeUpdateDeployment update_deployment_fields req with
  | Err e => (s, invalid e)
  | Ok r =>
      match GetByID (Deployments repos) (r_id req) s with
      | Err e => (s, not_found_or "get" "deployment" e)
      | Ok d =>
          match Update (Deployments repos) w (update_deployment_with r d) s with
          | (s, _, Err _) => (s, failed "update" "deployment")
          | (s, d, Ok _) => (s, respondJSON 200 (BDeployment (DeploymentFromModel d)))
          end
      end
  end.
Definition DeleteDeployment (req : HttpReq) (s : S) : S * Resp :=
  match Delete (Deployments repos) (r_id req) s with
  | (s, Err e) => (s, not_found_or "delete" "deployment" e)
  | (s, Ok _) => (s, NoContent)
  end.
(** The comparison of the error with a new one is always false, so that only an
    empty body, whose error is [EOF], is let pass. *)
Definition ExecuteDeployment (now : Z) (w : W) (req : HttpReq) (s : S) : S * Resp :=
  match GetByID (Deployments repos) (r_id req) s with
  | Err e => (s, not_found_or "get" "deployment" e)
  | Ok d =>
      let create :=
        match Create (Executions repos) w (NewExecution now (d_ID d) "execute") s with
        | (s, _, Err _) => (s, failed "create" "execution")
        | (s, e, Ok _) => (s, respondJSON 202 (BExecution (ExecutionFromModel e)))
        end in
      match decodeJSON DecodeExecute req with
      | Ok _ => create
      | Err e => if String.eqb e "EOF" then create else (s, respondError 400 "invalid request body")
      end
  end.
Definition ListDeploymentExecutions (req : HttpReq) (s : S) : Resp :=
  match GetByID (Deployments repos) (r_id req) s with
  | Err e => not_found_or "get" "deployment" e
  | Ok _ =>
      let '(limit, offset) := getPaginationParams req in
      match ListByDeployment (Executions repos) (r_id req) limit offset s with
      | Err _ => failed "list" "executions"
      | Ok l => respondJSON 200 (BExecutions (NewListResponse (map ExecutionFromModel l) limit offset))
      end
  end.

(** ** Configurations *)
Definition CreateConfig (now : Z) (w : W) (req : HttpReq) (s : S) : S * Resp :=
  match validated DecodeCreateConfig create_config_fields req with
  | Err e => (s, invalid e)
  | Ok r =>
      match Create (Configs repos) w (NewConfig now (cc_Name r) (cc_Content r)) s with
      | (s, _, Err _) => (s, failed "create" "config")
      | (s, c, Ok _) => (s, respondJSON 201 (BConfig (ConfigFromModel c)))
      end
  end.
Definition GetConfig (req : HttpReq) (s : S) : Resp :=
  match GetByID (Configs repos) (r_id req) s with
  | Err e => not_found_or "get" "config" e
  | Ok c => respondJSON 200 (BConfig (ConfigFromModel c))
  end.
Definition ListConfigs (req : HttpReq) (s : S) : Resp :=
  let '(limit, offset) := getPaginationParams req in
  match List_ (Configs repos) limit offset s with
  | Err _ => failed "list" "configs"
  | Ok l => respondJSON 200 (BConfigs (NewListResponse (map ConfigFromModel l) limit offset))
  end.
Definition update_config_with (r : UpdateConfigRequest) (c : Config) : Config :=
  mkConfig (c_ID c) (replace (uc_Name r) (c_Name c)) (replace (uc_Content r) (c_Content c)) (c_ASTJSON c) (c_ValidationErrors c) (c_CreatedAt c).
Definition UpdateConfig (w : W) (req : HttpReq) (s : S) : S * Resp :=
  match validated DecodeUpdateConfig update_config_fields req with
  | Err e => (s, invalid e)
  | Ok r =>
      match GetByID (Configs repos) (r_id req) s with
      | Err e => (s, not_found_or "get" "config" e)
      | Ok c =>
          match Update (Configs repos) w (update_config_with r c) s with
          | (s, _, Err _) => (s, failed "update" "config")
          | (s, c, Ok _) => (s, respondJSON 200 (BConfig (ConfigFromModel c)))
          end
      end
  end.
Definition DeleteConfig (req : HttpReq) (s : S) : S * Resp :=
  match Delete (Configs repos) (r_id req) s with
  | (s, Err e) => (s, not_found_or "delete" "config" e)
  | (s, Ok _) => (s, NoContent)
  end.
(** The grammars of the parser and [url.Parse]. *)
Variables (program_grammar : string -> result string pProgram) (endpoint_grammar : string -> result string EndpointParser.pEndpointFile)
  (urlParse : string -> result string string).
Definition validateDSLContent (content : string) : ValidationResult :=
  match Parse program_grammar endpoint_grammar content with
  | Err e => mkValidationResult false ["parse error: " ++ e]
  | Ok p => match (Validate urlParse (Some p) New).2 with [] => mkValidationResult true [] | errs => mkValidationResult false (map ValidationError_Error errs) end
  end.
Definition ValidateConfig (req : HttpReq) (s : S) : Resp :=
  match GetByID (Configs repos) (r_id req) s with
  | Err e => not_found_or "get" "config" e
  | Ok c =>
      let content := match decodeJSON DecodeContent req with Ok text => replace text (c_Content c) | Err _ => c_Content c end in
      respondJSON 200 (BValidation (validateDSLContent content))
  end.

(** ** Executions and health *)
Definition GetExecution (req : HttpReq) (s : S) : Resp :=
  match GetByID (Executions repos) (r_id req) s with
  | Err e => not_found_or "get" "execution" e
  | Ok e => respondJSON 200 (BExecution (ExecutionFromModel e))
  end.
Definition ListExecutions (req : HttpReq) (s : S) : Resp :=
  let '(limit, offset) := getPaginationParams req in
  match List_ (Executions repos) limit offset s with
  | Err _ => failed "list" "executions"
  | Ok l => respondJSON 200 (BExecutions (NewListResponse (map ExecutionFromModel l) limit offset))
  end.
(** [RFC3339]. *)
Variable FormatTime : Z -> string.
Definition Health (now : Z) : Resp := respondJSON 200 (BHealth "healthy" (FormatTime now)).
End Handlers.

(** * The interface of deployments *)
Section DeploymentsApi.
Context {S W : Type} (repos : Repositories S W) {HS : StoreSpec (Deployments repos)} {HL : StoreLaws (Deployments repos)}.
Context (Struct : list Field -> list FieldError).
Context (DecodeCreate : string -> result string CreateDeploymentRequest) (DecodeUpdate : string -> result string UpdateDeploymentRequest)
  (DecodeExecute : string -> result string unit).
Local Abbreviation Resp := (Response Body).
Implicit Types (s : S) (w : W) (i : string).

(** What the interface shows under an identifier: the name, configuration and
    status of a deployment, and when it was made. *)
Definition shown s i : option (string * option string * string * Z) :=
  match GetByID (Deployments repos) i s with Ok d => Some (d_Name d, d_ConfigID d, d_Status d, d_CreatedAt d) | Err _ => None end.
Definition now_shows s s' i (v : option (string * option string * string * Z)) : Prop :=
  (forall j, same j i -> shown s' j = v) /\ (forall j, ~ same j i -> shown s' j = shown s j).
Definition answers_with (r : Resp) (code : Z) (i : string) (v : string * option string * string * Z) : Prop :=
  exists d, r = respondJSON code (BDeployment d) /\ dr_ID d = i /\ (dr_Name d, dr_ConfigID d, dr_Status d, dr_CreatedAt d) = v.
Definition refused (r : Resp) : Prop := (Status r = 404 \/ Status r = 500)%Z.

Lemma changed_shows s s' i r : changed s s' i r ->
  now_shows s s' i (match r with Ok d => Some (d_Name d, d_ConfigID d, d_Status d, d_CreatedAt d) | Err _ => None end).
Proof. intros [H1 H2]. split; intros j Hj; unfold shown; [by rewrite (H1 j Hj)|by rewrite (H2 j Hj)]. Qed.
Lemma refused_error verb what e : refused (not_found_or verb what e).
Proof. destruct e; [by left|by right]. Qed.

Lemma get_shown req s : match shown s (r_id req) with
  | Some v => exists i, (wf s -> same (r_id req) i) /\ answers_with (GetDeployment repos req s) 200 i v
  | None => refused (GetDeployment repos req s) end.
Proof.
  unfold shown, GetDeployment. destruct (GetByID _ _ _) as [d|e] eqn:E; [|apply refused_error]. exists (d_ID d). split; [intros Hw; exact (get_ident s (r_id req) d Hw E)|]. by exists (DeploymentFromModel d).
Qed.
Lemma create_shown now w req s r : wf s -> decodeAndValidate Struct DecodeCreate create_deployment_fields req = Ok r -> can_create w (deployment_of now r) s ->
  exists s' i, let v t := (cd_Name r, if String.eqb (cd_ConfigID r) "" then None else Some (cd_ConfigID r), "pending", t) in
    (CreateDeployment repos Struct DecodeCreate now w req s).1 = s' /\ wf s' /\
    answers_with (CreateDeployment repos Struct DecodeCreate now w req s).2 201 i (v now) /\ now_shows s s' i (Some (v (keep_time now))).
Proof.
  intros Hw Hr Hc. destruct (create_law w _ s Hw Hc) as (s' & i & a & Hcr & Hw' & _ & Hch & _ & Hf & Hb). exists s', i. unfold CreateDeployment. rewrite Hr, Hcr. cbn. split; [done|]. split; [done|].
  split; [by eexists|]. apply changed_shows in Hch. cbn in Hf, Hb, Hch. injection Hf as Hn Hg Hs. by rewrite Hn, Hg, Hs, Hb in Hch.
Qed.
Lemma update_shown w req s r d : wf s -> decodeAndValidate Struct DecodeUpdate update_deployment_fields req = Ok r -> GetByID (Deployments repos) (r_id req) s = Ok d ->
  can_update w (update_deployment_with r d) s ->
  exists s', let v := (replace (ud_Name r) (d_Name d), (if String.eqb (ud_ConfigID r) "" then d_ConfigID d else Some (ud_ConfigID r)), replace (ud_Status r) (d_Status d), d_CreatedAt d) in
    (UpdateDeployment repos Struct DecodeUpdate w req s).1 = s' /\ wf s' /\
    answers_with (UpdateDeployment repos Struct DecodeUpdate w req s).2 200 (d_ID d) v /\ now_shows s s' (r_id req) (Some v).
Proof.
  intros Hw Hr Hg Hc. pose proof (get_ident s (r_id req) d Hw Hg) as Hi. pose proof (get_same s (r_id req) (d_ID d) Hi) as Hsm. rewrite Hg in Hsm. symmetry in Hsm.
  destruct (update_law w (update_deployment_with r d) d s Hw Hsm Hc) as (s' & b & a & Hu & Hw' & Hbi & Hbf & Hbb & Hch & _ & Hf & Hb). exists s'. unfold UpdateDeployment. rewrite Hr, Hg, Hu. cbn. split; [done|]. split; [done|].
  cbn in Hbi, Hbf, Hbb, Hf, Hb. injection Hf as Hn Hcf Hst. injection Hbf as Hbn Hbcf Hbst. split; [exists (DeploymentFromModel b); cbn; by rewrite Hbi, Hbn, Hbcf, Hbst, Hbb|].
  destruct same_equiv as [_ Hsym Htr]. apply changed_shows in Hch. cbn in Hch. rewrite Hn, Hcf, Hst, Hb in Hch. destruct Hch as [H1 H2].
  split; intros j Hj; [apply H1; by apply (Htr j (r_id req))|apply H2; intros Hn'; apply Hj; apply (Htr j (d_ID d)); [done|by apply Hsym]].
Qed.
Lemma delete_shown req s : wf s -> can_delete (r_id req) s ->
  exists s', (DeleteDeployment repos req s).1 = s' /\ wf s' /\ now_shows s s' (r_id req) None /\
    match shown s (r_id req) with Some _ => (DeleteDeployment repos req s).2 = NoContent | None => refused (DeleteDeployment repos req s).2 end.
Proof.
  intros Hw Hc. destruct (delete_law (r_id req) s Hw Hc) as (s' & res & Hd & Hw' & Hch & ->). exists s'. unfold DeleteDeployment. rewrite Hd. split; [by destruct (GetByID _ _ _)|]. split; [done|].
  split; [exact (changed_shows _ _ _ _ Hch)|]. unfold shown. destruct (GetByID _ _ _); [done|apply refused_error].
Qed.

(** C16: Over any implementation of the repositories that keeps its promises, the
    handlers of deployments are a map from identifiers.  An accepted creation is
    answered with a new identifier under which the deployment is then shown; an
    update replaces what is given and nothing else; a deletion is answered as done
    exactly when there is something to delete, and nothing is shown afterwards; no
    other deployment changes, and a request that is invalid or names nothing changes
    nothing. *)
Theorem deployments_api now w req s : wf s ->
  match shown s (r_id req) with
  | Some v => exists i, same (r_id req) i /\ answers_with (GetDeployment repos req s) 200 i v
  | None => refused (GetDeployment repos req s)
  end /\
  match decodeAndValidate Struct DecodeCreate create_deployment_fields req with
  | Err _ => Status (CreateDeployment repos Struct DecodeCreate now w req s).2 = 400%Z /\ (CreateDeployment repos Struct DecodeCreate now w req s).1 = s
  | Ok r => can_create w (deployment_of now r) s -> exists s' i,
      let v t := (cd_Name r, if String.eqb (cd_ConfigID r) "" then None else Some (cd_ConfigID r), "pending", t) in
      (CreateDeployment repos Struct DecodeCreate now w req s).1 = s' /\ wf s' /\
      answers_with (CreateDeployment repos Struct DecodeCreate now w req s).2 201 i (v now) /\ now_shows s s' i (Some (v (keep_time now)))
  end /\
  match decodeAndValidate Struct DecodeUpdate update_deployment_fields req, GetByID (Deployments repos) (r_id req) s with
  | Ok r, Ok d => can_update w (update_deployment_with r d) s -> exists s',
      let v := (replace (ud_Name r) (d_Name d), (if String.eqb (ud_ConfigID r) "" then d_ConfigID d else Some (ud_ConfigID r)), replace (ud_Status r) (d_Status d), d_CreatedAt d) in
      (UpdateDeployment repos Struct DecodeUpdate w req s).1 = s' /\ wf s' /\
      answers_with (UpdateDeployment repos Struct DecodeUpdate w req s).2 200 (d_ID d) v /\ now_shows s s' (r_id req) (Some v)
  | Err _, _ => Status (UpdateDeployment repos Struct DecodeUpdate w req s).2 = 400%Z /\ (UpdateDeployment repos Struct DecodeUpdate w req s).1 = s
  | Ok _, Err _ => refused (UpdateDeployment repos Struct DecodeUpdate w req s).2 /\ (UpdateDeployment repos Struct DecodeUpdate w req s).1 = s
  end /\
  (can_delete (r_id req) s -> exists s', (DeleteDeployment repos req s).1 = s' /\ wf s' /\ now_shows s s' (r_id req) None /\
    match shown s (r_id req) with Some _ => (DeleteDeployment repos req s).2 = NoContent | None => refused (DeleteDeployment repos req s).2 end).
Proof.
  intros Hw. split; [|split; [|split; [|by apply delete_shown]]].
  - pose proof (get_shown req s) as H. destruct (shown s (r_id req)); [|done]. destruct H as (i & Hi & H). exists i. auto.
  - destruct (decodeAndValidate _ _ create_deployment_fields _) as [r|e] eqn:Hr; [intros Hc; by apply create_shown|]. unfold CreateDeployment. rewrite Hr. by destruct e.
  - destruct (decodeAndValidate _ _ update_deployment_fields _) as [r|e] eqn:Hr; [|unfold UpdateDeployment; rewrite Hr; by destruct e].
    destruct (GetByID _ _ _) as [d|e] eqn:Hg; [intros Hc; by apply update_shown|]. unfold UpdateDeployment. rewrite Hr, Hg. split; [apply refused_error|done].
Qed.
End DeploymentsApi.

(** ** Over the engine in memory *)
Definition no_time (t : Z) : string := "".
Definition sql_repos : Repositories Engine.Db SqlRepositories.Readings := NewRepositories no_time Engine.Db Engine.db.
#[export] Instance sql_spec : StoreSpec (Deployments sql_repos) := SqlRepositories.deployments_spec no_time Engine.Db Engine.db Engine.rows Engine.keep.
#[export] Instance sql_laws : StoreLaws (Deployments sql_repos) := SqlRepositories.deployments_laws no_time Engine.Db Engine.db Engine.rows Engine.keep Engine.documented.
(** Required fields are there. *)
Definition required (fs : list Field) : list FieldError :=
  List.filter (fun e => negb (String.eqb (fe_Field e) "")) (map (fun f => if String.eqb (f_Value f) "" && HasPrefix (f_Tags f) "required" then mkFieldError (f_Name f) "required" "" else mkFieldError "" "" "") fs).
(** A body is a name. *)
Definition named_body (s : string) : result string CreateDeploymentRequest := Ok (mkCreateDeployment s "").
Definition post (body : string) : HttpReq := mkHttpReq (Some body) "" (fun _ => "").
Definition at_id (id : string) : HttpReq := mkHttpReq None id (fun _ => "").
Definition readings (id : string) : SqlRepositories.Readings := SqlRepositories.mkReadings id 7000 7000.
Lemma deployments_api_witness : exists s' i, (CreateDeployment sql_repos required named_body 5000 (readings "u1") (post "shop") Engine.empty).1 = s' /\
  shown sql_repos s' i = Some ("shop", None, "pending", 5000%Z).
Proof.
  destruct (deployments_api sql_repos required named_body (fun _ => Err "EOF") 5000 (readings "u1") (post "shop") Engine.empty) as (_ & H & _).
  - apply Forall_nil_2.
  - destruct H as (s' & i & Hc & _ & _ & [Hs _]).
    + split; [discriminate|]. split; [discriminate|]. eexists _, _. vm_compute. reflexivity.
    + exists s', i. split; [exact Hc|]. apply Hs. reflexivity.
Defined.

(** ** Where the answers differ from what is meant *)
(** Over MongoDB nothing is ever answered as not found: the handlers look for the
    [ErrNotFound] of the SQL repositories. *)
Lemma mongo_never_404 ObjectID FromHex Hex Sprint Db driver (repos : Repositories (MongoRepository.Repository Db) (MongoAdapters.Readings ObjectID)) req s :
  dr_crud (Deployments repos) = MongoAdapters.deployments ObjectID FromHex Hex Sprint Db driver ->
  Status (GetDeployment repos req s) <> 404%Z /\ Status (DeleteDeployment repos req s).2 <> 404%Z.
Proof.
  intros Hr. unfold GetDeployment, DeleteDeployment. rewrite Hr. cbn. split.
  - by destruct (MongoAdapters.Deployment_GetByID _ _ _ _ _ _ _).
  - by destruct (MongoAdapters.Delete _ _ _ _ _ _) as [r' [[]|e]].
Qed.
(** Over SQL it is. *)
Example sql_404 : Status (GetDeployment sql_repos (at_id "u1") Engine.empty) = 404%Z.
Proof. vm_compute. reflexivity. Qed.
(** A request without a body is refused where the code means to let it pass. *)
Lemma execute_needs_body {S W} (repos : Repositories S W) Decode now w req s d : r_body req = None -> GetByID (Deployments repos) (r_id req) s = Ok d ->
  ExecuteDeployment repos Decode now w req s = (s, respondError 400 "invalid request body").
Proof. intros Hb Hg. unfold ExecuteDeployment, decodeJSON. by rewrite Hg, Hb. Qed.
(** A configuration cannot be taken from a deployment, nor a text be made empty:
    what is empty is not given. *)
Lemma reference_stays r d : ud_ConfigID r = "" -> d_ConfigID (update_deployment_with r d) = d_ConfigID d.
Proof. intros H. unfold update_deployment_with. by rewrite H. Qed.

(** ** The verdict on a configuration *)
Lemma verdict_errors program_grammar endpoint_grammar urlParse content :
  let v := validateDSLContent program_grammar endpoint_grammar urlParse content in vr_Valid v = true <-> vr_Errors v = [].
Proof. unfold validateDSLContent. destruct (Parse _ _ _) as [p|]; [|done]. by destruct (Validate _ _ _).2. Qed.
