(* ===== verification/WebhookHandlers.v ===== *)
(** The HTTP handlers of webhooks: [internal/api/handlers/webhooks/handler.go], over
    [WebhookService].

    [FormatTime] formats a time with the layout of the handlers, whose [Z] is a
    letter: a time that is not in UTC is shown as if it were. *)

From Stdlib Require Import ZArith Lia.
From stdpp Require Import base strings list gmap.
From S2P Require Import Prelude GoStrings GoValue EventBus WebhookClient WebhookRepository WebhookService ApiBase.

#[local] Open Scope string_scope.
#[local] Open Scope Z_scope.

(** ** Requests and responses *)
Record CreateWebhookRequest := mkCreateWebhook {
  cw_URL : string; cw_Events : list string; cw_Secret : string; cw_Headers : gmap string string; cw_Metadata : gmap string GoVal }.
(** What is [nil] is not given. *)
Record UpdateWebhookBody := mkUpdateWebhook {
  uw_URL : option string; uw_Events : option (list string); uw_Secret : option string; uw_Headers : option (gmap string string);
  uw_Active : option bool; uw_Metadata : option (gmap string GoVal) }.
Definition create_webhook_fields (r : CreateWebhookRequest) : list Field := [mkField "URL" (cw_URL r) "required,url"].
Definition update_webhook_fields (r : UpdateWebhookBody) : list Field :=
  match uw_URL r with Some url => [mkField "URL" url "omitempty,url"] | None => [] end.

Record WebhookResponse := mkWebhookResponse {
  wr_ID : string; wr_URL : string; wr_Events : list string; wr_Headers : gmap string string; wr_Active : bool; wr_CreatedAt : string; wr_UpdatedAt : string;
  wr_LastDelivery : option string; wr_FailureCount : Z; wr_Metadata : gmap string GoVal }.
Record DeliveryResponse := mkDeliveryResponse {
  dl_ID : string; dl_WebhookID : string; dl_EventID : string; dl_EventType : string; dl_URL : string; dl_StatusCode : Z; dl_Duration : Z; dl_Attempts : Z;
  dl_Success : bool; dl_Error : string; dl_DeliveredAt : string; dl_NextRetryAt : option string }.
Record ListOf (T : Type) := mkListOf { lo_Items : list T; lo_Total : Z; lo_Limit : Z; lo_Offset : Z }.
Arguments mkListOf {T} _ _ _ _. Arguments lo_Items {T} _. Arguments lo_Total {T} _.
Inductive Body :=
| BCreated (id : string) | BWebhook (w : WebhookResponse) | BWebhooks (l : ListOf WebhookResponse) | BDelivery (d : DeliveryResponse)
| BDeliveries (l : ListOf DeliveryResponse) | BStatus (text : string).

(** ** The texts of the errors *)
Definition RepoError_Error (e : RepoError) : string :=
  match e with
  | AlreadyExists id => "webhook " ++ id ++ " already exists"
  | WebhookNotFound id => "webhook " ++ id ++ " not found"
  | DeliveryNotFound id => "delivery " ++ id ++ " not found"
  end.
(** The test looks its webhook up under another name than the retry. *)
Definition ServiceError_Error (testing : bool) (e : ServiceError) : string :=
  match e with
  | CreatingWebhook e => "creating webhook: " ++ RepoError_Error e
  | UpdatingWebhook e => "updating webhook: " ++ RepoError_Error e
  | DeletingWebhook e => "deleting webhook: " ++ RepoError_Error e
  | MarshalingEvent e => (if testing then "marshaling test event: " else "marshaling event: ") ++ e
  | GettingDelivery e => "getting delivery: " ++ RepoError_Error e
  | GettingWebhook e => (if testing then "getting webhook: " else "getting webhook config: ") ++ RepoError_Error e
  | WebhookDisabled id => "webhook " ++ id ++ " is disabled"
  | DisablingWebhook e => "disabling webhook: " ++ RepoError_Error e
  | SendFailed e => e
  end.

Section Handlers.
Context {E : Environment}.
Variable marshal : Event -> result string string.
Variables (Struct : list Field -> list FieldError) (DecodeCreate : string -> result string CreateWebhookRequest) (DecodeUpdate : string -> result string UpdateWebhookBody).
Variable FormatTime : Z -> string.
Variable cfg : Config.
Local Abbreviation Resp := (Response Body).
Definition invalid (e : RequestError) : Resp := respondValidationError webhooks_formatValidationError e.
Definition with_id {A} (what : string) (req : HttpReq) (s : A) (k : string -> A * Resp) : A * Resp :=
  if String.eqb (r_id req) "" then (s, respondError 400 (what ++ " id is required")) else k (r_id req).

Definition toWebhookResponse (c : WebhookConfig) : WebhookResponse :=
  mkWebhookResponse (c_ID c) (c_URL c) (c_Events c) (c_Headers c) (Active c) (FormatTime (CreatedAt c)) (FormatTime (UpdatedAt c))
    (option_map FormatTime (LastDelivery c)) (FailureCount c) (Metadata c).
Definition toDeliveryResponse (d : WebhookDelivery) : DeliveryResponse :=
  mkDeliveryResponse (d_ID d) (d_WebhookID d) (d_EventID d) (d_EventType d) (d_URL d) (d_StatusCode d) (Z.quot (d_Duration d) Millisecond) (d_Attempts d)
    (d_Success d) (d_Error d) (FormatTime (d_DeliveredAt d)) (option_map FormatTime (NextRetryAt d)).

Definition Create (req : HttpReq) (s : State) : State * Resp :=
  match decodeAndValidate Struct DecodeCreate create_webhook_fields req with
  | Err e => (s, invalid e)
  | Ok r =>
      match RegisterWebhook (mkRegisterRequest (cw_URL r) (cw_Events r) (cw_Secret r) (cw_Headers r) (cw_Metadata r)) s with
      | (s, Err e) => (s, respondError 500 (ServiceError_Error false e))
      | (s, Ok id) => (s, respondJSON 201 (BCreated id))
      end
  end.
Definition not_found : Resp := respondError 404 "webhook not found".
Definition show (id : string) (s : State) : Resp :=
  match GetWebhook id s with Err _ => not_found | Ok c => respondJSON 200 (BWebhook (toWebhookResponse c)) end.
Definition Get (req : HttpReq) (s : State) : State * Resp := with_id "webhook" req s (fun id => (s, show id s)).
Definition Update (req : HttpReq) (s : State) : State * Resp :=
  with_id "webhook" req s (fun id =>
    match decodeAndValidate Struct DecodeUpdate update_webhook_fields req with
    | Err e => (s, invalid e)
    | Ok r =>
        match service_UpdateWebhook id (mkUpdateRequest (uw_URL r) (uw_Events r) (uw_Secret r) (uw_Headers r) (uw_Active r) (uw_Metadata r)) s with
        | (s, Err e) => (s, respondError 500 (ServiceError_Error false e))
        | (s, Ok _) => (s, show id s)
        end
    end).
Definition Delete (req : HttpReq) (s : State) : State * Resp :=
  with_id "webhook" req s (fun id => match service_DeleteWebhook id s with (s, Err _) => (s, not_found) | (s, Ok _) => (s, NoContent) end).
(** A flag of the query, if it is given: anything but [true] is false. *)
Definition flag (text : string) : option bool := if String.eqb text "" then None else Some (String.eqb text "true").
Definition listed {A T} (conv : A -> T) (limit offset : Z) (l : list A) : ListOf T := mkListOf (map conv l) (Z.of_nat (length l)) limit offset.
Definition List_ (req : HttpReq) (s : State) : State * Resp :=
  let '(limit, offset) := getPaginationParams req in
  let '(s, l) := ListWebhooks (mkWebhookFilter (flag (r_query req "active")) limit offset) s in
  (s, respondJSON 200 (BWebhooks (listed toWebhookResponse limit offset l))).
Definition handler_ListDeliveries (req : HttpReq) (s : State) : State * Resp :=
  with_id "webhook" req s (fun id =>
    let '(limit, offset) := getPaginationParams req in
    let '(s, l) := ListDeliveries id (mkDeliveryFilter (flag (r_query req "success")) limit offset) s in
    (s, respondJSON 200 (BDeliveries (listed toDeliveryResponse limit offset l)))).
(** A delivery is shown whether or not it succeeded. *)
Definition Test_ (req : HttpReq) (s : State) : State * Resp :=
  with_id "webhook" req s (fun id =>
    match SendTestWebhook marshal cfg id s with
    | (s, Err e) => (s, respondError 500 (ServiceError_Error true e))
    | (s, Ok (delivery, _)) => (s, respondJSON 200 (BDelivery (toDeliveryResponse delivery)))
    end).
Definition RetryDelivery (req : HttpReq) (s : State) : State * Resp :=
  with_id "delivery" req s (fun id =>
    match RetryFailedWebhook cfg id s with
    | (s, Err e) => (s, respondError 500 (ServiceError_Error false e))
    | (s, Ok _) => (s, respondJSON 200 (BStatus "retry initiated"))
    end).
End Handlers.

(** * From a subscription to what is shown of its deliveries *)
Section EndToEnd.
Context {E : Environment} {L : LawfulEnvironment E}.
Variable marshal : Event -> result string string.
Variables (Struct : list Field -> list FieldError) (DecodeCreate : string -> result string CreateWebhookRequest) (FormatTime : Z -> string) (cfg : Config).

(** The next identifier names neither a webhook nor one that was. *)
Definition next_id (s : State) : string := new_uuid (w_reads (s_world s)).
Definition unused (s : State) : Prop :=
  webhooks (s_repo s) !! next_id s = None /\ map_Forall (fun _ d => d_WebhookID d <> next_id s) (deliveries (s_repo s)).

Lemma elem_unique {A} (l : list A) x : NoDup l -> (forall y, y ∈ l <-> y = x) -> l = [x].
Proof.
  intros Hnd Hx. destruct l as [|a l]; [exfalso; by apply (not_elem_of_nil x), Hx|]. assert (a = x) as -> by (apply Hx; by left). f_equal.
  apply NoDup_cons in Hnd as [Hn _]. destruct l as [|b l]; [done|]. exfalso. apply Hn. assert (b = x) as -> by (apply Hx; right; by left). by left.
Qed.
Lemma NoDup_of_map {A B} (f : A -> B) (l : list A) : NoDup (map f l) -> NoDup l.
Proof. apply NoDup_fmap_1. Qed.

(** The records of [delivered] for one webhook. *)
Lemma delivered_one event payload l recs s s' c : delivered cfg event payload l recs s s' -> NoDup (map c_ID l) -> c ∈ l ->
  exists d, d ∈ recs /\ record_of event payload c d /\ forall x, x ∈ recs -> d_WebhookID x = c_ID c -> x = d.
Proof.
  intros (Hall & _) Hnd Hc. induction Hall as [|c0 d0 l recs [Hr _] Hall IH]; [by apply elem_of_nil in Hc|].
  cbn in Hnd. apply NoDup_cons in Hnd as [Hn Hnd]. assert (forall x, x ∈ recs -> exists c', c' ∈ l /\ d_WebhookID x = c_ID c') as Hw.
  { intros x Hx. apply (list_elem_of_lookup_1 recs) in Hx as [i Hi]. destruct (Forall2_lookup_r _ _ _ _ _ Hall Hi) as (c' & Hc' & [Hrec _] & _). exists c'. split; [by eapply list_elem_of_lookup_2|done]. }
  apply elem_of_cons in Hc as [->|Hc].
  - exists d0. split; [by left|]. split; [done|]. intros x [->|Hx]%elem_of_cons He; [done|]. destruct (Hw x Hx) as (c' & Hc' & He'). exfalso. apply Hn. rewrite <- He, He'. by apply list_elem_of_In, in_map, list_elem_of_In.
  - destruct (IH Hnd Hc) as (d & Hd & Hrec & Hu). exists d. split; [by right|]. split; [done|]. intros x [->|Hx]%elem_of_cons He; [|by apply Hu].
    exfalso. apply Hn. destruct Hr as [Hr _]. rewrite <- Hr, He. by apply list_elem_of_In, in_map, list_elem_of_In.
Qed.

Lemma page_one {A} limit (x : A) : 1 <= limit -> page 0 limit [x] = [x].
Proof. intros Hl. unfold page. rewrite Z.ltb_irrefl. cbn [andb]. rewrite (proj2 (Z.ltb_ge limit (Z.of_nat (length [x])))) by (cbn; lia). by rewrite andb_false_r. Qed.
(** What the listing of one webhook shows when it has one delivery. *)
Lemma listing_one id limit s d : map_Forall (fun i x => d_ID x = i) (deliveries (s_repo s)) -> deliveries (s_repo s) !! d_ID d = Some d -> d_WebhookID d = id ->
  (forall i x, deliveries (s_repo s) !! i = Some x -> d_WebhookID x = id -> x = d) -> 1 <= limit -> (ListDeliveries id (mkDeliveryFilter None limit 0) s).2 = [d].
Proof.
  intros Hk Hd Hid Hu Hl. unfold ListDeliveries. rewrite on_world_spec. cbn [snd df_Success df_Offset df_Limit fst].
  set (l := List.filter _ _). assert (l = [d]) as ->; [|by apply page_one].
  apply elem_unique.
  - apply (NoDup_of_map d_ID), filter_NoDup_map. by apply keyed_values_NoDup.
  - intros x. unfold l. rewrite list_elem_of_In, filter_In, <- list_elem_of_In, elem_of_range, andb_true_r, String.eqb_eq. split; [intros [[i Hi] He]; by apply (Hu i)|intros ->; split; [by exists (d_ID d)|done]].
Qed.

Lemma RegisterWebhook_new req s : webhooks (s_repo s) !! next_id s = None -> exists s1 c, RegisterWebhook req s = (s1, Ok (next_id s)) /\
  s_repo s1 = mkRepository (<[next_id s := c]> (webhooks (s_repo s))) (deliveries (s_repo s)) /\ (w_reads (s_world s) <= w_reads (s_world s1))%nat /\
  c_ID c = next_id s /\ c_URL c = rr_URL req /\ c_Events c = rr_Events req /\ Active c = true.
Proof.
  intros Hun. unfold RegisterWebhook. rewrite !on_world_spec. unfold CreateWebhook. cbn [c_ID NewUUID fst snd s_repo s_world] in *. unfold next_id in *. rewrite Hun.
  eexists _, _. split; [reflexivity|]. split; [reflexivity|]. split; [cbn; lia|done].
Qed.

End EndToEnd.

Definition hook_body (s : string) : result string CreateWebhookRequest := Ok (mkCreateWebhook s ["user.created"] "s3cret" ∅ ∅).
