(* ===== verification/JobHandlers.v ===== *)
(** The HTTP handlers of jobs, [internal/api/handlers/jobs/handler.go], what the
    scheduler's service answers about jobs and queues, and the life of the queue
    manager, [internal/scheduler/queue/manager.go].

    The identifiers and the clock of a call are its [Readings]; Asynq's inspector
    and [time.Parse] are parameters. *)

From Stdlib Require Import ZArith Lia.
From stdpp Require Import base strings list gmap.
From S2P Require Import Prelude GoStrings GoValue GoDuration ApiBase JobRepository JobScheduler.

#[local] Open Scope string_scope.
#[local] Open Scope Z_scope.

(** ** What the service answers *)
Record JobStatusResponse := mkJobStatus {
  js_ID : string; js_TaskType : string; js_Status : string; js_Queue : string; js_ScheduledAt : option Z; js_StartedAt : option Z; js_CompletedAt : option Z;
  js_FailedAt : option Z; js_RetryCount : Z; js_MaxRetries : Z; js_Error : string; js_Result : string; js_CronExpression : string; js_CreatedAt : Z; js_UpdatedAt : Z }.
Definition GetJobStatus (jobID : string) (s : State) : result ServiceError JobStatusResponse :=
  match GetJob jobID (jobs s) with
  | Err e => Err (GetJobError e)
  | Ok j => Ok (mkJobStatus (ID j) (TaskType j) (Status j) (Queue j) (ScheduledAt j) (StartedAt j) (CompletedAt j) (FailedAt j) (RetryCount j) (MaxRetries j)
                  (Error j) (Result j) (CronExpression j) (CreatedAt j) (UpdatedAt j))
  end.
(** The map is ranged over twice. *)
Definition service_ListJobs {SS : SliceSort} (f : JobFilter) (order order' : list (string * Job)) : list Job * Z := (ListJobs f order, CountJobs f order').

Record QueueInfo := mkQueueInfo {
  qi_Size : Z; qi_Pending : Z; qi_Active : Z; qi_Scheduled : Z; qi_Retry : Z; qi_Archived : Z; qi_Completed : Z; qi_Processed : Z; qi_Failed : Z }.
Record QueueStats := mkQueueStats { qs_Queue : string; qs_Info : QueueInfo }.
Definition GetQueueStats (ListQueues : result string (list string)) (GetQueueInfo : string -> result string QueueInfo) : result string (gmap string QueueStats) :=
  match ListQueues with
  | Err e => Err ("list queues: list queues: " ++ e)
  | Ok queues => Ok (fold_left (fun m q => match GetQueueInfo q with Ok info => <[q := mkQueueStats q info]> m | Err _ => m end) queues ∅)
  end.

(** The texts of the errors; the manager and the service both wrap. *)
Definition ErrJobNotFound_Error : string := "job not found".
Definition ServiceError_Error (e : ServiceError) : string :=
  match e with
  | MarshalPayload e => "marshal payload: " ++ e
  | CreateTaskError e => "create task: " ++ e
  | EnqueueError e => "enqueue task: enqueue task: " ++ e
  | ScheduleError e => "schedule task: schedule task: " ++ e
  | RegisterError e => "register recurring task: register recurring task: " ++ e
  | GetJobError _ => "get job: " ++ ErrJobNotFound_Error
  | AlreadyDone status => "job already " ++ status
  | UpdateStatusError _ => "update job status: " ++ ErrJobNotFound_Error
  | IncrementError _ => "increment retry count: " ++ ErrJobNotFound_Error
  end.
(** [errors.Is(err, ErrJobNotFound)]. *)
Definition is_not_found (e : ServiceError) : bool := match e with GetJobError _ | UpdateStatusError _ | IncrementError _ => true | _ => false end.

(** ** Requests and responses *)
Record SubmitRequest := mkSubmit { sr_TaskType : string; sr_Payload : GoVal; sr_Queue : string; sr_MaxRetries : Z; sr_Timeout : string; sr_Metadata : gmap string GoVal }.
Record ScheduleRequest := mkSchedule { sch_Submit : SubmitRequest; sch_ScheduleAt : string }.
Record RecurringRequest := mkRecurring { rec_Submit : SubmitRequest; rec_CronSpec : string }.
Definition submit_fields (r : SubmitRequest) : list Field := [mkField "TaskType" (sr_TaskType r) "required"].
Definition schedule_fields (r : ScheduleRequest) : list Field := (submit_fields (sch_Submit r) ++ [mkField "ScheduleAt" (sch_ScheduleAt r) "required"])%list.
Definition recurring_fields (r : RecurringRequest) : list Field := (submit_fields (rec_Submit r) ++ [mkField "CronSpec" (rec_CronSpec r) "required"])%list.
Inductive Body :=
| BJob (id : string) | BJobs (l : list Job) (total limit offset : Z) | BStatus (s : JobStatusResponse) | BStats (m : gmap string QueueStats).

Record Readings := mkReadings { new_id : string; created : Z; updated : Z; failed_at : Z }.

Section Handlers.
Context {SS : SliceSort}.
Variables (marshal : GoVal -> result string string) (broker : list BrokerRequest -> BrokerRequest -> result string string).
Variables (Struct : list Field -> list FieldError) (DecodeSubmit : string -> result string SubmitRequest) (DecodeSchedule : string -> result string ScheduleRequest)
  (DecodeRecurring : string -> result string RecurringRequest) (ParseRFC3339 : string -> option Z).
Local Abbreviation Resp := (Response Body).
Definition invalid (e : RequestError) : Resp := respondValidationError jobs_formatValidationError e.
Definition parse_timeout (s : string) : option Z :=
  if String.eqb s "" then Some 0 else match ParseDuration s with Ok d => Some d | Err _ => None end.
Definition job_request (r : SubmitRequest) (timeout : Z) : JobRequest := mkJobRequest (sr_TaskType r) (sr_Payload r) (sr_Queue r) (sr_MaxRetries r) timeout (sr_Metadata r).
Definition created_or (res : State * result ServiceError string) : State * Resp :=
  match res with
  | (s, Err e) => (s, respondError 500 (ServiceError_Error e))
  | (s, Ok id) => (s, respondJSON 201 (BJob id))
  end.
Definition bad_timeout : Resp := respondError 400 "invalid timeout format".

Definition Submit (w : Readings) (req : HttpReq) (s : State) : State * Resp :=
  match decodeAndValidate Struct DecodeSubmit submit_fields req with
  | Err e => (s, invalid e)
  | Ok r =>
      match parse_timeout (sr_Timeout r) with
      | None => (s, bad_timeout)
      | Some timeout => created_or (SubmitJob marshal broker (new_id w) (created w) (updated w) (failed_at w) (job_request r timeout) s)
      end
  end.
Definition Schedule (w : Readings) (req : HttpReq) (s : State) : State * Resp :=
  match decodeAndValidate Struct DecodeSchedule schedule_fields req with
  | Err e => (s, invalid e)
  | Ok r =>
      match ParseRFC3339 (sch_ScheduleAt r) with
      | None => (s, respondError 400 "invalid schedule_at format, use RFC3339")
      | Some at_ =>
          match parse_timeout (sr_Timeout (sch_Submit r)) with
          | None => (s, bad_timeout)
          | Some timeout => created_or (ScheduleJob marshal broker (new_id w) (created w) (updated w) (failed_at w) (job_request (sch_Submit r) timeout) at_ s)
          end
      end
  end.
Definition CreateRecurring (w : Readings) (req : HttpReq) (s : State) : State * Resp :=
  match decodeAndValidate Struct DecodeRecurring recurring_fields req with
  | Err e => (s, invalid e)
  | Ok r =>
      match parse_timeout (sr_Timeout (rec_Submit r)) with
      | None => (s, bad_timeout)
      | Some timeout => created_or (CreateRecurringJob marshal broker (new_id w) (created w) (updated w) (job_request (rec_Submit r) timeout) (rec_CronSpec r) s)
      end
  end.
Definition id_required : Resp := respondError 400 "job id is required".
Definition job_error (e : ServiceError) : Resp := if is_not_found e then respondError 404 "job not found" else respondError 500 (ServiceError_Error e).
Definition GetStatus (req : HttpReq) (s : State) : Resp :=
  if String.eqb (r_id req) "" then id_required
  else match GetJobStatus (r_id req) s with Err e => job_error e | Ok st => respondJSON 200 (BStatus st) end.
Definition Cancel (w : Readings) (req : HttpReq) (s : State) : State * Resp :=
  if String.eqb (r_id req) "" then (s, id_required)
  else match CancelJob broker (r_id req) (updated w) s with (s, Err e) => (s, job_error e) | (s, Ok _) => (s, NoContent) end.
Definition one_if_given (s : string) : list string := if String.eqb s "" then [] else [s].
Definition job_filter (req : HttpReq) : JobFilter :=
  let '(limit, offset) := getPaginationParams req in
  mkJobFilter (one_if_given (r_query req "status")) (one_if_given (r_query req "task_type")) (r_query req "queue") None None None None None limit offset "" "".
Definition handler_List (order order' : list (string * Job)) (req : HttpReq) : Resp :=
  let '(l, total) := service_ListJobs (job_filter req) order order' in
  respondJSON 200 (BJobs l total (Limit (job_filter req)) (Offset (job_filter req))).
Definition GetStats (ListQueues : result string (list string)) (GetQueueInfo : string -> result string QueueInfo) : Resp :=
  match GetQueueStats ListQueues GetQueueInfo with Err e => respondError 500 e | Ok m => respondJSON 200 (BStats m) end.

(** ** What is answered is recorded and asked for *)
(** The job that an accepted submission leaves. *)
Definition submitted (w : Readings) (r : SubmitRequest) (payload : string) (timeout : Z) : Job :=
  with_times (created w) (updated w) (new_job (new_id w) payload JobStatusPending None "" "" (job_request r timeout)).
Lemma Submit_accepted w req s r payload timeout : decodeAndValidate Struct DecodeSubmit submit_fields req = Ok r -> parse_timeout (sr_Timeout r) = Some timeout -> marshal (sr_Payload r) = Ok payload ->
  exists q, carries (submitted w r payload timeout) q /\
  match broker (requests s) q with
  | Ok _ => exists s', Submit w req s = (s', respondJSON 201 (BJob (new_id w))) /\ requests s' = q :: requests s /\ jobs s' = <[new_id w := submitted w r payload timeout]> (jobs s)
  | Err e => exists s' j, Submit w req s = (s', respondError 500 ("enqueue task: enqueue task: " ++ e)) /\ requests s' = q :: requests s /\
      jobs s' = <[new_id w := j]> (jobs s) /\ Status j = JobStatusFailed
  end.
Proof.
  intros Hr Ht Hm. destruct (task_of_ok marshal (job_request r timeout) payload Hm) as [t Htask]. destruct (task_of_spec marshal (job_request r timeout) payload t Hm Htask) as (H1 & H2 & H3 & H4).
  exists (EnqueueTask t). split.
  - unfold carries, EnqueueTask, base_options. cbn. rewrite H1, H2, H3, H4. split; [done|]. split; [done|]. by eexists.
  - unfold Submit. rewrite Hr, Ht. unfold SubmitJob. rewrite Htask. cbn [r_Payload job_request]. rewrite Hm. unfold ask. cbn [requests dispatch with_jobs jobs events].
    destruct (broker (requests s) (EnqueueTask t)) as [id|e]; cbn [created_or]; [eexists; by split|]. unfold set_job_status, UpdateJobStatus, modify. cbn [jobs]. unfold CreateJob at 1. cbn [ID new_job with_times].
    rewrite lookup_insert_eq. cbn. eexists _, _. split; [reflexivity|]. split; [reflexivity|]. split; [apply insert_insert_eq|done].
Qed.

(** Following the offsets of the listing visits every job that the query selects,
    once. *)
Theorem listing_covers {LS : LawfulSort SS} (r : MemoryJobRepository) (req : nat -> HttpReq) (orders orders' : nat -> list (string * Job)) (n : nat) (limit : Z) :
  (forall k, getPaginationParams (req k) = (limit, Z.of_nat k * limit)) -> (forall k x, x <> "offset" -> r_query (req k) x = r_query (req 0%nat) x) ->
  (forall k, orders k ≡ₚ map_to_list r) -> (forall k, orders' k ≡ₚ map_to_list r) ->
  let f := job_filter (req 0%nat) in distinct_keys f (matching f (map_to_list r)) -> CountJobs f (map_to_list r) <= Z.of_nat n * limit ->
  exists pages, (forall k, (k < n)%nat -> handler_List (orders k) (orders' k) (req k) = respondJSON 200 (BJobs (pages k) (CountJobs f (map_to_list r)) limit (Z.of_nat k * limit))) /\
    concat (map pages (seq 0 n)) ≡ₚ matching f (map_to_list r).
Proof.
  intros Hp Hq Ho Ho' f Hd Hn. assert (forall k, job_filter (req k) = with_offset f (Z.of_nat k * limit)) as Hf.
  { intros k. unfold f, job_filter, with_offset. rewrite !Hp. cbn. by rewrite !(Hq k) by done. }
  assert (0 < limit <= 100) as Hl by (pose proof (pagination_bounds _ _ _ (Hp 0%nat)); lia).
  assert (Limit f = limit) as Hlim by (unfold f, job_filter; by rewrite Hp).
  exists (fun k => ListJobs (with_offset f (Z.of_nat k * limit)) (orders k)). split.
  - intros k _. unfold handler_List, service_ListJobs. rewrite Hf. cbn [Limit Offset with_offset]. rewrite Hlim.
    assert (CountJobs (with_offset f (Z.of_nat k * limit)) (orders' k) = CountJobs f (map_to_list r)) as ->; [|done].
    unfold CountJobs. f_equal. apply Permutation_length. unfold matching. by rewrite (perm_filter _ _ _ (Permutation_map snd (Ho' k))).
  - destruct (pages_cover r f orders n) as [Hc _]; rewrite ?Hlim in *; try done.
Qed.
End Handlers.

(** ** The queue manager *)
(** What Asynq is told; a server that was shut down cannot run again. *)
Inductive ManagerCall := SchedulerRun | ServerRun | SchedulerShutdown | ServerShutdown | CloseClient | CloseInspector.
Record Manager := mkManager { running : bool; calls : list ManagerCall }.   (** the last call first *)
Section Manager.
(** What closing the client and the inspector answers. *)
Variables (close_client close_inspector : option string).
Definition Start (m : Manager) : Manager := if running m then m else mkManager true (ServerRun :: SchedulerRun :: calls m).
Definition Stop (m : Manager) : Manager * option string :=
  if running m then
    let l := CloseClient :: ServerShutdown :: SchedulerShutdown :: calls m in
    match close_client with
    | Some e => (mkManager true l, Some ("close client: " ++ e))
    | None => match close_inspector with
              | Some e => (mkManager true (CloseInspector :: l), Some ("close inspector: " ++ e))
              | None => (mkManager false (CloseInspector :: l), None)
              end
    end
  else (m, None).
Definition IsRunning (m : Manager) : bool := running m.
Lemma Stop_stopped m : (Stop m).2 = None -> IsRunning (Stop m).1 = false.
Proof. unfold Stop, IsRunning. destruct (running m) eqn:E; [|done]. by destruct close_client, close_inspector. Qed.
Lemma Start_once m : calls (Start (Start m)) = calls (Start m).
Proof. unfold Start. by destruct (running m) eqn:E; rewrite ?E. Qed.
End Manager.
(** Starting again after a stop runs a server that has been shut down, with a client
    that is closed. *)
Example started_again : calls (Start (Stop None None (Start (mkManager false []))).1) =
  [ServerRun; SchedulerRun; CloseInspector; CloseClient; ServerShutdown; SchedulerShutdown; ServerRun; SchedulerRun].
Proof. reflexivity. Qed.
