(* ===== verification/EventStore.v ===== *)
(** Events made, counted and stored: [internal/event/builder],
    [internal/event/subscribers/metrics_subscriber.go], the handlers of
    [internal/event/handlers], the repository
    [internal/event/repository/postgres_repository.go] and the HTTP handlers of
    [internal/api/handlers/events.go].

    The database is the [Querier] of [SqlRepositories].  A builder that has been
    asked for its event still shares its maps with the event; nothing uses one
    after that.  Times of the database have a resolution of their own. *)

From Stdlib Require Import ZArith Lia SpecFloat.
From stdpp Require Import base strings list gmap sorting.
From S2P Require Retry ApiHandlers.
From S2P Require Import Prelude GoStrings GoText GoValue EventBus SqlRepositories ApiBase.

#[local] Open Scope string_scope.
#[local] Open Scope list_scope.
#[local] Open Scope Z_scope.

Abbreviation Event := (EventBus.Event GoVal).
Abbreviation event_id := (EventBus.ID GoVal).
Abbreviation event_data := (EventBus.Data GoVal).

(** ** The types of events *)
Definition EventWorkflowStarted : string := "workflow.started".
Definition EventWorkflowCompleted : string := "workflow.completed".
Definition EventWorkflowFailed : string := "workflow.failed".
Definition EventJobEnqueued : string := "job.enqueued".
Definition EventJobStarted : string := "job.started".
Definition EventJobCompleted : string := "job.completed".
Definition EventJobFailed : string := "job.failed".
Definition EventAgentExecuted : string := "agent.executed".
Definition EventTestSuiteCompleted : string := "test.suite.completed".
Definition EventWebhookTriggered : string := "webhook.triggered".
Definition EventEmailSent : string := "email.sent".
Record EventTypeInfo := mkTypeInfo { ti_Type : string; ti_Description : string; ti_Category : string }.
Definition GetEventTypes : list EventTypeInfo :=
  [mkTypeInfo EventWorkflowStarted "Workflow execution has started" "workflow";
   mkTypeInfo EventWorkflowCompleted "Workflow execution completed successfully" "workflow";
   mkTypeInfo EventWorkflowFailed "Workflow execution failed" "workflow";
   mkTypeInfo EventJobEnqueued "Job has been added to the queue" "job";
   mkTypeInfo EventJobStarted "Job processing has started" "job";
   mkTypeInfo EventJobCompleted "Job completed successfully" "job";
   mkTypeInfo EventJobFailed "Job processing failed" "job";
   mkTypeInfo EventAgentExecuted "Agent has executed an action" "agent";
   mkTypeInfo EventTestSuiteCompleted "Test suite execution completed" "test";
   mkTypeInfo EventWebhookTriggered "Webhook was triggered" "webhook";
   mkTypeInfo EventEmailSent "Email was sent" "notification"].

(** ** The builder *)
Section Builder.
(** The new UUID and the time. *)
Variables (uuid : string) (now : Z).
Definition NewEvent (eventType : string) : Event := mkEvent GoVal uuid eventType "" now ∅ ∅.
Definition WithID (id : string) (b : Event) : Event := mkEvent GoVal id (ev_Type _ b) (Source _ b) (Timestamp _ b) (event_data b) (Metadata _ b).
Definition WithSource (source : string) (b : Event) : Event := mkEvent GoVal (event_id b) (ev_Type _ b) source (Timestamp _ b) (event_data b) (Metadata _ b).
Definition WithTimestamp (t : Z) (b : Event) : Event := mkEvent GoVal (event_id b) (ev_Type _ b) (Source _ b) t (event_data b) (Metadata _ b).
Definition WithData (key : string) (value : GoVal) (b : Event) : Event :=
  mkEvent GoVal (event_id b) (ev_Type _ b) (Source _ b) (Timestamp _ b) (<[key := value]> (event_data b)) (Metadata _ b).
Definition WithDataMap (data : Fields) (b : Event) : Event :=
  mkEvent GoVal (event_id b) (ev_Type _ b) (Source _ b) (Timestamp _ b) (data ∪ event_data b) (Metadata _ b).
Definition WithMetadata (key value : string) (b : Event) : Event :=
  mkEvent GoVal (event_id b) (ev_Type _ b) (Source _ b) (Timestamp _ b) (event_data b) (<[key := value]> (Metadata _ b)).
Definition WithMetadataMap (metadata : gmap string string) (b : Event) : Event :=
  mkEvent GoVal (event_id b) (ev_Type _ b) (Source _ b) (Timestamp _ b) (event_data b) (metadata ∪ Metadata _ b).

Definition WorkflowStarted (workflowID : string) : Event :=
  WithData "workflowID" (VString workflowID) (WithSource "workflow-engine" (NewEvent EventWorkflowStarted)).
Definition WorkflowCompleted (workflowID : string) (duration : spec_float) : Event :=
  WithData "duration" (VFloat64 duration) (WithData "workflowID" (VString workflowID) (WithSource "workflow-engine" (NewEvent EventWorkflowCompleted))).
Definition WorkflowFailed (workflowID err : string) : Event :=
  WithData "error" (VString err) (WithData "workflowID" (VString workflowID) (WithSource "workflow-engine" (NewEvent EventWorkflowFailed))).
Definition JobEnqueued (jobID jobType : string) : Event :=
  WithData "jobType" (VString jobType) (WithData "jobID" (VString jobID) (WithSource "job-queue" (NewEvent EventJobEnqueued))).
Definition JobStarted (jobID workerID : string) : Event :=
  WithData "workerID" (VString workerID) (WithData "jobID" (VString jobID) (WithSource "job-worker" (NewEvent EventJobStarted))).
Definition JobCompleted (jobID : string) (duration : spec_float) : Event :=
  WithData "duration" (VFloat64 duration) (WithData "jobID" (VString jobID) (WithSource "job-worker" (NewEvent EventJobCompleted))).
Definition JobFailed (jobID err : string) (attempts : Z) : Event :=
  WithData "attempts" (VInt attempts) (WithData "error" (VString err) (WithData "jobID" (VString jobID) (WithSource "job-worker" (NewEvent EventJobFailed)))).
Definition AgentExecuted (agentID action : string) : Event :=
  WithData "action" (VString action) (WithData "agentID" (VString agentID) (WithSource "agent-runtime" (NewEvent EventAgentExecuted))).
Definition TestSuiteCompleted (suiteID : string) (passed failed skipped : Z) : Event :=
  WithData "skipped" (VInt skipped) (WithData "failed" (VInt failed) (WithData "passed" (VInt passed)
    (WithData "suiteID" (VString suiteID) (WithSource "test-runner" (NewEvent EventTestSuiteCompleted))))).
Definition WebhookTriggered (webhookID url : string) : Event :=
  WithData "url" (VString url) (WithData "webhookID" (VString webhookID) (WithSource "webhook-service" (NewEvent EventWebhookTriggered))).
Definition EmailSent (emailID recipient : string) : Event :=
  WithData "recipient" (VString recipient) (WithData "emailID" (VString emailID) (WithSource "email-service" (NewEvent EventEmailSent))).
End Builder.

(** ** The handlers that log *)
(** Level, message and fields. *)
Record LogLine := mkLog { lg_Level : string; lg_Message : string; lg_Fields : list (string * GoVal) }.
(** [v, _ := event.Data[k].(T)]. *)
Definition string_at (k : string) (e : Event) : string := match event_data e !! k with Some (VString s) => s | _ => "" end.
Definition float_at (k : string) (e : Event) : spec_float := match event_data e !! k with Some (VFloat64 f) => f | _ => S754_zero false end.
Section Loggers.
(** [int(f)] beyond the range. *)
Variable overflow : spec_float -> Z.
(** Without a logger nothing is written; every other type is ignored. *)
Definition JobEventHandler_Handle (logger : bool) (e : Event) : list LogLine :=
  let id := ("eventID", VString (event_id e)) in let jobID := ("jobID", VString (string_at "jobID" e)) in
  if negb logger then [] else
  if String.eqb (ev_Type _ e) EventJobEnqueued then [mkLog "info" "job enqueued" [jobID; ("jobType", VString (string_at "jobType" e)); id]]
  else if String.eqb (ev_Type _ e) EventJobStarted then [mkLog "info" "job started" [jobID; ("workerID", VString (string_at "workerID" e)); id]]
  else if String.eqb (ev_Type _ e) EventJobCompleted then [mkLog "info" "job completed" [jobID; ("duration", VFloat64 (float_at "duration" e)); id]]
  else if String.eqb (ev_Type _ e) EventJobFailed then
    [mkLog "error" "job failed" [jobID; ("error", VString (string_at "error" e)); ("attempts", VInt (Retry.int_of_float overflow (float_at "attempts" e))); id]]
  else [].
Definition JobEventHandler_SupportedEventTypes : list string := [EventJobEnqueued; EventJobStarted; EventJobCompleted; EventJobFailed].
Definition WorkflowEventHandler_Handle (logger : bool) (e : Event) : list LogLine :=
  let id := ("eventID", VString (event_id e)) in let workflowID := ("workflowID", VString (string_at "workflowID" e)) in
  if negb logger then [] else
  if String.eqb (ev_Type _ e) EventWorkflowStarted then [mkLog "info" "workflow started" [workflowID; id]]
  else if String.eqb (ev_Type _ e) EventWorkflowCompleted then [mkLog "info" "workflow completed" [workflowID; ("duration", VFloat64 (float_at "duration" e)); id]]
  else if String.eqb (ev_Type _ e) EventWorkflowFailed then [mkLog "error" "workflow failed" [workflowID; ("error", VString (string_at "error" e)); id]]
  else [].
Definition WorkflowEventHandler_SupportedEventTypes : list string := [EventWorkflowStarted; EventWorkflowCompleted; EventWorkflowFailed].
End Loggers.

(** ** Counting *)
Record MetricsSubscriber := mkMetrics { counters : gmap string Z; typeCount : gmap string Z; sourceCount : gmap string Z }.
Definition NewMetricsSubscriber : MetricsSubscriber := mkMetrics ∅ ∅ ∅.
Definition count_of (k : string) (m : gmap string Z) : Z := default 0 (m !! k).
(** [m[k]++] on 64 bits. *)
Definition increment (k : string) (m : gmap string Z) : gmap string Z := <[k := wrap64 (count_of k m + 1)]> m.
Definition Metrics_Handle (e : Event) (s : MetricsSubscriber) : MetricsSubscriber :=
  mkMetrics (increment "total" (counters s)) (increment (ev_Type _ e) (typeCount s)) (increment (Source _ e) (sourceCount s)).
Definition GetTotalCount (s : MetricsSubscriber) : Z := count_of "total" (counters s).
Definition GetTypeCount (t : string) (s : MetricsSubscriber) : Z := count_of t (typeCount s).
Definition GetSourceCount (source : string) (s : MetricsSubscriber) : Z := count_of source (sourceCount s).
(** The total, and copies of the two maps. *)
Record Stats := mkStats { st_total : Z; st_by_type : gmap string Z; st_by_source : gmap string Z }.
Definition GetStats (s : MetricsSubscriber) : Stats := mkStats (GetTotalCount s) (typeCount s) (sourceCount s).
Definition Metrics_Reset (s : MetricsSubscriber) : MetricsSubscriber := NewMetricsSubscriber.
Definition counted (l : list Event) (s : MetricsSubscriber) : MetricsSubscriber := fold_left (fun s e => Metrics_Handle e s) l s.

(** ** The repository *)
Record EventFilter := mkEventFilter {
  ef_Types : list string; ef_Sources : list string; ef_StartTime : option Z; ef_EndTime : option Z; ef_Limit : Z; ef_Offset : Z }.
Inductive EventError :=
| MarshalingData (e : string) | MarshalingMetadata (e : string) | InsertingEvent (e : string) | EventNotFound | QueryingEvent (e : string)
| UnmarshalingData (e : string) | UnmarshalingMetadata (e : string) | QueryingEvents (e : string) | ScanningEvent (e : string) | IteratingEvents (e : string)
| CountingEvents (e : string) | DeletingEvents (e : string) | RowsAffectedFailed (e : string) | CreatingTable (e : string).
Definition EventError_Error (e : EventError) : string :=
  match e with
  | MarshalingData e => "marshaling event data: " +:+ e
  | MarshalingMetadata e => "marshaling event metadata: " +:+ e
  | InsertingEvent e => "inserting event: " +:+ e
  | EventNotFound => "event not found"
  | QueryingEvent e => "querying event: " +:+ e
  | UnmarshalingData e => "unmarshaling event data: " +:+ e
  | UnmarshalingMetadata e => "unmarshaling event metadata: " +:+ e
  | QueryingEvents e => "querying events: " +:+ e
  | ScanningEvent e => "scanning event: " +:+ e
  | IteratingEvents e => "iterating events: " +:+ e
  | CountingEvents e => "counting events: " +:+ e
  | DeletingEvents e => "deleting old events: " +:+ e
  | RowsAffectedFailed e => "getting rows affected: " +:+ e
  | CreatingTable e => "creating events table: " +:+ e
  end.

(** *** The statements *)
Definition event_columns : string := "SELECT id, type, source, timestamp, data, metadata".
Definition insert_event : string := raw ["INSERT INTO events (id, type, source, timestamp, data, metadata)"; "VALUES ($1, $2, $3, $4, $5, $6)"].
Definition event_by_id : string := raw [event_columns; "FROM events"; "WHERE id = $1"].
Definition delete_old_events : string := "DELETE FROM events WHERE timestamp < $1".
Definition create_events_table : string :=
  let line n s := String newline (String.concat "" (repeat (String tab "") n) +:+ s) in
  line 2%nat "CREATE TABLE IF NOT EXISTS events (" +:+ line 3%nat "id VARCHAR(36) PRIMARY KEY," +:+ line 3%nat "type VARCHAR(100) NOT NULL," +:+
  line 3%nat "source VARCHAR(255) NOT NULL," +:+ line 3%nat "timestamp TIMESTAMP WITH TIME ZONE NOT NULL," +:+ line 3%nat "data JSONB NOT NULL DEFAULT '{}'," +:+
  line 3%nat "metadata JSONB NOT NULL DEFAULT '{}'" +:+ line 2%nat ");" +:+ line 0%nat "" +:+
  line 2%nat "CREATE INDEX IF NOT EXISTS idx_events_type ON events(type);" +:+ line 2%nat "CREATE INDEX IF NOT EXISTS idx_events_source ON events(source);" +:+
  line 2%nat "CREATE INDEX IF NOT EXISTS idx_events_timestamp ON events(timestamp);" +:+ line 1%nat "".

Definition placeholder (n : Z) : string := "$" +:+ Itoa n.
(** The text so far, its operands, and the number of the next one. *)
Abbreviation Built := (string * list SqlVal * Z)%type.
Definition add_in (column : string) (values : list string) (b : Built) : Built :=
  let '(query, args, argNum) := b in
  match values with
  | [] => b
  | _ => (query +:+ " AND " +:+ column +:+ " IN (" +:+ Join (imap (fun i _ => placeholder (argNum + Z.of_nat i)) values) ", " +:+ ")",
          args ++ map SText values, argNum + Z.of_nat (length values))
  end.
Definition add_time (op : string) (t : option Z) (b : Built) : Built :=
  let '(query, args, argNum) := b in
  match t with
  | None => b
  | Some t => (query +:+ " AND timestamp " +:+ op +:+ " " +:+ placeholder argNum, args ++ [STime t], argNum + 1)
  end.
Definition add_int (keyword : string) (n : Z) (b : Built) : Built :=
  let '(query, args, argNum) := b in
  if 0 <? n then (query +:+ " " +:+ keyword +:+ " " +:+ placeholder argNum, args ++ [SInt n], argNum + 1) else b.
Definition buildFilterQuery (f : EventFilter) (countOnly : bool) : string * list SqlVal :=
  let b := ((if countOnly then "SELECT COUNT(*)" else event_columns) +:+ " FROM events WHERE 1=1", [], 1) in
  let b := add_in "type" (ef_Types f) b in
  let b := add_in "source" (ef_Sources f) b in
  let b := add_time ">=" (ef_StartTime f) b in
  let b := add_time "<=" (ef_EndTime f) b in
  if countOnly then b.1 else
    let '(query, args, argNum) := b in (add_int "OFFSET" (ef_Offset f) (add_int "LIMIT" (ef_Limit f) (query +:+ " ORDER BY timestamp DESC", args, argNum))).1.

Section Repository.
(** JSON of the two maps; [RFC3339Nano]; what [Scan] says of a row that does not
    fit. *)
Variables (MarshalData : Fields -> result string string) (UnmarshalData : string -> result string Fields)
  (MarshalMetadata : gmap string string -> result string string) (UnmarshalMetadata : string -> result string (gmap string string))
  (FormatTime : Z -> string) (scan_error : list SqlVal -> string).
Context {Db : Type} (db : Querier Db).

Definition wrap_err {A E E'} (f : E -> E') (r : result E A) : result E' A := match r with Ok a => Ok a | Err e => Err (f e) end.
Definition SaveEvent (e : Event) (s : Db) : Db * result EventError unit :=
  match MarshalData (event_data e) with
  | Err err => (s, Err (MarshalingData err))
  | Ok dataJSON =>
      match MarshalMetadata (Metadata _ e) with
      | Err err => (s, Err (MarshalingMetadata err))
      | Ok metadataJSON =>
          let '(s, r) := ExecContext db insert_event
            [SText (event_id e); SText (ev_Type _ e); SText (Source _ e); STime (Timestamp _ e); SText dataJSON; SText metadataJSON] s in
          (s, match r with Ok _ => Ok tt | Err err => Err (InsertingEvent err) end)
      end
  end.

(** Into a [[]byte]: [NULL] is no bytes. *)
Definition scan_bytes (v : SqlVal) : option string := match v with SNull => Some "" | v => scan_text FormatTime v end.
Definition scanEvent (failed : string -> EventError) (row : list SqlVal) : result EventError Event :=
  match row with
  | [id; ty; source; time; data; metadata] =>
      match scan_text FormatTime id, scan_text FormatTime ty, scan_text FormatTime source, scan_time time, scan_bytes data, scan_bytes metadata with
      | Some id, Some ty, Some source, Some time, Some dataJSON, Some metadataJSON =>
          let? d := wrap_err UnmarshalingData (UnmarshalData dataJSON) in
          let? m := wrap_err UnmarshalingMetadata (UnmarshalMetadata metadataJSON) in
          Ok (mkEvent GoVal id ty source time d m)
      | _, _, _, _, _, _ => Err (failed (scan_error row))
      end
  | _ => Err (failed (scan_error row))
  end%go.
Definition GetEvent (eventID : string) (s : Db) : result EventError Event :=
  match QueryRowContext db event_by_id [SText eventID] s with
  | Err None => Err EventNotFound
  | Err (Some err) => Err (QueryingEvent err)
  | Ok row => scanEvent QueryingEvent row
  end.
(** The rows that come before a failure of the iteration are read first. *)
Fixpoint scan_events (rows : list (list SqlVal)) : result EventError (list Event) :=
  match rows with
  | [] => Ok []
  | row :: rows => let? e := scanEvent ScanningEvent row in let? l := scan_events rows in Ok (e :: l)
  end%go.
Definition queryEvents (q : string * list SqlVal) (s : Db) : result EventError (list Event) :=
  match QueryContext db q.1 q.2 s with
  | Err err => Err (QueryingEvents err)
  | Ok (rows, broken) =>
      let? l := scan_events rows in match broken with None => Ok l | Some err => Err (IteratingEvents err) end
  end%go.
Definition ListEvents (f : EventFilter) (s : Db) : result EventError (list Event) := queryEvents (buildFilterQuery f false) s.
Definition GetEventsByType (eventType : string) (limit : Z) (s : Db) : result EventError (list Event) := ListEvents (mkEventFilter [eventType] [] None None limit 0) s.
Definition GetEventsBySource (source : string) (limit : Z) (s : Db) : result EventError (list Event) := ListEvents (mkEventFilter [] [source] None None limit 0) s.
Definition CountEvents (f : EventFilter) (s : Db) : result EventError Z :=
  let q := buildFilterQuery f true in
  match QueryRowContext db q.1 q.2 s with
  | Ok [SInt n] => Ok n
  | Ok row => Err (CountingEvents (scan_error row))
  | Err None => Err (CountingEvents "sql: no rows in result set")
  | Err (Some err) => Err (CountingEvents err)
  end.
Definition DeleteOldEvents (before : Z) (s : Db) : Db * result EventError Z :=
  let '(s, r) := ExecContext db delete_old_events [STime before] s in
  (s, match r with Err err => Err (DeletingEvents err) | Ok (Err err) => Err (RowsAffectedFailed err) | Ok (Ok n) => Ok n end).
Definition CreateEventsTable (s : Db) : Db * result EventError unit :=
  let '(s, r) := ExecContext db create_events_table [] s in (s, match r with Err err => Err (CreatingTable err) | Ok _ => Ok tt end).

(** ** The HTTP handlers *)
Inductive Body :=
| BEvents (l : ApiHandlers.ListResponse Event) | BEvent (e : Event) | BEventTypes (l : list EventTypeInfo)
| BEventStats (total : Z) (by_type by_source : gmap string Z).
(** An event is answered with the fields it has. *)
Definition EventFromBus (e : Event) : Event := mkEvent GoVal (event_id e) (ev_Type _ e) (Source _ e) (Timestamp _ e) (event_data e) (Metadata _ e).
Definition EventsFromBus (l : list Event) : list Event := map EventFromBus l.
(** [time.Parse] with [RFC3339]. *)
Variable ParseTime : string -> result string Z.
Definition time_param (r : HttpReq) (name : string) : option Z :=
  if String.eqb (r_query r name) "" then None else match ParseTime (r_query r name) with Ok t => Some t | Err _ => None end.
Definition text_param (r : HttpReq) (name : string) : list string := if String.eqb (r_query r name) "" then [] else [r_query r name].
Definition filter_of (r : HttpReq) : EventFilter :=
  let '(limit, offset) := getPaginationParams r in
  mkEventFilter (text_param r "type") (text_param r "source") (time_param r "start_time") (time_param r "end_time") limit offset.
Definition handler_ListEvents (r : HttpReq) (s : Db) : Response Body :=
  let '(limit, offset) := getPaginationParams r in
  match ListEvents (filter_of r) s with
  | Err _ => respondError 500 "failed to list events"
  | Ok l => respondJSON 200 (BEvents (ApiHandlers.NewListResponse (EventsFromBus l) limit offset))
  end.
Definition handler_GetEvent (r : HttpReq) (s : Db) : Response Body :=
  match GetEvent (r_id r) s with
  | Err EventNotFound => respondError 404 "event not found"
  | Err _ => respondError 500 "failed to get event"
  | Ok e => respondJSON 200 (BEvent (EventFromBus e))
  end.
Definition handler_ListEventTypes (r : HttpReq) (s : Db) : Response Body := respondJSON 200 (BEventTypes GetEventTypes).
Definition handler_GetEventStats (metrics : option MetricsSubscriber) (r : HttpReq) (s : Db) : Response Body :=
  match metrics with
  | Some m => let stats := GetStats m in respondJSON 200 (BEventStats (GetTotalCount m) (st_by_type stats) (st_by_source stats))
  | None =>
      match CountEvents (mkEventFilter [] [] None None 0 0) s with
      | Err _ => respondError 500 "failed to get event stats"
      | Ok total => respondJSON 200 (BEventStats total ∅ ∅)
      end
  end.

(** ** What the statements mean *)
(** A row of the table, and a condition with the numbers of its operands. *)
Record Row := mkRow { w_id : string; w_type : string; w_source : string; w_time : Z; w_data : string; w_metadata : string }.
Inductive Column := CType | CSource.
Inductive Condition := OneOf (c : Column) (operands : list Z) | Since (operand : Z) | Until (operand : Z).
Record Statement := mkStatement { counting : bool; conditions : list Condition; limited : option Z; skipped : option Z }.
Definition column_text (c : Column) : string := match c with CType => "type" | CSource => "source" end.
Definition condition_text (c : Condition) : string :=
  match c with
  | OneOf c ks => " AND " +:+ column_text c +:+ " IN (" +:+ Join (map placeholder ks) ", " +:+ ")"
  | Since k => " AND timestamp >= " +:+ placeholder k
  | Until k => " AND timestamp <= " +:+ placeholder k
  end.
Definition clause_text (keyword : string) (k : option Z) : string := match k with Some k => " " +:+ keyword +:+ " " +:+ placeholder k | None => "" end.
Definition statement_text (st : Statement) : string :=
  (if counting st then "SELECT COUNT(*)" else event_columns) +:+ " FROM events WHERE 1=1" +:+ foldr String.append "" (map condition_text (conditions st)) +:+
  (if counting st then "" else " ORDER BY timestamp DESC" +:+ clause_text "LIMIT" (limited st) +:+ clause_text "OFFSET" (skipped st)).

(** What the database makes of a time: a microsecond for PostgreSQL. *)
Variable keep : Z -> Z.
Definition operand (args : list SqlVal) (k : Z) : SqlVal := nth (Z.to_nat (k - 1)) args SNull.
Definition column_of (c : Column) (r : Row) : string := match c with CType => w_type r | CSource => w_source r end.
Definition equals_text (v : SqlVal) (s : string) : bool := match v with SText t => String.eqb t s | _ => false end.
Definition holds (args : list SqlVal) (r : Row) (c : Condition) : bool :=
  match c with
  | OneOf c ks => existsb (fun k => equals_text (operand args k) (column_of c r)) ks
  | Since k => match operand args k with STime t => keep t <=? w_time r | _ => false end
  | Until k => match operand args k with STime t => w_time r <=? keep t | _ => false end
  end.
Definition selected (args : list SqlVal) (st : Statement) (rows : list Row) : list Row := List.filter (fun r => forallb (holds args r) (conditions st)) rows.
Definition number (args : list SqlVal) (k : option Z) : option Z := match k with Some k => match operand args k with SInt n => Some n | _ => None end | None => None end.
Definition page {A} (limit offset : option Z) (l : list A) : list A :=
  let l := match offset with Some n => drop (Z.to_nat n) l | None => l end in match limit with Some n => take (Z.to_nat n) l | None => l end.
Definition newest (a b : Row) : Prop := w_time b <= w_time a.
Definition cells (r : Row) : list SqlVal := [SText (w_id r); SText (w_type r); SText (w_source r); STime (w_time r); SText (w_data r); SText (w_metadata r)].

(** The rows of the table; what the type [JSONB] makes of a text. *)
Variables (rows : Db -> list Row) (normal : string -> string).
(** The database answers a statement by its meaning.  Rows of the same time come in
    any order. *)
Definition serves (st : Statement) : Prop := forall args s,
  if counting st then QueryRowContext db (statement_text st) args s = Ok [SInt (Z.of_nat (length (selected args st (rows s))))]
  else exists l, l ≡ₚ selected args st (rows s) /\ Sorted newest l /\
         QueryContext db (statement_text st) args s = Ok (map cells (page (number args (limited st)) (number args (skipped st)) l), None).
(** An insertion that is accepted adds its row, one that is not changes nothing; a
    JSON value is kept. *)
Class EventTable : Prop := {
  et_insert id ty source t data metadata s s' r : ExecContext db insert_event [SText id; SText ty; SText source; STime t; SText data; SText metadata] s = (s', r) ->
    match r with
    | Ok _ => rows s' = rows s ++ [mkRow id ty source (keep t) (normal data) (normal metadata)]
    | Err _ => rows s' = rows s
    end;
  et_get id s : QueryRowContext db event_by_id [SText id] s =
    match List.find (fun r => String.eqb id (w_id r)) (rows s) with Some r => Ok (cells r) | None => Err None end;
  et_delete t s : exists s' , ExecContext db delete_old_events [STime t] s =
      (s', Ok (Ok (Z.of_nat (length (List.filter (fun r => w_time r <? keep t) (rows s)))))) /\ rows s' = List.filter (fun r => negb (w_time r <? keep t)) (rows s);
  et_data text : UnmarshalData (normal text) = UnmarshalData text;
  et_metadata text : UnmarshalMetadata (normal text) = UnmarshalMetadata text }.

(** *** The statement that is built *)
(** A condition with its operands. *)
Inductive Piece := POneOf (c : Column) (values : list string) | PSince (t : Z) | PUntil (t : Z).
Definition one_of (c : Column) (l : list string) : list Piece := match l with [] => [] | _ => [POneOf c l] end.
Definition bound (p : Z -> Piece) (t : option Z) : list Piece := match t with Some t => [p t] | None => [] end.
Definition pieces (f : EventFilter) : list Piece :=
  one_of CType (ef_Types f) ++ one_of CSource (ef_Sources f) ++ bound PSince (ef_StartTime f) ++ bound PUntil (ef_EndTime f).
Definition piece_values (p : Piece) : list SqlVal := match p with POneOf _ l => map SText l | PSince t | PUntil t => [STime t] end.
Definition piece_condition (n : Z) (p : Piece) : Condition :=
  match p with POneOf c l => OneOf c (seqZ n (Z.of_nat (length l))) | PSince _ => Since n | PUntil _ => Until n end.
Fixpoint piece_conditions (n : Z) (ps : list Piece) : list Condition :=
  match ps with [] => [] | p :: ps => piece_condition n p :: piece_conditions (n + Z.of_nat (length (piece_values p))) ps end.
Definition piece_operands (ps : list Piece) : list SqlVal := concat (map piece_values ps).
Definition optional_int (n : Z) : list SqlVal := if 0 <? n then [SInt n] else [].
Definition statement_of (f : EventFilter) (countOnly : bool) : Statement :=
  let n := Z.of_nat (length (piece_operands (pieces f))) in
  mkStatement countOnly (piece_conditions 1 (pieces f)) (if 0 <? ef_Limit f then Some (n + 1) else None)
    (if 0 <? ef_Offset f then Some (n + 1 + Z.of_nat (length (optional_int (ef_Limit f)))) else None).
Definition operands_of (f : EventFilter) (countOnly : bool) : list SqlVal :=
  piece_operands (pieces f) ++ if countOnly then [] else optional_int (ef_Limit f) ++ optional_int (ef_Offset f).
Definition piece_holds (r : Row) (p : Piece) : bool :=
  match p with
  | POneOf c l => existsb (fun s => String.eqb s (column_of c r)) l
  | PSince t => keep t <=? w_time r
  | PUntil t => w_time r <=? keep t
  end.

(** An event [e], and [e'] that is stored for it: a number in its data, say, is read
    as a float. *)
Definition kept (e e' : Event) : Prop := exists data metadata d m,
  MarshalData (event_data e) = Ok data /\ UnmarshalData data = Ok d /\ MarshalMetadata (Metadata _ e) = Ok metadata /\ UnmarshalMetadata metadata = Ok m /\
  e' = mkEvent GoVal (event_id e) (ev_Type _ e) (Source _ e) (keep (Timestamp _ e)) d m.
(** The table holds these events. *)
Definition contains (l : list Event) (s : Db) : Prop := Forall2 (fun e r => forall failed, scanEvent failed (cells r) = Ok e) l (rows s).
(** Whether a filter selects an event. *)
Definition none_or_in (l : list string) (s : string) : bool := match l with [] => true | _ => existsb (String.eqb s) l end.
Definition event_matches (f : EventFilter) (e : Event) : bool :=
  none_or_in (ef_Types f) (ev_Type _ e) && none_or_in (ef_Sources f) (Source _ e) &&
  match ef_StartTime f with Some t => keep t <=? Timestamp _ e | None => true end &&
  match ef_EndTime f with Some t => Timestamp _ e <=? keep t | None => true end.
Definition filter_page (f : EventFilter) (l : list Event) : list Event :=
  page (if 0 <? ef_Limit f then Some (ef_Limit f) else None) (if 0 <? ef_Offset f then Some (ef_Offset f) else None) l.

Lemma imap_placeholders n (l : list string) : imap (fun i _ => placeholder (n + Z.of_nat i)) l = map placeholder (seqZ n (Z.of_nat (length l))).
Proof.
  apply list_eq. intros i. rewrite list_lookup_imap. change (map placeholder (seqZ n (Z.of_nat (length l)))) with (placeholder <$> seqZ n (Z.of_nat (length l))). rewrite list_lookup_fmap.
  destruct (l !! i) as [x|] eqn:E; cbn.
  - apply lookup_lt_Some in E. by rewrite lookup_seqZ_lt by lia.
  - apply lookup_ge_None in E. by rewrite lookup_seqZ_ge by lia.
Qed.
Definition add_piece (b : Built) (p : Piece) : Built :=
  let '(query, args, n) := b in (query +:+ condition_text (piece_condition n p), args ++ piece_values p, n + Z.of_nat (length (piece_values p))).
Lemma add_pieces ps q args n :
  fold_left add_piece ps (q, args, n) = (q +:+ foldr String.append "" (map condition_text (piece_conditions n ps)), args ++ piece_operands ps, n + Z.of_nat (length (piece_operands ps))).
Proof.
  revert q args n. induction ps as [|p ps IH]; intros q args n; cbn [fold_left piece_conditions map foldr piece_operands concat].
  - by rewrite sapp_nil_r, app_nil_r, Z.add_0_r.
  - unfold add_piece at 2. rewrite IH. change (concat (map piece_values (p :: ps))) with (piece_values p ++ piece_operands ps). rewrite sapp_assoc, length_app, app_assoc. f_equal. unfold piece_operands. lia.
Qed.
Lemma add_in_piece c l b : add_in (column_text c) l b = fold_left add_piece (one_of c l) b.
Proof. destruct b as [[q args] n], l as [|x l]; [done|]. unfold add_in, add_piece. cbn [one_of fold_left piece_condition condition_text piece_values]. by rewrite imap_placeholders, length_map. Qed.
Lemma add_since t b : add_time ">=" t b = fold_left add_piece (bound PSince t) b.
Proof. destruct b as [[q args] n]. by destruct t. Qed.
Lemma add_until t b : add_time "<=" t b = fold_left add_piece (bound PUntil t) b.
Proof. destruct b as [[q args] n]. by destruct t. Qed.
Lemma build_eq f c : buildFilterQuery f c = (statement_text (statement_of f c), operands_of f c).
Proof.
  unfold buildFilterQuery. change "type" with (column_text CType). change "source" with (column_text CSource).
  rewrite !add_in_piece, add_since, add_until, <- !fold_left_app. fold (pieces f). rewrite add_pieces.
  unfold statement_text, statement_of, operands_of. cbn [counting conditions limited skipped app]. destruct c.
  - by rewrite app_nil_r, sapp_nil_r, !sapp_assoc.
  - rewrite !(Z.add_comm 1). unfold add_int, optional_int, clause_text. destruct (0 <? ef_Limit f), (0 <? ef_Offset f); cbn [fst app length]; rewrite ?app_nil_r, ?sapp_assoc, <- ?app_assoc, ?sapp_nil_r; cbn [app]; try done.
    do 2 f_equal. all: by rewrite ?Z.add_0_r.
Qed.

Lemma operand_at pre (x : SqlVal) post : operand (pre ++ x :: post) (Z.of_nat (length pre) + 1) = x.
Proof. unfold operand. rewrite Z.add_simpl_r, Nat2Z.id, app_nth2 by lia. by rewrite Nat.sub_diag. Qed.
Lemma one_of_holds pre l post (s : string) : existsb (fun k => equals_text (operand (pre ++ map SText l ++ post) k) s) (seqZ (Z.of_nat (length pre) + 1) (Z.of_nat (length l))) = existsb (fun t => String.eqb t s) l.
Proof.
  revert pre. induction l as [|x l IH]; intros pre; [done|]. cbn [map app length existsb]. rewrite seqZ_cons by lia. cbn [existsb]. rewrite operand_at. cbn [equals_text]. f_equal.
  specialize (IH (pre ++ [SText x])). rewrite <- app_assoc, length_app in IH. cbn [app length] in IH. rewrite <- IH. f_equal. f_equal; lia.
Qed.
Lemma piece_meaning pre p post r : holds (pre ++ piece_values p ++ post) r (piece_condition (Z.of_nat (length pre) + 1) p) = piece_holds r p.
Proof. destruct p as [c l|t|t]; cbn [piece_condition holds piece_values piece_holds]; [apply one_of_holds|cbn [app]; by rewrite operand_at..]. Qed.
Lemma pieces_meaning ps r : forall pre post, forallb (holds (pre ++ piece_operands ps ++ post) r) (piece_conditions (Z.of_nat (length pre) + 1) ps) = forallb (piece_holds r) ps.
Proof.
  induction ps as [|p ps IH]; intros pre post; [done|]. cbn [piece_conditions forallb]. change (piece_operands (p :: ps)) with (piece_values p ++ piece_operands ps). rewrite <- app_assoc, piece_meaning. f_equal.
  rewrite app_assoc, <- IH with (pre := pre ++ piece_values p) (post := post). rewrite length_app. f_equal. f_equal. lia.
Qed.
Lemma column_holds c l r (rest : list Piece) : forallb (piece_holds r) (one_of c l ++ rest) = none_or_in l (column_of c r) && forallb (piece_holds r) rest.
Proof.
  destruct l as [|x l]; [done|]. cbn [one_of app forallb piece_holds none_or_in]. f_equal. generalize (x :: l) as l'. induction l' as [|y l' IH]; [done|]. cbn. by rewrite IH, String.eqb_sym.
Qed.
Lemma selects_matching f c (rs : list Row) (ev : Row -> Event) :
  (forall r, In r rs -> ev_Type _ (ev r) = w_type r /\ Source _ (ev r) = w_source r /\ Timestamp _ (ev r) = w_time r) ->
  map ev (selected (operands_of f c) (statement_of f c) rs) = List.filter (event_matches f) (map ev rs).
Proof.
  intros Hev. unfold selected, statement_of, operands_of. cbn [conditions]. induction rs as [|r rs IH]; [done|]. cbn [List.filter map].
  pose proof (pieces_meaning (pieces f) r [] (if c then [] else optional_int (ef_Limit f) ++ optional_int (ef_Offset f))) as Hp. cbn [app length] in Hp. change (Z.of_nat 0 + 1) with 1 in Hp. rewrite Hp. clear Hp. destruct (Hev r) as (Ht & Hs & Hm); [by left|].
  assert (forallb (piece_holds r) (pieces f) = event_matches f (ev r)) as ->.
  { unfold pieces, event_matches. rewrite !column_holds, Ht, Hs, Hm. destruct (ef_StartTime f), (ef_EndTime f); cbn; by rewrite ?andb_true_r, ?andb_assoc. }
  rewrite <- IH by (intros x Hx; apply Hev; by right). by destruct (event_matches f (ev r)).
Qed.
Lemma page_numbers f : number (operands_of f false) (limited (statement_of f false)) = (if 0 <? ef_Limit f then Some (ef_Limit f) else None) /\
  number (operands_of f false) (skipped (statement_of f false)) = (if 0 <? ef_Offset f then Some (ef_Offset f) else None).
Proof.
  unfold operands_of, statement_of. cbn [limited skipped]. set (a := piece_operands (pieces f)). unfold number, optional_int. split.
  - destruct (0 <? ef_Limit f); [|done]. cbn [app]. by rewrite operand_at.
  - destruct (0 <? ef_Offset f); [|done]. destruct (0 <? ef_Limit f); cbn [app length].
    + change (SInt (ef_Limit f) :: [SInt (ef_Offset f)]) with ([SInt (ef_Limit f)] ++ [SInt (ef_Offset f)]). rewrite (app_assoc a). replace (Z.of_nat (length a) + 1 + Z.of_nat 1) with (Z.of_nat (length (a ++ [SInt (ef_Limit f)])) + 1) by (rewrite length_app; cbn; lia). by rewrite operand_at.
    + by rewrite Z.add_0_r, operand_at.
Qed.
Lemma map_page {A B} (g : A -> B) limit offset l : map g (page limit offset l) = page limit offset (map g l).
Proof. unfold page. destruct limit, offset; cbv zeta; by rewrite ?skipn_map, ?firstn_map. Qed.

(** *** Stored events *)
Definition dummy : Event := mkEvent GoVal "" "" "" 0 ∅ ∅.
Definition event_of (r : Row) : Event := match scanEvent ScanningEvent (cells r) with Ok e => e | Err _ => dummy end.
Lemma scan_cells e r failed : scanEvent failed (cells r) = Ok e -> event_id e = w_id r /\ ev_Type _ e = w_type r /\ Source _ e = w_source r /\ Timestamp _ e = w_time r.
Proof. unfold scanEvent, cells. cbn. destruct (UnmarshalData _); [|done]. cbn. destruct (UnmarshalMetadata _); [|done]. cbn. by intros [= <-]. Qed.
Lemma contains_map l s : contains l s -> l = map event_of (rows s) /\ forall r, In r (rows s) -> forall failed, scanEvent failed (cells r) = Ok (event_of r).
Proof.
  unfold contains. generalize (rows s) as rs. intros rs. induction 1 as [|e r l rs He _ [-> IH]]; [done|]. cbn [map].
  assert (event_of r = e) as Hr by (unfold event_of; by rewrite He). split; [by rewrite Hr|]. intros r' [<-|Hin] failed; [by rewrite Hr|by apply IH].
Qed.
Lemma scan_events_of rs : (forall r, In r rs -> forall failed, scanEvent failed (cells r) = Ok (event_of r)) -> scan_events (map cells rs) = Ok (map event_of rs).
Proof. induction rs as [|r rs IH]; intros H; [done|]. cbn [map scan_events]. rewrite H by (by left). cbn. rewrite IH; [done|]. intros x Hx. apply H. by right. Qed.
Lemma page_In {A} limit offset (l : list A) x : In x (page limit offset l) -> In x l.
Proof.
  assert (forall n (l : list A), In x (take n l) -> In x l) as Ht by (intros n l' H; rewrite <- (firstn_skipn n l'); apply in_app_iff; by left).
  assert (forall n (l : list A), In x (drop n l) -> In x l) as Hd by (intros n l' H; rewrite <- (firstn_skipn n l'); apply in_app_iff; by right).
  unfold page. destruct limit, offset; cbv zeta; eauto.
Qed.
Lemma contains_filter (p : Event -> bool) (q : Row -> bool) l s : contains l s -> (forall r, In r (rows s) -> q r = p (event_of r)) ->
  Forall2 (fun e r => forall failed, scanEvent failed (cells r) = Ok e) (List.filter p l) (List.filter q (rows s)).
Proof.
  unfold contains. intros H Hq. revert Hq. induction H as [|e r l rs He H IH]; intros Hq; [done|]. cbn [List.filter]. rewrite (Hq r) by (by left). unfold event_of. rewrite He.
  assert (Forall2 (fun e r => forall failed, scanEvent failed (cells r) = Ok e) (List.filter p l) (List.filter q rs)) by (apply IH; intros x Hx; apply Hq; by right).
  destruct (p e); [by constructor|done].
Qed.

Section Laws.
Context {ET : EventTable}.
Lemma saved_event e e' l s : contains l s -> kept e e' ->
  match SaveEvent e s with (s', Ok _) => contains (l ++ [e']) s' | (s', Err _) => contains l s' end.
Proof.
  intros Hc (data & metadata & d & m & Hd & Hd' & Hm & Hm' & ->). unfold SaveEvent. rewrite Hd, Hm.
  destruct (ExecContext db insert_event _ s) as [s' r] eqn:E. apply et_insert in E. unfold contains in *. destruct r; rewrite E; [|done].
  apply Forall2_app; [done|]. constructor; [|constructor]. intros failed. unfold scanEvent, cells. cbn. by rewrite et_data, et_metadata, Hd', Hm'.
Qed.
Lemma unencodable e s : (exists err, MarshalData (event_data e) = Err err) \/ (exists err, MarshalMetadata (Metadata _ e) = Err err) ->
  exists err, SaveEvent e s = (s, Err err).
Proof. unfold SaveEvent. intros [[err ->]|[err H]]; [by eexists|]. destruct (MarshalData _); [rewrite H|]; by eexists. Qed.
Lemma deleted_events t l s : contains l s -> exists s',
  DeleteOldEvents t s = (s', Ok (Z.of_nat (length (List.filter (fun e => Timestamp _ e <? keep t) l)))) /\ contains (List.filter (fun e => negb (Timestamp _ e <? keep t)) l) s'.
Proof.
  intros Hc. destruct (et_delete t s) as (s' & He & Hr). exists s'. unfold DeleteOldEvents. rewrite He.
  destruct (contains_map l s Hc) as [_ Hs].
  assert (forall r, In r (rows s) -> (w_time r <? keep t) = (Timestamp _ (event_of r) <? keep t)) as Ht.
  { intros r Hr'. pose proof (scan_cells _ _ _ (Hs r Hr' ScanningEvent)) as (_ & _ & _ & ->). done. }
  split; [do 3 f_equal; symmetry; by eapply Forall2_length, contains_filter|]. unfold contains. rewrite Hr. apply contains_filter; [done|]. intros r Hr'. by rewrite Ht.
Qed.
Lemma got_event l s id : contains l s -> GetEvent id s = match List.find (fun e => String.eqb id (event_id e)) l with Some e => Ok e | None => Err EventNotFound end.
Proof.
  intros Hc. unfold GetEvent. rewrite et_get. unfold contains in Hc. induction Hc as [|e r l rs He Hc IH]; [done|]. cbn [List.find].
  destruct (scan_cells _ _ _ (He ScanningEvent)) as (-> & _). destruct (String.eqb id (w_id r)); [apply He|exact IH].
Qed.
Lemma listed_events f l s : contains l s -> serves (statement_of f false) -> exists l',
  l' ≡ₚ List.filter (event_matches f) l /\ Sorted (fun a b => Timestamp _ b <= Timestamp _ a) l' /\ ListEvents f s = Ok (filter_page f l').
Proof.
  intros Hc Hq. destruct (contains_map l s Hc) as [Hl Hs]. destruct (Hq (operands_of f false) s) as (rs & Hp & Hsort & He). exists (map event_of rs).
  assert (forall r, In r rs -> In r (rows s)) as Hin.
  { intros r Hr. apply list_elem_of_In in Hr. rewrite Hp in Hr. apply list_elem_of_In, List.filter_In in Hr. by destruct Hr. }
  split; [|split].
  - rewrite Hp, Hl. by rewrite selects_matching by (intros r Hr; by destruct (scan_cells _ _ _ (Hs r Hr ScanningEvent)) as (_ & ? & ? & ?)).
  - clear -Hsort Hin Hs. induction Hsort as [|r rs Hsort IH Hhd]; [constructor|]. cbn [map]. constructor; [apply IH; intros x Hx; apply Hin; by right|].
    destruct Hhd as [|r' rs' Hle]; cbn [map]; constructor. destruct (scan_cells _ _ _ (Hs r (Hin r (or_introl eq_refl)) ScanningEvent)) as (_ & _ & _ & ->).
    destruct (scan_cells _ _ _ (Hs r' (Hin r' (or_intror (or_introl eq_refl))) ScanningEvent)) as (_ & _ & _ & ->). exact Hle.
  - unfold ListEvents, queryEvents. rewrite build_eq. cbn [fst snd]. rewrite He. destruct (page_numbers f) as [-> ->]. rewrite scan_events_of by (intros r Hr; apply Hs, Hin; by eapply page_In). cbn.
    unfold filter_page. by rewrite map_page.
Qed.
Lemma counted_events f l s : contains l s -> serves (statement_of f true) -> CountEvents f s = Ok (Z.of_nat (length (List.filter (event_matches f) l))).
Proof.
  intros Hc Hq. destruct (contains_map l s Hc) as [Hl Hs]. unfold CountEvents. rewrite build_eq. cbn [fst snd]. pose proof (Hq (operands_of f true) s) as He. cbn [counting statement_of] in He. rewrite He.
  do 2 f_equal. rewrite Hl, <- (selects_matching f true), length_map; [done|]. intros r Hr. by destruct (scan_cells _ _ _ (Hs r Hr ScanningEvent)) as (_ & ? & ? & ?).
Qed.

(** C27: The repository of events is a list of events: an event that is saved is
    added to it, with its data as JSON reads them, and one that is refused leaves it
    as it is; deleting keeps what is not older and says how many went; getting
    answers the event with that identifier; listing with any filter answers a page
    of the events it selects, the newest first; counting answers their number. *)
Theorem events_refine l s : contains l s ->
  (forall e e', kept e e' -> match SaveEvent e s with (s', Ok _) => contains (l ++ [e']) s' | (s', Err _) => contains l s' end) /\
  (forall t, exists s', DeleteOldEvents t s = (s', Ok (Z.of_nat (length (List.filter (fun e => Timestamp _ e <? keep t) l)))) /\
     contains (List.filter (fun e => negb (Timestamp _ e <? keep t)) l) s') /\
  (forall id, GetEvent id s = match List.find (fun e => String.eqb id (event_id e)) l with Some e => Ok e | None => Err EventNotFound end) /\
  (forall f, serves (statement_of f false) -> exists l', l' ≡ₚ List.filter (event_matches f) l /\ Sorted (fun a b => Timestamp _ b <= Timestamp _ a) l' /\
     ListEvents f s = Ok (filter_page f l')) /\
  (forall f, serves (statement_of f true) -> CountEvents f s = Ok (Z.of_nat (length (List.filter (event_matches f) l)))).
Proof.
  intros Hc. split_and!; intros; [by apply saved_event|by apply deleted_events|by apply got_event|by apply listed_events|by apply counted_events].
Qed.
End Laws.
End Repository.

(** ** A database in memory *)
Module Memory.
Definition Db := list Row.
(** The maps without entries have a text. *)
Definition Marshal {V} (m : gmap string V) : result string string := match map_to_list m with [] => Ok "{}" | _ => Err "unsupported value" end.
Definition Unmarshal {V} (text : string) : result string (gmap string V) := if String.eqb text "{}" then Ok ∅ else Err "unexpected end of JSON input".
Definition keep (t : Z) : Z := t / 1000 * 1000.
#[local] Instance newest_dec : RelDecision newest. Proof. intros a b. unfold newest. apply _. Defined.
#[local] Instance newest_total : Total newest. Proof. intros a b. unfold newest. lia. Qed.
Definition answered (f : EventFilter) (text : string) (args : list SqlVal) (s : Db) : result string (list (list SqlVal) * option string) :=
  let st := statement_of f false in
  if String.eqb text (statement_text st) then Ok (map cells (page (number args (limited st)) (number args (skipped st)) (merge_sort newest (selected keep args st s))), None)
  else Err "syntax error".
Definition one_row (f : EventFilter) (text : string) (args : list SqlVal) (s : Db) : result (option string) (list SqlVal) :=
  if String.eqb text event_by_id then
    match args with
    | [SText id] => match List.find (fun r => String.eqb id (w_id r)) s with Some r => Ok (cells r) | None => Err None end
    | _ => Err (Some "syntax error")
    end
  else if String.eqb text (statement_text (statement_of f true)) then Ok [SInt (Z.of_nat (length (selected keep args (statement_of f true) s)))]
  else Err (Some "syntax error").
Definition executed (text : string) (args : list SqlVal) (s : Db) : Db * result string (result string Z) :=
  match args with
  | [SText id; SText ty; SText source; STime t; SText data; SText metadata] =>
      if existsb (fun r => String.eqb id (w_id r)) s then (s, Err "duplicate key") else (s ++ [mkRow id ty source (keep t) data metadata], Ok (Ok 1))
  | [STime t] => (List.filter (fun r => negb (w_time r <? keep t)) s, Ok (Ok (Z.of_nat (length (List.filter (fun r => w_time r <? keep t) s)))))
  | _ => (s, Err "syntax error")
  end.
(** It can answer one filter. *)
Definition db (f : EventFilter) : Querier Db := mkQuerier Db executed (answered f) (one_row f).
#[local] Abbreviation Table f := (EventTable Unmarshal Unmarshal (db f) keep (fun s => s) (fun text => text)).
#[local] Abbreviation Serves f := (serves (db f) keep (fun s => s)).
Lemma table f : Table f.
Proof.
  split; try done.
  - intros id ty source t data metadata s s' r. cbn. destruct (existsb _ s); by intros [= <- <-].
  - intros t s. cbn. by eexists.
Qed.
Lemma lists f : Serves f (statement_of f false).
Proof.
  intros args s. cbn [counting statement_of]. exists (merge_sort newest (selected keep args (statement_of f false) s)). split; [apply merge_sort_Permutation|]. split; [apply Sorted_merge_sort; apply _|].
  cbn [QueryContext db]. unfold answered. by rewrite String.eqb_refl.
Qed.
Lemma counts f : Serves f (statement_of f true).
Proof.
  intros args s. cbn [counting statement_of QueryRowContext db]. unfold one_row. rewrite String.eqb_refl.
  destruct (String.eqb_spec (statement_text (statement_of f true)) event_by_id) as [E|]; [|done]. exfalso. clear -E. unfold statement_text in E. cbn [counting statement_of] in E. discriminate E.
Qed.
Definition failures : EventFilter := mkEventFilter [EventJobFailed; EventWorkflowFailed] [] (Some 2500) None 2 0.
Definition event (id ty : string) (t : Z) : Event := mkEvent GoVal id ty "job-worker" t ∅ ∅.
Definition some : list Event := [event "1" EventJobFailed 1000; event "2" EventJobFailed 4000; event "3" EventJobCompleted 5000; event "4" EventWorkflowFailed 9000; event "5" EventJobFailed 7000].
Definition some_rows : Db := map (fun e => mkRow (event_id e) (ev_Type _ e) (Source _ e) (Timestamp _ e) "{}" "{}") some.
End Memory.
Lemma events_refine_witness :
  let db := Memory.db Memory.failures in let run := ListEvents Memory.Unmarshal Memory.Unmarshal Itoa (fun _ => "scan") db in
  contains Memory.Unmarshal Memory.Unmarshal Itoa (fun _ => "scan") (fun s => s) Memory.some Memory.some_rows /\
  run Memory.failures Memory.some_rows = Ok [Memory.event "4" EventWorkflowFailed 9000; Memory.event "5" EventJobFailed 7000] /\
  CountEvents (fun _ => "scan") db Memory.failures Memory.some_rows = Ok 3 /\
  exists l', l' ≡ₚ List.filter (event_matches Memory.keep Memory.failures) Memory.some /\ run Memory.failures Memory.some_rows = Ok (filter_page Memory.failures l').
Proof.
  assert (contains Memory.Unmarshal Memory.Unmarshal Itoa (fun _ => "scan") (fun s => s) Memory.some Memory.some_rows) as Hc.
  { unfold contains. repeat (apply List.Forall2_cons; [intros failed; vm_compute; reflexivity|]). apply List.Forall2_nil. }
  split; [exact Hc|]. split; [vm_compute; reflexivity|]. split; [vm_compute; reflexivity|].
  destruct (events_refine Memory.Marshal Memory.Unmarshal Memory.Marshal Memory.Unmarshal Itoa (fun _ => "scan") (Memory.db Memory.failures) Memory.keep (fun s => s) (fun text => text)
    (ET := Memory.table Memory.failures) Memory.some Memory.some_rows Hc) as (_ & _ & _ & H & _).
  destruct (H Memory.failures (Memory.lists _)) as (l' & Hp & _ & He). exists l'. by split.
Defined.

(** ** The counters count *)
Definition occurrences (k : string) (ks : list string) : Z := Z.of_nat (length (List.filter (String.eqb k) ks)).
Definition bumped (ks : list string) (m : gmap string Z) : gmap string Z := fold_left (fun m k => increment k m) ks m.
Lemma bumped_count k ks : forall m, 0 <= count_of k m -> count_of k m + Z.of_nat (length ks) < 2 ^ 63 -> count_of k (bumped ks m) = count_of k m + occurrences k ks.
Proof.
  unfold occurrences. induction ks as [|x ks IH]; intros m Hm Hlen; [cbn; lia|]. cbn [bumped fold_left]. cbn [length] in Hlen. fold (bumped ks (increment x m)).
  assert (count_of k (increment x m) = count_of k m + if String.eqb k x then 1 else 0) as E.
  { unfold increment. destruct (String.eqb_spec k x) as [->|Hne]; unfold count_of; [rewrite lookup_insert_eq; cbn; apply wrap64_small; unfold in_int64, int64_min, int64_max, count_of in *; lia|by rewrite lookup_insert_ne, Z.add_0_r by done]. }
  rewrite IH; rewrite E; cbn [List.filter]; destruct (String.eqb k x); cbn [length]; lia.
Qed.
Lemma counted_bumped l s : counted l s = mkMetrics (bumped (map (fun _ => "total") l) (counters s)) (bumped (map (fun e => ev_Type _ e) l) (typeCount s)) (bumped (map (fun e => Source _ e) l) (sourceCount s)).
Proof. revert s. induction l as [|e l IH]; intros s; [by destruct s|]. cbn [counted fold_left]. unfold counted in IH. by rewrite IH. Qed.
(** After fewer than [2^63] events the subscriber has counted all, and as many of
    each type and of each source as there were. *)
Theorem metrics_count l : Z.of_nat (length l) < 2 ^ 63 -> let s := counted l NewMetricsSubscriber in
  GetTotalCount s = Z.of_nat (length l) /\ (forall t, GetTypeCount t s = occurrences t (map (fun e => ev_Type _ e) l)) /\
  (forall source, GetSourceCount source s = occurrences source (map (fun e => Source _ e) l)).
Proof.
  intros Hl s. unfold s, GetTotalCount, GetTypeCount, GetSourceCount. rewrite counted_bumped. cbn [counters typeCount sourceCount NewMetricsSubscriber].
  assert (forall k, count_of k ∅ = 0) as H0 by (intros k; unfold count_of; by rewrite lookup_empty).
  split_and!; intros; rewrite bumped_count; rewrite ?H0, ?length_map; try lia. unfold occurrences. rewrite Z.add_0_l. f_equal. clear. induction l as [|e l IH]; [done|]. cbn [map List.filter]. rewrite String.eqb_refl. cbn [length]. by f_equal.
Qed.

(** ** Concrete events *)
(** A failed job is logged with no attempts: the builder puts an [int] where the
    handler looks for a [float64]. *)
Example attempts_lost : JobEventHandler_Handle (fun _ => 0) true (JobFailed "u" 0 "j" "boom" 3) =
  [mkLog "error" "job failed" [("jobID", VString "j"); ("error", VString "boom"); ("attempts", VInt 0); ("eventID", VString "u")]].
Proof. vm_compute. reflexivity. Qed.
Example one_filter : buildFilterQuery Memory.failures false =
  ("SELECT id, type, source, timestamp, data, metadata FROM events WHERE 1=1 AND type IN ($1, $2) AND timestamp >= $3 ORDER BY timestamp DESC LIMIT $4",
   [SText "job.failed"; SText "workflow.failed"; STime 2500; SInt 2]).
Proof. vm_compute. reflexivity. Qed.
(** The statistics have no parts without the subscriber, and a time that cannot be
    read is no bound. *)
Definition asked (kvs : list (string * string)) : HttpReq := mkHttpReq None "" (fun k => default "" (list_to_map (M := gmap string string) kvs !! k)).
Example no_parts (r : HttpReq) : handler_GetEventStats (fun _ => "scan") (Memory.db (mkEventFilter [] [] None None 0 0)) None r Memory.some_rows =
  respondJSON 200 (BEventStats 5 ∅ ∅).
Proof. vm_compute. reflexivity. Qed.
Example unread_bound : ef_StartTime (filter_of (fun _ => Err "cannot parse") (asked [("start_time", "yesterday")])) = None.
Proof. vm_compute. reflexivity. Qed.
