(* ===== verification/EmailService.v ===== *)
(** Emails: the client of Brevo ([pkg/integration/brevo]), the templates, the log
    of emails in memory and the service of [internal/notification/email].

    The state of a service is the registry of its templates, the requests it has
    made, its log and how often it has asked for the time and for an identifier.
    Parsing and executing templates is the template packages' work, and a parameter
    with a type of parsed templates for each of them; so are JSON and the network. *)

From Stdlib Require Import ZArith Lia Ascii.
From stdpp Require Import base strings list gmap.
From S2P Require Import Prelude GoStrings GoValue.

#[local] Open Scope string_scope.
#[local] Open Scope Z_scope.

(** ** The client *)
Record EmailAddress := mkAddress { ea_Name : string; ea_Email : string }.
Record Attachment := mkAttachment { at_Name : string; at_Content : string; at_URL : string }.
Record TransactionalEmail := mkEmail {
  te_To : list EmailAddress; te_Cc : list EmailAddress; te_Bcc : list EmailAddress; te_Subject : string; te_HTMLContent : string; te_TextContent : string;
  te_Sender : option EmailAddress; te_ReplyTo : option EmailAddress; te_Attachments : list Attachment; te_Headers : gmap string string; te_Tags : list string }.
Record TemplateEmail := mkTemplateEmail {
  tm_To : list EmailAddress; tm_TemplateID : Z; tm_Params : Fields; tm_Sender : option EmailAddress; tm_Tags : list string }.
Record EmailEvent := mkEmailEvent { ee_Event : string; ee_Timestamp : Z }.
Record EmailStatus := mkEmailStatus { es_MessageID : string; es_Status : string; es_Events : list EmailEvent }.
(** What is sent: without the fields that are empty. *)
Record sendEmailRequest := mkSendRequest {
  sr_Sender : EmailAddress; sr_To : list EmailAddress; sr_Cc : list EmailAddress; sr_Bcc : list EmailAddress; sr_ReplyTo : option EmailAddress; sr_Subject : string;
  sr_HTMLContent : string; sr_TextContent : string; sr_Headers : gmap string string; sr_Tags : list string; sr_Attachment : list Attachment }.
Record sendTemplateRequest := mkTemplateRequest {
  tr_TemplateID : Z; tr_To : list EmailAddress; tr_Params : Fields; tr_Sender : EmailAddress; tr_Tags : list string }.

Record BrevoConfig := mkBrevoConfig { APIKey : string; DefaultSender : EmailAddress; TimeoutSeconds : Z; BaseURL : string }.
Record Client := mkClient { c_timeout : Z; c_baseURL : string; c_apiKey : string; c_config : BrevoConfig }.
Definition defaultBaseURL : string := "https://api.brevo.com/v3".
Definition defaultTimeout : Z := 30 * Second.
Definition NewClient (cfg : BrevoConfig) : result string Client :=
  if String.eqb (APIKey cfg) "" then Err "brevo: API key is required"
  else Ok (mkClient (if 0 <? TimeoutSeconds cfg then wrap64 (TimeoutSeconds cfg * Second) else defaultTimeout)
                    (if String.eqb (BaseURL cfg) "" then defaultBaseURL else BaseURL cfg) (APIKey cfg) cfg).

Record Request := mkRequest { q_method : string; q_url : string; q_headers : list (string * string); q_body : option string }.
Record Answer := mkAnswer { h_status : Z; h_body : string }.

(** ** What the service stands on *)
Class Mail := {
  (** JSON *)
  MarshalEmail : sendEmailRequest -> result string string;
  MarshalTemplate : sendTemplateRequest -> result string string;
  DecodeSent : string -> result string string;
  DecodeStatus : string -> result string EmailStatus;
  (** what [http.NewRequest] refuses, and the network, which may remember the requests before *)
  refused : string -> string -> option string;
  Do : list Request -> Request -> result string Answer;
  (** parsed templates, and the embedded files *)
  Html : Type;
  Text : Type;
  ReadFile : string -> result string string;
  ParseHtml : string -> string -> result string Html;
  ExecuteHtml : Html -> Fields -> result string string;
  ParseText : string -> string -> result string Text;
  ExecuteText : Text -> Fields -> result string string;
  (** identifiers, the clock, [time.RFC3339] and [Duration.String] *)
  new_uuid : nat -> string;
  Now : nat -> Z;
  FormatTime : Z -> string;
  show_duration : Z -> string }.

Section Service.
Context {M : Mail}.

(** A payload is encoded first, if there is one. *)
Definition doRequest (c : Client) (method endpoint : string) (payload : option (result string string)) (w : list Request) : list Request * result string Answer :=
  let send body :=
    match refused method (c_baseURL c ++ endpoint) with
    | Some e => (w, Err ("create request: " ++ e))
    | None =>
        let r := mkRequest method (c_baseURL c ++ endpoint) [("api-key", c_apiKey c); ("Content-Type", "application/json"); ("Accept", "application/json")] body in
        ((w ++ [r])%list, Do w r)
    end in
  match payload with
  | Some (Err e) => (w, Err ("marshal payload: " ++ e))
  | Some (Ok json) => send (Some json)
  | None => send None
  end.
Definition unexpected (a : Answer) : string := "brevo: unexpected status " ++ Itoa (h_status a) ++ ": " ++ h_body a.
(** The answer to an email that was sent is its identifier. *)
Definition sent_answer (what : string) (res : list Request * result string Answer) : list Request * result string string :=
  let '(w, r) := res in
  (w, match r with
      | Err e => Err ("brevo: " ++ what ++ " failed: " ++ e)
      | Ok a =>
          if negb (h_status a =? 201) && negb (h_status a =? 202) then Err (unexpected a)
          else match DecodeSent (h_body a) with Ok id => Ok id | Err e => Err ("brevo: decode response: " ++ e) end
      end).
Definition sender_of (c : Client) (sender : option EmailAddress) : EmailAddress := match sender with Some s => s | None => DefaultSender (c_config c) end.
Definition email_payload (c : Client) (e : TransactionalEmail) : sendEmailRequest :=
  mkSendRequest (sender_of c (te_Sender e)) (te_To e) (te_Cc e) (te_Bcc e) (te_ReplyTo e) (te_Subject e) (te_HTMLContent e) (te_TextContent e) (te_Headers e) (te_Tags e) (te_Attachments e).
(** [None] is a [nil] pointer. *)
Definition SendTransactionalEmail (c : Client) (email : option TransactionalEmail) (w : list Request) : list Request * result string string :=
  match email with
  | None => (w, Err "brevo: email is required")
  | Some e => sent_answer "send email" (doRequest c "POST" "/smtp/email" (Some (MarshalEmail (email_payload c e))) w)
  end.
Definition SendTemplateEmail (c : Client) (email : option TemplateEmail) (w : list Request) : list Request * result string string :=
  match email with
  | None => (w, Err "brevo: email is required")
  | Some e => sent_answer "send template email"
      (doRequest c "POST" "/smtp/email" (Some (MarshalTemplate (mkTemplateRequest (tm_TemplateID e) (tm_To e) (tm_Params e) (sender_of c (tm_Sender e)) (tm_Tags e)))) w)
  end.
Definition Client_GetEmailStatus (c : Client) (messageID : string) (w : list Request) : list Request * result string EmailStatus :=
  if String.eqb messageID "" then (w, Err "brevo: message ID is required") else
  let '(w, r) := doRequest c "GET" ("/smtp/emails/" ++ messageID) None w in
  (w, match r with
      | Err e => Err ("brevo: get email status failed: " ++ e)
      | Ok a =>
          if h_status a =? 404 then Err ("brevo: email not found: " ++ messageID)
          else if negb (h_status a =? 200) then Err (unexpected a)
          else match DecodeStatus (h_body a) with Ok s => Ok s | Err e => Err ("brevo: decode response: " ++ e) end
      end).
Definition Ping (c : Client) (w : list Request) : list Request * result string unit :=
  let '(w, r) := doRequest c "GET" "/account" None w in
  (w, match r with
      | Err e => Err ("brevo: ping failed: " ++ e)
      | Ok a => if h_status a =? 200 then Ok tt else Err ("brevo: ping returned status " ++ Itoa (h_status a))
      end).

(** ** Templates *)
Definition TemplateWorkflowCompleted : string := "workflow_completed".
Definition TemplateWorkflowFailed : string := "workflow_failed".
Definition TemplateJobCompleted : string := "job_completed".
Definition TemplateJobFailed : string := "job_failed".
Definition TemplateTestResultsSummary : string := "test_results".
Definition TemplateWelcome : string := "welcome".
Record Template := mkTemplate { t_Type : string; t_Subject : string; t_HTMLPath : string; t_TextPath : string; t_BrevoID : Z }.
Definition default_templates : list Template :=
  [mkTemplate TemplateWorkflowCompleted "Workflow Completed: {{.WorkflowID}}" "html/workflow_completed.html" "text/workflow_completed.txt" 0;
   mkTemplate TemplateWorkflowFailed "Workflow Failed: {{.WorkflowID}}" "html/workflow_failed.html" "text/workflow_failed.txt" 0;
   mkTemplate TemplateJobCompleted "Job Completed: {{.JobID}}" "html/job_completed.html" "text/job_completed.txt" 0;
   mkTemplate TemplateJobFailed "Job Failed: {{.JobID}}" "html/job_failed.html" "text/job_failed.txt" 0;
   mkTemplate TemplateTestResultsSummary "Test Results: {{.TestRunID}}" "html/test_results.html" "text/test_results.txt" 0;
   mkTemplate TemplateWelcome "Welcome to CodeAI" "html/welcome.html" "text/welcome.txt" 0].

Record Registry := mkRegistry {
  r_templates : gmap string Template; htmlCache : gmap string Html; textCache : gmap string Text; subjectCache : gmap string Text }.
Definition RegisterTemplate (t : Template) (r : Registry) : Registry := mkRegistry (<[t_Type t := t]> (r_templates r)) (htmlCache r) (textCache r) (subjectCache r).
Definition NewRegistry : Registry := fold_left (fun r t => RegisterTemplate t r) default_templates (mkRegistry ∅ ∅ ∅ ∅).
Definition GetTemplate (ty : string) (r : Registry) : result string Template :=
  match r_templates r !! ty with Some t => Ok t | None => Err ("template not found: " ++ ty) end.
Definition run {T} (execute : T -> Fields -> result string string) (what : string) (t : T) (data : Fields) : result string string :=
  match execute t data with Ok s => Ok s | Err e => Err (what ++ e) end.
Definition parse_html (t : Template) : result string Html :=
  match ReadFile (t_HTMLPath t) with
  | Err e => Err ("read template: " ++ e)
  | Ok content => match ParseHtml (t_Type t) content with Err e => Err ("parse template: " ++ e) | Ok h => Ok h end
  end.
Definition RenderTemplate (t : Template) (data : Fields) (r : Registry) : Registry * result string string :=
  match htmlCache r !! t_Type t with
  | Some h => (r, run ExecuteHtml "execute template: " h data)
  | None =>
      match parse_html t with
      | Err e => (r, Err e)
      | Ok h => (mkRegistry (r_templates r) (<[t_Type t := h]> (htmlCache r)) (textCache r) (subjectCache r), run ExecuteHtml "execute template: " h data)
      end
  end.
(** Without a file there is no text: [None]. *)
Definition parse_text (t : Template) : option (result string Text) :=
  match ReadFile (t_TextPath t) with
  | Err _ => None
  | Ok content => Some (match ParseText (t_Type t) content with Err e => Err ("parse text template: " ++ e) | Ok h => Ok h end)
  end.
Definition RenderTextTemplate (t : Template) (data : Fields) (r : Registry) : Registry * result string string :=
  match textCache r !! t_Type t with
  | Some h => (r, run ExecuteText "execute text template: " h data)
  | None =>
      match parse_text t with
      | None => (r, Ok "")
      | Some (Err e) => (r, Err e)
      | Some (Ok h) => (mkRegistry (r_templates r) (htmlCache r) (<[t_Type t := h]> (textCache r)) (subjectCache r), run ExecuteText "execute text template: " h data)
      end
  end.
Definition parse_subject (t : Template) : result string Text :=
  match ParseText (t_Type t ++ "_subject") (t_Subject t) with Err e => Err ("parse subject template: " ++ e) | Ok h => Ok h end.
Definition RenderSubject (t : Template) (data : Fields) (r : Registry) : Registry * result string string :=
  match subjectCache r !! t_Type t with
  | Some h => (r, run ExecuteText "execute subject template: " h data)
  | None =>
      match parse_subject t with
      | Err e => (r, Err e)
      | Ok h => (mkRegistry (r_templates r) (htmlCache r) (textCache r) (<[t_Type t := h]> (subjectCache r)), run ExecuteText "execute subject template: " h data)
      end
  end.
(** In the order of the map. *)
Definition ListTemplates (order : list (string * Template)) : list Template := map snd order.

(** ** The log of emails *)
Record EmailLog := mkEmailLog {
  l_ID : string; l_MessageID : string; l_To : list string; l_Subject : string; l_TemplateType : string; l_Status : string; l_SentAt : Z;
  l_DeliveredAt : option Z; l_OpenedAt : option Z; l_Error : string; l_Metadata : option Fields }.
Record EmailFilter := mkEmailFilter { lf_To : option string; lf_Status : option string; lf_StartTime : option Z; lf_EndTime : option Z; lf_Limit : Z; lf_Offset : Z }.
Definition MemoryEmailRepository : Type := gmap string EmailLog.
Definition NewMemoryEmailRepository : MemoryEmailRepository := ∅.
Definition SaveEmail (email : option EmailLog) (m : MemoryEmailRepository) : MemoryEmailRepository * result string unit :=
  match email with
  | None => (m, Err "email is nil")
  | Some l => if String.eqb (l_ID l) "" then (m, Err "email ID is required") else (<[l_ID l := l]> m, Ok tt)
  end.
Definition GetEmail (emailID : string) (m : MemoryEmailRepository) : result string EmailLog :=
  match m !! emailID with Some l => Ok l | None => Err ("email not found: " ++ emailID) end.
Definition email_matches (f : EmailFilter) (l : EmailLog) : bool :=
  match lf_Status f with Some s => String.eqb (l_Status l) s | None => true end &&
  match lf_To f with Some a => existsb (fun t => String.eqb t a) (l_To l) | None => true end &&
  match lf_StartTime f with Some t => negb (l_SentAt l <? t) | None => true end &&
  match lf_EndTime f with Some t => negb (t <? l_SentAt l) | None => true end.
Definition pageOf {A} (offset limit : Z) (results : list A) : list A :=
  let cut l := if (0 <? limit) && (limit <? Z.of_nat (length l)) then take (Z.to_nat limit) l else l in
  if (0 <? offset) && (offset <? Z.of_nat (length results)) then cut (drop (Z.to_nat offset) results)
  else if Z.of_nat (length results) <=? offset then []
  else cut results.
(** In the order of the map, which changes from call to call. *)
Definition ListEmails (f : EmailFilter) (order : list (string * EmailLog)) : list EmailLog :=
  pageOf (lf_Offset f) (lf_Limit f) (List.filter (email_matches f) (map snd order)).
Definition UpdateStatus (emailID status : string) (m : MemoryEmailRepository) : MemoryEmailRepository * result string unit :=
  match m !! emailID with
  | None => (m, Err ("email not found: " ++ emailID))
  | Some l => (<[emailID := mkEmailLog (l_ID l) (l_MessageID l) (l_To l) (l_Subject l) (l_TemplateType l) status (l_SentAt l) (l_DeliveredAt l) (l_OpenedAt l) (l_Error l) (l_Metadata l)]> m, Ok tt)
  end.
Definition Clear (m : MemoryEmailRepository) : MemoryEmailRepository := ∅.
Definition Count (m : MemoryEmailRepository) : Z := Z.of_nat (size m).

(** ** The service *)
(** A log of [None] is none at all. *)
Record State := mkState { s_client : Client; s_registry : Registry; s_sent : list Request; s_repo : option MemoryEmailRepository; s_ids : nat; s_clock : nat }.
Definition NewEmailService (c : Client) (repo : option MemoryEmailRepository) : State := mkState c NewRegistry [] repo 0 0.
Definition with_registry (r : Registry) (s : State) : State := mkState (s_client s) r (s_sent s) (s_repo s) (s_ids s) (s_clock s).
Definition with_sent (w : list Request) (s : State) : State := mkState (s_client s) (s_registry s) w (s_repo s) (s_ids s) (s_clock s).
Definition with_repo (m : MemoryEmailRepository) (s : State) : State := mkState (s_client s) (s_registry s) (s_sent s) (Some m) (s_ids s) (s_clock s).
Definition read_clock (s : State) : State * Z := (mkState (s_client s) (s_registry s) (s_sent s) (s_repo s) (s_ids s) (S (s_clock s)), Now (s_clock s)).
Definition read_uuid (s : State) : State * string := (mkState (s_client s) (s_registry s) (s_sent s) (s_repo s) (S (s_ids s)) (s_clock s), new_uuid (s_ids s)).

Definition logEmailSuccess (messageID : string) (email : TransactionalEmail) (templateType : string) (s : State) : State * result string unit :=
  match s_repo s with
  | None => (s, Ok tt)
  | Some m =>
      let '(s, id) := read_uuid s in let '(s, now) := read_clock s in
      let '(m, r) := SaveEmail (Some (mkEmailLog id messageID (map ea_Email (te_To email)) (te_Subject email) templateType "sent" now None None "" None)) m in
      (with_repo m s, r)
  end.
(** What the log answers is not looked at. *)
Definition logEmailFailure (email : TransactionalEmail) (sendErr : string) (s : State) : State * result string unit :=
  match s_repo s with
  | None => (s, Err sendErr)
  | Some m =>
      let '(s, id) := read_uuid s in let '(s, now) := read_clock s in
      let '(m, _) := SaveEmail (Some (mkEmailLog id "" (map ea_Email (te_To email)) (te_Subject email) "" "failed" now None None sendErr None)) m in
      (with_repo m s, Err sendErr)
  end.
Definition send_and_log (email : TransactionalEmail) (templateType : string) (s : State) : State * result string unit :=
  let '(w, r) := SendTransactionalEmail (s_client s) (Some email) (s_sent s) in
  let s := with_sent w s in
  match r with Err e => logEmailFailure email e s | Ok messageID => logEmailSuccess messageID email templateType s end.
Definition rendering {A} (render : Registry -> Registry * result string A) (s : State) : State * result string A :=
  let '(r, res) := render (s_registry s) in (with_registry r s, res).
Definition or_empty (r : result string string) : string := match r with Ok t => t | Err _ => "" end.

Definition sendWithTemplate (t : Template) (data : Fields) (recipients : list string) (reference : string) (s : State) : State * result string unit :=
  match rendering (RenderTemplate t data) s with
  | (s, Err e) => (s, Err ("email: render html: " ++ e))
  | (s, Ok html) =>
      let '(s, text) := rendering (RenderTextTemplate t data) s in
      match rendering (RenderSubject t data) s with
      | (s, Err e) => (s, Err ("email: render subject: " ++ e))
      | (s, Ok subject) =>
          send_and_log (mkEmail (map (mkAddress "") recipients) [] [] subject html (or_empty text) None None [] ∅ [t_Type t; reference]) (t_Type t) s
      end
  end.
Definition with_template (ty : string) (k : Template -> State -> State * result string unit) (s : State) : State * result string unit :=
  match GetTemplate ty (s_registry s) with Err e => (s, Err ("email: get template: " ++ e)) | Ok t => k t s end.
Definition SendWorkflowNotification (workflowID status : string) (recipients : list string) (s : State) : State * result string unit :=
  let send ty := with_template ty (fun t s =>
    let '(s, now) := read_clock s in
    sendWithTemplate t (list_to_map [("WorkflowID", VString workflowID); ("Status", VString status); ("Timestamp", VString (FormatTime now)); ("DashboardURL", VString ("/workflows/" ++ workflowID))])
      recipients ("workflow:" ++ workflowID) s) s in
  if String.eqb status "completed" then send TemplateWorkflowCompleted
  else if String.eqb status "failed" then send TemplateWorkflowFailed
  else (s, Err ("email: unknown workflow status: " ++ status)).
Definition SendJobCompletionEmail (jobID : string) (success : bool) (recipients : list string) (s : State) : State * result string unit :=
  with_template (if success then TemplateJobCompleted else TemplateJobFailed) (fun t s =>
    let '(s, now) := read_clock s in
    sendWithTemplate t (list_to_map [("JobID", VString jobID); ("Status", VString (if success then "completed" else "failed")); ("Success", VBool success);
                                     ("Timestamp", VString (FormatTime now)); ("DashboardURL", VString ("/jobs/" ++ jobID))])
      recipients ("job:" ++ jobID) s) s.
Record TestResults := mkTestResults { PassedCount : Z; FailedCount : Z; SkippedCount : Z; tr_Duration : Z }.
Definition SendTestResultsEmail (testRunID : string) (results : TestResults) (recipients : list string) (s : State) : State * result string unit :=
  with_template TemplateTestResultsSummary (fun t s =>
    let '(s, now) := read_clock s in
    sendWithTemplate t (list_to_map [("TestRunID", VString testRunID); ("PassedCount", VInt (PassedCount results)); ("FailedCount", VInt (FailedCount results));
                                     ("SkippedCount", VInt (SkippedCount results)); ("Duration", VString (show_duration (tr_Duration results)));
                                     ("ReportURL", VString ("/tests/" ++ testRunID ++ "/report")); ("Timestamp", VString (FormatTime now))])
      recipients ("test:" ++ testRunID) s) s.
Record EmailRequest := mkEmailRequest {
  er_To : list EmailAddress; er_Cc : list EmailAddress; er_Bcc : list EmailAddress; er_Subject : string; er_TemplateType : string; er_Data : Fields;
  er_Attachments : list Attachment; er_Tags : list string }.
(** The subject that is asked for is used when the template has none to render. *)
Definition SendCustomEmail (req : EmailRequest) (s : State) : State * result string unit :=
  with_template (er_TemplateType req) (fun t s =>
    match rendering (RenderTemplate t (er_Data req)) s with
    | (s, Err e) => (s, Err ("email: render template: " ++ e))
    | (s, Ok html) =>
        let '(s, text) := rendering (RenderTextTemplate t (er_Data req)) s in
        let '(s, subject) := rendering (RenderSubject t (er_Data req)) s in
        send_and_log (mkEmail (er_To req) (er_Cc req) (er_Bcc req) (match subject with Ok sub => sub | Err _ => er_Subject req end) html (or_empty text) None None (er_Attachments req) ∅ (er_Tags req))
          (er_TemplateType req) s
    end) s.
Definition no_repository : string := "email: repository not configured".
Definition GetEmailStatus (emailID : string) (s : State) : result string EmailLog :=
  match s_repo s with None => Err no_repository | Some m => GetEmail emailID m end.
Definition service_ListEmails (f : EmailFilter) (order : list (string * EmailLog)) (s : State) : result string (list EmailLog) :=
  match s_repo s with None => Err no_repository | Some _ => Ok (ListEmails f order) end.

(** ** Rendering through the caches *)
(** What is in a cache was made of the template that is registered. *)
Definition coherent (r : Registry) : Prop :=
  (forall ty t, r_templates r !! ty = Some t -> t_Type t = ty) /\
  (forall ty h, htmlCache r !! ty = Some h -> exists t, r_templates r !! ty = Some t /\ parse_html t = Ok h) /\
  (forall ty h, textCache r !! ty = Some h -> exists t, r_templates r !! ty = Some t /\ parse_text t = Some (Ok h)) /\
  (forall ty h, subjectCache r !! ty = Some h -> exists t, r_templates r !! ty = Some t /\ parse_subject t = Ok h).
Definition fresh_html (t : Template) (data : Fields) : result string string := (let? h := parse_html t in run ExecuteHtml "execute template: " h data)%go.
Definition fresh_text (t : Template) (data : Fields) : result string string :=
  match parse_text t with None => Ok "" | Some p => (let? h := p in run ExecuteText "execute text template: " h data)%go end.
Definition fresh_subject (t : Template) (data : Fields) : result string string := (let? h := parse_subject t in run ExecuteText "execute subject template: " h data)%go.
Lemma render_html t data r : coherent r -> r_templates r !! t_Type t = Some t ->
  exists r', RenderTemplate t data r = (r', fresh_html t data) /\ coherent r' /\ r_templates r' = r_templates r.
Proof.
  intros (Hk & Hh & Ht & Hs) Hreg. unfold RenderTemplate, fresh_html. destruct (htmlCache r !! t_Type t) as [h|] eqn:E.
  - destruct (Hh _ _ E) as (t' & Ht' & Hp). rewrite Hreg in Ht'. injection Ht' as <-. rewrite Hp. exists r. split_and!; done.
  - destruct (parse_html t) as [h|e] eqn:Hp; [|exists r; split_and!; done]. eexists. split; [reflexivity|]. split; [|done]. split_and!; cbn; try done.
    intros ty h' [[<- <-]|[_ H]]%lookup_insert_Some; [by exists t|by apply Hh].
Qed.
Lemma render_text t data r : coherent r -> r_templates r !! t_Type t = Some t ->
  exists r', RenderTextTemplate t data r = (r', fresh_text t data) /\ coherent r' /\ r_templates r' = r_templates r.
Proof.
  intros (Hk & Hh & Ht & Hs) Hreg. unfold RenderTextTemplate, fresh_text. destruct (textCache r !! t_Type t) as [h|] eqn:E.
  - destruct (Ht _ _ E) as (t' & Ht' & Hp). rewrite Hreg in Ht'. injection Ht' as <-. rewrite Hp. exists r. split_and!; done.
  - destruct (parse_text t) as [[h|e]|] eqn:Hp; [|exists r; split_and!; done..]. eexists. split; [reflexivity|]. split; [|done]. split_and!; cbn; try done.
    intros ty h' [[<- <-]|[_ H]]%lookup_insert_Some; [by exists t|by apply Ht].
Qed.
Lemma render_subject t data r : coherent r -> r_templates r !! t_Type t = Some t ->
  exists r', RenderSubject t data r = (r', fresh_subject t data) /\ coherent r' /\ r_templates r' = r_templates r.
Proof.
  intros (Hk & Hh & Ht & Hs) Hreg. unfold RenderSubject, fresh_subject. destruct (subjectCache r !! t_Type t) as [h|] eqn:E.
  - destruct (Hs _ _ E) as (t' & Ht' & Hp). rewrite Hreg in Ht'. injection Ht' as <-. rewrite Hp. exists r. split_and!; done.
  - destruct (parse_subject t) as [h|e] eqn:Hp; [|exists r; split_and!; done]. eexists. split; [reflexivity|]. split; [|done]. split_and!; cbn; try done.
    intros ty h' [[<- <-]|[_ H]]%lookup_insert_Some; [by exists t|by apply Hs].
Qed.
(** A new type may be registered at any time; one that is replaced, before its
    first use. *)
Lemma register_coherent t r : coherent r -> htmlCache r !! t_Type t = None -> textCache r !! t_Type t = None -> subjectCache r !! t_Type t = None ->
  coherent (RegisterTemplate t r).
Proof.
  intros (Hk & Hh & Ht & Hs) Nh Nt Ns. split_and!; cbn.
  - intros ty t' [[<- <-]|[_ H]]%lookup_insert_Some; [done|by apply Hk].
  - intros ty h H. rewrite lookup_insert_ne by congruence. by apply Hh.
  - intros ty h H. rewrite lookup_insert_ne by congruence. by apply Ht.
  - intros ty h H. rewrite lookup_insert_ne by congruence. by apply Hs.
Qed.
Lemma NewRegistry_coherent : coherent NewRegistry.
Proof.
  unfold NewRegistry, default_templates. cbn [fold_left].
  repeat (apply register_coherent; [|by apply lookup_empty..]). split_and!; cbn; intros ty x H; by rewrite lookup_empty in H.
Qed.

(** ** What sending does *)
(** The request of an email, and what the answer says. *)
Definition email_body (c : Client) (email : TransactionalEmail) : option Request :=
  match MarshalEmail (email_payload c email), refused "POST" (c_baseURL c ++ "/smtp/email") with
  | Ok json, None => Some (mkRequest "POST" (c_baseURL c ++ "/smtp/email") [("api-key", c_apiKey c); ("Content-Type", "application/json"); ("Accept", "application/json")] (Some json))
  | _, _ => None
  end.
Definition outcome (c : Client) (email : TransactionalEmail) (w : list Request) : result string string := (SendTransactionalEmail c (Some email) w).2.
Lemma send_requests c email w : SendTransactionalEmail c (Some email) w = (match email_body c email with Some r => (w ++ [r])%list | None => w end, outcome c email w).
Proof.
  unfold outcome, SendTransactionalEmail, email_body, doRequest. destruct (MarshalEmail _) as [json|e]; [|done]. by destruct (refused _ _).
Qed.
(** Without a request nothing is sent; 201 and 202 with an identifier are success. *)
Lemma outcome_ok c email w id : outcome c email w = Ok id <->
  exists r a, email_body c email = Some r /\ Do w r = Ok a /\ (h_status a = 201 \/ h_status a = 202) /\ DecodeSent (h_body a) = Ok id.
Proof.
  unfold outcome, SendTransactionalEmail, email_body, doRequest. destruct (MarshalEmail _) as [json|e]; [|split; [done|by intros (r & a & ? & _)]].
  destruct (refused _ _); [split; [done|by intros (r & a & ? & _)]|]. cbn. set (r := mkRequest _ _ _ _). destruct (Do w r) as [a|e] eqn:Ed; [|split; [done|intros (r' & a & [= <-] & H & _); congruence]].
  destruct (Z.eqb_spec (h_status a) 201) as [E1|E1], (Z.eqb_spec (h_status a) 202) as [E2|E2]; cbn;
    [| | |split; [done|intros (r' & a' & [= <-] & H & Hs & _); rewrite Ed in H; injection H as <-; by destruct Hs]].
  all: destruct (DecodeSent (h_body a)) as [id'|e] eqn:Eid; split; [intros [= <-]; exists r, a; split_and!; auto|intros (r' & a' & [= <-] & H & _ & Hd); rewrite Ed in H; injection H as <-; congruence|done|
    intros (r' & a' & [= <-] & H & _ & Hd); rewrite Ed in H; injection H as <-; congruence].
Qed.
(** The entry an attempt leaves. *)
Definition entry (id : string) (now : Z) (email : TransactionalEmail) (ty : string) (res : result string string) : EmailLog :=
  match res with
  | Ok messageID => mkEmailLog id messageID (map ea_Email (te_To email)) (te_Subject email) ty "sent" now None None "" None
  | Err e => mkEmailLog id "" (map ea_Email (te_To email)) (te_Subject email) "" "failed" now None None e None
  end.
(** One email: at most one request, and one entry. *)
Definition one_email (c : Client) (email : TransactionalEmail) (ty : string) (s s' : State) (r : result string unit) : Prop :=
  s_client s' = s_client s /\ s_sent s' = (match email_body c email with Some q => (s_sent s ++ [q])%list | None => s_sent s end) /\
  (match s_repo s with
   | None => s_repo s' = None
   | Some m => exists now, s_repo s' = Some (<[new_uuid (s_ids s) := entry (new_uuid (s_ids s)) now email ty (outcome c email (s_sent s))]> m) /\ s_ids s' = S (s_ids s)
   end) /\
  r = match outcome c email (s_sent s) with Ok _ => Ok tt | Err e => Err e end.
Lemma send_and_log_spec email ty s : (forall n, new_uuid n <> "") ->
  one_email (s_client s) email ty s (send_and_log email ty s).1 (send_and_log email ty s).2 /\ s_registry (send_and_log email ty s).1 = s_registry s.
Proof.
  intros Hid. unfold one_email, send_and_log. rewrite send_requests. unfold entry. destruct (outcome _ _ _) as [id|e]; unfold logEmailSuccess, logEmailFailure; cbn.
  all: destruct (s_repo s) as [m|] eqn:E; cbn; [rewrite (proj2 (String.eqb_neq _ _) (Hid _)); cbn; split_and!; try done; by eexists|by split_and!].
Qed.

Definition with_texts (t : Template) (data : Fields) (k : string -> string -> string -> TransactionalEmail) : result string TransactionalEmail :=
  match fresh_html t data with
  | Err e => Err ("email: render html: " ++ e)
  | Ok html => match fresh_subject t data with Err e => Err ("email: render subject: " ++ e) | Ok subject => Ok (k html (or_empty (fresh_text t data)) subject) end
  end.
Definition template_email (t : Template) (data : Fields) (recipients : list string) (reference : string) : result string TransactionalEmail :=
  with_texts t data (fun html text subject => mkEmail (map (mkAddress "") recipients) [] [] subject html text None None [] ∅ [t_Type t; reference]).
(** Only the registry's caches changed. *)
Definition cached_more (s s' : State) : Prop :=
  exists r, s' = with_registry r s /\ coherent r /\ r_templates r = r_templates (s_registry s).
Lemma rendered (render : Registry -> Registry * result string string) res s :
  (exists r', render (s_registry s) = (r', res) /\ coherent r' /\ r_templates r' = r_templates (s_registry s)) -> exists s', rendering render s = (s', res) /\ cached_more s s'.
Proof. intros (r' & E & Hc & Ht). unfold rendering. rewrite E. eexists. split; [reflexivity|]. by exists r'. Qed.
Lemma cached_more_trans s s' s'' : cached_more s s' -> cached_more s' s'' -> cached_more s s''.
Proof. intros (r & -> & Hc & Ht) (r' & -> & Hc' & Ht'). exists r'. cbn in *. split; [done|]. split; [done|congruence]. Qed.
Lemma sent_with_template t data recipients reference s : (forall n, new_uuid n <> "") -> coherent (s_registry s) -> r_templates (s_registry s) !! t_Type t = Some t ->
  let '(s', r) := sendWithTemplate t data recipients reference s in
  (coherent (s_registry s') /\ r_templates (s_registry s') = r_templates (s_registry s)) /\
  match template_email t data recipients reference with
  | Ok email => one_email (s_client s) email (t_Type t) s s' r
  | Err e => cached_more s s' /\ r = Err e
  end.
Proof.
  intros Hid Hc Ht. unfold sendWithTemplate, template_email, with_texts.
  destruct (rendered _ _ s (render_html t data (s_registry s) Hc Ht)) as (s1 & -> & (r1 & -> & Hc1 & Ht1)). destruct (fresh_html t data) as [html|e]; [|split; [done|split; [by exists r1|done]]].
  destruct (rendered _ _ (with_registry r1 s) (render_text t data r1 Hc1 (eq_trans (f_equal (.!! t_Type t) Ht1) Ht))) as (s2 & -> & (r2 & -> & Hc2 & Ht2)). cbn [s_registry with_registry] in Ht2.
  destruct (rendered _ _ (with_registry r2 (with_registry r1 s)) (render_subject t data r2 Hc2 (eq_trans (f_equal (.!! t_Type t) (eq_trans Ht2 Ht1)) Ht))) as (s3 & -> & (r3 & -> & Hc3 & Ht3)). cbn [s_registry with_registry] in Ht3.
  destruct (fresh_subject t data) as [subject|e]; [|split; [cbn; split; [done|congruence]|split; [exists r3; cbn; split_and!; [done|done|congruence]|done]]].
  pose proof (send_and_log_spec (mkEmail (map (mkAddress "") recipients) [] [] subject html (or_empty (fresh_text t data)) None None [] ∅ [t_Type t; reference]) (t_Type t) (with_registry r3 (with_registry r2 (with_registry r1 s))) Hid) as [H1 H2].
  destruct (send_and_log _ _ _) as [s' r]. cbn in H1, H2 |- *. rewrite H2. split; [split; [done|congruence]|]. exact H1.
Qed.
Definition custom_email (t : Template) (req : EmailRequest) : result string TransactionalEmail :=
  match fresh_html t (er_Data req) with
  | Err e => Err ("email: render template: " ++ e)
  | Ok html => Ok (mkEmail (er_To req) (er_Cc req) (er_Bcc req) (match fresh_subject t (er_Data req) with Ok sub => sub | Err _ => er_Subject req end) html
                     (or_empty (fresh_text t (er_Data req))) None None (er_Attachments req) ∅ (er_Tags req))
  end.
(** A custom email is refused for a template that is unknown or fails, and otherwise
    sent once, under the template's subject. *)
Theorem custom_sent req s : (forall n, new_uuid n <> "") -> coherent (s_registry s) ->
  let '(s', r) := SendCustomEmail req s in
  coherent (s_registry s') /\
  match (let? t := GetTemplate (er_TemplateType req) (s_registry s) in custom_email t req)%go with
  | Ok email => one_email (s_client s) email (er_TemplateType req) s s' r
  | Err _ => s_sent s' = s_sent s /\ s_repo s' = s_repo s /\ exists e, r = Err e
  end.
Proof.
  intros Hid Hc. unfold SendCustomEmail, with_template, GetTemplate. destruct (r_templates (s_registry s) !! er_TemplateType req) as [t|] eqn:E; [|split; [done|split_and!; [done|done|by eexists]]].
  assert (r_templates (s_registry s) !! t_Type t = Some t) as Ht by (rewrite (proj1 Hc _ _ E); exact E). cbn [rbind]. unfold custom_email.
  destruct (rendered _ _ s (render_html t (er_Data req) (s_registry s) Hc Ht)) as (s1 & -> & (r1 & -> & Hc1 & Ht1)). destruct (fresh_html t (er_Data req)) as [html|e]; [|split; [done|split_and!; [done|done|by eexists]]].
  destruct (rendered _ _ (with_registry r1 s) (render_text t (er_Data req) r1 Hc1 (eq_trans (f_equal (.!! t_Type t) Ht1) Ht))) as (s2 & -> & (r2 & -> & Hc2 & Ht2)). cbn [s_registry with_registry] in Ht2.
  destruct (rendered _ _ (with_registry r2 (with_registry r1 s)) (render_subject t (er_Data req) r2 Hc2 (eq_trans (f_equal (.!! t_Type t) (eq_trans Ht2 Ht1)) Ht))) as (s3 & -> & (r3 & -> & Hc3 & Ht3)).
  match goal with |- context [send_and_log ?e ?ty ?st] => pose proof (send_and_log_spec e ty st Hid) as [H1 H2]; destruct (send_and_log e ty st) as [s' r] end.
  cbn in H1, H2 |- *. rewrite H2. split; [done|exact H1].
Qed.
End Service.

(** ** Concrete emails *)
Module Plain.
(** Templates that are texts with names of fields in doubled braces. *)
Fixpoint until_close (s : string) : option (string * string) :=
  match s with
  | String "}" (String "}" rest) => Some ("", rest)
  | String c rest => option_map (fun '(a, b) => (String c a, b)) (until_close rest)
  | EmptyString => None
  end.
Definition shown (v : option GoVal) : string := match v with Some (VString s) => s | Some (VInt z) => Itoa z | _ => "<no value>" end.
Fixpoint filled (fuel : nat) (s : string) (data : Fields) : result string string :=
  match fuel with
  | O => Err "too long"
  | S fuel =>
      match s with
      | String "{" (String "{" (String "." rest)) => match until_close rest with None => Err "unclosed action" | Some (name, rest) => match filled fuel rest data with Ok t => Ok (shown (data !! name) ++ t) | Err e => Err e end end
      | String c rest => match filled fuel rest data with Ok t => Ok (String c t) | Err e => Err e end
      | EmptyString => Ok ""
      end
  end.
Definition execute (t : string) (data : Fields) : result string string := filled (S (String.length t)) t data.
Definition files (path : string) : result string string :=
  if String.eqb path "text/test_results.txt" then Err "file does not exist" else Ok "Job {{.JobID}}: {{.ErrorMessage}}".
(** The service answers 201 to the first two requests and 500 after them. *)
#[local] Instance mail : Mail := {|
  MarshalEmail r := Ok (sr_Subject r ++ "/" ++ sr_TextContent r); MarshalTemplate r := Ok ""; DecodeSent s := Ok s; DecodeStatus s := Err "";
  refused _ _ := None; Do w r := Ok (if Nat.ltb (length w) 2 then mkAnswer 201 "<1@brevo>" else mkAnswer 500 "down");
  ReadFile := files; ParseHtml _ s := Ok s; ExecuteHtml := execute; ParseText _ s := Ok s; ExecuteText := execute;
  new_uuid n := String (ascii_of_nat (65 + n)) ""; Now n := Z.of_nat n; FormatTime t := Itoa t; show_duration t := Itoa t |}.
Definition client : Client := mkClient defaultTimeout defaultBaseURL "key" (mkBrevoConfig "key" (mkAddress "CodeAI Platform" "noreply@codeai.io") 30 "").
Definition start : State := NewEmailService client (Some ∅).
End Plain.
#[local] Existing Instance Plain.mail.
(** A template that replaces one that was used is not used itself: the caches are
    asked by type, and are not cleared. *)
Example replaced_stays :
  let welcome subject := mkTemplate TemplateWelcome subject "html/welcome.html" "text/welcome.txt" 0 in
  let used := (RenderSubject (welcome "Welcome") ∅ (RegisterTemplate (welcome "Welcome") NewRegistry)).1 in
  (RenderSubject (welcome "Hello") ∅ (RegisterTemplate (welcome "Hello") used)).2 = Ok "Welcome".
Proof. vm_compute. reflexivity. Qed.
(** The data of a failed job does not have the reason that its templates ask for. *)
Example no_reason : s_sent (SendJobCompletionEmail "j1" false ["a@b"] Plain.start).1 =
  [mkRequest "POST" "https://api.brevo.com/v3/smtp/email" [("api-key", "key"); ("Content-Type", "application/json"); ("Accept", "application/json")]
     (Some "Job Failed: j1/Job j1: <no value>")].
Proof. vm_compute. reflexivity. Qed.
(** The subject a caller must give is not used. *)
Example subject_ignored :
  option_map (fun m => map (fun '(_, l) => l_Subject l) (map_to_list m)) (s_repo (SendCustomEmail (mkEmailRequest [mkAddress "" "a@b"] [] [] "Last chance" TemplateWelcome ∅ [] []) Plain.start).1) = Some ["Welcome to CodeAI"].
Proof. vm_compute. reflexivity. Qed.
