(* ===== verification/EmailHandlers.v ===== *)
(** Emails about events, and the HTTP handlers of emails:
    [internal/notification/email/subscriber], [internal/notification/email/config.go]
    and [internal/api/handlers/notifications/email_handler.go].

    The subscriber is a subscriber of [EventBus], whose world is the state of
    [EmailService]; its log lines are left out. *)

From Stdlib Require Import ZArith Lia Ascii.
From stdpp Require Import base strings list gmap.
From S2P Require Import Prelude GoStrings GoValue EventBus EventStore ApiBase EmailService.

#[local] Open Scope string_scope.
#[local] Open Scope Z_scope.

(** ** Configuration *)
Record Settings := mkSettings { EnableAutoNotifications : bool; BatchSize : Z; RetryAttempts : Z; RetryDelaySeconds : Z }.
Record Config := mkConfig { Brevo : BrevoConfig; cf_Settings : Settings }.
Definition DefaultConfig (Getenv : string -> string) : Config :=
  mkConfig (mkBrevoConfig (Getenv "BREVO_API_KEY") (mkAddress "CodeAI Platform" "noreply@codeai.io") 30 "") (mkSettings true 50 3 5).
Definition given (s otherwise : string) : string := if String.eqb s "" then otherwise else s.
Definition ConfigFromEnv (Getenv : string -> string) : Config :=
  let cfg := DefaultConfig Getenv in let b := Brevo cfg in
  mkConfig (mkBrevoConfig (given (Getenv "BREVO_API_KEY") (APIKey b))
              (mkAddress (given (Getenv "EMAIL_SENDER_NAME") (ea_Name (DefaultSender b))) (given (Getenv "EMAIL_SENDER_ADDRESS") (ea_Email (DefaultSender b))))
              (TimeoutSeconds b) (BaseURL b)) (cf_Settings cfg).

Section Handlers.
Context {M : Mail}.

(** ** The subscriber *)
Record RecipientResolver := mkResolver {
  GetWorkflowRecipients : string -> result string (list string);
  GetJobRecipients : string -> result string (list string);
  GetTestRecipients : string -> result string (list string) }.
Definition noOpResolver : RecipientResolver := mkResolver (fun _ => Ok []) (fun _ => Ok []) (fun _ => Ok []).
(** What it is made with; its service is the state. *)
Definition EmailEventSubscriber : Type := RecipientResolver.
Definition NewEmailEventSubscriber (resolver : option RecipientResolver) : EmailEventSubscriber := default noOpResolver resolver.

(** Without an identifier, with an error of the resolver or without recipients
    nothing is done; an error of the service is returned. *)
Definition notify (e : Event) (key : string) (recipients_of : string -> result string (list string)) (send : string -> list string -> State -> State * result string unit) (s : State)
  : State * result string unit :=
  match event_data e !! key with
  | Some (VString id) =>
      match recipients_of id with
      | Err _ | Ok [] => (s, Ok tt)
      | Ok recipients => send id recipients s
      end
  | _ => (s, Ok tt)
  end.
Definition int_at (key : string) (e : Event) : Z := match event_data e !! key with Some (VInt n) => n | _ => 0 end.
Definition handleWorkflowCompleted (sub : EmailEventSubscriber) (e : Event) : State -> State * result string unit :=
  notify e "workflowID" (GetWorkflowRecipients sub) (fun id => SendWorkflowNotification id "completed").
Definition handleWorkflowFailed (sub : EmailEventSubscriber) (e : Event) : State -> State * result string unit :=
  notify e "workflowID" (GetWorkflowRecipients sub) (fun id => SendWorkflowNotification id "failed").
Definition handleJobCompleted (sub : EmailEventSubscriber) (e : Event) : State -> State * result string unit :=
  notify e "jobID" (GetJobRecipients sub) (fun id => SendJobCompletionEmail id true).
Definition handleJobFailed (sub : EmailEventSubscriber) (e : Event) : State -> State * result string unit :=
  notify e "jobID" (GetJobRecipients sub) (fun id => SendJobCompletionEmail id false).
Definition handleTestSuiteCompleted (sub : EmailEventSubscriber) (e : Event) : State -> State * result string unit :=
  notify e "testRunID" (GetTestRecipients sub)
    (fun id => SendTestResultsEmail id (mkTestResults (int_at "passedCount" e) (int_at "failedCount" e) (int_at "skippedCount" e) 0)).
Definition Handle (sub : EmailEventSubscriber) (e : Event) (s : State) : State * HandleResult :=
  let ty := ev_Type _ e in
  let '(s, r) :=
    (if String.eqb ty EventWorkflowCompleted then handleWorkflowCompleted sub e
     else if String.eqb ty EventWorkflowFailed then handleWorkflowFailed sub e
     else if String.eqb ty EventJobCompleted then handleJobCompleted sub e
     else if String.eqb ty EventJobFailed then handleJobFailed sub e
     else if String.eqb ty EventTestSuiteCompleted then handleTestSuiteCompleted sub e
     else fun s => (s, Ok tt)) s in
  (s, match r with Ok _ => Handled | Err e => HandleError e end).
Local Abbreviation Bus := (EventBus.EventBus EmailEventSubscriber).
Definition SubscribeTo (sub : EmailEventSubscriber) (eb : Bus) : Bus :=
  fold_left (fun eb ty => Subscribe _ ty sub eb) [EventWorkflowCompleted; EventWorkflowFailed; EventJobCompleted; EventJobFailed; EventTestSuiteCompleted] eb.

(** ** The HTTP handlers *)
Record SendEmailRequest := mkSendEmail {
  se_To : list EmailAddress; se_Cc : list EmailAddress; se_Bcc : list EmailAddress; se_Subject : string; se_TemplateType : string; se_Data : Fields; se_Tags : list string }.
Record EmailResponse := mkEmailResponse {
  em_ID : string; em_MessageID : string; em_To : list string; em_Subject : string; em_TemplateType : string; em_Status : string; em_SentAt : string;
  em_DeliveredAt : option string; em_OpenedAt : option string; em_Error : string; em_Metadata : option Fields }.
Record TemplateResponse := mkTemplateResponse { tp_Type : string; tp_Subject : string }.
Inductive Body := BMessage (text : string) | BEmail (e : EmailResponse) | BEmails (l : list EmailResponse) (total : Z) | BTemplates (l : list TemplateResponse).
(** The validator reads the addresses too: it is given the request. *)
Variables (StructEmail : SendEmailRequest -> list FieldError) (DecodeEmail : string -> result string SendEmailRequest).

Definition emails_formatValidationError (e : FieldError) : string :=
  if String.eqb (fe_Tag e) "required" then "is required"
  else if String.eqb (fe_Tag e) "email" then "must be a valid email address"
  else if String.eqb (fe_Tag e) "min" then "must have at least " ++ fe_Param e ++ " items"
  else if String.eqb (fe_Tag e) "max" then "must have at most " ++ fe_Param e ++ " characters"
  else "is invalid".
Definition SendEmail (r : HttpReq) (s : State) : State * Response Body :=
  match DecodeEmail (default "" (r_body r)) with
  | Err _ => (s, respondError 400 "invalid request body")
  | Ok req =>
      match StructEmail req with
      | _ :: _ => (s, respondValidationError emails_formatValidationError (NotValid (StructEmail req)))
      | [] =>
          match SendCustomEmail (mkEmailRequest (se_To req) (se_Cc req) (se_Bcc req) (se_Subject req) (se_TemplateType req) (se_Data req) [] (se_Tags req)) s with
          | (s, Err e) => (s, respondError 500 ("failed to send email: " ++ e))
          | (s, Ok _) => (s, respondJSON 202 (BMessage "email queued successfully"))
          end
      end
  end.
Definition toEmailResponse (l : EmailLog) : EmailResponse :=
  mkEmailResponse (l_ID l) (l_MessageID l) (l_To l) (l_Subject l) (l_TemplateType l) (l_Status l) (FormatTime (l_SentAt l))
    (option_map FormatTime (l_DeliveredAt l)) (option_map FormatTime (l_OpenedAt l)) (l_Error l) (l_Metadata l).
Definition handler_GetEmailStatus (r : HttpReq) (s : State) : Response Body :=
  if String.eqb (r_id r) "" then respondError 400 "email ID is required" else
  match GetEmailStatus (r_id r) s with
  | Err _ => respondError 404 "email not found"
  | Ok l => respondJSON 200 (BEmail (toEmailResponse l))
  end.
Definition given_text (s : string) : option string := if String.eqb s "" then None else Some s.
Definition list_filter (r : HttpReq) : EmailFilter :=
  mkEmailFilter (given_text (r_query r "to")) (given_text (r_query r "status")) None None
    (numeric_param (r_query r "limit") (fun n => (0 <? n) && (n <=? 100)) 20) (numeric_param (r_query r "offset") (fun n => 0 <=? n) 0).
Definition handler_ListEmails (r : HttpReq) (order : list (string * EmailLog)) (s : State) : Response Body :=
  match service_ListEmails (list_filter r) order s with
  | Err e => respondError 500 ("failed to list emails: " ++ e)
  | Ok l => respondJSON 200 (BEmails (map toEmailResponse l) (Z.of_nat (length l)))
  end.
(** Of a new registry, in the order of its map. *)
Definition handler_ListTemplates (order : list (string * Template)) (r : HttpReq) (s : State) : Response Body :=
  respondJSON 200 (BTemplates (map (fun t => mkTemplateResponse (t_Type t) (t_Subject t)) (ListTemplates order))).

(** ** What an event asks for *)
(** The template, its data at a time, the recipients and the reference. *)
Record Notice := mkNotice { n_template : Template; n_data : Z -> Fields; n_recipients : list string; n_reference : string }.
Definition default_template (ty : string) : Template := default (mkTemplate "" "" "" "" 0) (List.find (fun t => String.eqb (t_Type t) ty) default_templates).
Definition workflow_notice (id ty status : string) (recipients : list string) : Notice :=
  mkNotice (default_template ty) (fun now => list_to_map [("WorkflowID", VString id); ("Status", VString status); ("Timestamp", VString (FormatTime now)); ("DashboardURL", VString ("/workflows/" ++ id))])
    recipients ("workflow:" ++ id).
Definition job_notice (id ty status : string) (success : bool) (recipients : list string) : Notice :=
  mkNotice (default_template ty) (fun now => list_to_map [("JobID", VString id); ("Status", VString status); ("Success", VBool success); ("Timestamp", VString (FormatTime now)); ("DashboardURL", VString ("/jobs/" ++ id))])
    recipients ("job:" ++ id).
Definition test_notice (id : string) (passed failed skipped : Z) (recipients : list string) : Notice :=
  mkNotice (default_template TemplateTestResultsSummary)
    (fun now => list_to_map [("TestRunID", VString id); ("PassedCount", VInt passed); ("FailedCount", VInt failed); ("SkippedCount", VInt skipped); ("Duration", VString (show_duration 0));
                             ("ReportURL", VString ("/tests/" ++ id ++ "/report")); ("Timestamp", VString (FormatTime now))])
    recipients ("test:" ++ id).
(** For a known type, an identifier and at least one recipient. *)
Definition notice_for (sub : EmailEventSubscriber) (e : Event) : option Notice :=
  let about key recipients_of make :=
    match event_data e !! key with Some (VString id) => match recipients_of id with Ok (r :: l) => Some (make id (r :: l)) | _ => None end | _ => None end in
  let ty := ev_Type _ e in
  if String.eqb ty EventWorkflowCompleted then about "workflowID" (GetWorkflowRecipients sub) (fun id => workflow_notice id TemplateWorkflowCompleted "completed")
  else if String.eqb ty EventWorkflowFailed then about "workflowID" (GetWorkflowRecipients sub) (fun id => workflow_notice id TemplateWorkflowFailed "failed")
  else if String.eqb ty EventJobCompleted then about "jobID" (GetJobRecipients sub) (fun id => job_notice id TemplateJobCompleted "completed" true)
  else if String.eqb ty EventJobFailed then about "jobID" (GetJobRecipients sub) (fun id => job_notice id TemplateJobFailed "failed" false)
  else if String.eqb ty EventTestSuiteCompleted then
    about "testRunID" (GetTestRecipients sub) (fun id => test_notice id (int_at "passedCount" e) (int_at "failedCount" e) (int_at "skippedCount" e))
  else None.
Definition notice_email (n : Notice) (now : Z) : result string TransactionalEmail := template_email (n_template n) (n_data n now) (n_recipients n) (n_reference n).
(** The registry has the templates it was made with, and its caches are theirs. *)
Definition ready (r : Registry) : Prop := coherent r /\ Forall (fun t => r_templates r !! t_Type t = Some t) default_templates.
(** What becomes of a notice: an email that cannot be made is not sent. *)
Definition noticed (n : option Notice) (s s' : State) : Prop :=
  match n with
  | None => s' = s
  | Some n =>
      match notice_email n (Now (s_clock s)) with
      | Ok email => exists r, one_email (s_client s) email (t_Type (n_template n)) s s' r
      | Err _ => s_sent s' = s_sent s /\ s_repo s' = s_repo s /\ s_ids s' = s_ids s
      end
  end.

Lemma noticed_send ty n s : (forall k, new_uuid k <> "") -> ready (s_registry s) -> In (default_template ty) default_templates -> t_Type (default_template ty) = ty -> n_template n = default_template ty ->
  let '(s', _) := with_template ty (fun t s => let '(s, now) := read_clock s in sendWithTemplate t (n_data n now) (n_recipients n) (n_reference n) s) s in
  noticed (Some n) s s' /\ ready (s_registry s').
Proof.
  intros Hid [Hc Hd] Hin Hty Hn. pose proof (proj1 (List.Forall_forall _ _) Hd _ Hin) as Ht. cbv beta in Ht. rewrite Hty in Ht. unfold with_template, GetTemplate. rewrite Ht. cbn [read_clock].
  pose proof (sent_with_template (default_template ty) (n_data n (Now (s_clock s))) (n_recipients n) (n_reference n) (read_clock s).1 Hid Hc) as H. rewrite Hty in H. specialize (H Ht). cbn [read_clock fst] in H.
  destruct (sendWithTemplate _ _ _ _ _) as [s' r]. destruct H as [[H1 H2] H3]. split; [|split; [done|]; cbn in H2; by rewrite H2].
  unfold noticed, notice_email. rewrite Hn. destruct (template_email _ _ _ _) as [email|e]; [exists r; rewrite Hty; exact H3|]. destruct H3 as [(r' & -> & _) _]. done.
Qed.
Definition sends (send : string -> list string -> State -> State * result string unit) (make : string -> list string -> Notice) : Prop :=
  forall id recipients s, ready (s_registry s) -> let '(s', _) := send id recipients s in noticed (Some (make id recipients)) s s' /\ ready (s_registry s').
Lemma noticed_notify e key recipients_of send make s : sends send make -> ready (s_registry s) -> let '(s', _) := notify e key recipients_of send s in
  noticed (match event_data e !! key with Some (VString id) => match recipients_of id with Ok (r :: l) => Some (make id (r :: l)) | _ => None end | _ => None end) s s' /\ ready (s_registry s').
Proof.
  intros Hs Hr. unfold notify. destruct (event_data e !! key) as [[]|]; try done. destruct (recipients_of _) as [[|r l]|]; [done| |done]. by apply Hs.
Qed.
Lemma noticed_handled sub e s : (forall k, new_uuid k <> "") -> ready (s_registry s) -> let s' := (Handle sub e s).1 in noticed (notice_for sub e) s s' /\ ready (s_registry s').
Proof.
  intros Hid Hr. unfold Handle, notice_for, handleWorkflowCompleted, handleWorkflowFailed, handleJobCompleted, handleJobFailed, handleTestSuiteCompleted.
  assert (forall id ty status recipients s, ready (s_registry s) -> status = "completed" /\ ty = TemplateWorkflowCompleted \/ status = "failed" /\ ty = TemplateWorkflowFailed ->
    let '(s', _) := SendWorkflowNotification id status recipients s in noticed (Some (workflow_notice id ty status recipients)) s s' /\ ready (s_registry s')) as Hw.
  { intros id ty status recipients s1 Hr1 [[-> ->]|[-> ->]].
    - exact (noticed_send TemplateWorkflowCompleted (workflow_notice id TemplateWorkflowCompleted "completed" recipients) s1 Hid Hr1 ltac:(by left) eq_refl eq_refl).
    - exact (noticed_send TemplateWorkflowFailed (workflow_notice id TemplateWorkflowFailed "failed" recipients) s1 Hid Hr1 ltac:(right; by left) eq_refl eq_refl). }
  assert (forall key recipients_of send make, sends send make ->
    let s' := (let '(s', r) := notify e key recipients_of send s in (s', match r with Ok _ => Handled | Err e => HandleError e end)).1 in
    noticed (match event_data e !! key with Some (VString id) => match recipients_of id with Ok (r :: l) => Some (make id (r :: l)) | _ => None end | _ => None end) s s' /\ ready (s_registry s')) as Hn.
  { intros key recipients_of send make Hs. pose proof (noticed_notify e key recipients_of send make s Hs Hr) as H. by destruct (notify _ _ _ _ _). }
  destruct (String.eqb (ev_Type _ e) EventWorkflowCompleted); [|destruct (String.eqb (ev_Type _ e) EventWorkflowFailed); [|destruct (String.eqb (ev_Type _ e) EventJobCompleted);
    [|destruct (String.eqb (ev_Type _ e) EventJobFailed); [|destruct (String.eqb (ev_Type _ e) EventTestSuiteCompleted); [|done]]]]].
  - apply (Hn _ _ _ (fun id => workflow_notice id TemplateWorkflowCompleted "completed")). intros id rs s1 Hr1. apply Hw; [done|by left].
  - apply (Hn _ _ _ (fun id => workflow_notice id TemplateWorkflowFailed "failed")). intros id rs s1 Hr1. apply Hw; [done|by right].
  - apply (Hn _ _ _ (fun id => job_notice id TemplateJobCompleted "completed" true)). intros id rs s1 Hr1.
    exact (noticed_send TemplateJobCompleted (job_notice id TemplateJobCompleted "completed" true rs) s1 Hid Hr1 ltac:(do 2 right; by left) eq_refl eq_refl).
  - apply (Hn _ _ _ (fun id => job_notice id TemplateJobFailed "failed" false)). intros id rs s1 Hr1.
    exact (noticed_send TemplateJobFailed (job_notice id TemplateJobFailed "failed" false rs) s1 Hid Hr1 ltac:(do 3 right; by left) eq_refl eq_refl).
  - apply (Hn _ _ _ (fun id => test_notice id (int_at "passedCount" e) (int_at "failedCount" e) (int_at "skippedCount" e))). intros id rs s1 Hr1.
    exact (noticed_send TemplateTestResultsSummary (test_notice id _ _ _ rs) s1 Hid Hr1 ltac:(do 4 right; by left) eq_refl eq_refl).
Qed.
Definition known (ty : string) : bool := existsb (String.eqb ty) [EventWorkflowCompleted; EventWorkflowFailed; EventJobCompleted; EventJobFailed; EventTestSuiteCompleted].
Lemma subscribed sub ty : subs_of _ ty (SubscribeTo sub (mkBus _ ∅)) = if known ty then [sub] else [].
Proof.
  unfold known. cbn [existsb].
  destruct (String.eqb_spec ty EventWorkflowCompleted) as [->|]; [reflexivity|]. destruct (String.eqb_spec ty EventWorkflowFailed) as [->|]; [reflexivity|].
  destruct (String.eqb_spec ty EventJobCompleted) as [->|]; [reflexivity|]. destruct (String.eqb_spec ty EventJobFailed) as [->|]; [reflexivity|].
  destruct (String.eqb_spec ty EventTestSuiteCompleted) as [->|]; [reflexivity|]. cbn [orb].
  unfold subs_of, SubscribeTo, Subscribe. cbn [fold_left subscribers]. by rewrite !lookup_insert_ne, lookup_empty by done.
Qed.
Lemma unknown_silent sub e : known (ev_Type _ e) = false -> notice_for sub e = None.
Proof. unfold known, notice_for. cbn [existsb]. by repeat (destruct (String.eqb (ev_Type _ e) _); [done|]). Qed.

(** A test run that ended is never emailed about: the builder names its identifier
    and its counts otherwise than the subscriber. *)
Theorem test_runs_silent sub uuid now suite passed failed skipped s : Handle sub (TestSuiteCompleted uuid now suite passed failed skipped) s = (s, Handled).
Proof. reflexivity. Qed.
End Handlers.

(** ** Concrete events *)
#[local] Existing Instance Plain.mail.
Definition team : EmailEventSubscriber := mkResolver (fun _ => Ok ["ops@codeai.io"; "dev@codeai.io"]) (fun _ => Ok []) (fun _ => Err "unknown").
Definition failed_workflow : Event := WorkflowFailed "ev1" 0 "w7" "boom".
Definition published : State * option string := Publish GoVal State EmailEventSubscriber Handle failed_workflow (SubscribeTo team (mkBus _ ∅)) Plain.start.
(** The listing's total is the length of its page. *)
Example total_is_page :
  let log id := (id, mkEmailLog id "" [] "" "" "sent" 0 None None "" None) in
  Content (handler_ListEmails (mkHttpReq None "" (fun k => if String.eqb k "limit" then "1" else "")) [log "A"; log "B"] Plain.start) =
  Some (Data (BEmails [mkEmailResponse "A" "" [] "" "" "sent" "0" None None "" None] 1)).
Proof. vm_compute. reflexivity. Qed.
