(* ===== verification/WorkflowActivities.v ===== *)
(** The data and the activities of workflows: [internal/workflow/definitions/types.go]
    and [activity_types.go], [internal/workflow/activities] and the rollbacks of
    [internal/workflow/activities/compensation].

    An activity is a function of the world.  What Temporal does with it - attempts,
    time-outs, what runs at the same time - is a parameter, and so are the agents,
    the test cases, the senders and the storage behind the interfaces; heartbeats
    are left out.  JSON texts are strings. *)

From Stdlib Require Import ZArith Lia.
From stdpp Require Import base strings list gmap.
From S2P Require Import Prelude GoStrings.
From S2P Require Retry.

#[local] Open Scope string_scope.
#[local] Open Scope Z_scope.

(** ** Data *)
Definition StatusPending : string := "pending".
Definition StatusRunning : string := "running".
Definition StatusCompleted : string := "completed".
Definition StatusFailed : string := "failed".
Definition StatusCanceled : string := "canceled".
Record RetryConfig := mkRetryConfig { MaxAttempts : Z; InitialInterval : Z; BackoffCoefficient : float64; MaximumInterval : Z }.
Definition DefaultRetryConfig : RetryConfig := mkRetryConfig 3 Second (Retry.f_of_int 2) (60 * Second).
Record AgentConfig := mkAgent { a_Name : string; a_Type : string; a_Config : gmap string string; a_Timeout : Z; a_RetryPolicy : RetryConfig }.
Record AgentResult := mkAgentResult { ar_AgentName : string; ar_Status : string; ar_Output : string; ar_Error : string; ar_Duration : Z; ar_StartedAt : Z; ar_FinishedAt : Z }.
Record PipelineInput := mkPipeline { pi_WorkflowID : string; pi_Agents : list AgentConfig; pi_Timeout : Z; pi_RetryPolicy : RetryConfig; pi_Parallel : bool; pi_Metadata : gmap string string }.
Record PipelineOutput := mkPipelineOutput {
  po_WorkflowID : string; po_Status : string; po_Results : list AgentResult; po_StartedAt : Z; po_CompletedAt : Z; po_TotalDuration : Z; po_Error : string }.
Record TestCase := mkTestCase { tc_ID : string; tc_Name : string; tc_Description : string; tc_Input : string; tc_Expected : option string; tc_Timeout : Z; tc_Tags : list string }.
Record TestCaseResult := mkCaseResult {
  cr_TestCaseID : string; cr_Name : string; cr_Status : string; cr_Output : string; cr_Error : string; cr_Duration : Z; cr_Attempts : Z; cr_StartedAt : Z; cr_FinishedAt : Z }.
Record TestSuiteInput := mkSuite {
  su_SuiteID : string; su_Name : string; su_TestCases : list TestCase; su_Timeout : Z; su_RetryPolicy : RetryConfig; su_Parallel : bool; su_StopOnFailure : bool }.
Record TestSuiteOutput := mkSuiteOutput {
  so_SuiteID : string; so_Name : string; so_Status : string; so_Results : list TestCaseResult; so_TotalTests : Z; so_PassedTests : Z; so_FailedTests : Z; so_SkippedTests : Z;
  so_StartedAt : Z; so_CompletedAt : Z; so_TotalDuration : Z; so_Error : string }.
Record ValidationResult := mkValidation { Valid : bool; v_Error : string }.
Record StorageResult := mkStorageResult { sr_Success : bool; sr_Error : string }.
Record NotificationRequest := mkNotification { n_Type : string; n_WorkflowID : string; n_Status : string; n_Message : string; n_Metadata : gmap string string }.
Record NotificationResult := mkNotificationResult { nr_Sent : bool; nr_Error : string }.

(** ** Validation *)
Definition invalid (e : string) : ValidationResult := mkValidation false e.
Definition valid : ValidationResult := mkValidation true "".
Fixpoint validate_agents (i : Z) (l : list AgentConfig) : ValidationResult :=
  match l with
  | [] => valid
  | a :: l =>
      if String.eqb (a_Name a) "" then invalid ("agent at index " ++ Itoa i ++ ": name is required")
      else if String.eqb (a_Type a) "" then invalid ("agent " ++ a_Name a ++ ": type is required")
      else validate_agents (i + 1) l
  end.
Definition ValidateInput (input : PipelineInput) : ValidationResult :=
  if String.eqb (pi_WorkflowID input) "" then invalid "workflow ID is required"
  else match pi_Agents input with [] => invalid "at least one agent is required" | l => validate_agents 0 l end.
Fixpoint validate_cases (i : Z) (seenIDs : list string) (l : list TestCase) : ValidationResult :=
  match l with
  | [] => valid
  | tc :: l =>
      if String.eqb (tc_ID tc) "" then invalid ("test case at index " ++ Itoa i ++ ": ID is required")
      else if existsb (String.eqb (tc_ID tc)) seenIDs then invalid ("duplicate test case ID: " ++ tc_ID tc)
      else if String.eqb (tc_Name tc) "" then invalid ("test case " ++ tc_ID tc ++ ": name is required")
      else validate_cases (i + 1) (tc_ID tc :: seenIDs) l
  end.
Definition ValidateTestSuite (input : TestSuiteInput) : ValidationResult :=
  if String.eqb (su_SuiteID input) "" then invalid "suite ID is required"
  else if String.eqb (su_Name input) "" then invalid "suite name is required"
  else match su_TestCases input with [] => invalid "at least one test case is required" | l => validate_cases 0 [] l end.
Lemma validate_agents_spec l : forall i, Valid (validate_agents i l) = true <-> Forall (fun a => a_Name a <> "" /\ a_Type a <> "") l.
Proof.
  induction l as [|a l IH]; intros i; [split; [constructor|done]|]. rewrite Forall_cons. cbn [validate_agents].
  destruct (String.eqb_spec (a_Name a) ""), (String.eqb_spec (a_Type a) ""); rewrite ?IH; cbn; naive_solver.
Qed.
(** Names may repeat. *)
Theorem ValidateInput_spec input : Valid (ValidateInput input) = true <->
  pi_WorkflowID input <> "" /\ pi_Agents input <> [] /\ Forall (fun a => a_Name a <> "" /\ a_Type a <> "") (pi_Agents input).
Proof.
  unfold ValidateInput. destruct (String.eqb_spec (pi_WorkflowID input) ""); [cbn; naive_solver|]. destruct (pi_Agents input) as [|a l]; [cbn; naive_solver|].
  rewrite validate_agents_spec. naive_solver.
Qed.
Lemma validate_cases_spec l : forall i seen, Valid (validate_cases i seen l) = true <->
  Forall (fun tc => tc_ID tc <> "" /\ tc_Name tc <> "") l /\ NoDup (map tc_ID l) /\ Forall (fun tc => tc_ID tc ∉ seen) l.
Proof.
  induction l as [|tc l IH]; intros i seen; [split; [intros _; split_and!; constructor|done]|]. rewrite !Forall_cons. cbn [validate_cases map]. rewrite NoDup_cons.
  destruct (String.eqb_spec (tc_ID tc) "") as [|Hid]; [cbn; naive_solver|].
  assert (existsb (String.eqb (tc_ID tc)) seen = true <-> tc_ID tc ∈ seen) as Hs.
  { rewrite existsb_exists. split; [intros (x & Hx & ->%String.eqb_eq); by apply list_elem_of_In|intros Hx; exists (tc_ID tc); split; [by apply list_elem_of_In|apply String.eqb_refl]]. }
  destruct (existsb _ seen); [cbn; naive_solver|].
  destruct (String.eqb_spec (tc_Name tc) "") as [|Hn]; [cbn; naive_solver|]. rewrite IH, !Forall_forall. split.
  - intros (H1 & H2 & H3). split_and!; try done; [|intros Hin; by apply Hs in Hin|intros x Hx Hin; apply (H3 x Hx); by right].
    intros (x & E & Hx)%list_elem_of_fmap. apply (H3 x Hx). rewrite E. by left.
  - intros ([_ H1] & [H2 H3] & H4 & H5). split_and!; try done. intros x Hx [E|Hin]%elem_of_cons; [|by apply (H5 x Hx)]. apply H2. apply list_elem_of_fmap. by exists x.
Qed.
Theorem ValidateTestSuite_spec input : Valid (ValidateTestSuite input) = true <->
  su_SuiteID input <> "" /\ su_Name input <> "" /\ su_TestCases input <> [] /\ Forall (fun tc => tc_ID tc <> "" /\ tc_Name tc <> "") (su_TestCases input) /\ NoDup (map tc_ID (su_TestCases input)).
Proof.
  unfold ValidateTestSuite. destruct (String.eqb_spec (su_SuiteID input) ""); [cbn; naive_solver|]. destruct (String.eqb_spec (su_Name input) ""); [cbn; naive_solver|].
  destruct (su_TestCases input) as [|tc l]; [cbn; naive_solver|]. rewrite validate_cases_spec. split; [naive_solver|]. intros (_ & _ & _ & H1 & H2). split_and!; [done|done|]. apply Forall_true. intros x Hx. by apply elem_of_nil in Hx.
Qed.

(** ** What workflows stand on *)
Record RetryPolicy := mkPolicy { rp_InitialInterval : Z; rp_BackoffCoefficient : float64; rp_MaximumInterval : Z; rp_MaximumAttempts : Z }.
(** Without a policy Temporal has its own. *)
Record Options := mkOptions { StartToCloseTimeout : Z; o_RetryPolicy : option RetryPolicy }.
Definition policy_of (r : RetryConfig) : RetryPolicy := mkPolicy (InitialInterval r) (BackoffCoefficient r) (MaximumInterval r) (wrap32 (MaxAttempts r)).
Class Temporal := {
  World : Type;
  (** the clocks of a workflow and of an activity, and the number of the attempt *)
  workflow_Now : World -> World * Z;
  time_Now : World -> World * Z;
  Attempt : World -> Z;
  (** one activity, and several that are started before the first is awaited *)
  execute : forall {A}, Options -> (World -> World * result string A) -> World -> World * result string A;
  execute_all : forall {A}, Options -> list (World -> World * result string A) -> World -> World * list (result string A);
  (** the interfaces of the activities *)
  agent_Execute : string -> gmap string string -> World -> World * result string string;
  case_Execute : TestCase -> World -> World * result string string;
  sender_Send : string -> string -> gmap string string -> World -> World * option string;
  SavePipelineResult : string -> string -> World -> World * option string;
  SaveTestSuiteResult : string -> string -> World -> World * option string;
  MarshalPipeline : PipelineOutput -> result string string;
  MarshalSuite : TestSuiteOutput -> result string string;
  FormatTime : Z -> string;
  (** the file system; an error says whether the file is not there *)
  os_Remove : string -> World -> World * option (bool * string);
  os_RemoveAll : string -> World -> World * option (bool * string);
  os_ReadFile : string -> World -> result string string;
  os_WriteFile : string -> string -> World -> World * option string }.
(** A result is one of an attempt, and every activity that is started has one. *)
Class TemporalLaws {T : Temporal} : Prop := {
  execute_sound {A} o (body : World -> World * result string A) w w' a : execute o body w = (w', Ok a) -> exists w0 w1, body w0 = (w1, Ok a);
  execute_all_sound {A} o (bodies : list (World -> World * result string A)) w :
    Forall2 (fun body r => forall a, r = Ok a -> exists w0 w1, body w0 = (w1, Ok a)) bodies (execute_all o bodies w).2 }.

Section Activities.
Context {T : Temporal}.
Abbreviation Activity A := (World -> World * result string A).

(** ** Activities *)
Definition duration (start finish : Z) : Z := Z.max int64_min (Z.min int64_max (finish - start)).
Definition ValidateInputActivity (input : PipelineInput) : Activity ValidationResult := fun w => (w, Ok (ValidateInput input)).
Definition ValidateTestSuiteActivity (input : TestSuiteInput) : Activity ValidationResult := fun w => (w, Ok (ValidateTestSuite input)).
(** The response that comes with an error is not delivered. *)
Definition ExecuteAgent (agent : AgentConfig) : Activity AgentResult := fun w =>
  let '(w, start) := time_Now w in
  let '(w, r) := agent_Execute (a_Type agent) (a_Config agent) w in
  let '(w, finish) := time_Now w in
  (w, match r with Err e => Err e | Ok output => Ok (mkAgentResult (a_Name agent) StatusCompleted output "" (duration start finish) start finish) end).
Definition ExecuteTestCase (tc : TestCase) : Activity TestCaseResult := fun w =>
  let attempts := Attempt w in
  let '(w, start) := time_Now w in
  let '(w, r) := case_Execute tc w in
  let '(w, finish) := time_Now w in
  (w, match r with Err e => Err e | Ok output => Ok (mkCaseResult (tc_ID tc) (tc_Name tc) StatusCompleted output "" (duration start finish) attempts start finish) end).
Definition stored (json : result string string) (save : string -> World -> World * option string) : Activity StorageResult := fun w =>
  match json with
  | Err e => (w, Err e)
  | Ok data => match save data w with (w, Some e) => (w, Err e) | (w, None) => (w, Ok (mkStorageResult true "")) end
  end.
Definition StorePipelineResult (workflowID : string) (output : PipelineOutput) : Activity StorageResult := stored (MarshalPipeline output) (SavePipelineResult workflowID).
Definition StoreTestSuiteResult (suiteID : string) (output : TestSuiteOutput) : Activity StorageResult := stored (MarshalSuite output) (SaveTestSuiteResult suiteID).
Definition SendNotification (req : NotificationRequest) : Activity NotificationResult := fun w =>
  let '(w, now) := time_Now w in
  let metadata := <["timestamp" := FormatTime now]> (<["status" := n_Status req]> (<["workflowId" := n_WorkflowID req]> (n_Metadata req))) in
  match sender_Send (n_Type req) (n_Message req) metadata w with
  | (w, Some e) => (w, Err e)
  | (w, None) => (w, Ok (mkNotificationResult true ""))
  end.

(** *** Implementations of the interfaces *)
Section Defaults.
Variables (MarshalReport : list (string * string) -> result string string) (is_object : string -> bool).
Definition DefaultAgentExecutor_Execute (agentType : string) (config : gmap string string) : result string string :=
  if String.eqb agentType "code-analysis" then MarshalReport [("analysis", "code analysis completed"); ("type", "code-analysis")]
  else if String.eqb agentType "test-generator" then MarshalReport [("testsGenerated", "0"); ("type", "test-generator")]
  else if String.eqb agentType "documentation" then MarshalReport [("documentation", "documentation generated"); ("type", "documentation")]
  else Err ("unknown agent type: " ++ agentType).
(** It passes every test case: what is expected is looked at, not compared. *)
Definition DefaultTestCaseExecutor_Execute (tc : TestCase) : result string string :=
  MarshalReport ([("testCaseId", tc_ID tc); ("passed", "true"); ("message", "test case executed successfully")] ++
    match tc_Expected tc with Some text => if is_object text then [("expectedValidated", "true")] else [] | None => [] end)%list.
End Defaults.
Definition Sender : Type := string -> string -> gmap string string -> World -> World * option string.
Definition NoOpNotificationSender_Send : Sender := fun _ _ _ w => (w, None).
(** It sends nothing: the request is to be written. *)
Definition WebhookNotificationSender_Send (webhookURLs : gmap string string) : Sender := fun _ _ _ w => (w, None).
Fixpoint CompositeNotificationSender_Send (senders : list Sender) : Sender := fun ty message metadata w =>
  match senders with
  | [] => (w, None)
  | send :: senders =>
      let '(w, err) := send ty message metadata w in
      let '(w, rest) := CompositeNotificationSender_Send senders ty message metadata w in
      (w, match err with Some e => Some e | None => rest end)
  end.
(** The two maps; [done] is a context that is over. *)
Record InMemoryStorageClient := mkStorage { pipelineResults : gmap string string; testSuiteResults : gmap string string }.
Definition NewInMemoryStorageClient : InMemoryStorageClient := mkStorage ∅ ∅.
Definition Memory_SavePipelineResult (done : option string) (workflowID result : string) (c : InMemoryStorageClient) : InMemoryStorageClient * option string :=
  match done with Some e => (c, Some e) | None => (mkStorage (<[workflowID := result]> (pipelineResults c)) (testSuiteResults c), None) end.
Definition Memory_SaveTestSuiteResult (done : option string) (suiteID result : string) (c : InMemoryStorageClient) : InMemoryStorageClient * option string :=
  match done with Some e => (c, Some e) | None => (mkStorage (pipelineResults c) (<[suiteID := result]> (testSuiteResults c)), None) end.
Definition GetPipelineResult (workflowID : string) (c : InMemoryStorageClient) : option string := pipelineResults c !! workflowID.
Definition GetTestSuiteResult (suiteID : string) (c : InMemoryStorageClient) : option string := testSuiteResults c !! suiteID.
(** Whatever became of the workflow, it is stored as completed. *)
Definition Database_SavePipelineResult {W} (SaveExecution : string -> string -> string -> W -> W * option string) (workflowID result : string) : W -> W * option string :=
  SaveExecution workflowID StatusCompleted result.
Definition Database_SaveTestSuiteResult {W} (SaveExecution : string -> string -> string -> W -> W * option string) (suiteID result : string) : W -> W * option string :=
  SaveExecution suiteID StatusCompleted result.

(** ** Rollbacks *)
Record RollbackInput := mkRollbackInput { ri_WorkflowID : string; ri_ActivityName : string; ri_ResourceType : string }.
Record AgentRollbackInput := mkAgentRollback { ag_Input : RollbackInput; ag_AgentType : string; ag_AgentName : string; ag_OutputPath : string }.
Record FileRollbackInput := mkFileRollback { fi_Input : RollbackInput; fi_FilePath : string; fi_Operation : string; fi_OriginalContent : string; fi_BackupPath : string }.
Record RollbackOutput := mkRollbackOutput { ro_Success : bool; ro_Message : string; ro_Error : string; ro_Rollback : bool }.
Definition RollbackAgent (input : AgentRollbackInput) (w : World) : World * option string :=
  if String.eqb (ag_OutputPath input) "" then (w, None) else
  match os_RemoveAll (ag_OutputPath input) w with
  | (w, Some (false, e)) => (w, Some ("failed to remove output artifacts: " ++ e))
  | (w, _) => (w, None)
  end.
(** From the backup, which is removed then, or from the content. *)
Definition restore (input : FileRollbackInput) (failed nothing : string) (w : World) : World * option string :=
  if negb (String.eqb (fi_BackupPath input) "") then
    match os_ReadFile (fi_BackupPath input) w with
    | Err e => (w, Some ("failed to read backup: " ++ e))
    | Ok data =>
        match os_WriteFile (fi_FilePath input) data w with
        | (w, Some e) => (w, Some (failed ++ ": " ++ e))
        | (w, None) => ((os_Remove (fi_BackupPath input) w).1, None)
        end
    end
  else if negb (String.eqb (fi_OriginalContent input) "") then
    match os_WriteFile (fi_FilePath input) (fi_OriginalContent input) w with
    | (w, Some e) => (w, Some (failed ++ " from content: " ++ e))
    | (w, None) => (w, None)
    end
  else (w, Some nothing).
Definition RollbackFile (input : FileRollbackInput) (w : World) : World * option string :=
  if String.eqb (fi_Operation input) "create" then
    match os_Remove (fi_FilePath input) w with
    | (w, Some (false, e)) => (w, Some ("failed to delete created file: " ++ e))
    | (w, _) => (w, None)
    end
  else if String.eqb (fi_Operation input) "update" then restore input "failed to restore file" "no backup or original content available for file restoration" w
  else if String.eqb (fi_Operation input) "delete" then restore input "failed to restore deleted file" "no backup or original content available to restore deleted file" w
  else (w, Some ("unknown file operation: " ++ fi_Operation input)).
Definition RollbackDatabase (operation : string) : option string :=
  if String.eqb operation "insert" || String.eqb operation "update" || String.eqb operation "delete" then None else Some ("unknown database operation: " ++ operation).
(** An activity with a handler, which may be missing. *)
Definition rolled_back (handler : option (World -> World * option string)) (skipped message : string) : Activity RollbackOutput := fun w =>
  match handler with
  | None => (w, Ok (mkRollbackOutput true ("no " ++ skipped ++ " rollback handler configured, skipping") "" true))
  | Some rollback => match rollback w with (w, Some e) => (w, Err e) | (w, None) => (w, Ok (mkRollbackOutput true (message ++ " rollback completed") "" true)) end
  end.
Definition RollbackAgentExecution (handler : option (AgentRollbackInput -> World -> World * option string)) (input : AgentRollbackInput) : Activity RollbackOutput :=
  rolled_back (option_map (fun h => h input) handler) "agent" ("agent " ++ ag_AgentName input).
Definition RollbackFileOperation (handler : option (FileRollbackInput -> World -> World * option string)) (input : FileRollbackInput) : Activity RollbackOutput :=
  rolled_back (option_map (fun h => h input) handler) "file" ("file " ++ fi_FilePath input).
(** The other handlers that come with the code: two do nothing, the third knows the
    operations. *)
Definition RollbackAPI (compensateURL : string) (w : World) : World * option string := (w, None).
Definition RollbackSentNotification (notificationType : string) (w : World) : World * option string := (w, None).
Definition RollbackExternalAPICall (handler : option (World -> World * option string)) (requestID : string) : Activity RollbackOutput :=
  rolled_back handler "API" ("API call " ++ requestID).
Definition RollbackNotification (handler : option (World -> World * option string)) (notificationID : string) : Activity RollbackOutput :=
  rolled_back handler "notification" ("notification " ++ notificationID).
Definition RollbackDatabaseOperation (handler : option (World -> World * option string)) (documentID : string) : Activity RollbackOutput :=
  rolled_back handler "database" ("database document " ++ documentID).
End Activities.
