(* ===== verification/WorkflowDefinitions.v ===== *)
(** The workflows of [internal/workflow/definitions]: the pipeline of agents, the
    pipeline with compensation, and the test suite.

    They run the activities of [WorkflowActivities] through Temporal's parameters,
    and undo with the compensation manager of [Saga].  Errors are their texts, and
    the logger is left out. *)

From Stdlib Require Import ZArith Lia.
From stdpp Require Import base strings list gmap.
From S2P Require Import Prelude GoStrings WorkflowActivities.
From S2P Require Saga Retry.

#[local] Open Scope string_scope.
#[local] Open Scope Z_scope.

Section Definitions.
Context {T : Temporal}.

(** ** The options of activities *)
Definition or_default (timeout otherwise : Z) : Z := if timeout =? 0 then otherwise else timeout.
Definition workflow_options (timeout otherwise : Z) (r : RetryConfig) : Options :=
  mkOptions (or_default timeout otherwise) (Some (policy_of (if MaxAttempts r =? 0 then DefaultRetryConfig else r))).
Definition agent_options (agent : AgentConfig) : Options :=
  mkOptions (or_default (a_Timeout agent) (10 * Minute)) (if 0 <? MaxAttempts (a_RetryPolicy agent) then Some (policy_of (a_RetryPolicy agent)) else None).
Definition attempts_only (n : Z) : RetryPolicy := mkPolicy 0 (Retry.f_of_int 0) 0 n.
Definition storage_options : Options := mkOptions (30 * Second) (Some (attempts_only 3)).
Definition notify_options : Options := mkOptions (30 * Second) (Some (attempts_only 2)).

(** ** Agents *)
Definition no_result : AgentResult := mkAgentResult "" "" "" "" 0 0 0.
(** The zero result comes with an error. *)
Definition executeAgent (agent : AgentConfig) (w : World) : World * (AgentResult * option string) :=
  match execute (agent_options agent) (ExecuteAgent agent) w with
  | (w, Ok r) => (w, (r, None))
  | (w, Err e) => (w, (no_result, Some e))
  end.
Definition failed_result (r : AgentResult) (e : string) : AgentResult :=
  mkAgentResult (ar_AgentName r) StatusFailed (ar_Output r) e (ar_Duration r) (ar_StartedAt r) (ar_FinishedAt r).
Fixpoint executeAgentsSequential (agents : list AgentConfig) (results : list AgentResult) (w : World) : World * (list AgentResult * option string) :=
  match agents with
  | [] => (w, (results, None))
  | agent :: agents =>
      let '(w, (r, err)) := executeAgent agent w in
      let r := match err with Some e => failed_result r e | None => r end in
      let results := (results ++ [r])%list in
      if String.eqb (ar_Status r) StatusFailed then (w, (results, Some ("agent " ++ a_Name agent ++ " failed: " ++ ar_Error r)))
      else executeAgentsSequential agents results w
  end.
(** The results that come, in the order of the agents. *)
Fixpoint collect_agents (agents : list AgentConfig) (rs : list (result string AgentResult)) (w : World) : World * (list AgentResult * option string) :=
  match agents, rs with
  | agent :: agents, Ok r :: rs => let '(w, (results, err)) := collect_agents agents rs w in (w, (r :: results, err))
  | agent :: agents, Err e :: rs =>
      let '(w, now) := workflow_Now w in
      let '(w, (results, _)) := collect_agents agents rs w in
      (w, (mkAgentResult (a_Name agent) StatusFailed "" e 0 0 now :: results, Some ("agent " ++ a_Name agent ++ " failed: " ++ e)))
  | _, _ => (w, ([], None))
  end.
Definition executeAgentsParallel (options : Options) (agents : list AgentConfig) (w : World) : World * (list AgentResult * option string) :=
  let '(w, rs) := execute_all options (map ExecuteAgent agents) w in collect_agents agents rs w.

(** ** The pipeline *)
Definition Outcome A : Type := A * option string.
Definition completed_at (o : PipelineOutput) (w : World) : World * PipelineOutput :=
  let '(w, now) := workflow_Now w in
  (w, mkPipelineOutput (po_WorkflowID o) (po_Status o) (po_Results o) (po_StartedAt o) now (duration (po_StartedAt o) now) (po_Error o)).
Definition with_outcome (o : PipelineOutput) (status : string) (results : list AgentResult) (error : string) : PipelineOutput :=
  mkPipelineOutput (po_WorkflowID o) status results (po_StartedAt o) (po_CompletedAt o) (po_TotalDuration o) error.
(** Both pipelines begin with the validation. *)
Definition validated (options : Options) (input : PipelineInput) (w : World) (k : PipelineOutput -> World -> World * Outcome PipelineOutput) : World * Outcome PipelineOutput :=
  let '(w, started) := workflow_Now w in
  let o := mkPipelineOutput (pi_WorkflowID input) StatusRunning [] started 0 0 "" in
  match execute options (ValidateInputActivity input) w with
  | (w, Err e) => let '(w, o) := completed_at (with_outcome o StatusFailed [] ("validation failed: " ++ e)) w in (w, (o, Some e))
  | (w, Ok v) =>
      if negb (Valid v) then let '(w, o) := completed_at (with_outcome o StatusFailed [] ("invalid input: " ++ v_Error v)) w in (w, (o, Some ("invalid input: " ++ v_Error v)))
      else k o w
  end.
Definition pipeline_error (o : PipelineOutput) : option string := if String.eqb (po_Status o) StatusFailed then Some ("pipeline failed: " ++ po_Error o) else None.
(** After a failure the results are dropped.  Storing may fail. *)
Definition AIAgentPipelineWorkflow (input : PipelineInput) (w : World) : World * Outcome PipelineOutput :=
  let options := workflow_options (pi_Timeout input) (30 * Minute) (pi_RetryPolicy input) in
  validated options input w (fun o w =>
    let '(w, (results, err)) := if pi_Parallel input then executeAgentsParallel options (pi_Agents input) w else executeAgentsSequential (pi_Agents input) [] w in
    let o := match err with Some e => with_outcome o StatusFailed [] e | None => with_outcome o StatusCompleted results "" end in
    let '(w, _) := execute storage_options (StorePipelineResult (pi_WorkflowID input) o) w in
    let '(w, o) := completed_at o w in
    (w, (o, pipeline_error o))).

(** ** The pipeline with compensation *)
Inductive Payload := AgentPayload (a : AgentRollbackInput) | FilePayload (f : FileRollbackInput) | NoPayload.
Abbreviation Manager := (Saga.CompensationManager World string Payload RetryPolicy).
Abbreviation Step := (Saga.CompensationStep World string Payload RetryPolicy).
Definition mkRetryPolicy (initial coefficient maximum attempts : Z) : RetryPolicy := mkPolicy initial (Retry.f_of_int coefficient) maximum attempts.
Definition Compensate (cm : Manager) (w : World) : World * Manager * option string :=
  let '(w, cm, err) := Saga.Manager_Compensate World string (fun e => e) workflow_Now Payload RetryPolicy mkRetryPolicy cm w in
  (w, cm, option_map (Saga.Error string (fun e => e)) err).
(** The handlers of the rollbacks. *)
Variables (agentHandler : option (AgentRollbackInput -> World -> World * option string)) (fileHandler : option (FileRollbackInput -> World -> World * option string)).
Definition rolls_back {A} (options : Saga.ActivityOptions RetryPolicy) (body : World -> World * result string A) (w : World) : World * option (Saga.error string) :=
  match execute (mkOptions (Saga.StartToCloseTimeout RetryPolicy options) (Some (Saga.o_RetryPolicy RetryPolicy options))) body w with
  | (w, Ok _) => (w, None)
  | (w, Err e) => (w, Some (Saga.UserError string e))
  end.
(** A payload of the other kind would be a panic; each step has its own. *)
Definition compensateFn (options : Saga.ActivityOptions RetryPolicy) (input : Payload) (w : World) : World * option (Saga.error string) :=
  match input with
  | AgentPayload a => rolls_back options (RollbackAgentExecution agentHandler a) w
  | FilePayload f => rolls_back options (RollbackFileOperation fileHandler f) w
  | NoPayload => (w, None)
  end.
Definition agent_name (agent : AgentConfig) : string := "agent-" ++ a_Name agent.
Definition agent_step (workflowID : string) (agent : AgentConfig) : Step :=
  Saga.mkCompStep _ _ _ _ (agent_name agent) compensateFn
    (AgentPayload (mkAgentRollback (mkRollbackInput workflowID (agent_name agent) "agent_execution") (a_Type agent) (a_Name agent) "")) (60 * Second) None false false.
Definition store_step (workflowID : string) : Step :=
  Saga.mkCompStep _ _ _ _ "store-results" compensateFn
    (FilePayload (mkFileRollback (mkRollbackInput workflowID "store-results" "pipeline_result") "" "create" "" "")) (30 * Second) None false true.
Definition notification_step : Step := Saga.mkCompStep _ _ _ _ "send-notification" compensateFn NoPayload 0 None false true.
Definition register (step : Step) (cm : Manager) : Manager := Saga.RegisterCompensation _ _ _ _ step cm.
Definition record (name : string) (cm : Manager) : Manager := Saga.RecordExecution _ _ _ _ name cm.
Definition compensated_error (what e : string) (comp : option string) : string :=
  match comp with Some c => what ++ " failed: " ++ e ++ " (compensation failed: " ++ c ++ ")" | None => what ++ " failed: " ++ e ++ " (compensated)" end.
Fixpoint executeAgentsWithCompensationSequential (workflowID : string) (agents : list AgentConfig) (results : list AgentResult) (cm : Manager) (w : World)
  : World * Manager * (list AgentResult * option string) :=
  match agents with
  | [] => (w, cm, (results, None))
  | agent :: agents =>
      let cm := register (agent_step workflowID agent) cm in
      match executeAgent agent w with
      | (w, (r, Some e)) =>
          let '(w, cm, comp) := Compensate cm w in
          (w, cm, ((results ++ [failed_result r e])%list, Some (compensated_error ("agent " ++ a_Name agent) e comp)))
      | (w, (r, None)) => executeAgentsWithCompensationSequential workflowID agents (results ++ [r])%list (record (agent_name agent) cm) w
      end
  end.
(** The agents whose future had a result are recorded. *)
Fixpoint record_all (agents : list AgentConfig) (rs : list (result string AgentResult)) (cm : Manager) : Manager :=
  match agents, rs with
  | agent :: agents, r :: rs => record_all agents rs (match r with Ok _ => record (agent_name agent) cm | Err _ => cm end)
  | _, _ => cm
  end.
Definition executeAgentsWithCompensationParallel (options : Options) (workflowID : string) (agents : list AgentConfig) (cm : Manager) (w : World)
  : World * Manager * (list AgentResult * option string) :=
  let cm := fold_left (fun cm agent => register (agent_step workflowID agent) cm) agents cm in
  let '(w, rs) := execute_all options (map ExecuteAgent agents) w in
  let '(w, (results, err)) := collect_agents agents rs w in
  let cm := record_all agents rs cm in
  match err with
  | None => (w, cm, (results, None))
  | Some e => let '(w, cm, comp) := Compensate cm w in (w, cm, (results, Some (compensated_error "parallel execution" e comp)))
  end.
(** The retries of the input are not used here. *)
Definition default_policy : RetryConfig := DefaultRetryConfig.
Definition AIAgentPipelineWorkflowWithCompensation (input : PipelineInput) (w : World) : World * Manager * Outcome PipelineOutput :=
  let options := workflow_options (pi_Timeout input) (30 * Minute) default_policy in
  let cm0 : Manager := Saga.NewCompensationManager _ _ _ _ in
  let '(w, started) := workflow_Now w in
  let o := mkPipelineOutput (pi_WorkflowID input) StatusRunning [] started 0 0 "" in
  match execute options (ValidateInputActivity input) w with
  | (w, Err e) => let '(w, o) := completed_at (with_outcome o StatusFailed [] ("validation failed: " ++ e)) w in (w, cm0, (o, Some e))
  | (w, Ok v) =>
      if negb (Valid v) then let '(w, o) := completed_at (with_outcome o StatusFailed [] ("invalid input: " ++ v_Error v)) w in (w, cm0, (o, Some ("invalid input: " ++ v_Error v)))
      else
        let '(w, cm, (results, err)) :=
          if pi_Parallel input then executeAgentsWithCompensationParallel options (pi_WorkflowID input) (pi_Agents input) cm0 w
          else executeAgentsWithCompensationSequential (pi_WorkflowID input) (pi_Agents input) [] cm0 w in
        let o := match err with Some e => with_outcome o StatusFailed results e | None => with_outcome o StatusCompleted results "" end in
        let cm := register (store_step (pi_WorkflowID input)) cm in
        let '(w, stored) := execute storage_options (StorePipelineResult (pi_WorkflowID input) o) w in
        let cm := match stored with Ok _ => record "store-results" cm | Err _ => cm end in
        let cm := register notification_step cm in
        let '(w, cm) :=
          if String.eqb (po_Status o) StatusCompleted then
            let '(w, sent) := execute notify_options (SendNotification (mkNotification "pipeline_completed" (pi_WorkflowID input) "" ("Pipeline " ++ pi_WorkflowID input ++ " completed successfully") ∅)) w in
            (w, match sent with Ok _ => record "send-notification" cm | Err _ => cm end)
          else (w, cm) in
        let '(w, o) := completed_at o w in
        (w, cm, (o, pipeline_error o))
  end.

(** ** The test suite *)
Definition case_options (tc : TestCase) : Options := mkOptions (or_default (tc_Timeout tc) (5 * Minute)) None.
Definition executeTestCase (tc : TestCase) (w : World) : World * (TestCaseResult * option string) :=
  match execute (case_options tc) (ExecuteTestCase tc) w with
  | (w, Ok r) => (w, (r, None))
  | (w, Err e) => let '(w, now) := workflow_Now w in (w, (mkCaseResult (tc_ID tc) (tc_Name tc) StatusFailed "" e 0 0 0 now, Some e))
  end.
Definition skipped (tc : TestCase) : TestCaseResult := mkCaseResult (tc_ID tc) (tc_Name tc) StatusCanceled "" "skipped due to previous failure" 0 0 0 0.
Fixpoint executeTestCasesSequential (testCases : list TestCase) (stopOnFailure : bool) (results : list TestCaseResult) (w : World) : World * (list TestCaseResult * option string) :=
  match testCases with
  | [] => (w, (results, None))
  | tc :: testCases =>
      let '(w, (r, err)) := executeTestCase tc w in
      let results := (results ++ [r])%list in
      match err with
      | Some e => if stopOnFailure then (w, ((results ++ map skipped testCases)%list, Some e)) else executeTestCasesSequential testCases stopOnFailure results w
      | None => executeTestCasesSequential testCases stopOnFailure results w
      end
  end.
Fixpoint collect_cases (testCases : list TestCase) (rs : list (result string TestCaseResult)) (w : World) : World * (list TestCaseResult * option string) :=
  match testCases, rs with
  | tc :: testCases, Ok r :: rs => let '(w, (results, err)) := collect_cases testCases rs w in (w, (r :: results, err))
  | tc :: testCases, Err e :: rs =>
      let '(w, now) := workflow_Now w in
      let '(w, (results, _)) := collect_cases testCases rs w in
      (w, (mkCaseResult (tc_ID tc) (tc_Name tc) StatusFailed "" e 0 0 0 now :: results, Some ("test case " ++ tc_ID tc ++ " failed: " ++ e)))
  | _, _ => (w, ([], None))
  end.
Definition executeTestCasesParallel (options : Options) (testCases : list TestCase) (w : World) : World * (list TestCaseResult * option string) :=
  let '(w, rs) := execute_all options (map ExecuteTestCase testCases) w in collect_cases testCases rs w.

Definition count_status (status : string) (results : list TestCaseResult) : Z := Z.of_nat (length (List.filter (fun r => String.eqb (cr_Status r) status) results)).
Definition suite_completed_at (o : TestSuiteOutput) (w : World) : World * TestSuiteOutput :=
  let '(w, now) := workflow_Now w in
  (w, mkSuiteOutput (so_SuiteID o) (so_Name o) (so_Status o) (so_Results o) (so_TotalTests o) (so_PassedTests o) (so_FailedTests o) (so_SkippedTests o) (so_StartedAt o) now
        (duration (so_StartedAt o) now) (so_Error o)).
(** The results are counted, and a failed one makes the suite fail. *)
Definition summary (input : TestSuiteInput) (started : Z) (results : list TestCaseResult) (err : option string) : TestSuiteOutput :=
  let failed := count_status StatusFailed results in
  mkSuiteOutput (su_SuiteID input) (su_Name input)
    (match err with Some _ => StatusFailed | None => if 0 <? failed then StatusFailed else StatusCompleted end) results (Z.of_nat (length (su_TestCases input)))
    (count_status StatusCompleted results) failed (count_status StatusCanceled results) started 0 0 (match err with Some e => e | None => "" end).
Definition failed_suite (input : TestSuiteInput) (started : Z) (error : string) : TestSuiteOutput :=
  mkSuiteOutput (su_SuiteID input) (su_Name input) StatusFailed [] (Z.of_nat (length (su_TestCases input))) 0 0 0 started 0 0 error.
Definition suite_error (o : TestSuiteOutput) : option string :=
  if String.eqb (so_Status o) StatusFailed then Some ("test suite failed: " ++ Itoa (so_FailedTests o) ++ "/" ++ Itoa (so_TotalTests o) ++ " tests failed") else None.
Definition run_cases (options : Options) (input : TestSuiteInput) (w : World) : World * (list TestCaseResult * option string) :=
  if su_Parallel input then
    let '(w, (results, err)) := executeTestCasesParallel options (su_TestCases input) w in (w, (results, if su_StopOnFailure input then err else None))
  else executeTestCasesSequential (su_TestCases input) (su_StopOnFailure input) [] w.
Definition TestSuiteWorkflow (input : TestSuiteInput) (w : World) : World * Outcome TestSuiteOutput :=
  let options := workflow_options (su_Timeout input) (60 * Minute) (su_RetryPolicy input) in
  let '(w, started) := workflow_Now w in
  match execute options (ValidateTestSuiteActivity input) w with
  | (w, Err e) => let '(w, o) := suite_completed_at (failed_suite input started ("validation failed: " ++ e)) w in (w, (o, Some e))
  | (w, Ok v) =>
      if negb (Valid v) then let '(w, o) := suite_completed_at (failed_suite input started ("invalid test suite: " ++ v_Error v)) w in (w, (o, Some ("invalid test suite: " ++ v_Error v)))
      else
        let '(w, (results, err)) := run_cases options input w in
        let o := summary input started results err in
        let '(w, _) := execute storage_options (StoreTestSuiteResult (su_SuiteID input) o) w in
        let '(w, o) := suite_completed_at o w in
        (w, (o, suite_error o))
  end.

(** ** The agents that ran *)
(** All of them completed, one after the other. *)
Inductive agents_ran : list AgentConfig -> World -> World -> list AgentResult -> Prop :=
| ran_none w : agents_ran [] w w []
| ran_next agent agents w w1 w' r rs : executeAgent agent w = (w1, (r, None)) -> agents_ran agents w1 w' rs -> agents_ran (agent :: agents) w w' (r :: rs).
Abbreviation compensated := (Saga.compensated World string workflow_Now Payload RetryPolicy mkRetryPolicy).
Lemma Compensate_ran cm w (comps : list Step) :
  base.filter (fun comp => Is_true (Saga.IsExecuted _ _ _ _ (Saga.ActivityName _ _ _ _ comp) cm)) (rev (Saga.m_compensations _ _ _ _ cm)) = comps -> Forall (fun c => Saga.AllowSkip _ _ _ _ c = false) comps ->
  exists w' cm' os err, Compensate cm w = (w', cm', err) /\ compensated comps w w' os /\ (err = None <-> Forall (fun o => o = None) os).
Proof.
  intros Hc Hskip. destruct (Saga.Manager_Compensate_correct World string (fun e => e) workflow_Now Payload RetryPolicy mkRetryPolicy cm w) as (w' & cm' & os & He & Hrun & Hlen & _ & _ & _ & Hnone).
  rewrite Hc in He, Hrun, Hlen, Hnone. unfold Compensate. rewrite He. eexists w', cm', os, _. split; [reflexivity|]. split; [exact Hrun|].
  transitivity (Saga.collect string (Saga.reported World string Payload RetryPolicy comps os) = None); [by destruct (Saga.collect _ _)|]. rewrite Hnone. clear -Hlen Hskip. revert os Hlen.
  induction Hskip as [|c comps Hs _ IH]; intros [|o os] Hlen; try done. cbn [combine]. cbn in Hlen. rewrite !List.Forall_cons_iff. cbn [fst snd]. rewrite IH by lia. rewrite Hs. intuition congruence.
Qed.

Section Compensating.
Variable id : string.
Local Abbreviation steps l := (map (agent_step id) l).
Lemma agent_name_inj a b : agent_name a = agent_name b -> a_Name a = a_Name b.
Proof. unfold agent_name. intros H. by injection H. Qed.
Lemma names_NoDup l : NoDup (map a_Name l) -> NoDup (map agent_name l).
Proof.
  induction l as [|a l IH]; [constructor|]. cbn [map]. rewrite !NoDup_cons. intros [Hn Hd]. split; [|by apply IH]. intros (b & E & Hb)%list_elem_of_fmap. apply Hn. apply list_elem_of_fmap. exists b.
  split; [by apply agent_name_inj|done].
Qed.
Lemma steps_omap l : steps l = omap (fun a => Some (agent_step id a)) l.
Proof. induction l as [|a l IH]; [done|]. cbn [map omap list_omap]. by f_equal. Qed.
(** Of the steps of [l], those whose names were recorded are the steps of [sub]. *)
Lemma planned_steps (cm : Manager) l (p : AgentConfig -> bool) : NoDup (map a_Name l) ->
  Saga.m_compensations _ _ _ _ cm = steps l -> Saga.executed _ _ _ _ cm = map agent_name (List.filter p l) ->
  base.filter (fun comp => Is_true (Saga.IsExecuted _ _ _ _ (Saga.ActivityName _ _ _ _ comp) cm)) (rev (Saga.m_compensations _ _ _ _ cm)) = rev (steps (List.filter p l)).
Proof.
  intros Hnd%names_NoDup Hc He. rewrite steps_omap. apply (Saga.planned_named World string Payload RetryPolicy agent_name (fun a => Some (agent_step id a)) p cm l); [by intros a s [= <-]|done| |done].
  by rewrite Hc, steps_omap.
Qed.
Lemma steps_not_skipped l : Forall (fun c => Saga.AllowSkip _ _ _ _ c = false) (rev (steps l)).
Proof. apply Forall_rev. induction l as [|a l IH]; [constructor|by constructor]. Qed.
Lemma register_agent a cm : register (agent_step id a) cm = Saga.mkManager _ _ _ _ (Saga.m_compensations _ _ _ _ cm ++ [agent_step id a])%list (Saga.executed _ _ _ _ cm) (Saga.m_records _ _ _ _ cm).
Proof. reflexivity. Qed.
Lemma ran_snoc pre w0 w rs a w1 r : agents_ran pre w0 w rs -> executeAgent a w = (w1, (r, None)) -> agents_ran (pre ++ [a])%list w0 w1 (rs ++ [r])%list.
Proof. induction 1 as [|? ? ? ? ? ? ? ? ? IH]; intros Hx; cbn; econstructor; eauto. constructor. Qed.

(** What running agents in turn comes to. *)
Definition in_turn (agents : list AgentConfig) (w w' : World) (results : list AgentResult) (err : option string) : Prop :=
  err = None /\ agents_ran agents w w' results \/
  exists before agent after rs r e w1 w2 os comp, agents = (before ++ agent :: after)%list /\ agents_ran before w w1 rs /\ executeAgent agent w1 = (w2, (r, Some e)) /\
    compensated (rev (steps before)) w2 w' os /\ (comp = None <-> Forall (fun o => o = None) os) /\
    results = (rs ++ [failed_result r e])%list /\ err = Some (compensated_error ("agent " ++ a_Name agent) e comp).
Lemma sequential_from pre agents : forall rs (cm : Manager) w0 w, NoDup (map a_Name (pre ++ agents)) ->
  Saga.m_compensations _ _ _ _ cm = steps pre -> Saga.executed _ _ _ _ cm = map agent_name pre -> agents_ran pre w0 w rs ->
  let '(w', _, (results, err)) := executeAgentsWithCompensationSequential id agents rs cm w in in_turn (pre ++ agents) w0 w' results err.
Proof.
  revert pre. induction agents as [|a agents IH]; intros pre rs cm w0 w Hnd Hc He Hran; [rewrite app_nil_r; by left|].
  cbn [executeAgentsWithCompensationSequential]. destruct (executeAgent a w) as [w2 [r [e|]]] eqn:Hx.
  - assert (NoDup (map a_Name (pre ++ [a]))) as Hnd' by (change (a :: agents) with ([a] ++ agents)%list in Hnd; rewrite app_assoc, map_app in Hnd; by apply NoDup_app in Hnd as [? _]).
    set (cm1 := register (agent_step id a) cm). assert (Saga.m_compensations _ _ _ _ cm1 = steps (pre ++ [a])) as H1 by (unfold cm1; rewrite register_agent, map_app; cbn; by rewrite Hc).
    assert (List.filter (fun x => negb (String.eqb (a_Name x) (a_Name a))) (pre ++ [a]) = pre) as Hf.
    { rewrite List.filter_app. cbn. rewrite String.eqb_refl. cbn. rewrite app_nil_r. rewrite map_app in Hnd'. apply NoDup_app in Hnd' as (_ & Hn & _). clear -Hn. induction pre as [|b pre IH]; [done|]. cbn.
      destruct (String.eqb_spec (a_Name b) (a_Name a)) as [E|]; cbn; [exfalso; apply (Hn (a_Name b)); [by left|rewrite E; by left]|]. f_equal. apply IH. intros x Hx. apply Hn. by right. }
    assert (Saga.executed _ _ _ _ cm1 = map agent_name (List.filter (fun x => negb (String.eqb (a_Name x) (a_Name a))) (pre ++ [a]))) as H2 by (rewrite Hf; exact He).
    destruct (Compensate_ran cm1 w2 _ (planned_steps cm1 _ _ Hnd' H1 H2) (steps_not_skipped _)) as (w' & cm' & os & comp & -> & Hcomp & Hnone). rewrite Hf in Hcomp.
    right. exists pre, a, agents, rs, r, e, w, w2, os, comp. split_and!; done.
  - specialize (IH (pre ++ [a])%list (rs ++ [r])%list (record (agent_name a) (register (agent_step id a) cm)) w0 w2). rewrite <- app_assoc in IH. apply IH; [done| | |by eapply ran_snoc].
    + rewrite map_app. cbn. by rewrite Hc.
    + rewrite map_app. cbn. by rewrite He.
Qed.

(** Those of the agents whose future had a result. *)
Fixpoint succeeded (agents : list AgentConfig) (rs : list (result string AgentResult)) : list AgentConfig :=
  match agents, rs with
  | agent :: agents, r :: rs => (match r with Ok _ => [agent] | Err _ => [] end ++ succeeded agents rs)%list
  | _, _ => []
  end.
Lemma record_all_spec agents rs : forall cm, record_all agents rs cm =
  Saga.mkManager _ _ _ _ (Saga.m_compensations _ _ _ _ cm) (Saga.executed _ _ _ _ cm ++ map agent_name (succeeded agents rs))%list (Saga.m_records _ _ _ _ cm).
Proof.
  revert rs. induction agents as [|a agents IH]; intros [|r rs] cm; cbn; rewrite ?app_nil_r; try by destruct cm. rewrite IH. destruct r; [|done]. cbn. by rewrite <- app_assoc.
Qed.
Lemma register_all agents : forall cm, fold_left (fun cm agent => register (agent_step id agent) cm) agents cm =
  Saga.mkManager _ _ _ _ (Saga.m_compensations _ _ _ _ cm ++ steps agents)%list (Saga.executed _ _ _ _ cm) (Saga.m_records _ _ _ _ cm).
Proof. induction agents as [|a agents IH]; intros cm; cbn [fold_left map]; [rewrite app_nil_r; by destruct cm|]. rewrite IH, register_agent. cbn. by rewrite <- app_assoc. Qed.
Lemma succeeded_sublist agents rs : succeeded agents rs `sublist_of` agents.
Proof.
  revert rs. induction agents as [|a agents IH]; intros [|r rs]; cbn; [constructor|constructor|apply sublist_nil_l|]. destruct r; cbn; by constructor.
Qed.
Lemma collect_none agents : forall rs w, length agents = length rs -> (collect_agents agents rs w).2.2 = None <-> succeeded agents rs = agents.
Proof.
  assert (forall agents rs, length (succeeded agents rs) <= length agents)%nat as Hle.
  { clear. induction agents as [|a agents IH]; intros [|r rs]; cbn; try lia. specialize (IH rs). destruct r; cbn; lia. }
  induction agents as [|a agents IH]; intros [|[r|e] rs] w Hl; try done; cbn in Hl; cbn [collect_agents succeeded app].
  - specialize (IH rs w ltac:(lia)). destruct (collect_agents agents rs w) as [w' [results err]]. cbn in *. rewrite IH. split; [by intros ->|by intros [= E]].
  - destruct (workflow_Now w) as [w1 now]. destruct (collect_agents agents rs w1) as [w' [results err]]. cbn. split; [done|]. intros E. specialize (Hle agents rs). rewrite E in Hle. cbn in Hle. lia.
Qed.
End Compensating.

(** C19: A pipeline of agents with different names is compensated for exactly what
    was done.  In turn: either every agent completes and nothing is undone, or the
    first that fails ends the run, the agents before it are rolled back, each once
    and the newest first, and the error says whether all rollbacks succeeded.  Side
    by side: every agent is started; unless all have a result, exactly those that
    have one are rolled back, in the reverse order of the list. *)
Theorem agents_compensated {TL : TemporalLaws} id agents options w : NoDup (map a_Name agents) ->
  (let '(w', _, (results, err)) := executeAgentsWithCompensationSequential id agents [] (Saga.NewCompensationManager _ _ _ _) w in in_turn id agents w w' results err) /\
  (let '(w1, rs) := execute_all options (map ExecuteAgent agents) w in
   let '(w2, (results, first)) := collect_agents agents rs w1 in
   let '(w', _, out) := executeAgentsWithCompensationParallel options id agents (Saga.NewCompensationManager _ _ _ _) w in
   (first = None <-> succeeded agents rs = agents) /\ out.1 = results /\
   match first with
   | None => w' = w2 /\ out.2 = None
   | Some e => exists os comp, compensated (rev (map (agent_step id) (succeeded agents rs))) w2 w' os /\ (comp = None <-> Forall (fun o => o = None) os) /\
       out.2 = Some (compensated_error "parallel execution" e comp)
   end).
Proof.
  intros Hnd. split; [apply (sequential_from id [] agents); by first [constructor|done]|].
  unfold executeAgentsWithCompensationParallel. rewrite register_all. pose proof (execute_all_sound options (map ExecuteAgent agents) w) as Hs.
  destruct (execute_all options (map ExecuteAgent agents) w) as [w1 rs]. apply Forall2_length in Hs. rewrite length_map in Hs. pose proof (collect_none agents rs w1 Hs) as Hnone.
  destruct (collect_agents agents rs w1) as [w2 [results first]]. cbn in Hnone. rewrite record_all_spec. destruct first as [e|]; [|by split_and!].
  pose proof (Saga.sublist_filter a_Name _ _ Hnd (succeeded_sublist agents rs)) as Hp. set (p := fun a => _) in Hp.
  match goal with |- context [Compensate ?cm w2] => destruct (Compensate_ran cm w2 _ (planned_steps id cm agents p Hnd eq_refl ltac:(cbn; by rewrite <- Hp)) (steps_not_skipped _ _)) as (w' & cm' & os & comp & -> & Hcomp & Hn) end.
  split; [exact Hnone|]. split; [done|]. exists os, comp. rewrite <- Hp in Hcomp. by split_and!.
Qed.

(** ** What a suite reports *)
Section Suites.
Context {TL : TemporalLaws}.
Definition ran_case (tc : TestCase) (r : TestCaseResult) : Prop := cr_TestCaseID r = tc_ID tc /\ (cr_Status r = StatusCompleted \/ cr_Status r = StatusFailed).
Lemma completed_case tc w0 w1 r : ExecuteTestCase tc w0 = (w1, Ok r) -> ran_case tc r.
Proof. unfold ExecuteTestCase. destruct (time_Now w0) as [w a]. destruct (case_Execute tc w) as [w' [o|e]]; destruct (time_Now w') as [w'' b]; [|done]. intros [= <- <-]. split; [done|by left]. Qed.
Lemma executed_case tc w : let '(w', (r, err)) := executeTestCase tc w in ran_case tc r /\ (err <> None -> cr_Status r = StatusFailed).
Proof.
  unfold executeTestCase. destruct (execute _ _ w) as [w' [r|e]] eqn:E.
  - apply execute_sound in E as (w0 & w1 & E). split; [by eapply completed_case|done].
  - destruct (workflow_Now w') as [w'' now]. split; [|done]. split; [done|by right].
Qed.
(** Those that ran, in order, and those that were skipped after a failure. *)
Definition ran_then_skipped (cases : list TestCase) (stop : bool) (results : list TestCaseResult) (err : option string) : Prop :=
  exists ran rest rs, cases = (ran ++ rest)%list /\ results = (rs ++ map skipped rest)%list /\ Forall2 ran_case ran rs /\
    (rest <> [] -> stop = true /\ exists r, last rs = Some r /\ cr_Status r = StatusFailed) /\ (err <> None -> Exists (fun r => cr_Status r = StatusFailed) rs).
Lemma sequential_cases stop cases : forall acc w, let '(_, (results, err)) := executeTestCasesSequential cases stop acc w in
  exists results', results = (acc ++ results')%list /\ ran_then_skipped cases stop results' err.
Proof.
  induction cases as [|tc cases IH]; intros acc w; cbn [executeTestCasesSequential].
  - exists []. rewrite app_nil_r. split; [done|]. exists [], [], []. by split_and!.
  - pose proof (executed_case tc w) as Hx. destruct (executeTestCase tc w) as [w1 [r err]]. destruct Hx as [Hr Hf].
    assert (let '(_, (results, err')) := executeTestCasesSequential cases stop (acc ++ [r])%list w1 in
      exists results', results = (acc ++ results')%list /\ ran_then_skipped (tc :: cases) stop results' err') as Hgo.
    { specialize (IH (acc ++ [r])%list w1). destruct (executeTestCasesSequential cases stop _ w1) as [w2 [results err']]. destruct IH as (rs' & -> & ran & rest & rs & -> & -> & H1 & H2 & H3).
      exists (r :: rs ++ map skipped rest)%list. split; [by rewrite <- app_assoc|]. exists (tc :: ran), rest, (r :: rs). split_and!; try done; [by constructor| |intros H; right; by apply H3].
      intros H. destruct (H2 H) as (Hs & x & Hl & Hx). split; [done|]. exists x. split; [|done]. destruct rs; [done|exact Hl]. }
    destruct err as [e|]; [|exact Hgo]. destruct stop; [|exact Hgo].
    exists (r :: map skipped cases). split; [by rewrite <- app_assoc|]. exists [tc], cases, [r]. specialize (Hf ltac:(done)). split_and!; try done; [by constructor| |intros _; by left].
    intros _. split; [done|]. by exists r.
Qed.
Lemma parallel_cases cases : forall rs w, Forall2 (fun tc r => forall a, r = Ok a -> exists w0 w1, ExecuteTestCase tc w0 = (w1, Ok a)) cases rs ->
  let '(_, (results, err)) := collect_cases cases rs w in Forall2 ran_case cases results /\ (err <> None -> Exists (fun r => cr_Status r = StatusFailed) results).
Proof.
  intros rs w H. revert w. induction H as [|tc r cases rs Hr H IH]; intros w; [by split|]. cbn [collect_cases]. destruct r as [a|e].
  - specialize (IH w). destruct (collect_cases cases rs w) as [w' [results err]]. destruct IH as [IH1 IH2]. destruct (Hr a eq_refl) as (w0 & w1 & E). split; [constructor; [by eapply completed_case|done]|].
    intros Hn. right. by apply IH2.
  - destruct (workflow_Now w) as [w1 now]. specialize (IH w1). destruct (collect_cases cases rs w1) as [w' [results err]]. destruct IH as [IH1 IH2]. split; [|intros _; by left]. constructor; [|done]. split; [done|by right].
Qed.
Lemma cases_reported options input w : let '(_, (results, err)) := run_cases options input w in
  ran_then_skipped (su_TestCases input) (su_StopOnFailure input && negb (su_Parallel input)) results err.
Proof.
  unfold run_cases. destruct (su_Parallel input).
  - unfold executeTestCasesParallel. pose proof (execute_all_sound options (map ExecuteTestCase (su_TestCases input)) w) as Hs. destruct (execute_all _ _ w) as [w1 rs]. cbn [snd] in Hs.
    apply Forall2_fmap_l in Hs. pose proof (parallel_cases _ rs w1 Hs) as H. destruct (collect_cases _ rs w1) as [w2 [results err]]. destruct H as [H1 H2].
    exists (su_TestCases input), [], results. rewrite !app_nil_r. split_and!; try done. by destruct (su_StopOnFailure input).
  - pose proof (sequential_cases (su_StopOnFailure input) (su_TestCases input) [] w) as H. destruct (executeTestCasesSequential _ _ _ w) as [w1 [results err]]. destruct H as (rs & -> & H). by rewrite andb_true_r.
Qed.
Lemma counts_split results : Forall (fun r => cr_Status r = StatusCompleted \/ cr_Status r = StatusFailed \/ cr_Status r = StatusCanceled) results ->
  count_status StatusCompleted results + count_status StatusFailed results + count_status StatusCanceled results = Z.of_nat (length results).
Proof.
  unfold count_status. induction 1 as [|r results Hr _ IH]; [done|]. cbn [List.filter length]. destruct Hr as [->|[->| ->]]; cbn [String.eqb Ascii.eqb Bool.eqb StatusCompleted StatusFailed StatusCanceled] in *; cbn [length]; lia.
Qed.
Lemma count_zero status results : count_status status results = 0 <-> Forall (fun r => cr_Status r <> status) results.
Proof.
  unfold count_status. induction results as [|r results IH]; [done|]. cbn [List.filter]. rewrite List.Forall_cons_iff, <- IH. destruct (String.eqb_spec (cr_Status r) status); cbn [length]; [|naive_solver]. split; [lia|naive_solver].
Qed.

End Suites.
End Definitions.

(** ** Concrete workflows *)
Module Log.
(** The world is a log of what was called, whose length is the time; one attempt
    for each activity. *)
Definition World : Type := list string.
Definition tell (s : string) (w : World) : World := (w ++ [s])%list.
Definition one {A} (o : Options) (body : World -> World * result string A) (w : World) : World * result string A := body w.
Fixpoint all {A} (o : Options) (bodies : list (World -> World * result string A)) (w : World) : World * list (result string A) :=
  match bodies with [] => (w, []) | body :: bodies => let '(w, r) := body w in let '(w, rs) := all o bodies w in (w, r :: rs) end.
#[export] Instance temporal : Temporal := {|
  WorkflowActivities.World := World; workflow_Now w := (w, Z.of_nat (length w)); time_Now w := (w, Z.of_nat (length w)); Attempt w := 1; execute A := one; execute_all A := all;
  agent_Execute ty _ w := (tell ("run " ++ ty) w, if String.eqb ty "bad" then Err "boom" else Ok "{}");
  case_Execute tc w := (tell ("case " ++ tc_ID tc) w, if String.eqb (tc_Input tc) "bad" then Err "boom" else Ok "{}");
  sender_Send ty _ _ w := (tell ty w, None); SavePipelineResult id _ w := (tell ("save " ++ id) w, None); SaveTestSuiteResult id _ w := (tell ("save " ++ id) w, None);
  MarshalPipeline _ := Ok "{}"; MarshalSuite _ := Ok "{}"; FormatTime := Itoa; os_Remove p w := (tell ("rm " ++ p) w, None); os_RemoveAll p w := (tell ("rm -r " ++ p) w, None);
  os_ReadFile _ _ := Err "no file"; os_WriteFile p _ w := (tell ("write " ++ p) w, None) |}.
#[export] Instance laws : TemporalLaws.
Proof.
  split.
  - intros A o body w w' a E. by exists w, w'.
  - intros A o bodies. induction bodies as [|body bodies IH]; intros w; cbn; [constructor|]. destruct (body w) as [w1 r] eqn:E. specialize (IH w1). cbn in IH. destruct (all o bodies w1) as [w2 rs].
    constructor; [|done]. intros a ->. by exists w, w1.
Qed.
Definition start : WorkflowActivities.World (Temporal := temporal) := [].
Definition no_retry : RetryConfig := mkRetryConfig 0 0 (Retry.f_of_int 0) 0.
Definition agent (name ty : string) : AgentConfig := mkAgent name ty ∅ 0 no_retry.
Definition rollback (a : AgentRollbackInput) (w : World) : World * option string := (tell ("undo " ++ ag_AgentName a) w, None).
Definition pipeline (agents : list AgentConfig) (parallel : bool) : PipelineInput := mkPipeline "p" agents 0 no_retry parallel ∅.
Definition run (agents : list AgentConfig) (parallel : bool) : World * (PipelineOutput * option string) :=
  let '(w, _, o) := AIAgentPipelineWorkflowWithCompensation (Some rollback) None (pipeline agents parallel) start in (w, o).
Definition case (id input : string) : TestCase := mkTestCase id id "" input None 0 [].
Definition suite (parallel : bool) : TestSuiteInput := mkSuite "s" "suite" [case "1" ""; case "2" "bad"; case "3" ""] 0 no_retry parallel true.
End Log.
#[local] Existing Instances Log.temporal Log.laws.
Example undone_in_reverse : (Log.run [Log.agent "a" "x"; Log.agent "b" "y"; Log.agent "c" "bad"; Log.agent "d" "z"] false).1 = ["run x"; "run y"; "run bad"; "undo b"; "undo a"; "save p"].
Proof. vm_compute. reflexivity. Qed.
Lemma agents_compensated_witness :
  let agents := [Log.agent "a" "x"; Log.agent "b" "bad"] in
  NoDup (map a_Name agents) /\
  exists w' results err, in_turn (T := Log.temporal) (Some Log.rollback) None "p" agents Log.start w' results err /\ w' = ["run x"; "run bad"; "undo a"] /\ map ar_Status results = ["completed"; "failed"] /\ err = Some "agent b failed: boom (compensated)".
Proof.
  intros agents. assert (NoDup (map a_Name agents)) as Hnd by (by apply (bool_decide_unpack _)). split; [exact Hnd|].
  destruct (agents_compensated (T := Log.temporal) (Some Log.rollback) None "p" agents storage_options Log.start Hnd) as [H _].
  destruct (executeAgentsWithCompensationSequential (T := Log.temporal) (Some Log.rollback) None "p" agents [] (Saga.NewCompensationManager _ _ _ _) Log.start) as [[w' cm] [results err]] eqn:E.
  exists w', results, err. split; [exact H|]. vm_compute in E. injection E as <- _ <- <-. split; [reflexivity|split; reflexivity].
Defined.
(** Names may repeat, and compensations are found by name: the agent that failed
    is rolled back too. *)
Example one_name : (Log.run [Log.agent "a" "x"; Log.agent "a" "bad"] false).1 = ["run x"; "run bad"; "undo a"; "undo a"; "save p"].
Proof. vm_compute. reflexivity. Qed.
(** The result of a failed agent does not say whose it is. *)
Example nameless_failure : map ar_AgentName (po_Results (Log.run [Log.agent "a" "x"; Log.agent "b" "bad"] false).2.1) = ["a"; ""].
Proof. vm_compute. reflexivity. Qed.
(** Without compensation the results of the agents that completed are dropped. *)
Example results_dropped : po_Results (AIAgentPipelineWorkflow (Log.pipeline [Log.agent "a" "x"; Log.agent "b" "bad"] false) Log.start).2.1 = [].
Proof. vm_compute. reflexivity. Qed.
(** Side by side, stopping on failure stops nothing. *)
Example parallel_goes_on : (TestSuiteWorkflow (Log.suite true) Log.start).1 = ["case 1"; "case 2"; "case 3"; "save s"].
Proof. vm_compute. reflexivity. Qed.
