(* ===== verification/SagaWorkflow.v ===== *)
(** Sagas of workflows: [internal/workflow/patterns/saga_workflow.go].

    The steps of a saga are activities that [WorkflowActivities] runs, and its
    compensations are those of the manager of [Saga].  The results of the
    activities go through pointers: a memory of them is threaded, and the results
    of the output are addresses in it.  What comes by signal is a parameter. *)

From Stdlib Require Import ZArith Lia.
From stdpp Require Import base strings list gmap.
From S2P Require Import Prelude GoStrings WorkflowActivities WorkflowDefinitions.
From S2P Require Saga Retry.

#[local] Open Scope string_scope.
#[local] Open Scope Z_scope.

Section SagaWorkflow.
Context {T : Temporal} {Data : Type}.
Abbreviation Manager := (Saga.CompensationManager World string Data RetryPolicy).
Abbreviation CompensationStep := (Saga.CompensationStep World string Data RetryPolicy).

(** ** Data *)
Record SagaStep := mkSagaStep {
  Name : string;
  Activity : Data -> World -> World * result string Data;
  Input : Data;
  Output : option Z;
  CompensateFn : option (Saga.WorkflowCompensationFunc World string Data RetryPolicy);
  CompensateData : Data;
  Timeout : Z;
  s_RetryPolicy : option RetryPolicy;
  AllowFailure : bool }.
Record SagaInput := mkSagaInput { WorkflowID : string; Steps : list SagaStep; i_Timeout : Z; Metadata : gmap string string }.
Record SagaOutput := mkSagaOutput {
  Status : string; CompletedSteps : list string; FailedStep : string; Error : string;
  CompensationLogs : list Saga.CompensationExecutionRecord; Results : gmap string Z }.
Definition Memory : Type := gmap Z Data.

(** ** The builder *)
Record SagaBuilder := mkSagaBuilder { b_workflowID : string; b_steps : list SagaStep; b_timeout : Z; b_metadata : gmap string string }.
Definition NewSagaBuilder (workflowID : string) : SagaBuilder := mkSagaBuilder workflowID [] 0 ∅.
Definition WithTimeout (timeout : Z) (b : SagaBuilder) : SagaBuilder := mkSagaBuilder (b_workflowID b) (b_steps b) timeout (b_metadata b).
Definition WithMetadata (key value : string) (b : SagaBuilder) : SagaBuilder := mkSagaBuilder (b_workflowID b) (b_steps b) (b_timeout b) (<[key := value]> (b_metadata b)).
Definition AddStep (step : SagaStep) (b : SagaBuilder) : SagaBuilder := mkSagaBuilder (b_workflowID b) (b_steps b ++ [step])%list (b_timeout b) (b_metadata b).
(** [nothing] is the nil of [interface{}]. *)
Definition AddActivityStep (nothing : Data) (name : string) (activity : Data -> World -> World * result string Data) (input : Data)
    (compensateFn : option (Saga.WorkflowCompensationFunc World string Data RetryPolicy)) : SagaBuilder -> SagaBuilder :=
  AddStep (mkSagaStep name activity input None compensateFn nothing 0 None false).
Definition AddNonCriticalStep (nothing : Data) (name : string) (activity : Data -> World -> World * result string Data) (input : Data) : SagaBuilder -> SagaBuilder :=
  AddStep (mkSagaStep name activity input None None nothing 0 None true).
Definition Build (b : SagaBuilder) : SagaInput := mkSagaInput (b_workflowID b) (b_steps b) (b_timeout b) (b_metadata b).

(** ** Steps *)
Definition running : SagaOutput := mkSagaOutput "running" [] "" "" [] ∅.
Definition with_status (status : string) (o : SagaOutput) : SagaOutput := mkSagaOutput status (CompletedSteps o) (FailedStep o) (Error o) (CompensationLogs o) (Results o).
Definition with_logs (logs : list Saga.CompensationExecutionRecord) (o : SagaOutput) : SagaOutput := mkSagaOutput (Status o) (CompletedSteps o) (FailedStep o) (Error o) logs (Results o).
(** The compensation of a step, if it has one. *)
Definition compensation (step : SagaStep) : option CompensationStep :=
  match CompensateFn step with
  | Some f => Some (Saga.mkCompStep _ _ _ _ (Name step) f (CompensateData step) (Timeout step) (s_RetryPolicy step) false (AllowFailure step))
  | None => None
  end.
Definition register_step (step : SagaStep) (cm : Manager) : Manager :=
  match compensation step with Some c => Saga.RegisterCompensation _ _ _ _ c cm | None => cm end.
Definition saga_policy : RetryPolicy := mkRetryPolicy Second 2 Minute 3.
Definition step_options (otherwise : option RetryPolicy) (step : SagaStep) : Options :=
  mkOptions (or_default (Timeout step) (10 * Minute)) (match s_RetryPolicy step with Some p => Some p | None => otherwise end).
(** The result goes where the step says. *)
Definition run_step (otherwise : option RetryPolicy) (step : SagaStep) (w : World) (mem : Memory) : World * Memory * option string :=
  match execute (step_options otherwise step) (Activity step (Input step)) w with
  | (w, Ok v) => (w, match Output step with Some a => <[a := v]> mem | None => mem end, None)
  | (w, Err e) => (w, mem, Some e)
  end.
Definition complete_step (step : SagaStep) (o : SagaOutput) : SagaOutput :=
  mkSagaOutput (Status o) (CompletedSteps o ++ [Name step])%list (FailedStep o) (Error o) (CompensationLogs o)
    (match Output step with Some a => <[Name step := a]> (Results o) | None => Results o end).
Definition Compensate (cm : Manager) (w : World) : World * Manager * option (Saga.error string) :=
  Saga.Manager_Compensate World string (fun e => e) workflow_Now Data RetryPolicy mkRetryPolicy cm w.
(** [also] is a word of the error. *)
Definition fail_saga (also : string) (step : SagaStep) (e : string) (o : SagaOutput) (cm : Manager) (w : World) : World * Manager * Outcome SagaOutput :=
  let o := mkSagaOutput "failed" (CompletedSteps o) (Name step) e (CompensationLogs o) (Results o) in
  let '(w, cm, compErr) := Compensate cm w in
  let o := with_logs (Saga.m_records _ _ _ _ cm) o in
  match compErr with
  | Some c => (w, cm, (with_status "compensation_failed" o, Some ("saga failed at step " ++ Name step ++ ": " ++ e ++ " (compensation " ++ also ++ "failed: " ++ Saga.Error string (fun e => e) c ++ ")")))
  | None => (w, cm, (with_status "compensated" o, Some ("saga failed at step " ++ Name step ++ ": " ++ e ++ " (compensated)")))
  end.

(** ** The saga *)
Fixpoint saga_steps (steps : list SagaStep) (o : SagaOutput) (cm : Manager) (w : World) (mem : Memory) : World * Memory * Manager * Outcome SagaOutput :=
  match steps with
  | [] => (w, mem, cm, (with_status "completed" o, None))
  | step :: steps =>
      let cm := register_step step cm in
      match run_step (Some saga_policy) step w mem with
      | (w, mem, Some e) =>
          if AllowFailure step then saga_steps steps o cm w mem
          else let '(w, cm, out) := fail_saga "also " step e o cm w in (w, mem, cm, out)
      | (w, mem, None) => saga_steps steps (complete_step step o) (Saga.RecordExecution _ _ _ _ (Name step) cm) w mem
      end
  end.
Definition SagaWorkflow (input : SagaInput) (w : World) (mem : Memory) : World * Memory * Manager * Outcome SagaOutput :=
  saga_steps (Steps input) running (Saga.NewCompensationManager _ _ _ _) w mem.

(** ** The saga with signals *)
Section Signals.
Inductive Signal := CompensateSignal | CancelSignal.
(** What is pending is received, in the order the selector picks. *)
Variable drain : World -> World * list Signal.
Definition sets (s : Signal) (force : bool * bool) : bool * bool := match s with CompensateSignal => (true, force.2) | CancelSignal => (force.1, true) end.
Fixpoint signal_steps (steps : list SagaStep) (force : bool * bool) (o : SagaOutput) (cm : Manager) (w : World) (mem : Memory) : World * Memory * Manager * Outcome SagaOutput :=
  match steps with
  | [] => (w, mem, cm, (with_status "completed" o, None))
  | step :: steps =>
      let '(w, signals) := drain w in
      let force := fold_left (fun f s => sets s f) signals force in
      if force.2 then
        (w, mem, cm, (mkSagaOutput "cancelled" (CompletedSteps o) (FailedStep o) "workflow cancelled by signal" (CompensationLogs o) (Results o), Some "workflow cancelled by signal"))
      else if force.1 then
        let '(w, cm, compErr) := Compensate cm w in
        (w, mem, cm, (with_status "manually_compensated" (with_logs (Saga.m_records _ _ _ _ cm) o),
          match compErr with Some c => Some ("manual compensation failed: " ++ Saga.Error string (fun e => e) c) | None => None end))
      else
        let cm := register_step step cm in
        match run_step None step w mem with
        | (w, mem, Some e) =>
            if AllowFailure step then signal_steps steps force o cm w mem
            else let '(w, cm, out) := fail_saga "" step e o cm w in (w, mem, cm, out)
        | (w, mem, None) => signal_steps steps force (complete_step step o) (Saga.RecordExecution _ _ _ _ (Name step) cm) w mem
        end
  end.
Definition SagaWithSignals (input : SagaInput) (w : World) (mem : Memory) : World * Memory * Manager * Outcome SagaOutput :=
  signal_steps (Steps input) (false, false) running (Saga.NewCompensationManager _ _ _ _) w mem.
End Signals.

(** ** What a saga does *)
(** The steps of a list were run in turn, and none failed that must not; the last
    list has those that succeeded. *)
Inductive saga_ran (otherwise : option RetryPolicy) (w0 : World) (m0 : Memory) : list SagaStep -> World -> Memory -> list SagaStep -> Prop :=
| saga_none : saga_ran otherwise w0 m0 [] w0 m0 []
| saga_done steps step w1 m1 w2 m2 done : saga_ran otherwise w0 m0 steps w1 m1 done -> run_step otherwise step w1 m1 = (w2, m2, None) ->
    saga_ran otherwise w0 m0 (steps ++ [step]) w2 m2 (done ++ [step])
| saga_allowed steps step w1 m1 w2 m2 e done : saga_ran otherwise w0 m0 steps w1 m1 done -> run_step otherwise step w1 m1 = (w2, m2, Some e) -> AllowFailure step = true ->
    saga_ran otherwise w0 m0 (steps ++ [step]) w2 m2 done.
(** The compensation as it is registered: without a time-out it has half a minute. *)
Definition registered (step : SagaStep) : option CompensationStep :=
  c ← compensation step; head (Saga.m_compensations _ _ _ _ (Saga.RegisterCompensation _ _ _ _ c (Saga.NewCompensationManager _ _ _ _))).
Lemma registered_name step c : registered step = Some c -> Saga.ActivityName _ _ _ _ c = Name step.
Proof. unfold registered, compensation. destruct (CompensateFn step); [|done]. cbn. destruct (_ =? 0); by intros [= <-]. Qed.
Lemma register_step_spec step cm : register_step step cm =
  Saga.mkManager _ _ _ _ (Saga.m_compensations _ _ _ _ cm ++ omap registered [step])%list (Saga.executed _ _ _ _ cm) (Saga.m_records _ _ _ _ cm).
Proof.
  unfold register_step, registered, Saga.RegisterCompensation. destruct cm as [cs ex rs]. cbn. destruct (compensation step) as [c|]; cbn; [|by rewrite app_nil_r].
  by destruct (_ =? 0).
Qed.
Lemma saga_ran_sublist otherwise w0 m0 steps w m done : saga_ran otherwise w0 m0 steps w m done -> done `sublist_of` steps.
Proof. induction 1; [constructor|by apply sublist_app|by apply sublist_inserts_r]. Qed.
(** What the results hold. *)
Definition results_of (done : list SagaStep) : gmap string Z := foldl (fun m step => match Output step with Some a => <[Name step := a]> m | None => m end) ∅ done.

(** A saga at work: what is registered, recorded and reported. *)
Record at_work (before done : list SagaStep) (o : SagaOutput) (cm : Manager) : Prop := {
  work_registered : Saga.m_compensations _ _ _ _ cm = omap registered before;
  work_executed : Saga.executed _ _ _ _ cm = map Name done;
  work_records : Saga.m_records _ _ _ _ cm = [];
  work_output : o = mkSagaOutput "running" (map Name done) "" "" [] (results_of done) }.
Lemma work_register before done step o cm : at_work before done o cm -> at_work (before ++ [step]) done o (register_step step cm).
Proof. intros [H1 H2 H3 H4]. rewrite register_step_spec. split; cbn; [by rewrite H1, omap_app| | |]; done. Qed.
Lemma work_complete before done step o cm : at_work before done o cm ->
  at_work before (done ++ [step]) (complete_step step o) (Saga.RecordExecution _ _ _ _ (Name step) cm).
Proof.
  intros [H1 H2 H3 ->]. split; cbn; [done| |done|]; rewrite map_app; [by rewrite H2|]. unfold complete_step, results_of. rewrite foldl_app. reflexivity.
Qed.

Abbreviation compensated := (Saga.compensated World string workflow_Now Data RetryPolicy mkRetryPolicy).
Abbreviation outcomes := (Saga.outcome_summary World string (fun e => e) Data RetryPolicy).
(** What was done is undone: the compensations of the steps that succeeded, each
    once, the newest first, and each is logged. *)
Definition undone (done : list SagaStep) (w w' : World) (status : string) (logs : list Saga.CompensationExecutionRecord) : Prop :=
  exists os, compensated (rev (omap registered done)) w w' os /\
    map Saga.exec_summary logs = map outcomes (combine (rev (omap registered done)) os) /\
    status = if forallb (fun x : CompensationStep * option (Saga.error string) => Saga.AllowSkip _ _ _ _ x.1 || match x.2 with None => true | _ => false end) (combine (rev (omap registered done)) os)
             then "compensated" else "compensation_failed".

Lemma Compensate_undone before done o cm w : NoDup (map Name before) -> done `sublist_of` before -> at_work before done o cm ->
  let '(w', cm', err) := Compensate cm w in undone done w w' (match err with None => "compensated" | Some _ => "compensation_failed" end) (Saga.m_records _ _ _ _ cm').
Proof.
  intros Hnd Hsub [H1 H2 H3 _]. pose proof (Saga.sublist_filter Name done before Hnd Hsub) as Hf.
  destruct (Saga.Manager_Compensate_correct World string (fun e => e) workflow_Now Data RetryPolicy mkRetryPolicy cm w) as (w' & cm' & os & He & Hrun & _ & _ & _ & (rs & Hrs & Hsum) & Hnone).
  unfold Compensate. rewrite He.
  rewrite (Saga.planned_named World string Data RetryPolicy Name registered (fun a => existsb (fun b => String.eqb (Name b) (Name a)) done) cm before registered_name Hnd H1) in Hrun, Hsum, Hnone |- *
    by (rewrite H2; by f_equal).
  rewrite <- Hf in Hrun, Hsum, Hnone |- *. exists os. split; [exact Hrun|]. split; [by rewrite Hrs, H3|].
  match goal with |- context [forallb ?f ?l] => assert (forallb f l = true <-> Forall (fun o => Saga.AllowSkip _ _ _ _ o.1 = true \/ o.2 = None) l) as Hb end.
  { rewrite forallb_forall, List.Forall_forall. split; intros H x Hx; specialize (H x Hx); destruct x as [c [e|]]; cbn in *; destruct (Saga.AllowSkip _ _ _ _ c); naive_solver. }
  rewrite <- Hnone in Hb. clear He. destruct (forallb _ _), (Saga.collect _ _); try done; exfalso; [by destruct Hb as [Hb _]; specialize (Hb eq_refl)|by destruct Hb as [_ Hb]; specialize (Hb eq_refl)].
Qed.

(** How a saga of [steps] ends. *)
Definition saga_outcome (steps : list SagaStep) (w0 : World) (m0 : Memory) (w' : World) (m' : Memory) (o : SagaOutput) (err : option string) : Prop :=
  (exists done, saga_ran (Some saga_policy) w0 m0 steps w' m' done /\ o = mkSagaOutput "completed" (map Name done) "" "" [] (results_of done) /\ err = None) \/
  exists before step after done w1 m1 w2 e status logs,
    steps = (before ++ step :: after)%list /\ saga_ran (Some saga_policy) w0 m0 before w1 m1 done /\ run_step (Some saga_policy) step w1 m1 = (w2, m', Some e) /\ AllowFailure step = false /\
    undone done w2 w' status logs /\ o = mkSagaOutput status (map Name done) (Name step) e logs (results_of done) /\ err <> None.
Lemma saga_from steps : forall before done o cm w0 m0 w mem, NoDup (map Name (before ++ steps)) -> at_work before done o cm -> saga_ran (Some saga_policy) w0 m0 before w mem done ->
  let '(w', m', _, (o', err)) := saga_steps steps o cm w mem in saga_outcome (before ++ steps) w0 m0 w' m' o' err.
Proof.
  induction steps as [|step steps IH]; intros before done o cm w0 m0 w mem Hnd Hw Hran; cbn [saga_steps].
  - rewrite app_nil_r. left. exists done. destruct Hw as [_ _ _ ->]. by split_and!.
  - apply (work_register _ _ step) in Hw. assert (NoDup (map Name ((before ++ [step]) ++ steps))) as Hnd' by (by rewrite <- app_assoc).
    assert ((before ++ step :: steps) = ((before ++ [step]) ++ steps))%list as Happ by (by rewrite <- app_assoc).
    destruct (run_step _ step w mem) as [[w2 m2] [e|]] eqn:Hstep; [destruct (AllowFailure step) eqn:Ha|].
    + rewrite Happ. apply (IH _ _ _ _ w0 m0 _ _ Hnd' Hw). by eapply saga_allowed.
    + assert (done `sublist_of` (before ++ [step])%list) as Hsub by (apply sublist_inserts_r; by eapply saga_ran_sublist).
      rewrite map_app in Hnd'. apply NoDup_app in Hnd' as (Hnd' & _ & _).
      pose proof (Compensate_undone _ _ _ _ w2 Hnd' Hsub Hw) as Hu. unfold fail_saga. destruct (Compensate _ w2) as [[w3 cm'] err]. destruct Hw as [_ _ _ ->].
      destruct err; right; exists before, step, steps, done, w, mem, w2, e; eexists _, _; by split_and!.
    + rewrite Happ. apply (IH _ _ _ _ w0 m0 _ _ Hnd' (work_complete _ _ step _ _ Hw)). by eapply saga_done.
Qed.

(** C18: A saga of steps with different names ends in one of two ways.  Either every
    step was run in turn, those that failed may fail, and the output names those
    that succeeded and where their results are.  Or the first step that must not fail
    did: none after it was started, the compensations of the steps that had succeeded
    were run, each once and the newest first, each is in the log, and the status
    says whether one of them failed that must not. *)
Theorem saga_undone (input : SagaInput) (w : World) (mem : Memory) : NoDup (map Name (Steps input)) ->
  let '(w', mem', _, (o, err)) := SagaWorkflow input w mem in saga_outcome (Steps input) w mem w' mem' o err.
Proof. intros Hnd. apply (saga_from (Steps input) [] []); [done|by split|constructor]. Qed.

(** C40: Without signals the saga with signals is the saga, for steps that have a
    policy for retries: it does the same, has the same output and fails alike. *)
Theorem unsignalled_saga (drain : World -> World * list Signal) (input : SagaInput) (w : World) (mem : Memory) :
  (forall w, drain w = (w, [])) -> Forall (fun step => s_RetryPolicy step <> None) (Steps input) ->
  let '(w1, mem1, cm1, (o1, err1)) := SagaWorkflow input w mem in
  let '(w2, mem2, cm2, (o2, err2)) := SagaWithSignals drain input w mem in
  w1 = w2 /\ mem1 = mem2 /\ cm1 = cm2 /\ o1 = o2 /\ (err1 = None <-> err2 = None).
Proof.
  intros Hdrain Hp. unfold SagaWorkflow, SagaWithSignals. generalize running as o, (Saga.NewCompensationManager World string Data RetryPolicy) as cm.
  revert w mem. induction Hp as [|step steps Hs Hp IH]; intros w mem o cm; cbn [saga_steps signal_steps]; [by split_and!|].
  rewrite Hdrain. cbn [fold_left fst snd]. assert (run_step None step w mem = run_step (Some saga_policy) step w mem) as ->.
  { unfold run_step, step_options. by destruct (s_RetryPolicy step). }
  destruct (run_step _ step w mem) as [[w2 m2] [e|]]; [destruct (AllowFailure step)|]; [apply IH| |apply IH].
  unfold fail_saga. destruct (Compensate _ w2) as [[w3 cm3] [c|]]; by split_and!.
Qed.
End SagaWorkflow.

(** ** Concrete sagas *)
Module Trip.
Import Log.
Definition act (d : string) (w : World) : World * result string string := (tell d w, if String.eqb d "bad" then Err "boom" else Ok ("ok " ++ d)).
(** The last compensation fails. *)
Definition undo (o : Saga.ActivityOptions RetryPolicy) (d : string) (w : World) : World * option (Saga.error string) :=
  (tell ("undo " ++ d) w, if String.eqb d "stuck" then Some (Saga.UserError string "stuck") else None).
Definition step (name input : string) (output : option Z) (allow : bool) : SagaStep (T := temporal) (Data := string) :=
  mkSagaStep name act input output (Some undo) input 0 (Some saga_policy) allow.
Definition input (steps : list SagaStep) : SagaInput (T := temporal) (Data := string) := mkSagaInput "trip" steps 0 ∅.
Definition steps : list SagaStep := [step "flight" "flight" (Some 1) false; step "seat" "bad" (Some 2) true; step "hotel" "hotel" None false; step "car" "bad" None false; step "tour" "tour" None false].
Definition run (steps : list SagaStep) : World * (SagaOutput * option string) := let '(w, _, _, o) := SagaWorkflow (input steps) start ∅ in (w, o).
Definition no_signal (w : WorkflowActivities.World (Temporal := temporal)) : WorkflowActivities.World (Temporal := temporal) * list Signal := (w, []).
(** A signal is pending once the world is so long. *)
Definition signalled (s : Signal) (n : nat) (w : World) : World * list Signal := (w, if Nat.eqb (length w) n then [s] else []).
Definition run_signals (drain : World -> World * list Signal) (steps : list SagaStep) : World * (SagaOutput * option string) :=
  let '(w, _, _, o) := SagaWithSignals drain (input steps) start ∅ in (w, o).
End Trip.
#[local] Existing Instances Log.temporal Log.laws.
Lemma saga_undone_witness : NoDup (map Name Trip.steps) /\
  exists w' mem' o err, saga_outcome Trip.steps Log.start ∅ w' mem' o err /\ w' = ["flight"; "bad"; "hotel"; "bad"; "undo hotel"; "undo flight"] /\
    Status o = "compensated" /\ CompletedSteps o = ["flight"; "hotel"] /\ FailedStep o = "car" /\ err = Some "saga failed at step car: boom (compensated)".
Proof.
  assert (NoDup (map Name Trip.steps)) as Hnd by (by apply (bool_decide_unpack _)). split; [exact Hnd|]. pose proof (saga_undone (Trip.input Trip.steps) Log.start ∅ Hnd) as H.
  destruct (SagaWorkflow (Trip.input Trip.steps) Log.start ∅) as [[[w' mem'] cm'] [o err]] eqn:E. exists w', mem', o, err. split; [exact H|]. vm_compute in E. injection E as <- _ _ <- <-. by split_and!.
Defined.
Lemma unsignalled_saga_witness :
  Forall (fun step => s_RetryPolicy step <> None) Trip.steps /\
  (let '(w1, mem1, cm1, (o1, err1)) := SagaWorkflow (Trip.input Trip.steps) Log.start ∅ in
   let '(w2, mem2, cm2, (o2, err2)) := SagaWithSignals Trip.no_signal (Trip.input Trip.steps) Log.start ∅ in
   w1 = w2 /\ mem1 = mem2 /\ cm1 = cm2 /\ o1 = o2 /\ (err1 = None <-> err2 = None)) /\
  (Trip.run_signals Trip.no_signal Trip.steps).1 = ["flight"; "bad"; "hotel"; "bad"; "undo hotel"; "undo flight"].
Proof.
  assert (Forall (fun step => s_RetryPolicy step <> None) Trip.steps) as Hp by (by repeat constructor). split; [exact Hp|]. split; [|vm_compute; reflexivity].
  apply (unsignalled_saga Trip.no_signal (Trip.input Trip.steps) Log.start ∅); [done|exact Hp].
Defined.
(** A compensation that fails leaves the others to run. *)
Example stuck : let '(w, (o, err)) := Trip.run [Trip.step "a" "a" None false; Trip.step "b" "stuck" None false; Trip.step "c" "bad" None false] in
  (w, Status o, err) = (["a"; "stuck"; "bad"; "undo stuck"; "undo a"], "compensation_failed", Some "saga failed at step c: boom (compensation also failed: compensation b failed: stuck)").
Proof. vm_compute. reflexivity. Qed.
(** Compensations are found by name: a step is undone that had failed, if another of
    its name succeeded. *)
Example same_names : (Trip.run [Trip.step "a" "a" None false; Trip.step "a" "bad" None true; Trip.step "c" "bad" None false]).1 = ["a"; "bad"; "bad"; "undo bad"; "undo a"].
Proof. vm_compute. reflexivity. Qed.
(** Signals are looked at before each step.  To compensate by signal succeeds; to
    cancel undoes nothing; and what comes during the last step is ignored. *)
Example signal_compensates : let '(w, (o, err)) := Trip.run_signals (Trip.signalled CompensateSignal 1) [Trip.step "a" "a" None false; Trip.step "b" "b" None false] in
  (w, Status o, err) = (["a"; "undo a"], "manually_compensated", None).
Proof. vm_compute. reflexivity. Qed.
Example cancel_undoes_nothing : let '(w, (o, err)) := Trip.run_signals (Trip.signalled CancelSignal 1) [Trip.step "a" "a" None false; Trip.step "b" "b" None false] in
  (w, Status o, err) = (["a"], "cancelled", Some "workflow cancelled by signal").
Proof. vm_compute. reflexivity. Qed.
Example last_signal_ignored : let '(w, (o, err)) := Trip.run_signals (Trip.signalled CompensateSignal 2) [Trip.step "a" "a" None false; Trip.step "b" "b" None false] in
  (w, Status o, err) = (["a"; "b"], "completed", None).
Proof. vm_compute. reflexivity. Qed.
