(* ===== verification/WorkflowEngine.v ===== *)
(** The engine of workflows: [internal/workflow/engine].

    Temporal's client and worker are a record of operations.  Every operation of the
    engine that needs the server first takes the client, with the lock held, and then
    calls it without: [fetch] and the call are two steps. *)

From Stdlib Require Import ZArith Lia.
From stdpp Require Import base strings list.
From S2P Require Import Prelude GoStrings.

#[local] Open Scope string_scope.
#[local] Open Scope Z_scope.

(** ** Configuration and errors *)
Record Config := mkConfig {
  TemporalHostPort : string; Namespace : string; TaskQueue : string; MaxConcurrentWorkflows : Z; MaxConcurrentActivities : Z; DefaultTimeout : Z; WorkerID : string }.
Definition DefaultConfig : Config := mkConfig "localhost:7233" "default" "codeai-workflows" 100 100 (30 * Minute) "codeai-worker".
Inductive error :=
| ErrEngineNotStarted
| ErrEngineAlreadyStarted
| ErrConfigInvalid (Field Reason : string)
| ErrWorkflowFailed (WorkflowID RunID : string) (Cause : string)
| ErrActivityFailed (ActivityType : string) (Cause : string)
| Wrapped (what : string) (err : error)
| Foreign (text : string)
(** the panic of a method of a nil client *)
| NilClient.
Fixpoint Error (e : error) : string :=
  match e with
  | ErrEngineNotStarted => "workflow engine not started"
  | ErrEngineAlreadyStarted => "workflow engine already started"
  | ErrConfigInvalid field reason => "invalid config: " ++ field ++ " " ++ reason
  | ErrWorkflowFailed id run cause => "workflow " ++ id ++ " (run: " ++ run ++ ") failed: " ++ cause
  | ErrActivityFailed ty cause => "activity " ++ ty ++ " failed: " ++ cause
  | Wrapped what e => what ++ ": " ++ Error e
  | Foreign text => text
  | NilClient => "invalid memory address or nil pointer dereference"
  end.
Definition Validate (c : Config) : option error :=
  if String.eqb (TemporalHostPort c) "" then Some (ErrConfigInvalid "TemporalHostPort" "cannot be empty")
  else if String.eqb (Namespace c) "" then Some (ErrConfigInvalid "Namespace" "cannot be empty")
  else if String.eqb (TaskQueue c) "" then Some (ErrConfigInvalid "TaskQueue" "cannot be empty")
  else if MaxConcurrentWorkflows c <=? 0 then Some (ErrConfigInvalid "MaxConcurrentWorkflows" "must be positive")
  else if MaxConcurrentActivities c <=? 0 then Some (ErrConfigInvalid "MaxConcurrentActivities" "must be positive")
  else None.

Section Engine.
(** The world, Temporal's clients and workers, functions, values and answers. *)
Variables (W Client Worker Fn Value Run History : Type).
Record WorkerOptions := mkWorkerOptions { MaxConcurrentWorkflowTaskExecutionSize : Z; MaxConcurrentActivityExecutionSize : Z; Identity : string }.
Record StartWorkflowOptions := mkStart { ID : string; s_TaskQueue : string; WorkflowExecutionTimeout : Z }.
Record WorkflowExecutionInfo := mkInfo { WorkflowID : string; RunID : string; Type_ : string; Status : string }.
Record Sdk := mkSdk {
  Dial : string -> string -> W -> W * result string Client;
  worker_New : Client -> string -> WorkerOptions -> Worker;
  worker_RegisterWorkflow : Fn -> Worker -> Worker;
  worker_RegisterActivity : Fn -> Worker -> Worker;
  worker_Start : Worker -> W -> W * option string;
  worker_Stop : Worker -> W -> W;
  client_Close : Client -> W -> W;
  client_ExecuteWorkflow : Client -> StartWorkflowOptions -> Fn -> Value -> W -> W * result string Run;
  client_GetWorkflow : Client -> string -> string -> Run;
  run_Get : Run -> W -> W * result string Value;
  client_CancelWorkflow : Client -> string -> string -> W -> W * option string;
  client_TerminateWorkflow : Client -> string -> string -> string -> W -> W * option string;
  client_GetWorkflowHistory : Client -> string -> string -> W -> W * History;
  client_SignalWorkflow : Client -> string -> string -> string -> Value -> W -> W * option string;
  (** the result of a query is decoded afterwards *)
  client_QueryWorkflow : Client -> string -> string -> string -> list Value -> W -> W * result string (result string Value);
  client_DescribeWorkflowExecution : Client -> string -> string -> W -> W * result string WorkflowExecutionInfo }.
Variable sdk : Sdk.

Record Engine := mkEngine { client : option Client; worker : option Worker; config : Config; running : bool; workflows : list Fn; activities : list Fn }.
Definition NewEngine (cfg : Config) : result error Engine :=
  match Validate cfg with Some e => Err (Wrapped "validating config" e) | None => Ok (mkEngine None None cfg false [] []) end.
Definition RegisterWorkflow (wf : Fn) (e : Engine) : Engine := mkEngine (client e) (worker e) (config e) (running e) (workflows e ++ [wf])%list (activities e).
Definition RegisterActivity (act : Fn) (e : Engine) : Engine := mkEngine (client e) (worker e) (config e) (running e) (workflows e) (activities e ++ [act])%list.
Definition new_worker (c : Client) (e : Engine) : Worker :=
  let options := mkWorkerOptions (MaxConcurrentWorkflows (config e)) (MaxConcurrentActivities (config e)) (WorkerID (config e)) in
  let wk := worker_New sdk c (TaskQueue (config e)) options in
  let wk := fold_left (fun wk wf => worker_RegisterWorkflow sdk wf wk) (workflows e) wk in
  fold_left (fun wk act => worker_RegisterActivity sdk act wk) (activities e) wk.
(** A client whose worker does not start is closed, and stays in its field. *)
Definition Start (e : Engine) (w : W) : W * Engine * option error :=
  if running e then (w, e, Some ErrEngineAlreadyStarted) else
  match Dial sdk (TemporalHostPort (config e)) (Namespace (config e)) w with
  | (w, Err x) => (w, e, Some (Wrapped "creating temporal client" (Foreign x)))
  | (w, Ok c) =>
      let wk := new_worker c e in
      match worker_Start sdk wk w with
      | (w, Some x) => (client_Close sdk c w, mkEngine (Some c) (Some wk) (config e) false (workflows e) (activities e), Some (Wrapped "starting worker" (Foreign x)))
      | (w, None) => (w, mkEngine (Some c) (Some wk) (config e) true (workflows e) (activities e), None)
      end
  end.
Definition Stop (e : Engine) (w : W) : W * Engine * option error :=
  if negb (running e) then (w, e, Some ErrEngineNotStarted) else
  match worker e, client e with
  | Some wk, Some c => (client_Close sdk c (worker_Stop sdk wk w), mkEngine (client e) (worker e) (config e) false (workflows e) (activities e), None)
  | _, _ => (w, e, Some NilClient)
  end.
Definition IsRunning (e : Engine) : bool := running e.
Definition engine_Client (e : Engine) : option Client := client e.
(** What an operation takes while it has the lock. *)
Definition fetch (e : Engine) : result error (option Client) := if running e then Ok (client e) else Err ErrEngineNotStarted.
Definition call {A} (c : option Client) (k : Client -> W -> W * result error A) (w : W) : W * result error A :=
  match c with Some c => k c w | None => (w, Err NilClient) end.
Definition serve {A} (e : Engine) (k : Client -> W -> W * result error A) (w : W) : W * result error A :=
  match fetch e with Err x => (w, Err x) | Ok c => call c k w end.
Definition wrapped {A} (what : string) (r : W * result string A) : W * result error A :=
  match r with (w, Ok a) => (w, Ok a) | (w, Err x) => (w, Err (Wrapped what (Foreign x))) end.
Definition unit_of (r : W * option string) : W * result string unit := match r with (w, None) => (w, Ok tt) | (w, Some x) => (w, Err x) end.
Definition ExecuteWorkflow (workflowID : string) (wf : Fn) (input : Value) (e : Engine) : W -> W * result error Run :=
  serve e (fun c w => wrapped "executing workflow" (client_ExecuteWorkflow sdk c (mkStart workflowID (TaskQueue (config e)) (DefaultTimeout (config e))) wf input w)).
Definition GetWorkflowResult (workflowID runID : string) (e : Engine) : W -> W * result error Value :=
  serve e (fun c w => wrapped "getting workflow result" (run_Get sdk (client_GetWorkflow sdk c workflowID runID) w)).
Definition CancelWorkflow (workflowID runID : string) (e : Engine) : W -> W * result error unit :=
  serve e (fun c w => wrapped "canceling workflow" (unit_of (client_CancelWorkflow sdk c workflowID runID w))).
Definition TerminateWorkflow (workflowID runID reason : string) (e : Engine) : W -> W * result error unit :=
  serve e (fun c w => wrapped "terminating workflow" (unit_of (client_TerminateWorkflow sdk c workflowID runID reason w))).
Definition GetWorkflowHistory (workflowID runID : string) (e : Engine) : W -> W * result error History :=
  serve e (fun c w => let '(w, h) := client_GetWorkflowHistory sdk c workflowID runID w in (w, Ok h)).
Definition SendSignal (workflowID signalName : string) (signalData : Value) (e : Engine) : W -> W * result error unit :=
  serve e (fun c w => wrapped "signaling workflow" (unit_of (client_SignalWorkflow sdk c workflowID "" signalName signalData w))).
Definition QueryWorkflow (workflowID runID queryType : string) (args : list Value) (e : Engine) : W -> W * result error Value :=
  serve e (fun c w =>
    match client_QueryWorkflow sdk c workflowID runID queryType args w with
    | (w, Err x) => (w, Err (Wrapped "querying workflow" (Foreign x)))
    | (w, Ok (Err x)) => (w, Err (Wrapped "decoding query result" (Foreign x)))
    | (w, Ok (Ok v)) => (w, Ok v)
    end).
Definition DescribeWorkflow (workflowID runID : string) (e : Engine) : W -> W * result error WorkflowExecutionInfo :=
  serve e (fun c w => wrapped "describing workflow" (client_DescribeWorkflowExecution sdk c workflowID runID w)).

(** ** Sessions *)
(** What is done with an engine, one operation after the other; [Serve] stands for
    any that calls the client. *)
Inductive op := Register_ (activity : bool) (f : Fn) | Start_ | Stop_ | Serve (k : Client -> W -> W).
Definition step (o : op) (s : W * Engine) : W * Engine * option error :=
  let '(w, e) := s in
  match o with
  | Register_ activity f => (w, if activity then RegisterActivity f e else RegisterWorkflow f e, None)
  | Start_ => Start e w
  | Stop_ => Stop e w
  | Serve k => match serve e (fun c w => (k c w, Ok tt)) w with (w, Ok _) => (w, e, None) | (w, Err x) => (w, e, Some x) end
  end.
Fixpoint run_ops (ops : list op) (s : W * Engine) : W * Engine * list (option error) :=
  match ops with
  | [] => (s, [])
  | o :: ops => let '(w, e, x) := step o s in let '(s, xs) := run_ops ops (w, e) in (s, x :: xs)
  end.

(** The specification: an engine is a session with the server, or none. *)
Record Spec := mkSpec { session : option (Client * Worker); p_config : Config; p_workflows : list Fn; p_activities : list Fn }.
Definition spec_step (o : op) (s : W * Spec) : W * Spec * option error :=
  let '(w, p) := s in
  match o, session p with
  | Register_ true f, _ => (w, mkSpec (session p) (p_config p) (p_workflows p) (p_activities p ++ [f]), None)%list
  | Register_ false f, _ => (w, mkSpec (session p) (p_config p) (p_workflows p ++ [f]) (p_activities p), None)%list
  | Start_, Some _ => (w, p, Some ErrEngineAlreadyStarted)
  | Start_, None =>
      match Dial sdk (TemporalHostPort (p_config p)) (Namespace (p_config p)) w with
      | (w, Err x) => (w, p, Some (Wrapped "creating temporal client" (Foreign x)))
      | (w, Ok c) =>
          let wk := new_worker c (mkEngine None None (p_config p) false (p_workflows p) (p_activities p)) in
          match worker_Start sdk wk w with
          | (w, Some x) => (client_Close sdk c w, p, Some (Wrapped "starting worker" (Foreign x)))
          | (w, None) => (w, mkSpec (Some (c, wk)) (p_config p) (p_workflows p) (p_activities p), None)
          end
      end
  | Stop_, Some (c, wk) => (client_Close sdk c (worker_Stop sdk wk w), mkSpec None (p_config p) (p_workflows p) (p_activities p), None)
  | Serve k, Some (c, _) => (k c w, p, None)
  | _, None => (w, p, Some ErrEngineNotStarted)
  end.
Fixpoint spec_ops (ops : list op) (s : W * Spec) : W * Spec * list (option error) :=
  match ops with
  | [] => (s, [])
  | o :: ops => let '(w, p, x) := spec_step o s in let '(s, xs) := spec_ops ops (w, p) in (s, x :: xs)
  end.
(** A running engine has both its client and its worker; what a stopped one has does
    not matter. *)
Record implements (e : Engine) (p : Spec) : Prop := {
  i_config : config e = p_config p; i_workflows : workflows e = p_workflows p; i_activities : activities e = p_activities p;
  i_session : match session p with Some (c, wk) => running e = true /\ client e = Some c /\ worker e = Some wk | None => running e = false end }.
Lemma step_implements o w e p : implements e p ->
  let '(w1, e', x1) := step o (w, e) in let '(w2, p', x2) := spec_step o (w, p) in w1 = w2 /\ x1 = x2 /\ implements e' p'.
Proof.
  destruct e as [c wk cfg r wfs acts], p as [ses cfg' wfs' acts']. intros [H1 H2 H3 H4]. cbn in *. subst cfg' wfs' acts'. destruct o as [[] f| | |k].
  1,2: by repeat split.
  - unfold step, Start, spec_step. cbn. destruct ses as [[c' wk']|]; [destruct H4 as (-> & -> & ->); by repeat split|subst r].
    destruct (Dial sdk _ _ w) as [w1 [c1|x]]; [|by repeat split]. unfold new_worker. cbn. destruct (worker_Start sdk _ w1) as [w2 [x|]]; by repeat split.
  - unfold step, Stop, spec_step. cbn. destruct ses as [[c' wk']|]; [destruct H4 as (-> & -> & ->)|subst r]; by repeat split.
  - unfold step, serve, fetch, spec_step. cbn. destruct ses as [[c' wk']|]; [destruct H4 as (-> & -> & ->)|subst r]; by repeat split.
Qed.
(** An engine, used by one caller at a time, is a session: what is called is called on
    the client of the last start, between that start and the next stop, and is refused
    at any other time without reaching the server; there is never a second session, and
    no method of a nil client is called. *)
Theorem engine_is_session cfg e ops w : NewEngine cfg = Ok e ->
  let '(w1, e', xs) := run_ops ops (w, e) in let '(w2, p', ys) := spec_ops ops (w, mkSpec None cfg [] []) in
  w1 = w2 /\ xs = ys /\ implements e' p'.
Proof.
  unfold NewEngine. destruct (Validate cfg); [done|]. intros [= <-].
  assert (implements (mkEngine None None cfg false [] []) (mkSpec None cfg [] [])) as Hi by by repeat split.
  revert Hi w. generalize (mkEngine None None cfg false [] []) as e, (mkSpec None cfg [] []) as p. induction ops as [|o ops IH]; intros e p Hi w; [done|].
  cbn [run_ops spec_ops]. pose proof (step_implements o w e p Hi) as H. destruct (step o (w, e)) as [[w1 e1] x1], (spec_step o (w, p)) as [[w2 p2] x2]. destruct H as (-> & -> & Hi').
  specialize (IH e1 p2 Hi' w2). destruct (run_ops ops (w2, e1)) as [[w3 e3] xs], (spec_ops ops (w2, p2)) as [[w4 p4] ys]. destruct IH as (-> & -> & IH). by split_and!.
Qed.
Theorem config_Validate_spec c : Validate c = None <->
  TemporalHostPort c <> "" /\ Namespace c <> "" /\ TaskQueue c <> "" /\ 0 < MaxConcurrentWorkflows c /\ 0 < MaxConcurrentActivities c.
Proof.
  unfold Validate. repeat case_match; rewrite ?String.eqb_eq, ?String.eqb_neq, ?Z.leb_le, ?Z.leb_gt in *; naive_solver lia.
Qed.
End Engine.

(** ** A concrete server *)
Module Log.
Definition say (s : string) (w : list string) : list string := (w ++ [s])%list.
Definition sdk : Sdk (list string) string string string string string string :=
  mkSdk (list string) string string string string string string
    (fun host ns w => (say "dial" w, if String.eqb host "down" then Err "refused" else Ok host)) (fun c queue _ => queue) (fun f wk => wk ++ "+" ++ f) (fun f wk => wk ++ "+" ++ f)
    (fun wk w => (say ("start " ++ wk) w, if String.eqb wk "" then Some "no queue" else None)) (fun wk w => say ("stop " ++ wk) w) (fun c w => say ("close " ++ c) w)
    (fun c o f v w => (say ("execute " ++ f) w, Ok (ID o))) (fun c id run => id) (fun run w => (w, Ok run)) (fun c id run w => (say ("cancel " ++ id) w, None))
    (fun c id run reason w => (say ("terminate " ++ id) w, None)) (fun c id run w => (w, id)) (fun c id run name v w => (say ("signal " ++ id) w, None))
    (fun c id run q args w => (w, Ok (Ok q))) (fun c id run w => (w, Ok (mkInfo id run "" "Running"))).
Definition idle : Engine string string string := mkEngine _ _ _ None None DefaultConfig false [] [].
Definition ready : Engine string string string := RegisterActivity _ _ _ "act" (RegisterWorkflow _ _ _ "flow" idle).
(** Two callers: one has taken the client when the other stops the engine. *)
Definition race : list string :=
  let '(w, e, _) := Start _ _ _ _ _ _ _ sdk ready [] in
  match fetch _ _ _ e with
  | Err _ => w
  | Ok c =>
      let '(w, e, _) := Stop _ _ _ _ _ _ _ sdk e w in
      (call _ _ c (fun c w => wrapped _ "canceling workflow" (unit_of _ (client_CancelWorkflow _ _ _ _ _ _ _ sdk c "id" "" w))) w).1
  end.
End Log.
(** The call reaches a client that is closed. *)
Example stopped_between : Log.race = ["dial"; "start codeai-workflows+flow+act"; "stop codeai-workflows+flow+act"; "close localhost:7233"; "cancel id"].
Proof. vm_compute. reflexivity. Qed.
(** What is registered after the start waits for the next one. *)
Example registered_late : (run_ops _ _ _ _ _ _ _ Log.sdk [Start_ _ _ _; Register_ _ _ _ false "late"; Start_ _ _ _; Stop_ _ _ _; Start_ _ _ _] ([], Log.idle)).1.1 =
  ["dial"; "start codeai-workflows"; "stop codeai-workflows"; "close localhost:7233"; "dial"; "start codeai-workflows+late"].
Proof. vm_compute. reflexivity. Qed.
