(* ===== verification/IntegrationConfig.v ===== *)
(** Settings of the clients of external services, their time-outs and the calls they
    share: [pkg/integration/config.go], [timeout.go], and the common part of the
    clients.

    The environment is a function.  A context is the instant at which it ends, if
    any; which of two things that are ready a [select] takes is an argument. *)

From Stdlib Require Import ZArith Lia Ascii SpecFloat.
From stdpp Require Import base strings list gmap.
From S2P Require Import Prelude GoStrings GoText GoDuration GoCrypto.
From S2P Require Retry CircuitBreaker.

#[local] Open Scope string_scope.
#[local] Open Scope Z_scope.

(** ** Time-outs *)
Record TimeoutConfig := mkTimeout { Default : Z; Connect : Z; Read : Z; Write : Z }.
Definition DefaultTimeoutConfig : TimeoutConfig := mkTimeout (30 * Second) (10 * Second) (30 * Second) (30 * Second).
(** [NewTimeoutManager]; a manager is its configuration. *)
Definition NewTimeoutManager (c : TimeoutConfig) : TimeoutConfig :=
  mkTimeout (if Default c <=? 0 then 30 * Second else Default c) (if Connect c <=? 0 then 10 * Second else Connect c)
    (if Read c <=? 0 then 30 * Second else Read c) (if Write c <=? 0 then 30 * Second else Write c).
(** [time.Until] *)
Definition until (now deadline : Z) : Z := CircuitBreaker.time_since deadline now.
(** The deadline of the new context. *)
Definition WithTimeout (c : TimeoutConfig) (now : Z) (deadline : option Z) (timeout : Z) : option Z :=
  let timeout := if timeout <=? 0 then Default c else timeout in
  match deadline with
  | Some d => if until now d <? timeout then Some d else Some (Z.min d (now + timeout))
  | None => Some (now + timeout)
  end.
Definition WithDefaultTimeout (c : TimeoutConfig) (now : Z) (deadline : option Z) : option Z := WithTimeout c now deadline (Default c).

Definition plain_error (message : string) : Retry.GoError := Retry.mkError false false None None message.
Definition ErrTimeout : Retry.GoError := plain_error "operation timed out".
Definition Canceled : Retry.GoError := plain_error "context canceled".
Definition DeadlineExceeded : Retry.GoError := Retry.mkError true false (Some (true, true)) None "context deadline exceeded".
(** Which case of the [select] is taken: the function is done, or the context,
    which has run out or was cancelled. *)
Inductive Race (A : Type) := Finished (a : A) | Expired (deadline : bool).
Arguments Finished {A} _. Arguments Expired {A} _.
Definition ExecuteWithResult {A} (r : Race (result Retry.GoError A)) : result Retry.GoError A :=
  match r with Finished a => a | Expired true => Err ErrTimeout | Expired false => Err Canceled end.
Definition Execute (r : Race (option Retry.GoError)) : option Retry.GoError :=
  match r with Finished e => e | Expired true => Some ErrTimeout | Expired false => Some Canceled end.

Record TimeoutContext := mkTimeoutContext { tc_deadline : Z; tc_cancelled : bool; tc_timeout : Z; tc_startTime : Z }.
Definition NewTimeoutContext (now : Z) (parent : option Z) (timeout : Z) : TimeoutContext :=
  mkTimeoutContext (match parent with Some d => Z.min d (now + timeout) | None => now + timeout end) false timeout now.
Definition Cancel (tc : TimeoutContext) : TimeoutContext := mkTimeoutContext (tc_deadline tc) true (tc_timeout tc) (tc_startTime tc).
Definition Remaining (now : Z) (tc : TimeoutContext) : Z := until now (tc_deadline tc).
Definition Elapsed (now : Z) (tc : TimeoutContext) : Z := CircuitBreaker.time_since now (tc_startTime tc).
Definition IsExpired (now : Z) (tc : TimeoutContext) : bool := tc_cancelled tc || (tc_deadline tc <=? now).
Definition Extend (now : Z) (additional : Z) (tc : TimeoutContext) : TimeoutContext :=
  let newTimeout := wrap64 (Remaining now (Cancel tc) + additional) in
  NewTimeoutContext now None (if newTimeout <? 0 then additional else newTimeout).

(** ** Configuration *)
Inductive AuthType := NoAuth | AuthNone | AuthBearer | AuthAPIKey | AuthBasic | AuthOAuth2.   (** [NoAuth] is the empty text *)
Record OAuth2Config := mkOAuth2 { ClientID : string; ClientSecret : string; TokenURL : string; Scopes : list string; o_Token : string; RefreshToken : string; TokenExpiry : Z }.
Record AuthConfig := mkAuth { a_Type : AuthType; Token : string; APIKey : string; APIKeyHeader : string; Username : string; Password : string; OAuth2 : option OAuth2Config }.
Definition no_auth : AuthConfig := mkAuth NoAuth "" "" "" "" "" None.
Record Config := mkConfig {
  ServiceName : string; BaseURL : string; Timeout : TimeoutConfig; Retry_ : Retry.RetryConfig; Circuit : CircuitBreaker.CircuitBreakerConfig;
  Headers : list (string * string); Auth : AuthConfig; EnableMetrics : bool; EnableLogging : bool; RedactFields : list string; UserAgent : string }.
Definition DefaultConfig : Config :=
  mkConfig "" "" DefaultTimeoutConfig Retry.DefaultRetryConfig CircuitBreaker.DefaultCircuitBreakerConfig [] no_auth true true
    ["password"; "token"; "secret"; "api_key"; "authorization"] "CodeAI-Client/1.0".

Definition set_ServiceName (s : string) (c : Config) := mkConfig s (BaseURL c) (Timeout c) (Retry_ c) (Circuit c) (Headers c) (Auth c) (EnableMetrics c) (EnableLogging c) (RedactFields c) (UserAgent c).
Definition set_BaseURL (s : string) (c : Config) := mkConfig (ServiceName c) s (Timeout c) (Retry_ c) (Circuit c) (Headers c) (Auth c) (EnableMetrics c) (EnableLogging c) (RedactFields c) (UserAgent c).
Definition set_Timeout (t : TimeoutConfig) (c : Config) := mkConfig (ServiceName c) (BaseURL c) t (Retry_ c) (Circuit c) (Headers c) (Auth c) (EnableMetrics c) (EnableLogging c) (RedactFields c) (UserAgent c).
Definition set_Retry (r : Retry.RetryConfig) (c : Config) := mkConfig (ServiceName c) (BaseURL c) (Timeout c) r (Circuit c) (Headers c) (Auth c) (EnableMetrics c) (EnableLogging c) (RedactFields c) (UserAgent c).
Definition set_Circuit (cb : CircuitBreaker.CircuitBreakerConfig) (c : Config) := mkConfig (ServiceName c) (BaseURL c) (Timeout c) (Retry_ c) cb (Headers c) (Auth c) (EnableMetrics c) (EnableLogging c) (RedactFields c) (UserAgent c).
Definition set_Headers (h : list (string * string)) (c : Config) := mkConfig (ServiceName c) (BaseURL c) (Timeout c) (Retry_ c) (Circuit c) h (Auth c) (EnableMetrics c) (EnableLogging c) (RedactFields c) (UserAgent c).
Definition set_Auth (a : AuthConfig) (c : Config) := mkConfig (ServiceName c) (BaseURL c) (Timeout c) (Retry_ c) (Circuit c) (Headers c) a (EnableMetrics c) (EnableLogging c) (RedactFields c) (UserAgent c).
Definition set_switches (metrics logging : bool) (redact : list string) (agent : string) (c : Config) :=
  mkConfig (ServiceName c) (BaseURL c) (Timeout c) (Retry_ c) (Circuit c) (Headers c) (Auth c) metrics logging redact agent.

(** *** From the environment *)
(** One rune of the name: an upper-case letter is set off unless it is first. *)
Definition env_rune (i : nat) (c : Z) : string :=
  let upper_ := (65 <=? c) && (c <=? 90) in
  (if upper_ && negb (Nat.eqb i 0) then "_" else "") ++
  (if (97 <=? c) && (c <=? 122) then encode_rune (c - 32) else if upper_ then encode_rune c else if (c =? 45) || (c =? 32) then "_" else encode_rune c).
Definition envPrefix (serviceName : string) : string := Join (map (fun p => env_rune p.1 p.2) (range_runes serviceName)) "" ++ "_".
Section Env.
Variable Getenv : string -> string.
Definition envDuration (key : string) : Z :=
  let value := Getenv key in
  if String.eqb value "" then 0
  else match ParseDuration value with
       | Ok d => d
       | Err _ => match ParseInt value with Ok seconds => wrap64 (seconds * Second) | Err _ => 0 end
       end.
Definition envInt (key : string) : Z :=
  let value := Getenv key in if String.eqb value "" then 0 else match ParseInt value with Ok i => i | Err _ => 0 end.
(** [if v > 0 { ... }] *)
Definition when_positive (v : Z) (set : Z -> Config -> Config) (c : Config) : Config := if 0 <? v then set v c else c.
Definition when_set (v : string) (set : string -> Config -> Config) (c : Config) : Config := if String.eqb v "" then c else set v c.
Definition set_Default (t : Z) (c : Config) := set_Timeout (mkTimeout t (Connect (Timeout c)) (Read (Timeout c)) (Write (Timeout c))) c.
Definition set_Connect (t : Z) (c : Config) := set_Timeout (mkTimeout (Default (Timeout c)) t (Read (Timeout c)) (Write (Timeout c))) c.
Definition set_MaxAttempts (n : Z) (c : Config) := let r := Retry_ c in
  set_Retry (Retry.mkRetryConfig n (Retry.BaseDelay r) (Retry.MaxDelay r) (Retry.Multiplier r) (Retry.Jitter r) (Retry.RetryIf r)) c.
Definition set_BaseDelay (d : Z) (c : Config) := let r := Retry_ c in
  set_Retry (Retry.mkRetryConfig (Retry.MaxAttempts r) d (Retry.MaxDelay r) (Retry.Multiplier r) (Retry.Jitter r) (Retry.RetryIf r)) c.
Definition set_threshold (n : Z) (c : Config) := set_Circuit (CircuitBreaker.mkConfig n (CircuitBreaker.Timeout (Circuit c)) (CircuitBreaker.HalfOpenRequests (Circuit c))) c.
Definition set_circuit_timeout (t : Z) (c : Config) := set_Circuit (CircuitBreaker.mkConfig (CircuitBreaker.FailureThreshold (Circuit c)) t (CircuitBreaker.HalfOpenRequests (Circuit c))) c.
Definition set_UserAgent (s : string) (c : Config) := set_switches (EnableMetrics c) (EnableLogging c) (RedactFields c) s c.
Definition ConfigFromEnv (serviceName : string) : Config :=
  let prefix := envPrefix serviceName in
  let c := set_ServiceName serviceName DefaultConfig in
  let c := when_set (Getenv (prefix ++ "BASE_URL")) set_BaseURL c in
  let c := when_positive (envDuration (prefix ++ "TIMEOUT")) set_Default c in
  let c := when_positive (envDuration (prefix ++ "CONNECT_TIMEOUT")) set_Connect c in
  let c := when_positive (envInt (prefix ++ "MAX_RETRIES")) set_MaxAttempts c in
  let c := when_positive (envDuration (prefix ++ "RETRY_DELAY")) set_BaseDelay c in
  let c := when_positive (envInt (prefix ++ "CIRCUIT_THRESHOLD")) set_threshold c in
  let c := when_positive (envDuration (prefix ++ "CIRCUIT_TIMEOUT")) set_circuit_timeout c in
  when_set (Getenv (prefix ++ "USER_AGENT")) set_UserAgent c.
End Env.

(** *** The builder: a builder is the configuration it holds *)
Definition NewConfigBuilder (serviceName : string) : Config := set_ServiceName serviceName DefaultConfig.
Definition ReadTimeout (t : Z) (c : Config) := set_Timeout (mkTimeout (Default (Timeout c)) (Connect (Timeout c)) t (Write (Timeout c))) c.
Definition WriteTimeout (t : Z) (c : Config) := set_Timeout (mkTimeout (Default (Timeout c)) (Connect (Timeout c)) (Read (Timeout c)) t) c.
Definition MaxRetryDelay (d : Z) (c : Config) := let r := Retry_ c in
  set_Retry (Retry.mkRetryConfig (Retry.MaxAttempts r) (Retry.BaseDelay r) d (Retry.Multiplier r) (Retry.Jitter r) (Retry.RetryIf r)) c.
Definition RetryMultiplier (m : float64) (c : Config) := let r := Retry_ c in
  set_Retry (Retry.mkRetryConfig (Retry.MaxAttempts r) (Retry.BaseDelay r) (Retry.MaxDelay r) m (Retry.Jitter r) (Retry.RetryIf r)) c.
Definition RetryJitter (j : float64) (c : Config) := let r := Retry_ c in
  set_Retry (Retry.mkRetryConfig (Retry.MaxAttempts r) (Retry.BaseDelay r) (Retry.MaxDelay r) (Retry.Multiplier r) j (Retry.RetryIf r)) c.
Definition CircuitBreakerHalfOpenRequests (n : Z) (c : Config) := set_Circuit (CircuitBreaker.mkConfig (CircuitBreaker.FailureThreshold (Circuit c)) (CircuitBreaker.Timeout (Circuit c)) n) c.
Fixpoint put {A} (k : string) (v : A) (m : list (string * A)) : list (string * A) :=
  match m with [] => [(k, v)] | (k', v') :: m => if String.eqb k k' then (k, v) :: m else (k', v') :: put k v m end.
Definition add_Header (key value : string) (c : Config) := set_Headers (put key value (Headers c)) c.
Definition add_Headers (headers : list (string * string)) (c : Config) := set_Headers (fold_left (fun h e => put e.1 e.2 h) headers (Headers c)) c.
Definition BearerAuth (token : string) := set_Auth (mkAuth AuthBearer token "" "" "" "" None).
Definition APIKeyAuth (apiKey header : string) := set_Auth (mkAuth AuthAPIKey "" apiKey (if String.eqb header "" then "X-API-Key" else header) "" "" None).
Definition BasicAuth (username password : string) := set_Auth (mkAuth AuthBasic "" "" "" username password None).
Definition OAuth2Auth (config : option OAuth2Config) := set_Auth (mkAuth AuthOAuth2 "" "" "" "" "" config).

Record ConfigError := mkConfigError { Field : string; Message : string }.
Definition ConfigError_Error (e : ConfigError) : string := "config error: " ++ Field e ++ " " ++ Message e.
Definition Validate (c : Config) : option ConfigError :=
  if String.eqb (ServiceName c) "" then Some (mkConfigError "ServiceName" "is required")
  else if String.eqb (BaseURL c) "" then Some (mkConfigError "BaseURL" "is required")
  else if Default (Timeout c) <=? 0 then Some (mkConfigError "Timeout.Default" "must be positive")
  else if Retry.MaxAttempts (Retry_ c) <=? 0 then Some (mkConfigError "Retry.MaxAttempts" "must be positive")
  else if CircuitBreaker.FailureThreshold (Circuit c) <=? 0 then Some (mkConfigError "CircuitBreaker.FailureThreshold" "must be positive")
  else None.

(** * What settings guarantee *)
(** The new context ends at the earlier of the two instants. *)
Lemma WithTimeout_min c now deadline timeout : 0 < timeout <= int64_max ->
  WithTimeout c now deadline timeout = Some (match deadline with Some d => Z.min d (now + timeout) | None => now + timeout end).
Proof.
  intros Ht. unfold WithTimeout. rewrite (proj2 (Z.leb_gt _ _)) by lia. destruct deadline as [d|]; [|done].
  destruct (Z.ltb_spec (until now d) timeout) as [H|H]; [|done]. f_equal. unfold until, CircuitBreaker.time_since, int64_min, int64_max in *. lia.
Qed.
(** Extending runs from now, with what was left. *)
Lemma Extend_deadline now additional tc : int64_min < tc_deadline tc - now < int64_max -> 0 <= tc_deadline tc - now + additional <= int64_max ->
  tc_deadline (Extend now additional tc) = tc_deadline tc + additional.
Proof.
  intros H1 H2. unfold Extend, Remaining, Cancel, until, CircuitBreaker.time_since. cbn [tc_deadline]. rewrite Z.min_r, Z.max_r by lia. rewrite wrap64_small.
  - rewrite (proj2 (Z.ltb_ge _ _)) by lia. cbn. lia.
  - unfold in_int64. rewrite andb_true_iff, !Z.leb_le. unfold int64_min in *. lia.
Qed.

(** The settings that keep a client from waiting for ever or never trying. *)
Definition sound (c : Config) : Prop :=
  ServiceName c <> "" /\ BaseURL c <> "" /\ 0 < Default (Timeout c) /\ 0 < Retry.MaxAttempts (Retry_ c) /\ 0 < CircuitBreaker.FailureThreshold (Circuit c).
Lemma Validate_sound c : Validate c = None <-> sound c.
Proof.
  unfold Validate, sound. destruct (String.eqb_spec (ServiceName c) ""); [naive_solver|]. destruct (String.eqb_spec (BaseURL c) ""); [naive_solver|].
  destruct (Z.leb_spec (Default (Timeout c)) 0); [naive_solver lia|]. destruct (Z.leb_spec (Retry.MaxAttempts (Retry_ c)) 0); [naive_solver lia|].
  destruct (Z.leb_spec (CircuitBreaker.FailureThreshold (Circuit c)) 0); naive_solver lia.
Qed.
Lemma when_positive_keeps {A} (proj : Config -> A) set v c : (forall v c, proj (set v c) = proj c) -> proj (when_positive v set c) = proj c.
Proof. intros H. unfold when_positive. destruct (0 <? v); [apply H|done]. Qed.
Lemma when_set_keeps {A} (proj : Config -> A) set v c : (forall v c, proj (set v c) = proj c) -> proj (when_set v set c) = proj c.
Proof. intros H. unfold when_set. destruct (String.eqb v ""); [done|apply H]. Qed.
(** Passes the settings that leave a part alone. *)
Ltac kept proj := repeat first [rewrite (when_positive_keeps proj) by reflexivity | rewrite (when_set_keeps proj) by reflexivity].
(** Settings from the environment are valid once the service has a name and an
    address: what is not positive there is not taken. *)
Lemma ConfigFromEnv_valid getenv name : name <> "" ->
  Validate (ConfigFromEnv getenv name) = None <-> getenv (envPrefix name ++ "BASE_URL") <> "".
Proof.
  intros Hn. rewrite Validate_sound. unfold sound.
  assert (forall v f c, (0 < v -> 0 < f (v : Z)) -> 0 < c -> 0 < (if 0 <? v then f v else c)) as Hp by (intros v f c Hv Hc; destruct (Z.ltb_spec 0 v); auto).
  assert (ServiceName (ConfigFromEnv getenv name) = name /\ BaseURL (ConfigFromEnv getenv name) = getenv (envPrefix name ++ "BASE_URL") /\
    Default (Timeout (ConfigFromEnv getenv name)) = (let v := envDuration getenv (envPrefix name ++ "TIMEOUT") in if 0 <? v then v else 30 * Second) /\
    Retry.MaxAttempts (Retry_ (ConfigFromEnv getenv name)) = (let v := envInt getenv (envPrefix name ++ "MAX_RETRIES") in if 0 <? v then v else 3) /\
    CircuitBreaker.FailureThreshold (Circuit (ConfigFromEnv getenv name)) = (let v := envInt getenv (envPrefix name ++ "CIRCUIT_THRESHOLD") in if 0 <? v then v else 5))
    as (-> & -> & -> & -> & ->).
  { unfold ConfigFromEnv. split_and!.
    - by kept ServiceName.
    - kept BaseURL. unfold when_set. by destruct (String.eqb_spec (getenv (envPrefix name ++ "BASE_URL")) "") as [->|].
    - kept (fun c => Default (Timeout c)). unfold when_positive at 1. destruct (0 <? _); [done|]. by kept (fun c => Default (Timeout c)).
    - kept (fun c => Retry.MaxAttempts (Retry_ c)). unfold when_positive at 1. destruct (0 <? _); [done|]. by kept (fun c => Retry.MaxAttempts (Retry_ c)).
    - kept (fun c => CircuitBreaker.FailureThreshold (Circuit c)). unfold when_positive at 1. destruct (0 <? _); [done|]. by kept (fun c => CircuitBreaker.FailureThreshold (Circuit c)). }
  cbv zeta. split; [tauto|]. intros Hb. split_and!; try done; match goal with |- 0 < (if 0 <? ?v then _ else _) => destruct (Z.ltb_spec 0 v); unfold Second; lia end.
Qed.
(** Two services whose names differ only there share their variables. *)
Example prefix_shared : envPrefix "my-api" = envPrefix "my api" /\ envPrefix "GitHub" = "GIT_HUB_".
Proof. vm_compute. split; reflexivity. Qed.

(** * Calls with retries through a circuit breaker

    What the REST and the GraphQL client share ([Client.Do] and [Client.Execute]).  An
    attempt is given by its number; the context, the random numbers and the clock are
    an [Outside]. *)

Record Outside := mkOutside {
  ctx_err : Z -> option Retry.GoError; wait_err : Z -> option Retry.GoError; rand : Z -> float64; started : Z; ended : Z }.
Inductive CallError := CircuitOpen | CallFailed (e : Retry.GoError).

Section Resilient.
Context {R : Type} (overflow : float64 -> Z) (skipCircuit skipRetry : bool) (retryer : Retry.RetryConfig) (w : Outside) (attempt : Z -> result Retry.GoError R).
Definition env_of : Retry.Env (option R) :=
  Retry.mkEnv (fun k => match attempt k with Ok r => (Some r, None) | Err e => (None, Some e) end) (ctx_err w) (wait_err w) (rand w).
(** The response or the error, and the number of attempts. *)
Definition run_attempts : option (result Retry.GoError (option R) * Z) :=
  if skipRetry then Some (match attempt 1 with Ok r => Ok (Some r) | Err e => Err e end, 1)
  else match Retry.DoWithResult overflow None retryer env_of with
       | Some run => Some (match Retry.err _ run with Some e => Err e | None => Ok (Retry.value _ run) end, Retry.calls _ run)
       | None => None
       end.
Definition guarded (cb : CircuitBreaker.CircuitBreaker) : option (CircuitBreaker.CircuitBreaker * result CallError (option R) * Z) :=
  let '(cb, rejected) := if skipCircuit then (cb, None) else CircuitBreaker.Allow (started w) cb in
  match rejected with
  | Some _ => Some (cb, Err CircuitOpen, 0)
  | None =>
      match run_attempts with
      | None => None
      | Some (res, n) =>
          Some (if skipCircuit then cb else match res with Ok _ => CircuitBreaker.RecordSuccess (ended w) cb | Err _ => CircuitBreaker.RecordFailure (ended w) cb end,
                match res with Ok r => Ok r | Err e => Err (CallFailed e) end, n)
      end
  end.

(** * What a call does *)
(** Attempt [n] is the last: the error is its own or that of the context. *)
Definition last_error (n : Z) (e : Retry.GoError) : Prop :=
  exists own, attempt n = Err own /\ (e = own \/ ctx_err w n = Some e \/ wait_err w n = Some e).
Definition repeated (k : Z) : Prop :=
  exists e, attempt k = Err e /\ Retry.isRetryable retryer e = true /\ ctx_err w k = None /\ wait_err w k = None.
Definition final (n : Z) (res : result CallError (option R)) : Prop :=
  match res with
  | Ok r => exists resp, attempt n = Ok resp /\ r = Some resp
  | Err (CallFailed e) => last_error n e
  | Err CircuitOpen => False
  end.
Hypothesis Hmade : exists c, retryer = Retry.NewRetryer c.

Lemma run_attempts_spec : exists res n, run_attempts = Some (res, n) /\
  1 <= n <= (if skipRetry then 1 else Retry.MaxAttempts retryer) /\
  (forall j, 1 <= j < n -> repeated j) /\
  match res with Ok r => exists resp, attempt n = Ok resp /\ r = Some resp | Err e => last_error n e end.
Proof.
  unfold run_attempts. destruct skipRetry.
  - exists (match attempt 1 with Ok r => Ok (Some r) | Err e => Err e end), 1. split; [done|]. split; [lia|]. split; [lia|].
    destruct (attempt 1) as [r|e] eqn:E; [eauto|]. exists e. split; [done|by left].
  - destruct Hmade as [c Hc]. destruct (Retry.retry_correct overflow (@None R) c env_of) as (r & Hr & Hn & He & Hv & Hj). rewrite <- Hc in *.
    rewrite Hr. eexists _, _. split; [reflexivity|]. split; [done|]. split.
    + intros j Hjn. destruct (Hj j Hjn) as (_ & H1 & H2 & e & H3 & H4). exists e. cbn in *. destruct (attempt j); [done|]. injection H3 as ->. done.
    + unfold Retry.ends in He. cbn in *. destruct (Retry.err _ r) as [e|] eqn:Ee.
      * destruct (attempt (Retry.calls _ r)) as [resp|own] eqn:Et; [done|]. exists own. split; [done|]. cbn in He.
        destruct (ctx_err w (Retry.calls _ r)) as [ce|] eqn:Ec; [injection He as ->; auto|]. destruct ((_ <=? _) || _); [injection He as ->; auto|]. destruct He as (ce & Hw & [= ->]). auto.
      * rewrite (Hv eq_refl). destruct (attempt (Retry.calls _ r)) as [resp|own] eqn:Et; [eauto|]. cbn in He. destruct (ctx_err w (Retry.calls _ r)); [done|]. destruct ((_ <=? _) || _); [done|]. by destruct He as (? & _ & ?).
Qed.
(** The breaker rejects the call, or lets it through and records its outcome. *)
Lemma guarded_spec cb : exists cb' res n, guarded cb = Some (cb', res, n) /\
  (skipCircuit = false -> forall cb1 e, CircuitBreaker.Allow (started w) cb = (cb1, Some e) -> n = 0 /\ res = Err CircuitOpen /\ cb' = cb1) /\
  (forall cb1, (if skipCircuit then cb1 = cb else CircuitBreaker.Allow (started w) cb = (cb1, None)) ->
     1 <= n <= (if skipRetry then 1 else Retry.MaxAttempts retryer) /\ (forall j, 1 <= j < n -> repeated j) /\ final n res /\
     cb' = (if skipCircuit then cb1 else match res with Ok _ => CircuitBreaker.RecordSuccess (ended w) cb1 | Err _ => CircuitBreaker.RecordFailure (ended w) cb1 end)).
Proof.
  unfold guarded. destruct run_attempts_spec as (res & n & -> & Hn & Hj & Hres). destruct skipCircuit.
  - eexists _, _, n. split; [reflexivity|]. split; [done|]. intros cb1 ->. split; [done|]. split; [done|]. split; [by destruct res|done].
  - destruct (CircuitBreaker.Allow (started w) cb) as [cb1 [e|]].
    + eexists _, _, 0. split; [reflexivity|]. split; [intros _ cb' e' H; by simplify_eq|by intros cb'].
    + eexists _, _, n. split; [reflexivity|]. split; [by intros _ cb' e'|]. intros cb' [= <-]. split; [done|]. split; [done|]. split; by destruct res.
Qed.
End Resilient.
