(* ===== verification/RestClient.v ===== *)
(** The REST client with retries and a circuit breaker, and its middleware:
    [pkg/integration/rest].

    JSON of a body, the checks of [http.NewRequest], the texts of statuses and the
    network are parameters; what the network answers is given for each attempt. *)

From Stdlib Require Import ZArith Lia Ascii SpecFloat.
From stdpp Require Import base strings list gmap.
From S2P Require Import Prelude GoStrings GoText GoDuration GoCrypto GoValue IntegrationConfig.
From S2P Require Retry CircuitBreaker.

#[local] Open Scope string_scope.
#[local] Open Scope Z_scope.

(** ** Texts on the wire *)
Definition hex_upper (d : Z) : ascii := of_byte (if d <? 10 then d + 48 else d + 55).
Definition unreserved (c : ascii) : bool := is_digit c || is_upper c || is_lower c || existsb (Ascii.eqb c) ["-"; "_"; "."; "~"]%char.
(** [url.QueryEscape] *)
Fixpoint QueryEscape (s : string) : string :=
  match s with
  | EmptyString => ""
  | String c s =>
      if unreserved c then String c (QueryEscape s)
      else if Ascii.eqb c " " then String "+" (QueryEscape s)
      else String "%" (String (hex_upper (byte c / 16)) (String (hex_upper (byte c mod 16)) (QueryEscape s)))
  end.
Definition Values : Type := list (string * list string).
Fixpoint insert_key {A} (e : string * A) (l : list (string * A)) : list (string * A) :=
  match l with [] => [e] | e' :: l' => if String.ltb e.1 e'.1 then e :: l else e' :: insert_key e l' end.
(** [url.Values.Encode]: by key. *)
Definition Encode (q : Values) : string :=
  Join (concat (map (fun e => map (fun v => QueryEscape e.1 ++ "=" ++ QueryEscape v) e.2) (fold_right insert_key [] q))) "&".
Definition base64_digit (n : Z) : ascii :=
  of_byte (if n <? 26 then n + 65 else if n <? 52 then n + 71 else if n <? 62 then n - 4 else if n =? 62 then 43 else 47).
Fixpoint base64 (s : string) : string :=
  match s with
  | EmptyString => ""
  | String a EmptyString => let n := byte a * 16 in String (base64_digit (n / 64)) (String (base64_digit (n mod 64)) "==")
  | String a (String b EmptyString) =>
      let n := (byte a * 256 + byte b) * 4 in
      String (base64_digit (n / 4096)) (String (base64_digit (n / 64 mod 64)) (String (base64_digit (n mod 64)) "="))
  | String a (String b (String c s)) =>
      let n := (byte a * 256 + byte b) * 256 + byte c in
      String (base64_digit (n / 262144)) (String (base64_digit (n / 4096 mod 64)) (String (base64_digit (n / 64 mod 64)) (String (base64_digit (n mod 64)) (base64 s))))
  end.
(** [strings.TrimSuffix] of a slash. *)
Fixpoint drop_slash (s : string) : string :=
  match s with EmptyString => "" | String "/" EmptyString => "" | String c s => String c (drop_slash s) end.
Definition Header_Add (key value : string) (h : Header) : Header := <[ CanonicalHeaderKey key := (default [] (h !! CanonicalHeaderKey key) ++ [value])%list ]> h.

(** ** Requests and responses *)
Section Rest.
Variable Body : Type.
Record Request := mkRequest {
  Method : string; Path : string; Query : Values; r_Headers : list (string * list string); r_Body : option Body; r_Timeout : Z; SkipRetry : bool; SkipCircuit : bool }.
Record Response := mkResponse { StatusCode : Z; s_Headers : Header; s_Body : string; Duration : Z }.
Record HttpRequest := mkHttp { h_Method : string; h_URL : string; h_Header : Header; h_Body : option string }.
Record HttpResponse := mkHttpResponse { hr_Status : Z; hr_Header : Header; hr_Body : result Retry.GoError string }.
Definition IsSuccess (r : Response) : bool := (200 <=? StatusCode r) && (StatusCode r <? 300).
Definition IsClientError (r : Response) : bool := (400 <=? StatusCode r) && (StatusCode r <? 500).
Definition IsServerError (r : Response) : bool := 500 <=? StatusCode r.

(** ** Middleware; a request carries the number of its attempt *)
Record Middleware := mkMiddleware { HandleRequest : Z -> HttpRequest -> result Retry.GoError HttpRequest; HandleResponse : Response -> option Retry.GoError }.
Definition set_headers (l : list (string * string)) (req : HttpRequest) : HttpRequest :=
  mkHttp (h_Method req) (h_URL req) (fold_left (fun h e => Header_Set e.1 e.2 h) l (h_Header req)) (h_Body req).
(** The middleware for logging, metrics, retries, rate limits, redaction and caching
    change nothing. *)
Definition passive : Middleware := mkMiddleware (fun _ req => Ok req) (fun _ => None).
Definition NewLoggingMiddleware : Middleware := passive.
Definition NewMetricsMiddleware : Middleware := passive.
Definition NewHeaderMiddleware (headers : list (string * string)) : Middleware := mkMiddleware (fun _ req => Ok (set_headers headers req)) (fun _ => None).
Definition NewRequestIDMiddleware (generator : option (Z -> string)) : Middleware :=
  mkMiddleware (fun k req => Ok (match generator with Some g => set_headers [("X-Request-ID", g k)] req | None => req end)) (fun _ => None).
Definition NewCompressionMiddleware : Middleware := mkMiddleware (fun _ req => Ok (set_headers [("Accept-Encoding", "gzip, deflate")] req)) (fun _ => None).
Fixpoint handle_request (k : Z) (mws : list Middleware) (req : HttpRequest) : result Retry.GoError HttpRequest :=
  match mws with [] => Ok req | mw :: mws => match HandleRequest mw k req with Ok req => handle_request k mws req | Err e => Err e end end.
Fixpoint handle_response (mws : list Middleware) (resp : Response) : option Retry.GoError :=
  match mws with [] => None | mw :: mws => match HandleResponse mw resp with Some e => Some e | None => handle_response mws resp end end.

(** ** The client *)
Record Client := mkClient { config : Config; breaker : CircuitBreaker.CircuitBreaker; retryer : Retry.RetryConfig; middleware : list Middleware }.
Definition New (now : Z) (c : Config) : result ConfigError Client :=
  match Validate c with
  | Some e => Err e
  | None =>
      Ok (mkClient c (CircuitBreaker.NewCircuitBreaker now (ServiceName c) (Circuit c)) (Retry.NewRetryer (Retry_ c))
            ((if EnableLogging c then [NewLoggingMiddleware] else []) ++ (if EnableMetrics c then [NewMetricsMiddleware] else []))%list)
  end.
Definition Use (mws : list Middleware) (c : Client) : Client := mkClient (config c) (breaker c) (retryer c) (middleware c ++ mws)%list.
Definition with_breaker (cb : CircuitBreaker.CircuitBreaker) (c : Client) : Client := mkClient (config c) cb (retryer c) (middleware c).

Definition buildURL (c : Config) (req : Request) : string :=
  let base := drop_slash (BaseURL c) in
  let path := if HasPrefix (Path req) "/" then Path req else "/" ++ Path req in
  base ++ path ++ match Query req with [] => "" | q => "?" ++ Encode q end.
Definition applyAuth (auth : AuthConfig) (h : Header) : Header :=
  match a_Type auth with
  | AuthBearer => Header_Set "Authorization" ("Bearer " ++ Token auth) h
  | AuthAPIKey => Header_Set (if String.eqb (APIKeyHeader auth) "" then "X-API-Key" else APIKeyHeader auth) (APIKey auth) h
  | AuthBasic => Header_Set "Authorization" ("Basic " ++ base64 (Username auth ++ ":" ++ Password auth)) h
  | AuthOAuth2 => match OAuth2 auth with Some o => if String.eqb (o_Token o) "" then h else Header_Set "Authorization" ("Bearer " ++ o_Token o) h | None => h end
  | NoAuth | AuthNone => h
  end.
Definition headers_of (c : Config) (req : Request) : Header :=
  let h := Header_Set "Accept" "application/json" (Header_Set "Content-Type" "application/json" ∅) in
  let h := if String.eqb (UserAgent c) "" then h else Header_Set "User-Agent" (UserAgent c) h in
  let h := fold_left (fun h e => Header_Set e.1 e.2 h) (Headers c) h in
  let h := fold_left (fun h e => fold_left (fun h v => Header_Add e.1 v h) e.2 h) (r_Headers req) h in
  applyAuth (Auth c) h.

Variables (Marshal : Body -> result Retry.GoError string) (NewRequest : string -> string -> option Retry.GoError) (StatusText : Z -> string).
Definition wrapped (what : string) (e : Retry.GoError) : Retry.GoError :=
  Retry.mkError (Retry.is_deadline_exceeded e) (Retry.as_op_error e) (Retry.as_net_error e) (Retry.as_http_error e) (what ++ ": " ++ Retry.Error e).
(** The request of attempt [k], as it is sent. *)
Definition request_of (c : Client) (req : Request) (k : Z) : result Retry.GoError HttpRequest :=
  match match r_Body req with None => Ok None | Some b => match Marshal b with Ok s => Ok (Some s) | Err e => Err (wrapped "failed to marshal body" e) end end with
  | Err e => Err e
  | Ok body =>
      match NewRequest (Method req) (buildURL (config c) req) with
      | Some e => Err (wrapped "failed to create request" e)
      | None => handle_request k (middleware c) (mkHttp (Method req) (buildURL (config c) req) (headers_of (config c) req) body)
      end
  end.
Definition NewHTTPError (status : Z) (message : string) : Retry.GoError := Retry.mkError false false None (Some status) message.
(** One attempt.  The response that comes with an HTTP error is dropped by [Do]. *)
Definition execute (c : Client) (req : Request) (k : Z) (net : HttpRequest -> Race (result Retry.GoError HttpResponse)) (duration : Z) : result Retry.GoError Response :=
  match request_of c req k with
  | Err e => Err e
  | Ok httpReq =>
      match ExecuteWithResult (net httpReq) with
      | Err e => Err e
      | Ok httpResp =>
          match hr_Body httpResp with
          | Err e => Err (wrapped "failed to read response" e)
          | Ok body =>
              let resp := mkResponse (hr_Status httpResp) (hr_Header httpResp) body duration in
              match handle_response (middleware c) resp with
              | Some e => Err e
              | None =>
                  if 400 <=? hr_Status httpResp then Err (NewHTTPError (hr_Status httpResp) ("HTTP " ++ Itoa (hr_Status httpResp) ++ ": " ++ StatusText (hr_Status httpResp)))
                  else Ok resp
              end
          end
      end
  end.

(** What the network answers at each attempt, and the rest of the outside. *)
Record World := mkWorld { net : Z -> HttpRequest -> Race (result Retry.GoError HttpResponse); duration : Z -> Z; outside : Outside }.
Variable overflow : float64 -> Z.
Definition attempt (c : Client) (req : Request) (w : World) (k : Z) : result Retry.GoError Response := execute c req k (net w k) (duration w k).
(** The response or the error, and the number of attempts. *)
Definition Do (c : Client) (req : Request) (w : World) : option (Client * result CallError (option Response) * Z) :=
  match guarded overflow (SkipCircuit req) (SkipRetry req) (retryer c) (outside w) (attempt c req w) (breaker c) with
  | Some (cb, res, n) => Some (with_breaker cb c, res, n)
  | None => None
  end.

(** ** Calls with options *)
Definition RequestOption : Type := Request -> Request.
Definition WithQuery (params : Values) : RequestOption := fun r => mkRequest (Method r) (Path r) params (r_Headers r) (r_Body r) (r_Timeout r) (SkipRetry r) (SkipCircuit r).
Definition set_request_headers (h : list (string * list string)) : RequestOption := fun r => mkRequest (Method r) (Path r) (Query r) h (r_Body r) (r_Timeout r) (SkipRetry r) (SkipCircuit r).
Definition WithHeader (key value : string) : RequestOption := fun r => set_request_headers (put (CanonicalHeaderKey key) [value] (r_Headers r)) r.
Definition WithHeaders (headers : list (string * list string)) : RequestOption := fun r => set_request_headers (fold_left (fun h e => put e.1 e.2 h) headers (r_Headers r)) r.
Definition WithTimeout_ (t : Z) : RequestOption := fun r => mkRequest (Method r) (Path r) (Query r) (r_Headers r) (r_Body r) t (SkipRetry r) (SkipCircuit r).
Definition WithSkipRetry : RequestOption := fun r => mkRequest (Method r) (Path r) (Query r) (r_Headers r) (r_Body r) (r_Timeout r) true (SkipCircuit r).
Definition WithSkipCircuit : RequestOption := fun r => mkRequest (Method r) (Path r) (Query r) (r_Headers r) (r_Body r) (r_Timeout r) (SkipRetry r) true.
Definition call (method : string) (body : option Body) (c : Client) (path : string) (opts : list RequestOption) :=
  Do c (fold_left (fun r opt => opt r) opts (mkRequest method path [] [] body 0 false false)).
Definition Get := call "GET" None.
Definition Post (body : Body) := call "POST" (Some body).
Definition Put (body : Body) := call "PUT" (Some body).
Definition Patch (body : Body) := call "PATCH" (Some body).
Definition Delete := call "DELETE" None.
End Rest.

(** ** What middleware keeps and logs *)
Definition index_of (s sub : string) : option nat := String.index 0 sub s.
(** One pattern of [redactURL], in the text so far. *)
Definition redact_pattern (urlStr pattern : string) : string :=
  match index_of (ToLower urlStr) pattern with
  | None => urlStr
  | Some idx =>
      take_str idx urlStr ++ pattern ++ "[REDACTED]" ++ match index_of (drop_str idx urlStr) "&" with None => "" | Some endIdx => drop_str (idx + endIdx) urlStr end
  end.
Definition redactURL (redactFields : list string) (urlStr : string) : string :=
  fold_left (fun u field => let lower_ := ToLower field in fold_left redact_pattern [lower_ ++ "="; ReplaceAll lower_ "_" "" ++ "="] u) redactFields urlStr.
Definition names_field (redactFields : list string) (key : string) : bool := existsb (fun field => Contains (ToLower key) (ToLower field)) redactFields.
Definition redactHeaders (redactFields : list string) (headers : Header) : gmap string string :=
  map_imap (fun key values =>
    if names_field redactFields key || String.eqb (ToLower key) "authorization" then Some "[REDACTED]" else hd_error values) headers.
(** [redactMap] and [redactSlice] *)
Fixpoint redact (redactFields : list string) (j : JSON) : JSON :=
  match j with
  | JObject kvs => JObject (map (fun e => (e.1, if names_field redactFields e.1 then JString "[REDACTED]" else redact redactFields e.2)) kvs)
  | JArray l => JArray (map (redact redactFields) l)
  | j => j
  end.
(** [RedactJSON] over the codec: only objects are looked at. *)
Definition RedactJSON (parse : string -> option JSON) (print : JSON -> option string) (redactFields : list string) (data : string) : string :=
  if String.eqb data "" then data
  else match parse data with
       | Some (JObject kvs) => default data (print (redact redactFields (JObject kvs)))
       | Some JNull => default data (print JNull)
       | _ => data
       end.

Record RateLimit := mkRateLimit { retryAfter : Z; lastRateLimit : Z }.
Definition RateLimit_HandleResponse (now : Z) (resp : Response) (m : RateLimit) : RateLimit :=
  if StatusCode resp =? 429 then
    let retry := Header_Get "Retry-After" (s_Headers resp) in
    mkRateLimit (if String.eqb retry "" then retryAfter m else match ParseDuration (retry ++ "s") with Ok d => d | Err _ => retryAfter m end) now
  else m.
Record Caching := mkCaching { cache : gmap string (Response * Z); maxAge : Z }.
Definition NewCachingMiddleware (age : Z) : Caching := mkCaching ∅ age.
Definition Caching_Get (now : Z) (key : string) (m : Caching) : Caching * option Response :=
  match cache m !! key with
  | Some (resp, timestamp) =>
      if CircuitBreaker.time_since now timestamp <? maxAge m then (m, Some resp) else (mkCaching (delete key (cache m)) (maxAge m), None)
  | None => (m, None)
  end.
Definition Caching_Set (now : Z) (key : string) (resp : Response) (m : Caching) : Caching := mkCaching (<[key := (resp, now)]> (cache m)) (maxAge m).

(** A cached response is found while it is young, and others stay. *)
Lemma Caching_found now now' key resp m : Caching_Get now' key (Caching_Set now key resp m) =
  if CircuitBreaker.time_since now' now <? maxAge m then (Caching_Set now key resp m, Some resp) else (mkCaching (delete key (cache m)) (maxAge m), None).
Proof.
  unfold Caching_Get, Caching_Set. cbn. rewrite lookup_insert_eq. by rewrite delete_insert_eq.
Qed.
(** The header of the configuration's authentication is the one that is sent. *)
Lemma bearer_wins Body c (req : Request Body) : a_Type (Auth c) = AuthBearer -> headers_of Body c req !! "Authorization" = Some ["Bearer " ++ Token (Auth c)].
Proof. intros H. unfold headers_of, applyAuth. rewrite H. unfold Header_Set. change (CanonicalHeaderKey "Authorization") with "Authorization". apply lookup_insert_eq. Qed.
Lemma authorization_hidden fields h : redactHeaders fields h !! "Authorization" = match h !! "Authorization" with Some _ => Some "[REDACTED]" | None => None end.
Proof. unfold redactHeaders. rewrite map_lookup_imap. destruct (h !! "Authorization"); [|done]. cbn. by rewrite orb_true_r. Qed.

(** * Calls *)
Section Calls.
Context (Body : Type) (Marshal : Body -> result Retry.GoError string) (NewRequest : string -> string -> option Retry.GoError) (StatusText : Z -> string) (overflow : float64 -> Z).
Local Abbreviation do := (Do Body Marshal NewRequest StatusText overflow).
Local Abbreviation try := (attempt Body Marshal NewRequest StatusText).
Implicit Types (c : Client) (req : Request Body) (w : World).

(** A client that [New] has made, whatever it has gone through. *)
Definition made (c : Client) : Prop := retryer c = Retry.NewRetryer (Retry_ (config c)).
Local Abbreviation again c req w := (repeated (retryer c) (outside w) (try c req w)).
(** *** What is not asked again *)
Definition answered (ans : Race (result Retry.GoError HttpResponse)) (status : Z) : Prop :=
  exists h body, ans = Finished (Ok (mkHttpResponse status h (Ok body))).
Definition quiet (c : Client) : Prop := Forall (fun mw => forall r, HandleResponse mw r = None) (middleware c).
Lemma handle_quiet mws resp : Forall (fun mw => forall r, HandleResponse mw r = None) mws -> handle_response mws resp = None.
Proof. induction 1 as [|mw mws H _ IH]; [done|]. cbn. by rewrite H. Qed.
Lemma client_error_final c req w k status : quiet c -> Retry.RetryIf (retryer c) = None -> (forall h, answered (net w k h) status) -> (exists h, request_of Body Marshal NewRequest c req k = Ok h) ->
  status < 500 -> status <> 429 -> ~ again c req w k.
Proof.
  intros Hq Hr Ha [h Hh] Hs Hne (e & He & Hre & _). unfold try, execute in He. rewrite Hh in He. destruct (Ha h) as (hd & body & Hn). rewrite Hn in He. cbn in He. rewrite (handle_quiet _ _ Hq) in He.
  destruct (400 <=? status); [|done]. injection He as <-. revert Hre. unfold Retry.isRetryable. rewrite Hr. unfold Retry.IsRetryable. cbn. unfold Retry.IsRetryableStatusCode.
  rewrite (proj2 (Z.eqb_neq status 429) Hne), (proj2 (Z.eqb_neq status 502)), (proj2 (Z.eqb_neq status 503)), (proj2 (Z.eqb_neq status 504)), (proj2 (Z.leb_gt 500 status)) by lia. done.
Qed.

(** C21: A call of a client always returns.  If its circuit breaker rejects it, no
    request is made; otherwise there are at least one and at most the configured
    number of attempts, all but the last failed with an error that may be retried
    under a live context, the answer is that of the last one, and the breaker
    records exactly one success or failure.  An answer that is neither a server
    error nor 429 ends the call. *)
Theorem rest_call c req w : made c ->
  exists c' res n, do c req w = Some (c', res, n) /\
    (SkipCircuit Body req = false -> forall cb e, CircuitBreaker.Allow (started (outside w)) (breaker c) = (cb, Some e) -> n = 0 /\ res = Err CircuitOpen /\ breaker c' = cb) /\
    (forall cb, (if SkipCircuit Body req then cb = breaker c else CircuitBreaker.Allow (started (outside w)) (breaker c) = (cb, None)) ->
       1 <= n <= (if SkipRetry Body req then 1 else Retry.MaxAttempts (retryer c)) /\
       (forall j, 1 <= j < n -> again c req w j) /\ final (outside w) (try c req w) n res /\
       breaker c' = (if SkipCircuit Body req then cb else match res with Ok _ => CircuitBreaker.RecordSuccess (ended (outside w)) cb | Err _ => CircuitBreaker.RecordFailure (ended (outside w)) cb end) /\
       (forall k status, quiet c -> Retry.RetryIf (retryer c) = None -> 1 <= k -> (forall h, answered (net w k h) status) -> (exists h, request_of Body Marshal NewRequest c req k = Ok h) ->
          status < 500 -> status <> 429 -> n <= k)).
Proof.
  intros Hm. destruct (guarded_spec overflow (SkipCircuit Body req) (SkipRetry Body req) (retryer c) (outside w) (try c req w) (ex_intro _ (Retry_ (config c)) Hm) (breaker c)) as (cb' & res & n & Hg & H1 & H2).
  exists (with_breaker cb' c), res, n. unfold Do. rewrite Hg. split; [done|]. split; [exact H1|]. intros cb Hcb. destruct (H2 cb Hcb) as (Hn & Hj & Hf & Hb). split; [done|]. split; [done|]. split; [done|]. split; [done|].
  intros k status Hq Hr Hk Ha Hreq Hs Hne. destruct (Z.le_gt_cases n k); [done|]. exfalso. apply (client_error_final c req w k status Hq Hr Ha Hreq Hs Hne). apply Hj. lia.
Qed.
End Calls.

(** ** Concrete calls *)
Definition api : Config := set_BaseURL "https://api.example.com/" (set_ServiceName "api" DefaultConfig).
Definition client : Client := match New 0 api with Ok c => c | Err _ => mkClient api (CircuitBreaker.NewCircuitBreaker 0 "" (Circuit api)) (Retry_ api) [] end.
Definition reply (status : Z) : Race (result Retry.GoError HttpResponse) := Finished (Ok (mkHttpResponse status ∅ (Ok ""))).
Definition world (answers : Z -> Race (result Retry.GoError HttpResponse)) (t : Z) : World :=
  mkWorld (fun k _ => answers k) (fun _ => 0) (mkOutside (fun _ => None) (fun _ => None) (fun _ => S754_zero false) t t).
Definition get (c : Client) (w : World) := Get string Ok (fun _ _ => None) (fun _ => "") (fun _ => 0) c "/users" [] w.
Lemma rest_call_witness : exists c' res n, get client (world (fun _ => reply 404) 1) = Some (c', res, n) /\ n <= 1.
Proof.
  destruct (rest_call string Ok (fun _ _ => None) (fun _ => "") (fun _ => 0) client (mkRequest string "GET" "/users" [] [] None 0 false false) (world (fun _ => reply 404) 1) eq_refl) as (c' & res & n & Hd & _ & H).
  exists c', res, n. split; [exact Hd|]. destruct (H (breaker client)) as (_ & _ & _ & _ & H'); [reflexivity|]. apply (H' 1 404).
  - repeat constructor.
  - reflexivity.
  - lia.
  - intros h. exists ∅, "". reflexivity.
  - eexists. reflexivity.
  - lia.
  - lia.
Defined.
Definition states (r : option (Client * result CallError (option Response) * Z)) : option (CircuitBreaker.CircuitState * Z) :=
  match r with Some (c, _, n) => Some (CircuitBreaker.state (breaker c), n) | None => None end.
Definition next (answers : Z -> Race (result Retry.GoError HttpResponse)) (t : Z) (c : Client) : Client := match get c (world answers t) with Some (c, _, _) => c | None => c end.
(** Five requests for what is not there open the circuit of a healthy service. *)
Example not_found_opens : CircuitBreaker.state (breaker (fold_left (fun c t => next (fun _ => reply 404) t c) [1; 2; 3; 4; 5] client)) = CircuitBreaker.StateOpen.
Proof. vm_compute. reflexivity. Qed.
(** When the time runs out, the call is tried again if the transport says so first,
    and not if the context does. *)
Example timeout_race :
  states (get client (world (fun _ => Expired true) 1)) = Some (CircuitBreaker.StateClosed, 1) /\
  states (get client (world (fun _ => Finished (Err DeadlineExceeded)) 1)) = Some (CircuitBreaker.StateClosed, 3).
Proof. vm_compute. split; reflexivity. Qed.
(** A header of a request is added to the default one. *)
Example two_types : headers_of string api (WithHeader string "Content-Type" "text/csv" (mkRequest string "POST" "/" [] [] None 0 false false)) !! "Content-Type" = Some ["application/json"; "text/csv"].
Proof. vm_compute. reflexivity. Qed.
(** The header that holds an API key by default is logged. *)
Example key_logged : redactHeaders (RedactFields api) {["X-Api-Key" := ["k-123"]]} !! "X-Api-Key" = Some "k-123".
Proof. vm_compute. reflexivity. Qed.
(** The second value of a parameter is logged. *)
Example second_token : redactURL ["token"] "/a?token=x&token=y" = "/a?token=[REDACTED]&token=y".
Proof. vm_compute. reflexivity. Qed.
Example encoded : buildURL string api (WithQuery string [("q", ["a b&c"]); ("p", ["1"; "2"])] (mkRequest string "GET" "users" [] [] None 0 false false)) = "https://api.example.com/users?p=1&p=2&q=a+b%26c".
Proof. vm_compute. reflexivity. Qed.
Example basic : base64 "user:pass" = "dXNlcjpwYXNz".
Proof. vm_compute. reflexivity. Qed.
