(* ===== verification/GraphQlClient.v ===== *)
(** The GraphQL client: [pkg/integration/graphql/client.go], over the calls of
    [IntegrationConfig] and the requests of [RestClient].

    The encoding of a request, the decoding of an answer and of its data are
    parameters. *)

From Stdlib Require Import ZArith Lia Ascii SpecFloat.
From stdpp Require Import base strings list gmap.
From S2P Require Import Prelude GoStrings GoText GoCrypto IntegrationConfig RestClient.
From S2P Require Retry CircuitBreaker.

#[local] Open Scope string_scope.
#[local] Open Scope Z_scope.

Section GraphQl.
(** Values of variables and of data. *)
Variables (Any Data : Type).
Record Request := mkRequest { Query : string; OperationName : string; Variables_ : list (string * Any) }.
Record Location := mkLocation { Line : Z; Column : Z }.
Record Error := mkError { Message : string; Locations : list Location; e_Path : list Any; e_Extensions : list (string * Any) }.
Record Response := mkResponse { Data_ : string; Errors : list Error; Extensions : list (string * Any); StatusCode : Z; Duration : Z }.
Record ExecuteOptions := mkOptions { o_Timeout : Z; SkipRetry : bool; SkipCircuit : bool; o_Headers : list (string * list string) }.
Definition no_options : ExecuteOptions := mkOptions 0 false false [].
Record Client := mkClient { config : Config; breaker : CircuitBreaker.CircuitBreaker; retryer : Retry.RetryConfig }.
Definition New (now : Z) (c : Config) : result ConfigError Client :=
  match Validate c with
  | Some e => Err e
  | None => Ok (mkClient c (CircuitBreaker.NewCircuitBreaker now (ServiceName c) (Circuit c)) (Retry.NewRetryer (Retry_ c)))
  end.

Variables (Marshal : Request -> result Retry.GoError string) (NewRequest : string -> string -> option Retry.GoError) (StatusText : Z -> string).
(** [json.Unmarshal] of an answer, with the status and the duration still to set. *)
Variable Unmarshal : string -> result Retry.GoError (string * list Error * list (string * Any)).
Definition headers_of (c : Config) (opts : ExecuteOptions) : Header :=
  let h := Header_Set "Accept" "application/json" (Header_Set "Content-Type" "application/json" ∅) in
  let h := if String.eqb (UserAgent c) "" then h else Header_Set "User-Agent" (UserAgent c) h in
  let h := fold_left (fun h e => Header_Set e.1 e.2 h) (Headers c) h in
  let h := fold_left (fun h e => fold_left (fun h v => Header_Add e.1 v h) e.2 h) (o_Headers opts) h in
  applyAuth (Auth c) h.
Definition request_of (c : Client) (req : Request) (opts : ExecuteOptions) : result Retry.GoError HttpRequest :=
  match Marshal req with
  | Err e => Err (wrapped "failed to marshal request" e)
  | Ok body =>
      match NewRequest "POST" (BaseURL (config c)) with
      | Some e => Err (wrapped "failed to create request" e)
      | None => Ok (mkHttp "POST" (BaseURL (config c)) (headers_of (config c) opts) (Some body))
      end
  end.
Definition execute (c : Client) (req : Request) (opts : ExecuteOptions) (net : HttpRequest -> Race (result Retry.GoError HttpResponse)) (duration : Z) : result Retry.GoError Response :=
  match request_of c req opts with
  | Err e => Err e
  | Ok httpReq =>
      match ExecuteWithResult (net httpReq) with
      | Err e => Err e
      | Ok httpResp =>
          match hr_Body httpResp with
          | Err e => Err (wrapped "failed to read response" e)
          | Ok body =>
              if 400 <=? hr_Status httpResp then Err (NewHTTPError (hr_Status httpResp) ("HTTP " ++ Itoa (hr_Status httpResp) ++ ": " ++ StatusText (hr_Status httpResp)))
              else match Unmarshal body with
                   | Err e => Err (wrapped "failed to parse response" e)
                   | Ok (data, errors, extensions) => Ok (mkResponse data errors extensions (hr_Status httpResp) duration)
                   end
          end
      end
  end.
Variable overflow : float64 -> Z.
Definition Execute (c : Client) (req : Request) (opts : option ExecuteOptions) (w : World) : option (Client * result CallError (option Response) * Z) :=
  let opts := default no_options opts in
  match guarded overflow (SkipCircuit opts) (SkipRetry opts) (retryer c) (outside w) (fun k => execute c req opts (net w k) (duration w k)) (breaker c) with
  | Some (cb, res, n) => Some (mkClient (config c) cb (retryer c), res, n)
  | None => None
  end.

(** ** Queries *)
Inductive QueryError := NotExecuted (e : CallError) | GraphQLError (errors : list Error) | BadData (e : Retry.GoError).
Definition GraphQLError_Error (errors : list Error) : string := match errors with [] => "unknown graphql error" | e :: _ => Message e end.
Definition HasError (r : Response) : bool := match Errors r with [] => false | _ => true end.
Definition FirstError (r : Response) : option Error := hd_error (Errors r).
(** [json.Unmarshal] of the data into the caller's value. *)
Variable into : string -> result Retry.GoError Data.
Definition UnmarshalData (r : Response) : result Retry.GoError (option Data) :=
  if String.eqb (Data_ r) "" then Ok None else match into (Data_ r) with Ok d => Ok (Some d) | Err e => Err e end.
(** What the answer leaves in the caller's value, if there is one. *)
Definition finish (wanted : bool) (res : result CallError (option Response)) : result QueryError (option Data) :=
  match res with
  | Err e => Err (NotExecuted e)
  | Ok None => Ok None
  | Ok (Some resp) =>
      if HasError resp then Err (GraphQLError (Errors resp))
      else if wanted then match UnmarshalData resp with Ok d => Ok d | Err e => Err (BadData (wrapped "failed to unmarshal data" e)) end else Ok None
  end.
Definition QueryWithOperation (c : Client) (query operationName : string) (variables : list (string * Any)) (wanted : bool) (w : World) :=
  match Execute c (mkRequest query operationName variables) None w with
  | Some (c, res, n) => Some (c, finish wanted res, n)
  | None => None
  end.
Definition Query_ (c : Client) (query : string) := QueryWithOperation c query "".
Definition Mutate (c : Client) (mutation : string) := Query_ c mutation.

(** * Errors of the language are answers *)
Definition made (c : Client) : Prop := retryer c = Retry.NewRetryer (Retry_ (config c)).
(** An answer that can be read, whatever errors it lists, is not asked for again
    and counts as a success, and its errors reach the caller. *)
Lemma errors_are_answers c query op variables wanted w cb h body data errors extensions status : made c -> CircuitBreaker.Allow (started (outside w)) (breaker c) = (cb, None) ->
  (forall req, net w 1 req = Finished (Ok (mkHttpResponse status h (Ok body)))) -> status < 400 -> Unmarshal body = Ok (data, errors, extensions) -> errors <> [] ->
  (exists req, request_of c (mkRequest query op variables) no_options = Ok req) ->
  QueryWithOperation c query op variables wanted w = Some (mkClient (config c) (CircuitBreaker.RecordSuccess (ended (outside w)) cb) (retryer c), Err (GraphQLError errors), 1).
Proof.
  intros Hm Ha Hnet Hs Hu He [req Hreq]. unfold QueryWithOperation, Execute. cbn [default SkipCircuit SkipRetry no_options].
  set (att := fun k => execute c (mkRequest query op variables) (id no_options) (net w k) (duration w k)).
  assert (att 1 = Ok (mkResponse data errors extensions status (duration w 1))) as H1.
  { unfold att, execute. change (id no_options) with no_options. rewrite Hreq, Hnet. cbn. rewrite (proj2 (Z.leb_gt 400 status) Hs). by rewrite Hu. }
  destruct (guarded_spec overflow false false (retryer c) (outside w) att (ex_intro _ (Retry_ (config c)) Hm) (breaker c)) as (cb' & res & n & Hg & _ & H2).
  destruct (H2 cb Ha) as (Hn & Hj & Hf & Hcb). unfold att in Hg. change (id no_options) with no_options in Hg. rewrite Hg.
  assert (n = 1) as ->. { destruct (Z.eq_dec n 1); [done|]. exfalso. destruct (Hj 1) as (e & He' & _); [lia|]. congruence. }
  destruct res as [r|[|e]]; cbn in Hf; [|done|destruct Hf as (own & Ho & _); congruence]. destruct Hf as (resp & Hr & ->). rewrite H1 in Hr. injection Hr as <-. subst cb'. cbn. by destruct errors.
Qed.
End GraphQl.
